(* ===== verification/_CoqProject ===== *)
-Q . S2P
Prelude.v
HashFunc.v
Bitmapset.v
FsmPage.v
Xid.v
Clog.v
KnownXids.v
VarSup.v
Transam.v
Htup.v
Tqual.v
ProcArray.v
System.v
Isolation.v
Xact.v
XactSpec.v
FreeSpace.v
Int.v
IntText.v
PqFormat.v
QSort.v
Page.v
PageSpec.v
LWLock.v
Prune.v
PruneSpec.v
HotSearch.v
Numeric.v
NumericSpec.v
NumericMul.v
NumericOps.v
NumericDiv.v
NumericConv.v
NumericInt.v
NumericText.v
NumericTypmod.v
NumericHash.v
NumericWire.v
