(* ===== verification/Prelude.v ===== *)
(** * A verification library for PostgreSQL 9.1.4

    The repository is the PostgreSQL 9.1.4 source tree with a patch for hypothetical
    indexes, and a small Java client that proposes indexes.  All source paths in this
    library are relative to [src/postgresql-9.1.4/src/].

    ** The program

    A backend process runs the commands of one session.  Row versions ("tuples") are
    stored in heap pages; a tuple names the transaction that inserted it and the one
    that deleted it.  The commit log holds the outcome of every transaction, the
    subtransaction log the parent of every subtransaction, and the visibility routines
    decide from them, with the help of hint bits they leave in the tuple, which version
    a command sees.  A page holds tuples behind an array of line pointers; when space runs
    short, the versions that nobody can see are pruned, the chains of versions within the
    page (HOT chains) are shortened and the page is compacted, while readers follow the
    chains.  A relation's free space map says where a new version fits.  The
    planner's sets of relations are bitmapsets, and hash indexes, hash joins and
    bitmapsets share the same hash function.

    The commands of a session move the backend through transaction blocks, savepoints
    and their error states.  A transaction that writes takes an id from a counter in
    shared memory and advertises it in its entry of the array of backends until it ends;
    snapshots and the horizon of vacuum are computed from that array.  Structures in shared
    memory are protected by lightweight locks.  Values of the data types come in and go
    out as text and as messages; arithmetic on exact decimal numbers is done on
    digits of base 10000.

    ** The files and what they model

    - [Prelude]: outcomes of C code (a return, [ereport(ERROR)], undefined behaviour
      including a failed [Assert], exhausted fuel), the state-and-outcome monad [cmd],
      loops, arrays with their bounds, integers at their width, and the lemmas on them.
    - [HashFunc]: [backend/access/hash/hashfunc.c], the mixing macros, [hash_any] with
      its aligned, unaligned, little and big endian code paths, [hash_uint32] and the
      hash support functions of the types.
    - [Bitmapset]: [backend/nodes/bitmapset.c], every function, over a heap of palloc'd
      sets in which [pfree], recycling and aliasing are visible.
    - [FsmPage]: [backend/storage/freespace/fsmpage.c], the tree of one page of the free
      space map.
    - [Xid]: transaction ids ([include/access/transam.h]), their circular order
      ([backend/access/transam/transam.c]) and log positions.
    - [Clog]: [backend/access/transam/clog.c], the status bits, the update of a
      transaction tree page by page, new pages.  The state is the map of pages in the
      SLRU buffers and the list of the states published at each lock release.
    - [KnownXids]: the array of running transactions that a standby server keeps
      ([KnownAssignedXids] of [backend/storage/ipc/procarray.c]).
    - [VarSup]: [backend/access/transam/varsup.c], the assignment of transaction and
      object ids with the limits against wraparound, over the shared memory of the
      transaction system ([Shmem]).
    - [Transam]: the rest of [transam.c] and [backend/access/transam/subtrans.c]; the
      state is a backend's view of the two logs, [TransactionXmin] and the one-entry
      cache of [TransactionLogFetch].
    - [Htup]: the visibility fields of the tuple header ([include/access/htup.h]) and
      combo command ids ([backend/utils/time/combocid.c]).
    - [Tqual]: [backend/utils/time/tqual.c], every visibility routine, run against a
      history of the transaction system, one tick per question asked.
    - [ProcArray]: the operations of [procarray.c] on the array of backends: ends of
      transactions, snapshots, the horizon, the tests for running transactions.
    - [System]: the backends together: a step relation over shared memory and the
      backends' own states, whose steps are the operations above, and its invariant.
    - [Isolation]: executions of [System] as histories for [Tqual].
    - [Xact]: [backend/access/transam/xact.c], the stack of transactions of a backend and
      its block states, with the dispatch of transaction commands in
      [backend/tcop/utility.c] and [backend/tcop/postgres.c]; an operation keeps the state
      also when it raises an error.
    - [XactSpec]: the abstract machine of transaction blocks, and the refinement.
    - [FreeSpace]: [backend/storage/freespace/freespace.c], every function, over the
      fork of one relation and the cached length.
    - [Int] and [IntText]: the integer types, [backend/utils/adt/int.c], [int8.c] and
      [numutils.c]: arithmetic with overflow tests, text input and output, series.
    - [QSort]: [port/qsort.c] and [port/qsort_arg.c], over an array of records and a comparison function.
    - [Page] and [PageSpec]: [backend/storage/page/bufpage.c] and [include/storage/bufpage.h],
      every function of heap pages, on the bytes of a page; the abstract page is its list of items.
    - [LWLock]: [backend/storage/lmgr/lwlock.c], as steps of processes that interleave between
      the critical sections of the lock's spinlock.
    - [Prune], [PruneSpec] and [HotSearch]: [backend/access/heap/pruneheap.c] on the pages of [Page]
      and the verdicts of [Tqual], and [heap_hot_search_buffer] of
      [backend/access/heap/heapam.c], the reader of the chains.
    - [Numeric]: [backend/utils/adt/numeric.c], digits, addition, multiplication, division,
      rounding, the packed format and the SQL functions on it; [NumericConv]: text, declared precision and
      integers.  Their theorems: [NumericSpec] (the value of a variable, addition, comparison, rounding,
      packing), [NumericMul], [NumericDiv], [NumericOps] (the SQL functions), [NumericInt], [NumericText],
      [NumericTypmod]; [NumericHash] and [NumericWire] hold hashing and the binary format
      with theirs.
    - [PqFormat]: [backend/libpq/pqformat.c], integers in messages, and the binary formats of
      the integer types.

    Functions keep their C names.  The state of a component is a record, an operation
    that changes it is a [cmd] over that record, a loop of the source is a [Fixpoint]
    or one of the loop combinators below, and a condition that the code asserts is
    undefined behaviour when it fails, so that every theorem that gives a [Ret] also
    shows that no assertion fails and no array is read or written out of bounds.

    ** The theorems

    - The transaction system ([System], [Isolation]): every reachable state satisfies the
      invariant that ties the counters, the array of backends and the published horizons
      together; a snapshot taken in an execution separates the transactions that had ended
      from all others for as long as it is used, so that [HeapTupleSatisfiesMVCC] gives
      one verdict per snapshot; vacuum with the horizon of [GetOldestXmin] removes nothing
      that a snapshot of the present or the future sees; [TransactionIdIsInProgress] is
      right while transactions end around it; a running transaction can always end; ids
      are never assigned past the wraparound limit; the standby's array refines a set.
    - Transaction blocks ([XactSpec]): whatever statements and errors come, a backend
      stays in the abstract machine and no assertion or unexpected state is met; a
      session can always be ended; [TransactionIdIsCurrentTransactionId] finds exactly the
      ids of the live stack.
    - Integers ([Int], [IntText]): every overflow test is exact; division and its errors;
      text output and input are inverse and stay within their buffers; series end at the
      end of the type.
    - Visibility ([Tqual]): the verdict of [HeapTupleSatisfiesMVCC] is that of the
      snapshot and of nothing else: not of transactions that end while it runs, nor of
      the hint bits found or left; a tuple that [HeapTupleSatisfiesVacuum] calls dead
      is invisible to every snapshot that respects the horizon; the [Self], [Now],
      [Update], [Dirty] and [Vacuum] routines agree with specifications over the states
      of the inserting and the deleting transaction ([ins], [del], [self_spec] and its
      relatives), and every hint bit they leave is sound.
    - Atomic commit ([Clog], [Transam]): [TransactionIdSetTreeStatus] sets exactly the
      statuses of the tree; whatever published state another backend looks at, a tree
      being committed looks uncommitted as a whole or committed as a whole;
      [TransactionIdDidCommit] and [TransactionIdDidAbort] terminate and give the
      outcome of the topmost ancestor; the parent log round trips.
    - Identifiers ([Xid], [Htup]): the circular order is the order of the 64-bit
      counters within 2^31 of each other; combo command ids read back as the pair that
      was stored.
    - Free space ([FsmPage], [FreeSpace]): every operation terminates on every page and
      map, torn or not; recording and reading back round trips and touches one block; a
      search returns only blocks with enough recorded space, and after a vacuum it fails
      only if there is none; truncation forgets exactly the blocks removed; the pages
      are numbered in depth-first order without collision; categories never promise
      space that is not there.
    - Bitmapsets and hashing: every operation refines the operation on the strictly
      increasing list of the members; recycling functions free or reuse exactly what
      they say; iteration ends after the members in order; equal sets hash equally;
      [hash_any] does not depend on alignment, [hash_uint32] agrees with it, and integer
      types hash equal values equally.
    - Pages ([PageSpec]): an invariant of the layout that every operation keeps, and each operation is that on
      the list of items; compaction moves tuples without changing one; what was added is read back.
    - Pruning ([PruneSpec], [HotSearch]): a chain that is pruned keeps the versions that some snapshot may see, in
      their order, behind the same line pointer; a reader finds the same version before and after.
    - Sorting ([QSort]): the result is a sorted permutation whatever the strategy; it ends within the
      recursion and the scans stay within the array.
    - Lightweight locks ([LWLock]): mutual exclusion, conservation of wakeups, and no process is
      left asleep while the lock is free.
    - Exact numbers: sums, products, quotients, remainders and roundings are those of rational numbers, with the
      scales of the results; packing loses nothing or is reported; comparison and hashing go by value; text and
      messages are read back as the same number; the declared precision and scale are enforced; conversions to
      integers are exact, or reported.  Where the code falls short (an accumulator that
      overflows, an overflow test that misses values, a read behind not-a-number, digits hidden by
      a scale), a theorem shows the input.

    ** Interfaces and parameters

    [Tqual] is proved against the class [XactHistory]: what the visibility routines rely
    on of the process array, of multixacts and of the commit log (a transaction that has
    ended stays ended with the same outcome and is in progress until then); [Isolation]
    discharges it for the executions of [System].  [QSort] is proved against the class [Comparator]: a total
    preorder.  [Xact] has as parameters an oracle that
    says which calls of other modules raise an error and how many ids other backends take
    meanwhile, and the code of the user that runs inside a transaction, of which [tame]
    says that it leaves the stack as it was but for ids.  What a machine does with the one
    integer quotient that overflows is the parameter [division_overflow].  The block
    size [BLCKSZ] is a parameter, with the sizes [configure] accepts as a hypothesis.
    What other backends do to a page of the free space map while a search upgrades its
    lock is the parameter [interfere]: an arbitrary function on well-formed pages.

    ** Fuel and bounds

    Every loop without a structural measure has fuel, and the theorems show that the
    result is never [Timeout]: the searches in an FSM page need one pass per node and at
    most two rounds, since the second works on a rebuilt page under the exclusive lock;
    the tree search needs 10003 passes per level because the source gives up after 10001
    restarts; the walks up the subtransaction log need one step per transaction id
    between [TransactionXmin] and the start, since a parent's id is smaller, and take
    any larger fuel; [set_status_by_pages] needs one step per subtransaction; the loops over
    the transaction stack need one step per element; the digits of an integer are at most
    20; a series needs one call more than it has values.  The recursion of [qsort] is at most as deep as
    the array is long, since each part is shorter, and a partition needs one pass per element; the search for
    waiters to release needs one step per process; a chain of a page has at most
    one element per line pointer; the estimate of a digit of a quotient is corrected
    fewer than 10000 times; an integer of 64 bits has at most five digits of base 10000.
    The map of [FreeSpace] covers block numbers below [InvalidBlockNumber] rounded down
    to a whole bottom page, so that no slot stands for a number past the end.

    ** What is not modelled

    Shared memory, locks and the buffer, storage and WAL managers appear only through
    the states above: an operation under a lock is atomic, and the states another
    backend can see are listed where a theorem needs them.  The float hash functions
    ([hashfloat4], [hashfloat8]), the start-up, shutdown, truncation and WAL records of
    the commit and subtransaction logs, the entry of a standby server into recovery,
    multixacts and prepared transactions after their preparation, and the rest of the
    server (parser, planner, executor, access methods, catalogs, other types, clients),
    the hypothetical-index patch and the Java client are not modelled.  Of [numeric.c], roots, logarithms, powers,
    the approximate division they use, conversions to floating point and the aggregates are not.  [Xact] leaves out
    memory contexts, settings, timestamps and WAL records, and takes each group of calls
    between two changes of its state as one point where an error may be raised.

    ** Next

    In this order: [backend/nodes/list.c]; the aggregates and square roots of [numeric.c]; the calendar arithmetic of
    [backend/utils/adt]; the rest of the commit and subtransaction logs and multixacts; the
    recovery functions of [procarray.c]. *)

From stdpp Require Export base tactics list numbers gmap sorting.
From Stdlib Require Export ZArith Lia Btauto.

(** ** Scopes *)

Declare Scope pg_scope.
Delimit Scope pg_scope with pg.
#[global] Open Scope Z_scope.
#[global] Open Scope pg_scope.

(** ** Outcomes of C code

    [Ret] is a normal return, [Ereport] is [ereport(ERROR, ...)] or
    [elog(ERROR, ...)] (a non-local exit), [UB] is undefined behaviour (an
    access outside an array, a dangling pointer, a failed [Assert]), and
    [Timeout] is the exhaustion of the fuel of a modelled [while] loop. *)

Inductive pgerror :=
| ERRCODE_INTERNAL_ERROR
| ERRCODE_NUMERIC_VALUE_OUT_OF_RANGE
| ERRCODE_DIVISION_BY_ZERO
| ERRCODE_FLOATING_POINT_EXCEPTION
| ERRCODE_INVALID_PARAMETER_VALUE
| ERRCODE_INVALID_BINARY_REPRESENTATION
| ERRCODE_INVALID_TEXT_REPRESENTATION
| ERRCODE_PROTOCOL_VIOLATION
| ERRCODE_ARRAY_ELEMENT_ERROR
| ERRCODE_DATA_EXCEPTION
| ERRCODE_DATA_CORRUPTED
| ERRCODE_PROGRAM_LIMIT_EXCEEDED
| ERRCODE_TOO_MANY_CONNECTIONS
| ERRCODE_ACTIVE_SQL_TRANSACTION
| ERRCODE_NO_ACTIVE_SQL_TRANSACTION
| ERRCODE_S_E_INVALID_SPECIFICATION
| ERRCODE_FEATURE_NOT_SUPPORTED
| ERRCODE_IN_FAILED_SQL_TRANSACTION
(** [ERRCODE_DATA_CORRUPTED] reported at level [PANIC], which stops the server. *)
| PANIC_DATA_CORRUPTED.

#[global] Instance pgerror_eq_dec : EqDecision pgerror.
Proof. solve_decision. Defined.

Inductive outcome (A : Type) : Type :=
| Ret (a : A)
| Ereport (e : pgerror)
| UB
| Timeout.
Arguments Ret {_} _.
Arguments Ereport {_} _.
Arguments UB {_}.
Arguments Timeout {_}.

#[global] Instance outcome_ret : MRet outcome := λ A a, Ret a.
#[global] Instance outcome_bind : MBind outcome := λ A B f m,
  match m with
  | Ret a => f a
  | Ereport e => Ereport e
  | UB => UB
  | Timeout => Timeout
  end.

(** State-passing C code: the state is threaded through normal returns. *)
Definition cmd (S A : Type) : Type := S → outcome (A * S).
#[global] Instance cmd_ret {S} : MRet (cmd S) := λ A a s, Ret (a, s).
#[global] Instance cmd_bind {S} : MBind (cmd S) := λ A B f m s,
  match m s with
  | Ret (a, s') => f a s'
  | Ereport e => Ereport e
  | UB => UB
  | Timeout => Timeout
  end.
Definition lift {S A} (o : outcome A) : cmd S A :=
  λ s, a ← o; Ret (a, s).
Definition ereport {S A} (e : pgerror) : cmd S A := λ _, Ereport e.

(** ** Loops

    [for_loop n i body a] runs [for (k = i; k < i + n; k++) body(k)], the
    local variables being threaded as [a]; [inr r] is a [return r] in the
    body. *)
Fixpoint for_loop {A R} (n : nat) (i : Z) (body : Z → A → outcome (A + R))
    (a : A) : outcome (A + R) :=
  match n with
  | O => Ret (inl a)
  | S n' =>
      r ← body i a;
      match r with
      | inl a' => for_loop n' (i + 1) body a'
      | inr r => Ret (inr r)
      end
  end.

(** [for (k = lo; k < hi; k++)] *)
Definition for_range {A R} (lo hi : Z) (body : Z → A → outcome (A + R)) (a : A)
    : outcome (A + R) := for_loop (Z.to_nat (hi - lo)) lo body a.

(** The same loop over an imperative body without early return. *)
Fixpoint cfor_loop {S} (n : nat) (i : Z) (body : Z → cmd S unit) : cmd S unit :=
  match n with
  | O => mret tt
  | S n' => _ ← body i; cfor_loop n' (i + 1) body
  end.
Definition cfor_range {S} (lo hi : Z) (body : Z → cmd S unit) : cmd S unit :=
  cfor_loop (Z.to_nat (hi - lo)) lo body.

(** ** Arrays: reads and writes outside the bounds are undefined. *)
Definition arr_get {A} (l : list A) (i : Z) : outcome A :=
  if i <? 0 then UB else
  match l !! Z.to_nat i with Some x => Ret x | None => UB end.
Definition arr_set {A} (l : list A) (i : Z) (x : A) : outcome (list A) :=
  if (i <? 0) || (Z.of_nat (length l) <=? i) then UB
  else Ret (<[Z.to_nat i := x]> l).

(** ** Machine integers *)

Definition wrap_u (w z : Z) : Z := z mod 2 ^ w.
Definition wrap_s (w z : Z) : Z := (z + 2 ^ (w - 1)) mod 2 ^ w - 2 ^ (w - 1).
Abbreviation uint8_of := (wrap_u 8).
Abbreviation uint16_of := (wrap_u 16).
Abbreviation uint32_of := (wrap_u 32).
Abbreviation int16_of := (wrap_s 16).
Abbreviation int32_of := (wrap_s 32).
Abbreviation int64_of := (wrap_s 64).
Definition u32_not (x : Z) : Z := uint32_of (Z.lnot x).
Definition is_uint (w z : Z) : Prop := 0 ≤ z < 2 ^ w.
Definition is_sint (w z : Z) : Prop := - 2 ^ (w - 1) ≤ z < 2 ^ (w - 1).
#[global] Instance is_uint_dec w z : Decision (is_uint w z).
Proof. unfold is_uint. apply _. Defined.
#[global] Instance is_sint_dec w z : Decision (is_sint w z).
Proof. unfold is_sint. apply _. Defined.

Create HintDb pg.
#[export] Hint Unfold is_uint is_sint : pg.

(** ** Lemmas on machine integers *)

Lemma wrap_u_bound w z : 0 ≤ w → is_uint w (wrap_u w z).
Proof. intros. apply Z.mod_pos_bound. lia. Qed.

Lemma wrap_u_small w z : is_uint w z → wrap_u w z = z.
Proof. intros. by apply Z.mod_small. Qed.

Lemma wrap_s_bound w z : 1 ≤ w → is_sint w (wrap_s w z).
Proof.
  intros. unfold wrap_s, is_sint.
  assert (2 ^ w = 2 * 2 ^ (w - 1)).
  { rewrite <- Z.pow_succ_r by lia. f_equal. lia. }
  pose proof (Z.mod_pos_bound (z + 2 ^ (w - 1)) (2 ^ w)). lia.
Qed.

Lemma wrap_s_small w z : 1 ≤ w → is_sint w z → wrap_s w z = z.
Proof.
  intros ? Hz. unfold wrap_s, is_sint in *.
  assert (2 ^ w = 2 * 2 ^ (w - 1)).
  { rewrite <- Z.pow_succ_r by lia. f_equal. lia. }
  rewrite Z.mod_small; lia.
Qed.

Lemma wrap_s_iff w z : 1 ≤ w → wrap_s w z = z ↔ is_sint w z.
Proof.
  intros Hw. split; [|by apply wrap_s_small].
  intros <-. by apply wrap_s_bound.
Qed.

Lemma is_uint_testbit_high w z i :
  0 ≤ w → is_uint w z → w ≤ i → Z.testbit z i = false.
Proof.
  intros Hw Hz Hi. rewrite <- (Z.mod_small z (2 ^ w)) by apply Hz.
  apply Z.mod_pow2_bits_high. lia.
Qed.

Lemma testbit_is_uint w z :
  0 ≤ w → 0 ≤ z → (∀ i, w ≤ i → Z.testbit z i = false) → is_uint w z.
Proof.
  intros Hw Hz Hb. split; [done|].
  destruct (decide (z = 0)) as [->|Hnz]; [lia|].
  destruct (Z_lt_le_dec z (2 ^ w)) as [|Hge]; [done|].
  assert (w ≤ Z.log2 z) by (by apply Z.log2_le_pow2; lia).
  specialize (Hb (Z.log2 z)). rewrite Z.bit_log2 in Hb by lia. naive_solver.
Qed.

Lemma wrap_u_testbit w z i :
  0 ≤ w → 0 ≤ i → Z.testbit (wrap_u w z) i = (i <? w) && Z.testbit z i.
Proof.
  intros. unfold wrap_u. destruct (Z.ltb_spec i w).
  - by rewrite Z.mod_pow2_bits_low by lia.
  - by rewrite Z.mod_pow2_bits_high by lia.
Qed.

Lemma u32_not_testbit z i :
  0 ≤ i → Z.testbit (u32_not z) i = (i <? 32) && negb (Z.testbit z i).
Proof.
  intros. unfold u32_not. rewrite wrap_u_testbit, Z.lnot_spec by lia. done.
Qed.

Lemma land_is_uint w a b : 0 ≤ w → is_uint w a → 0 ≤ b → is_uint w (Z.land a b).
Proof.
  intros Hw Ha Hb. apply testbit_is_uint; [done| |].
  - apply Z.land_nonneg. left. apply Ha.
  - intros i Hi. rewrite Z.land_spec, (is_uint_testbit_high w a) by done. done.
Qed.

Lemma lor_is_uint w a b : 0 ≤ w → is_uint w a → is_uint w b → is_uint w (Z.lor a b).
Proof.
  intros Hw Ha Hb. apply testbit_is_uint; [done| |].
  - apply Z.lor_nonneg. split; [apply Ha|apply Hb].
  - intros i Hi. rewrite Z.lor_spec, !(is_uint_testbit_high w) by done. done.
Qed.
#[export] Hint Resolve wrap_u_bound land_is_uint lor_is_uint : pg.

Lemma is_uint_lxor w a b : 0 ≤ w → is_uint w a → is_uint w b → is_uint w (Z.lxor a b).
Proof.
  intros Hw Ha Hb. apply testbit_is_uint; [done| |].
  - apply Z.lxor_nonneg. unfold is_uint in *. lia.
  - intros i Hi. rewrite Z.lxor_spec, !(is_uint_testbit_high w) by done. done.
Qed.

Lemma is_uint_mono v w z : 0 ≤ v ≤ w → is_uint v z → is_uint w z.
Proof.
  unfold is_uint. intros ? [??]. split; [done|].
  pose proof (Z.pow_le_mono_r 2 v w). lia.
Qed.

(** Addition and subtraction of unsigned words commute with an inner wrap. *)
Lemma wrap_u_add_l w x y : wrap_u w (wrap_u w x + y) = wrap_u w (x + y).
Proof. unfold wrap_u. apply Zplus_mod_idemp_l. Qed.
Lemma wrap_u_add_ll w x y z : wrap_u w (wrap_u w x + y + z) = wrap_u w (x + y + z).
Proof. by rewrite <- Z.add_assoc, wrap_u_add_l, Z.add_assoc. Qed.
Lemma wrap_u_add_lll w x y z t :
  wrap_u w (wrap_u w x + y + z + t) = wrap_u w (x + y + z + t).
Proof. by rewrite <- Z.add_assoc, wrap_u_add_ll, Z.add_assoc. Qed.
Lemma wrap_u_add_r w x y : wrap_u w (x + wrap_u w y) = wrap_u w (x + y).
Proof. unfold wrap_u. apply Zplus_mod_idemp_r. Qed.
Lemma wrap_u_sub_l w x y : wrap_u w (wrap_u w x - y) = wrap_u w (x - y).
Proof. unfold wrap_u. apply Zminus_mod_idemp_l. Qed.
Lemma wrap_u_wrap_u w x : wrap_u w (wrap_u w x) = wrap_u w x.
Proof. unfold wrap_u. apply Zmod_mod. Qed.

Lemma wrap_s_testbit w z i :
  1 ≤ w → 0 ≤ i < w → Z.testbit (wrap_s w z) i = Z.testbit z i.
Proof.
  intros Hw Hi. rewrite <- (Z.mod_pow2_bits_low z w i) by lia.
  rewrite <- (Z.mod_pow2_bits_low (wrap_s w z) w i) by lia. f_equal.
  unfold wrap_s. rewrite Zminus_mod_idemp_l. f_equal. lia.
Qed.

Lemma div_mul_add n q k : 0 ≤ k < n → (n * q + k) / n = q.
Proof. intros. symmetry. apply (Z.div_unique_pos _ _ _ k); lia. Qed.
Lemma mod_mul_add n q k : 0 ≤ k < n → (n * q + k) mod n = k.
Proof. intros. symmetry. apply (Z.mod_unique_pos _ _ q); lia. Qed.

#[export] Hint Resolve is_uint_lxor : pg.
Create Rewrite HintDb wrap.
#[export] Hint Rewrite wrap_u_add_l wrap_u_add_ll wrap_u_add_lll wrap_u_add_r wrap_u_sub_l wrap_u_wrap_u : wrap.
(** Equality of two expressions in unsigned arithmetic of one width. *)
Ltac solve_wrap := autorewrite with wrap; f_equal; lia.

(** Side conditions on machine words. *)
Ltac uint := solve [ eauto with pg lia
                   | repeat first [ apply wrap_u_bound | apply land_is_uint
                                  | apply lor_is_uint | apply is_uint_lxor ];
                     try lia; eauto with pg ].

Lemma wrap_s_mod w x : 0 ≤ w → wrap_s w (wrap_u w x) = wrap_s w x.
Proof. intros. unfold wrap_s, wrap_u. by rewrite Zplus_mod_idemp_l. Qed.

Lemma wrap_s_opp w x : 0 ≤ w → wrap_s w (- wrap_s w x) = wrap_s w (- x).
Proof.
  intros. rewrite <- (wrap_s_mod w (- wrap_s w x)), <- (wrap_s_mod w (- x)) by done.
  f_equal. unfold wrap_s, wrap_u. rewrite <- !Z.sub_0_l, <- (Zminus_mod_idemp_r 0).
  rewrite Zminus_mod_idemp_l, Z.add_simpl_r. apply Zminus_mod_idemp_r.
Qed.

(** The lowest bit set in [w] is the only bit of [w & -w]. *)
Lemma land_opp_lowest w k :
  0 ≤ k → Z.testbit w k = true → (∀ j, 0 ≤ j < k → Z.testbit w j = false) →
  Z.land w (- w) = 2 ^ k.
Proof.
  intros Hk. revert w. pattern k. apply natlike_ind; [| |done]; clear k Hk.
  - intros w Hw _. rewrite Z.bit0_odd in Hw. apply Z.odd_spec in Hw as [m ->].
    replace (- (2 * m + 1)) with (2 * Z.lnot m + 1) by (unfold Z.lnot; lia).
    apply Z.bits_inj'. intros i Hi. rewrite Z.land_spec, Z.pow2_bits_eqb by lia.
    destruct (Z.eqb_spec 0 i) as [<-|].
    + by rewrite !Z.testbit_odd_0.
    + replace i with (Z.succ (i - 1)) by lia. rewrite !Z.testbit_odd_succ by lia.
      rewrite Z.lnot_spec by lia. apply andb_negb_r.
  - intros k Hk IH w Hw Hlow. pose proof (Hlow 0 ltac:(lia)) as H0.
    rewrite Z.bit0_odd, <- Z.negb_even in H0. apply negb_false_iff, Z.even_spec in H0 as [m ->].
    rewrite Z.testbit_even_succ in Hw by done.
    rewrite <- Z.mul_opp_r, Z.pow_succ_r by done.
    rewrite <- (IH m Hw).
    + apply Z.bits_inj'. intros i Hi. rewrite Z.land_spec.
      destruct (decide (i = 0)) as [->|].
      * by rewrite !Z.testbit_even_0.
      * replace i with (Z.succ (i - 1)) by lia.
        by rewrite !Z.testbit_even_succ, Z.land_spec by lia.
    + intros j Hj. rewrite <- Z.testbit_even_succ by lia. apply Hlow. lia.
Qed.

(** ** Running imperative code *)
Lemma bind_Ret {S A B} (m : cmd S A) (f : A → cmd S B) s a s' :
  m s = Ret (a, s') → (m ≫= f) s = f a s'.
Proof. intros H. unfold mbind, cmd_bind. by rewrite H. Qed.

(** Runs the first command of a sequence, whose effect is [H]. *)
Ltac run H := rewrite (bind_Ret _ _ _ _ _ H).

(** ** Loops: the iteration principle

    [for_loop] keeps an invariant, indexed by the loop variable, until its
    body returns or fails. *)
Lemma for_loop_inv {A R} (P : Z → A → Prop) (Q : outcome (A + R) → Prop) n i
    (body : Z → A → outcome (A + R)) a :
  P i a →
  (∀ k a', i ≤ k < i + Z.of_nat n → P k a' →
     match body k a' with Ret (inl a'') => P (k + 1) a'' | o => Q o end) →
  (∀ a', P (i + Z.of_nat n) a' → Q (Ret (inl a'))) →
  Q (for_loop n i body a).
Proof.
  revert i a. induction n as [|n IH]; intros i a HP Hstep Hend; simpl.
  - apply Hend. by rewrite Z.add_0_r.
  - specialize (Hstep i a) as Hi. unfold mbind, outcome_bind.
    destruct (body i a) as [[a'|r]|e| |]; try (apply Hi; [lia|done]).
    apply IH; [apply Hi; [lia|done]| |].
    + intros. apply Hstep; [lia|done].
    + intros a'' H. apply Hend. by replace (i + Z.of_nat (S n)) with (i + 1 + Z.of_nat n) by lia.
Qed.

(** A search loop: the body either returns a constant or goes on. *)
Lemma for_loop_search {R} (p : Z → bool) (v : R) n i (body : Z → unit → outcome (unit + R)) :
  (∀ k, i ≤ k < i + Z.of_nat n → body k tt = Ret (if p k then inr v else inl tt)) →
  for_loop n i body tt = Ret (if existsb p (seqZ i (Z.of_nat n)) then inr v else inl tt).
Proof.
  revert i. induction n as [|n IH]; intros i Hb; [done|].
  rewrite seqZ_cons by lia. simpl. unfold mbind, outcome_bind. rewrite Hb by lia.
  destruct (p i); [done|]. simpl.
  rewrite IH by (intros; apply Hb; lia).
  by replace (Z.pred (Z.of_nat (S n))) with (Z.of_nat n) by lia.
Qed.

Lemma existsb_seqZ_true p i n :
  existsb p (seqZ i n) = true ↔ ∃ k, i ≤ k < i + n ∧ p k = true.
Proof.
  rewrite existsb_exists. split.
  - intros (k & Hk & Hp). exists k. split; [|done].
    apply list_elem_of_In, elem_of_seqZ in Hk. lia.
  - intros (k & Hk & Hp). exists k. split; [|done].
    apply list_elem_of_In, elem_of_seqZ. lia.
Qed.

Lemma existsb_seqZ_false p i n :
  existsb p (seqZ i n) = false ↔ ∀ k, i ≤ k < i + n → p k = false.
Proof.
  rewrite <- not_true_iff_false, existsb_seqZ_true. split.
  - intros H k Hk. destruct (p k) eqn:E; [|done]. destruct H. eauto.
  - intros H (k & Hk & Hp). rewrite H in Hp by done. done.
Qed.

(** A decision over a range of integers, used to check a finite table. *)
Lemma forallb_seqZ p i n k : forallb p (seqZ i n) = true → i ≤ k < i + n → p k = true.
Proof. rewrite forallb_forall. intros H Hk. apply H, list_elem_of_In, elem_of_seqZ. lia. Qed.

(** ** Arrays *)
Lemma arr_get_Some {A} (l : list A) i x :
  arr_get l i = Ret x ↔ 0 ≤ i ∧ l !! Z.to_nat i = Some x.
Proof.
  unfold arr_get. destruct (Z.ltb_spec i 0); [naive_solver lia|].
  destruct (l !! Z.to_nat i); naive_solver.
Qed.

Lemma arr_get_lt {A} (l : list A) i :
  0 ≤ i < Z.of_nat (length l) → ∃ x, arr_get l i = Ret x ∧ l !! Z.to_nat i = Some x.
Proof.
  intros Hi. destruct (lookup_lt_is_Some_2 l (Z.to_nat i)) as [x Hx]; [lia|].
  exists x. rewrite arr_get_Some. split_and!; auto with lia.
Qed.

Lemma arr_set_lt {A} (l : list A) i x :
  0 ≤ i < Z.of_nat (length l) → arr_set l i x = Ret (<[Z.to_nat i := x]> l).
Proof.
  intros Hi. unfold arr_set.
  destruct (Z.ltb_spec i 0), (Z.leb_spec (Z.of_nat (length l)) i); simpl; auto with lia.
Qed.

(** A loop over the first [n] elements of an array visits them in order. *)
Fixpoint citer {St A} (f : A → cmd St unit) (l : list A) : cmd St unit :=
  match l with
  | [] => mret tt
  | x :: l => _ ← f x; citer f l
  end.

Lemma cfor_loop_list {St A} (l : list A) (f : A → cmd St unit) n i s :
  (i + n ≤ length l)%nat →
  cfor_loop n (Z.of_nat i) (λ k, x ← lift (arr_get l k); f x) s = citer f (take n (drop i l)) s.
Proof.
  revert i s. induction n as [|n IH]; intros i s Hn; [done|].
  destruct (lookup_lt_is_Some_2 l i) as [x Hx]; [lia|].
  rewrite (drop_S _ _ _ Hx). cbn [cfor_loop take citer].
  unfold mbind, cmd_bind, lift.
  assert (arr_get l (Z.of_nat i) = Ret x) as -> by (apply arr_get_Some; rewrite Nat2Z.id; auto with lia).
  cbn [mbind outcome_bind]. destruct (f x s) as [[u s']| | |]; [|done..].
  replace (Z.of_nat i + 1) with (Z.of_nat (S i)) by lia. apply IH. lia.
Qed.

Lemma cfor_range_list {St A} (l : list A) (f : A → cmd St unit) n s :
  0 ≤ n ≤ Z.of_nat (length l) →
  cfor_range 0 n (λ k, x ← lift (arr_get l k); f x) s = citer f (take (Z.to_nat n) l) s.
Proof.
  intros Hn. unfold cfor_range. rewrite Z.sub_0_r.
  rewrite (cfor_loop_list l f _ 0) by lia. done.
Qed.

(** ** Strictly sorted lists of integers are determined by their elements. *)
Lemma sorted_lt_NoDup (l : list Z) : StronglySorted Z.lt l → NoDup l.
Proof.
  induction 1 as [|x l Hs IH Hall]; constructor; [|done].
  intros Hx. rewrite Forall_forall in Hall. specialize (Hall _ Hx). lia.
Qed.

Lemma filter_all {A} (P : A → Prop) `{!∀ x, Decision (P x)} (l : list A) :
  Forall P l → filter P l = l.
Proof. induction 1 as [|x l Hx _ IH]; [done|]. rewrite filter_cons, decide_True by done. by rewrite IH. Qed.
Lemma filter_none {A} (P : A → Prop) `{!∀ x, Decision (P x)} (l : list A) :
  Forall (λ x, ¬ P x) l → filter P l = [].
Proof. induction 1 as [|x l Hx _ IH]; [done|]. by rewrite filter_cons, decide_False by done. Qed.

Lemma sorted_lt_lookup (l : list Z) i j x y :
  StronglySorted Z.lt l → l !! i = Some x → l !! j = Some y → (i < j)%nat → x < y.
Proof.
  intros Hs. revert i j. induction Hs as [|z l Hs IH Hz]; intros i j Hi Hj Hij; [done|].
  destruct j as [|j]; [lia|]. destruct i as [|i]; cbn in *.
  - simplify_eq. by eapply (Forall_lookup_1 _ _ _ _ Hz).
  - apply (IH i j); [done|done|lia].
Qed.

Lemma sorted_lt_ext (l1 l2 : list Z) :
  StronglySorted Z.lt l1 → StronglySorted Z.lt l2 → (∀ x, x ∈ l1 ↔ x ∈ l2) → l1 = l2.
Proof.
  intros H1 H2 Heq. assert (AntiSymm (=) Z.lt) by (intros ???; lia).
  apply (StronglySorted_unique Z.lt); [done..|].
  apply NoDup_Permutation; auto using sorted_lt_NoDup.
Qed.

Lemma and_iff_compat_l_dep (P Q R : Prop) : (P → Q ↔ R) → (P ∧ Q) ↔ (P ∧ R).
Proof. tauto. Qed.

(** ** Arrays of integers read with a default *)

(** The element of index [i], zero beyond the end of the array. *)
Definition wd (ws : list Z) (i : Z) : Z := default 0 (ws !! Z.to_nat i).

Lemma wd_cons w ws i : 0 ≤ i → wd (w :: ws) i = if i =? 0 then w else wd ws (i - 1).
Proof.
  intros Hi. unfold wd. destruct (Z.eqb_spec i 0) as [->|Hne]; [done|].
  replace (Z.to_nat i) with (S (Z.to_nat (i - 1))) by lia. done.
Qed.

Lemma wd_ge ws i : Z.of_nat (length ws) ≤ i → wd ws i = 0.
Proof. intros Hi. unfold wd. rewrite lookup_ge_None_2 by lia. done. Qed.

Lemma wd_get ws i : 0 ≤ i < Z.of_nat (length ws) → arr_get ws i = Ret (wd ws i).
Proof. intros Hi. destruct (arr_get_lt ws i Hi) as (x & -> & Hl). unfold wd. by rewrite Hl. Qed.

Lemma wd_insert ws i x j :
  0 ≤ i < Z.of_nat (length ws) → 0 ≤ j →
  wd (<[Z.to_nat i := x]> ws) j = if decide (j = i) then x else wd ws j.
Proof.
  intros Hi Hj. unfold wd. destruct (decide (j = i)) as [->|Hne].
  - rewrite list_lookup_insert_eq by lia. done.
  - rewrite list_lookup_insert_ne by lia. done.
Qed.

Lemma wd_replicate n j : wd (replicate n 0) j = 0.
Proof. unfold wd. destruct (replicate n 0 !! Z.to_nat j) eqn:E; [|done].
  apply lookup_replicate_1 in E as [-> _]. done. Qed.

Lemma wd_set l i x :
  0 ≤ i < Z.of_nat (length l) →
  ∃ l', arr_set l i x = Ret l' ∧ length l' = length l ∧
        ∀ j, 0 ≤ j → wd l' j = if decide (j = i) then x else wd l j.
Proof.
  intros Hi. rewrite arr_set_lt by done. eexists. split; [done|].
  split; [apply length_insert|]. intros j Hj. by apply wd_insert.
Qed.

Lemma wd_ext l1 l2 :
  length l1 = length l2 → (∀ i, 0 ≤ i < Z.of_nat (length l1) → wd l1 i = wd l2 i) → l1 = l2.
Proof.
  intros Hl H. apply list_eq_same_length with (length l1); [done..|].
  intros i x y Hi Hx Hy. specialize (H (Z.of_nat i) ltac:(lia)). unfold wd in H.
  rewrite Nat2Z.id, Hx, Hy in H. done.
Qed.
