(* ===== verification/HashFunc.v ===== *)
(** * Hash functions for the hash access method

    Models [src/backend/access/hash/hashfunc.c]: the mixing macros [rot],
    [mix] and [final], [hash_any] with its four code paths (aligned and
    unaligned key, little and big endian machine), [hash_uint32] and the
    per-type support functions.  The endianness of the machine
    ([WORDS_BIGENDIAN]) and the alignment of the key pointer are arguments.
    The float support functions are not modelled. *)

From S2P Require Import Prelude.

(** ** Definitions *)

Definition shl32 (x k : Z) : Z := uint32_of (Z.shiftl x k).
Definition add32 (x y : Z) : Z := uint32_of (x + y).
Definition sub32 (x y : Z) : Z := uint32_of (x - y).

Definition rot (x k : Z) : Z := Z.lor (shl32 x k) (Z.shiftr x (32 - k)).

(** The registers [a], [b], [c] of the hash. *)
Definition regs : Type := (Z * Z * Z)%type.

(** One line of [mix]: [a -= c; a ^= rot(c, k); c += b;] *)
Definition mix_line (k : Z) (x y z : Z) : Z * Z :=
  let x := sub32 x z in
  let x := Z.lxor x (rot z k) in
  (x, add32 z y).

Definition mix (r : regs) : regs :=
  let '(a, b, c) := r in
  let '(a, c) := mix_line 4 a b c in
  let '(b, a) := mix_line 6 b c a in
  let '(c, b) := mix_line 8 c a b in
  let '(a, c) := mix_line 16 a b c in
  let '(b, a) := mix_line 19 b c a in
  let '(c, b) := mix_line 4 c a b in
  (a, b, c).

(** One statement of [final]: [c ^= b; c -= rot(b, k);] *)
Definition final_line (k : Z) (x y : Z) : Z := sub32 (Z.lxor x y) (rot y k).

Definition final (r : regs) : regs :=
  let '(a, b, c) := r in
  let c := final_line 14 c b in
  let a := final_line 11 a c in
  let b := final_line 25 b a in
  let c := final_line 16 c b in
  let a := final_line 4 a c in
  let b := final_line 14 b a in
  let c := final_line 24 c b in
  (a, b, c).

(** [0x9e3779b9 + len + 3923095] *)
Definition hash_init (len : Z) : Z := uint32_of (0x9e3779b9 + len + 3923095).

(** A word-wide fetch [ka[i]] of the key at byte offset [p]. *)
Definition fetch32 (bigendian : bool) (k : list Z) (p : Z) : outcome Z :=
  k0 ← arr_get k p;
  k1 ← arr_get k (p + 1);
  k2 ← arr_get k (p + 2);
  k3 ← arr_get k (p + 3);
  Ret (if bigendian
       then uint32_of (k3 + shl32 k2 8 + shl32 k1 16 + shl32 k0 24)
       else uint32_of (k0 + shl32 k1 8 + shl32 k2 16 + shl32 k3 24)).

(** The byte-by-byte sum of the unaligned path of the main loop. *)
Definition fetch_bytes (bigendian : bool) (k : list Z) (p : Z) : outcome Z :=
  if bigendian then
    k3 ← arr_get k (p + 3); k2 ← arr_get k (p + 2);
    k1 ← arr_get k (p + 1); k0 ← arr_get k p;
    Ret (uint32_of (k3 + shl32 k2 8 + shl32 k1 16 + shl32 k0 24))
  else
    k0 ← arr_get k p; k1 ← arr_get k (p + 1);
    k2 ← arr_get k (p + 2); k3 ← arr_get k (p + 3);
    Ret (uint32_of (k0 + shl32 k1 8 + shl32 k2 16 + shl32 k3 24)).

(** [x += ((uint32) k[p] << s)], executed under the [switch] when the
    remaining length reaches the case. *)
Definition add_byte (reached : bool) (k : list Z) (p s x : Z) : outcome Z :=
  if reached then b ← arr_get k p; Ret (add32 x (shl32 b s)) else Ret x.

(** The loop [while (len >= 12)] with either kind of fetch; the result is the
    final pointer offset, the remaining length and the registers. *)
Fixpoint hash_loop (fetch : list Z → Z → outcome Z) (fuel : nat) (k : list Z)
    (p len : Z) (r : regs) : outcome (Z * Z * regs) :=
  if len <? 12 then Ret (p, len, r) else
  match fuel with
  | O => Timeout
  | S fuel =>
      let '(a, b, c) := r in
      w0 ← fetch k p;
      w1 ← fetch k (p + 4);
      w2 ← fetch k (p + 8);
      hash_loop fetch fuel k (p + 12) (len - 12)
        (mix (add32 a w0, add32 b w1, add32 c w2))
  end.

(** The shifts used for the bytes of a word: [k[0]] ... [k[3]]. *)
Definition byte_shift (bigendian : bool) (i : Z) : Z :=
  if bigendian then 24 - 8 * i else 8 * i.

(** The lowest byte of [c] is reserved for the length. *)
Definition tail_c (be : bool) (k : list Z) (p len c : Z) : outcome Z :=
  let sh i := if be then 24 - 8 * i else 8 * (i + 1) in
  c ← add_byte (11 <=? len) k (p + 10) (sh 2) c;
  c ← add_byte (10 <=? len) k (p + 9) (sh 1) c;
  add_byte (9 <=? len) k (p + 8) (sh 0) c.

(** [switch (len)] on the last 11 bytes, aligned key. *)
Definition tail_aligned (be : bool) (k : list Z) (p len : Z) (r : regs) : outcome regs :=
  let '(a, b, c) := r in
  let sh := byte_shift be in
  if 8 <=? len then
    c ← tail_c be k p len c;
    w1 ← fetch32 be k (p + 4);
    w0 ← fetch32 be k p;
    Ret (add32 a w0, add32 b w1, c)
  else if 4 <=? len then
    b ← add_byte (7 <=? len) k (p + 6) (sh 2) b;
    b ← add_byte (6 <=? len) k (p + 5) (sh 1) b;
    b ← add_byte (5 <=? len) k (p + 4) (sh 0) b;
    w0 ← fetch32 be k p;
    Ret (add32 a w0, b, c)
  else
    a ← add_byte (3 <=? len) k (p + 2) (sh 2) a;
    a ← add_byte (2 <=? len) k (p + 1) (sh 1) a;
    a ← add_byte (1 <=? len) k p (sh 0) a;
    Ret (a, b, c).

(** [switch (len)] on the last 11 bytes, unaligned key: every case falls
    through. *)
Definition tail_unaligned (be : bool) (k : list Z) (p len : Z) (r : regs) : outcome regs :=
  let '(a, b, c) := r in
  let sh := byte_shift be in
  c ← tail_c be k p len c;
  b ← add_byte (8 <=? len) k (p + 7) (sh 3) b;
  b ← add_byte (7 <=? len) k (p + 6) (sh 2) b;
  b ← add_byte (6 <=? len) k (p + 5) (sh 1) b;
  b ← add_byte (5 <=? len) k (p + 4) (sh 0) b;
  a ← add_byte (4 <=? len) k (p + 3) (sh 3) a;
  a ← add_byte (3 <=? len) k (p + 2) (sh 2) a;
  a ← add_byte (2 <=? len) k (p + 1) (sh 1) a;
  a ← add_byte (1 <=? len) k p (sh 0) a;
  Ret (a, b, c).

Definition hash_any (be aligned : bool) (k : list Z) (keylen : Z) : outcome Z :=
  let len := uint32_of keylen in
  let i := hash_init len in
  let fuel := S (length k) in
  r ← (if aligned then
         '(p, len, r) ← hash_loop (fetch32 be) fuel k 0 len (i, i, i);
         tail_aligned be k p len r
       else
         '(p, len, r) ← hash_loop (fetch_bytes be) fuel k 0 len (i, i, i);
         tail_unaligned be k p len r);
  let '(_, _, c) := final r in Ret c.

Definition hash_uint32 (k : Z) : Z :=
  let i := hash_init 4 in
  let '(_, _, c) := final (add32 i k, i, i) in c.

(** *** Support functions of the data types *)

Definition hashchar (arg : Z) : Z := hash_uint32 (uint32_of (int32_of arg)).
Definition hashint2 (arg : Z) : Z := hash_uint32 (uint32_of (int32_of arg)).
Definition hashint4 (arg : Z) : Z := hash_uint32 (uint32_of arg).
Definition hashint8 (val : Z) : Z :=
  let lohalf := uint32_of val in
  let hihalf := uint32_of (Z.shiftr val 32) in
  let lohalf := Z.lxor lohalf (if 0 <=? val then hihalf else u32_not hihalf) in
  hash_uint32 lohalf.
Definition hashoid (arg : Z) : Z := hash_uint32 (uint32_of arg).
Definition hashenum (arg : Z) : Z := hash_uint32 (uint32_of arg).

(** The bytes of an [n]-byte integer in memory. *)
Fixpoint le_bytes (n : nat) (w : Z) : list Z :=
  match n with
  | O => []
  | S n => Z.land w 255 :: le_bytes n (Z.shiftr w 8)
  end.
Definition mem_bytes (be : bool) (n : nat) (w : Z) : list Z :=
  if be then rev (le_bytes n w) else le_bytes n w.
Definition words_bytes (be : bool) (ws : list Z) : list Z :=
  mjoin (mem_bytes be 4 <$> ws).

Definition hashoidvector (be : bool) (values : list Z) (dim1 : Z) : outcome Z :=
  hash_any be true (words_bytes be values) (dim1 * 4).
Definition hashint2vector (be aligned : bool) (values : list Z) (dim1 : Z) : outcome Z :=
  hash_any be aligned (mjoin (mem_bytes be 2 <$> (uint16_of <$> values))) (dim1 * 2).

(** [strlen] of a C string held in a buffer. *)
Fixpoint strlen (s : list Z) : outcome Z :=
  match s with
  | [] => UB
  | b :: s => if b =? 0 then Ret 0 else n ← strlen s; Ret (1 + n)
  end.
Definition NAMEDATALEN : Z := 64.
Definition hashname (be aligned : bool) (name : list Z) : outcome Z :=
  keylen ← strlen name;
  if keylen <? NAMEDATALEN then hash_any be aligned name keylen else UB.

(** [hashtext] and [hashvarlena] hash the payload of a detoasted varlena; its
    alignment depends on the length of the varlena header. *)
Definition hashtext (be aligned : bool) (data : list Z) : outcome Z :=
  hash_any be aligned data (Z.of_nat (length data)).
Definition hashvarlena (be aligned : bool) (data : list Z) : outcome Z :=
  hash_any be aligned data (Z.of_nat (length data)).

(** ** Lemmas *)

#[global] Arguments mix : simpl never.
#[global] Arguments final : simpl never.
#[global] Arguments add32 : simpl never.
#[global] Arguments shl32 : simpl never.
#[global] Arguments wrap_u : simpl never.
#[global] Arguments hash_init : simpl never.

Definition regs_ok (r : regs) : Prop :=
  let '(a, b, c) := r in is_uint 32 a ∧ is_uint 32 b ∧ is_uint 32 c.

Lemma shl32_bound x k : is_uint 32 (shl32 x k).
Proof. unfold shl32. uint. Qed.
Lemma add32_bound x y : is_uint 32 (add32 x y).
Proof. unfold add32. uint. Qed.
Lemma sub32_bound x y : is_uint 32 (sub32 x y).
Proof. unfold sub32. uint. Qed.
Lemma rot_bound x k : is_uint 32 x → 0 ≤ k ≤ 32 → is_uint 32 (rot x k).
Proof.
  intros Hx Hk. unfold rot. apply lor_is_uint; [lia|apply shl32_bound|].
  rewrite Z.shiftr_div_pow2 by lia. unfold is_uint in *. split.
  - apply Z.div_pos; lia.
  - apply Z.div_lt_upper_bound; nia.
Qed.
#[local] Hint Resolve shl32_bound add32_bound sub32_bound rot_bound : pg.

Lemma mix_line_ok k x y z :
  is_uint 32 x → is_uint 32 y → is_uint 32 z → 0 ≤ k ≤ 32 →
  is_uint 32 (mix_line k x y z).1 ∧ is_uint 32 (mix_line k x y z).2.
Proof.
  intros. unfold mix_line. simpl. split; [|apply add32_bound].
  apply is_uint_lxor; auto with pg lia.
Qed.

Lemma mix_ok r : regs_ok r → regs_ok (mix r).
Proof.
  destruct r as [[a b] c]. intros (Ha & Hb & Hc). unfold mix.
  repeat match goal with
  | |- context [mix_line ?k ?x ?y ?z] =>
      let H := fresh in
      assert (H : is_uint 32 (mix_line k x y z).1 ∧ is_uint 32 (mix_line k x y z).2)
        by (apply mix_line_ok; auto; lia);
      destruct (mix_line k x y z) as [? ?]; cbn [fst snd] in H; destruct H; cbv beta iota in *
  end.
  done.
Qed.

(** The inverse of one line of [mix]. *)
Definition unmix_line (k : Z) (x y z : Z) : Z * Z :=
  let z := sub32 z y in
  (add32 (Z.lxor x (rot z k)) z, z).

Definition unmix (r : regs) : regs :=
  let '(a, b, c) := r in
  let '(c, b) := unmix_line 4 c a b in
  let '(b, a) := unmix_line 19 b c a in
  let '(a, c) := unmix_line 16 a b c in
  let '(c, b) := unmix_line 8 c a b in
  let '(b, a) := unmix_line 6 b c a in
  let '(a, c) := unmix_line 4 a b c in
  (a, b, c).

Lemma unmix_line_mix_line k x y z :
  is_uint 32 x → is_uint 32 z →
  let '(x', z') := mix_line k x y z in unmix_line k x' y z' = (x, z).
Proof.
  intros Hx Hz. unfold mix_line, unmix_line.
  assert (Hz' : sub32 (add32 z y) y = z).
  { unfold sub32, add32. autorewrite with wrap.
    rewrite <- (wrap_u_small 32 z) at 2 by done. f_equal. lia. }
  rewrite Hz'. f_equal.
  rewrite Z.lxor_assoc, Z.lxor_nilpotent, Z.lxor_0_r.
  unfold sub32, add32. autorewrite with wrap.
  rewrite <- (wrap_u_small 32 x) at 2 by done. f_equal. lia.
Qed.

Lemma unmix_mix r : regs_ok r → unmix (mix r) = r.
Proof.
  destruct r as [[a b] c]. intros (Ha & Hb & Hc). unfold mix.
  repeat match goal with
  | |- context [mix_line ?k ?x ?y ?z] =>
      let H := fresh in let I := fresh "I" in
      assert (H : is_uint 32 (mix_line k x y z).1 ∧ is_uint 32 (mix_line k x y z).2)
        by (apply mix_line_ok; auto; lia);
      pose proof (unmix_line_mix_line k x y z ltac:(assumption) ltac:(assumption)) as I;
      destruct (mix_line k x y z) as [? ?]; cbn [fst snd] in H; destruct H; cbv beta iota in *
  end.
  unfold unmix.
  repeat match goal with
  | I : unmix_line ?k ?x ?y ?z = _ |- context [unmix_line ?k ?x ?y ?z] => rewrite I
  end.
  done.
Qed.

Lemma final_line_bound k x y : is_uint 32 (final_line k x y).
Proof. unfold final_line. auto with pg. Qed.

(** Keys that agree on their first [n] bytes. *)
Definition agree (n : Z) (k k' : list Z) : Prop :=
  ∀ i, 0 ≤ i < n → ∃ b, arr_get k i = Ret b ∧ arr_get k' i = Ret b.

Lemma agree_app k k' : agree (Z.of_nat (length k)) k (k ++ k').
Proof.
  intros i Hi. destruct (arr_get_lt k i Hi) as (b & Hb & Hl). exists b.
  split; [done|]. apply arr_get_Some. split; [lia|].
  rewrite lookup_app_l by lia. done.
Qed.

Lemma agree_refl k n : n ≤ Z.of_nat (length k) → agree n k k.
Proof. intros Hn i Hi. destruct (arr_get_lt k i) as (b & ? & _); [lia|eauto]. Qed.

Lemma agree_sym n k k' : agree n k k' → agree n k' k.
Proof. intros H i Hi. destruct (H i Hi) as (b & ? & ?). eauto. Qed.

(** Simplify a bind whose first computation is known. *)
Ltac obind H := unfold mbind, outcome_bind at 1; rewrite H; cbn [mbind outcome_bind].

Ltac agree_read H i :=
  let b := fresh "b" in let H1 := fresh "Hr" in let H2 := fresh "Hr'" in
  destruct (H i ltac:(lia)) as (b & H1 & H2); rewrite ?H1, ?H2.

Lemma fetch_agree be n k k' q :
  agree n k k' → 0 ≤ q → q + 4 ≤ n →
  ∃ w, is_uint 32 w ∧ fetch32 be k q = Ret w ∧ fetch_bytes be k' q = Ret w.
Proof.
  intros Hag Hq Hn. unfold fetch32, fetch_bytes.
  agree_read Hag q. agree_read Hag (q + 1). agree_read Hag (q + 2). agree_read Hag (q + 3).
  destruct be; simpl; eexists; (split; [|split; reflexivity]); uint.
Qed.

Lemma hash_loop_agree be n k k' fuel fuel' p len r :
  agree n k k' → 0 ≤ p → 0 ≤ len → p + len ≤ n → regs_ok r →
  len < Z.of_nat fuel → len < Z.of_nat fuel' →
  ∃ p' len' r', hash_loop (fetch32 be) fuel k p len r = Ret (p', len', r') ∧
    hash_loop (fetch_bytes be) fuel' k' p len r = Ret (p', len', r') ∧
    0 ≤ p' ∧ 0 ≤ len' < 12 ∧ p' + len' ≤ n ∧ regs_ok r'.
Proof.
  intros Hag. revert fuel' p len r.
  induction fuel as [|fuel IH]; intros [|fuel'] p len r Hp Hlen Hn Hr Hf Hf'; try lia.
  simpl. destruct (Z.ltb_spec len 12).
  { eexists _, _, _. do 2 (split; [reflexivity|]). auto with lia. }
  destruct r as [[a b] c].
  destruct (fetch_agree be n k k' p) as (w0 & _ & H0 & H0'); [done|lia..|].
  destruct (fetch_agree be n k k' (p + 4)) as (w1 & _ & H1 & H1'); [done|lia..|].
  destruct (fetch_agree be n k k' (p + 8)) as (w2 & _ & H2 & H2'); [done|lia..|].
  rewrite H0, H0', H1, H1', H2, H2'. simpl. apply IH; try lia.
  apply mix_ok. split_and!; apply add32_bound.
Qed.

(** Reading the bytes [p .. p + n - 1] of two agreeing keys. *)
Ltac agree_reads H p n :=
  lazymatch n with
  | 0 => idtac
  | _ => let n' := eval compute in (n - 1) in
         let b := fresh "b" in let H1 := fresh "Hr" in let H2 := fresh "Hr" in
         destruct (H (p + n') ltac:(lia)) as (b & H1 & H2);
         rewrite ?Z.add_0_r in H1, H2; agree_reads H p n'
  end.
Ltac use_reads :=
  repeat (match goal with
          | Hr : arr_get ?l ?i = Ret _ |- context [arr_get ?l ?i] => rewrite Hr
          end; cbn [mbind outcome_bind]).

Lemma shl32_0 x : shl32 x 0 = uint32_of x.
Proof. unfold shl32. by rewrite Z.shiftl_0_r. Qed.

Ltac norm_shifts :=
  repeat match goal with
  | |- context [shl32 ?x ?e] =>
      let v := eval compute in e in
      progress change (shl32 x e) with (shl32 x v)
  end; rewrite ?shl32_0.
Ltac norm_offsets :=
  change (4 + 1) with 5; change (4 + 2) with 6; change (4 + 3) with 7.

Lemma tail_agree be n k k' p len a b c :
  agree n k k' → 0 ≤ p → 0 ≤ len < 12 → p + len ≤ n →
  ∃ r', tail_aligned be k p len (a, b, c) = Ret r' ∧
        tail_unaligned be k' p len (a, b, c) = Ret r'.
Proof.
  intros Hag Hp Hlen Hn.
  assert (len = 0 ∨ len = 1 ∨ len = 2 ∨ len = 3 ∨ len = 4 ∨ len = 5 ∨ len = 6 ∨
          len = 7 ∨ len = 8 ∨ len = 9 ∨ len = 10 ∨ len = 11) as Hcases by lia.
  destruct_or! Hcases; subst len;
    match type of Hn with _ + ?m ≤ _ => agree_reads Hag p m end;
    cbv beta iota zeta delta [tail_aligned tail_unaligned tail_c add_byte fetch32
      byte_shift Z.leb Z.compare Pos.compare Pos.compare_cont];
    rewrite <- ?Z.add_assoc; norm_offsets;
    use_reads; (eexists; split; [reflexivity|]); destruct be;
    cbn [mbind outcome_bind]; use_reads; do 2 f_equal;
    try done; try f_equal; try done; unfold add32; norm_shifts; solve_wrap.
Qed.

Lemma hash_any_agree be k k' keylen :
  agree keylen k k' → 0 ≤ keylen < 2 ^ 32 →
  ∃ h, is_uint 32 h ∧ hash_any be true k keylen = Ret h ∧
       hash_any be false k' keylen = Ret h.
Proof.
  intros Hag Hlen. unfold hash_any. rewrite (wrap_u_small 32 keylen) by done.
  assert (∀ l l', agree keylen l l' → keylen ≤ Z.of_nat (length l)) as Hfuel.
  { intros l l' H. destruct (Z_le_gt_dec keylen 0); [lia|].
    destruct (H (keylen - 1)) as (b & [? Hb]%arr_get_Some & _); [lia|].
    apply lookup_lt_Some in Hb. lia. }
  set (i := hash_init keylen).
  destruct (hash_loop_agree be keylen k k' (S (length k)) (S (length k')) 0 keylen (i, i, i))
    as (p & len & [[a b] c] & -> & -> & Hp & Hl & Hn & Hr); try lia; try done.
  - split_and!; apply wrap_u_bound; lia.
  - specialize (Hfuel k k' Hag). lia.
  - specialize (Hfuel k' k (agree_sym _ _ _ Hag)). lia.
  - cbn [mbind outcome_bind].
    destruct (tail_agree be keylen k k' p len a b c) as ([[a' b'] c'] & -> & ->); auto with lia.
    cbn [mbind outcome_bind]. unfold final. eexists.
    split; [|split; reflexivity]. apply final_line_bound.
Qed.

Lemma hash_any_prefix be al k k' :
  Z.of_nat (length k) < 2 ^ 32 →
  hash_any be al (k ++ k') (Z.of_nat (length k)) = hash_any be al k (Z.of_nat (length k)).
Proof.
  intros Hk.
  destruct (hash_any_agree be k k (Z.of_nat (length k))) as (h1 & _ & H1 & H1');
    [by apply agree_refl|lia|].
  destruct (hash_any_agree be k (k ++ k') (Z.of_nat (length k))) as (h2 & _ & H2 & H2');
    [apply agree_app|lia|].
  destruct (hash_any_agree be (k ++ k') k (Z.of_nat (length k))) as (h3 & _ & H3 & H3');
    [apply agree_sym, agree_app|lia|].
  destruct al; congruence.
Qed.

(** ** Properties *)

(** On every key of [keylen] readable bytes [hash_any] terminates without
    reading out of bounds and returns a 32-bit value, and its word-at-a-time
    path and its byte-at-a-time path return the same value, on machines of
    either endianness. *)
Theorem hash_any_alignment_independent (be : bool) (k : list Z) (keylen : Z) :
  0 ≤ keylen ≤ Z.of_nat (length k) → keylen < 2 ^ 32 →
  ∃ h, is_uint 32 h ∧ ∀ aligned, hash_any be aligned k keylen = Ret h.
Proof.
  intros Hk Hlen.
  destruct (hash_any_agree be k k keylen) as (h & Hb & H1 & H2); [apply agree_refl; lia|lia|].
  exists h. split; [done|]. by intros [].
Qed.

Lemma hash_any_alignment_independent_witness :
  (0 ≤ 13 ≤ Z.of_nat (length (seqZ 65 14))) ∧
  ∃ h, is_uint 32 h ∧ ∀ aligned, hash_any false aligned (seqZ 65 14) 13 = Ret h.
Proof.
  split; [done|]. apply (hash_any_alignment_independent false (seqZ 65 14) 13); done.
Defined.

Lemma shl32_small x k : 0 ≤ k → 0 ≤ x → x * 2 ^ k < 2 ^ 32 → shl32 x k = x * 2 ^ k.
Proof.
  intros. unfold shl32. rewrite Z.shiftl_mul_pow2, wrap_u_small by (try done; unfold is_uint; nia).
  done.
Qed.

Lemma le_bytes_value w :
  is_uint 32 w →
  uint32_of (Z.land w 255 + shl32 (Z.land (Z.shiftr w 8) 255) 8
    + shl32 (Z.land (Z.shiftr (Z.shiftr w 8) 8) 255) 16
    + shl32 (Z.land (Z.shiftr (Z.shiftr (Z.shiftr w 8) 8) 8) 255) 24) = w.
Proof.
  intros [H1 H2]. change 255 with (Z.ones 8).
  rewrite !Z.land_ones, !Z.shiftr_div_pow2 by lia.
  change (2 ^ 8) with 256. change (2 ^ 32) with 4294967296 in *.
  rewrite !shl32_small; try lia;
    change (2 ^ 8) with 256; change (2 ^ 16) with 65536; change (2 ^ 24) with 16777216;
    change (2 ^ 32) with 4294967296;
    try (Z.to_euclidean_division_equations; lia).
  rewrite wrap_u_small; [|unfold is_uint; change (2 ^ 32) with 4294967296];
    Z.to_euclidean_division_equations; lia.
Qed.

Lemma fetch32_mem_bytes be w :
  is_uint 32 w → fetch32 be (mem_bytes be 4 w) 0 = Ret w.
Proof.
  intros Hw. destruct be; exact (f_equal Ret (le_bytes_value w Hw)).
Qed.

Lemma length_mem_bytes be n w : length (mem_bytes be n w) = n.
Proof.
  assert (length (le_bytes n w) = n) by (revert w; induction n; simpl; auto).
  unfold mem_bytes. destruct be; [rewrite length_rev|]; done.
Qed.

(** [hash_uint32] returns what [hash_any] returns on the four bytes of its
    argument, whatever the endianness of the machine and the alignment of the
    copy in memory (the contract its comment states). *)
Theorem hash_uint32_spec (be aligned : bool) (k : Z) :
  is_uint 32 k → hash_any be aligned (mem_bytes be 4 k) 4 = Ret (hash_uint32 k).
Proof.
  intros Hk.
  assert (hash_any be true (mem_bytes be 4 k) 4 = Ret (hash_uint32 k)) as Ht.
  { unfold hash_any, hash_loop, tail_aligned, hash_uint32.
    rewrite (wrap_u_small 32 4) by done. simpl.
    rewrite fetch32_mem_bytes by done. done. }
  destruct (hash_any_agree be (mem_bytes be 4 k) (mem_bytes be 4 k) 4) as (h & _ & H1 & H2);
    [apply agree_refl; by rewrite length_mem_bytes|done|].
  destruct aligned; congruence.
Qed.

Lemma hash_uint32_spec_witness :
  hash_any true false (mem_bytes true 4 305419896) 4 = Ret (hash_uint32 305419896).
Proof. apply (hash_uint32_spec true false 305419896). done. Defined.

(** The integer support functions agree on logically equal values of
    different widths: an [int8] in the range of [int4] hashes like the [int4],
    and an [int2] like the [int4] (so cross-type hash joins work). *)
Theorem hashint_cross_type (v : Z) :
  is_sint 32 v → hashint8 v = hashint4 v ∧ (is_sint 16 v → hashint2 v = hashint4 v).
Proof.
  intros Hv. split; [|intros _; unfold hashint2, hashint4; by rewrite wrap_s_small].
  unfold hashint8, hashint4. f_equal. unfold is_sint in Hv. simpl in Hv.
  rewrite Z.shiftr_div_pow2 by lia. change (2 ^ 32) with 4294967296.
  destruct (Z.leb_spec 0 v).
  - replace (v / 4294967296) with 0 by (Z.to_euclidean_division_equations; lia).
    by rewrite Z.lxor_0_r.
  - replace (v / 4294967296) with (-1) by (Z.to_euclidean_division_equations; lia).
    by rewrite Z.lxor_0_r.
Qed.

Lemma hashint_cross_type_witness :
  hashint8 (-5) = hashint4 (-5) ∧ (is_sint 16 (-5) → hashint2 (-5) = hashint4 (-5)).
Proof. apply (hashint_cross_type (-5)). done. Defined.

(** [mix] loses no information: it is injective on triples of 32-bit words
    and keeps them 32-bit words. *)
Theorem mix_reversible (r1 r2 : regs) :
  regs_ok r1 → regs_ok r2 → regs_ok (mix r1) ∧ (mix r1 = mix r2 → r1 = r2).
Proof.
  intros H1 H2. split; [by apply mix_ok|].
  intros Heq. by rewrite <- (unmix_mix r1), Heq, unmix_mix.
Qed.

Lemma mix_reversible_witness :
  regs_ok (mix (1, 2, 3)) ∧ (mix (1, 2, 3) = mix (1, 2, 4) → (1, 2, 3) = (1, 2, 4)).
Proof. apply (mix_reversible (1, 2, 3) (1, 2, 4)); done. Defined.

Example hashint4_1 : hashint4 1 = uint32_of (-1905060026).
Proof. reflexivity. Qed.
