(* ===== verification/Bitmapset.v ===== *)
(** * Bitmapsets

    Models [src/backend/nodes/bitmapset.c] and [src/include/nodes/bitmapset.h].
    A [Bitmapset] is a record of [nwords] and an array of 32-bit words; a
    [Bitmapset *] is an optional address in a heap of palloc'd sets.
    Functions that only read their arguments are functions of the pointed-to
    values; functions that allocate, modify in place or [pfree] run in the heap
    monad, so that aliasing, recycling and dangling pointers are visible.

    The specification is the strictly increasing list [members] of the elements
    of a set. *)

From S2P Require Import Prelude HashFunc.

(** ** Definitions *)

Definition BITS_PER_BITMAPWORD : Z := 32.
Definition WORDNUM (x : Z) : Z := Z.quot x BITS_PER_BITMAPWORD.
Definition BITNUM (x : Z) : Z := Z.rem x BITS_PER_BITMAPWORD.

Record Bitmapset := mkBitmapset { nwords : Z; words : list Z }.

Inductive BMS_Membership := BMS_EMPTY_SET | BMS_SINGLETON | BMS_MULTIPLE.

#[global] Instance BMS_Membership_eq_dec : EqDecision BMS_Membership.
Proof. solve_decision. Defined.

(** [(signedbitmapword) (x) & -((signedbitmapword) (x))], as a bitmapword; the
    build uses [-fwrapv]. *)
Definition RIGHTMOST_ONE (x : Z) : Z :=
  uint32_of (Z.land (int32_of x) (int32_of (- int32_of x))).
Definition HAS_MULTIPLE_ONES (x : Z) : bool := negb (RIGHTMOST_ONE x =? x).

Definition rightmost_one_pos : list Z := [
  0; 0; 1; 0; 2; 0; 1; 0; 3; 0; 1; 0; 2; 0; 1; 0;
  4; 0; 1; 0; 2; 0; 1; 0; 3; 0; 1; 0; 2; 0; 1; 0;
  5; 0; 1; 0; 2; 0; 1; 0; 3; 0; 1; 0; 2; 0; 1; 0;
  4; 0; 1; 0; 2; 0; 1; 0; 3; 0; 1; 0; 2; 0; 1; 0;
  6; 0; 1; 0; 2; 0; 1; 0; 3; 0; 1; 0; 2; 0; 1; 0;
  4; 0; 1; 0; 2; 0; 1; 0; 3; 0; 1; 0; 2; 0; 1; 0;
  5; 0; 1; 0; 2; 0; 1; 0; 3; 0; 1; 0; 2; 0; 1; 0;
  4; 0; 1; 0; 2; 0; 1; 0; 3; 0; 1; 0; 2; 0; 1; 0;
  7; 0; 1; 0; 2; 0; 1; 0; 3; 0; 1; 0; 2; 0; 1; 0;
  4; 0; 1; 0; 2; 0; 1; 0; 3; 0; 1; 0; 2; 0; 1; 0;
  5; 0; 1; 0; 2; 0; 1; 0; 3; 0; 1; 0; 2; 0; 1; 0;
  4; 0; 1; 0; 2; 0; 1; 0; 3; 0; 1; 0; 2; 0; 1; 0;
  6; 0; 1; 0; 2; 0; 1; 0; 3; 0; 1; 0; 2; 0; 1; 0;
  4; 0; 1; 0; 2; 0; 1; 0; 3; 0; 1; 0; 2; 0; 1; 0;
  5; 0; 1; 0; 2; 0; 1; 0; 3; 0; 1; 0; 2; 0; 1; 0;
  4; 0; 1; 0; 2; 0; 1; 0; 3; 0; 1; 0; 2; 0; 1; 0].

Definition number_of_ones : list Z := [
  0; 1; 1; 2; 1; 2; 2; 3; 1; 2; 2; 3; 2; 3; 3; 4;
  1; 2; 2; 3; 2; 3; 3; 4; 2; 3; 3; 4; 3; 4; 4; 5;
  1; 2; 2; 3; 2; 3; 3; 4; 2; 3; 3; 4; 3; 4; 4; 5;
  2; 3; 3; 4; 3; 4; 4; 5; 3; 4; 4; 5; 4; 5; 5; 6;
  1; 2; 2; 3; 2; 3; 3; 4; 2; 3; 3; 4; 3; 4; 4; 5;
  2; 3; 3; 4; 3; 4; 4; 5; 3; 4; 4; 5; 4; 5; 5; 6;
  2; 3; 3; 4; 3; 4; 4; 5; 3; 4; 4; 5; 4; 5; 5; 6;
  3; 4; 4; 5; 4; 5; 5; 6; 4; 5; 5; 6; 5; 6; 6; 7;
  1; 2; 2; 3; 2; 3; 3; 4; 2; 3; 3; 4; 3; 4; 4; 5;
  2; 3; 3; 4; 3; 4; 4; 5; 3; 4; 4; 5; 4; 5; 5; 6;
  2; 3; 3; 4; 3; 4; 4; 5; 3; 4; 4; 5; 4; 5; 5; 6;
  3; 4; 4; 5; 4; 5; 5; 6; 4; 5; 5; 6; 5; 6; 6; 7;
  2; 3; 3; 4; 3; 4; 4; 5; 3; 4; 4; 5; 4; 5; 5; 6;
  3; 4; 4; 5; 4; 5; 5; 6; 4; 5; 5; 6; 5; 6; 6; 7;
  3; 4; 4; 5; 4; 5; 5; 6; 4; 5; 5; 6; 5; 6; 6; 7;
  4; 5; 5; 6; 5; 6; 6; 7; 5; 6; 6; 7; 6; 7; 7; 8].

(** *** Functions that only read *)

(** The result of a function whose loop may have returned early with [r]. *)
Definition finish {A R} (m : outcome (A + R)) (k : A → outcome R) : outcome R :=
  x ← m; match x with inl a => k a | inr r => Ret r end.

Definition bms_is_empty (a : option Bitmapset) : outcome bool :=
  match a with
  | None => Ret true
  | Some a =>
      finish (for_range 0 (nwords a) (λ i _,
                w ← arr_get (words a) i;
                Ret (if negb (w =? 0) then inr false else inl tt)) tt)
             (λ _, Ret true)
  end.

Definition bms_equal (a b : option Bitmapset) : outcome bool :=
  match a, b with
  | None, None => Ret true
  | None, Some _ => bms_is_empty b
  | Some _, None => bms_is_empty a
  | Some a, Some b =>
      let '(shorter, longer) := if nwords a <=? nwords b then (a, b) else (b, a) in
      let shortlen := nwords shorter in
      let longlen := nwords longer in
      finish (for_range 0 shortlen (λ i _,
                ws ← arr_get (words shorter) i; wl ← arr_get (words longer) i;
                Ret (if negb (ws =? wl) then inr false else inl tt)) tt) (λ _,
      finish (for_range shortlen longlen (λ i _,
                wl ← arr_get (words longer) i;
                Ret (if negb (wl =? 0) then inr false else inl tt)) tt) (λ _,
      Ret true))
  end.

Definition bms_is_subset (a b : option Bitmapset) : outcome bool :=
  match a, b with
  | None, _ => Ret true
  | Some _, None => bms_is_empty a
  | Some a, Some b =>
      let shortlen := Z.min (nwords a) (nwords b) in
      finish (for_range 0 shortlen (λ i _,
                wa ← arr_get (words a) i; wb ← arr_get (words b) i;
                Ret (if negb (Z.land wa (u32_not wb) =? 0) then inr false else inl tt)) tt) (λ _,
      if nwords b <? nwords a then
        finish (for_range shortlen (nwords a) (λ i _,
                  wa ← arr_get (words a) i;
                  Ret (if negb (wa =? 0) then inr false else inl tt)) tt) (λ _,
        Ret true)
      else Ret true)
  end.

Definition bms_is_member (x : Z) (a : option Bitmapset) : outcome bool :=
  if x <? 0 then Ereport ERRCODE_INTERNAL_ERROR else
  match a with
  | None => Ret false
  | Some a =>
      let wordnum := WORDNUM x in
      let bitnum := BITNUM x in
      if nwords a <=? wordnum then Ret false
      else w ← arr_get (words a) wordnum;
           Ret (negb (Z.land w (shl32 1 bitnum) =? 0))
  end.

Definition bms_overlap (a b : option Bitmapset) : outcome bool :=
  match a, b with
  | Some a, Some b =>
      let shortlen := Z.min (nwords a) (nwords b) in
      finish (for_range 0 shortlen (λ i _,
                wa ← arr_get (words a) i; wb ← arr_get (words b) i;
                Ret (if negb (Z.land wa wb =? 0) then inr true else inl tt)) tt) (λ _,
      Ret false)
  | _, _ => Ret false
  end.

Definition bms_nonempty_difference (a b : option Bitmapset) : outcome bool :=
  match a, b with
  | None, _ => Ret false
  | Some _, None => e ← bms_is_empty a; Ret (negb e)
  | Some a, Some b =>
      let shortlen := Z.min (nwords a) (nwords b) in
      finish (for_range 0 shortlen (λ i _,
                wa ← arr_get (words a) i; wb ← arr_get (words b) i;
                Ret (if negb (Z.land wa (u32_not wb) =? 0) then inr true else inl tt)) tt) (λ _,
      finish (for_range shortlen (nwords a) (λ i _,
                wa ← arr_get (words a) i;
                Ret (if negb (wa =? 0) then inr true else inl tt)) tt) (λ _,
      Ret false))
  end.

(** [while ((w & 255) == 0) { w >>= 8; result += 8; }
     result += rightmost_one_pos[w & 255];]  A non-zero 32-bit word needs at
    most three iterations. *)
Fixpoint rightmost_loop (fuel : nat) (w result : Z) : outcome Z :=
  if Z.land w 255 =? 0 then
    match fuel with
    | O => Timeout
    | S fuel => rightmost_loop fuel (Z.shiftr w 8) (result + 8)
    end
  else p ← arr_get rightmost_one_pos (Z.land w 255); Ret (result + p).

Definition bms_singleton_member (a : option Bitmapset) : outcome Z :=
  match a with
  | None => Ereport ERRCODE_INTERNAL_ERROR
  | Some a =>
      finish (for_range 0 (nwords a) (λ wordnum result,
                w ← arr_get (words a) wordnum;
                if negb (w =? 0) then
                  if (0 <=? result) || HAS_MULTIPLE_ONES w
                  then Ereport ERRCODE_INTERNAL_ERROR
                  else r ← rightmost_loop 3 w (wordnum * BITS_PER_BITMAPWORD);
                       Ret (inl r)
                else Ret (inl result)) (-1)) (λ result,
      if result <? 0 then Ereport ERRCODE_INTERNAL_ERROR else Ret result)
  end.

(** [while (w != 0) { result += number_of_ones[w & 255]; w >>= 8; }] *)
Fixpoint ones_loop (fuel : nat) (w result : Z) : outcome Z :=
  if w =? 0 then Ret result else
  match fuel with
  | O => Timeout
  | S fuel => n ← arr_get number_of_ones (Z.land w 255);
              ones_loop fuel (Z.shiftr w 8) (result + n)
  end.

Definition bms_num_members (a : option Bitmapset) : outcome Z :=
  match a with
  | None => Ret 0
  | Some a =>
      finish (for_range 0 (nwords a) (λ wordnum result,
                w ← arr_get (words a) wordnum;
                r ← ones_loop 4 w result;
                Ret (inl r)) 0) Ret
  end.

Definition bms_membership (a : option Bitmapset) : outcome BMS_Membership :=
  match a with
  | None => Ret BMS_EMPTY_SET
  | Some a =>
      finish (for_range 0 (nwords a) (λ wordnum result,
                w ← arr_get (words a) wordnum;
                if negb (w =? 0) then
                  if bool_decide (result ≠ BMS_EMPTY_SET) || HAS_MULTIPLE_ONES w
                  then Ret (inr BMS_MULTIPLE)
                  else Ret (inl BMS_SINGLETON)
                else Ret (inl result)) BMS_EMPTY_SET) Ret
  end.

(** [for (lastword = a->nwords; --lastword >= 0;) if (words[lastword] != 0) break;] *)
Fixpoint last_word_loop (n : nat) (ws : list Z) : outcome Z :=
  match n with
  | O => Ret (-1)
  | S n => w ← arr_get ws (Z.of_nat n);
           if negb (w =? 0) then Ret (Z.of_nat n) else last_word_loop n ws
  end.

Definition bms_hash_value (be : bool) (a : option Bitmapset) : outcome Z :=
  match a with
  | None => Ret 0
  | Some a =>
      lastword ← last_word_loop (Z.to_nat (nwords a)) (words a);
      if lastword <? 0 then Ret 0
      else hash_any be true (words_bytes be (words a)) ((lastword + 1) * 4)
  end.

(** *** Functions that allocate, modify or free *)

Abbreviation heap := (gmap positive Bitmapset).
Abbreviation ptr := (option positive).

Definition load (l : positive) : cmd heap Bitmapset :=
  λ h, match h !! l with Some b => Ret (b, h) | None => UB end.
Definition store (l : positive) (b : Bitmapset) : cmd heap unit :=
  λ h, match h !! l with Some _ => Ret (tt, <[l := b]> h) | None => UB end.
Definition palloc (b : Bitmapset) : cmd heap positive :=
  λ h, let l := fresh (dom h) in Ret (l, <[l := b]> h).
Definition pfree (l : positive) : cmd heap unit :=
  λ h, match h !! l with Some _ => Ret (tt, delete l h) | None => UB end.

Definition get_word (l : positive) (i : Z) : cmd heap Z :=
  b ← load l; lift (arr_get (words b) i).
Definition set_word (l : positive) (i w : Z) : cmd heap unit :=
  b ← load l; ws ← lift (arr_set (words b) i w);
  store l (mkBitmapset (nwords b) ws).

(** [for (i = 0; i < len; i++) result->words[i] op= other->words[i];] *)
Definition op_loop (op : Z → Z → Z) (result other : positive) (len : Z) : cmd heap unit :=
  cfor_range 0 len (λ i,
    r ← get_word result i; o ← get_word other i; set_word result i (op r o)).
Definition andnot (x y : Z) : Z := Z.land x (u32_not y).

Definition bms_copy (a : ptr) : cmd heap ptr :=
  match a with
  | None => mret None
  | Some a => b ← load a; r ← palloc b; mret (Some r)
  end.

Definition bms_make_singleton (x : Z) : cmd heap ptr :=
  if x <? 0 then ereport ERRCODE_INTERNAL_ERROR else
  let wordnum := WORDNUM x in
  let bitnum := BITNUM x in
  result ← palloc (mkBitmapset (wordnum + 1) (replicate (Z.to_nat (wordnum + 1)) 0));
  _ ← set_word result wordnum (shl32 1 bitnum);
  mret (Some result).

Definition bms_free (a : ptr) : cmd heap unit :=
  match a with None => mret tt | Some a => pfree a end.

(** The pointer returned by [bms_copy] of a non-NULL set. *)
Definition bms_copy_nonnull (a : positive) : cmd heap positive :=
  r ← bms_copy (Some a);
  match r with Some r => mret r | None => λ _, UB end.

Definition bms_union (a b : ptr) : cmd heap ptr :=
  match a, b with
  | None, _ => bms_copy b
  | _, None => bms_copy a
  | Some a, Some b =>
      va ← load a; vb ← load b;
      '(result, other) ←
        (if nwords va <=? nwords vb
         then r ← bms_copy_nonnull b; mret (r, a)
         else r ← bms_copy_nonnull a; mret (r, b));
      vo ← load other;
      _ ← op_loop Z.lor result other (nwords vo);
      mret (Some result)
  end.

Definition bms_intersect (a b : ptr) : cmd heap ptr :=
  match a, b with
  | Some a, Some b =>
      va ← load a; vb ← load b;
      '(result, other) ←
        (if nwords va <=? nwords vb
         then r ← bms_copy_nonnull a; mret (r, b)
         else r ← bms_copy_nonnull b; mret (r, a));
      vr ← load result;
      _ ← op_loop Z.land result other (nwords vr);
      mret (Some result)
  | _, _ => mret None
  end.

Definition bms_difference (a b : ptr) : cmd heap ptr :=
  match a, b with
  | None, _ => mret None
  | _, None => bms_copy a
  | Some a, Some b =>
      result ← bms_copy_nonnull a;
      va ← load a; vb ← load b;
      _ ← op_loop andnot result b (Z.min (nwords va) (nwords vb));
      mret (Some result)
  end.

Definition bms_add_member (a : ptr) (x : Z) : cmd heap ptr :=
  if x <? 0 then ereport ERRCODE_INTERNAL_ERROR else
  match a with
  | None => bms_make_singleton x
  | Some a =>
      let wordnum := WORDNUM x in
      let bitnum := BITNUM x in
      va ← load a;
      if nwords va <=? wordnum then
        r ← bms_make_singleton x;
        match r with
        | None => λ _, UB
        | Some result =>
            _ ← op_loop Z.lor result a (nwords va);
            _ ← pfree a;
            mret (Some result)
        end
      else
        w ← get_word a wordnum;
        _ ← set_word a wordnum (Z.lor w (shl32 1 bitnum));
        mret (Some a)
  end.

Definition bms_del_member (a : ptr) (x : Z) : cmd heap ptr :=
  if x <? 0 then ereport ERRCODE_INTERNAL_ERROR else
  match a with
  | None => mret None
  | Some a =>
      let wordnum := WORDNUM x in
      let bitnum := BITNUM x in
      va ← load a;
      _ ← (if wordnum <? nwords va then
             w ← get_word a wordnum;
             set_word a wordnum (Z.land w (u32_not (shl32 1 bitnum)))
           else mret tt);
      mret (Some a)
  end.

Definition bms_add_members (a b : ptr) : cmd heap ptr :=
  match a, b with
  | None, _ => bms_copy b
  | Some a, None => mret (Some a)
  | Some a, Some b =>
      va ← load a; vb ← load b;
      '(result, other) ←
        (if nwords va <? nwords vb
         then r ← bms_copy_nonnull b; mret (r, a)
         else mret (a, b));
      vo ← load other;
      _ ← op_loop Z.lor result other (nwords vo);
      _ ← (if bool_decide (result ≠ a) then pfree a else mret tt);
      mret (Some result)
  end.

Definition bms_int_members (a b : ptr) : cmd heap ptr :=
  match a, b with
  | None, _ => mret None
  | Some a, None => _ ← pfree a; mret None
  | Some a, Some b =>
      va ← load a; vb ← load b;
      let shortlen := Z.min (nwords va) (nwords vb) in
      _ ← op_loop Z.land a b shortlen;
      va ← load a;
      _ ← cfor_range shortlen (nwords va) (λ i, set_word a i 0);
      mret (Some a)
  end.

Definition bms_del_members (a b : ptr) : cmd heap ptr :=
  match a, b with
  | None, _ => mret None
  | Some a, None => mret (Some a)
  | Some a, Some b =>
      va ← load a; vb ← load b;
      _ ← op_loop andnot a b (Z.min (nwords va) (nwords vb));
      mret (Some a)
  end.

Definition bms_join (a b : ptr) : cmd heap ptr :=
  match a, b with
  | None, _ => mret b
  | _, None => mret a
  | Some a, Some b =>
      va ← load a; vb ← load b;
      let '(result, other) := if nwords va <? nwords vb then (b, a) else (a, b) in
      vo ← load other;
      _ ← op_loop Z.lor result other (nwords vo);
      _ ← (if bool_decide (other ≠ result) then pfree other else mret tt);
      mret (Some result)
  end.

(** The scan of [bms_first_member] over the words of [a]. *)
Fixpoint first_member_loop (n : nat) (a : positive) (wordnum : Z) : cmd heap Z :=
  match n with
  | O => mret (-1)
  | S n =>
      w ← get_word a wordnum;
      if negb (w =? 0) then
        let w1 := RIGHTMOST_ONE w in
        _ ← set_word a wordnum (Z.land w (u32_not w1));
        lift (rightmost_loop 3 w1 (wordnum * BITS_PER_BITMAPWORD))
      else first_member_loop n a (wordnum + 1)
  end.

Definition bms_first_member (a : ptr) : cmd heap Z :=
  match a with
  | None => mret (-1)
  | Some a => va ← load a; first_member_loop (Z.to_nat (nwords va)) a 0
  end.

(** ** Specification *)

(** The positions, from [base] on, of the bits set among the [n] low bits of
    [w], and the members of a word array, in increasing order. *)
Fixpoint bits_from (n : nat) (base w : Z) : list Z :=
  match n with
  | O => []
  | S n => (if Z.odd w then [base] else []) ++ bits_from n (base + 1) (Z.div2 w)
  end.
Fixpoint ws_members (base : Z) (ws : list Z) : list Z :=
  match ws with
  | [] => []
  | w :: ws => bits_from 32 base w ++ ws_members (base + 32) ws
  end.
Definition value (a : option Bitmapset) : Bitmapset := default (mkBitmapset 0 []) a.
Definition members (a : option Bitmapset) : list Z := ws_members 0 (words (value a)).

(** Well-formed sets: the array has [nwords] words of 32 bits, few enough that
    every member is an [int]. *)
Definition bms_wf (a : option Bitmapset) : Prop :=
  let a := value a in
  nwords a = Z.of_nat (length (words a)) ∧ Forall (is_uint 32) (words a) ∧
  nwords a ≤ 2 ^ 26.

#[global] Instance bms_wf_dec a : Decision (bms_wf a).
Proof. unfold bms_wf. simpl. apply _. Defined.

(** ** Lemmas: words and members *)

Lemma elem_of_bits_from n base w x :
  x ∈ bits_from n base w ↔ base ≤ x < base + Z.of_nat n ∧ Z.testbit w (x - base) = true.
Proof.
  revert base w. induction n as [|n IH]; intros base w; simpl.
  - split; [by intros ?%elem_of_nil|lia].
  - rewrite elem_of_app, IH.
    assert (x ∈ (if Z.odd w then [base] else []) ↔ x = base ∧ Z.testbit w 0 = true) as ->.
    { rewrite Z.bit0_odd. destruct (Z.odd w); rewrite ?list_elem_of_singleton, ?elem_of_nil; naive_solver. }
    destruct (decide (x = base)) as [->|Hne].
    + rewrite Z.sub_diag. naive_solver lia.
    + rewrite Z.div2_spec.
      assert (base + 1 ≤ x → Z.testbit (Z.shiftr w 1) (x - (base + 1)) = Z.testbit w (x - base)) as Heq.
      { intros. rewrite Z.shiftr_spec by lia. f_equal. lia. }
      split.
      * intros [[-> _]|[? Ht]]; [done|]. rewrite Heq in Ht by lia. split; [lia|done].
      * intros [? Ht]. right. split; [lia|]. rewrite Heq by lia. done.
Qed.

Lemma sorted_app_lt (l1 l2 : list Z) :
  StronglySorted Z.lt l1 → StronglySorted Z.lt l2 →
  (∀ x y, x ∈ l1 → y ∈ l2 → x < y) → StronglySorted Z.lt (l1 ++ l2).
Proof.
  intros H1 H2 Hlt. induction H1 as [|x l1 Hs IH Hall]; simpl; [done|].
  constructor.
  - apply IH. intros. apply Hlt; [by right|done].
  - apply Forall_app. split; [done|]. apply Forall_forall.
    intros y Hy. apply Hlt; [by left|done].
Qed.

Lemma sorted_bits_from n base w : StronglySorted Z.lt (bits_from n base w).
Proof.
  revert base w. induction n as [|n IH]; intros base w; simpl; [constructor|].
  apply sorted_app_lt; [|done|].
  - destruct (Z.odd w); repeat constructor.
  - intros x y Hx Hy. apply elem_of_bits_from in Hy.
    destruct (Z.odd w); [apply list_elem_of_singleton in Hx; lia|by apply elem_of_nil in Hx].
Qed.

#[global] Arguments bits_from : simpl never.

Lemma wd_uint ws i : Forall (is_uint 32) ws → is_uint 32 (wd ws i).
Proof.
  intros Hws. unfold wd. destruct (ws !! Z.to_nat i) eqn:E; simpl; [|done].
  by eapply Forall_lookup_1.
Qed.

Lemma elem_of_ws_members base ws x :
  x ∈ ws_members base ws ↔
  base ≤ x ∧ Z.testbit (wd ws ((x - base) / 32)) ((x - base) mod 32) = true.
Proof.
  revert base. induction ws as [|w ws IH]; intros base; simpl.
  - rewrite elem_of_nil. unfold wd. rewrite lookup_nil. simpl.
    rewrite Z.bits_0. naive_solver.
  - rewrite elem_of_app, elem_of_bits_from, IH.
    destruct (Z_lt_le_dec x base); [naive_solver lia|].
    rewrite wd_cons by (apply Z.div_pos; lia).
    destruct (Z_lt_le_dec x (base + 32)).
    + rewrite (Z.div_small (x - base)), (Z.mod_small (x - base)) by lia. simpl. naive_solver lia.
    + assert ((x - base) / 32 = (x - (base + 32)) / 32 + 1) as Hd.
      { rewrite <- Z.div_add by lia. f_equal. lia. }
      assert ((x - base) mod 32 = (x - (base + 32)) mod 32) as ->.
      { rewrite <- (Z.mod_add (x - (base + 32)) 1) by lia. f_equal. lia. }
      rewrite Hd, Z.add_simpl_r.
      pose proof (Z.div_pos (x - (base + 32)) 32).
      destruct (Z.eqb_spec ((x - (base + 32)) / 32 + 1) 0); [lia|]. naive_solver lia.
Qed.

Lemma sorted_ws_members base ws : StronglySorted Z.lt (ws_members base ws).
Proof.
  revert base. induction ws as [|w ws IH]; intros base; simpl; [constructor|].
  apply sorted_app_lt; [apply sorted_bits_from|done|].
  intros x y Hx%elem_of_bits_from Hy%elem_of_ws_members. lia.
Qed.

(** Bit [x] of a set, and membership in terms of words. *)
Lemma elem_of_members a x :
  x ∈ members a ↔ 0 ≤ x ∧ Z.testbit (wd (words (value a)) (x / 32)) (x mod 32) = true.
Proof. unfold members. by rewrite elem_of_ws_members, Z.sub_0_r. Qed.

Lemma sorted_members a : StronglySorted Z.lt (members a).
Proof. apply sorted_ws_members. Qed.

Lemma members_ext a b : (∀ x, x ∈ members a ↔ x ∈ members b) → members a = members b.
Proof. intros. apply sorted_lt_ext; auto using sorted_members. Qed.

(** A member is a bit of a word. *)
Lemma member_bit a j k :
  0 ≤ j → 0 ≤ k < 32 →
  32 * j + k ∈ members a ↔ Z.testbit (wd (words (value a)) j) k = true.
Proof.
  intros Hj Hk. rewrite elem_of_members.
  rewrite div_mul_add, mod_mul_add by lia.
  naive_solver lia.
Qed.

Lemma uint32_zero w :
  is_uint 32 w → (w = 0 ↔ ∀ k, 0 ≤ k < 32 → Z.testbit w k = false).
Proof.
  intros Hw. split; [by intros -> k _; rewrite Z.bits_0|]. intros Hk.
  apply Z.bits_inj'. intros k Hk0. rewrite Z.bits_0.
  destruct (Z_lt_le_dec k 32); [apply Hk; lia|]. by apply (is_uint_testbit_high 32).
Qed.

Lemma uint32_nonzero w :
  is_uint 32 w → w ≠ 0 → ∃ k, 0 ≤ k < 32 ∧ Z.testbit w k = true.
Proof.
  intros Hw Hnz. exists (Z.log2 w). unfold is_uint in Hw.
  split; [split; [apply Z.log2_nonneg|apply Z.log2_lt_pow2; lia]|apply Z.bit_log2; lia].
Qed.

Section words_and_members.
Context (a b : option Bitmapset) (Ha : bms_wf a) (Hb : bms_wf b).
#[local] Abbreviation W c := (wd (words (value c))).

Lemma W_uint c j : bms_wf c → is_uint 32 (W c j).
Proof. intros (_ & ? & _). by apply wd_uint. Qed.

Lemma members_nil_words : members a = [] ↔ ∀ j, 0 ≤ j → W a j = 0.
Proof.
  split.
  - intros Hnil j Hj. destruct (decide (W a j = 0)) as [|Hnz]; [done|exfalso].
    destruct (uint32_nonzero (W a j)) as (k & Hk & Ht); [by apply W_uint|done|].
    rewrite <- member_bit, Hnil in Ht by lia. by apply elem_of_nil in Ht.
  - intros Hz. apply elem_of_nil_inv. intros x [Hx Ht]%elem_of_members.
    rewrite Hz, Z.bits_0 in Ht by (apply Z.div_pos; lia). done.
Qed.

Lemma members_subset_words :
  members a ⊆ members b ↔ ∀ j, 0 ≤ j → andnot (W a j) (W b j) = 0.
Proof.
  assert (∀ j, is_uint 32 (andnot (W a j) (W b j))) as Hu.
  { intros. apply land_is_uint; [lia|by apply W_uint|].
    unfold u32_not. apply wrap_u_bound. lia. }
  split.
  - intros Hsub j Hj. apply uint32_zero; [done|]. intros k Hk. unfold andnot.
    rewrite Z.land_spec, u32_not_testbit by lia.
    destruct (Z.testbit (W a j) k) eqn:E; [simpl|done].
    rewrite <- member_bit in E by lia. apply Hsub in E. rewrite member_bit in E by lia.
    rewrite E. apply andb_false_r.
  - intros Hz x [Hx Ht]%elem_of_members. apply elem_of_members. split; [done|].
    pose proof (Hz (x / 32) ltac:(apply Z.div_pos; lia)) as H0.
    rewrite uint32_zero in H0 by done.
    specialize (H0 (x mod 32) ltac:(apply Z.mod_pos_bound; lia)). unfold andnot in H0.
    pose proof (Z.mod_pos_bound x 32).
    rewrite Z.land_spec, u32_not_testbit, Ht in H0 by lia.
    destruct (Z.ltb_spec (x mod 32) 32); [|lia]. simpl in H0.
    by apply negb_false_iff in H0.
Qed.

Lemma members_eq_words : members a = members b ↔ ∀ j, 0 ≤ j → W a j = W b j.
Proof.
  split.
  - intros Heq j Hj. apply Z.bits_inj'. intros k Hk.
    destruct (Z_lt_le_dec k 32).
    + apply eq_true_iff_eq. rewrite <- !member_bit by lia. by rewrite Heq.
    + rewrite !(is_uint_testbit_high 32) by (try lia; by apply W_uint). done.
  - intros Hw. apply members_ext. intros x. rewrite !elem_of_members.
    split; intros [? H]; (split; [done|]);
      [rewrite <- Hw|rewrite Hw]; auto; apply Z.div_pos; lia.
Qed.

Lemma members_overlap_words :
  (∃ x, x ∈ members a ∧ x ∈ members b) ↔ ∃ j, 0 ≤ j ∧ Z.land (W a j) (W b j) ≠ 0.
Proof.
  split.
  - intros (x & [Hx Hxa]%elem_of_members & [_ Hxb]%elem_of_members).
    exists (x / 32). split; [apply Z.div_pos; lia|]. intros H0.
    assert (Z.testbit (Z.land (W a (x / 32)) (W b (x / 32))) (x mod 32) = true) as Ht.
    { by rewrite Z.land_spec, Hxa, Hxb. }
    by rewrite H0, Z.bits_0 in Ht.
  - intros (j & Hj & Hnz).
    destruct (uint32_nonzero (Z.land (W a j) (W b j))) as (k & Hk & Ht); [|done|].
    { apply land_is_uint; [lia|by apply W_uint|apply (W_uint b j Hb)]. }
    rewrite Z.land_spec in Ht. apply andb_prop in Ht as [Ht1 Ht2].
    exists (32 * j + k). by rewrite !member_bit by lia.
Qed.
End words_and_members.

(** ** Lemmas: the read-only functions *)

Lemma finish_search {R} (p : Z → bool) (v : R) lo hi body (K : unit → outcome R) :
  (∀ k, lo ≤ k < hi → body k tt = Ret (if p k then inr v else inl tt)) →
  finish (for_range lo hi body tt) K =
  if existsb p (seqZ lo (hi - lo)) then Ret v else K tt.
Proof.
  intros Hb. unfold for_range, finish.
  rewrite (for_loop_search p v) by (intros; apply Hb; lia).
  replace (seqZ lo (Z.of_nat (Z.to_nat (hi - lo)))) with (seqZ lo (hi - lo)).
  - cbn [mbind outcome_bind]. by destruct (existsb _ _).
  - destruct (Z_le_gt_dec 0 (hi - lo)); [by rewrite Z2Nat.id|].
    by rewrite !seqZ_nil by lia.
Qed.

Lemma wf_nonneg a : bms_wf (Some a) → 0 ≤ nwords a.
Proof. intros (Hn & _). simpl in Hn. lia. Qed.

Lemma wf_get a i : bms_wf (Some a) → 0 ≤ i < nwords a → arr_get (words a) i = Ret (wd (words a) i).
Proof. intros (Hn & _) Hi. simpl in Hn. apply wd_get. lia. Qed.

Lemma wf_wd_ge a i : bms_wf (Some a) → nwords a ≤ i → wd (words a) i = 0.
Proof. intros (Hn & _) Hi. simpl in Hn. apply wd_ge. lia. Qed.

(** Both branches of an [existsb] over a range of word indexes. *)
Ltac exists_cases :=
  match goal with
  | |- context [existsb ?p (seqZ ?i ?n)] =>
      let E := fresh "E" in
      destruct (existsb p (seqZ i n)) eqn:E;
      [apply existsb_seqZ_true in E as (?j & ?Hj & E)
      |rewrite existsb_seqZ_false in E]
  end.

(** A search loop over [words] reads inside the bounds. *)
Ltac search p v := rewrite (finish_search p v) by
  (intros; rewrite ?wf_get by (try done; lia); reflexivity).

Lemma Ret_bool_decide (b : bool) (P : Prop) `{Decision P} :
  (if b then P else ¬ P) → Ret b = Ret (bool_decide P).
Proof. intros HP. f_equal. symmetry. destruct b; [by apply bool_decide_eq_true|by apply bool_decide_eq_false]. Qed.

Lemma negb_eqb_true x y : negb (x =? y) = true ↔ x ≠ y.
Proof. by rewrite negb_true_iff, Z.eqb_neq. Qed.
Lemma negb_eqb_false x y : negb (x =? y) = false ↔ x = y.
Proof. by rewrite negb_false_iff, Z.eqb_eq. Qed.

Lemma bms_is_empty_spec a :
  bms_wf a → bms_is_empty a = Ret (bool_decide (members a = [])).
Proof.
  intros Ha. destruct a as [a|]; [|done]. unfold bms_is_empty.
  search (λ i, negb (wd (words a) i =? 0)) false. exists_cases; apply Ret_bool_decide.
  - rewrite members_nil_words by done. intros H. apply negb_eqb_true in E. apply E, H. lia.
  - apply members_nil_words; [done|]. intros j Hj. simpl.
    destruct (Z_lt_le_dec j (nwords a)); [|by apply wf_wd_ge].
    apply negb_eqb_false, E. lia.
Qed.

Lemma bms_equal_spec a b :
  bms_wf a → bms_wf b → bms_equal a b = Ret (bool_decide (members a = members b)).
Proof.
  intros Ha Hb. destruct a as [a|], b as [b|]; unfold bms_equal.
  - assert (∃ s l, (if nwords a <=? nwords b then (a, b) else (b, a)) = (s, l) ∧
      bms_wf (Some s) ∧ bms_wf (Some l) ∧ nwords s ≤ nwords l ∧
      (members (Some a) = members (Some b) ↔ members (Some s) = members (Some l)))
      as (s & l & -> & Hs & Hl & Hle & Hiff).
    { destruct (Z.leb_spec (nwords a) (nwords b)); eexists _, _;
        (split; [done|]); split_and!; try done; try lia. }
    rewrite (bool_decide_ext _ _ Hiff). clear Hiff.
    search (λ i, negb (wd (words s) i =? wd (words l) i)) false. exists_cases.
    { apply Ret_bool_decide. rewrite members_eq_words by done. intros H.
      apply negb_eqb_true in E. apply E, H. lia. }
    pose proof (wf_nonneg s Hs).
    search (λ i, negb (wd (words l) i =? 0)) false. exists_cases; apply Ret_bool_decide;
      rewrite members_eq_words by done; simpl.
    + intros H'. apply negb_eqb_true in E0. apply E0.
      rewrite <- H' by lia. apply wf_wd_ge; [done|lia].
    + intros j Hj. destruct (Z_lt_le_dec j (nwords s)).
      { apply negb_eqb_false, E. lia. }
      rewrite (wf_wd_ge s) by done.
      destruct (Z_lt_le_dec j (nwords l)); [|by rewrite wf_wd_ge].
      symmetry. apply negb_eqb_false, E0. lia.
  - rewrite bms_is_empty_spec by done. f_equal. by apply bool_decide_ext.
  - rewrite bms_is_empty_spec by done. f_equal. apply bool_decide_ext.
    split; intros H; symmetry; exact H.
  - done.
Qed.

(** The common core of [bms_is_subset] and [bms_nonempty_difference]. *)
Lemma andnot_range_spec a b :
  bms_wf (Some a) → bms_wf (Some b) →
  members (Some a) ⊆ members (Some b) ↔
  (∀ i, 0 ≤ i < Z.min (nwords a) (nwords b) → Z.land (wd (words a) i) (u32_not (wd (words b) i)) = 0) ∧
  (∀ i, Z.min (nwords a) (nwords b) ≤ i < nwords a → wd (words a) i = 0).
Proof.
  intros Ha Hb. rewrite members_subset_words by done. simpl.
  pose proof (wf_nonneg _ Ha). pose proof (wf_nonneg _ Hb).
  assert (∀ i, is_uint 32 (wd (words a) i)) as Hu by (intros; by apply (W_uint (Some a))).
  assert (∀ i, nwords b ≤ i → andnot (wd (words a) i) (wd (words b) i) = wd (words a) i) as Hge.
  { intros i Hi. rewrite (wf_wd_ge b) by done. unfold andnot.
    change (u32_not 0) with (Z.ones 32). rewrite Z.land_ones by lia.
    by apply Z.mod_small, Hu. }
  split.
  - intros Hz. split; intros i Hi; [apply Hz; lia|].
    rewrite <- Hge by lia. apply Hz. lia.
  - intros [H1 H2] j Hj. destruct (Z_lt_le_dec j (Z.min (nwords a) (nwords b))); [by apply H1|].
    destruct (Z_lt_le_dec j (nwords a)).
    + rewrite Hge by lia. apply H2. lia.
    + rewrite (wf_wd_ge a) by done. done.
Qed.

Lemma bms_is_subset_spec a b :
  bms_wf a → bms_wf b → bms_is_subset a b = Ret (bool_decide (members a ⊆ members b)).
Proof.
  intros Ha Hb. destruct a as [a|]; [|done]. destruct b as [b|]; unfold bms_is_subset.
  - pose proof (andnot_range_spec a b Ha Hb) as Hiff.
    pose proof (wf_nonneg _ Hb).
    search (λ i, negb (Z.land (wd (words a) i) (u32_not (wd (words b) i)) =? 0)) false. exists_cases.
    { apply Ret_bool_decide. rewrite Hiff. intros [H' _]. apply negb_eqb_true in E. apply E, H'. lia. }
    destruct (Z.ltb_spec (nwords b) (nwords a)).
    + search (λ i, negb (wd (words a) i =? 0)) false. exists_cases; apply Ret_bool_decide; rewrite Hiff.
      * intros [_ H']. apply negb_eqb_true in E0. apply E0, H'. lia.
      * split; intros i Hi; [apply negb_eqb_false, E; lia|apply negb_eqb_false, E0; lia].
    + apply Ret_bool_decide, Hiff.
      split; intros i Hi; [apply negb_eqb_false, E; lia|lia].
  - rewrite bms_is_empty_spec by done. f_equal. apply bool_decide_ext.
    split; [intros ->; done|]. intros Hs. by apply list_nil_subseteq.
Qed.

Lemma WORDNUM_div x : 0 ≤ x → WORDNUM x = x / 32.
Proof. intros. unfold WORDNUM, BITS_PER_BITMAPWORD. apply Z.quot_div_nonneg; lia. Qed.
Lemma BITNUM_mod x : 0 ≤ x → BITNUM x = x mod 32.
Proof. intros. unfold BITNUM, BITS_PER_BITMAPWORD. apply Z.rem_mod_nonneg; lia. Qed.

Lemma shl32_1 k : 0 ≤ k < 32 → shl32 1 k = 2 ^ k.
Proof.
  intros Hk. rewrite shl32_small; try lia. rewrite Z.mul_1_l. apply Z.pow_lt_mono_r; lia.
Qed.

Lemma land_pow2_testbit w k : 0 ≤ k → negb (Z.land w (2 ^ k) =? 0) = Z.testbit w k.
Proof.
  intros Hk. destruct (Z.testbit w k) eqn:E.
  - apply negb_eqb_true. intros H.
    assert (Z.testbit (Z.land w (2 ^ k)) k = true) as H' by
      (rewrite Z.land_spec, E, Z.pow2_bits_true by lia; done).
    by rewrite H, Z.bits_0 in H'.
  - apply negb_eqb_false, Z.bits_inj'. intros i Hi.
    rewrite Z.land_spec, Z.bits_0, Z.pow2_bits_eqb by lia.
    destruct (Z.eqb_spec k i) as [<-|]; [by rewrite E|apply andb_false_r].
Qed.

Lemma bms_is_member_spec x a :
  bms_wf a → 0 ≤ x → bms_is_member x a = Ret (bool_decide (x ∈ members a)).
Proof.
  intros Ha Hx. unfold bms_is_member. destruct (Z.ltb_spec x 0); [lia|].
  pose proof (Z.div_pos x 32 Hx). pose proof (Z.mod_pos_bound x 32).
  destruct a as [a|]; [|by apply Ret_bool_decide, not_elem_of_nil].
  rewrite WORDNUM_div, BITNUM_mod, shl32_1 by lia.
  destruct (Z.leb_spec (nwords a) (x / 32)).
  - apply Ret_bool_decide. rewrite elem_of_members. simpl.
    rewrite wf_wd_ge, Z.bits_0 by (try done; lia). naive_solver.
  - rewrite wf_get by (try done; lia). cbn [mbind outcome_bind].
    rewrite land_pow2_testbit by lia. apply Ret_bool_decide.
    destruct (Z.testbit _ _) eqn:E; rewrite elem_of_members; simpl; rewrite E; naive_solver.
Qed.

Lemma bms_overlap_spec a b :
  bms_wf a → bms_wf b →
  ∃ r, bms_overlap a b = Ret r ∧ (r = true ↔ ∃ x, x ∈ members a ∧ x ∈ members b).
Proof.
  intros Ha Hb.
  assert (∀ x, ¬ x ∈ members None) as Hnil by (intros x; apply not_elem_of_nil).
  destruct a as [a|], b as [b|].
  2-4: eexists; split; [done|]; split; [done|]; intros (x & ? & ?); exfalso; by eapply Hnil.
  unfold bms_overlap. pose proof (wf_nonneg _ Ha). pose proof (wf_nonneg _ Hb).
  search (λ i, negb (Z.land (wd (words a) i) (wd (words b) i) =? 0)) true.
  exists_cases; (eexists; split; [done|]); rewrite members_overlap_words by done; simpl.
  - split; [intros _|done]. exists j. apply negb_eqb_true in E. split; [lia|done].
  - split; [done|]. intros (j & Hj & Hnz). exfalso. apply Hnz.
    destruct (Z_lt_le_dec j (nwords a)), (Z_lt_le_dec j (nwords b));
      rewrite ?(wf_wd_ge a j), ?(wf_wd_ge b j), ?Z.land_0_r, ?Z.land_0_l by done; try done.
    apply negb_eqb_false, E. lia.
Qed.

Lemma bms_nonempty_difference_spec a b :
  bms_wf a → bms_wf b →
  bms_nonempty_difference a b = Ret (negb (bool_decide (members a ⊆ members b))).
Proof.
  intros Ha Hb. destruct a as [a|]; [|done]. destruct b as [b|]; unfold bms_nonempty_difference.
  - pose proof (andnot_range_spec a b Ha Hb) as Hiff. rewrite <- bool_decide_not.
    pose proof (wf_nonneg _ Ha). pose proof (wf_nonneg _ Hb).
    search (λ i, negb (Z.land (wd (words a) i) (u32_not (wd (words b) i)) =? 0)) true. exists_cases.
    { apply Ret_bool_decide. rewrite Hiff. intros [H' _]. apply negb_eqb_true in E. apply E, H'. lia. }
    search (λ i, negb (wd (words a) i =? 0)) true.
    exists_cases; apply Ret_bool_decide; rewrite Hiff.
    + intros [_ H']. apply negb_eqb_true in E0. apply E0, H'. lia.
    + intros Hn. apply Hn.
      split; intros i Hi; [apply negb_eqb_false, E; lia|apply negb_eqb_false, E0; lia].
  - rewrite bms_is_empty_spec by done. cbn [mbind outcome_bind]. do 2 f_equal.
    apply bool_decide_ext. split; [intros ->; done|]. intros Hs. by apply list_nil_subseteq.
Qed.

(** ** Lemmas: bits of words *)

Lemma bits_from_ext n base w w' :
  (∀ i, 0 ≤ i < Z.of_nat n → Z.testbit w i = Z.testbit w' i) →
  bits_from n base w = bits_from n base w'.
Proof.
  intros H. apply sorted_lt_ext; [apply sorted_bits_from..|]. intros x.
  rewrite !elem_of_bits_from. split; intros [Hx Ht]; (split; [done|]).
  - rewrite <- H by lia. done.
  - rewrite H by lia. done.
Qed.

Lemma bits_from_app m n base w :
  bits_from (m + n) base w =
  bits_from m base w ++ bits_from n (base + Z.of_nat m) (Z.shiftr w (Z.of_nat m)).
Proof.
  apply sorted_lt_ext; [apply sorted_bits_from| |].
  - apply sorted_app_lt; [apply sorted_bits_from..|].
    intros x y Hx%elem_of_bits_from Hy%elem_of_bits_from. lia.
  - intros x. rewrite elem_of_app, !elem_of_bits_from.
    destruct (Z_lt_le_dec x (base + Z.of_nat m)); [naive_solver lia|].
    rewrite Z.shiftr_spec by lia.
    replace (x - (base + Z.of_nat m) + Z.of_nat m) with (x - base) by lia. naive_solver lia.
Qed.

Lemma bits_from_base n base w : bits_from n base w = Z.add base <$> bits_from n 0 w.
Proof.
  apply sorted_lt_ext; [apply sorted_bits_from| |].
  - induction (sorted_bits_from n 0 w) as [|y l Hs IH Hall]; simpl; constructor; [done|].
    apply Forall_fmap. eapply Forall_impl; [done|]. simpl. intros; lia.
  - intros x. rewrite list_elem_of_fmap. setoid_rewrite elem_of_bits_from. split.
    + intros [Hx Ht]. exists (x - base). rewrite Z.sub_0_r. split; [lia|]. split; [lia|done].
    + intros (y & -> & Hy & Ht). rewrite Z.sub_0_r in Ht.
      rewrite Z.add_simpl_l. split; [lia|done].
Qed.

Lemma bits_from_low8 n base w :
  bits_from (8 + n) base w =
  bits_from 8 base (Z.land w 255) ++ bits_from n (base + 8) (Z.shiftr w 8).
Proof.
  rewrite bits_from_app. change (Z.of_nat 8) with 8. f_equal. apply bits_from_ext.
  intros i Hi. change 255 with (Z.ones 8).
  rewrite Z.land_spec, Z.ones_spec_low by lia. by rewrite andb_true_r.
Qed.

Lemma bits_from_0 n base : bits_from n base 0 = [].
Proof.
  apply elem_of_nil_inv. intros x [_ Ht]%elem_of_bits_from. by rewrite Z.bits_0 in Ht.
Qed.

Lemma bits_inj w w' :
  is_uint 32 w → is_uint 32 w' → bits_from 32 0 w = bits_from 32 0 w' → w = w'.
Proof.
  intros Hw Hw' Heq. apply Z.bits_inj'. intros i Hi. destruct (Z_lt_le_dec i 32).
  - apply eq_true_iff_eq.
    transitivity (i ∈ bits_from 32 0 w); [|rewrite Heq];
      rewrite elem_of_bits_from, Z.sub_0_r; naive_solver lia.
  - by rewrite !(is_uint_testbit_high 32).
Qed.

Lemma bits_from_pow2 k : 0 ≤ k < 32 → bits_from 32 0 (2 ^ k) = [k].
Proof.
  intros Hk. apply sorted_lt_ext; [apply sorted_bits_from|repeat constructor|].
  intros x. rewrite elem_of_bits_from, Z.sub_0_r, list_elem_of_singleton.
  destruct (decide (x = k)) as [->|].
  - rewrite Z.pow2_bits_true by lia. naive_solver lia.
  - split; [|done]. intros [_ Ht]. rewrite Z.pow2_bits_false in Ht by lia. done.
Qed.

(** The two byte tables, checked entry by entry. *)
Lemma tables_ok b :
  0 ≤ b < 256 →
  arr_get number_of_ones b = Ret (Z.of_nat (length (bits_from 8 0 b))) ∧
  (b ≠ 0 → ∃ k l, bits_from 8 0 b = k :: l ∧ arr_get rightmost_one_pos b = Ret k).
Proof.
  intros Hb.
  assert (forallb (λ b, match arr_get number_of_ones b, arr_get rightmost_one_pos b with
            | Ret n, Ret p => (n =? Z.of_nat (length (bits_from 8 0 b))) &&
                match bits_from 8 0 b with k :: _ => p =? k | [] => b =? 0 end
            | _, _ => false end) (seqZ 0 256) = true) as H by (vm_compute; reflexivity).
  rewrite forallb_forall in H. specialize (H b). rewrite <- list_elem_of_In, elem_of_seqZ in H.
  specialize (H ltac:(lia)).
  destruct (arr_get number_of_ones b), (arr_get rightmost_one_pos b); try done.
  apply andb_prop in H as [?%Z.eqb_eq H]. split; [by f_equal|]. intros Hnz.
  destruct (bits_from 8 0 b) as [|k l]; [by apply Z.eqb_eq in H|].
  apply Z.eqb_eq in H as ->. eauto.
Qed.

Lemma land_255_bound w : 0 ≤ Z.land w 255 < 256.
Proof. change 255 with (Z.ones 8). rewrite Z.land_ones by lia. apply Z.mod_pos_bound. lia. Qed.

Lemma shiftr8_uint n w : 0 ≤ n → is_uint (8 + n) w → is_uint n (Z.shiftr w 8).
Proof.
  intros Hn [H1 H2]. rewrite Z.shiftr_div_pow2 by lia. split; [apply Z.div_pos; lia|].
  apply Z.div_lt_upper_bound; [lia|]. by rewrite <- Z.pow_add_r by lia.
Qed.

Lemma ones_loop_spec n w acc :
  is_uint (8 * Z.of_nat n) w →
  ones_loop n w acc = Ret (acc + Z.of_nat (length (bits_from (8 * n) 0 w))).
Proof.
  revert w acc. induction n as [|n IH]; intros w acc Hw; cbn [ones_loop].
  { unfold is_uint in Hw. simpl in Hw. assert (w = 0) as -> by lia. simpl. f_equal. lia. }
  destruct (Z.eqb_spec w 0) as [->|Hnz].
  { rewrite bits_from_0. simpl. f_equal. lia. }
  destruct (tables_ok (Z.land w 255)) as [-> _]; [apply land_255_bound|].
  cbn [mbind outcome_bind].
  rewrite IH by (apply shiftr8_uint; [lia|]; by replace (8 + 8 * Z.of_nat n) with (8 * Z.of_nat (S n)) by lia).
  replace (8 * S n)%nat with (8 + 8 * n)%nat by lia.
  rewrite bits_from_low8, length_app, (bits_from_base (8 * n) (0 + 8)), length_fmap.
  f_equal. lia.
Qed.

Lemma rightmost_loop_spec n w acc k l :
  is_uint (8 * Z.of_nat (S n)) w → bits_from (8 * S n) 0 w = k :: l →
  rightmost_loop n w acc = Ret (acc + k).
Proof.
  revert w acc k l. induction n as [|n IH]; intros w acc k l Hw Hbits;
    cbn [rightmost_loop].
  - replace (8 * 1)%nat with (8 + 0)%nat in Hbits by lia.
    rewrite bits_from_low8, app_nil_r in Hbits.
    destruct (Z.eqb_spec (Z.land w 255) 0) as [E|E]; [by rewrite E, bits_from_0 in Hbits|].
    destruct (tables_ok (Z.land w 255)) as [_ (k' & l' & Hk & ->)]; [apply land_255_bound|done|].
    simpl. congruence.
  - replace (8 * S (S n))%nat with (8 + 8 * S n)%nat in Hbits by lia.
    rewrite bits_from_low8 in Hbits.
    destruct (Z.eqb_spec (Z.land w 255) 0) as [E|E].
    + rewrite E, bits_from_0, bits_from_base in Hbits. simpl in Hbits.
      destruct (bits_from _ 0 (Z.shiftr w 8)) as [|k' l'] eqn:Hb; [done|].
      rewrite fmap_cons in Hbits. injection Hbits as <- _.
      rewrite (IH _ _ k' l'); [f_equal; lia| |done].
      apply shiftr8_uint; [lia|]. by replace (8 + _) with (8 * Z.of_nat (S (S n))) by lia.
    + destruct (tables_ok (Z.land w 255)) as [_ (k' & l' & Hk & ->)]; [apply land_255_bound|done|].
      rewrite Hk in Hbits. simpl. simplify_eq/=. done.
Qed.

Lemma bits_head w k l :
  bits_from 32 0 w = k :: l →
  0 ≤ k < 32 ∧ Z.testbit w k = true ∧ (∀ j, 0 ≤ j < k → Z.testbit w j = false) ∧
  (∀ x, x ∈ l → k < x).
Proof.
  intros Hb. pose proof (sorted_bits_from 32 0 w) as Hs. rewrite Hb in Hs.
  apply StronglySorted_inv in Hs as [Hs Hall]. rewrite Forall_forall in Hall.
  assert (k ∈ bits_from 32 0 w) as Hk by (rewrite Hb; by left).
  apply elem_of_bits_from in Hk as [Hk Ht]. rewrite Z.sub_0_r in Ht.
  split_and!; [lia|lia|done| |done].
  intros j Hj. destruct (Z.testbit w j) eqn:E; [|done]. exfalso.
  assert (j ∈ bits_from 32 0 w) as Hj' by (apply elem_of_bits_from; rewrite Z.sub_0_r; auto with lia).
  rewrite Hb in Hj'. apply elem_of_cons in Hj' as [->|Hj']; [lia|].
  specialize (Hall _ Hj'). lia.
Qed.

Lemma RIGHTMOST_ONE_spec w k l :
  is_uint 32 w → bits_from 32 0 w = k :: l → RIGHTMOST_ONE w = 2 ^ k.
Proof.
  intros Hw Hb. apply bits_head in Hb as (Hk & Ht & Hlow & _).
  rewrite <- (land_opp_lowest w k) by (try done; lia).
  unfold RIGHTMOST_ONE. rewrite wrap_s_opp by lia.
  apply Z.bits_inj'. intros i Hi. rewrite wrap_u_testbit, !Z.land_spec by lia.
  destruct (Z.ltb_spec i 32); simpl.
  - by rewrite !wrap_s_testbit by lia.
  - by rewrite (is_uint_testbit_high 32 w) by done.
Qed.

Lemma HAS_MULTIPLE_ONES_spec w k l :
  is_uint 32 w → bits_from 32 0 w = k :: l →
  HAS_MULTIPLE_ONES w = match l with [] => false | _ => true end.
Proof.
  intros Hw Hb. unfold HAS_MULTIPLE_ONES. rewrite (RIGHTMOST_ONE_spec w k l) by done.
  pose proof (bits_head _ _ _ Hb) as (Hk & _). destruct l as [|y l].
  - apply negb_eqb_false. apply bits_inj; [|done|by rewrite bits_from_pow2].
    split; [lia|]. apply Z.pow_lt_mono_r; lia.
  - apply negb_eqb_true. intros <-. rewrite bits_from_pow2 in Hb by done. done.
Qed.

Lemma bits_nonzero w : is_uint 32 w → w ≠ 0 → ∃ k l, bits_from 32 0 w = k :: l.
Proof.
  intros Hw Hnz. destruct (bits_from 32 0 w) eqn:E; [|eauto].
  destruct Hnz. apply bits_inj; [done|done|]. by rewrite E.
Qed.

(** ** Lemmas: counting members *)

Lemma ws_members_app base l1 l2 :
  ws_members base (l1 ++ l2) =
  ws_members base l1 ++ ws_members (base + 32 * Z.of_nat (length l1)) l2.
Proof.
  revert base. induction l1 as [|w l1 IH]; intros base.
  - simpl. f_equal. lia.
  - rewrite <- app_comm_cons. cbn [ws_members length]. rewrite IH, <- app_assoc.
    do 3 f_equal. lia.
Qed.

(** The members found after scanning the first [k] words. *)
Definition scanned (ws : list Z) (k : Z) : list Z := ws_members 0 (take (Z.to_nat k) ws).

Lemma scanned_0 ws : scanned ws 0 = [].
Proof. done. Qed.
Lemma scanned_all ws : scanned ws (Z.of_nat (length ws)) = ws_members 0 ws.
Proof. unfold scanned. by rewrite Nat2Z.id, firstn_all. Qed.
Lemma scanned_succ ws k :
  0 ≤ k < Z.of_nat (length ws) →
  scanned ws (k + 1) = scanned ws k ++ (Z.add (k * 32) <$> bits_from 32 0 (wd ws k)).
Proof.
  intros Hk. unfold scanned. replace (Z.to_nat (k + 1)) with (S (Z.to_nat k)) by lia.
  destruct (arr_get_lt ws k Hk) as (w & _ & Hw).
  rewrite (take_S_r _ _ _ Hw), ws_members_app. f_equal.
  unfold wd. rewrite Hw. cbn [ws_members default id from_option].
  rewrite app_nil_r, bits_from_base, length_take. f_equal.
  replace (Z.add _) with (Z.add (k * 32)); [done|]. f_equal. lia.
Qed.

(** A loop over all words of a set keeps an invariant on what was scanned. *)
Lemma scan_loop {A R} (P : list Z → A → Prop) (Q : outcome (A + R) → Prop) a body acc :
  bms_wf (Some a) → P [] acc →
  (∀ k l x, 0 ≤ k < nwords a → is_uint 32 (wd (words a) k) → l = scanned (words a) k → P l x →
     match body k x with
     | Ret (inl x') => P (l ++ (Z.add (k * 32) <$> bits_from 32 0 (wd (words a) k))) x'
     | o => ∀ tl, members (Some a) =
                  l ++ (Z.add (k * 32) <$> bits_from 32 0 (wd (words a) k)) ++ tl → Q o
     end) →
  (∀ x, P (members (Some a)) x → Q (Ret (inl x))) →
  Q (for_range 0 (nwords a) body acc).
Proof.
  intros Ha H0 Hstep Hend. destruct Ha as (Hn & Hu & Hlen). simpl in Hn, Hu.
  unfold for_range. apply (for_loop_inv (λ k x, P (scanned (words a) k) x)).
  - by rewrite scanned_0.
  - intros k x Hk HP. assert (0 ≤ k < Z.of_nat (length (words a))) as Hk' by lia.
    specialize (Hstep k _ x ltac:(lia) (wd_uint _ k Hu) eq_refl HP).
    assert (∃ tl, members (Some a) = scanned (words a) k ++
              (Z.add (k * 32) <$> bits_from 32 0 (wd (words a) k)) ++ tl) as [tl Htl].
    { eexists. unfold members. simpl.
      transitivity (ws_members 0 (take (Z.to_nat (k + 1)) (words a) ++
                                  drop (Z.to_nat (k + 1)) (words a))); [by rewrite take_drop|].
      rewrite ws_members_app. fold (scanned (words a) (k + 1)).
      rewrite scanned_succ by lia. by rewrite <- app_assoc. }
    destruct (body k x) as [[x'|]| | |]; try by apply (Hstep tl).
    by rewrite scanned_succ.
  - intros x. rewrite Z.add_0_l, Z2Nat.id by lia. rewrite Z.sub_0_r, Hn, scanned_all. apply Hend.
Qed.

Lemma bms_num_members_spec a :
  bms_wf a → bms_num_members a = Ret (Z.of_nat (length (members a))).
Proof.
  intros Ha. destruct a as [a|]; [|done]. unfold bms_num_members, finish.
  apply (scan_loop (λ l x, x = Z.of_nat (length l))
    (λ o, (o ≫= λ r, match r with inl x => Ret x | inr r => Ret r end) = Ret _)); [done|done| |].
  - intros k l x Hk Hu _ ->. rewrite wf_get by done. cbn [mbind outcome_bind].
    rewrite ones_loop_spec by done. cbn [mbind outcome_bind].
    rewrite length_app, length_fmap. change (8 * 4)%nat with 32%nat. lia.
  - by intros x ->.
Qed.

Definition classify (l : list Z) : BMS_Membership :=
  match l with [] => BMS_EMPTY_SET | [_] => BMS_SINGLETON | _ => BMS_MULTIPLE end.

Lemma classify_app_multiple (l l1 l2 : list Z) :
  l ≠ [] → l1 ≠ [] → classify (l ++ l1 ++ l2) = BMS_MULTIPLE.
Proof. destruct l as [|? [|? ?]], l1; done. Qed.

Lemma bms_membership_spec a :
  bms_wf a → bms_membership a = Ret (classify (members a)).
Proof.
  intros Ha. destruct a as [a|]; [|done]. unfold bms_membership, finish.
  apply (scan_loop (λ l x, x = classify l ∧ x ≠ BMS_MULTIPLE)
    (λ o, (o ≫= λ r, match r with inl x => Ret x | inr r => Ret r end) = Ret _)); [done|done| |].
  - intros k l x Hk Hu _ [-> Hm]. rewrite wf_get by done. cbn [mbind outcome_bind].
    destruct (Z.eqb_spec (wd (words a) k) 0) as [E|E]; cbn [negb].
    { by rewrite E, bits_from_0, app_nil_r. }
    destruct (bits_nonzero _ Hu E) as (p & l' & Hb).
    rewrite (HAS_MULTIPLE_ONES_spec _ _ _ Hu Hb), Hb.
    destruct l as [|y [|? ?]]; [|simpl; intros tl ->; done|done].
    destruct l'; simpl; [done|]. intros tl ->. done.
  - by intros x [-> _].
Qed.

Lemma bms_singleton_member_spec a :
  bms_wf a →
  bms_singleton_member a =
  match members a with [x] => Ret x | _ => Ereport ERRCODE_INTERNAL_ERROR end.
Proof.
  intros Ha. destruct a as [a|]; [|done]. unfold bms_singleton_member, finish.
  apply (scan_loop (λ l x, (l = [] ∧ x = -1) ∨ (l = [x] ∧ 0 ≤ x))
    (λ o, (o ≫= λ r, match r with
             | inl x => if x <? 0 then Ereport ERRCODE_INTERNAL_ERROR else Ret x
             | inr r => Ret r end) = _)); [done|by left| |].
  - intros k l x Hk Hu _ HP. rewrite wf_get by done. cbn [mbind outcome_bind].
    destruct (Z.eqb_spec (wd (words a) k) 0) as [E|E]; cbn [negb].
    { by rewrite E, bits_from_0, app_nil_r. }
    destruct (bits_nonzero _ Hu E) as (p & l' & Hb).
    pose proof (bits_head _ _ _ Hb) as (Hp & _).
    rewrite (HAS_MULTIPLE_ONES_spec _ _ _ Hu Hb), Hb.
    destruct HP as [[-> ->]|[-> Hx]].
    + destruct l'; cbn [orb Z.leb Z.compare].
      * rewrite (rightmost_loop_spec 3 _ _ p []) by done. cbn [mbind outcome_bind].
        right. split; [done|]. unfold BITS_PER_BITMAPWORD. lia.
      * intros tl ->. done.
    + destruct (Z.leb_spec 0 x); [|lia]. cbn [orb]. intros tl ->. done.
  - intros x [[-> ->]|[-> Hx]]; [done|]. simpl. destruct (Z.ltb_spec x 0); [lia|done].
Qed.

(** ** Lemmas: hashing *)

Lemma last_word_loop_spec n ws :
  (n ≤ length ws)%nat →
  ∃ r, last_word_loop n ws = Ret r ∧ -1 ≤ r < Z.of_nat n ∧ (0 ≤ r → wd ws r ≠ 0) ∧
       (∀ j, r < j < Z.of_nat n → wd ws j = 0).
Proof.
  induction n as [|n IH]; intros Hn; cbn [last_word_loop].
  - exists (-1). split_and!; try done; lia.
  - rewrite wd_get by lia. cbn [mbind outcome_bind].
    destruct (Z.eqb_spec (wd ws (Z.of_nat n)) 0) as [E|E]; cbn [negb].
    + destruct IH as (r & -> & Hr & Hnz & Hz); [lia|]. exists r.
      split_and!; try done; try lia. intros j Hj.
      destruct (decide (j = Z.of_nat n)) as [->|]; [done|]. apply Hz. lia.
    + exists (Z.of_nat n). split_and!; try done; lia.
Qed.

Lemma length_words_bytes be ws : length (words_bytes be ws) = (4 * length ws)%nat.
Proof.
  induction ws as [|w ws IH]; [done|].
  change (words_bytes be (w :: ws)) with (mem_bytes be 4 w ++ words_bytes be ws).
  rewrite length_app, length_mem_bytes, IH. simpl. lia.
Qed.

Lemma words_bytes_app be l1 l2 :
  words_bytes be (l1 ++ l2) = words_bytes be l1 ++ words_bytes be l2.
Proof. unfold words_bytes. by rewrite fmap_app, join_app. Qed.

Lemma take_wd n ws : (n ≤ length ws)%nat → take n ws = wd ws <$> seqZ 0 (Z.of_nat n).
Proof.
  intros Hn. apply list_eq. intros i. rewrite list_lookup_fmap.
  destruct (decide (i < n)%nat) as [Hi|Hi].
  - rewrite lookup_take_lt, lookup_seqZ_lt by lia. simpl. unfold wd.
    rewrite Z.add_0_l, Nat2Z.id.
    destruct (lookup_lt_is_Some_2 ws i) as [x ->]; [lia|done].
  - rewrite lookup_take_ge, lookup_seqZ_ge by lia. done.
Qed.

(** Only the words up to the last non-zero one are hashed. *)
Lemma bms_hash_value_prefix be a :
  bms_wf (Some a) →
  ∃ r, -1 ≤ r < nwords a ∧ (0 ≤ r → wd (words a) r ≠ 0) ∧
       (∀ j, r < j → wd (words a) j = 0) ∧
       bms_hash_value be (Some a) =
       if r <? 0 then Ret 0
       else hash_any be true (words_bytes be (wd (words a) <$> seqZ 0 (r + 1))) ((r + 1) * 4).
Proof.
  intros (Hn & Hu & Hlen). simpl in Hn, Hu, Hlen. unfold bms_hash_value.
  destruct (last_word_loop_spec (Z.to_nat (nwords a)) (words a)) as (r & -> & Hr & Hnz & Hz); [lia|].
  exists r. split_and!; try done; try lia.
  { intros j Hj. destruct (Z_lt_le_dec j (nwords a)); [apply Hz; lia|apply wd_ge; lia]. }
  cbn [mbind outcome_bind]. destruct (Z.ltb_spec r 0); [done|].
  set (n := Z.to_nat (r + 1)).
  replace (words a) with (take n (words a) ++ drop n (words a)) at 1 by apply take_drop.
  rewrite words_bytes_app.
  replace ((r + 1) * 4) with (Z.of_nat (length (words_bytes be (take n (words a))))).
  - rewrite hash_any_prefix.
    + rewrite take_wd by lia. unfold n. rewrite Z2Nat.id by lia.
      by rewrite length_words_bytes, length_fmap, length_seqZ, Nat2Z.inj_mul, Z2Nat.id, Z.mul_comm by lia.
    + rewrite length_words_bytes, length_take. lia.
  - rewrite length_words_bytes, length_take. lia.
Qed.

(** ** Lemmas: the heap *)

Definition deref (h : heap) (p : ptr) : option Bitmapset := p ≫= (h !!.).
Definition set_of (h : heap) (p : ptr) : list Z := members (deref h p).
Definition free (p : ptr) (h : heap) : heap :=
  match p with None => h | Some l => delete l h end.
(** A pointer to a well-formed set, or NULL. *)
Definition valid (h : heap) (p : ptr) : Prop :=
  match p with None => True | Some l => ∃ b, h !! l = Some b ∧ bms_wf (Some b) end.

Lemma Forall_wd ws : Forall (is_uint 32) ws ↔ ∀ j, 0 ≤ j → is_uint 32 (wd ws j).
Proof.
  split; [intros; by apply wd_uint|]. intros H. apply Forall_lookup_2. intros i x Hx.
  specialize (H (Z.of_nat i) ltac:(lia)). unfold wd in H. by rewrite Nat2Z.id, Hx in H.
Qed.

Lemma get_word_spec (h : heap) l v i :
  h !! l = Some v → 0 ≤ i < Z.of_nat (length (words v)) →
  get_word l i h = Ret (wd (words v) i, h).
Proof.
  intros Hl Hi. unfold get_word, load, mbind, cmd_bind, lift. rewrite Hl, wd_get by done. done.
Qed.

Lemma set_word_spec (h : heap) l v i w :
  h !! l = Some v → 0 ≤ i < Z.of_nat (length (words v)) →
  set_word l i w h =
  Ret (tt, <[l := mkBitmapset (nwords v) (<[Z.to_nat i := w]> (words v))]> h).
Proof.
  intros Hl Hi. unfold set_word, load, store, mbind, cmd_bind, lift.
  rewrite Hl, arr_set_lt by done. simpl. by rewrite Hl.
Qed.

(** The effect of [for (i = lo; i < hi; i++) result->words[i] op= other->words[i]];
    [other] may be [result]. *)
Lemma op_loop_gen op n i (h : heap) r o vr vo :
  h !! r = Some vr → h !! o = Some vo → 0 ≤ i →
  i + Z.of_nat n ≤ Z.of_nat (length (words vr)) →
  i + Z.of_nat n ≤ Z.of_nat (length (words vo)) →
  ∃ ws, cfor_loop n i (λ i, x ← get_word r i; y ← get_word o i; set_word r i (op x y)) h =
        Ret (tt, <[r := mkBitmapset (nwords vr) ws]> h) ∧
    length ws = length (words vr) ∧
    ∀ j, 0 ≤ j → wd ws j = if (i <=? j) && (j <? i + Z.of_nat n)
                           then op (wd (words vr) j) (wd (words vo) j) else wd (words vr) j.
Proof.
  revert i h vr vo. induction n as [|n IH]; intros i h vr vo Hr Ho Hi Hlr Hlo; cbn [cfor_loop].
  - exists (words vr). split_and!; [|done|].
    + unfold mret, cmd_ret. rewrite insert_id by (rewrite Hr; by destruct vr). done.
    + intros j Hj. destruct (Z.leb_spec i j), (Z.ltb_spec j (i + Z.of_nat 0)); simpl; auto with lia.
  - unfold mbind at 1, cmd_bind at 1. unfold mbind at 1, cmd_bind at 1.
    rewrite (get_word_spec h r vr) by (try done; lia).
    unfold mbind at 1, cmd_bind at 1. rewrite (get_word_spec h o vo) by (try done; lia).
    rewrite (set_word_spec h r vr) by (try done; lia).
    set (vr' := mkBitmapset (nwords vr) (<[Z.to_nat i:=op (wd (words vr) i) (wd (words vo) i)]> (words vr))).
    assert (∃ vo', <[r := vr']> h !! o = Some vo' ∧ length (words vo') = length (words vo) ∧
              ∀ j, 0 ≤ j → j ≠ i → wd (words vo') j = wd (words vo) j) as (vo' & Ho' & Hlo' & Hwo').
    { destruct (decide (r = o)) as [<-|Hne].
      - simplify_eq. exists vr'. rewrite lookup_insert_eq. split_and!; [done|by apply length_insert|].
        intros j Hj Hji. simpl. rewrite wd_insert by lia. by rewrite decide_False.
      - exists vo. by rewrite lookup_insert_ne. }
    destruct (IH (i + 1) (<[r := vr']> h) vr' vo') as (ws & Hloop & Hlen & Hws);
      [by rewrite lookup_insert_eq|done|lia|simpl; rewrite length_insert; lia|lia|].
    exists ws. rewrite Hloop. split_and!.
    + by rewrite insert_insert_eq.
    + rewrite Hlen. simpl. apply length_insert.
    + intros j Hj. rewrite Hws by done. simpl. rewrite wd_insert by lia.
      destruct (decide (j = i)) as [->|Hne].
      * destruct (Z.leb_spec (i + 1) i), (Z.leb_spec i i), (Z.ltb_spec i (i + Z.of_nat (S n)));
          try lia. done.
      * rewrite Hwo' by done.
        destruct (Z.leb_spec (i + 1) j), (Z.leb_spec i j), (Z.ltb_spec j (i + 1 + Z.of_nat n)),
          (Z.ltb_spec j (i + Z.of_nat (S n))); try lia; done.
Qed.

Lemma op_loop_spec op (h : heap) r o vr vo len :
  h !! r = Some vr → h !! o = Some vo → 0 ≤ len →
  len ≤ Z.of_nat (length (words vr)) → len ≤ Z.of_nat (length (words vo)) →
  ∃ ws, op_loop op r o len h = Ret (tt, <[r := mkBitmapset (nwords vr) ws]> h) ∧
    length ws = length (words vr) ∧
    ∀ j, 0 ≤ j → wd ws j = if j <? len then op (wd (words vr) j) (wd (words vo) j)
                           else wd (words vr) j.
Proof.
  intros Hr Ho Hl Hlr Hlo. unfold op_loop, cfor_range.
  destruct (op_loop_gen op (Z.to_nat (len - 0)) 0 h r o vr vo) as (ws & -> & Hlen & Hws);
    [done..|lia|lia|lia|].
  exists ws. split_and!; [done..|]. intros j Hj. rewrite Hws by done.
  destruct (Z.leb_spec 0 j); [|lia]. rewrite Z2Nat.id by lia. by rewrite Z.add_0_l, Z.sub_0_r.
Qed.

Lemma load_spec (h : heap) l v : h !! l = Some v → load l h = Ret (v, h).
Proof. intros H. unfold load. by rewrite H. Qed.
Lemma pfree_spec (h : heap) l v : h !! l = Some v → pfree l h = Ret (tt, delete l h).
Proof. intros H. unfold pfree. by rewrite H. Qed.

Lemma palloc_spec (h : heap) v :
  ∃ l, h !! l = None ∧ palloc v h = Ret (l, <[l := v]> h).
Proof.
  exists (fresh (dom h)). split; [|done]. apply not_elem_of_dom, is_fresh.
Qed.

Lemma bms_copy_spec (h : heap) a v :
  h !! a = Some v → ∃ l, h !! l = None ∧ bms_copy (Some a) h = Ret (Some l, <[l := v]> h).
Proof.
  intros Ha. destruct (palloc_spec h v) as (l & Hl & Hp). exists l. split; [done|].
  unfold bms_copy. run (load_spec h a v Ha). by run Hp.
Qed.

Lemma bms_copy_nonnull_spec (h : heap) a v :
  h !! a = Some v → ∃ l, h !! l = None ∧ bms_copy_nonnull a h = Ret (l, <[l := v]> h).
Proof.
  intros Ha. destruct (bms_copy_spec h a v Ha) as (l & Hl & Hc). exists l. split; [done|].
  unfold bms_copy_nonnull. by run Hc.
Qed.

(** *** Sets computed word by word *)

(** [op] acts on each bit as [bop], and the zero word is a left zero. *)
Class BitOp (op : Z → Z → Z) (bop : bool → bool → bool) : Prop := {
  bitop_testbit x y i : 0 ≤ i < 32 → Z.testbit (op x y) i = bop (Z.testbit x i) (Z.testbit y i);
  bitop_uint x y : is_uint 32 x → is_uint 32 y → is_uint 32 (op x y)
}.

#[global] Instance lor_bitop : BitOp Z.lor orb.
Proof. split; [intros; apply Z.lor_spec|intros; by apply lor_is_uint]. Qed.
#[global] Instance land_bitop : BitOp Z.land andb.
Proof. split; [intros; apply Z.land_spec|intros ?? ? [? _]; by apply land_is_uint]. Qed.
#[global] Instance andnot_bitop : BitOp andnot (λ x y, x && negb y).
Proof.
  split.
  - intros x y i Hi. unfold andnot. rewrite Z.land_spec, u32_not_testbit by lia.
    destruct (Z.ltb_spec i 32); [done|lia].
  - intros x y Hx Hy. apply land_is_uint; [lia|done|]. unfold u32_not. by apply wrap_u_bound.
Qed.

Lemma members_bitop op bop `{!BitOp op bop} r a b :
  (∀ j, 0 ≤ j → wd (words (value r)) j = op (wd (words (value a)) j) (wd (words (value b)) j)) →
  ∀ x, x ∈ members r ↔
       0 ≤ x ∧ bop (bool_decide (x ∈ members a)) (bool_decide (x ∈ members b)) = true.
Proof.
  intros Hw x. rewrite elem_of_members. apply and_iff_compat_l_dep. intros Hx.
  pose proof (Z.mod_pos_bound x 32).
  rewrite Hw, bitop_testbit by (try lia; apply Z.div_pos; lia).
  assert (∀ c, bool_decide (x ∈ members c) =
               Z.testbit (wd (words (value c)) (x / 32)) (x mod 32)) as Hc.
  { intros c. destruct (Z.testbit _ _) eqn:E.
    - apply bool_decide_eq_true, elem_of_members. done.
    - apply bool_decide_eq_false. rewrite elem_of_members, E. naive_solver. }
  by rewrite !Hc.
Qed.

Lemma members_nonneg a x : x ∈ members a → 0 ≤ x.
Proof. by intros [? _]%elem_of_members. Qed.

Lemma members_lor r a b :
  (∀ j, 0 ≤ j → wd (words (value r)) j = Z.lor (wd (words (value a)) j) (wd (words (value b)) j)) →
  ∀ x, x ∈ members r ↔ x ∈ members a ∨ x ∈ members b.
Proof.
  intros Hw x. rewrite (members_bitop Z.lor orb r a b Hw).
  rewrite orb_true_iff, !bool_decide_eq_true.
  pose proof (members_nonneg a x). pose proof (members_nonneg b x). naive_solver.
Qed.
Lemma members_land r a b :
  (∀ j, 0 ≤ j → wd (words (value r)) j = Z.land (wd (words (value a)) j) (wd (words (value b)) j)) →
  ∀ x, x ∈ members r ↔ x ∈ members a ∧ x ∈ members b.
Proof.
  intros Hw x. rewrite (members_bitop Z.land andb r a b Hw).
  rewrite andb_true_iff, !bool_decide_eq_true.
  pose proof (members_nonneg a x). naive_solver.
Qed.
Lemma members_andnot r a b :
  (∀ j, 0 ≤ j → wd (words (value r)) j = andnot (wd (words (value a)) j) (wd (words (value b)) j)) →
  ∀ x, x ∈ members r ↔ x ∈ members a ∧ x ∉ members b.
Proof.
  intros Hw x. rewrite (members_bitop andnot (λ x y, x && negb y) r a b Hw).
  rewrite andb_true_iff, negb_true_iff, bool_decide_eq_true, bool_decide_eq_false.
  pose proof (members_nonneg a x). naive_solver.
Qed.

Lemma wf_words n ws :
  n = Z.of_nat (length ws) → n ≤ 2 ^ 26 → (∀ j, 0 ≤ j → is_uint 32 (wd ws j)) →
  bms_wf (Some (mkBitmapset n ws)).
Proof. intros. split_and!; [done|by apply Forall_wd|done]. Qed.

Lemma op_loop_wf op bop `{!BitOp op bop} (h : heap) r o vr vo len :
  h !! r = Some vr → h !! o = Some vo → bms_wf (Some vr) → bms_wf (Some vo) →
  0 ≤ len → len ≤ nwords vr → len ≤ nwords vo →
  ∃ v, op_loop op r o len h = Ret (tt, <[r := v]> h) ∧ bms_wf (Some v) ∧
       nwords v = nwords vr ∧
       ∀ j, 0 ≤ j → wd (words v) j = if j <? len then op (wd (words vr) j) (wd (words vo) j)
                                     else wd (words vr) j.
Proof.
  intros Hr Ho (Hn & Hu & Hm) (Hn' & Hu' & Hm') Hl Hlr Hlo. simpl in *.
  destruct (op_loop_spec op h r o vr vo len) as (ws & Hrun & Hlen & Hws); [done..|lia|lia|].
  exists (mkBitmapset (nwords vr) ws). split_and!; [done| |done|done].
  apply wf_words; [lia|done|]. intros j Hj. rewrite Hws by done.
  destruct (j <? len); [apply (bitop_uint (op := op))|]; by apply wd_uint.
Qed.

(** [r] is a new set (or NULL) holding [S]; everything else is untouched. *)
Definition allocates (h : heap) (r : ptr) (h' : heap) (S : Z → Prop) : Prop :=
  valid h' r ∧ deref h r = None ∧ free r h' = h ∧ ∀ x, x ∈ set_of h' r ↔ S x.

(** The storage of [ps] has been given up for that of [r], which holds [S];
    everything else is untouched and nothing leaks. *)
Definition recycles (ps : list ptr) (h : heap) (r : ptr) (h' : heap) (S : Z → Prop) : Prop :=
  valid h' r ∧ free r h' = foldr free h ps ∧ ∀ x, x ∈ set_of h' r ↔ S x.

Lemma allocates_insert (h : heap) l v (S : Z → Prop) :
  h !! l = None → bms_wf (Some v) → (∀ x, x ∈ members (Some v) ↔ S x) →
  allocates h (Some l) (<[l := v]> h) S.
Proof.
  intros Hl Hv HS. split_and!.
  - exists v. by rewrite lookup_insert_eq.
  - done.
  - simpl. by rewrite delete_insert_id.
  - intros x. unfold set_of. simpl. by rewrite lookup_insert_eq.
Qed.

Lemma recycles_insert (h : heap) l v (S : Z → Prop) :
  bms_wf (Some v) → (∀ x, x ∈ members (Some v) ↔ S x) →
  recycles [Some l] h (Some l) (<[l := v]> h) S.
Proof.
  intros Hv HS. split_and!.
  - exists v. by rewrite lookup_insert_eq.
  - simpl. by rewrite delete_insert_eq.
  - intros x. unfold set_of. simpl. by rewrite lookup_insert_eq.
Qed.

Lemma recycles_fresh (h : heap) a l v (S : Z → Prop) :
  h !! l = None → is_Some (h !! a) → bms_wf (Some v) → (∀ x, x ∈ members (Some v) ↔ S x) →
  recycles [Some a] h (Some l) (delete a (<[l := v]> h)) S.
Proof.
  intros Hl [w Ha] Hv HS. assert (a ≠ l) by congruence.
  assert (delete a (<[l := v]> h) !! l = Some v) as Hd by (by rewrite lookup_delete_ne, lookup_insert_eq).
  split_and!.
  - by exists v.
  - simpl. rewrite delete_delete, delete_insert_id by done. done.
  - intros x. unfold set_of. simpl. by rewrite Hd.
Qed.

Lemma not_in_null h x : x ∈ set_of h None ↔ False.
Proof. split; [|done]. apply not_elem_of_nil. Qed.

Lemma set_of_lookup (h : heap) l v : h !! l = Some v → set_of h (Some l) = members (Some v).
Proof. intros H. unfold set_of. simpl. by rewrite H. Qed.

Lemma allocates_copy (h : heap) a (S : Z → Prop) :
  valid h a → (∀ x, x ∈ set_of h a ↔ S x) →
  ∃ r h', bms_copy a h = Ret (r, h') ∧ allocates h r h' S.
Proof.
  intros Ha HS. destruct a as [a|].
  - destruct Ha as (v & Ha & Hv). destruct (bms_copy_spec h a v Ha) as (l & Hl & ->).
    eexists _, _. split; [done|]. apply allocates_insert; [done..|].
    intros x. by rewrite <- HS, (set_of_lookup h a v).
  - exists None, h. split; [done|]. done.
Qed.

Lemma lor_tail (v w : Bitmapset) j len :
  nwords w ≤ len → bms_wf (Some w) →
  (if j <? len then Z.lor (wd (words v) j) (wd (words w) j) else wd (words v) j) =
  Z.lor (wd (words v) j) (wd (words w) j).
Proof.
  intros Hlen Hw. destruct (Z.ltb_spec j len); [done|].
  by rewrite (wf_wd_ge w), Z.lor_0_r by (try done; lia).
Qed.

Lemma bms_union_spec h a b :
  valid h a → valid h b →
  ∃ r h', bms_union a b h = Ret (r, h') ∧
          allocates h r h' (λ x, x ∈ set_of h a ∨ x ∈ set_of h b).
Proof.
  intros Ha Hb. destruct a as [a|]; [destruct b as [b|]|].
  2: { apply (allocates_copy h (Some a)); [done|]. intros x. rewrite not_in_null. tauto. }
  2: { unfold bms_union. apply (allocates_copy h b); [done|].
       intros x. rewrite not_in_null. tauto. }
  destruct Ha as (va & Ha & Hva), Hb as (vb & Hb & Hvb). unfold bms_union.
  run (load_spec h a va Ha). run (load_spec h b vb Hb).
  assert (∃ s vs l vl, h !! s = Some vs ∧ bms_wf (Some vs) ∧ bms_wf (Some vl) ∧
      h !! l = None ∧ nwords vs ≤ nwords vl ∧
      (if nwords va <=? nwords vb
       then r ← bms_copy_nonnull b; mret (r, a)
       else r ← bms_copy_nonnull a; mret (r, b)) h = Ret ((l, s), <[l := vl]> h) ∧
      ∀ x, (x ∈ members (Some vl) ∨ x ∈ members (Some vs)) ↔
           (x ∈ members (Some va) ∨ x ∈ members (Some vb)))
    as (s & vs & l & vl & Hs & Hvs & Hvl & Hl & Hle & Hrun & HS).
  { destruct (Z.leb_spec (nwords va) (nwords vb)).
    - destruct (bms_copy_nonnull_spec h b vb Hb) as (l & Hl & Hc).
      exists a, va, l, vb. split_and!; try done. { by run Hc. } { intros; tauto. }
    - destruct (bms_copy_nonnull_spec h a va Ha) as (l & Hl & Hc).
      exists b, vb, l, va. split_and!; try done; [lia|by run Hc]. }
  run Hrun. assert (s ≠ l) by congruence.
  assert (<[l := vl]> h !! s = Some vs) as Hs' by (by rewrite lookup_insert_ne).
  run (load_spec _ s vs Hs').
  destruct (op_loop_wf Z.lor orb (<[l := vl]> h) l s vl vs (nwords vs))
    as (v & Hloop & Hv & _ & Hw); [by rewrite lookup_insert_eq|try done..|].
  { by apply wf_nonneg. }
  run Hloop. eexists _, _. split; [done|]. rewrite insert_insert_eq.
  apply allocates_insert; [done..|]. intros x.
  rewrite (set_of_lookup h a va), (set_of_lookup h b vb) by done. rewrite <- HS.
  apply (members_lor (Some v) (Some vl) (Some vs)). intros j Hj. simpl.
  rewrite Hw by done. by apply lor_tail.
Qed.

Lemma land_tail (v w : Bitmapset) j :
  bms_wf (Some v) →
  (if j <? nwords v then Z.land (wd (words v) j) (wd (words w) j) else wd (words v) j) =
  Z.land (wd (words v) j) (wd (words w) j).
Proof.
  intros Hv. destruct (Z.ltb_spec j (nwords v)); [done|].
  by rewrite (wf_wd_ge v), Z.land_0_l by (try done; lia).
Qed.

Lemma bms_intersect_spec h a b :
  valid h a → valid h b →
  ∃ r h', bms_intersect a b h = Ret (r, h') ∧
          allocates h r h' (λ x, x ∈ set_of h a ∧ x ∈ set_of h b).
Proof.
  intros Ha Hb. destruct a as [a|]; [destruct b as [b|]|].
  2,3: exists None, h; (split; [done|]); split_and!; try done;
       intros x; rewrite ?not_in_null; tauto.
  destruct Ha as (va & Ha & Hva), Hb as (vb & Hb & Hvb). unfold bms_intersect.
  run (load_spec h a va Ha). run (load_spec h b vb Hb).
  assert (∃ o vo l vl, h !! o = Some vo ∧ bms_wf (Some vo) ∧ bms_wf (Some vl) ∧
      h !! l = None ∧ nwords vl ≤ nwords vo ∧
      (if nwords va <=? nwords vb
       then r ← bms_copy_nonnull a; mret (r, b)
       else r ← bms_copy_nonnull b; mret (r, a)) h = Ret ((l, o), <[l := vl]> h) ∧
      ∀ x, (x ∈ members (Some vl) ∧ x ∈ members (Some vo)) ↔
           (x ∈ members (Some va) ∧ x ∈ members (Some vb)))
    as (o & vo & l & vl & Ho & Hvo & Hvl & Hl & Hle & Hrun & HS).
  { destruct (Z.leb_spec (nwords va) (nwords vb)).
    - destruct (bms_copy_nonnull_spec h a va Ha) as (l & Hl & Hc).
      exists b, vb, l, va. split_and!; try done; by run Hc.
    - destruct (bms_copy_nonnull_spec h b vb Hb) as (l & Hl & Hc).
      exists a, va, l, vb. split_and!; try done; [lia|by run Hc|intros; tauto]. }
  run Hrun. assert (o ≠ l) by congruence.
  run (load_spec (<[l := vl]> h) l vl (lookup_insert_eq h l vl)).
  destruct (op_loop_wf Z.land andb (<[l := vl]> h) l o vl vo (nwords vl))
    as (v & Hloop & Hv & _ & Hw); [by rewrite lookup_insert_eq|by rewrite lookup_insert_ne|try done..|].
  { by apply wf_nonneg. }
  run Hloop. eexists _, _. split; [done|]. rewrite insert_insert_eq.
  apply allocates_insert; [done..|]. intros x.
  rewrite (set_of_lookup h a va), (set_of_lookup h b vb) by done. rewrite <- HS.
  apply (members_land (Some v) (Some vl) (Some vo)). intros j Hj. simpl.
  rewrite Hw by done. by apply land_tail.
Qed.

Lemma andnot_tail (v w : Bitmapset) j :
  bms_wf (Some v) → bms_wf (Some w) →
  (if j <? Z.min (nwords v) (nwords w) then andnot (wd (words v) j) (wd (words w) j)
   else wd (words v) j) = andnot (wd (words v) j) (wd (words w) j).
Proof.
  intros Hv Hw. destruct (Z.ltb_spec j (Z.min (nwords v) (nwords w))); [done|].
  destruct (Z_le_gt_dec (nwords v) j); [by rewrite (wf_wd_ge v) by done|].
  rewrite (wf_wd_ge w) by (try done; lia). unfold andnot.
  change (u32_not 0) with (Z.ones 32). rewrite Z.land_ones by lia.
  symmetry. apply Z.mod_small, (W_uint (Some v)). done.
Qed.

Lemma bms_difference_spec h a b :
  valid h a → valid h b →
  ∃ r h', bms_difference a b h = Ret (r, h') ∧
          allocates h r h' (λ x, x ∈ set_of h a ∧ x ∉ set_of h b).
Proof.
  intros Ha Hb. destruct a as [a|]; [destruct b as [b|]|].
  2: { apply (allocates_copy h (Some a)); [done|]. intros x. rewrite not_in_null. tauto. }
  2: { exists None, h. split; [done|]. split_and!; try done. intros x. rewrite not_in_null. tauto. }
  destruct Ha as (va & Ha & Hva), Hb as (vb & Hb & Hvb). unfold bms_difference.
  destruct (bms_copy_nonnull_spec h a va Ha) as (l & Hl & Hc). run Hc.
  assert (l ≠ a ∧ l ≠ b) as [? ?] by (split; congruence).
  assert (<[l := va]> h !! a = Some va) as Ha' by (by rewrite lookup_insert_ne).
  assert (<[l := va]> h !! b = Some vb) as Hb' by (by rewrite lookup_insert_ne).
  run (load_spec _ a va Ha'). run (load_spec _ b vb Hb').
  pose proof (wf_nonneg _ Hva). pose proof (wf_nonneg _ Hvb).
  destruct (op_loop_wf andnot _ (<[l := va]> h) l b va vb (Z.min (nwords va) (nwords vb)))
    as (v & Hloop & Hv & _ & Hw); [by rewrite lookup_insert_eq|done..|lia|lia|lia|].
  run Hloop. eexists _, _. split; [done|]. rewrite insert_insert_eq.
  apply allocates_insert; [done..|]. intros x.
  rewrite (set_of_lookup h a va), (set_of_lookup h b vb) by done.
  apply (members_andnot (Some v) (Some va) (Some vb)). intros j Hj. simpl.
  rewrite Hw by done. by apply andnot_tail.
Qed.

(** *** Single members *)

Lemma pow2_uint32 k : 0 ≤ k < 32 → is_uint 32 (2 ^ k).
Proof. intros. split; [lia|apply Z.pow_lt_mono_r; lia]. Qed.

(** A set whose only word is the word of [x], with only the bit of [x]. *)
Lemma members_single v x :
  0 ≤ x → (∀ j, 0 ≤ j → wd (words v) j = if decide (j = x / 32) then 2 ^ (x mod 32) else 0) →
  members (Some v) = [x].
Proof.
  intros Hx Hw. pose proof (Z.mod_pos_bound x 32 ltac:(lia)).
  apply sorted_lt_ext; [apply sorted_members|repeat constructor|]. intros y.
  rewrite elem_of_members, list_elem_of_singleton. simpl. split.
  - intros [Hy Ht]. rewrite Hw in Ht by (apply Z.div_pos; lia).
    case_decide as Hd; [|by rewrite Z.bits_0 in Ht].
    rewrite Z.pow2_bits_eqb in Ht by lia. apply Z.eqb_eq in Ht.
    rewrite (Z.div_mod y 32), (Z.div_mod x 32) by lia. congruence.
  - intros ->. split; [done|]. rewrite Hw by (apply Z.div_pos; lia).
    rewrite decide_True by done. by apply Z.pow2_bits_true; lia.
Qed.

Lemma bms_make_singleton_spec h x :
  0 ≤ x < 2 ^ 31 →
  ∃ l v, h !! l = None ∧ bms_make_singleton x h = Ret (Some l, <[l := v]> h) ∧
         bms_wf (Some v) ∧ nwords v = x / 32 + 1 ∧ members (Some v) = [x].
Proof.
  intros Hx. unfold bms_make_singleton. destruct (Z.ltb_spec x 0); [lia|].
  pose proof (Z.div_pos x 32 ltac:(lia) ltac:(lia)). pose proof (Z.mod_pos_bound x 32 ltac:(lia)).
  rewrite WORDNUM_div, BITNUM_mod, shl32_1 by lia.
  set (v0 := mkBitmapset (x / 32 + 1) (replicate (Z.to_nat (x / 32 + 1)) 0)).
  destruct (palloc_spec h v0) as (l & Hl & Hp). run Hp.
  assert (0 ≤ x / 32 < Z.of_nat (length (words v0))) as Hlen by (simpl; rewrite length_replicate; lia).
  run (set_word_spec (<[l := v0]> h) l v0 (x / 32) (2 ^ (x mod 32)) (lookup_insert_eq h l v0) Hlen).
  set (v := mkBitmapset _ _). exists l, v.
  assert (∀ j, 0 ≤ j → wd (words v) j = if decide (j = x / 32) then 2 ^ (x mod 32) else 0) as Hw.
  { intros j Hj. simpl. rewrite wd_insert by (try done; simpl in Hlen; lia).
    by rewrite wd_replicate. }
  split_and!; [done|by rewrite insert_insert_eq| |done|by apply members_single; [lia|]].
  apply wf_words.
  - rewrite length_insert. simpl. rewrite length_replicate. lia.
  - simpl. assert (x / 32 < 2 ^ 26) by (apply Z.div_lt_upper_bound; lia). lia.
  - intros j Hj. fold (words v). rewrite Hw by done. case_decide; [by apply pow2_uint32|done].
Qed.

(** The value built by [bms_make_singleton]. *)
Definition single (x : Z) : Bitmapset :=
  mkBitmapset (x / 32 + 1)
    (<[Z.to_nat (x / 32) := 2 ^ (x mod 32)]> (replicate (Z.to_nat (x / 32 + 1)) 0)).

Lemma wd_single x j :
  0 ≤ x → 0 ≤ j → wd (words (single x)) j = if decide (j = x / 32) then 2 ^ (x mod 32) else 0.
Proof.
  intros Hx Hj. pose proof (Z.div_pos x 32 Hx ltac:(lia)). simpl.
  rewrite wd_insert by (try done; rewrite length_replicate; lia). by rewrite wd_replicate.
Qed.

Lemma members_of_single x : 0 ≤ x → members (Some (single x)) = [x].
Proof. intros. apply members_single; [done|]. intros. by apply wd_single. Qed.

Lemma recycles_singleton h x (S : Z → Prop) :
  0 ≤ x < 2 ^ 31 → (∀ y, y = x ↔ S y) →
  ∃ r h', bms_make_singleton x h = Ret (r, h') ∧ recycles [None] h r h' S.
Proof.
  intros Hx HS. destruct (bms_make_singleton_spec h x Hx) as (l & v & Hl & Hrun & Hv & _ & Hm).
  eexists _, _. split; [done|]. split_and!.
  - exists v. by rewrite lookup_insert_eq.
  - simpl. by rewrite delete_insert_id.
  - intros y. rewrite (set_of_lookup _ l v) by apply lookup_insert_eq.
    by rewrite Hm, list_elem_of_singleton, HS.
Qed.

Lemma bms_add_member_spec h a x :
  valid h a → 0 ≤ x < 2 ^ 31 →
  ∃ r h', bms_add_member a x h = Ret (r, h') ∧
          recycles [a] h r h' (λ y, y = x ∨ y ∈ set_of h a).
Proof.
  intros Ha Hx. unfold bms_add_member. destruct (Z.ltb_spec x 0); [lia|].
  destruct a as [a|].
  2: { apply recycles_singleton; [done|]. intros y. rewrite not_in_null. tauto. }
  destruct Ha as (va & Ha & Hva). pose proof (Hva) as (Hn & _ & Hm). simpl in Hn, Hm.
  pose proof (Z.div_pos x 32 ltac:(lia) ltac:(lia)). pose proof (Z.mod_pos_bound x 32 ltac:(lia)).
  rewrite WORDNUM_div, BITNUM_mod, shl32_1 by lia. run (load_spec h a va Ha).
  destruct (Z.leb_spec (nwords va) (x / 32)).
  - destruct (bms_make_singleton_spec h x Hx) as (l & v & Hl & Hrun & Hv & Hnv & Hmv). run Hrun.
    assert (l ≠ a) by congruence.
    destruct (op_loop_wf Z.lor orb (<[l := v]> h) l a v va (nwords va))
      as (v' & Hloop & Hv' & _ & Hw);
      [by rewrite lookup_insert_eq|by rewrite lookup_insert_ne|try done; try lia..|].
    run Hloop. rewrite insert_insert_eq.
    assert (<[l := v']> h !! a = Some va) as Ha' by (by rewrite lookup_insert_ne).
    run (pfree_spec _ a va Ha'). eexists _, _. split; [done|].
    apply recycles_fresh; [done|by eexists|done|]. intros y.
    rewrite (set_of_lookup h a va) by done.
    rewrite (members_lor (Some v') (Some v) (Some va)).
    + by rewrite Hmv, list_elem_of_singleton.
    + intros j Hj. simpl. rewrite Hw by done. by apply lor_tail.
  - assert (0 ≤ x / 32 < Z.of_nat (length (words va))) as Hi by lia.
    run (get_word_spec h a va (x / 32) Ha Hi).
    run (set_word_spec h a va (x / 32) (Z.lor (wd (words va) (x / 32)) (2 ^ (x mod 32))) Ha Hi).
    eexists _, _. split; [done|]. set (v' := mkBitmapset _ _).
    assert (∀ j, 0 ≤ j → wd (words v') j = Z.lor (wd (words va) j) (wd (words (single x)) j)) as Hw.
    { intros j Hj. unfold v'. cbn [words]. rewrite wd_insert, wd_single by lia.
      case_decide as Hd; [by rewrite <- Hd|by rewrite Z.lor_0_r]. }
    apply recycles_insert.
    + apply wf_words; [by rewrite length_insert|done|]. intros j Hj. fold (words v').
      rewrite Hw by done. apply lor_is_uint; [lia|by apply (W_uint (Some va))|].
      rewrite wd_single by lia. case_decide; [by apply pow2_uint32|done].
    + intros y. rewrite (set_of_lookup h a va) by done.
      rewrite (members_lor (Some v') (Some va) (Some (single x))) by done.
      rewrite members_of_single, list_elem_of_singleton by lia. tauto.
Qed.

Lemma recycles_same h a (S : Z → Prop) :
  valid h a → (∀ x, x ∈ set_of h a ↔ S x) → recycles [a] h a h S.
Proof. intros Ha HS. by split_and!. Qed.

Lemma bms_del_member_spec h a x :
  valid h a → 0 ≤ x →
  ∃ h', bms_del_member a x h = Ret (a, h') ∧
        recycles [a] h a h' (λ y, y ≠ x ∧ y ∈ set_of h a).
Proof.
  intros Ha Hx. unfold bms_del_member. destruct (Z.ltb_spec x 0); [lia|].
  destruct a as [a|].
  2: { exists h. split; [done|]. apply recycles_same; [done|].
       intros y. rewrite not_in_null. tauto. }
  pose proof Ha as Hval. destruct Ha as (va & Ha & Hva).
  pose proof (Hva) as (Hn & _ & Hm). simpl in Hn, Hm.
  pose proof (Z.div_pos x 32 ltac:(lia) ltac:(lia)). pose proof (Z.mod_pos_bound x 32 ltac:(lia)).
  rewrite WORDNUM_div, BITNUM_mod, shl32_1 by lia. run (load_spec h a va Ha).
  rewrite (set_of_lookup h a va) by done.
  destruct (Z.ltb_spec (x / 32) (nwords va)).
  - assert (0 ≤ x / 32 < Z.of_nat (length (words va))) as Hi by lia.
    set (w := Z.land (wd (words va) (x / 32)) (u32_not (2 ^ (x mod 32)))).
    assert ((w0 ← get_word a (x / 32); set_word a (x / 32) (Z.land w0 (u32_not (2 ^ (x mod 32))))) h =
            Ret (tt, <[a := mkBitmapset (nwords va) (<[Z.to_nat (x / 32) := w]> (words va))]> h)) as Hrun.
    { run (get_word_spec h a va (x / 32) Ha Hi). by apply set_word_spec. }
    run Hrun. eexists. split; [done|]. set (v' := mkBitmapset _ _).
    assert (∀ j, 0 ≤ j → wd (words v') j = andnot (wd (words va) j) (wd (words (single x)) j)) as Hw.
    { intros j Hj. unfold v'. cbn [words]. rewrite wd_insert, wd_single by lia.
      case_decide as Hd; [by subst j|].
      unfold andnot. change (u32_not 0) with (Z.ones 32). rewrite Z.land_ones by lia.
      symmetry. apply Z.mod_small, (W_uint (Some va)). done. }
    apply recycles_insert.
    + apply wf_words; [by rewrite length_insert|done|]. intros j Hj. fold (words v').
      rewrite Hw by done. apply (bitop_uint (op := andnot)); [by apply (W_uint (Some va))|].
      rewrite wd_single by lia. case_decide; [by apply pow2_uint32|done].
    + intros y. rewrite (members_andnot (Some v') (Some va) (Some (single x))) by done.
      rewrite members_of_single, list_elem_of_singleton by lia. tauto.
  - eexists. split; [done|]. apply recycles_same; [done|].
    intros y. rewrite (set_of_lookup h a va) by done.
    split; [|tauto]. intros Hy. split; [|done]. intros ->.
    apply elem_of_members in Hy as [_ Ht]. simpl in Ht. by rewrite wf_wd_ge, Z.bits_0 in Ht by done.
Qed.

(** *** Operations that recycle their left input *)

Lemma bms_add_members_spec h a b :
  valid h a → valid h b →
  ∃ r h', bms_add_members a b h = Ret (r, h') ∧
          recycles [a] h r h' (λ x, x ∈ set_of h a ∨ x ∈ set_of h b).
Proof.
  intros Ha Hb. destruct a as [a|]; [destruct b as [b|]|].
  2: { exists (Some a), h. split; [done|]. apply recycles_same; [done|].
       intros x. rewrite not_in_null. tauto. }
  2: { destruct (allocates_copy h b (λ x, x ∈ set_of h None ∨ x ∈ set_of h b))
         as (r & h' & Hrun & Hv & _ & Hf & HS); [done|intros x; rewrite not_in_null; tauto|].
       exists r, h'. by split_and!. }
  destruct Ha as (va & Ha & Hva), Hb as (vb & Hb & Hvb). unfold bms_add_members.
  rewrite (set_of_lookup h a va), (set_of_lookup h b vb) by done.
  run (load_spec h a va Ha). run (load_spec h b vb Hb).
  pose proof (wf_nonneg _ Hva). pose proof (wf_nonneg _ Hvb).
  destruct (Z.ltb_spec (nwords va) (nwords vb)).
  - destruct (bms_copy_nonnull_spec h b vb Hb) as (l & Hl & Hc).
    assert ((r ← bms_copy_nonnull b; mret (r, a)) h = Ret ((l, a), <[l := vb]> h)) as Hc' by (by run Hc).
    run Hc'. assert (l ≠ a) by congruence.
    assert (<[l := vb]> h !! a = Some va) as Ha' by (by rewrite lookup_insert_ne).
    run (load_spec _ a va Ha').
    destruct (op_loop_wf Z.lor orb (<[l := vb]> h) l a vb va (nwords va))
      as (v & Hloop & Hv & _ & Hw); [by rewrite lookup_insert_eq|try done; try lia..|].
    run Hloop. rewrite insert_insert_eq, bool_decide_eq_true_2 by done.
    assert (<[l := v]> h !! a = Some va) as Ha'' by (by rewrite lookup_insert_ne).
    run (pfree_spec _ a va Ha''). eexists _, _. split; [done|].
    apply recycles_fresh; [done|by eexists|done|]. intros x.
    rewrite (members_lor (Some v) (Some vb) (Some va)); [tauto|].
    intros j Hj. simpl. rewrite Hw by done. by apply lor_tail.
  - run (eq_refl : (mret (a, b) : cmd heap _) h = Ret ((a, b), h)).
    run (load_spec h b vb Hb).
    destruct (op_loop_wf Z.lor orb h a b va vb (nwords vb))
      as (v & Hloop & Hv & _ & Hw); [try done; try lia..|].
    run Hloop. rewrite bool_decide_eq_false_2 by tauto.
    eexists _, _. split; [done|]. apply recycles_insert; [done|].
    apply (members_lor (Some v) (Some va) (Some vb)).
    intros j Hj. simpl. rewrite Hw by done. by apply lor_tail.
Qed.

Lemma bms_del_members_spec h a b :
  valid h a → valid h b →
  ∃ h', bms_del_members a b h = Ret (a, h') ∧
        recycles [a] h a h' (λ x, x ∈ set_of h a ∧ x ∉ set_of h b).
Proof.
  intros Ha Hb. destruct a as [a|]; [destruct b as [b|]|].
  2,3: exists h; (split; [done|]); apply recycles_same; [done|];
       intros x; rewrite ?not_in_null; tauto.
  destruct Ha as (va & Ha & Hva), Hb as (vb & Hb & Hvb). unfold bms_del_members.
  rewrite (set_of_lookup h a va), (set_of_lookup h b vb) by done.
  run (load_spec h a va Ha). run (load_spec h b vb Hb).
  pose proof (wf_nonneg _ Hva). pose proof (wf_nonneg _ Hvb).
  destruct (op_loop_wf andnot _ h a b va vb (Z.min (nwords va) (nwords vb)))
    as (v & Hloop & Hv & _ & Hw); [try done; try lia..|].
  run Hloop. eexists. split; [done|]. apply recycles_insert; [done|].
  apply (members_andnot (Some v) (Some va) (Some vb)).
  intros j Hj. simpl. rewrite Hw by done. by apply andnot_tail.
Qed.

(** [for (; i < a->nwords; i++) a->words[i] = 0;] *)
Lemma zero_loop_spec n i (h : heap) a v :
  h !! a = Some v → 0 ≤ i → i + Z.of_nat n ≤ Z.of_nat (length (words v)) →
  ∃ ws, cfor_loop n i (λ i, set_word a i 0) h = Ret (tt, <[a := mkBitmapset (nwords v) ws]> h) ∧
    length ws = length (words v) ∧
    ∀ j, 0 ≤ j → wd ws j = if (i <=? j) && (j <? i + Z.of_nat n) then 0 else wd (words v) j.
Proof.
  revert i h v. induction n as [|n IH]; intros i h v Ha Hi Hlen; cbn [cfor_loop].
  - exists (words v). split_and!; [|done|].
    + unfold mret, cmd_ret. rewrite insert_id by (rewrite Ha; by destruct v). done.
    + intros j Hj. destruct (Z.leb_spec i j), (Z.ltb_spec j (i + Z.of_nat 0)); simpl; auto with lia.
  - run (set_word_spec h a v i 0 Ha ltac:(lia)). set (v' := mkBitmapset _ _).
    destruct (IH (i + 1) (<[a := v']> h) v') as (ws & Hrun & Hl & Hw);
      [apply lookup_insert_eq|lia|unfold v'; simpl; rewrite length_insert; lia|].
    exists ws. rewrite Hrun, insert_insert_eq. split_and!; [done| |].
    + rewrite Hl. unfold v'. simpl. apply length_insert.
    + intros j Hj. rewrite Hw by done. unfold v'. cbn [words]. rewrite wd_insert by lia.
      destruct (Z.leb_spec (i + 1) j), (Z.leb_spec i j), (Z.ltb_spec j (i + 1 + Z.of_nat n)),
          (Z.ltb_spec j (i + Z.of_nat (S n))); try lia; case_decide; simpl; try done; lia.
Qed.

Lemma bms_int_members_spec h a b :
  valid h a → valid h b →
  ∃ r h', bms_int_members a b h = Ret (r, h') ∧
          recycles [a] h r h' (λ x, x ∈ set_of h a ∧ x ∈ set_of h b).
Proof.
  intros Ha Hb. destruct a as [a|]; [destruct b as [b|]|].
  2: { destruct Ha as (va & Ha & _). unfold bms_int_members. run (pfree_spec h a va Ha).
       exists None, (delete a h). split; [done|]. split_and!; [done|done|].
       intros x. rewrite !not_in_null. tauto. }
  2: { exists None, h. split; [done|]. apply recycles_same; [done|].
       intros x. rewrite not_in_null. tauto. }
  destruct Ha as (va & Ha & Hva), Hb as (vb & Hb & Hvb). unfold bms_int_members.
  rewrite (set_of_lookup h a va), (set_of_lookup h b vb) by done.
  run (load_spec h a va Ha). run (load_spec h b vb Hb).
  pose proof (wf_nonneg _ Hva). pose proof (wf_nonneg _ Hvb).
  set (n := Z.min (nwords va) (nwords vb)).
  destruct (op_loop_wf Z.land andb h a b va vb n)
    as (v1 & Hloop & Hv1 & Hn1 & Hw1); [try done; try lia..|].
  run Hloop. run (load_spec (<[a := v1]> h) a v1 (lookup_insert_eq h a v1)).
  pose proof Hv1 as (Hl1 & _ & Hm1). simpl in Hl1, Hm1.
  destruct (zero_loop_spec (Z.to_nat (nwords v1 - n)) n (<[a := v1]> h) a v1)
    as (ws & Hz & Hl & Hw); [apply lookup_insert_eq|lia|lia|].
  unfold cfor_range. run Hz. rewrite insert_insert_eq. eexists _, _. split; [done|].
  assert (∀ j, 0 ≤ j → wd ws j = Z.land (wd (words va) j) (wd (words vb) j)) as Hws.
  { intros j Hj. rewrite Hw, Hw1 by done. rewrite Z2Nat.id by lia.
    destruct (Z.leb_spec n j), (Z.ltb_spec j n), (Z.ltb_spec j (n + (nwords v1 - n))); try lia; try done.
    - destruct (Z_le_gt_dec (nwords va) j).
      + by rewrite (wf_wd_ge va), Z.land_0_l by done.
      + by rewrite (wf_wd_ge vb), Z.land_0_r by (try done; lia).
    - by rewrite (wf_wd_ge va), Z.land_0_l by (try done; lia). }
  apply recycles_insert.
  - apply wf_words; [lia|done|]. intros j Hj. rewrite Hws by done.
    apply (bitop_uint (op := Z.land)); [by apply (W_uint (Some va))|by apply (W_uint (Some vb))].
  - by apply (members_land (Some _) (Some va) (Some vb)).
Qed.

Lemma bms_join_spec h a b :
  valid h a → valid h b →
  ∃ r h', bms_join a b h = Ret (r, h') ∧
          recycles [b; a] h r h' (λ x, x ∈ set_of h a ∨ x ∈ set_of h b).
Proof.
  intros Ha Hb. destruct a as [a|]; [destruct b as [b|]|].
  2,3: eexists _, h; (split; [done|]); split_and!; try done;
       intros x; rewrite not_in_null; tauto.
  destruct Ha as (va & Ha & Hva), Hb as (vb & Hb & Hvb). unfold bms_join.
  rewrite (set_of_lookup h a va), (set_of_lookup h b vb) by done.
  run (load_spec h a va Ha). run (load_spec h b vb Hb).
  assert (∃ r vr o vo, (if nwords va <? nwords vb then (b, a) else (a, b)) = (r, o) ∧
      h !! r = Some vr ∧ h !! o = Some vo ∧ bms_wf (Some vr) ∧ bms_wf (Some vo) ∧
      nwords vo ≤ nwords vr ∧ delete r (delete o h) = delete b (delete a h) ∧
      ∀ x, (x ∈ members (Some vr) ∨ x ∈ members (Some vo)) ↔
           (x ∈ members (Some va) ∨ x ∈ members (Some vb)))
    as (r & vr & o & vo & -> & Hr & Ho & Hvr & Hvo & Hle & Hdel & HS).
  { destruct (Z.ltb_spec (nwords va) (nwords vb)).
    - exists b, vb, a, va. split_and!; try done; [lia|intros; tauto].
    - exists a, va, b, vb. split_and!; try done. apply delete_delete. }
  run (load_spec h o vo Ho). pose proof (wf_nonneg _ Hvo).
  destruct (op_loop_wf Z.lor orb h r o vr vo (nwords vo))
    as (v & Hloop & Hv & _ & Hw); [try done; try lia..|].
  run Hloop.
  assert (∀ x, x ∈ members (Some v) ↔ x ∈ members (Some va) ∨ x ∈ members (Some vb)) as HS'.
  { intros x. rewrite <- HS. apply (members_lor (Some v) (Some vr) (Some vo)).
    intros j Hj. simpl. rewrite Hw by done. by apply lor_tail. }
  destruct (decide (o = r)) as [->|Hne].
  - rewrite bool_decide_eq_false_2 by tauto. eexists _, _. split; [done|].
    destruct (recycles_insert h r v _ Hv HS') as (? & Hf & ?). split_and!; [done| |done].
    simpl in *. rewrite <- Hdel, Hf. by rewrite delete_delete_eq.
  - rewrite bool_decide_eq_true_2 by done.
    assert (<[r := v]> h !! o = Some vo) as Ho' by (by rewrite lookup_insert_ne).
    run (pfree_spec _ o vo Ho'). eexists _, _. split; [done|].
    assert (delete o (<[r := v]> h) !! r = Some v) as Hd by
      (by rewrite lookup_delete_ne, lookup_insert_eq).
    split_and!.
    + by exists v.
    + simpl. rewrite <- Hdel. rewrite (delete_delete (<[r := v]> h)), delete_insert_eq.
      apply delete_delete.
    + intros x. by rewrite (set_of_lookup _ r v).
Qed.

(** *** Removing the first member *)

Lemma sorted_min (l : list Z) y :
  StronglySorted Z.lt l → y ∈ l → (∀ x, x ∈ l → y ≤ x) → ∃ l', l = y :: l'.
Proof.
  intros Hs Hy Hmin. destruct Hs as [|x l Hs Hall]; [by apply elem_of_nil in Hy|].
  exists l. f_equal. apply elem_of_cons in Hy as [->|Hy]; [done|].
  rewrite Forall_forall in Hall. specialize (Hall _ Hy).
  specialize (Hmin x ltac:(by left)). lia.
Qed.

Lemma sorted_remove (l l' : list Z) y :
  StronglySorted Z.lt (y :: l) → StronglySorted Z.lt l' →
  (∀ x, x ∈ l' ↔ x ∈ y :: l ∧ x ≠ y) → l' = l.
Proof.
  intros Hs Hs' Heq. apply StronglySorted_inv in Hs as [Hs Hall].
  apply sorted_lt_ext; [done..|]. intros x. rewrite Heq, elem_of_cons.
  rewrite Forall_forall in Hall. split; [naive_solver|].
  intros Hx. specialize (Hall _ Hx). split; [by right|lia].
Qed.

Lemma first_member_loop_spec n i (h : heap) a v :
  h !! a = Some v → bms_wf (Some v) → 0 ≤ i → i + Z.of_nat n = nwords v →
  (∀ j, 0 ≤ j < i → wd (words v) j = 0) →
  ∃ x h', first_member_loop n a i h = Ret (x, h') ∧
    match members (Some v) with
    | [] => x = -1 ∧ h' = h
    | y :: l => x = y ∧ ∃ v', h' = <[a := v']> h ∧ bms_wf (Some v') ∧ members (Some v') = l
    end.
Proof.
  intros Ha Hv. pose proof Hv as (Hn & Hu & Hm). simpl in Hn, Hu, Hm.
  revert i. induction n as [|n IH]; intros i Hi Hin Hz; cbn [first_member_loop].
  - exists (-1), h. split; [done|].
    assert (members (Some v) = []) as ->; [|done]. apply members_nil_words; [done|].
    intros j Hj. simpl. destruct (Z_lt_le_dec j i); [by apply Hz|by apply wf_wd_ge; [|lia]].
  - run (get_word_spec h a v i Ha ltac:(lia)).
    destruct (Z.eqb_spec (wd (words v) i) 0) as [E|E]; cbn [negb].
    { apply IH; [lia|lia|]. intros j Hj. destruct (decide (j = i)) as [->|]; [done|apply Hz; lia]. }
    pose proof (wd_uint (words v) i Hu) as Hw.
    destruct (bits_nonzero _ Hw E) as (k & l & Hb).
    pose proof (bits_head _ _ _ Hb) as (Hk & Ht & Hlow & _).
    rewrite (RIGHTMOST_ONE_spec _ _ _ Hw Hb).
    run (set_word_spec h a v i (Z.land (wd (words v) i) (u32_not (2 ^ k))) Ha ltac:(lia)).
    set (v' := mkBitmapset _ _). unfold lift.
    rewrite (rightmost_loop_spec 3 (2 ^ k) _ k []);
      [|apply pow2_uint32; lia|by apply bits_from_pow2].
    cbn [mbind outcome_bind]. eexists _, _. split; [done|].
    unfold BITS_PER_BITMAPWORD. set (y := i * 32 + k).
    assert (y / 32 = i ∧ y mod 32 = k) as [Hyi Hyk].
    { unfold y. rewrite Z.mul_comm. split; [by apply div_mul_add|by apply mod_mul_add]. }
    assert (∀ j, 0 ≤ j → wd (words v') j = andnot (wd (words v) j) (wd (words (single y)) j)) as Hw'.
    { intros j Hj. unfold v'. cbn [words]. rewrite wd_insert, wd_single, Hyi, Hyk by lia.
      case_decide as Hd; [by subst j|].
      unfold andnot. change (u32_not 0) with (Z.ones 32). rewrite Z.land_ones by lia.
      symmetry. apply Z.mod_small, (W_uint (Some v)). done. }
    assert (y ∈ members (Some v)) as Hyv.
    { apply elem_of_members. simpl. rewrite Hyi, Hyk. split; [lia|done]. }
    destruct (sorted_min (members (Some v)) y) as [l' Hl']; [apply sorted_members|done| |].
    { intros x Hx. pose proof (Hx) as [Hx0 Hxt]%elem_of_members. simpl in Hxt.
      pose proof (Z.div_mod x 32 ltac:(lia)). pose proof (Z.mod_pos_bound x 32 ltac:(lia)).
      destruct (Z_lt_le_dec (x / 32) i).
      { rewrite Hz, Z.bits_0 in Hxt by (split; [apply Z.div_pos; lia|done]). done. }
      destruct (decide (x / 32 = i)) as [Hxi|]; [|lia].
      destruct (Z_lt_le_dec (x mod 32) k); [|lia].
      rewrite Hxi, Hlow in Hxt by lia. done. }
    rewrite Hl'. split; [done|]. exists v'. split_and!; [done| |].
    + apply wf_words; [by rewrite length_insert|done|]. intros j Hj. fold (words v').
      rewrite Hw' by done. apply (bitop_uint (op := andnot)); [by apply (W_uint (Some v))|].
      rewrite wd_single by lia. case_decide; [apply pow2_uint32; lia|done].
    + apply (sorted_remove _ _ y); [rewrite <- Hl'; apply sorted_members|apply sorted_members|].
      intros x. rewrite <- Hl', (members_andnot (Some v') (Some v) (Some (single y))) by done.
      by rewrite members_of_single, list_elem_of_singleton by lia.
Qed.

Lemma bms_first_member_spec h a :
  valid h a →
  ∃ x h', bms_first_member a h = Ret (x, h') ∧ valid h' a ∧ free a h' = free a h ∧
    match set_of h a with
    | [] => x = -1 ∧ h' = h
    | y :: l => x = y ∧ set_of h' a = l
    end.
Proof.
  intros Ha. destruct a as [a|]; [|by eexists _, _].
  destruct Ha as (v & Ha & Hv). unfold bms_first_member. run (load_spec h a v Ha).
  pose proof (wf_nonneg _ Hv).
  destruct (first_member_loop_spec (Z.to_nat (nwords v)) 0 h a v) as (x & h' & -> & Hcase);
    [done..|lia|lia|].
  exists x, h'. split; [done|]. rewrite (set_of_lookup h a v) by done.
  destruct (members (Some v)) as [|y l].
  - destruct Hcase as [-> ->]. split_and!; try done. by exists v.
  - destruct Hcase as (-> & v' & -> & Hv' & Hm). split_and!; [|simpl; apply delete_insert_eq|done|].
    + exists v'. by rewrite lookup_insert_eq.
    + rewrite (set_of_lookup _ a v') by apply lookup_insert_eq. done.
Qed.

(** The iteration pattern of the comment of [bms_first_member]:
    [while ((x = bms_first_member(tmpset)) >= 0) process x]. *)
Fixpoint bms_drain (fuel : nat) (a : ptr) : cmd heap (list Z) :=
  match fuel with
  | O => λ _, Timeout
  | S fuel =>
      x ← bms_first_member a;
      if x <? 0 then mret [] else l ← bms_drain fuel a; mret (x :: l)
  end.

Lemma set_of_nonneg h a x : x ∈ set_of h a → 0 ≤ x.
Proof. apply members_nonneg. Qed.

Lemma bms_drain_spec fuel h a :
  valid h a → (length (set_of h a) < fuel)%nat →
  ∃ h', bms_drain fuel a h = Ret (set_of h a, h') ∧ valid h' a ∧
        free a h' = free a h ∧ set_of h' a = [].
Proof.
  revert h. induction fuel as [|fuel IH]; intros h Ha Hf; [lia|]. cbn [bms_drain].
  destruct (bms_first_member_spec h a Ha) as (x & h' & Hrun & Hv & Hfree & Hcase). run Hrun.
  destruct (set_of h a) as [|y l] eqn:Hset.
  - destruct Hcase as [-> ->]. exists h. by rewrite Hset.
  - destruct Hcase as [-> Hl].
    assert (0 ≤ y) by (apply (set_of_nonneg h a); rewrite Hset; by left).
    destruct (Z.ltb_spec y 0); [lia|].
    destruct (IH h') as (h'' & Hd & Hv'' & Hf'' & Hs''); [done|rewrite Hl; simpl in *; lia|].
    run Hd. exists h''. rewrite Hl. split_and!; try done. congruence.
Qed.

(** ** Properties *)

(** Sample data for the witnesses: [{1, 33}], [{0, 33, 64}] at the addresses 1, 2. *)
Definition sample_heap : heap :=
  <[1%positive := mkBitmapset 2 [2; 2]]> (<[2%positive := mkBitmapset 3 [1; 2; 1]]> ∅).

Lemma sample_valid_1 : valid sample_heap (Some 1%positive).
Proof. eexists. split; [reflexivity|]. split_and!; [done|repeat constructor; done|done]. Qed.
Lemma sample_valid_2 : valid sample_heap (Some 2%positive).
Proof. eexists. split; [reflexivity|]. split_and!; [done|repeat constructor; done|done]. Qed.

(** [bms_union], [bms_intersect] and [bms_difference] run without undefined
    behaviour on valid pointers (equal, NULL or distinct), return a freshly
    allocated set (or NULL) holding the union, intersection and difference, and
    leave the rest of the heap, their inputs included, untouched. *)
Theorem bms_constructive_ops (h : heap) (a b : ptr) :
  valid h a → valid h b →
  (∃ r h', bms_union a b h = Ret (r, h') ∧
           allocates h r h' (λ x, x ∈ set_of h a ∨ x ∈ set_of h b)) ∧
  (∃ r h', bms_intersect a b h = Ret (r, h') ∧
           allocates h r h' (λ x, x ∈ set_of h a ∧ x ∈ set_of h b)) ∧
  (∃ r h', bms_difference a b h = Ret (r, h') ∧
           allocates h r h' (λ x, x ∈ set_of h a ∧ x ∉ set_of h b)).
Proof.
  intros Ha Hb. split_and!;
    [by apply bms_union_spec|by apply bms_intersect_spec|by apply bms_difference_spec].
Qed.

Lemma bms_constructive_ops_witness :
  ∃ r h', bms_union (Some 1%positive) (Some 2%positive) sample_heap = Ret (r, h') ∧
          set_of h' r = [0; 1; 33; 64].
Proof.
  destruct (bms_constructive_ops sample_heap (Some 1%positive) (Some 2%positive)
              sample_valid_1 sample_valid_2) as ((r & h' & Hrun & _) & _).
  exists r, h'. split; [exact Hrun|]. vm_compute in Hrun. injection Hrun as <- <-. reflexivity.
Defined.

(** C40: the operations that recycle their inputs never touch freed or foreign
    storage, give up exactly the storage of the inputs they recycle in exchange
    for that of the result, and compute union, intersection and difference; this
    holds also when both arguments are the same pointer. *)
Theorem bms_recycling_ops (h : heap) (a b : ptr) :
  valid h a → valid h b →
  (∃ r h', bms_add_members a b h = Ret (r, h') ∧
           recycles [a] h r h' (λ x, x ∈ set_of h a ∨ x ∈ set_of h b)) ∧
  (∃ r h', bms_int_members a b h = Ret (r, h') ∧
           recycles [a] h r h' (λ x, x ∈ set_of h a ∧ x ∈ set_of h b)) ∧
  (∃ h', bms_del_members a b h = Ret (a, h') ∧
         recycles [a] h a h' (λ x, x ∈ set_of h a ∧ x ∉ set_of h b)) ∧
  (∃ r h', bms_join a b h = Ret (r, h') ∧
           recycles [b; a] h r h' (λ x, x ∈ set_of h a ∨ x ∈ set_of h b)).
Proof.
  intros Ha Hb. split_and!;
    [by apply bms_add_members_spec|by apply bms_int_members_spec
    |by apply bms_del_members_spec|by apply bms_join_spec].
Qed.

Lemma bms_recycling_ops_witness :
  ∃ r h', bms_join (Some 1%positive) (Some 2%positive) sample_heap = Ret (r, h') ∧
          set_of h' r = [0; 1; 33; 64] ∧ size h' = 1%nat.
Proof.
  destruct (bms_recycling_ops sample_heap (Some 1%positive) (Some 2%positive)
              sample_valid_1 sample_valid_2) as (_ & _ & _ & r & h' & Hrun & _).
  exists r, h'. split; [exact Hrun|]. vm_compute in Hrun. injection Hrun as <- <-.
  split; reflexivity.
Defined.

(** Insertion and removal of one member: [bms_add_member] adds exactly [x],
    [bms_del_member] removes exactly [x], [bms_is_member] decides membership,
    and all three raise an error on a negative [x]. *)
Theorem bms_member_ops (h : heap) (a : ptr) (x : Z) :
  valid h a → x < 2 ^ 31 →
  if decide (x < 0) then
    bms_add_member a x h = Ereport ERRCODE_INTERNAL_ERROR ∧
    bms_del_member a x h = Ereport ERRCODE_INTERNAL_ERROR ∧
    bms_is_member x (deref h a) = Ereport ERRCODE_INTERNAL_ERROR
  else
    (∃ r h', bms_add_member a x h = Ret (r, h') ∧
             recycles [a] h r h' (λ y, y = x ∨ y ∈ set_of h a)) ∧
    (∃ h', bms_del_member a x h = Ret (a, h') ∧
           recycles [a] h a h' (λ y, y ≠ x ∧ y ∈ set_of h a)) ∧
    bms_is_member x (deref h a) = Ret (bool_decide (x ∈ set_of h a)).
Proof.
  intros Ha Hx. case_decide as Hneg.
  - unfold bms_add_member, bms_del_member, bms_is_member.
    destruct (Z.ltb_spec x 0); [done|lia].
  - split_and!; [apply bms_add_member_spec; [done|lia]|apply bms_del_member_spec; [done|lia]|].
    apply bms_is_member_spec; [|lia]. destruct a as [a|]; [|done].
    destruct Ha as (v & Ha & Hv). simpl. by rewrite Ha.
Qed.

Lemma bms_member_ops_witness :
  ∃ r h', bms_add_member (Some 1%positive) 100 sample_heap = Ret (r, h') ∧
          set_of h' r = [1; 33; 100].
Proof.
  destruct (bms_member_ops sample_heap (Some 1%positive) 100 sample_valid_1 ltac:(done))
    as ((r & h' & Hrun & _) & _).
  exists r, h'. split; [exact Hrun|]. vm_compute in Hrun. injection Hrun as <- <-. reflexivity.
Defined.

(** The read-only predicates decide the set relations they name; in
    particular a NULL pointer equals any set without members, and sets of
    different word counts compare by their members. *)
Theorem bms_predicates (a b : option Bitmapset) :
  bms_wf a → bms_wf b →
  bms_is_empty a = Ret (bool_decide (members a = [])) ∧
  bms_equal a b = Ret (bool_decide (members a = members b)) ∧
  bms_is_subset a b = Ret (bool_decide (members a ⊆ members b)) ∧
  bms_nonempty_difference a b = Ret (negb (bool_decide (members a ⊆ members b))) ∧
  ∃ r, bms_overlap a b = Ret r ∧ (r = true ↔ ∃ x, x ∈ members a ∧ x ∈ members b).
Proof.
  intros Ha Hb. split_and!;
    [by apply bms_is_empty_spec|by apply bms_equal_spec|by apply bms_is_subset_spec
    |by apply bms_nonempty_difference_spec|by apply bms_overlap_spec].
Qed.

Lemma bms_predicates_witness :
  bms_equal (Some (mkBitmapset 2 [6; 0])) (Some (mkBitmapset 1 [6])) = Ret true.
Proof.
  destruct (bms_predicates (Some (mkBitmapset 2 [6; 0])) (Some (mkBitmapset 1 [6])))
    as (_ & Heq & _).
  - split_and!; [done|repeat constructor; done|done].
  - split_and!; [done|repeat constructor; done|done].
  - exact Heq.
Defined.

(** Counting by byte tables and by isolating the rightmost one bit is exact:
    [bms_num_members] is the number of members, [bms_membership] distinguishes
    none, one and several, and [bms_singleton_member] returns the only member or
    raises an error. *)
Theorem bms_cardinality (a : option Bitmapset) :
  bms_wf a →
  bms_num_members a = Ret (Z.of_nat (length (members a))) ∧
  bms_membership a = Ret (classify (members a)) ∧
  bms_singleton_member a =
    match members a with [x] => Ret x | _ => Ereport ERRCODE_INTERNAL_ERROR end.
Proof.
  intros Ha. split_and!;
    [by apply bms_num_members_spec|by apply bms_membership_spec|by apply bms_singleton_member_spec].
Qed.

Lemma bms_cardinality_witness :
  bms_num_members (Some (mkBitmapset 2 [4294967295; 2147483648])) = Ret 33.
Proof.
  destruct (bms_cardinality (Some (mkBitmapset 2 [4294967295; 2147483648]))) as (H & _).
  - split_and!; [done|repeat constructor; done|done].
  - exact H.
Defined.

(** Sets that [bms_equal] identifies hash to the same value, on machines of
    either endianness (the requirement stated for [bms_hash_value]). *)
Theorem bms_hash_respects_equal (be : bool) (a b : option Bitmapset) :
  bms_wf a → bms_wf b → bms_equal a b = Ret true →
  bms_hash_value be a = bms_hash_value be b.
Proof.
  intros Ha Hb Heq. rewrite bms_equal_spec in Heq by done.
  injection Heq as Heq%bool_decide_eq_true. rewrite members_eq_words in Heq by done.
  assert (∀ v, bms_wf (Some v) → (∀ j, 0 ≤ j → wd (words v) j = 0) →
               bms_hash_value be (Some v) = Ret 0) as Hzero.
  { intros v Hv Hz. destruct (bms_hash_value_prefix be v Hv) as (r & Hr & Hnz & _ & ->).
    destruct (Z.ltb_spec r 0); [done|]. destruct (Hnz ltac:(lia)). by apply Hz. }
  destruct a as [a|], b as [b|]; simpl in Heq.
  - destruct (bms_hash_value_prefix be a Ha) as (r & Hr & Hnz & Hz & ->).
    destruct (bms_hash_value_prefix be b Hb) as (r' & Hr' & Hnz' & Hz' & ->).
    assert (r = r') as <-.
    { destruct (Z_lt_ge_dec r r'); [|destruct (Z_lt_ge_dec r' r); [|lia]].
      - destruct (Hnz' ltac:(lia)). rewrite <- Heq by lia. by apply Hz.
      - destruct (Hnz ltac:(lia)). rewrite Heq by lia. by apply Hz'. }
    destruct (Z.ltb_spec r 0); [done|]. do 2 f_equal.
    apply list_fmap_ext. intros i x Hx. apply list_elem_of_lookup_2, elem_of_seqZ in Hx.
    apply Heq. lia.
  - by apply Hzero.
  - symmetry. apply Hzero; [done|]. intros. symmetry. by apply Heq.
  - done.
Qed.

Lemma bms_hash_respects_equal_witness :
  bms_hash_value false (Some (mkBitmapset 2 [6; 0])) = bms_hash_value false (Some (mkBitmapset 1 [6])).
Proof.
  apply (bms_hash_respects_equal false (Some (mkBitmapset 2 [6; 0])) (Some (mkBitmapset 1 [6]))).
  - split_and!; [done|repeat constructor; done|done].
  - split_and!; [done|repeat constructor; done|done].
  - reflexivity.
Defined.

(** The documented iteration pattern over [bms_first_member] terminates after
    as many calls as there are members plus one, visits exactly the members in
    increasing order, and leaves an empty set in the same storage. *)
Theorem bms_iteration (h : heap) (a : ptr) :
  valid h a →
  ∃ h', bms_drain (S (length (set_of h a))) a h = Ret (set_of h a, h') ∧ valid h' a ∧
        free a h' = free a h ∧ set_of h' a = [] ∧ StronglySorted Z.lt (set_of h a).
Proof.
  intros Ha. destruct (bms_drain_spec (S (length (set_of h a))) h a) as (h' & ? & ? & ? & ?);
    [done|lia|].
  exists h'. split_and!; try done. apply sorted_members.
Qed.

Lemma bms_iteration_witness :
  ∃ h', bms_drain 4 (Some 2%positive) sample_heap = Ret ([0; 33; 64], h') ∧
        set_of h' (Some 2%positive) = [].
Proof.
  destruct (bms_iteration sample_heap (Some 2%positive) sample_valid_2)
    as (h' & Hrun & _ & _ & Hnil & _).
  exists h'. split; [exact Hrun|exact Hnil].
Defined.
