(* ===== verification/FsmPage.v ===== *)
(** * Free space map pages

    Models [src/backend/storage/freespace/fsmpage.c] and the page layout of
    [src/include/storage/fsm_internals.h]: a page holds a binary tree in an
    array, each upper node being the maximum of its children.  The block size
    [BLCKSZ] is a configuration constant of the build and a parameter here.

    [fsm_search_avail] may release the shared lock and take the exclusive lock
    before it repairs a torn page; what other backends do to the page in between
    is the parameter [interfere]. *)

From S2P Require Import Prelude.

(** ** Definitions *)

Definition leftchild (x : Z) : Z := 2 * x + 1.
Definition rightchild (x : Z) : Z := 2 * x + 2.
Definition parentof (x : Z) : Z := Z.quot (x - 1) 2.

Definition rightneighbor (x : Z) : Z :=
  let x := x + 1 in
  if Z.land (x + 1) x =? 0 then parentof x else x.

Record FSMPageData := mkFSMPage { fp_next_slot : Z; fp_nodes : list Z }.

Section fsmpage.
Context (BLCKSZ : Z).

(** [BLCKSZ - MAXALIGN(SizeOfPageHeaderData) - offsetof(FSMPageData, fp_nodes)] *)
Definition NodesPerPage : Z := BLCKSZ - 24 - 4.
Definition NonLeafNodesPerPage : Z := Z.quot BLCKSZ 2 - 1.
Definition LeafNodesPerPage : Z := NodesPerPage - NonLeafNodesPerPage.

(** The value of node [nodeno] as computed from its children by the loop of
    [fsm_rebuild_page]. *)
Definition max_children (nodes : list Z) (nodeno : Z) : outcome Z :=
  let lchild := leftchild nodeno in
  let rchild := lchild + 1 in
  newvalue ← (if lchild <? NodesPerPage then arr_get nodes lchild else Ret 0);
  if rchild <? NodesPerPage then r ← arr_get nodes rchild; Ret (Z.max newvalue r)
  else Ret newvalue.

(** [for (nodeno = n - 1; nodeno >= 0; nodeno--)] *)
Fixpoint rebuild_loop (n : nat) (nodes : list Z) (changed : bool) : outcome (list Z * bool) :=
  match n with
  | O => Ret (nodes, changed)
  | S n =>
      let nodeno := Z.of_nat n in
      newvalue ← max_children nodes nodeno;
      v ← arr_get nodes nodeno;
      if negb (v =? newvalue) then
        nodes ← arr_set nodes nodeno newvalue; rebuild_loop n nodes true
      else rebuild_loop n nodes changed
  end.

Definition fsm_rebuild_page (page : FSMPageData) : outcome (bool * FSMPageData) :=
  '(nodes, changed) ← rebuild_loop (Z.to_nat NonLeafNodesPerPage) (fp_nodes page) false;
  Ret (changed, mkFSMPage (fp_next_slot page) nodes).

(** The [do ... while (nodeno > 0)] loop that propagates a new value upwards;
    here the left child always exists. *)
Fixpoint propagate_loop (fuel : nat) (nodes : list Z) (nodeno : Z) : outcome (list Z) :=
  match fuel with
  | O => Timeout
  | S fuel =>
      let nodeno := parentof nodeno in
      let lchild := leftchild nodeno in
      let rchild := lchild + 1 in
      newvalue ← arr_get nodes lchild;
      newvalue ← (if rchild <? NodesPerPage
                  then r ← arr_get nodes rchild; Ret (Z.max newvalue r)
                  else Ret newvalue);
      oldvalue ← arr_get nodes nodeno;
      if oldvalue =? newvalue then Ret nodes else
      nodes ← arr_set nodes nodeno newvalue;
      if 0 <? nodeno then propagate_loop fuel nodes nodeno else Ret nodes
  end.

Definition fsm_set_avail (page : FSMPageData) (slot value : Z) : outcome (bool * FSMPageData) :=
  let nodeno := NonLeafNodesPerPage + slot in
  if negb (slot <? LeafNodesPerPage) then UB else
  oldvalue ← arr_get (fp_nodes page) nodeno;
  root ← arr_get (fp_nodes page) 0;
  if (oldvalue =? value) && (value <=? root) then Ret (false, page) else
  nodes ← arr_set (fp_nodes page) nodeno value;
  nodes ← propagate_loop (S (Z.to_nat nodeno)) nodes nodeno;
  let page := mkFSMPage (fp_next_slot page) nodes in
  root ← arr_get nodes 0;
  if root <? value then '(_, page) ← fsm_rebuild_page page; Ret (true, page)
  else Ret (true, page).

Definition fsm_get_avail (page : FSMPageData) (slot : Z) : outcome Z :=
  if negb (slot <? LeafNodesPerPage) then UB else
  arr_get (fp_nodes page) (NonLeafNodesPerPage + slot).

Definition fsm_get_max_avail (page : FSMPageData) : outcome Z := arr_get (fp_nodes page) 0.

(** [while (nodeno > 0) { if (fp_nodes[nodeno] >= minvalue) break;
     nodeno = parentof(rightneighbor(nodeno)); }] *)
Fixpoint climb_loop (fuel : nat) (nodes : list Z) (minvalue nodeno : Z) : outcome Z :=
  if 0 <? nodeno then
    match fuel with
    | O => Timeout
    | S fuel =>
        v ← arr_get nodes nodeno;
        if minvalue <=? v then Ret nodeno
        else climb_loop fuel nodes minvalue (parentof (rightneighbor nodeno))
    end
  else Ret nodeno.

(** [childnodeno < NodesPerPage && fp_nodes[childnodeno] >= minvalue] *)
Definition child_ok (nodes : list Z) (minvalue childnodeno : Z) : outcome bool :=
  if childnodeno <? NodesPerPage
  then v ← arr_get nodes childnodeno; Ret (minvalue <=? v)
  else Ret false.

(** The descent; [None] is the "Oops" branch. *)
Fixpoint descend_loop (fuel : nat) (nodes : list Z) (minvalue nodeno : Z) : outcome (option Z) :=
  if nodeno <? NonLeafNodesPerPage then
    match fuel with
    | O => Timeout
    | S fuel =>
        let childnodeno := leftchild nodeno in
        ok ← child_ok nodes minvalue childnodeno;
        if (ok : bool) then descend_loop fuel nodes minvalue childnodeno else
        let childnodeno := childnodeno + 1 in
        ok ← child_ok nodes minvalue childnodeno;
        if (ok : bool) then descend_loop fuel nodes minvalue childnodeno else Ret None
    end
  else Ret (Some nodeno).

(** The result: the slot or -1, the page, and whether [MarkBufferDirty] was
    called.  [fuel] bounds the number of [goto restart]s. *)
Fixpoint search_avail_loop (fuel : nat) (interfere : FSMPageData → FSMPageData)
    (page : FSMPageData) (dirty : bool) (minvalue : Z) (advancenext exclusive_lock_held : bool)
    : outcome (Z * FSMPageData * bool) :=
  match fuel with
  | O => Timeout
  | S fuel =>
      root ← arr_get (fp_nodes page) 0;
      if root <? minvalue then Ret (-1, page, dirty) else
      let target := fp_next_slot page in
      let target := if (target <? 0) || (LeafNodesPerPage <=? target) then 0 else target in
      let target := target + NonLeafNodesPerPage in
      nodeno ← climb_loop (Z.to_nat target) (fp_nodes page) minvalue target;
      found ← descend_loop (length (fp_nodes page)) (fp_nodes page) minvalue nodeno;
      match found with
      | None =>
          let page := if exclusive_lock_held then page else interfere page in
          '(_, page) ← fsm_rebuild_page page;
          search_avail_loop fuel interfere page true minvalue advancenext true
      | Some nodeno =>
          let slot := uint16_of (nodeno - NonLeafNodesPerPage) in
          Ret (slot, mkFSMPage (slot + (if advancenext then 1 else 0)) (fp_nodes page), dirty)
      end
  end.

(** One restart is enough: see [fsm_search_avail_total]. *)
Definition fsm_search_avail (interfere : FSMPageData → FSMPageData) (page : FSMPageData)
    (minvalue : Z) (advancenext exclusive_lock_held : bool) : outcome (Z * FSMPageData * bool) :=
  search_avail_loop 2 interfere page false minvalue advancenext exclusive_lock_held.

(** [for (ptr = &fp_nodes[NonLeafNodesPerPage + nslots]; ptr < &fp_nodes[NodesPerPage]; ptr++)] *)
Fixpoint truncate_loop (n : nat) (i : Z) (nodes : list Z) (changed : bool) : outcome (list Z * bool) :=
  match n with
  | O => Ret (nodes, changed)
  | S n =>
      v ← arr_get nodes i;
      let changed := if negb (v =? 0) then true else changed in
      nodes ← arr_set nodes i 0;
      truncate_loop n (i + 1) nodes changed
  end.

Definition fsm_truncate_avail (page : FSMPageData) (nslots : Z) : outcome (bool * FSMPageData) :=
  if negb ((0 <=? nslots) && (nslots <? LeafNodesPerPage)) then UB else
  let first := NonLeafNodesPerPage + nslots in
  '(nodes, changed) ← truncate_loop (Z.to_nat (NodesPerPage - first)) first (fp_nodes page) false;
  let page := mkFSMPage (fp_next_slot page) nodes in
  if (changed : bool) then '(_, page) ← fsm_rebuild_page page; Ret (changed, page)
  else Ret (changed, page).
End fsmpage.

(** ** Specification *)

(** The supported block sizes are powers of two; 64 is the smallest for which
    the layout leaves room for leaves. *)
Definition blcksz_ok (BLCKSZ : Z) : Prop := ∃ k, 6 ≤ k ≤ 15 ∧ BLCKSZ = 2 ^ k.

Section spec.
Context (BLCKSZ : Z).
#[local] Abbreviation NodesPerPage := (NodesPerPage BLCKSZ).
#[local] Abbreviation NonLeaf := (NonLeafNodesPerPage BLCKSZ).
#[local] Abbreviation Leaf := (LeafNodesPerPage BLCKSZ).

(** The shape of a page: an array of [NodesPerPage] bytes. *)
Definition page_ok (page : FSMPageData) : Prop :=
  Z.of_nat (length (fp_nodes page)) = NodesPerPage ∧ Forall (is_uint 8) (fp_nodes page).

(** The recorded free space category of a slot. *)
Definition avail (page : FSMPageData) (slot : Z) : Z := wd (fp_nodes page) (NonLeaf + slot).

Definition node_consistent (nodes : list Z) (n : Z) : Prop :=
  wd nodes n = Z.max (wd nodes (leftchild n)) (wd nodes (rightchild n)).

(** Every upper node is the maximum of its children (missing ones are zero). *)
Definition tree_ok (page : FSMPageData) : Prop :=
  ∀ n, 0 ≤ n < NonLeaf → node_consistent (fp_nodes page) n.
End spec.

(** ** Lemmas *)

Lemma parentof_div x : 1 ≤ x → parentof x = (x - 1) / 2.
Proof. intros. unfold parentof. apply Z.quot_div_nonneg; lia. Qed.

Lemma parentof_bounds x : 1 ≤ x → 0 ≤ parentof x < x ∧ 2 * parentof x + 1 ≤ x ≤ 2 * parentof x + 2.
Proof. intros. rewrite parentof_div by done. Z.to_euclidean_division_equations; lia. Qed.

(** The only upper node a node influences is its parent. *)
Lemma not_child_of x n : 1 ≤ x → n ≠ parentof x → x ≠ leftchild n ∧ x ≠ rightchild n.
Proof. intros Hx Hn. pose proof (parentof_bounds x Hx). unfold leftchild, rightchild. lia. Qed.

Lemma climb_bounds x : 1 ≤ x → 0 ≤ parentof (rightneighbor x) < x.
Proof.
  intros Hx. unfold rightneighbor. destruct (Z.land (x + 1 + 1) (x + 1) =? 0).
  - rewrite (parentof_div (x + 1)) by lia. rewrite Z.add_simpl_r.
    destruct (decide (x = 1)) as [->|]; [done|].
    assert (1 ≤ x / 2 ≤ x) by (Z.to_euclidean_division_equations; lia).
    pose proof (parentof_bounds (x / 2) ltac:(lia)). lia.
  - pose proof (parentof_bounds (x + 1) ltac:(lia)). lia.
Qed.

Section lemmas.
Context (BLCKSZ : Z) (HB : blcksz_ok BLCKSZ).
#[local] Abbreviation NodesPerPage := (NodesPerPage BLCKSZ).
#[local] Abbreviation NonLeaf := (NonLeafNodesPerPage BLCKSZ).
#[local] Abbreviation Leaf := (LeafNodesPerPage BLCKSZ).

Lemma sizes :
  31 ≤ NonLeaf ∧ NodesPerPage = 2 * NonLeaf - 26 ∧ Leaf = NonLeaf - 26 ∧ NodesPerPage ≤ 32768.
Proof.
  destruct HB as (k & Hk & Hb).
  unfold LeafNodesPerPage, FsmPage.NodesPerPage, NonLeafNodesPerPage.
  assert (BLCKSZ = 2 * 2 ^ (k - 1)) as ->.
  { rewrite Hb, <- Z.pow_succ_r by lia. f_equal. lia. }
  assert (2 ^ 5 ≤ 2 ^ (k - 1) ≤ 2 ^ 14) by (split; apply Z.pow_le_mono_r; lia).
  rewrite Z.mul_comm, Z.quot_mul by lia. lia.
Qed.

(** What the code needs of the node array. *)
Definition nodes_ok (nodes : list Z) : Prop :=
  Z.of_nat (length nodes) = NodesPerPage ∧ Forall (is_uint 8) nodes.

Lemma wd_uint8 nodes i : nodes_ok nodes → is_uint 8 (wd nodes i).
Proof.
  intros [_ Hu]. unfold wd. destruct (nodes !! Z.to_nat i) eqn:E; simpl; [|done].
  by eapply Forall_lookup_1.
Qed.

Lemma nodes_get nodes i : nodes_ok nodes → 0 ≤ i < NodesPerPage → arr_get nodes i = Ret (wd nodes i).
Proof. intros [Hl _] Hi. apply wd_get. lia. Qed.

Lemma nodes_set nodes i x :
  nodes_ok nodes → 0 ≤ i < NodesPerPage → is_uint 8 x →
  ∃ nodes', arr_set nodes i x = Ret nodes' ∧ nodes_ok nodes' ∧
            ∀ j, 0 ≤ j → wd nodes' j = if decide (j = i) then x else wd nodes j.
Proof.
  intros [Hl Hu] Hi Hx. exists (<[Z.to_nat i := x]> nodes).
  rewrite arr_set_lt by lia. split_and!; [done| |].
  - split; [by rewrite length_insert|by apply Forall_insert].
  - intros j Hj. apply wd_insert; lia.
Qed.

Lemma max_uint8 x y : is_uint 8 x → is_uint 8 y → is_uint 8 (Z.max x y).
Proof. unfold is_uint. lia. Qed.

Lemma max_children_spec nodes n :
  nodes_ok nodes → 0 ≤ n →
  max_children BLCKSZ nodes n = Ret (Z.max (wd nodes (leftchild n)) (wd nodes (rightchild n))).
Proof.
  intros Hok Hn. unfold max_children.
  replace (leftchild n + 1) with (rightchild n) by (unfold leftchild, rightchild; lia).
  assert (0 ≤ leftchild n ∧ 0 ≤ rightchild n) by (unfold leftchild, rightchild; lia).
  pose proof (wd_uint8 nodes (leftchild n) Hok) as [? _].
  pose proof (wd_uint8 nodes (rightchild n) Hok) as [? _].
  destruct Hok as [Hl Hu].
  destruct (Z.ltb_spec (leftchild n) NodesPerPage).
  - rewrite (wd_get nodes (leftchild n)) by lia. cbn [mbind outcome_bind].
    destruct (Z.ltb_spec (rightchild n) NodesPerPage).
    + rewrite wd_get by lia. done.
    + rewrite (wd_ge nodes (rightchild n)) by lia. f_equal. lia.
  - cbn [mbind outcome_bind]. rewrite (wd_ge nodes (leftchild n)) by lia.
    destruct (Z.ltb_spec (rightchild n) NodesPerPage).
    + rewrite wd_get by lia. done.
    + rewrite (wd_ge nodes (rightchild n)) by lia. done.
Qed.

Lemma rebuild_loop_spec n nodes c :
  nodes_ok nodes → Z.of_nat n ≤ NonLeaf →
  ∃ nodes' c', rebuild_loop BLCKSZ n nodes c = Ret (nodes', c') ∧ nodes_ok nodes' ∧
    (∀ i, Z.of_nat n ≤ i → wd nodes' i = wd nodes i) ∧
    (∀ i, 0 ≤ i < Z.of_nat n → node_consistent nodes' i) ∧
    (c' = true ↔ c = true ∨ nodes' ≠ nodes).
Proof.
  pose proof sizes. revert nodes c.
  induction n as [|n IH]; intros nodes c Hok Hn; cbn [rebuild_loop].
  { exists nodes, c. split_and!; try done; [lia|]. naive_solver. }
  rewrite max_children_spec by (done || lia). cbn [mbind outcome_bind].
  rewrite nodes_get by (done || lia). cbn [mbind outcome_bind].
  set (newv := Z.max _ _).
  assert (is_uint 8 newv) as Hnew by (apply max_uint8; by apply wd_uint8).
  assert (∀ nodes1 c1, nodes_ok nodes1 →
            (∀ j, 0 ≤ j → wd nodes1 j = if decide (j = Z.of_nat n) then newv else wd nodes j) →
            (c1 = true ↔ c = true ∨ wd nodes (Z.of_nat n) ≠ newv) →
            (wd nodes (Z.of_nat n) = newv → nodes1 = nodes) →
            ∃ nodes' c', rebuild_loop BLCKSZ n nodes1 c1 = Ret (nodes', c') ∧ nodes_ok nodes' ∧
              (∀ i, Z.of_nat (S n) ≤ i → wd nodes' i = wd nodes i) ∧
              (∀ i, 0 ≤ i < Z.of_nat (S n) → node_consistent nodes' i) ∧
              (c' = true ↔ c = true ∨ nodes' ≠ nodes)) as Hrec.
  { intros nodes1 c1 Hok1 Hw1 Hc1 Hsame.
    destruct (IH nodes1 c1 Hok1 ltac:(lia)) as (nodes' & c' & -> & Hok' & Hge & Hcons & Hc').
    exists nodes', c'. split_and!; [done|done| | |].
    - intros i Hi. rewrite Hge, Hw1 by lia. by rewrite decide_False by lia.
    - intros i Hi. destruct (decide (i = Z.of_nat n)) as [->|]; [|apply Hcons; lia].
      unfold node_consistent. rewrite !Hge, !Hw1 by (unfold leftchild, rightchild; lia).
      rewrite decide_True by done.
      rewrite !decide_False by (unfold leftchild, rightchild; lia). done.
    - rewrite Hc', Hc1. destruct (decide (wd nodes (Z.of_nat n) = newv)) as [E|E].
      + rewrite Hsame by done. tauto.
      + split; [|tauto]. intros _. right. intros ->. apply E.
        rewrite (Hge (Z.of_nat n)), Hw1 by lia. by rewrite decide_True. }
  destruct (Z.eqb_spec (wd nodes (Z.of_nat n)) newv) as [E|E]; cbn [negb].
  - apply Hrec; [done| |tauto|done]. intros j Hj. case_decide; [by subst j|done].
  - destruct (nodes_set nodes (Z.of_nat n) newv) as (nodes1 & -> & Hok1 & Hw1); [done|lia|done|].
    cbn [mbind outcome_bind]. apply Hrec; [done|done|tauto|tauto].
Qed.

Lemma fsm_rebuild_page_spec page :
  page_ok BLCKSZ page →
  ∃ c page', fsm_rebuild_page BLCKSZ page = Ret (c, page') ∧ page_ok BLCKSZ page' ∧
    tree_ok BLCKSZ page' ∧ fp_next_slot page' = fp_next_slot page ∧
    (∀ s, 0 ≤ s → avail BLCKSZ page' s = avail BLCKSZ page s) ∧
    (c = true ↔ page' ≠ page).
Proof.
  intros Hok. pose proof sizes. unfold fsm_rebuild_page.
  destruct (rebuild_loop_spec (Z.to_nat NonLeaf) (fp_nodes page) false)
    as (nodes' & c' & -> & Hok' & Hge & Hcons & Hc'); [done|lia|].
  cbn [mbind outcome_bind]. eexists _, _. split; [done|]. split_and!; try done.
  - intros n Hn. apply Hcons. lia.
  - intros s Hs. apply Hge. lia.
  - rewrite Hc'. destruct page as [ns nodes]. simpl. naive_solver.
Qed.

Lemma propagate_value {A} nodes p (K : Z → outcome A) :
  nodes_ok nodes → 0 ≤ p → leftchild p < NodesPerPage →
  (newvalue ← arr_get nodes (leftchild p);
   newvalue ← (if leftchild p + 1 <? NodesPerPage
               then r ← arr_get nodes (leftchild p + 1); Ret (Z.max newvalue r)
               else Ret newvalue);
   K newvalue) = K (Z.max (wd nodes (leftchild p)) (wd nodes (rightchild p))).
Proof.
  intros Hok Hp Hl. pose proof (max_children_spec nodes p Hok Hp) as Hmax.
  unfold max_children in Hmax. destruct (Z.ltb_spec (leftchild p) NodesPerPage); [|lia].
  rewrite (nodes_get nodes (leftchild p)) in Hmax |- * by (done || (unfold leftchild in *; lia)).
  cbn [mbind outcome_bind] in Hmax |- *. by rewrite Hmax.
Qed.

Lemma propagate_loop_spec fuel nodes c :
  nodes_ok nodes → 1 ≤ c < NodesPerPage → c ≤ Z.of_nat fuel →
  ∃ nodes', propagate_loop BLCKSZ fuel nodes c = Ret nodes' ∧ nodes_ok nodes' ∧
    (∀ i, NonLeaf ≤ i → wd nodes' i = wd nodes i) ∧
    ((∀ n, 0 ≤ n < NonLeaf → n ≠ parentof c → node_consistent nodes n) →
     ∀ n, 0 ≤ n < NonLeaf → node_consistent nodes' n).
Proof.
  pose proof sizes. revert nodes c.
  induction fuel as [|fuel IH]; intros nodes c Hok Hc Hf; [lia|]. cbn [propagate_loop].
  pose proof (parentof_bounds c ltac:(lia)) as [Hp Hpc]. set (p := parentof c) in *.
  assert (leftchild p < NodesPerPage) by (unfold leftchild; lia).
  rewrite propagate_value by (done || lia). set (newv := Z.max _ _).
  rewrite nodes_get by (done || lia). cbn [mbind outcome_bind].
  assert (is_uint 8 newv) as Hnew by (apply max_uint8; by apply wd_uint8).
  destruct (Z.eqb_spec (wd nodes p) newv) as [E|E].
  { exists nodes. split_and!; try done. intros Hcons n Hn.
    destruct (decide (n = p)) as [->|]; [done|by apply Hcons]. }
  destruct (nodes_set nodes p newv) as (nodes1 & -> & Hok1 & Hw1); [done|lia|done|].
  cbn [mbind outcome_bind].
  assert (wd nodes1 p = newv) as Hp1 by (rewrite Hw1 by lia; by rewrite decide_True).
  assert (∀ n, 0 ≤ n → (p = 0 ∨ n ≠ parentof p) → (n ≠ p → node_consistent nodes n) →
               node_consistent nodes1 n) as Hcons1.
  { intros n Hn Hpar Hcn. unfold node_consistent.
    assert (leftchild n ≠ p ∧ rightchild n ≠ p) as [Hl Hr].
    { destruct (decide (p = 0)) as [->|]; [unfold leftchild, rightchild; lia|].
      destruct (not_child_of p n); [lia|naive_solver|]. auto. }
    rewrite (Hw1 (leftchild n)), (Hw1 (rightchild n)) by (unfold leftchild, rightchild; lia).
    rewrite (decide_False (P := leftchild n = p)), (decide_False (P := rightchild n = p)) by done.
    destruct (decide (n = p)) as [->|Hne]; [done|].
    rewrite Hw1, decide_False by done. by apply Hcn. }
  destruct (Z.ltb_spec 0 p).
  - destruct (IH nodes1 p) as (nodes' & -> & Hok' & Hge & Hcons'); [done|lia|lia|].
    exists nodes'. split_and!; try done.
    + intros i Hi. rewrite Hge, Hw1 by lia. by rewrite decide_False by lia.
    + intros Hcons. apply Hcons'. intros n Hn Hnp. apply Hcons1; [lia|by right|].
      intros. by apply Hcons.
  - exists nodes1. split_and!; try done.
    + intros i Hi. rewrite Hw1 by lia. by rewrite decide_False by lia.
    + intros Hcons n Hn. apply Hcons1; [lia|left; lia|]. intros. by apply Hcons.
Qed.

Lemma root_bound page i :
  page_ok BLCKSZ page → tree_ok BLCKSZ page → 0 ≤ i < NodesPerPage →
  wd (fp_nodes page) i ≤ wd (fp_nodes page) 0.
Proof.
  intros Hok Ht Hi. pose proof sizes. destruct Hi as [Hi0 Hi]. revert Hi. pattern i.
  apply Zlt_0_ind; [|done]. clear i Hi0. intros i IH Hi0 Hi.
  destruct (decide (i = 0)) as [->|]; [lia|].
  pose proof (parentof_bounds i ltac:(lia)) as [Hp Hc].
  specialize (IH (parentof i) Hp ltac:(lia)).
  specialize (Ht (parentof i) ltac:(lia)). unfold node_consistent, leftchild, rightchild in Ht.
  assert (i = 2 * parentof i + 1 ∨ i = 2 * parentof i + 2) as [Hl|Hr] by lia;
    [rewrite <- Hl in Ht|rewrite <- Hr in Ht]; lia.
Qed.

Lemma fsm_set_avail_spec page slot value :
  page_ok BLCKSZ page → 0 ≤ slot < Leaf → is_uint 8 value →
  ∃ b page', fsm_set_avail BLCKSZ page slot value = Ret (b, page') ∧ page_ok BLCKSZ page' ∧
    fp_next_slot page' = fp_next_slot page ∧
    (∀ s, 0 ≤ s → avail BLCKSZ page' s = if decide (s = slot) then value else avail BLCKSZ page s) ∧
    value ≤ wd (fp_nodes page') 0 ∧
    (tree_ok BLCKSZ page → tree_ok BLCKSZ page') ∧ (b = false → page' = page).
Proof.
  intros Hok Hs Hv. pose proof sizes. unfold fsm_set_avail.
  destruct (Z.ltb_spec slot Leaf); [|lia]. cbn [negb].
  rewrite !nodes_get by (done || lia). cbn [mbind outcome_bind].
  destruct (Z.eqb_spec (wd (fp_nodes page) (NonLeaf + slot)) value) as [E|E];
    destruct (Z.leb_spec value (wd (fp_nodes page) 0)) as [L|L]; cbn [andb].
  { exists false, page. split_and!; try done. intros s Hs0. case_decide; [by subst s|done]. }
  all: destruct (nodes_set (fp_nodes page) (NonLeaf + slot) value) as (nodes1 & -> & Hok1 & Hw1);
         [done|lia|done|]; cbn [mbind outcome_bind];
       destruct (propagate_loop_spec (S (Z.to_nat (NonLeaf + slot))) nodes1 (NonLeaf + slot))
         as (nodes2 & -> & Hok2 & Hge & Hcons); [done|lia|lia|]; cbn [mbind outcome_bind];
       rewrite nodes_get by (done || lia); cbn [mbind outcome_bind];
       set (page2 := mkFSMPage (fp_next_slot page) nodes2).
  all: assert (page_ok BLCKSZ page2) as Hokp by done.
  all: assert (∀ s, 0 ≤ s → avail BLCKSZ page2 s =
                 if decide (s = slot) then value else avail BLCKSZ page s) as Hav
       by (intros s Hs0; unfold avail; simpl; rewrite Hge, Hw1 by lia;
           repeat case_decide; try done; lia).
  all: assert (tree_ok BLCKSZ page → tree_ok BLCKSZ page2) as Htree by
       (intros Ht; unfold tree_ok; simpl; apply Hcons; intros n Hn Hne;
        destruct (not_child_of (NonLeaf + slot) n) as [? ?]; [lia|done|];
        specialize (Ht n Hn); unfold node_consistent in *;
        rewrite !Hw1 by (unfold leftchild, rightchild; lia);
        rewrite !decide_False by (done || lia); done).
  all: destruct (Z.ltb_spec (wd nodes2 0) value).
  all: try (exists true, page2; by split_and!).
  all: destruct (fsm_rebuild_page_spec page2 Hokp) as (c & page3 & -> & Hok3 & Ht3 & Hn3 & Ha3 & _);
       cbn [mbind outcome_bind]; exists true, page3; split_and!; try done.
  all: try (intros s Hs0; rewrite Ha3 by done; by apply Hav).
  all: transitivity (avail BLCKSZ page3 slot);
       [rewrite Ha3, Hav, decide_True by (done || lia); lia|apply root_bound; done || lia].
Qed.

Lemma climb_loop_spec nodes minvalue n fuel :
  nodes_ok nodes → minvalue ≤ wd nodes 0 → 0 ≤ n < NodesPerPage → n ≤ Z.of_nat fuel →
  ∃ m, climb_loop fuel nodes minvalue n = Ret m ∧ 0 ≤ m < NodesPerPage ∧ minvalue ≤ wd nodes m ∧
       (1 ≤ n → minvalue ≤ 0 → m = n).
Proof.
  intros Hok Hroot. revert n. induction fuel as [|fuel IH]; intros n Hn Hf; cbn [climb_loop].
  { assert (n = 0) as -> by lia. exists 0. split_and!; try done; lia. }
  destruct (Z.ltb_spec 0 n).
  2: { assert (n = 0) as -> by lia. exists 0. split_and!; try done; lia. }
  rewrite nodes_get by done. cbn [mbind outcome_bind].
  destruct (Z.leb_spec minvalue (wd nodes n)) as [L|L]; [exists n; split_and!; done || lia|].
  pose proof (climb_bounds n ltac:(lia)).
  destruct (IH (parentof (rightneighbor n))) as (m & -> & Hm & Hv & _); [lia..|].
  exists m. split_and!; try done; try lia.
  intros _ Hz. pose proof (wd_uint8 nodes n Hok) as [? _]. lia.
Qed.

Lemma child_ok_spec nodes minvalue c :
  nodes_ok nodes → 0 ≤ c →
  child_ok BLCKSZ nodes minvalue c = Ret ((c <? NodesPerPage) && (minvalue <=? wd nodes c)).
Proof.
  intros Hok Hc. unfold child_ok. destruct (Z.ltb_spec c NodesPerPage); [|done].
  by rewrite nodes_get by done.
Qed.

(** The descent ends at a leaf with enough space, or finds a node that is not
    the maximum of its children. *)
Lemma descend_loop_spec nodes minvalue n fuel :
  nodes_ok nodes → 0 ≤ n < NodesPerPage → minvalue ≤ wd nodes n →
  0 < minvalue ∨ NonLeaf ≤ n → NodesPerPage - n ≤ Z.of_nat fuel →
  ∃ r, descend_loop BLCKSZ fuel nodes minvalue n = Ret r ∧
    match r with
    | Some m => NonLeaf ≤ m < NodesPerPage ∧ minvalue ≤ wd nodes m
    | None => ∃ k, 0 ≤ k < NonLeaf ∧ ¬ node_consistent nodes k
    end.
Proof.
  intros Hok. revert n. induction fuel as [|fuel IH]; intros n Hn Hv Hmin Hf; [lia|].
  cbn [descend_loop]. destruct (Z.ltb_spec n NonLeaf) as [L|L]; [|eexists; split; [done|]; simpl; lia].
  assert (0 ≤ leftchild n ∧ leftchild n + 1 = rightchild n ∧ n < leftchild n) as (? & Hr & ?)
    by (unfold leftchild, rightchild; lia).
  rewrite Hr, !child_ok_spec by (done || lia). cbn [mbind outcome_bind].
  destruct (Z.ltb_spec (leftchild n) NodesPerPage) as [L1|L1];
    destruct (Z.leb_spec minvalue (wd nodes (leftchild n))) as [V1|V1]; cbn [andb];
    try (apply IH; done || lia).
  all: cbn [mbind outcome_bind].
  all: destruct (Z.ltb_spec (rightchild n) NodesPerPage) as [L2|L2];
    destruct (Z.leb_spec minvalue (wd nodes (rightchild n))) as [V2|V2]; cbn [andb];
    try (apply IH; done || lia).
  all: eexists; (split; [done|]); exists n; (split; [lia|]); unfold node_consistent.
  all: destruct Hok as [Hlen _]; rewrite ?(wd_ge nodes (leftchild n)), ?(wd_ge nodes (rightchild n)) by lia; lia.
Qed.

(** The clamped start of the search. *)
Lemma target_bounds t :
  NonLeaf ≤ (if (t <? 0) || (Leaf <=? t) then 0 else t) + NonLeaf < NodesPerPage.
Proof.
  pose proof sizes. destruct (Z.ltb_spec t 0), (Z.leb_spec Leaf t); cbn [orb]; lia.
Qed.

(** What one pass of [fsm_search_avail] returns. *)
Definition found (page : FSMPageData) (minvalue : Z) (adv : bool) (slot : Z)
    (page' : FSMPageData) : Prop :=
  0 ≤ slot < Leaf ∧ minvalue ≤ avail BLCKSZ page slot ∧
  page' = mkFSMPage (slot + (if adv then 1 else 0)) (fp_nodes page).

Lemma search_pass fuel interfere page dirty minvalue adv excl :
  page_ok BLCKSZ page → 0 ≤ minvalue →
  let m := search_avail_loop BLCKSZ (S fuel) interfere page dirty minvalue adv excl in
  (wd (fp_nodes page) 0 < minvalue ∧ m = Ret (-1, page, dirty)) ∨
  (∃ slot page', m = Ret (slot, page', dirty) ∧ found page minvalue adv slot page') ∨
  (minvalue ≤ wd (fp_nodes page) 0 ∧ ¬ tree_ok BLCKSZ page ∧
   m = ('(_, page) ← fsm_rebuild_page BLCKSZ (if excl then page else interfere page);
        search_avail_loop BLCKSZ fuel interfere page true minvalue adv true)).
Proof.
  intros Hok Hmin. pose proof sizes. cbn [search_avail_loop].
  rewrite nodes_get by (done || lia). cbn [mbind outcome_bind].
  destruct (Z.ltb_spec (wd (fp_nodes page) 0) minvalue) as [L|L]; [by left|right].
  pose proof (target_bounds (fp_next_slot page)). set (target := _ + NonLeaf) in *.
  destruct (climb_loop_spec (fp_nodes page) minvalue target (Z.to_nat target))
    as (n & -> & Hn & Hv & Hz); [done|done|lia|lia|]. cbn [mbind outcome_bind].
  destruct (descend_loop_spec (fp_nodes page) minvalue n (length (fp_nodes page)))
    as (r & -> & Hr); [done|done|done| |destruct Hok; lia|].
  { destruct (Z_lt_le_dec 0 minvalue); [by left|right]. rewrite Hz by lia. lia. }
  cbn [mbind outcome_bind]. destruct r as [m|].
  - left. destruct Hr as [Hm Hvm]. eexists _, _. split; [done|].
    rewrite wrap_u_small by (unfold is_uint; change (2 ^ 16) with 65536; lia).
    split_and!; [lia|lia| |done]. unfold avail. by replace (NonLeaf + (m - NonLeaf)) with m by lia.
  - right. destruct Hr as (k & Hk & Hbad). split; [done|]. split; [|done].
    intros Ht. by apply Hbad, Ht.
Qed.

Lemma fsm_search_avail_spec interfere page minvalue adv excl :
  page_ok BLCKSZ page → (∀ p, page_ok BLCKSZ p → page_ok BLCKSZ (interfere p)) → 0 ≤ minvalue →
  ∃ slot page' dirty,
    fsm_search_avail BLCKSZ interfere page minvalue adv excl = Ret (slot, page', dirty) ∧
    page_ok BLCKSZ page' ∧
    (slot = -1 ∧ wd (fp_nodes page') 0 < minvalue ∨
     0 ≤ slot < Leaf ∧ minvalue ≤ avail BLCKSZ page' slot ∧
     fp_next_slot page' = slot + (if adv then 1 else 0)) ∧
    (dirty = true → tree_ok BLCKSZ page') ∧
    (tree_ok BLCKSZ page → dirty = false ∧ fp_nodes page' = fp_nodes page).
Proof.
  intros Hok Hint Hmin. unfold fsm_search_avail.
  destruct (search_pass 1 interfere page false minvalue adv excl Hok Hmin)
    as [[L ->]|[(slot & page' & -> & Hs & Hv & ->)|(L & Hbad & ->)]].
  - exists (-1), page, false. split_and!; try done. by left.
  - eexists _, _, _. split; [done|]. split_and!; try done. by right.
  - destruct (fsm_rebuild_page_spec (if excl then page else interfere page))
      as (c & page1 & -> & Hok1 & Ht1 & _); [destruct excl; auto|]. cbn [mbind outcome_bind].
    destruct (search_pass 0 interfere page1 true minvalue adv true Hok1 Hmin)
      as [[L' ->]|[(slot & page' & -> & Hs & Hv & ->)|(_ & Hbad' & _)]]; [| |done].
    + exists (-1), page1, true. split_and!; try done. by left.
    + eexists _, _, _. split; [done|]. split_and!; try done. by right.
Qed.

(** A search leaves the categories as they are, if nobody else changes them. *)
Lemma fsm_search_avail_leaves interfere page minvalue adv excl slot page' dirty :
  page_ok BLCKSZ page → 0 ≤ minvalue →
  (excl = true ∨ ∀ p, page_ok BLCKSZ p → page_ok BLCKSZ (interfere p) ∧
                      ∀ s, 0 ≤ s → avail BLCKSZ (interfere p) s = avail BLCKSZ p s) →
  fsm_search_avail BLCKSZ interfere page minvalue adv excl = Ret (slot, page', dirty) →
  ∀ s, 0 ≤ s → avail BLCKSZ page' s = avail BLCKSZ page s.
Proof.
  intros Hok Hmin Hint Hrun s Hs. revert Hrun. unfold fsm_search_avail.
  assert (page_ok BLCKSZ (if excl then page else interfere page) ∧
          avail BLCKSZ (if excl then page else interfere page) s = avail BLCKSZ page s) as [Hok0 Ha0].
  { destruct excl; [done|]. destruct Hint as [?|Hint]; [done|].
    destruct (Hint page Hok) as [? Ha]. split; [done|by apply Ha]. }
  destruct (search_pass 1 interfere page false minvalue adv excl Hok Hmin)
    as [[L ->]|[(slot1 & page1 & -> & _ & _ & ->)|(L & Hbad & ->)]]; [by intros [= _ <- _]..|].
  destruct (fsm_rebuild_page_spec _ Hok0) as (c & page1 & -> & Hok1 & Ht1 & _ & Ha1 & _).
  cbn [mbind outcome_bind]. specialize (Ha1 s Hs).
  destruct (search_pass 0 interfere page1 true minvalue adv true Hok1 Hmin)
    as [[L' ->]|[(slot2 & page2 & -> & _ & _ & ->)|(_ & Hbad' & _)]]; [| |done].
  all: intros [= _ <- _]; unfold avail in *; cbn [fp_nodes]; congruence.
Qed.

Lemma truncate_loop_spec n i nodes c :
  nodes_ok nodes → 0 ≤ i → i + Z.of_nat n = NodesPerPage →
  ∃ nodes' c', truncate_loop n i nodes c = Ret (nodes', c') ∧ nodes_ok nodes' ∧
    (∀ j, 0 ≤ j → wd nodes' j = if i <=? j then 0 else wd nodes j) ∧
    (c' = true ↔ c = true ∨ nodes' ≠ nodes).
Proof.
  revert i nodes c. induction n as [|n IH]; intros i nodes c Hok Hi Hn; cbn [truncate_loop].
  { exists nodes, c. split_and!; try done; [|naive_solver]. intros j Hj.
    destruct (Z.leb_spec i j); [|done]. destruct Hok. apply wd_ge. lia. }
  rewrite nodes_get by (done || lia). cbn [mbind outcome_bind].
  destruct (nodes_set nodes i 0) as (nodes1 & -> & Hok1 & Hw1); [done|lia|done|].
  cbn [mbind outcome_bind].
  destruct (IH (i + 1) nodes1 (if negb (wd nodes i =? 0) then true else c))
    as (nodes' & c' & -> & Hok' & Hw' & Hc'); [done|lia|lia|].
  exists nodes', c'. split_and!; try done.
  - intros j Hj. rewrite Hw', Hw1 by done.
    destruct (Z.leb_spec (i + 1) j), (Z.leb_spec i j), (decide (j = i)); try done; lia.
  - rewrite Hc'. destruct (Z.eqb_spec (wd nodes i) 0) as [E|E]; cbn [negb].
    + assert (nodes1 = nodes) as ->; [|done]. apply wd_ext; [destruct Hok, Hok1; lia|].
      intros j Hj. rewrite Hw1 by lia. case_decide; [by subst j|done].
    + split; [|tauto]. intros _. right. intros Heq. apply E. rewrite <- Heq, Hw', Hw1 by done.
      destruct (Z.leb_spec (i + 1) i); [lia|]. by rewrite decide_True.
Qed.

Lemma fsm_truncate_avail_spec page nslots :
  page_ok BLCKSZ page → 0 ≤ nslots < Leaf →
  ∃ c page', fsm_truncate_avail BLCKSZ page nslots = Ret (c, page') ∧ page_ok BLCKSZ page' ∧
    (∀ s, 0 ≤ s → avail BLCKSZ page' s = if nslots <=? s then 0 else avail BLCKSZ page s) ∧
    (tree_ok BLCKSZ page → tree_ok BLCKSZ page') ∧ (c = false → page' = page).
Proof.
  intros Hok Hs. pose proof sizes. unfold fsm_truncate_avail.
  destruct (Z.leb_spec 0 nslots), (Z.ltb_spec nslots Leaf); try lia. cbn [andb negb].
  destruct (truncate_loop_spec (Z.to_nat (NodesPerPage - (NonLeaf + nslots))) (NonLeaf + nslots)
              (fp_nodes page) false) as (nodes & c & -> & Hokn & Hw & Hc); [done|lia|lia|].
  cbn [mbind outcome_bind]. set (page1 := mkFSMPage _ nodes).
  assert (∀ s, 0 ≤ s → avail BLCKSZ page1 s = if nslots <=? s then 0 else avail BLCKSZ page s) as Hav.
  { intros s Hs0. unfold avail. simpl. rewrite Hw by lia.
    destruct (Z.leb_spec (NonLeaf + nslots) (NonLeaf + s)), (Z.leb_spec nslots s); try done; lia. }
  destruct c.
  - destruct (fsm_rebuild_page_spec page1 Hokn) as (c & page2 & -> & Hok2 & Ht2 & _ & Ha2 & _).
    cbn [mbind outcome_bind]. exists true, page2. split_and!; try done.
    intros s Hs0. rewrite Ha2 by done. by apply Hav.
  - assert (nodes = fp_nodes page) as ->.
    { destruct (decide (nodes = fp_nodes page)) as [|Hne]; [done|]. naive_solver. }
    assert (page1 = page) as -> by (unfold page1; by destruct page).
    exists false, page. by split_and!.
Qed.

(** The root is the maximum of the leaves. *)
Lemma root_max page :
  page_ok BLCKSZ page → tree_ok BLCKSZ page →
  (∀ s, 0 ≤ s < Leaf → avail BLCKSZ page s ≤ wd (fp_nodes page) 0) ∧
  (0 < wd (fp_nodes page) 0 → ∃ s, 0 ≤ s < Leaf ∧ avail BLCKSZ page s = wd (fp_nodes page) 0).
Proof.
  intros Hok Ht. pose proof sizes. split.
  - intros s Hs. apply root_bound; done || lia.
  - intros Hpos.
    destruct (descend_loop_spec (fp_nodes page) (wd (fp_nodes page) 0) 0 (length (fp_nodes page)))
      as (r & _ & Hr); [done|lia|lia|by left|destruct Hok; lia|].
    destruct r as [m|]; [|destruct Hr as (k & Hk & Hbad); by destruct Hbad; apply Ht].
    exists (m - NonLeaf). destruct Hr as [Hm Hv]. split; [lia|]. unfold avail.
    replace (NonLeaf + (m - NonLeaf)) with m by lia.
    pose proof (root_bound page m Hok Ht ltac:(lia)). lia.
Qed.
End lemmas.

(** ** Properties *)

(** A 64-byte page for the witnesses: 31 upper nodes and 5 leaves, with the
    leaf values 3, 0, 7, 0, 2 and all upper nodes zero (a torn page). *)
Definition torn_page : FSMPageData :=
  mkFSMPage 0 (replicate 31 0 ++ [3; 0; 7; 0; 2]).
Lemma blcksz_64 : blcksz_ok 64.
Proof. by exists 6. Qed.
Lemma torn_page_ok : page_ok 64 torn_page.
Proof. split; [done|]. repeat constructor; done. Qed.

(** [fsm_rebuild_page] makes every upper node the maximum of its children
    from any array of bytes, keeps the leaves and the next-slot hint, and
    reports whether it modified the page. *)
Theorem fsm_rebuild_page_correct (BLCKSZ : Z) (page : FSMPageData) :
  blcksz_ok BLCKSZ → page_ok BLCKSZ page →
  ∃ c page', fsm_rebuild_page BLCKSZ page = Ret (c, page') ∧ page_ok BLCKSZ page' ∧
    tree_ok BLCKSZ page' ∧ fp_next_slot page' = fp_next_slot page ∧
    (∀ s, 0 ≤ s → avail BLCKSZ page' s = avail BLCKSZ page s) ∧
    (c = true ↔ page' ≠ page).
Proof. intros. by apply fsm_rebuild_page_spec. Qed.

Lemma fsm_rebuild_page_correct_witness :
  ∃ c page', fsm_rebuild_page 64 torn_page = Ret (c, page') ∧ wd (fp_nodes page') 0 = 7.
Proof.
  destruct (fsm_rebuild_page_correct 64 torn_page blcksz_64 torn_page_ok)
    as (c & page' & Hrun & _).
  exists c, page'. split; [exact Hrun|]. vm_compute in Hrun. injection Hrun as <- <-. reflexivity.
Defined.

(** C39: [fsm_set_avail] records the new category of its slot and of no other
    slot, keeps a consistent tree consistent although it stops climbing early,
    leaves a root that is at least the new value even on a corrupt page, and
    reports [false] only when it changed nothing. *)
Theorem fsm_set_avail_correct (BLCKSZ : Z) (page : FSMPageData) (slot value : Z) :
  blcksz_ok BLCKSZ → page_ok BLCKSZ page → 0 ≤ slot < LeafNodesPerPage BLCKSZ →
  is_uint 8 value →
  ∃ b page', fsm_set_avail BLCKSZ page slot value = Ret (b, page') ∧ page_ok BLCKSZ page' ∧
    fp_next_slot page' = fp_next_slot page ∧
    (∀ s, 0 ≤ s < LeafNodesPerPage BLCKSZ →
       fsm_get_avail BLCKSZ page' s = Ret (if decide (s = slot) then value else avail BLCKSZ page s)) ∧
    value ≤ wd (fp_nodes page') 0 ∧
    (tree_ok BLCKSZ page → tree_ok BLCKSZ page') ∧ (b = false → page' = page).
Proof.
  intros HB Hok Hs Hv. pose proof (sizes BLCKSZ HB).
  destruct (fsm_set_avail_spec BLCKSZ HB page slot value Hok Hs Hv)
    as (b & page' & Hrun & Hok' & Hn & Hav & Hroot & Ht & Hb).
  exists b, page'. split_and!; try done. intros s Hsl.
  rewrite <- Hav by lia. unfold fsm_get_avail.
  destruct (Z.ltb_spec s (LeafNodesPerPage BLCKSZ)); [|lia]. cbn [negb].
  apply (nodes_get BLCKSZ); done || lia.
Qed.

Lemma fsm_set_avail_correct_witness :
  ∃ b page', fsm_set_avail 64 torn_page 1 9 = Ret (b, page') ∧ wd (fp_nodes page') 0 = 9.
Proof.
  destruct (fsm_set_avail_correct 64 torn_page 1 9 blcksz_64 torn_page_ok)
    as (b & page' & Hrun & _); [done|done|].
  exists b, page'. split; [exact Hrun|]. vm_compute in Hrun. injection Hrun as <- <-. reflexivity.
Defined.

(** [fsm_search_avail] terminates with at most one restart on every page,
    torn or not, whatever other backends write to the page while the lock is
    upgraded: it returns a slot that has the requested category on the resulting
    page, or -1 with a root below the request; a repaired page is marked dirty
    and consistent, and on a consistent page it changes nothing but the hint. *)
Theorem fsm_search_avail_total (BLCKSZ : Z) (interfere : FSMPageData → FSMPageData)
    (page : FSMPageData) (minvalue : Z) (adv excl : bool) :
  blcksz_ok BLCKSZ → page_ok BLCKSZ page →
  (∀ p, page_ok BLCKSZ p → page_ok BLCKSZ (interfere p)) → 0 ≤ minvalue →
  ∃ slot page' dirty,
    fsm_search_avail BLCKSZ interfere page minvalue adv excl = Ret (slot, page', dirty) ∧
    page_ok BLCKSZ page' ∧
    (slot = -1 ∧ wd (fp_nodes page') 0 < minvalue ∨
     0 ≤ slot < LeafNodesPerPage BLCKSZ ∧ minvalue ≤ avail BLCKSZ page' slot ∧
     fp_next_slot page' = slot + (if adv then 1 else 0)) ∧
    (dirty = true → tree_ok BLCKSZ page') ∧
    (tree_ok BLCKSZ page → dirty = false ∧ fp_nodes page' = fp_nodes page).
Proof. intros. by apply fsm_search_avail_spec. Qed.

Lemma fsm_search_avail_total_witness :
  ∃ slot page' dirty,
    fsm_search_avail 64 id (mkFSMPage 3 (7 :: replicate 30 0 ++ [3; 0; 7; 0; 2])) 4 true false
    = Ret (slot, page', dirty) ∧ slot = 2 ∧ dirty = true.
Proof.
  destruct (fsm_search_avail_total 64 id (mkFSMPage 3 (7 :: replicate 30 0 ++ [3; 0; 7; 0; 2])) 4
              true false blcksz_64) as (slot & page' & dirty & Hrun & _).
  - split; [done|]. repeat constructor; done.
  - intros p Hp. exact Hp.
  - done.
  - exists slot, page', dirty. split; [exact Hrun|]. vm_compute in Hrun.
    injection Hrun as <- <- <-. split; reflexivity.
Defined.

(** On a consistent page the search is complete: it fails exactly when no
    slot has the requested category, and [fsm_get_max_avail] is the maximum of
    the recorded categories. *)
Theorem fsm_search_avail_complete (BLCKSZ : Z) (page : FSMPageData) (minvalue : Z) (adv excl : bool) :
  blcksz_ok BLCKSZ → page_ok BLCKSZ page → tree_ok BLCKSZ page → 0 < minvalue →
  ∃ slot page' root,
    fsm_search_avail BLCKSZ id page minvalue adv excl = Ret (slot, page', false) ∧
    (slot = -1 ↔ ∀ s, 0 ≤ s < LeafNodesPerPage BLCKSZ → avail BLCKSZ page s < minvalue) ∧
    fsm_get_max_avail page = Ret root ∧
    (∀ s, 0 ≤ s < LeafNodesPerPage BLCKSZ → avail BLCKSZ page s ≤ root) ∧
    (0 < root → ∃ s, 0 ≤ s < LeafNodesPerPage BLCKSZ ∧ avail BLCKSZ page s = root).
Proof.
  intros HB Hok Ht Hmin. pose proof (sizes BLCKSZ HB).
  destruct (root_max BLCKSZ HB page Hok Ht) as [Hle Hex].
  destruct (fsm_search_avail_spec BLCKSZ HB id page minvalue adv excl)
    as (slot & page' & dirty & Hrun & Hok' & Hcase & _ & Hkeep); [done..|lia|].
  destruct (Hkeep Ht) as [-> Hnodes].
  exists slot, page', (wd (fp_nodes page) 0). split_and!; try done.
  - unfold avail in Hcase. rewrite Hnodes in Hcase.
    destruct Hcase as [[-> Hroot]|(Hs & Hv & _)]; split; try done.
    + intros _ s Hs. specialize (Hle s Hs). lia.
    + lia.
    + intros Hall. specialize (Hall slot Hs). unfold avail in Hall. lia.
  - apply (nodes_get BLCKSZ); done || lia.
Qed.

Lemma fsm_search_avail_complete_witness :
  ∃ slot page' root,
    fsm_search_avail 64 id (mkFSMPage 0 (replicate 36 0)) 4 true true = Ret (slot, page', false) ∧
    fsm_get_max_avail (mkFSMPage 0 (replicate 36 0)) = Ret root ∧ slot = -1.
Proof.
  destruct (fsm_search_avail_complete 64 (mkFSMPage 0 (replicate 36 0)) 4 true true blcksz_64)
    as (slot & page' & root & Hrun & _ & Hmax & _).
  - split; [done|]. repeat constructor; done.
  - intros n Hn. unfold node_consistent. cbn [fp_nodes]. by rewrite !wd_replicate.
  - done.
  - exists slot, page', root. split; [exact Hrun|]. split; [exact Hmax|].
    vm_compute in Hrun. injection Hrun as <- _. reflexivity.
Defined.

(** [fsm_truncate_avail] clears exactly the slots from [nslots] on, keeps a
    consistent tree consistent and reports [false] only for an unchanged page. *)
Theorem fsm_truncate_avail_correct (BLCKSZ : Z) (page : FSMPageData) (nslots : Z) :
  blcksz_ok BLCKSZ → page_ok BLCKSZ page → 0 ≤ nslots < LeafNodesPerPage BLCKSZ →
  ∃ c page', fsm_truncate_avail BLCKSZ page nslots = Ret (c, page') ∧ page_ok BLCKSZ page' ∧
    (∀ s, 0 ≤ s → avail BLCKSZ page' s = if nslots <=? s then 0 else avail BLCKSZ page s) ∧
    (tree_ok BLCKSZ page → tree_ok BLCKSZ page') ∧ (c = false → page' = page).
Proof. intros. by apply fsm_truncate_avail_spec. Qed.

Lemma fsm_truncate_avail_correct_witness :
  ∃ c page', fsm_truncate_avail 64 torn_page 2 = Ret (c, page') ∧ wd (fp_nodes page') 0 = 3.
Proof.
  destruct (fsm_truncate_avail_correct 64 torn_page 2 blcksz_64 torn_page_ok)
    as (c & page' & Hrun & _); [done|].
  exists c, page'. split; [exact Hrun|]. vm_compute in Hrun. injection Hrun as <- <-. reflexivity.
Defined.
