(* ===== verification/Xid.v ===== *)
(** * Transaction identifiers

    The 32-bit transaction ids of [access/transam.h] and their modulo-2^31
    order ([TransactionIdPrecedes] and its relatives in [transam.c]), and the
    log positions of [access/xlogdefs.h].

    A normal id is the low half of an unbounded transaction counter (the id
    with its epoch).  The specification of the order is the order of those
    counters: the comparison of the 32-bit ids agrees with it as long as the
    two counters are within 2^31 of each other. *)

From S2P Require Import Prelude.

(** ** Data *)

Abbreviation TransactionId := Z.

Definition InvalidTransactionId : TransactionId := 0.
Definition BootstrapTransactionId : TransactionId := 1.
Definition FrozenTransactionId : TransactionId := 2.
Definition FirstNormalTransactionId : TransactionId := 3.
Definition MaxTransactionId : TransactionId := 0xFFFFFFFF.

Definition TransactionIdIsValid (xid : TransactionId) : bool := negb (xid =? InvalidTransactionId).
Definition TransactionIdIsNormal (xid : TransactionId) : bool := FirstNormalTransactionId <=? xid.
Definition TransactionIdEquals (id1 id2 : TransactionId) : bool := id1 =? id2.

(** [TransactionIdAdvance] and [TransactionIdRetreat], as functions from the
    old to the new value of the variable.  The [do ... while] of the second
    runs at most four times from a 32-bit value. *)
Definition TransactionIdAdvance (dest : TransactionId) : TransactionId :=
  let dest := uint32_of (dest + 1) in
  if dest <? FirstNormalTransactionId then FirstNormalTransactionId else dest.

Fixpoint retreat_loop (fuel : nat) (dest : TransactionId) : outcome TransactionId :=
  match fuel with
  | O => Timeout
  | S fuel =>
      let dest := uint32_of (dest - 1) in
      if dest <? FirstNormalTransactionId then retreat_loop fuel dest else Ret dest
  end.
Definition TransactionIdRetreat (dest : TransactionId) : outcome TransactionId :=
  retreat_loop 4 dest.

(** ** Comparison *)

Definition TransactionIdPrecedes (id1 id2 : TransactionId) : bool :=
  if negb (TransactionIdIsNormal id1) || negb (TransactionIdIsNormal id2) then id1 <? id2
  else
    let diff := int32_of (uint32_of (id1 - id2)) in
    diff <? 0.

Definition TransactionIdPrecedesOrEquals (id1 id2 : TransactionId) : bool :=
  if negb (TransactionIdIsNormal id1) || negb (TransactionIdIsNormal id2) then id1 <=? id2
  else
    let diff := int32_of (uint32_of (id1 - id2)) in
    diff <=? 0.

Definition TransactionIdFollows (id1 id2 : TransactionId) : bool :=
  if negb (TransactionIdIsNormal id1) || negb (TransactionIdIsNormal id2) then id1 >? id2
  else
    let diff := int32_of (uint32_of (id1 - id2)) in
    diff >? 0.

Definition TransactionIdFollowsOrEquals (id1 id2 : TransactionId) : bool :=
  if negb (TransactionIdIsNormal id1) || negb (TransactionIdIsNormal id2) then id1 >=? id2
  else
    let diff := int32_of (uint32_of (id1 - id2)) in
    diff >=? 0.

(** The scan of [xids] runs from its end to its beginning. *)
Fixpoint latest_loop (nxids : nat) (xids : list TransactionId) (result : TransactionId)
    : outcome TransactionId :=
  match nxids with
  | O => Ret result
  | S nxids =>
      x ← arr_get xids (Z.of_nat nxids);
      latest_loop nxids xids (if TransactionIdPrecedes result x then x else result)
  end.

Definition TransactionIdLatest (mainxid : TransactionId) (nxids : Z) (xids : list TransactionId)
    : outcome TransactionId :=
  latest_loop (Z.to_nat nxids) xids mainxid.

(** ** Log positions *)

Record XLogRecPtr := mkRecPtr { xlogid : Z; xrecoff : Z }.
#[global] Instance XLogRecPtr_eq_dec : EqDecision XLogRecPtr.
Proof. solve_decision. Defined.

Definition InvalidXLogRecPtr : XLogRecPtr := mkRecPtr 0 0.
Definition XLogRecPtrIsInvalid (r : XLogRecPtr) : bool := xrecoff r =? 0.
Definition XLByteLT (a b : XLogRecPtr) : bool :=
  (xlogid a <? xlogid b) || ((xlogid a =? xlogid b) && (xrecoff a <? xrecoff b)).
Definition XLByteLE (a b : XLogRecPtr) : bool :=
  (xlogid a <? xlogid b) || ((xlogid a =? xlogid b) && (xrecoff a <=? xrecoff b)).

(** ** The order of the unbounded counters *)

(** [a] is a counter whose low 32 bits are a normal transaction id. *)
Definition full_xid (a : Z) : Prop := TransactionIdIsNormal (uint32_of a) = true.

(** Two counters closer than half the id space. *)
Definition near (a b : Z) : Prop := - 2 ^ 31 < a - b < 2 ^ 31.

Lemma near_refl a : near a a.
Proof. unfold near. lia. Qed.
Lemma near_sym a b : near a b → near b a.
Proof. unfold near. lia. Qed.
#[export] Hint Resolve near_refl near_sym : pg.

Lemma full_diff a b :
  - 2 ^ 31 ≤ a - b < 2 ^ 31 → int32_of (uint32_of (uint32_of a - uint32_of b)) = a - b.
Proof.
  intros H. rewrite wrap_s_mod by lia.
  rewrite <- (wrap_s_mod 32 (uint32_of a - uint32_of b)) by lia.
  assert (uint32_of (uint32_of a - uint32_of b) = uint32_of (a - b)) as ->.
  { unfold wrap_u. by rewrite <- Zminus_mod. }
  rewrite wrap_s_mod by lia. apply wrap_s_small; [lia|]. unfold is_sint. simpl. lia.
Qed.

Ltac full_order :=
  intros Ha Hb H; unfold TransactionIdPrecedes, TransactionIdPrecedesOrEquals,
    TransactionIdFollows, TransactionIdFollowsOrEquals, full_xid in *;
  rewrite Ha, Hb; cbn [negb orb]; rewrite full_diff by (unfold near in *; lia).

Lemma full_precedes a b :
  full_xid a → full_xid b → near a b → TransactionIdPrecedes (uint32_of a) (uint32_of b) = (a <? b).
Proof. full_order. destruct (Z.ltb_spec (a - b) 0), (Z.ltb_spec a b); lia. Qed.
Lemma full_precedes_or_equals a b :
  full_xid a → full_xid b → near a b →
  TransactionIdPrecedesOrEquals (uint32_of a) (uint32_of b) = (a <=? b).
Proof. full_order. destruct (Z.leb_spec (a - b) 0), (Z.leb_spec a b); lia. Qed.
Lemma full_follows a b :
  full_xid a → full_xid b → near a b → TransactionIdFollows (uint32_of a) (uint32_of b) = (a >? b).
Proof. full_order. rewrite !Z.gtb_ltb. destruct (Z.ltb_spec 0 (a - b)), (Z.ltb_spec b a); lia. Qed.
Lemma full_follows_or_equals a b :
  full_xid a → full_xid b → near a b →
  TransactionIdFollowsOrEquals (uint32_of a) (uint32_of b) = (a >=? b).
Proof. full_order. rewrite !Z.geb_leb. destruct (Z.leb_spec 0 (a - b)), (Z.leb_spec b a); lia. Qed.

Lemma uint32_full_eq a b : near a b → uint32_of a = uint32_of b → a = b.
Proof.
  intros Hn He. pose proof (full_diff a b) as Hd. unfold near in Hn.
  rewrite He, Z.sub_diag in Hd. specialize (Hd ltac:(lia)). change (0 = a - b) in Hd. lia.
Qed.

(** [FollowsOrEquals] is the negation of [Precedes]. *)
Lemma follows_or_equals_not_precedes id1 id2 :
  TransactionIdFollowsOrEquals id1 id2 = negb (TransactionIdPrecedes id1 id2).
Proof.
  unfold TransactionIdFollowsOrEquals, TransactionIdPrecedes.
  destruct (_ || _); rewrite Z.geb_leb, Z.leb_antisym; done.
Qed.

(** On the unbounded transaction counters, the four comparisons of 32-bit
    ids decide the order of the counters whenever the two counters are less than
    2^31 apart, wherever the 32-bit ids have wrapped around in between; a
    permanent id precedes every normal one; and at distance exactly 2^31 each of
    the two ids precedes the other, so the bound cannot be improved. *)
Theorem TransactionIdPrecedes_full_order a b :
  full_xid a → full_xid b →
  (near a b →
     TransactionIdPrecedes (uint32_of a) (uint32_of b) = (a <? b) ∧
     TransactionIdPrecedesOrEquals (uint32_of a) (uint32_of b) = (a <=? b) ∧
     TransactionIdFollows (uint32_of a) (uint32_of b) = (a >? b) ∧
     TransactionIdFollowsOrEquals (uint32_of a) (uint32_of b) = (a >=? b)) ∧
  (∀ p, 0 ≤ p < FirstNormalTransactionId → TransactionIdPrecedes p (uint32_of a) = true ∧
                                         TransactionIdPrecedes (uint32_of a) p = false) ∧
  (a - b = 2 ^ 31 →
     TransactionIdPrecedes (uint32_of a) (uint32_of b) = true ∧
     TransactionIdPrecedes (uint32_of b) (uint32_of a) = true).
Proof.
  intros Ha Hb. split_and!.
  - intros H. split_and!; auto using full_precedes, full_precedes_or_equals, full_follows,
      full_follows_or_equals.
  - intros p Hp. unfold full_xid, TransactionIdIsNormal, TransactionIdPrecedes in *.
    apply Z.leb_le in Ha. unfold TransactionIdIsNormal, FirstNormalTransactionId in *.
    rewrite (proj2 (Z.leb_gt 3 p)) by lia. rewrite orb_true_r. simpl.
    rewrite Z.ltb_lt, Z.ltb_ge. lia.
  - intros H. unfold TransactionIdPrecedes, full_xid in *. rewrite Ha, Hb. cbn [negb orb].
    rewrite (full_diff b a) by lia.
    replace a with (b + 2 ^ 31) by lia.
    assert (uint32_of (uint32_of (b + 2 ^ 31) - uint32_of b) = 2 ^ 31) as ->.
    { unfold wrap_u. rewrite <- Zminus_mod. replace (b + 2 ^ 31 - b) with (2 ^ 31) by lia. done. }
    split; [done|]. apply Z.ltb_lt. lia.
Qed.

Lemma TransactionIdPrecedes_full_order_witness :
  full_xid (2 ^ 32 + 5) ∧ full_xid (2 ^ 32 - 7) ∧ near (2 ^ 32 - 7) (2 ^ 32 + 5) ∧
  TransactionIdPrecedes (uint32_of (2 ^ 32 - 7)) (uint32_of (2 ^ 32 + 5)) = true.
Proof.
  do 2 (split; [reflexivity|]). split; [by vm_compute|].
  destruct (TransactionIdPrecedes_full_order (2 ^ 32 - 7) (2 ^ 32 + 5) eq_refl eq_refl) as [H _].
  apply H. by vm_compute.
Defined.

(** ** The latest of several ids *)

(** The counters of a transaction and its children lie in one window. *)
Definition window (base : Z) (a : Z) : Prop := full_xid a ∧ base ≤ a < base + 2 ^ 31.

Lemma window_near base a b : window base a → window base b → near a b.
Proof. unfold window, near. lia. Qed.

Lemma latest_loop_spec base n xs m :
  window base m → Forall (window base) xs → (n ≤ length xs)%nat →
  latest_loop n (uint32_of <$> xs) (uint32_of m) =
  Ret (uint32_of (foldr Z.max m (take n xs))).
Proof.
  intros Hm Hxs. revert m Hm. induction n as [|n IH]; intros m Hm Hn; [done|].
  destruct (lookup_lt_is_Some_2 xs n) as [x Hx]; [lia|].
  rewrite (take_S_r _ _ _ Hx). cbn [latest_loop].
  assert (arr_get (uint32_of <$> xs) (Z.of_nat n) = Ret (uint32_of x)) as ->.
  { apply arr_get_Some. split; [lia|]. by rewrite Nat2Z.id, list_lookup_fmap, Hx. }
  cbn [mbind outcome_bind].
  assert (Hwx : window base x) by (eapply (Forall_lookup_1 _ _ _ _ Hxs Hx)).
  rewrite full_precedes by (try apply Hm; try apply Hwx; by eapply window_near).
  replace (if m <? x then uint32_of x else uint32_of m) with (uint32_of (Z.max x m)).
  2:{ destruct (Z.ltb_spec m x); f_equal; lia. }
  rewrite IH; [|by destruct (Z.max_spec x m) as [[_ ->]|[_ ->]]|lia].
  by rewrite foldr_app.
Qed.

(** [TransactionIdLatest] returns the id of the largest counter among a
    transaction and its children, when they all lie within half the id space. *)
Theorem TransactionIdLatest_max base main xs :
  window base main → Forall (window base) xs →
  TransactionIdLatest (uint32_of main) (Z.of_nat (length xs)) (uint32_of <$> xs) =
    Ret (uint32_of (foldr Z.max main xs)) ∧
  main ≤ foldr Z.max main xs ∧ Forall (λ x, x ≤ foldr Z.max main xs) xs.
Proof.
  intros Hm Hxs. unfold TransactionIdLatest. rewrite Nat2Z.id. split_and!.
  - rewrite (latest_loop_spec base) by done. by rewrite firstn_all.
  - clear Hxs. induction xs; simpl; lia.
  - clear Hxs. induction xs as [|x xs IH]; constructor; simpl; [lia|].
    eapply Forall_impl; [exact IH|]. simpl. lia.
Qed.

Lemma TransactionIdLatest_max_witness :
  TransactionIdLatest (uint32_of (2 ^ 32 - 2)) 2 [uint32_of (2 ^ 32 - 1); uint32_of (2 ^ 32 + 4)] =
  Ret 4.
Proof.
  destruct (TransactionIdLatest_max (2 ^ 32 - 10) (2 ^ 32 - 2) [2 ^ 32 - 1; 2 ^ 32 + 4]) as [H _].
  - split; [reflexivity|]. lia.
  - repeat (apply List.Forall_cons; [split; [reflexivity|lia]|]). apply List.Forall_nil.
  - exact H.
Defined.

(** [TransactionIdRetreat] undoes [TransactionIdAdvance] on normal ids. *)
Lemma TransactionIdRetreat_Advance x :
  is_uint 32 x → TransactionIdIsNormal x = true →
  TransactionIdRetreat (TransactionIdAdvance x) = Ret x ∧
  TransactionIdIsNormal (TransactionIdAdvance x) = true.
Proof.
  intros Hx Hn. apply Z.leb_le in Hn. unfold FirstNormalTransactionId in Hn.
  unfold TransactionIdAdvance, TransactionIdRetreat, TransactionIdIsNormal, FirstNormalTransactionId.
  destruct (decide (x = 2 ^ 32 - 1)) as [->|Hne]; [by vm_compute|].
  unfold is_uint in Hx.
  rewrite (wrap_u_small 32 (x + 1)) by (unfold is_uint; lia).
  rewrite (proj2 (Z.ltb_ge (x + 1) 3)) by lia. cbn [retreat_loop].
  replace (x + 1 - 1) with x by lia. rewrite wrap_u_small by done.
  unfold FirstNormalTransactionId. rewrite (proj2 (Z.ltb_ge x 3)) by lia.
  split; [done|]. apply Z.leb_le. lia.
Qed.

(** [XLByteLE] is a total order. *)
Definition LSN_le (a b : XLogRecPtr) : Prop := XLByteLE a b = true.
Lemma LSN_le_spec a b :
  LSN_le a b ↔ xlogid a < xlogid b ∨ (xlogid a = xlogid b ∧ xrecoff a ≤ xrecoff b).
Proof. unfold LSN_le, XLByteLE. rewrite orb_true_iff, andb_true_iff, Z.ltb_lt, Z.eqb_eq, Z.leb_le. done. Qed.
#[global] Instance LSN_le_preorder : PreOrder LSN_le.
Proof. split; [intros a|intros a b c]; rewrite !LSN_le_spec; lia. Qed.
Lemma XLByteLT_false a b : XLByteLT a b = false → LSN_le b a.
Proof.
  unfold XLByteLT. rewrite orb_false_iff, andb_false_iff, Z.ltb_ge, Z.eqb_neq, Z.ltb_ge.
  rewrite LSN_le_spec. lia.
Qed.
Lemma XLByteLT_true a b : XLByteLT a b = true → LSN_le a b.
Proof.
  unfold XLByteLT. rewrite orb_true_iff, andb_true_iff, Z.ltb_lt, Z.eqb_eq, Z.ltb_lt.
  rewrite LSN_le_spec. lia.
Qed.

(** ** Successors *)

(** The counter after [a]: the three permanent ids are skipped. *)
Definition next_counter (a : Z) : Z := if uint32_of (a + 1) =? 0 then a + 4 else a + 1.

Lemma next_counter_spec a :
  full_xid a →
  TransactionIdAdvance (uint32_of a) = uint32_of (next_counter a) ∧ full_xid (next_counter a) ∧
  a < next_counter a ≤ a + 4 ∧ ∀ b, full_xid b → a < b → next_counter a ≤ b.
Proof.
  unfold full_xid, TransactionIdIsNormal, TransactionIdAdvance, next_counter, FirstNormalTransactionId, wrap_u.
  change (2 ^ 32) with 4294967296. intros Ha%Z.leb_le.
  pose proof (Z.div_mod a 4294967296 ltac:(lia)) as Hd.
  pose proof (Z.mod_pos_bound a 4294967296 ltac:(lia)) as Hm.
  set (q := a / 4294967296) in *. set (r := a mod 4294967296) in *.
  assert (∀ k, 0 ≤ r + k < 4294967296 → (a + k) mod 4294967296 = r + k) as Hmod.
  { intros k Hk. rewrite Hd, <- Z.add_assoc. by apply mod_mul_add. }
  destruct (Z.eq_dec r 4294967295) as [Hr|Hr].
  - assert (∀ k, 0 ≤ k < 4294967296 → (a + 1 + k) mod 4294967296 = k) as Hw.
    { intros k Hk. replace (a + 1 + k) with (4294967296 * (q + 1) + k) by lia. by apply mod_mul_add. }
    pose proof (Hw 0 ltac:(lia)) as Hw0. rewrite Z.add_0_r in Hw0. rewrite Hw0. cbn [Z.eqb].
    replace (a + 4) with (a + 1 + 3) by lia. rewrite (Hw 3) by lia. rewrite Hr.
    split; [done|]. split; [done|]. split; [lia|]. intros b Hb%Z.leb_le Hab.
    destruct (Z_lt_le_dec b (a + 4)) as [Hlt|]; [|lia].
    replace b with (a + 1 + (b - a - 1)) in Hb by lia. rewrite Hw in Hb by lia. lia.
  - rewrite (Hmod 1) by lia. rewrite (proj2 (Z.eqb_neq (r + 1) 0)) by lia. rewrite (Hmod 1) by lia.
    rewrite (Z.mod_small (r + 1)) by lia. rewrite (proj2 (Z.ltb_ge _ 3)) by lia.
    split; [done|]. split; [apply Z.leb_le; lia|]. split; [lia|]. intros. lia.
Qed.

(** The counters from [a] to [b]. *)
Fixpoint upto (fuel : nat) (a b : Z) : list Z :=
  match fuel with
  | O => []
  | S fuel => if a <=? b then a :: upto fuel (next_counter a) b else []
  end.
Definition counters (a b : Z) : list Z := upto (Z.to_nat (b - a + 1)) a b.

Lemma upto_spec fuel a b :
  full_xid a → b - a + 1 ≤ Z.of_nat fuel →
  StronglySorted Z.lt (upto fuel a b) ∧ (∀ x, x ∈ upto fuel a b ↔ full_xid x ∧ a ≤ x ≤ b).
Proof.
  revert a. induction fuel as [|fuel IH]; intros a Ha Hf; cbn [upto].
  { split; [constructor|]. intros x. rewrite elem_of_nil. lia. }
  destruct (next_counter_spec a Ha) as (_ & Hn & Hlt & Hmin).
  destruct (Z.leb_spec a b) as [L|L].
  2: { split; [constructor|]. intros x. rewrite elem_of_nil. lia. }
  destruct (IH (next_counter a) Hn ltac:(lia)) as [Hs Hin]. split.
  - constructor; [done|]. apply Forall_forall. intros x Hx. apply Hin in Hx. lia.
  - intros x. rewrite elem_of_cons, Hin. split.
    + intros [->|(Hx & Hb)]; [split; [done|lia]|]. split; [done|lia].
    + intros [Hx Hb]. destruct (Z.eq_dec x a) as [->|Hne]; [by left|right].
      specialize (Hmin x Hx). split; [done|lia].
Qed.

(** Without wraparound between them the counters are consecutive. *)
Lemma counters_length a b :
  full_xid a → a ≤ b → uint32_of a + (b - a) < 2 ^ 32 → Z.of_nat (length (counters a b)) = b - a + 1.
Proof.
  intros Ha Hab Hw. unfold counters. remember (Z.to_nat (b - a + 1)) as n eqn:Hn.
  revert a Ha Hab Hw Hn. induction n as [|n IH]; intros a Ha Hab Hw Hn; [lia|].
  cbn [upto]. rewrite (proj2 (Z.leb_le a b)) by lia. cbn [length].
  destruct (Z.eq_dec a b) as [->|Hne].
  { replace n with 0%nat by lia. cbn. lia. }
  assert (uint32_of (a + 1) = uint32_of a + 1) as Hs.
  { pose proof (wrap_u_bound 32 a ltac:(lia)) as [Hb0 _]. rewrite <- (wrap_u_add_l 32 a 1).
    apply wrap_u_small. unfold is_uint. lia. }
  assert (next_counter a = a + 1) as Hnext.
  { unfold next_counter. pose proof (wrap_u_bound 32 a ltac:(lia)) as [Hb0 _].
    by rewrite Hs, (proj2 (Z.eqb_neq _ 0)) by lia. }
  destruct (next_counter_spec a Ha) as (_ & Hfull & _). rewrite Hnext in *.
  specialize (IH (a + 1) Hfull ltac:(lia) ltac:(lia) ltac:(lia)). lia.
Qed.
