(* ===== verification/Clog.v ===== *)
(** * The commit log

    [backend/access/transam/clog.c]: two status bits per transaction, four
    transactions per byte, packed in pages that the SLRU buffer manager keeps in
    shared memory, with one log position per group of 32 transactions.

    The shared state is the map from page numbers to pages ([page_buffer] and
    [group_lsn] of the slot that holds the page; a slot is named by the number of
    the page it holds).  A critical section under [CLogControlLock] is atomic for
    the other backends; the page table is recorded in [published] at each
    [LWLockRelease], so [published] lists every state that another backend can
    observe while an operation runs. *)

From S2P Require Import Prelude Xid.

(** ** Data *)

Definition TRANSACTION_STATUS_IN_PROGRESS : Z := 0x00.
Definition TRANSACTION_STATUS_COMMITTED : Z := 0x01.
Definition TRANSACTION_STATUS_ABORTED : Z := 0x02.
Definition TRANSACTION_STATUS_SUB_COMMITTED : Z := 0x03.

(** A page of the log in its buffer; [page_buffer] is an array of [char]. *)
Record ClogPage := mkPage {
  page_buffer : list Z;
  group_lsn : list XLogRecPtr;
  page_dirty : bool
}.

Abbreviation pagetable := (gmap Z ClogPage).

Record Clog := mkClog {
  pages : pagetable;
  latest_page_number : Z;
  InRecovery : bool;
  published : list pagetable
}.

(** [Assert], which terminates the backend when the condition is false. *)
Definition Assert {S} (b : bool) : cmd S unit := if b then mret tt else λ _, UB.

Section clog.
Context (BLCKSZ : Z).

Definition CLOG_BITS_PER_XACT : Z := 2.
Definition CLOG_XACTS_PER_BYTE : Z := 4.
Definition CLOG_XACTS_PER_PAGE : Z := BLCKSZ * CLOG_XACTS_PER_BYTE.
Definition CLOG_XACT_BITMASK : Z := Z.shiftl 1 CLOG_BITS_PER_XACT - 1.
Definition TransactionIdToPage (xid : TransactionId) : Z := xid / CLOG_XACTS_PER_PAGE.
Definition TransactionIdToPgIndex (xid : TransactionId) : Z := xid mod CLOG_XACTS_PER_PAGE.
Definition TransactionIdToByte (xid : TransactionId) : Z :=
  TransactionIdToPgIndex xid / CLOG_XACTS_PER_BYTE.
Definition TransactionIdToBIndex (xid : TransactionId) : Z := xid mod CLOG_XACTS_PER_BYTE.
Definition CLOG_XACTS_PER_LSN_GROUP : Z := 32.
Definition CLOG_LSNS_PER_PAGE : Z := CLOG_XACTS_PER_PAGE / CLOG_XACTS_PER_LSN_GROUP.
(** The part of [GetLSNIndex] that is relative to the slot. *)
Definition GetLSNIndex (xid : TransactionId) : Z :=
  xid mod CLOG_XACTS_PER_PAGE / CLOG_XACTS_PER_LSN_GROUP.

(** ** The buffer manager's interface *)

Definition zero_page : ClogPage :=
  mkPage (replicate (Z.to_nat BLCKSZ) 0)
         (replicate (Z.to_nat CLOG_LSNS_PER_PAGE) InvalidXLogRecPtr) false.

(** A page that does not exist is an error, except during recovery, when it
    reads as zeroes ([SlruPhysicalReadPage]). *)
Definition SimpleLruReadPage (pageno : Z) : cmd Clog Z := λ c,
  match pages c !! pageno with
  | Some _ => Ret (pageno, c)
  | None =>
      if InRecovery c
      then Ret (pageno, mkClog (<[pageno := zero_page]> (pages c)) (latest_page_number c)
                               (InRecovery c) (published c))
      else Ereport ERRCODE_INTERNAL_ERROR
  end.
Definition SimpleLruZeroPage (pageno : Z) : cmd Clog Z := λ c,
  Ret (pageno, mkClog (<[pageno := mkPage (page_buffer zero_page) (group_lsn zero_page) true]>
                         (pages c)) pageno (InRecovery c) (published c)).
Definition get_slot (slotno : Z) : cmd Clog ClogPage := λ c,
  match pages c !! slotno with Some p => Ret (p, c) | None => UB end.
Definition set_slot (slotno : Z) (p : ClogPage) : cmd Clog unit := λ c,
  Ret (tt, mkClog (<[slotno := p]> (pages c)) (latest_page_number c) (InRecovery c) (published c)).
Definition LWLockRelease : cmd Clog unit := λ c,
  Ret (tt, mkClog (pages c) (latest_page_number c) (InRecovery c) (published c ++ [pages c])).
Definition get_clog : cmd Clog Clog := λ c, Ret (c, c).

(** ** Setting and reading statuses *)

Definition TransactionIdSetStatusBit (xid : TransactionId) (status : Z) (lsn : XLogRecPtr)
    (slotno : Z) : cmd Clog unit :=
  let byteno := TransactionIdToByte xid in
  let bshift := TransactionIdToBIndex xid * CLOG_BITS_PER_XACT in
  p ← get_slot slotno;
  byte ← lift (arr_get (page_buffer p) byteno);
  let curval := Z.land (Z.shiftr byte bshift) CLOG_XACT_BITMASK in
  c ← get_clog;
  if InRecovery c && (status =? TRANSACTION_STATUS_SUB_COMMITTED)
     && (curval =? TRANSACTION_STATUS_COMMITTED)
  then mret tt else
  _ ← Assert ((curval =? 0)
              || ((curval =? TRANSACTION_STATUS_SUB_COMMITTED)
                  && negb (status =? TRANSACTION_STATUS_IN_PROGRESS))
              || (curval =? status));
  let byteval := wrap_s 8 (Z.land byte
       (Z.lnot (Z.shiftl (Z.shiftl 1 CLOG_BITS_PER_XACT - 1) bshift))) in
  let byteval := wrap_s 8 (Z.lor byteval (Z.shiftl status bshift)) in
  buf ← lift (arr_set (page_buffer p) byteno byteval);
  lsns ← (if negb (XLogRecPtrIsInvalid lsn) then
            let lsnindex := GetLSNIndex xid in
            old ← lift (arr_get (group_lsn p) lsnindex);
            if XLByteLT old lsn then lift (arr_set (group_lsn p) lsnindex lsn)
            else mret (group_lsn p)
          else mret (group_lsn p));
  set_slot slotno (mkPage buf lsns (page_dirty p)).

Definition set_dirty (slotno : Z) : cmd Clog unit :=
  p ← get_slot slotno;
  set_slot slotno (mkPage (page_buffer p) (group_lsn p) true).

Definition TransactionIdSetPageStatus (xid : TransactionId) (nsubxids : Z)
    (subxids : list TransactionId) (status : Z) (lsn : XLogRecPtr) (pageno : Z) : cmd Clog unit :=
  _ ← Assert ((status =? TRANSACTION_STATUS_COMMITTED) || (status =? TRANSACTION_STATUS_ABORTED)
              || ((status =? TRANSACTION_STATUS_SUB_COMMITTED) && negb (TransactionIdIsValid xid)));
  slotno ← SimpleLruReadPage pageno;
  _ ← (if TransactionIdIsValid xid then
         _ ← (if status =? TRANSACTION_STATUS_COMMITTED then
                cfor_range 0 nsubxids (λ i,
                  sub ← lift (arr_get subxids i);
                  _ ← Assert (slotno =? TransactionIdToPage sub);
                  TransactionIdSetStatusBit sub TRANSACTION_STATUS_SUB_COMMITTED lsn slotno)
              else mret tt);
         TransactionIdSetStatusBit xid status lsn slotno
       else mret tt);
  _ ← cfor_range 0 nsubxids (λ i,
        sub ← lift (arr_get subxids i);
        _ ← Assert (slotno =? TransactionIdToPage sub);
        TransactionIdSetStatusBit sub status lsn slotno);
  _ ← set_dirty slotno;
  LWLockRelease.

(** The inner loop of [set_status_by_pages]: the condition reads [subxids[i]]
    before it tests [i < nsubxids]. *)
Fixpoint page_run_loop (fuel : nat) (nsubxids : Z) (subxids : list TransactionId) (pageno i : Z)
    (num_on_page : Z) : outcome (Z * Z) :=
  match fuel with
  | O => Timeout
  | S fuel =>
      x ← arr_get subxids i;
      if (TransactionIdToPage x =? pageno) && (i <? nsubxids)
      then page_run_loop fuel nsubxids subxids pageno (i + 1) (num_on_page + 1)
      else Ret (i, num_on_page)
  end.

Fixpoint by_pages_loop (fuel : nat) (nsubxids : Z) (subxids : list TransactionId) (status : Z)
    (lsn : XLogRecPtr) (pageno offset i : Z) : cmd Clog unit :=
  match fuel with
  | O => λ _, Timeout
  | S fuel =>
      if i <? nsubxids then
        '(i, num_on_page) ←
           lift (page_run_loop (S (Z.to_nat nsubxids)) nsubxids subxids pageno i 0);
        _ ← TransactionIdSetPageStatus InvalidTransactionId num_on_page
              (drop (Z.to_nat offset) subxids) status lsn pageno;
        let offset := i in
        x ← lift (arr_get subxids offset);
        by_pages_loop fuel nsubxids subxids status lsn (TransactionIdToPage x) offset i
      else mret tt
  end.

Definition set_status_by_pages (nsubxids : Z) (subxids : list TransactionId) (status : Z)
    (lsn : XLogRecPtr) : cmd Clog unit :=
  x ← lift (arr_get subxids 0);
  by_pages_loop (S (Z.to_nat nsubxids)) nsubxids subxids status lsn (TransactionIdToPage x) 0 0.

(** [subxids] is the memory from the argument pointer on: its first [nsubxids]
    elements are the array. *)
Definition TransactionIdSetTreeStatus (xid : TransactionId) (nsubxids : Z)
    (subxids : list TransactionId) (status : Z) (lsn : XLogRecPtr) : cmd Clog unit :=
  let pageno := TransactionIdToPage xid in
  _ ← Assert ((status =? TRANSACTION_STATUS_COMMITTED) || (status =? TRANSACTION_STATUS_ABORTED));
  r ← lift (for_range 0 nsubxids (λ i _,
        x ← arr_get subxids i;
        Ret (if negb (TransactionIdToPage x =? pageno) then inr i else inl tt)) tt);
  let i := match r with inr i => i | inl _ => Z.max 0 nsubxids end in
  if i =? nsubxids then
    TransactionIdSetPageStatus xid nsubxids subxids status lsn pageno
  else
    let nsubxids_on_first_page := i in
    _ ← (if status =? TRANSACTION_STATUS_COMMITTED then
           set_status_by_pages (nsubxids - nsubxids_on_first_page)
             (drop (Z.to_nat nsubxids_on_first_page) subxids)
             TRANSACTION_STATUS_SUB_COMMITTED lsn
         else mret tt);
    let pageno := TransactionIdToPage xid in
    _ ← TransactionIdSetPageStatus xid nsubxids_on_first_page subxids status lsn pageno;
    set_status_by_pages (nsubxids - nsubxids_on_first_page)
      (drop (Z.to_nat nsubxids_on_first_page) subxids) status lsn.

(** The status and the log position of the transaction's group. *)
Definition TransactionIdGetStatus (xid : TransactionId) : cmd Clog (Z * XLogRecPtr) :=
  let pageno := TransactionIdToPage xid in
  let byteno := TransactionIdToByte xid in
  let bshift := TransactionIdToBIndex xid * CLOG_BITS_PER_XACT in
  slotno ← SimpleLruReadPage pageno;
  p ← get_slot slotno;
  byte ← lift (arr_get (page_buffer p) byteno);
  let status := Z.land (Z.shiftr byte bshift) CLOG_XACT_BITMASK in
  let lsnindex := GetLSNIndex xid in
  lsn ← lift (arr_get (group_lsn p) lsnindex);
  mret (status, lsn).

(** ** Maintenance *)

(** The XLOG record that [writeXlog] asks for is not part of the state. *)
Definition ZeroCLOGPage (pageno : Z) (writeXlog : bool) : cmd Clog Z := SimpleLruZeroPage pageno.

Definition ExtendCLOG (newestXact : TransactionId) : cmd Clog unit :=
  if negb (TransactionIdToPgIndex newestXact =? 0)
     && negb (TransactionIdEquals newestXact FirstNormalTransactionId) then mret tt
  else
    let pageno := TransactionIdToPage newestXact in
    c ← get_clog;
    _ ← ZeroCLOGPage pageno (negb (InRecovery c));
    LWLockRelease.

Definition set_latest (pageno : Z) : cmd Clog unit := λ c,
  Ret (tt, mkClog (pages c) pageno (InRecovery c) (published c)).

(** [xid] is [ShmemVariableCache->nextXid]. *)
Definition TrimCLOG (xid : TransactionId) : cmd Clog unit :=
  let pageno := TransactionIdToPage xid in
  _ ← set_latest pageno;
  _ ← (if negb (TransactionIdToPgIndex xid =? 0) then
         let byteno := TransactionIdToByte xid in
         let bshift := TransactionIdToBIndex xid * CLOG_BITS_PER_XACT in
         slotno ← SimpleLruReadPage pageno;
         p ← get_slot slotno;
         byte ← lift (arr_get (page_buffer p) byteno);
         let byte := wrap_s 8 (Z.land byte (Z.shiftl 1 bshift - 1)) in
         let buf := take (Z.to_nat byteno) (page_buffer p) ++ byte ::
                    replicate (Z.to_nat (BLCKSZ - byteno - 1)) 0 in
         set_slot slotno (mkPage buf (group_lsn p) true)
       else mret tt);
  LWLockRelease.

Definition CLOGPagePrecedes (page1 page2 : Z) : bool :=
  let xid1 := uint32_of (uint32_of page1 * CLOG_XACTS_PER_PAGE) in
  let xid1 := uint32_of (xid1 + FirstNormalTransactionId) in
  let xid2 := uint32_of (uint32_of page2 * CLOG_XACTS_PER_PAGE) in
  let xid2 := uint32_of (xid2 + FirstNormalTransactionId) in
  TransactionIdPrecedes xid1 xid2.

(** ** The abstract commit log: a status and a log position per transaction *)

Definition pt_status (t : pagetable) (xid : TransactionId) : Z :=
  match t !! TransactionIdToPage xid with
  | Some p => Z.land (Z.shiftr (wd (page_buffer p) (TransactionIdToByte xid))
                               (TransactionIdToBIndex xid * CLOG_BITS_PER_XACT)) CLOG_XACT_BITMASK
  | None => TRANSACTION_STATUS_IN_PROGRESS
  end.
Definition pt_lsn (t : pagetable) (xid : TransactionId) : XLogRecPtr :=
  match t !! TransactionIdToPage xid with
  | Some p => default InvalidXLogRecPtr (group_lsn p !! Z.to_nat (GetLSNIndex xid))
  | None => InvalidXLogRecPtr
  end.

Definition page_wf (p : ClogPage) : Prop :=
  Z.of_nat (length (page_buffer p)) = BLCKSZ ∧
  (∀ i, is_sint 8 (wd (page_buffer p) i)) ∧
  Z.of_nat (length (group_lsn p)) = CLOG_LSNS_PER_PAGE.
Definition pt_wf (t : pagetable) : Prop := map_Forall (λ _ p, page_wf p) t.
Definition has_page (t : pagetable) (xid : TransactionId) : Prop :=
  is_Some (t !! TransactionIdToPage xid).

(** Block sizes are multiples of 8, so a page is a whole number of groups. *)
Definition clog_blcksz_ok : Prop := 0 < BLCKSZ ∧ (8 | BLCKSZ).
Context (HB : clog_blcksz_ok).

Lemma clog_sizes :
  CLOG_XACTS_PER_PAGE = BLCKSZ * 4 ∧ CLOG_LSNS_PER_PAGE * 8 = BLCKSZ ∧ 0 < BLCKSZ.
Proof using HB.
  destruct HB as [H0 [k Hk]]. unfold CLOG_LSNS_PER_PAGE, CLOG_XACTS_PER_PAGE,
    CLOG_XACTS_PER_BYTE, CLOG_XACTS_PER_LSN_GROUP.
  replace (BLCKSZ * 4) with (k * 32) by lia. rewrite Z.div_mul by lia. lia.
Qed.

(** The position of a transaction: page, byte, pair of bits, group. *)
Lemma xid_position x :
  let q := TransactionIdToPage x in let b := TransactionIdToByte x in
  let i := TransactionIdToBIndex x in
  x = q * (BLCKSZ * 4) + b * 4 + i ∧ 0 ≤ b < BLCKSZ ∧ 0 ≤ i < 4 ∧
  0 ≤ GetLSNIndex x < CLOG_LSNS_PER_PAGE.
Proof using HB.
  destruct clog_sizes as (H1 & H2 & H3). cbv zeta.
  unfold TransactionIdToPage, TransactionIdToByte, TransactionIdToPgIndex, TransactionIdToBIndex,
    GetLSNIndex, CLOG_XACTS_PER_BYTE, CLOG_XACTS_PER_LSN_GROUP. rewrite H1.
  pose proof (Z.div_mod x (BLCKSZ * 4) ltac:(lia)) as Hx.
  pose proof (Z.mod_pos_bound x (BLCKSZ * 4) ltac:(lia)) as Hb.
  set (r := x mod (BLCKSZ * 4)) in *. set (q := x / (BLCKSZ * 4)) in *.
  pose proof (Z.div_mod r 4 ltac:(lia)) as Hr. pose proof (Z.mod_pos_bound r 4 ltac:(lia)) as Hr4.
  pose proof (Z.div_mod r 32 ltac:(lia)) as Hg. pose proof (Z.mod_pos_bound r 32 ltac:(lia)) as Hg4.
  assert (x mod 4 = r mod 4) as ->.
  { rewrite Hx, Hr at 1.
    replace (BLCKSZ * 4 * q + (4 * (r / 4) + r mod 4)) with (4 * (BLCKSZ * q + r / 4) + r mod 4) by ring.
    by apply mod_mul_add. }
  split_and!; nia.
Qed.

(** The update of one pair of bits of a [char], decided over all bytes. *)
Definition byte_set (b sh st : Z) : Z :=
  wrap_s 8 (Z.lor (wrap_s 8 (Z.land b
    (Z.lnot (Z.shiftl (Z.shiftl 1 CLOG_BITS_PER_XACT - 1) sh)))) (Z.shiftl st sh)).
Definition byte_get (b sh : Z) : Z := Z.land (Z.shiftr b sh) CLOG_XACT_BITMASK.

Lemma byte_set_get b i j st :
  is_sint 8 b → 0 ≤ i < 4 → 0 ≤ j < 4 → 0 ≤ st < 4 →
  byte_get (byte_set b (i * 2) st) (j * 2) = if i =? j then st else byte_get b (j * 2).
Proof using.
  clear HB.
  intros Hb Hi Hj Hs.
  assert (forallb (λ b, forallb (λ i, forallb (λ j, forallb (λ st,
    byte_get (byte_set b (i * 2) st) (j * 2) =? (if i =? j then st else byte_get b (j * 2)))
    (seqZ 0 4)) (seqZ 0 4)) (seqZ 0 4)) (seqZ (-128) 256) = true) as H by by vm_compute.
  unfold is_sint in Hb. change (2 ^ (8 - 1)) with 128 in Hb.
  apply (forallb_seqZ _ _ _ b) in H; [|lia]. apply (forallb_seqZ _ _ _ i) in H; [|lia].
  apply (forallb_seqZ _ _ _ j) in H; [|lia]. apply (forallb_seqZ _ _ _ st) in H; [|lia].
  by apply Z.eqb_eq.
Qed.

(** *** One status *)

(** The value [TransactionIdSetStatusBit] leaves, and when it accepts the change. *)
Definition newst (rec : bool) (cur st : Z) : Z :=
  if rec && (st =? TRANSACTION_STATUS_SUB_COMMITTED) && (cur =? TRANSACTION_STATUS_COMMITTED)
  then cur else st.
Definition allowed (rec : bool) (cur st : Z) : bool :=
  (rec && (st =? TRANSACTION_STATUS_SUB_COMMITTED) && (cur =? TRANSACTION_STATUS_COMMITTED))
  || ((cur =? 0)
      || ((cur =? TRANSACTION_STATUS_SUB_COMMITTED)
          && negb (st =? TRANSACTION_STATUS_IN_PROGRESS))
      || (cur =? st)).

Lemma newst_idem rec cur st : newst rec (newst rec cur st) st = newst rec cur st.
Proof using.
  clear HB.
  unfold newst. destruct rec; [|done]. simpl.
  destruct (Z.eqb_spec st TRANSACTION_STATUS_SUB_COMMITTED) as [->|]; [|done]. simpl.
  destruct (Z.eqb_spec cur TRANSACTION_STATUS_COMMITTED) as [->|]; done.
Qed.
Lemma allowed_newst rec cur st : allowed rec (newst rec cur st) st = true.
Proof using.
  clear HB.
  unfold allowed, newst.
  destruct (rec && (st =? TRANSACTION_STATUS_SUB_COMMITTED) && (cur =? TRANSACTION_STATUS_COMMITTED))
    eqn:E; [by rewrite E|]. by rewrite Z.eqb_refl, !orb_true_r.
Qed.

(** [c'] is [c] with the status [st] recorded for the transactions [xs]. *)
Record upd (c c' : Clog) (xs : list TransactionId) (st : Z) (lsn : XLogRecPtr) : Prop := {
  upd_wf : pt_wf (pages c');
  upd_dom n : is_Some (pages c' !! n) ↔ is_Some (pages c !! n);
  upd_rec : InRecovery c' = InRecovery c;
  upd_status z : pt_status (pages c') z =
    if decide (z ∈ xs) then newst (InRecovery c) (pt_status (pages c) z) st
    else pt_status (pages c) z;
  upd_lsn z : LSN_le (pt_lsn (pages c) z) (pt_lsn (pages c') z);
  upd_group z : InRecovery c = false → XLogRecPtrIsInvalid lsn = false → z ∈ xs →
    LSN_le lsn (pt_lsn (pages c') z)
}.

Lemma upd_has_page c c' xs st lsn x :
  upd c c' xs st lsn → has_page (pages c') x ↔ has_page (pages c) x.
Proof using. clear HB. intros H. apply (upd_dom _ _ _ _ _ H). Qed.

Lemma upd_allowed c c' xs st lsn x :
  upd c c' xs st lsn → allowed (InRecovery c) (pt_status (pages c) x) st = true →
  allowed (InRecovery c') (pt_status (pages c') x) st = true.
Proof using.
  clear HB.
  intros H Ha. rewrite (upd_rec _ _ _ _ _ H), (upd_status _ _ _ _ _ H).
  case_decide; [apply allowed_newst|done].
Qed.

Lemma upd_nil c st lsn : pt_wf (pages c) → upd c c [] st lsn.
Proof using. clear HB. intros H. split; try done. by intros z; inversion 3. Qed.

Lemma upd_app c c1 c2 xs ys st lsn :
  upd c c1 xs st lsn → upd c1 c2 ys st lsn → upd c c2 (xs ++ ys) st lsn.
Proof using.
  clear HB.
  intros H1 H2. split.
  - apply H2.
  - intros n. rewrite (upd_dom _ _ _ _ _ H2). apply H1.
  - rewrite (upd_rec _ _ _ _ _ H2). apply H1.
  - intros z. rewrite (upd_status _ _ _ _ _ H2), (upd_status _ _ _ _ _ H1), (upd_rec _ _ _ _ _ H1).
    destruct (decide (z ∈ ys)), (decide (z ∈ xs)), (decide (z ∈ xs ++ ys)); rewrite ?newst_idem;
      set_solver.
  - intros z. etransitivity; [apply H1|apply H2].
  - intros z Hr Hl [Hz|Hz]%elem_of_app.
    + etransitivity; [by apply (upd_group _ _ _ _ _ H1)|apply H2].
    + apply (upd_group _ _ _ _ _ H2); [|done..]. by rewrite (upd_rec _ _ _ _ _ H1).
Qed.

(** Writing [p'] over the page [p] of [x], where [p'] differs from [p] in the
    status of [x] and in its group's position. *)
Lemma upd_insert c x p p' st lsn :
  pt_wf (pages c) → page_wf p' → pages c !! TransactionIdToPage x = Some p → 0 ≤ st < 4 →
  newst (InRecovery c) (pt_status (pages c) x) st = st →
  page_buffer p' = <[Z.to_nat (TransactionIdToByte x) :=
     byte_set (wd (page_buffer p) (TransactionIdToByte x)) (TransactionIdToBIndex x * 2) st]>
     (page_buffer p) →
  (∀ i : nat, LSN_le (default InvalidXLogRecPtr (group_lsn p !! i))
                     (default InvalidXLogRecPtr (group_lsn p' !! i))) →
  (XLogRecPtrIsInvalid lsn = false →
     LSN_le lsn (default InvalidXLogRecPtr (group_lsn p' !! Z.to_nat (GetLSNIndex x)))) →
  upd c (mkClog (<[TransactionIdToPage x := p']> (pages c)) (latest_page_number c)
           (InRecovery c) (published c)) [x] st lsn.
Proof using HB.
  intros Hwf Hp' Hp Hst Hnew Hbuf Hlsn Hgrp.
  pose proof (Hwf _ _ Hp) as (Hlen & Hbytes & _).
  destruct (xid_position x) as (Hx & Hbx & Hix & _).
  split; cbn [pages InRecovery].
  - by apply map_Forall_insert_2.
  - intros n. destruct (decide (n = TransactionIdToPage x)) as [->|].
    + rewrite lookup_insert_eq, Hp. done.
    + rewrite lookup_insert_ne by done. done.
  - done.
  - intros z. destruct (xid_position z) as (Hz & Hbz & Hiz & _).
    destruct (decide (z ∈ [x])) as [Hin|Hnin].
    + apply list_elem_of_singleton in Hin as ->. rewrite Hnew. unfold pt_status.
      rewrite lookup_insert_eq, Hbuf, wd_insert, decide_True by (rewrite ?Hlen; done || lia).
      match goal with |- ?a = ?b => change a with (byte_get (byte_set (wd (page_buffer p)
        (TransactionIdToByte x)) (TransactionIdToBIndex x * 2) st) (TransactionIdToBIndex x * 2)) end.
      rewrite byte_set_get, Z.eqb_refl by done. done.
    + unfold pt_status. destruct (decide (TransactionIdToPage z = TransactionIdToPage x)) as [E|];
        [|by rewrite lookup_insert_ne by done].
      rewrite E, lookup_insert_eq, Hp, Hbuf, wd_insert by (rewrite ?Hlen; lia).
      case_decide as Eb; [|done]. rewrite Eb.
      match goal with |- ?a = ?b => change a with (byte_get (byte_set (wd (page_buffer p)
        (TransactionIdToByte x)) (TransactionIdToBIndex x * 2) st) (TransactionIdToBIndex z * 2)) end.
      rewrite byte_set_get by done. destruct (Z.eqb_spec (TransactionIdToBIndex x)
        (TransactionIdToBIndex z)) as [Ei|]; [|done].
      destruct Hnin. apply list_elem_of_singleton. lia.
  - intros z. unfold pt_lsn. destruct (decide (TransactionIdToPage z = TransactionIdToPage x)) as [E|].
    + rewrite E, lookup_insert_eq, Hp. apply Hlsn.
    + rewrite lookup_insert_ne by done. done.
  - intros z _ Hv Hz. apply list_elem_of_singleton in Hz as ->.
    unfold pt_lsn. rewrite lookup_insert_eq. by apply Hgrp.
Qed.

Lemma wd_insert_all (P : Z → Prop) l i x :
  0 ≤ i < Z.of_nat (length l) → (∀ j, P (wd l j)) → P x → ∀ j, P (wd (<[Z.to_nat i := x]> l) j).
Proof using.
  clear HB.
  intros Hi Hl Hx j. destruct (Z_lt_le_dec j 0) as [Hj|Hj].
  - replace (wd (<[Z.to_nat i:=x]> l) j) with (wd (<[Z.to_nat i:=x]> l) 0)
      by (unfold wd; replace (Z.to_nat j) with (Z.to_nat 0) by lia; done).
    rewrite wd_insert by lia. case_decide; auto.
  - rewrite wd_insert by lia. case_decide; auto.
Qed.

Lemma SetStatusBit_spec c x st lsn :
  pt_wf (pages c) → has_page (pages c) x → 0 ≤ st < 4 →
  allowed (InRecovery c) (pt_status (pages c) x) st = true →
  ∃ c', TransactionIdSetStatusBit x st lsn (TransactionIdToPage x) c = Ret (tt, c') ∧
        upd c c' [x] st lsn ∧ published c' = published c.
Proof using HB.
  intros Hwf [p Hp] Hst Hal. pose proof (Hwf _ _ Hp) as (Hlen & Hbytes & Hlsns).
  destruct (xid_position x) as (Hx & Hbx & Hix & Hgx).
  assert (Hcur : pt_status (pages c) x = Z.land (Z.shiftr (wd (page_buffer p) (TransactionIdToByte x))
            (TransactionIdToBIndex x * CLOG_BITS_PER_XACT)) CLOG_XACT_BITMASK)
    by (unfold pt_status; by rewrite Hp).
  unfold TransactionIdSetStatusBit, get_slot, get_clog, Assert, lift.
  cbn [mbind cmd_bind outcome_bind]. unfold mbind, cmd_bind at 1. rewrite Hp.
  unfold mret, cmd_ret. rewrite wd_get by lia. cbn [outcome_bind].
  unfold cmd_bind at 1. cbn [outcome_bind]. unfold cmd_bind at 1.
  rewrite <- Hcur. unfold allowed in Hal.
  destruct (InRecovery c && (st =? TRANSACTION_STATUS_SUB_COMMITTED) &&
    (pt_status (pages c) x =? TRANSACTION_STATUS_COMMITTED)) eqn:Enoop.
  - exists c. split; [done|]. split; [|done].
    assert (newst (InRecovery c) (pt_status (pages c) x) st = pt_status (pages c) x) as Hn
      by (unfold newst; by rewrite Enoop).
    split; [done..| | |].
    + intros z. case_decide as Hz; [|done]. apply list_elem_of_singleton in Hz as ->. by rewrite Hn.
    + intros z. done.
    + intros z Hr. rewrite Hr in Enoop. done.
  - simpl in Hal. rewrite Hal. unfold cmd_bind at 1. cbn [outcome_bind].
    unfold cmd_bind at 1. rewrite arr_set_lt by lia. cbn [outcome_bind].
    assert (newst (InRecovery c) (pt_status (pages c) x) st = st) as Hnew
      by (unfold newst; by rewrite Enoop).
    assert (Hwf' : ∀ lsns d, Z.of_nat (length lsns) = CLOG_LSNS_PER_PAGE → page_wf (mkPage
      (<[Z.to_nat (TransactionIdToByte x) :=
     byte_set (wd (page_buffer p) (TransactionIdToByte x)) (TransactionIdToBIndex x * 2) st]>
     (page_buffer p)) lsns d)).
    { intros lsns d Hl. split_and!; cbn [page_buffer group_lsn]; [by rewrite length_insert| |done].
      apply wd_insert_all; [lia|done|]. apply wrap_s_bound. lia. }
    unfold cmd_bind at 1. destruct (XLogRecPtrIsInvalid lsn) eqn:El; cbn [negb].
    + eexists. split; [done|]. split; [|done].
      eapply (upd_insert c x p); eauto; try done; intros; first [congruence|reflexivity].
    + unfold cmd_bind at 1. destruct (arr_get_lt (group_lsn p) (GetLSNIndex x)) as (old & -> & Hold);
        [lia|]. cbn [outcome_bind]. destruct (XLByteLT old lsn) eqn:Elt.
      * rewrite arr_set_lt by lia. cbn [outcome_bind].
        eexists. split; [done|]. split; [|done].
        eapply (upd_insert c x p); eauto; cbn [group_lsn]; try done.
        { apply Hwf'. by rewrite length_insert. }
        { intros i. destruct (decide (i = Z.to_nat (GetLSNIndex x))) as [->|].
          - rewrite list_lookup_insert_eq, Hold by lia. by apply XLByteLT_true.
          - rewrite list_lookup_insert_ne by done. done. }
        { intros _. rewrite list_lookup_insert_eq by lia. done. }
      * eexists. split; [done|]. split; [|done].
        eapply (upd_insert c x p); eauto; cbn [group_lsn]; try done.
        { intros _. rewrite Hold. by apply XLByteLT_false. }
Qed.

(** *** The statuses of one page *)

Lemma set_bits_spec c xs st lsn pageno :
  pt_wf (pages c) → 0 ≤ st < 4 →
  (∀ x, x ∈ xs → TransactionIdToPage x = pageno ∧ has_page (pages c) x ∧
                 allowed (InRecovery c) (pt_status (pages c) x) st = true) →
  ∃ c', citer (λ sub, _ ← Assert (pageno =? TransactionIdToPage sub);
                      TransactionIdSetStatusBit sub st lsn pageno) xs c = Ret (tt, c') ∧
        upd c c' xs st lsn ∧ published c' = published c.
Proof using HB.
  intros Hwf Hst. revert c Hwf. induction xs as [|x xs IH]; intros c Hwf Hall.
  { exists c. split; [done|]. split; [by apply upd_nil|done]. }
  destruct (Hall x) as (Hpg & Hhas & Hal); [set_solver|].
  destruct (SetStatusBit_spec c x st lsn) as (c1 & Hrun & Hu & Hpub); [done..|].
  destruct (IH c1) as (c2 & Hrun2 & Hu2 & Hpub2).
  { apply Hu. }
  { intros y Hy. destruct (Hall y) as (? & ? & ?); [set_solver|]. split; [done|].
    rewrite (upd_has_page _ _ _ _ _ _ Hu). split; [done|]. by apply (upd_allowed _ _ _ _ _ _ Hu). }
  exists c2. split; [|split; [by apply (upd_app _ c1 _ [x])|congruence]].
  cbn [citer]. erewrite bind_Ret; [exact Hrun2|].
  unfold Assert. rewrite <- Hpg, Z.eqb_refl. exact Hrun.
Qed.

(** A first pass that marks some of the transactions subcommitted is hidden by
    the final pass. *)
Lemma upd_hide c c1 c2 ys xs st lsn :
  upd c c1 ys TRANSACTION_STATUS_SUB_COMMITTED lsn → upd c1 c2 xs st lsn →
  (∀ y, y ∈ ys → y ∈ xs) → st ≠ TRANSACTION_STATUS_SUB_COMMITTED → upd c c2 xs st lsn.
Proof using.
  clear HB.
  intros H1 H2 Hsub Hst.
  assert (Hn : ∀ rec cur, newst rec cur st = st).
  { intros rec cur. unfold newst. by rewrite (proj2 (Z.eqb_neq _ _) Hst), andb_false_r. }
  split.
  - apply H2.
  - intros n. rewrite (upd_dom _ _ _ _ _ H2). apply H1.
  - rewrite (upd_rec _ _ _ _ _ H2). apply H1.
  - intros z. rewrite (upd_status _ _ _ _ _ H2), (upd_status _ _ _ _ _ H1), !Hn.
    destruct (decide (z ∈ xs)), (decide (z ∈ ys)); naive_solver.
  - intros z. etransitivity; [apply H1|apply H2].
  - intros z Hr Hl Hz. apply (upd_group _ _ _ _ _ H2); [|done..]. by rewrite (upd_rec _ _ _ _ _ H1).
Qed.

Lemma allowed_after_sub rec cur :
  allowed rec (newst rec cur TRANSACTION_STATUS_SUB_COMMITTED) TRANSACTION_STATUS_COMMITTED = true.
Proof using.
  clear HB.
  unfold allowed, newst. destruct (_ && (cur =? _)) eqn:E; [|by destruct rec].
  apply andb_true_iff in E as [_ ->%Z.eqb_eq]. by rewrite !orb_true_r.
Qed.

Definition tree_xids (xid : TransactionId) (subs : list TransactionId) : list TransactionId :=
  if TransactionIdIsValid xid then subs ++ [xid] else subs.

(** The precondition of [TransactionIdSetPageStatus]. *)
Record page_pre (c : Clog) (xid : TransactionId) (subs : list TransactionId) (st pageno : Z) : Prop := {
  pp_wf : pt_wf (pages c);
  pp_page x : x ∈ tree_xids xid subs → TransactionIdToPage x = pageno;
  pp_has : is_Some (pages c !! pageno);
  pp_status : st = TRANSACTION_STATUS_COMMITTED ∨ st = TRANSACTION_STATUS_ABORTED ∨
              (st = TRANSACTION_STATUS_SUB_COMMITTED ∧ xid = InvalidTransactionId);
  pp_allowed x : x ∈ tree_xids xid subs → allowed (InRecovery c) (pt_status (pages c) x) st = true;
  pp_sub x : st = TRANSACTION_STATUS_COMMITTED → xid ≠ InvalidTransactionId → x ∈ subs →
    allowed (InRecovery c) (pt_status (pages c) x) TRANSACTION_STATUS_SUB_COMMITTED = true
}.

Lemma set_dirty_spec c c0 xs st lsn slotno :
  upd c0 c xs st lsn → is_Some (pages c !! slotno) →
  ∃ c', set_dirty slotno c = Ret (tt, c') ∧ upd c0 c' xs st lsn ∧ published c' = published c.
Proof using.
  clear HB.
  intros H [p Hp]. unfold set_dirty, get_slot, set_slot. unfold mbind, cmd_bind. rewrite Hp.
  eexists. split; [done|]. split; [|done]. cbn [pages InRecovery].
  assert (Hs : ∀ z, pt_status (<[slotno:=mkPage (page_buffer p) (group_lsn p) true]> (pages c)) z =
                    pt_status (pages c) z).
  { intros z. unfold pt_status. destruct (decide (TransactionIdToPage z = slotno)) as [->|].
    - by rewrite lookup_insert_eq, Hp.
    - by rewrite lookup_insert_ne. }
  assert (Hl : ∀ z, pt_lsn (<[slotno:=mkPage (page_buffer p) (group_lsn p) true]> (pages c)) z =
                    pt_lsn (pages c) z).
  { intros z. unfold pt_lsn. destruct (decide (TransactionIdToPage z = slotno)) as [->|].
    - by rewrite lookup_insert_eq, Hp.
    - by rewrite lookup_insert_ne. }
  destruct H as [H1 H2 H3 H4 H5 H6]. split; cbn [pages InRecovery]; try done.
  - apply map_Forall_insert_2; [|done]. apply (H1 _ _ Hp).
  - intros n. rewrite <- H2. destruct (decide (n = slotno)) as [->|].
    + by rewrite lookup_insert_eq, Hp.
    + by rewrite lookup_insert_ne.
  - intros z. rewrite Hs. apply H4.
  - intros z. rewrite Hl. apply H5.
  - intros z. rewrite Hl. apply H6.
Qed.

Lemma upd_perm c c' xs ys st lsn :
  (∀ z, z ∈ xs ↔ z ∈ ys) → upd c c' xs st lsn → upd c c' ys st lsn.
Proof using.
  clear HB.
  intros Hxy [F1 F2 F3 F4 F5 F6]. split; [done..| |done|].
  - intros z. rewrite F4. destruct (decide (z ∈ xs)), (decide (z ∈ ys)); naive_solver.
  - intros z ???. apply F6; [done..|by apply Hxy].
Qed.

(** The loop over the subtransactions of the page, as an iteration on the list. *)
Definition set_subs (pageno : Z) (lsn : XLogRecPtr) (subs : list TransactionId) (st : Z)
    : cmd Clog unit :=
  citer (λ sub, _ ← Assert (pageno =? TransactionIdToPage sub);
                TransactionIdSetStatusBit sub st lsn pageno) subs.

(** The part of [TransactionIdSetPageStatus] that handles the main transaction. *)
Definition main_phase (xid : TransactionId) (subs : list TransactionId) (st : Z)
    (lsn : XLogRecPtr) (pageno : Z) : cmd Clog unit :=
  if TransactionIdIsValid xid then
    _ ← (if st =? TRANSACTION_STATUS_COMMITTED then
           set_subs pageno lsn subs TRANSACTION_STATUS_SUB_COMMITTED else mret tt);
    TransactionIdSetStatusBit xid st lsn pageno
  else mret tt.

(** What the last loop needs of the main phase. *)
Record main_post (c c1 : Clog) (xid : TransactionId) (subs : list TransactionId) (st : Z)
    (lsn : XLogRecPtr) : Prop := {
  mp_pub : published c1 = published c;
  mp_wf : pt_wf (pages c1);
  mp_dom n : is_Some (pages c1 !! n) ↔ is_Some (pages c !! n);
  mp_allowed x : x ∈ subs → allowed (InRecovery c1) (pt_status (pages c1) x) st = true;
  mp_upd c2 : upd c1 c2 subs st lsn → upd c c2 (tree_xids xid subs) st lsn
}.

Lemma page_pre_bit c xid subs st pageno x :
  page_pre c xid subs st pageno → x ∈ tree_xids xid subs →
  TransactionIdToPage x = pageno ∧ has_page (pages c) x ∧
  allowed (InRecovery c) (pt_status (pages c) x) st = true.
Proof using.
  clear HB.
  intros H Hx. pose proof (pp_page _ _ _ _ _ H x Hx) as Hpg.
  split_and!; [done| |by apply H]. unfold has_page. rewrite Hpg. apply H.
Qed.

Lemma main_phase_commit c xid subs lsn pageno :
  xid ≠ InvalidTransactionId → page_pre c xid subs TRANSACTION_STATUS_COMMITTED pageno →
  ∃ c1, main_phase xid subs TRANSACTION_STATUS_COMMITTED lsn pageno c = Ret (tt, c1) ∧
        main_post c c1 xid subs TRANSACTION_STATUS_COMMITTED lsn.
Proof using HB.
  intros Hxid Hpre. assert (Hv : TransactionIdIsValid xid = true)
    by (unfold TransactionIdIsValid; by apply negb_true_iff, Z.eqb_neq).
  assert (Htx : tree_xids xid subs = subs ++ [xid]) by (unfold tree_xids; by rewrite Hv).
  destruct (page_pre_bit _ _ _ _ _ xid Hpre) as (Hpx & Hhx & Hax); [rewrite Htx; set_solver|].
  destruct (set_bits_spec c subs TRANSACTION_STATUS_SUB_COMMITTED lsn pageno)
    as (c1 & Hr1 & Hu1 & Hp1); [apply Hpre|done| |].
  { intros x Hx. destruct (page_pre_bit _ _ _ _ _ x Hpre) as (? & ? & _); [rewrite Htx; set_solver|].
    split_and!; [done..|]. by apply (pp_sub _ _ _ _ _ Hpre). }
  destruct (SetStatusBit_spec c1 xid TRANSACTION_STATUS_COMMITTED lsn) as (c2 & Hr2 & Hu2 & Hp2).
  { apply Hu1. }
  { by apply (upd_has_page _ _ _ _ _ _ Hu1). }
  { done. }
  { rewrite (upd_rec _ _ _ _ _ Hu1), (upd_status _ _ _ _ _ Hu1).
    case_decide; [apply allowed_after_sub|done]. }
  exists c2. split; [|split; [congruence|apply Hu2| | |]].
  - unfold main_phase. rewrite Hv. erewrite bind_Ret; [|exact Hr1]. by rewrite <- Hpx.
  - intros m. rewrite (upd_dom _ _ _ _ _ Hu2). apply Hu1.
  - intros x Hx. apply (upd_allowed _ _ _ _ _ _ Hu2).
    rewrite (upd_rec _ _ _ _ _ Hu1), (upd_status _ _ _ _ _ Hu1), decide_True by done.
    apply allowed_after_sub.
  - intros c3 Hu3. rewrite Htx. apply (upd_perm _ _ ([xid] ++ subs)); [set_solver|].
    eapply upd_hide; [exact Hu1|by eapply upd_app|set_solver|done].
Qed.

Lemma main_phase_abort c xid subs lsn pageno :
  xid ≠ InvalidTransactionId → page_pre c xid subs TRANSACTION_STATUS_ABORTED pageno →
  ∃ c1, main_phase xid subs TRANSACTION_STATUS_ABORTED lsn pageno c = Ret (tt, c1) ∧
        main_post c c1 xid subs TRANSACTION_STATUS_ABORTED lsn.
Proof using HB.
  intros Hxid Hpre. assert (Hv : TransactionIdIsValid xid = true)
    by (unfold TransactionIdIsValid; by apply negb_true_iff, Z.eqb_neq).
  assert (Htx : tree_xids xid subs = subs ++ [xid]) by (unfold tree_xids; by rewrite Hv).
  destruct (page_pre_bit _ _ _ _ _ xid Hpre) as (Hpx & Hhx & Hax); [rewrite Htx; set_solver|].
  destruct (SetStatusBit_spec c xid TRANSACTION_STATUS_ABORTED lsn) as (c2 & Hr2 & Hu2 & Hp2);
    [apply Hpre|done..|].
  exists c2. split; [|split; [congruence|apply Hu2|apply Hu2| |]].
  - unfold main_phase. rewrite Hv. cbn. unfold mbind, cmd_bind. rewrite <- Hpx. exact Hr2.
  - intros x Hx. apply (upd_allowed _ _ _ _ _ _ Hu2).
    apply (page_pre_bit _ _ _ _ _ x Hpre). rewrite Htx. set_solver.
  - intros c3 Hu3. rewrite Htx. apply (upd_perm _ _ ([xid] ++ subs)); [set_solver|].
    by eapply upd_app.
Qed.

Lemma main_phase_spec c xid subs st lsn pageno :
  page_pre c xid subs st pageno →
  ∃ c1, main_phase xid subs st lsn pageno c = Ret (tt, c1) ∧ main_post c c1 xid subs st lsn.
Proof using HB.
  intros Hpre. destruct (decide (xid = InvalidTransactionId)) as [->|Hxid].
  - exists c. split; [done|]. split; try done; [apply Hpre|].
    intros x Hx. apply (page_pre_bit _ _ _ _ _ x Hpre). done.
  - destruct (pp_status _ _ _ _ _ Hpre) as [->|[->|[_ ?]]];
      [by apply main_phase_commit|by apply main_phase_abort|done].
Qed.

Lemma SetPageStatus_spec c xid n subs mem st lsn pageno :
  take (Z.to_nat n) mem = subs → 0 ≤ n ≤ Z.of_nat (length mem) →
  page_pre c xid subs st pageno →
  ∃ c', TransactionIdSetPageStatus xid n mem st lsn pageno c = Ret (tt, c') ∧
        upd c c' (tree_xids xid subs) st lsn ∧ published c' = published c ++ [pages c'].
Proof using HB.
  intros Hsubs Hn Hpre.
  destruct (main_phase_spec _ _ _ _ lsn _ Hpre) as (c1 & Hr1 & Hpost).
  pose proof (pp_status _ _ _ _ _ Hpre) as Hst.
  destruct (set_bits_spec c1 subs st lsn pageno) as (c2 & Hr2 & Hu2 & Hp2); [apply Hpost| | |].
  { destruct Hst as [->|[->|[-> _]]]; done. }
  { intros x Hx. assert (TransactionIdToPage x = pageno) as Hpx
      by (apply Hpre; unfold tree_xids; destruct (TransactionIdIsValid xid); set_solver).
    split_and!; [done| |by apply Hpost]. unfold has_page. rewrite Hpx. apply Hpost, Hpre. }
  pose proof (mp_upd _ _ _ _ _ _ Hpost _ Hu2) as Hcomp.
  destruct (set_dirty_spec c2 c _ st lsn pageno Hcomp) as (c3 & Hr3 & Hu3 & Hp3).
  { apply (upd_dom _ _ _ _ _ Hcomp), Hpre. }
  assert (Hfor : ∀ st s, cfor_range 0 n (λ i, sub ← lift (arr_get mem i);
     _ ← Assert (pageno =? TransactionIdToPage sub); TransactionIdSetStatusBit sub st lsn pageno) s =
     set_subs pageno lsn subs st s).
  { intros st' s. rewrite (cfor_range_list mem (λ sub, _ ← Assert (pageno =? TransactionIdToPage sub);
     TransactionIdSetStatusBit sub st' lsn pageno) n s Hn), Hsubs. done. }
  eexists. split; [|split].
  - unfold TransactionIdSetPageStatus. erewrite bind_Ret.
    2:{ unfold Assert. destruct Hst as [->|[->|[-> ->]]]; done. }
    erewrite bind_Ret; [|unfold SimpleLruReadPage; destruct (pp_has _ _ _ _ _ Hpre) as [p ->]; done].
    erewrite bind_Ret.
    2:{ rewrite <- Hr1. unfold main_phase. destruct (TransactionIdIsValid xid); [|done].
        destruct (st =? TRANSACTION_STATUS_COMMITTED); [|done].
        unfold mbind, cmd_bind. by rewrite <- Hfor. }
    erewrite bind_Ret; [|rewrite <- Hr2; apply Hfor].
    erewrite bind_Ret; [|exact Hr3]. reflexivity.
  - destruct Hu3 as [F1 F2 F3 F4 F5 F6]. by split.
  - cbn [published pages]. pose proof (mp_pub _ _ _ _ _ _ Hpost). congruence.
Qed.

(** *** Runs of pages *)

(** A published state in which some of the transactions [ys] have got their
    new status. *)
Definition between (c : Clog) (ys : list TransactionId) (st : Z) (t : pagetable) : Prop :=
  pt_wf t ∧ (∀ n, is_Some (t !! n) ↔ is_Some (pages c !! n)) ∧
  ∀ z, pt_status t z = pt_status (pages c) z ∨
       (z ∈ ys ∧ pt_status t z = newst (InRecovery c) (pt_status (pages c) z) st).

Lemma between_refl c st : pt_wf (pages c) → between c [] st (pages c).
Proof using. clear HB. intros H. split; [done|]. split; [done|]. intros z. by left. Qed.

Lemma upd_between c c' xs st lsn : upd c c' xs st lsn → between c xs st (pages c').
Proof using.
  clear HB. intros H. split; [apply H|]. split; [apply H|].
  intros z. rewrite (upd_status _ _ _ _ _ H). case_decide; auto.
Qed.

Lemma between_app_l c xs ys st t : between c xs st t → between c (xs ++ ys) st t.
Proof using.
  clear HB. intros (Hw & Hd & H). split; [done|]. split; [done|].
  intros z. destruct (H z) as [?|[??]]; [by left|right; set_solver].
Qed.

Lemma between_after c c1 xs ys st lsn t :
  upd c c1 xs st lsn → between c1 ys st t → between c (xs ++ ys) st t.
Proof using.
  clear HB.
  intros Hu (Hw & Hd & H). split; [done|].
  split; [intros n; rewrite Hd; apply (upd_dom _ _ _ _ _ Hu)|].
  intros z. pose proof (upd_status _ _ _ _ _ Hu z) as Hz.
  destruct (H z) as [E|[Hy E]]; rewrite E, ?Hz, ?(upd_rec _ _ _ _ _ Hu);
    case_decide; rewrite ?newst_idem; set_solver.
Qed.

Definition seg {A} (i j : nat) (l : list A) : list A := take (j - i) (drop i l).

Lemma seg_split {A} (i j k : nat) (l : list A) :
  (i ≤ j ≤ k)%nat → seg i k l = seg i j l ++ seg j k l.
Proof using.
  clear HB.
  intros H. unfold seg. replace (k - i)%nat with ((j - i) + (k - j))%nat by lia.
  rewrite <- take_take_drop, drop_drop. do 3 f_equal. lia.
Qed.

Lemma page_run_loop_spec fuel (n : nat) l pageno (i : nat) num :
  (i ≤ n < length l)%nat → (n - i < fuel)%nat →
  ∃ j, (i ≤ j ≤ n)%nat ∧
    page_run_loop fuel (Z.of_nat n) l pageno (Z.of_nat i) num =
      Ret (Z.of_nat j, num + Z.of_nat (j - i)) ∧
    (∀ x, x ∈ seg i j l → TransactionIdToPage x = pageno) ∧
    ((i < n)%nat → ∀ x, l !! i = Some x → TransactionIdToPage x = pageno → (i < j)%nat).
Proof using.
  clear HB.
  revert i num. induction fuel as [|fuel IH]; intros i num Hi Hf; [lia|].
  destruct (lookup_lt_is_Some_2 l i) as [x Hx]; [lia|]. cbn [page_run_loop].
  assert (arr_get l (Z.of_nat i) = Ret x) as -> by (apply arr_get_Some; rewrite Nat2Z.id; auto with lia).
  cbn [mbind outcome_bind].
  destruct (Z.eqb_spec (TransactionIdToPage x) pageno) as [Ep|Ep];
    destruct (Z.ltb_spec (Z.of_nat i) (Z.of_nat n)) as [Hlt|Hge]; cbn [andb].
  - destruct (IH (S i) (num + 1)) as (j & Hj & Hrun & Hseg & _); [lia..|].
    exists j. split_and!; [lia..| | |lia].
    + replace (Z.of_nat i + 1) with (Z.of_nat (S i)) by lia. rewrite Hrun.
      do 2 f_equal. lia.
    + intros y Hy. rewrite (seg_split i (S i)) in Hy by lia. apply elem_of_app in Hy as [Hy|Hy]; [|auto].
      unfold seg in Hy. replace (S i - i)%nat with 1%nat in Hy by lia.
      rewrite (drop_S _ _ _ Hx) in Hy. by apply list_elem_of_singleton in Hy as ->.
  - exists i. unfold seg. rewrite Nat.sub_diag. split_and!; [lia..| | |].
    + do 2 f_equal. lia.
    + by intros y ?%elem_of_nil.
    + intros ? y. lia.
  - exists i. unfold seg. rewrite Nat.sub_diag. split_and!; [lia..| | |].
    + do 2 f_equal. lia.
    + by intros y ?%elem_of_nil.
    + intros _ y ? ?. simplify_eq.
  - exists i. unfold seg. rewrite Nat.sub_diag. split_and!; [lia..| | |].
    + do 2 f_equal. lia.
    + by intros y ?%elem_of_nil.
    + intros ? y. lia.
Qed.

Record pages_pre (c : Clog) (ys : list TransactionId) (st : Z) : Prop := {
  pb_wf : pt_wf (pages c);
  pb_has y : y ∈ ys → has_page (pages c) y;
  pb_status : 0 < st < 4;
  pb_allowed y : y ∈ ys → allowed (InRecovery c) (pt_status (pages c) y) st = true
}.

Lemma pages_pre_upd c c' xs ys zs st lsn :
  upd c c' xs st lsn → pages_pre c ys st → (∀ z, z ∈ zs → z ∈ ys) → pages_pre c' zs st.
Proof using.
  clear HB.
  intros Hu Hp Hz. split; [apply Hu| |apply Hp|].
  - intros y Hy. apply (upd_has_page _ _ _ _ _ _ Hu). by apply Hp, Hz.
  - intros y Hy. apply (upd_allowed _ _ _ _ _ _ Hu). by apply Hp, Hz.
Qed.

Lemma pages_pre_page c ys st pageno :
  pages_pre c ys st → ys ≠ [] → (∀ y, y ∈ ys → TransactionIdToPage y = pageno) →
  page_pre c InvalidTransactionId ys st pageno.
Proof using.
  clear HB.
  intros Hp Hne Hpg. split; [apply Hp|done| | |apply Hp|done].
  - destruct ys as [|y ys]; [done|]. rewrite <- (Hpg y) by set_solver. apply (pb_has _ _ _ Hp). set_solver.
  - pose proof (pb_status _ _ _ Hp).
    assert (st = 1 ∨ st = 2 ∨ st = 3) as [->|[->| ->]] by lia; auto.
Qed.

Lemma by_pages_loop_spec fuel (n : nat) l st lsn pageno (i : nat) c :
  (i ≤ n < length l)%nat → (n - i < fuel)%nat →
  (∀ x, (i < n)%nat → l !! i = Some x → pageno = TransactionIdToPage x) →
  pages_pre c (seg i n l) st →
  ∃ c' tr, by_pages_loop fuel (Z.of_nat n) l st lsn pageno (Z.of_nat i) (Z.of_nat i) c = Ret (tt, c') ∧
    upd c c' (seg i n l) st lsn ∧ published c' = published c ++ tr ∧
    Forall (between c (seg i n l) st) tr.
Proof using HB.
  revert i pageno c. induction fuel as [|fuel IH]; intros i pageno c Hi Hf Hpg Hpre; [lia|].
  cbn [by_pages_loop]. destruct (Z.ltb_spec (Z.of_nat i) (Z.of_nat n)) as [Hlt|Hge].
  2:{ assert (i = n) as -> by lia. exists c, []. unfold seg. rewrite Nat.sub_diag, app_nil_r.
      split; [done|]. split; [apply upd_nil, Hpre|]. done. }
  destruct (page_run_loop_spec (S (Z.to_nat (Z.of_nat n))) n l pageno i 0) as (j & Hj & Hrun & Hseg & Hpos);
    [lia..|].
  destruct (lookup_lt_is_Some_2 l i) as [x Hx]; [lia|].
  specialize (Hpos ltac:(lia) x Hx (eq_sym (Hpg x ltac:(lia) Hx))).
  pose proof (seg_split i j n l ltac:(lia)) as Hsplit.
  assert (Hlen : length (seg i j l) = (j - i)%nat) by (unfold seg; rewrite length_take, length_drop; lia).
  destruct (SetPageStatus_spec c InvalidTransactionId (0 + Z.of_nat (j - i)) (seg i j l) (drop i l) st lsn pageno)
    as (c1 & Hr1 & Hu1 & Hp1).
  { unfold seg. do 2 f_equal. lia. }
  { rewrite length_drop. lia. }
  { apply pages_pre_page; [|intros E; rewrite E in Hlen; simpl in Hlen; lia|done].
    rewrite Hsplit in Hpre. eapply (pages_pre_upd c c [] _ _ _ lsn); [apply upd_nil, Hpre|exact Hpre|set_solver]. }
  cbn in Hu1. destruct (lookup_lt_is_Some_2 l j) as [y Hy]; [lia|].
  destruct (IH j (TransactionIdToPage y) c1) as (c2 & tr & Hr2 & Hu2 & Hp2 & Htr); [lia..| | |].
  { intros y' _ Hy'. congruence. }
  { eapply pages_pre_upd; [exact Hu1|exact Hpre|]. rewrite Hsplit. set_solver. }
  exists c2, (pages c1 :: tr). split_and!.
  - erewrite bind_Ret; [|unfold lift; by rewrite Hrun]. cbn beta iota.
    erewrite bind_Ret; [|by rewrite Nat2Z.id; exact Hr1].
    erewrite bind_Ret; [exact Hr2|]. unfold lift.
    assert (arr_get l (Z.of_nat j) = Ret y) as -> by (apply arr_get_Some; rewrite Nat2Z.id; auto with lia).
    done.
  - rewrite Hsplit. by eapply upd_app.
  - rewrite Hp2, Hp1, <- app_assoc. done.
  - rewrite Hsplit. constructor; [by eapply between_app_l, upd_between|].
    eapply Forall_impl; [exact Htr|]. intros t. by eapply between_after.
Qed.

(** [ys] followed by any readable element. *)
Lemma set_status_by_pages_spec c ys extra rest st lsn :
  ys ≠ [] → pages_pre c ys st →
  ∃ c' tr, set_status_by_pages (Z.of_nat (length ys)) (ys ++ extra :: rest) st lsn c = Ret (tt, c') ∧
    upd c c' ys st lsn ∧ published c' = published c ++ tr ∧ Forall (between c ys st) tr.
Proof using HB.
  intros Hne Hpre. destruct ys as [|y ys]; [done|].
  assert (Hseg : seg 0 (length (y :: ys)) ((y :: ys) ++ extra :: rest) = y :: ys).
  { unfold seg. rewrite drop_0, Nat.sub_0_r. apply take_app_length. }
  destruct (by_pages_loop_spec (S (Z.to_nat (Z.of_nat (length (y :: ys))))) (length (y :: ys))
    ((y :: ys) ++ extra :: rest) st lsn (TransactionIdToPage y) 0 c) as (c' & tr & H).
  { rewrite length_app. simpl. lia. }
  { lia. }
  { intros x _ Hx. by simplify_eq/=. }
  { by rewrite Hseg. }
  rewrite Hseg in H. exists c', tr. exact H.
Qed.

(** *** The whole tree *)

Lemma first_page_loop_spec l pageno (n : nat) :
  (n ≤ length l)%nat →
  ∃ k r, (k ≤ n)%nat ∧
    for_range 0 (Z.of_nat n) (λ i (_ : unit), x ← arr_get l i;
      Ret (if negb (TransactionIdToPage x =? pageno) then inr i else inl tt)) tt = Ret r ∧
    match r with inr i => i | inl _ => Z.max 0 (Z.of_nat n) end = Z.of_nat k ∧
    (∀ x, x ∈ take k l → TransactionIdToPage x = pageno).
Proof using.
  clear HB. intros Hn. unfold for_range. rewrite Z.sub_0_r, Nat2Z.id.
  apply (for_loop_inv (λ i _, ∀ x, x ∈ take (Z.to_nat i) l → TransactionIdToPage x = pageno)).
  - by intros x ?%elem_of_nil.
  - intros k [] Hk HP. destruct (arr_get_lt l k) as (x & -> & Hx); [lia|]. cbn [mbind outcome_bind].
    destruct (Z.eqb_spec (TransactionIdToPage x) pageno) as [E|E]; cbn [negb].
    + intros y. replace (Z.to_nat (k + 1)) with (S (Z.to_nat k)) by lia.
      rewrite (take_S_r _ _ _ Hx), elem_of_app, list_elem_of_singleton. intros [?| ->]; auto.
    + exists (Z.to_nat k), (inr k). split_and!; [lia|done|lia|done].
  - intros [] HP. exists n, (inl tt). split_and!; [lia|done|lia|].
    intros x Hx. apply HP. by replace (Z.to_nat (0 + Z.of_nat n)) with n by lia.
Qed.

(** The statuses from which a transaction tree may get its final status [st]. *)
Record tree_pre (c : Clog) (xid : TransactionId) (subs : list TransactionId) (st : Z) : Prop := {
  tp_wf : pt_wf (pages c);
  tp_valid : xid ≠ InvalidTransactionId;
  tp_fresh : xid ∉ subs;
  tp_status : st = TRANSACTION_STATUS_COMMITTED ∨ st = TRANSACTION_STATUS_ABORTED;
  tp_has x : x ∈ subs ++ [xid] → has_page (pages c) x;
  tp_main : allowed (InRecovery c) (pt_status (pages c) xid) st = true;
  tp_subs x : x ∈ subs →
    allowed (InRecovery c) (pt_status (pages c) x)
      (if st =? TRANSACTION_STATUS_COMMITTED then TRANSACTION_STATUS_SUB_COMMITTED else st) = true
}.

(** What another backend may find in the log while the tree gets its status:
    for a commit, either nothing but marks of subcommit so far, or the main
    transaction committed and every subtransaction committed or subcommitted. *)
Definition tree_view (c : Clog) (xid : TransactionId) (subs : list TransactionId) (st : Z)
    (t : pagetable) : Prop :=
  (pt_wf t ∧ ∀ n, is_Some (t !! n) ↔ is_Some (pages c !! n)) ∧
  (∀ z, z ∉ subs ++ [xid] → pt_status t z = pt_status (pages c) z) ∧
  if st =? TRANSACTION_STATUS_COMMITTED then
    (pt_status t xid = pt_status (pages c) xid ∧
     ∀ s, s ∈ subs → pt_status t s = pt_status (pages c) s ∨
                     pt_status t s = TRANSACTION_STATUS_SUB_COMMITTED) ∨
    (pt_status t xid = TRANSACTION_STATUS_COMMITTED ∧
     ∀ s, s ∈ subs → pt_status t s = TRANSACTION_STATUS_COMMITTED ∨
                     pt_status t s = TRANSACTION_STATUS_SUB_COMMITTED)
  else ∀ z, z ∈ subs ++ [xid] → pt_status t z = pt_status (pages c) z ∨ pt_status t z = st.

Lemma newst_final rec cur st : st ≠ TRANSACTION_STATUS_SUB_COMMITTED → newst rec cur st = st.
Proof using.
  clear HB. intros H. unfold newst. by rewrite (proj2 (Z.eqb_neq _ _) H), andb_false_r.
Qed.

Lemma newst_sub rec cur :
  newst rec cur TRANSACTION_STATUS_SUB_COMMITTED = TRANSACTION_STATUS_SUB_COMMITTED ∨
  (newst rec cur TRANSACTION_STATUS_SUB_COMMITTED = cur ∧ cur = TRANSACTION_STATUS_COMMITTED).
Proof using.
  clear HB. unfold newst. destruct (_ && (cur =? _)) eqn:E; [right|by left].
  apply andb_true_iff in E as [_ ->%Z.eqb_eq]. done.
Qed.

Lemma allowed_sub_commit rec cur :
  allowed rec cur TRANSACTION_STATUS_SUB_COMMITTED = true →
  allowed rec cur TRANSACTION_STATUS_COMMITTED = true.
Proof using.
  clear HB. unfold allowed. rewrite !orb_true_iff, !andb_true_iff, !Z.eqb_eq.
  intros [[_ ->]|[[H|[H _]]|H]]; auto.
Qed.

Lemma tree_pre_allowed c xid subs st x :
  tree_pre c xid subs st → x ∈ subs ++ [xid] →
  allowed (InRecovery c) (pt_status (pages c) x) st = true.
Proof using.
  clear HB. intros Hp [Hx|Hx]%elem_of_app.
  - pose proof (tp_subs _ _ _ _ Hp x Hx) as H. destruct (tp_status _ _ _ _ Hp) as [->| ->]; [|done].
    by apply allowed_sub_commit.
  - apply list_elem_of_singleton in Hx as ->. apply Hp.
Qed.

(** The call for the main transaction and the first [k] subtransactions, from a
    state in which later ones may already be subcommitted. *)
Lemma tree_page_pre c c1 xid (k : nat) subs lsn st :
  tree_pre c xid subs st → (∀ x, x ∈ take k subs → TransactionIdToPage x = TransactionIdToPage xid) →
  upd c c1 (if st =? TRANSACTION_STATUS_COMMITTED then drop k subs else [])
    TRANSACTION_STATUS_SUB_COMMITTED lsn →
  page_pre c1 xid (take k subs) st (TransactionIdToPage xid).
Proof using.
  clear HB. intros Hp Hk Hu. pose proof (tp_valid _ _ _ _ Hp) as Hv.
  assert (Htx : tree_xids xid (take k subs) = take k subs ++ [xid]).
  { unfold tree_xids, TransactionIdIsValid. by rewrite (proj2 (Z.eqb_neq _ _) Hv). }
  assert (Hin : ∀ x, x ∈ take k subs ++ [xid] → x ∈ subs ++ [xid]).
  { intros x. rewrite !elem_of_app. intros [Hx|?]; [left|by right].
    rewrite <- (take_drop k subs). set_solver. }
  split.
  - apply Hu.
  - intros x. rewrite Htx. rewrite elem_of_app, list_elem_of_singleton. intros [?| ->]; auto.
  - apply (upd_dom _ _ _ _ _ Hu). apply (tp_has _ _ _ _ Hp xid). set_solver.
  - destruct (tp_status _ _ _ _ Hp); auto.
  - intros x. rewrite Htx. intros Hx. pose proof (tree_pre_allowed _ _ _ _ _ Hp (Hin x Hx)) as Ha.
    rewrite (upd_rec _ _ _ _ _ Hu), (upd_status _ _ _ _ _ Hu). case_decide as Hd; [|done].
    destruct (tp_status _ _ _ _ Hp) as [->| ->]; [apply allowed_after_sub|].
    by apply elem_of_nil in Hd.
  - intros x -> _ Hx. pose proof (tp_subs _ _ _ _ Hp x) as Ha. cbn in Ha.
    apply (upd_allowed _ _ _ _ _ _ Hu), Ha. rewrite <- (take_drop k subs). set_solver.
Qed.

Lemma tree_xids_valid xid subs :
  xid ≠ InvalidTransactionId → tree_xids xid subs = subs ++ [xid].
Proof using.
  clear HB. intros H. unfold tree_xids, TransactionIdIsValid. by rewrite (proj2 (Z.eqb_neq _ _) H).
Qed.

(** Before the main transaction is marked: only subcommit marks. *)
Lemma tree_view_before c xid subs ys t :
  tree_pre c xid subs TRANSACTION_STATUS_COMMITTED → (∀ y, y ∈ ys → y ∈ subs) →
  between c ys TRANSACTION_STATUS_SUB_COMMITTED t →
  tree_view c xid subs TRANSACTION_STATUS_COMMITTED t.
Proof using.
  clear HB. intros Hp Hys (Hw & Hd & Hb). pose proof (tp_fresh _ _ _ _ Hp) as Hf.
  split; [done|]. split; [|left; split].
  - intros z Hz. destruct (Hb z) as [?|[Hy _]]; [done|]. apply Hys in Hy. set_solver.
  - destruct (Hb xid) as [?|[Hy _]]; [done|]. by apply Hys in Hy.
  - intros s Hs. destruct (Hb s) as [?|[_ ->]]; [by left|].
    destruct (newst_sub (InRecovery c) (pt_status (pages c) s)) as [->|[-> _]]; auto.
Qed.

(** After: the main transaction is committed, the others at least subcommitted. *)
Lemma tree_view_after c c1 c2 xid subs k ys lsn t :
  tree_pre c xid subs TRANSACTION_STATUS_COMMITTED →
  upd c c1 (drop k subs) TRANSACTION_STATUS_SUB_COMMITTED lsn →
  upd c1 c2 (take k subs ++ [xid]) TRANSACTION_STATUS_COMMITTED lsn →
  (∀ y, y ∈ ys → y ∈ subs) → between c2 ys TRANSACTION_STATUS_COMMITTED t →
  tree_view c xid subs TRANSACTION_STATUS_COMMITTED t.
Proof using.
  clear HB. intros Hp H1 H2 Hys (Hw & Hd & Hb). pose proof (tp_fresh _ _ _ _ Hp) as Hf.
  assert (Hnew : ∀ rec cur, newst rec cur TRANSACTION_STATUS_COMMITTED = TRANSACTION_STATUS_COMMITTED)
    by (intros; by apply newst_final).
  assert (Hc2 : ∀ z, pt_status (pages c2) z = if decide (z ∈ take k subs ++ [xid])
            then TRANSACTION_STATUS_COMMITTED else pt_status (pages c1) z)
    by (intros z; by rewrite (upd_status _ _ _ _ _ H2), Hnew).
  assert (Hsubs : ∀ z, z ∈ subs → z ∈ take k subs ∨ z ∈ drop k subs)
    by (intros z; rewrite <- (take_drop k subs) at 1; set_solver).
  assert (Hsubs' : ∀ z, z ∈ take k subs ∨ z ∈ drop k subs → z ∈ subs)
    by (intros z; rewrite <- (take_drop k subs) at 3; set_solver).
  split.
  { split; [done|]. intros n. rewrite Hd, (upd_dom _ _ _ _ _ H2). apply H1. }
  split; [|right; split].
  - intros z Hz. assert (z ∉ subs) as Hz' by set_solver.
    destruct (Hb z) as [->|[Hy _]]; [|by apply Hys in Hy].
    rewrite Hc2, decide_False by set_solver.
    rewrite (upd_status _ _ _ _ _ H1), decide_False by set_solver. done.
  - assert (pt_status (pages c2) xid = TRANSACTION_STATUS_COMMITTED) as E
      by (rewrite Hc2, decide_True by set_solver; done).
    destruct (Hb xid) as [->|[_ ->]]; [done|apply Hnew].
  - intros s Hs. destruct (Hb s) as [->|[_ ->]]; [|left; apply Hnew].
    rewrite Hc2. case_decide; [by left|]. rewrite (upd_status _ _ _ _ _ H1).
    rewrite decide_True by set_solver.
    destruct (newst_sub (InRecovery c) (pt_status (pages c) s)) as [->|[-> ->]]; auto.
Qed.

Lemma tree_view_abort c xid subs xs t :
  (∀ x, x ∈ xs → x ∈ subs ++ [xid]) → between c xs TRANSACTION_STATUS_ABORTED t →
  tree_view c xid subs TRANSACTION_STATUS_ABORTED t.
Proof using.
  clear HB. intros Hxs (Hw & Hd & Hb). split; [done|]. split; [|cbn].
  - intros z Hz. destruct (Hb z) as [?|[Hy _]]; [done|]. by apply Hxs in Hy.
  - intros z Hz. destruct (Hb z) as [?|[_ ->]]; [by left|right]. by apply newst_final.
Qed.

(** The result of an operation that marks the tree: its final state and the
    states it publishes. *)
Definition tree_post (c c' : Clog) (xid : TransactionId) (subs : list TransactionId) (st : Z)
    (lsn : XLogRecPtr) : Prop :=
  upd c c' (subs ++ [xid]) st lsn ∧
  ∃ tr, published c' = published c ++ tr ∧ Forall (tree_view c xid subs st) tr.

Lemma tree_multi_commit c xid k subs extra rest lsn :
  tree_pre c xid subs TRANSACTION_STATUS_COMMITTED → (k < length subs)%nat →
  (∀ x, x ∈ take k subs → TransactionIdToPage x = TransactionIdToPage xid) →
  ∃ c', (_ ← set_status_by_pages (Z.of_nat (length subs) - Z.of_nat k)
               (drop k subs ++ extra :: rest) TRANSACTION_STATUS_SUB_COMMITTED lsn;
         _ ← TransactionIdSetPageStatus xid (Z.of_nat k) (subs ++ extra :: rest)
               TRANSACTION_STATUS_COMMITTED lsn (TransactionIdToPage xid);
         set_status_by_pages (Z.of_nat (length subs) - Z.of_nat k)
               (drop k subs ++ extra :: rest) TRANSACTION_STATUS_COMMITTED lsn) c = Ret (tt, c') ∧
        tree_post c c' xid subs TRANSACTION_STATUS_COMMITTED lsn.
Proof using HB.
  intros Hp Hk Hpg. replace (Z.of_nat (length subs) - Z.of_nat k) with (Z.of_nat (length (drop k subs)))
    by (rewrite length_drop; lia).
  assert (Hne : drop k subs ≠ []) by (intros E; apply (f_equal length) in E; rewrite length_drop in E; simpl in E; lia).
  assert (Hin : ∀ z, z ∈ drop k subs → z ∈ subs) by (intros z; rewrite <- (take_drop k subs) at 2; set_solver).
  destruct (set_status_by_pages_spec c (drop k subs) extra rest TRANSACTION_STATUS_SUB_COMMITTED lsn Hne)
    as (c1 & tr1 & Hr1 & Hu1 & Hp1 & Ht1).
  { split; [apply Hp| |done|].
    - intros y Hy. apply (tp_has _ _ _ _ Hp). set_solver.
    - intros y Hy. apply (tp_subs _ _ _ _ Hp y). by apply Hin. }
  destruct (SetPageStatus_spec c1 xid (Z.of_nat k) (take k subs) (subs ++ extra :: rest)
    TRANSACTION_STATUS_COMMITTED lsn (TransactionIdToPage xid)) as (c2 & Hr2 & Hu2 & Hp2).
  { rewrite Nat2Z.id. apply take_app_le. lia. }
  { rewrite length_app. lia. }
  { eapply tree_page_pre; eauto. }
  rewrite tree_xids_valid in Hu2 by apply Hp.
  destruct (set_status_by_pages_spec c2 (drop k subs) extra rest TRANSACTION_STATUS_COMMITTED lsn Hne)
    as (c3 & tr3 & Hr3 & Hu3 & Hp3 & Ht3).
  { split; [apply Hu2| |done|].
    - intros y Hy. apply (upd_has_page _ _ _ _ _ _ Hu2), (upd_has_page _ _ _ _ _ _ Hu1).
      apply (tp_has _ _ _ _ Hp). set_solver.
    - intros y Hy. apply (upd_allowed _ _ _ _ _ _ Hu2).
      rewrite (upd_rec _ _ _ _ _ Hu1), (upd_status _ _ _ _ _ Hu1), decide_True by done.
      apply allowed_after_sub. }
  exists c3. split; [|split].
  - erewrite bind_Ret; [|exact Hr1]. erewrite bind_Ret; [|exact Hr2]. exact Hr3.
  - apply (upd_perm _ _ ((take k subs ++ [xid]) ++ drop k subs)).
    { intros z. rewrite <- (take_drop k subs) at 3. set_solver. }
    eapply upd_hide; [exact Hu1|by eapply upd_app|set_solver|done].
  - exists (tr1 ++ pages c2 :: tr3). split; [rewrite Hp3, Hp2, Hp1, <- !app_assoc; done|].
    apply Forall_app. split; [|constructor].
    + eapply Forall_impl; [exact Ht1|]. intros t. by apply tree_view_before.
    + eapply (tree_view_after c c1 c2 xid subs k []); eauto; [set_solver|]. apply between_refl, Hu2.
    + eapply Forall_impl; [exact Ht3|]. intros t. by eapply tree_view_after.
Qed.

Lemma tree_multi_abort c xid k subs extra rest lsn :
  tree_pre c xid subs TRANSACTION_STATUS_ABORTED → (k < length subs)%nat →
  (∀ x, x ∈ take k subs → TransactionIdToPage x = TransactionIdToPage xid) →
  ∃ c', (_ ← TransactionIdSetPageStatus xid (Z.of_nat k) (subs ++ extra :: rest)
               TRANSACTION_STATUS_ABORTED lsn (TransactionIdToPage xid);
         set_status_by_pages (Z.of_nat (length subs) - Z.of_nat k)
               (drop k subs ++ extra :: rest) TRANSACTION_STATUS_ABORTED lsn) c = Ret (tt, c') ∧
        tree_post c c' xid subs TRANSACTION_STATUS_ABORTED lsn.
Proof using HB.
  intros Hp Hk Hpg. replace (Z.of_nat (length subs) - Z.of_nat k) with (Z.of_nat (length (drop k subs)))
    by (rewrite length_drop; lia).
  assert (Hne : drop k subs ≠ []) by (intros E; apply (f_equal length) in E; rewrite length_drop in E; simpl in E; lia).
  assert (Hin : ∀ z, z ∈ drop k subs → z ∈ subs) by (intros z; rewrite <- (take_drop k subs) at 2; set_solver).
  assert (Hin' : ∀ z, z ∈ take k subs → z ∈ subs) by (intros z; rewrite <- (take_drop k subs) at 2; set_solver).
  destruct (SetPageStatus_spec c xid (Z.of_nat k) (take k subs) (subs ++ extra :: rest)
    TRANSACTION_STATUS_ABORTED lsn (TransactionIdToPage xid)) as (c2 & Hr2 & Hu2 & Hp2).
  { rewrite Nat2Z.id. apply take_app_le. lia. }
  { rewrite length_app. lia. }
  { apply (tree_page_pre c _ _ _ _ lsn); eauto. by apply upd_nil, Hp. }
  rewrite tree_xids_valid in Hu2 by apply Hp.
  destruct (set_status_by_pages_spec c2 (drop k subs) extra rest TRANSACTION_STATUS_ABORTED lsn Hne)
    as (c3 & tr3 & Hr3 & Hu3 & Hp3 & Ht3).
  { split; [apply Hu2| |done|].
    - intros y Hy. apply (upd_has_page _ _ _ _ _ _ Hu2), (tp_has _ _ _ _ Hp). set_solver.
    - intros y Hy. apply (upd_allowed _ _ _ _ _ _ Hu2), (tp_subs _ _ _ _ Hp y). by apply Hin. }
  exists c3. split; [|split].
  - erewrite bind_Ret; [|exact Hr2]. exact Hr3.
  - apply (upd_perm _ _ ((take k subs ++ [xid]) ++ drop k subs)); [|by eapply upd_app].
    intros z. rewrite <- (take_drop k subs) at 3. set_solver.
  - exists (pages c2 :: tr3). split; [rewrite Hp3, Hp2, <- !app_assoc; done|]. constructor.
    + eapply tree_view_abort; [|by eapply upd_between]. set_solver.
    + eapply Forall_impl; [exact Ht3|]. intros t Ht.
      eapply tree_view_abort; [|by eapply between_after]. set_solver.
Qed.

Lemma SetTreeStatus_spec c xid subs extra rest st lsn :
  tree_pre c xid subs st →
  ∃ c', TransactionIdSetTreeStatus xid (Z.of_nat (length subs)) (subs ++ extra :: rest) st lsn c =
          Ret (tt, c') ∧ tree_post c c' xid subs st lsn.
Proof using HB.
  intros Hp. destruct (first_page_loop_spec (subs ++ extra :: rest) (TransactionIdToPage xid) (length subs))
    as (k & r & Hk & Hr & Hrk & Hpg); [rewrite length_app; lia|].
  rewrite take_app_le in Hpg by done.
  unfold TransactionIdSetTreeStatus. erewrite bind_Ret.
  2:{ destruct (tp_status _ _ _ _ Hp) as [->| ->]; done. }
  erewrite bind_Ret; [|unfold lift; by rewrite Hr]. rewrite Hrk.
  destruct (Z.eqb_spec (Z.of_nat k) (Z.of_nat (length subs))) as [E|E].
  - assert (k = length subs) as -> by lia. rewrite firstn_all in Hpg.
    destruct (SetPageStatus_spec c xid (Z.of_nat (length subs)) subs (subs ++ extra :: rest) st lsn
      (TransactionIdToPage xid)) as (c' & Hr2 & Hu2 & Hp2).
    { rewrite Nat2Z.id. apply take_app_length. }
    { rewrite length_app. lia. }
    { pose proof (tree_page_pre c c xid (length subs) subs lsn st Hp) as H.
      rewrite firstn_all, drop_ge in H by lia. apply H; [done|].
      destruct (_ =? _); apply upd_nil, Hp. }
    rewrite tree_xids_valid in Hu2 by apply Hp.
    exists c'. split; [done|]. split; [done|]. exists [pages c']. split; [done|]. constructor; [|done].
    destruct (tp_status _ _ _ _ Hp) as [->| ->].
    + eapply (tree_view_after c c c' xid subs (length subs) []); eauto.
      * rewrite drop_ge by lia. apply upd_nil, Hp.
      * by rewrite firstn_all.
      * set_solver.
      * apply between_refl, Hu2.
    + eapply tree_view_abort; [|by eapply upd_between]. done.
  - rewrite Nat2Z.id, drop_app_le by lia.
    destruct (tp_status _ _ _ _ Hp) as [->| ->]; cbn [Z.eqb TRANSACTION_STATUS_COMMITTED TRANSACTION_STATUS_ABORTED].
    + apply tree_multi_commit; [done|lia|done].
    + destruct (tree_multi_abort c xid k subs extra rest lsn) as (c' & Hr' & H'); [done|lia|done|].
      exists c'. split; [|done]. unfold mbind, cmd_bind. exact Hr'.
Qed.

(** *** Reading back *)

Lemma GetStatus_spec c x :
  pt_wf (pages c) → has_page (pages c) x →
  TransactionIdGetStatus x c = Ret ((pt_status (pages c) x, pt_lsn (pages c) x), c).
Proof using HB.
  intros Hwf [p Hp]. pose proof (Hwf _ _ Hp) as (Hlen & _ & Hlsns).
  destruct (xid_position x) as (_ & Hbx & _ & Hgx).
  unfold TransactionIdGetStatus. erewrite bind_Ret; [|unfold SimpleLruReadPage; by rewrite Hp].
  erewrite bind_Ret; [|unfold get_slot; by rewrite Hp].
  erewrite bind_Ret; [|unfold lift; by rewrite wd_get by lia].
  destruct (arr_get_lt (group_lsn p) (GetLSNIndex x)) as (l & Hl & Hl'); [lia|].
  erewrite bind_Ret; [|unfold lift; by rewrite Hl].
  unfold pt_status, pt_lsn. rewrite Hp, Hl'. done.
Qed.


(** [set_status_by_pages] reads the element after the end of [subxids]:
    when the memory that may be read holds exactly the [nsubxids] elements, all
    on one page of the log, the call has undefined behaviour. *)
Theorem set_status_by_pages_overread c ys y st lsn :
  y ∈ ys → (∀ x, x ∈ ys → TransactionIdToPage x = TransactionIdToPage y) →
  set_status_by_pages (Z.of_nat (length ys)) ys st lsn c = UB.
Proof using.
  clear HB. intros Hy Hpg. destruct ys as [|y0 ys]; [by apply elem_of_nil in Hy|].
  assert (Hrun : ∀ fuel i num, (i ≤ length (y0 :: ys))%nat → (length (y0 :: ys) - i < fuel)%nat →
    page_run_loop fuel (Z.of_nat (length (y0 :: ys))) (y0 :: ys) (TransactionIdToPage y) (Z.of_nat i) num = UB).
  { induction fuel as [|fuel IH]; intros i num Hi Hf; [lia|]. cbn [page_run_loop].
    destruct (decide (i = length (y0 :: ys))) as [->|Hne].
    - unfold arr_get. rewrite Nat2Z.id, lookup_ge_None_2 by done. by destruct (_ <? _).
    - destruct (lookup_lt_is_Some_2 (y0 :: ys) i) as [x Hx]; [lia|].
      assert (arr_get (y0 :: ys) (Z.of_nat i) = Ret x) as ->
        by (apply arr_get_Some; rewrite Nat2Z.id; auto with lia).
      cbn [mbind outcome_bind]. rewrite Hpg, Z.eqb_refl by (by eapply list_elem_of_lookup_2).
      rewrite (proj2 (Z.ltb_lt _ _)) by lia. cbn [andb].
      replace (Z.of_nat i + 1) with (Z.of_nat (S i)) by lia. apply IH; lia. }
  unfold set_status_by_pages. erewrite bind_Ret; [|done].
  rewrite (Hpg y0) by set_solver. cbn [by_pages_loop].
  rewrite (proj2 (Z.ltb_lt _ _)) by (simpl; lia).
  unfold mbind at 1, cmd_bind at 1, lift at 1. rewrite (Hrun _ 0%nat) by lia. done.
Qed.

(** *** Room for new transactions *)

Lemma byte_trim_get b i j :
  is_sint 8 b → 0 ≤ i < 4 → 0 ≤ j < 4 →
  byte_get (wrap_s 8 (Z.land b (Z.shiftl 1 (i * 2) - 1))) (j * 2) =
  if j <? i then byte_get b (j * 2) else 0.
Proof using.
  clear HB. intros Hb Hi Hj.
  assert (forallb (λ b, forallb (λ i, forallb (λ j,
    byte_get (wrap_s 8 (Z.land b (Z.shiftl 1 (i * 2) - 1))) (j * 2) =?
    (if j <? i then byte_get b (j * 2) else 0))
    (seqZ 0 4)) (seqZ 0 4)) (seqZ (-128) 256) = true) as H by by vm_compute.
  unfold is_sint in Hb. change (2 ^ (8 - 1)) with 128 in Hb.
  apply (forallb_seqZ _ _ _ b) in H; [|lia]. apply (forallb_seqZ _ _ _ i) in H; [|lia].
  apply (forallb_seqZ _ _ _ j) in H; [|lia]. by apply Z.eqb_eq.
Qed.

(** An array cut at index [k], with [x] there and zeroes behind. *)
Lemma wd_trim l k x m j :
  0 ≤ k < Z.of_nat (length l) → 0 ≤ j →
  wd (take (Z.to_nat k) l ++ x :: replicate m 0) j =
  if j <? k then wd l j else if j =? k then x else 0.
Proof using.
  clear HB. intros Hk Hj. unfold wd. assert (Hl : length (take (Z.to_nat k) l) = Z.to_nat k)
    by (rewrite length_take; lia).
  destruct (Z.ltb_spec j k).
  - rewrite lookup_app_l by lia. rewrite lookup_take_lt by lia. done.
  - rewrite lookup_app_r, Hl by lia. destruct (Z.eqb_spec j k) as [->|].
    + by rewrite Nat.sub_diag.
    + replace (Z.to_nat j - Z.to_nat k)%nat with (S (Z.to_nat (j - k - 1))) by lia. cbn [lookup list_lookup].
      destruct (replicate m 0 !! Z.to_nat (j - k - 1)) eqn:E; [|done].
      by apply lookup_replicate_1 in E as [-> _].
Qed.

Lemma TrimCLOG_spec c x p :
  pt_wf (pages c) → pages c !! TransactionIdToPage x = Some p →
  ∃ c', TrimCLOG x c = Ret (tt, c') ∧ pt_wf (pages c') ∧
     ∀ z, pt_status (pages c') z =
          if bool_decide (TransactionIdToPage z = TransactionIdToPage x)
             && negb (TransactionIdToPgIndex x =? 0) && (x <=? z)
          then TRANSACTION_STATUS_IN_PROGRESS else pt_status (pages c) z.
Proof using HB.
  intros Hwf Hp.
  destruct (Z.eqb_spec (TransactionIdToPgIndex x) 0) as [E0|E0].
  { eexists. unfold TrimCLOG. rewrite E0. split; [done|]. split; [done|].
    intros z. cbn [negb pages]. by rewrite andb_false_r. }
  pose proof (Hwf _ _ Hp) as (Hlen & Hbytes & Hlsns).
  destruct (xid_position x) as (Hx & Hbx & Hix & _). eexists. split; [|split].
  + unfold TrimCLOG. erewrite bind_Ret; [|done].
    rewrite (proj2 (Z.eqb_neq _ _) E0). cbn [negb]. erewrite bind_Ret; [|].
    2:{ erewrite bind_Ret; [|unfold SimpleLruReadPage; cbn [pages]; by rewrite Hp].
        erewrite bind_Ret; [|unfold get_slot; cbn [pages]; by rewrite Hp].
        erewrite bind_Ret; [|unfold lift; by rewrite wd_get by lia]. done. }
    done.
  + cbn [pages]. apply map_Forall_insert_2; [|done]. split_and!; cbn [page_buffer group_lsn]; [| |done].
    * rewrite length_app, length_take. simpl. rewrite length_replicate. lia.
    * intros i. destruct (Z_lt_le_dec i 0) as [Hi|Hi].
      { replace (wd _ i) with (wd (take (Z.to_nat (TransactionIdToByte x)) (page_buffer p) ++
          wrap_s 8 (Z.land (wd (page_buffer p) (TransactionIdToByte x))
            (Z.shiftl 1 (TransactionIdToBIndex x * CLOG_BITS_PER_XACT) - 1))
          :: replicate (Z.to_nat (BLCKSZ - TransactionIdToByte x - 1)) 0) 0)
          by (unfold wd; replace (Z.to_nat i) with (Z.to_nat 0) by lia; done).
        rewrite wd_trim by lia. destruct (0 <? _); [done|]. destruct (0 =? _); [|done].
        apply wrap_s_bound. lia. }
      { rewrite wd_trim by lia. destruct (i <? _); [done|]. destruct (i =? _); [|done].
        apply wrap_s_bound. lia. }
  + intros z. cbn [pages]. destruct (xid_position z) as (Hz & Hbz & Hiz & _). unfold pt_status.
    case_bool_decide as Epg; cbn [andb]; [|by rewrite lookup_insert_ne].
    rewrite Epg, lookup_insert_eq, Hp. cbn [page_buffer]. rewrite wd_trim by lia.
    destruct (Z.ltb_spec (TransactionIdToByte z) (TransactionIdToByte x)) as [Hlt|Hge].
    { rewrite (proj2 (Z.leb_gt x z)) by nia. done. }
    destruct (Z.eqb_spec (TransactionIdToByte z) (TransactionIdToByte x)) as [Eb|Eb].
    * match goal with |- ?a = _ => change a with (byte_get (wrap_s 8 (Z.land (wd (page_buffer p)
        (TransactionIdToByte x)) (Z.shiftl 1 (TransactionIdToBIndex x * 2) - 1)))
        (TransactionIdToBIndex z * 2)) end.
      rewrite byte_trim_get, Eb by done.
      destruct (Z.ltb_spec (TransactionIdToBIndex z) (TransactionIdToBIndex x)), (Z.leb_spec x z);
        done || nia.
    * rewrite (proj2 (Z.leb_le x z)) by nia. by rewrite Z.shiftr_0_l.
Qed.

Lemma ExtendCLOG_spec c y :
  pt_wf (pages c) → TransactionIdToPgIndex y = 0 ∨ y = FirstNormalTransactionId →
  ∃ c', ExtendCLOG y c = Ret (tt, c') ∧ pt_wf (pages c') ∧
     ∀ z, has_page (pages c') y ∧
          pt_status (pages c') z =
          if bool_decide (TransactionIdToPage z = TransactionIdToPage y)
          then TRANSACTION_STATUS_IN_PROGRESS else pt_status (pages c) z.
Proof using HB.
  intros Hwf Hy. eexists. split; [|split].
+ unfold ExtendCLOG. replace (negb (TransactionIdToPgIndex y =? 0) &&
    negb (TransactionIdEquals y FirstNormalTransactionId)) with false; [done|].
  unfold TransactionIdEquals. symmetry. apply andb_false_iff. rewrite !negb_false_iff, !Z.eqb_eq. done.
+ cbn [pages]. apply map_Forall_insert_2; [|done]. destruct clog_sizes as (_ & ? & ?).
  split_and!; cbn [page_buffer group_lsn zero_page]; [rewrite length_replicate; lia| |rewrite length_replicate; lia].
  intros i. by rewrite wd_replicate.
+ intros z. cbn [pages]. split; [unfold has_page; rewrite lookup_insert_eq; done|].
  unfold pt_status. case_bool_decide as Epg; [|by rewrite lookup_insert_ne].
  rewrite Epg, lookup_insert_eq. cbn [page_buffer zero_page]. by rewrite wd_replicate, Z.shiftr_0_l.
Qed.

(** Transactions that have not been assigned yet are in progress in the log:
    [TrimCLOG], with the next transaction id, leaves the statuses of the earlier
    transactions of its page and of all other pages, and clears those of the next
    and later transactions of its page; [ExtendCLOG], for the first transaction of
    a page, makes a page of in-progress transactions and leaves the others. *)
Theorem CLOG_new_transactions c x :
  pt_wf (pages c) → has_page (pages c) x →
  (∃ c', TrimCLOG x c = Ret (tt, c') ∧ pt_wf (pages c') ∧
     ∀ z, pt_status (pages c') z =
          if bool_decide (TransactionIdToPage z = TransactionIdToPage x)
             && negb (TransactionIdToPgIndex x =? 0) && (x <=? z)
          then TRANSACTION_STATUS_IN_PROGRESS else pt_status (pages c) z) ∧
  (∀ y, TransactionIdToPgIndex y = 0 ∨ y = FirstNormalTransactionId →
   ∃ c', ExtendCLOG y c = Ret (tt, c') ∧ pt_wf (pages c') ∧
     ∀ z, has_page (pages c') y ∧
          pt_status (pages c') z =
          if bool_decide (TransactionIdToPage z = TransactionIdToPage y)
          then TRANSACTION_STATUS_IN_PROGRESS else pt_status (pages c) z).
Proof using HB.
  intros Hwf [p Hp]. split; [by apply (TrimCLOG_spec c x p)|].
  intros y Hy. by apply ExtendCLOG_spec.
Qed.

End clog.

(** ** Witnesses: two pages of 32 transactions *)

Definition clog8 : Clog :=
  mkClog (list_to_map [(0, zero_page 8); (1, zero_page 8)]) 1 false [].

Lemma clog_blcksz8 : clog_blcksz_ok 8.
Proof. split; [lia|by exists 1]. Qed.

Lemma clog8_wf : pt_wf 8 (pages clog8).
Proof.
  assert (page_wf 8 (zero_page 8)) as H.
  { split_and!; [done| |done]. intros i. unfold zero_page, page_buffer. rewrite wd_replicate. done. }
  unfold pt_wf, clog8; cbn [pages list_to_map foldr fst snd].
  apply map_Forall_insert_2; [done|]. apply map_Forall_insert_2; [done|]. apply map_Forall_empty.
Qed.

Lemma clog8_tree_pre : tree_pre 8 clog8 20 [21; 40; 41] TRANSACTION_STATUS_COMMITTED.
Proof.
  assert (∀ x, x ∈ [21; 40; 41] → x = 21 ∨ x = 40 ∨ x = 41) as Hsub by set_solver.
  split; [apply clog8_wf|done|set_solver|by left| |done|].
  - intros x [Hx| ->%list_elem_of_singleton]%elem_of_app; [|by eexists].
    destruct (Hsub x Hx) as [->|[->| ->]]; by eexists.
  - intros x Hx. destruct (Hsub x Hx) as [->|[->| ->]]; done.
Qed.


Lemma set_status_by_pages_overread_witness :
  set_status_by_pages 8 2 [40; 41] TRANSACTION_STATUS_COMMITTED InvalidXLogRecPtr clog8 = UB.
Proof.
  apply (set_status_by_pages_overread 8 clog8 [40; 41] 40); [set_solver|].
  intros x [->|[->|[]%elem_of_nil]%elem_of_cons]%elem_of_cons; reflexivity.
Defined.

Lemma CLOG_new_transactions_witness :
  ∃ c', TrimCLOG 8 20 clog8 = Ret (tt, c') ∧ pt_status 8 (pages c') 21 = TRANSACTION_STATUS_IN_PROGRESS.
Proof.
  destruct (CLOG_new_transactions 8 clog_blcksz8 clog8 20 clog8_wf ltac:(by eexists))
    as [(c' & Hr & _ & Hs) _].
  exists c'. split; [exact Hr|]. apply Hs.
Defined.
