(* ===== verification/KnownXids.v ===== *)
(** * Transaction ids known to be assigned on the master

    [backend/storage/ipc/procarray.c], the [KnownAssignedXids] array of a hot standby
    server: the ids of the transactions that run on the master, in increasing order,
    between the subscripts [tail] and [head] of an array, with a parallel array of
    flags so that an id can be removed without moving the others.

    The specification is the strictly increasing list of the transaction counters
    (see [Xid]) that the array holds. *)

From S2P Require Import Prelude Xid Clog.

(** ** Data *)

(** The fields of [ProcArrayStruct] for the array, and the two arrays. *)
Record KnownXids := mkKnown {
  maxKnownAssignedXids : Z;
  numKnownAssignedXids : Z;
  tailKnownAssignedXids : Z;
  headKnownAssignedXids : Z;
  KnownAssignedXids : list TransactionId;
  KnownAssignedXidsValid : list bool
}.

Definition get_known : cmd KnownXids KnownXids := λ s, Ret (s, s).
Definition set_known_xid (i : Z) (x : TransactionId) : cmd KnownXids unit := λ s,
  xs ← arr_set (KnownAssignedXids s) i x;
  Ret (tt, mkKnown (maxKnownAssignedXids s) (numKnownAssignedXids s) (tailKnownAssignedXids s)
             (headKnownAssignedXids s) xs (KnownAssignedXidsValid s)).
Definition set_known_valid (i : Z) (v : bool) : cmd KnownXids unit := λ s,
  vs ← arr_set (KnownAssignedXidsValid s) i v;
  Ret (tt, mkKnown (maxKnownAssignedXids s) (numKnownAssignedXids s) (tailKnownAssignedXids s)
             (headKnownAssignedXids s) (KnownAssignedXids s) vs).
Definition set_ends (tail head : Z) : cmd KnownXids unit := λ s,
  Ret (tt, mkKnown (maxKnownAssignedXids s) (numKnownAssignedXids s) tail head
             (KnownAssignedXids s) (KnownAssignedXidsValid s)).
Definition set_num (n : Z) : cmd KnownXids unit := λ s,
  Ret (tt, mkKnown (maxKnownAssignedXids s) n (tailKnownAssignedXids s) (headKnownAssignedXids s)
             (KnownAssignedXids s) (KnownAssignedXidsValid s)).
Definition known_xid (i : Z) : cmd KnownXids TransactionId := λ s,
  x ← arr_get (KnownAssignedXids s) i; Ret (x, s).
Definition known_valid (i : Z) : cmd KnownXids bool := λ s,
  v ← arr_get (KnownAssignedXidsValid s) i; Ret (v, s).

Section known.
Context (PROCARRAY_MAXPROCS : Z).
(** twophase.c: whether the transaction is prepared. *)
Context (StandbyTransactionIdIsPrepared : TransactionId → bool).

(** ** Compression *)

(** [for (i = tail; i < head; i++)] moves the valid entries down; returns [compress_index]. *)
Fixpoint compress_loop (n : nat) (i compress_index : Z) : cmd KnownXids Z :=
  match n with
  | O => mret compress_index
  | S n =>
      v ← known_valid i;
      if v : bool then
        x ← known_xid i;
        _ ← set_known_xid compress_index x;
        _ ← set_known_valid compress_index true;
        compress_loop n (i + 1) (compress_index + 1)
      else compress_loop n (i + 1) compress_index
  end.

Definition KnownAssignedXidsCompress (force : bool) : cmd KnownXids unit :=
  s ← get_known;
  let head := headKnownAssignedXids s in
  let tail := tailKnownAssignedXids s in
  let nelements := head - tail in
  if negb force && ((nelements <? 4 * PROCARRAY_MAXPROCS) || (nelements <? 2 * numKnownAssignedXids s))
  then mret tt else
  compress_index ← compress_loop (Z.to_nat (head - tail)) tail 0;
  set_ends 0 compress_index.

(** ** Insertion *)

(** [while (TransactionIdPrecedes(next_xid, to_xid))]; the ids are at most
    [to_xid - from_xid] steps apart. *)
Fixpoint count_loop (fuel : nat) (nxids : Z) (next_xid to_xid : TransactionId) : outcome Z :=
  if TransactionIdPrecedes next_xid to_xid then
    match fuel with
    | O => Timeout
    | S fuel => count_loop fuel (nxids + 1) (TransactionIdAdvance next_xid) to_xid
    end
  else Ret nxids.

(** [for (i = 0; i < nxids; i++)] stores the ids; returns the new [head]. *)
Fixpoint insert_loop (n : nat) (head : Z) (next_xid : TransactionId) : cmd KnownXids Z :=
  match n with
  | O => mret head
  | S n =>
      _ ← set_known_xid head next_xid;
      _ ← set_known_valid head true;
      insert_loop n (head + 1) (TransactionIdAdvance next_xid)
  end.

Definition KnownAssignedXidsAdd (from_xid to_xid : TransactionId) : cmd KnownXids unit :=
  _ ← Assert (TransactionIdPrecedesOrEquals from_xid to_xid);
  nxids ← lift (if from_xid <=? to_xid then Ret (to_xid - from_xid + 1)
                else count_loop (Z.to_nat (uint32_of (to_xid - from_xid))) 1 from_xid to_xid);
  s ← get_known;
  let head := headKnownAssignedXids s in
  let tail := tailKnownAssignedXids s in
  _ ← Assert ((0 <=? head) && (head <=? maxKnownAssignedXids s));
  _ ← Assert ((0 <=? tail) && (tail <? maxKnownAssignedXids s));
  last ← (if tail <? head then known_xid (head - 1) else mret InvalidTransactionId);
  if (tail <? head) && TransactionIdFollowsOrEquals last from_xid
  then ereport ERRCODE_INTERNAL_ERROR else
  _ ← (if maxKnownAssignedXids s <? head + nxids then KnownAssignedXidsCompress true else mret tt);
  s ← get_known;
  let head := headKnownAssignedXids s in
  if maxKnownAssignedXids s <? head + nxids then ereport ERRCODE_INTERNAL_ERROR else
  head ← insert_loop (Z.to_nat nxids) head from_xid;
  s ← get_known;
  _ ← set_num (numKnownAssignedXids s + nxids);
  set_ends (tailKnownAssignedXids s) head.

(** ** Search and removal *)

(** The binary search; [-1] if the id is not in the array. *)
Fixpoint search_loop (fuel : nat) (xid : TransactionId) (first last : Z) : cmd KnownXids Z :=
  if first <=? last then
    match fuel with
    | O => λ _, Timeout
    | S fuel =>
        let mid_index := Z.quot (first + last) 2 in
        mid_xid ← known_xid mid_index;
        if xid =? mid_xid then mret mid_index
        else if TransactionIdPrecedes xid mid_xid then search_loop fuel xid first (mid_index - 1)
        else search_loop fuel xid (mid_index + 1) last
    end
  else mret (-1).

(** [while (tail < head && !KnownAssignedXidsValid[tail]) tail++;], [n] being [head - tail] *)
Fixpoint skip_invalid (n : nat) (tail : Z) : cmd KnownXids Z :=
  match n with
  | O => mret tail
  | S n =>
      v ← known_valid tail;
      if v : bool then mret tail else skip_invalid n (tail + 1)
  end.

Definition KnownAssignedXidsSearch (xid : TransactionId) (remove : bool) : cmd KnownXids bool :=
  s ← get_known;
  let tail := tailKnownAssignedXids s in
  let head := headKnownAssignedXids s in
  result_index ← search_loop (S (Z.to_nat (head - tail))) xid tail (head - 1);
  if result_index <? 0 then mret false else
  v ← known_valid result_index;
  if negb v then mret false else
  _ ← (if remove then
         _ ← set_known_valid result_index false;
         _ ← set_num (numKnownAssignedXids s - 1);
         _ ← Assert (0 <=? numKnownAssignedXids s - 1);
         if result_index =? tail then
           tail ← skip_invalid (Z.to_nat (head - (tail + 1))) (tail + 1);
           if head <=? tail then set_ends 0 0 else set_ends tail head
         else mret tt
       else mret tt);
  mret true.

Definition KnownAssignedXidExists (xid : TransactionId) : cmd KnownXids bool :=
  _ ← Assert (TransactionIdIsValid xid);
  KnownAssignedXidsSearch xid false.

Definition KnownAssignedXidsRemove (xid : TransactionId) : cmd KnownXids unit :=
  _ ← Assert (TransactionIdIsValid xid);
  _ ← KnownAssignedXidsSearch xid true;
  mret tt.

Definition KnownAssignedXidsRemoveTree (xid : TransactionId) (subxids : list TransactionId)
    : cmd KnownXids unit :=
  _ ← (if TransactionIdIsValid xid then KnownAssignedXidsRemove xid else mret tt);
  _ ← citer KnownAssignedXidsRemove subxids;
  KnownAssignedXidsCompress false.

(** [for (i = tail; i < head; i++)] marks the ids before [removeXid] invalid; the count. *)
Fixpoint prune_loop (n : nat) (i : Z) (removeXid : TransactionId) (count : Z) : cmd KnownXids Z :=
  match n with
  | O => mret count
  | S n =>
      v ← known_valid i;
      if v : bool then
        knownXid ← known_xid i;
        if TransactionIdFollowsOrEquals knownXid removeXid then mret count else
        if negb (StandbyTransactionIdIsPrepared knownXid) then
          _ ← set_known_valid i false;
          prune_loop n (i + 1) removeXid (count + 1)
        else prune_loop n (i + 1) removeXid count
      else prune_loop n (i + 1) removeXid count
  end.

Definition KnownAssignedXidsRemovePreceding (removeXid : TransactionId) : cmd KnownXids unit :=
  if negb (TransactionIdIsValid removeXid) then
    _ ← set_num 0;
    set_ends 0 0
  else
  s ← get_known;
  let tail := tailKnownAssignedXids s in
  let head := headKnownAssignedXids s in
  count ← prune_loop (Z.to_nat (head - tail)) tail removeXid 0;
  _ ← set_num (numKnownAssignedXids s - count);
  _ ← Assert (0 <=? numKnownAssignedXids s - count);
  i ← skip_invalid (Z.to_nat (head - tail)) tail;
  _ ← (if head <=? i then set_ends 0 0 else set_ends i head);
  KnownAssignedXidsCompress false.

(** ** Reading the array *)

(** The loop of [KnownAssignedXidsGetAndSetXmin]; the output array is returned as a list. *)
Fixpoint get_loop (n : nat) (i : Z) (xarray : list TransactionId) (xmin xmax : TransactionId)
    : cmd KnownXids (list TransactionId * TransactionId) :=
  match n with
  | O => mret (xarray, xmin)
  | S n =>
      v ← known_valid i;
      if v : bool then
        knownXid ← known_xid i;
        let xmin := if (Z.of_nat (length xarray) =? 0) && TransactionIdPrecedes knownXid xmin
                    then knownXid else xmin in
        if TransactionIdIsValid xmax && TransactionIdFollowsOrEquals knownXid xmax
        then mret (xarray, xmin)
        else get_loop n (i + 1) (xarray ++ [knownXid]) xmin xmax
      else get_loop n (i + 1) xarray xmin xmax
  end.

Definition KnownAssignedXidsGetAndSetXmin (xmin xmax : TransactionId)
    : cmd KnownXids (list TransactionId * TransactionId) :=
  s ← get_known;
  let tail := tailKnownAssignedXids s in
  let head := headKnownAssignedXids s in
  get_loop (Z.to_nat (head - tail)) tail [] xmin xmax.

Definition KnownAssignedXidsGet (xmax : TransactionId) : cmd KnownXids (list TransactionId) :=
  '(xarray, _) ← KnownAssignedXidsGetAndSetXmin InvalidTransactionId xmax;
  mret xarray.

Definition KnownAssignedXidsGetOldestXmin : cmd KnownXids TransactionId :=
  s ← get_known;
  let tail := tailKnownAssignedXids s in
  let head := headKnownAssignedXids s in
  i ← skip_invalid (Z.to_nat (head - tail)) tail;
  if head <=? i then mret InvalidTransactionId else known_xid i.

End known.

(** ** Specification *)

(** A segment lists the entries from [tail] to [head]: counters and flags. *)
Definition known (seg : list (Z * bool)) : list Z := (filter (λ e, e.2 = true) seg).*1.

Record raw (base : Z) (s : KnownXids) (seg : list (Z * bool)) : Prop := {
  r_max : 0 < maxKnownAssignedXids s;
  r_len1 : Z.of_nat (length (KnownAssignedXids s)) = maxKnownAssignedXids s;
  r_len2 : Z.of_nat (length (KnownAssignedXidsValid s)) = maxKnownAssignedXids s;
  r_tail : 0 ≤ tailKnownAssignedXids s;
  r_head : headKnownAssignedXids s = tailKnownAssignedXids s + Z.of_nat (length seg);
  r_room : headKnownAssignedXids s ≤ maxKnownAssignedXids s;
  r_get i c v : seg !! i = Some (c, v) →
    KnownAssignedXids s !! (Z.to_nat (tailKnownAssignedXids s) + i)%nat = Some (uint32_of c) ∧
    KnownAssignedXidsValid s !! (Z.to_nat (tailKnownAssignedXids s) + i)%nat = Some v;
  r_sorted : StronglySorted Z.lt seg.*1;
  r_window : Forall (window base) seg.*1
}.

(** Between operations the count is right and the first entry is valid. *)
Record rep (base : Z) (s : KnownXids) (seg : list (Z * bool)) : Prop := {
  r_raw : raw base s seg;
  r_num : numKnownAssignedXids s = Z.of_nat (length (known seg));
  r_first : match seg with [] => tailKnownAssignedXids s = 0 | e :: _ => e.2 = true end
}.

(** ** Lemmas *)

Section lemmas.
Context (base : Z).

Lemma known_cons c v seg : known ((c, v) :: seg) = if v then c :: known seg else known seg.
Proof. unfold known. rewrite filter_cons. by destruct v. Qed.
Lemma known_app seg1 seg2 : known (seg1 ++ seg2) = known seg1 ++ known seg2.
Proof. unfold known. by rewrite filter_app, fmap_app. Qed.
Lemma known_elem c seg : c ∈ known seg ↔ (c, true) ∈ seg.
Proof.
  unfold known. rewrite list_elem_of_fmap. split.
  - intros ([c' v] & -> & [Hv Hin]%list_elem_of_filter). cbn in *. by subst v.
  - intros H. exists (c, true). rewrite list_elem_of_filter. done.
Qed.

Lemma read_valid s seg i c v :
  raw base s seg → seg !! i = Some (c, v) →
  known_valid (tailKnownAssignedXids s + Z.of_nat i) s = Ret (v, s) ∧
  known_xid (tailKnownAssignedXids s + Z.of_nat i) s = Ret (uint32_of c, s).
Proof.
  intros H Hi. destruct (r_get _ _ _ H i c v Hi) as [Hx Hv]. pose proof (r_tail _ _ _ H).
  unfold known_valid, known_xid, arr_get.
  rewrite (proj2 (Z.ltb_ge _ _)) by lia.
  replace (Z.to_nat (tailKnownAssignedXids s + Z.of_nat i))
    with (Z.to_nat (tailKnownAssignedXids s) + i)%nat by lia.
  by rewrite Hx, Hv.
Qed.

Lemma window_of s seg i c v : raw base s seg → seg !! i = Some (c, v) → window base c.
Proof.
  intros H Hi. eapply Forall_lookup_1; [apply H|]. by rewrite list_lookup_fmap, Hi.
Qed.

Lemma sorted_lookup s seg i j c v c' v' :
  raw base s seg → seg !! i = Some (c, v) → seg !! j = Some (c', v') → (i < j)%nat → c < c'.
Proof.
  intros H Hi Hj Hlt. eapply (sorted_lt_lookup seg.*1); [apply H| | |exact Hlt].
  - by rewrite list_lookup_fmap, Hi.
  - by rewrite list_lookup_fmap, Hj.
Qed.

Lemma window_precedes a b :
  window base a → window base b →
  TransactionIdPrecedes (uint32_of a) (uint32_of b) = (a <? b) ∧
  TransactionIdFollowsOrEquals (uint32_of a) (uint32_of b) = (a >=? b) ∧
  (uint32_of a =? uint32_of b) = (a =? b).
Proof.
  intros Ha Hb. pose proof (window_near _ _ _ Ha Hb) as Hn. destruct Ha as [Ha _], Hb as [Hb _].
  split; [by apply full_precedes|]. split; [by apply full_follows_or_equals|].
  destruct (Z.eqb_spec a b) as [->|Hne]; [by apply Z.eqb_refl|].
  apply Z.eqb_neq. intros E. apply Hne. by apply uint32_full_eq.
Qed.

(** *** Binary search *)

Lemma known_search_loop_spec s seg c fuel i j :
  raw base s seg → window base c → (i ≤ j ≤ length seg)%nat → (j - i ≤ fuel)%nat →
  (∀ k c' v, seg !! k = Some (c', v) → (k < i)%nat → c' < c) →
  (∀ k c' v, seg !! k = Some (c', v) → (j ≤ k)%nat → c < c') →
  ∃ r, search_loop fuel (uint32_of c) (tailKnownAssignedXids s + Z.of_nat i)
         (tailKnownAssignedXids s + Z.of_nat j - 1) s = Ret (r, s) ∧
    ((r = -1 ∧ ∀ v, (c, v) ∉ seg) ∨
     ∃ k v, r = tailKnownAssignedXids s + Z.of_nat k ∧ seg !! k = Some (c, v)).
Proof.
  intros H Hc. pose proof (r_tail _ _ _ H) as Ht. set (t := tailKnownAssignedXids s) in *.
  revert i j. induction fuel as [|fuel IH]; intros i j Hij Hf Hlo Hhi; cbn [search_loop].
  all: destruct (Z.leb_spec (t + Z.of_nat i) (t + Z.of_nat j - 1)) as [L|L]; [try lia|].
  1, 3: (exists (-1); split; [done|]; left; split; [done|]; intros v Hin;
         apply list_elem_of_lookup in Hin as [k Hk]; destruct (decide (k < i)%nat);
         [specialize (Hlo k c v Hk)|specialize (Hhi k c v Hk)]; lia).
  set (m := Z.quot (t + Z.of_nat i + (t + Z.of_nat j - 1)) 2).
  assert (t + Z.of_nat i ≤ m ≤ t + Z.of_nat j - 1) as Hm.
  { unfold m. rewrite Z.quot_div_nonneg by lia.
    pose proof (Z.div_mod (t + Z.of_nat i + (t + Z.of_nat j - 1)) 2 ltac:(lia)) as Hd.
    pose proof (Z.mod_pos_bound (t + Z.of_nat i + (t + Z.of_nat j - 1)) 2 ltac:(lia)). lia. }
  clearbody m. assert (∃ k : nat, m = t + Z.of_nat k) as [k ->] by (exists (Z.to_nat (m - t)); lia).
  destruct (lookup_lt_is_Some_2 seg k) as [[c' v] Hk]; [lia|].
  destruct (read_valid s seg k c' v H Hk) as [_ Hx]. rewrite (bind_Ret _ _ _ _ _ Hx).
  destruct (window_precedes c c' Hc (window_of _ _ _ _ _ H Hk)) as (-> & _ & ->).
  destruct (Z.eqb_spec c c') as [<-|Hne].
  { exists (t + Z.of_nat k). split; [done|]. right. by exists k, v. }
  destruct (Z.ltb_spec c c') as [Hlt|Hge].
  - destruct (IH i k) as (r & Hr & Hres); [lia|lia|done| |by exists r].
    intros k' c'' v' Hk' Hle. destruct (decide (k' = k)) as [->|]; [congruence|].
    pose proof (sorted_lookup _ _ _ _ _ _ _ _ H Hk Hk'). lia.
  - replace (t + Z.of_nat k + 1) with (t + Z.of_nat (S k)) by lia.
    destruct (IH (S k) j) as (r & Hr & Hres); [lia|lia| |done|by exists r].
    intros k' c'' v' Hk' Hlt. destruct (decide (k' = k)) as [->|]; [simplify_eq; lia|].
    pose proof (sorted_lookup _ _ _ _ _ _ _ _ H Hk' Hk). lia.
Qed.

(** *** Flags *)

Lemma known_valid_false (l : list (Z * bool)) :
  (∀ i c v, l !! i = Some (c, v) → v = false) → known l = [].
Proof.
  intros H. induction l as [|[c v] l IH]; [done|]. rewrite known_cons, (H 0%nat c v eq_refl).
  apply IH. intros i. apply (H (S i)).
Qed.

Lemma known_insert_false s seg k c :
  raw base s seg → seg !! k = Some (c, true) →
  known (<[k := (c, false)]> seg) = filter (λ x, x ≠ c) (known seg) ∧
  length (known seg) = S (length (known (<[k := (c, false)]> seg))).
Proof.
  intros H Hk. pose proof (sorted_lt_NoDup _ (r_sorted _ _ _ H)) as Hnd.
  rewrite <- (take_drop_middle _ _ _ Hk) in Hnd.
  rewrite (insert_take_drop _ _ _ (lookup_lt_Some _ _ _ Hk)).
  rewrite <- (take_drop_middle _ _ _ Hk) at 3 4. rewrite !known_app, !known_cons.
  rewrite fmap_app, fmap_cons in Hnd. cbn [fst] in Hnd.
  apply NoDup_app in Hnd as (_ & Hd1 & [Hd2 _]%NoDup_cons).
  assert (∀ l, c ∉ l.*1 → filter (λ x, x ≠ c) (known l) = known l) as Hkeep.
  { intros l Hl. apply filter_all, Forall_forall. intros x Hx Hxc. apply Hl. rewrite Hxc in Hx.
    apply known_elem in Hx. apply list_elem_of_fmap. by exists (c, true). }
  rewrite filter_app, filter_cons, decide_False by tauto. rewrite !Hkeep; [|done|].
  - split; [done|]. rewrite !length_app. cbn. lia.
  - intros Hc. by apply (Hd1 c); [|left].
Qed.

Lemma set_valid_spec s seg k c v v' :
  raw base s seg → seg !! k = Some (c, v) →
  ∃ s', set_known_valid (tailKnownAssignedXids s + Z.of_nat k) v' s = Ret (tt, s') ∧
    raw base s' (<[k := (c, v')]> seg) ∧ numKnownAssignedXids s' = numKnownAssignedXids s ∧
    tailKnownAssignedXids s' = tailKnownAssignedXids s ∧
    headKnownAssignedXids s' = headKnownAssignedXids s ∧
    maxKnownAssignedXids s' = maxKnownAssignedXids s.
Proof.
  intros H Hk. pose proof (lookup_lt_Some _ _ _ Hk) as Hlt.
  destruct H as [H1 H2 H3 H4 H5 H6 H7 H8 H9]. unfold set_known_valid. rewrite arr_set_lt by lia.
  eexists. split; [reflexivity|]. split; [|done].
  assert ((<[k := (c, v')]> seg).*1 = seg.*1) as Hfst.
  { rewrite list_fmap_insert. apply list_insert_id. by rewrite list_lookup_fmap, Hk. }
  split; cbn; rewrite ?length_insert, ?Hfst; try done.
  intros i c1 v1 Hi. replace (Z.to_nat (tailKnownAssignedXids s + Z.of_nat k))
    with (Z.to_nat (tailKnownAssignedXids s) + k)%nat by lia.
  destruct (decide (i = k)) as [->|Hne].
  - rewrite list_lookup_insert_eq in Hi by done. destruct (H7 k c v Hk) as [Hx Hv].
    simplify_eq.
    split; [done|]. apply list_lookup_insert_eq. by apply lookup_lt_Some in Hv.
  - rewrite list_lookup_insert_ne in Hi by done. rewrite list_lookup_insert_ne by lia. by apply H7.
Qed.

Lemma skip_invalid_spec s seg n i :
  raw base s seg → (i + n = length seg)%nat →
  ∃ k, skip_invalid n (tailKnownAssignedXids s + Z.of_nat i) s
         = Ret (tailKnownAssignedXids s + Z.of_nat k, s) ∧ (i ≤ k ≤ length seg)%nat ∧
    (∀ j c v, seg !! j = Some (c, v) → (i ≤ j < k)%nat → v = false) ∧
    (∀ c v, seg !! k = Some (c, v) → v = true).
Proof.
  intros H. revert i. induction n as [|n IH]; intros i Hn; cbn [skip_invalid].
  { exists i. split; [done|]. split; [lia|]. split; [lia|].
    intros c v Hk. apply lookup_lt_Some in Hk. lia. }
  destruct (lookup_lt_is_Some_2 seg i) as [[c v] Hi]; [lia|].
  destruct (read_valid s seg i c v H Hi) as [Hv _]. rewrite (bind_Ret _ _ _ _ _ Hv).
  destruct v.
  - exists i. split; [done|]. split; [lia|]. split; [lia|]. intros c' v'. congruence.
  - replace (tailKnownAssignedXids s + Z.of_nat i + 1)
      with (tailKnownAssignedXids s + Z.of_nat (S i)) by lia.
    destruct (IH (S i)) as (k & -> & Hk & Hf & Ht); [lia|]. exists k. split; [done|]. split; [lia|].
    split; [|done]. intros j c' v' Hj Hjk. destruct (decide (j = i)) as [->|]; [congruence|].
    apply (Hf j c' v' Hj). lia.
Qed.

(** The tail moves to the first valid entry. *)
Lemma settle_spec s seg k :
  raw base s seg → numKnownAssignedXids s = Z.of_nat (length (known seg)) → (k ≤ length seg)%nat →
  (∀ j c v, seg !! j = Some (c, v) → (j < k)%nat → v = false) →
  (∀ c v, seg !! k = Some (c, v) → v = true) →
  ∃ s', (if headKnownAssignedXids s <=? tailKnownAssignedXids s + Z.of_nat k then set_ends 0 0
         else set_ends (tailKnownAssignedXids s + Z.of_nat k) (headKnownAssignedXids s)) s = Ret (tt, s') ∧
    rep base s' (drop k seg) ∧ known (drop k seg) = known seg ∧
    maxKnownAssignedXids s' = maxKnownAssignedXids s.
Proof.
  intros [H1 H2 H3 H4 H5 H6 H7 H8 H9] Hnum Hk Hf Ht.
  assert (known (drop k seg) = known seg) as Hknown.
  { rewrite <- (take_drop k seg) at 2. rewrite known_app, (known_valid_false (take k seg)); [done|].
    intros i c v Hi. apply lookup_take_Some in Hi as [Hi Hlt]. by apply (Hf i c v). }
  rewrite H5. destruct (Z.leb_spec (tailKnownAssignedXids s + Z.of_nat (length seg))
                          (tailKnownAssignedXids s + Z.of_nat k)) as [L|L].
  - eexists. split; [reflexivity|]. rewrite drop_ge in * by lia. split; [|done].
    split; [|by cbn; rewrite Hnum, <- Hknown|done].
    split; cbn; first [done|lia|constructor|by intros i c v Hi; rewrite lookup_nil in Hi].
  - eexists. split; [reflexivity|]. split; [|done]. split.
    + split; cbn; rewrite ?length_drop; try done; try lia.
      * intros i c v Hi. rewrite lookup_drop in Hi.
        replace (Z.to_nat (tailKnownAssignedXids s + Z.of_nat k) + i)%nat
          with (Z.to_nat (tailKnownAssignedXids s) + (k + i))%nat by lia. by apply H7.
      * rewrite <- (take_drop k seg), fmap_app in H8. by eapply StronglySorted_app_1_r.
      * rewrite <- (take_drop k seg), fmap_app in H9. by eapply Forall_app.
    + cbn. by rewrite Hnum, Hknown.
    + destruct (lookup_lt_is_Some_2 seg k) as [[c v] Hs]; [lia|].
      rewrite (drop_S _ _ _ Hs). cbn. by apply (Ht c v).
Qed.

(** *** Search and removal *)

Lemma known_without c seg : c ∉ known seg → filter (λ x, x ≠ c) (known seg) = known seg.
Proof. intros H. apply filter_all, Forall_forall. intros x Hx E. apply H. by rewrite <- E. Qed.

Lemma in_known s seg k c v : raw base s seg → seg !! k = Some (c, v) → c ∈ known seg ↔ v = true.
Proof.
  intros H Hk. rewrite known_elem. split.
  - intros [j Hj]%list_elem_of_lookup. destruct (decide (j = k)) as [->|Hne]; [congruence|].
    destruct (Nat.lt_total j k) as [Hlt|[->|Hlt]]; [|done|].
    + pose proof (sorted_lookup _ _ _ _ _ _ _ _ H Hj Hk Hlt). lia.
    + pose proof (sorted_lookup _ _ _ _ _ _ _ _ H Hk Hj Hlt). lia.
  - intros ->. by eapply list_elem_of_lookup_2.
Qed.

Lemma Search_spec s seg c remove :
  rep base s seg → window base c →
  ∃ s' seg', KnownAssignedXidsSearch (uint32_of c) remove s = Ret (bool_decide (c ∈ known seg), s') ∧
    rep base s' seg' ∧ maxKnownAssignedXids s' = maxKnownAssignedXids s ∧
    known seg' = if remove then filter (λ x, x ≠ c) (known seg) else known seg.
Proof.
  intros [H Hnum Hfirst] Hc. unfold KnownAssignedXidsSearch. rewrite (bind_Ret _ _ s s s) by done.
  cbv beta zeta. rewrite (r_head _ _ _ H).
  destruct (known_search_loop_spec s seg c (S (length seg)) 0 (length seg) H Hc) as (r & Hrun & Hres);
    [lia|lia|lia|intros k c' v Hk; apply lookup_lt_Some in Hk; lia|].
  change (Z.of_nat 0) with 0 in Hrun. rewrite Z.add_0_r in Hrun.
  replace (Z.to_nat (tailKnownAssignedXids s + Z.of_nat (length seg) - tailKnownAssignedXids s))
    with (length seg) by lia.
  rewrite (bind_Ret _ _ _ _ _ Hrun). destruct Hres as [[-> Hout]|(k & v & -> & Hk)].
  { exists s, seg. assert (c ∉ known seg) as Hn by (rewrite known_elem; apply Hout).
    rewrite bool_decide_false by done. cbn [Z.ltb Z.compare]. split; [done|]. split; [done|].
    split; [done|]. destruct remove; [by rewrite known_without|done]. }
  pose proof (in_known _ _ _ _ _ H Hk) as Hin. pose proof (r_tail _ _ _ H) as Ht.
  rewrite (proj2 (Z.ltb_ge _ 0)) by lia.
  destruct (read_valid s seg k c v H Hk) as [Hv _]. rewrite (bind_Ret _ _ _ _ _ Hv).
  destruct v; cbn [negb].
  2: { exists s, seg. assert (c ∉ known seg) as Hn by (rewrite Hin; done).
       rewrite bool_decide_false by done. split; [done|]. split; [done|].
       split; [done|]. destruct remove; [by rewrite known_without|done]. }
  rewrite bool_decide_true by (by apply Hin). destruct remove.
  2: { exists s, seg. by rewrite (bind_Ret _ _ s tt s) by done. }
  destruct (known_insert_false s seg k c H Hk) as [Hfil Hlen].
  destruct (set_valid_spec s seg k c true false H Hk) as (s1 & Hset & H1 & Hn1 & Ht1 & Hh1 & Hm1).
  set (seg1 := <[k := (c, false)]> seg) in *.
  set (s2 := mkKnown (maxKnownAssignedXids s1) (numKnownAssignedXids s - 1) (tailKnownAssignedXids s1)
               (headKnownAssignedXids s1) (KnownAssignedXids s1) (KnownAssignedXidsValid s1)).
  assert (raw base s2 seg1) as H2 by (destruct H1; by split).
  assert (numKnownAssignedXids s2 = Z.of_nat (length (known seg1))) as Hnum2 by (cbn; lia).
  set (act := (if Z.eqb _ _ then _ else mret tt)).
  assert (∃ s' seg', act s2 = Ret (tt, s') ∧ rep base s' seg' ∧
    maxKnownAssignedXids s' = maxKnownAssignedXids s ∧ known seg' = known seg1) as (s' & seg' & Ha & Hr & Hm & Hk').
  { unfold act. destruct (Z.eqb_spec (tailKnownAssignedXids s + Z.of_nat k) (tailKnownAssignedXids s)) as [E|E].
    - assert (k = 0%nat) as -> by lia. pose proof (lookup_lt_Some _ _ _ Hk) as Hlt.
      assert (length seg1 = length seg) as Hl1 by apply length_insert.
      destruct (skip_invalid_spec s2 seg1 (length seg - 1) 1 H2) as (k & Hsk & Hkr & Hf & Htr); [lia|].
      change (tailKnownAssignedXids s2) with (tailKnownAssignedXids s1) in Hsk. rewrite Ht1 in Hsk.
      replace (Z.to_nat (tailKnownAssignedXids s + Z.of_nat (length seg) - (tailKnownAssignedXids s + 1)))
        with (length seg - 1)%nat by lia.
      change (tailKnownAssignedXids s + 1) with (tailKnownAssignedXids s + Z.of_nat 1).
      rewrite (bind_Ret _ _ _ _ _ Hsk).
      destruct (settle_spec s2 seg1 k H2 Hnum2) as (s3 & Hs3 & Hr3 & Hk3 & Hm3); [lia| |done|].
      { intros j c' v Hj Hjk. destruct (decide (j = 0%nat)) as [->|]; [|apply (Hf j c' v Hj); lia].
        unfold seg1 in Hj. rewrite list_lookup_insert_eq in Hj by done. congruence. }
      exists s3, (drop k seg1). split; [|by rewrite Hm3, <- Hm1].
      rewrite <- Hs3. change (headKnownAssignedXids s2) with (headKnownAssignedXids s1).
      change (tailKnownAssignedXids s2) with (tailKnownAssignedXids s1).
      by rewrite Hh1, Ht1, (r_head _ _ _ H).
    - exists s2, seg1. split; [done|]. split; [|done]. split; [done|done|].
      destruct seg as [|[c0 v0] seg0]; [done|]. destruct k as [|k]; [lia|]. cbn. done. }
  exists s', seg'. rewrite (bind_Ret _ _ s tt s'); [by rewrite Hk'|].
  rewrite (bind_Ret _ _ _ _ _ Hset), (bind_Ret _ _ s1 tt s2) by done.
  rewrite (proj2 (Z.leb_le _ _)) by lia. rewrite (bind_Ret _ _ s2 tt s2) by done. exact Ha.
Qed.

(** *** Compression *)

(** The entries [l] at the subscripts from [i] on. *)
Definition entries (s : KnownXids) (i : Z) (l : list (Z * bool)) : Prop :=
  ∀ j c v, l !! j = Some (c, v) →
    KnownAssignedXids s !! (Z.to_nat i + j)%nat = Some (uint32_of c) ∧
    KnownAssignedXidsValid s !! (Z.to_nat i + j)%nat = Some v.

Lemma entries_head s i c v l :
  0 ≤ i → entries s i ((c, v) :: l) →
  known_valid i s = Ret (v, s) ∧ known_xid i s = Ret (uint32_of c, s) ∧ entries s (i + 1) l.
Proof.
  intros Hi H. destruct (H 0%nat c v eq_refl) as [Hx Hv]. rewrite Nat.add_0_r in Hx, Hv.
  unfold known_valid, known_xid, arr_get. rewrite (proj2 (Z.ltb_ge _ _)) by lia. rewrite Hx, Hv.
  split; [done|]. split; [done|]. intros j c' v' Hj.
  replace (Z.to_nat (i + 1) + j)%nat with (Z.to_nat i + S j)%nat by lia. by apply H.
Qed.

(** Everything but the two arrays. *)
Definition same_fields (s s' : KnownXids) : Prop :=
  maxKnownAssignedXids s' = maxKnownAssignedXids s ∧ numKnownAssignedXids s' = numKnownAssignedXids s ∧
  tailKnownAssignedXids s' = tailKnownAssignedXids s ∧ headKnownAssignedXids s' = headKnownAssignedXids s ∧
  length (KnownAssignedXids s') = length (KnownAssignedXids s) ∧
  length (KnownAssignedXidsValid s') = length (KnownAssignedXidsValid s).

(** An entry is stored at [i]. *)
Lemma store_spec s i c :
  0 ≤ i < Z.of_nat (length (KnownAssignedXids s)) →
  i < Z.of_nat (length (KnownAssignedXidsValid s)) →
  ∃ s', (_ ← set_known_xid i (uint32_of c); set_known_valid i true) s = Ret (tt, s') ∧ same_fields s s' ∧
    (∀ m l, entries s m l → (m ≤ i → False) ∨ m + Z.of_nat (length l) ≤ i → 0 ≤ m → entries s' m l) ∧
    entries s' i [(c, true)].
Proof.
  intros H1 H2. unfold set_known_xid, set_known_valid, mbind, cmd_bind.
  rewrite arr_set_lt by lia. cbn [outcome_bind mbind KnownAssignedXidsValid].
  rewrite arr_set_lt by lia. cbn. eexists. split; [reflexivity|].
  split; [unfold same_fields; cbn; by rewrite !length_insert|]. split.
  - intros m l Hl Hm Hm0 j c' v' Hj. cbn. pose proof (lookup_lt_Some _ _ _ Hj).
    rewrite !list_lookup_insert_ne by lia. by apply Hl.
  - intros [|j] c' v' Hj; [|done]. cbn in Hj. simplify_eq. cbn. rewrite Nat.add_0_r.
    rewrite !list_lookup_insert_eq by lia. done.
Qed.

Lemma same_fields_trans s s' s'' : same_fields s s' → same_fields s' s'' → same_fields s s''.
Proof. unfold same_fields. intuition congruence. Qed.

Lemma entries_snoc s i l c : 0 ≤ i → entries s i l → entries s (i + Z.of_nat (length l)) [(c, true)] →
  entries s i (l ++ [(c, true)]).
Proof.
  intros Hi H1 H2 j c' v' Hj. apply lookup_app_Some in Hj as [Hj|[Hle Hj]]; [by apply H1|].
  destruct (H2 (j - length l)%nat c' v' Hj) as [Hx Hv].
  by replace (Z.to_nat i + j)%nat with (Z.to_nat (i + Z.of_nat (length l)) + (j - length l))%nat by lia.
Qed.

Abbreviation valids l := ((λ c : Z, (c, true)) <$> l).

Lemma compress_loop_spec rest i acc s :
  Z.of_nat (length acc) ≤ i → i + Z.of_nat (length rest) ≤ Z.of_nat (length (KnownAssignedXids s)) →
  length (KnownAssignedXidsValid s) = length (KnownAssignedXids s) →
  entries s i rest → entries s 0 (valids acc) →
  ∃ s', compress_loop (length rest) i (Z.of_nat (length acc)) s
          = Ret (Z.of_nat (length (acc ++ known rest)), s') ∧
        same_fields s s' ∧ entries s' 0 (valids (acc ++ known rest)).
Proof.
  revert i acc s. induction rest as [|[c v] rest IH]; intros i acc s Hi Hroom Hl Hrest Hacc.
  { exists s. change (known []) with (@nil Z). rewrite app_nil_r. split; [done|]. split; [by repeat split|done]. }
  cbn [length compress_loop] in *.
  destruct (entries_head s i c v rest ltac:(lia) Hrest) as (Hv & Hx & Htl).
  rewrite (bind_Ret _ _ _ _ _ Hv), known_cons. destruct v.
  2: { destruct (IH (i + 1) acc s) as (s' & Hs' & Hsame & He); [lia|lia|done|done|done|by exists s']. }
  rewrite (bind_Ret _ _ _ _ _ Hx).
  destruct (store_spec s (Z.of_nat (length acc)) c) as (s1 & Hst & Hsf & Hkeep & Hnew); [lia|lia|].
  pose proof Hsf as (E1 & E2 & E3 & E4 & E5 & E6).
  destruct (IH (i + 1) (acc ++ [c]) s1) as (s' & Hs' & Hsame & He).
  - rewrite length_app. cbn. lia.
  - rewrite E5. lia.
  - congruence.
  - apply Hkeep; [done|left; lia|lia].
  - rewrite fmap_app. apply (entries_snoc s1 0); [lia| |by rewrite length_fmap].
    apply Hkeep; [done|right; rewrite length_fmap; lia|lia].
  - exists s'. rewrite <- app_assoc in Hs', He. split; [|split; [by eapply same_fields_trans|done]].
    revert Hst. unfold mbind, cmd_bind.
    destruct (set_known_xid _ _ s) as [[[] t]| | |]; [|done..]. intros Hst. rewrite Hst.
    etransitivity; [|exact Hs']. f_equal. rewrite length_app. cbn. lia.
Qed.

Lemma known_valids l : known (valids l) = l.
Proof. induction l as [|c l IH]; [done|]. rewrite fmap_cons, known_cons. by f_equal. Qed.

Lemma known_sorted (seg : list (Z * bool)) : StronglySorted Z.lt seg.*1 → StronglySorted Z.lt (known seg).
Proof.
  induction seg as [|[c v] seg IH]; intros H; [constructor|]. rewrite fmap_cons in H. cbn in H.
  inversion_clear H as [|? ? Hs Hc]. rewrite known_cons. destruct v; [|by apply IH].
  constructor; [by apply IH|]. rewrite Forall_forall in Hc |- *. intros x Hx. apply Hc.
  apply known_elem in Hx. apply list_elem_of_fmap. by exists (x, true).
Qed.

Lemma known_window (seg : list (Z * bool)) (P : Z → Prop) : Forall P seg.*1 → Forall P (known seg).
Proof.
  rewrite !Forall_forall. intros H x Hx. apply H. apply known_elem in Hx.
  apply list_elem_of_fmap. by exists (x, true).
Qed.

Lemma valids_fst l : (valids l).*1 = l.
Proof. rewrite <- list_fmap_compose. apply list_fmap_id. Qed.

(** A segment of valid entries at the start of the array. *)
Lemma rep_valids s l :
  0 < maxKnownAssignedXids s → Z.of_nat (length (KnownAssignedXids s)) = maxKnownAssignedXids s →
  Z.of_nat (length (KnownAssignedXidsValid s)) = maxKnownAssignedXids s →
  tailKnownAssignedXids s = 0 → headKnownAssignedXids s = Z.of_nat (length l) →
  headKnownAssignedXids s ≤ maxKnownAssignedXids s → numKnownAssignedXids s = Z.of_nat (length l) →
  StronglySorted Z.lt l → Forall (window base) l → entries s 0 (valids l) → rep base s (valids l).
Proof.
  intros H1 H2 H3 H4 H5 H6 H7 H8 H9 He. split.
  - split; rewrite ?valids_fst, ?H4; try done; try lia.
    rewrite length_fmap. lia.
  - by rewrite known_valids.
  - by destruct l.
Qed.

Lemma known_le seg : (length (known seg) ≤ length seg)%nat.
Proof. unfold known. rewrite length_fmap. apply length_filter. Qed.

Lemma Compress_spec PMAX force s seg :
  rep base s seg →
  ∃ s' seg', KnownAssignedXidsCompress PMAX force s = Ret (tt, s') ∧ rep base s' seg' ∧
    known seg' = known seg ∧ maxKnownAssignedXids s' = maxKnownAssignedXids s ∧
    (force = true → seg' = valids (known seg) ∧ tailKnownAssignedXids s' = 0).
Proof.
  intros [H Hnum Hfirst]. unfold KnownAssignedXidsCompress. rewrite (bind_Ret _ _ s s s) by done.
  cbv beta zeta. destruct (negb force && _) eqn:E.
  { exists s, seg. split; [done|]. split; [done|]. split; [done|]. split; [done|].
    intros ->. done. }
  clear E. pose proof H as [H1 H2 H3 H4 H5 H6 H7 H8 H9].
  replace (Z.to_nat (headKnownAssignedXids s - tailKnownAssignedXids s)) with (length seg) by lia.
  destruct (compress_loop_spec seg (tailKnownAssignedXids s) [] s) as (s1 & Hrun & Hsame & He).
  - cbn. lia.
  - lia.
  - lia.
  - exact H7.
  - intros j c v Hj. done.
  - cbn [app length] in *. change (Z.of_nat 0) with 0 in Hrun. rewrite (bind_Ret _ _ _ _ _ Hrun).
    destruct Hsame as (E1 & E2 & E3 & E4 & E5 & E6). pose proof (known_le seg).
    eexists _, (valids (known seg)). split; [reflexivity|].
    split; [|by rewrite known_valids].
    apply rep_valids; cbn; rewrite ?E1, ?E2, ?E5, ?E6; try done; try lia.
    + by apply known_sorted.
    + by apply known_window.
Qed.

(** *** Scanning *)

Lemma get_loop_spec rest i xarray xmin c s :
  0 ≤ i → entries s i rest → StronglySorted Z.lt rest.*1 → Forall (window base) rest.*1 → window base c →
  get_loop (length rest) i xarray xmin (uint32_of c) s =
  Ret (xarray ++ (uint32_of <$> filter (λ x, x < c) (known rest)),
       match xarray, known rest with
       | [], x :: _ => if TransactionIdPrecedes (uint32_of x) xmin then uint32_of x else xmin
       | _, _ => xmin
       end, s).
Proof.
  intros Hi He Hs Hw Hc. revert i xarray xmin Hi He Hs Hw.
  induction rest as [|[x v] rest IH]; intros i xarray xmin Hi He Hs Hw.
  { cbn. rewrite app_nil_r. by destruct xarray. }
  cbn [length get_loop]. destruct (entries_head s i x v rest Hi He) as (Hv & Hx & Htl).
  rewrite fmap_cons in Hs, Hw. cbn [fst] in Hs, Hw.
  inversion_clear Hs as [|? ? Hs' Hlt]. inversion_clear Hw as [|? ? Hwx Hw'].
  rewrite (bind_Ret _ _ _ _ _ Hv), known_cons. destruct v; [|by apply IH; (done || lia)].
  rewrite (bind_Ret _ _ _ _ _ Hx).
  assert (TransactionIdIsValid (uint32_of c) = true) as ->.
  { destruct Hc as [Hc _]. unfold full_xid, TransactionIdIsNormal, FirstNormalTransactionId in Hc.
    apply Z.leb_le in Hc. unfold TransactionIdIsValid, InvalidTransactionId.
    by rewrite (proj2 (Z.eqb_neq _ 0)) by lia. }
  destruct (window_precedes x c Hwx Hc) as (_ & -> & _). cbn [andb].
  rewrite filter_cons. rewrite Z.geb_leb. destruct (Z.leb_spec c x) as [L|L].
  - rewrite decide_False by lia. rewrite (filter_none (λ x, x < c)).
    + cbn. rewrite app_nil_r. destruct xarray; done.
    + apply known_window in Hlt. eapply Forall_impl; [exact Hlt|]. cbn. lia.
  - rewrite decide_True by done. rewrite IH by (done || lia).
    rewrite <- app_assoc. cbn. destruct xarray; [|done]. by destruct (known rest).
Qed.

Lemma GetAndSetXmin_spec s seg xmin c :
  rep base s seg → window base c →
  KnownAssignedXidsGetAndSetXmin xmin (uint32_of c) s =
  Ret (uint32_of <$> filter (λ x, x < c) (known seg),
       match known seg with
       | x :: _ => if TransactionIdPrecedes (uint32_of x) xmin then uint32_of x else xmin
       | [] => xmin
       end, s).
Proof.
  intros [H _ _] Hc. unfold KnownAssignedXidsGetAndSetXmin. rewrite (bind_Ret _ _ s s s) by done. cbv beta zeta.
  pose proof H as [H1 H2 H3 H4 H5 H6 H7 H8 H9].
  replace (Z.to_nat (headKnownAssignedXids s - tailKnownAssignedXids s)) with (length seg) by lia.
  by rewrite (get_loop_spec seg _ [] xmin c s).
Qed.

Lemma known_oldest_spec s seg :
  rep base s seg →
  KnownAssignedXidsGetOldestXmin s =
  Ret (match known seg with x :: _ => uint32_of x | [] => InvalidTransactionId end, s).
Proof.
  intros [H _ Hfirst]. unfold KnownAssignedXidsGetOldestXmin. rewrite (bind_Ret _ _ s s s) by done. cbv beta zeta.
  pose proof H as [H1 H2 H3 H4 H5 H6 H7 H8 H9].
  replace (Z.to_nat (headKnownAssignedXids s - tailKnownAssignedXids s)) with (length seg) by lia.
  destruct (skip_invalid_spec s seg (length seg) 0 H eq_refl) as (k & Hsk & Hk & Hf & Ht).
  change (Z.of_nat 0) with 0 in Hsk. rewrite Z.add_0_r in Hsk. rewrite (bind_Ret _ _ _ _ _ Hsk).
  destruct seg as [|[x v] seg]; cbn [length] in *.
  { by rewrite (proj2 (Z.leb_le _ _)) by lia. }
  cbn in Hfirst. subst v. assert (k = 0%nat) as ->.
  { destruct k; [done|]. specialize (Hf 0%nat x true eq_refl). lia. }
  rewrite (proj2 (Z.leb_gt _ _)) by lia. rewrite known_cons.
  destruct (read_valid s ((x, true) :: seg) 0 x true H eq_refl) as [_ Hr]. by rewrite Hr.
Qed.

(** *** Insertion *)

Lemma uint32_diff a b : 0 ≤ b - a < 2 ^ 32 → uint32_of (uint32_of b - uint32_of a) = b - a.
Proof. intros H. unfold wrap_u. rewrite <- Zminus_mod. by apply Z.mod_small. Qed.

Lemma count_loop_spec fuel n a b :
  window base a → window base b → a ≤ b → b - a ≤ Z.of_nat fuel →
  count_loop fuel n (uint32_of a) (uint32_of b) = Ret (n + Z.of_nat (length (upto (S fuel) a b)) - 1).
Proof.
  intros Ha Hb. revert n a Ha. induction fuel as [|fuel IH]; intros n a Ha Hab Hf.
  all: destruct (next_counter_spec a (proj1 Ha)) as (Hadv & Hfull & Hlt & Hmin).
  all: cbn [count_loop]; destruct (window_precedes a b Ha Hb) as (-> & _ & _).
  all: destruct (Z.ltb_spec a b) as [L|L]; [try lia|].
  1, 3: (cbn [upto]; rewrite (proj2 (Z.leb_le a b)) by lia; f_equal; cbn;
         destruct fuel || idtac; cbn; rewrite ?(proj2 (Z.leb_gt (next_counter a) b)) by lia; cbn; lia).
  specialize (Hmin b (proj1 Hb) L). rewrite Hadv, IH; [|split; [done|]|done|lia].
  - cbn [upto length]. rewrite (proj2 (Z.leb_le a b)) by lia. cbn [length]. f_equal. lia.
  - destruct Ha, Hb. lia.
Qed.

Lemma nxids_spec a b :
  window base a → window base b → a ≤ b →
  (if uint32_of a <=? uint32_of b then Ret (uint32_of b - uint32_of a + 1)
   else count_loop (Z.to_nat (uint32_of (uint32_of b - uint32_of a))) 1 (uint32_of a) (uint32_of b))
  = Ret (Z.of_nat (length (counters a b))).
Proof.
  intros Ha Hb Hab. pose proof Ha as [Hfa Hwa]. pose proof Hb as [_ Hwb].
  pose proof (uint32_diff a b ltac:(lia)) as Hd.
  destruct (Z.leb_spec (uint32_of a) (uint32_of b)) as [L|L].
  - pose proof (wrap_u_bound 32 b ltac:(lia)) as [_ Hb2].
    pose proof (wrap_u_bound 32 a ltac:(lia)) as [Ha1 _].
    rewrite wrap_u_small in Hd by (unfold is_uint; lia). f_equal. rewrite counters_length; lia || done.
  - rewrite Hd, count_loop_spec by (done || lia). f_equal. unfold counters.
    replace (Z.to_nat (b - a + 1)) with (S (Z.to_nat (b - a))) by lia. lia.
Qed.

Lemma insert_loop_spec f a b t l s :
  full_xid a → 0 ≤ t →
  t + Z.of_nat (length l + length (upto f a b)) ≤ Z.of_nat (length (KnownAssignedXids s)) →
  length (KnownAssignedXidsValid s) = length (KnownAssignedXids s) → entries s t l →
  ∃ s', insert_loop (length (upto f a b)) (t + Z.of_nat (length l)) (uint32_of a) s
          = Ret (t + Z.of_nat (length l + length (upto f a b)), s') ∧
        same_fields s s' ∧ entries s' t (l ++ valids (upto f a b)).
Proof.
  intros Ha Ht. revert a Ha l s. induction f as [|f IH]; intros a Ha l s Hroom Hlen He; cbn [upto] in *.
  2: destruct (Z.leb_spec a b) as [L|L].
  1, 3: (exists s; cbn; rewrite Nat.add_0_r, app_nil_r; split; [done|]; split; [by repeat split|done]).
  cbn [length insert_loop] in *.
  destruct (next_counter_spec a Ha) as (Hadv & Hfull & _).
  destruct (store_spec s (t + Z.of_nat (length l)) a) as (s1 & Hst & Hsf & Hkeep & Hnew); [lia|lia|].
  pose proof Hsf as (E1 & E2 & E3 & E4 & E5 & E6).
  destruct (IH (next_counter a) Hfull (l ++ [(a, true)]) s1) as (s' & Hs' & Hsame & Hent).
  - rewrite length_app, E5. cbn. lia.
  - congruence.
  - apply entries_snoc; [done| |done]. apply Hkeep; [done|right; lia|done].
  - exists s'. rewrite <- app_assoc in Hent. split; [|split; [by eapply same_fields_trans|done]].
    revert Hst. unfold mbind, cmd_bind.
    destruct (set_known_xid _ _ s) as [[[] t']| | |]; [|done..]. intros Hst. rewrite Hst, Hadv.
    rewrite length_app in Hs'. cbn [length] in Hs'.
    replace (t + Z.of_nat (length l) + 1) with (t + Z.of_nat (length l + 1)) by lia.
    rewrite Hs'. do 2 f_equal. lia.
Qed.

Lemma counters_spec a b :
  full_xid a → StronglySorted Z.lt (counters a b) ∧ (∀ x, x ∈ counters a b ↔ full_xid x ∧ a ≤ x ≤ b).
Proof. intros Ha. apply upto_spec; [done|]. lia. Qed.

(** The new entries fit behind the others. *)
Lemma append_spec s seg a b :
  rep base s seg → window base a → window base b → Forall (λ x, x < a) seg.*1 →
  headKnownAssignedXids s + Z.of_nat (length (counters a b)) ≤ maxKnownAssignedXids s →
  ∃ s1, insert_loop (length (counters a b)) (headKnownAssignedXids s) (uint32_of a) s
          = Ret (headKnownAssignedXids s + Z.of_nat (length (counters a b)), s1) ∧
    same_fields s s1 ∧
    rep base (mkKnown (maxKnownAssignedXids s1)
                (numKnownAssignedXids s1 + Z.of_nat (length (counters a b)))
                (tailKnownAssignedXids s1)
                (headKnownAssignedXids s + Z.of_nat (length (counters a b)))
                (KnownAssignedXids s1) (KnownAssignedXidsValid s1)) (seg ++ valids (counters a b)).
Proof.
  intros [H Hnum Hfirst] Ha Hb Hlt Hroom. pose proof H as [H1 H2 H3 H4 H5 H6 H7 H8 H9].
  destruct (counters_spec a b (proj1 Ha)) as [Hs Hin].
  destruct (insert_loop_spec (Z.to_nat (b - a + 1)) a b (tailKnownAssignedXids s) seg s)
    as (s1 & Hrun & Hsf & Hent); [apply Ha|done|fold (counters a b); lia|lia|exact H7|].
  fold (counters a b) in *. exists s1. rewrite H5. split; [rewrite Hrun; do 2 f_equal; lia|].
  split; [done|]. destruct Hsf as (E1 & E2 & E3 & E4 & E5 & E6). split.
  - split; cbn; rewrite ?E1, ?E3, ?E5, ?E6; try done; try lia.
    + rewrite length_app, length_fmap. lia.
    + rewrite fmap_app, valids_fst. apply StronglySorted_app. split; [|done].
      intros x y Hx Hy. rewrite Forall_forall in Hlt. apply Hlt in Hx. apply Hin in Hy. lia.
    + rewrite fmap_app, valids_fst. apply Forall_app. split; [done|]. apply Forall_forall.
      intros x [Hx Hr]%Hin. destruct Ha, Hb. split; [done|lia].
  - cbn. rewrite known_app, known_valids, length_app. lia.
  - destruct seg as [|e seg]; [|done]. cbn. destruct (counters a b); [by rewrite E3|done].
Qed.

(** The last entry, valid or not, decides whether an insertion is in order. *)
Lemma last_entry s seg a :
  raw base s seg → window base a →
  (if tailKnownAssignedXids s <? headKnownAssignedXids s
   then known_xid (headKnownAssignedXids s - 1) else mret InvalidTransactionId) s
  = Ret (match last seg.*1 with Some c => uint32_of c | None => InvalidTransactionId end, s) ∧
  ((tailKnownAssignedXids s <? headKnownAssignedXids s) &&
     TransactionIdFollowsOrEquals
       (match last seg.*1 with Some c => uint32_of c | None => InvalidTransactionId end) (uint32_of a) = true
   ↔ ¬ Forall (λ x, x < a) seg.*1).
Proof.
  intros H Ha. pose proof H as [H1 H2 H3 H4 H5 H6 H7 H8 H9].
  destruct (last seg.*1) as [c|] eqn:E.
  - assert (seg.*1 !! (length seg - 1)%nat = Some c) as Hl.
    { rewrite <- E, last_lookup, length_fmap. f_equal. lia. }
    pose proof (lookup_lt_Some _ _ _ Hl) as Hlt. rewrite length_fmap in Hlt.
    rewrite list_lookup_fmap in Hl. destruct (seg !! (length seg - 1)%nat) as [[c' v]|] eqn:Es; [|done].
    cbn in Hl. simplify_eq. rewrite (proj2 (Z.ltb_lt _ _)) by lia.
    destruct (read_valid s seg _ c v H Es) as [_ Hr].
    replace (tailKnownAssignedXids s + Z.of_nat (length seg - 1))
      with (headKnownAssignedXids s - 1) in Hr by lia.
    split; [exact Hr|]. cbn [andb].
    destruct (window_precedes c a (window_of _ _ _ _ _ H Es) Ha) as (_ & -> & _).
    rewrite Z.geb_leb, Z.leb_le. split.
    + intros Hca Hall. rewrite Forall_forall in Hall.
      assert (c ∈ seg.*1) as Hc%Hall; [|lia]. apply list_elem_of_fmap. exists (c, v).
      split; [done|]. by eapply list_elem_of_lookup_2.
    + intros Hn. destruct (Z_lt_le_dec c a) as [Hca|]; [|done]. destruct Hn.
      apply Forall_forall. intros x [j Hj]%list_elem_of_lookup.
      rewrite list_lookup_fmap in Hj. destruct (seg !! j) as [[c1 v1]|] eqn:Ej; [|done].
      cbn in Hj. simplify_eq. pose proof (lookup_lt_Some _ _ _ Ej).
      destruct (decide (j = (length seg - 1)%nat)) as [->|]; [simplify_eq; done|].
      pose proof (sorted_lookup _ _ _ _ _ _ _ _ H Ej Es). lia.
  - apply last_None in E. apply fmap_nil_inv in E. subst seg. cbn in H5.
    rewrite (proj2 (Z.ltb_ge _ _)) by lia. split; [done|]. cbn. split; [done|].
    intros Hn. by destruct Hn.
Qed.

Lemma Add_spec PMAX s seg a b :
  rep base s seg → window base a → window base b → a ≤ b →
  KnownAssignedXidsAdd PMAX (uint32_of a) (uint32_of b) s = Ereport ERRCODE_INTERNAL_ERROR ∧
    (¬ Forall (λ x, x < a) seg.*1 ∨
     maxKnownAssignedXids s < Z.of_nat (length (known seg) + length (counters a b))) ∨
  ∃ s' seg', KnownAssignedXidsAdd PMAX (uint32_of a) (uint32_of b) s = Ret (tt, s') ∧
    rep base s' seg' ∧ maxKnownAssignedXids s' = maxKnownAssignedXids s ∧
    known seg' = known seg ++ counters a b ∧ Forall (λ x, x < a) seg.*1 ∧
    Z.of_nat (length (known seg) + length (counters a b)) ≤ maxKnownAssignedXids s.
Proof.
  intros Hrep Ha Hb Hab. unfold KnownAssignedXidsAdd.
  pose proof Hrep as [H Hnum Hfirst]. pose proof H as [H1 H2 H3 H4 H5 H6 H7 H8 H9].
  assert (TransactionIdPrecedesOrEquals (uint32_of a) (uint32_of b) = true) as ->.
  { rewrite full_precedes_or_equals; [by apply Z.leb_le|apply Ha|apply Hb|by eapply window_near]. }
  rewrite (bind_Ret _ _ s tt s) by done.
  rewrite (bind_Ret _ _ s (Z.of_nat (length (counters a b))) s)
    by (unfold lift; by rewrite nxids_spec).
  rewrite (bind_Ret _ _ s s s) by done. cbv beta zeta.
  rewrite (proj2 (Z.leb_le 0 (headKnownAssignedXids s))), (proj2 (Z.leb_le _ (maxKnownAssignedXids s))) by lia.
  rewrite (bind_Ret _ _ s tt s) by done.
  assert (tailKnownAssignedXids s < maxKnownAssignedXids s) as Htm.
  { destruct seg; cbn in *; lia. }
  rewrite (proj2 (Z.leb_le 0 (tailKnownAssignedXids s))), (proj2 (Z.ltb_lt _ (maxKnownAssignedXids s))) by lia.
  rewrite (bind_Ret _ _ s tt s) by done.
  destruct (last_entry s seg a H Ha) as [Hlast Hord]. rewrite (bind_Ret _ _ _ _ _ Hlast).
  destruct (_ && _).
  { left. split; [done|]. left. by apply Hord. }
  assert (Forall (λ x, x < a) seg.*1) as Hlt.
  { destruct (decide (Forall (λ x, x < a) seg.*1)) as [|Hn]; [done|]. by apply Hord in Hn. }
  clear Hord Hlast. set (n := Z.of_nat (length (counters a b))) in *.
  assert (∃ s1 seg1, (if maxKnownAssignedXids s <? headKnownAssignedXids s + n
    then KnownAssignedXidsCompress PMAX true else mret tt) s = Ret (tt, s1) ∧ rep base s1 seg1 ∧
    known seg1 = known seg ∧ maxKnownAssignedXids s1 = maxKnownAssignedXids s ∧
    Forall (λ x, x < a) seg1.*1 ∧
    (headKnownAssignedXids s1 + n ≤ maxKnownAssignedXids s ∨
     headKnownAssignedXids s1 = Z.of_nat (length (known seg)))) as (s1 & seg1 & Hc & Hr1 & Hk1 & Hm1 & Hlt1 & Hh1).
  { destruct (Z.ltb_spec (maxKnownAssignedXids s) (headKnownAssignedXids s + n)) as [L|L].
    - destruct (Compress_spec PMAX true s seg Hrep) as (s1 & seg1 & Hc & Hr1 & Hk1 & Hm1 & Hf).
      destruct (Hf eq_refl) as [Hf' Ht1]. clear Hf. exists s1, seg1. split; [done|]. split; [done|]. split; [done|]. split; [done|].
      split; [subst seg1; rewrite valids_fst; by apply known_window|]. right.
      destruct Hr1 as [Hraw _ _]. rewrite (r_head _ _ _ Hraw), Hf', length_fmap. lia.
    - exists s, seg. split; [done|]. split; [done|]. split; [done|]. split; [done|]. split; [done|]. by left. }
  rewrite (bind_Ret _ _ _ _ _ Hc), (bind_Ret _ _ s1 s1 s1) by done. cbv beta zeta. rewrite Hm1.
  destruct (Z.ltb_spec (maxKnownAssignedXids s) (headKnownAssignedXids s1 + n)) as [L|L].
  { left. split; [done|]. right. lia. }
  right. destruct (append_spec s1 seg1 a b Hr1 Ha Hb Hlt1) as (s2 & Hrun & Hsf & Hr2); [unfold n in *; lia|].
  unfold n in *. rewrite Nat2Z.id, (bind_Ret _ _ _ _ _ Hrun), (bind_Ret _ _ s2 s2 s2) by done. cbv beta zeta.
  eexists _, _. split; [reflexivity|]. split; [exact Hr2|]. destruct Hsf as (E1 & _).
  split; [cbn; congruence|]. rewrite known_app, known_valids, Hk1. split; [done|]. split; [done|].
  pose proof (known_le seg1) as Hle. rewrite Hk1 in Hle. pose proof (r_head _ _ _ (r_raw _ _ _ Hr1)).
  pose proof (r_tail _ _ _ (r_raw _ _ _ Hr1)). lia.
Qed.

(** *** Removal of old ids *)

Section prune.
Context (prep : TransactionId → bool) (r : Z).

(** The ids that [KnownAssignedXidsRemovePreceding] removes. *)
Definition stale (c : Z) : Prop := c < r ∧ prep (uint32_of c) = false.
#[global] Instance stale_dec c : Decision (stale c).
Proof. unfold stale. apply _. Defined.

Definition prune (seg : list (Z * bool)) : list (Z * bool) :=
  (λ e, (e.1, e.2 && negb (bool_decide (stale e.1)))) <$> seg.

Lemma known_prune seg : known (prune seg) = filter (λ c, ¬ stale c) (known seg).
Proof.
  induction seg as [|[c v] seg IH]; [done|]. unfold prune in *. rewrite fmap_cons. cbn [fst snd].
  rewrite !known_cons, IH. destruct v; [|done]. cbn [andb]. rewrite filter_cons.
  case_bool_decide; cbn; [by rewrite decide_False by tauto|by rewrite decide_True].
Qed.
Lemma prune_late seg : Forall (λ x, r ≤ x) seg.*1 → prune seg = seg.
Proof.
  unfold prune. intros H. rewrite <- (list_fmap_id seg) at 2. apply list_fmap_ext. intros i [c v] Hi.
  rewrite Forall_forall in H. assert (r ≤ c) as Hc.
  { apply H, list_elem_of_fmap. exists (c, v). split; [done|]. by eapply list_elem_of_lookup_2. }
  cbn. rewrite bool_decide_false by (unfold stale; lia). by rewrite andb_true_r.
Qed.

Lemma prune_loop_spec n i count s seg :
  raw base s seg → window base r → (i + n = length seg)%nat →
  ∃ s' k, prune_loop prep n (tailKnownAssignedXids s + Z.of_nat i) (uint32_of r) count s
            = Ret (count + Z.of_nat k, s') ∧
    raw base s' (take i seg ++ prune (drop i seg)) ∧
    (length (known seg) = length (known (take i seg ++ prune (drop i seg))) + k)%nat ∧
    numKnownAssignedXids s' = numKnownAssignedXids s ∧ tailKnownAssignedXids s' = tailKnownAssignedXids s ∧
    headKnownAssignedXids s' = headKnownAssignedXids s ∧ maxKnownAssignedXids s' = maxKnownAssignedXids s.
Proof.
  revert i count s seg. induction n as [|n IH]; intros i count s seg H Hr Hn; cbn [prune_loop].
  { exists s, 0%nat. rewrite take_ge, drop_ge, app_nil_r by lia. rewrite Z.add_0_r.
    split; [done|]. split; [done|]. split; [lia|done]. }
  destruct (lookup_lt_is_Some_2 seg i) as [[c v] Hi]; [lia|].
  assert (take (S i) seg = take i seg ++ [(c, v)]) as Htake by by apply take_S_r.
  assert (drop i seg = (c, v) :: drop (S i) seg) as Hdrop by by apply drop_S.
  assert (∀ v', prune ((c, v) :: drop (S i) seg) = (c, v') :: prune (drop (S i) seg) →
    take i seg ++ prune (drop i seg) = (take i seg ++ [(c, v')]) ++ prune (drop (S i) seg)) as Happ.
  { intros v' E. by rewrite Hdrop, E, <- app_assoc. }
  destruct (read_valid s seg i c v H Hi) as [Hv Hx]. rewrite (bind_Ret _ _ _ _ _ Hv).
  replace (tailKnownAssignedXids s + Z.of_nat i + 1) with (tailKnownAssignedXids s + Z.of_nat (S i)) by lia.
  destruct v.
  2: { destruct (IH (S i) count s seg H Hr) as (s' & k & Hrun & Hres); [lia|]. exists s', k.
       rewrite (Happ false) by done. rewrite Htake in Hres. done. }
  rewrite (bind_Ret _ _ _ _ _ Hx).
  pose proof (window_of _ _ _ _ _ H Hi) as Hc.
  destruct (window_precedes c r Hc Hr) as (_ & -> & _). rewrite Z.geb_leb.
  destruct (Z.leb_spec r c) as [L|L].
  { exists s, 0%nat. rewrite prune_late, take_drop, Z.add_0_r.
    - split; [done|]. split; [done|]. split; [lia|done].
    - rewrite Hdrop, fmap_cons. constructor; [done|]. apply Forall_forall.
      intros x [j Hj]%list_elem_of_lookup. rewrite list_lookup_fmap, lookup_drop in Hj.
      destruct (seg !! (S i + j)%nat) as [[x' v]|] eqn:E; [|done]. cbn in Hj. simplify_eq.
      pose proof (sorted_lookup _ _ _ _ _ _ _ _ H Hi E ltac:(lia)). lia. }
  destruct (prep (uint32_of c)) eqn:Hprep; cbn [negb].
  { destruct (IH (S i) count s seg H Hr) as (s' & k & Hrun & Hres); [lia|]. exists s', k.
    rewrite (Happ true), <- Htake; [done|]. unfold prune. rewrite fmap_cons. cbn [fst snd].
    rewrite bool_decide_false; [done|]. unfold stale. rewrite Hprep. naive_solver. }
  destruct (set_valid_spec s seg i c true false H Hi) as (s1 & Hset & H1 & Hn1 & Ht1 & Hh1 & Hm1).
  rewrite (bind_Ret _ _ _ _ _ Hset).
  destruct (IH (S i) (count + 1) s1 _ H1 Hr) as (s' & k & Hrun & Hr' & Hk & E1 & E2 & E3 & E4).
  { rewrite length_insert. lia. }
  rewrite Ht1 in Hrun. exists s', (S k). rewrite Hrun.
  assert (take (S i) (<[i:=(c, false)]> seg) = take i seg ++ [(c, false)]) as E5.
  { rewrite (take_S_r _ _ (c, false)) by (apply list_lookup_insert_eq; lia). f_equal.
    by rewrite take_insert_ge by lia. }
  rewrite E5, drop_insert_lt in Hr', Hk by lia.
  rewrite (Happ false) by (unfold prune; rewrite fmap_cons; cbn [fst snd]; by rewrite bool_decide_true).
  split; [do 2 f_equal; lia|]. split; [done|]. split; [|by rewrite E1, E2, E3, E4].
  destruct (known_insert_false s seg i c H Hi) as [_ ->]. lia.
Qed.
End prune.

Lemma RemovePreceding_spec PMAX prep r s seg :
  rep base s seg → window base r →
  ∃ s' seg', KnownAssignedXidsRemovePreceding PMAX prep (uint32_of r) s = Ret (tt, s') ∧
    rep base s' seg' ∧ maxKnownAssignedXids s' = maxKnownAssignedXids s ∧
    known seg' = filter (λ c, ¬ stale prep r c) (known seg).
Proof.
  intros [H Hnum Hfirst] Hr. unfold KnownAssignedXidsRemovePreceding.
  assert (TransactionIdIsValid (uint32_of r) = true) as ->.
  { destruct Hr as [Hr _]. unfold full_xid, TransactionIdIsNormal, FirstNormalTransactionId in Hr.
    apply Z.leb_le in Hr. unfold TransactionIdIsValid, InvalidTransactionId.
    by rewrite (proj2 (Z.eqb_neq _ 0)) by lia. }
  cbn [negb]. rewrite (bind_Ret _ _ s s s) by done. cbv beta zeta.
  pose proof H as [H1 H2 H3 H4 H5 H6 H7 H8 H9].
  replace (Z.to_nat (headKnownAssignedXids s - tailKnownAssignedXids s)) with (length seg) by lia.
  destruct (prune_loop_spec prep r (length seg) 0 0 s seg H Hr eq_refl)
    as (s1 & k & Hrun & Hr1 & Hk & E1 & E2 & E3 & E4).
  change (Z.of_nat 0) with 0 in Hrun. rewrite Z.add_0_r in Hrun. rewrite (bind_Ret _ _ _ _ _ Hrun).
  rewrite drop_0 in Hr1, Hk. change (take 0 seg ++ prune prep r seg) with (prune prep r seg) in *.
  set (seg1 := prune prep r seg) in *.
  set (s2 := mkKnown (maxKnownAssignedXids s1) (numKnownAssignedXids s - (0 + Z.of_nat k))
               (tailKnownAssignedXids s1) (headKnownAssignedXids s1) (KnownAssignedXids s1)
               (KnownAssignedXidsValid s1)).
  rewrite (bind_Ret _ _ s1 tt s2) by done.
  assert (raw base s2 seg1) as Hr2 by (destruct Hr1; by split).
  assert (numKnownAssignedXids s2 = Z.of_nat (length (known seg1))) as Hnum2 by (cbn; lia).
  rewrite (proj2 (Z.leb_le 0 (numKnownAssignedXids s - (0 + Z.of_nat k)))) by (cbn in Hnum2; lia).
  rewrite (bind_Ret _ _ s2 tt s2) by done.
  assert (length seg1 = length seg) as Hl by apply length_fmap.
  destruct (skip_invalid_spec s2 seg1 (length seg) 0 Hr2) as (j & Hsk & Hj & Hf & Ht); [lia|].
  change (Z.of_nat 0) with 0 in Hsk. rewrite Z.add_0_r in Hsk.
  change (tailKnownAssignedXids s2) with (tailKnownAssignedXids s1) in Hsk. rewrite E2 in Hsk.
  rewrite (bind_Ret _ _ _ _ _ Hsk).
  destruct (settle_spec s2 seg1 j Hr2 Hnum2) as (s3 & Hs3 & Hr3 & Hk3 & Hm3);
    [lia|intros i c v Hi Hij; apply (Hf i c v Hi); lia|done|].
  destruct (Compress_spec PMAX false s3 _ Hr3) as (s4 & seg4 & Hc & Hr4 & Hk4 & Hm4 & _).
  exists s4, seg4. rewrite (bind_Ret _ _ s2 tt s3).
  - split; [done|]. split; [done|]. split; [rewrite Hm4, Hm3; exact E4|].
    rewrite Hk4, Hk3. apply known_prune.
  - rewrite <- Hs3. change (headKnownAssignedXids s2) with (headKnownAssignedXids s1).
    change (tailKnownAssignedXids s2) with (tailKnownAssignedXids s1). by rewrite E2, E3.
Qed.

(** *** Removal of a transaction and its children *)

Lemma window_valid c : window base c → TransactionIdIsValid (uint32_of c) = true.
Proof.
  intros [Hc _]. unfold full_xid, TransactionIdIsNormal, FirstNormalTransactionId in Hc.
  apply Z.leb_le in Hc. unfold TransactionIdIsValid, InvalidTransactionId.
  by rewrite (proj2 (Z.eqb_neq _ 0)) by lia.
Qed.

Lemma Remove_spec s seg c :
  rep base s seg → window base c →
  ∃ s' seg', KnownAssignedXidsRemove (uint32_of c) s = Ret (tt, s') ∧ rep base s' seg' ∧
    maxKnownAssignedXids s' = maxKnownAssignedXids s ∧ known seg' = filter (λ x, x ≠ c) (known seg).
Proof.
  intros H Hc. destruct (Search_spec s seg c true H Hc) as (s' & seg' & Hrun & Hr & Hm & Hk).
  exists s', seg'. unfold KnownAssignedXidsRemove. rewrite window_valid by done.
  rewrite (bind_Ret _ _ s tt s) by done. by rewrite (bind_Ret _ _ _ _ _ Hrun).
Qed.

Lemma filter_and {A} (P Q : A → Prop) `{!∀ x, Decision (P x), !∀ x, Decision (Q x)}
    (R : A → Prop) `{!∀ x, Decision (R x)} (l : list A) :
  (∀ x, R x ↔ P x ∧ Q x) → filter P (filter Q l) = filter R l.
Proof.
  intros HR. rewrite list_filter_filter. apply list_filter_iff. intros x. rewrite HR. tauto.
Qed.

Lemma remove_all_spec subs s seg :
  rep base s seg → Forall (window base) subs →
  ∃ s' seg', citer KnownAssignedXidsRemove (uint32_of <$> subs) s = Ret (tt, s') ∧ rep base s' seg' ∧
    maxKnownAssignedXids s' = maxKnownAssignedXids s ∧ known seg' = filter (λ x, x ∉ subs) (known seg).
Proof.
  revert s seg. induction subs as [|c subs IH]; intros s seg H Hw.
  { exists s, seg. split; [done|]. split; [done|]. split; [done|]. symmetry. apply filter_all.
    apply Forall_forall. intros x _. apply not_elem_of_nil. }
  inversion_clear Hw as [|? ? Hc Hsubs].
  destruct (Remove_spec s seg c H Hc) as (s1 & seg1 & Hrun & Hr1 & Hm1 & Hk1).
  destruct (IH s1 seg1 Hr1 Hsubs) as (s2 & seg2 & Hrun2 & Hr2 & Hm2 & Hk2).
  exists s2, seg2. rewrite fmap_cons. cbn [citer]. rewrite (bind_Ret _ _ _ _ _ Hrun).
  split; [done|]. split; [done|]. split; [congruence|]. rewrite Hk2, Hk1.
  apply filter_and. intros x. rewrite not_elem_of_cons. tauto.
Qed.

Lemma RemoveTree_spec PMAX s seg c subs :
  rep base s seg → window base c → Forall (window base) subs →
  ∃ s' seg', KnownAssignedXidsRemoveTree PMAX (uint32_of c) (uint32_of <$> subs) s = Ret (tt, s') ∧
    rep base s' seg' ∧ maxKnownAssignedXids s' = maxKnownAssignedXids s ∧
    known seg' = filter (λ x, x ∉ c :: subs) (known seg).
Proof.
  intros H Hc Hsubs. unfold KnownAssignedXidsRemoveTree. rewrite window_valid by done.
  destruct (Remove_spec s seg c H Hc) as (s1 & seg1 & Hrun & Hr1 & Hm1 & Hk1).
  destruct (remove_all_spec subs s1 seg1 Hr1 Hsubs) as (s2 & seg2 & Hrun2 & Hr2 & Hm2 & Hk2).
  destruct (Compress_spec PMAX false s2 seg2 Hr2) as (s3 & seg3 & Hrun3 & Hr3 & Hk3 & Hm3 & _).
  exists s3, seg3. rewrite (bind_Ret _ _ _ _ _ Hrun), (bind_Ret _ _ _ _ _ Hrun2).
  split; [done|]. split; [done|]. split; [congruence|]. rewrite Hk3, Hk2, Hk1.
  apply filter_and. intros x. rewrite not_elem_of_cons. tauto.
Qed.
End lemmas.

(** ** Correctness *)

(** The array holds exactly the counters [l]. *)
Definition holds (base : Z) (s : KnownXids) (l : list Z) : Prop :=
  ∃ seg, rep base s seg ∧ known seg = l.

Lemma holds_intro base s seg l : rep base s seg → known seg = l → holds base s l.
Proof. by exists seg. Qed.

(** C32: the array of known-assigned ids refines a set of transactions that is always
    sorted: searching (a binary search over an array with gaps) finds exactly its members,
    removing a transaction with its children, or all the unprepared transactions before a
    horizon, removes exactly those, whatever compression does on the way; a reader gets all
    members before its [xmax] in increasing order, and the oldest member. *)
Theorem KnownAssignedXids_refines_set PMAX prep base s l :
  holds base s l →
  StronglySorted Z.lt l ∧ numKnownAssignedXids s = Z.of_nat (length l) ∧
  (∀ c, window base c → ∃ s',
     KnownAssignedXidExists (uint32_of c) s = Ret (bool_decide (c ∈ l), s') ∧ holds base s' l) ∧
  (∀ c subs, window base c → Forall (window base) subs → ∃ s',
     KnownAssignedXidsRemoveTree PMAX (uint32_of c) (uint32_of <$> subs) s = Ret (tt, s') ∧
     holds base s' (filter (λ x, x ∉ c :: subs) l)) ∧
  (∀ r, window base r → ∃ s',
     KnownAssignedXidsRemovePreceding PMAX prep (uint32_of r) s = Ret (tt, s') ∧
     holds base s' (filter (λ x, ¬ stale prep r x) l)) ∧
  (∀ xmax, window base xmax →
     KnownAssignedXidsGet (uint32_of xmax) s = Ret (uint32_of <$> filter (λ x, x < xmax) l, s)) ∧
  KnownAssignedXidsGetOldestXmin s =
    Ret (match l with x :: _ => uint32_of x | [] => InvalidTransactionId end, s).
Proof.
  intros (seg & H & <-). split; [apply known_sorted, H|]. split; [apply H|]. split; [|split; [|split; [|split]]].
  - intros c Hc. destruct (Search_spec base s seg c false H Hc) as (s' & seg' & Hrun & Hr & _ & Hk).
    exists s'. split; [|by eapply holds_intro]. unfold KnownAssignedXidExists.
    rewrite (window_valid base) by done. by rewrite (bind_Ret _ _ s tt s).
  - intros c subs Hc Hs. destruct (RemoveTree_spec base PMAX s seg c subs H Hc Hs)
      as (s' & seg' & Hrun & Hr & _ & Hk). exists s'. split; [done|by eapply holds_intro].
  - intros r Hr. destruct (RemovePreceding_spec base PMAX prep r s seg H Hr)
      as (s' & seg' & Hrun & Hr' & _ & Hk). exists s'. split; [done|by eapply holds_intro].
  - intros xmax Hx. unfold KnownAssignedXidsGet.
    by rewrite (bind_Ret _ _ _ _ _ (GetAndSetXmin_spec base s seg InvalidTransactionId xmax H Hx)).
  - by apply (known_oldest_spec base).
Qed.

(** An array with the ids around the wraparound and one removed entry. *)
Definition sample_known : KnownXids :=
  mkKnown 6 3 1 5 [0; 4294967290; 4294967294; 3; 5; 0] [false; true; false; true; true; false].
Definition sample_seg : list (Z * bool) :=
  [(4294967290, true); (4294967294, false); (4294967299, true); (4294967301, true)].

Lemma sample_rep : rep 4294967280 sample_known sample_seg.
Proof.
  split; [split| |]; [vm_compute; congruence..| | | |vm_compute; reflexivity|vm_compute; reflexivity].
  - intros i c v Hi. do 4 (destruct i as [|i]; [cbn in Hi; simplify_eq; split; vm_compute; reflexivity|]).
    discriminate Hi.
  - repeat constructor.
  - unfold window. repeat (constructor; [vm_compute; repeat split; congruence|]). constructor.
Qed.

Lemma KnownAssignedXids_refines_set_witness :
  holds 4294967280 sample_known [4294967290; 4294967299; 4294967301] ∧
  ∃ s', KnownAssignedXidsRemoveTree 1 (uint32_of 4294967299) (uint32_of <$> [4294967301]) sample_known = Ret (tt, s') ∧
        holds 4294967280 s' [4294967290].
Proof.
  assert (holds 4294967280 sample_known [4294967290; 4294967299; 4294967301]) as H
    by (exists sample_seg; split; [exact sample_rep|reflexivity]).
  split; [exact H|].
  destruct (KnownAssignedXids_refines_set 1 (λ _, false) _ _ _ H) as (_ & _ & _ & Htree & _).
  destruct (Htree 4294967299 [4294967301]) as (s' & Hrun & Hh).
  - unfold window. vm_compute. repeat split; congruence.
  - repeat constructor; vm_compute; congruence.
  - exists s'. split; [exact Hrun|exact Hh].
Defined.

(** Inserting the transactions from [a] to [b] either appends exactly those counters,
    also across the wraparound of the 32-bit ids, or reports an error and leaves the array
    alone; it fails if and only if an id that is not older than [a] is still in the array,
    as a valid entry or as the place of a removed one, or there is not enough room for the
    members and the new ids together, so that a fragmented array never makes it fail. *)
Theorem KnownAssignedXidsAdd_correct PMAX base s seg a b :
  rep base s seg → window base a → window base b → a ≤ b →
  let new := counters a b in
  (Forall (λ x, x < a) seg.*1 ∧ Z.of_nat (length (known seg) + length new) ≤ maxKnownAssignedXids s →
   ∃ s', KnownAssignedXidsAdd PMAX (uint32_of a) (uint32_of b) s = Ret (tt, s') ∧
         holds base s' (known seg ++ new)) ∧
  (¬ (Forall (λ x, x < a) seg.*1 ∧ Z.of_nat (length (known seg) + length new) ≤ maxKnownAssignedXids s) →
   KnownAssignedXidsAdd PMAX (uint32_of a) (uint32_of b) s = Ereport ERRCODE_INTERNAL_ERROR) ∧
  (∀ x, x ∈ new ↔ full_xid x ∧ a ≤ x ≤ b).
Proof.
  intros H Ha Hb Hab new. split; [|split].
  - intros [Hlt Hroom]. destruct (Add_spec base PMAX s seg a b H Ha Hb Hab)
      as [[_ [Hn|Hn]]|(s' & seg' & Hrun & Hr & _ & Hk & _)]; [done|unfold new in *; lia|].
    exists s'. split; [done|by eapply holds_intro].
  - intros Hn. destruct (Add_spec base PMAX s seg a b H Ha Hb Hab)
      as [[He _]|(s' & seg' & _ & _ & _ & _ & Hlt & Hroom)]; [done|]. by destruct Hn.
  - apply counters_spec, Ha.
Qed.

Lemma KnownAssignedXidsAdd_correct_witness :
  ∃ s', KnownAssignedXidsAdd 1 (uint32_of 4294967302) (uint32_of 4294967304) sample_known = Ret (tt, s') ∧
        holds 4294967280 s' [4294967290; 4294967299; 4294967301; 4294967302; 4294967303; 4294967304].
Proof.
  destruct (KnownAssignedXidsAdd_correct 1 _ sample_known sample_seg 4294967302 4294967304 sample_rep)
    as [H _]; [unfold window; vm_compute; repeat split; congruence..|lia|].
  apply H. split; [repeat constructor|vm_compute; congruence].
Defined.
