(* ===== verification/VarSup.v ===== *)
(** * Assignment of transaction ids and object ids

    [backend/access/transam/varsup.c]: the counters of the next transaction id and
    the next object id in shared memory, the limits that stop the assignment before
    the ids wrap around, and the publication of a new id in the backend's [PGPROC].

    This file also declares the shared memory that [varsup.c] and [procarray.c] use:
    the variable cache, the [PGPROC] structures and the array of active ones. *)

From S2P Require Import Prelude Xid Clog KnownXids.

(** ** Shared memory *)

Abbreviation Oid := Z.

(** [storage/proc.h]: the cache of the running subtransactions of a backend. *)
Definition PGPROC_MAX_CACHED_SUBXIDS : Z := 64.
Record XidCache := mkXidCache {
  overflowed : bool;
  nxids : Z;
  xids : list TransactionId
}.

Definition PROC_IS_AUTOVACUUM : Z := 0x01.
Definition PROC_IN_VACUUM : Z := 0x02.
Definition PROC_IN_ANALYZE : Z := 0x04.
Definition PROC_VACUUM_FOR_WRAPAROUND : Z := 0x08.
Definition PROC_VACUUM_STATE_MASK : Z := 0x0E.

(** The fields of [PGPROC] that describe the transaction of the process. *)
Record PGPROC := mkProc {
  lxid : Z;
  xid : TransactionId;
  xmin : TransactionId;
  pid : Z;
  databaseId : Oid;
  inCommit : bool;
  vacuumFlags : Z;
  recoveryConflictPending : bool;
  subxids : XidCache
}.

(** [access/transam.h] *)
Record VariableCacheData := mkVars {
  nextOid : Oid;
  oidCount : Z;
  nextXid : TransactionId;
  oldestXid : TransactionId;
  xidVacLimit : TransactionId;
  xidWarnLimit : TransactionId;
  xidStopLimit : TransactionId;
  xidWrapLimit : TransactionId;
  oldestXidDB : Oid;
  latestCompletedXid : TransactionId
}.

(** What the modelled code sends to other parts of the server: a signal to the
    postmaster, a warning with the number of transactions left, a log record with the
    next object id. *)
Inductive Event :=
| StartAutovacLauncher
| WarnWraparound (left : Z)
| XLogPutNextOid (next : Oid).

(** [procs] lists the first [numProcs] elements of [procArray->procs]; a process is
    the number of its [PGPROC] in [allProcs]. *)
Record Shmem := mkShmem {
  ShmemVariableCache : VariableCacheData;
  allProcs : list PGPROC;
  maxProcs : Z;
  procs : list Z;
  known_assigned : KnownXids;
  lastOverflowedXid : TransactionId;
  RecoveryInProgress : bool;
  sh_clog : Clog;
  sh_subtrans : gmap Z (list TransactionId);
  events : list Event
}.

Definition get_shmem : cmd Shmem Shmem := λ s, Ret (s, s).
Definition set_vars (v : VariableCacheData) : cmd Shmem unit := λ s,
  Ret (tt, mkShmem v (allProcs s) (maxProcs s) (procs s) (known_assigned s) (lastOverflowedXid s)
             (RecoveryInProgress s) (sh_clog s) (sh_subtrans s) (events s)).
Definition get_proc (p : Z) : cmd Shmem PGPROC := λ s, x ← arr_get (allProcs s) p; Ret (x, s).
Definition set_proc (p : Z) (x : PGPROC) : cmd Shmem unit := λ s,
  ps ← arr_set (allProcs s) p x;
  Ret (tt, mkShmem (ShmemVariableCache s) ps (maxProcs s) (procs s) (known_assigned s)
             (lastOverflowedXid s) (RecoveryInProgress s) (sh_clog s) (sh_subtrans s) (events s)).
Definition set_procs (l : list Z) : cmd Shmem unit := λ s,
  Ret (tt, mkShmem (ShmemVariableCache s) (allProcs s) (maxProcs s) l (known_assigned s)
             (lastOverflowedXid s) (RecoveryInProgress s) (sh_clog s) (sh_subtrans s) (events s)).
Definition send (e : Event) : cmd Shmem unit := λ s,
  Ret (tt, mkShmem (ShmemVariableCache s) (allProcs s) (maxProcs s) (procs s) (known_assigned s)
             (lastOverflowedXid s) (RecoveryInProgress s) (sh_clog s) (sh_subtrans s)
             (events s ++ [e])).
Definition sh_on_clog {A} (m : cmd Clog A) : cmd Shmem A := λ s,
  '(a, c) ← m (sh_clog s);
  Ret (a, mkShmem (ShmemVariableCache s) (allProcs s) (maxProcs s) (procs s) (known_assigned s)
            (lastOverflowedXid s) (RecoveryInProgress s) c (sh_subtrans s) (events s)).

Definition with_nextXid (v : VariableCacheData) (x : TransactionId) : VariableCacheData :=
  mkVars (nextOid v) (oidCount v) x (oldestXid v) (xidVacLimit v) (xidWarnLimit v) (xidStopLimit v)
    (xidWrapLimit v) (oldestXidDB v) (latestCompletedXid v).
Definition with_oid (v : VariableCacheData) (oid count : Z) : VariableCacheData :=
  mkVars oid count (nextXid v) (oldestXid v) (xidVacLimit v) (xidWarnLimit v) (xidStopLimit v)
    (xidWrapLimit v) (oldestXidDB v) (latestCompletedXid v).

Section varsup.
Context (BLCKSZ : Z).

(** ** [subtrans.c]: a new page of parent links *)

Definition ZeroSUBTRANSPage (pageno : Z) : cmd Shmem unit := λ s,
  Ret (tt, mkShmem (ShmemVariableCache s) (allProcs s) (maxProcs s) (procs s) (known_assigned s)
             (lastOverflowedXid s) (RecoveryInProgress s) (sh_clog s)
             (<[pageno := replicate (Z.to_nat (BLCKSZ / 4)) InvalidTransactionId]> (sh_subtrans s))
             (events s)).

Definition ExtendSUBTRANS (newestXact : TransactionId) : cmd Shmem unit :=
  if negb (newestXact mod (BLCKSZ / 4) =? 0)
     && negb (TransactionIdEquals newestXact FirstNormalTransactionId) then mret tt
  else ZeroSUBTRANSPage (newestXact / (BLCKSZ / 4)).

(** ** Transaction ids *)

(** The process: [MyProc], and its processing mode. *)
Context (MyProc : Z) (IsBootstrapProcessingMode IsUnderPostmaster : bool).
(** What the other backends do while this one does not hold [XidGenLock]. *)
Context (others : Shmem → Shmem).

(** The part of [GetNewTransactionId] that runs without the lock. *)
Definition wraparound_warnings (xid : TransactionId) (v : VariableCacheData) : cmd Shmem unit :=
  _ ← (if IsUnderPostmaster && (xid mod 65536 =? 0) then send StartAutovacLauncher else mret tt);
  if IsUnderPostmaster && TransactionIdFollowsOrEquals xid (xidStopLimit v)
  then ereport ERRCODE_PROGRAM_LIMIT_EXCEEDED
  else if TransactionIdFollowsOrEquals xid (xidWarnLimit v)
  then send (WarnWraparound (uint32_of (xidWrapLimit v - xid)))
  else mret tt.

(** The new id is stored in [MyProc], in the subtransaction cache if there is room. *)
Definition store_xid (newxid : TransactionId) (isSubXact : bool) : cmd Shmem unit :=
  myproc ← get_proc MyProc;
  if negb isSubXact then
    set_proc MyProc (mkProc (lxid myproc) newxid (xmin myproc) (pid myproc) (databaseId myproc)
      (inCommit myproc) (vacuumFlags myproc) (recoveryConflictPending myproc) (subxids myproc))
  else
    let c := subxids myproc in
    c' ← (if nxids c <? PGPROC_MAX_CACHED_SUBXIDS then
            xs ← lift (arr_set (xids c) (nxids c) newxid);
            mret (mkXidCache (overflowed c) (nxids c + 1) xs)
          else mret (mkXidCache true (nxids c) (xids c)));
    set_proc MyProc (mkProc (lxid myproc) (xid myproc) (xmin myproc) (pid myproc)
      (databaseId myproc) (inCommit myproc) (vacuumFlags myproc) (recoveryConflictPending myproc) c').

Definition GetNewTransactionId (isSubXact : bool) : cmd Shmem TransactionId :=
  if IsBootstrapProcessingMode then
    _ ← Assert (negb isSubXact);
    _ ← store_xid BootstrapTransactionId false;
    mret BootstrapTransactionId
  else
  s ← get_shmem;
  if RecoveryInProgress s then ereport ERRCODE_INTERNAL_ERROR else
  let xid := nextXid (ShmemVariableCache s) in
  xid ← (if TransactionIdFollowsOrEquals xid (xidVacLimit (ShmemVariableCache s)) then
           _ ← wraparound_warnings xid (ShmemVariableCache s);
           _ ← (λ s, Ret (tt, others s));
           s ← get_shmem;
           mret (nextXid (ShmemVariableCache s))
         else mret xid);
  _ ← sh_on_clog (ExtendCLOG BLCKSZ xid);
  _ ← ExtendSUBTRANS xid;
  s ← get_shmem;
  _ ← set_vars (with_nextXid (ShmemVariableCache s) (TransactionIdAdvance (nextXid (ShmemVariableCache s))));
  _ ← store_xid xid isSubXact;
  mret xid.

Definition ReadNewTransactionId : cmd Shmem TransactionId :=
  s ← get_shmem; mret (nextXid (ShmemVariableCache s)).

Context (autovacuum_freeze_max_age : Z) (InRecovery : bool).

Definition SetTransactionIdLimit (oldest_datfrozenxid : TransactionId) (oldest_datoid : Oid)
    : cmd Shmem unit :=
  _ ← Assert (TransactionIdIsNormal oldest_datfrozenxid);
  let xidWrapLimit := uint32_of (oldest_datfrozenxid + Z.shiftr MaxTransactionId 1) in
  let xidWrapLimit := if xidWrapLimit <? FirstNormalTransactionId
                      then uint32_of (xidWrapLimit + FirstNormalTransactionId) else xidWrapLimit in
  let xidStopLimit := uint32_of (xidWrapLimit - 1000000) in
  let xidStopLimit := if xidStopLimit <? FirstNormalTransactionId
                      then uint32_of (xidStopLimit - FirstNormalTransactionId) else xidStopLimit in
  let xidWarnLimit := uint32_of (xidStopLimit - 10000000) in
  let xidWarnLimit := if xidWarnLimit <? FirstNormalTransactionId
                      then uint32_of (xidWarnLimit - FirstNormalTransactionId) else xidWarnLimit in
  let xidVacLimit := uint32_of (oldest_datfrozenxid + autovacuum_freeze_max_age) in
  let xidVacLimit := if xidVacLimit <? FirstNormalTransactionId
                     then uint32_of (xidVacLimit + FirstNormalTransactionId) else xidVacLimit in
  s ← get_shmem;
  let v := ShmemVariableCache s in
  _ ← set_vars (mkVars (nextOid v) (oidCount v) (nextXid v) oldest_datfrozenxid xidVacLimit
                  xidWarnLimit xidStopLimit xidWrapLimit oldest_datoid (latestCompletedXid v));
  let curXid := nextXid v in
  _ ← (if TransactionIdFollowsOrEquals curXid xidVacLimit && IsUnderPostmaster && negb InRecovery
       then send StartAutovacLauncher else mret tt);
  if TransactionIdFollowsOrEquals curXid xidWarnLimit && negb InRecovery
  then send (WarnWraparound (uint32_of (xidWrapLimit - curXid)))
  else mret tt.

(** The system catalog: whether there is a database with this id. *)
Context (SearchSysCacheExists1 : Oid → bool).

Definition ForceTransactionIdLimitUpdate : cmd Shmem bool :=
  s ← get_shmem;
  let v := ShmemVariableCache s in
  mret (if negb (TransactionIdIsNormal (oldestXid v)) then true
        else if negb (TransactionIdIsValid (xidVacLimit v)) then true
        else if TransactionIdFollowsOrEquals (nextXid v) (xidVacLimit v) then true
        else negb (SearchSysCacheExists1 (oldestXidDB v))).

(** ** Object ids *)

Definition FirstBootstrapObjectId : Oid := 10000.
Definition FirstNormalObjectId : Oid := 16384.
Definition VAR_OID_PREFETCH : Z := 8192.
Context (IsPostmasterEnvironment : bool).

Definition GetNewObjectId : cmd Shmem Oid :=
  s ← get_shmem;
  if RecoveryInProgress s then ereport ERRCODE_INTERNAL_ERROR else
  let v := ShmemVariableCache s in
  _ ← (if nextOid v <? FirstNormalObjectId then
         if IsPostmasterEnvironment then set_vars (with_oid v FirstNormalObjectId 0)
         else if nextOid v <? FirstBootstrapObjectId
         then set_vars (with_oid v FirstBootstrapObjectId 0) else mret tt
       else mret tt);
  s ← get_shmem;
  let v := ShmemVariableCache s in
  _ ← (if oidCount v =? 0 then
         _ ← send (XLogPutNextOid (uint32_of (nextOid v + VAR_OID_PREFETCH)));
         set_vars (with_oid v (nextOid v) VAR_OID_PREFETCH)
       else mret tt);
  s ← get_shmem;
  let v := ShmemVariableCache s in
  let result := nextOid v in
  _ ← set_vars (with_oid v (uint32_of (nextOid v + 1)) (uint32_of (oidCount v - 1)));
  mret result.

End varsup.

(** ** The limits as counters *)

Definition skip_up (w : Z) : Z := if uint32_of w <? FirstNormalTransactionId then w + 3 else w.
Definition skip_down (w : Z) : Z := if uint32_of w <? FirstNormalTransactionId then w - 3 else w.

Lemma uint32_low w k :
  0 ≤ k < 2 ^ 31 → uint32_of w < 3 →
  uint32_of (w + k) = uint32_of w + k ∧
  (3 ≤ k → uint32_of (w - k) = 2 ^ 32 + uint32_of w - k).
Proof.
  intros Hk Hw. pose proof (wrap_u_bound 32 w ltac:(lia)) as [H0 _]. split.
  - rewrite <- (wrap_u_add_l 32 w k). apply wrap_u_small. unfold is_uint. lia.
  - intros H3. replace (w - k) with (w + 2 ^ 32 - k + 2 ^ 32 * (-1)) by lia.
    unfold wrap_u. rewrite Z.mul_comm, Z.mod_add by lia.
    replace (w + 2 ^ 32 - k) with (w + (2 ^ 32 - k)) by lia.
    change (uint32_of (w + (2 ^ 32 - k)) = 2 ^ 32 + uint32_of w - k).
    rewrite <- (wrap_u_add_l 32 w). rewrite wrap_u_small; [lia|]. unfold is_uint. lia.
Qed.

Lemma skip_up_spec w :
  (if uint32_of w <? FirstNormalTransactionId then uint32_of (w + FirstNormalTransactionId)
   else uint32_of w) = uint32_of (skip_up w) ∧ full_xid (skip_up w) ∧ w ≤ skip_up w ≤ w + 3.
Proof.
  unfold skip_up, full_xid, TransactionIdIsNormal, FirstNormalTransactionId.
  pose proof (wrap_u_bound 32 w ltac:(lia)) as [H0 _].
  destruct (Z.ltb_spec (uint32_of w) 3) as [L|L].
  - split; [done|]. split; [|lia].
    destruct (uint32_low w 3) as [-> _]; [lia..|]. apply Z.leb_le. lia.
  - split; [done|]. split; [by apply Z.leb_le|lia].
Qed.

Lemma skip_down_spec w :
  (if uint32_of w <? FirstNormalTransactionId then uint32_of (w - FirstNormalTransactionId)
   else uint32_of w) = uint32_of (skip_down w) ∧ full_xid (skip_down w) ∧ w - 3 ≤ skip_down w ≤ w.
Proof.
  unfold skip_down, full_xid, TransactionIdIsNormal, FirstNormalTransactionId.
  pose proof (wrap_u_bound 32 w ltac:(lia)) as [H0 _].
  destruct (Z.ltb_spec (uint32_of w) 3) as [L|L].
  - split; [done|]. split; [|lia].
    destruct (uint32_low w 3) as [_ ->]; [lia..|]. apply Z.leb_le. lia.
  - split; [done|]. split; [by apply Z.leb_le|lia].
Qed.

(** The limits for the oldest counter [o]. *)
Definition wrap_limit (o : Z) : Z := skip_up (o + (2 ^ 31 - 1)).
Definition stop_limit (o : Z) : Z := skip_down (wrap_limit o - 1000000).
Definition warn_limit (o : Z) : Z := skip_down (stop_limit o - 10000000).
Definition vac_limit (age o : Z) : Z := skip_up (o + age).

(** The shared limits are those for the oldest counter [o]. *)
Record limits (age o : Z) (v : VariableCacheData) : Prop := {
  l_oldest : full_xid o ∧ oldestXid v = uint32_of o;
  l_wrap : xidWrapLimit v = uint32_of (wrap_limit o);
  l_stop : xidStopLimit v = uint32_of (stop_limit o);
  l_warn : xidWarnLimit v = uint32_of (warn_limit o);
  l_vac : xidVacLimit v = uint32_of (vac_limit age o)
}.

Lemma limit_bounds age o :
  full_xid (wrap_limit o) ∧ full_xid (stop_limit o) ∧ full_xid (warn_limit o) ∧ full_xid (vac_limit age o) ∧
  o + 2 ^ 31 - 1 ≤ wrap_limit o ≤ o + 2 ^ 31 + 2 ∧
  wrap_limit o - 1000003 ≤ stop_limit o ≤ wrap_limit o - 1000000 ∧
  stop_limit o - 10000003 ≤ warn_limit o ≤ stop_limit o - 10000000 ∧
  o + age ≤ vac_limit age o ≤ o + age + 3.
Proof.
  unfold vac_limit. destruct (skip_up_spec (o + age)) as (_ & Hv & Bv).
  unfold warn_limit. destruct (skip_down_spec (stop_limit o - 10000000)) as (_ & Hw & Bw).
  unfold stop_limit in *. destruct (skip_down_spec (wrap_limit o - 1000000)) as (_ & Hs & Bs).
  unfold wrap_limit in *. destruct (skip_up_spec (o + (2 ^ 31 - 1))) as (_ & Hr & Br).
  do 4 (split; [done|]). lia.
Qed.

Lemma SetTransactionIdLimit_spec post age rec o db s :
  full_xid o →
  ∃ s', SetTransactionIdLimit post age rec (uint32_of o) db s = Ret (tt, s') ∧
    limits age o (ShmemVariableCache s') ∧
    nextXid (ShmemVariableCache s') = nextXid (ShmemVariableCache s) ∧
    (∃ l, events s' = events s ++ l).
Proof.
  intros Ho. unfold SetTransactionIdLimit. unfold full_xid in Ho. rewrite Ho.
  rewrite (bind_Ret _ _ s tt s) by done. cbv zeta.
  change (Z.shiftr MaxTransactionId 1) with (2 ^ 31 - 1). rewrite !wrap_u_add_l.
  destruct (skip_up_spec (o + (2 ^ 31 - 1))) as (-> & _). fold (wrap_limit o).
  destruct (skip_up_spec (o + age)) as (-> & _). fold (vac_limit age o).
  rewrite !(wrap_u_sub_l 32 (wrap_limit o)), !(wrap_u_sub_l 32 (wrap_limit o - 1000000)).
  destruct (skip_down_spec (wrap_limit o - 1000000)) as (-> & _). fold (stop_limit o).
  rewrite !(wrap_u_sub_l 32 (stop_limit o)), !(wrap_u_sub_l 32 (stop_limit o - 10000000)).
  destruct (skip_down_spec (stop_limit o - 10000000)) as (-> & _). fold (warn_limit o).
  rewrite (bind_Ret _ _ s s s) by done. cbv beta zeta. set (v := mkVars _ _ _ _ _ _ _ _ _ _).
  unfold set_vars at 1, send, mbind at 1, cmd_bind at 1. cbv beta iota.
  destruct (_ && _ && _), (_ && _); cbn; eexists; (split; [reflexivity|]); cbn;
    (split; [by split|]); (split; [done|]); eexists; try reflexivity.
  1: by rewrite <- app_assoc.
  by rewrite app_nil_r.
Qed.

(** ** Assignment *)

Definition cache_wf (c : XidCache) : Prop :=
  0 ≤ nxids c ≤ PGPROC_MAX_CACHED_SUBXIDS ∧ Z.of_nat (length (xids c)) = PGPROC_MAX_CACHED_SUBXIDS.

(** The [PGPROC] with a new id. *)
Definition cache_add (c : XidCache) (x : TransactionId) : XidCache :=
  if nxids c <? PGPROC_MAX_CACHED_SUBXIDS
  then mkXidCache (overflowed c) (nxids c + 1) (<[Z.to_nat (nxids c) := x]> (xids c))
  else mkXidCache true (nxids c) (xids c).
Definition with_xid (p : PGPROC) (x : TransactionId) (c : XidCache) : PGPROC :=
  mkProc (lxid p) x (xmin p) (pid p) (databaseId p) (inCommit p) (vacuumFlags p)
    (recoveryConflictPending p) c.
Definition proc_assign (p : PGPROC) (x : TransactionId) (isSubXact : bool) : PGPROC :=
  if isSubXact then with_xid p (xid p) (cache_add (subxids p) x) else with_xid p x (subxids p).

Lemma get_proc_spec p x s : 0 ≤ p → allProcs s !! Z.to_nat p = Some x → get_proc p s = Ret (x, s).
Proof. intros Hp Hx. unfold get_proc. by rewrite (proj2 (arr_get_Some _ _ _)) by done. Qed.

Lemma set_proc_spec p x y s :
  0 ≤ p → allProcs s !! Z.to_nat p = Some x →
  set_proc p y s = Ret (tt, mkShmem (ShmemVariableCache s) (<[Z.to_nat p := y]> (allProcs s)) (maxProcs s)
    (procs s) (known_assigned s) (lastOverflowedXid s) (RecoveryInProgress s) (sh_clog s)
    (sh_subtrans s) (events s)).
Proof.
  intros Hp Hx. unfold set_proc. apply lookup_lt_Some in Hx. by rewrite arr_set_lt by lia.
Qed.

Lemma store_xid_spec me x b p s :
  0 ≤ me → allProcs s !! Z.to_nat me = Some p → cache_wf (subxids p) →
  store_xid me x b s = set_proc me (proc_assign p x b) s.
Proof.
  intros Hme Hp [Hn Hl]. unfold store_xid. rewrite (bind_Ret _ _ _ _ _ (get_proc_spec _ _ _ Hme Hp)).
  destruct b; [|done]. cbn [negb]. unfold proc_assign, cache_add. cbv zeta.
  destruct (Z.ltb_spec (nxids (subxids p)) PGPROC_MAX_CACHED_SUBXIDS) as [L|L].
  - rewrite (bind_Ret _ _ s (mkXidCache (overflowed (subxids p)) (nxids (subxids p) + 1)
      (<[Z.to_nat (nxids (subxids p)) := x]> (xids (subxids p)))) s); [done|].
    rewrite (bind_Ret _ _ s (<[Z.to_nat (nxids (subxids p)) := x]> (xids (subxids p))) s); [done|].
    unfold lift. by rewrite arr_set_lt by lia.
  - by rewrite (bind_Ret _ _ s (mkXidCache true (nxids (subxids p)) (xids (subxids p))) s).
Qed.

Lemma ExtendCLOG_total B x c : ∃ c', ExtendCLOG B x c = Ret (tt, c').
Proof. unfold ExtendCLOG. destruct (_ && _); by eexists. Qed.

(** Everything that the assignment of an id leaves alone. *)
Definition rest_of (s : Shmem) := (maxProcs s, procs s, known_assigned s, lastOverflowedXid s, RecoveryInProgress s).

(** The critical section of [GetNewTransactionId]. *)
Lemma assign_spec B me b n p s :
  full_xid n → nextXid (ShmemVariableCache s) = uint32_of n →
  0 ≤ me → allProcs s !! Z.to_nat me = Some p → cache_wf (subxids p) →
  ∃ s', (_ ← sh_on_clog (ExtendCLOG B (uint32_of n));
         _ ← ExtendSUBTRANS B (uint32_of n);
         s ← get_shmem;
         _ ← set_vars (with_nextXid (ShmemVariableCache s)
                (TransactionIdAdvance (nextXid (ShmemVariableCache s))));
         _ ← store_xid me (uint32_of n) b;
         mret (uint32_of n)) s = Ret (uint32_of n, s') ∧
    ShmemVariableCache s' = with_nextXid (ShmemVariableCache s) (uint32_of (next_counter n)) ∧
    allProcs s' = <[Z.to_nat me := proc_assign p (uint32_of n) b]> (allProcs s) ∧
    rest_of s' = rest_of s ∧ events s' = events s.
Proof.
  intros Hn Hnext Hme Hp Hwf. destruct (ExtendCLOG_total B (uint32_of n) (sh_clog s)) as [c Hc].
  set (s1 := mkShmem (ShmemVariableCache s) (allProcs s) (maxProcs s) (procs s) (known_assigned s)
    (lastOverflowedXid s) (RecoveryInProgress s) c (sh_subtrans s) (events s)).
  rewrite (bind_Ret _ _ s tt s1) by (unfold sh_on_clog; by rewrite Hc).
  assert (∃ m, ExtendSUBTRANS B (uint32_of n) s1 = Ret (tt, mkShmem (ShmemVariableCache s) (allProcs s)
    (maxProcs s) (procs s) (known_assigned s) (lastOverflowedXid s) (RecoveryInProgress s) c m (events s)))
    as [m Hm].
  { unfold ExtendSUBTRANS. destruct (_ && _); by eexists. }
  rewrite (bind_Ret _ _ _ _ _ Hm). set (s2 := mkShmem _ _ _ _ _ _ _ _ _ _).
  rewrite (bind_Ret _ _ s2 s2 s2) by done. cbv beta.
  change (nextXid (ShmemVariableCache s2)) with (nextXid (ShmemVariableCache s)). rewrite Hnext.
  destruct (next_counter_spec n Hn) as (-> & _).
  set (s3 := mkShmem (with_nextXid (ShmemVariableCache s) (uint32_of (next_counter n))) (allProcs s)
    (maxProcs s) (procs s) (known_assigned s) (lastOverflowedXid s) (RecoveryInProgress s) c m (events s)).
  rewrite (bind_Ret _ _ s2 tt s3) by done.
  pose proof (store_xid_spec me (uint32_of n) b p s3 Hme Hp Hwf) as Hst.
  rewrite (set_proc_spec me p _ s3 Hme Hp) in Hst. rewrite (bind_Ret _ _ _ _ _ Hst).
  eexists. split; [reflexivity|]. done.
Qed.

Section assignment.
Context (B me age o n m : Z) (others : Shmem → Shmem) (p p' : PGPROC) (s : Shmem).
Context (Hlim : limits age o (ShmemVariableCache s)).
Context (Hage : 0 ≤ age ≤ 2000000000).
Context (Hn : full_xid n) (Hnext : nextXid (ShmemVariableCache s) = uint32_of n).
Context (Hrange : o ≤ n < o + 2 ^ 31).
Context (Hrec : RecoveryInProgress s = false).
Context (Hme : 0 ≤ me) (Hp : allProcs s !! Z.to_nat me = Some p) (Hwf : cache_wf (subxids p)).
(** While the lock is released other backends take ids, up to the counter [m]. *)
Context (Hoth : ∀ l, let s' := others (mkShmem (ShmemVariableCache s) (allProcs s) (maxProcs s) (procs s)
    (known_assigned s) (lastOverflowedXid s) (RecoveryInProgress s) (sh_clog s) (sh_subtrans s) l) in
  nextXid (ShmemVariableCache s') = uint32_of m ∧ allProcs s' !! Z.to_nat me = Some p').
Context (Hm : full_xid m) (Hwf' : cache_wf (subxids p')).

Lemma follows_limit l :
  full_xid l → o ≤ l < o + 2 ^ 31 → TransactionIdFollowsOrEquals (uint32_of n) (uint32_of l) = (l <=? n).
Proof using Hn Hrange.
  intros Hl Hb. rewrite full_follows_or_equals by (done || unfold near; lia). by rewrite Z.geb_leb.
Qed.


(** The outcome: the id of counter [k], taken from the [PGPROC] [q]. *)
Definition assigned (k : Z) (q : PGPROC) (b : bool) (s' : Shmem) : Prop :=
  nextXid (ShmemVariableCache s') = uint32_of (next_counter k) ∧
  allProcs s' !! Z.to_nat me = Some (proc_assign q (uint32_of k) b).

Lemma GetNewTransactionId_spec b :
  (GetNewTransactionId B me false true others b s = Ereport ERRCODE_PROGRAM_LIMIT_EXCEEDED ∧ stop_limit o ≤ n) ∨
  (n < vac_limit age o ∧ n < stop_limit o ∧ ∃ s',
     GetNewTransactionId B me false true others b s = Ret (uint32_of n, s') ∧ assigned n p b s') ∨
  (vac_limit age o ≤ n < stop_limit o ∧ ∃ s',
     GetNewTransactionId B me false true others b s = Ret (uint32_of m, s') ∧ assigned m p' b s').
Proof using Hlim Hage Hn Hnext Hrange Hrec Hme Hp Hwf Hoth Hm Hwf'.
  unfold GetNewTransactionId. rewrite (bind_Ret _ _ s s s) by done. cbv beta. rewrite Hrec. cbv zeta.
  rewrite Hnext. destruct Hlim as [_ _ Hstop Hwarn Hvac]. rewrite Hvac.
  destruct (limit_bounds age o) as (Fr & Fs & Fw & Fv & Br & Bs & Bw & Bv).
  rewrite (follows_limit (vac_limit age o)) by (done || lia).
  destruct (Z.leb_spec (vac_limit age o) n) as [L|L].
  - assert (∀ l, ∃ s', (_ ← (λ s, Ret (tt, others s)); s ← get_shmem; mret (nextXid (ShmemVariableCache s)))
        (mkShmem (ShmemVariableCache s) (allProcs s) (maxProcs s) (procs s) (known_assigned s)
          (lastOverflowedXid s) (RecoveryInProgress s) (sh_clog s) (sh_subtrans s) l) = Ret (uint32_of m, s') ∧
        nextXid (ShmemVariableCache s') = uint32_of m ∧ allProcs s' !! Z.to_nat me = Some p') as Hcont.
    { intros l. destruct (Hoth l) as [H1 H2]. eexists. split; [|by split].
      unfold mbind, cmd_bind, get_shmem, mret, cmd_ret. by rewrite H1. }
    unfold wraparound_warnings. rewrite Hstop, Hwarn.
    rewrite (follows_limit (stop_limit o)), (follows_limit (warn_limit o)) by (done || lia).
    cbn [andb].
    destruct (Z.leb_spec (stop_limit o) n) as [L2|L2].
    { left. split; [|done]. by destruct (_ =? 0). }
    right. right. split; [lia|].
    assert (∃ s', (_ ← (_ ← (if uint32_of n mod 65536 =? 0 then send StartAutovacLauncher else mret tt);
        if warn_limit o <=? n then send (WarnWraparound (uint32_of (xidWrapLimit (ShmemVariableCache s) - uint32_of n)))
        else mret tt);
      _ ← (λ s, Ret (tt, others s)); s ← get_shmem; mret (nextXid (ShmemVariableCache s))) s
      = Ret (uint32_of m, s') ∧ nextXid (ShmemVariableCache s') = uint32_of m ∧
      allProcs s' !! Z.to_nat me = Some p') as (s1 & Hrun & Hx1 & Hp1).
    { destruct (_ =? 0), (_ <=? _);
        [destruct (Hcont ((events s ++ [StartAutovacLauncher]) ++ [WarnWraparound
            (uint32_of (xidWrapLimit (ShmemVariableCache s) - uint32_of n))])) as (s1 & H1 & H2)
        |destruct (Hcont (events s ++ [StartAutovacLauncher])) as (s1 & H1 & H2)
        |destruct (Hcont (events s ++ [WarnWraparound
            (uint32_of (xidWrapLimit (ShmemVariableCache s) - uint32_of n))])) as (s1 & H1 & H2)
        |destruct (Hcont (events s)) as (s1 & H1 & H2)]; exists s1; (split; [|done]); rewrite <- H1; try done.
      by destruct s. }
    rewrite (bind_Ret _ _ _ _ _ Hrun).
    destruct (assign_spec B me b m p' s1 Hm Hx1 Hme Hp1 Hwf') as (s2 & Hrun2 & Hv2 & Hp2 & _).
    exists s2. split; [exact Hrun2|]. unfold assigned. rewrite Hv2, Hp2.
    split; [done|]. apply list_lookup_insert_eq. by apply lookup_lt_Some in Hp1.
  - right. left. split; [done|]. split; [lia|].
    rewrite (bind_Ret _ _ s (uint32_of n) s) by done.
    destruct (assign_spec B me b n p s Hn Hnext Hme Hp Hwf) as (s2 & Hrun2 & Hv2 & Hp2 & _).
    exists s2. split; [exact Hrun2|]. unfold assigned. rewrite Hv2, Hp2.
    split; [done|]. apply list_lookup_insert_eq. by apply lookup_lt_Some in Hp.
Qed.
End assignment.

(** ** The properties *)

(** [others] lets other backends take ids up to the counter [m], without touching [me]'s [PGPROC]. *)
Definition takes_ids (others : Shmem → Shmem) (s : Shmem) (me m : Z) (p : PGPROC) : Prop :=
  ∀ l, let s' := others (mkShmem (ShmemVariableCache s) (allProcs s) (maxProcs s) (procs s)
    (known_assigned s) (lastOverflowedXid s) (RecoveryInProgress s) (sh_clog s) (sh_subtrans s) l) in
  nextXid (ShmemVariableCache s') = uint32_of m ∧ allProcs s' !! Z.to_nat me = Some p.

(** C31: transaction ids never wrap around under the postmaster: once the limits are set for
    the oldest unfrozen counter [o], a backend that asks for an id while the next counter
    [n] is less than half the id space past [o] either gets an error, only within 1000005
    counters of the half, or an id, published in its [PGPROC] with the shared counter
    advanced past it, that can still be compared with every id back to [o], and so can the
    next one; this holds although the lock is released between the check and the
    assignment, as long as the other backends take at most 900000 ids in that time. *)
Theorem GetNewTransactionId_no_wraparound B me age rec o db n m others p b s0 s :
  full_xid o → 0 ≤ age ≤ 2000000000 → SetTransactionIdLimit true age rec (uint32_of o) db s0 = Ret (tt, s) →
  full_xid n → nextXid (ShmemVariableCache s) = uint32_of n → o ≤ n < o + 2 ^ 31 →
  RecoveryInProgress s = false → 0 ≤ me → allProcs s !! Z.to_nat me = Some p → cache_wf (subxids p) →
  takes_ids others s me m p → full_xid m → n ≤ m ≤ n + 900000 →
  (o + 2 ^ 31 - 1000005 < n ∧
   GetNewTransactionId B me false true others b s = Ereport ERRCODE_PROGRAM_LIMIT_EXCEEDED) ∨
  ∃ k s', GetNewTransactionId B me false true others b s = Ret (uint32_of k, s') ∧ n ≤ k ≤ n + 900000 ∧
    near k o ∧ near (next_counter k) o ∧ o ≤ k < next_counter k ∧
    nextXid (ShmemVariableCache s') = uint32_of (next_counter k) ∧
    allProcs s' !! Z.to_nat me = Some (proc_assign p (uint32_of k) b).
Proof.
  intros Ho Hage Hset Hn Hnext Hr Hrec Hme Hp Hwf Hoth Hm Hnm.
  destruct (SetTransactionIdLimit_spec true age rec o db s0 Ho) as (s1 & Hs1 & Hlim & _).
  rewrite Hset in Hs1. injection Hs1 as <-.
  destruct (limit_bounds age o) as (_ & _ & _ & _ & Br & Bs & _ & Bv).
  assert (∀ k s', full_xid k → n ≤ k ≤ n + 900000 → n < stop_limit o → assigned me k p b s' →
    GetNewTransactionId B me false true others b s = Ret (uint32_of k, s') →
    ∃ k s', GetNewTransactionId B me false true others b s = Ret (uint32_of k, s') ∧ n ≤ k ≤ n + 900000 ∧
    near k o ∧ near (next_counter k) o ∧ o ≤ k < next_counter k ∧
    nextXid (ShmemVariableCache s') = uint32_of (next_counter k) ∧
    allProcs s' !! Z.to_nat me = Some (proc_assign p (uint32_of k) b)) as Hfin.
  { intros k s' Hk Hb Hst [Hx Hq] Hrun. exists k, s'. destruct (next_counter_spec k Hk) as (_ & _ & Hnk & _).
    unfold near. split; [done|]. split; [done|]. split; [lia|]. split; [lia|]. split; [lia|]. done. }
  destruct (GetNewTransactionId_spec B me age o n m others p p s Hlim Hage Hn Hnext Hr Hrec Hme Hp Hwf Hoth Hm Hwf b)
    as [[He Hst]|[(_ & Hst & s' & Hrun & Ha)|(Hst & s' & Hrun & Ha)]].
  - left. split; [lia|done].
  - right. apply (Hfin n s'); [done|lia|lia|done|done].
  - right. apply (Hfin m s'); [done|lia|lia|done|done].
Qed.

(** One backend of a cluster close to the end of the id space. *)
Definition idle_proc (pid : Z) : PGPROC :=
  mkProc 0 0 0 pid 1 false 0 false (mkXidCache false 0 (replicate 64 0)).
Definition sample_vars (next latest : TransactionId) : VariableCacheData :=
  mkVars 16384 0 next 3 0 0 0 0 1 latest.
Definition sample_shmem (next latest : TransactionId) (ps : list PGPROC) : Shmem :=
  mkShmem (sample_vars next latest) ps 4 (seqZ 0 (Z.of_nat (length ps))) (mkKnown 4 0 0 0 [] []) 0 false
    (mkClog ∅ 0 false []) ∅ [].

Definition limited_shmem : Shmem :=
  match SetTransactionIdLimit true 200000000 false 3 1 (sample_shmem 2146483000 2146482000 [idle_proc 7]) with
  | Ret (_, s) => s
  | _ => sample_shmem 0 0 []
  end.

Lemma GetNewTransactionId_no_wraparound_witness :
  events limited_shmem = [StartAutovacLauncher; WarnWraparound 1000650] ∧
  ∃ s, GetNewTransactionId 8192 0 false true (λ s, s) false limited_shmem = Ret (2146483000, s) ∧
       nextXid (ShmemVariableCache s) = 2146483001.
Proof.
  split; [vm_compute; reflexivity|].
  destruct (GetNewTransactionId_no_wraparound 8192 0 200000000 false 3 1 2146483000 2146483000 (λ s, s)
    (idle_proc 7) false (sample_shmem 2146483000 2146482000 [idle_proc 7]) limited_shmem)
    as [[H _]|(k & s' & Hrun & Hk & _)]; try (vm_compute; reflexivity); try lia.
  - split; [vm_compute; split; discriminate|reflexivity].
  - intros l. split; vm_compute; reflexivity.
  - eexists. split; vm_compute; reflexivity.
Defined.

(** The object ids in one cycle of the counter. *)
Definition oid_step (first oid : Oid) : Oid := if uint32_of oid <? first then first else uint32_of oid.

(** [GetNewObjectId] never returns an id below the first one of its mode, not
    even after the 32-bit counter has wrapped around: it returns the value of the
    counter, or the first id when the counter is below it; the counter moves to the
    successor, which never passes the value of the last log record, [logged] before the
    call: when that is reached a record with a later value is written first. *)
Theorem GetNewObjectId_logged (postmaster : bool) s logged :
  let v := ShmemVariableCache s in
  let first := if postmaster then FirstNormalObjectId else FirstBootstrapObjectId in
  RecoveryInProgress s = false → is_uint 32 (nextOid v) → is_uint 32 (oidCount v) →
  (oidCount v ≠ 0 → uint32_of (nextOid v + oidCount v) = logged ∧ oidCount v ≤ VAR_OID_PREFETCH) →
  ∃ s', GetNewObjectId postmaster s = Ret (oid_step first (nextOid v), s') ∧
    let v' := ShmemVariableCache s' in
    first ≤ oid_step first (nextOid v) < 2 ^ 32 ∧
    nextOid v' = uint32_of (oid_step first (nextOid v) + 1) ∧
    0 ≤ oidCount v' < VAR_OID_PREFETCH ∧
    ((events s' = events s ∧ uint32_of (nextOid v' + oidCount v') = logged) ∨
     (∃ l, events s' = events s ++ [XLogPutNextOid l] ∧ uint32_of (nextOid v' + oidCount v') = l)).
Proof.
  intros v first Hrec Ho Hc Hlog. unfold GetNewObjectId. rewrite (bind_Ret _ _ s s s) by done. cbv beta.
  rewrite Hrec. fold v. cbv zeta. unfold oid_step. rewrite (wrap_u_small 32 (nextOid v)) by done.
  assert (first = FirstNormalObjectId ∨ first = FirstBootstrapObjectId) as Hf by (destruct postmaster; auto).
  unfold FirstNormalObjectId, FirstBootstrapObjectId in Hf.
  set (oid1 := if nextOid v <? first then first else nextOid v).
  assert (first ≤ oid1 < 2 ^ 32) as Ho1.
  { unfold oid1. destruct Ho. destruct (Z.ltb_spec (nextOid v) first); lia. }
  assert (∃ c1, (if nextOid v <? FirstNormalObjectId then
         if postmaster then set_vars (with_oid v FirstNormalObjectId 0)
         else if nextOid v <? FirstBootstrapObjectId
         then set_vars (with_oid v FirstBootstrapObjectId 0) else mret tt
       else mret tt) s = Ret (tt, mkShmem (with_oid v oid1 c1) (allProcs s) (maxProcs s) (procs s)
         (known_assigned s) (lastOverflowedXid s) (RecoveryInProgress s) (sh_clog s) (sh_subtrans s) (events s)) ∧
      is_uint 32 c1 ∧ (c1 ≠ 0 → uint32_of (oid1 + c1) = logged ∧ c1 ≤ VAR_OID_PREFETCH)) as (c1 & Hrun & Hc1 & Hl1).
  { unfold oid1, first, FirstNormalObjectId, FirstBootstrapObjectId in *.
    destruct postmaster, (Z.ltb_spec (nextOid v) 16384) as [L|L], (Z.ltb_spec (nextOid v) 10000) as [L'|L'];
      try lia;
      first [exists 0; split; [reflexivity|]; split; [vm_compute; split; congruence|done]
            |exists (oidCount v); split; [|by split]; unfold v; by destruct s as [[]]]. }
  rewrite (bind_Ret _ _ _ _ _ Hrun). clearbody oid1. clear Hrun Hc Hlog Ho.
  set (s1 := mkShmem _ _ _ _ _ _ _ _ _ _). rewrite (bind_Ret _ _ s1 s1 s1) by done. cbv beta zeta.
  change (oidCount (ShmemVariableCache s1)) with c1.
  destruct (Z.eqb_spec c1 0) as [->|Hne].
  - cbn. eexists. split; [reflexivity|]. cbn. split; [done|]. split; [done|].
    unfold VAR_OID_PREFETCH. rewrite (wrap_u_small 32 (8192 - 1)) by (vm_compute; split; congruence).
    split; [lia|]. right. eexists. split; [reflexivity|]. rewrite wrap_u_add_l. f_equal. lia.
  - destruct (Hl1 Hne) as [Hlog Hle]. cbn.
    eexists. split; [reflexivity|]. cbn. split; [done|]. split; [done|].
    unfold is_uint in Hc1. rewrite (wrap_u_small 32 (c1 - 1)) by (unfold is_uint; lia).
    split; [lia|]. left. split; [done|]. rewrite wrap_u_add_l, <- Hlog. f_equal. lia.
Qed.

Lemma GetNewObjectId_logged_witness :
  let s := sample_shmem 2146483000 2146482000 [idle_proc 7] in
  ∃ s', GetNewObjectId true s = Ret (16384, s') ∧ events s' = [XLogPutNextOid 24576].
Proof.
  intros s. destruct (GetNewObjectId_logged true s 0 eq_refl) as (s' & Hrun & _).
  - vm_compute. split; congruence.
  - vm_compute. split; congruence.
  - intros H. destruct H. reflexivity.
  - exists s'. split; [exact Hrun|]. revert Hrun. vm_compute. intros [= <-]. reflexivity.
Defined.
