(* ===== verification/Transam.v ===== *)
(** * Transaction status

    [backend/access/transam/transam.c] over the commit log of [Clog] and the
    subtransaction log of [backend/access/transam/subtrans.c], which maps a
    subtransaction to its parent.

    The state of a backend is the two shared logs as it sees them, its
    [TransactionXmin] and the one-entry cache of [TransactionLogFetch].  The
    shared logs may have moved on, under the control of other backends, between
    two calls; the theorems are stated for the logs at the time of a call and the
    cache is only required to agree with them. *)

From S2P Require Import Prelude Xid Clog.

Section transam.
Context (BLCKSZ : Z).

(** ** Data *)

(** The pages of [pg_subtrans]: arrays of parent ids. *)
Abbreviation subtrans_pages := (gmap Z (list TransactionId)).

Record Backend := mkBackend {
  b_clog : Clog;
  b_subtrans : subtrans_pages;
  TransactionXmin : TransactionId;
  cachedFetchXid : TransactionId;
  cachedFetchXidStatus : Z;
  cachedCommitLSN : XLogRecPtr
}.

Definition get_backend : cmd Backend Backend := λ s, Ret (s, s).
Definition set_cache (xid : TransactionId) (st : Z) (lsn : XLogRecPtr) : cmd Backend unit := λ s,
  Ret (tt, mkBackend (b_clog s) (b_subtrans s) (TransactionXmin s) xid st lsn).
(** A command on the commit log. *)
Definition on_clog {A} (m : cmd Clog A) : cmd Backend A := λ s,
  match m (b_clog s) with
  | Ret (a, c) => Ret (a, mkBackend c (b_subtrans s) (TransactionXmin s) (cachedFetchXid s)
                                    (cachedFetchXidStatus s) (cachedCommitLSN s))
  | Ereport e => Ereport e
  | UB => UB
  | Timeout => Timeout
  end.

(** ** Subtransactions: [subtrans.c] *)

Definition SUBTRANS_XACTS_PER_PAGE : Z := BLCKSZ / 4.
Definition SubTransIdToPage (xid : TransactionId) : Z := xid / SUBTRANS_XACTS_PER_PAGE.
Definition SubTransIdToEntry (xid : TransactionId) : Z := xid mod SUBTRANS_XACTS_PER_PAGE.

Definition read_subtrans (pageno : Z) : cmd Backend (list TransactionId) := λ s,
  match b_subtrans s !! pageno with
  | Some p => Ret (p, s)
  | None => Ereport ERRCODE_INTERNAL_ERROR
  end.
Definition write_subtrans (pageno : Z) (p : list TransactionId) : cmd Backend unit := λ s,
  Ret (tt, mkBackend (b_clog s) (<[pageno := p]> (b_subtrans s)) (TransactionXmin s)
             (cachedFetchXid s) (cachedFetchXidStatus s) (cachedCommitLSN s)).

Definition SubTransSetParent (xid parent : TransactionId) (overwriteOK : bool) : cmd Backend unit :=
  let pageno := SubTransIdToPage xid in
  let entryno := SubTransIdToEntry xid in
  _ ← Assert (TransactionIdIsValid parent);
  p ← read_subtrans pageno;
  old ← lift (arr_get p entryno);
  _ ← Assert ((old =? InvalidTransactionId) || ((old =? parent) && overwriteOK));
  p' ← lift (arr_set p entryno parent);
  write_subtrans pageno p'.

Definition SubTransGetParent (xid : TransactionId) : cmd Backend TransactionId :=
  let pageno := SubTransIdToPage xid in
  let entryno := SubTransIdToEntry xid in
  s ← get_backend;
  _ ← Assert (TransactionIdFollowsOrEquals xid (TransactionXmin s));
  if negb (TransactionIdIsNormal xid) then mret InvalidTransactionId else
  p ← read_subtrans pageno;
  lift (arr_get p entryno).

Fixpoint topmost_loop (fuel : nat) (parentXid previousXid : TransactionId)
    : cmd Backend TransactionId :=
  match fuel with
  | O => λ _, Timeout
  | S fuel =>
      if TransactionIdIsValid parentXid then
        let previousXid := parentXid in
        s ← get_backend;
        if TransactionIdPrecedes parentXid (TransactionXmin s) then mret previousXid
        else
          parentXid ← SubTransGetParent parentXid;
          topmost_loop fuel parentXid previousXid
      else mret previousXid
  end.

Definition SubTransGetTopmostTransaction (fuel : nat) (xid : TransactionId)
    : cmd Backend TransactionId :=
  s ← get_backend;
  _ ← Assert (TransactionIdFollowsOrEquals xid (TransactionXmin s));
  previousXid ← topmost_loop fuel xid xid;
  _ ← Assert (TransactionIdIsValid previousXid);
  mret previousXid.

(** ** The status of a transaction: [transam.c] *)

Definition TransactionLogFetch (transactionId : TransactionId) : cmd Backend Z :=
  s ← get_backend;
  if TransactionIdEquals transactionId (cachedFetchXid s) then mret (cachedFetchXidStatus s) else
  if negb (TransactionIdIsNormal transactionId) then
    if TransactionIdEquals transactionId BootstrapTransactionId then mret TRANSACTION_STATUS_COMMITTED
    else if TransactionIdEquals transactionId FrozenTransactionId then mret TRANSACTION_STATUS_COMMITTED
    else mret TRANSACTION_STATUS_ABORTED
  else
  '(xidstatus, xidlsn) ← on_clog (TransactionIdGetStatus BLCKSZ transactionId);
  _ ← (if negb (xidstatus =? TRANSACTION_STATUS_IN_PROGRESS)
          && negb (xidstatus =? TRANSACTION_STATUS_SUB_COMMITTED)
       then set_cache transactionId xidstatus xidlsn else mret tt);
  mret xidstatus.

Fixpoint TransactionIdDidCommit (fuel : nat) (transactionId : TransactionId) : cmd Backend bool :=
  match fuel with
  | O => λ _, Timeout
  | S fuel =>
      xidstatus ← TransactionLogFetch transactionId;
      if xidstatus =? TRANSACTION_STATUS_COMMITTED then mret true else
      if xidstatus =? TRANSACTION_STATUS_SUB_COMMITTED then
        s ← get_backend;
        if TransactionIdPrecedes transactionId (TransactionXmin s) then mret false else
        parentXid ← SubTransGetParent transactionId;
        if negb (TransactionIdIsValid parentXid) then mret false else
        TransactionIdDidCommit fuel parentXid
      else mret false
  end.

Fixpoint TransactionIdDidAbort (fuel : nat) (transactionId : TransactionId) : cmd Backend bool :=
  match fuel with
  | O => λ _, Timeout
  | S fuel =>
      xidstatus ← TransactionLogFetch transactionId;
      if xidstatus =? TRANSACTION_STATUS_ABORTED then mret true else
      if xidstatus =? TRANSACTION_STATUS_SUB_COMMITTED then
        s ← get_backend;
        if TransactionIdPrecedes transactionId (TransactionXmin s) then mret true else
        parentXid ← SubTransGetParent transactionId;
        if negb (TransactionIdIsValid parentXid) then mret true else
        TransactionIdDidAbort fuel parentXid
      else mret false
  end.

Definition TransactionIdIsKnownCompleted (transactionId : TransactionId) : cmd Backend bool :=
  s ← get_backend;
  if TransactionIdEquals transactionId (cachedFetchXid s) then mret true else mret false.

Definition TransactionIdCommitTree (xid : TransactionId) (nxids : Z) (xids : list TransactionId)
    : cmd Backend unit :=
  on_clog (TransactionIdSetTreeStatus BLCKSZ xid nxids xids TRANSACTION_STATUS_COMMITTED
             InvalidXLogRecPtr).
Definition TransactionIdAsyncCommitTree (xid : TransactionId) (nxids : Z) (xids : list TransactionId)
    (lsn : XLogRecPtr) : cmd Backend unit :=
  on_clog (TransactionIdSetTreeStatus BLCKSZ xid nxids xids TRANSACTION_STATUS_COMMITTED lsn).
Definition TransactionIdAbortTree (xid : TransactionId) (nxids : Z) (xids : list TransactionId)
    : cmd Backend unit :=
  on_clog (TransactionIdSetTreeStatus BLCKSZ xid nxids xids TRANSACTION_STATUS_ABORTED
             InvalidXLogRecPtr).

Definition TransactionIdGetCommitLSN (xid : TransactionId) : cmd Backend XLogRecPtr :=
  s ← get_backend;
  if TransactionIdEquals xid (cachedFetchXid s) then mret (cachedCommitLSN s) else
  if negb (TransactionIdIsNormal xid) then mret InvalidXLogRecPtr else
  '(_, result) ← on_clog (TransactionIdGetStatus BLCKSZ xid);
  mret result.

(** ** Specification *)

(** The outcome of a transaction: its own, or for a subcommitted transaction that
    of its parent, where a subcommitted transaction without a living parent
    counts as aborted. *)
Inductive xoutcome := XCommitted | XAborted | XInProgress.
#[global] Instance xoutcome_eq_dec : EqDecision xoutcome.
Proof. solve_decision. Defined.

Definition xoutcome_of (st : Z) : xoutcome :=
  if st =? TRANSACTION_STATUS_COMMITTED then XCommitted
  else if st =? TRANSACTION_STATUS_ABORTED then XAborted else XInProgress.

Inductive xid_outcome (status parent : TransactionId → Z) (xmin : TransactionId)
    : TransactionId → xoutcome → Prop :=
| xo_final x : status x ≠ TRANSACTION_STATUS_SUB_COMMITTED →
    xid_outcome status parent xmin x (xoutcome_of (status x))
| xo_old x : status x = TRANSACTION_STATUS_SUB_COMMITTED → TransactionIdPrecedes x xmin = true →
    xid_outcome status parent xmin x XAborted
| xo_orphan x : status x = TRANSACTION_STATUS_SUB_COMMITTED → parent x = InvalidTransactionId →
    xid_outcome status parent xmin x XAborted
| xo_parent x o : status x = TRANSACTION_STATUS_SUB_COMMITTED → TransactionIdPrecedes x xmin = false →
    parent x ≠ InvalidTransactionId → xid_outcome status parent xmin (parent x) o →
    xid_outcome status parent xmin x o.

(** The logs as functions. *)
Definition log_status (t : pagetable) (x : TransactionId) : Z :=
  if TransactionIdIsNormal x then pt_status BLCKSZ t x
  else if (x =? BootstrapTransactionId) || (x =? FrozenTransactionId)
       then TRANSACTION_STATUS_COMMITTED else TRANSACTION_STATUS_ABORTED.
Definition log_parent (m : subtrans_pages) (x : TransactionId) : TransactionId :=
  match m !! SubTransIdToPage x with Some p => wd p (SubTransIdToEntry x) | None => InvalidTransactionId end.
Definition sub_page (m : subtrans_pages) (x : TransactionId) : Prop :=
  ∃ p, m !! SubTransIdToPage x = Some p ∧ Z.of_nat (length p) = SUBTRANS_XACTS_PER_PAGE.

Definition cache_ok (s : Backend) : Prop :=
  cachedFetchXid s ≠ InvalidTransactionId →
  TransactionIdIsNormal (cachedFetchXid s) = true ∧
  pt_status BLCKSZ (pages (b_clog s)) (cachedFetchXid s) = cachedFetchXidStatus s ∧
  pt_lsn BLCKSZ (pages (b_clog s)) (cachedFetchXid s) = cachedCommitLSN s ∧
  (cachedFetchXidStatus s = TRANSACTION_STATUS_COMMITTED ∨
   cachedFetchXidStatus s = TRANSACTION_STATUS_ABORTED).

(** Two states that differ at most in the cache, which is right in the second. *)
Definition frame (s s' : Backend) : Prop :=
  b_clog s' = b_clog s ∧ b_subtrans s' = b_subtrans s ∧ TransactionXmin s' = TransactionXmin s ∧
  cache_ok s'.

Context (HB : clog_blcksz_ok BLCKSZ).

Lemma frame_trans s1 s2 s3 : frame s1 s2 → frame s2 s3 → frame s1 s3.
Proof using. clear HB. unfold frame. intros (H1&H2&H3&_) (H4&H5&H6&H7). split_and!; congruence || done. Qed.

Lemma frame_refl s : cache_ok s → frame s s.
Proof using. done. Qed.

Definition fetchable (s : Backend) (x : TransactionId) : Prop :=
  x ≠ InvalidTransactionId ∧
  (TransactionIdIsNormal x = true → has_page BLCKSZ (pages (b_clog s)) x).

Lemma on_clog_get s x :
  pt_wf BLCKSZ (pages (b_clog s)) → has_page BLCKSZ (pages (b_clog s)) x →
  on_clog (TransactionIdGetStatus BLCKSZ x) s =
  Ret ((pt_status BLCKSZ (pages (b_clog s)) x, pt_lsn BLCKSZ (pages (b_clog s)) x), s).
Proof using HB. intros Hwf Hx. unfold on_clog. rewrite GetStatus_spec by done. by destruct s. Qed.

Lemma TransactionLogFetch_spec s x :
  pt_wf BLCKSZ (pages (b_clog s)) → cache_ok s → fetchable s x →
  ∃ s', TransactionLogFetch x s = Ret (log_status (pages (b_clog s)) x, s') ∧ frame s s'.
Proof using HB.
  intros Hwf Hc [Hv Hx]. unfold TransactionLogFetch. erewrite bind_Ret; [|done].
  unfold TransactionIdEquals, log_status. destruct (Z.eqb_spec x (cachedFetchXid s)) as [->|Hne].
  { destruct (Hc Hv) as (Hn & Hs & _). rewrite Hn, Hs. exists s. split; [done|]. by apply frame_refl. }
  destruct (TransactionIdIsNormal x) eqn:Hn; cbn [negb].
  2:{ exists s. split; [|by apply frame_refl].
      destruct (x =? BootstrapTransactionId), (x =? FrozenTransactionId); done. }
  erewrite bind_Ret; [|by apply on_clog_get; auto]. cbn beta iota.
  set (st := pt_status BLCKSZ (pages (b_clog s)) x).
  destruct (Z.eqb_spec st TRANSACTION_STATUS_IN_PROGRESS) as [E|E];
    [exists s; split; [by rewrite E|by apply frame_refl]|].
  destruct (Z.eqb_spec st TRANSACTION_STATUS_SUB_COMMITTED) as [E2|E2];
    [exists s; split; [by rewrite E2|by apply frame_refl]|].
  eexists. split; [done|]. split_and!; [done..|]. intros _. split_and!; try done. cbn.
  assert (0 ≤ st < 4) as Hst.
  { subst st. unfold pt_status. destruct (_ !! _); [|done].
    change CLOG_XACT_BITMASK with (Z.ones 2). rewrite Z.land_ones by lia.
    apply Z.mod_pos_bound. lia. }
  change (st ≠ 0) in E. change (st ≠ 3) in E2.
  unfold TRANSACTION_STATUS_COMMITTED, TRANSACTION_STATUS_ABORTED. lia.
Qed.

Lemma SubTransGetParent_spec s x :
  TransactionIdPrecedes x (TransactionXmin s) = false → TransactionIdIsNormal x = true →
  sub_page (b_subtrans s) x → 0 < SUBTRANS_XACTS_PER_PAGE →
  SubTransGetParent x s = Ret (log_parent (b_subtrans s) x, s).
Proof using.
  clear HB. intros Hp Hn (p & Hpg & Hl) Hpos. unfold SubTransGetParent. erewrite bind_Ret; [|done].
  erewrite bind_Ret; [|by rewrite follows_or_equals_not_precedes, Hp].
  rewrite Hn. cbn [negb]. erewrite bind_Ret; [|unfold read_subtrans; by rewrite Hpg].
  unfold log_parent, lift. rewrite Hpg, wd_get; [done|].
  rewrite Hl. apply Z.mod_pos_bound. done.
Qed.

(** The transactions of the counters [D], with their logs around [base], the
    counter of [TransactionXmin]: a parent is older than its child. *)
Record family (s : Backend) (base : Z) (D : list Z) : Prop := {
  fam_wf : pt_wf BLCKSZ (pages (b_clog s));
  fam_xmin : TransactionXmin s = uint32_of base ∧ full_xid base;
  fam_page : 0 < SUBTRANS_XACTS_PER_PAGE;
  fam_xid a : a ∈ D → full_xid a ∧ near a base ∧ has_page BLCKSZ (pages (b_clog s)) (uint32_of a);
  fam_parent a : a ∈ D → base ≤ a →
    pt_status BLCKSZ (pages (b_clog s)) (uint32_of a) = TRANSACTION_STATUS_SUB_COMMITTED →
    sub_page (b_subtrans s) (uint32_of a) ∧
    (log_parent (b_subtrans s) (uint32_of a) = InvalidTransactionId ∨
     ∃ b, b ∈ D ∧ b < a ∧ log_parent (b_subtrans s) (uint32_of a) = uint32_of b)
}.

Lemma full_valid a : full_xid a → uint32_of a ≠ InvalidTransactionId.
Proof using. clear HB. unfold full_xid, TransactionIdIsNormal. intros H E. rewrite E in H. done. Qed.

Lemma family_frame s s' base D : frame s s' → family s base D → family s' base D.
Proof using. clear HB. intros (E1 & E2 & E3 & _) [H1 H2 H3 H4 H5]. split; rewrite ?E1, ?E2, ?E3; done. Qed.

Abbreviation outcome_in s :=
  (xid_outcome (log_status (pages (b_clog s))) (log_parent (b_subtrans s)) (TransactionXmin s)).

(** One unfolding of the two walks, up to the point where they go to the parent. *)
Lemma walk_step s base D a fuel :
  family s base D → cache_ok s → a ∈ D →
  ∃ s', frame s s' ∧
    ((∃ o, outcome_in s (uint32_of a) o ∧
       TransactionIdDidCommit (S fuel) (uint32_of a) s = Ret (bool_decide (o = XCommitted), s') ∧
       TransactionIdDidAbort (S fuel) (uint32_of a) s = Ret (bool_decide (o = XAborted), s')) ∨
     (∃ b, base ≤ a ∧ b ∈ D ∧ b < a ∧
       (∀ o, outcome_in s (uint32_of b) o → outcome_in s (uint32_of a) o) ∧
       TransactionIdDidCommit (S fuel) (uint32_of a) s = TransactionIdDidCommit fuel (uint32_of b) s' ∧
       TransactionIdDidAbort (S fuel) (uint32_of a) s = TransactionIdDidAbort fuel (uint32_of b) s')).
Proof using HB.
  intros Hf Hc Ha. destruct (fam_xid _ _ _ Hf a Ha) as (Hfull & Hnear & Hpg).
  destruct (fam_xmin _ _ _ Hf) as [Hxm Hfb].
  destruct (TransactionLogFetch_spec s (uint32_of a)) as (s' & Hrun & Hfr);
    [apply Hf|done|split; [by apply full_valid|done]|].
  exists s'. split; [done|].
  assert (Hls : log_status (pages (b_clog s)) (uint32_of a) =
                pt_status BLCKSZ (pages (b_clog s)) (uint32_of a)) by (unfold log_status; by rewrite Hfull).
  cbn [TransactionIdDidCommit TransactionIdDidAbort]. erewrite !bind_Ret by exact Hrun.
  set (st := log_status (pages (b_clog s)) (uint32_of a)) in *.
  destruct (Z.eqb_spec st TRANSACTION_STATUS_SUB_COMMITTED) as [E|E].
  2:{ left. exists (xoutcome_of st). split; [by apply xo_final|]. unfold xoutcome_of.
      destruct (Z.eqb_spec st TRANSACTION_STATUS_COMMITTED) as [->|]; [done|].
      destruct (Z.eqb_spec st TRANSACTION_STATUS_ABORTED) as [->|]; done. }
  rewrite E. cbn [Z.eqb TRANSACTION_STATUS_SUB_COMMITTED TRANSACTION_STATUS_COMMITTED
                  TRANSACTION_STATUS_ABORTED Pos.eqb].
  erewrite !bind_Ret by done. pose proof Hfr as (E1 & E2 & E3 & _).
  rewrite E3. destruct (TransactionIdPrecedes (uint32_of a) (TransactionXmin s)) eqn:Hpr.
  { left. exists XAborted. split; [by apply xo_old|done]. }
  assert (base ≤ a) as Hba.
  { rewrite Hxm, full_precedes in Hpr by done. by apply Z.ltb_ge in Hpr. }
  destruct (fam_parent _ _ _ Hf a Ha Hba) as (Hsp & Hpar); [congruence|].
  erewrite !bind_Ret by (apply SubTransGetParent_spec; rewrite ?E3, ?E2; try done; apply Hf).
  rewrite E2. unfold TransactionIdIsValid. destruct Hpar as [Hz|(b & Hb & Hlt & Hpb)].
  - left. rewrite Hz. exists XAborted. split; [by apply xo_orphan|done].
  - right. rewrite Hpb. exists b. destruct (fam_xid _ _ _ Hf b Hb) as (Hfb' & _).
    pose proof (full_valid b Hfb') as Hne.
    rewrite (proj2 (Z.eqb_neq _ _) Hne). split_and!; try done.
    intros o Ho. apply xo_parent; rewrite ?Hpb; done.
Qed.

Lemma walk_spec fuel s base D a :
  family s base D → cache_ok s → a ∈ D → (Z.to_nat (a - base + 1) < fuel)%nat →
  ∃ o s', outcome_in s (uint32_of a) o ∧ frame s s' ∧
    TransactionIdDidCommit fuel (uint32_of a) s = Ret (bool_decide (o = XCommitted), s') ∧
    TransactionIdDidAbort fuel (uint32_of a) s = Ret (bool_decide (o = XAborted), s').
Proof using HB.
  revert s a. induction fuel as [|fuel IH]; intros s a Hf Hc Ha Hfuel; [lia|].
  destruct (walk_step s base D a fuel Hf Hc Ha)
    as (s' & Hfr & [(o & Ho & H1 & H2)|(b & Hba & Hb & Hlt & Hout & -> & ->)]); [by exists o, s'|].
  destruct (IH s' b) as (o & s'' & Ho & Hfr' & H1 & H2); [by eapply family_frame|apply Hfr|done|lia|].
  exists o, s''. split_and!; [|by eapply frame_trans|done..].
  apply Hout. destruct Hfr as (E1 & E2 & E3 & _). by rewrite <- E1, <- E2, <- E3.
Qed.

Lemma xid_outcome_det status parent xmin x o1 o2 :
  xid_outcome status parent xmin x o1 → xid_outcome status parent xmin x o2 → o1 = o2.
Proof using.
  clear HB. intros H1. revert o2.
  induction H1 as [x H|x H Hp|x H Hp|x o H Hp Hv _ IH]; intros o2 H2; inversion H2; subst;
    try congruence; auto.
Qed.

(** For transactions whose parents are older than they are,
    [TransactionIdDidCommit] and [TransactionIdDidAbort] terminate, after at most
    as many steps as there are ids since [TransactionXmin], and decide the
    transaction's one outcome: committed, aborted (or its parent crashed), or
    neither while it is in progress; they only touch the cache, which stays
    right, and [TransactionIdIsKnownCompleted] then only reports finished
    transactions. *)
Theorem TransactionIdDidCommit_DidAbort_correct fuel s base D a :
  family s base D → cache_ok s → a ∈ D → (Z.to_nat (a - base + 1) < fuel)%nat →
  ∃ o s', (∀ o', outcome_in s (uint32_of a) o' ↔ o' = o) ∧ frame s s' ∧
    TransactionIdDidCommit fuel (uint32_of a) s = Ret (bool_decide (o = XCommitted), s') ∧
    TransactionIdDidAbort fuel (uint32_of a) s = Ret (bool_decide (o = XAborted), s') ∧
    (∀ b, b ∈ D → TransactionIdIsKnownCompleted (uint32_of b) s' = Ret (true, s') →
       ¬ outcome_in s (uint32_of b) XInProgress).
Proof using HB.
  intros Hf Hc Ha Hfuel.
  destruct (walk_spec fuel s base D a Hf Hc Ha Hfuel) as (o & s' & Ho & Hfr & H1 & H2).
  exists o, s'. split_and!; try done.
  - intros o'. split; [intros Ho'; by eapply xid_outcome_det|by intros ->].
  - intros b Hb Hk Hip. destruct Hfr as (E1 & E2 & E3 & Hc').
    destruct (fam_xid _ _ _ Hf b Hb) as (Hfb & _).
    unfold TransactionIdIsKnownCompleted in Hk. erewrite bind_Ret in Hk by done.
    unfold TransactionIdEquals in Hk.
    destruct (Z.eqb_spec (uint32_of b) (cachedFetchXid s')) as [Eb|]; [|done].
    destruct Hc' as (_ & Hst & _ & Hfin); [rewrite <- Eb; by apply full_valid|].
    rewrite <- Eb, E1 in Hst.
    assert (log_status (pages (b_clog s)) (uint32_of b) = cachedFetchXidStatus s') as Hls
      by (unfold log_status; by rewrite Hfb).
    inversion Hip as [x Hx Hxo| | |x o1 Hx]; subst; rewrite Hls in *;
      destruct Hfin as [E|E]; rewrite E in *; done.
Qed.

(** ** Atomicity of a commit *)

(** The tree of a top-level transaction in [pg_subtrans]; the observers'
    [TransactionXmin] does not follow it. *)
Record tree_logs (m : subtrans_pages) (base top : Z) (subs : list Z) : Prop := {
  tl_page : 0 < SUBTRANS_XACTS_PER_PAGE;
  tl_xmin : full_xid base;
  tl_xid a : a ∈ top :: subs → full_xid a ∧ base ≤ a < base + 2 ^ 31;
  tl_fresh : top ∉ subs;
  tl_parent a : a ∈ subs → sub_page m (uint32_of a) ∧
    ∃ b, b ∈ top :: subs ∧ b < a ∧ log_parent m (uint32_of a) = uint32_of b
}.

Lemma tree_logs_inj m base top subs a b :
  tree_logs m base top subs → a ∈ top :: subs → b ∈ top :: subs → uint32_of a = uint32_of b → a = b.
Proof using.
  clear HB. intros H Ha Hb. apply uint32_full_eq. destruct (tl_xid _ _ _ _ H a Ha), (tl_xid _ _ _ _ H b Hb).
  unfold near. lia.
Qed.

Lemma tree_outcome m base top subs status a :
  tree_logs m base top subs → a ∈ top :: subs →
  status (uint32_of top) ≠ TRANSACTION_STATUS_SUB_COMMITTED →
  (∀ b, b ∈ subs → status (uint32_of b) = status (uint32_of top) ∨
                   status (uint32_of b) = TRANSACTION_STATUS_SUB_COMMITTED) →
  xid_outcome status (log_parent m) (uint32_of base) (uint32_of a)
    (xoutcome_of (status (uint32_of top))).
Proof using.
  clear HB. intros Ht Ha Htop Hsubs. remember (Z.to_nat (a - base)) as n eqn:Hn.
  revert a Ha Hn. induction (lt_wf n) as [n _ IH]. intros a Ha Hn.
  apply elem_of_cons in Ha as [->|Ha]; [by apply xo_final|].
  destruct (Hsubs a Ha) as [E|E]; [rewrite <- E; apply xo_final; congruence|].
  destruct (tl_parent _ _ _ _ Ht a Ha) as (_ & b & Hb & Hlt & Hpb).
  destruct (tl_xid _ _ _ _ Ht a) as [Hfa Hra]; [set_solver|].
  destruct (tl_xid _ _ _ _ Ht b Hb) as [Hfb Hrb].
  apply xo_parent; [done| | |].
  - rewrite full_precedes by (try done; try apply Ht; unfold near; lia). apply Z.ltb_ge. lia.
  - rewrite Hpb. by apply full_valid.
  - rewrite Hpb. apply (IH (Z.to_nat (b - base))); [lia|done..].
Qed.

(** An observer of the page table [t]. *)
Definition observes (obs : Backend) (t : pagetable) (m : subtrans_pages) (base : Z) : Prop :=
  pages (b_clog obs) = t ∧ b_subtrans obs = m ∧ TransactionXmin obs = uint32_of base ∧ cache_ok obs.

(** All members of the tree have the answer [b] from [TransactionIdDidCommit]. *)
Definition all_answer (t : pagetable) (m : subtrans_pages) (base : Z) (xs : list Z) (b : bool) : Prop :=
  ∀ obs fuel x, observes obs t m base → x ∈ xs → (Z.to_nat (x - base + 1) < fuel)%nat →
    ∃ obs', TransactionIdDidCommit fuel (uint32_of x) obs = Ret (b, obs').

Lemma tree_answer t m base top subs :
  tree_logs m base top subs → pt_wf BLCKSZ t →
  (∀ a, a ∈ top :: subs → has_page BLCKSZ t (uint32_of a)) →
  pt_status BLCKSZ t (uint32_of top) ≠ TRANSACTION_STATUS_SUB_COMMITTED →
  (∀ b, b ∈ subs → pt_status BLCKSZ t (uint32_of b) = pt_status BLCKSZ t (uint32_of top) ∨
                   pt_status BLCKSZ t (uint32_of b) = TRANSACTION_STATUS_SUB_COMMITTED) →
  all_answer t m base (top :: subs)
    (bool_decide (xoutcome_of (pt_status BLCKSZ t (uint32_of top)) = XCommitted)).
Proof using HB.
  intros Ht Hwf Hpg Htop Hsubs obs fuel x (E1 & E2 & E3 & Hc) Hx Hfuel.
  assert (Hls : ∀ a, a ∈ top :: subs → log_status t (uint32_of a) = pt_status BLCKSZ t (uint32_of a)).
  { intros a Ha. destruct (tl_xid _ _ _ _ Ht a Ha) as [Hfa _]. unfold log_status. by rewrite Hfa. }
  assert (Hfam : family obs base (top :: subs)).
  { split; rewrite ?E1, ?E2, ?E3.
    - done.
    - split; [done|apply Ht].
    - apply Ht.
    - intros a Ha. destruct (tl_xid _ _ _ _ Ht a Ha). split; [done|]. split; [unfold near; lia|auto].
    - intros a Ha _ Est. apply elem_of_cons in Ha as [->|Ha]; [done|].
      destruct (tl_parent _ _ _ _ Ht a Ha) as (? & Hb). split; [done|by right]. }
  destruct (walk_spec fuel obs base _ x Hfam Hc Hx Hfuel) as (o & obs' & Ho & _ & Hrun & _).
  exists obs'. rewrite Hrun. do 3 f_equal. rewrite E1, E2, E3 in Ho.
  rewrite (xid_outcome_det _ _ _ _ _ _ Ho (tree_outcome m base top subs (log_status t) x Ht Hx
    ltac:(rewrite Hls by set_solver; done)
    ltac:(intros b Hb; rewrite !Hls by set_solver; auto))).
  by rewrite Hls by set_solver.
Qed.


(** ** The subtransaction log *)

(** Parents are stored and found again: [SubTransSetParent] makes its
    argument the parent that [SubTransGetParent] reports for that transaction and
    changes no other transaction's parent. *)
Theorem SubTrans_roundtrip s xid parent overwriteOK :
  0 < SUBTRANS_XACTS_PER_PAGE → parent ≠ InvalidTransactionId →
  sub_page (b_subtrans s) xid →
  log_parent (b_subtrans s) xid = InvalidTransactionId ∨
    (log_parent (b_subtrans s) xid = parent ∧ overwriteOK = true) →
  ∃ s', SubTransSetParent xid parent overwriteOK s = Ret (tt, s') ∧
    ∀ z, sub_page (b_subtrans s) z → TransactionIdIsNormal z = true →
      TransactionIdPrecedes z (TransactionXmin s) = false →
      SubTransGetParent z s' = Ret (if z =? xid then parent else log_parent (b_subtrans s) z, s').
Proof using.
  clear HB. intros Hpos Hpar (p & Hp & Hl) Hold.
  assert (He : ∀ z, 0 ≤ SubTransIdToEntry z < SUBTRANS_XACTS_PER_PAGE)
    by (intros z; by apply Z.mod_pos_bound).
  assert (Hw : log_parent (b_subtrans s) xid = wd p (SubTransIdToEntry xid))
    by (unfold log_parent; by rewrite Hp).
  rewrite Hw in Hold. eexists. split.
  - unfold SubTransSetParent. erewrite bind_Ret; [|unfold TransactionIdIsValid;
      rewrite (proj2 (Z.eqb_neq _ _) Hpar); done].
    erewrite bind_Ret; [|unfold read_subtrans; by rewrite Hp].
    erewrite bind_Ret; [|unfold lift; rewrite wd_get by (rewrite Hl; apply He); done].
    erewrite bind_Ret.
    2:{ destruct Hold as [-> |[-> ->]]; [done|]. by rewrite Z.eqb_refl, orb_true_r. }
    erewrite bind_Ret; [|unfold lift; rewrite arr_set_lt by (rewrite Hl; apply He); done]. done.
  - intros z Hz Hn Hpr. rewrite SubTransGetParent_spec; [|done|done| |done].
    + f_equal. f_equal. unfold log_parent. cbn [b_subtrans].
      destruct (Z.eqb_spec z xid) as [->|Hne].
      { rewrite lookup_insert_eq, wd_insert, decide_True by (rewrite ?Hl; done || apply He). done. }
      destruct (decide (SubTransIdToPage z = SubTransIdToPage xid)) as [E|E];
        [|by rewrite lookup_insert_ne].
      rewrite E, lookup_insert_eq, Hp, wd_insert by (rewrite ?Hl; apply He).
      rewrite decide_False; [done|]. intros E2. apply Hne.
      unfold SubTransIdToPage, SubTransIdToEntry in *.
      pose proof (Z.div_mod z SUBTRANS_XACTS_PER_PAGE ltac:(lia)) as Dz.
      pose proof (Z.div_mod xid SUBTRANS_XACTS_PER_PAGE ltac:(lia)) as Dx.
      rewrite E, E2 in Dz. congruence.
    + destruct Hz as (q & Hq & Hlq). unfold sub_page. cbn [b_subtrans].
      destruct (decide (SubTransIdToPage z = SubTransIdToPage xid)) as [E|E].
      * rewrite E, lookup_insert_eq. eexists. split; [done|]. by rewrite length_insert.
      * rewrite lookup_insert_ne by done. eauto.
Qed.

(** [SubTransGetTopmostTransaction] terminates on every member of a
    transaction tree and returns the top-level transaction of the tree. *)
Theorem SubTransGetTopmost_tree fuel s base top subs a :
  tree_logs (b_subtrans s) base top subs → TransactionXmin s = uint32_of base →
  sub_page (b_subtrans s) (uint32_of top) →
  log_parent (b_subtrans s) (uint32_of top) = InvalidTransactionId →
  a ∈ top :: subs → (Z.to_nat (a - base + 2) ≤ fuel)%nat →
  SubTransGetTopmostTransaction fuel (uint32_of a) s = Ret (uint32_of top, s).
Proof using.
  clear HB. intros Ht Hxm Hsp Htop Ha Hfuel.
  assert (Hpr : ∀ a, a ∈ top :: subs → TransactionIdPrecedes (uint32_of a) (uint32_of base) = false).
  { intros b Hb. destruct (tl_xid _ _ _ _ Ht b Hb) as [Hf Hr].
    rewrite full_precedes by (try done; try apply Ht; unfold near; lia). apply Z.ltb_ge. lia. }
  assert (Hv : ∀ a, a ∈ top :: subs → TransactionIdIsValid (uint32_of a) = true).
  { intros b Hb. unfold TransactionIdIsValid. apply negb_true_iff, Z.eqb_neq, full_valid.
    by apply (tl_xid _ _ _ _ Ht). }
  assert (Hloop : ∀ fuel a prev, a ∈ top :: subs → (Z.to_nat (a - base + 2) ≤ fuel)%nat →
    topmost_loop fuel (uint32_of a) prev s = Ret (uint32_of top, s)).
  { clear a Ha Hfuel fuel. induction fuel as [|fuel IH]; intros a prev Ha Hfuel;
      destruct (tl_xid _ _ _ _ Ht a Ha) as [Hf Hr]; [lia|].
    cbn [topmost_loop]. rewrite Hv by done. erewrite bind_Ret by done. rewrite Hxm, Hpr by done.
    assert (sub_page (b_subtrans s) (uint32_of a)) as Hspa.
    { apply elem_of_cons in Ha as [->|Ha]; [done|]. by apply (tl_parent _ _ _ _ Ht). }
    erewrite bind_Ret by (apply SubTransGetParent_spec; rewrite ?Hxm; auto; apply Ht).
    apply elem_of_cons in Ha as [->|Ha].
    - rewrite Htop. destruct fuel; [lia|]. done.
    - destruct (tl_parent _ _ _ _ Ht a Ha) as (_ & b & Hb & Hlt & ->). apply IH; [done|lia]. }
  unfold SubTransGetTopmostTransaction. erewrite bind_Ret by done.
  erewrite bind_Ret by (rewrite follows_or_equals_not_precedes, Hxm, Hpr by done; done).
  erewrite bind_Ret by (by apply Hloop).
  erewrite bind_Ret by (rewrite Hv by set_solver; done). done.
Qed.

End transam.

(** ** Witnesses: a tree of four transactions on two pages of each log *)

Definition subtrans8 : gmap Z (list TransactionId) :=
  list_to_map [(10, [0; 20]); (20, [21; 40])].
Definition backend8 : Backend :=
  mkBackend clog8 subtrans8 20 InvalidTransactionId 0 InvalidXLogRecPtr.

Lemma tree_logs8 : tree_logs 8 subtrans8 20 20 [21; 40; 41].
Proof.
  split; [done|done| |set_solver|].
  - intros a [->|[->|[->|[->|[]%elem_of_nil]%elem_of_cons]%elem_of_cons]%elem_of_cons]%elem_of_cons;
      (split; [reflexivity|lia]).
  - intros a [->|[->|[->|[]%elem_of_nil]%elem_of_cons]%elem_of_cons]%elem_of_cons;
      (split; [by eexists|]); [exists 20|exists 21|exists 40]; (split; [set_solver|done]).
Qed.

Lemma backend8_pages a : a ∈ [20; 21; 40; 41] → has_page 8 (pages (b_clog backend8)) (uint32_of a).
Proof.
  intros [->|[->|[->|[->|[]%elem_of_nil]%elem_of_cons]%elem_of_cons]%elem_of_cons]%elem_of_cons;
    by eexists.
Qed.

Lemma TransactionIdDidCommit_DidAbort_correct_witness :
  ∃ o s', TransactionIdDidCommit 8 30 (uint32_of 41) backend8 = Ret (bool_decide (o = XCommitted), s').
Proof.
  destruct (TransactionIdDidCommit_DidAbort_correct 8 clog_blcksz8 30 backend8 20 [20; 21; 40; 41] 41)
    as (o & s' & _ & _ & H & _).
  - split; [apply clog8_wf|done|done| |].
    + intros a Ha. pose proof (tl_xid _ _ _ _ _ tree_logs8 a Ha) as [Hf Hr].
      split; [exact Hf|]. split; [unfold near; lia|by apply backend8_pages].
    + intros a Ha _ E. exfalso. revert E.
      apply elem_of_cons in Ha as [->|[->|[->|[->|[]%elem_of_nil]%elem_of_cons]%elem_of_cons]%elem_of_cons];
        intros E; vm_compute in E; discriminate E.
  - by intros [].
  - set_solver.
  - vm_compute. lia.
  - exists o, s'. exact H.
Defined.


Lemma SubTrans_roundtrip_witness :
  ∃ s', SubTransSetParent 8 20 19 false backend8 = Ret (tt, s').
Proof.
  destruct (SubTrans_roundtrip 8 backend8 20 19 false) as (s' & H & _);
    [reflexivity|done|by eexists|by left|].
  exists s'. exact H.
Defined.

Lemma SubTransGetTopmost_tree_witness :
  SubTransGetTopmostTransaction 8 30 41 backend8 = Ret (20, backend8).
Proof.
  apply (SubTransGetTopmost_tree 8 30 backend8 20 20 [21; 40; 41] 41 tree_logs8);
    [reflexivity|by eexists|reflexivity|set_solver|vm_compute; lia].
Defined.
