(* ===== verification/Htup.v ===== *)
(** * Heap tuple headers and combo command ids

    The visibility fields of a heap tuple header ([access/htup.h]) and the combo
    command ids of [backend/utils/time/combocid.c].  A header has room for one
    command id only; a transaction that deletes a row it has inserted itself
    stores a combo id, which stands for the pair (cmin, cmax) in tables private to
    the backend. *)

From S2P Require Import Prelude Xid Clog.

(** ** Tuple headers *)

Abbreviation CommandId := Z.

Definition HEAP_COMBOCID : Z := 0x0020.
Definition HEAP_XMAX_EXCL_LOCK : Z := 0x0040.
Definition HEAP_XMAX_SHARED_LOCK : Z := 0x0080.
Definition HEAP_IS_LOCKED : Z := Z.lor HEAP_XMAX_EXCL_LOCK HEAP_XMAX_SHARED_LOCK.
Definition HEAP_XMIN_COMMITTED : Z := 0x0100.
Definition HEAP_XMIN_INVALID : Z := 0x0200.
Definition HEAP_XMAX_COMMITTED : Z := 0x0400.
Definition HEAP_XMAX_INVALID : Z := 0x0800.
Definition HEAP_XMAX_IS_MULTI : Z := 0x1000.
Definition HEAP_MOVED_OFF : Z := 0x4000.
Definition HEAP_MOVED_IN : Z := 0x8000.
Definition HEAP_MOVED : Z := Z.lor HEAP_MOVED_OFF HEAP_MOVED_IN.

(** [t_field3] is the union of [t_cid] and [t_xvac]. *)
Record HeapTupleHeader := mkTuple {
  t_xmin : TransactionId;
  t_xmax : TransactionId;
  t_field3 : Z;
  t_infomask : Z
}.

(** [tuple->t_infomask & mask], as a truth value. *)
Definition has (infomask mask : Z) : bool := negb (Z.land infomask mask =? 0).

Definition HeapTupleHeaderGetXvac (tup : HeapTupleHeader) : TransactionId :=
  if has (t_infomask tup) HEAP_MOVED then t_field3 tup else InvalidTransactionId.
Definition HeapTupleHeaderGetRawCommandId (tup : HeapTupleHeader) : CommandId := t_field3 tup.

Lemma has_lor m a b : has (Z.lor m a) b = has m b || has a b.
Proof.
  unfold has. rewrite Z.land_lor_distr_l.
  destruct (Z.eqb_spec (Z.land m b) 0) as [->|H1], (Z.eqb_spec (Z.land a b) 0) as [->|H2];
    rewrite ?Z.lor_0_l, ?Z.lor_0_r; cbn [negb orb]; try done.
  - by apply negb_true_iff, Z.eqb_neq.
  - by apply negb_true_iff, Z.eqb_neq.
  - apply negb_true_iff, Z.eqb_neq. by intros [? _]%Z.lor_eq_0_iff.
Qed.

Lemma has_lor_r m a b : has m (Z.lor a b) = has m a || has m b.
Proof. unfold has at 1. rewrite Z.land_comm. fold (has (Z.lor a b) m). rewrite has_lor.
  unfold has. by rewrite (Z.land_comm a m), (Z.land_comm b m). Qed.

(** ** Combo command ids *)

Record ComboCidKeyData := mkKey { cmin : CommandId; cmax : CommandId }.
#[global] Instance ComboCidKeyData_eq_dec : EqDecision ComboCidKeyData.
Proof. solve_decision. Defined.
#[global] Instance ComboCidKeyData_countable : Countable ComboCidKeyData.
Proof.
  apply (inj_countable' (λ k, (cmin k, cmax k)) (λ p, mkKey p.1 p.2)). by intros [].
Defined.

(** [comboHash] is [None] until the first use; [comboCids] is the allocated array,
    of which the first [usedComboCids] elements are in use and the others are
    indeterminate (zero here). *)
Record ComboState := mkCombo {
  comboHash : option (gmap ComboCidKeyData CommandId);
  comboCids : list ComboCidKeyData;
  usedComboCids : Z;
  sizeComboCids : Z
}.

Definition CCID_ARRAY_SIZE : Z := 100.
Definition fresh_keys (n : Z) : list ComboCidKeyData := replicate (Z.to_nat n) (mkKey 0 0).

Definition GetComboCommandId (cmin cmax : CommandId) : cmd ComboState CommandId := λ s0,
  let s := match comboHash s0 with
           | Some _ => s0
           | None => mkCombo (Some ∅) (fresh_keys CCID_ARRAY_SIZE) 0 CCID_ARRAY_SIZE
           end in
  let hash := default ∅ (comboHash s) in
  let key := mkKey cmin cmax in
  match hash !! key with
  | Some combocid => Ret (combocid, s)
  | None =>
      let '(arr, size) :=
        if sizeComboCids s <=? usedComboCids s then
          let newsize := sizeComboCids s * 2 in
          (take (Z.to_nat newsize) (comboCids s ++ fresh_keys (newsize - sizeComboCids s)), newsize)
        else (comboCids s, sizeComboCids s) in
      let combocid := usedComboCids s in
      arr' ← arr_set arr combocid (mkKey cmin cmax);
      Ret (combocid, mkCombo (Some (<[key := combocid]> hash)) arr' (usedComboCids s + 1) size)
  end.

Definition GetRealCmin (s : ComboState) (combocid : CommandId) : outcome CommandId :=
  if combocid <? usedComboCids s then k ← arr_get (comboCids s) combocid; Ret (cmin k) else UB.
Definition GetRealCmax (s : ComboState) (combocid : CommandId) : outcome CommandId :=
  if combocid <? usedComboCids s then k ← arr_get (comboCids s) combocid; Ret (cmax k) else UB.

Definition AtEOXact_ComboCid (s : ComboState) : ComboState := mkCombo None [] 0 0.

(** [current] is [TransactionIdIsCurrentTransactionId]. *)
Definition HeapTupleHeaderGetCmin (current : TransactionId → bool) (s : ComboState)
    (tup : HeapTupleHeader) : outcome CommandId :=
  let cid := HeapTupleHeaderGetRawCommandId tup in
  if has (t_infomask tup) HEAP_MOVED then UB else
  if negb (current (t_xmin tup)) then UB else
  if has (t_infomask tup) HEAP_COMBOCID then GetRealCmin s cid else Ret cid.

Definition HeapTupleHeaderGetCmax (current : TransactionId → bool) (s : ComboState)
    (tup : HeapTupleHeader) : outcome CommandId :=
  let cid := HeapTupleHeaderGetRawCommandId tup in
  if has (t_infomask tup) (Z.lor HEAP_MOVED HEAP_IS_LOCKED) then UB else
  if negb (current (t_xmax tup)) then UB else
  if has (t_infomask tup) HEAP_COMBOCID then GetRealCmax s cid else Ret cid.

(** The new value of [*cmax] and of [*iscombo]. *)
Definition HeapTupleHeaderAdjustCmax (current : TransactionId → bool) (tup : HeapTupleHeader)
    (cmax : CommandId) : cmd ComboState (CommandId * bool) :=
  if negb (has (t_infomask tup) HEAP_XMIN_COMMITTED) && current (t_xmin tup) then
    λ s, cmin ← HeapTupleHeaderGetCmin current s tup;
         '(cid, s') ← GetComboCommandId cmin cmax s;
         Ret ((cid, true), s')
  else mret (cmax, false).

(** [HeapTupleHeaderSetCmax], with the stored id and whether it is a combo id. *)
Definition HeapTupleHeaderSetCmax (tup : HeapTupleHeader) (cid : CommandId) (iscombo : bool)
    : outcome HeapTupleHeader :=
  if has (t_infomask tup) HEAP_MOVED then UB else
  Ret (mkTuple (t_xmin tup) (t_xmax tup) cid
         (if iscombo then Z.lor (t_infomask tup) HEAP_COMBOCID
          else Z.land (t_infomask tup) (Z.lnot HEAP_COMBOCID))).

(** ** Correctness of combo ids *)

Definition combo_wf (s : ComboState) : Prop :=
  match comboHash s with
  | None => usedComboCids s = 0
  | Some h =>
      0 ≤ usedComboCids s ≤ sizeComboCids s ∧ 0 < sizeComboCids s ∧
      Z.of_nat (length (comboCids s)) = sizeComboCids s ∧
      ∀ k c, h !! k = Some c ↔
             0 ≤ c < usedComboCids s ∧ comboCids s !! Z.to_nat c = Some k
  end.

(** The pair of a combo id in use. *)
Definition combo_pair (s : ComboState) (c : CommandId) (k : ComboCidKeyData) : Prop :=
  0 ≤ c < usedComboCids s ∧ comboCids s !! Z.to_nat c = Some k.

Lemma combo_pair_real s c k :
  combo_pair s c k → GetRealCmin s c = Ret (cmin k) ∧ GetRealCmax s c = Ret (cmax k).
Proof.
  intros [Hc Hk]. unfold GetRealCmin, GetRealCmax. rewrite (proj2 (Z.ltb_lt _ _)) by lia.
  assert (arr_get (comboCids s) c = Ret k) as -> by (apply arr_get_Some; split; [lia|done]). done.
Qed.

(** A new pair at the end of the part in use, after the array has grown if it was
    full. *)
Lemma combo_append s h k arr size :
  combo_wf s → comboHash s = Some h → h !! k = None →
  (arr, size) = (if sizeComboCids s <=? usedComboCids s then
          let newsize := sizeComboCids s * 2 in
          (take (Z.to_nat newsize) (comboCids s ++ fresh_keys (newsize - sizeComboCids s)), newsize)
        else (comboCids s, sizeComboCids s)) →
  ∃ arr', arr_set arr (usedComboCids s) k = Ret arr' ∧
    let s' := mkCombo (Some (<[k := usedComboCids s]> h)) arr' (usedComboCids s + 1) size in
    combo_wf s' ∧ combo_pair s' (usedComboCids s) k ∧
    (∀ c k', combo_pair s c k' → combo_pair s' c k').
Proof.
  unfold combo_wf. intros Hwf Hh Hnone Harr. rewrite Hh in Hwf.
  destruct Hwf as (Hu & Hpos & Hlen & Hmap).
  assert (Hgrow : Z.of_nat (length arr) = size ∧ usedComboCids s < size ∧
     ∀ i : nat, Z.of_nat i < usedComboCids s → arr !! i = comboCids s !! i).
  { destruct (Z.leb_spec (sizeComboCids s) (usedComboCids s)); simplify_eq; [|done].
    unfold fresh_keys. rewrite length_take, length_app, length_replicate. split; [lia|]. split; [lia|].
    intros i Hi. rewrite lookup_take_lt, lookup_app_l by lia. done. }
  destruct Hgrow as (Hl & Hlt & Hold). rewrite arr_set_lt by lia. eexists. split; [done|].
  assert (Hin : ∀ i : nat, Z.of_nat i < usedComboCids s →
     <[Z.to_nat (usedComboCids s) := k]> arr !! i = comboCids s !! i).
  { intros i Hi. rewrite list_lookup_insert_ne by lia. by apply Hold. }
  assert (Hk : <[Z.to_nat (usedComboCids s) := k]> arr !! Z.to_nat (usedComboCids s) = Some k)
    by (apply list_lookup_insert_eq; lia).
  split_and!.
  - cbn. rewrite length_insert. split_and!; [lia..|].
    intros k' c. destruct (decide (c = usedComboCids s)) as [->|Hc].
    + rewrite Hk. destruct (decide (k' = k)) as [->|Hne].
      * rewrite lookup_insert_eq. intuition lia.
      * rewrite lookup_insert_ne, Hmap by done. split; [lia|]. intros [_ ?]. congruence.
    + destruct (decide (k' = k)) as [->|Hne].
      * rewrite lookup_insert_eq. split; [congruence|]. intros [Hr Hc'].
        rewrite Hin in Hc' by lia. assert (h !! k = Some c) by (apply Hmap; split; [lia|done]). congruence.
      * rewrite lookup_insert_ne, Hmap by done.
        split; intros [Hr Hc']; (split; [lia|]); rewrite ?Hin in * by lia; done.
  - split; cbn; [lia|done].
  - intros c k' [Hr Hc]. split; cbn; [lia|]. rewrite Hin by lia. done.
Qed.

Lemma GetComboCommandId_spec s cmin0 cmax0 :
  combo_wf s →
  ∃ c s', GetComboCommandId cmin0 cmax0 s = Ret (c, s') ∧ combo_wf s' ∧
    combo_pair s' c (mkKey cmin0 cmax0) ∧
    (∀ c' k, combo_pair s c' k → combo_pair s' c' k).
Proof.
  intros Hwf0. unfold GetComboCommandId.
  set (s1 := match comboHash s with Some _ => s | None => _ end).
  assert (H1 : ∃ h, comboHash s1 = Some h ∧ combo_wf s1 ∧ (∀ c' k, combo_pair s c' k → combo_pair s1 c' k)).
  { subst s1. unfold combo_wf in *. destruct (comboHash s) as [h|] eqn:E; [exists h; by rewrite E|].
    exists ∅. split; [done|]. split.
    - cbn [comboHash usedComboCids comboCids sizeComboCids]. unfold fresh_keys, CCID_ARRAY_SIZE.
      split_and!; [lia..|done|]. intros k c. rewrite lookup_empty. split; [done|]. lia.
    - intros c' k [? _]. lia. }
  destruct H1 as (h & Hh & Hwf & Hkeep). clearbody s1. rewrite Hh. cbn [default from_option id].
  destruct (h !! mkKey cmin0 cmax0) as [c|] eqn:Hc.
  - exists c, s1. split_and!; [done..| |done]. unfold combo_wf in Hwf. rewrite Hh in Hwf.
    destruct Hwf as (_ & _ & _ & Hmap). by apply Hmap.
  - destruct (if _ <=? _ then _ else _) as [arr size] eqn:Ea.
    destruct (combo_append s1 h (mkKey cmin0 cmax0) arr size Hwf Hh Hc (eq_sym Ea))
      as (arr' & -> & Hwf' & Hpair & Hkeep').
    cbn [mbind outcome_bind]. eexists _, _. split; [done|]. split_and!; [done..|auto].
Qed.

(** The command ids of a row deleted by the transaction that inserted it
    survive in the one field of the header: after [HeapTupleHeaderAdjustCmax] and
    [HeapTupleHeaderSetCmax], [HeapTupleHeaderGetCmin] still returns the inserting
    command and [HeapTupleHeaderGetCmax] the deleting one; if the row was inserted
    by another transaction only the deleting command is kept; the ids of earlier
    deletions by the same transaction keep their meaning. *)
Theorem combo_cid_roundtrip current s tup tup1 cm0 cm :
  combo_wf s → has (t_infomask tup) HEAP_MOVED = false →
  (current (t_xmin tup) = true → has (t_infomask tup) HEAP_XMIN_COMMITTED = false ∧
                                 HeapTupleHeaderGetCmin current s tup = Ret cm0) →
  (* the header after the deleting transaction has stored its id *)
  t_xmin tup1 = t_xmin tup → current (t_xmax tup1) = true →
  has (t_infomask tup1) (Z.lor HEAP_MOVED HEAP_IS_LOCKED) = false →
  ∃ cid iscombo s' tup',
    HeapTupleHeaderAdjustCmax current tup cm s = Ret ((cid, iscombo), s') ∧
    HeapTupleHeaderSetCmax tup1 cid iscombo = Ret tup' ∧
    (current (t_xmin tup) = true → HeapTupleHeaderGetCmin current s' tup' = Ret cm0) ∧
    HeapTupleHeaderGetCmax current s' tup' = Ret cm ∧
    combo_wf s' ∧ (∀ c k, combo_pair s c k → combo_pair s' c k).
Proof.
  intros Hwf Hmv Hcmin Hx1 Hcur Hbits. rewrite has_lor_r in Hbits.
  apply orb_false_iff in Hbits as [Hmv1 Hlk1].
  unfold HeapTupleHeaderAdjustCmax, HeapTupleHeaderSetCmax, HeapTupleHeaderGetCmin at 2, HeapTupleHeaderGetCmax.
  rewrite Hmv1. destruct (current (t_xmin tup)) eqn:Ec.
  - destruct (Hcmin eq_refl) as [Hxc Hc0]. rewrite Hxc. cbn [negb andb]. rewrite Hc0. cbn [mbind outcome_bind].
    destruct (GetComboCommandId_spec s cm0 cm Hwf) as (c & s' & Hr & Hwf' & Hpair & Hkeep).
    destruct (combo_pair_real _ _ _ Hpair) as [Hmin Hmax].
    rewrite Hr. cbn [mbind outcome_bind]. eexists c, true, s', _. split; [done|]. split; [done|].
    cbn [t_infomask t_xmin t_xmax HeapTupleHeaderGetRawCommandId t_field3].
    rewrite !has_lor_r, !has_lor, Hx1, Ec, Hcur, Hlk1, Hmv1.
    cbn -[GetRealCmin GetRealCmax]. rewrite !orb_true_r. done.
  - rewrite andb_false_r. eexists cm, false, s, _. split; [done|]. split; [done|].
    split; [done|]. split; [|done].
    cbn [t_infomask t_xmax HeapTupleHeaderGetRawCommandId t_field3].
    assert (Hclr : ∀ b, Z.land b HEAP_COMBOCID = 0 →
      has (Z.land (t_infomask tup1) (Z.lnot HEAP_COMBOCID)) b = has (t_infomask tup1) b).
    { intros b Hb. unfold has. do 2 f_equal. rewrite <- Z.land_assoc. f_equal.
      apply Z.bits_inj'. intros i Hi. rewrite Z.land_spec, Z.lnot_spec by done.
      assert (Z.testbit (Z.land b HEAP_COMBOCID) i = false) as H by (rewrite Hb; apply Z.bits_0).
      rewrite Z.land_spec in H. destruct (Z.testbit b i), (Z.testbit HEAP_COMBOCID i); done. }
    rewrite has_lor_r, !Hclr, Hmv1, Hlk1, Hcur by done. cbn [negb orb].
    assert (has (Z.land (t_infomask tup1) (Z.lnot HEAP_COMBOCID)) HEAP_COMBOCID = false) as ->; [|done].
    unfold has. rewrite <- Z.land_assoc, (Z.land_comm (Z.lnot _)), Z.land_lnot_diag, Z.land_0_r. done.
Qed.

Lemma combo_cid_roundtrip_witness :
  ∃ cid iscombo s' tup',
    HeapTupleHeaderAdjustCmax (Z.eqb 100) (mkTuple 100 0 3 HEAP_XMAX_INVALID) 7 (mkCombo None [] 0 0) =
      Ret ((cid, iscombo), s') ∧
    HeapTupleHeaderSetCmax (mkTuple 100 100 3 0) cid iscombo = Ret tup' ∧
    HeapTupleHeaderGetCmax (Z.eqb 100) s' tup' = Ret 7.
Proof.
  destruct (combo_cid_roundtrip (Z.eqb 100) (mkCombo None [] 0 0) (mkTuple 100 0 3 HEAP_XMAX_INVALID)
    (mkTuple 100 100 3 0) 3 7) as (cid & ic & s' & tup' & H1 & H2 & _ & H4 & _);
    try reflexivity; [intros _; split; reflexivity|].
  exists cid, ic, s', tup'. split_and!; [exact H1|exact H2|exact H4].
Defined.
