(* ===== verification/Tqual.v ===== *)
(** * Tuple visibility

    [backend/utils/time/tqual.c]: the routines that decide whether a heap tuple
    is visible, to the current command, to a snapshot or to nobody any more, and
    that leave commit and abort hint bits in the tuple header on the way.

    The routines ask the rest of the transaction system about transactions while
    other backends run.  The system is therefore a history: [W t] answers the
    questions put at time [t], every question takes one tick of the clock, and
    other transactions may end between two questions.  The class [XactHistory]
    states what the routines rely on: a transaction that has ended stays ended with
    the same outcome, and one is in progress until its outcome is in the log. *)

From S2P Require Import Prelude Xid Clog Htup.

(** ** The transaction system at one instant, as seen by this backend *)

Record XactEnv := mkEnv {
  env_IsCurrent : TransactionId → bool;      (* xact.c *)
  env_IsInProgress : TransactionId → bool;   (* procarray.c *)
  env_DidCommit : TransactionId → bool;      (* transam.c *)
  env_MultiIsRunning : Z → bool;             (* multixact.c *)
  env_CommitLSN : TransactionId → XLogRecPtr;  (* transam.c *)
  env_NeedsFlush : XLogRecPtr → bool;        (* xlog.c *)
  env_Topmost : TransactionId → TransactionId; (* subtrans.c *)
  env_CommandId : CommandId;                 (* xact.c *)
  env_Combo : ComboState                     (* combocid.c *)
}.

(** ** Data *)

Record SnapshotData := mkSnapshot {
  snap_xmin : TransactionId;
  snap_xmax : TransactionId;
  xcnt : Z;
  xip : list TransactionId;
  subxcnt : Z;
  subxip : list TransactionId;
  suboverflowed : bool;
  takenDuringRecovery : bool;
  snap_curcid : CommandId
}.

Inductive HTSU_Result :=
| HeapTupleMayBeUpdated | HeapTupleInvisible | HeapTupleSelfUpdated | HeapTupleUpdated
| HeapTupleBeingUpdated.
Inductive HTSV_Result :=
| HEAPTUPLE_DEAD | HEAPTUPLE_LIVE | HEAPTUPLE_RECENTLY_DEAD | HEAPTUPLE_INSERT_IN_PROGRESS
| HEAPTUPLE_DELETE_IN_PROGRESS.

(** The tuple in its buffer, whether the buffer has been marked for saving its hint
    bits, and the snapshot passed by reference. *)
Record VState := mkV {
  clock : nat;
  tuple : HeapTupleHeader;
  needs_save : bool;
  snapshot : SnapshotData
}.

Section tqual.
Context (W : nat → XactEnv).

(** ** Questions and flag tests *)

Definition ask {A} (f : XactEnv → A) : cmd VState A := λ s,
  Ret (f (W (clock s)), mkV (S (clock s)) (tuple s) (needs_save s) (snapshot s)).
Definition TransactionIdIsCurrentTransactionId (xid : TransactionId) : cmd VState bool :=
  ask (λ e, env_IsCurrent e xid).
Definition TransactionIdIsInProgress (xid : TransactionId) : cmd VState bool :=
  ask (λ e, env_IsInProgress e xid).
Definition TransactionIdDidCommit (xid : TransactionId) : cmd VState bool :=
  ask (λ e, env_DidCommit e xid).
Definition MultiXactIdIsRunning (multi : Z) : cmd VState bool := ask (λ e, env_MultiIsRunning e multi).
Definition TransactionIdGetCommitLSN (xid : TransactionId) : cmd VState XLogRecPtr :=
  ask (λ e, env_CommitLSN e xid).
Definition XLogNeedsFlush (lsn : XLogRecPtr) : cmd VState bool := ask (λ e, env_NeedsFlush e lsn).
Definition SubTransGetTopmostTransaction (xid : TransactionId) : cmd VState TransactionId :=
  ask (λ e, env_Topmost e xid).
Definition GetCurrentCommandId : cmd VState CommandId := ask env_CommandId.

Definition get_tuple : cmd VState HeapTupleHeader := λ s, Ret (tuple s, s).
Definition get_snapshot : cmd VState SnapshotData := λ s, Ret (snapshot s, s).
Definition flag (mask : Z) : cmd VState bool := λ s, Ret (has (t_infomask (tuple s)) mask, s).
Definition GetXmin : cmd VState TransactionId := λ s, Ret (t_xmin (tuple s), s).
Definition GetXmax : cmd VState TransactionId := λ s, Ret (t_xmax (tuple s), s).
Definition GetXvac : cmd VState TransactionId := λ s, Ret (HeapTupleHeaderGetXvac (tuple s), s).
Definition GetCmin : cmd VState CommandId := λ s,
  c ← HeapTupleHeaderGetCmin (env_IsCurrent (W (clock s))) (env_Combo (W (clock s))) (tuple s);
  Ret (c, s).
Definition GetCmax : cmd VState CommandId := λ s,
  c ← HeapTupleHeaderGetCmax (env_IsCurrent (W (clock s))) (env_Combo (W (clock s))) (tuple s);
  Ret (c, s).
Definition set_snap_xmin (x : TransactionId) : cmd VState unit := λ s,
  let n := snapshot s in
  Ret (tt, mkV (clock s) (tuple s) (needs_save s)
     (mkSnapshot x (snap_xmax n) (xcnt n) (xip n) (subxcnt n) (subxip n) (suboverflowed n)
        (takenDuringRecovery n) (snap_curcid n))).
Definition set_snap_xmax (x : TransactionId) : cmd VState unit := λ s,
  let n := snapshot s in
  Ret (tt, mkV (clock s) (tuple s) (needs_save s)
     (mkSnapshot (snap_xmin n) x (xcnt n) (xip n) (subxcnt n) (subxip n) (suboverflowed n)
        (takenDuringRecovery n) (snap_curcid n))).

(** A block either returns from the routine with a value ([Return]) or falls
    through to the next block ([Fall]). *)
Abbreviation Return v := (mret (inr v)).
Abbreviation Fall := (mret (inl tt)).
Definition and_then {R} (block : cmd VState (unit + R)) (rest : cmd VState R) : cmd VState R :=
  r ← block; match r with inr v => mret v | inl _ => rest end.

(** ** Hint bits *)

Definition set_infomask (m : Z) : cmd VState unit := λ s,
  let t := tuple s in
  Ret (tt, mkV (clock s) (mkTuple (t_xmin t) (t_xmax t) (t_field3 t) m) (needs_save s) (snapshot s)).
Definition SetBufferCommitInfoNeedsSave : cmd VState unit := λ s,
  Ret (tt, mkV (clock s) (tuple s) true (snapshot s)).

Definition SetHintBits (infomask : Z) (xid : TransactionId) : cmd VState unit :=
  let set_bits :=
    t ← get_tuple;
    _ ← set_infomask (Z.lor (t_infomask t) infomask);
    SetBufferCommitInfoNeedsSave in
  if TransactionIdIsValid xid then
    commitLSN ← TransactionIdGetCommitLSN xid;
    nf ← XLogNeedsFlush commitLSN;
    if nf : bool then mret tt else set_bits
  else set_bits.

Definition HeapTupleSetHintBits (infomask : Z) (xid : TransactionId) : cmd VState unit :=
  SetHintBits infomask xid.

(** ** The blocks the routines share

    The source repeats these blocks with different return values in each
    routine; here they take the values as arguments. *)

(** [if (tuple->t_infomask & HEAP_MOVED_OFF) ... else if (... HEAP_MOVED_IN) ...],
    with [rest] for the branches that follow and [gone] for the value returned for
    a tuple that is not there. *)
Definition moved_block {R} (gone : R) (rest : cmd VState (unit + R)) : cmd VState (unit + R) :=
  off ← flag HEAP_MOVED_OFF;
  if off : bool then
    xvac ← GetXvac;
    cur ← TransactionIdIsCurrentTransactionId xvac;
    if cur : bool then Return gone else
    ip ← TransactionIdIsInProgress xvac;
    if negb ip then
      dc ← TransactionIdDidCommit xvac;
      if dc : bool then
        _ ← SetHintBits HEAP_XMIN_INVALID InvalidTransactionId;
        Return gone
      else
        _ ← SetHintBits HEAP_XMIN_COMMITTED InvalidTransactionId;
        Fall
    else Fall
  else
  in_ ← flag HEAP_MOVED_IN;
  if in_ : bool then
    xvac ← GetXvac;
    cur ← TransactionIdIsCurrentTransactionId xvac;
    if negb cur then
      ip ← TransactionIdIsInProgress xvac;
      if ip : bool then Return gone else
      dc ← TransactionIdDidCommit xvac;
      if dc : bool then
        _ ← SetHintBits HEAP_XMIN_COMMITTED InvalidTransactionId;
        Fall
      else
        _ ← SetHintBits HEAP_XMIN_INVALID InvalidTransactionId;
        Return gone
    else Fall
  else rest.

(** The block under [if (!(tuple->t_infomask & HEAP_XMIN_COMMITTED))]: [mine] is
    the branch for a tuple inserted by the current transaction, [running] the one
    for a tuple inserted by another running transaction. *)
Definition xmin_block {R} (gone : R) (mine running : cmd VState R) : cmd VState (unit + R) :=
  xc ← flag HEAP_XMIN_COMMITTED;
  if negb xc then
    xi ← flag HEAP_XMIN_INVALID;
    if xi : bool then Return gone else
    moved_block gone (
      xmin ← GetXmin;
      cur ← TransactionIdIsCurrentTransactionId xmin;
      if cur : bool then (r ← mine; Return r) else
      ip ← TransactionIdIsInProgress xmin;
      if ip : bool then (r ← running; Return r) else
      dc ← TransactionIdDidCommit xmin;
      if dc : bool then
        _ ← SetHintBits HEAP_XMIN_COMMITTED xmin;
        Fall
      else
        _ ← SetHintBits HEAP_XMIN_INVALID InvalidTransactionId;
        Return gone)
  else Fall.

(** The branch for a tuple inserted by the current transaction, after the test of
    its command id: [visible] if it has not been deleted, [deleted] if the current
    transaction has deleted it. *)
Definition mine_block {R} (visible : R) (deleted : cmd VState R) : cmd VState R :=
  xi ← flag HEAP_XMAX_INVALID;
  if xi : bool then mret visible else
  lk ← flag HEAP_IS_LOCKED;
  if lk : bool then mret visible else
  mu ← flag HEAP_XMAX_IS_MULTI;
  _ ← Assert (negb mu);
  xmax ← GetXmax;
  cur ← TransactionIdIsCurrentTransactionId xmax;
  if negb cur then
    _ ← SetHintBits HEAP_XMAX_INVALID InvalidTransactionId;
    mret visible
  else deleted.

(** The tests of the deleting transaction, once the inserting one has committed. *)
Definition xmax_block {R} (visible gone : R) (multi mine running : cmd VState R) : cmd VState R :=
  xi ← flag HEAP_XMAX_INVALID;
  if xi : bool then mret visible else
  xc ← flag HEAP_XMAX_COMMITTED;
  if xc : bool then
    lk ← flag HEAP_IS_LOCKED;
    if lk : bool then mret visible else mret gone
  else
  mu ← flag HEAP_XMAX_IS_MULTI;
  if mu : bool then
    lk ← flag HEAP_IS_LOCKED;
    _ ← Assert lk;
    multi
  else
  xmax ← GetXmax;
  cur ← TransactionIdIsCurrentTransactionId xmax;
  if cur : bool then
    lk ← flag HEAP_IS_LOCKED;
    if lk : bool then mret visible else mine
  else
  ip ← TransactionIdIsInProgress xmax;
  if ip : bool then running else
  dc ← TransactionIdDidCommit xmax;
  if negb dc then
    _ ← SetHintBits HEAP_XMAX_INVALID InvalidTransactionId;
    mret visible
  else
  lk ← flag HEAP_IS_LOCKED;
  if lk : bool then
    _ ← SetHintBits HEAP_XMAX_INVALID InvalidTransactionId;
    mret visible
  else
  _ ← SetHintBits HEAP_XMAX_COMMITTED xmax;
  mret gone.

(** ** The routines *)

Definition HeapTupleSatisfiesSelf : cmd VState bool :=
  and_then (xmin_block false (mine_block true (mret false)) (mret false))
  (xmax_block true false (mret true) (mret false) (mret true)).

Definition deleted_before_now : cmd VState bool :=
  cmax ← GetCmax;
  cid ← GetCurrentCommandId;
  mret (cmax >=? cid).

Definition HeapTupleSatisfiesNow : cmd VState bool :=
  and_then
    (xmin_block false
       (cmin ← GetCmin;
        cid ← GetCurrentCommandId;
        if cmin >=? cid then mret false else
        mine_block true deleted_before_now)
       (mret false))
    (xmax_block true false (mret true) deleted_before_now (mret true)).

Definition HeapTupleSatisfiesAny : cmd VState bool := mret true.

Definition HeapTupleSatisfiesToast : cmd VState bool :=
  and_then
    (xc ← flag HEAP_XMIN_COMMITTED;
     if negb xc then
       xi ← flag HEAP_XMIN_INVALID;
       if xi : bool then Return false else moved_block false Fall
     else Fall)
    (mret true).

Definition updated_by_self (curcid : CommandId) : cmd VState HTSU_Result :=
  cmax ← GetCmax;
  if cmax >=? curcid then mret HeapTupleSelfUpdated else mret HeapTupleInvisible.

Definition HeapTupleSatisfiesUpdate (curcid : CommandId) : cmd VState HTSU_Result :=
  and_then
    (xmin_block HeapTupleInvisible
       (cmin ← GetCmin;
        if cmin >=? curcid then mret HeapTupleInvisible else
        mine_block HeapTupleMayBeUpdated (updated_by_self curcid))
       (mret HeapTupleInvisible))
    (xmax_block HeapTupleMayBeUpdated HeapTupleUpdated
       (xmax ← GetXmax;
        run ← MultiXactIdIsRunning xmax;
        if run : bool then mret HeapTupleBeingUpdated else
        _ ← SetHintBits HEAP_XMAX_INVALID InvalidTransactionId;
        mret HeapTupleMayBeUpdated)
       (updated_by_self curcid)
       (mret HeapTupleBeingUpdated)).

Definition HeapTupleSatisfiesDirty : cmd VState bool :=
  _ ← set_snap_xmax InvalidTransactionId;
  _ ← set_snap_xmin InvalidTransactionId;
  and_then
    (xmin_block false (mine_block true (mret false))
       (xmin ← GetXmin;
        _ ← set_snap_xmin xmin;
        mret true))
    (xmax_block true false (mret true) (mret false)
       (xmax ← GetXmax;
        _ ← set_snap_xmax xmax;
        mret true)).

(** *** Snapshots *)

Definition scan_xids (xid : TransactionId) (n : Z) (xs : list TransactionId)
    : cmd VState (unit + bool) :=
  lift (for_range 0 n (λ i _, x ← arr_get xs i;
                              Ret (if TransactionIdEquals xid x then inr true else inl tt)) tt).

Definition XidInMVCCSnapshot (xid : TransactionId) : cmd VState bool :=
  sn ← get_snapshot;
  if TransactionIdPrecedes xid (snap_xmin sn) then mret false else
  if TransactionIdFollowsOrEquals xid (snap_xmax sn) then mret true else
  if negb (takenDuringRecovery sn) then
    if negb (suboverflowed sn) then
      and_then (scan_xids xid (subxcnt sn) (subxip sn))
      (and_then (scan_xids xid (xcnt sn) (xip sn)) (mret false))
    else
      xid ← SubTransGetTopmostTransaction xid;
      if TransactionIdPrecedes xid (snap_xmin sn) then mret false else
      and_then (scan_xids xid (xcnt sn) (xip sn)) (mret false)
  else
    if suboverflowed sn then
      xid ← SubTransGetTopmostTransaction xid;
      if TransactionIdPrecedes xid (snap_xmin sn) then mret false else
      and_then (scan_xids xid (subxcnt sn) (subxip sn)) (mret false)
    else and_then (scan_xids xid (subxcnt sn) (subxip sn)) (mret false).

Definition deleted_before_snapshot : cmd VState bool :=
  cmax ← GetCmax;
  sn ← get_snapshot;
  mret (cmax >=? snap_curcid sn).

Definition HeapTupleSatisfiesMVCC : cmd VState bool :=
  and_then
    (xmin_block false
       (cmin ← GetCmin;
        sn ← get_snapshot;
        if cmin >=? snap_curcid sn then mret false else
        mine_block true deleted_before_snapshot)
       (mret false))
  (xmin ← GetXmin;
   insnap ← XidInMVCCSnapshot xmin;
   if insnap : bool then mret false else
   xi ← flag HEAP_XMAX_INVALID;
   if xi : bool then mret true else
   lk ← flag HEAP_IS_LOCKED;
   if lk : bool then mret true else
   mu ← flag HEAP_XMAX_IS_MULTI;
   if mu : bool then (_ ← Assert lk; mret true) else
   xc ← flag HEAP_XMAX_COMMITTED;
   and_then
     (if negb xc then
        xmax ← GetXmax;
        cur ← TransactionIdIsCurrentTransactionId xmax;
        if cur : bool then (r ← deleted_before_snapshot; Return r) else
        ip ← TransactionIdIsInProgress xmax;
        if ip : bool then Return true else
        dc ← TransactionIdDidCommit xmax;
        if negb dc then
          _ ← SetHintBits HEAP_XMAX_INVALID InvalidTransactionId;
          Return true
        else
        _ ← SetHintBits HEAP_XMAX_COMMITTED xmax;
        Fall
      else Fall)
     (xmax ← GetXmax;
      insnap ← XidInMVCCSnapshot xmax;
      if insnap : bool then mret true else mret false)).

(** *** Vacuum *)

Definition vacuum_xmin_block : cmd VState (unit + HTSV_Result) :=
  xc ← flag HEAP_XMIN_COMMITTED;
  if negb xc then
    xi ← flag HEAP_XMIN_INVALID;
    if xi : bool then Return HEAPTUPLE_DEAD else
    off ← flag HEAP_MOVED_OFF;
    if off : bool then
      xvac ← GetXvac;
      cur ← TransactionIdIsCurrentTransactionId xvac;
      if cur : bool then Return HEAPTUPLE_DELETE_IN_PROGRESS else
      ip ← TransactionIdIsInProgress xvac;
      if ip : bool then Return HEAPTUPLE_DELETE_IN_PROGRESS else
      dc ← TransactionIdDidCommit xvac;
      if dc : bool then
        _ ← SetHintBits HEAP_XMIN_INVALID InvalidTransactionId;
        Return HEAPTUPLE_DEAD
      else
      _ ← SetHintBits HEAP_XMIN_COMMITTED InvalidTransactionId;
      Fall
    else
    in_ ← flag HEAP_MOVED_IN;
    if in_ : bool then
      xvac ← GetXvac;
      cur ← TransactionIdIsCurrentTransactionId xvac;
      if cur : bool then Return HEAPTUPLE_INSERT_IN_PROGRESS else
      ip ← TransactionIdIsInProgress xvac;
      if ip : bool then Return HEAPTUPLE_INSERT_IN_PROGRESS else
      dc ← TransactionIdDidCommit xvac;
      if dc : bool then
        _ ← SetHintBits HEAP_XMIN_COMMITTED InvalidTransactionId;
        Fall
      else
        _ ← SetHintBits HEAP_XMIN_INVALID InvalidTransactionId;
        Return HEAPTUPLE_DEAD
    else
    xmin ← GetXmin;
    ip ← TransactionIdIsInProgress xmin;
    if ip : bool then
      xi ← flag HEAP_XMAX_INVALID;
      if xi : bool then Return HEAPTUPLE_INSERT_IN_PROGRESS else
      lk ← flag HEAP_IS_LOCKED;
      if lk : bool then Return HEAPTUPLE_INSERT_IN_PROGRESS else
      Return HEAPTUPLE_DELETE_IN_PROGRESS
    else
    dc ← TransactionIdDidCommit xmin;
    if dc : bool then
      _ ← SetHintBits HEAP_XMIN_COMMITTED xmin;
      Fall
    else
      _ ← SetHintBits HEAP_XMIN_INVALID InvalidTransactionId;
      Return HEAPTUPLE_DEAD
  else Fall.

(** A tuple that its [xmax] has only locked. *)
Definition vacuum_locked_block : cmd VState HTSV_Result :=
  xc ← flag HEAP_XMAX_COMMITTED;
  if negb xc then
    mu ← flag HEAP_XMAX_IS_MULTI;
    xmax ← GetXmax;
    run ← (if mu : bool then MultiXactIdIsRunning xmax else TransactionIdIsInProgress xmax);
    if run : bool then mret HEAPTUPLE_LIVE else
    _ ← SetHintBits HEAP_XMAX_INVALID InvalidTransactionId;
    mret HEAPTUPLE_LIVE
  else mret HEAPTUPLE_LIVE.

Definition HeapTupleSatisfiesVacuum (OldestXmin : TransactionId) : cmd VState HTSV_Result :=
  and_then vacuum_xmin_block
  (xi ← flag HEAP_XMAX_INVALID;
   if xi : bool then mret HEAPTUPLE_LIVE else
   lk ← flag HEAP_IS_LOCKED;
   if lk : bool then vacuum_locked_block else
   mu ← flag HEAP_XMAX_IS_MULTI;
   if mu : bool then (_ ← Assert lk; mret HEAPTUPLE_LIVE) else
   xc ← flag HEAP_XMAX_COMMITTED;
   and_then
     (if negb xc then
        xmax ← GetXmax;
        ip ← TransactionIdIsInProgress xmax;
        if ip : bool then Return HEAPTUPLE_DELETE_IN_PROGRESS else
        dc ← TransactionIdDidCommit xmax;
        if dc : bool then
          _ ← SetHintBits HEAP_XMAX_COMMITTED xmax;
          Fall
        else
          _ ← SetHintBits HEAP_XMAX_INVALID InvalidTransactionId;
          Return HEAPTUPLE_LIVE
      else Fall)
     (xmax ← GetXmax;
      if negb (TransactionIdPrecedes xmax OldestXmin) then mret HEAPTUPLE_RECENTLY_DEAD
      else mret HEAPTUPLE_DEAD)).

End tqual.

(** ** The interface of the transaction system *)

(** The history covers a stretch of one command of one backend, which neither
    starts nor ends a (sub)transaction of its own meanwhile.  [started t xid] says
    that the id has been assigned by time [t]. *)
Class XactHistory (W : nat → XactEnv) := {
  started : nat → TransactionId → bool;
  h_current t x : env_IsCurrent (W t) x = env_IsCurrent (W 0%nat) x;
  h_command t : env_CommandId (W t) = env_CommandId (W 0%nat);
  h_combo t : env_Combo (W t) = env_Combo (W 0%nat);
  h_topmost t x : env_Topmost (W t) x = env_Topmost (W 0%nat) x;
  h_current_running t x : env_IsCurrent (W t) x = true → env_IsInProgress (W t) x = true;
  h_started t t' x : (t ≤ t')%nat → started t x = true → started t' x = true;
  h_unstarted t x : started t x = false →
    env_IsInProgress (W t) x = false ∧ env_DidCommit (W t) x = false;
  h_done t t' x : (t ≤ t')%nat → started t x = true → env_IsInProgress (W t) x = false →
    env_IsInProgress (W t') x = false ∧ env_DidCommit (W t') x = env_DidCommit (W t) x;
  h_multi t t' m : (t ≤ t')%nat → env_MultiIsRunning (W t) m = false →
    env_MultiIsRunning (W t') m = false
}.

(** ** Specification: the state of a tuple, hint bits apart *)

Inductive xstate := Mine | Running | Committed | Aborted.
#[global] Instance xstate_eq_dec : EqDecision xstate.
Proof. solve_decision. Defined.

(** The state of a transaction: [Aborted] includes crashed. *)
Definition xid_state (e : XactEnv) (x : TransactionId) : xstate :=
  if env_IsCurrent e x then Mine
  else if env_IsInProgress e x then Running
  else if env_DidCommit e x then Committed else Aborted.

Definition is_set (h : HeapTupleHeader) (mask : Z) : bool := has (t_infomask h) mask.

(** The insertion of the tuple; a tuple moved by an old VACUUM FULL is there or
    not according to the state of that command. *)
Definition ins (e : XactEnv) (h : HeapTupleHeader) : xstate :=
  if is_set h HEAP_MOVED_OFF then
    match xid_state e (HeapTupleHeaderGetXvac h) with
    | Mine | Committed => Aborted | Running | Aborted => Committed end
  else if is_set h HEAP_MOVED_IN then
    match xid_state e (HeapTupleHeaderGetXvac h) with
    | Mine | Committed => Committed | Running | Aborted => Aborted end
  else xid_state e (t_xmin h).

(** The deletion: none, only a lock of a running transaction, or a deletion by the
    current, a running or a committed transaction. *)
Inductive dstate := DNone | DLock | DMine | DRunning | DGone.
Definition del (e : XactEnv) (h : HeapTupleHeader) : dstate :=
  if is_set h HEAP_XMAX_IS_MULTI then
    if env_MultiIsRunning e (t_xmax h) then DLock else DNone
  else match xid_state e (t_xmax h) with
       | Mine => if is_set h HEAP_IS_LOCKED then DNone else DMine
       | Running => if is_set h HEAP_IS_LOCKED then DLock else DRunning
       | Committed => if is_set h HEAP_IS_LOCKED then DNone else DGone
       | Aborted => DNone
       end.

(** The command ids of a tuple of the current transaction. *)
Definition cmin_of (e : XactEnv) (h : HeapTupleHeader) : CommandId :=
  match HeapTupleHeaderGetCmin (env_IsCurrent e) (env_Combo e) h with Ret c => c | _ => 0 end.
Definition cmax_of (e : XactEnv) (h : HeapTupleHeader) : CommandId :=
  match HeapTupleHeaderGetCmax (env_IsCurrent e) (env_Combo e) h with Ret c => c | _ => 0 end.

(** The conditions that the comments of the routines state; [e1] and [e2] are the
    states of the system in which the inserting and the deleting transaction are
    looked at. *)
Definition self_spec (e1 e2 : XactEnv) (h : HeapTupleHeader) : bool :=
  match ins e1 h with
  | Mine => match del e2 h with DMine => false | _ => true end
  | Committed => match del e2 h with DMine | DGone => false | _ => true end
  | Running | Aborted => false
  end.

Definition now_spec (e1 e2 : XactEnv) (curcid : CommandId) (h : HeapTupleHeader) : bool :=
  match ins e1 h with
  | Mine => (cmin_of e1 h <? curcid) &&
      match del e2 h with DMine => curcid <=? cmax_of e2 h | _ => true end
  | Committed =>
      match del e2 h with DMine => curcid <=? cmax_of e2 h | DGone => false | _ => true end
  | Running | Aborted => false
  end.

Definition update_spec (e1 e2 : XactEnv) (curcid : CommandId) (h : HeapTupleHeader) : HTSU_Result :=
  match ins e1 h with
  | Mine =>
      if curcid <=? cmin_of e1 h then HeapTupleInvisible else
      match del e2 h with
      | DMine => if curcid <=? cmax_of e2 h then HeapTupleSelfUpdated else HeapTupleInvisible
      | _ => HeapTupleMayBeUpdated
      end
  | Committed =>
      match del e2 h with
      | DNone => HeapTupleMayBeUpdated
      | DLock | DRunning => HeapTupleBeingUpdated
      | DMine => if curcid <=? cmax_of e2 h then HeapTupleSelfUpdated else HeapTupleInvisible
      | DGone => HeapTupleUpdated
      end
  | Running | Aborted => HeapTupleInvisible
  end.

(** The set of transactions that a snapshot treats as in progress. *)
Definition in_snapshot (e : XactEnv) (sn : SnapshotData) (x : TransactionId) : bool :=
  if TransactionIdPrecedes x (snap_xmin sn) then false
  else if TransactionIdFollowsOrEquals x (snap_xmax sn) then true
  else
    let xip' := take (Z.to_nat (xcnt sn)) (xip sn) in
    let subxip' := take (Z.to_nat (subxcnt sn)) (subxip sn) in
    let x' := if suboverflowed sn then env_Topmost e x else x in
    if suboverflowed sn && TransactionIdPrecedes x' (snap_xmin sn) then false
    else if takenDuringRecovery sn then bool_decide (x' ∈ subxip')
    else if suboverflowed sn then bool_decide (x' ∈ xip')
    else bool_decide (x ∈ subxip') || bool_decide (x ∈ xip').

Definition mvcc_spec2 (e1 e2 : XactEnv) (sn : SnapshotData) (h : HeapTupleHeader) : bool :=
  match ins e1 h with
  | Mine => (cmin_of e1 h <? snap_curcid sn) &&
      match del e2 h with DMine => snap_curcid sn <=? cmax_of e2 h | _ => true end
  | Committed =>
      negb (in_snapshot e1 sn (t_xmin h)) &&
      match del e2 h with
      | DMine => snap_curcid sn <=? cmax_of e2 h
      | DGone => in_snapshot e2 sn (t_xmax h)
      | _ => true
      end
  | Running | Aborted => false
  end.
Definition mvcc_spec (e : XactEnv) (sn : SnapshotData) (h : HeapTupleHeader) : bool :=
  mvcc_spec2 e e sn h.

(** What VACUUM may do with a tuple. *)
Definition vacuum_del_spec (e : XactEnv) (OldestXmin : TransactionId) (h : HeapTupleHeader) : HTSV_Result :=
  match del e h with
  | DNone | DLock => HEAPTUPLE_LIVE
  | DMine | DRunning => HEAPTUPLE_DELETE_IN_PROGRESS
  | DGone => if TransactionIdPrecedes (t_xmax h) OldestXmin then HEAPTUPLE_DEAD
             else HEAPTUPLE_RECENTLY_DEAD
  end.
(** The verdict on the insertion, [None] if it has committed. *)
Definition vacuum_ins_spec (e : XactEnv) (h : HeapTupleHeader) : option HTSV_Result :=
  if is_set h HEAP_MOVED_OFF then
    match xid_state e (HeapTupleHeaderGetXvac h) with
    | Mine | Running => Some HEAPTUPLE_DELETE_IN_PROGRESS
    | Committed => Some HEAPTUPLE_DEAD
    | Aborted => None
    end
  else if is_set h HEAP_MOVED_IN then
    match xid_state e (HeapTupleHeaderGetXvac h) with
    | Mine | Running => Some HEAPTUPLE_INSERT_IN_PROGRESS
    | Committed => None
    | Aborted => Some HEAPTUPLE_DEAD
    end
  else
    match xid_state e (t_xmin h) with
    | Mine | Running => Some (if is_set h HEAP_XMAX_INVALID || is_set h HEAP_IS_LOCKED
                              then HEAPTUPLE_INSERT_IN_PROGRESS else HEAPTUPLE_DELETE_IN_PROGRESS)
    | Committed => None
    | Aborted => Some HEAPTUPLE_DEAD
    end.
Definition vacuum_spec (e1 e2 : XactEnv) (OldestXmin : TransactionId) (h : HeapTupleHeader) : HTSV_Result :=
  match vacuum_ins_spec e1 h with
  | Some r => r
  | None => vacuum_del_spec e2 OldestXmin h
  end.

(** ** Sound hint bits *)

Section proofs.
Context (W : nat → XactEnv) `{HW : !XactHistory W}.

(** The commit of [x] was known and its commit record on disk at some moment. *)
Definition flushed_by (t : nat) (x : TransactionId) : Prop :=
  ∃ t0 t1, (t0 ≤ t1 ≤ t)%nat ∧ env_DidCommit (W t0) x = true ∧
           env_NeedsFlush (W t1) (env_CommitLSN (W t0) x) = false.

Definition just_xmin_c (t : nat) (h : HeapTupleHeader) : Prop :=
  if is_set h HEAP_MOVED_OFF then xid_state (W t) (HeapTupleHeaderGetXvac h) = Aborted
  else if is_set h HEAP_MOVED_IN then xid_state (W t) (HeapTupleHeaderGetXvac h) = Committed
  else xid_state (W t) (t_xmin h) = Committed ∧
       (TransactionIdIsValid (t_xmin h) = true → flushed_by t (t_xmin h)).
Definition just_xmin_i (t : nat) (h : HeapTupleHeader) : Prop :=
  if is_set h HEAP_MOVED_OFF then xid_state (W t) (HeapTupleHeaderGetXvac h) = Committed
  else if is_set h HEAP_MOVED_IN then xid_state (W t) (HeapTupleHeaderGetXvac h) = Aborted
  else xid_state (W t) (t_xmin h) = Aborted.
Definition just_xmax_c (t : nat) (h : HeapTupleHeader) : Prop :=
  if is_set h HEAP_XMAX_IS_MULTI then env_MultiIsRunning (W t) (t_xmax h) = false
  else xid_state (W t) (t_xmax h) = Committed ∧
       (is_set h HEAP_IS_LOCKED = false → TransactionIdIsValid (t_xmax h) = true →
        flushed_by t (t_xmax h)).
Definition just_xmax_i (t : nat) (h : HeapTupleHeader) : Prop :=
  del (W t) h = DNone ∧
  (is_set h HEAP_XMAX_IS_MULTI = false → xid_state (W t) (t_xmax h) ≠ Mine).

(** Every hint bit that is set is justified: an aborted-hint by an abort, a
    committed-hint by a commit whose record has reached the disk. *)
Record sound (t : nat) (h : HeapTupleHeader) : Prop := {
  snd_xmin_c : is_set h HEAP_XMIN_COMMITTED = true → just_xmin_c t h;
  snd_xmin_i : is_set h HEAP_XMIN_INVALID = true → just_xmin_i t h;
  snd_xmax_c : is_set h HEAP_XMAX_COMMITTED = true → just_xmax_c t h;
  snd_xmax_i : is_set h HEAP_XMAX_INVALID = true → just_xmax_i t h
}.

(** The tuple is well formed for this backend: its transactions have started; a
    multixact only locks; a row this transaction has inserted has not been deleted
    by another one that is not an aborted subtransaction; command ids can be read
    where the routines read them. *)
Record wf_tuple (t : nat) (h : HeapTupleHeader) : Prop := {
  wf_xmin : started t (t_xmin h) = true;
  wf_xmax : started t (t_xmax h) = true;
  wf_xvac : is_set h HEAP_MOVED = true → started t (HeapTupleHeaderGetXvac h) = true;
  wf_multi : is_set h HEAP_XMAX_IS_MULTI = true → is_set h HEAP_IS_LOCKED = true;
  wf_own t' : (t ≤ t')%nat → env_IsCurrent (W 0%nat) (t_xmin h) = true →
    is_set h HEAP_IS_LOCKED = false → is_set h HEAP_MOVED = false →
    xid_state (W t') (t_xmax h) = Mine ∨ xid_state (W t') (t_xmax h) = Aborted;
  wf_cmin : env_IsCurrent (W 0%nat) (t_xmin h) = true → is_set h HEAP_MOVED = false →
    ∃ c, HeapTupleHeaderGetCmin (env_IsCurrent (W 0%nat)) (env_Combo (W 0%nat)) h = Ret c;
  wf_cmax : env_IsCurrent (W 0%nat) (t_xmax h) = true → is_set h HEAP_IS_LOCKED = false →
    ∃ c, HeapTupleHeaderGetCmax (env_IsCurrent (W 0%nat)) (env_Combo (W 0%nat)) h = Ret c
}.

(** [h'] is [h] with more hint bits. *)
Definition HINT_BITS : Z := 0x0F00.
Definition hint_ext (h h' : HeapTupleHeader) : Prop :=
  t_xmin h' = t_xmin h ∧ t_xmax h' = t_xmax h ∧ t_field3 h' = t_field3 h ∧
  (∀ b, Z.land b HINT_BITS = 0 → is_set h' b = is_set h b) ∧
  (∀ b, is_set h b = true → is_set h' b = true).

#[global] Instance hint_ext_preorder : PreOrder hint_ext.
Proof.
  split; [done|]. intros a b c (A1 & A2 & A3 & A4 & A5) (B1 & B2 & B3 & B4 & B5).
  unfold hint_ext. split_and!; try congruence; [|auto].
  intros m Hm. rewrite B4, A4; done.
Qed.

(** What does not depend on the hint bits. *)
Lemma hint_ext_bits h h' :
  hint_ext h h' →
  is_set h' HEAP_MOVED_OFF = is_set h HEAP_MOVED_OFF ∧
  is_set h' HEAP_MOVED_IN = is_set h HEAP_MOVED_IN ∧
  is_set h' HEAP_MOVED = is_set h HEAP_MOVED ∧
  is_set h' HEAP_XMAX_IS_MULTI = is_set h HEAP_XMAX_IS_MULTI ∧
  is_set h' HEAP_IS_LOCKED = is_set h HEAP_IS_LOCKED ∧
  is_set h' HEAP_COMBOCID = is_set h HEAP_COMBOCID ∧
  is_set h' (Z.lor HEAP_MOVED HEAP_IS_LOCKED) = is_set h (Z.lor HEAP_MOVED HEAP_IS_LOCKED) ∧
  HeapTupleHeaderGetXvac h' = HeapTupleHeaderGetXvac h.
Proof.
  intros (H1 & H2 & H3 & Hb & _). split_and!; try by apply Hb.
  unfold HeapTupleHeaderGetXvac. fold (is_set h' HEAP_MOVED) (is_set h HEAP_MOVED).
  by rewrite Hb, H3.
Qed.

Ltac ext_rewrite H :=
  let E1 := fresh "E1" in let E2 := fresh "E2" in let E3 := fresh "E3" in let E4 := fresh "E4" in
  let E5 := fresh "E5" in let E6 := fresh "E6" in let E7 := fresh "E7" in let E8 := fresh "E8" in
  let X1 := fresh "X1" in let X2 := fresh "X2" in let X3 := fresh "X3" in
  pose proof (hint_ext_bits _ _ H) as (E1 & E2 & E3 & E4 & E5 & E6 & E7 & E8);
  destruct H as (X1 & X2 & X3 & _ & _);
  unfold is_set in E1, E2, E3, E4, E5, E6, E7; unfold is_set;
  rewrite ?E1, ?E2, ?E3, ?E4, ?E5, ?E6, ?E7, ?E8, ?X1, ?X2, ?X3.

Lemma ins_ext e h h' : hint_ext h h' → ins e h' = ins e h.
Proof. intros H. unfold ins. ext_rewrite H. done. Qed.
Lemma del_ext e h h' : hint_ext h h' → del e h' = del e h.
Proof. intros H. unfold del. ext_rewrite H. done. Qed.
Lemma GetCmin_ext cur s h h' :
  hint_ext h h' → HeapTupleHeaderGetCmin cur s h' = HeapTupleHeaderGetCmin cur s h.
Proof.
  intros H. unfold HeapTupleHeaderGetCmin, HeapTupleHeaderGetRawCommandId. ext_rewrite H. done.
Qed.
Lemma GetCmax_ext cur s h h' :
  hint_ext h h' → HeapTupleHeaderGetCmax cur s h' = HeapTupleHeaderGetCmax cur s h.
Proof.
  intros H. unfold HeapTupleHeaderGetCmax, HeapTupleHeaderGetRawCommandId. ext_rewrite H. done.
Qed.

Lemma wf_ext t t' h h' : hint_ext h h' → (t ≤ t')%nat → wf_tuple t h → wf_tuple t' h'.
Proof using HW.
  intros H Ht [H1 H2 H3 H4 H5 H6 H7].
  pose proof (λ cur s, GetCmin_ext cur s _ _ H) as Hcmin. pose proof (λ cur s, GetCmax_ext cur s _ _ H) as Hcmax.
  pose proof (hint_ext_bits _ _ H) as (E1 & E2 & E3 & E4 & E5 & E6 & E7 & E8).
  destruct H as (X1 & X2 & X3 & _ & _).
  split; rewrite ?X1, ?X2, ?X3, ?E3, ?E4, ?E5, ?E8, ?Hcmin, ?Hcmax; try done.
  - by eapply h_started.
  - by eapply h_started.
  - intros Hm. eapply h_started; [done|auto].
  - intros t'' Ht''. apply H5. lia.
Qed.

(** ** Time *)

Lemma xid_state_current t t' x : xid_state (W t) x = Mine → xid_state (W t') x = Mine.
Proof using HW.
  unfold xid_state. rewrite (@h_current W HW t), (@h_current W HW t'). by repeat case_match.
Qed.

Lemma xid_state_done t t' x st :
  (t ≤ t')%nat → started t x = true → xid_state (W t) x = st → st = Committed ∨ st = Aborted →
  xid_state (W t') x = st.
Proof using HW.
  intros Ht Hs Hst Hd. unfold xid_state in *. rewrite (@h_current W HW t), (@h_current W HW t') in *.
  destruct (env_IsCurrent _ x); [by destruct Hd; subst|].
  destruct (env_IsInProgress (W t) x) eqn:E; [by destruct Hd; subst|].
  destruct (h_done t t' x Ht Hs E) as [-> ->]. done.
Qed.

Lemma flushed_mono t t' x : (t ≤ t')%nat → flushed_by t x → flushed_by t' x.
Proof. intros Ht (t0 & t1 & ? & ? & ?). exists t0, t1. split_and!; try done; lia. Qed.

Lemma just_xmax_i_mono t t' h :
  (t ≤ t')%nat → wf_tuple t h → just_xmax_i t h → just_xmax_i t' h.
Proof using HW.
  intros Ht Hwf [Hd Hm]. unfold just_xmax_i, del in *.
  destruct (is_set h HEAP_XMAX_IS_MULTI).
  - split; [|done]. destruct (env_MultiIsRunning (W t) (t_xmax h)) eqn:E; [done|].
    by rewrite (h_multi t t' _ Ht E).
  - specialize (Hm eq_refl). pose proof (wf_xmax _ _ Hwf) as Hs.
    assert (xid_state (W t) (t_xmax h) = Committed ∨ xid_state (W t) (t_xmax h) = Aborted) as Hc
      by (destruct (xid_state (W t) (t_xmax h)), (is_set h HEAP_IS_LOCKED); auto; done).
    rewrite (xid_state_done t t' _ _ Ht Hs eq_refl Hc). done.
Qed.

Lemma moved_started t h :
  wf_tuple t h → is_set h HEAP_MOVED_OFF = true ∨ is_set h HEAP_MOVED_IN = true →
  started t (HeapTupleHeaderGetXvac h) = true.
Proof.
  intros Hwf Hm. apply (wf_xvac _ _ Hwf). unfold is_set, HEAP_MOVED in *. rewrite has_lor_r.
  destruct Hm as [-> | ->]; by rewrite ?orb_true_r.
Qed.

Lemma sound_mono t t' h : (t ≤ t')%nat → wf_tuple t h → sound t h → sound t' h.
Proof using HW.
  intros Ht Hwf [H1 H2 H3 H4].
  assert (Hv := moved_started t h Hwf). pose proof (wf_xmin _ _ Hwf). pose proof (wf_xmax _ _ Hwf).
  split.
  - intros Hb. specialize (H1 Hb). unfold just_xmin_c in *.
    destruct (is_set h HEAP_MOVED_OFF); [eapply xid_state_done; eauto|].
    destruct (is_set h HEAP_MOVED_IN); [eapply xid_state_done; eauto|].
    destruct H1 as [H1 Hf]. split; [eapply xid_state_done; eauto|eauto using flushed_mono].
  - intros Hb. specialize (H2 Hb). unfold just_xmin_i in *.
    destruct (is_set h HEAP_MOVED_OFF); [eapply xid_state_done; eauto|].
    destruct (is_set h HEAP_MOVED_IN); eapply xid_state_done; eauto.
  - intros Hb. specialize (H3 Hb). unfold just_xmax_c in *.
    destruct (is_set h HEAP_XMAX_IS_MULTI); [by eapply h_multi|].
    destruct H3 as [H3 Hf]. split; [eapply xid_state_done; eauto|eauto using flushed_mono].
  - intros Hb. eapply just_xmax_i_mono; eauto.
Qed.

(** ** Setting hint bits *)

Definition add_hint (b : Z) (h : HeapTupleHeader) : HeapTupleHeader :=
  mkTuple (t_xmin h) (t_xmax h) (t_field3 h) (Z.lor (t_infomask h) b).
Definition is_hint (b : Z) : Prop := Z.land b HINT_BITS = b.

Lemma add_hint_ext b h : is_hint b → hint_ext h (add_hint b h).
Proof using.
  clear HW W. intros Hb. split_and!; [done..| |]; intros b'; unfold is_set, add_hint; cbn [t_infomask]; rewrite has_lor.
  - intros H0. assert (has b b' = false) as ->; [|by rewrite orb_false_r].
    unfold has. rewrite <- Hb, <- Z.land_assoc, (Z.land_comm HINT_BITS), H0, Z.land_0_r. done.
  - intros ->. done.
Qed.

Lemma just_ext t h h' :
  hint_ext h h' →
  (just_xmin_c t h' ↔ just_xmin_c t h) ∧ (just_xmin_i t h' ↔ just_xmin_i t h) ∧
  (just_xmax_c t h' ↔ just_xmax_c t h) ∧ (just_xmax_i t h' ↔ just_xmax_i t h).
Proof using.
  clear HW. intros H. unfold just_xmin_c, just_xmin_i, just_xmax_c, just_xmax_i.
  rewrite (del_ext _ _ _ H). ext_rewrite H. done.
Qed.

(** Adding one hint bit keeps the header sound if the bit is justified. *)
Lemma sound_add t h b :
  sound t h → is_hint b →
  (has b HEAP_XMIN_COMMITTED = true → just_xmin_c t h) →
  (has b HEAP_XMIN_INVALID = true → just_xmin_i t h) →
  (has b HEAP_XMAX_COMMITTED = true → just_xmax_c t h) →
  (has b HEAP_XMAX_INVALID = true → just_xmax_i t h) →
  sound t (add_hint b h).
Proof using.
  clear HW. intros [S1 S2 S3 S4] Hb J1 J2 J3 J4.
  destruct (just_ext t h _ (add_hint_ext b h Hb)) as (E1 & E2 & E3 & E4).
  split; rewrite ?E1, ?E2, ?E3, ?E4; unfold is_set, add_hint; cbn [t_infomask];
    rewrite has_lor, orb_true_iff; intros [?|?]; auto.
Qed.

(** ** Running the routines

    [wp m Q s]: from [s], [m] returns, with a result and a state that satisfy
    [Q]. *)
Definition wp {A} (m : cmd VState A) (Q : A → VState → Prop) (s : VState) : Prop :=
  match m s with Ret (a, s') => Q a s' | _ => False end.

(** [s'] is reached from [s] by questions and justified hint bits. *)
Record step (s s' : VState) : Prop := {
  st_ext : hint_ext (tuple s) (tuple s');
  st_clock : (clock s ≤ clock s')%nat;
  st_snap : snapshot s' = snapshot s;
  st_sound : sound (clock s') (tuple s');
  st_wf : wf_tuple (clock s') (tuple s')
}.
Definition good (s : VState) : Prop := step s s.

Lemma good_intro s : sound (clock s) (tuple s) → wf_tuple (clock s) (tuple s) → good s.
Proof. by split. Qed.
Lemma step_good s s' : step s s' → good s'.
Proof. intros H. apply good_intro; apply H. Qed.
Lemma step_trans s1 s2 s3 : step s1 s2 → step s2 s3 → step s1 s3.
Proof using HW.
  intros [A1 A2 A3 A4 A5] [B1 B2 B3 B4 B5]. split; try done; [by etransitivity|lia|congruence].
Qed.

Definition tick (s : VState) : VState := mkV (S (clock s)) (tuple s) (needs_save s) (snapshot s).
Lemma step_tick s : good s → step s (tick s).
Proof using HW.
  intros H. pose proof (st_wf _ _ H) as Hwf.
  split; cbn; [done|lia|done|apply (sound_mono (clock s)); [lia|done|apply H]|].
  apply (wf_ext (clock s) _ (tuple s)); [done|lia|done].
Qed.
Lemma good_tick s : good s → good (tick s).
Proof using HW. intros H. eapply step_good. by apply step_tick. Qed.

Lemma wp_bind {A B} (m : cmd VState A) (f : A → cmd VState B) Q s :
  wp m (λ a, wp (f a) Q) s → wp (m ≫= f) Q s.
Proof using. clear HW. unfold wp, mbind, cmd_bind. by destruct (m s) as [[a s']| | |]. Qed.
Lemma wp_mono {A} (m : cmd VState A) (P Q : A → VState → Prop) s :
  wp m P s → (∀ a s', P a s' → Q a s') → wp m Q s.
Proof using. clear HW. unfold wp. destruct (m s) as [[a s']| | |]; auto. Qed.
Lemma wp_and_then {R} (block : cmd VState (unit + R)) rest Q s :
  wp block (λ r s', match r with inr v => Q v s' | inl _ => wp rest Q s' end) s →
  wp (and_then block rest) Q s.
Proof using.
  clear HW. intros H. apply wp_bind. eapply wp_mono; [exact H|]. by intros [[]|v].
Qed.

(** A hint bit that needs no flush. *)
Lemma wp_SetHint {B} b (f : cmd VState B) Q s :
  good s → is_hint b → sound (clock s) (add_hint b (tuple s)) →
  (∀ s', step s s' → wp f Q s') →
  wp (_ ← SetHintBits W b InvalidTransactionId; f) Q s.
Proof using HW.
  intros Hg Hb Hs H. apply (H (mkV (clock s) (add_hint b (tuple s)) true (snapshot s))).
  split; cbn; [by apply add_hint_ext|lia|done|done|].
  apply (wf_ext (clock s) _ (tuple s)); [by apply add_hint_ext|lia|apply Hg].
Qed.

(** A committed-hint for [x], known committed, is only set once the commit record
    of [x] is on disk. *)
Lemma wp_SetHint_xid {B} b x (f : cmd VState B) Q s :
  good s → is_hint b → env_DidCommit (W (clock s)) x = true →
  (∀ t, (clock s ≤ t)%nat → (TransactionIdIsValid x = true → flushed_by t x) →
        sound t (add_hint b (tuple s))) →
  (∀ s', step s s' → wp f Q s') →
  wp (_ ← SetHintBits W b x; f) Q s.
Proof using HW.
  intros Hg Hb Hdc Hs H. unfold SetHintBits. destruct (TransactionIdIsValid x) eqn:Hv.
  - unfold wp, mbind, cmd_bind. cbn.
    set (nf := env_NeedsFlush (W (S (clock s))) (env_CommitLSN (W (clock s)) x)).
    assert (Hg2 : step s (tick (tick s))) by (eapply step_trans; apply step_tick; [done|by apply good_tick]).
    destruct nf eqn:Enf; [apply (H _ Hg2)|].
    apply (H (mkV (S (S (clock s))) (add_hint b (tuple s)) true (snapshot s))).
    split; cbn; [by apply add_hint_ext|lia|done| |].
    + apply Hs; [lia|]. intros _. exists (clock s), (S (clock s)). split_and!; try done; lia.
    + apply (wf_ext (clock s) _ (tuple s)); [by apply add_hint_ext|lia|apply Hg].
  - apply (H (mkV (clock s) (add_hint b (tuple s)) true (snapshot s))).
    split; cbn; [by apply add_hint_ext|lia|done|by apply Hs|].
    apply (wf_ext (clock s) _ (tuple s)); [by apply add_hint_ext|lia|apply Hg].
Qed.

(** ** The state of a transaction from three questions in a row *)

Lemma st_mine t t' x : env_IsCurrent (W t) x = true → xid_state (W t') x = Mine.
Proof using HW.
  intros H. unfold xid_state. rewrite (@h_current W HW t') , <- (@h_current W HW t), H. done.
Qed.
Lemma st_running t t' x :
  env_IsCurrent (W t) x = false → env_IsInProgress (W t') x = true → xid_state (W t') x = Running.
Proof using HW.
  intros H Hp. unfold xid_state. rewrite (@h_current W HW t'), <- (@h_current W HW t), H, Hp. done.
Qed.
Lemma st_done t t' t'' x :
  env_IsInProgress (W t') x = false → started t' x = true →
  (t' ≤ t'')%nat → (t' ≤ t)%nat →
  xid_state (W t'') x = if env_DidCommit (W t) x then Committed else Aborted.
Proof using HW.
  intros Hp Hs Ht Ht'.
  destruct (h_done t' t x Ht' Hs Hp) as [_ ->]. destruct (h_done t' t'' x Ht Hs Hp) as [Hp'' Hd''].
  unfold xid_state. rewrite Hp'', Hd''.
  destruct (env_IsCurrent (W t'') x) eqn:E; [|done].
  apply h_current_running in E. congruence.
Qed.

Lemma wp_ask {A B} (g : XactEnv → A) (f : A → cmd VState B) Q s :
  wp (f (g (W (clock s)))) Q (tick s) → wp (ask W g ≫= f) Q s.
Proof using. done. Qed.
Lemma wp_flag {B} b (f : bool → cmd VState B) Q s :
  wp (f (is_set (tuple s) b)) Q s → wp (flag b ≫= f) Q s.
Proof using. done. Qed.
Lemma wp_get {A B} (g : VState → A) (f : A → cmd VState B) Q s :
  wp (f (g s)) Q s → wp ((λ s, Ret (g s, s)) ≫= f) Q s.
Proof using. done. Qed.

Lemma wp_iff {A} (m : cmd VState A) Q s : wp m Q s ↔ ∃ a s', m s = Ret (a, s') ∧ Q a s'.
Proof using.
  clear HW. unfold wp. destruct (m s) as [[a s']| | |]; split; try done; [eauto|by intros (?&?&[=]&?); simplify_eq|..];
    by intros (?&?&?&?).
Qed.
Lemma wp_ret {A} (a : A) (Q : A → VState → Prop) s : Q a s → wp (mret a) Q s.
Proof using. done. Qed.
#[local] Opaque wp.

(** Advances over a question, a flag test or the read of a field. *)
Ltac adv :=
  cbn beta iota;
  first [ apply wp_flag | apply wp_ask | apply (wp_get (λ s, t_xmin (tuple s)))
        | apply (wp_get (λ s, t_xmax (tuple s)))
        | apply (wp_get (λ s, HeapTupleHeaderGetXvac (tuple s)))
        | apply (wp_get snapshot) ];
  cbn beta; cbn [tuple tick clock].
(** The bit of a hint mask. *)
Ltac hint_bit := first [ reflexivity | intros H0; vm_compute in H0; discriminate H0 | intros _ ].

Lemma ins_just_c t h : just_xmin_c t h → ins (W t) h = Committed.
Proof using.
  clear HW. unfold just_xmin_c, ins. destruct (is_set h HEAP_MOVED_OFF); [by intros ->|].
  destruct (is_set h HEAP_MOVED_IN); [by intros ->|]. by intros [-> _].
Qed.
Lemma ins_just_i t h : just_xmin_i t h → ins (W t) h = Aborted.
Proof using.
  clear HW. unfold just_xmin_i, ins. destruct (is_set h HEAP_MOVED_OFF); [by intros ->|].
  destruct (is_set h HEAP_MOVED_IN); [by intros ->|]. done.
Qed.

Lemma moved_bits h :
  is_set h HEAP_MOVED = is_set h HEAP_MOVED_OFF || is_set h HEAP_MOVED_IN.
Proof. apply has_lor_r. Qed.

Lemma step_ticks s :
  good s → step s (tick s) ∧ step s (tick (tick s)) ∧ step s (tick (tick (tick s))).
Proof using HW.
  intros Hg. pose proof (step_tick _ Hg) as Hg1.
  pose proof (step_trans _ _ _ Hg1 (step_tick _ (step_good _ _ Hg1))) as Hg2.
  split_and!; [done..|]. exact (step_trans _ _ _ Hg2 (step_tick _ (step_good _ _ Hg2))).
Qed.

(** The continuation of a block after the insertion has been looked at, at time
    [t1], in state [s1]. *)
Definition moved_post {R} (gone : R) (Q : unit + R → VState → Prop) (s : VState) : Prop :=
  ∀ t1 s1, (clock s ≤ t1 ≤ clock s1)%nat → step s s1 →
    match ins (W t1) (tuple s) with
    | Committed => Q (inl tt) s1
    | Aborted => Q (inr gone) s1
    | _ => True
    end.

Lemma moved_off_wp {R} (gone : R) rest (Q : unit + R → VState → Prop) s :
  good s → is_set (tuple s) HEAP_MOVED_OFF = true → moved_post gone Q s →
  wp (moved_block W gone rest) Q s.
Proof using HW.
  intros Hg Hoff HQ. unfold moved_block. adv. rewrite Hoff. do 2 adv.
  assert (Hs : started (clock s) (HeapTupleHeaderGetXvac (tuple s)) = true)
    by (apply (moved_started _ _ (st_wf _ _ Hg)); auto).
  assert (Hins : ∀ t, ins (W t) (tuple s) = match xid_state (W t) (HeapTupleHeaderGetXvac (tuple s)) with
    | Mine | Committed => Aborted | Running | Aborted => Committed end) by (intros; unfold ins; by rewrite Hoff).
  destruct (step_ticks s Hg) as (Hg1 & Hg2 & Hg3).
  destruct (env_IsCurrent (W (clock s)) (HeapTupleHeaderGetXvac (tuple s))) eqn:Ec.
  { specialize (HQ (clock s) (tick s)). rewrite Hins, (st_mine _ _ _ Ec) in HQ.
    apply wp_ret, HQ; [cbn; lia|done]. }
  adv. destruct (env_IsInProgress (W (S (clock s))) _) eqn:Ep; cbn [negb].
  { specialize (HQ (S (clock s)) (tick (tick s))). rewrite Hins, (st_running _ _ _ Ec Ep) in HQ.
    apply wp_ret, HQ; [cbn; lia|done]. }
  adv. apply (h_started _ (S (clock s))) in Hs; [|lia].
  destruct (env_DidCommit (W (S (S (clock s)))) _) eqn:Ed.
  all: pose proof (st_done (S (S (clock s))) (S (clock s)) (S (clock s)) _ Ep Hs ltac:(lia) ltac:(lia)) as Ex.
  all: pose proof (st_done (S (S (clock s))) (S (clock s)) (S (S (S (clock s)))) _ Ep Hs ltac:(lia) ltac:(lia)) as Ex'.
  all: rewrite Ed in Ex, Ex'.
  all: apply wp_SetHint; [by eapply step_good|done| |].
  1,3: apply sound_add; [apply Hg3|done|hint_bit..]; cbn; unfold just_xmin_c, just_xmin_i; by rewrite Hoff.
  all: intros s' Hs'; specialize (HQ (S (clock s)) s'); rewrite Hins, Ex in HQ;
    apply wp_ret, HQ; [pose proof (st_clock _ _ Hs'); cbn in *; lia|by eapply step_trans].
Qed.

Lemma moved_in_wp {R} (gone : R) rest (Q : unit + R → VState → Prop) s :
  good s → is_set (tuple s) HEAP_MOVED_OFF = false → is_set (tuple s) HEAP_MOVED_IN = true →
  moved_post gone Q s → wp (moved_block W gone rest) Q s.
Proof using HW.
  intros Hg Hoff Hin HQ. unfold moved_block. adv. rewrite Hoff. adv. rewrite Hin. do 2 adv.
  assert (Hs : started (clock s) (HeapTupleHeaderGetXvac (tuple s)) = true)
    by (apply (moved_started _ _ (st_wf _ _ Hg)); auto).
  assert (Hins : ∀ t, ins (W t) (tuple s) = match xid_state (W t) (HeapTupleHeaderGetXvac (tuple s)) with
    | Mine | Committed => Committed | Running | Aborted => Aborted end)
    by (intros; unfold ins; by rewrite Hoff, Hin).
  destruct (step_ticks s Hg) as (Hg1 & Hg2 & Hg3).
  destruct (env_IsCurrent (W (clock s)) (HeapTupleHeaderGetXvac (tuple s))) eqn:Ec; cbn [negb].
  { specialize (HQ (clock s) (tick s)). rewrite Hins, (st_mine _ _ _ Ec) in HQ.
    apply wp_ret, HQ; [cbn; lia|done]. }
  adv. destruct (env_IsInProgress (W (S (clock s))) _) eqn:Ep.
  { specialize (HQ (S (clock s)) (tick (tick s))). rewrite Hins, (st_running _ _ _ Ec Ep) in HQ.
    apply wp_ret, HQ; [cbn; lia|done]. }
  adv. apply (h_started _ (S (clock s))) in Hs; [|lia].
  destruct (env_DidCommit (W (S (S (clock s)))) _) eqn:Ed.
  all: pose proof (st_done (S (S (clock s))) (S (clock s)) (S (clock s)) _ Ep Hs ltac:(lia) ltac:(lia)) as Ex.
  all: pose proof (st_done (S (S (clock s))) (S (clock s)) (S (S (S (clock s)))) _ Ep Hs ltac:(lia) ltac:(lia)) as Ex'.
  all: rewrite Ed in Ex, Ex'.
  all: apply wp_SetHint; [by eapply step_good|done| |].
  1,3: apply sound_add; [apply Hg3|done|hint_bit..]; cbn; unfold just_xmin_c, just_xmin_i; by rewrite Hoff, Hin.
  all: intros s' Hs'; specialize (HQ (S (clock s)) s'); rewrite Hins, Ex in HQ;
    apply wp_ret, HQ; [pose proof (st_clock _ _ Hs'); cbn in *; lia|by eapply step_trans].
Qed.

Lemma moved_wp {R} (gone : R) rest (Q : unit + R → VState → Prop) s :
  good s → (is_set (tuple s) HEAP_MOVED = true → moved_post gone Q s) →
  (is_set (tuple s) HEAP_MOVED_OFF = false → is_set (tuple s) HEAP_MOVED_IN = false → wp rest Q s) →
  wp (moved_block W gone rest) Q s.
Proof using HW.
  intros Hg HQ Hrest. rewrite moved_bits in HQ.
  destruct (is_set (tuple s) HEAP_MOVED_OFF) eqn:Eo; [apply moved_off_wp; auto|].
  destruct (is_set (tuple s) HEAP_MOVED_IN) eqn:Ei; [apply moved_in_wp; auto|].
  unfold moved_block. adv. rewrite Eo. adv. rewrite Ei. auto.
Qed.

(** The inserting transaction: the rest of the routine runs in a state [s1] that
    knows the state of the insertion at time [t1]. *)
Lemma xmin_block_wp {R} (gone : R) (mine running : cmd VState R) (Q : unit + R → VState → Prop) s :
  good s →
  (∀ t1 s1, (clock s ≤ t1 ≤ clock s1)%nat → step s s1 →
     match ins (W t1) (tuple s) with
     | Mine => env_IsCurrent (W 0%nat) (t_xmin (tuple s)) = true → is_set (tuple s) HEAP_MOVED = false →
               wp mine (λ r, Q (inr r)) s1
     | Running => wp running (λ r, Q (inr r)) s1
     | Committed => Q (inl tt) s1
     | Aborted => Q (inr gone) s1
     end) →
  wp (xmin_block W gone mine running) Q s.
Proof using HW.
  intros Hg HQ. unfold xmin_block. adv.
  destruct (is_set (tuple s) HEAP_XMIN_COMMITTED) eqn:Ec; cbn [negb].
  { specialize (HQ (clock s) s). rewrite (ins_just_c _ _ (snd_xmin_c _ _ (st_sound _ _ Hg) Ec)) in HQ.
    apply wp_ret, HQ; [lia|done]. }
  adv. destruct (is_set (tuple s) HEAP_XMIN_INVALID) eqn:Ei.
  { specialize (HQ (clock s) s). rewrite (ins_just_i _ _ (snd_xmin_i _ _ (st_sound _ _ Hg) Ei)) in HQ.
    apply wp_ret, HQ; [lia|done]. }
  apply moved_wp; [done| |].
  { intros Hm t1 s1 Ht Hs1. specialize (HQ t1 s1 Ht Hs1).
    by destruct (ins (W t1) (tuple s)). }
  intros Hoff Hin. do 2 adv.
  assert (Hins : ∀ t, ins (W t) (tuple s) = xid_state (W t) (t_xmin (tuple s)))
    by (intros; unfold ins; by rewrite Hoff, Hin).
  pose proof (wf_xmin _ _ (st_wf _ _ Hg)) as Hs.
  destruct (step_ticks s Hg) as (Hg1 & Hg2 & Hg3).
  destruct (env_IsCurrent (W (clock s)) (t_xmin (tuple s))) eqn:Ecur.
  { specialize (HQ (clock s) (tick s)). rewrite Hins, (st_mine _ _ _ Ecur) in HQ.
    apply wp_bind. eapply wp_mono.
    - apply HQ; [cbn; lia|done|by rewrite <- Ecur, (@h_current W HW (clock s))|].
      by rewrite moved_bits, Hoff, Hin.
    - intros r s' Hr. by apply wp_ret. }
  adv. destruct (env_IsInProgress (W (S (clock s))) _) eqn:Ep.
  { specialize (HQ (S (clock s)) (tick (tick s))). rewrite Hins, (st_running _ _ _ Ecur Ep) in HQ.
    apply wp_bind. eapply wp_mono; [apply HQ; [cbn; lia|done]|]. intros r s' Hr. by apply wp_ret. }
  adv. apply (h_started _ (S (clock s))) in Hs; [|lia].
  destruct (env_DidCommit (W (S (S (clock s)))) _) eqn:Ed.
  all: pose proof (λ t'' H, st_done (S (S (clock s))) (S (clock s)) t'' _ Ep Hs H ltac:(lia)) as Ex.
  all: rewrite Ed in Ex.
  - apply wp_SetHint_xid; [by eapply step_good|done| | |].
    + cbn. destruct (h_done (S (clock s)) (S (S (S (clock s)))) _ ltac:(lia) Hs Ep) as [_ ->].
      by destruct (h_done (S (clock s)) (S (S (clock s))) _ ltac:(lia) Hs Ep) as [_ <-].
    + cbn. intros t Ht Hf. apply sound_add; [|done|hint_bit..].
      * apply (sound_mono (clock (tick (tick (tick s))))); [done|apply Hg3..].
      * unfold just_xmin_c. rewrite Hoff, Hin. split; [apply Ex; lia|done].
    + intros s' Hs'; specialize (HQ (S (clock s)) s'); rewrite Hins, Ex in HQ by lia;
        apply wp_ret, HQ; [pose proof (st_clock _ _ Hs'); cbn in *; lia|by eapply step_trans].
  - apply wp_SetHint; [by eapply step_good|done| |].
    + apply sound_add; [apply Hg3|done|hint_bit..]; cbn; unfold just_xmin_i; rewrite Hoff, Hin. apply Ex. lia.
    + intros s' Hs'; specialize (HQ (S (clock s)) s'); rewrite Hins, Ex in HQ by lia;
        apply wp_ret, HQ; [pose proof (st_clock _ _ Hs'); cbn in *; lia|by eapply step_trans].
Qed.

(** ** The deleting transaction *)

Lemma del_locked e h :
  is_set h HEAP_IS_LOCKED = true → del e h = DNone ∨ del e h = DLock.
Proof using.
  clear HW W. intros H. unfold del. rewrite H. repeat case_match; auto.
Qed.

Lemma not_multi t h :
  wf_tuple t h → is_set h HEAP_IS_LOCKED = false → is_set h HEAP_XMAX_IS_MULTI = false.
Proof. intros Hwf Hl. destruct (is_set h HEAP_XMAX_IS_MULTI) eqn:E; [|done]. apply Hwf in E. congruence. Qed.

Lemma del_unlocked e t h :
  wf_tuple t h → is_set h HEAP_IS_LOCKED = false →
  del e h = match xid_state e (t_xmax h) with
            | Mine => DMine | Running => DRunning | Committed => DGone | Aborted => DNone end.
Proof.
  intros Hwf Hl. unfold del. rewrite (not_multi _ _ Hwf Hl), Hl. done.
Qed.

Lemma mine_block_wp {R} (visible : R) (deleted : cmd VState R) Q s :
  good s → env_IsCurrent (W 0%nat) (t_xmin (tuple s)) = true → is_set (tuple s) HEAP_MOVED = false →
  (∀ t2 s2, (clock s ≤ t2 ≤ clock s2)%nat → step s s2 →
     match del (W t2) (tuple s) with
     | DMine => env_IsCurrent (W 0%nat) (t_xmax (tuple s)) = true →
                is_set (tuple s) HEAP_IS_LOCKED = false → wp deleted Q s2
     | DNone | DLock => Q visible s2
     | DRunning | DGone => True
     end) →
  wp (mine_block W visible deleted) Q s.
Proof using HW.
  intros Hg Hcur Hmv HQ. pose proof (st_wf _ _ Hg) as Hwf. unfold mine_block. adv.
  destruct (is_set (tuple s) HEAP_XMAX_INVALID) eqn:Exi.
  { specialize (HQ (clock s) s). destruct (snd_xmax_i _ _ (st_sound _ _ Hg) Exi) as [Hd _].
    rewrite Hd in HQ. apply wp_ret, HQ; [lia|done]. }
  adv. destruct (is_set (tuple s) HEAP_IS_LOCKED) eqn:El.
  { specialize (HQ (clock s) s). apply wp_ret.
    destruct (del_locked (W (clock s)) _ El) as [Hd|Hd]; rewrite Hd in HQ; apply HQ; [lia|done|lia|done]. }
  adv. rewrite (not_multi _ _ Hwf El). cbn [negb Assert]. apply wp_bind, wp_ret. do 2 adv.
  pose proof (λ e, del_unlocked e _ _ Hwf El) as Hdel.
  destruct (env_IsCurrent (W (clock s)) (t_xmax (tuple s))) eqn:Ec; cbn [negb].
  { specialize (HQ (clock s) (tick s)). rewrite Hdel, (st_mine _ _ _ Ec) in HQ.
    apply HQ; [cbn; lia|by apply step_tick| |done]. by rewrite <- Ec, (@h_current W HW (clock s)). }
  assert (Hab : ∀ t, (clock s ≤ t)%nat → xid_state (W t) (t_xmax (tuple s)) = Aborted).
  { intros t Ht. destruct (wf_own _ _ Hwf t Ht Hcur El Hmv) as [Hm|]; [|done].
    apply (xid_state_current _ (clock s)) in Hm. unfold xid_state in Hm. rewrite Ec in Hm.
    by repeat case_match. }
  assert (step s (tick s)) as Hg1 by (by apply step_tick).
  apply wp_SetHint; [by eapply step_good|done| |].
  - apply sound_add; [apply Hg1|done|hint_bit..]. split; cbn [clock tuple tick].
    + rewrite Hdel, Hab by lia. done.
    + intros _. rewrite Hab by lia. done.
  - intros s' Hs'. specialize (HQ (clock s) s'). rewrite Hdel, Hab in HQ by lia.
    apply wp_ret, HQ; [pose proof (st_clock _ _ Hs'); cbn in *; lia|by eapply step_trans].
Qed.

Lemma del_just_c t h :
  just_xmax_c t h → del (W t) h = if is_set h HEAP_IS_LOCKED then DNone
                                   else if is_set h HEAP_XMAX_IS_MULTI then DNone else DGone.
Proof using.
  clear HW. unfold just_xmax_c, del. destruct (is_set h HEAP_XMAX_IS_MULTI).
  - intros ->. by destruct (is_set h HEAP_IS_LOCKED).
  - by intros [-> _].
Qed.

(** Once the deleting transaction, not a multixact, is known to have ended, its
    state is the same at all later times. *)
Lemma xmax_ended s t2 :
  good s → (clock s ≤ t2)%nat → env_IsInProgress (W t2) (t_xmax (tuple s)) = false →
  ∀ t t', (t2 ≤ t)%nat → (t2 ≤ t')%nat →
    xid_state (W t) (t_xmax (tuple s)) =
    if env_DidCommit (W t') (t_xmax (tuple s)) then Committed else Aborted.
Proof using HW.
  intros Hg Ht Hip t t' H1 H2. apply (st_done _ t2); [done| |done..].
  apply (h_started (clock s)); [done|]. apply Hg.
Qed.

(** Justifications for the two hints on [xmax]. *)
Lemma just_xmax_i_intro t h :
  is_set h HEAP_XMAX_IS_MULTI = false →
  xid_state (W t) (t_xmax h) = Aborted ∨
    (xid_state (W t) (t_xmax h) = Committed ∧ is_set h HEAP_IS_LOCKED = true) →
  just_xmax_i t h.
Proof using.
  clear HW. intros Hm H. unfold just_xmax_i, del. rewrite Hm.
  destruct H as [->|[-> ->]]; done.
Qed.

Lemma xmax_block_wp {R} (visible gone : R) (multi mine running : cmd VState R) Q s :
  good s →
  (∀ t2 s2, (clock s ≤ t2 ≤ clock s2)%nat → step s s2 →
     match del (W t2) (tuple s) with
     | DNone => Q visible s2
     | DGone => Q gone s2
     | DMine => env_IsCurrent (W 0%nat) (t_xmax (tuple s)) = true →
                is_set (tuple s) HEAP_IS_LOCKED = false → wp mine Q s2
     | DLock => is_set (tuple s) HEAP_XMAX_IS_MULTI = false → wp running Q s2
     | DRunning => wp running Q s2
     end) →
  (is_set (tuple s) HEAP_XMAX_IS_MULTI = true → wp multi Q s) →
  wp (xmax_block W visible gone multi mine running) Q s.
Proof using HW.
  intros Hg HQ Hmulti. pose proof (st_wf _ _ Hg) as Hwf. unfold xmax_block. adv.
  destruct (is_set (tuple s) HEAP_XMAX_INVALID) eqn:Exi.
  { specialize (HQ (clock s) s). destruct (snd_xmax_i _ _ (st_sound _ _ Hg) Exi) as [Hd _].
    rewrite Hd in HQ. apply wp_ret, HQ; [lia|done]. }
  adv. destruct (is_set (tuple s) HEAP_XMAX_COMMITTED) eqn:Exc.
  { specialize (HQ (clock s) s). rewrite (del_just_c _ _ (snd_xmax_c _ _ (st_sound _ _ Hg) Exc)) in HQ.
    adv. destruct (is_set (tuple s) HEAP_IS_LOCKED) eqn:El; [apply wp_ret, HQ; [lia|done]|].
    rewrite (not_multi _ _ Hwf El) in HQ. apply wp_ret, HQ; [lia|done]. }
  adv. destruct (is_set (tuple s) HEAP_XMAX_IS_MULTI) eqn:Emu.
  { adv. rewrite (wf_multi _ _ Hwf Emu). cbn [Assert]. apply wp_bind, wp_ret. by apply Hmulti. }
  do 2 adv. destruct (step_ticks s Hg) as (Hg1 & Hg2 & Hg3).
  destruct (env_IsCurrent (W (clock s)) (t_xmax (tuple s))) eqn:Ec.
  { specialize (HQ (clock s) (tick s)). unfold del in HQ. rewrite Emu, (st_mine _ _ _ Ec) in HQ.
    adv. destruct (is_set (tuple s) HEAP_IS_LOCKED) eqn:El; [apply wp_ret, HQ; [cbn; lia|done]|].
    apply HQ; [cbn; lia|done| |done]. by rewrite <- Ec, (@h_current W HW (clock s)). }
  adv. destruct (env_IsInProgress (W (S (clock s))) _) eqn:Ep.
  { specialize (HQ (S (clock s)) (tick (tick s))). unfold del in HQ.
    rewrite Emu, (st_running _ _ _ Ec Ep) in HQ.
    destruct (is_set (tuple s) HEAP_IS_LOCKED); apply HQ; try done; cbn; lia. }
  adv. pose proof (xmax_ended s (S (clock s)) Hg ltac:(lia) Ep) as Hend.
  pose proof (λ t H, Hend t (S (S (clock s))) H ltac:(lia)) as Hst.
  assert (Hfin : ∀ s', step (tick (tick (tick s))) s' → step s s' ∧ (clock s ≤ S (clock s) ≤ clock s')%nat).
  { intros s' Hs'. split; [by eapply step_trans|]. pose proof (st_clock _ _ Hs'). cbn in *. lia. }
  assert (Hdel : del (W (S (clock s))) (tuple s) = if env_DidCommit (W (S (S (clock s)))) (t_xmax (tuple s))
     then (if is_set (tuple s) HEAP_IS_LOCKED then DNone else DGone) else DNone).
  { unfold del. rewrite Emu, Hst by lia. by destruct (env_DidCommit _ _). }
  destruct (env_DidCommit (W (S (S (clock s)))) (t_xmax (tuple s))) eqn:Ed; cbn [negb].
  2:{ apply wp_SetHint; [by eapply step_good|done| |].
      - apply sound_add; [apply Hg3|done|hint_bit..]. apply just_xmax_i_intro; [done|].
        left. apply Hst. cbn. lia.
      - intros s' [Hs' Hc]%Hfin. apply wp_ret. specialize (HQ _ _ Hc Hs'). by rewrite Hdel in HQ. }
  adv. destruct (is_set (tuple s) HEAP_IS_LOCKED) eqn:El.
  - apply wp_SetHint; [by eapply step_good|done| |].
    + apply sound_add; [apply Hg3|done|hint_bit..]. apply just_xmax_i_intro; [done|].
      right. split; [|done]. apply Hst. cbn. lia.
    + intros s' [Hs' Hc]%Hfin. apply wp_ret. specialize (HQ _ _ Hc Hs'). by rewrite Hdel in HQ.
  - apply wp_SetHint_xid; [by eapply step_good|done| | |].
    + cbn. pose proof (Hend (S (clock s)) (S (S (S (clock s)))) ltac:(lia) ltac:(lia)) as E1.
      rewrite Hst in E1 by lia. by destruct (env_DidCommit (W (S (S (S (clock s))))) (t_xmax (tuple s))).
    + cbn. intros t Ht Hf. apply sound_add; [|done|hint_bit..].
      * apply (sound_mono (clock (tick (tick (tick s))))); [done|apply Hg3..].
      * unfold just_xmax_c. rewrite Emu. split; [apply Hst; lia|done].
    + intros s' [Hs' Hc]%Hfin. apply wp_ret. specialize (HQ _ _ Hc Hs'). by rewrite Hdel in HQ.
Qed.

(** ** The routines without snapshots *)

(** [m] returns the answer that [spec] gives for the states of the system in which
    it has looked at the inserting and, later, at the deleting transaction. *)
Definition answers {R} (m : cmd VState R) (spec : XactEnv → XactEnv → R) (s : VState) : Prop :=
  ∃ r s' t1 t2, m s = Ret (r, s') ∧ (clock s ≤ t1 ≤ t2)%nat ∧ (t2 ≤ clock s')%nat ∧
    r = spec (W t1) (W t2) ∧ step s s'.

Definition answer_post {R} (spec : XactEnv → XactEnv → R) (s : VState) (r : R) (s' : VState) : Prop :=
  ∃ t1 t2, (clock s ≤ t1 ≤ t2)%nat ∧ (t2 ≤ clock s')%nat ∧ r = spec (W t1) (W t2) ∧ step s s'.

Lemma wp_answers {R} (m : cmd VState R) spec s : wp m (answer_post spec s) s → answers m spec s.
Proof using.
  intros (r & s' & Hr & t1 & t2 & ? & ? & ? & ?)%wp_iff. by exists r, s', t1, t2.
Qed.

Lemma cmin_const t t' h : cmin_of (W t) h = cmin_of (W t') h.
Proof using HW.
  unfold cmin_of, HeapTupleHeaderGetCmin.
  by rewrite (@h_current W HW t), (@h_current W HW t'), (@h_combo W HW t), (@h_combo W HW t').
Qed.
Lemma cmax_const t t' h : cmax_of (W t) h = cmax_of (W t') h.
Proof using HW.
  unfold cmax_of, HeapTupleHeaderGetCmax.
  by rewrite (@h_current W HW t), (@h_current W HW t'), (@h_combo W HW t), (@h_combo W HW t').
Qed.
Lemma cmin_ext e h h' : hint_ext h h' → cmin_of e h' = cmin_of e h.
Proof using. clear HW W. intros H. unfold cmin_of. by rewrite (GetCmin_ext _ _ _ _ H). Qed.
Lemma cmax_ext e h h' : hint_ext h h' → cmax_of e h' = cmax_of e h.
Proof using. clear HW W. intros H. unfold cmax_of. by rewrite (GetCmax_ext _ _ _ _ H). Qed.

Lemma wp_GetCmin {B} (f : CommandId → cmd VState B) Q s t h :
  good s → hint_ext h (tuple s) → env_IsCurrent (W 0%nat) (t_xmin h) = true → is_set h HEAP_MOVED = false →
  wp (f (cmin_of (W t) h)) Q s → wp (GetCmin W ≫= f) Q s.
Proof using HW.
  intros Hg He Hc Hm H. destruct (wf_cmin _ _ (st_wf _ _ Hg)) as [c Hcmin].
  { by destruct He as (-> & _). }
  { by destruct (hint_ext_bits _ _ He) as (_ & _ & -> & _). }
  rewrite (cmin_const t 0), <- (cmin_ext _ _ _ He) in H. unfold cmin_of in H. rewrite Hcmin in H.
  apply wp_bind, wp_iff. exists c, s. split; [|exact H]. unfold GetCmin.
  assert (HeapTupleHeaderGetCmin (env_IsCurrent (W (clock s))) (env_Combo (W (clock s))) (tuple s) = Ret c) as ->.
  { rewrite <- Hcmin. unfold HeapTupleHeaderGetCmin. by rewrite (@h_current W HW (clock s)), (@h_combo W HW (clock s)). }
  done.
Qed.

Lemma wp_GetCmax {B} (f : CommandId → cmd VState B) Q s t h :
  good s → hint_ext h (tuple s) → env_IsCurrent (W 0%nat) (t_xmax h) = true →
  is_set h HEAP_IS_LOCKED = false →
  wp (f (cmax_of (W t) h)) Q s → wp (GetCmax W ≫= f) Q s.
Proof using HW.
  intros Hg He Hc Hm H. destruct (wf_cmax _ _ (st_wf _ _ Hg)) as [c Hcmax].
  { by destruct He as (_ & -> & _). }
  { by destruct (hint_ext_bits _ _ He) as (_ & _ & _ & _ & -> & _). }
  rewrite (cmax_const t 0), <- (cmax_ext _ _ _ He) in H. unfold cmax_of in H. rewrite Hcmax in H.
  apply wp_bind, wp_iff. exists c, s. split; [|exact H]. unfold GetCmax.
  assert (HeapTupleHeaderGetCmax (env_IsCurrent (W (clock s))) (env_Combo (W (clock s))) (tuple s) = Ret c) as ->.
  { rewrite <- Hcmax. unfold HeapTupleHeaderGetCmax. by rewrite (@h_current W HW (clock s)), (@h_combo W HW (clock s)). }
  done.
Qed.

(** The facts that the two phases leave, transported to the initial tuple. *)
Lemma ext_facts s s1 :
  step s s1 →
  (∀ e, del e (tuple s1) = del e (tuple s)) ∧
  t_xmin (tuple s1) = t_xmin (tuple s) ∧ t_xmax (tuple s1) = t_xmax (tuple s) ∧
  is_set (tuple s1) HEAP_MOVED = is_set (tuple s) HEAP_MOVED ∧
  is_set (tuple s1) HEAP_IS_LOCKED = is_set (tuple s) HEAP_IS_LOCKED ∧
  is_set (tuple s1) HEAP_XMAX_IS_MULTI = is_set (tuple s) HEAP_XMAX_IS_MULTI.
Proof using.
  intros [H _ _ _ _]. pose proof (hint_ext_bits _ _ H) as (_ & _ & E3 & E4 & E5 & _).
  split; [intros; by apply del_ext|]. destruct H as (? & ? & _). done.
Qed.

(** Gives the two times of an answer. *)
Ltac answer t1 t2 :=
  cbn beta iota; exists t1, t2; split; [lia|]; split; [lia|]; split; [|solve [done|by eapply step_trans]].

Lemma Self_wp s : good s → wp (HeapTupleSatisfiesSelf W) (answer_post (λ e1 e2, self_spec e1 e2 (tuple s)) s) s.
Proof using HW.
  intros Hg. apply wp_and_then, xmin_block_wp; [done|]. intros t1 s1 Ht1 Hs1.
  pose proof (ext_facts _ _ Hs1) as (Ed & Ex1 & Ex2 & Em & El & Emu).
  pose proof (step_good _ _ Hs1) as Hg1.
  destruct (ins (W t1) (tuple s)) eqn:Ei.
  - intros Hc Hm. apply mine_block_wp; [done|congruence..|]. intros t2 s2 Ht2 Hs2. rewrite Ed.
    destruct (del (W t2) (tuple s)) eqn:Edl; try done;
      try (intros _ _; apply wp_ret); answer t1 t2;
      unfold self_spec; by rewrite Ei, Edl.
  - apply wp_ret. answer t1 t1. unfold self_spec. by rewrite Ei.
  - apply xmax_block_wp; [done| |].
    + intros t2 s2 Ht2 Hs2. rewrite Ed.
      destruct (del (W t2) (tuple s)) eqn:Edl;
        try (intros _; try intros _; apply wp_ret); try apply wp_ret;
        answer t1 t2;
        unfold self_spec; by rewrite Ei, Edl.
    + rewrite Emu. intros Hmu. apply wp_ret. answer t1 t1.
      unfold self_spec, del. rewrite Ei, Hmu. by destruct (env_MultiIsRunning _ _).
  - answer t1 t1. unfold self_spec. by rewrite Ei.
Qed.

Lemma deleted_before_now_wp Q s t h :
  good s → hint_ext h (tuple s) → env_IsCurrent (W 0%nat) (t_xmax h) = true →
  is_set h HEAP_IS_LOCKED = false →
  (∀ s', step s s' → Q (env_CommandId (W 0%nat) <=? cmax_of (W t) h) s') →
  wp (deleted_before_now W) Q s.
Proof using HW.
  intros Hg He Hc Hl HQ. eapply (wp_GetCmax _ _ _ t); [done..|].
  unfold GetCurrentCommandId. adv. apply wp_ret. rewrite Z.geb_leb, (@h_command W HW (clock s)).
  apply HQ. by apply step_tick.
Qed.

Lemma updated_by_self_wp curcid Q s t h :
  good s → hint_ext h (tuple s) → env_IsCurrent (W 0%nat) (t_xmax h) = true →
  is_set h HEAP_IS_LOCKED = false →
  Q (if curcid <=? cmax_of (W t) h then HeapTupleSelfUpdated else HeapTupleInvisible) s →
  wp (updated_by_self W curcid) Q s.
Proof using HW.
  intros Hg He Hc Hl HQ. eapply (wp_GetCmax _ _ _ t); [done..|].
  rewrite Z.geb_leb. by destruct (_ <=? _); apply wp_ret.
Qed.

Lemma Now_wp s :
  good s →
  wp (HeapTupleSatisfiesNow W)
     (answer_post (λ e1 e2, now_spec e1 e2 (env_CommandId (W 0%nat)) (tuple s)) s) s.
Proof using HW.
  intros Hg. apply wp_and_then, xmin_block_wp; [done|]. intros t1 s1 Ht1 Hs1.
  pose proof (ext_facts _ _ Hs1) as (Ed & Ex1 & Ex2 & Em & El & Emu).
  pose proof (step_good _ _ Hs1) as Hg1.
  destruct (ins (W t1) (tuple s)) eqn:Ei.
  - intros Hc Hm. eapply (wp_GetCmin _ _ _ t1); [done|apply Hs1|done..|].
    unfold GetCurrentCommandId. adv. rewrite Z.geb_leb, (@h_command W HW (clock s1)).
    pose proof (step_trans _ _ _ Hs1 (step_tick _ Hg1)) as Hs1'.
    destruct (Z.leb_spec (env_CommandId (W 0%nat)) (cmin_of (W t1) (tuple s))) as [Hle|Hgt].
    { apply wp_ret. exists t1, t1. split; [lia|]. split; [cbn; lia|]. split; [|done].
      unfold now_spec. rewrite Ei, (proj2 (Z.ltb_ge _ _)) by lia. done. }
    apply mine_block_wp; [by apply good_tick|cbn; congruence..|].
    intros t2 s2 Ht2 Hs2. cbn [tuple tick clock] in *. rewrite Ed.
    pose proof (step_trans _ _ _ Hs1' Hs2) as Hs12.
    destruct (del (W t2) (tuple s)) eqn:Edl; try done.
    1,2: answer t1 t2; unfold now_spec; by rewrite Ei, Edl, (proj2 (Z.ltb_lt _ _)) by lia.
    rewrite Ex2, El. intros Hcx Hl. eapply (deleted_before_now_wp _ _ t2);
      [by eapply step_good|apply Hs12|done..|].
    intros s3 Hs3. pose proof (st_clock _ _ Hs3). answer t1 t2.
    unfold now_spec. by rewrite Ei, Edl, (proj2 (Z.ltb_lt _ _)) by lia.
  - apply wp_ret. answer t1 t1. unfold now_spec. by rewrite Ei.
  - apply xmax_block_wp; [done| |].
    + intros t2 s2 Ht2 Hs2. rewrite Ed. pose proof (step_trans _ _ _ Hs1 Hs2) as Hs12.
      destruct (del (W t2) (tuple s)) eqn:Edl.
      3:{ rewrite Ex2, El. intros Hcx Hl. eapply (deleted_before_now_wp _ _ t2);
          [by eapply step_good|apply Hs12|done..|].
          intros s3 Hs3. pose proof (st_clock _ _ Hs3). answer t1 t2. unfold now_spec. by rewrite Ei, Edl. }
      2:{ intros _. apply wp_ret. answer t1 t2. unfold now_spec. by rewrite Ei, Edl. }
      2: apply wp_ret.
      all: answer t1 t2; unfold now_spec; by rewrite Ei, Edl.
    + rewrite Emu. intros Hmu. apply wp_ret. answer t1 t1.
      unfold now_spec, del. rewrite Ei, Hmu. by destruct (env_MultiIsRunning _ _).
  - answer t1 t1. unfold now_spec. by rewrite Ei.
Qed.

Lemma Update_wp curcid s :
  good s →
  wp (HeapTupleSatisfiesUpdate W curcid)
     (answer_post (λ e1 e2, update_spec e1 e2 curcid (tuple s)) s) s.
Proof using HW.
  intros Hg. apply wp_and_then, xmin_block_wp; [done|]. intros t1 s1 Ht1 Hs1.
  pose proof (ext_facts _ _ Hs1) as (Ed & Ex1 & Ex2 & Em & El & Emu).
  pose proof (step_good _ _ Hs1) as Hg1.
  destruct (ins (W t1) (tuple s)) eqn:Ei.
  - intros Hc Hm. eapply (wp_GetCmin _ _ _ t1); [done|apply Hs1|done..|]. rewrite Z.geb_leb.
    destruct (curcid <=? cmin_of (W t1) (tuple s)) eqn:Ecm.
    { apply wp_ret. answer t1 t1. unfold update_spec. by rewrite Ei, Ecm. }
    apply mine_block_wp; [done|congruence..|].
    intros t2 s2 Ht2 Hs2. rewrite Ed. pose proof (step_trans _ _ _ Hs1 Hs2) as Hs12.
    destruct (del (W t2) (tuple s)) eqn:Edl; try done.
    1,2: answer t1 t2; unfold update_spec; by rewrite Ei, Ecm, Edl.
    rewrite Ex2, El. intros Hcx Hl. eapply (updated_by_self_wp _ _ _ t2);
      [by eapply step_good|apply Hs12|done..|].
    answer t1 t2. unfold update_spec. by rewrite Ei, Ecm, Edl.
  - apply wp_ret. answer t1 t1. unfold update_spec. by rewrite Ei.
  - apply xmax_block_wp; [done| |].
    + intros t2 s2 Ht2 Hs2. rewrite Ed. pose proof (step_trans _ _ _ Hs1 Hs2) as Hs12.
      destruct (del (W t2) (tuple s)) eqn:Edl.
      3:{ rewrite Ex2, El. intros Hcx Hl. eapply (updated_by_self_wp _ _ _ t2);
          [by eapply step_good|apply Hs12|done..|].
          answer t1 t2. unfold update_spec. by rewrite Ei, Edl. }
      2:{ intros _. apply wp_ret. answer t1 t2. unfold update_spec. by rewrite Ei, Edl. }
      2: apply wp_ret.
      all: answer t1 t2; unfold update_spec; by rewrite Ei, Edl.
    + intros Hmu. unfold MultiXactIdIsRunning. do 2 adv.
      pose proof (step_trans _ _ _ Hs1 (step_tick _ Hg1)) as Hs1'.
      assert (Hd : ∀ h, is_set h HEAP_XMAX_IS_MULTI = true → del (W (clock s1)) h =
         if env_MultiIsRunning (W (clock s1)) (t_xmax h) then DLock else DNone)
        by (intros h Hh; unfold del; by rewrite Hh).
      pose proof (Hd _ Hmu) as Hd1. rewrite Ed in Hd1.
      destruct (env_MultiIsRunning (W (clock s1)) (t_xmax (tuple s1))) eqn:Er.
      { apply wp_ret. exists t1, (clock s1). split; [lia|]. split; [cbn; lia|]. split; [|done].
        unfold update_spec. by rewrite Ei, Hd1. }
      apply wp_SetHint; [by apply good_tick|done| |].
      * apply sound_add; [apply Hs1'|done|hint_bit..].
        split; [|cbn [tuple tick]; congruence]. cbn [tick clock tuple]. unfold del. rewrite Hmu.
        by rewrite (h_multi (clock s1) (S (clock s1)) _ ltac:(lia) Er).
      * intros s2 Hs2. apply wp_ret. pose proof (st_clock _ _ Hs2). cbn in *.
        exists t1, (clock s1). split; [lia|]. split; [lia|]. split; [|by eapply step_trans].
        unfold update_spec. by rewrite Ei, Hd1.
  - answer t1 t1. unfold update_spec. by rewrite Ei.
Qed.

(** ** Dirty snapshots *)

(** The answer and the ids of the running transactions left in the snapshot. *)
Definition dirty_spec (e1 e2 : XactEnv) (h : HeapTupleHeader) : bool * TransactionId * TransactionId :=
  match ins e1 h with
  | Mine => (match del e2 h with DMine => false | _ => true end,
             InvalidTransactionId, InvalidTransactionId)
  | Running => (true, t_xmin h, InvalidTransactionId)
  | Committed =>
      match del e2 h with
      | DNone => (true, InvalidTransactionId, InvalidTransactionId)
      | DLock => (true, InvalidTransactionId,
                  if is_set h HEAP_XMAX_IS_MULTI then InvalidTransactionId else t_xmax h)
      | DRunning => (true, InvalidTransactionId, t_xmax h)
      | DMine | DGone => (false, InvalidTransactionId, InvalidTransactionId)
      end
  | Aborted => (false, InvalidTransactionId, InvalidTransactionId)
  end.

Definition clear_snap (s : VState) : VState :=
  let n := snapshot s in
  mkV (clock s) (tuple s) (needs_save s)
    (mkSnapshot InvalidTransactionId InvalidTransactionId (xcnt n) (xip n) (subxcnt n) (subxip n)
       (suboverflowed n) (takenDuringRecovery n) (snap_curcid n)).

Definition dirty_post (s : VState) (r : bool) (s' : VState) : Prop :=
  ∃ t1 t2, (clock s ≤ t1 ≤ t2)%nat ∧ (t2 ≤ clock s')%nat ∧
    (r, snap_xmin (snapshot s'), snap_xmax (snapshot s')) = dirty_spec (W t1) (W t2) (tuple s) ∧
    hint_ext (tuple s) (tuple s') ∧ sound (clock s') (tuple s').

Lemma dirty_post_step s r s' t1 t2 :
  step (clear_snap s) s' → (clock s ≤ t1 ≤ t2)%nat → (t2 ≤ clock s')%nat →
  dirty_spec (W t1) (W t2) (tuple s) = (r, InvalidTransactionId, InvalidTransactionId) →
  dirty_post s r s'.
Proof using.
  intros Hs Ht Ht' He. exists t1, t2. split; [done|]. split; [done|]. rewrite He, (st_snap _ _ Hs).
  split; [done|]. split; apply Hs.
Qed.

Lemma Dirty_wp s : good s → wp (HeapTupleSatisfiesDirty W) (dirty_post s) s.
Proof using HW.
  intros Hg0. unfold HeapTupleSatisfiesDirty. do 2 (apply wp_bind, wp_iff; eexists _, _; split; [done|]).
  set (s0 := mkV _ _ _ _). assert (Hs0 : s0 = clear_snap s) by done. clearbody s0. subst s0.
  assert (Hg : good (clear_snap s)) by (destruct Hg0; by apply good_intro).
  apply wp_and_then, xmin_block_wp; [done|]. intros t1 s1 Ht1 Hs1.
  pose proof (ext_facts _ _ Hs1) as (Ed & Ex1 & Ex2 & Em & El & Emu).
  cbn [tuple clear_snap clock] in *. pose proof (step_good _ _ Hs1) as Hg1.
  assert (Hsn : snapshot s1 = snapshot (clear_snap s)) by apply Hs1.
  destruct (ins (W t1) (tuple s)) eqn:Ei.
  - intros Hc Hm. apply mine_block_wp; [done|congruence..|]. intros t2 s2 Ht2 Hs2. rewrite Ed.
    pose proof (step_trans _ _ _ Hs1 Hs2) as Hs12.
    destruct (del (W t2) (tuple s)) eqn:Edl; try done; try (intros _ _; apply wp_ret);
      eapply (dirty_post_step _ _ _ t1 t2); try done; try lia; unfold dirty_spec; by rewrite Ei, Edl.
  - apply (wp_get (λ s, t_xmin (tuple s))). apply wp_bind, wp_iff. eexists _, _. split; [done|].
    apply wp_ret. exists t1, t1. cbn. split; [lia|]. split; [lia|].
    rewrite Hsn. unfold dirty_spec. rewrite Ei, Ex1. cbn. split; [done|]. split; apply Hs1.
  - apply xmax_block_wp; [done| |].
    + intros t2 s2 Ht2 Hs2. rewrite Ed. pose proof (step_trans _ _ _ Hs1 Hs2) as Hs12.
      assert (Hrun : (del (W t2) (tuple s) = DRunning ∨
          del (W t2) (tuple s) = DLock ∧ is_set (tuple s) HEAP_XMAX_IS_MULTI = false) →
        wp (xmax ← GetXmax; _ ← set_snap_xmax xmax; mret true) (dirty_post s) s2).
      { intros Hd. apply (wp_get (λ s, t_xmax (tuple s))). apply wp_bind, wp_iff. eexists _, _.
        split; [done|]. apply wp_ret. exists t1, t2. cbn. split; [lia|]. split; [lia|].
        rewrite (st_snap _ _ Hs12). unfold dirty_spec. rewrite Ei.
        destruct (ext_facts _ _ Hs12) as (_ & _ & Ex2' & _). rewrite Ex2'.
        split; [|split; apply Hs12]. destruct Hd as [->|[-> ->]]; done. }
      destruct (del (W t2) (tuple s)) eqn:Edl.
      2:{ intros Hmu. apply Hrun. right. split; [done|congruence]. }
      3:{ apply Hrun. by left. }
      all: try (intros _ _; apply wp_ret);
        eapply (dirty_post_step _ _ _ t1 t2); try done; try lia; unfold dirty_spec; by rewrite Ei, Edl.
    + intros Hmu. apply wp_ret. eapply (dirty_post_step _ _ _ t1 t1); [done|lia|lia|].
      unfold dirty_spec, del. rewrite Ei, <- Emu, Hmu. by destruct (env_MultiIsRunning _ _).
  - eapply (dirty_post_step _ _ _ t1 t1); [done|lia|lia|]. unfold dirty_spec. by rewrite Ei.
Qed.

(** ** TOAST *)

Lemma Toast_wp s :
  good s →
  wp (HeapTupleSatisfiesToast W) (λ r s', step s s' ∧ ∃ t, (clock s ≤ t ≤ clock s')%nat ∧
    (r = false → ins (W t) (tuple s) = Aborted) ∧
    (is_set (tuple s) HEAP_MOVED = true → ins (W t) (tuple s) = Aborted → r = false)) s.
Proof using HW.
  intros Hg. apply wp_and_then. adv.
  destruct (is_set (tuple s) HEAP_XMIN_COMMITTED) eqn:Ec; cbn [negb].
  { apply wp_ret, wp_ret. split; [done|]. exists (clock s). split; [lia|]. split; [done|].
    intros _. by rewrite (ins_just_c _ _ (snd_xmin_c _ _ (st_sound _ _ Hg) Ec)). }
  adv. destruct (is_set (tuple s) HEAP_XMIN_INVALID) eqn:Ei.
  { apply wp_ret. split; [done|]. exists (clock s). split; [lia|].
    by rewrite (ins_just_i _ _ (snd_xmin_i _ _ (st_sound _ _ Hg) Ei)). }
  apply moved_wp; [done| |].
  - intros Hm t1 s1 Ht Hs1. destruct (ins (W t1) (tuple s)) eqn:E; try done.
    + apply wp_ret. split; [done|]. exists t1. rewrite E. done.
    + split; [done|]. exists t1. done.
  - intros Ho Hi. apply wp_ret, wp_ret. split; [done|]. exists (clock s). split; [lia|]. split; [done|].
    rewrite moved_bits, Ho, Hi. done.
Qed.

(** ** MVCC snapshots *)

Definition snapshot_wf (sn : SnapshotData) : Prop :=
  0 ≤ xcnt sn ≤ Z.of_nat (length (xip sn)) ∧ 0 ≤ subxcnt sn ≤ Z.of_nat (length (subxip sn)).

Lemma scan_xids_spec x n xs s :
  0 ≤ n ≤ Z.of_nat (length xs) →
  scan_xids x n xs s =
  Ret (if bool_decide (x ∈ take (Z.to_nat n) xs) then inr true else inl tt, s).
Proof using.
  clear HW W. intros Hn. unfold scan_xids, lift, for_range. rewrite Z.sub_0_r.
  rewrite (for_loop_search (λ i, bool_decide (xs !! Z.to_nat i = Some x)) true).
  2:{ intros k Hk. destruct (arr_get_lt xs k) as (y & -> & Hy); [lia|]. cbn [mbind outcome_bind].
      unfold TransactionIdEquals. rewrite Hy. case_bool_decide as E.
      - simplify_eq. by rewrite Z.eqb_refl.
      - by rewrite (proj2 (Z.eqb_neq x y)) by congruence. }
  cbn [mbind outcome_bind]. do 2 f_equal.
  rewrite Z2Nat.id by lia. case_bool_decide as E.
  - apply list_elem_of_lookup in E as [i Hi]. apply lookup_take_Some in Hi as [Hi Hlt].
    rewrite (proj2 (existsb_seqZ_true _ _ _)); [done|]. exists (Z.of_nat i). split; [lia|].
    rewrite Nat2Z.id. by apply bool_decide_eq_true.
  - rewrite (proj2 (existsb_seqZ_false _ _ _)); [done|]. intros k Hk. apply bool_decide_eq_false.
    intros Hx. apply E, list_elem_of_lookup. exists (Z.to_nat k). apply lookup_take_Some. split; [done|lia].
Qed.

Lemma in_snapshot_const t t' sn x : in_snapshot (W t) sn x = in_snapshot (W t') sn x.
Proof using HW.
  unfold in_snapshot. by rewrite (@h_topmost W HW t), (@h_topmost W HW t').
Qed.

Lemma XidInMVCCSnapshot_wp x Q s t :
  good s → snapshot_wf (snapshot s) →
  (∀ s', step s s' → tuple s' = tuple s → Q (in_snapshot (W t) (snapshot s) x) s') →
  wp (XidInMVCCSnapshot W x) Q s.
Proof using HW.
  intros Hg [Hx Hsub] HQ. rewrite (in_snapshot_const t (clock s)) in HQ. unfold in_snapshot in HQ.
  unfold XidInMVCCSnapshot. apply (wp_get snapshot).
  assert (Hret : ∀ s' b, step s s' → tuple s' = tuple s → (∀ s'', step s s'' → tuple s'' = tuple s → Q b s'') →
                 wp (mret b) Q s') by (intros; apply wp_ret; auto).
  assert (Hscan1 : ∀ y n xs s', 0 ≤ n ≤ Z.of_nat (length xs) → step s s' → tuple s' = tuple s →
    (∀ s'', step s s'' → tuple s'' = tuple s → Q (bool_decide (y ∈ take (Z.to_nat n) xs)) s'') →
    wp (and_then (scan_xids y n xs) (mret false)) Q s').
  { intros y n xs s' Hn Hs' Ht' H. apply wp_and_then, wp_iff. eexists _, _.
    split; [by apply scan_xids_spec|]. destruct (bool_decide (y ∈ take (Z.to_nat n) xs)); [auto|]. apply wp_ret; auto. }
  destruct (TransactionIdPrecedes x (snap_xmin (snapshot s))); [by eapply Hret|].
  destruct (TransactionIdFollowsOrEquals x (snap_xmax (snapshot s))); [by eapply Hret|].
  pose proof (step_tick _ Hg) as Hg1.
  destruct (takenDuringRecovery (snapshot s)), (suboverflowed (snapshot s)); cbn [negb andb] in *.
  - unfold SubTransGetTopmostTransaction. adv.
    destruct (TransactionIdPrecedes (env_Topmost _ x) _); [by eapply Hret|]. by apply Hscan1.
  - by apply Hscan1.
  - unfold SubTransGetTopmostTransaction. adv.
    destruct (TransactionIdPrecedes (env_Topmost _ x) _); [by eapply Hret|]. by apply Hscan1.
  - apply wp_and_then, wp_iff. eexists _, _. split; [by apply scan_xids_spec|].
    destruct (bool_decide (x ∈ take (Z.to_nat (subxcnt _)) _)); cbn [orb] in HQ; [by apply HQ|].
    by apply Hscan1.
Qed.

Lemma deleted_before_snapshot_wp Q s t h :
  good s → hint_ext h (tuple s) → env_IsCurrent (W 0%nat) (t_xmax h) = true →
  is_set h HEAP_IS_LOCKED = false →
  Q (snap_curcid (snapshot s) <=? cmax_of (W t) h) s →
  wp (deleted_before_snapshot W) Q s.
Proof using HW.
  intros Hg He Hc Hl HQ. eapply (wp_GetCmax _ _ _ t); [done..|]. apply (wp_get snapshot).
  apply wp_ret. by rewrite Z.geb_leb.
Qed.

(** The second half of [HeapTupleSatisfiesMVCC], after the insertion is known to be
    visible. *)
Definition mvcc_xmax : cmd VState bool :=
  xi ← flag HEAP_XMAX_INVALID;
  if xi : bool then mret true else
  lk ← flag HEAP_IS_LOCKED;
  if lk : bool then mret true else
  mu ← flag HEAP_XMAX_IS_MULTI;
  if mu : bool then (_ ← Assert lk; mret true) else
  xc ← flag HEAP_XMAX_COMMITTED;
  and_then
    (if negb xc then
       xmax ← GetXmax;
       cur ← TransactionIdIsCurrentTransactionId W xmax;
       if cur : bool then (r ← deleted_before_snapshot W; mret (inr r)) else
       ip ← TransactionIdIsInProgress W xmax;
       if ip : bool then mret (inr true) else
       dc ← TransactionIdDidCommit W xmax;
       if negb dc then
         _ ← SetHintBits W HEAP_XMAX_INVALID InvalidTransactionId;
         mret (inr true)
       else
       _ ← SetHintBits W HEAP_XMAX_COMMITTED xmax;
       mret (inl tt)
     else mret (inl tt))
    (xmax ← GetXmax;
     insnap ← XidInMVCCSnapshot W xmax;
     if insnap : bool then mret true else mret false).

Lemma mvcc_xmax_wp Q s :
  good s → snapshot_wf (snapshot s) →
  (∀ t2 s2, (clock s ≤ t2 ≤ clock s2)%nat → step s s2 →
     Q match del (W t2) (tuple s) with
       | DMine => snap_curcid (snapshot s) <=? cmax_of (W t2) (tuple s)
       | DGone => in_snapshot (W t2) (snapshot s) (t_xmax (tuple s))
       | _ => true end s2) →
  wp mvcc_xmax Q s.
Proof using HW.
  intros Hg Hsw HQ. pose proof (st_wf _ _ Hg) as Hwf. unfold mvcc_xmax. adv.
  destruct (is_set (tuple s) HEAP_XMAX_INVALID) eqn:Exi.
  { specialize (HQ (clock s) s). destruct (snd_xmax_i _ _ (st_sound _ _ Hg) Exi) as [Hd _].
    rewrite Hd in HQ. apply wp_ret, HQ; [lia|done]. }
  adv. destruct (is_set (tuple s) HEAP_IS_LOCKED) eqn:El.
  { specialize (HQ (clock s) s). apply wp_ret.
    destruct (del_locked (W (clock s)) _ El) as [Hd|Hd]; rewrite Hd in HQ; apply HQ; [lia|done|lia|done]. }
  adv. rewrite (not_multi _ _ Hwf El). adv.
  pose proof (λ e, del_unlocked e _ _ Hwf El) as Hdel.
  assert (Hgone : ∀ t2 s2, (clock s ≤ t2 ≤ clock s2)%nat → step s s2 → del (W t2) (tuple s) = DGone →
    wp (xmax ← GetXmax; insnap ← XidInMVCCSnapshot W xmax;
        if insnap : bool then mret true else mret false) Q s2).
  { intros t2 s2 Ht2 Hs2 Hd. apply (wp_get (λ s, t_xmax (tuple s))).
    destruct (ext_facts _ _ Hs2) as (_ & _ & Ex2 & _). rewrite Ex2.
    apply wp_bind, (XidInMVCCSnapshot_wp _ _ _ t2); [by eapply step_good|by rewrite (st_snap _ _ Hs2)|].
    intros s3 Hs3 _. specialize (HQ t2 s3). rewrite Hd in HQ. rewrite (st_snap _ _ Hs2).
    pose proof (st_clock _ _ Hs3).
    destruct (in_snapshot _ _ _); apply wp_ret, HQ; try lia; by eapply step_trans. }
  apply wp_and_then. destruct (is_set (tuple s) HEAP_XMAX_COMMITTED) eqn:Exc; cbn [negb].
  { apply wp_ret. apply (Hgone (clock s) s); [lia|done|].
    by rewrite (del_just_c _ _ (snd_xmax_c _ _ (st_sound _ _ Hg) Exc)), El, (not_multi _ _ Hwf El). }
  do 2 adv. destruct (step_ticks s Hg) as (Hg1 & Hg2 & Hg3).
  destruct (env_IsCurrent (W (clock s)) (t_xmax (tuple s))) eqn:Ec.
  { specialize (HQ (clock s) (tick s)). rewrite Hdel, (st_mine _ _ _ Ec) in HQ.
    apply wp_bind. eapply (deleted_before_snapshot_wp _ _ (clock s)); [by eapply step_good|apply Hg1| |done|].
    - by rewrite <- Ec, (@h_current W HW (clock s)).
    - apply wp_ret, HQ; [cbn; lia|done]. }
  adv. destruct (env_IsInProgress (W (S (clock s))) _) eqn:Ep.
  { specialize (HQ (S (clock s)) (tick (tick s))). rewrite Hdel, (st_running _ _ _ Ec Ep) in HQ.
    apply wp_ret, HQ; [cbn; lia|done]. }
  adv. pose proof (xmax_ended s (S (clock s)) Hg ltac:(lia) Ep) as Hend.
  pose proof (λ t H, Hend t (S (S (clock s))) H ltac:(lia)) as Hst.
  assert (Hfin : ∀ s', step (tick (tick (tick s))) s' → step s s' ∧ (clock s ≤ S (clock s) ≤ clock s')%nat).
  { intros s' Hs'. split; [by eapply step_trans|]. pose proof (st_clock _ _ Hs'). cbn in *. lia. }
  destruct (env_DidCommit (W (S (S (clock s)))) (t_xmax (tuple s))) eqn:Ed; cbn [negb].
  - apply wp_SetHint_xid; [by eapply step_good|done| | |].
    + cbn. pose proof (Hend (S (clock s)) (S (S (S (clock s)))) ltac:(lia) ltac:(lia)) as E1.
      rewrite Hst in E1 by lia. by destruct (env_DidCommit (W (S (S (S (clock s))))) (t_xmax (tuple s))).
    + cbn. intros t Ht Hf. apply sound_add; [|done|hint_bit..].
      * apply (sound_mono (clock (tick (tick (tick s))))); [done|apply Hg3..].
      * unfold just_xmax_c. rewrite (not_multi _ _ Hwf El). split; [apply Hst; lia|done].
    + intros s' [Hs' Hc]%Hfin. apply wp_ret, (Hgone (S (clock s))); [done..|].
      rewrite Hdel, Hst by lia. done.
  - apply wp_SetHint; [by eapply step_good|done| |].
    + apply sound_add; [apply Hg3|done|hint_bit..]. apply just_xmax_i_intro; [by apply (not_multi _ _ Hwf)|].
      left. apply Hst. cbn. lia.
    + intros s' [Hs' Hc]%Hfin. apply wp_ret. specialize (HQ _ _ Hc Hs'). by rewrite Hdel, Hst in HQ by lia.
Qed.

Lemma MVCC_wp s :
  good s → snapshot_wf (snapshot s) →
  wp (HeapTupleSatisfiesMVCC W)
     (answer_post (λ e1 e2, mvcc_spec2 e1 e2 (snapshot s) (tuple s)) s) s.
Proof using HW.
  intros Hg Hsw. apply wp_and_then, xmin_block_wp; [done|]. intros t1 s1 Ht1 Hs1.
  pose proof (ext_facts _ _ Hs1) as (Ed & Ex1 & Ex2 & Em & El & Emu).
  pose proof (step_good _ _ Hs1) as Hg1. pose proof (st_snap _ _ Hs1) as Hsn.
  destruct (ins (W t1) (tuple s)) eqn:Ei.
  - intros Hc Hm. eapply (wp_GetCmin _ _ _ t1); [done|apply Hs1|done..|].
    apply (wp_get snapshot). rewrite Z.geb_leb, Hsn.
    destruct (Z.leb_spec (snap_curcid (snapshot s)) (cmin_of (W t1) (tuple s))) as [Hle|Hgt].
    { apply wp_ret. answer t1 t1. unfold mvcc_spec2. by rewrite Ei, (proj2 (Z.ltb_ge _ _)) by lia. }
    apply mine_block_wp; [done|congruence..|].
    intros t2 s2 Ht2 Hs2. rewrite Ed. pose proof (step_trans _ _ _ Hs1 Hs2) as Hs12.
    destruct (del (W t2) (tuple s)) eqn:Edl; try done.
    1,2: answer t1 t2; unfold mvcc_spec2; by rewrite Ei, Edl, (proj2 (Z.ltb_lt _ _)) by lia.
    rewrite Ex2, El. intros Hcx Hl. eapply (deleted_before_snapshot_wp _ _ t2);
      [by eapply step_good|apply Hs12|done..|].
    answer t1 t2. unfold mvcc_spec2. rewrite Ei, Edl, (proj2 (Z.ltb_lt _ _)) by lia.
    by rewrite (st_snap _ _ Hs12).
  - apply wp_ret. answer t1 t1. unfold mvcc_spec2. by rewrite Ei.
  - apply (wp_get (λ s, t_xmin (tuple s))). rewrite Ex1.
    apply wp_bind, (XidInMVCCSnapshot_wp _ _ _ t1); [done|by rewrite Hsn|]. rewrite Hsn.
    intros s2 Hs2 Ht2. pose proof (step_trans _ _ _ Hs1 Hs2) as Hs12. pose proof (st_clock _ _ Hs2).
    destruct (in_snapshot (W t1) (snapshot s) (t_xmin (tuple s))) eqn:Ein.
    { apply wp_ret. answer t1 t1. unfold mvcc_spec2. by rewrite Ei, Ein. }
    change (wp mvcc_xmax (answer_post (λ e1 e2, mvcc_spec2 e1 e2 (snapshot s) (tuple s)) s) s2).
    apply mvcc_xmax_wp; [by eapply step_good|by rewrite (st_snap _ _ Hs12)|].
    intros t2 s3 Ht3 Hs3. answer t1 t2. unfold mvcc_spec2. rewrite Ei, Ein. cbn [negb andb].
    rewrite Ht2, Ed, Ex2, (st_snap _ _ Hs12).
    by rewrite (cmax_ext _ _ _ (st_ext _ _ Hs1)).
  - answer t1 t1. unfold mvcc_spec2. by rewrite Ei.
Qed.

(** *** Isolation *)

(** The snapshot was taken at time [t0]: a transaction of another backend that was
    running then, or had not started, is in progress for it. *)
Definition covers (t0 : nat) (sn : SnapshotData) (x : TransactionId) : Prop :=
  env_IsCurrent (W 0%nat) x = false →
  started t0 x = false ∨ env_IsInProgress (W t0) x = true → in_snapshot (W t0) sn x = true.

Lemma state_later t0 t sn x :
  (t0 ≤ t)%nat → covers t0 sn x →
  xid_state (W t) x = xid_state (W t0) x ∨
  (in_snapshot (W t) sn x = true ∧
   (xid_state (W t0) x = Running ∨ xid_state (W t0) x = Aborted) ∧ xid_state (W t) x ≠ Mine).
Proof using HW.
  intros Ht Hcov. unfold covers in Hcov. rewrite (in_snapshot_const t0 t) in Hcov.
  unfold xid_state. rewrite !(@h_current W HW t), !(@h_current W HW t0).
  destruct (env_IsCurrent (W 0%nat) x); [by left|].
  specialize (Hcov eq_refl).
  destruct (started t0 x) eqn:Es.
  - destruct (env_IsInProgress (W t0) x) eqn:Ep.
    + right. split; [auto|]. split; [by left|]. repeat case_match; done.
    + left. destruct (h_done t0 t x Ht Es Ep) as [-> ->]. done.
  - right. destruct (h_unstarted t0 x Es) as [-> ->]. split; [auto|]. split; [by right|].
    repeat case_match; done.
Qed.

Definition moved_settled (t0 : nat) (h : HeapTupleHeader) : Prop :=
  is_set h HEAP_MOVED = true → started t0 (HeapTupleHeaderGetXvac h) = true ∧
    (xid_state (W t0) (HeapTupleHeaderGetXvac h) = Committed ∨
     xid_state (W t0) (HeapTupleHeaderGetXvac h) = Aborted).

(** A deletion by the current transaction is one at all times. *)
Lemma own_deletion_stable t0 t2 h c :
  match del (W t2) h with DMine => c | _ => true end =
  match del (W t0) h with DMine => c | _ => true end :> bool.
Proof using HW.
  unfold del. destruct (is_set h HEAP_XMAX_IS_MULTI).
  { by destruct (env_MultiIsRunning (W t2) _), (env_MultiIsRunning (W t0) _). }
  destruct (decide (xid_state (W t2) (t_xmax h) = Mine)) as [E|E].
  - by rewrite (xid_state_current _ t0 _ E), E.
  - assert (xid_state (W t0) (t_xmax h) ≠ Mine) as E0 by (intros ?; by apply E, (xid_state_current t0)).
    destruct (xid_state (W t2) (t_xmax h)), (xid_state (W t0) (t_xmax h)), (is_set h HEAP_IS_LOCKED); done.
Qed.

Lemma mvcc_stable t0 t1 t2 sn h :
  (t0 ≤ t1 ≤ t2)%nat → covers t0 sn (t_xmin h) → covers t0 sn (t_xmax h) → moved_settled t0 h →
  mvcc_spec2 (W t1) (W t2) sn h = mvcc_spec (W t0) sn h.
Proof using HW.
  intros Ht Hmin Hmax Hmv. unfold mvcc_spec, mvcc_spec2.
  rewrite (cmin_const t1 t0), !(cmax_const t2 t0), (in_snapshot_const t1 t0), (in_snapshot_const t2 t0).
  (* the deletion *)
  set (d := λ e, match del e h with
       | DMine => snap_curcid sn <=? cmax_of (W t0) h
       | DGone => in_snapshot (W t0) sn (t_xmax h) | _ => true end).
  assert (Hd : d (W t2) = d (W t0)).
  { unfold d, del. destruct (is_set h HEAP_XMAX_IS_MULTI).
    { by destruct (env_MultiIsRunning (W t2) _), (env_MultiIsRunning (W t0) _). }
    destruct (state_later t0 t2 sn (t_xmax h) ltac:(lia) Hmax) as [->|(Hin & Hst & Hne)]; [done|].
    rewrite (in_snapshot_const t2 t0) in Hin.
    destruct Hst as [-> | ->], (xid_state (W t2) (t_xmax h)); try done;
      destruct (is_set h HEAP_IS_LOCKED); by rewrite ?Hin. }
  set (d' := λ e, match del e h with
       | DMine => snap_curcid sn <=? cmax_of (W t0) h | _ => true end).
  fold (d (W t2)) (d (W t0)) (d' (W t2)) (d' (W t0)). rewrite Hd.
  (* the insertion *)
  assert (Hins : ins (W t1) h = ins (W t0) h ∨
    (in_snapshot (W t0) sn (t_xmin h) = true ∧
     (ins (W t0) h = Running ∨ ins (W t0) h = Aborted) ∧ ins (W t1) h ≠ Mine)).
  { unfold ins. assert (Hv : is_set h HEAP_MOVED = true →
       xid_state (W t1) (HeapTupleHeaderGetXvac h) = xid_state (W t0) (HeapTupleHeaderGetXvac h)).
    { intros Hm. destruct (Hmv Hm) as [Hs Hst]. apply (xid_state_done t0 t1); [lia|done..]. }
    rewrite moved_bits in Hv.
    destruct (is_set h HEAP_MOVED_OFF); [left; by rewrite Hv by done|].
    destruct (is_set h HEAP_MOVED_IN); [left; by rewrite Hv by done|].
    destruct (state_later t0 t1 sn (t_xmin h) ltac:(lia) Hmin) as [?|(Hin & Hst & Hne)]; [by left|right].
    rewrite (in_snapshot_const t1 t0) in Hin. done. }
  destruct Hins as [Hi|(Hin & Hst & Hne)].
  - rewrite Hi. destruct (ins (W t0) h) eqn:Ei; try done. f_equal.
    unfold d'. apply own_deletion_stable.
  - rewrite Hin. destruct (ins (W t1) h); try done; by destruct Hst as [-> | ->].
Qed.

(** ** Vacuum *)

Definition vacuum_post (Q : unit + HTSV_Result → VState → Prop) (s : VState) : Prop :=
  ∀ t1 s1, (clock s ≤ t1 ≤ clock s1)%nat → step s s1 →
    match vacuum_ins_spec (W t1) (tuple s) with
    | Some r => Q (inr r) s1 | None => Q (inl tt) s1 end.

(** Three questions about [x], with the two outcomes of a finished transaction. *)
Lemma three_questions {B} x (cur_k ip_k : cmd VState B) (com_k ab_k : cmd VState B) Q s :
  good s → started (clock s) x = true →
  (∀ t, xid_state (W t) x = Mine → wp cur_k Q (tick s)) →
  (xid_state (W (S (clock s))) x = Running → wp ip_k Q (tick (tick s))) →
  ((∀ t, (S (clock s) ≤ t)%nat → xid_state (W t) x = Committed) → wp com_k Q (tick (tick (tick s)))) →
  ((∀ t, (S (clock s) ≤ t)%nat → xid_state (W t) x = Aborted) → wp ab_k Q (tick (tick (tick s)))) →
  wp (cur ← TransactionIdIsCurrentTransactionId W x;
      if cur : bool then cur_k else
      ip ← TransactionIdIsInProgress W x;
      if ip : bool then ip_k else
      dc ← TransactionIdDidCommit W x;
      if dc : bool then com_k else ab_k) Q s.
Proof using HW.
  intros Hg Hs H1 H2 H3 H4. adv.
  destruct (env_IsCurrent (W (clock s)) x) eqn:Ec; [apply (H1 0%nat), (st_mine _ _ _ Ec)|].
  adv. destruct (env_IsInProgress (W (S (clock s))) x) eqn:Ep; [apply H2, (st_running _ _ _ Ec Ep)|].
  adv. apply (h_started _ (S (clock s))) in Hs; [|lia].
  pose proof (λ t'' H, st_done (S (S (clock s))) (S (clock s)) t'' x Ep Hs H ltac:(lia)) as Ex.
  destruct (env_DidCommit (W (S (S (clock s)))) x); [by apply H3|by apply H4].
Qed.

Lemma vacuum_moved_wp Q s :
  good s → is_set (tuple s) HEAP_XMIN_COMMITTED = false → is_set (tuple s) HEAP_XMIN_INVALID = false →
  is_set (tuple s) HEAP_MOVED = true → vacuum_post Q s → wp (vacuum_xmin_block W) Q s.
Proof using HW.
  intros Hg Ec Ei Hm HQ. unfold vacuum_xmin_block. adv. rewrite Ec. adv. rewrite Ei. adv.
  rewrite moved_bits in Hm. pose proof (moved_started _ _ (st_wf _ _ Hg)) as Hs.
  destruct (step_ticks s Hg) as (Hg1 & Hg2 & Hg3). unfold vacuum_post, vacuum_ins_spec in HQ.
  assert (Hfin : ∀ s', step (tick (tick (tick s))) s' → step s s' ∧ (clock s ≤ S (clock s) ≤ clock s')%nat).
  { intros s' Hs'. split; [by eapply step_trans|]. pose proof (st_clock _ _ Hs'). cbn in *. lia. }
  destruct (is_set (tuple s) HEAP_MOVED_OFF) eqn:Eo;
    [|adv; destruct (is_set (tuple s) HEAP_MOVED_IN) eqn:Ein; [|done]].
  all: adv; apply three_questions; [done|by auto|intros t Hx|intros Hx|intros Hx..].
  1,5: specialize (HQ (clock s) (tick s)); rewrite (xid_state_current _ (clock s) _ Hx) in HQ;
       apply wp_ret, HQ; [cbn; lia|done].
  1,4: specialize (HQ (S (clock s)) (tick (tick s))); rewrite Hx in HQ; apply wp_ret, HQ; [cbn; lia|done].
  all: apply wp_SetHint; [by eapply step_good|done| |].
  1,3,5,7: apply sound_add; [apply Hg3|done|hint_bit..]; cbn; unfold just_xmin_c, just_xmin_i;
           rewrite ?Eo, ?Ein; apply Hx; lia.
  all: intros s' [Hs' Hc]%Hfin; apply wp_ret; specialize (HQ _ _ Hc Hs'); by rewrite Hx in HQ by lia.
Qed.

Lemma vacuum_xmin_wp Q s : good s → vacuum_post Q s → wp (vacuum_xmin_block W) Q s.
Proof using HW.
  intros Hg HQ. unfold vacuum_post in HQ.
  destruct (is_set (tuple s) HEAP_XMIN_COMMITTED) eqn:Ec.
  { unfold vacuum_xmin_block. adv. rewrite Ec. specialize (HQ (clock s) s).
    pose proof (snd_xmin_c _ _ (st_sound _ _ Hg) Ec) as J. unfold vacuum_ins_spec, just_xmin_c in *.
    apply wp_ret. destruct (is_set (tuple s) HEAP_MOVED_OFF); [rewrite J in HQ; apply HQ; [lia|done]|].
    destruct (is_set (tuple s) HEAP_MOVED_IN); [rewrite J in HQ|destruct J as [J _]; rewrite J in HQ];
      apply HQ; (lia || done). }
  destruct (is_set (tuple s) HEAP_XMIN_INVALID) eqn:Ei.
  { unfold vacuum_xmin_block. adv. rewrite Ec. adv. rewrite Ei. specialize (HQ (clock s) s).
    pose proof (snd_xmin_i _ _ (st_sound _ _ Hg) Ei) as J. unfold vacuum_ins_spec, just_xmin_i in *.
    apply wp_ret. destruct (is_set (tuple s) HEAP_MOVED_OFF); [rewrite J in HQ; apply HQ; [lia|done]|].
    destruct (is_set (tuple s) HEAP_MOVED_IN); rewrite J in HQ; apply HQ; (lia || done). }
  destruct (is_set (tuple s) HEAP_MOVED) eqn:Em; [by apply vacuum_moved_wp|].
  unfold vacuum_xmin_block. adv. rewrite Ec. adv. rewrite Ei. adv. rewrite moved_bits in Em.
  apply orb_false_iff in Em as [Eo Ein]. rewrite Eo. adv. rewrite Ein. unfold vacuum_ins_spec in HQ.
  rewrite Eo, Ein in HQ. do 2 adv. destruct (step_ticks s Hg) as (Hg1 & Hg2 & _).
  destruct (env_IsInProgress (W (clock s)) (t_xmin (tuple s))) eqn:Ep.
  { specialize (HQ (clock s) (tick s)). unfold xid_state in HQ. rewrite Ep in HQ.
    assert (∀ r, r = (if is_set (tuple s) HEAP_XMAX_INVALID || is_set (tuple s) HEAP_IS_LOCKED
              then HEAPTUPLE_INSERT_IN_PROGRESS else HEAPTUPLE_DELETE_IN_PROGRESS) → Q (inr r) (tick s)) as HQ'.
    { intros r ->. destruct (env_IsCurrent (W (clock s)) (t_xmin (tuple s))); apply HQ; (cbn; lia) || done. }
    adv. destruct (is_set (tuple s) HEAP_XMAX_INVALID); [by apply wp_ret, HQ'|].
    adv. destruct (is_set (tuple s) HEAP_IS_LOCKED); by apply wp_ret, HQ'. }
  adv. pose proof (wf_xmin _ _ (st_wf _ _ Hg)) as Hs.
  pose proof (λ t'' t' H H', st_done t' (clock s) t'' (t_xmin (tuple s)) Ep Hs H H') as Ex.
  pose proof (λ t'' H, Ex t'' (S (clock s)) H ltac:(lia)) as Ex1.
  assert (Hfin : ∀ s', step (tick (tick s)) s' → step s s' ∧ (clock s ≤ clock s ≤ clock s')%nat).
  { intros s' Hs'. split; [by eapply step_trans|]. pose proof (st_clock _ _ Hs'). cbn in *. lia. }
  destruct (env_DidCommit (W (S (clock s))) (t_xmin (tuple s))) eqn:Ed.
  - apply wp_SetHint_xid; [by eapply step_good|done| | |].
    + cbn. pose proof (Ex (clock s) (S (S (clock s))) ltac:(lia) ltac:(lia)) as E2. rewrite Ex1 in E2 by lia.
      by destruct (env_DidCommit (W (S (S (clock s)))) (t_xmin (tuple s))).
    + cbn. intros t Ht Hf. apply sound_add; [|done|hint_bit..].
      * apply (sound_mono (clock (tick (tick s)))); [done|apply Hg2..].
      * unfold just_xmin_c. rewrite Eo, Ein. split; [apply Ex1; lia|done].
    + intros s' [Hs' Hc]%Hfin. apply wp_ret. specialize (HQ _ _ Hc Hs'). by rewrite Ex1 in HQ by lia.
  - apply wp_SetHint; [by eapply step_good|done| |].
    + apply sound_add; [apply Hg2|done|hint_bit..]. cbn. unfold just_xmin_i. rewrite Eo, Ein. apply Ex1. lia.
    + intros s' [Hs' Hc]%Hfin. apply wp_ret. specialize (HQ _ _ Hc Hs'). by rewrite Ex1 in HQ by lia.
Qed.

Lemma vacuum_locked_wp Q s :
  good s → is_set (tuple s) HEAP_IS_LOCKED = true → (∀ s', step s s' → Q HEAPTUPLE_LIVE s') →
  wp (vacuum_locked_block W) Q s.
Proof using HW.
  intros Hg El HQ. unfold vacuum_locked_block. adv.
  destruct (is_set (tuple s) HEAP_XMAX_COMMITTED); cbn [negb]; [by apply wp_ret, HQ|]. adv. adv.
  pose proof (step_tick _ Hg) as Hg1.
  assert (Hset : just_xmax_i (S (clock s)) (tuple s) →
    wp (_ ← SetHintBits W HEAP_XMAX_INVALID InvalidTransactionId; mret HEAPTUPLE_LIVE) Q (tick s)).
  { intros J. apply wp_SetHint; [by eapply step_good|done| |].
    - apply sound_add; [apply Hg1|done|hint_bit..]. done.
    - intros s' Hs'. apply wp_ret, HQ. by eapply step_trans. }
  destruct (is_set (tuple s) HEAP_XMAX_IS_MULTI) eqn:Emu; adv.
  - destruct (env_MultiIsRunning (W (clock s)) (t_xmax (tuple s))) eqn:Er; [by apply wp_ret, HQ|].
    apply Hset. split; [|congruence]. unfold del. rewrite Emu.
    by rewrite (h_multi (clock s) (S (clock s)) _ ltac:(lia) Er).
  - destruct (env_IsInProgress (W (clock s)) (t_xmax (tuple s))) eqn:Ep; [by apply wp_ret, HQ|].
    apply Hset, just_xmax_i_intro; [done|].
    rewrite (xmax_ended s (clock s) Hg ltac:(lia) Ep (S (clock s)) (clock s)) by lia.
    destruct (env_DidCommit _ _); auto.
Qed.

Lemma Vacuum_wp OldestXmin s :
  good s →
  wp (HeapTupleSatisfiesVacuum W OldestXmin)
     (answer_post (λ e1 e2, vacuum_spec e1 e2 OldestXmin (tuple s)) s) s.
Proof using HW.
  intros Hg0. apply wp_and_then, vacuum_xmin_wp; [done|]. intros t1 s1 Ht1 Hs1.
  pose proof (ext_facts _ _ Hs1) as (Ed & Ex1 & Ex2 & Em & El' & Emu).
  pose proof (step_good _ _ Hs1) as Hg. pose proof (st_wf _ _ Hg) as Hwf.
  destruct (vacuum_ins_spec (W t1) (tuple s)) as [r|] eqn:Ei.
  { answer t1 t1. unfold vacuum_spec. by rewrite Ei. }
  assert (Hans : ∀ t2 s2 r, (clock s1 ≤ t2 ≤ clock s2)%nat → step s1 s2 →
     r = vacuum_del_spec (W t2) OldestXmin (tuple s1) →
     answer_post (λ e1 e2, vacuum_spec e1 e2 OldestXmin (tuple s)) s r s2).
  { intros t2 s2 r Ht2 Hs2 ->. answer t1 t2. unfold vacuum_spec. rewrite Ei.
    unfold vacuum_del_spec. by rewrite Ed, Ex2. }
  unfold vacuum_del_spec in Hans. clear Ei. adv.
  destruct (is_set (tuple s1) HEAP_XMAX_INVALID) eqn:Exi.
  { destruct (snd_xmax_i _ _ (st_sound _ _ Hg) Exi) as [Hd _].
    apply wp_ret, (Hans (clock s1)); [lia|done|by rewrite Hd]. }
  adv. destruct (is_set (tuple s1) HEAP_IS_LOCKED) eqn:El.
  { apply vacuum_locked_wp; [done..|]. intros s2 Hs2. apply (Hans (clock s1)); [|done|].
    - pose proof (st_clock _ _ Hs2). lia.
    - by destruct (del_locked (W (clock s1)) _ El) as [->| ->]. }
  adv. rewrite (not_multi _ _ Hwf El). adv. pose proof (λ e, del_unlocked e _ _ Hwf El) as Hdel.
  assert (Hgone : ∀ t2 s2, (clock s1 ≤ t2 ≤ clock s2)%nat → step s1 s2 → del (W t2) (tuple s1) = DGone →
    wp (xmax ← GetXmax;
        if negb (TransactionIdPrecedes xmax OldestXmin) then mret HEAPTUPLE_RECENTLY_DEAD
        else mret HEAPTUPLE_DEAD) (answer_post (λ e1 e2, vacuum_spec e1 e2 OldestXmin (tuple s)) s) s2).
  { intros t2 s2 Ht2 Hs2 Hd. apply (wp_get (λ s, t_xmax (tuple s))).
    destruct (ext_facts _ _ Hs2) as (_ & _ & Ex2' & _). rewrite Ex2'.
    destruct (TransactionIdPrecedes _ _) eqn:Epr; apply wp_ret, (Hans t2); try done; by rewrite Hd, ?Epr. }
  apply wp_and_then. destruct (is_set (tuple s1) HEAP_XMAX_COMMITTED) eqn:Exc; cbn [negb].
  { apply wp_ret, (Hgone (clock s1)); [lia|done|].
    by rewrite (del_just_c _ _ (snd_xmax_c _ _ (st_sound _ _ Hg) Exc)), El, (not_multi _ _ Hwf El). }
  do 2 adv. destruct (step_ticks s1 Hg) as (Hg1 & Hg2 & _).
  destruct (env_IsInProgress (W (clock s1)) (t_xmax (tuple s1))) eqn:Ep.
  { apply wp_ret, (Hans (clock s1)); [cbn; lia|done|]. rewrite Hdel. unfold xid_state. rewrite Ep.
    by destruct (env_IsCurrent _ _). }
  adv. pose proof (xmax_ended s1 (clock s1) Hg ltac:(lia) Ep) as Hend.
  pose proof (λ t H, Hend t (S (clock s1)) H ltac:(lia)) as Hst.
  assert (Hfin : ∀ s', step (tick (tick s1)) s' → step s1 s' ∧ (clock s1 ≤ clock s1 ≤ clock s')%nat).
  { intros s' Hs'. split; [by eapply step_trans|]. pose proof (st_clock _ _ Hs'). cbn in *. lia. }
  destruct (env_DidCommit (W (S (clock s1))) (t_xmax (tuple s1))) eqn:Edc.
  - apply wp_SetHint_xid; [by eapply step_good|done| | |].
    + cbn. pose proof (Hend (clock s1) (S (S (clock s1))) ltac:(lia) ltac:(lia)) as E1.
      rewrite Hst in E1 by lia. by destruct (env_DidCommit (W (S (S (clock s1)))) (t_xmax (tuple s1))).
    + cbn. intros t Ht Hf. apply sound_add; [|done|hint_bit..].
      * apply (sound_mono (clock (tick (tick s1)))); [done|apply Hg2..].
      * unfold just_xmax_c. rewrite (not_multi _ _ Hwf El). split; [apply Hst; lia|done].
    + intros s' [Hs' Hc]%Hfin. apply wp_ret, (Hgone (clock s1)); [done..|]. rewrite Hdel, Hst by lia. done.
  - apply wp_SetHint; [by eapply step_good|done| |].
    + apply sound_add; [apply Hg2|done|hint_bit..]. apply just_xmax_i_intro; [by apply (not_multi _ _ Hwf)|].
      left. apply Hst. cbn. lia.
    + intros s' [Hs' Hc]%Hfin. apply wp_ret, (Hans (clock s1)); [done..|]. by rewrite Hdel, Hst by lia.
Qed.

(** ** The properties *)

(** Snapshot isolation, against the interface.  Whatever other transactions do between the moment
    the snapshot is taken and the call, and whatever hint bits are already set,
    [HeapTupleSatisfiesMVCC] returns and its answer is the visibility of the tuple
    in the state of the system at the time of the snapshot: inserted by a
    transaction the snapshot sees (or by an earlier command of this transaction)
    and not deleted by one.  It only adds justified hint bits to the header. *)
Lemma HeapTupleSatisfiesMVCC_isolation t0 s :
  sound (clock s) (tuple s) → wf_tuple (clock s) (tuple s) → snapshot_wf (snapshot s) →
  (t0 ≤ clock s)%nat →
  covers t0 (snapshot s) (t_xmin (tuple s)) → covers t0 (snapshot s) (t_xmax (tuple s)) →
  moved_settled t0 (tuple s) →
  ∃ s', HeapTupleSatisfiesMVCC W s = Ret (mvcc_spec (W t0) (snapshot s) (tuple s), s') ∧
        hint_ext (tuple s) (tuple s') ∧ sound (clock s') (tuple s').
Proof using HW.
  intros Hs Hwf Hsn Ht0 Hmin Hmax Hmv.
  destruct (wp_answers _ _ _ (MVCC_wp s (good_intro _ Hs Hwf) Hsn))
    as (r & s' & t1 & t2 & Hr & Ht1 & Ht2 & -> & Hst).
  exists s'. split; [|split; apply Hst]. rewrite Hr. do 2 f_equal.
  apply mvcc_stable; [lia|done..].
Qed.

(** C37: [HeapTupleSatisfiesSelf] and [HeapTupleSatisfiesNow] return, and decide the
    conditions of their comments, with the inserting transaction looked at before
    the deleting one and each of them in one state of the system; they only add
    justified hint bits, a committed-hint only after the commit record has reached
    the disk. *)
Theorem HeapTupleSatisfiesSelf_Now_correct s :
  sound (clock s) (tuple s) → wf_tuple (clock s) (tuple s) →
  answers (HeapTupleSatisfiesSelf W) (λ e1 e2, self_spec e1 e2 (tuple s)) s ∧
  answers (HeapTupleSatisfiesNow W)
    (λ e1 e2, now_spec e1 e2 (env_CommandId (W 0%nat)) (tuple s)) s.
Proof using HW.
  intros Hs Hwf. split; apply wp_answers; [apply Self_wp|apply Now_wp]; by apply good_intro.
Qed.

(** [HeapTupleSatisfiesUpdate] returns its documented result code, and refines
    [HeapTupleSatisfiesNow]: for the same states of the system and command id, the
    tuple is visible to the latter exactly if the code is may-be-updated,
    self-updated or being-updated. *)
Theorem HeapTupleSatisfiesUpdate_correct s curcid :
  sound (clock s) (tuple s) → wf_tuple (clock s) (tuple s) →
  answers (HeapTupleSatisfiesUpdate W curcid) (λ e1 e2, update_spec e1 e2 curcid (tuple s)) s ∧
  ∀ e1 e2, now_spec e1 e2 curcid (tuple s) =
    match update_spec e1 e2 curcid (tuple s) with
    | HeapTupleMayBeUpdated | HeapTupleSelfUpdated | HeapTupleBeingUpdated => true
    | HeapTupleInvisible | HeapTupleUpdated => false
    end.
Proof using HW.
  intros Hs Hwf. split; [apply wp_answers, Update_wp; by apply good_intro|].
  intros e1 e2. unfold now_spec, update_spec. rewrite Z.ltb_antisym.
  destruct (ins e1 (tuple s)), (del e2 (tuple s)), (curcid <=? cmin_of e1 (tuple s)),
    (curcid <=? cmax_of e2 (tuple s)); done.
Qed.

(** [HeapTupleSatisfiesDirty] returns whether the tuple is valid when running
    transactions count as committed, and leaves in the snapshot the inserting
    transaction if it is another running one and the deleting or locking
    transaction if it is, and the invalid id otherwise. *)
Theorem HeapTupleSatisfiesDirty_correct s :
  sound (clock s) (tuple s) → wf_tuple (clock s) (tuple s) →
  ∃ r s' t1 t2, HeapTupleSatisfiesDirty W s = Ret (r, s') ∧
    (clock s ≤ t1 ≤ t2)%nat ∧ (t2 ≤ clock s')%nat ∧
    (r, snap_xmin (snapshot s'), snap_xmax (snapshot s')) = dirty_spec (W t1) (W t2) (tuple s) ∧
    hint_ext (tuple s) (tuple s') ∧ sound (clock s') (tuple s').
Proof using HW.
  intros Hs Hwf.
  destruct (proj1 (wp_iff _ _ _) (Dirty_wp s (good_intro _ Hs Hwf))) as (r & s' & Hr & t1 & t2 & H).
  by exists r, s', t1, t2.
Qed.

(** [HeapTupleSatisfiesVacuum] returns the verdict on the tuple: dead if its
    insertion has failed or a deletion has committed before the horizon,
    recently dead if a deletion has committed later, in progress while either is,
    and live otherwise; it only adds justified hint bits. *)
Theorem HeapTupleSatisfiesVacuum_correct s OldestXmin :
  sound (clock s) (tuple s) → wf_tuple (clock s) (tuple s) →
  answers (HeapTupleSatisfiesVacuum W OldestXmin) (λ e1 e2, vacuum_spec e1 e2 OldestXmin (tuple s)) s.
Proof using HW. intros Hs Hwf. apply wp_answers, Vacuum_wp. by apply good_intro. Qed.

End proofs.

(** ** Vacuum and the snapshots of other backends *)

(** Two backends see the same transactions of each other and of third parties. *)
Record same_system (W1 W2 : nat → XactEnv) `{H1 : !XactHistory W1} `{H2 : !XactHistory W2} : Prop := {
  ss_progress t x : env_IsInProgress (W2 t) x = env_IsInProgress (W1 t) x;
  ss_commit t x : env_DidCommit (W2 t) x = env_DidCommit (W1 t) x
}.

Lemma cross_state W1 W2 `{H1 : !XactHistory W1} `{H2 : !XactHistory W2} t t' x st :
  same_system W1 W2 → (t ≤ t')%nat → started (W := W1) t x = true →
  xid_state (W1 t) x = st → st = Committed ∨ st = Aborted → xid_state (W2 t') x = st.
Proof.
  intros HS Ht Hs Hst Hd. apply (xid_state_done W1 t t') in Hst as Hst'; [|done..].
  unfold xid_state in *. rewrite (ss_progress _ _ HS), (ss_commit _ _ HS).
  destruct (env_IsCurrent (W1 t') x); [destruct Hd; congruence|].
  destruct (env_IsInProgress (W1 t') x) eqn:E; [destruct Hd; congruence|].
  destruct (env_IsCurrent (W2 t') x) eqn:Ec; [|done].
  apply (h_current_running (W := W2)) in Ec. rewrite (ss_progress _ _ HS) in Ec. congruence.
Qed.

(** Facts about a tuple that one backend has found at [t] hold for another later. *)
Section cross.
Context (W1 W2 : nat → XactEnv) `{H1 : !XactHistory W1} `{H2 : !XactHistory W2}.
Context (s1 : VState) (t t' : nat) (HS : same_system W1 W2).
Context (Hwf : wf_tuple W1 (clock s1) (tuple s1)) (Ht : (clock s1 ≤ t ≤ t')%nat).

Lemma cross_tuple_state x st :
  started (W := W1) (clock s1) x = true → xid_state (W1 t) x = st →
  st = Committed ∨ st = Aborted → xid_state (W2 t') x = st.
Proof.
  intros Hx. apply (cross_state W1 W2 (H1:=H1) (H2:=H2) t t'); [done|lia|].
  apply (h_started (clock s1)); [lia|done].
Qed.

Lemma vacuum_ins_dead :
  vacuum_ins_spec (W1 t) (tuple s1) = Some HEAPTUPLE_DEAD → ins (W2 t') (tuple s1) = Aborted.
Proof.
  unfold vacuum_ins_spec, ins. pose proof (moved_started _ _ _ Hwf) as Svac.
  destruct (is_set (tuple s1) HEAP_MOVED_OFF).
  { destruct (xid_state (W1 t) _) eqn:E; try done. by rewrite (cross_tuple_state _ _ (Svac ltac:(auto)) E) by auto. }
  destruct (is_set (tuple s1) HEAP_MOVED_IN).
  { destruct (xid_state (W1 t) _) eqn:E; try done. by rewrite (cross_tuple_state _ _ (Svac ltac:(auto)) E) by auto. }
  destruct (xid_state (W1 t) _) eqn:E; try done; [by destruct (_ || _)..|].
  intros _. apply (cross_tuple_state _ _ (wf_xmin _ _ _ Hwf) E). auto.
Qed.

Lemma vacuum_ins_committed :
  vacuum_ins_spec (W1 t) (tuple s1) = None → ins (W2 t') (tuple s1) = Committed.
Proof.
  unfold vacuum_ins_spec, ins. pose proof (moved_started _ _ _ Hwf) as Svac.
  destruct (is_set (tuple s1) HEAP_MOVED_OFF).
  { destruct (xid_state (W1 t) _) eqn:E; try done. by rewrite (cross_tuple_state _ _ (Svac ltac:(auto)) E) by auto. }
  destruct (is_set (tuple s1) HEAP_MOVED_IN).
  { destruct (xid_state (W1 t) _) eqn:E; try done. by rewrite (cross_tuple_state _ _ (Svac ltac:(auto)) E) by auto. }
  destruct (xid_state (W1 t) _) eqn:E; try done.
  intros _. apply (cross_tuple_state _ _ (wf_xmin _ _ _ Hwf) E). auto.
Qed.

Lemma vacuum_del_gone : del (W1 t) (tuple s1) = DGone → del (W2 t') (tuple s1) = DGone.
Proof.
  unfold del. destruct (is_set (tuple s1) HEAP_XMAX_IS_MULTI); [by destruct (env_MultiIsRunning (W1 t) _)|].
  destruct (xid_state (W1 t) _) eqn:E; try by destruct (is_set (tuple s1) HEAP_IS_LOCKED).
  by rewrite (cross_tuple_state _ _ (wf_xmax _ _ _ Hwf) E) by auto.
Qed.

End cross.

Lemma not_in_snapshot_old e sn x o :
  TransactionIdPrecedes x o = true →
  (x = InvalidTransactionId ∨ ∃ a b m, x = uint32_of a ∧ o = uint32_of b ∧ snap_xmin sn = uint32_of m ∧
     full_xid a ∧ full_xid b ∧ full_xid m ∧ near a b ∧ near a m ∧ b ≤ m) →
  snap_xmin sn ≠ InvalidTransactionId → 0 ≤ snap_xmin sn →
  in_snapshot e sn x = false.
Proof.
  intros Hp Hx Hv Hn. unfold in_snapshot. assert (TransactionIdPrecedes x (snap_xmin sn) = true) as ->; [|done].
  destruct Hx as [->|(a & b & m & -> & -> & -> & Ha & Hb & Hm & Hab & Ham & Hle)].
  - unfold InvalidTransactionId in *. unfold TransactionIdPrecedes.
    change (TransactionIdIsNormal 0) with false. cbn [negb orb]. apply Z.ltb_lt. lia.
  - rewrite full_precedes in * by done. rewrite Z.ltb_lt in *. lia.
Qed.

(** VACUUM removes nothing that anybody can see, against the interface: if a backend finds a tuple
    dead with horizon [OldestXmin], then any other backend that looks at the tuple
    afterwards, with whatever hint bits it then has, under an MVCC snapshot whose
    [xmin] is not older than the horizon, gets the answer that it is invisible. *)
Lemma vacuum_dead_is_invisible W1 W2 `{H1 : !XactHistory W1} `{H2 : !XactHistory W2}
    h s1 s2 s1' OldestXmin :
  same_system W1 W2 →
  sound W1 (clock s1) (tuple s1) → wf_tuple W1 (clock s1) (tuple s1) →
  sound W2 (clock s2) (tuple s2) → wf_tuple W2 (clock s2) (tuple s2) →
  hint_ext h (tuple s1) → hint_ext h (tuple s2) →
  HeapTupleSatisfiesVacuum W1 OldestXmin s1 = Ret (HEAPTUPLE_DEAD, s1') →
  (clock s1' ≤ clock s2)%nat →
  snapshot_wf (snapshot s2) → snap_xmin (snapshot s2) ≠ InvalidTransactionId → 0 ≤ snap_xmin (snapshot s2) →
  (t_xmax h = InvalidTransactionId ∨
     ∃ a b m, t_xmax h = uint32_of a ∧ OldestXmin = uint32_of b ∧ snap_xmin (snapshot s2) = uint32_of m ∧
     full_xid a ∧ full_xid b ∧ full_xid m ∧ near a b ∧ near a m ∧ b ≤ m) →
  ∃ s2', HeapTupleSatisfiesMVCC W2 s2 = Ret (false, s2').
Proof.
  intros HS Hs1 Hw1 Hs2 Hw2 He1 He2 Hvac Hclk Hsn Hv Hnn Hord.
  destruct (wp_answers W1 _ _ _ (Vacuum_wp W1 OldestXmin s1 (good_intro W1 _ Hs1 Hw1)))
    as (r & s1'' & t1 & t2 & Hr & Ht1 & Ht2 & Hspec & _).
  rewrite Hvac in Hr. injection Hr as <- <-.
  destruct (wp_answers W2 _ _ _ (MVCC_wp W2 s2 (good_intro W2 _ Hs2 Hw2) Hsn))
    as (r & s2' & t3 & t4 & Hr & Ht3 & Ht4 & -> & _).
  exists s2'. rewrite Hr. do 2 f_equal. unfold mvcc_spec2.
  rewrite (ins_ext _ _ _ He2), (del_ext _ _ _ He2), <- (ins_ext _ _ _ He1), <- (del_ext _ _ _ He1).
  unfold vacuum_spec in Hspec.
  destruct (vacuum_ins_spec (W1 t1) (tuple s1)) as [r|] eqn:Ei.
  - subst r. by rewrite (vacuum_ins_dead W1 W2 s1 t1 t3 HS Hw1 ltac:(lia) Ei).
  - rewrite (vacuum_ins_committed W1 W2 s1 t1 t3 HS Hw1 ltac:(lia) Ei).
    unfold vacuum_del_spec in Hspec. destruct (del (W1 t2) (tuple s1)) eqn:Ed; try done.
    destruct (TransactionIdPrecedes (t_xmax (tuple s1)) OldestXmin) eqn:Ep; [|done].
    rewrite (vacuum_del_gone W1 W2 s1 t2 t4 HS Hw1 ltac:(lia) Ed).
    assert (Ex1 : t_xmax (tuple s1) = t_xmax h) by apply He1.
    assert (Ex2 : t_xmax (tuple s2) = t_xmax h) by apply He2.
    rewrite Ex2, (not_in_snapshot_old (W2 t4) (snapshot s2) (t_xmax h) OldestXmin);
      [apply andb_false_r|by rewrite <- Ex1|done..].
Qed.

(** ** Snapshots with and without subtransactions *)

(** The running transaction trees when a snapshot is taken: the top-level ids and
    for each id its top-level transaction. *)
Definition same_running (tops subs : list TransactionId) (top : TransactionId → TransactionId) : Prop :=
  (∀ x, x ∈ subs → top x ∈ tops) ∧ (∀ x, top x ∈ tops → x ∈ subs ∨ x ∈ tops) ∧
  (∀ x, x ∈ tops → top x = x).

(** A snapshot that could not keep the subtransaction ids and asks
    [pg_subtrans] for the top-level transaction gives the same answers as the
    complete snapshot of the same running transactions, when no running top-level
    transaction precedes the snapshot's [xmin]; both return. *)
Theorem XidInMVCCSnapshot_overflow W `{HW : !XactHistory W} s x tops subs :
  sound W (clock s) (tuple s) → wf_tuple W (clock s) (tuple s) →
  same_running tops subs (env_Topmost (W 0%nat)) →
  Forall (λ y, TransactionIdPrecedes y (snap_xmin (snapshot s)) = false) tops →
  let full := mkSnapshot (snap_xmin (snapshot s)) (snap_xmax (snapshot s))
     (Z.of_nat (length tops)) tops (Z.of_nat (length subs)) subs false false (snap_curcid (snapshot s)) in
  let overflowed := mkSnapshot (snap_xmin (snapshot s)) (snap_xmax (snapshot s))
     (Z.of_nat (length tops)) tops 0 [] true false (snap_curcid (snapshot s)) in
  ∃ r s1 s2,
    XidInMVCCSnapshot W x (mkV (clock s) (tuple s) (needs_save s) full) = Ret (r, s1) ∧
    XidInMVCCSnapshot W x (mkV (clock s) (tuple s) (needs_save s) overflowed) = Ret (r, s2).
Proof.
  intros Hs Hwf (Hsub & Htop & Hself) Hmin full overflowed.
  assert (Hrun : ∀ sn, snapshot_wf sn → ∃ s', XidInMVCCSnapshot W x
     (mkV (clock s) (tuple s) (needs_save s) sn) = Ret (in_snapshot (W 0%nat) sn x, s')).
  { intros sn Hsn. set (s0 := mkV (clock s) (tuple s) (needs_save s) sn).
    destruct (proj1 (wp_iff _ _ _) (XidInMVCCSnapshot_wp W x (λ r _, r = in_snapshot (W 0%nat) sn x)
      s0 0%nat (good_intro W s0 Hs Hwf) Hsn ltac:(done))) as (r & s' & Hr & ->).
    by exists s'. }
  destruct (Hrun full) as [s1 H1]; [subst full; split; cbn; lia|].
  destruct (Hrun overflowed) as [s2 H2]; [subst overflowed; split; cbn; lia|].
  exists (in_snapshot (W 0%nat) full x), s1, s2. split; [done|]. rewrite H2. do 2 f_equal.
  subst full overflowed. unfold in_snapshot. cbn -[TransactionIdPrecedes TransactionIdFollowsOrEquals].
  rewrite !Nat2Z.id, !firstn_all.
  destruct (TransactionIdPrecedes x _) eqn:Ep; [done|].
  destruct (TransactionIdFollowsOrEquals x _); [done|].
  rewrite Forall_forall in Hmin. set (y := env_Topmost (W 0%nat) x) in *.
  destruct (decide (y ∈ tops)) as [Hy|Hy].
  - rewrite (Hmin y Hy), (bool_decide_eq_true_2 (y ∈ tops)) by done.
    destruct (Htop x Hy); [rewrite (bool_decide_eq_true_2 (x ∈ subs)) by done; done|].
    rewrite (bool_decide_eq_true_2 (x ∈ tops)) by done. by rewrite orb_true_r.
  - rewrite (bool_decide_eq_false_2 (y ∈ tops)) by done.
    rewrite (bool_decide_eq_false_2 (x ∈ subs)) by (intros ?; by apply Hy, Hsub).
    rewrite (bool_decide_eq_false_2 (x ∈ tops)) by (intros Hx; apply Hy; unfold y; by rewrite Hself).
    by destruct (TransactionIdPrecedes y _).
Qed.

(** ** Witnesses: a small system

    Transactions 98, 99 and 100 committed, 103 aborted, 102 is the current
    transaction, and 101 belongs to another backend and commits at time 5. *)
Definition ex_env (t : nat) : XactEnv := mkEnv
  (λ x, x =? 102) (λ x, (x =? 102) || ((x =? 101) && (t <? 5)%nat))
  (λ x, bool_decide (x ∈ [2; 98; 99; 100]) || ((x =? 101) && (5 <=? t)%nat))
  (λ _, false) (λ _, InvalidXLogRecPtr) (λ _, false)
  (λ x, x) 7 (mkCombo None [] 0 0).

#[global] Instance ex_history : XactHistory ex_env.
Proof.
  refine {| started := λ _ x, x <? 200 |}; try done.
  - intros t x H. cbn in *. by rewrite H.
  - intros t x H. cbn. apply Z.ltb_ge in H.
    rewrite (proj2 (Z.eqb_neq x 102)), (proj2 (Z.eqb_neq x 101)) by lia. cbn [andb orb].
    rewrite bool_decide_eq_false_2, orb_false_r; [done|]. rewrite !elem_of_cons, elem_of_nil. lia.
  - intros t t' x Ht _. cbn [ex_env env_IsInProgress env_DidCommit].
    destruct (Z.eqb_spec x 102); [done|]. destruct (Z.eqb_spec x 101); cbn [andb orb]; [|done].
    intros H%Nat.ltb_ge. split; [by apply Nat.ltb_ge; lia|]. f_equal.
    rewrite !(proj2 (Nat.leb_le _ _)) by lia. done.
Defined.

Definition ex_tuple (xmin xmax cid : Z) : HeapTupleHeader := mkTuple xmin xmax cid 0.
Definition ex_snapshot : SnapshotData := mkSnapshot 101 103 1 [101] 0 [] false false 7.
Definition ex_state (t : nat) (h : HeapTupleHeader) : VState := mkV t h false ex_snapshot.

Lemma ex_sound t xmin xmax cid : sound ex_env t (ex_tuple xmin xmax cid).
Proof. by split. Qed.
Lemma ex_wf t xmin xmax cid :
  xmin < 200 → xmax < 200 → xmin ≠ 102 → wf_tuple ex_env t (ex_tuple xmin xmax cid).
Proof.
  intros H1 H2 H3. assert (env_IsCurrent (ex_env 0) xmin = false) as Hn by (by apply Z.eqb_neq).
  split; cbn [ex_tuple t_xmin t_xmax]; try done.
  - by apply Z.ltb_lt.
  - by apply Z.ltb_lt.
  - rewrite Hn. done.
  - rewrite Hn. done.
  - intros Hc _. exists cid. unfold HeapTupleHeaderGetCmax. cbn [ex_tuple t_xmax t_infomask].
    rewrite Hc. reflexivity.
Qed.

Lemma HeapTupleSatisfiesSelf_Now_correct_witness :
  answers ex_env (HeapTupleSatisfiesNow ex_env)
    (λ e1 e2, now_spec e1 e2 7 (ex_tuple 100 101 0)) (ex_state 3 (ex_tuple 100 101 0)).
Proof.
  apply (HeapTupleSatisfiesSelf_Now_correct ex_env (ex_state 3 (ex_tuple 100 101 0)));
    [apply ex_sound|apply ex_wf; lia].
Defined.

Lemma HeapTupleSatisfiesUpdate_correct_witness :
  answers ex_env (HeapTupleSatisfiesUpdate ex_env 7)
    (λ e1 e2, update_spec e1 e2 7 (ex_tuple 100 102 3)) (ex_state 3 (ex_tuple 100 102 3)).
Proof.
  apply (HeapTupleSatisfiesUpdate_correct ex_env (ex_state 3 (ex_tuple 100 102 3)) 7);
    [apply ex_sound|apply ex_wf; lia].
Defined.

Lemma HeapTupleSatisfiesDirty_correct_witness :
  ∃ r s', HeapTupleSatisfiesDirty ex_env (ex_state 1 (ex_tuple 101 0 0)) = Ret (r, s') ∧
    hint_ext (ex_tuple 101 0 0) (tuple s').
Proof.
  destruct (HeapTupleSatisfiesDirty_correct ex_env (ex_state 1 (ex_tuple 101 0 0)))
    as (r & s' & t1 & t2 & H1 & _ & _ & _ & H2 & _); [apply ex_sound|apply ex_wf; lia|].
  exists r, s'. split; [exact H1|exact H2].
Defined.

Lemma HeapTupleSatisfiesVacuum_correct_witness :
  answers ex_env (HeapTupleSatisfiesVacuum ex_env 100)
    (λ e1 e2, vacuum_spec e1 e2 100 (ex_tuple 98 99 0)) (ex_state 3 (ex_tuple 98 99 0)).
Proof.
  apply (HeapTupleSatisfiesVacuum_correct ex_env (ex_state 3 (ex_tuple 98 99 0)) 100);
    [apply ex_sound|apply ex_wf; lia].
Defined.

Lemma XidInMVCCSnapshot_overflow_witness :
  ∃ r s1 s2,
    XidInMVCCSnapshot ex_env 101 (mkV 0 (ex_tuple 98 99 0) false
      (mkSnapshot 101 103 1 [101] 0 [] false false 7)) = Ret (r, s1) ∧
    XidInMVCCSnapshot ex_env 101 (mkV 0 (ex_tuple 98 99 0) false
      (mkSnapshot 101 103 1 [101] 0 [] true false 7)) = Ret (r, s2).
Proof.
  apply (XidInMVCCSnapshot_overflow ex_env (ex_state 0 (ex_tuple 98 99 0)) 101 [101] []).
  - apply ex_sound.
  - apply ex_wf; lia.
  - split_and!; [set_solver|by right|done].
  - by constructor.
Defined.
