(* ===== verification/ProcArray.v ===== *)
(** * The array of active processes

    [backend/storage/ipc/procarray.c]: which transactions are running, who is asked
    by every snapshot.

    The routines that change the set of running transactions hold [ProcArrayLock]
    exclusively; each of them is one atomic step on the shared memory of [VarSup].
    The routines that read the array hold the lock in shared mode: meanwhile other
    backends can still take new ids, set or clear their [xmin], and so on, between any
    two fetches.  A reader therefore runs against a sequence of views: [V k] is the
    shared memory at its [k]-th fetch. *)

From S2P Require Import Prelude Xid Clog KnownXids VarSup Htup Tqual.

(** ** Changes of the array, under the exclusive lock *)

(** [if (TransactionIdPrecedes(latestCompletedXid, latestXid)) latestCompletedXid = latestXid] *)
Definition advance_latest (latestXid : TransactionId) : cmd Shmem unit :=
  s ← get_shmem;
  let v := ShmemVariableCache s in
  if TransactionIdPrecedes (latestCompletedXid v) latestXid then
    set_vars (mkVars (nextOid v) (oidCount v) (nextXid v) (oldestXid v) (xidVacLimit v) (xidWarnLimit v)
                (xidStopLimit v) (xidWrapLimit v) (oldestXidDB v) latestXid)
  else mret tt.

Definition ProcArrayAdd (proc : Z) : cmd Shmem unit :=
  s ← get_shmem;
  if maxProcs s <=? Z.of_nat (length (procs s)) then ereport ERRCODE_TOO_MANY_CONNECTIONS
  else set_procs (procs s ++ [proc]).

(** [for (index = 0; index < numProcs; index++)]: the element found is replaced by the last
    one, which is dropped; [l] are the elements still to be looked at, in order. *)
Fixpoint remove_loop (proc : Z) (done l : list Z) : list Z :=
  match l with
  | [] => done
  | q :: rest =>
      if q =? proc then
        match last rest with
        | Some z => done ++ z :: take (length rest - 1) rest
        | None => done
        end
      else remove_loop proc (done ++ [q]) rest
  end.

Definition ProcArrayRemove (proc : Z) (latestXid : TransactionId) : cmd Shmem unit :=
  p ← get_proc proc;
  _ ← (if TransactionIdIsValid latestXid then
         _ ← Assert (TransactionIdIsValid (xid p));
         advance_latest latestXid
       else Assert (negb (TransactionIdIsValid (xid p))));
  s ← get_shmem;
  set_procs (remove_loop proc [] (procs s)).

(** The fields that every end of a transaction clears. *)
Definition clear_fields (p : PGPROC) (x : TransactionId) (c : XidCache) : PGPROC :=
  mkProc 0 x InvalidTransactionId (pid p) (databaseId p) false
    (Z.land (vacuumFlags p) (Z.lnot PROC_VACUUM_STATE_MASK)) false c.
Definition empty_cache (c : XidCache) : XidCache := mkXidCache false 0 (xids c).

Definition ProcArrayEndTransaction (proc : Z) (latestXid : TransactionId) : cmd Shmem unit :=
  p ← get_proc proc;
  if TransactionIdIsValid latestXid then
    _ ← Assert (TransactionIdIsValid (xid p));
    _ ← set_proc proc (clear_fields p InvalidTransactionId (empty_cache (subxids p)));
    advance_latest latestXid
  else
    _ ← Assert (negb (TransactionIdIsValid (xid p)));
    _ ← set_proc proc (clear_fields p (xid p) (subxids p));
    _ ← Assert (nxids (subxids p) =? 0);
    Assert (negb (overflowed (subxids p))).

Definition ProcArrayClearTransaction (proc : Z) : cmd Shmem unit :=
  p ← get_proc proc;
  set_proc proc (clear_fields p InvalidTransactionId (empty_cache (subxids p))).

(** *** Aborted subtransactions *)

(** [XidCacheRemove(i)] *)
Definition XidCacheRemove (c : XidCache) (i : Z) : outcome XidCache :=
  x ← arr_get (xids c) (nxids c - 1);
  xs ← arr_set (xids c) i x;
  Ret (mkXidCache (overflowed c) (nxids c - 1) xs).

(** [for (j = nxids - 1; j >= 0; j--)]: removes the id; [None] if it is not there. *)
Fixpoint remove_one (n : nat) (anxid : TransactionId) (c : XidCache) : outcome (option XidCache) :=
  match n with
  | O => Ret None
  | S n =>
      x ← arr_get (xids c) (Z.of_nat n);
      if TransactionIdEquals x anxid then c' ← XidCacheRemove c (Z.of_nat n); Ret (Some c')
      else remove_one n anxid c
  end.

(** An id that is not found is only worth a warning. *)
Definition remove_if_found (anxid : TransactionId) (c : XidCache) : outcome XidCache :=
  r ← remove_one (Z.to_nat (nxids c)) anxid c;
  Ret (default c r).

(** [for (i = nxids - 1; i >= 0; i--)] *)
Fixpoint remove_each (n : nat) (xs : list TransactionId) (c : XidCache) : outcome XidCache :=
  match n with
  | O => Ret c
  | S n =>
      anxid ← arr_get xs (Z.of_nat n);
      c' ← remove_if_found anxid c;
      remove_each n xs c'
  end.

Definition XidCacheRemoveRunningXids (MyProc : Z) (subxid : TransactionId) (nxids : Z)
    (xids : list TransactionId) (latestXid : TransactionId) : cmd Shmem unit :=
  _ ← Assert (TransactionIdIsValid subxid);
  p ← get_proc MyProc;
  c ← lift (remove_each (Z.to_nat nxids) xids (subxids p));
  c ← lift (remove_if_found subxid c);
  _ ← set_proc MyProc (with_xid p (xid p) c);
  advance_latest latestXid.

(** ** Readers of the array, under the shared lock *)

(** The backend's own variables; [my_xmin] is [MyProc->xmin]. *)
Record Reader := mkReader {
  clk : nat;
  my_xmin : TransactionId;
  TransactionXmin : TransactionId;
  RecentXmin : TransactionId;
  RecentGlobalXmin : TransactionId
}.

Section readers.
Context (V : nat → Shmem) (MyProc : Z).

Definition fetch {A} (f : Shmem → outcome A) : cmd Reader A := λ r,
  a ← f (V (clk r));
  Ret (a, mkReader (S (clk r)) (my_xmin r) (TransactionXmin r) (RecentXmin r) (RecentGlobalXmin r)).
Definition get_reader : cmd Reader Reader := λ r, Ret (r, r).
(** A field of [arrayP->procs[index]]. *)
Definition fetch_index (index : Z) : cmd Reader Z := fetch (λ s, arr_get (procs s) index).
Definition fetch_proc {A} (p : Z) (f : PGPROC → A) : cmd Reader A :=
  fetch (λ s, x ← arr_get (allProcs s) p; Ret (f x)).
Definition fetch_subxid (p j : Z) : cmd Reader TransactionId :=
  fetch (λ s, x ← arr_get (allProcs s) p; arr_get (xids (subxids x)) j).
Definition fetch_numProcs : cmd Reader Z := fetch (λ s, Ret (Z.of_nat (length (procs s)))).

(** *** Snapshots *)

Definition has_flag (flags mask : Z) : bool := negb (Z.land flags mask =? 0).
Definition older (x y : TransactionId) : TransactionId :=
  if TransactionIdIsNormal x && TransactionIdPrecedes x y then x else y.

Record SnapAcc := mkAcc {
  a_globalxmin : TransactionId;
  a_xmin : TransactionId;
  a_xip : list TransactionId;
  a_subxip : list TransactionId;
  a_suboverflowed : bool
}.

(** [snapshot->xip[count++] = xid] in an array of [cap] elements. *)
Definition push (cap : Z) (l : list TransactionId) (x : TransactionId) : outcome (list TransactionId) :=
  if Z.of_nat (length l) <? cap then Ret (l ++ [x]) else UB.

(** The [memcpy] of the cached subtransaction ids, [j] of [j + n] being copied. *)
Fixpoint copy_subxids (cap : Z) (p : Z) (n : nat) (j : Z) (l : list TransactionId)
    : cmd Reader (list TransactionId) :=
  match n with
  | O => mret l
  | S n =>
      x ← fetch_subxid p j;
      l ← lift (push cap l x);
      copy_subxids cap p n (j + 1) l
  end.

Definition snapshot_subxids (subcap p : Z) (a : SnapAcc) : cmd Reader SnapAcc :=
  if negb (a_suboverflowed a) && negb (p =? MyProc) then
    ov ← fetch_proc p (λ x, overflowed (subxids x));
    if ov : bool then mret (mkAcc (a_globalxmin a) (a_xmin a) (a_xip a) (a_subxip a) true)
    else
      n ← fetch_proc p (λ x, nxids (subxids x));
      l ← copy_subxids subcap p (Z.to_nat n) 0 (a_subxip a);
      mret (mkAcc (a_globalxmin a) (a_xmin a) (a_xip a) l false)
  else mret a.

Definition snapshot_step (cap subcap : Z) (xmax : TransactionId) (index : Z) (a : SnapAcc)
    : cmd Reader SnapAcc :=
  p ← fetch_index index;
  flags ← fetch_proc p vacuumFlags;
  if has_flag flags PROC_IN_VACUUM then mret a else
  x ← fetch_proc p xmin;
  let globalxmin := older x (a_globalxmin a) in
  x ← fetch_proc p xid;
  if TransactionIdIsNormal x then
    if TransactionIdFollowsOrEquals x xmax
    then mret (mkAcc globalxmin (a_xmin a) (a_xip a) (a_subxip a) (a_suboverflowed a)) else
    xip ← (if negb (p =? MyProc) then lift (push cap (a_xip a) x) else mret (a_xip a));
    let xmin := if TransactionIdPrecedes x (a_xmin a) then x else a_xmin a in
    snapshot_subxids subcap p (mkAcc globalxmin xmin xip (a_subxip a) (a_suboverflowed a))
  else
    snapshot_subxids subcap p (mkAcc globalxmin (a_xmin a) (a_xip a) (a_subxip a) (a_suboverflowed a)).

Fixpoint snapshot_loop (cap subcap : Z) (xmax : TransactionId) (n : nat) (index : Z) (a : SnapAcc)
    : cmd Reader SnapAcc :=
  match n with
  | O => mret a
  | S n =>
      a ← snapshot_step cap subcap xmax index a;
      snapshot_loop cap subcap xmax n (index + 1) a
  end.

Context (PROCARRAY_MAXPROCS vacuum_defer_cleanup_age : Z).
Definition TOTAL_MAX_CACHED_SUBXIDS : Z := (PGPROC_MAX_CACHED_SUBXIDS + 1) * PROCARRAY_MAXPROCS.

(** The known-assigned ids of a standby, read in one piece: the entries between tail and
    head do not change under the lock. *)
Definition fetch_known (xmin xmax : TransactionId) : cmd Reader (list TransactionId * TransactionId) :=
  fetch (λ s, '(r, _) ← KnownAssignedXidsGetAndSetXmin xmin xmax (known_assigned s); Ret r).

Definition minus_defer_age (x : TransactionId) : TransactionId :=
  let x := uint32_of (x - vacuum_defer_cleanup_age) in
  if TransactionIdIsNormal x then x else FirstNormalTransactionId.

(** [MyProc->xmin], [TransactionXmin], [RecentGlobalXmin] and [RecentXmin] are set. *)
Definition publish_xmin (xmin globalxmin : TransactionId) : cmd Reader unit := λ r,
  let first := negb (TransactionIdIsValid (my_xmin r)) in
  Ret (tt, mkReader (clk r) (if first then xmin else my_xmin r)
             (if first then xmin else TransactionXmin r) xmin (minus_defer_age globalxmin)).

Definition GetSnapshotData (GetCurrentCommandId : CommandId) : cmd Reader SnapshotData :=
  xmax ← fetch (λ s, Ret (latestCompletedXid (ShmemVariableCache s)));
  _ ← Assert (TransactionIdIsNormal xmax);
  let xmax := TransactionIdAdvance xmax in
  recovery ← fetch (λ s, Ret (RecoveryInProgress s));
  cap ← fetch (λ s, Ret (maxProcs s));
  a ← (if negb recovery then
         n ← fetch_numProcs;
         snapshot_loop cap TOTAL_MAX_CACHED_SUBXIDS xmax (Z.to_nat n) 0 (mkAcc xmax xmax [] [] false)
       else
         '(subxip, xmin) ← fetch_known xmax xmax;
         lastOverflowedXid ← fetch (λ s, Ret (lastOverflowedXid s));
         mret (mkAcc xmax xmin [] subxip (TransactionIdPrecedesOrEquals xmin lastOverflowedXid)));
  let globalxmin := if TransactionIdPrecedes (a_xmin a) (a_globalxmin a) then a_xmin a
                    else a_globalxmin a in
  _ ← publish_xmin (a_xmin a) globalxmin;
  mret (mkSnapshot (a_xmin a) xmax (Z.of_nat (length (a_xip a))) (a_xip a)
          (Z.of_nat (length (a_subxip a))) (a_subxip a) (a_suboverflowed a) recovery GetCurrentCommandId).

(** *** The oldest transaction anyone may need *)

Context (MyDatabaseId : Oid).

Definition oldest_step (allDbs ignoreVacuum : bool) (index : Z) (result : TransactionId)
    : cmd Reader TransactionId :=
  p ← fetch_index index;
  flags ← (if ignoreVacuum then fetch_proc p vacuumFlags else mret 0);
  if ignoreVacuum && has_flag flags PROC_IN_VACUUM then mret result else
  db ← fetch_proc p databaseId;
  if allDbs || (db =? MyDatabaseId) || (db =? 0) then
    x ← fetch_proc p xid;
    let result := older x result in
    x ← fetch_proc p xmin;
    mret (older x result)
  else mret result.

Fixpoint oldest_loop (allDbs ignoreVacuum : bool) (n : nat) (index : Z) (result : TransactionId)
    : cmd Reader TransactionId :=
  match n with
  | O => mret result
  | S n =>
      result ← oldest_step allDbs ignoreVacuum index result;
      oldest_loop allDbs ignoreVacuum n (index + 1) result
  end.

Definition fetch_known_oldest : cmd Reader TransactionId :=
  fetch (λ s, '(r, _) ← KnownAssignedXidsGetOldestXmin (known_assigned s); Ret r).

Definition GetOldestXmin (allDbs ignoreVacuum : bool) : cmd Reader TransactionId :=
  recovery ← fetch (λ s, Ret (RecoveryInProgress s));
  _ ← Assert (allDbs || negb recovery);
  result ← fetch (λ s, Ret (latestCompletedXid (ShmemVariableCache s)));
  _ ← Assert (TransactionIdIsNormal result);
  n ← fetch_numProcs;
  result ← oldest_loop allDbs ignoreVacuum (Z.to_nat n) 0 (TransactionIdAdvance result);
  recovery ← fetch (λ s, Ret (RecoveryInProgress s));
  if recovery : bool then
    kaxmin ← fetch_known_oldest;
    mret (older kaxmin result)
  else mret (minus_defer_age result).

(** *** Is a transaction running? *)

(** [transam.c], [xact.c] and [subtrans.c], asked at the [k]-th step. *)
Context (KnownCompleted IsCurrent DidAbort : nat → TransactionId → bool).
Context (Topmost : nat → TransactionId → TransactionId).
Definition ask {A} (f : nat → A) : cmd Reader A := λ r,
  Ret (f (clk r), mkReader (S (clk r)) (my_xmin r) (TransactionXmin r) (RecentXmin r) (RecentGlobalXmin r)).

(** [for (j = nxids - 1; j >= 0; j--)] *)
Fixpoint child_loop (p : Z) (n : nat) (xid : TransactionId) : cmd Reader bool :=
  match n with
  | O => mret false
  | S n =>
      cxid ← fetch_subxid p (Z.of_nat n);
      if TransactionIdEquals cxid xid then mret true else child_loop p n xid
  end.

(** One process: [None] if the id is found, else the ids saved for [pg_subtrans]. *)
Definition progress_step (x : TransactionId) (index : Z) (saved : list TransactionId)
    : cmd Reader (option (list TransactionId)) :=
  p ← fetch_index index;
  if p =? MyProc then mret (Some saved) else
  pxid ← fetch_proc p xid;
  if negb (TransactionIdIsValid pxid) then mret (Some saved) else
  if TransactionIdEquals pxid x then mret None else
  if TransactionIdPrecedes x pxid then mret (Some saved) else
  n ← fetch_proc p (λ q, nxids (subxids q));
  found ← child_loop p (Z.to_nat n) x;
  if found : bool then mret None else
  ov ← fetch_proc p (λ q, overflowed (subxids q));
  mret (Some (if ov : bool then saved ++ [pxid] else saved)).

Fixpoint progress_loop (x : TransactionId) (n : nat) (index : Z) (saved : list TransactionId)
    : cmd Reader (option (list TransactionId)) :=
  match n with
  | O => mret (Some saved)
  | S n =>
      r ← progress_step x index saved;
      match r with
      | None => mret None
      | Some saved => progress_loop x n (index + 1) saved
      end
  end.

(** Step 4: the subtransaction's top-level transaction among the saved ids. *)
Definition progress_subtrans (x : TransactionId) (saved : list TransactionId) : cmd Reader bool :=
  match saved with
  | [] => mret false
  | _ =>
      aborted ← ask (λ k, DidAbort k x);
      if aborted : bool then mret false else
      topxid ← ask (λ k, Topmost k x);
      _ ← Assert (TransactionIdIsValid topxid);
      mret (if negb (TransactionIdEquals topxid x) then bool_decide (topxid ∈ saved) else false)
  end.

Definition TransactionIdIsInProgress (x : TransactionId) : cmd Reader bool :=
  r ← get_reader;
  if TransactionIdPrecedes x (RecentXmin r) then mret false else
  known ← ask (λ k, KnownCompleted k x);
  if known : bool then mret false else
  mine ← ask (λ k, IsCurrent k x);
  if mine : bool then mret true else
  latest ← fetch (λ s, Ret (latestCompletedXid (ShmemVariableCache s)));
  if TransactionIdPrecedes latest x then mret true else
  n ← fetch_numProcs;
  found ← progress_loop x (Z.to_nat n) 0 [];
  match found with
  | None => mret true
  | Some saved =>
      recovery ← fetch (λ s, Ret (RecoveryInProgress s));
      if recovery : bool then
        _ ← Assert (bool_decide (saved = []));
        ex ← fetch (λ s, '(b, _) ← KnownAssignedXidExists x (known_assigned s); Ret b);
        if ex : bool then mret true else
        lastOv ← fetch (λ s, Ret (lastOverflowedXid s));
        saved ← (if TransactionIdPrecedesOrEquals x lastOv
                 then fetch (λ s, '(l, _) ← KnownAssignedXidsGet x (known_assigned s); Ret l)
                 else mret []);
        progress_subtrans x saved
      else progress_subtrans x saved
  end.

(** [for (i = 0; i < numProcs; i++)] of [TransactionIdIsActive] *)
Fixpoint active_loop (x : TransactionId) (n : nat) (index : Z) : cmd Reader bool :=
  match n with
  | O => mret false
  | S n =>
      p ← fetch_index index;
      pxid ← fetch_proc p xid;
      if negb (TransactionIdIsValid pxid) then active_loop x n (index + 1) else
      procpid ← fetch_proc p pid;
      if procpid =? 0 then active_loop x n (index + 1) else
      if TransactionIdEquals pxid x then mret true else active_loop x n (index + 1)
  end.

Definition TransactionIdIsActive (x : TransactionId) : cmd Reader bool :=
  r ← get_reader;
  if TransactionIdPrecedes x (RecentXmin r) then mret false else
  n ← fetch_numProcs;
  active_loop x (Z.to_nat n) 0.

End readers.

(** ** Specification *)

Section spec.
Context (base latest : Z).

(** An id assigned after [latest]. *)
Definition young (v : TransactionId) : Prop := ∃ c, window base c ∧ latest < c ∧ v = uint32_of c.

Definition cached (p : PGPROC) : list TransactionId :=
  take (Z.to_nat (nxids (subxids p))) (xids (subxids p)).

(** The process runs the transaction tree [tree]: its top-level transaction and the
    subtransactions that have not aborted. *)
Record proc_ok (p : PGPROC) (tree : list Z) : Prop := {
  po_cache : cache_wf (subxids p);
  po_window : Forall (window base) tree;
  po_top : match tree with
           | [] => xid p = InvalidTransactionId ∧ nxids (subxids p) = 0 ∧ overflowed (subxids p) = false
           | t :: subs => xid p = uint32_of t ∧ Forall (λ c, t < c) subs
           end;
  po_cached x : x ∈ cached p → ∃ c, c ∈ tail tree ∧ x = uint32_of c;
  po_nodup : NoDup (cached p);
  po_complete : overflowed (subxids p) = false → ∀ c, c ∈ tail tree → uint32_of c ∈ cached p
}.

(** The process has no id up to [latest]. *)
Definition quiet (p : PGPROC) : Prop :=
  (xid p = InvalidTransactionId ∨ young (xid p)) ∧
  ∀ j x, Z.of_nat j < nxids (subxids p) → xids (subxids p) !! j = Some x → young x.

(** What the owner of a [PGPROC] may do to it while another backend holds the lock in
    shared mode: take ids, end a transaction without an id (a lazy vacuum then drops its
    flag), or clear the entry of a transaction that it has handed over to a prepared
    transaction. *)
Record proc_rely (p p' : PGPROC) : Prop := {
  pr_vac : has_flag (vacuumFlags p') PROC_IN_VACUUM = has_flag (vacuumFlags p) PROC_IN_VACUUM ∨
    (has_flag (vacuumFlags p') PROC_IN_VACUUM = false ∧ quiet p');
  pr_db : databaseId p' = databaseId p;
  pr_wf : cache_wf (subxids p');
  pr_xmin : xmin p' = InvalidTransactionId ∨ ∃ v, window base v ∧ xmin p' = uint32_of v;
  pr_xid : xid p' = xid p ∨ xid p' = InvalidTransactionId ∨ young (xid p');
  pr_slot j x : xids (subxids p') !! j = Some x → xids (subxids p) !! j = Some x ∨ young x;
  pr_new j x : Z.of_nat j < nxids (subxids p') → xids (subxids p') !! j = Some x →
    Z.of_nat j < nxids (subxids p) ∨ young x
}.

(** The process does not hand its transaction over. *)
Record proc_keeps (p p' : PGPROC) : Prop := {
  pk_xid : TransactionIdIsValid (xid p) = true → xid p' = xid p;
  pk_n : nxids (subxids p) ≤ nxids (subxids p');
  pk_slot j : Z.of_nat j < nxids (subxids p) → xids (subxids p') !! j = xids (subxids p) !! j;
  pk_over : overflowed (subxids p) = true → overflowed (subxids p') = true
}.

Lemma quiet_rely p p' : proc_rely p p' → quiet p → quiet p'.
Proof.
  intros [_ _ _ _ X S N] [Hx Hs]. split.
  - destruct X as [->|[->|?]]; auto.
  - intros j x Hj Hjx. destruct (N j x Hj Hjx) as [Hn|]; [|done]. destruct (S j x Hjx); [by eapply Hs|done].
Qed.
Lemma proc_rely_trans p p' p'' : proc_rely p p' → proc_rely p' p'' → proc_rely p p''.
Proof.
  intros R1 R2. pose proof (quiet_rely _ _ R2) as Q2.
  destruct R1 as [V1 D1 W1 M1 X1 S1 N1], R2 as [V2 D2 W2 M2 X2 S2 N2].
  split; [|congruence|done|done| | |].
  - destruct V1 as [E1|[E1 Hq]], V2 as [E2|[E2 Hq2]]; [left; congruence|by right|right|by right].
    split; [congruence|by apply Q2].
  - destruct X2 as [->|[->|?]]; auto.
  - intros j x [H|H]%S2; [by apply S1|by right].
  - intros j x Hj Hx. destruct (N2 j x Hj Hx) as [H|H]; [|by right].
    destruct (S2 j x Hx) as [H'|H']; [|by right]. by apply N1.
Qed.
Lemma proc_keeps_refl p : proc_keeps p p.
Proof. by split. Qed.
Lemma proc_keeps_trans p p' p'' : proc_keeps p p' → proc_keeps p' p'' → proc_keeps p p''.
Proof.
  intros [X1 N1 S1 O1] [X2 N2 S2 O2]. split; [|lia| |auto].
  - intros H. rewrite <- (X1 H). apply X2. by rewrite (X1 H).
  - intros j Hj. rewrite <- S1 by done. apply S2. lia.
Qed.

(** One step of the other backends under the shared lock; the processes in [stable] keep
    their transactions. *)
Record sh_rely (stable : Z → Prop) (s s' : Shmem) : Prop := {
  sr_procs : procs s' = procs s;
  sr_max : maxProcs s' = maxProcs s;
  sr_recovery : RecoveryInProgress s' = RecoveryInProgress s;
  sr_latest : latestCompletedXid (ShmemVariableCache s') = latestCompletedXid (ShmemVariableCache s);
  sr_proc p x : p ∈ procs s → allProcs s !! Z.to_nat p = Some x →
    ∃ x', allProcs s' !! Z.to_nat p = Some x' ∧ proc_rely x x' ∧ (stable p → proc_keeps x x')
}.

(** The array when the lock is acquired, [trees p] being the running ids of process [p]. *)
Record array_ok (trees : Z → list Z) (s : Shmem) : Prop := {
  ao_latest : latestCompletedXid (ShmemVariableCache s) = uint32_of latest;
  ao_window : window base latest ∧ window base (next_counter latest);
  ao_nodup : NoDup (procs s);
  ao_room : Z.of_nat (length (procs s)) ≤ maxProcs s;
  ao_proc p : p ∈ procs s → 0 ≤ p ∧ ∃ x, allProcs s !! Z.to_nat p = Some x ∧ proc_ok x (trees p) ∧
    (xmin x = InvalidTransactionId ∨ ∃ v, window base v ∧ xmin x = uint32_of v)
}.

(** The views of a reader that acquires the lock at its step [k0]. *)
Record reading (V : nat → Shmem) (k0 : nat) (stable : Z → Prop) (trees : Z → list Z) : Prop := {
  rd_start : array_ok trees (V k0);
  rd_step k : (k0 ≤ k)%nat → sh_rely stable (V k) (V (S k))
}.

(** *** Views *)

Section views.
Context (V : nat → Shmem) (k0 : nat) (stable : Z → Prop) (trees : Z → list Z).
Context (HV : reading V k0 stable trees).

Lemma proc_rely_refl x tree : proc_ok x tree →
  (xmin x = InvalidTransactionId ∨ ∃ v, window base v ∧ xmin x = uint32_of v) → proc_rely x x.
Proof. intros H Hx. split; try done; auto. apply H. Qed.

(** The process [p] at step [k], seen from the start. *)
Lemma view_from_start k p :
  (k0 ≤ k)%nat → p ∈ procs (V k0) →
  procs (V k) = procs (V k0) ∧ maxProcs (V k) = maxProcs (V k0) ∧
  latestCompletedXid (ShmemVariableCache (V k)) = uint32_of latest ∧
  RecoveryInProgress (V k) = RecoveryInProgress (V k0) ∧
  0 ≤ p ∧ ∃ x0 x, allProcs (V k0) !! Z.to_nat p = Some x0 ∧ allProcs (V k) !! Z.to_nat p = Some x ∧
    proc_ok x0 (trees p) ∧ proc_rely x0 x ∧ (stable p → proc_keeps x0 x).
Proof using HV.
  intros Hk Hp. destruct HV as [Ha Hstep]. destruct (ao_proc _ _ Ha p Hp) as (H0 & x0 & Hx0 & Hok & Hm).
  induction Hk as [|k Hk IH].
  - split; [done|]. split; [done|]. split; [apply Ha|]. split; [done|]. split; [done|]. exists x0, x0.
    split; [done|]. split; [done|]. split; [done|]. split; [by eapply proc_rely_refl|].
    intros _. apply proc_keeps_refl.
  - destruct IH as (E1 & E2 & E3 & E4 & _ & x0' & x & Hx0' & Hx & _ & Hr & Hke).
    rewrite Hx0 in Hx0'. injection Hx0' as <-.
    destruct (Hstep k Hk) as [F1 F2 F3 F4 F5].
    destruct (F5 p x) as (x' & Hx' & Hr' & Hke'); [by rewrite E1|done|].
    split; [congruence|]. split; [congruence|]. split; [congruence|]. split; [congruence|].
    split; [done|]. exists x0, x'. split; [done|]. split; [done|]. split; [done|].
    split; [by eapply proc_rely_trans|]. intros Hs. eapply proc_keeps_trans; [by apply Hke|by apply Hke'].
Qed.

(** The process at two steps. *)
Lemma view_between k k' p x :
  (k0 ≤ k ≤ k')%nat → p ∈ procs (V k0) → allProcs (V k) !! Z.to_nat p = Some x →
  ∃ x', allProcs (V k') !! Z.to_nat p = Some x' ∧ proc_rely x x' ∧ (stable p → proc_keeps x x').
Proof using HV.
  intros [Hk Hk'] Hp Hx. induction Hk' as [|k' Hk' IH].
  - destruct (view_from_start k p Hk Hp) as (_ & _ & _ & _ & _ & x0 & x1 & _ & Hx1 & _ & Hr & _).
    rewrite Hx in Hx1. injection Hx1 as <-. exists x. split; [done|]. split; [|intros _; apply proc_keeps_refl].
    destruct Hr as [V1 D1 W1 M1 X1 S1 N1]. split; auto.
  - destruct IH as (x' & Hx' & Hr & Hke). destruct HV as [_ Hstep].
    destruct (Hstep k') as [F1 F2 F3 F4 F5]; [lia|].
    destruct (F5 p x') as (x'' & Hx'' & Hr' & Hke').
    + destruct (view_from_start k' p) as (-> & _); [lia|done|done].
    + done.
    + exists x''. split; [done|]. split; [by eapply proc_rely_trans|].
      intros Hs. eapply proc_keeps_trans; [by apply Hke|by apply Hke'].
Qed.

(** *** Fetches *)

Definition moved (r : Reader) (k : nat) : Reader :=
  mkReader k (my_xmin r) (TransactionXmin r) (RecentXmin r) (RecentGlobalXmin r).

Lemma fetch_ret {A} (f : Shmem → outcome A) a r :
  f (V (clk r)) = Ret a → fetch V f r = Ret (a, moved r (S (clk r))).
Proof using. clear HV. intros H. unfold fetch. by rewrite H. Qed.
Lemma fetch_val {A} (f : Shmem → A) a r :
  f (V (clk r)) = a → fetch V (λ s, Ret (f s)) r = Ret (a, moved r (S (clk r))).
Proof using. clear HV. intros <-. by apply fetch_ret. Qed.
Lemma fetch_proc_ret {A} (f : PGPROC → A) p x r :
  0 ≤ p → allProcs (V (clk r)) !! Z.to_nat p = Some x →
  fetch_proc V p f r = Ret (f x, moved r (S (clk r))).
Proof using.
  clear HV. intros Hp Hx. apply fetch_ret. by rewrite (proj2 (arr_get_Some _ _ _)) by done.
Qed.
Lemma fetch_index_ret i p r :
  (k0 ≤ clk r)%nat → procs (V k0) !! i = Some p →
  fetch_index V (Z.of_nat i) r = Ret (p, moved r (S (clk r))) ∧ p ∈ procs (V k0).
Proof using HV.
  intros Hk Hi. assert (p ∈ procs (V k0)) as Hp by by eapply list_elem_of_lookup_2.
  split; [|done]. apply fetch_ret. destruct (view_from_start (clk r) p Hk Hp) as (-> & _).
  apply arr_get_Some. split; [lia|]. by rewrite Nat2Z.id.
Qed.

(** What is known of the process [p] at any later step. *)
Lemma view_proc r p :
  (k0 ≤ clk r)%nat → p ∈ procs (V k0) →
  0 ≤ p ∧ ∃ x0 x, allProcs (V k0) !! Z.to_nat p = Some x0 ∧ allProcs (V (clk r)) !! Z.to_nat p = Some x ∧
    proc_ok x0 (trees p) ∧ proc_rely x0 x ∧ (stable p → proc_keeps x0 x).
Proof using HV.
  intros Hk Hp. by destruct (view_from_start (clk r) p Hk Hp) as (_ & _ & _ & _ & H).
Qed.

Lemma copy_subxids_spec cap p n j l r :
  (k0 ≤ clk r)%nat → p ∈ procs (V k0) → (j + n ≤ 64)%nat → Z.of_nat (length l + n) ≤ cap →
  ∃ ys k', copy_subxids V cap p n (Z.of_nat j) l r = Ret (l ++ ys, moved r k') ∧ (clk r ≤ k')%nat ∧
    length ys = n ∧
    ∀ i y, ys !! i = Some y → ∃ k x, (clk r ≤ k)%nat ∧ allProcs (V k) !! Z.to_nat p = Some x ∧
      xids (subxids x) !! (j + i)%nat = Some y.
Proof using HV.
  intros Hk Hp. revert j l r Hk. induction n as [|n IH]; intros j l r Hk Hj Hcap; cbn [copy_subxids].
  { exists [], (clk r). rewrite app_nil_r. split; [by destruct r|]. split; [done|]. split; [done|].
    intros i y. by rewrite lookup_nil. }
  destruct (view_proc r p Hk Hp) as (H0 & x0 & x & _ & Hx & _ & Hr & _).
  destruct (pr_wf _ _ Hr) as [Hn Hl]. unfold PGPROC_MAX_CACHED_SUBXIDS in *.
  destruct (lookup_lt_is_Some_2 (xids (subxids x)) j) as [y Hy]; [lia|].
  rewrite (bind_Ret _ _ r y (moved r (S (clk r)))).
  2: { apply fetch_ret. rewrite (proj2 (arr_get_Some _ _ x)) by done. cbn [mbind outcome_bind].
       apply arr_get_Some. split; [lia|]. by rewrite Nat2Z.id. }
  rewrite (bind_Ret _ _ _ (l ++ [y]) (moved r (S (clk r)))).
  2: { unfold lift, push. by rewrite (proj2 (Z.ltb_lt _ _)) by lia. }
  replace (Z.of_nat j + 1) with (Z.of_nat (S j)) by lia.
  destruct (IH (S j) (l ++ [y]) (moved r (S (clk r)))) as (ys & k' & Hrun & Hk' & Hlen & Hys);
    [cbn; lia|lia|rewrite length_app; cbn; lia|].
  exists (y :: ys), k'. rewrite <- app_assoc in Hrun. split; [exact Hrun|]. cbn in Hk'. split; [lia|].
  split; [cbn; lia|]. intros [|i] y' Hi; cbn in Hi.
  - simplify_eq. exists (clk r), x. rewrite Nat.add_0_r. done.
  - destruct (Hys i y' Hi) as (k & x' & Hkk & Hx' & Hs). exists k, x'. cbn in Hkk.
    split; [lia|]. split; [done|]. by replace (j + S i)%nat with (S j + i)%nat by lia.
Qed.

(** *** The loop of [GetSnapshotData] *)

Definition xm : Z := next_counter latest.
Definition in_vacuum (p : Z) : bool :=
  match allProcs (V k0) !! Z.to_nat p with
  | Some x => has_flag (vacuumFlags x) PROC_IN_VACUUM
  | None => false
  end.

(** The process runs top-level transaction [t] with subtransactions [subs] all the time and
    is not a lazy vacuum. *)
Definition runs (p t : Z) (subs : list Z) : Prop :=
  stable p ∧ in_vacuum p = false ∧ trees p = t :: subs.

(** The process publishes the horizon [v] all the time. *)
Definition published (p v : Z) : Prop :=
  window base v ∧ ∀ k x, (k0 ≤ k)%nat → allProcs (V k) !! Z.to_nat p = Some x → xmin x = uint32_of v.

Record xip_inv (me : Z) (ps : list Z) (a : SnapAcc) : Prop := {
  xi_xmin : ∃ m, window base m ∧ m ≤ xm ∧ a_xmin a = uint32_of m ∧
    (∀ p t subs, p ∈ ps → runs p t subs → m ≤ t) ∧
    (m = xm ∨ ∃ p subs, p ∈ ps ∧ in_vacuum p = false ∧ trees p = m :: subs);
  xi_global : ∃ g, window base g ∧ g ≤ xm ∧ a_globalxmin a = uint32_of g ∧
    ∀ p v, p ∈ ps → in_vacuum p = false → published p v → g ≤ v;
  xi_sound x : x ∈ a_xip a → ∃ p t subs, p ∈ ps ∧ p ≠ me ∧ in_vacuum p = false ∧ trees p = t :: subs ∧
    x = uint32_of t ∧ t ≤ latest;
  xi_complete p t subs : p ∈ ps → p ≠ me → runs p t subs → t ≤ latest → uint32_of t ∈ a_xip a;
  xi_len : (length (a_xip a) ≤ length ps)%nat
}.
Record sub_inv (me : Z) (ps : list Z) (a : SnapAcc) : Prop := {
  su_sound x : x ∈ a_subxip a → young x ∨ ∃ p c, p ∈ ps ∧ p ≠ me ∧ in_vacuum p = false ∧
    c ∈ trees p ∧ x = uint32_of c;
  su_complete : a_suboverflowed a = false → ∀ p t subs c, p ∈ ps → p ≠ me → runs p t subs → t ≤ latest →
    c ∈ subs → uint32_of c ∈ a_subxip a;
  su_len : (length (a_subxip a) ≤ 64 * length ps)%nat
}.

Lemma cached_lookup x j y :
  cache_wf (subxids x) → Z.of_nat j < nxids (subxids x) → xids (subxids x) !! j = Some y → y ∈ cached x.
Proof using.
  clear HV. intros Hw Hj Hy. unfold cached. apply (list_elem_of_lookup_2 _ j).
  apply lookup_take_Some. split; [done|lia].
Qed.
Lemma cached_inv x y :
  y ∈ cached x → ∃ j, Z.of_nat j < nxids (subxids x) ∧ xids (subxids x) !! j = Some y.
Proof using.
  clear HV. unfold cached. intros [j Hj]%list_elem_of_lookup. apply lookup_take_Some in Hj as [Hj Hlt].
  exists j. split; [lia|done].
Qed.

(** The subtransactions of process [p] are added; [live] says that [p] may run a
    transaction before [xm]. *)
Lemma snapshot_subxids_spec me subcap p ps a r :
  (k0 ≤ clk r)%nat → p ∈ procs (V k0) →
  (in_vacuum p = false ∨ ∀ x, allProcs (V (clk r)) !! Z.to_nat p = Some x → quiet x) →
  Z.of_nat (64 * S (length ps)) ≤ subcap → sub_inv me ps a →
  ∃ a' k', snapshot_subxids V me subcap p a r = Ret (a', moved r k') ∧ (clk r ≤ k')%nat ∧
    a_globalxmin a' = a_globalxmin a ∧ a_xmin a' = a_xmin a ∧ a_xip a' = a_xip a ∧ sub_inv me (ps ++ [p]) a'.
Proof using HV.
  intros Hk Hp Hvac Hcap Hinv. destruct Hinv as [Hs Hc Hl]. unfold snapshot_subxids.
  assert (∀ q, q ∈ ps ++ [p] → q ∈ ps ∨ q = p) as Hsplit by (intros q; set_solver).
  assert (∀ q, q ∈ ps → q ∈ ps ++ [p]) as Hin by set_solver.
  assert (∀ l : list TransactionId, (∀ x, x ∈ l → x ∈ a_subxip a ∨ young x ∨ p ≠ me ∧ in_vacuum p = false ∧ ∃ c, c ∈ trees p ∧ x = uint32_of c) →
    ∀ x, x ∈ l → young x ∨ ∃ q c, q ∈ ps ++ [p] ∧ q ≠ me ∧ in_vacuum q = false ∧ c ∈ trees q ∧ x = uint32_of c) as Hsound.
  { intros l H x [Hx|[Hx|(Hne & Hvp & c & Hcp & ->)]]%H; [|by left|].
    - destruct (Hs x Hx) as [|(q & c & Hq & ? & ? & ? & ?)]; [by left|right]. exists q, c. auto.
    - right. exists p, c. split; [set_solver|]. done. }
  destruct (negb (a_suboverflowed a) && negb (p =? me)) eqn:E.
  2: { exists a, (clk r). split; [by destruct r|]. split; [done|]. do 3 (split; [done|]). split.
       - apply Hsound. by left.
       - intros Hov q t subs c [Hq| ->]%Hsplit Hne; [by apply Hc|].
         rewrite Hov in E. cbn in E. destruct (Z.eqb_spec p me); done.
       - rewrite length_app. cbn. lia. }
  apply andb_true_iff in E as [Eov Eme%negb_true_iff%Z.eqb_neq]. apply negb_true_iff in Eov.
  destruct (view_proc r p Hk Hp) as (H0 & x0 & x & Hx0 & Hx & Hok & Hr & Hke).
  rewrite (bind_Ret _ _ _ _ _ (fetch_proc_ret (λ x, overflowed (subxids x)) p x r H0 Hx)).
  destruct (overflowed (subxids x)) eqn:Ex.
  { eexists _, _. split; [reflexivity|]. split; [cbn; lia|]. do 3 (split; [done|]). split; cbn.
    - apply Hsound. by left.
    - done.
    - rewrite length_app. cbn. lia. }
  set (r1 := moved r (S (clk r))). assert (k0 ≤ clk r1)%nat as Hk1 by (cbn; lia).
  destruct (view_between (clk r) (clk r1) p x) as (x1 & Hx1 & Hr1 & Hke1); [cbn; lia|done|done|].
  rewrite (bind_Ret _ _ _ _ _ (fetch_proc_ret (λ x, nxids (subxids x)) p x1 r1 H0 Hx1)).
  destruct (pr_wf _ _ Hr1) as [Hn1 Hl1]. unfold PGPROC_MAX_CACHED_SUBXIDS in *.
  set (r2 := moved r1 (S (clk r1))).
  destruct (copy_subxids_spec subcap p (Z.to_nat (nxids (subxids x1))) 0 (a_subxip a) r2)
    as (ys & k' & Hrun & Hk' & Hlen & Hys); [cbn; lia|done|lia|lia|].
  change (Z.of_nat 0) with 0 in Hrun. rewrite (bind_Ret _ _ _ _ _ Hrun).
  eexists _, k'. split; [reflexivity|]. split; [cbn in Hk'; lia|]. do 3 (split; [done|]). split; cbn.
  - apply Hsound. intros y [Hy|Hy]%elem_of_app; [by left|right].
    apply list_elem_of_lookup in Hy as [i Hi]. destruct (Hys i y Hi) as (k2 & x2 & Hk2 & Hx2 & Hslot).
    cbn [Nat.add] in Hslot. apply lookup_lt_Some in Hi as Hlt.
    destruct (view_between (clk r1) k2 p x1) as (x2' & Hx2' & Hr2 & _); [cbn in *; lia|done|done|].
    rewrite Hx2 in Hx2'. injection Hx2' as <-.
    destruct (pr_slot _ _ Hr2 i y Hslot) as [Hy1|]; [|by left].
    pose proof (proc_rely_trans _ _ _ Hr Hr1) as Hr01.
    destruct (pr_new _ _ Hr01 i y ltac:(lia) Hy1) as [Hnew|]; [|by left].
    destruct (pr_slot _ _ Hr01 i y Hy1) as [Hy0|]; [|by left].
    destruct Hvac as [Hvac|Hq].
    2: { left. apply (proj2 (quiet_rely _ _ Hr1 (Hq x Hx)) i y); [lia|done]. }
    right. split; [done|]. split; [done|]. destruct (po_cached _ _ Hok y) as (c & Hcin & ->).
    { by eapply cached_lookup; [apply Hok|..]. }
    exists c. split; [by destruct (trees p); [|right]|done].
  - intros _ q t subs c [Hq| ->]%Hsplit Hne Hruns Ht Hcs.
    + apply elem_of_app. left. by eapply Hc.
    + apply elem_of_app. right. destruct Hruns as (Hst & _ & Htree).
      destruct (Hke Hst) as [X0 N0 S0 O0]. destruct (Hke1 Hst) as [X1 N1 S1 O1].
      assert (overflowed (subxids x0) = false) as Eo.
      { destruct (overflowed (subxids x0)); [|done]. by rewrite O0 in Ex. }
      pose proof (po_complete _ _ Hok Eo c) as Hin0. rewrite Htree in Hin0.
      destruct (cached_inv x0 (uint32_of c) (Hin0 Hcs)) as (j & Hj & Hj0).
      destruct (lookup_lt_is_Some_2 ys j) as [y Hy]; [lia|].
      destruct (Hys j y Hy) as (k2 & x2 & Hk2 & Hx2 & Hslot). cbn [Nat.add] in Hslot.
      destruct (view_between (clk r1) k2 p x1) as (x2' & Hx2' & _ & Hke2); [cbn in *; lia|done|done|].
      rewrite Hx2 in Hx2'. injection Hx2' as <-.
      rewrite (pk_slot _ _ (Hke2 Hst)), S1, S0, Hj0 in Hslot by lia. injection Hslot as <-.
      by eapply list_elem_of_lookup_2.
  - rewrite !length_app, Hlen. cbn. lia.
Qed.

Lemma xm_window : window base latest ∧ window base xm ∧ latest < xm ∧
  TransactionIdAdvance (uint32_of latest) = uint32_of xm ∧ ∀ c, full_xid c → c < xm → c ≤ latest.
Proof using HV.
  destruct (ao_window _ _ (rd_start _ _ _ _ HV)) as [Hl Hx]. split; [done|]. split; [done|].
  destruct (next_counter_spec latest (proj1 Hl)) as (E & _ & Hlt & Hmin). split; [unfold xm; lia|].
  split; [done|]. intros c Hc Hlt'. destruct (Z_le_gt_dec c latest) as [|Hgt]; [done|].
  unfold xm in Hlt'. specialize (Hmin c Hc). lia.
Qed.

Lemma normal_window c : window base c → TransactionIdIsNormal (uint32_of c) = true.
Proof using. clear HV. intros [H _]. exact H. Qed.

Lemma young_follows x : young x → TransactionIdIsNormal x = true ∧ TransactionIdFollowsOrEquals x (uint32_of xm) = true.
Proof using HV.
  intros (c & Hc & Hlt & ->). split; [by apply normal_window|].
  destruct xm_window as (_ & Hx & _ & _ & Hmin).
  destruct (window_precedes base c xm Hc Hx) as (_ & -> & _). rewrite Z.geb_leb. apply Z.leb_le.
  destruct (Z_lt_le_dec c xm) as [Hc'|]; [|done]. specialize (Hmin c (proj1 Hc) Hc'). lia.
Qed.

(** The id that is read for process [p]. *)
Lemma read_xid p x0 x :
  proc_ok x0 (trees p) → proc_rely x0 x → (stable p → proc_keeps x0 x) →
  (TransactionIdIsNormal (xid x) = false ∧ (stable p → trees p = [])) ∨
  (TransactionIdIsNormal (xid x) = true ∧ TransactionIdFollowsOrEquals (xid x) (uint32_of xm) = true ∧
     (stable p → ∀ t subs, trees p = t :: subs → xm ≤ t)) ∨
  (∃ t subs, trees p = t :: subs ∧ xid x = uint32_of t ∧ window base t ∧ t ≤ latest ∧
     TransactionIdIsNormal (xid x) = true ∧ TransactionIdFollowsOrEquals (xid x) (uint32_of xm) = false).
Proof using HV.
  intros Hok Hr Hke. destruct xm_window as (Hl & Hx & Hlt & _ & Hmin).
  assert (stable p → ∀ t subs, trees p = t :: subs → xid x = uint32_of t ∧ window base t) as Hst.
  { intros Hs t subs E. pose proof (po_window _ _ Hok) as Hw. pose proof (po_top _ _ Hok) as Ht.
    rewrite E in Hw, Ht. inversion_clear Hw as [|? ? Hwt _]. destruct Ht as [Ex _]. split; [|done].
    rewrite (pk_xid _ _ (Hke Hs)); [done|]. rewrite Ex. by apply (window_valid base). }
  destruct (pr_xid _ _ Hr) as [E|[E|Hy]].
  - destruct (trees p) as [|t subs] eqn:Et.
    + pose proof (po_top _ _ Hok) as (E0 & _). left. rewrite E, E0. done.
    + pose proof (po_window _ _ Hok) as Hw. inversion_clear Hw as [|? ? Hwt _].
      pose proof (po_top _ _ Hok) as (E0 & _). rewrite E, E0.
      rewrite (normal_window t) by done.
      destruct (window_precedes base t xm Hwt Hx) as (_ & -> & _). rewrite Z.geb_leb.
      destruct (Z.leb_spec xm t) as [L|L].
      * right. left. split; [done|]. split; [done|]. intros _ t' subs' [= <- <-]. done.
      * right. right. exists t, subs. split; [done|]. split; [done|]. split; [done|].
        split; [|done]. apply Hmin; [apply Hwt|done].
  - left. rewrite E. split; [done|]. intros Hs. destruct (trees p) as [|t subs] eqn:Et; [done|].
    destruct (Hst Hs t subs eq_refl) as [E1 Hw]. rewrite E in E1. apply (window_valid base) in Hw.
    rewrite <- E1 in Hw. done.
  - right. left. destruct (young_follows _ Hy) as [Hn Hf]. split; [done|]. split; [done|].
    intros Hs t subs Et. destruct (Hst Hs t subs Et) as [E1 Hw]. rewrite E1 in Hf.
    destruct (window_precedes base t xm Hw Hx) as (_ & Ef & _). rewrite Ef, Z.geb_leb in Hf.
    by apply Z.leb_le.
Qed.

(** [older] is the minimum. *)
Lemma older_spec x b :
  window base b → x = InvalidTransactionId ∨ (∃ v, window base v ∧ x = uint32_of v) →
  ∃ g, window base g ∧ g ≤ b ∧ older x (uint32_of b) = uint32_of g ∧
    (∀ v, window base v → x = uint32_of v → g ≤ v) ∧ (g = b ∨ x = uint32_of g).
Proof using.
  clear HV. intros Hb [->|(v & Hv & ->)].
  - exists b. split; [done|]. split; [lia|]. split; [done|]. split; [|by left].
    intros v Hv E. apply (window_valid base) in Hv. by rewrite <- E in Hv.
  - unfold older. rewrite normal_window by done. cbn [andb].
    destruct (window_precedes base v b Hv Hb) as (-> & _ & _).
    assert (∀ w, window base w → uint32_of v = uint32_of w → v = w) as Hinj.
    { intros w Hw E. apply uint32_full_eq; [by eapply window_near|done]. }
    destruct (Z.ltb_spec v b) as [L|L].
    + exists v. split; [done|]. split; [lia|]. split; [done|]. split; [|by right].
      intros w Hw E. rewrite (Hinj w Hw E). lia.
    + exists b. split; [done|]. split; [lia|]. split; [done|]. split; [|by left].
      intros w Hw E. rewrite <- (Hinj w Hw E). lia.
Qed.

(** A process that runs nothing before [xm] adds nothing to the lists. *)
Lemma xip_inv_skip me ps p a a' :
  xip_inv me ps a → a_xmin a' = a_xmin a → a_xip a' = a_xip a →
  (∃ g, window base g ∧ g ≤ xm ∧ a_globalxmin a' = uint32_of g ∧
     ∀ q v, q ∈ ps ++ [p] → in_vacuum q = false → published q v → g ≤ v) →
  (∀ t subs, runs p t subs → xm ≤ t) → xip_inv me (ps ++ [p]) a'.
Proof using HV.
  intros [(m & Hm & Hmx & Em & Hmr & Hme) _ Xs Xc Xl] E1 E2 Hglob Hp. destruct xm_window as (_ & _ & Hlt & _).
  split; rewrite ?E1, ?E2.
  - exists m. do 3 (split; [done|]).
    split; [|destruct Hme as [|(q & subs & Hq & Hrest)]; [by left|right; exists q, subs; split; [set_solver|done]]].
    intros q t subs Hq Hq'. apply elem_of_app in Hq as [Hq|Hq]; [by eapply Hmr|].
    apply list_elem_of_singleton in Hq as ->. specialize (Hp t subs Hq'). lia.
  - done.
  - intros x (q & t & subs & Hq & Hrest)%Xs. exists q, t, subs. split; [set_solver|done].
  - intros q t subs Hq Hne Hq' Ht. apply elem_of_app in Hq as [Hq|Hq]; [by eapply Xc|].
    apply list_elem_of_singleton in Hq as ->. specialize (Hp t subs Hq'). lia.
  - rewrite length_app. cbn. lia.
Qed.

Lemma sub_inv_skip me ps p a a' :
  sub_inv me ps a → a_subxip a' = a_subxip a → a_suboverflowed a' = a_suboverflowed a →
  (∀ t subs, runs p t subs → xm ≤ t) → sub_inv me (ps ++ [p]) a'.
Proof using HV.
  intros [Ss Sc Sl] E1 E2 Hp. destruct xm_window as (_ & _ & Hlt & _). split; rewrite ?E1, ?E2.
  - intros x [?|(q & c & Hq & Hrest)]%Ss; [by left|right]. exists q, c. split; [set_solver|done].
  - intros Ho q t subs c Hq Hne Hq' Ht. apply elem_of_app in Hq as [Hq|Hq]; [by eapply Sc|].
    apply list_elem_of_singleton in Hq as ->. specialize (Hp t subs Hq'). lia.
  - rewrite length_app. cbn. lia.
Qed.

(** A process whose transaction [t] is before [xm] is added, unless it is the reader's own. *)
Lemma xip_inv_add me ps p a a' t subs m g' :
  xip_inv me ps a → in_vacuum p = false → trees p = t :: subs → window base t → t ≤ latest →
  window base m → a_xmin a = uint32_of m → a_xmin a' = uint32_of (Z.min t m) →
  a_xip a' = (if negb (p =? me) then a_xip a ++ [uint32_of t] else a_xip a) →
  a_globalxmin a' = uint32_of g' → window base g' → g' ≤ xm →
  (∀ q v, q ∈ ps ++ [p] → in_vacuum q = false → published q v → g' ≤ v) → xip_inv me (ps ++ [p]) a'.
Proof using HV.
  intros [(m' & Hm' & Hmx & Em & Hmr & Hme) _ Xs Xc Xl] Hv Et Hwt Htl Hm Em' E1 E2 E3 Hg Hgx Hgv.
  assert (m' = m) as -> by (apply uint32_full_eq; [by eapply window_near|congruence]).
  split; rewrite ?E1, ?E2, ?E3.
  - exists (Z.min t m). split; [by destruct (Z.min_spec t m) as [[_ ->]|[_ ->]]|]. split; [lia|]. split; [done|]. split.
    2: { destruct (Z.min_spec t m) as [[_ ->]|[_ ->]].
         - right. exists p, subs. split; [set_solver|done].
         - destruct Hme as [|(q & subs' & Hq & Hrest)]; [by left|right]. exists q, subs'. split; [set_solver|done]. }
    intros q t' subs' Hq Hq'. apply elem_of_app in Hq as [Hq|Hq]; [specialize (Hmr q t' subs' Hq Hq'); lia|].
    apply list_elem_of_singleton in Hq as ->. destruct Hq' as (_ & _ & Htr). rewrite Et in Htr.
    injection Htr as <- <-. lia.
  - by exists g'.
  - intros x Hxin. assert (x ∈ a_xip a ∨ (p ≠ me ∧ x = uint32_of t)) as [Hxin'|[Hne ->]].
    { destruct (Z.eqb_spec p me); cbn in Hxin; [by left|].
      apply elem_of_app in Hxin as [?|?%list_elem_of_singleton]; auto. }
    + destruct (Xs x Hxin') as (q & t' & subs' & Hq & Hrest). exists q, t', subs'. split; [set_solver|done].
    + exists p, t, subs. split; [set_solver|]. done.
  - intros q t' subs' Hq Hne Hq' Ht'. apply elem_of_app in Hq as [Hq|Hq].
    + assert (uint32_of t' ∈ a_xip a) by by eapply Xc. destruct (negb _); set_solver.
    + apply list_elem_of_singleton in Hq as ->. destruct Hq' as (_ & _ & Htr).
      rewrite Et in Htr. injection Htr as <- <-. rewrite (proj2 (Z.eqb_neq p me)) by done. cbn. set_solver.
  - destruct (negb _); rewrite ?length_app; cbn; lia.
Qed.

(** The vacuum flag that is read for process [p]. *)
Lemma read_flag p x0 x :
  allProcs (V k0) !! Z.to_nat p = Some x0 → proc_rely x0 x →
  if has_flag (vacuumFlags x) PROC_IN_VACUUM then in_vacuum p = true else in_vacuum p = false ∨ quiet x.
Proof using.
  clear HV. intros Hx0 Hr. unfold in_vacuum. rewrite Hx0. destruct (pr_vac _ _ Hr) as [->|[-> Hq]].
  - destruct (has_flag _ _); auto.
  - by right.
Qed.

Lemma snapshot_step_spec me cap subcap i p ps a r :
  (k0 ≤ clk r)%nat → procs (V k0) !! i = Some p →
  Z.of_nat (S (length ps)) ≤ cap → Z.of_nat (64 * S (length ps)) ≤ subcap →
  xip_inv me ps a → sub_inv me ps a →
  ∃ a' k', snapshot_step V me cap subcap (uint32_of xm) (Z.of_nat i) a r = Ret (a', moved r k') ∧
    (clk r ≤ k')%nat ∧ xip_inv me (ps ++ [p]) a' ∧ sub_inv me (ps ++ [p]) a'.
Proof using HV.
  intros Hk Hi Hcap Hsub Hx Hs. unfold snapshot_step.
  destruct (fetch_index_ret i p r Hk Hi) as [Hf Hp]. rewrite (bind_Ret _ _ _ _ _ Hf).
  set (r1 := moved r (S (clk r))). destruct xm_window as (Hl & Hwx & Hlx & _ & Hmin).
  destruct (view_proc r1 p) as (H0 & x0 & x1 & Hx0 & Hx1 & Hok & Hr1 & Hke1); [cbn; lia|done|].
  rewrite (bind_Ret _ _ _ _ _ (fetch_proc_ret vacuumFlags p x1 r1 H0 Hx1)).
  pose proof (read_flag p x0 x1 Hx0 Hr1) as Hvac.
  pose proof Hx as [(m & Hm & Hmx & Em & _ & _) (g & Hg & Hgx & Eg & Hgp) _ _ Xl].
  assert (∀ q, q ∈ ps ++ [p] → q ∈ ps ∨ q = p) as Hsplit by (intros q; set_solver).
  destruct (has_flag (vacuumFlags x1) PROC_IN_VACUUM).
  { assert (∀ t subs, runs p t subs → xm ≤ t) as Hno by (intros t subs (_ & ? & _); congruence).
    eexists a, _. split; [reflexivity|]. split; [cbn; lia|].
    split; [eapply xip_inv_skip; try done|by eapply sub_inv_skip].
    exists g. do 3 (split; [done|]). intros q v [Hq| ->]%Hsplit; [by apply Hgp|]. congruence. }
  assert (∀ k, (clk r1 ≤ k)%nat → in_vacuum p = false ∨ ∀ x, allProcs (V k) !! Z.to_nat p = Some x → quiet x) as Hquiet.
  { intros k Hk1. destruct Hvac as [|Hq]; [by left|right]. intros x Hxk.
    destruct (view_between (clk r1) k p x1) as (x' & Hx' & Hr' & _); [cbn in *; lia|done|done|].
    rewrite Hxk in Hx'. injection Hx' as <-. by eapply quiet_rely. }
  set (r2 := moved r1 (S (clk r1))).
  destruct (view_proc r2 p) as (_ & x0' & x2 & Hx0' & Hx2 & _ & Hr2 & Hke2); [cbn; lia|done|].
  rewrite Hx0 in Hx0'. injection Hx0' as <-.
  rewrite (bind_Ret _ _ _ _ _ (fetch_proc_ret xmin p x2 r2 H0 Hx2)). cbv zeta.
  set (r3 := moved r2 (S (clk r2))).
  destruct (view_proc r3 p) as (_ & x0' & x3 & Hx0' & Hx3 & _ & Hr3 & Hke3); [cbn; lia|done|].
  rewrite Hx0 in Hx0'. injection Hx0' as <-.
  rewrite (bind_Ret _ _ _ _ _ (fetch_proc_ret xid p x3 r3 H0 Hx3)).
  destruct (older_spec (xmin x2) g Hg (pr_xmin _ _ Hr2)) as (g' & Hg' & Hgg & Eg' & Hgv & _).
  rewrite Eg, Eg'. set (r4 := moved r3 (S (clk r3))).
  assert (∀ q v, q ∈ ps ++ [p] → in_vacuum q = false → published q v → g' ≤ v) as Hglob.
  { intros q v [Hq| ->]%Hsplit Hqv Hpub; [specialize (Hgp q v Hq Hqv Hpub); lia|].
    destruct Hpub as [Hwv Hpub]. apply Hgv; [done|]. apply (Hpub (clk r2)); [cbn; lia|done]. }
  assert (∃ g0, window base g0 ∧ g0 ≤ xm ∧ uint32_of g' = uint32_of g0 ∧
    ∀ q v, q ∈ ps ++ [p] → in_vacuum q = false → published q v → g0 ≤ v) as Hglob'.
  { exists g'. split; [done|]. split; [lia|]. done. }
  assert (∀ xm' xip', ∃ a' k', snapshot_subxids V me subcap p (mkAcc (uint32_of g') xm' xip' (a_subxip a)
      (a_suboverflowed a)) r4 = Ret (a', moved r k') ∧ (clk r ≤ k')%nat ∧
      a_globalxmin a' = uint32_of g' ∧ a_xmin a' = xm' ∧ a_xip a' = xip' ∧ sub_inv me (ps ++ [p]) a') as Hsubs.
  { intros xm' xip'. destruct (snapshot_subxids_spec me subcap p ps (mkAcc (uint32_of g') xm' xip'
      (a_subxip a) (a_suboverflowed a)) r4) as (a' & k' & Hrun & Hk' & Ea); 
      [cbn; lia|done|apply Hquiet; cbn; lia|done|by destruct Hs|].
    exists a', k'. split; [exact Hrun|]. split; [cbn in Hk'; lia|]. exact Ea. }
  destruct (read_xid p x0 x3 Hok Hr3 Hke3) as [[En Hnt]|[(En & Ef & Hnt)|(t & subs & Et & Ex & Hwt & Htl & En & Ef)]].
  - rewrite En. destruct (Hsubs (a_xmin a) (a_xip a)) as (a' & k' & Hrun & Hk' & Ea1 & Ea2 & Ea3 & Hs').
    exists a', k'. split; [exact Hrun|]. split; [done|]. split; [|done].
    eapply xip_inv_skip; [done|done|done|by rewrite Ea1|].
    intros t subs (Hst & _ & Htr). rewrite Hnt in Htr by done. done.
  - rewrite En, Ef. assert (∀ t subs, runs p t subs → xm ≤ t) as Hno.
    { intros t subs (Hst & _ & Htr). by apply (Hnt Hst t subs). }
    eexists _, _. split; [reflexivity|]. split; [cbn; lia|].
    split; [by eapply xip_inv_skip|by eapply sub_inv_skip].
  - assert (in_vacuum p = false) as Ev.
    { destruct (Hquiet (clk r3)) as [|Hq]; [cbn; lia|done|]. destruct (Hq x3 Hx3) as [[E|Hy] _].
      - by rewrite E in En.
      - destruct (young_follows _ Hy) as [_ E]. congruence. }
    rewrite En, Ef. set (xip' := if negb (p =? me) then a_xip a ++ [uint32_of t] else a_xip a).
    rewrite (bind_Ret _ _ r4 xip' r4).
    2: { unfold xip'. rewrite Ex. destruct (p =? me); [done|]. cbn. unfold lift, push.
         by rewrite (proj2 (Z.ltb_lt _ _)) by lia. }
    rewrite Ex, Em. destruct (window_precedes base t m Hwt Hm) as (-> & _).
    replace (if t <? m then uint32_of t else uint32_of m) with (uint32_of (Z.min t m))
      by (destruct (Z.ltb_spec t m); f_equal; lia).
    destruct (Hsubs (uint32_of (Z.min t m)) xip') as (a' & k' & Hrun & Hk' & Ea1 & Ea2 & Ea3 & Hs').
    exists a', k'. split; [exact Hrun|]. split; [done|]. split; [|done].
    by eapply (xip_inv_add me ps p a a' t subs m g'); try done; lia.
Qed.

Lemma snapshot_loop_spec me cap subcap ps rest a r :
  (k0 ≤ clk r)%nat → procs (V k0) = ps ++ rest →
  Z.of_nat (length (procs (V k0))) ≤ cap → Z.of_nat (64 * length (procs (V k0))) ≤ subcap →
  xip_inv me ps a → sub_inv me ps a →
  ∃ a' k', snapshot_loop V me cap subcap (uint32_of xm) (length rest) (Z.of_nat (length ps)) a r
             = Ret (a', moved r k') ∧
    (clk r ≤ k')%nat ∧ xip_inv me (procs (V k0)) a' ∧ sub_inv me (procs (V k0)) a'.
Proof using HV.
  revert ps a r. induction rest as [|p rest IH]; intros ps a r Hk Hps Hcap Hsub Hx Hs; cbn [snapshot_loop length].
  { rewrite app_nil_r in Hps. exists a, (clk r). split; [by destruct r|]. by rewrite Hps. }
  assert (length (procs (V k0)) = length ps + S (length rest))%nat as Hlen by (rewrite Hps, length_app; done).
  destruct (snapshot_step_spec me cap subcap (length ps) p ps a r) as (a1 & k1 & Hrun & Hk1 & Hx1 & Hs1);
    [done|by rewrite Hps, list_lookup_middle|lia|lia|done|done|].
  rewrite (bind_Ret _ _ _ _ _ Hrun).
  replace (Z.of_nat (length ps) + 1) with (Z.of_nat (length (ps ++ [p]))) by (rewrite length_app; cbn; lia).
  destruct (IH (ps ++ [p]) a1 (moved r k1)) as (a' & k' & Hrun' & Hk' & Hx' & Hs');
    [cbn; lia|by rewrite Hps, <- app_assoc|done|done|done|done|].
  exists a', k'. split; [exact Hrun'|]. cbn in Hk'. split; [lia|]. done.
Qed.

(** The fields of a snapshot against the array at the time the lock was acquired. *)
Record snap_ok (me : Z) (sn : SnapshotData) (m : Z) : Prop := {
  sk_xmin : window base m ∧ m ≤ xm ∧ snap_xmin sn = uint32_of m;
  sk_horizon p t subs : p ∈ procs (V k0) → runs p t subs → m ≤ t;
  sk_exact : m = xm ∨ ∃ p subs, p ∈ procs (V k0) ∧ in_vacuum p = false ∧ trees p = m :: subs;
  sk_xmax : snap_xmax sn = uint32_of xm;
  sk_recovery : takenDuringRecovery sn = false;
  sk_counts : xcnt sn = Z.of_nat (length (xip sn)) ∧ subxcnt sn = Z.of_nat (length (subxip sn));
  sk_xip x : x ∈ xip sn → ∃ p t subs, p ∈ procs (V k0) ∧ p ≠ me ∧ in_vacuum p = false ∧
    trees p = t :: subs ∧ x = uint32_of t ∧ t ≤ latest;
  sk_xip_complete p t subs : p ∈ procs (V k0) → p ≠ me → runs p t subs → t ≤ latest → uint32_of t ∈ xip sn;
  sk_subxip x : x ∈ subxip sn → young x ∨ ∃ p c, p ∈ procs (V k0) ∧ p ≠ me ∧ in_vacuum p = false ∧
    c ∈ trees p ∧ x = uint32_of c;
  sk_subxip_complete : suboverflowed sn = false → ∀ p t subs c, p ∈ procs (V k0) → p ≠ me →
    runs p t subs → t ≤ latest → c ∈ subs → uint32_of c ∈ subxip sn
}.

Lemma recovery_const k : (k0 ≤ k)%nat → RecoveryInProgress (V k) = RecoveryInProgress (V k0) ∧
  procs (V k) = procs (V k0) ∧ maxProcs (V k) = maxProcs (V k0).
Proof using HV.
  intros Hk. induction Hk as [|k Hk IH]; [done|]. destruct (rd_step _ _ _ _ HV k Hk) as [F1 F2 F3 F4 F5].
  destruct IH as (IH1 & IH2 & IH3). rewrite F1, F2, F3. done.
Qed.

Lemma GetSnapshotData_spec me PMAX defer cid r :
  clk r = k0 → RecoveryInProgress (V k0) = false → maxProcs (V k0) ≤ PMAX →
  ∃ sn k' m g, GetSnapshotData V me PMAX defer cid r =
    Ret (sn, mkReader k' (if negb (TransactionIdIsValid (my_xmin r)) then uint32_of m else my_xmin r)
               (if negb (TransactionIdIsValid (my_xmin r)) then uint32_of m else TransactionXmin r)
               (uint32_of m) (minus_defer_age defer (uint32_of g))) ∧
    (k0 ≤ k')%nat ∧ snap_ok me sn m ∧ snap_curcid sn = cid ∧
    window base g ∧ g ≤ m ∧ ∀ p v, p ∈ procs (V k0) → in_vacuum p = false → published p v → g ≤ v.
Proof using HV.
  intros Hk Hrec Hmax. unfold GetSnapshotData. destruct (rd_start _ _ _ _ HV) as [Al Aw And Ar Ap].
  destruct xm_window as (Hl & Hwx & Hlx & Hadv & _).
  rewrite (bind_Ret _ _ _ _ _ (fetch_val (λ s, latestCompletedXid (ShmemVariableCache s)) (uint32_of latest) r
    ltac:(by rewrite Hk, Al))).
  rewrite (normal_window latest) by done. rewrite (bind_Ret _ _ _ tt _ eq_refl). cbv zeta. rewrite Hadv.
  set (r1 := moved r (S (clk r))). destruct (recovery_const (clk r1)) as (E1 & _ & _); [cbn; lia|].
  rewrite (bind_Ret _ _ _ _ _ (fetch_val RecoveryInProgress false r1 ltac:(by rewrite E1, Hrec))).
  set (r2 := moved r1 (S (clk r1))). destruct (recovery_const (clk r2)) as (_ & _ & E2); [cbn; lia|].
  rewrite (bind_Ret _ _ _ _ _ (fetch_val maxProcs _ r2 E2)). cbn [negb].
  set (r3 := moved r2 (S (clk r2))). destruct (recovery_const (clk r3)) as (_ & E3 & _); [cbn; lia|].
  set (r4 := moved r3 (S (clk r3))).
  destruct (snapshot_loop_spec me (maxProcs (V k0)) (TOTAL_MAX_CACHED_SUBXIDS PMAX) [] (procs (V k0))
    (mkAcc (uint32_of xm) (uint32_of xm) [] [] false) r4) as (a & k' & Hrun & Hk' & Hx & Hs).
  - cbn. lia.
  - done.
  - done.
  - unfold TOTAL_MAX_CACHED_SUBXIDS, PGPROC_MAX_CACHED_SUBXIDS. lia.
  - split; cbn.
    + exists xm. do 2 (split; [done|]). split; [done|]. split; [|by left]. intros p t subs Hp.
      by apply elem_of_nil in Hp.
    + exists xm. do 2 (split; [done|]). split; [done|]. intros p v Hp. by apply elem_of_nil in Hp.
    + intros x Hx. by apply elem_of_nil in Hx.
    + intros p t subs Hp. by apply elem_of_nil in Hp.
    + lia.
  - split; cbn; [intros x Hx; by apply elem_of_nil in Hx|intros _ p t subs c Hp; by apply elem_of_nil in Hp|lia].
  - rewrite (bind_Ret _ _ r3 a (moved r4 k')).
    2: { unfold fetch_numProcs.
         rewrite (bind_Ret _ _ _ _ _ (fetch_val (λ s, Z.of_nat (length (procs s))) _ r3 eq_refl)).
         rewrite E3, Nat2Z.id. exact Hrun. }
    destruct Hx as [(m & Hm & Hmx & Em & Hmr & Hme) (g & Hg & Hgx & Eg & Hgp) Xs Xc Xl]. destruct Hs as [Ss Sc Sl].
    rewrite Em, Eg. destruct (window_precedes base m g Hm Hg) as (-> & _).
    replace (if m <? g then uint32_of m else uint32_of g) with (uint32_of (Z.min m g))
      by (destruct (Z.ltb_spec m g); f_equal; lia).
    eexists _, k', m, (Z.min m g). split; [reflexivity|]. split; [cbn in Hk'; lia|].
    split; [by split|]. split; [done|].
    split; [by destruct (Z.min_spec m g) as [[_ ->]|[_ ->]]|]. split; [lia|].
    intros p v Hp Hv Hpub. specialize (Hgp p v Hp Hv Hpub). lia.
Qed.

(** *** Membership in the snapshot *)

Section membership.
Context (me m : Z) (sn : SnapshotData) (e : XactEnv) (Hsn : snap_ok me sn m).

Lemma runs_order p t subs c :
  p ∈ procs (V k0) → runs p t subs → c ∈ t :: subs → window base c ∧ window base t ∧ t ≤ c.
Proof using HV.
  intros Hp (_ & _ & Et) Hc. destruct (ao_proc _ _ (rd_start _ _ _ _ HV) p Hp) as (_ & x & _ & Hok & _).
  pose proof (po_window _ _ Hok) as Hw. pose proof (po_top _ _ Hok) as Ht. rewrite Et in Hw, Ht.
  destruct Ht as [_ Hlt]. rewrite Forall_forall in Hw. split; [by apply Hw|]. split; [apply Hw; left|].
  apply elem_of_cons in Hc as [->|Hc]; [lia|]. rewrite Forall_forall in Hlt. specialize (Hlt c Hc). lia.
Qed.

Lemma not_before_xmin c : window base c → m ≤ c → TransactionIdPrecedes (uint32_of c) (snap_xmin sn) = false.
Proof using Hsn.
  intros Hc Hmc. destruct (sk_xmin _ _ _ Hsn) as (Hm & _ & ->).
  destruct (window_precedes base c m Hc Hm) as (-> & _). apply Z.ltb_ge. lia.
Qed.

Lemma after_xmax c :
  window base c → TransactionIdFollowsOrEquals (uint32_of c) (snap_xmax sn) = negb (c <=? latest).
Proof using HV Hsn.
  intros Hc. destruct xm_window as (_ & Hx & Hlt & _ & Hmin). rewrite (sk_xmax _ _ _ Hsn).
  destruct (window_precedes base c xm Hc Hx) as (_ & -> & _). rewrite Z.geb_leb.
  destruct (Z.leb_spec xm c), (Z.leb_spec c latest) as [L|L]; cbn; try done; [lia|].
  specialize (Hmin c (proj1 Hc)). lia.
Qed.

Lemma snapshot_lists : take (Z.to_nat (xcnt sn)) (xip sn) = xip sn ∧
  take (Z.to_nat (subxcnt sn)) (subxip sn) = subxip sn ∧ snapshot_wf sn.
Proof using Hsn.
  destruct (sk_counts _ _ _ Hsn) as [E1 E2]. unfold snapshot_wf. rewrite E1, E2, !Nat2Z.id, !firstn_all.
  split; [done|]. split; [done|]. lia.
Qed.

Lemma snapshot_future c : window base c → latest < c → in_snapshot e sn (uint32_of c) = true.
Proof using HV Hsn.
  intros Hc Hlt. unfold in_snapshot. destruct xm_window as (_ & _ & Hlx & _ & Hmin).
  destruct (sk_xmin _ _ _ Hsn) as (_ & Hmx & _).
  assert (xm ≤ c) by (destruct (Z_lt_le_dec c xm) as [L|]; [specialize (Hmin c (proj1 Hc) L); lia|done]).
  rewrite not_before_xmin, after_xmax by (done || lia). by rewrite (proj2 (Z.leb_gt c latest)) by lia.
Qed.

Lemma snapshot_running p t subs c :
  p ∈ procs (V k0) → p ≠ me → runs p t subs → c ∈ t :: subs →
  (suboverflowed sn = true → env_Topmost e (uint32_of c) = uint32_of t) →
  in_snapshot e sn (uint32_of c) = true.
Proof using HV Hsn.
  intros Hp Hne Hr Hc Htop. destruct (runs_order p t subs c Hp Hr Hc) as (Hwc & Hwt & Htc).
  destruct (Z_le_gt_dec c latest) as [Hcl|]; [|apply snapshot_future; [done|lia]].
  pose proof (sk_horizon _ _ _ Hsn p t subs Hp Hr) as Hmt.
  pose proof (sk_xip_complete _ _ _ Hsn p t subs Hp Hne Hr ltac:(lia)) as Hxip.
  unfold in_snapshot. rewrite not_before_xmin, after_xmax by (done || lia).
  rewrite (proj2 (Z.leb_le c latest)), (sk_recovery _ _ _ Hsn) by lia. cbn [negb].
  destruct snapshot_lists as (-> & -> & _). destruct (suboverflowed sn) eqn:Eo.
  - rewrite (Htop eq_refl), not_before_xmin by done. by rewrite bool_decide_true.
  - cbn [andb]. apply orb_true_iff. apply elem_of_cons in Hc as [->|Hc].
    + right. by rewrite bool_decide_true.
    + left. rewrite bool_decide_true; [done|]. eapply (sk_subxip_complete _ _ _ Hsn); [done..|lia|done].
Qed.

(** [c] is not in the tree of another process that is not a lazy vacuum. *)
Definition not_running (c : Z) : Prop :=
  ∀ p, p ∈ procs (V k0) → p ≠ me → in_vacuum p = false → (c ∉ trees p).

Lemma not_listed c :
  window base c → c ≤ latest → not_running c →
  (uint32_of c ∉ xip sn) ∧ (uint32_of c ∉ subxip sn).
Proof using HV Hsn.
  intros Hc Hcl Hn. assert (∀ c', window base c' → uint32_of c = uint32_of c' → c = c') as Hinj.
  { intros c' Hc' E. apply uint32_full_eq; [by eapply window_near|done]. }
  assert (∀ p c', p ∈ procs (V k0) → c' ∈ trees p → window base c') as Hw.
  { intros p c' Hp Hc'. destruct (ao_proc _ _ (rd_start _ _ _ _ HV) p Hp) as (_ & x & _ & Hok & _).
    pose proof (po_window _ _ Hok) as Hw. rewrite Forall_forall in Hw. by apply Hw. }
  split; intros Hin.
  - destruct (sk_xip _ _ _ Hsn _ Hin) as (p & t & subs & Hp & Hne & Hv & Et & E & _).
    apply (Hn p Hp Hne Hv). rewrite Et. rewrite (Hinj t); [left| |done].
    apply (Hw p); [done|]. rewrite Et. left.
  - destruct (sk_subxip _ _ _ Hsn _ Hin) as [(c' & Hc' & Hlt & E)|(p & c' & Hp & Hne & Hv & Hin' & E)].
    + rewrite (Hinj c' Hc' E) in Hcl. lia.
    + apply (Hn p Hp Hne Hv). rewrite (Hinj c'); [done|by apply (Hw p)|done].
Qed.

Lemma snapshot_finished c t :
  window base c → c ≤ latest → not_running c →
  (suboverflowed sn = true → env_Topmost e (uint32_of c) = uint32_of t ∧ window base t ∧ t ≤ latest ∧ not_running t) →
  in_snapshot e sn (uint32_of c) = false.
Proof using HV Hsn.
  intros Hc Hcl Hn Htop. unfold in_snapshot. destruct (TransactionIdPrecedes _ _); [done|].
  rewrite after_xmax by done. rewrite (proj2 (Z.leb_le c latest)) by done. cbn [negb].
  rewrite (sk_recovery _ _ _ Hsn). destruct snapshot_lists as (-> & -> & _).
  destruct (not_listed c Hc Hcl Hn) as [H1 H2]. destruct (suboverflowed sn) eqn:Eo.
  - destruct (Htop eq_refl) as (-> & Ht & Htl & Hnt). destruct (TransactionIdPrecedes _ _); [done|].
    rewrite bool_decide_false; [done|]. by apply not_listed.
  - cbn [andb]. by rewrite !bool_decide_false by done.
Qed.
End membership.

(** *** The loop of [GetOldestXmin] *)

Definition considered (mydb : Oid) (allDbs ignoreVacuum : bool) (p : Z) : Prop :=
  (ignoreVacuum = true → in_vacuum p = false) ∧
  (allDbs = true ∨ ∃ x, allProcs (V k0) !! Z.to_nat p = Some x ∧ (databaseId x = mydb ∨ databaseId x = 0)).

(** [g] is not after anything that the processes [ps] may need. *)
Definition oldest_inv (mydb : Oid) (allDbs ignoreVacuum : bool) (ps : list Z) (g : Z) : Prop :=
  window base g ∧ g ≤ xm ∧
  ∀ p, p ∈ ps → considered mydb allDbs ignoreVacuum p →
    (stable p → ∀ t subs, trees p = t :: subs → g ≤ t) ∧ (∀ v, published p v → g ≤ v).

Lemma oldest_step_spec mydb allDbs ignoreVacuum i p ps g r :
  (k0 ≤ clk r)%nat → procs (V k0) !! i = Some p → oldest_inv mydb allDbs ignoreVacuum ps g →
  ∃ g' k', oldest_step V mydb allDbs ignoreVacuum (Z.of_nat i) (uint32_of g) r
             = Ret (uint32_of g', moved r k') ∧
    (clk r ≤ k')%nat ∧ oldest_inv mydb allDbs ignoreVacuum (ps ++ [p]) g'.
Proof using HV.
  intros Hk Hi (Hg & Hgx & Hinv). unfold oldest_step. destruct xm_window as (_ & _ & Hlx & _ & Hmin).
  destruct (fetch_index_ret i p r Hk Hi) as [Hf Hp]. rewrite (bind_Ret _ _ _ _ _ Hf).
  set (r1 := moved r (S (clk r))).
  destruct (view_proc r1 p) as (H0 & x0 & x1 & Hx0 & Hx1 & Hok & Hr1 & _); [cbn; lia|done|].
  assert (∀ g', window base g' → g' ≤ g →
    (considered mydb allDbs ignoreVacuum p → (stable p → ∀ t subs, trees p = t :: subs → g' ≤ t) ∧
       (∀ v, published p v → g' ≤ v)) → oldest_inv mydb allDbs ignoreVacuum (ps ++ [p]) g') as Hdone.
  { intros g' Hg' Hle Hnew. split; [done|]. split; [lia|]. intros q [Hq|Hq]%elem_of_app Hcon.
    - destruct (Hinv q Hq Hcon) as [Ha Hb]. split.
      + intros Hs t subs Et. specialize (Ha Hs t subs Et). lia.
      + intros v Hv. specialize (Hb v Hv). lia.
    - apply list_elem_of_singleton in Hq as ->. by apply Hnew. }
  assert (∃ flags k1, (if ignoreVacuum then fetch_proc V p vacuumFlags else mret 0) r1
    = Ret (flags, moved r k1) ∧ (S (clk r) ≤ k1)%nat ∧
    (ignoreVacuum = true → has_flag flags PROC_IN_VACUUM = true → in_vacuum p = true)) as (flags & k1 & Hrf & Hk1 & Hfl).
  { destruct ignoreVacuum.
    - eexists _, _. split; [exact (fetch_proc_ret vacuumFlags p x1 r1 H0 Hx1)|]. split; [cbn; lia|].
      intros _ Ef. pose proof (read_flag p x0 x1 Hx0 Hr1) as Hfl. by rewrite Ef in Hfl.
    - exists 0, (S (clk r)). split; [done|]. split; [lia|done]. }
  rewrite (bind_Ret _ _ _ _ _ Hrf). set (r2 := moved r k1).
  destruct (ignoreVacuum && has_flag flags PROC_IN_VACUUM) eqn:Ev.
  { exists g, k1. split; [done|]. split; [lia|]. apply Hdone; [done|lia|].
    apply andb_true_iff in Ev as [Ei Ef]. intros [Hv _]. rewrite Hv in Hfl by done. by specialize (Hfl Ei Ef). }
  destruct (view_proc r2 p) as (_ & x0' & x2 & Hx0' & Hx2 & _ & Hr2 & _); [cbn; lia|done|].
  rewrite Hx0 in Hx0'. injection Hx0' as <-.
  rewrite (bind_Ret _ _ _ _ _ (fetch_proc_ret databaseId p x2 r2 H0 Hx2)).
  set (r3 := moved r2 (S (clk r2))).
  destruct (allDbs || (databaseId x2 =? mydb) || (databaseId x2 =? 0)) eqn:Ed.
  2: { eexists g, _. split; [reflexivity|]. split; [cbn; lia|]. apply Hdone; [done|lia|].
       intros [_ [->|(x & Hx & Hdb)]]; [done|]. rewrite Hx0 in Hx. injection Hx as <-.
       rewrite (pr_db _ _ Hr2) in Ed. rewrite !orb_false_iff, !Z.eqb_neq in Ed. intuition. }
  destruct (view_proc r3 p) as (_ & x0' & x3 & Hx0' & Hx3 & _ & Hr3 & Hke3); [cbn; lia|done|].
  rewrite Hx0 in Hx0'. injection Hx0' as <-.
  rewrite (bind_Ret _ _ _ _ _ (fetch_proc_ret xid p x3 r3 H0 Hx3)). cbv zeta.
  set (r4 := moved r3 (S (clk r3))).
  destruct (view_proc r4 p) as (_ & x0' & x4 & Hx0' & Hx4 & _ & Hr4 & _); [cbn; lia|done|].
  rewrite Hx0 in Hx0'. injection Hx0' as <-.
  rewrite (bind_Ret _ _ _ _ _ (fetch_proc_ret xmin p x4 r4 H0 Hx4)).
  assert (xid x3 = InvalidTransactionId ∨ ∃ v, window base v ∧ xid x3 = uint32_of v) as Hxid.
  { destruct (pr_xid _ _ Hr3) as [->|[->|(c & Hc & _ & ->)]]; [|by left|right; by exists c].
    pose proof (po_top _ _ Hok) as Ht. pose proof (po_window _ _ Hok) as Hw.
    destruct (trees p) as [|t subs]; [left; apply Ht|right]. inversion_clear Hw. exists t. split; [done|apply Ht]. }
  destruct (older_spec (xid x3) g Hg Hxid) as (g1 & Hg1 & Hgg1 & -> & Hgv1 & _).
  destruct (older_spec (xmin x4) g1 Hg1 (pr_xmin _ _ Hr4)) as (g2 & Hg2 & Hgg2 & -> & Hgv2 & _).
  eexists g2, _. split; [reflexivity|]. split; [cbn; lia|]. apply Hdone; [done|lia|]. intros _. split.
  - intros Hs t subs Et. pose proof (po_top _ _ Hok) as Ht. pose proof (po_window _ _ Hok) as Hw.
    rewrite Et in Ht, Hw. destruct Ht as [Ex _]. inversion_clear Hw as [|? ? Hwt _].
    assert (g1 ≤ t); [|lia]. apply Hgv1; [done|]. rewrite (pk_xid _ _ (Hke3 Hs)); [done|].
    rewrite Ex. by apply (window_valid base).
  - intros v [Hv Hpub]. apply Hgv2; [done|]. apply (Hpub (clk r4)); [cbn; lia|done].
Qed.

Lemma oldest_loop_spec mydb allDbs ignoreVacuum ps rest g r :
  (k0 ≤ clk r)%nat → procs (V k0) = ps ++ rest → oldest_inv mydb allDbs ignoreVacuum ps g →
  ∃ g' k', oldest_loop V mydb allDbs ignoreVacuum (length rest) (Z.of_nat (length ps)) (uint32_of g) r
             = Ret (uint32_of g', moved r k') ∧
    (clk r ≤ k')%nat ∧ oldest_inv mydb allDbs ignoreVacuum (procs (V k0)) g'.
Proof using HV.
  revert ps g r. induction rest as [|p rest IH]; intros ps g r Hk Hps Hinv; cbn [oldest_loop length].
  { rewrite app_nil_r in Hps. exists g, (clk r). split; [by destruct r|]. by rewrite Hps. }
  destruct (oldest_step_spec mydb allDbs ignoreVacuum (length ps) p ps g r) as (g1 & k1 & Hrun & Hk1 & Hi1);
    [done|by rewrite Hps, list_lookup_middle|done|].
  rewrite (bind_Ret _ _ _ _ _ Hrun).
  replace (Z.of_nat (length ps) + 1) with (Z.of_nat (length (ps ++ [p]))) by (rewrite length_app; cbn; lia).
  destruct (IH (ps ++ [p]) g1 (moved r k1)) as (g' & k' & Hrun' & Hk' & Hi');
    [cbn; lia|by rewrite Hps, <- app_assoc|done|].
  exists g', k'. split; [exact Hrun'|]. cbn in Hk'. split; [lia|]. done.
Qed.

Lemma minus_defer_age_spec defer g :
  0 ≤ defer < 2 ^ 31 → full_xid g →
  ∃ h, minus_defer_age defer (uint32_of g) = uint32_of h ∧ full_xid h ∧ g - defer ≤ h ≤ g.
Proof using.
  clear HV. intros Hd Hg. unfold minus_defer_age. rewrite wrap_u_sub_l. cbv zeta.
  destruct (skip_up_spec (g - defer)) as (E & Hf & Hb). unfold TransactionIdIsNormal, FirstNormalTransactionId in *.
  pose proof (wrap_u_bound 32 (g - defer) ltac:(lia)) as [H0 _].
  destruct (Z.leb_spec 3 (uint32_of (g - defer))) as [L|L].
  - exists (g - defer). split; [done|]. split; [by apply Z.leb_le|]. lia.
  - set (h := g - defer + (3 - uint32_of (g - defer))). exists h.
    assert (uint32_of h = 3) as Eh.
    { unfold h. destruct (uint32_low (g - defer) (3 - uint32_of (g - defer))) as [-> _]; lia. }
    split; [done|]. split; [unfold full_xid, TransactionIdIsNormal, FirstNormalTransactionId; by rewrite Eh|].
    split; [unfold h; lia|]. destruct (Z_lt_le_dec g h) as [Hlt|]; [|done]. exfalso.
    unfold full_xid, TransactionIdIsNormal, FirstNormalTransactionId in Hg. apply Z.leb_le in Hg.
    unfold h in Hlt. replace g with (g - defer + defer) in Hg by lia.
    destruct (uint32_low (g - defer) defer) as [E1 _]; [lia..|]. rewrite E1 in Hg. lia.
Qed.

Lemma GetOldestXmin_spec defer mydb allDbs ignoreVacuum r :
  S (clk r) = k0 → (allDbs || negb (RecoveryInProgress (V (clk r)))) = true →
  RecoveryInProgress (V k0) = false → 0 ≤ defer < 2 ^ 31 →
  ∃ g h k', GetOldestXmin V defer mydb allDbs ignoreVacuum r = Ret (uint32_of h, moved r k') ∧
    (k0 ≤ k')%nat ∧ full_xid h ∧ g - defer ≤ h ≤ g ∧
    oldest_inv mydb allDbs ignoreVacuum (procs (V k0)) g.
Proof using HV.
  intros Hk Hrec0 Hrec Hd. unfold GetOldestXmin. destruct (rd_start _ _ _ _ HV) as [Al Aw And Ar Ap].
  destruct xm_window as (Hl & Hwx & Hlx & Hadv & _).
  rewrite (bind_Ret _ _ _ _ _ (fetch_val RecoveryInProgress _ r eq_refl)), Hrec0.
  rewrite (bind_Ret _ _ _ tt _ eq_refl). set (r1 := moved r (S (clk r))).
  rewrite (bind_Ret _ _ _ _ _ (fetch_val (λ s, latestCompletedXid (ShmemVariableCache s)) (uint32_of latest) r1
    ltac:(cbn; by rewrite Hk, Al))).
  rewrite (normal_window latest) by done. rewrite (bind_Ret _ _ _ tt _ eq_refl), Hadv.
  set (r2 := moved r1 (S (clk r1))). destruct (recovery_const (clk r2)) as (_ & E2 & _); [cbn; lia|].
  unfold fetch_numProcs. rewrite (bind_Ret _ _ _ _ _ (fetch_val (λ s, Z.of_nat (length (procs s))) _ r2 eq_refl)).
  rewrite E2, Nat2Z.id. set (r3 := moved r2 (S (clk r2))).
  destruct (oldest_loop_spec mydb allDbs ignoreVacuum [] (procs (V k0)) xm r3) as (g & k' & Hrun & Hk' & Hinv).
  - cbn. lia.
  - done.
  - split; [done|]. split; [lia|]. intros p Hp. by apply elem_of_nil in Hp.
  - cbn [length] in Hrun. change (Z.of_nat 0) with 0 in Hrun. rewrite (bind_Ret _ _ _ _ _ Hrun).
    set (r4 := moved r3 k'). cbn in Hk'. destruct (recovery_const (clk r4)) as (E4 & _ & _); [cbn; lia|].
    rewrite (bind_Ret _ _ _ _ _ (fetch_val RecoveryInProgress _ r4 eq_refl)), E4, Hrec.
    destruct (minus_defer_age_spec defer g Hd (proj1 (proj1 Hinv))) as (h & -> & Hh & Hb).
    eexists g, h, _. split; [reflexivity|]. split; [cbn; lia|]. done.
Qed.

(** *** The loop of [TransactionIdIsInProgress] *)

Section progress.
Context (me c : Z) (Hc : window base c) (Hcl : c ≤ latest).

Lemma not_young : ¬ young (uint32_of c).
Proof using Hc Hcl.
  clear HV. intros (c' & Hc' & Hlt & E). assert (c = c'); [|lia].
  apply uint32_full_eq; [by eapply window_near|done].
Qed.

Lemma child_loop_spec p n r :
  (k0 ≤ clk r)%nat → p ∈ procs (V k0) → (n ≤ 64)%nat →
  ∃ b k', child_loop V p n (uint32_of c) r = Ret (b, moved r k') ∧ (clk r ≤ k')%nat ∧
    (b = true → ∃ j k x, (j < n)%nat ∧ (clk r ≤ k)%nat ∧ allProcs (V k) !! Z.to_nat p = Some x ∧
       xids (subxids x) !! j = Some (uint32_of c)) ∧
    (b = false → ∀ j, (j < n)%nat → ∃ k x, (clk r ≤ k)%nat ∧ allProcs (V k) !! Z.to_nat p = Some x ∧
       xids (subxids x) !! j ≠ Some (uint32_of c)).
Proof using HV.
  intros Hk Hp. revert r Hk. induction n as [|n IH]; intros r Hk Hn; cbn [child_loop].
  { exists false, (clk r). split; [by destruct r|]. split; [done|]. split; [done|]. intros _ j Hj. lia. }
  destruct (view_proc r p Hk Hp) as (H0 & x0 & x & _ & Hx & _ & Hr & _).
  destruct (pr_wf _ _ Hr) as [Hnn Hl]. unfold PGPROC_MAX_CACHED_SUBXIDS in *.
  destruct (lookup_lt_is_Some_2 (xids (subxids x)) n) as [y Hy]; [lia|].
  rewrite (bind_Ret _ _ r y (moved r (S (clk r)))).
  2: { apply fetch_ret. rewrite (proj2 (arr_get_Some _ _ x)) by done. cbn [mbind outcome_bind].
       apply arr_get_Some. split; [lia|]. by rewrite Nat2Z.id. }
  unfold TransactionIdEquals. destruct (Z.eqb_spec y (uint32_of c)) as [->|Hne].
  - eexists true, _. split; [reflexivity|]. split; [cbn; lia|]. split; [|done].
    intros _. exists n, (clk r), x. split; [lia|]. done.
  - destruct (IH (moved r (S (clk r)))) as (b & k' & Hrun & Hk' & Ht & Hf); [cbn; lia|lia|]. cbn in Hk', Ht, Hf.
    exists b, k'. split; [exact Hrun|]. split; [lia|]. split.
    + intros Hb. destruct (Ht Hb) as (j & k & x' & Hj & Hkk & Hrest). exists j, k, x'.
      split; [lia|]. split; [lia|]. done.
    + intros Hb j Hj. destruct (decide (j = n)) as [->|Hjn].
      * exists (clk r), x. split; [lia|]. split; [done|]. congruence.
      * destruct (Hf Hb j ltac:(lia)) as (k & x' & Hkk & Hrest). exists k, x'. split; [lia|]. done.
Qed.

Record progress_inv (ps : list Z) (saved : list TransactionId) : Prop := {
  gi_sound y : y ∈ saved → ∃ p t subs, p ∈ ps ∧ p ≠ me ∧ trees p = t :: subs ∧ y = uint32_of t;
  gi_complete p t subs : p ∈ ps → p ≠ me → stable p → trees p = t :: subs → c ∈ t :: subs →
    uint32_of t ∈ saved ∧ c ≠ t
}.

Lemma progress_inv_skip ps saved p :
  progress_inv ps saved → (p ≠ me → stable p → (c ∉ trees p)) → progress_inv (ps ++ [p]) saved.
Proof using HV.
  clear Hc Hcl. intros [Hs Hco] Hn. split.
  - intros y (q & t & subs & Hq & Hrest)%Hs. exists q, t, subs. split; [set_solver|done].
  - intros q t subs Hq Hne Hst Et Hin. apply elem_of_app in Hq as [Hq|Hq]; [by eapply Hco|].
    apply list_elem_of_singleton in Hq as ->. exfalso. apply (Hn Hne Hst). by rewrite Et.
Qed.

Lemma progress_step_spec i p ps saved r :
  (k0 ≤ clk r)%nat → procs (V k0) !! i = Some p → progress_inv ps saved →
  ∃ res k', progress_step V me (uint32_of c) (Z.of_nat i) saved r = Ret (res, moved r k') ∧ (clk r ≤ k')%nat ∧
    match res with
    | None => p ≠ me ∧ c ∈ trees p
    | Some saved' => progress_inv (ps ++ [p]) saved'
    end.
Proof using HV Hc Hcl.
  intros Hk Hi Hinv. unfold progress_step.
  destruct (fetch_index_ret i p r Hk Hi) as [Hf Hp]. rewrite (bind_Ret _ _ _ _ _ Hf).
  set (r1 := moved r (S (clk r))). destruct (Z.eqb_spec p me) as [->|Hne].
  { eexists _, _. split; [reflexivity|]. split; [cbn; lia|]. by apply progress_inv_skip. }
  destruct (view_proc r1 p) as (H0 & x0 & x1 & Hx0 & Hx1 & Hok & Hr1 & Hke1); [cbn; lia|done|].
  rewrite (bind_Ret _ _ _ _ _ (fetch_proc_ret xid p x1 r1 H0 Hx1)). set (r2 := moved r1 (S (clk r1))).
  pose proof (po_top _ _ Hok) as Htop. pose proof (po_window _ _ Hok) as Hw.
  assert (stable p → ∀ t subs, trees p = t :: subs → xid x1 = uint32_of t) as Hst.
  { intros Hs t subs E. rewrite E in Htop, Hw. inversion_clear Hw. destruct Htop as [Ex _].
    rewrite (pk_xid _ _ (Hke1 Hs)); [done|]. rewrite Ex. by apply (window_valid base). }
  destruct (TransactionIdIsValid (xid x1)) eqn:Ev; cbn [negb].
  2: { eexists _, _. split; [reflexivity|]. split; [cbn; lia|]. apply progress_inv_skip; [done|].
       intros _ Hs. destruct (trees p) as [|t subs] eqn:Et; [apply not_elem_of_nil|].
       inversion_clear Hw as [|? ? Hwt _]. apply (window_valid base) in Hwt.
       rewrite <- (Hst Hs t subs eq_refl) in Hwt. congruence. }
  assert ((∃ t subs, trees p = t :: subs ∧ xid x1 = uint32_of t ∧ window base t ∧ Forall (λ s, t < s) subs) ∨
    young (xid x1)) as Hx.
  { destruct (pr_xid _ _ Hr1) as [E|[E|Hy]]; [left|by rewrite E in Ev|by right].
    destruct (trees p) as [|t subs]; [by destruct Htop as (E0 & _); rewrite E, E0 in Ev|].
    inversion_clear Hw. exists t, subs. rewrite E. by destruct Htop. }
  assert (∀ c', window base c' → uint32_of c' = uint32_of c → c' = c) as Hinj.
  { intros c' Hc' E. apply uint32_full_eq; [by eapply window_near|done]. }
  unfold TransactionIdEquals. destruct (Z.eqb_spec (xid x1) (uint32_of c)) as [E|Hneq].
  { eexists None, _. split; [reflexivity|]. split; [cbn; lia|]. split; [done|].
    destruct Hx as [(t & subs & -> & Ex & Hwt & _)|Hy]; [|rewrite E in Hy; by destruct not_young].
    rewrite (Hinj t Hwt) by congruence. left. }
  destruct Hx as [(t & subs & Et & Ex & Hwt & Hsubs)|Hy].
  2: { assert (TransactionIdPrecedes (uint32_of c) (xid x1) = true) as ->.
       { destruct Hy as (c' & Hc' & Hlt & ->). destruct (window_precedes base c c' Hc Hc') as (-> & _).
         apply Z.ltb_lt. lia. }
       eexists _, _. split; [reflexivity|]. split; [cbn; lia|]. apply progress_inv_skip; [done|].
       intros _ Hs Hin. destruct (trees p) as [|t subs] eqn:Et; [by apply elem_of_nil in Hin|].
       pose proof (Hst Hs t subs eq_refl) as Ex. rewrite Forall_forall in Hw.
       destruct Hy as (c' & Hc' & Hlt & E'). rewrite E' in Ex.
       assert (t = c') as -> by (apply uint32_full_eq; [eapply window_near; [apply Hw; left|done]|congruence]).
       destruct Htop as [_ Hsubs]. apply elem_of_cons in Hin as [Hin|Hin]; [lia|].
       rewrite Forall_forall in Hsubs. specialize (Hsubs c Hin). lia. }
  rewrite Ex. destruct (window_precedes base c t Hc Hwt) as (-> & _).
  destruct (Z.ltb_spec c t) as [L|L].
  { eexists _, _. split; [reflexivity|]. split; [cbn; lia|]. apply progress_inv_skip; [done|].
    intros _ _ Hin. rewrite Et in Hin. apply elem_of_cons in Hin as [Hin|Hin]; [lia|].
    rewrite Forall_forall in Hsubs. specialize (Hsubs c Hin). lia. }
  destruct (view_between (clk r1) (clk r2) p x1) as (x2 & Hx2 & Hr2 & Hke2); [cbn; lia|done|done|].
  rewrite (bind_Ret _ _ _ _ _ (fetch_proc_ret (λ q, nxids (subxids q)) p x2 r2 H0 Hx2)).
  set (r3 := moved r2 (S (clk r2))). pose proof (proc_rely_trans _ _ _ Hr1 Hr2) as Hr02.
  destruct (pr_wf _ _ Hr2) as [Hn2 Hl2]. unfold PGPROC_MAX_CACHED_SUBXIDS in *.
  destruct (child_loop_spec p (Z.to_nat (nxids (subxids x2))) r3) as (b & k' & Hrun & Hk' & Ht & Hf');
    [cbn; lia|done|lia|]. rewrite (bind_Ret _ _ _ _ _ Hrun). cbn in Hk', Ht, Hf'. destruct b.
  { eexists None, _. split; [reflexivity|]. split; [lia|]. split; [done|].
    destruct (Ht eq_refl) as (j & k & x & Hj & Hkk & Hxk & Hslot).
    destruct (view_between (clk r2) k p x2) as (x' & Hx' & Hr2k & _); [cbn; lia|done|done|].
    rewrite Hxk in Hx'. injection Hx' as <-.
    destruct (pr_slot _ _ Hr2k j _ Hslot) as [Hs2|Hy]; [|by destruct not_young].
    destruct (pr_new _ _ Hr02 j _ ltac:(lia) Hs2) as [Hn0|Hy]; [|by destruct not_young].
    destruct (pr_slot _ _ Hr02 j _ Hs2) as [Hs0|Hy]; [|by destruct not_young].
    destruct (po_cached _ _ Hok (uint32_of c)) as (c' & Hcin & E).
    { by eapply cached_lookup; [apply Hok|..]. }
    rewrite Et in Hcin |- *. cbn in Hcin. rewrite Et, Forall_forall in Hw.
    rewrite <- (Hinj c'); [by right|apply Hw; by right|done]. }
  destruct (view_between (clk r2) k' p x2) as (x4 & Hx4 & Hr4 & Hke4); [cbn; lia|done|done|].
  rewrite (bind_Ret _ _ _ _ _ (fetch_proc_ret (λ q, overflowed (subxids q)) p x4 (moved r3 k') H0 Hx4)).
  eexists (Some _), _. split; [reflexivity|]. split; [cbn; lia|].
  assert (stable p → overflowed (subxids x4) = false → c ∈ subs → False) as Hno.
  { intros Hs Ho Hin. destruct (Hke1 Hs) as [X0 N0 S0 O0], (Hke2 Hs) as [X1 N1 S1 O1], (Hke4 Hs) as [_ _ _ O4].
    assert (overflowed (subxids x0) = false) as Eo.
    { destruct (overflowed (subxids x0)); [|done]. by rewrite O4 in Ho by auto. }
    pose proof (po_complete _ _ Hok Eo c) as Hin0. rewrite Et in Hin0.
    destruct (cached_inv x0 (uint32_of c) (Hin0 Hin)) as (j & Hj & Hj0).
    destruct (Hf' eq_refl j ltac:(lia)) as (k & x & Hkk & Hxk & Hslot).
    destruct (view_between (clk r2) k p x2) as (x' & Hx' & _ & Hke'); [cbn; lia|done|done|].
    rewrite Hxk in Hx'. injection Hx' as <-. apply Hslot.
    rewrite (pk_slot _ _ (Hke' Hs)), S1, S0 by lia. done. }
  destruct (overflowed (subxids x4)).
  - destruct Hinv as [Hs Hco]. split.
    + intros y [Hy|Hy]%elem_of_app.
      * destruct (Hs y Hy) as (q & t' & subs' & Hq & Hrest). exists q, t', subs'. split; [set_solver|done].
      * apply list_elem_of_singleton in Hy as ->. exists p, t, subs. split; [set_solver|done].
    + intros q t' subs' Hq Hqne Hst' Et' Hin. apply elem_of_app in Hq as [Hq|Hq].
      * destruct (Hco q t' subs' Hq Hqne Hst' Et' Hin). split; [set_solver|done].
      * apply list_elem_of_singleton in Hq as ->. rewrite Et in Et'. injection Et' as <- <-.
        split; [set_solver|]. congruence.
  - apply progress_inv_skip; [done|]. intros _ Hs Hin. rewrite Et in Hin.
    apply elem_of_cons in Hin as [->|Hin]; [congruence|]. by apply Hno.
Qed.

Lemma progress_loop_spec ps rest saved r :
  (k0 ≤ clk r)%nat → procs (V k0) = ps ++ rest → progress_inv ps saved →
  ∃ res k', progress_loop V me (uint32_of c) (length rest) (Z.of_nat (length ps)) saved r
              = Ret (res, moved r k') ∧ (clk r ≤ k')%nat ∧
    match res with
    | None => ∃ p, p ∈ procs (V k0) ∧ p ≠ me ∧ c ∈ trees p
    | Some saved' => progress_inv (procs (V k0)) saved'
    end.
Proof using HV Hc Hcl.
  revert ps saved r. induction rest as [|p rest IH]; intros ps saved r Hk Hps Hinv; cbn [progress_loop length].
  { rewrite app_nil_r in Hps. exists (Some saved), (clk r). split; [by destruct r|]. by rewrite Hps. }
  destruct (progress_step_spec (length ps) p ps saved r) as (res & k1 & Hrun & Hk1 & Hres);
    [done|by rewrite Hps, list_lookup_middle|done|].
  rewrite (bind_Ret _ _ _ _ _ Hrun). destruct res as [saved1|].
  - replace (Z.of_nat (length ps) + 1) with (Z.of_nat (length (ps ++ [p]))) by (rewrite length_app; cbn; lia).
    destruct (IH (ps ++ [p]) saved1 (moved r k1)) as (res & k' & Hrun' & Hk' & Hi');
      [cbn; lia|by rewrite Hps, <- app_assoc|done|].
    exists res, k'. split; [exact Hrun'|]. cbn in Hk'. split; [lia|]. done.
  - exists None, k1. split; [done|]. split; [done|]. exists p. destruct Hres.
    split; [rewrite Hps; set_solver|done].
Qed.
End progress.

(** What the rest of the transaction system answers about [c] while the routine runs:
    the commit log has no abort for a running transaction, and has one for a
    subtransaction that has left a running tree. *)
Record answers_ok (me c : Z) (Known Cur Abort : nat → TransactionId → bool)
    (Top : nat → TransactionId → TransactionId) : Prop := {
  an_known k : Known k (uint32_of c) = true → Cur k (uint32_of c) = false ∧ c ≤ latest ∧
    ∀ p, p ∈ procs (V k0) → p ≠ me → (c ∉ trees p);
  an_cur k k' : Cur k (uint32_of c) = Cur k' (uint32_of c);
  an_running k p t subs : p ∈ procs (V k0) → p ≠ me → trees p = t :: subs → c ∈ t :: subs →
    Abort k (uint32_of c) = false ∧ Top k (uint32_of c) = uint32_of t;
  an_aborted : (∀ k, Cur k (uint32_of c) = false) → (∀ p, p ∈ procs (V k0) → p ≠ me → (c ∉ trees p)) →
    (∀ k, Abort k (uint32_of c) = true) ∨
    ∀ k p t subs, p ∈ procs (V k0) → p ≠ me → trees p = t :: subs → Top k (uint32_of c) ≠ uint32_of t;
  an_top k : TransactionIdIsValid (Top k (uint32_of c)) = true
}.

(** The transaction runs in another backend, which does not hand it over. *)
Definition runs_elsewhere (me c : Z) : Prop :=
  ∃ p t subs, p ∈ procs (V k0) ∧ p ≠ me ∧ stable p ∧ trees p = t :: subs ∧ c ∈ t :: subs.

Lemma progress_subtrans_spec me c Known Cur Abort Top saved r :
  window base c → answers_ok me c Known Cur Abort Top → progress_inv me c (procs (V k0)) saved →
  ∃ b r', progress_subtrans Abort Top (uint32_of c) saved r = Ret (b, r') ∧
    (runs_elsewhere me c → b = true) ∧
    ((∀ k, Cur k (uint32_of c) = false) → (∀ p, p ∈ procs (V k0) → p ≠ me → (c ∉ trees p)) → b = false).
Proof using HV.
  intros Hc [_ _ Hrun Hab Htop] [Hs Hco]. unfold progress_subtrans. destruct saved as [|y ys] eqn:Esv.
  { eexists false, r. split; [done|]. split; [|done].
    intros (p & t & subs & Hp & Hne & Hst & Et & Hin). destruct (Hco p t subs Hp Hne Hst Et Hin) as [Hl _].
    by apply elem_of_nil in Hl. }
  rewrite <- Esv in *. clear y ys Esv.
  rewrite (bind_Ret _ _ r (Abort (clk r) (uint32_of c)) (moved r (S (clk r)))) by done.
  destruct (Abort (clk r) (uint32_of c)) eqn:Ea.
  { eexists false, _. split; [reflexivity|]. split; [|done].
    intros (p & t & subs & Hp & Hne & Hst & Et & Hin).
    destruct (Hrun (clk r) p t subs Hp Hne Et Hin) as [E _]. congruence. }
  set (r1 := moved r (S (clk r))).
  rewrite (bind_Ret _ _ r1 (Top (clk r1) (uint32_of c)) (moved r1 (S (clk r1)))) by done.
  rewrite Htop. rewrite (bind_Ret _ _ _ tt _ eq_refl). eexists _, _. split; [reflexivity|]. split.
  - intros (p & t & subs & Hp & Hne & Hst & Et & Hin). destruct (Hrun (clk r1) p t subs Hp Hne Et Hin) as [_ ->].
    destruct (Hco p t subs Hp Hne Hst Et Hin) as [Hl Hct].
    destruct (ao_proc _ _ (rd_start _ _ _ _ HV) p Hp) as (_ & x & _ & Hok & _).
    pose proof (po_window _ _ Hok) as Hw. rewrite Et in Hw. inversion_clear Hw as [|? ? Hwt _].
    unfold TransactionIdEquals. rewrite (proj2 (Z.eqb_neq _ _)); [by rewrite bool_decide_true|].
    intros E. apply Hct. symmetry. apply uint32_full_eq; [by eapply window_near|done].
  - intros Hcur Hn. destruct (negb _); [|done]. rewrite bool_decide_false; [done|]. intros Hin.
    destruct (Hs _ Hin) as (p & t & subs & Hp & Hne & Et & E).
    destruct (Hab Hcur Hn) as [E'|Hnot]; [by rewrite E' in Ea|]. by apply (Hnot (clk r1) p t subs).
Qed.

Lemma TransactionIdIsInProgress_spec me c mm Known Cur Abort Top r :
  window base c → S (S (clk r)) = k0 → RecoveryInProgress (V k0) = false →
  RecentXmin r = uint32_of mm → window base mm →
  (Cur (S (clk r)) (uint32_of c) = true ∨ latest < c ∨ runs_elsewhere me c → mm ≤ c) →
  answers_ok me c Known Cur Abort Top →
  ∃ b r', TransactionIdIsInProgress V me Known Cur Abort Top (uint32_of c) r = Ret (b, r') ∧
    (Cur (S (clk r)) (uint32_of c) = true ∨ latest < c ∨ runs_elsewhere me c → b = true) ∧
    (Cur (S (clk r)) (uint32_of c) = false → c ≤ latest →
     (∀ p, p ∈ procs (V k0) → p ≠ me → (c ∉ trees p)) → b = false).
Proof using HV.
  intros Hc Hk Hrec Hrx Hmm Hold Han. unfold TransactionIdIsInProgress.
  destruct (rd_start _ _ _ _ HV) as [Al Aw And Ar Ap]. destruct xm_window as (Hl & _).
  rewrite (bind_Ret _ _ r r r) by done. rewrite Hrx.
  destruct (window_precedes base c mm Hc Hmm) as (-> & _).
  destruct (Z.ltb_spec c mm) as [L|L].
  { exists false, r. split; [done|]. split; [intros H; specialize (Hold H); lia|done]. }
  clear Hold. rewrite (bind_Ret _ _ r (Known (clk r) (uint32_of c)) (moved r (S (clk r)))) by done.
  set (r1 := moved r (S (clk r))). destruct (Known (clk r) (uint32_of c)) eqn:Ek.
  { destruct (an_known _ _ _ _ _ _ Han _ Ek) as (E1 & E2 & E3). exists false, r1. split; [done|]. split; [|done].
    intros [E|[E|(p & t & subs & Hp & Hne & _ & Et & Hin)]].
    - rewrite (an_cur _ _ _ _ _ _ Han _ (clk r)) in E. congruence.
    - lia.
    - exfalso. apply (E3 p Hp Hne). by rewrite Et. }
  rewrite (bind_Ret _ _ r1 (Cur (S (clk r)) (uint32_of c)) (moved r1 (S (clk r1)))) by done.
  set (r2 := moved r1 (S (clk r1))). destruct (Cur (S (clk r)) (uint32_of c)) eqn:Ecur.
  { exists true, r2. split; [done|]. done. }
  rewrite (bind_Ret _ _ _ _ _ (fetch_val (λ s, latestCompletedXid (ShmemVariableCache s)) (uint32_of latest) r2
    ltac:(cbn; by rewrite Hk, Al))).
  destruct (window_precedes base latest c Hl Hc) as (-> & _). set (r3 := moved r2 (S (clk r2))).
  destruct (Z.ltb_spec latest c) as [L2|L2].
  { exists true, r3. split; [done|]. split; [done|]. lia. }
  destruct (recovery_const (clk r3)) as (_ & E3 & _); [cbn; lia|].
  unfold fetch_numProcs. rewrite (bind_Ret _ _ _ _ _ (fetch_val (λ s, Z.of_nat (length (procs s))) _ r3 eq_refl)).
  rewrite E3, Nat2Z.id. set (r4 := moved r3 (S (clk r3))).
  destruct (progress_loop_spec me c Hc L2 [] (procs (V k0)) [] r4) as (res & k' & Hrun & Hk' & Hres).
  - cbn. lia.
  - done.
  - split; [intros y Hy; by apply elem_of_nil in Hy|intros p t subs Hp; by apply elem_of_nil in Hp].
  - cbn [length] in Hrun. change (Z.of_nat 0) with 0 in Hrun. rewrite (bind_Ret _ _ _ _ _ Hrun).
    set (r5 := moved r4 k'). cbn in Hk'. destruct res as [saved|].
    + destruct (recovery_const (clk r5)) as (E5 & _ & _); [cbn; lia|].
      rewrite (bind_Ret _ _ _ _ _ (fetch_val RecoveryInProgress _ r5 eq_refl)), E5, Hrec.
      destruct (progress_subtrans_spec me c Known Cur Abort Top saved (moved r5 (S (clk r5))) Hc Han Hres)
        as (b & r' & Hb & Ht & Hf). exists b, r'. split; [exact Hb|].
      split; [intros [?|[?|?]]; [done|lia|by apply Ht]|]. intros _ _ Hn. apply Hf; [|done].
      intros k. by rewrite (an_cur _ _ _ _ _ _ Han k (S (clk r))).
    + exists true, r5. split; [done|]. split; [done|]. intros _ _ Hn. destruct Hres as (p & Hp & Hne & Hin).
      exfalso. by apply (Hn p Hp Hne).
Qed.
End views.
End spec.

(** ** The changes of one process *)

Section changes.
Context (base : Z).

Lemma cached_assign p x :
  cache_wf (subxids p) → nxids (subxids p) < PGPROC_MAX_CACHED_SUBXIDS →
  cached (proc_assign p x true) = cached p ++ [x].
Proof.
  intros [Hn Hl] Hlt. unfold proc_assign, cached, cache_add. cbn [subxids with_xid].
  rewrite (proj2 (Z.ltb_lt _ _)) by done. cbn [nxids xids].
  replace (Z.to_nat (nxids (subxids p) + 1)) with (S (Z.to_nat (nxids (subxids p)))) by lia.
  rewrite (take_S_r _ _ x); [|apply list_lookup_insert_eq; lia]. by rewrite take_insert_ge by lia.
Qed.

Lemma proc_ok_top p c :
  proc_ok base p [] → window base c → proc_ok base (proc_assign p (uint32_of c) false) [c].
Proof.
  intros [H1 H2 H3 H4 H5 H6] Hc. destruct H3 as (E1 & E2 & E3). split; cbn.
  - done.
  - by constructor.
  - split; [done|constructor].
  - intros x Hx. unfold cached in Hx. cbn in Hx. rewrite E2 in Hx. by apply elem_of_nil in Hx.
  - done.
  - intros _ c' Hc'. by apply elem_of_nil in Hc'.
Qed.

Lemma proc_ok_sub p t subs c :
  proc_ok base p (t :: subs) → window base c → Forall (λ x, x < c) (t :: subs) →
  proc_ok base (proc_assign p (uint32_of c) true) (t :: subs ++ [c]).
Proof.
  intros [H1 H2 H3 H4 H5 H6] Hc Hlt. destruct H3 as (E1 & E2). pose proof H1 as [Hn Hl].
  assert (Forall (window base) (t :: subs ++ [c])) as Hw.
  { inversion_clear H2. constructor; [done|]. apply Forall_app. split; [done|by constructor]. }
  assert (Forall (λ x, t < x) (subs ++ [c])) as Hgt.
  { apply Forall_app. split; [done|]. constructor; [|constructor]. inversion_clear Hlt. done. }
  destruct (Z_lt_le_dec (nxids (subxids p)) PGPROC_MAX_CACHED_SUBXIDS) as [L|L].
  - pose proof (cached_assign p (uint32_of c) H1 L) as Hca. split; rewrite ?Hca; try done.
    + unfold proc_assign, cache_add. cbn. rewrite (proj2 (Z.ltb_lt _ _)) by done.
      split; cbn; [lia|by rewrite length_insert].
    + intros x [Hx|Hx]%elem_of_app.
      * destruct (H4 x Hx) as (c' & Hc' & ->). exists c'. cbn in *. split; [set_solver|done].
      * apply list_elem_of_singleton in Hx as ->. exists c. cbn. split; [set_solver|done].
    + apply NoDup_app. split; [done|]. split; [|apply NoDup_singleton].
      intros x Hx Hxc. apply list_elem_of_singleton in Hxc as ->. destruct (H4 _ Hx) as (c' & Hc' & E).
      rewrite Forall_forall in H2, Hlt. cbn in Hc'.
      assert (c = c'); [|specialize (Hlt c' ltac:(by right)); lia].
      apply uint32_full_eq; [eapply window_near; [done|apply H2; by right]|done].
    + intros Ho c' Hc'. cbn in Hc'. unfold proc_assign, cache_add in Ho. cbn in Ho.
      rewrite (proj2 (Z.ltb_lt _ _)) in Ho by done. cbn in Ho. specialize (H6 Ho).
      apply elem_of_app in Hc' as [Hc'|Hc']; [|set_solver].
      assert (uint32_of c' ∈ cached p); [by apply H6|set_solver].
  - assert (cached (proc_assign p (uint32_of c) true) = cached p) as Hca.
    { unfold proc_assign, cached, cache_add. cbn. by rewrite (proj2 (Z.ltb_ge _ _)) by done. }
    split; rewrite ?Hca; try done.
    + unfold proc_assign, cache_add. cbn. rewrite (proj2 (Z.ltb_ge _ _)) by done. split; cbn; lia.
    + intros x Hx. destruct (H4 x Hx) as (c' & Hc' & ->). exists c'. cbn in *. split; [set_solver|done].
    + unfold proc_assign, cache_add. cbn. rewrite (proj2 (Z.ltb_ge _ _)) by done. done.
Qed.

Lemma proc_ok_clear p tree : proc_ok base p tree →
  proc_ok base (clear_fields p InvalidTransactionId (empty_cache (subxids p))) [].
Proof.
  intros [[Hn Hl] H2 H3 H4 H5 H6]. split.
  - split; cbn; [|done]. unfold PGPROC_MAX_CACHED_SUBXIDS. lia.
  - constructor.
  - done.
  - intros x Hx. by apply elem_of_nil in Hx.
  - constructor.
  - intros _ c Hc. by apply elem_of_nil in Hc.
Qed.

(** *** Removal from the cache *)

Lemma XidCacheRemove_spec c i x :
  cache_wf c → (Z.of_nat i < nxids c) → xids c !! i = Some x →
  ∃ c', XidCacheRemove c (Z.of_nat i) = Ret c' ∧ cache_wf c' ∧ overflowed c' = overflowed c ∧
    take (Z.to_nat (nxids c)) (xids c) ≡ₚ x :: take (Z.to_nat (nxids c')) (xids c').
Proof.
  intros [Hn Hl] Hi Hx. unfold XidCacheRemove.
  set (n := Z.to_nat (nxids c - 1)). assert (Z.to_nat (nxids c) = S n) as En by lia.
  destruct (lookup_lt_is_Some_2 (xids c) n) as [y Hy]; [lia|].
  rewrite (proj2 (arr_get_Some (xids c) (nxids c - 1) y)) by (split; [lia|done]). cbn [mbind outcome_bind].
  rewrite arr_set_lt by lia. eexists. split; [reflexivity|]. rewrite Nat2Z.id. cbn.
  split; [split; cbn; [lia|by rewrite length_insert]|]. split; [done|]. fold n. rewrite En.
  rewrite (take_S_r _ _ _ Hy). destruct (decide (i = n)) as [->|Hne].
  - rewrite Hx in Hy. injection Hy as <-. rewrite take_insert_ge by lia. by rewrite Permutation_app_comm.
  - assert (take n (<[i := y]> (xids c)) = <[i := y]> (take n (xids c))) as ->.
    { rewrite take_insert_lt by lia. done. }
    assert (take n (xids c) !! i = Some x) as Hx' by (apply lookup_take_Some; split; [done|lia]).
    rewrite insert_take_drop by (apply lookup_lt_Some in Hx'; done).
    rewrite <- (take_drop_middle _ _ _ Hx') at 1. set (A := take i _). set (B := drop (S i) _).
    transitivity (y :: x :: A ++ B).
    + rewrite (Permutation_app_comm _ [y]). cbn. apply perm_skip. by rewrite <- Permutation_middle.
    + rewrite perm_swap. apply perm_skip. by rewrite <- Permutation_middle.
Qed.

Lemma remove_one_spec n x c :
  cache_wf c → Z.of_nat n ≤ nxids c →
  ∃ r, remove_one n x c = Ret r ∧
    match r with
    | Some c' => cache_wf c' ∧ overflowed c' = overflowed c ∧
        take (Z.to_nat (nxids c)) (xids c) ≡ₚ x :: take (Z.to_nat (nxids c')) (xids c')
    | None => x ∉ take n (xids c)
    end.
Proof.
  intros Hwf. induction n as [|n IH]; intros Hn; cbn [remove_one].
  { exists None. split; [done|]. apply not_elem_of_nil. }
  pose proof Hwf as [Hr Hl]. destruct (lookup_lt_is_Some_2 (xids c) n) as [y Hy]; [lia|].
  rewrite (proj2 (arr_get_Some (xids c) (Z.of_nat n) y)) by (rewrite Nat2Z.id; split; [lia|done]).
  cbn [mbind outcome_bind]. unfold TransactionIdEquals. destruct (Z.eqb_spec y x) as [->|Hne].
  - destruct (XidCacheRemove_spec c n x Hwf ltac:(lia) Hy) as (c' & -> & H). by exists (Some c').
  - destruct (IH ltac:(lia)) as (r & -> & Hres). exists r. split; [done|]. destruct r; [done|].
    rewrite (take_S_r _ _ _ Hy). set_solver.
Qed.

Lemma remove_if_found_spec x c :
  cache_wf c → NoDup (take (Z.to_nat (nxids c)) (xids c)) →
  ∃ c', remove_if_found x c = Ret c' ∧ cache_wf c' ∧ overflowed c' = overflowed c ∧
    NoDup (take (Z.to_nat (nxids c')) (xids c')) ∧
    ∀ y, y ∈ take (Z.to_nat (nxids c')) (xids c') ↔ y ∈ take (Z.to_nat (nxids c)) (xids c) ∧ y ≠ x.
Proof.
  intros Hwf Hnd. unfold remove_if_found. pose proof Hwf as [Hr _].
  destruct (remove_one_spec (Z.to_nat (nxids c)) x c Hwf ltac:(lia)) as ([c'|] & -> & Hres); cbn.
  - destruct Hres as (Hw & Ho & Hp). exists c'. split; [done|]. split; [done|]. split; [done|].
    rewrite Hp in Hnd. apply NoDup_cons in Hnd as [Hx Hnd]. split; [done|]. intros y. rewrite Hp.
    set_solver.
  - exists c. split; [done|]. split; [done|]. split; [done|]. split; [done|]. set_solver.
Qed.

Lemma remove_each_spec xs n c :
  (n ≤ length xs)%nat → cache_wf c → NoDup (take (Z.to_nat (nxids c)) (xids c)) →
  ∃ c', remove_each n xs c = Ret c' ∧ cache_wf c' ∧ overflowed c' = overflowed c ∧
    NoDup (take (Z.to_nat (nxids c')) (xids c')) ∧
    ∀ y, y ∈ take (Z.to_nat (nxids c')) (xids c') ↔ y ∈ take (Z.to_nat (nxids c)) (xids c) ∧ y ∉ take n xs.
Proof.
  revert c. induction n as [|n IH]; intros c Hn Hwf Hnd; cbn [remove_each].
  { exists c. split; [done|]. split; [done|]. split; [done|]. split; [done|]. set_solver. }
  destruct (lookup_lt_is_Some_2 xs n) as [x Hx]; [lia|].
  rewrite (proj2 (arr_get_Some xs (Z.of_nat n) x)) by (rewrite Nat2Z.id; split; [lia|done]).
  cbn [mbind outcome_bind]. destruct (remove_if_found_spec x c Hwf Hnd) as (c1 & -> & Hw1 & Ho1 & Hn1 & Hi1).
  destruct (IH c1 ltac:(lia) Hw1 Hn1) as (c2 & Hr2 & Hw2 & Ho2 & Hn2 & Hi2). cbn [mbind outcome_bind].
  exists c2. split; [done|]. split; [done|]. split; [congruence|]. split; [done|].
  intros y. rewrite Hi2, Hi1, (take_S_r _ _ _ Hx). set_solver.
Qed.
End changes.
