(* ===== verification/System.v ===== *)
(** * The running transaction system

    The atomic steps of [varsup.c] and [procarray.c] put together: backends come and go,
    take transaction ids, publish horizons, commit, abort, roll back subtransactions and
    prepare transactions.  A state pairs the shared memory with the history that it
    represents: which counters have been assigned, which of them each process runs, and
    which have committed in the log.

    The invariant says that the shared memory describes that history; the executions of the
    system provide the interface [XactHistory] that the visibility routines of [Tqual] are
    proved against, and the snapshots and horizons that they are given. *)

From S2P Require Import Prelude Xid Clog KnownXids VarSup Htup Tqual ProcArray.

(** ** States and steps *)

Record Sys := mkSys {
  mem : Shmem;
  next : Z;
  latest : Z;
  trees : Z → list Z;
  committed : list Z
}.

(** [MyProc->xmin = xmin] in [GetSnapshotData]. *)
Definition store_xmin (p : Z) (v : TransactionId) : cmd Shmem unit :=
  x ← get_proc p;
  set_proc p (mkProc (lxid x) (xid x) v (pid x) (databaseId x) (inCommit x) (vacuumFlags x)
    (recoveryConflictPending x) (subxids x)).

(** [MyProc->vacuumFlags |= PROC_IN_VACUUM] in [vacuum_rel]. *)
Definition set_in_vacuum (p : Z) : cmd Shmem unit :=
  x ← get_proc p;
  set_proc p (mkProc (lxid x) (xid x) (xmin x) (pid x) (databaseId x) (inCommit x)
    (Z.lor (vacuumFlags x) PROC_IN_VACUUM) (recoveryConflictPending x) (subxids x)).

(** The latest counter of a transaction tree. *)
Definition newest (tree : list Z) : Z := match tree with [] => 0 | t :: subs => foldr Z.max t subs end.

Definition set_tree (p : Z) (l : list Z) (trees : Z → list Z) : Z → list Z :=
  λ q, if decide (q = p) then l else trees q.

Lemma set_tree_at p l ts : set_tree p l ts p = l.
Proof. unfold set_tree. by rewrite decide_True. Qed.

(** A process of a backend, as opposed to that of a prepared transaction. *)
Definition backend (s : Shmem) (p : Z) : Prop :=
  ∃ x, allProcs s !! Z.to_nat p = Some x ∧ pid x ≠ 0.
Definition prepared (s : Shmem) (p : Z) : Prop :=
  ∃ x, allProcs s !! Z.to_nat p = Some x ∧ pid x = 0.

Definition no_vacuum (x : PGPROC) : Prop := pid x = 0 → has_flag (vacuumFlags x) PROC_IN_VACUUM = false.

(** A lazy vacuum runs in the process. *)
Definition is_vacuum (s : Sys) (p : Z) : bool :=
  match allProcs (mem s) !! Z.to_nat p with
  | Some x => has_flag (vacuumFlags x) PROC_IN_VACUUM
  | None => false
  end.

(** Whether a step needs [ProcArrayLock] exclusively. *)
Inductive lock := Shared | Exclusive.

Section system.
Context (BLCKSZ base : Z).

Inductive step : lock → Sys → Sys → Prop :=
(** A backend takes an id for its transaction, or for a subtransaction of it. *)
| st_assign s p (sub : bool) x m' :
    p ∈ procs (mem s) → backend (mem s) p → (sub = true ↔ trees s p ≠ []) →
    window base (next_counter (next s)) →
    GetNewTransactionId BLCKSZ p false true (λ s, s) sub (mem s) = Ret (x, m') →
    step Shared s (mkSys m' (next_counter (next s)) (latest s)
                     (set_tree p (trees s p ++ [next s]) (trees s)) (committed s))
(** A backend publishes the horizon of its snapshot. *)
| st_xmin s p v m' :
    p ∈ procs (mem s) → window base v → store_xmin p (uint32_of v) (mem s) = Ret (tt, m') →
    step Shared s (mkSys m' (next s) (latest s) (trees s) (committed s))
(** A transaction without an id ends. *)
| st_end_read_only s p m' :
    p ∈ procs (mem s) → trees s p = [] →
    ProcArrayEndTransaction p InvalidTransactionId (mem s) = Ret (tt, m') →
    step Shared s (mkSys m' (next s) (latest s) (trees s) (committed s))
(** The commit log records a commit. *)
| st_commit s p :
    p ∈ procs (mem s) →
    step Shared s (mkSys (mem s) (next s) (latest s) (trees s) (trees s p ++ committed s))
(** A backend clears the transaction that a prepared transaction has taken over. *)
| st_handover s p q m' :
    p ∈ procs (mem s) → q ∈ procs (mem s) → backend (mem s) p → prepared (mem s) q →
    trees s q = trees s p → ProcArrayClearTransaction p (mem s) = Ret (tt, m') →
    step Shared s (mkSys m' (next s) (latest s) (set_tree p [] (trees s)) (committed s))
(** A transaction with an id ends. *)
| st_end s p m' :
    p ∈ procs (mem s) → trees s p ≠ [] →
    ProcArrayEndTransaction p (uint32_of (newest (trees s p))) (mem s) = Ret (tt, m') →
    step Exclusive s (mkSys m' (next s) (Z.max (latest s) (newest (trees s p)))
                        (set_tree p [] (trees s)) (committed s))
(** Subtransactions abort. *)
| st_subabort s p t subs c gone m' :
    p ∈ procs (mem s) → trees s p = t :: subs → c ∈ subs → Forall (λ x, x ∈ subs) gone →
    XidCacheRemoveRunningXids p (uint32_of c) (Z.of_nat (length gone)) (uint32_of <$> gone)
      (uint32_of (newest (c :: gone))) (mem s) = Ret (tt, m') →
    step Exclusive s (mkSys m' (next s) (Z.max (latest s) (newest (c :: gone)))
                        (set_tree p (t :: filter (λ x, x ∉ c :: gone) subs) (trees s)) (committed s))
(** A backend declares itself a lazy vacuum. *)
| st_vacuum s p m' :
    p ∈ procs (mem s) → backend (mem s) p → trees s p = [] → set_in_vacuum p (mem s) = Ret (tt, m') →
    step Exclusive s (mkSys m' (next s) (latest s) (trees s) (committed s))
(** A backend starts, or a transaction is prepared: the new process runs the tree [l]. *)
| st_add s q x l m' :
    q ∉ procs (mem s) → 0 ≤ q → allProcs (mem s) !! Z.to_nat q = Some x →
    (l = [] ∨ pid x = 0 ∧ ∃ p, p ∈ procs (mem s) ∧ is_vacuum s p = false ∧ trees s p = l) →
    proc_ok base x l → xmin x = InvalidTransactionId → has_flag (vacuumFlags x) PROC_IN_VACUUM = false →
    ProcArrayAdd q (mem s) = Ret (tt, m') →
    step Exclusive s (mkSys m' (next s) (latest s) (set_tree q l (trees s)) (committed s))
(** A backend exits. *)
| st_exit s p m' :
    p ∈ procs (mem s) → trees s p = [] →
    ProcArrayRemove p InvalidTransactionId (mem s) = Ret (tt, m') →
    step Exclusive s (mkSys m' (next s) (latest s) (trees s) (committed s))
(** A prepared transaction ends. *)
| st_finish_prepared s q m' :
    q ∈ procs (mem s) → prepared (mem s) q → trees s q ≠ [] →
    ProcArrayRemove q (uint32_of (newest (trees s q))) (mem s) = Ret (tt, m') →
    step Exclusive s (mkSys m' (next s) (Z.max (latest s) (newest (trees s q)))
                        (set_tree q [] (trees s)) (committed s)).

(** ** The invariant *)

Record sys_inv (s : Sys) : Prop := {
  v_array : array_ok base (latest s) (trees s) (mem s);
  v_next : window base (next s);
  v_nextXid : nextXid (ShmemVariableCache (mem s)) = uint32_of (next s);
  v_order : latest s < next s;
  v_recovery : RecoveryInProgress (mem s) = false;
  (** every running id has been assigned *)
  v_assigned p c : p ∈ procs (mem s) → c ∈ trees s p → c < next s;
  (** every assigned id past [latest] is running *)
  v_running c : full_xid c → latest s < c < next s → ∃ p, p ∈ procs (mem s) ∧ c ∈ trees s p;
  v_committed c : c ∈ committed s → window base c ∧ c < next s;
  (** a prepared transaction is not a lazy vacuum *)
  v_flag p x : p ∈ procs (mem s) → allProcs (mem s) !! Z.to_nat p = Some x → no_vacuum x
}.

(** ** The steps on the shared memory *)

Definition with_procs (m : Shmem) (ps : list PGPROC) : Shmem :=
  mkShmem (ShmemVariableCache m) ps (maxProcs m) (procs m) (known_assigned m) (lastOverflowedXid m)
    (RecoveryInProgress m) (sh_clog m) (sh_subtrans m) (events m).

(** What the invariant needs of a change of memory that only touches process [p]. *)
Record changes (p : Z) (x' : PGPROC) (lat : Z) (m m' : Shmem) : Prop := {
  c_procs : procs m' = procs m;
  c_max : maxProcs m' = maxProcs m;
  c_recovery : RecoveryInProgress m' = RecoveryInProgress m;
  c_all : allProcs m' = <[Z.to_nat p := x']> (allProcs m);
  c_latest : latestCompletedXid (ShmemVariableCache m') = uint32_of lat
}.

Lemma advance_latest_spec m lat l :
  latestCompletedXid (ShmemVariableCache m) = uint32_of lat → window base lat → window base l →
  ∃ m', advance_latest (uint32_of l) m = Ret (tt, m') ∧ procs m' = procs m ∧ maxProcs m' = maxProcs m ∧
    RecoveryInProgress m' = RecoveryInProgress m ∧ allProcs m' = allProcs m ∧
    latestCompletedXid (ShmemVariableCache m') = uint32_of (Z.max lat l) ∧
    nextXid (ShmemVariableCache m') = nextXid (ShmemVariableCache m).
Proof using.
  intros El Hlat Hl. unfold advance_latest. rewrite (bind_Ret _ _ m m m) by done. cbv beta zeta. rewrite El.
  destruct (window_precedes base lat l Hlat Hl) as (-> & _).
  destruct (Z.ltb_spec lat l) as [L|L].
  - eexists. split; [reflexivity|]. cbn. rewrite Z.max_r by lia. done.
  - exists m. rewrite Z.max_l by lia. done.
Qed.

(** *** Assignment of an id *)

Lemma warnings_spec b x v m m' :
  wraparound_warnings b x v m = Ret (tt, m') →
  ShmemVariableCache m' = ShmemVariableCache m ∧ allProcs m' = allProcs m ∧ rest_of m' = rest_of m.
Proof using.
  unfold wraparound_warnings, send, ereport, mret, cmd_ret, mbind, cmd_bind.
  intros H. repeat case_match; simplify_eq; done.
Qed.

Lemma assign_step_spec p sub n y m x m' :
  GetNewTransactionId BLCKSZ p false true (λ s, s) sub m = Ret (x, m') →
  full_xid n → nextXid (ShmemVariableCache m) = uint32_of n →
  0 ≤ p → allProcs m !! Z.to_nat p = Some y → cache_wf (subxids y) →
  x = uint32_of n ∧
  ShmemVariableCache m' = with_nextXid (ShmemVariableCache m) (uint32_of (next_counter n)) ∧
  allProcs m' = <[Z.to_nat p := proc_assign y (uint32_of n) sub]> (allProcs m) ∧ rest_of m' = rest_of m.
Proof using.
  intros Hrun Hn Hnext Hp Hy Hwf. unfold GetNewTransactionId in Hrun. rewrite (bind_Ret _ _ m m m) in Hrun by done.
  destruct (RecoveryInProgress m); [done|]. cbv zeta in Hrun. rewrite Hnext in Hrun.
  destruct (TransactionIdFollowsOrEquals _ _).
  - unfold mbind at 1, cmd_bind at 1 in Hrun. unfold mbind at 1, cmd_bind at 1 in Hrun.
    destruct (wraparound_warnings _ _ _ m) as [[[] m1]| | |] eqn:Ew; [|done..].
    destruct (warnings_spec _ _ _ _ _ Ew) as (Ev & Ea & Er).
    rewrite (bind_Ret _ _ m1 tt m1) in Hrun by done. rewrite (bind_Ret _ _ m1 m1 m1) in Hrun by done.
    cbv beta iota in Hrun. unfold mret, cmd_ret in Hrun. cbv beta iota in Hrun. rewrite Ev, Hnext in Hrun.
    destruct (assign_spec BLCKSZ p sub n y m1 Hn) as (m2 & Hr & Hv & Ha & Hrest & _);
      [by rewrite Ev|done|by rewrite Ea|done|].
    unfold mret, cmd_ret in Hr. rewrite Hr in Hrun. injection Hrun as <- <-. rewrite Hv, Ha, Hrest, Ev, Ea, Er. done.
  - rewrite (bind_Ret _ _ m (uint32_of n) m) in Hrun by done.
    destruct (assign_spec BLCKSZ p sub n y m Hn Hnext Hp Hy Hwf) as (m2 & Hr & Hv & Ha & Hrest & _).
    rewrite Hr in Hrun. injection Hrun as <- <-. done.
Qed.

(** *** The other steps *)

Section ops.
Context (lat n p : Z) (x : PGPROC) (m : Shmem).
Context (Hlat : window base lat) (El : latestCompletedXid (ShmemVariableCache m) = uint32_of lat).
Context (Hp : 0 ≤ p) (Hx : allProcs m !! Z.to_nat p = Some x).

(** The new memory agrees with [m] on the next id. *)
Definition next_same (m' : Shmem) : Prop :=
  nextXid (ShmemVariableCache m') = nextXid (ShmemVariableCache m).

Lemma set_proc_changes x' :
  ∃ m', set_proc p x' m = Ret (tt, m') ∧ changes p x' lat m m' ∧ next_same m'.
Proof using El Hp Hx.
  rewrite (set_proc_spec p x x' m Hp Hx). eexists. split; [reflexivity|]. by split.
Qed.

Lemma xmin_step_spec v m' :
  store_xmin p v m = Ret (tt, m') →
  changes p (mkProc (lxid x) (xid x) v (pid x) (databaseId x) (inCommit x) (vacuumFlags x)
    (recoveryConflictPending x) (subxids x)) lat m m' ∧ next_same m'.
Proof using El Hp Hx.
  unfold store_xmin. rewrite (bind_Ret _ _ _ _ _ (get_proc_spec _ _ _ Hp Hx)).
  match goal with |- set_proc p ?x' m = _ → _ => destruct (set_proc_changes x') as (m1 & -> & Hc) end.
  by intros [= <-].
Qed.

Lemma vacuum_step_spec m' :
  set_in_vacuum p m = Ret (tt, m') →
  changes p (mkProc (lxid x) (xid x) (xmin x) (pid x) (databaseId x) (inCommit x)
    (Z.lor (vacuumFlags x) PROC_IN_VACUUM) (recoveryConflictPending x) (subxids x)) lat m m' ∧ next_same m'.
Proof using El Hp Hx.
  unfold set_in_vacuum. rewrite (bind_Ret _ _ _ _ _ (get_proc_spec _ _ _ Hp Hx)).
  match goal with |- set_proc p ?x' m = _ → _ => destruct (set_proc_changes x') as (m1 & -> & Hc) end.
  by intros [= <-].
Qed.

Lemma clear_step_spec m' :
  ProcArrayClearTransaction p m = Ret (tt, m') →
  changes p (clear_fields x InvalidTransactionId (empty_cache (subxids x))) lat m m' ∧ next_same m'.
Proof using El Hp Hx.
  unfold ProcArrayClearTransaction. rewrite (bind_Ret _ _ _ _ _ (get_proc_spec _ _ _ Hp Hx)).
  match goal with |- set_proc p ?x' m = _ → _ => destruct (set_proc_changes x') as (m1 & -> & Hc) end.
  by intros [= <-].
Qed.

Lemma end_read_only_spec m' :
  ProcArrayEndTransaction p InvalidTransactionId m = Ret (tt, m') →
  changes p (clear_fields x (xid x) (subxids x)) lat m m' ∧ next_same m'.
Proof using El Hp Hx.
  unfold ProcArrayEndTransaction. rewrite (bind_Ret _ _ _ _ _ (get_proc_spec _ _ _ Hp Hx)).
  change (TransactionIdIsValid InvalidTransactionId) with false. cbv iota.
  unfold Assert. destruct (negb (TransactionIdIsValid (xid x))); [|done]. rewrite (bind_Ret _ _ m tt m) by done.
  destruct (set_proc_changes (clear_fields x (xid x) (subxids x))) as (m1 & Hs & Hc).
  rewrite (bind_Ret _ _ _ _ _ Hs). destruct (nxids (subxids x) =? 0); [|done].
  rewrite (bind_Ret _ _ m1 tt m1) by done. destruct (negb (overflowed (subxids x))); [|done].
  by intros [= <-].
Qed.

Lemma advance_changes m1 x' l m' :
  changes p x' lat m m1 → next_same m1 → window base l →
  advance_latest (uint32_of l) m1 = Ret (tt, m') → changes p x' (Z.max lat l) m m' ∧ next_same m'.
Proof using Hlat.
  clear El Hp Hx. intros [C1 C2 C3 C4 C5] Hn Hl Hrun.
  destruct (advance_latest_spec m1 lat l C5 Hlat Hl) as (m2 & Hr & E1 & E2 & E3 & E4 & E5 & E6).
  rewrite Hr in Hrun. injection Hrun as <-. unfold next_same in *. split; [|congruence]. split; congruence.
Qed.

Lemma end_spec l m' :
  window base l → ProcArrayEndTransaction p (uint32_of l) m = Ret (tt, m') →
  changes p (clear_fields x InvalidTransactionId (empty_cache (subxids x))) (Z.max lat l) m m' ∧ next_same m'.
Proof using El Hp Hx Hlat.
  intros Hl. unfold ProcArrayEndTransaction. rewrite (bind_Ret _ _ _ _ _ (get_proc_spec _ _ _ Hp Hx)).
  rewrite (window_valid base l Hl). unfold Assert. destruct (TransactionIdIsValid (xid x)); [|done].
  rewrite (bind_Ret _ _ m tt m) by done.
  destruct (set_proc_changes (clear_fields x InvalidTransactionId (empty_cache (subxids x)))) as (m1 & Hs & Hc & Hn).
  rewrite (bind_Ret _ _ _ _ _ Hs). by apply advance_changes.
Qed.

Lemma subabort_spec c gone l m' :
  cache_wf (subxids x) → NoDup (cached x) → window base l →
  XidCacheRemoveRunningXids p (uint32_of c) (Z.of_nat (length gone)) (uint32_of <$> gone) (uint32_of l) m
    = Ret (tt, m') →
  ∃ cc, changes p (with_xid x (xid x) cc) (Z.max lat l) m m' ∧ next_same m' ∧ cache_wf cc ∧
    overflowed cc = overflowed (subxids x) ∧ NoDup (take (Z.to_nat (nxids cc)) (xids cc)) ∧
    ∀ y, y ∈ take (Z.to_nat (nxids cc)) (xids cc) ↔ y ∈ cached x ∧ y ∉ (uint32_of <$> (c :: gone)).
Proof using El Hp Hx Hlat.
  intros Hwf Hnd Hl. unfold XidCacheRemoveRunningXids, Assert.
  destruct (TransactionIdIsValid (uint32_of c)); [|done]. rewrite (bind_Ret _ _ m tt m) by done.
  rewrite (bind_Ret _ _ _ _ _ (get_proc_spec _ _ _ Hp Hx)).
  destruct (remove_each_spec (uint32_of <$> gone) (length gone) (subxids x)) as (c1 & Hr1 & Hw1 & Ho1 & Hn1 & Hi1);
    [by rewrite length_fmap|done|done|].
  rewrite Nat2Z.id. rewrite (bind_Ret _ _ m c1 m) by (unfold lift; by rewrite Hr1).
  destruct (remove_if_found_spec (uint32_of c) c1 Hw1 Hn1) as (c2 & Hr2 & Hw2 & Ho2 & Hn2 & Hi2).
  rewrite (bind_Ret _ _ m c2 m) by (unfold lift; by rewrite Hr2).
  destruct (set_proc_changes (with_xid x (xid x) c2)) as (m1 & Hs & Hc & Hn).
  rewrite (bind_Ret _ _ _ _ _ Hs). intros Hrun.
  destruct (advance_changes m1 (with_xid x (xid x) c2) l m' Hc Hn Hl Hrun) as [Hc' Hn'].
  exists c2. split; [done|]. split; [done|]. split; [done|]. split; [congruence|]. split; [done|].
  intros y. rewrite Hi2, Hi1, (take_ge (uint32_of <$> gone)) by (rewrite length_fmap; lia).
  rewrite fmap_cons, not_elem_of_cons.
  unfold cached. tauto.
Qed.
End ops.

(** *** Processes that come and go *)

Lemma remove_loop_spec p l acc :
  p ∈ l → ∃ l', l ≡ₚ p :: l' ∧ remove_loop p acc l ≡ₚ acc ++ l'.
Proof using.
  revert acc. induction l as [|q l IH]; intros acc Hin; [by apply elem_of_nil in Hin|]. cbn [remove_loop].
  destruct (Z.eqb_spec q p) as [->|Hne].
  - exists l. split; [done|]. destruct (last l) as [z|] eqn:E.
    + assert (l = take (length l - 1) l ++ [z]) as El.
      { rewrite <- (take_drop (length l - 1) l) at 1. f_equal. rewrite last_lookup in E.
        rewrite (drop_S _ z) by (rewrite <- E; f_equal; lia).
        apply lookup_lt_Some in E. rewrite drop_ge by lia. done. }
      apply Permutation_app_head. symmetry. rewrite El at 1. apply (Permutation_app_comm _ [z]).
    + apply last_None in E as ->. by rewrite app_nil_r.
  - apply elem_of_cons in Hin as [->|Hin]; [done|]. destruct (IH (acc ++ [q]) Hin) as (l' & Hl & Hr).
    exists (q :: l'). split; [rewrite Hl; apply perm_swap|]. by rewrite Hr, <- app_assoc.
Qed.

Lemma advance_latest_total x lat m :
  latestCompletedXid (ShmemVariableCache m) = lat →
  ∃ m1, advance_latest x m = Ret (tt, m1) ∧ procs m1 = procs m ∧ maxProcs m1 = maxProcs m ∧
    RecoveryInProgress m1 = RecoveryInProgress m ∧ allProcs m1 = allProcs m ∧
    nextXid (ShmemVariableCache m1) = nextXid (ShmemVariableCache m) ∧
    latestCompletedXid (ShmemVariableCache m1) = (if TransactionIdPrecedes lat x then x else lat).
Proof using.
  intros <-. unfold advance_latest. rewrite (bind_Ret _ _ m m m) by done. cbv beta zeta.
  destruct (TransactionIdPrecedes _ _); [eexists; split; [reflexivity|done]|by exists m].
Qed.

Lemma remove_spec p x lat latestXid m m' :
  0 ≤ p → allProcs m !! Z.to_nat p = Some x → p ∈ procs m → NoDup (procs m) →
  latestCompletedXid (ShmemVariableCache m) = uint32_of lat → window base lat →
  (latestXid = InvalidTransactionId ∨ ∃ l, window base l ∧ latestXid = uint32_of l) →
  ProcArrayRemove p latestXid m = Ret (tt, m') →
  NoDup (procs m') ∧ (∀ q, q ∈ procs m' ↔ q ∈ procs m ∧ q ≠ p) ∧
  (length (procs m') ≤ length (procs m))%nat ∧ maxProcs m' = maxProcs m ∧
  RecoveryInProgress m' = RecoveryInProgress m ∧ allProcs m' = allProcs m ∧
  nextXid (ShmemVariableCache m') = nextXid (ShmemVariableCache m) ∧
  latestCompletedXid (ShmemVariableCache m') =
    (if TransactionIdIsValid latestXid then if TransactionIdPrecedes (uint32_of lat) latestXid then latestXid
     else uint32_of lat else uint32_of lat).
Proof using.
  intros Hp Hx Hin Hnd El Hlat Hl Hrun. unfold ProcArrayRemove in Hrun.
  rewrite (bind_Ret _ _ _ _ _ (get_proc_spec _ _ _ Hp Hx)) in Hrun.
  assert (∃ m1, m' = mkShmem (ShmemVariableCache m1) (allProcs m1) (maxProcs m1) (remove_loop p [] (procs m1))
      (known_assigned m1) (lastOverflowedXid m1) (RecoveryInProgress m1) (sh_clog m1) (sh_subtrans m1) (events m1) ∧
    procs m1 = procs m ∧ maxProcs m1 = maxProcs m ∧ RecoveryInProgress m1 = RecoveryInProgress m ∧
    allProcs m1 = allProcs m ∧ nextXid (ShmemVariableCache m1) = nextXid (ShmemVariableCache m) ∧
    latestCompletedXid (ShmemVariableCache m1) =
    (if TransactionIdIsValid latestXid then if TransactionIdPrecedes (uint32_of lat) latestXid then latestXid
     else uint32_of lat else uint32_of lat)) as (m1 & -> & E1 & E2 & E3 & E4 & E5 & E6).
  { unfold Assert in Hrun. destruct (TransactionIdIsValid latestXid).
    - destruct (TransactionIdIsValid (xid x)); [|done].
      destruct (advance_latest_total latestXid _ m El) as (m1 & Ha & Hrest). exists m1. split; [|done].
      rewrite (bind_Ret _ _ m tt m1) in Hrun; [by injection Hrun as <-|]. by rewrite (bind_Ret _ _ m tt m).
    - destruct (TransactionIdIsValid (xid x)); [done|]. rewrite (bind_Ret _ _ m tt m) in Hrun by done.
      injection Hrun as <-. exists m. split; [reflexivity|]. done. }
  cbn. rewrite E1. destruct (remove_loop_spec p (procs m) [] Hin) as (l' & Hl' & Hr). cbn in Hr.
  rewrite Hl' in Hnd. apply NoDup_cons in Hnd as [Hnp Hnd]. rewrite E2, E3, E4, E5, E6.
  split; [by rewrite Hr|]. split; [intros q; rewrite Hr, Hl', elem_of_cons; set_solver|].
  split; [|done]. rewrite Hr, Hl'. cbn. lia.
Qed.

Lemma add_spec q m m' :
  ProcArrayAdd q m = Ret (tt, m') →
  procs m' = procs m ++ [q] ∧ Z.of_nat (length (procs m')) ≤ maxProcs m' ∧ maxProcs m' = maxProcs m ∧
  RecoveryInProgress m' = RecoveryInProgress m ∧ allProcs m' = allProcs m ∧
  ShmemVariableCache m' = ShmemVariableCache m.
Proof using.
  unfold ProcArrayAdd. rewrite (bind_Ret _ _ m m m) by done.
  destruct (Z.leb_spec (maxProcs m) (Z.of_nat (length (procs m)))) as [L|L]; [done|].
  intros [= <-]. cbn. rewrite length_app. cbn. split; [done|]. split; [lia|]. done.
Qed.

(** ** Every step preserves the invariant *)

Lemma clear_flag f : has_flag (Z.land f (Z.lnot PROC_VACUUM_STATE_MASK)) PROC_IN_VACUUM = false.
Proof using.
  unfold has_flag. rewrite <- Z.land_assoc. change (Z.land (Z.lnot PROC_VACUUM_STATE_MASK) PROC_IN_VACUUM) with 0.
  by rewrite Z.land_0_r.
Qed.

Lemma newest_spec t subs : newest (t :: subs) ∈ t :: subs ∧ Forall (λ c, c ≤ newest (t :: subs)) (t :: subs).
Proof using.
  cbn [newest]. induction subs as [|c subs [IHin IHle]]; cbn.
  { split; [left|]. constructor; [lia|constructor]. }
  inversion_clear IHle as [|? ? Ht Hs]. split.
  - destruct (Z.max_spec c (foldr Z.max t subs)) as [[_ ->]|[_ ->]]; [|set_solver].
    apply elem_of_cons in IHin as [->|]; set_solver.
  - constructor; [lia|]. constructor; [lia|]. eapply Forall_impl; [exact Hs|]. cbn. lia.
Qed.

Lemma latest_window lat n : window base lat → window base n → lat < n → window base (next_counter lat).
Proof using.
  intros Hl Hn Hlt. destruct (next_counter_spec lat (proj1 Hl)) as (_ & Hf & Hb & Hmin).
  split; [done|]. specialize (Hmin n (proj1 Hn) Hlt). destruct Hl, Hn. lia.
Qed.

Lemma array_ok_change lat lat' T p x' l' m m' :
  array_ok base lat T m → changes p x' lat' m m' → window base lat' → window base (next_counter lat') →
  p ∈ procs m → proc_ok base x' l' →
  (xmin x' = InvalidTransactionId ∨ ∃ v, window base v ∧ xmin x' = uint32_of v) →
  array_ok base lat' (set_tree p l' T) m'.
Proof using.
  intros [A1 A2 A3 A4 A5] [C1 C2 C3 C4 C5] Hl Hl' Hp Hok Hxm. split; rewrite ?C1, ?C2, ?C4; try done.
  intros q Hq. destruct (A5 q Hq) as (H0 & x & Hx & Hokx & Hxx). split; [done|].
  destruct (A5 p Hp) as (Hp0 & xp & Hxp & _). unfold set_tree. destruct (decide (q = p)) as [->|Hne].
  - exists x'. rewrite list_lookup_insert_eq by (by eapply lookup_lt_Some). done.
  - exists x. rewrite list_lookup_insert_ne by lia. done.
Qed.

(** A step that changes one process keeps the invariant. *)
Lemma inv_change s p x' l' lat' n' m' cm :
  sys_inv s → p ∈ procs (mem s) → changes p x' lat' (mem s) m' →
  nextXid (ShmemVariableCache m') = uint32_of n' → window base n' → next s ≤ n' →
  window base lat' → latest s ≤ lat' < n' → proc_ok base x' l' →
  (xmin x' = InvalidTransactionId ∨ ∃ v, window base v ∧ xmin x' = uint32_of v) →
  (∀ c, c ∈ l' → c < n') → (∀ c, c ∈ cm → window base c ∧ c < n') → no_vacuum x' →
  (∀ c, full_xid c → lat' < c < n' → c ∈ trees s p ∨ next s ≤ c →
     c ∈ l' ∨ ∃ q, q ∈ procs (mem s) ∧ q ≠ p ∧ c ∈ trees s q) →
  sys_inv (mkSys m' n' lat' (set_tree p l' (trees s)) cm).
Proof using.
  intros [V1 V2 V3 V4 V5 V6 V7 V8 V9] Hp Hc Hn Hwn Hle Hwl Hl Hok Hxm Hlt Hcm Hnv Hrun.
  assert (∀ q c, q ∈ procs (mem s) → q ≠ p → c ∈ trees s q →
    ∃ q', q' ∈ procs m' ∧ c ∈ set_tree p l' (trees s) q') as Hother.
  { intros q c Hq Hne Hin. exists q. rewrite (c_procs _ _ _ _ _ Hc). unfold set_tree.
    rewrite decide_False by done. done. }
  assert (∀ c, c ∈ l' → ∃ q', q' ∈ procs m' ∧ c ∈ set_tree p l' (trees s) q') as Hmine.
  { intros c Hin. exists p. rewrite (c_procs _ _ _ _ _ Hc). unfold set_tree. by rewrite decide_True by done. }
  split; cbn; try done.
  - eapply array_ok_change; try done. by apply (latest_window lat' n'); [..|lia].
  - lia.
  - rewrite (c_recovery _ _ _ _ _ Hc). done.
  - intros q c Hq. rewrite (c_procs _ _ _ _ _ Hc) in Hq. unfold set_tree.
    destruct (decide (q = p)); [apply Hlt|]. intros Hin. specialize (V6 q c Hq Hin). lia.
  - intros c Hfc Hb. destruct (Z_lt_le_dec c (next s)) as [L|L].
    + destruct (V7 c Hfc ltac:(lia)) as (q & Hq & Hin). destruct (decide (q = p)) as [->|Hne]; [|by eapply Hother].
      destruct (Hrun c Hfc Hb (or_introl Hin)) as [?|(q & ? & ? & ?)]; [by apply Hmine|by eapply Hother].
    + destruct (Hrun c Hfc Hb (or_intror L)) as [?|(q & ? & ? & ?)]; [by apply Hmine|by eapply Hother].
  - intros q y Hq Hy. rewrite (c_procs _ _ _ _ _ Hc) in Hq. rewrite (c_all _ _ _ _ _ Hc) in Hy.
    destruct (decide (q = p)) as [->|Hne].
    + rewrite list_lookup_insert_eq in Hy; [by injection Hy as <-|].
      destruct (ao_proc _ _ _ _ V1 p Hp) as (_ & xp & Hxp & _). by eapply lookup_lt_Some.
    + destruct (ao_proc _ _ _ _ V1 p Hp) as (Hp0 & _), (ao_proc _ _ _ _ V1 q Hq) as (Hq0 & _).
      rewrite list_lookup_insert_ne in Hy by lia. by eapply V9.
Qed.

(** A step that adds or removes a process. *)
Lemma inv_procs s p l' lat' m' :
  sys_inv s → NoDup (procs m') → Z.of_nat (length (procs m')) ≤ maxProcs m' →
  RecoveryInProgress m' = false → allProcs m' = allProcs (mem s) →
  nextXid (ShmemVariableCache m') = nextXid (ShmemVariableCache (mem s)) →
  latestCompletedXid (ShmemVariableCache m') = uint32_of lat' → window base lat' → latest s ≤ lat' < next s →
  (∀ q, q ∈ procs m' → q ≠ p → q ∈ procs (mem s)) →
  (∀ q, q ∈ procs (mem s) → q ≠ p → q ∈ procs m') →
  (p ∈ procs m' → 0 ≤ p ∧ ∃ x, allProcs (mem s) !! Z.to_nat p = Some x ∧ proc_ok base x l' ∧
     xmin x = InvalidTransactionId ∧ no_vacuum x) →
  (∀ c, c ∈ l' → c < next s) →
  (∀ c, p ∈ procs (mem s) → c ∈ trees s p → c ≤ lat') →
  sys_inv (mkSys m' (next s) lat' (set_tree p l' (trees s)) (committed s)).
Proof using.
  intros [V1 V2 V3 V4 V5 V6 V7 V8 V9] Hnd Hroom Hrec Ha Hnx Hlx Hwl Hl Hin1 Hin2 Hp Hlt Hgone.
  destruct V1 as [A1 A2 A3 A4 A5].
  split; cbn; try done; try lia; try congruence.
  - split; try done; [split; [done|by apply (latest_window lat' (next s)); [..|lia]]|].
    intros q Hq. unfold set_tree. rewrite Ha. destruct (decide (q = p)) as [->|Hne].
    + destruct (Hp Hq) as (H0 & x & Hx & Hok & Hxm & _). split; [done|]. exists x. auto.
    + by apply A5, Hin1.
  - intros q c Hq. unfold set_tree. destruct (decide (q = p)); [apply Hlt|]. by apply V6, Hin1.
  - intros c Hfc Hb. destruct (V7 c Hfc ltac:(lia)) as (q & Hq & Hin).
    destruct (decide (q = p)) as [->|Hne]; [specialize (Hgone c Hq Hin); lia|].
    exists q. unfold set_tree. rewrite decide_False by done. split; [by apply Hin2|done].
  - intros q x Hq Hx. rewrite Ha in Hx. destruct (decide (q = p)) as [->|Hne]; [|by eapply V9; [apply Hin1|]].
    destruct (Hp Hq) as (_ & x' & Hx' & _ & _ & Hnv). rewrite Hx in Hx'. by injection Hx' as <-.
Qed.

Lemma inv_ext m n lat T T' cm :
  (∀ p, T p = T' p) → sys_inv (mkSys m n lat T cm) → sys_inv (mkSys m n lat T' cm).
Proof using.
  intros HT [V1 V2 V3 V4 V5 V6 V7 V8 V9]. cbn in *. split; cbn; try done.
  - destruct V1 as [A1 A2 A3 A4 A5]. split; try done. intros p Hp. rewrite <- HT. by apply A5.
  - intros p c. rewrite <- HT. apply V6.
  - intros c Hc Hb. destruct (V7 c Hc Hb) as (p & Hp & Hin). exists p. by rewrite <- HT.
Qed.

Lemma set_tree_same p l T q : T p = l → set_tree p l T q = T q.
Proof using. intros <-. unfold set_tree. by destruct (decide (q = p)) as [->|]. Qed.

Lemma proc_ok_fields x x' l :
  proc_ok base x l → xid x' = xid x → subxids x' = subxids x → proc_ok base x' l.
Proof using.
  intros [H1 H2 H3 H4 H5 H6] E1 E2. unfold cached in *. split; unfold cached; rewrite ?E1, ?E2; done.
Qed.

Section preservation.
Context (s : Sys) (Hinv : sys_inv s).

Lemma proc_of p : p ∈ procs (mem s) →
  0 ≤ p ∧ ∃ x, allProcs (mem s) !! Z.to_nat p = Some x ∧ proc_ok base x (trees s p) ∧
    (xmin x = InvalidTransactionId ∨ ∃ v, window base v ∧ xmin x = uint32_of v).
Proof using Hinv. intros Hp. apply (v_array _ Hinv), Hp. Qed.

Lemma latest_ok : latestCompletedXid (ShmemVariableCache (mem s)) = uint32_of (latest s) ∧ window base (latest s).
Proof using Hinv. destruct (v_array _ Hinv) as [A1 [A2 _] _ _ _]. done. Qed.

Lemma tree_window p c : p ∈ procs (mem s) → c ∈ trees s p → window base c ∧ c < next s.
Proof using Hinv.
  intros Hp Hc. split; [|by apply (v_assigned _ Hinv p)].
  destruct (proc_of p Hp) as (_ & x & _ & Hok & _). pose proof (po_window _ _ _ Hok) as Hw.
  rewrite Forall_forall in Hw. by apply Hw.
Qed.

Lemma newest_ok p : p ∈ procs (mem s) → trees s p ≠ [] →
  window base (newest (trees s p)) ∧ newest (trees s p) < next s ∧ ∀ c, c ∈ trees s p → c ≤ newest (trees s p).
Proof using Hinv.
  intros Hp Hne. destruct (trees s p) as [|t subs] eqn:E; [done|].
  destruct (newest_spec t subs) as [Hin Hle]. rewrite Forall_forall in Hle.
  destruct (tree_window p (newest (t :: subs)) Hp) as [? ?]; [by rewrite E|]. done.
Qed.

(** Steps that change neither the ids nor the trees. *)
Lemma inv_quiet p x' m' cm :
  p ∈ procs (mem s) → changes p x' (latest s) (mem s) m' →
  nextXid (ShmemVariableCache m') = nextXid (ShmemVariableCache (mem s)) →
  proc_ok base x' (trees s p) →
  (xmin x' = InvalidTransactionId ∨ ∃ v, window base v ∧ xmin x' = uint32_of v) →
  (∀ c, c ∈ cm → window base c ∧ c < next s) → no_vacuum x' → sys_inv (mkSys m' (next s) (latest s) (trees s) cm).
Proof using Hinv.
  intros Hp Hc Hn Hok Hxm Hcm Hnv. apply (inv_ext _ _ _ (set_tree p (trees s p) (trees s))).
  { intros q. by apply set_tree_same. }
  pose proof (v_order _ Hinv). eapply (inv_change s p x'); try done.
  - by rewrite Hn, (v_nextXid _ Hinv).
  - apply Hinv.
  - apply latest_ok.
  - intros c Hin. by apply (tree_window p c).
  - intros c Hfc Hb [Hin|Hge]; [by left|lia].
Qed.

Lemma inv_assign p sub x m' :
  p ∈ procs (mem s) → (sub = true ↔ trees s p ≠ []) → window base (next_counter (next s)) →
  GetNewTransactionId BLCKSZ p false true (λ s, s) sub (mem s) = Ret (x, m') →
  sys_inv (mkSys m' (next_counter (next s)) (latest s) (set_tree p (trees s p ++ [next s]) (trees s)) (committed s)).
Proof using Hinv.
  intros Hp Hsub Hw Hrun. destruct (proc_of p Hp) as (H0 & y & Hy & Hok & Hxm).
  pose proof (v_next _ Hinv) as Hwn. pose proof (v_order _ Hinv) as Hord.
  destruct (assign_step_spec p sub (next s) y (mem s) x m' Hrun (proj1 Hwn) (v_nextXid _ Hinv) H0 Hy
    (po_cache _ _ _ Hok)) as (-> & Ev & Ea & Er).
  unfold rest_of in Er. injection Er as E1 E2 E3 E4 E5.
  destruct latest_ok as [El Hwl]. destruct (next_counter_spec (next s) (proj1 Hwn)) as (_ & _ & Hnc & Hmin).
  eapply (inv_change s p (proc_assign y (uint32_of (next s)) sub)); try done.
  - split; try done. by rewrite Ev.
  - by rewrite Ev.
  - lia.
  - lia.
  - destruct (trees s p) as [|t subs] eqn:Et.
    + destruct sub; [by destruct (proj1 Hsub eq_refl)|]. by apply proc_ok_top.
    + destruct sub; [|by assert (false = true) by (by apply Hsub)]. cbn. apply proc_ok_sub; [done|done|].
      apply Forall_forall. intros c Hc. apply (tree_window p c Hp). by rewrite Et.
  - destruct Hxm as [Hxm|Hxm]; [left|right]; unfold proc_assign; destruct sub; done.
  - intros c [Hc|Hc%list_elem_of_singleton]%elem_of_app; [|lia]. destruct (tree_window p c Hp Hc). lia.
  - intros c Hc. destruct (v_committed _ Hinv c Hc). split; [done|lia].
  - pose proof (v_flag _ Hinv p y Hp Hy) as Hnv. by destruct sub.
  - intros c Hfc Hb Hin. left. apply elem_of_app. destruct Hin as [Hin|Hge]; [by left|right].
    apply list_elem_of_singleton. destruct (Z_lt_le_dec (next s) c) as [L|]; [|lia].
    specialize (Hmin c Hfc L). lia.
Qed.

Lemma inv_end p m' :
  p ∈ procs (mem s) → trees s p ≠ [] →
  ProcArrayEndTransaction p (uint32_of (newest (trees s p))) (mem s) = Ret (tt, m') →
  sys_inv (mkSys m' (next s) (Z.max (latest s) (newest (trees s p))) (set_tree p [] (trees s)) (committed s)).
Proof using Hinv.
  intros Hp Hne Hrun. destruct (proc_of p Hp) as (H0 & y & Hy & Hok & Hxm). destruct latest_ok as [El Hwl].
  destruct (newest_ok p Hp Hne) as (Hwt & Hlt & Hle). pose proof (v_order _ Hinv).
  destruct (end_spec (latest s) p y (mem s) Hwl El H0 Hy (newest (trees s p)) m' Hwt Hrun) as [Hc Hn].
  eapply (inv_change s p); [done|done|exact Hc| | | | | | | | | |intros _; apply clear_flag| ].
  - by rewrite Hn, (v_nextXid _ Hinv).
  - apply Hinv.
  - lia.
  - by destruct (Z.max_spec (latest s) (newest (trees s p))) as [[_ ->]|[_ ->]].
  - lia.
  - by eapply proc_ok_clear.
  - by left.
  - intros c Hin. by apply elem_of_nil in Hin.
  - intros c Hin. by apply (v_committed _ Hinv).
  - intros c Hfc Hb [Hin|Hge]; [specialize (Hle c Hin); lia|lia].
Qed.

Lemma proc_ok_filter x t subs gone cc :
  proc_ok base x (t :: subs) → Forall (λ c, c ∈ subs) gone → cache_wf cc →
  overflowed cc = overflowed (subxids x) → NoDup (take (Z.to_nat (nxids cc)) (xids cc)) →
  (∀ y, y ∈ take (Z.to_nat (nxids cc)) (xids cc) ↔ y ∈ cached x ∧ y ∉ (uint32_of <$> gone)) →
  proc_ok base (with_xid x (xid x) cc) (t :: filter (λ c, c ∉ gone) subs).
Proof using.
  clear s Hinv. intros [H1 H2 H3 H4 H5 H6] Hg Hw Ho Hnd Hin. destruct H3 as [E1 E2].
  inversion_clear H2 as [|? ? Hwt Hws]. rewrite Forall_forall in Hg, Hws, E2.
  assert (∀ c, c ∈ subs → uint32_of c ∈ (uint32_of <$> gone) ↔ c ∈ gone) as Hinj.
  { intros c Hc. split; [|by apply list_elem_of_fmap_2]. intros (c' & E & Hc')%list_elem_of_fmap.
    rewrite (uint32_full_eq c c'); [done| |done]. eapply window_near; [by apply Hws|by apply Hws, Hg]. }
  split; cbn.
  - done.
  - constructor; [done|]. apply Forall_forall. intros c [_ Hc]%list_elem_of_filter. by apply Hws.
  - split; [done|]. apply Forall_forall. intros c [_ Hc]%list_elem_of_filter. by apply E2.
  - intros y Hy. unfold cached in Hy. cbn in Hy. apply Hin in Hy as [Hy Hny].
    destruct (H4 y Hy) as (c & Hc & ->). cbn in Hc. exists c. rewrite list_elem_of_filter, <- Hinj by done. done.
  - done.
  - rewrite Ho. intros Hov c [Hng Hc]%list_elem_of_filter. unfold cached. cbn. apply Hin.
    rewrite Hinj by done. split; [by apply H6|done].
Qed.

Lemma inv_subabort p t subs c gone m' :
  p ∈ procs (mem s) → trees s p = t :: subs → c ∈ subs → Forall (λ x, x ∈ subs) gone →
  XidCacheRemoveRunningXids p (uint32_of c) (Z.of_nat (length gone)) (uint32_of <$> gone)
    (uint32_of (newest (c :: gone))) (mem s) = Ret (tt, m') →
  sys_inv (mkSys m' (next s) (Z.max (latest s) (newest (c :: gone)))
    (set_tree p (t :: filter (λ x, x ∉ c :: gone) subs) (trees s)) (committed s)).
Proof using Hinv.
  intros Hp Et Hc Hg Hrun. destruct (proc_of p Hp) as (H0 & y & Hy & Hok & Hxm). destruct latest_ok as [El Hwl].
  assert (Forall (λ x, x ∈ subs) (c :: gone)) as Hg' by (by constructor).
  destruct (newest_spec c gone) as [Hnin Hnle]. rewrite Forall_forall in Hnle.
  assert (∀ d, d ∈ subs → window base d ∧ d < next s) as Hsubs.
  { intros d Hd. apply (tree_window p d Hp). rewrite Et. by right. }
  rewrite Forall_forall in Hg'. destruct (Hsubs _ (Hg' _ Hnin)) as [Hwn Hltn]. rewrite <- Forall_forall in Hg'.
  pose proof (v_order _ Hinv).
  destruct (subabort_spec (latest s) p y (mem s) Hwl El H0 Hy c gone (newest (c :: gone)) m'
    (po_cache _ _ _ Hok) (po_nodup _ _ _ Hok) Hwn Hrun) as (cc & Hch & Hn & Hw & Ho & Hnd & Hin).
  eapply (inv_change s p); [done|done|exact Hch| | | | | | | | | |by apply (v_flag _ Hinv p y)| ].
  - by rewrite Hn, (v_nextXid _ Hinv).
  - apply Hinv.
  - lia.
  - by destruct (Z.max_spec (latest s) (newest (c :: gone))) as [[_ ->]|[_ ->]].
  - lia.
  - rewrite Et in Hok. by eapply proc_ok_filter.
  - done.
  - intros d [->|[_ Hd]%list_elem_of_filter]%elem_of_cons; [|by apply Hsubs].
    apply (tree_window p t Hp). rewrite Et. left.
  - intros d Hd. by apply (v_committed _ Hinv).
  - intros d Hfd Hb [Hd|Hge]; [|lia]. left. rewrite Et in Hd.
    apply elem_of_cons in Hd as [->|Hd]; [left|right]. apply list_elem_of_filter. split; [|done].
    intros Hd'. specialize (Hnle d Hd'). lia.
Qed.

Lemma inv_handover p q m' :
  p ∈ procs (mem s) → q ∈ procs (mem s) → backend (mem s) p → prepared (mem s) q →
  trees s q = trees s p → ProcArrayClearTransaction p (mem s) = Ret (tt, m') →
  sys_inv (mkSys m' (next s) (latest s) (set_tree p [] (trees s)) (committed s)).
Proof using Hinv.
  intros Hp Hq (xp & Hxp & Hpid) (xq & Hxq & Hqid) Et Hrun.
  destruct (proc_of p Hp) as (H0 & y & Hy & Hok & Hxm). destruct latest_ok as [El Hwl].
  pose proof (v_order _ Hinv).
  destruct (clear_step_spec (latest s) p y (mem s) El H0 Hy m' Hrun) as [Hc Hn].
  assert (q ≠ p) as Hne by (intros ->; congruence).
  eapply (inv_change s p); [done|done|exact Hc| | | | | | | | | |intros _; apply clear_flag| ].
  - by rewrite Hn, (v_nextXid _ Hinv).
  - apply Hinv.
  - lia.
  - done.
  - lia.
  - by eapply proc_ok_clear.
  - by left.
  - intros c Hin. by apply elem_of_nil in Hin.
  - intros c Hin. by apply (v_committed _ Hinv).
  - intros c Hfc Hb [Hin|Hge]; [|lia]. right. exists q. by rewrite Et.
Qed.

Lemma inv_add q x l m' :
  q ∉ procs (mem s) → 0 ≤ q → allProcs (mem s) !! Z.to_nat q = Some x →
  (l = [] ∨ pid x = 0 ∧ ∃ p, p ∈ procs (mem s) ∧ is_vacuum s p = false ∧ trees s p = l) →
  proc_ok base x l → xmin x = InvalidTransactionId → no_vacuum x → ProcArrayAdd q (mem s) = Ret (tt, m') →
  sys_inv (mkSys m' (next s) (latest s) (set_tree q l (trees s)) (committed s)).
Proof using Hinv.
  intros Hq H0 Hx Hl Hok Hxm Hnv Hrun. destruct (add_spec q (mem s) m' Hrun) as (E1 & E2 & E3 & E4 & E5 & E6).
  destruct latest_ok as [El Hwl]. pose proof (v_order _ Hinv). destruct (v_array _ Hinv) as [_ _ A3 _ _].
  apply inv_procs; rewrite ?E4, ?E5, ?E6; try done; try lia.
  - rewrite E1. apply NoDup_app. split; [done|]. split; [|apply NoDup_singleton].
    intros y Hy ->%list_elem_of_singleton. done.
  - apply Hinv.
  - intros p Hp Hne. rewrite E1 in Hp. set_solver.
  - intros p Hp Hne. rewrite E1. set_solver.
  - intros _. split; [done|]. by exists x.
  - intros c Hc. destruct Hl as [->|(_ & p & Hp & _ & <-)]; [by apply elem_of_nil in Hc|].
    by apply (tree_window p).
Qed.

Lemma inv_remove p latestXid lat' m' :
  p ∈ procs (mem s) → ProcArrayRemove p latestXid (mem s) = Ret (tt, m') →
  (latestXid = InvalidTransactionId ∧ trees s p = [] ∧ lat' = latest s ∨
   trees s p ≠ [] ∧ latestXid = uint32_of (newest (trees s p)) ∧ lat' = Z.max (latest s) (newest (trees s p))) →
  sys_inv (mkSys m' (next s) lat' (set_tree p [] (trees s)) (committed s)).
Proof using Hinv.
  intros Hp Hrun Hcase. destruct (proc_of p Hp) as (H0 & y & Hy & Hok & Hxm). destruct latest_ok as [El Hwl].
  pose proof (v_order _ Hinv) as Hord. destruct (v_array _ Hinv) as [_ _ A3 A4 _].
  assert (latestXid = InvalidTransactionId ∨ ∃ l, window base l ∧ latestXid = uint32_of l) as Hlx.
  { destruct Hcase as [(-> & _)|(Hne & -> & _)]; [by left|right]. destruct (newest_ok p Hp Hne). eauto. }
  destruct (remove_spec p y (latest s) latestXid (mem s) m' H0 Hy Hp A3 El Hwl Hlx Hrun)
    as (R1 & R2 & R3 & R4 & R5 & R6 & R7 & R8).
  assert (latestCompletedXid (ShmemVariableCache m') = uint32_of lat' ∧ window base lat' ∧
    latest s ≤ lat' < next s ∧ ∀ c, c ∈ trees s p → c ≤ lat') as (L1 & L2 & L3 & L4).
  { destruct Hcase as [(-> & Et & ->)|(Hne & -> & ->)].
    - split; [done|]. split; [done|]. split; [lia|]. rewrite Et. intros c Hc. by apply elem_of_nil in Hc.
    - destruct (newest_ok p Hp Hne) as (Hwt & Hlt & Hle). rewrite (window_valid base _ Hwt) in R8.
      destruct (window_precedes base (latest s) (newest (trees s p)) Hwl Hwt) as (Epr & _). rewrite Epr in R8.
      rewrite R8. destruct (Z.ltb_spec (latest s) (newest (trees s p))).
      + rewrite Z.max_r by lia. split; [done|]. split; [done|]. split; [lia|]. done.
      + rewrite Z.max_l by lia. split; [done|]. split; [done|]. split; [lia|]. intros c Hc. specialize (Hle c Hc). lia. }
  apply inv_procs; try done.
  - lia.
  - by rewrite R5, (v_recovery _ Hinv).
  - intros q Hq _. by apply R2 in Hq as [? _].
  - intros q Hq Hne. by apply R2.
  - intros Hp'. apply R2 in Hp' as [_ ?]. done.
  - intros c Hc. by apply elem_of_nil in Hc.
  - intros c _. apply L4.
Qed.
End preservation.

Lemma step_inv md s s' : step md s s' → sys_inv s → sys_inv s'.
Proof using.
  intros Hst Hinv. destruct Hst.
  - by eapply inv_assign.
  - destruct (proc_of s Hinv p) as (H0p & y & Hy & Hok & Hxm); [done|]. destruct (latest_ok s Hinv) as [El _].
    destruct (xmin_step_spec (latest s) p y (mem s) El H0p Hy _ _ ltac:(eassumption)) as [Hc Hn].
    eapply (inv_quiet s Hinv p); [done|exact Hc|done|by eapply proc_ok_fields|right; by eexists|apply Hinv|by apply (v_flag _ Hinv p y)].
  - destruct (proc_of s Hinv p) as (H0p & y & Hy & Hok & Hxm); [done|]. destruct (latest_ok s Hinv) as [El _].
    destruct (end_read_only_spec (latest s) p y (mem s) El H0p Hy _ ltac:(eassumption)) as [Hc Hn].
    eapply (inv_quiet s Hinv p); [done|exact Hc|done|by eapply proc_ok_fields|by left|apply Hinv|intros _; apply clear_flag].
  - destruct Hinv as [V1 V2 V3 V4 V5 V6 V7 V8 V9]. split; cbn; try done. intros c [Hc|Hc]%elem_of_app; [|by apply V8].
    split; [|by eapply V6]. destruct (ao_proc _ _ _ _ V1 p ltac:(done)) as (_ & x & _ & Hok & _).
    pose proof (po_window _ _ _ Hok) as Hw. rewrite Forall_forall in Hw. by apply Hw.
  - by eapply inv_handover.
  - by eapply inv_end.
  - by eapply inv_subabort.
  - destruct (proc_of s Hinv p) as (H0p & y & Hy & Hok & Hxm); [done|]. destruct (latest_ok s Hinv) as [El _].
    destruct (vacuum_step_spec (latest s) p y (mem s) El H0p Hy _ ltac:(eassumption)) as [Hc Hn].
    eapply (inv_quiet s Hinv p); [done|exact Hc|done|by eapply proc_ok_fields|done|apply Hinv|].
    match goal with H : backend _ _ |- _ => destruct H as (x' & Hx' & Hpid) end.
    intros E. cbn in E. congruence.
  - by eapply inv_add; try done; intros _.
  - apply (inv_ext _ _ _ (set_tree p [] (trees s))); [intros q; by apply set_tree_same|].
    eapply inv_remove; [done..|by left].
  - eapply inv_remove; [done..|by right].
Qed.

(** ** History *)

(** [c] is running in [s]. *)
Definition running (s : Sys) (c : Z) : Prop := ∃ p, p ∈ procs (mem s) ∧ c ∈ trees s p.

(** It is running in a process that is not a lazy vacuum. *)
Definition serving (s : Sys) (c : Z) : Prop :=
  ∃ p, p ∈ procs (mem s) ∧ is_vacuum s p = false ∧ c ∈ trees s p.

(** Both only lose members when a step takes ids away from process [p]. *)
Lemma running_set_tree s s' p l c :
  (∀ q, trees s' q = set_tree p l (trees s) q) →
  (∀ q, q ∈ procs (mem s') → q ≠ p → q ∈ procs (mem s)) →
  (∀ q, q ∈ procs (mem s') → q ≠ p → is_vacuum s' q = is_vacuum s q) →
  (p ∈ procs (mem s') → c ∈ l → running s c ∧ (is_vacuum s' p = false → serving s c)) →
  (running s' c → running s c) ∧ (serving s' c → serving s c).
Proof using.
  intros Ht Hps Hvs Hl. split.
  - intros (q & Hq & Hc). rewrite Ht in Hc. unfold set_tree in Hc.
    destruct (decide (q = p)) as [->|Hne]; [by apply Hl|]. exists q. split; [by apply Hps|done].
  - intros (q & Hq & Hv & Hc). rewrite Ht in Hc. unfold set_tree in Hc.
    destruct (decide (q = p)) as [->|Hne]; [by apply (Hl Hq Hc)|].
    exists q. split; [by apply Hps|]. split; [by rewrite <- Hvs|done].
Qed.

Lemma vacuum_other s s' p x' lat q :
  changes p x' lat (mem s) (mem s') → 0 ≤ p → 0 ≤ q → q ≠ p → is_vacuum s' q = is_vacuum s q.
Proof using.
  intros Hc Hp Hq Hne. unfold is_vacuum. rewrite (c_all _ _ _ _ _ Hc), list_lookup_insert_ne by lia. done.
Qed.
Lemma vacuum_changed s s' p x x' lat :
  changes p x' lat (mem s) (mem s') → allProcs (mem s) !! Z.to_nat p = Some x →
  is_vacuum s' p = has_flag (vacuumFlags x') PROC_IN_VACUUM ∧ is_vacuum s p = has_flag (vacuumFlags x) PROC_IN_VACUUM.
Proof using.
  intros Hc Hx. unfold is_vacuum. rewrite (c_all _ _ _ _ _ Hc), Hx.
  by rewrite list_lookup_insert_eq by (by eapply lookup_lt_Some).
Qed.

(** What a step under the shared lock does to the one process it concerns. *)
Record shared_change (s s' : Sys) (p : Z) (x x' : PGPROC) (l' : list Z) : Prop := {
  sc_in : p ∈ procs (mem s);
  sc_old : allProcs (mem s) !! Z.to_nat p = Some x;
  sc_change : changes p x' (latest s) (mem s) (mem s');
  sc_trees q : trees s' q = set_tree p l' (trees s) q;
  sc_latest : latest s' = latest s;
  sc_next : next s ≤ next s';
  sc_pid : pid x' = pid x;
  sc_rely : proc_rely base (latest s) x x';
  sc_keeps : (trees s p ≠ [] → l' ≠ []) → proc_keeps x x';
  sc_tree : l' = trees s p ∨ (l' = trees s p ++ [next s] ∧ pid x ≠ 0) ∨
    (l' = [] ∧ pid x ≠ 0 ∧ ∃ q, q ∈ procs (mem s) ∧ prepared (mem s) q ∧ trees s q = trees s p);
  sc_committed c : c ∈ committed s' → c ∈ committed s ∨ running s c;
  sc_mono c : c ∈ committed s → c ∈ committed s';
  sc_flag : has_flag (vacuumFlags x') PROC_IN_VACUUM = has_flag (vacuumFlags x) PROC_IN_VACUUM ∨ l' = []
}.

Section shared_steps.
Context (s : Sys) (Hinv : sys_inv s) (p : Z) (x : PGPROC).
Context (Hp : p ∈ procs (mem s)) (Hx : allProcs (mem s) !! Z.to_nat p = Some x).
Context (Hok : proc_ok base x (trees s p)).
Context (Hxm : xmin x = InvalidTransactionId ∨ ∃ v, window base v ∧ xmin x = uint32_of v).

Lemma young_next : young base (latest s) (uint32_of (next s)).
Proof using Hinv. exists (next s). split; [apply Hinv|]. split; [apply Hinv|done]. Qed.

Lemma rely_assign sub : (sub = true ↔ trees s p ≠ []) →
  proc_rely base (latest s) x (proc_assign x (uint32_of (next s)) sub) ∧
  proc_keeps x (proc_assign x (uint32_of (next s)) sub).
Proof using Hinv Hok Hxm.
  clear Hp Hx. intros Hsub. pose proof (po_cache _ _ _ Hok) as [Hn Hl].
  pose proof (po_top _ _ _ Hok) as Ht. pose proof young_next as Hy. destruct sub.
  - unfold proc_assign, cache_add.
    destruct (Z.ltb_spec (nxids (subxids x)) PGPROC_MAX_CACHED_SUBXIDS) as [L|L].
    + split; split; cbn; try done; try lia; auto.
      * split; cbn; [lia|by rewrite length_insert].
      * intros j y Hj. destruct (decide (j = Z.to_nat (nxids (subxids x)))) as [->|Hne].
        -- rewrite list_lookup_insert_eq in Hj by lia. injection Hj as <-. by right.
        -- rewrite list_lookup_insert_ne in Hj by done. by left.
      * intros j y Hlt Hj. destruct (decide (j = Z.to_nat (nxids (subxids x)))) as [->|Hne]; [|left; lia].
        rewrite list_lookup_insert_eq in Hj by lia. injection Hj as <-. by right.
      * intros j Hj. rewrite list_lookup_insert_ne by lia. done.
    + split; split; cbn; try done; try lia; auto.
  - assert (trees s p = []) as E.
    { destruct (trees s p); [done|]. assert (false = true) by (by apply Hsub). done. }
    rewrite E in Ht. destruct Ht as (E1 & E2 & E3). split; split; cbn; try done; try lia; auto.
    rewrite E1. done.
Qed.

Lemma rely_clear : proc_rely base (latest s) x (clear_fields x InvalidTransactionId (empty_cache (subxids x))).
Proof using Hok.
  pose proof (po_cache _ _ _ Hok) as [Hn Hl]. split; cbn; auto.
  - right. split; [apply clear_flag|]. split; [by left|]. cbn. lia.
  - split; cbn; [|done]. unfold PGPROC_MAX_CACHED_SUBXIDS. lia.
  - lia.
Qed.

Lemma rely_read_only : trees s p = [] →
  proc_rely base (latest s) x (clear_fields x (xid x) (subxids x)) ∧
  proc_keeps x (clear_fields x (xid x) (subxids x)).
Proof using Hok.
  intros E. pose proof (po_top _ _ _ Hok) as Ht. rewrite E in Ht. destruct Ht as (E1 & E2 & E3).
  split; [|by split]. split; cbn; auto; [|apply Hok].
  right. split; [apply clear_flag|]. split; cbn; [by left|lia].
Qed.
End shared_steps.

Lemma shared_shape s s' : step Shared s s' → sys_inv s → ∃ p x x' l', shared_change s s' p x x' l'.
Proof using.
  intros Hst Hinv. destruct (latest_ok s Hinv) as [El Hwl].
  assert (∀ q T, set_tree q (T q) T q = T q) as Hid by (intros; by apply set_tree_same).
  inversion Hst; subst; clear Hst;
    (destruct (proc_of s Hinv p) as (H0p & y & Hy & Hok & Hxm); [done|]); exists p, y.
  - eexists (proc_assign y (uint32_of (next s)) sub), (trees s p ++ [next s]).
    match goal with H : GetNewTransactionId _ _ _ _ _ _ _ = _ |- _ =>
      destruct (assign_step_spec p sub (next s) y (mem s) x m' H (proj1 (v_next _ Hinv)) (v_nextXid _ Hinv)
        H0p Hy (po_cache _ _ _ Hok)) as (-> & Ev & Ea & Er) end.
    unfold rest_of in Er. injection Er as E1 E2 E3 E4 E5.
    destruct (rely_assign s Hinv p y Hok Hxm sub) as [Hr Hk]; [done|].
    destruct (next_counter_spec (next s) (proj1 (v_next _ Hinv))) as (_ & _ & Hnc & _).
    split; cbn; try done; try lia; auto.
    + split; try done. by rewrite Ev.
    + by destruct sub.
    + right. left. split; [done|]. match goal with H : backend _ _ |- _ => destruct H as (x' & Hx' & Hpid) end. congruence.
    + left. by destruct sub.
  - match goal with H : store_xmin _ _ _ = _ |- _ =>
      destruct (xmin_step_spec (latest s) p y (mem s) El H0p Hy _ _ H) as [Hc Hn] end.
    eexists _, (trees s p). split; cbn; [done|done|exact Hc| |done|lia|done| | |by left|by left|done|by left].
    + intros q. by rewrite set_tree_same.
    + split; cbn; auto; [apply Hok|]. right. by eexists.
    + intros _. by split.
  - match goal with H : ProcArrayEndTransaction _ _ _ = _ |- _ =>
      destruct (end_read_only_spec (latest s) p y (mem s) El H0p Hy _ H) as [Hc Hn] end.
    destruct (rely_read_only s p y Hok) as [Hr Hk]; [done|].
    eexists _, (trees s p). split; cbn; [done|done|exact Hc| |done|lia|done|done|done|by left|by left|done|by right].
    intros q. by rewrite set_tree_same.
  - eexists y, (trees s p). split; cbn; [done|done| | |done|lia|done| | |by left| | |by left].
    + split; try done. by rewrite list_insert_id.
    + intros q. by rewrite set_tree_same.
    + by eapply proc_rely_refl.
    + intros _. apply proc_keeps_refl.
    + intros c [Hc|Hc]%elem_of_app; [right; by exists p|by left].
    + intros c Hc. apply elem_of_app. by right.
  - match goal with H : ProcArrayClearTransaction _ _ = _ |- _ =>
      destruct (clear_step_spec (latest s) p y (mem s) El H0p Hy _ H) as [Hc Hn] end.
    eexists _, []. split; cbn; [done|done|exact Hc|done|done|lia|done|by eapply rely_clear| | |by left|done|by right].
    + intros Hne. assert (trees s p = []) as E by (destruct (trees s p); [done|by destruct Hne]).
      pose proof (po_top _ _ _ Hok) as Ht. rewrite E in Ht. destruct Ht as (E1 & E2 & E3).
      split; cbn; rewrite ?E1, ?E2, ?E3; try done; lia.
    + right. right. split; [done|]. split.
      * match goal with H : backend _ _ |- _ => destruct H as (x' & Hx' & Hpid) end. congruence.
      * by exists q.
Qed.

(** Ids are assigned in order, no id starts twice, and only running ones commit. *)
Record history (s s' : Sys) : Prop := {
  hi_next : next s ≤ next s';
  hi_latest : latest s ≤ latest s';
  hi_running c : running s' c → c < next s → running s c;
  hi_serving c : serving s' c → c < next s → serving s c;
  hi_committed c : c ∈ committed s' → c < next s → c ∈ committed s ∨ running s c;
  hi_mono c : c ∈ committed s → c ∈ committed s'
}.

Lemma history_intro s s' :
  next s ≤ next s' → latest s ≤ latest s' →
  (∀ c, c < next s → (running s' c → running s c) ∧ (serving s' c → serving s c)) →
  (∀ c, c ∈ committed s' → c ∈ committed s ∨ running s c) → (∀ c, c ∈ committed s → c ∈ committed s') →
  history s s'.
Proof using. intros H1 H2 H3 H4 H5. split; [done|done|by intros; apply H3|by intros; apply H3|auto|done]. Qed.

Lemma shared_history s s' : step Shared s s' → sys_inv s → history s s'.
Proof using.
  intros Hst Hinv. destruct (shared_shape s s' Hst Hinv) as (p & x & x' & l' & S).
  pose proof (sc_change _ _ _ _ _ _ S) as Hc. pose proof (sc_in _ _ _ _ _ _ S) as Hp.
  destruct (proc_of s Hinv p Hp) as (Hp0 & _). pose proof (sc_latest _ _ _ _ _ _ S).
  destruct (vacuum_changed s s' p x x' _ Hc (sc_old _ _ _ _ _ _ S)) as [Ev' Ev].
  apply history_intro; [apply S|lia| |apply S|apply S]. intros c Hlt.
  apply (running_set_tree s s' p l'); [apply S|by rewrite (c_procs _ _ _ _ _ Hc)| |].
  - intros q Hq Hne. rewrite (c_procs _ _ _ _ _ Hc) in Hq. destruct (proc_of s Hinv q Hq) as (Hq0 & _).
    by eapply vacuum_other.
  - intros _ Hin. assert (c ∈ trees s p) as Hcp.
    { destruct (sc_tree _ _ _ _ _ _ S) as [->|[[-> _]|(-> & _)]]; [done| |by apply elem_of_nil in Hin].
      apply elem_of_app in Hin as [Hin|Hin%list_elem_of_singleton]; [done|lia]. }
    split; [by exists p|]. intros Hv. exists p. split; [done|]. split; [|done].
    destruct (sc_flag _ _ _ _ _ _ S) as [E| ->]; [congruence|by apply elem_of_nil in Hin].
Qed.

(** The changes under the exclusive lock that clear a tree or shrink it. *)
Lemma exclusive_history s s' p x x' lat l :
  sys_inv s → p ∈ procs (mem s) → allProcs (mem s) !! Z.to_nat p = Some x →
  changes p x' lat (mem s) (mem s') → (∀ q, trees s' q = set_tree p l (trees s) q) →
  (∀ c, c ∈ l → c ∈ trees s p) → (vacuumFlags x' = vacuumFlags x ∨ l = []) →
  next s' = next s → latest s ≤ latest s' → committed s' = committed s → history s s'.
Proof using.
  intros Hinv Hp Hx Hc Ht Hl Hf En Hlat Ecm. destruct (proc_of s Hinv p Hp) as (Hp0 & _).
  destruct (vacuum_changed s s' p x x' _ Hc Hx) as [Ev' Ev].
  apply history_intro; rewrite ?En, ?Ecm; [lia|done| |by left|done]. intros c Hlt.
  apply (running_set_tree s s' p l); [done|by rewrite (c_procs _ _ _ _ _ Hc)| |].
  - intros q Hq Hne. rewrite (c_procs _ _ _ _ _ Hc) in Hq. destruct (proc_of s Hinv q Hq) as (Hq0 & _).
    by eapply vacuum_other.
  - intros _ Hin. split; [exists p; auto|]. intros Hv. exists p. split; [done|]. split; [|auto].
    destruct Hf as [E| ->]; [congruence|by apply elem_of_nil in Hin].
Qed.

(** Removal of a process. *)
Lemma remove_history s s' p l :
  (∀ q, q ∈ procs (mem s') ↔ q ∈ procs (mem s) ∧ q ≠ p) → allProcs (mem s') = allProcs (mem s) →
  (∀ q, trees s' q = set_tree p l (trees s) q) →
  next s' = next s → latest s ≤ latest s' → committed s' = committed s → history s s'.
Proof using.
  intros Hps Ha Ht En Hlat Ecm. apply history_intro; rewrite ?En, ?Ecm; [lia|done| |by left|done].
  intros c Hlt. apply (running_set_tree s s' p l); [done|intros q Hq _; by apply Hps in Hq as [? _]| |].
  - intros q _ _. unfold is_vacuum. by rewrite Ha.
  - intros Hp. apply Hps in Hp as [_ ?]. done.
Qed.

Lemma step_history md s s' : step md s s' → sys_inv s → history s s'.
Proof using.
  intros Hst Hinv. destruct (latest_ok s Hinv) as [El Hwl]. destruct md; [by apply shared_history|].
  inversion Hst; subst; cbn in *.
  - destruct (proc_of s Hinv p) as (H0p & y & Hy & Hok & _); [done|].
    destruct (newest_ok s Hinv p) as (Hwt & _); [done..|].
    edestruct (end_spec (latest s) p y (mem s) Hwl El H0p Hy) as [Hc _]; [exact Hwt|done|].
    eapply exclusive_history; [done|done|done|exact Hc|done|by intros c Hin%elem_of_nil|by right|done|cbn; lia|done].
  - destruct (proc_of s Hinv p) as (H0p & y & Hy & Hok & _); [done|].
    assert (window base (newest (c :: gone))) as Hwn.
    { destruct (newest_spec c gone) as [Hin _]. destruct (tree_window s Hinv p (newest (c :: gone))) as [? _]; [done| |done].
      match goal with E : trees s p = _ |- _ => rewrite E end. right.
      apply elem_of_cons in Hin as [->|Hin]; [done|].
      match goal with F : Forall _ gone |- _ => rewrite Forall_forall in F; by apply F end. }
    edestruct (subabort_spec (latest s) p y (mem s) Hwl El H0p Hy) as (cc & Hc & _);
      [apply Hok|apply Hok|exact Hwn|done|].
    eapply exclusive_history; [done|done|done|exact Hc|done| |by left|done|cbn; lia|done].
    intros d Hd. match goal with E : trees s p = _ |- _ => rewrite E end.
    apply elem_of_cons in Hd as [->|[_ Hd]%list_elem_of_filter]; [left|by right].
  - destruct (proc_of s Hinv p) as (H0p & y & Hy & Hok & _); [done|].
    edestruct (vacuum_step_spec (latest s) p y (mem s) El H0p Hy) as [Hc _]; [done|].
    eapply (exclusive_history s _ p y _ _ []); [done|done|done|exact Hc| | |by right|done|cbn; lia|done].
    + intros q. cbn. by rewrite set_tree_same.
    + by intros c Hin%elem_of_nil.
  - edestruct (add_spec q (mem s)) as (E1 & _ & _ & _ & E5 & _); [done|].
    apply history_intro; cbn; [lia|lia| |by left|done]. intros c Hlt.
    apply (running_set_tree s _ q l); [done| | |]; cbn.
    + intros q' Hq' Hne. rewrite E1 in Hq'. set_solver.
    + intros q' _ _. unfold is_vacuum. cbn. by rewrite E5.
    + intros _ Hd. match goal with E : l = [] ∨ _ |- _ => destruct E as [->|(_ & p & Hp & Hvp & <-)] end;
        [by apply elem_of_nil in Hd|]. split; [by exists p|intros _; by exists p].
  - destruct (proc_of s Hinv p) as (H0p & y & Hy & Hok & _); [done|]. destruct (v_array _ Hinv) as [_ _ A3 _ _].
    edestruct (remove_spec p y (latest s) InvalidTransactionId (mem s)) as (_ & R2 & _ & _ & _ & R6 & _);
      try done; [by left|].
    eapply (remove_history s _ p []); [done|done| |done|cbn; lia|done]. intros q. cbn. by rewrite set_tree_same.
  - destruct (proc_of s Hinv q) as (H0p & y & Hy & Hok & _); [done|]. destruct (v_array _ Hinv) as [_ _ A3 _ _].
    destruct (newest_ok s Hinv q) as (Hwt & _); [done..|].
    edestruct (remove_spec q y (latest s) (uint32_of (newest (trees s q))) (mem s))
      as (_ & R2 & _ & _ & _ & R6 & _); try done; [right; by eexists|].
    eapply (remove_history s _ q []); [done|done|done|done|cbn; lia|done].
Qed.

(** Under the shared lock no id stops being served. *)
Lemma shared_serving s s' c : step Shared s s' → sys_inv s → serving s c → serving s' c.
Proof using.
  intros Hst Hinv (p & Hp & Hv & Hc). destruct (shared_shape s s' Hst Hinv) as (q & x & x' & l' & S).
  pose proof (sc_change _ _ _ _ _ _ S) as Hch. pose proof (sc_in _ _ _ _ _ _ S) as Hq.
  destruct (proc_of s Hinv q Hq) as (Hq0 & _), (proc_of s Hinv p Hp) as (Hp0 & _).
  destruct (vacuum_changed s s' q x x' _ Hch (sc_old _ _ _ _ _ _ S)) as [Ev' Ev].
  assert (∀ r, r ∈ procs (mem s) → r ≠ q → is_vacuum s r = false → c ∈ trees s r → serving s' c) as Hother.
  { intros r Hr Hne Hvr Hcr. exists r. rewrite (c_procs _ _ _ _ _ Hch). split; [done|].
    destruct (proc_of s Hinv r Hr) as (Hr0 & _).
    rewrite (vacuum_other s s' q x' _ r Hch Hq0 Hr0 Hne), (sc_trees _ _ _ _ _ _ S). unfold set_tree.
    by rewrite decide_False. }
  destruct (decide (p = q)) as [->|Hne]; [|by apply (Hother p)].
  assert (c ∈ l' → serving s' c) as Hmine.
  { intros Hin. exists q. rewrite (c_procs _ _ _ _ _ Hch). split; [done|].
    rewrite (sc_trees _ _ _ _ _ _ S). unfold set_tree. rewrite decide_True by done. split; [|done].
    destruct (sc_flag _ _ _ _ _ _ S) as [E|E]; [congruence|rewrite E in Hin; by apply elem_of_nil in Hin]. }
  destruct (sc_tree _ _ _ _ _ _ S) as [E|[[E _]|(E & Hpid & r & Hr & Hpr & Er)]].
  - apply Hmine. by rewrite E.
  - apply Hmine. rewrite E. set_solver.
  - destruct Hpr as (y & Hy & Hpy). apply (Hother r); [done| | |by rewrite Er].
    + intros ->. rewrite (sc_old _ _ _ _ _ _ S) in Hy. congruence.
    + unfold is_vacuum. rewrite Hy. by apply (v_flag _ Hinv r y).
Qed.

(** ** No step gets stuck *)

Section enabled.
Context (s : Sys) (Hinv : sys_inv s) (p : Z) (Hp : p ∈ procs (mem s)).

Lemma end_enabled : trees s p ≠ [] →
  ∃ m', ProcArrayEndTransaction p (uint32_of (newest (trees s p))) (mem s) = Ret (tt, m').
Proof using Hinv Hp.
  intros Hne. destruct (proc_of s Hinv p Hp) as (H0 & x & Hx & Hok & _).
  destruct (newest_ok s Hinv p Hp Hne) as (Hw & _). destruct (latest_ok s Hinv) as [El Hwl].
  unfold ProcArrayEndTransaction. rewrite (bind_Ret _ _ _ _ _ (get_proc_spec _ _ _ H0 Hx)).
  rewrite (window_valid base _ Hw).
  assert (TransactionIdIsValid (xid x) = true) as ->.
  { pose proof (po_top _ _ _ Hok) as Ht. pose proof (po_window _ _ _ Hok) as Hwt.
    destruct (trees s p) as [|t subs]; [done|]. destruct Ht as [-> _].
    apply (window_valid base). by inversion_clear Hwt. }
  rewrite (bind_Ret _ _ (mem s) tt (mem s)) by done.
  destruct (set_proc_changes (latest s) p x (mem s) El H0 Hx (clear_fields x InvalidTransactionId (empty_cache (subxids x))))
    as (m1 & Hs & Hc & _). rewrite (bind_Ret _ _ _ _ _ Hs).
  destruct (advance_latest_spec m1 (latest s) (newest (trees s p)) (c_latest _ _ _ _ _ Hc) Hwl Hw) as (m2 & Hr & _).
  by exists m2.
Qed.

Lemma subabort_enabled t subs c gone :
  trees s p = t :: subs → c ∈ subs → Forall (λ x, x ∈ subs) gone →
  ∃ m', XidCacheRemoveRunningXids p (uint32_of c) (Z.of_nat (length gone)) (uint32_of <$> gone)
      (uint32_of (newest (c :: gone))) (mem s) = Ret (tt, m').
Proof using Hinv Hp.
  intros Et Hc Hg. destruct (proc_of s Hinv p Hp) as (H0 & x & Hx & Hok & _).
  destruct (latest_ok s Hinv) as [El Hwl].
  assert (∀ y, y ∈ c :: gone → window base y) as Hw.
  { intros y Hy. rewrite Forall_forall in Hg. apply (tree_window s Hinv p y Hp). rewrite Et.
    apply elem_of_cons in Hy as [->|Hy]; right; [done|by apply Hg]. }
  unfold XidCacheRemoveRunningXids, Assert. rewrite (window_valid base) by (apply Hw; left).
  rewrite (bind_Ret _ _ (mem s) tt (mem s)) by done. rewrite (bind_Ret _ _ _ _ _ (get_proc_spec _ _ _ H0 Hx)).
  destruct (remove_each_spec (uint32_of <$> gone) (length gone) (subxids x)) as (c1 & Hr1 & Hw1 & Ho1 & Hn1 & Hi1);
    [by rewrite length_fmap|apply Hok|apply Hok|].
  rewrite Nat2Z.id. rewrite (bind_Ret _ _ (mem s) c1 (mem s)) by (unfold lift; by rewrite Hr1).
  destruct (remove_if_found_spec (uint32_of c) c1 Hw1 Hn1) as (c2 & Hr2 & _).
  rewrite (bind_Ret _ _ (mem s) c2 (mem s)) by (unfold lift; by rewrite Hr2).
  destruct (set_proc_changes (latest s) p x (mem s) El H0 Hx (with_xid x (xid x) c2)) as (m1 & Hs & Hch & _).
  rewrite (bind_Ret _ _ _ _ _ Hs).
  destruct (advance_latest_spec m1 (latest s) (newest (c :: gone)) (c_latest _ _ _ _ _ Hch) Hwl) as (m2 & Hr & _).
  { apply Hw, newest_spec. }
  by exists m2.
Qed.
End enabled.

(** C3: the invariant of the transaction system.  Whatever a backend does next (take an id,
    publish a horizon, commit, end, abort subtransactions, prepare, hand over, connect or
    exit), the shared memory still describes the running transactions: the process array
    lists exactly the running top-level ids and, unless a cache has overflowed, the running
    subtransactions; the next id is past every id in use; every assigned id past the
    latest completed one is running.  The past does not change: no counter goes back, an
    id that has ended never runs again, and only running transactions can commit. *)
Theorem system_invariant md s s' : sys_inv s → step md s s' → sys_inv s' ∧ history s s'.
Proof using. intros Hinv Hst. split; [by eapply step_inv|by eapply step_history]. Qed.


(** ** Executions *)

Record execution (σ : nat → Sys) : Prop := {
  ex_init : sys_inv (σ 0%nat);
  ex_step k : σ (S k) = σ k ∨ ∃ md, step md (σ k) (σ (S k))
}.

(** [ProcArrayLock] is held in shared mode from time [a] to time [b]. *)
Definition locked (σ : nat → Sys) (a b : nat) : Prop :=
  ∀ k, (a ≤ k < b)%nat → σ (S k) = σ k ∨ step Shared (σ k) (σ (S k)).
(** Process [p] does not hand its transaction over in that time. *)
Definition stable_on (σ : nat → Sys) (a b : nat) (p : Z) : Prop :=
  ∀ k, (a ≤ k < b)%nat → trees (σ k) p ≠ [] → trees (σ (S k)) p ≠ [].

Section executions.
Context (σ : nat → Sys) (Hex : execution σ).

Lemma exec_inv k : sys_inv (σ k).
Proof using Hex.
  induction k as [|k IH]; [apply Hex|].
  destruct (ex_step _ Hex k) as [->|[md Hst]]; [done|by eapply step_inv].
Qed.

Lemma history_refl s : history s s.
Proof using. clear. split; [lia|lia|done|done|by auto|done]. Qed.
Lemma history_trans s1 s2 s3 : history s1 s2 → history s2 s3 → history s1 s3.
Proof using.
  clear. intros [A1 A2 A3 A4 A5 A6] [B1 B2 B3 B4 B5 B6]. split; [lia|lia| | | |auto].
  - intros c Hr Hc. apply A3; [|done]. apply B3; [done|lia].
  - intros c Hr Hc. apply A4; [|done]. apply B4; [done|lia].
  - intros c Hcm Hc. destruct (B5 c Hcm ltac:(lia)); [by apply A5|right; by apply A3].
Qed.

Lemma exec_history i j : (i ≤ j)%nat → history (σ i) (σ j).
Proof using Hex.
  intros Hij. induction Hij as [|j Hij IH]; [apply history_refl|]. eapply history_trans; [exact IH|].
  destruct (ex_step _ Hex j) as [->|[md Hst]]; [apply history_refl|].
  eapply step_history; [done|apply exec_inv].
Qed.

Section locked.
Context (a b : nat) (Hlock : locked σ a b).

(** The process [p] between two times of the interval. *)
Lemma locked_proc i j p x :
  (a ≤ i ≤ j)%nat → (j ≤ b)%nat → p ∈ procs (mem (σ i)) → allProcs (mem (σ i)) !! Z.to_nat p = Some x →
  procs (mem (σ j)) = procs (mem (σ i)) ∧ maxProcs (mem (σ j)) = maxProcs (mem (σ i)) ∧
  latest (σ j) = latest (σ i) ∧
  ∃ x', allProcs (mem (σ j)) !! Z.to_nat p = Some x' ∧ pid x' = pid x ∧
    proc_rely base (latest (σ i)) x x' ∧ (stable_on σ a b p → proc_keeps x x').
Proof using Hex Hlock.
  intros [Hai Hij] Hjb Hp Hx. induction Hij as [|j Hij IH].
  - split; [done|]. split; [done|]. split; [done|]. exists x. split; [done|]. split; [done|].
    destruct (proc_of (σ i) (exec_inv i) p Hp) as (_ & y & Hy & Hok & Hxm). rewrite Hx in Hy. injection Hy as <-.
    split; [by eapply proc_rely_refl|intros _; apply proc_keeps_refl].
  - destruct IH as (E1 & E2 & E3 & x' & Hx' & Hpid & Hr & Hk); [lia|].
    destruct (Hlock j) as [->|Hst]; [lia|by eauto 10|].
    destruct (shared_shape _ _ Hst (exec_inv j)) as (q & y & y' & l' & S).
    pose proof (sc_change _ _ _ _ _ _ S) as [C1 C2 C3 C4 C5].
    split; [congruence|]. split; [congruence|]. split; [by rewrite (sc_latest _ _ _ _ _ _ S)|].
    pose proof (sc_old _ _ _ _ _ _ S) as Hy. destruct (proc_of (σ j) (exec_inv j) q (sc_in _ _ _ _ _ _ S)) as [Hq0 _].
    destruct (proc_of (σ i) (exec_inv i) p Hp) as [Hp0 _].
    rewrite C4. destruct (decide (p = q)) as [->|Hne].
    + rewrite Hx' in Hy. injection Hy as <-. exists y'. rewrite list_lookup_insert_eq by (by eapply lookup_lt_Some).
      split; [done|]. split; [by rewrite (sc_pid _ _ _ _ _ _ S)|]. split.
      * eapply proc_rely_trans; [done|]. rewrite <- E3. apply S.
      * intros Hs. eapply proc_keeps_trans; [by apply Hk|]. apply S. intros Hn.
        specialize (Hs j ltac:(lia) Hn). rewrite (sc_trees _ _ _ _ _ _ S) in Hs. unfold set_tree in Hs.
        by rewrite decide_True in Hs.
    + exists x'. rewrite list_lookup_insert_ne by lia. done.
Qed.

(** Trees only grow, unless they are handed over. *)
Lemma locked_trees j q :
  (a ≤ j < b)%nat → q ∈ procs (mem (σ j)) →
  (trees (σ j) q = trees (σ (S j)) q) ∨
  (backend (mem (σ j)) q ∧ trees (σ (S j)) q = trees (σ j) q ++ [next (σ j)]) ∨
  (backend (mem (σ j)) q ∧ trees (σ (S j)) q = [] ∧
   ∃ q', q' ∈ procs (mem (σ j)) ∧ prepared (mem (σ j)) q' ∧ trees (σ j) q' = trees (σ j) q).
Proof using Hex Hlock.
  intros Hj Hq. destruct (Hlock j Hj) as [->|Hst]; [by left|].
  destruct (shared_shape _ _ Hst (exec_inv j)) as (p & y & y' & l' & S).
  rewrite (sc_trees _ _ _ _ _ _ S q). unfold set_tree. destruct (decide (q = p)) as [->|Hne]; [|by left].
  pose proof (sc_old _ _ _ _ _ _ S) as Hy.
  destruct (sc_tree _ _ _ _ _ _ S) as [->|[[-> Hpid]|(-> & Hpid & Hq')]]; [by left|right; left|right; right].
  - split; [by exists y|done].
  - split; [by exists y|done].
Qed.

Lemma locked_procs i j : (a ≤ i ≤ j)%nat → (j ≤ b)%nat →
  procs (mem (σ j)) = procs (mem (σ i)) ∧ maxProcs (mem (σ j)) = maxProcs (mem (σ i)) ∧ latest (σ j) = latest (σ i).
Proof using Hex Hlock.
  intros [Hai Hij] Hjb. induction Hij as [|j Hij IH]; [done|].
  destruct IH as (E1 & E2 & E3); [lia|]. destruct (Hlock j) as [->|Hst]; [lia|done|].
  destruct (shared_shape _ _ Hst (exec_inv j)) as (q & y & y' & l' & S).
  pose proof (sc_change _ _ _ _ _ _ S) as [C1 C2 C3 C4 C5]. rewrite C1, C2, (sc_latest _ _ _ _ _ _ S). done.
Qed.

(** A prepared transaction neither takes ids nor is handed over. *)
Lemma prepared_const j q :
  (a ≤ j ≤ b)%nat → q ∈ procs (mem (σ a)) → prepared (mem (σ j)) q → trees (σ j) q = trees (σ a) q ∧
  ∀ k, (a ≤ k < j)%nat → trees (σ (S k)) q = trees (σ k) q.
Proof using Hex Hlock.
  intros [Haj Hjb] Hq (x & Hx & Hpid).
  destruct (proc_of (σ a) (exec_inv a) q Hq) as (_ & xa & Hxa & _).
  assert (∀ k, (a ≤ k ≤ j)%nat → trees (σ k) q = trees (σ a) q ∧
    ∀ i, (a ≤ i < k)%nat → trees (σ (S i)) q = trees (σ i) q) as H.
  { intros k [Hak Hkj]. induction Hak as [|k Hak IH]; [split; [done|lia]|].
    destruct IH as [IH1 IH2]; [lia|].
    destruct (locked_procs a k) as (Ep & _ & _); [lia|lia|].
    assert (trees (σ (S k)) q = trees (σ k) q) as E.
    { assert (¬ backend (mem (σ k)) q) as Hnb.
      { intros (y & Hy & Hne). destruct (locked_proc k j q y) as (_ & _ & _ & x' & Hx' & Hpx & _);
          [lia|lia|by rewrite Ep|done|]. congruence. }
      destruct (locked_trees k q) as [E|[[? _]|(? & _)]]; [lia|by rewrite Ep|done|done|done]. }
    split; [congruence|]. intros i Hi. destruct (decide (i = k)) as [->|]; [done|apply IH2; lia]. }
  by apply H.
Qed.

(** Every running id has a holder that keeps it while the lock is held. *)
Lemma stable_holder p c :
  (a ≤ b)%nat → p ∈ procs (mem (σ a)) → c ∈ trees (σ a) p →
  ∃ q, q ∈ procs (mem (σ a)) ∧ stable_on σ a b q ∧ c ∈ trees (σ a) q ∧ (q = p ∨ prepared (mem (σ a)) q).
Proof using Hex Hlock.
  intros Hab Hp Hc.
  assert (∀ j, (a ≤ j ≤ b)%nat → ∃ q, q ∈ procs (mem (σ a)) ∧ stable_on σ a j q ∧ c ∈ trees (σ a) q ∧
    c ∈ trees (σ j) q ∧ (q = p ∨ prepared (mem (σ a)) q)) as H.
  { intros j [Haj Hjb]. induction Haj as [|j Haj IH].
    { exists p. split; [done|]. split; [intros k Hk; lia|]. auto. }
    destruct IH as (q & Hq & Hst & Hca & Hcj & Hor); [lia|].
    destruct (locked_procs a j) as (Ep & _ & _); [lia|lia|].
    assert (∀ q', stable_on σ a j q' → trees (σ j) q' ≠ [] → trees (σ (S j)) q' ≠ [] → stable_on σ a (S j) q') as Hext.
    { intros q' Hs H1 H2 k Hk. destruct (decide (k = j)) as [->|]; [done|]. apply Hs. lia. }
    assert (trees (σ j) q ≠ []) as Hne by (intros E; rewrite E in Hcj; by apply elem_of_nil in Hcj).
    destruct (locked_trees j q) as [E|[[_ E]|(_ & E & q' & Hq' & Hpr & Eq')]]; [lia|by rewrite Ep| | |].
    - exists q. split; [done|]. rewrite <- E. split; [|done]. apply Hext; [done|done|by rewrite <- E].
    - exists q. split; [done|]. rewrite E. split; [|split; [done|]; split; [set_solver|done]].
      apply Hext; [done|done|]. rewrite E. by destruct (trees (σ j) q).
    - rewrite Ep in Hq'. destruct (prepared_const j q') as [Ea Ek]; [lia|done|done|].
      assert (q' ≠ q) as Hqq.
      { intros ->. destruct (locked_trees j q) as [E1|[[(y & Hy & Hpid) _]|((y & Hy & Hpid) & _)]];
          [lia|by rewrite Ep| | |]; [by rewrite <- E1 in E|..]; destruct Hpr as (z & Hz & Hpz); congruence. }
      assert (trees (σ (S j)) q' = trees (σ j) q') as E'.
      { destruct (locked_trees j q') as [E1|[[(y & Hy & Hpid) _]|((y & Hy & Hpid) & _)]];
          [lia|by rewrite Ep|done|..]; destruct Hpr as (z & Hz & Hpz); congruence. }
      exists q'. split; [done|]. split; [|split; [by rewrite <- Ea, Eq'|]; split; [by rewrite E', Eq'|]].
      + intros k Hk Hn. destruct (decide (k = j)) as [->|]; [by rewrite E'|]. by rewrite Ek by lia.
      + right. destruct (proc_of (σ a) (exec_inv a) q' Hq') as (_ & xa & Hxa & _).
        destruct (locked_proc a j q' xa) as (_ & _ & _ & x' & Hx' & Hpx & _); [lia|lia|done|done|].
        destruct Hpr as (z & Hz & Hpz). exists xa. split; [done|]. congruence. }
  destruct (H b) as (q & Hq & Hst & Hca & _ & Hor); [lia|]. by exists q.
Qed.

(** A reader that makes its fetches [k0], [k0 + 1], ... in this interval. *)
Lemma locked_reading k0 (τ : nat → nat) :
  τ k0 = a → (∀ k, (k0 ≤ k)%nat → (τ k ≤ τ (S k) ≤ b)%nat) →
  reading base (latest (σ a)) (λ k, mem (σ (τ k))) k0 (stable_on σ a b) (trees (σ a)).
Proof using Hex Hlock.
  intros E0 Hτ. assert (∀ k, (k0 ≤ k)%nat → (a ≤ τ k)%nat) as Ha.
  { intros k Hk. induction Hk as [|k Hk IH]; [lia|]. specialize (Hτ k Hk). lia. }
  split; [rewrite E0; apply (v_array _ (exec_inv a))|]. intros k Hk. specialize (Ha k Hk) as Hak. specialize (Hτ k Hk).
  destruct (locked_procs (τ k) (τ (S k))) as (E1 & E2 & E3); [lia|lia|].
  destruct (locked_procs a (τ k)) as (_ & _ & E4); [lia|lia|].
  split; try done.
  - by rewrite !(v_recovery _ (exec_inv _)).
  - destruct (latest_ok _ (exec_inv (τ k))) as [-> _], (latest_ok _ (exec_inv (τ (S k)))) as [-> _]. by rewrite E3.
  - intros p x Hp Hx. destruct (locked_proc (τ k) (τ (S k)) p x) as (_ & _ & _ & x' & Hx' & _ & Hr & Hke); [lia|lia|done|done|].
    exists x'. rewrite <- E4. done.
Qed.

(** *** Snapshots *)

Section snapshot.
Context (k0 : nat) (τ : nat → nat) (E0 : τ k0 = a).
Context (Hτ : ∀ k, (k0 ≤ k)%nat → (τ k ≤ τ (S k) ≤ b)%nat) (Hab : (a ≤ b)%nat).
Context (me : Z) (Hme : backend (mem (σ a)) me).

Lemma vacuum_start p : in_vacuum (λ k, mem (σ (τ k))) k0 p = is_vacuum (σ a) p.
Proof using E0. unfold in_vacuum, is_vacuum. by rewrite E0. Qed.

(** [e] knows the top-level transaction of every running transaction. *)
Definition knows_top (e : XactEnv) (c : Z) : Prop :=
  ∀ p t subs, p ∈ procs (mem (σ a)) → trees (σ a) p = t :: subs → c ∈ t :: subs →
    env_Topmost e (uint32_of c) = uint32_of t.

(** [c] runs in another backend that is not a lazy vacuum, or is prepared. *)
Definition active_elsewhere (c : Z) : Prop :=
  ∃ p, p ∈ procs (mem (σ a)) ∧ p ≠ me ∧ is_vacuum (σ a) p = false ∧ c ∈ trees (σ a) p.

Lemma active_runs c :
  active_elsewhere c → ∃ q t subs, q ∈ procs (mem (σ a)) ∧ q ≠ me ∧ c ∈ t :: subs ∧ stable_on σ a b q ∧
    is_vacuum (σ a) q = false ∧ trees (σ a) q = t :: subs.
Proof using Hex Hlock Hab Hme.
  intros (p & Hp & Hne & Hv & Hc). destruct (stable_holder p c Hab Hp Hc) as (q & Hq & Hst & Hcq & Hor).
  destruct (trees (σ a) q) as [|t subs] eqn:Et; [by apply elem_of_nil in Hcq|].
  exists q, t, subs. split; [done|]. destruct Hor as [->|(x & Hx & Hpid)]; [done|].
  split; [|split; [done|]; split; [done|]; split; [|done]].
  - intros ->. destruct Hme as (y & Hy & Hn). congruence.
  - unfold is_vacuum. rewrite Hx. by apply (v_flag _ (exec_inv a) q x).
Qed.

Lemma system_snapshot PMAX defer cid r :
  clk r = k0 → maxProcs (mem (σ a)) ≤ PMAX →
  ∃ sn r' m, GetSnapshotData (λ k, mem (σ (τ k))) me PMAX defer cid r = Ret (sn, r') ∧ snapshot_wf sn ∧
    snap_curcid sn = cid ∧ RecentXmin r' = uint32_of m ∧ snap_xmin sn = uint32_of m ∧ window base m ∧
    my_xmin r' = (if negb (TransactionIdIsValid (my_xmin r)) then uint32_of m else my_xmin r) ∧
    (m = next_counter (latest (σ a)) ∨
     ∃ p subs, p ∈ procs (mem (σ a)) ∧ is_vacuum (σ a) p = false ∧ trees (σ a) p = m :: subs) ∧
    (∀ e c, window base c → knows_top e c → next (σ a) ≤ c ∨ active_elsewhere c →
       in_snapshot e sn (uint32_of c) = true) ∧
    (∀ e c t, window base c → c < next (σ a) → ¬ running (σ a) c →
       env_Topmost e (uint32_of c) = uint32_of t → window base t → t ≤ c → ¬ active_elsewhere t →
       in_snapshot e sn (uint32_of c) = false).
Proof using Hex Hlock E0 Hτ Hab Hme.
  intros Hk HP. pose proof (locked_reading k0 τ E0 Hτ) as HV. pose proof (exec_inv a) as Hinv.
  destruct (GetSnapshotData_spec base (latest (σ a)) _ k0 _ _ HV me PMAX defer cid r Hk)
    as (sn & k' & m & g & Hrun & _ & Hsn & Hcid & _); [cbv beta; by rewrite E0, (v_recovery _ Hinv)|cbv beta; by rewrite E0|].
  exists sn. eexists _, m. split; [exact Hrun|].
  destruct (snapshot_lists base (latest (σ a)) _ k0 _ _ me m sn Hsn) as (_ & _ & Hwf).
  destruct (sk_xmin _ _ _ _ _ _ _ _ _ Hsn) as (Hwm & _ & Exm).
  split; [done|]. split; [done|]. split; [done|]. split; [done|]. split; [done|]. split; [done|]. split; [|split].
  - destruct (sk_exact _ _ _ _ _ _ _ _ _ Hsn) as [E|(p & subs & Hp & Hrest)]; [by left|right].
    exists p, subs. cbv beta in Hp; rewrite E0 in Hp. by rewrite <- vacuum_start.
  - intros e c Hwc Htop [Hc|Hact].
    + eapply (snapshot_future base); [done|done|done|]. pose proof (v_order _ Hinv). lia.
    + destruct (active_runs c Hact) as (q & t & subs & Hq & Hne & Hc & Hst & Hv & Et).
      eapply (snapshot_running base); [done|done|cbv beta; by rewrite E0|done|split; [done|]; by rewrite vacuum_start|done|].
      intros _. by eapply Htop.
  - intros e c t Hwc Hlt Hnr Etop Hwt Htc Hnt.
    assert (c ≤ latest (σ a)) as Hcl.
    { destruct (Z_le_gt_dec c (latest (σ a))) as [|Hgt]; [done|]. destruct Hnr.
      destruct (v_running _ Hinv c (proj1 Hwc) ltac:(lia)) as (p & Hp & Hin). by exists p. }
    eapply (snapshot_finished base) with (t := t); [done|done|done|done| |].
    + intros p Hp _ _ Hin. apply Hnr. cbv beta in Hp; rewrite E0 in Hp. by exists p.
    + intros _. split; [done|]. split; [done|]. split; [lia|]. intros p Hp Hne Hv Hin.
      apply Hnt. cbv beta in Hp; rewrite E0 in Hp. rewrite vacuum_start in Hv. by exists p.
Qed.
End snapshot.
End locked.

(** *** The horizon of vacuum *)

(** [GetOldestXmin(true, ignoreVacuum)], with its fetches under the lock from [S (clk r)] on. *)
Lemma system_horizon a b (τ : nat → nat) defer mydb ignoreVacuum r :
  locked σ a b → (a ≤ b)%nat → τ (S (clk r)) = a →
  (∀ k, (S (clk r) ≤ k)%nat → (τ k ≤ τ (S k) ≤ b)%nat) → 0 ≤ defer < 2 ^ 31 →
  ∃ g h r', GetOldestXmin (λ k, mem (σ (τ k))) defer mydb true ignoreVacuum r = Ret (uint32_of h, r') ∧
    full_xid h ∧ g - defer ≤ h ≤ g ∧ window base g ∧ g ≤ next_counter (latest (σ a)) ∧
    (∀ p t subs, p ∈ procs (mem (σ a)) → is_vacuum (σ a) p = false → trees (σ a) p = t :: subs → g ≤ t) ∧
    (∀ p v, p ∈ procs (mem (σ a)) → is_vacuum (σ a) p = false → window base v →
       (∀ j x, (a ≤ j ≤ b)%nat → allProcs (mem (σ j)) !! Z.to_nat p = Some x → xmin x = uint32_of v) → g ≤ v).
Proof using Hex.
  intros Hlock Hab E0 Hτ Hd. pose proof (locked_reading a b Hlock _ τ E0 Hτ) as HV.
  assert (∀ p, in_vacuum (λ k, mem (σ (τ k))) (S (clk r)) p = is_vacuum (σ a) p) as Hvs.
  { intros p. unfold in_vacuum, is_vacuum. by rewrite E0. }
  destruct (GetOldestXmin_spec base (latest (σ a)) _ _ _ _ HV defer mydb true ignoreVacuum r)
    as (g & h & k' & Hrun & _ & Hh & Hgh & Hwg & Hgx & Hg); [done|done|by rewrite (v_recovery _ (exec_inv _))|done|].
  cbv beta in Hg. rewrite E0 in Hg. exists g, h. eexists. split; [exact Hrun|].
  split; [done|]. split; [done|]. split; [done|]. split; [done|].
  assert (∀ p, is_vacuum (σ a) p = false →
    considered (λ k, mem (σ (τ k))) (S (clk r)) mydb true ignoreVacuum p) as Hcon.
  { intros p Hp. split; [by rewrite Hvs|by left]. }
  split.
  - intros p t subs Hp Hv Et.
    destruct (stable_holder a b Hlock p t Hab Hp) as (q & Hq & Hst & Ht & Hor); [rewrite Et; left|].
    destruct (trees (σ a) q) as [|t' subs'] eqn:Etq; [by apply elem_of_nil in Ht|].
    assert (is_vacuum (σ a) q = false) as Hvq.
    { destruct Hor as [->|(x & Hx & Hpid)]; [done|]. unfold is_vacuum. rewrite Hx.
      by apply (v_flag _ (exec_inv a) q x). }
    destruct (Hg q Hq (Hcon q Hvq)) as [H1 _]. specialize (H1 Hst t' subs' Etq).
    destruct (proc_of (σ a) (exec_inv a) q Hq) as (_ & x & _ & Hok & _). pose proof (po_top _ _ _ Hok) as Hpt.
    rewrite Etq in Hpt. destruct Hpt as [_ Hlt]. rewrite Forall_forall in Hlt.
    apply elem_of_cons in Ht as [->|Ht]; [done|]. specialize (Hlt t Ht). lia.
  - intros p v Hp Hv Hwv Hpub. destruct (Hg p Hp (Hcon p Hv)) as [_ H2]. apply H2. split; [done|].
    intros k x Hk Hx. apply (Hpub (τ k)); [|done]. split.
    + assert (∀ k, (S (clk r) ≤ k)%nat → (a ≤ τ k)%nat) as Ha; [|by apply Ha].
      intros k'' Hk''. induction Hk'' as [|k'' Hk'' IH]; [lia|]. specialize (Hτ k'' Hk''). lia.
    + destruct k as [|k]; [lia|]. destruct (decide (k = clk r)) as [->|]; [lia|]. apply (Hτ k). lia.
Qed.

(** The snapshots of a backend that is not older than the horizon: it starts to take one
    at or after the time of the horizon, or while the horizon is being computed. *)
Lemma horizon_before_snapshot a a' g m :
  ((a ≤ a')%nat ∨ (a' ≤ a)%nat ∧ locked σ a' a) →
  g ≤ next_counter (latest (σ a)) →
  (∀ p t subs, p ∈ procs (mem (σ a)) → is_vacuum (σ a) p = false → trees (σ a) p = t :: subs → g ≤ t) →
  (m = next_counter (latest (σ a')) ∨
     ∃ p subs, p ∈ procs (mem (σ a')) ∧ is_vacuum (σ a') p = false ∧ trees (σ a') p = m :: subs) →
  g ≤ m.
Proof using Hex.
  intros Ha Hgx Hg Hm. destruct (latest_ok _ (exec_inv a)) as [_ Hwl].
  assert (∀ c, full_xid c → latest (σ a) < c → g ≤ c) as Hyoung.
  { intros c Hf Hlt. destruct (next_counter_spec (latest (σ a)) (proj1 Hwl)) as (_ & _ & _ & Hmin).
    specialize (Hmin c Hf Hlt). lia. }
  assert (latest (σ a) ≤ latest (σ a')) as Hle.
  { destruct Ha as [Ha|[Ha Hl]]; [by apply exec_history|].
    destruct (locked_procs a' a Hl a' a) as (_ & _ & ->); [lia|lia|done]. }
  destruct Hm as [->|(p & subs & Hp & Hv & Et)].
  { destruct (latest_ok _ (exec_inv a')) as [_ Hwl'].
    destruct (next_counter_spec (latest (σ a')) (proj1 Hwl')) as (_ & Hf & Hb & _). apply Hyoung; [done|lia]. }
  assert (window base m) as Hwm.
  { apply (tree_window _ (exec_inv a') p m Hp). rewrite Et. left. }
  destruct (Z_lt_le_dec (latest (σ a)) m) as [L|L]; [by apply Hyoung; [apply Hwm|]|].
  assert (serving (σ a') m) as Hs by (exists p; rewrite Et; split; [done|]; split; [done|left]).
  assert (serving (σ a) m) as (q & Hq & Hvq & Hmq).
  { destruct Ha as [Ha|[Ha Hl]].
    - apply (hi_serving _ _ (exec_history a a' Ha) m Hs). pose proof (v_order _ (exec_inv a)). lia.
    - assert (∀ k, (a' ≤ k ≤ a)%nat → serving (σ k) m) as H; [|apply H; lia].
      intros k [Hk1 Hk2]. induction Hk1 as [|k Hk1 IH]; [done|].
      destruct (Hl k) as [->|Hst]; [lia|apply IH; lia|]. eapply shared_serving; [done|apply exec_inv|apply IH; lia]. }
  destruct (trees (σ a) q) as [|t subs'] eqn:Etq; [by apply elem_of_nil in Hmq|].
  specialize (Hg q t subs' Hq Hvq Etq).
  destruct (proc_of (σ a) (exec_inv a) q Hq) as (_ & x & _ & Hok & _). pose proof (po_top _ _ _ Hok) as Hpt.
  rewrite Etq in Hpt. destruct Hpt as [_ Hlt]. rewrite Forall_forall in Hlt.
  apply elem_of_cons in Hmq as [->|Hmq]; [done|]. specialize (Hlt m Hmq). lia.
Qed.
End executions.
End system.

(** ** A small system

    Three backends; the second runs transaction 105, commits it at time 1 and ends it at
    time 2.  Transactions 103 and 104 have committed before. *)
Definition busy_proc (pid x : Z) : PGPROC :=
  mkProc 0 x 0 pid 1 false 0 false (mkXidCache false 0 (replicate 64 0)).
Definition sample_mem : Shmem := sample_shmem 106 104 [idle_proc 7; busy_proc 8 105; idle_proc 9].
Definition sample_tree (q : Z) : list Z := if decide (q = 1) then [105] else [].
Definition sample_sys : Sys := mkSys sample_mem 106 104 sample_tree [103; 104].
Definition sample_committed : Sys := mkSys sample_mem 106 104 sample_tree [105; 103; 104].
Definition sample_ended_mem : Shmem :=
  match ProcArrayEndTransaction 1 105 sample_mem with Ret (_, m) => m | _ => sample_mem end.
Definition sample_ended : Sys := mkSys sample_ended_mem 106 105 (set_tree 1 [] sample_tree) [105; 103; 104].
Definition sample_run (k : nat) : Sys :=
  match k with O => sample_sys | 1%nat => sample_committed | _ => sample_ended end.

Lemma sample_window c : 100 ≤ c < 200 → window 100 c.
Proof.
  intros H. split; [|lia]. unfold full_xid, TransactionIdIsNormal, FirstNormalTransactionId.
  rewrite wrap_u_small by (unfold is_uint; lia). lia.
Qed.

Lemma idle_ok pid : proc_ok 100 (idle_proc pid) [].
Proof.
  split.
  - done.
  - constructor.
  - done.
  - intros x Hx. by apply elem_of_nil in Hx.
  - constructor.
  - intros _ c Hc. by apply elem_of_nil in Hc.
Qed.
Lemma busy_ok pid c : 100 ≤ c < 200 → proc_ok 100 (busy_proc pid c) [c].
Proof.
  intros H. split.
  - done.
  - constructor; [by apply sample_window|constructor].
  - cbn. split; [|constructor]. by rewrite wrap_u_small by (unfold is_uint; lia).
  - intros x Hx. by apply elem_of_nil in Hx.
  - constructor.
  - intros _ d Hd. by apply elem_of_nil in Hd.
Qed.

Lemma sample_inv : sys_inv 100 sample_sys.
Proof.
  assert (∀ p, p ∈ procs sample_mem → p = 0 ∨ p = 1 ∨ p = 2) as Hp.
  { intros p Hp. change (procs sample_mem) with [0; 1; 2] in Hp. set_solver. }
  split; [split| | | | | | | |].
  - done.
  - split; apply sample_window; vm_compute; split; congruence.
  - change (procs (mem sample_sys)) with [0; 1; 2]. repeat constructor; set_solver.
  - vm_compute. congruence.
  - intros p [->|[->| ->]]%Hp; (split; [lia|]).
    + exists (idle_proc 7). split; [done|]. split; [apply idle_ok|by left].
    + exists (busy_proc 8 105). split; [done|]. split; [apply busy_ok; lia|by left].
    + exists (idle_proc 9). split; [done|]. split; [apply idle_ok|by left].
  - by apply sample_window.
  - done.
  - done.
  - done.
  - intros p c _. cbn. unfold sample_tree. destruct (decide (p = 1)); [|by intros ?%elem_of_nil].
    intros ->%list_elem_of_singleton. lia.
  - cbn. intros c _ Hc. exists 1. split; [right; left|].
    assert (c = 105) as -> by lia. apply list_elem_of_singleton. done.
  - cbn. intros c Hc. assert (c = 103 ∨ c = 104) as Hc' by set_solver. split; [apply sample_window|]; lia.
  - intros p x [->|[->| ->]]%Hp; intros [= <-] E; discriminate E.
Qed.

Lemma sample_execution : execution 8192 100 sample_run.
Proof.
  split; [apply sample_inv|]. intros [|[|k]]; [right; exists Shared|right; exists Exclusive|by left].
  - apply (st_commit 8192 100 sample_sys 1). right; left.
  - apply (st_end 8192 100 sample_committed 1 sample_ended_mem).
    + right; left.
    + done.
    + vm_compute. reflexivity.
Qed.

(** ** Witnesses *)

Lemma system_invariant_witness : sys_inv 100 sample_committed.
Proof.
  apply (system_invariant 8192 100 Shared sample_sys sample_committed); [apply sample_inv|].
  apply (st_commit 8192 100 sample_sys 1). right; left.
Defined.

