(* ===== verification/Isolation.v ===== *)
(** * Snapshot isolation of the running system

    The executions of [System] implement the interface [XactHistory] that the visibility
    routines of [Tqual] are proved against; the snapshots that [GetSnapshotData] takes in
    them cover the running transactions, and the horizons of [GetOldestXmin] are not newer
    than any of them. *)

From S2P Require Import Prelude Xid Clog KnownXids VarSup Htup Tqual ProcArray System.

(** ** The transactions that a state of the system describes *)

(** What the visibility routines ask of modules other than the process array, the
    transaction counters and the commit log. *)
Record Private := mkPrivate {
  pv_lsn : TransactionId → XLogRecPtr;
  pv_flush : nat → XLogRecPtr → bool;
  pv_multi : nat → Z → bool;
  pv_top : TransactionId → TransactionId;
  pv_cid : CommandId;
  pv_combo : ComboState
}.

Definition runs_id (s : Sys) (x : TransactionId) : bool :=
  existsb (λ p, bool_decide (x ∈ uint32_of <$> trees s p)) (procs (mem s)).
Definition committed_id (s : Sys) (x : TransactionId) : bool :=
  (x =? BootstrapTransactionId) || (x =? FrozenTransactionId) ||
  bool_decide (x ∈ uint32_of <$> committed s).

Definition env_of (pv : Private) (me : Z) (t : nat) (s : Sys) : XactEnv :=
  mkEnv (λ x, bool_decide (x ∈ uint32_of <$> trees s me)) (runs_id s) (committed_id s)
    (pv_multi pv t) (pv_lsn pv) (pv_flush pv t) (pv_top pv) (pv_cid pv) (pv_combo pv).

Section isolation.
Context (BLCKSZ base : Z).

(** The counter of a 32-bit id that is not older than [base]. *)
Definition counter_of (x : TransactionId) : Z := base + uint32_of (x - base).
Definition started_at (s : Sys) (x : TransactionId) : bool :=
  negb (TransactionIdIsNormal x) || (counter_of x <? next s).

Lemma counter_window c : window base c → counter_of (uint32_of c) = c.
Proof.
  intros [_ Hc]. unfold counter_of, wrap_u in *. rewrite Zminus_mod_idemp_l, Z.mod_small; lia.
Qed.

Lemma window_counter x : is_uint 32 x → uint32_of (counter_of x) = x.
Proof.
  unfold counter_of, wrap_u, is_uint. intros Hx. rewrite Zplus_mod_idemp_r.
  replace (base + (x - base)) with x by lia. apply Z.mod_small. lia.
Qed.

Lemma id_in (l : list Z) c :
  Forall (window base) l → window base c → uint32_of c ∈ uint32_of <$> l ↔ c ∈ l.
Proof.
  intros Hl Hc. rewrite list_elem_of_fmap. split; [|by exists c].
  intros (d & E & Hd). rewrite Forall_forall in Hl. specialize (Hl d Hd).
  by rewrite (uint32_full_eq c d (window_near base c d Hc Hl) E).
Qed.

(** An id of a list of counters is a normal 32-bit id, and determines its counter. *)
Definition names (x : TransactionId) : Prop := is_uint 32 x ∧ TransactionIdIsNormal x = true.

Lemma id_of_window (l : list Z) x :
  Forall (window base) l → x ∈ uint32_of <$> l → names x ∧ counter_of x ∈ l.
Proof.
  intros Hl (c & -> & Hc)%list_elem_of_fmap. rewrite Forall_forall in Hl. specialize (Hl c Hc) as Hw.
  rewrite counter_window by done. split; [|done]. split; [|apply Hw]. by apply wrap_u_bound.
Qed.
Lemma id_of_counter (l : list Z) x : is_uint 32 x → counter_of x ∈ l → x ∈ uint32_of <$> l.
Proof. intros Hx Hc. apply list_elem_of_fmap. exists (counter_of x). by rewrite window_counter. Qed.

Section state.
Context (s : Sys) (Hinv : sys_inv base s).

Lemma trees_window p : p ∈ procs (mem s) → Forall (window base) (trees s p).
Proof using Hinv. intros Hp. apply Forall_forall. intros c Hc. by apply (tree_window _ _ Hinv p c). Qed.
Lemma committed_window : Forall (window base) (committed s).
Proof using Hinv. apply Forall_forall. intros c Hc. by apply (v_committed _ _ Hinv). Qed.

Lemma runs_id_true x : runs_id s x = true → names x ∧ running s (counter_of x).
Proof using Hinv.
  unfold runs_id. rewrite existsb_exists. intros (p & Hp & E%bool_decide_eq_true).
  apply list_elem_of_In in Hp. destruct (id_of_window _ x (trees_window p Hp) E) as [Hn Hc].
  split; [done|]. by exists p.
Qed.
Lemma runs_id_running x : is_uint 32 x → running s (counter_of x) → runs_id s x = true.
Proof using.
  intros Hx (p & Hp & Hc). unfold runs_id. rewrite existsb_exists. exists p.
  split; [by apply list_elem_of_In|]. by apply bool_decide_eq_true, id_of_counter.
Qed.

Lemma committed_id_spec x :
  committed_id s x = true ↔ x = BootstrapTransactionId ∨ x = FrozenTransactionId ∨
    names x ∧ counter_of x ∈ committed s.
Proof using Hinv.
  unfold committed_id. rewrite !orb_true_iff, !Z.eqb_eq, bool_decide_eq_true. split.
  - intros [[?|?]|H]; [by left|by right; left|right; right]. by apply id_of_window, H; apply committed_window.
  - intros [?|[?|[[Hx _] H]]]; [by left; left|by left; right|right]. by apply id_of_counter.
Qed.

(** An id that has not been assigned neither runs nor has committed. *)
Lemma unassigned x : started_at s x = false → runs_id s x = false ∧ committed_id s x = false.
Proof using Hinv.
  unfold started_at. rewrite orb_false_iff, negb_false_iff, Z.ltb_ge. intros [Hn Hc].
  split; apply not_true_iff_false.
  - intros (_ & p & Hp & Hin)%runs_id_true. destruct (tree_window _ _ Hinv p _ Hp Hin). lia.
  - intros [->|[->|[_ Hin]]]%committed_id_spec; [done|done|]. destruct (v_committed _ _ Hinv _ Hin). lia.
Qed.
End state.

(** The end of a transaction is final. *)
Lemma ended s s' x :
  sys_inv base s → sys_inv base s' → history s s' → started_at s x = true → runs_id s x = false →
  runs_id s' x = false ∧ committed_id s' x = committed_id s x.
Proof.
  intros Hi Hi' Hh Hs Hr.
  assert (names x → counter_of x < next s ∧ ¬ running s (counter_of x)) as Hn.
  { intros [Hx Hn]. unfold started_at in Hs. rewrite Hn in Hs. cbn in Hs. split; [lia|].
    intros H. by rewrite (runs_id_running s x Hx H) in Hr. }
  split.
  - apply not_true_iff_false. intros [Hx H]%(runs_id_true s' Hi'). destruct (Hn Hx) as [Hlt Hnr].
    apply Hnr. by apply (hi_running _ _ Hh).
  - apply eq_true_iff_eq. rewrite (committed_id_spec s' Hi'), (committed_id_spec s Hi).
    split; (intros [?|[?|[Hx H]]]; [by left|by right; left|right; right; split; [done|]]).
    + destruct (Hn Hx) as [Hlt Hnr]. by destruct (hi_committed _ _ Hh _ H Hlt).
    + by apply (hi_mono _ _ Hh).
Qed.

(** ** A backend in an execution *)

(** The backend [me] looks at the system at the times [ρ 0 ≤ ρ 1 ≤ ...], while it neither
    starts nor ends a transaction of its own, and multixacts only end. *)
Section observer.
Context (σ : nat → Sys) (Hex : execution BLCKSZ base σ) (ρ : nat → nat) (me : Z) (pv : Private).

Record observes : Prop := {
  ob_mono k : (ρ k ≤ ρ (S k))%nat;
  ob_me k : me ∈ procs (mem (σ (ρ k)));
  ob_tree k : trees (σ (ρ k)) me = trees (σ (ρ 0%nat)) me;
  ob_multi t t' m : (t ≤ t')%nat → pv_multi pv t m = false → pv_multi pv t' m = false
}.
Context (Hob : observes).

Definition world (t : nat) : XactEnv := env_of pv me t (σ (ρ t)).

Lemma observes_mono t t' : (t ≤ t')%nat → (ρ t ≤ ρ t')%nat.
Proof using Hob.
  intros H. induction H as [|t' H IH]; [done|]. pose proof (ob_mono Hob t'). lia.
Qed.

Lemma observes_history t t' : (t ≤ t')%nat → history (σ (ρ t)) (σ (ρ t')).
Proof using Hex Hob. intros H. by apply (exec_history BLCKSZ base), observes_mono. Qed.

#[local] Instance world_history : XactHistory world.
Proof using Hex Hob.
  refine {| started t x := started_at (σ (ρ t)) x |}.
  - intros t x. cbn. by rewrite (ob_tree Hob).
  - done.
  - done.
  - done.
  - intros t x. cbn. rewrite bool_decide_eq_true. intros H. unfold runs_id. apply existsb_exists.
    exists me. split; [apply list_elem_of_In, (ob_me Hob)|by apply bool_decide_eq_true].
  - intros t t' x Ht. unfold started_at. rewrite !orb_true_iff, !Z.ltb_lt. intros [?|?]; [by left|right].
    pose proof (hi_next _ _ (observes_history t t' Ht)). lia.
  - intros t x H. by apply unassigned, H; eapply exec_inv.
  - intros t t' x Ht Hs Hr. cbn in *. apply (ended (σ (ρ t))); try done.
    1,2: by eapply exec_inv. by apply observes_history.
  - intros t t' m Ht. cbn. by apply (ob_multi Hob).
Defined.

(** *** Its snapshots *)

(** What is assumed of a transaction id of a tuple, at the time of a snapshot: it is
    permanent, or in the window of the counters; it does not belong to a lazy vacuum (which
    writes no tuples); and [pg_subtrans] knows its top-level transaction, while it runs and
    after it has committed. *)
Record traceable (s : Sys) (x : TransactionId) : Prop := {
  tr_id : 0 ≤ x < FirstNormalTransactionId ∨ names x ∧ window base (counter_of x);
  tr_vacuum p : p ∈ procs (mem s) → counter_of x ∈ trees s p → is_vacuum s p = false;
  tr_running p t subs : p ∈ procs (mem s) → trees s p = t :: subs → counter_of x ∈ t :: subs →
    pv_top pv x = uint32_of t;
  tr_committed : counter_of x ∈ committed s → ¬ running s (counter_of x) →
    ∃ t, pv_top pv x = uint32_of t ∧ window base t ∧ t ≤ counter_of x ∧ ¬ running s t
}.

Section snapshot.
Context (a b k0 t0 : nat) (τ : nat → nat) (Hlock : locked BLCKSZ base σ a b) (E0 : τ k0 = a) (Et0 : ρ t0 = a).
Context (Hτ : ∀ k, (k0 ≤ k)%nat → (τ k ≤ τ (S k) ≤ b)%nat) (Hab : (a ≤ b)%nat).
Context (Hme : backend (mem (σ a)) me).

(** The snapshot separates what had committed from what had not. *)
Record separates (sn : SnapshotData) : Prop := {
  se_wf : snapshot_wf sn;
  se_covers x : traceable (σ a) x → env_IsCurrent (world t0) x = false →
    started_at (σ a) x = false ∨ env_IsInProgress (world t0) x = true → in_snapshot (world t0) sn x = true;
  se_committed x : traceable (σ a) x → xid_state (world t0) x = Committed → in_snapshot (world t0) sn x = false
}.

Lemma snapshot_separates PMAX defer cid r :
  clk r = k0 → maxProcs (mem (σ a)) ≤ PMAX →
  ∃ sn r', GetSnapshotData (λ k, mem (σ (τ k))) me PMAX defer cid r = Ret (sn, r') ∧
    snap_curcid sn = cid ∧ separates sn.
Proof using Hex Hlock E0 Et0 Hτ Hab Hme.
  clear Hob. intros Hk HP. pose proof (exec_inv _ _ _ Hex a) as Hinv.
  destruct (system_snapshot BLCKSZ base σ Hex a b Hlock k0 τ E0 Hτ Hab me Hme PMAX defer cid r Hk HP)
    as (sn & r' & m & Hrun & Hwf & Hcid & _ & Exm & Hwm & _ & _ & Hin & Hout).
  exists sn, r'. split; [done|]. split; [done|]. split; [done| |].
  - intros x [Hid Hv Hr _] Hcur. cbn in Hcur |- *. rewrite Et0 in Hcur |- *.
    apply bool_decide_eq_false in Hcur. intros Hst.
    destruct Hid as [Hp|[Hn Hw]].
    { destruct Hst as [Hst|Hst].
      - unfold started_at in Hst. rewrite orb_false_iff, negb_false_iff in Hst. destruct Hst as [Hst _].
        unfold TransactionIdIsNormal in Hst. lia.
      - destruct (runs_id_true (σ a) Hinv x Hst) as [[_ Hn] _]. unfold TransactionIdIsNormal in Hn. lia. }
    rewrite <- (window_counter x) by apply Hn. apply Hin; [done| |].
    { intros p t subs Hp Et Hc. cbn. rewrite window_counter by apply Hn. by eapply Hr. }
    destruct Hst as [Hst|Hst].
    + left. unfold started_at in Hst. apply orb_false_iff in Hst as [_ Hst]. lia.
    + right. destruct (runs_id_true (σ a) Hinv x Hst) as [_ (p & Hp & Hc)]. exists p. split; [done|].
      split; [|split; [by eapply Hv|done]]. intros ->. apply Hcur. by apply id_of_counter; [apply Hn|].
  - intros x [Hid _ _ Hc]. unfold xid_state. cbn. rewrite Et0.
    destruct (bool_decide _); [done|]. destruct (runs_id (σ a) x) eqn:Er; [done|].
    destruct (committed_id (σ a) x) eqn:Ec; [|done]. intros _.
    assert (0 ≤ x < FirstNormalTransactionId → in_snapshot (env_of pv me t0 (σ a)) sn x = false) as Hperm.
    { intros Hx. unfold in_snapshot. rewrite Exm. unfold TransactionIdPrecedes.
      assert (TransactionIdIsNormal x = false) as -> by (unfold TransactionIdIsNormal; lia). cbn [negb orb].
      pose proof (proj1 Hwm) as Hm. unfold full_xid, TransactionIdIsNormal in Hm.
      rewrite (proj2 (Z.ltb_lt _ _)); [done|lia]. }
    destruct Hid as [Hp|[Hn Hw]]; [by apply Hperm|].
    apply (committed_id_spec (σ a) Hinv) in Ec as [->|[->|[_ Ec]]]; [by apply Hperm|by apply Hperm|].
    assert (¬ running (σ a) (counter_of x)) as Hnr.
    { intros H. by rewrite (runs_id_running (σ a) x (proj1 Hn) H) in Er. }
    destruct (Hc Ec Hnr) as (t & Et & Hwt & Hle & Hnt).
    rewrite <- (window_counter x) by apply Hn. apply (Hout _ _ t); try done.
    + by apply (v_committed _ _ Hinv).
    + cbn. rewrite window_counter by apply Hn. done.
    + intros (p & Hp & _ & _ & Hin'). apply Hnt. by exists p.
Qed.
End snapshot.
End observer.

(** ** The answers of [HeapTupleSatisfiesMVCC] *)

(** With a snapshot that separates, MVCC visibility is [SnapshotNow] visibility at the time
    of the snapshot. *)
Lemma mvcc_is_now e sn h :
  is_set h HEAP_MOVED_OFF = false → is_set h HEAP_MOVED_IN = false →
  (xid_state e (t_xmin h) = Committed → in_snapshot e sn (t_xmin h) = false) →
  (xid_state e (t_xmax h) = Committed → in_snapshot e sn (t_xmax h) = false) →
  mvcc_spec e sn h = now_spec e e (snap_curcid sn) h.
Proof.
  intros Hoff Hin H1 H2. unfold mvcc_spec, mvcc_spec2, now_spec, ins. rewrite Hoff, Hin.
  destruct (xid_state e (t_xmin h)); try done. rewrite (H1 eq_refl). cbn [negb andb].
  destruct (del e h) eqn:Ed; try done. apply H2. unfold del in Ed.
  destruct (is_set h HEAP_XMAX_IS_MULTI); [by destruct (env_MultiIsRunning e _)|].
  by destruct (xid_state e (t_xmax h)), (is_set h HEAP_IS_LOCKED).
Qed.

(** Everything that the theorem below assumes of the observing backend, of the time at
    which it takes its snapshot and of its process. *)
Record takes_snapshot (σ : nat → Sys) (ρ : nat → nat) (me : Z) (a b k0 t0 : nat) (τ : nat → nat) : Prop := {
  ts_lock : locked BLCKSZ base σ a b;
  ts_start : τ k0 = a;
  ts_now : ρ t0 = a;
  ts_views k : (k0 ≤ k)%nat → (τ k ≤ τ (S k) ≤ b)%nat;
  ts_order : (a ≤ b)%nat;
  ts_me : backend (mem (σ a)) me
}.

(** C1: snapshot isolation of the running system.  In every execution of the system, a
    backend that takes a snapshot with [GetSnapshotData] while others take ids, publish
    horizons, commit and prepare, gets one; and whatever the others do afterwards,
    [HeapTupleSatisfiesMVCC] with that snapshot returns exactly what an instantaneous
    [SnapshotNow] inspection of the tuple would have found at the moment the lock was
    acquired: rows of transactions that had committed by then, and of earlier commands of
    its own.  It only adds hint bits to the header. *)
Theorem system_snapshot_isolation σ ρ me pv a b t0 τ PMAX defer cid r
    (Hex : execution BLCKSZ base σ) (Hob : observes σ ρ me pv) :
  takes_snapshot σ ρ me a b (clk r) t0 τ → maxProcs (mem (σ a)) ≤ PMAX →
  ∃ sn r', GetSnapshotData (λ k, mem (σ (τ k))) me PMAX defer cid r = Ret (sn, r') ∧
    ∀ s, snapshot s = sn → (t0 ≤ clock s)%nat →
      traceable pv (σ a) (t_xmin (tuple s)) → traceable pv (σ a) (t_xmax (tuple s)) →
      sound (world σ ρ me pv) (clock s) (tuple s) →
      wf_tuple (world σ ρ me pv) (HW := world_history σ Hex ρ me pv Hob) (clock s) (tuple s) →
      is_set (tuple s) HEAP_MOVED = false →
      ∃ s', HeapTupleSatisfiesMVCC (world σ ρ me pv) s =
              Ret (now_spec (world σ ρ me pv t0) (world σ ρ me pv t0) cid (tuple s), s') ∧
            hint_ext (tuple s) (tuple s').
Proof.
  intros [Hlock E0 Et Hτ Hab Hme] HP.
  destruct (snapshot_separates σ Hex ρ me pv a b (clk r) t0 τ Hlock E0 Et Hτ Hab Hme PMAX defer cid r eq_refl HP)
    as (sn & r' & Hrun & <- & [Hwf Hcov Hcom]).
  exists sn, r'. split; [done|]. intros s <- Ht Hmin Hmax Hs Hw Hmv.
  set (HW := world_history σ Hex ρ me pv Hob).
  assert (∀ x, traceable pv (σ a) x → covers (world σ ρ me pv) t0 (snapshot s) x) as Hc.
  { intros x Hx Hcur. change (started t0 x) with (started_at (σ (ρ t0)) x). rewrite Et.
    apply Hcov; [done|]. by rewrite (@h_current (world σ ρ me pv) HW). }
  destruct (HeapTupleSatisfiesMVCC_isolation (world σ ρ me pv) t0 s Hs Hw Hwf Ht (Hc _ Hmin) (Hc _ Hmax))
    as (s' & -> & Hext & _); [intros E; congruence|].
  exists s'. split; [|done]. rewrite moved_bits, orb_false_iff in Hmv. destruct Hmv. by rewrite mvcc_is_now by auto.
Qed.

(** ** VACUUM and the snapshots of the others *)

(** The snapshot taken at [a'] is not older than the horizon computed under the lock from
    [a] to [b]: it is taken later, or the lock is held by both at once, or it is the first
    of its transaction and the backend has had its [xmin] in the array all the time. *)
Definition not_older (σ : nat → Sys) (me : Z) (a b a' : nat) (r r' : Reader) : Prop :=
  (a ≤ a')%nat ∨ ((a' ≤ a)%nat ∧ locked BLCKSZ base σ a' a) ∨
  (me ∈ procs (mem (σ a)) ∧ is_vacuum (σ a) me = false ∧ my_xmin r = InvalidTransactionId ∧
   ∀ j x, (a ≤ j ≤ b)%nat → allProcs (mem (σ j)) !! Z.to_nat me = Some x → xmin x = my_xmin r').

(** [GetOldestXmin(true, ignoreVacuum)] runs with its lock held from [a] to [b]. *)
Record takes_horizon (σ : nat → Sys) (a b : nat) (τ : nat → nat) (r : Reader) : Prop := {
  th_lock : locked BLCKSZ base σ a b;
  th_order : (a ≤ b)%nat;
  th_start : τ (S (clk r)) = a;
  th_views k : (S (clk r) ≤ k)%nat → (τ k ≤ τ (S k) ≤ b)%nat
}.

Lemma horizon_below_snapshot σ ρ me a b τ defer mydb ignoreVacuum r1 a' b' t0 τ' PMAX cid r2
    (Hex : execution BLCKSZ base σ) :
  takes_horizon σ a b τ r1 → 0 ≤ defer < 2 ^ 31 →
  takes_snapshot σ ρ me a' b' (clk r2) t0 τ' → maxProcs (mem (σ a')) ≤ PMAX →
  ∃ g h m r1' sn r2',
    GetOldestXmin (λ k, mem (σ (τ k))) defer mydb true ignoreVacuum r1 = Ret (uint32_of h, r1') ∧
    GetSnapshotData (λ k, mem (σ (τ' k))) me PMAX defer cid r2 = Ret (sn, r2') ∧
    snapshot_wf sn ∧ snap_xmin sn = uint32_of m ∧ window base m ∧ window base g ∧ full_xid h ∧
    g - defer ≤ h ≤ g ∧ (not_older σ me a b a' r2 r2' → g ≤ m).
Proof.
  intros [Hl Hab E0 Hτ] Hd [Hl' E0' _ Hτ' Hab' Hme] HP.
  destruct (system_horizon _ _ _ Hex a b τ defer mydb ignoreVacuum r1 Hl Hab E0 Hτ Hd)
    as (g & h & r1' & Hrun1 & Hh & Hgh & Hwg & Hgx & Htops & Hpub).
  destruct (system_snapshot _ _ _ Hex a' b' Hl' (clk r2) τ' E0' Hτ' Hab' me Hme PMAX defer cid r2 eq_refl HP)
    as (sn & r2' & m & Hrun2 & Hwf & _ & _ & Exm & Hwm & Hmy & Hex' & _).
  exists g, h, m, r1', sn, r2'. do 8 (split; [done|]). intros [Ha|[Ha|(Hp & Hv & Emy & Hx)]].
  - eapply horizon_before_snapshot; [done|by left|done..].
  - eapply horizon_before_snapshot; [done|by right|done..].
  - apply (Hpub me); [done..|]. intros j x Hj Hx'. rewrite (Hx j x Hj Hx'), Hmy, Emy. done.
Qed.


(** ** The answers of [TransactionIdIsInProgress] *)

(** What the other modules answer about [c] while the routine runs: the backend knows its
    own transactions; an id that is known to have completed is not running; the log has no
    abort for a running transaction and has one for a subtransaction that has left a running
    tree, and [pg_subtrans] knows the top-level transaction. *)
Record consults (s : Sys) (me c : Z) (Known Cur Abort : nat → TransactionId → bool)
    (Top : nat → TransactionId → TransactionId) : Prop := {
  co_known k : Known k (uint32_of c) = true → c < next s ∧ ¬ running s c;
  co_cur k : Cur k (uint32_of c) = bool_decide (c ∈ trees s me);
  co_running k p t subs : p ∈ procs (mem s) → trees s p = t :: subs → c ∈ t :: subs →
    Abort k (uint32_of c) = false ∧ Top k (uint32_of c) = uint32_of t;
  co_ended : ¬ running s c → (∀ k, Abort k (uint32_of c) = true) ∨
    ∀ k p t subs, p ∈ procs (mem s) → trees s p = t :: subs → Top k (uint32_of c) ≠ uint32_of t;
  co_top k : TransactionIdIsValid (Top k (uint32_of c)) = true
}.

Lemma elsewhere_running s me c :
  ¬ (c ∈ trees s me) → (∀ p, p ∈ procs (mem s) → p ≠ me → (c ∉ trees s p)) → ¬ running s c.
Proof.
  intros Hme Hn (p & Hp & Hin). destruct (decide (p = me)) as [->|Hne]; [done|]. by apply (Hn p).
Qed.

End isolation.

(** ** Witnesses *)

Definition sample_private : Private :=
  mkPrivate (λ _, InvalidXLogRecPtr) (λ _ _, false) (λ _ _, false) (λ x, x) 7 (mkCombo None [] 0 0).
Definition sample_reader : Reader := mkReader 0 0 0 0 0.
Definition sample_tuple (xmin xmax : TransactionId) : HeapTupleHeader := mkTuple xmin xmax 0 0.

Lemma sample_observes me : me = 0 ∨ me = 2 → observes sample_run id me sample_private.
Proof.
  intros Hme. split; [cbn; lia| | |done]; intros [|[|k]]; destruct Hme as [-> | ->]; try done; cbn.
  1,3,5: left. all: right; right; left.
Qed.

Lemma sample_takes me k : me = 0 ∨ me = 2 → takes_snapshot 8192 100 sample_run id me 0 0 k 0 (λ _, 0%nat).
Proof.
  intros Hme. split; try done; [intros j Hj; lia|].
  destruct Hme as [-> | ->]; eexists; (split; [reflexivity|done]).
Qed.

Lemma sample_traceable x : x = 103 ∨ x = 104 ∨ x = 105 → traceable 100 sample_private sample_sys x.
Proof.
  intros Hx. assert (counter_of 100 x = x) as Ec by (destruct Hx as [->|[->| ->]]; reflexivity).
  split; rewrite ?Ec.
  - right. split; [split; [unfold is_uint; lia|destruct Hx as [->|[->| ->]]; reflexivity]|apply sample_window; lia].
  - intros p Hp _. change (procs (mem sample_sys)) with [0; 1; 2] in Hp.
    rewrite !elem_of_cons in Hp. destruct Hp as [->|[->|[->|Hp]]]; [done|done|done|by apply elem_of_nil in Hp].
  - intros p t subs _. cbn. unfold sample_tree. destruct (decide (p = 1)); [|done].
    intros [= <- <-] ->%list_elem_of_singleton. done.
  - intros _ Hn. exists x. cbn. rewrite wrap_u_small by (unfold is_uint; lia).
    split; [done|]. split; [apply sample_window; lia|]. done.
Qed.

Section sample.
Context (me : Z) (Hme : me = 0 ∨ me = 2).

Let W : nat → XactEnv := world sample_run id me sample_private.
#[local] Instance sample_history : XactHistory W :=
  world_history 8192 100 sample_run sample_execution id me sample_private (sample_observes me Hme).

Lemma sample_tree_me k : trees (sample_run k) me = [].
Proof using Hme. destruct Hme as [-> | ->], k as [|[|k]]; reflexivity. Qed.

Lemma sample_sound t xmin xmax : sound W t (sample_tuple xmin xmax).
Proof. split; done. Qed.

Lemma sample_wf t xmin xmax :
  xmin = 103 ∨ xmin = 104 ∨ xmin = 105 → xmax = 103 ∨ xmax = 104 ∨ xmax = 105 →
  wf_tuple W t (sample_tuple xmin xmax).
Proof.
  intros H1 H2.
  assert (∀ x, env_IsCurrent (W 0%nat) x = false) as Hn.
  { intros x. unfold W, world, env_of. cbn [env_IsCurrent]. by rewrite sample_tree_me. }
  assert (∀ x, x = 103 ∨ x = 104 ∨ x = 105 → started t x = true) as Hs.
  { intros x Hx. change (started_at 100 (sample_run t) x = true).
    destruct t as [|[|t]], Hx as [->|[->| ->]]; reflexivity. }
  split; cbn [sample_tuple t_xmin t_xmax]; try done; [by apply Hs|by apply Hs|..]; rewrite ?Hn; done.
Qed.
End sample.

Lemma system_snapshot_isolation_witness :
  ∃ sn r' s', GetSnapshotData (λ _, sample_mem) 0 8 0 7 sample_reader = Ret (sn, r') ∧
    HeapTupleSatisfiesMVCC (world sample_run id 0 sample_private) (mkV 5 (sample_tuple 104 105) false sn)
      = Ret (true, s').
Proof.
  destruct (system_snapshot_isolation 8192 100 sample_run id 0 sample_private 0 0 0 (λ _, 0%nat) 8 0 7 sample_reader
    sample_execution (sample_observes 0 (or_introl eq_refl))) as (sn & r' & Hrun & Hvis).
  - by apply sample_takes; left.
  - vm_compute. discriminate.
  - destruct (Hvis (mkV 5 (sample_tuple 104 105) false sn)) as (s' & Hs & _).
    + reflexivity.
    + cbn. lia.
    + apply sample_traceable. auto.
    + apply sample_traceable. auto.
    + apply sample_sound.
    + apply (sample_wf 0); auto.
    + reflexivity.
    + exists sn, r', s'. split; [exact Hrun|exact Hs].
Defined.


