(* ===== verification/Xact.v ===== *)
(** * Transaction blocks

    [backend/access/transam/xact.c]: the stack of a backend's transaction and its
    subtransactions, the block states that the client's commands move through, the
    assignment of transaction ids to the stack, and the error paths; and the dispatch of
    transaction commands in [backend/tcop/utility.c] and [backend/tcop/postgres.c].

    An [ereport(ERROR)] leaves the state as it is at that point, for
    [AbortCurrentTransaction] to find; so an operation here returns the state also when it
    raises an error.  The calls into other modules between two changes of this state are one
    point [external] at which the [oracle] may raise an error.  Abort processing does not
    raise errors of its own.  Memory contexts, GUC nesting, user ids, timestamps and
    two-phase state files are left out. *)

From Stdlib Require Import Ascii.
From stdpp Require Import strings.
From S2P Require Import Prelude Xid.

(** ** States *)

Inductive TransState :=
| TRANS_DEFAULT | TRANS_START | TRANS_INPROGRESS | TRANS_COMMIT | TRANS_ABORT | TRANS_PREPARE.

Inductive TBlockState :=
| TBLOCK_DEFAULT | TBLOCK_STARTED
| TBLOCK_BEGIN | TBLOCK_INPROGRESS | TBLOCK_END | TBLOCK_ABORT | TBLOCK_ABORT_END
| TBLOCK_ABORT_PENDING | TBLOCK_PREPARE
| TBLOCK_SUBBEGIN | TBLOCK_SUBINPROGRESS | TBLOCK_SUBEND | TBLOCK_SUBABORT
| TBLOCK_SUBABORT_END | TBLOCK_SUBABORT_PENDING | TBLOCK_SUBRESTART | TBLOCK_SUBABORT_RESTART.

#[global] Instance TransState_eq_dec : EqDecision TransState.
Proof. solve_decision. Defined.
#[global] Instance TBlockState_eq_dec : EqDecision TBlockState.
Proof. solve_decision. Defined.

Abbreviation SubTransactionId := Z.
Abbreviation CmdId := Z.
Definition InvalidSubTransactionId : SubTransactionId := 0.
Definition TopSubTransactionId : SubTransactionId := 1.
Definition FirstCommandId : Z := 0.
Definition PGPROC_MAX_CACHED_SUBXIDS : Z := 64.

(** [has_owner] says that [curTransactionOwner] is not NULL. *)
Record TransactionStateData := mkTS {
  transactionId : TransactionId;
  subTransactionId : SubTransactionId;
  name : option string;
  savepointLevel : Z;
  state : TransState;
  blockState : TBlockState;
  nestingLevel : Z;
  has_owner : bool;
  childXids : list TransactionId
}.

(** What the transaction manager tells the commit log: the outcome of a transaction and
    its committed children, a prepared transaction, and the groups of subtransaction ids
    reported to standby servers. *)
Inductive XactEvent :=
| XactCommit (xid : TransactionId) (children : list TransactionId)
| XactAbort (isSubXact : bool) (xid : TransactionId) (children : list TransactionId)
| XactPrepare (xid : TransactionId) (children : list TransactionId) (gid : option string)
| XactAssignment (xtop : TransactionId) (subxids : list TransactionId).

(** The state of [xact.c]: [CurrentTransactionState], its ancestors from the parent to
    [TopTransactionStateData], the counters of the transaction; [committed_xid] is the
    current transaction id if the commit log has its commit, [last_xid] the last counter
    that this backend has been given, [events] what it has reported and [calls] the number
    of external calls so far. *)
Record Xact := mkXact {
  current : TransactionStateData;
  parents : list TransactionStateData;
  currentSubTransactionId : SubTransactionId;
  currentCommandId : CmdId;
  currentCommandIdUsed : bool;
  unreportedXids : list TransactionId;
  prepareGID : option string;
  committed_xid : TransactionId;
  last_xid : Z;
  events : list XactEvent;
  calls : nat
}.

(** The initial state of a backend, with the counter at which it starts. *)
Definition TopTransactionStateData : TransactionStateData :=
  mkTS InvalidTransactionId InvalidSubTransactionId None 0 TRANS_DEFAULT TBLOCK_DEFAULT 0 false [].
Definition xact_init (c : Z) : Xact :=
  mkXact TopTransactionStateData [] 0 0 false [] None InvalidTransactionId c [] 0.

(** ** Operations that keep the state when they raise an error *)

Inductive elevel := ERROR | FATAL | PANIC.
Inductive xres (A : Type) : Type :=
| Val (a : A) (s : Xact)
| Raise (l : elevel) (e : pgerror) (s : Xact)
| Bug
| Stuck.
Arguments Val {_} _ _.
Arguments Raise {_} _ _ _.
Arguments Bug {_}.
Arguments Stuck {_}.

Definition X (A : Type) : Type := Xact → xres A.
#[global] Instance X_ret : MRet X := λ A a s, Val a s.
#[global] Instance X_bind : MBind X := λ A B f m s,
  match m s with
  | Val a s' => f a s'
  | Raise l e s' => Raise l e s'
  | Bug => Bug
  | Stuck => Stuck
  end.
Definition raise {A} (l : elevel) (e : pgerror) : X A := λ s, Raise l e s.
Definition xassert (b : bool) : X unit := λ s, if b then Val tt s else Bug.
Definition get : X Xact := λ s, Val s s.
Definition set (f : Xact → Xact) : X unit := λ s, Val tt (f s).

(** [elog(FATAL, "... unexpected state")] *)
Definition unexpected {A} : X A := raise FATAL ERRCODE_INTERNAL_ERROR.

Definition with_stack (cur : TransactionStateData) (ps : list TransactionStateData) (s : Xact) : Xact :=
  mkXact cur ps (currentSubTransactionId s) (currentCommandId s) (currentCommandIdUsed s)
    (unreportedXids s) (prepareGID s) (committed_xid s) (last_xid s) (events s) (calls s).
Definition with_commands (cid : CmdId) (used : bool) (s : Xact) : Xact :=
  mkXact (current s) (parents s) (currentSubTransactionId s) cid used
    (unreportedXids s) (prepareGID s) (committed_xid s) (last_xid s) (events s) (calls s).
Definition with_subid (i : SubTransactionId) (s : Xact) : Xact :=
  mkXact (current s) (parents s) i (currentCommandId s) (currentCommandIdUsed s)
    (unreportedXids s) (prepareGID s) (committed_xid s) (last_xid s) (events s) (calls s).
Definition with_unreported (l : list TransactionId) (s : Xact) : Xact :=
  mkXact (current s) (parents s) (currentSubTransactionId s) (currentCommandId s) (currentCommandIdUsed s)
    l (prepareGID s) (committed_xid s) (last_xid s) (events s) (calls s).
Definition with_gid (g : option string) (s : Xact) : Xact :=
  mkXact (current s) (parents s) (currentSubTransactionId s) (currentCommandId s) (currentCommandIdUsed s)
    (unreportedXids s) g (committed_xid s) (last_xid s) (events s) (calls s).
Definition with_event (e : XactEvent) (s : Xact) : Xact :=
  mkXact (current s) (parents s) (currentSubTransactionId s) (currentCommandId s) (currentCommandIdUsed s)
    (unreportedXids s) (prepareGID s) (committed_xid s) (last_xid s) (e :: events s) (calls s).
Definition with_last (c : Z) (s : Xact) : Xact :=
  mkXact (current s) (parents s) (currentSubTransactionId s) (currentCommandId s) (currentCommandIdUsed s)
    (unreportedXids s) (prepareGID s) (committed_xid s) c (events s) (calls s).
Definition with_committed (x : TransactionId) (s : Xact) : Xact :=
  mkXact (current s) (parents s) (currentSubTransactionId s) (currentCommandId s) (currentCommandIdUsed s)
    (unreportedXids s) (prepareGID s) x (last_xid s) (events s) (calls s).
Definition called (s : Xact) : Xact :=
  mkXact (current s) (parents s) (currentSubTransactionId s) (currentCommandId s) (currentCommandIdUsed s)
    (unreportedXids s) (prepareGID s) (committed_xid s) (last_xid s) (events s) (S (calls s)).

(** Assignments to fields of a [TransactionStateData]. *)
Definition set_state (v : TransState) (t : TransactionStateData) : TransactionStateData :=
  mkTS (transactionId t) (subTransactionId t) (name t) (savepointLevel t) v (blockState t)
    (nestingLevel t) (has_owner t) (childXids t).
Definition set_block (v : TBlockState) (t : TransactionStateData) : TransactionStateData :=
  mkTS (transactionId t) (subTransactionId t) (name t) (savepointLevel t) (state t) v
    (nestingLevel t) (has_owner t) (childXids t).
Definition set_owner (v : bool) (t : TransactionStateData) : TransactionStateData :=
  mkTS (transactionId t) (subTransactionId t) (name t) (savepointLevel t) (state t) (blockState t)
    (nestingLevel t) v (childXids t).
Definition set_name (v : option string) (t : TransactionStateData) : TransactionStateData :=
  mkTS (transactionId t) (subTransactionId t) v (savepointLevel t) (state t) (blockState t)
    (nestingLevel t) (has_owner t) (childXids t).
Definition set_level (v : Z) (t : TransactionStateData) : TransactionStateData :=
  mkTS (transactionId t) (subTransactionId t) (name t) v (state t) (blockState t)
    (nestingLevel t) (has_owner t) (childXids t).
Definition set_xid (v : TransactionId) (t : TransactionStateData) : TransactionStateData :=
  mkTS v (subTransactionId t) (name t) (savepointLevel t) (state t) (blockState t)
    (nestingLevel t) (has_owner t) (childXids t).
Definition set_children (v : list TransactionId) (t : TransactionStateData) : TransactionStateData :=
  mkTS (transactionId t) (subTransactionId t) (name t) (savepointLevel t) (state t) (blockState t)
    (nestingLevel t) (has_owner t) v.
Definition set_ids (sub : SubTransactionId) (nest : Z) (t : TransactionStateData) : TransactionStateData :=
  mkTS (transactionId t) sub (name t) (savepointLevel t) (state t) (blockState t)
    nest (has_owner t) (childXids t).

(** [s->...] for [s = CurrentTransactionState]. *)
Definition cur {A} (f : TransactionStateData → A) : X A := λ s, Val (f (current s)) s.
Definition update (f : TransactionStateData → TransactionStateData) : X unit :=
  set (λ s, with_stack (f (current s)) (parents s) s).

(** ** Other modules *)

(** What the other modules do at one call: raise an error or not, and how many transaction
    ids other backends have taken since the last one taken here. *)
Record Reply := mkReply { fails : bool; skipped : nat }.

(** The first counter from [z] on that stands for a normal id. *)
Definition full_from (z : Z) : Z := if uint32_of z <? FirstNormalTransactionId then z + 3 - uint32_of z else z.

Section xact.
Context (oracle : nat → Reply) (XLogStandbyInfoActive : bool).
(** [AfterTriggerFireDeferred] and [PreCommit_Portals], which run the user's code. *)
Context (FireDeferred : X unit).
(** [MyXactAccessedTempRel] *)
Context (AccessedTempRel : bool).

(** Calls of other modules, any of which may raise an error. *)
Definition external : X unit := λ s,
  if fails (oracle (calls s)) then Raise ERROR ERRCODE_INTERNAL_ERROR (called s) else Val tt (called s).

(** [GetNewTransactionId] ([varsup.c]), seen from one backend: a later counter than all it
    has had before. *)
Definition new_xid : X TransactionId := λ s,
  let r := oracle (calls s) in
  if fails r then Raise ERROR ERRCODE_PROGRAM_LIMIT_EXCEEDED (called s) else
  let c := full_from (last_xid s + 1 + Z.of_nat (skipped r)) in
  Val (uint32_of c) (with_last c (called s)).

Definition report (e : XactEvent) : X unit := set (with_event e).

(** ** Transaction ids *)

Definition GetTopTransactionIdIfAny (s : Xact) : TransactionId :=
  transactionId (default (current s) (last (parents s))).

(** [AssignTransactionId] for the [i]-th element of the stack, whose ancestors have ids. *)
Definition stack_get (i : nat) : X TransactionStateData := λ s,
  match (current s :: parents s) !! i with Some t => Val t s | None => Bug end.
Definition stack_update (i : nat) (f : TransactionStateData → TransactionStateData) : X unit := λ s,
  match i with
  | O => Val tt (with_stack (f (current s)) (parents s) s)
  | S j => Val tt (with_stack (current s) (alter f j (parents s)) s)
  end.

Definition assign_one (i : nat) : X unit :=
  t ← stack_get i;
  s ← get;
  let isSubXact := (S i <? length (current s :: parents s))%nat in
  _ ← xassert (negb (TransactionIdIsValid (transactionId t)));
  _ ← xassert (bool_decide (state t = TRANS_INPROGRESS));
  x ← new_xid;
  _ ← stack_update i (set_xid x);
  (* SubTransSetParent, RegisterPredicateLockingXid, XactLockTableInsert *)
  _ ← external;
  if isSubXact && XLogStandbyInfoActive then
    s ← get;
    let l := unreportedXids s ++ [x] in
    if PGPROC_MAX_CACHED_SUBXIDS <=? Z.of_nat (length l) then
      _ ← xassert (TransactionIdIsValid (GetTopTransactionIdIfAny s));
      _ ← report (XactAssignment (GetTopTransactionIdIfAny s) l);
      set (with_unreported [])
    else set (with_unreported l)
  else mret tt.

(** The ancestors without an id, from the parent of element [i] upwards. *)
Fixpoint unassigned_parents (l : list TransactionStateData) (i : nat) : list nat :=
  match l with
  | [] => []
  | t :: l => if TransactionIdIsValid (transactionId t) then [] else i :: unassigned_parents l (S i)
  end.

(** [while (parentOffset != 0) AssignTransactionId(parents[--parentOffset])] *)
Fixpoint assign_parents (l : list nat) : X unit :=
  match l with
  | [] => mret tt
  | i :: l => _ ← assign_parents l; assign_one i
  end.

(** [AssignTransactionId(CurrentTransactionState)] *)
Definition AssignTransactionId : X unit :=
  s ← get;
  _ ← xassert (negb (TransactionIdIsValid (transactionId (current s))));
  _ ← xassert (bool_decide (state (current s) = TRANS_INPROGRESS));
  _ ← assign_parents (unassigned_parents (parents s) 1);
  assign_one 0.

Definition GetCurrentTransactionId : X TransactionId :=
  x ← cur transactionId;
  _ ← (if TransactionIdIsValid x then mret tt else AssignTransactionId);
  cur transactionId.

(** ** Command ids *)

Definition GetCurrentCommandId (used : bool) : X CmdId :=
  s ← get;
  _ ← (if used then set (with_commands (currentCommandId s) true) else mret tt);
  mret (currentCommandId s).

Definition CommandCounterIncrement : X unit :=
  s ← get;
  if currentCommandIdUsed s then
    let c := uint32_of (currentCommandId s + 1) in
    if c =? FirstCommandId then raise ERROR ERRCODE_PROGRAM_LIMIT_EXCEEDED
    else
      _ ← set (with_commands c false);
      (* SnapshotSetCommandId, AtCCI_LocalCache *)
      external
  else mret tt.

(** ** Whose id? *)

(** [while (low <= high)] *)
Fixpoint child_search (fuel : nat) (xs : list TransactionId) (x : TransactionId) (low high : Z)
    : outcome bool :=
  match fuel with
  | O => Timeout
  | S fuel =>
      if low <=? high then
        let middle := low + Z.quot (high - low) 2 in
        probe ← arr_get xs middle;
        if TransactionIdEquals probe x then Ret true
        else if TransactionIdPrecedes probe x then child_search fuel xs x (middle + 1) high
        else child_search fuel xs x low (middle - 1)
      else Ret false
  end.

(** [for (s = CurrentTransactionState; s != NULL; s = s->parent)] *)
Fixpoint current_loop (l : list TransactionStateData) (x : TransactionId) : outcome bool :=
  match l with
  | [] => Ret false
  | t :: l =>
      if bool_decide (state t = TRANS_ABORT) then current_loop l x
      else if negb (TransactionIdIsValid (transactionId t)) then current_loop l x
      else if TransactionIdEquals x (transactionId t) then Ret true
      else
        found ← child_search (S (length (childXids t))) (childXids t) x 0
                  (Z.of_nat (length (childXids t)) - 1);
        if found : bool then Ret true else current_loop l x
  end.

Definition TransactionIdIsCurrentTransactionId (x : TransactionId) (s : Xact) : outcome bool :=
  if negb (TransactionIdIsNormal x) then Ret false
  else current_loop (current s :: parents s) x.

Definition IsTransactionState (s : Xact) : bool := bool_decide (state (current s) = TRANS_INPROGRESS).
Definition IsAbortedTransactionBlockState (s : Xact) : bool :=
  match blockState (current s) with TBLOCK_ABORT | TBLOCK_SUBABORT => true | _ => false end.
Definition IsTransactionBlock (s : Xact) : bool :=
  match blockState (current s) with TBLOCK_DEFAULT | TBLOCK_STARTED => false | _ => true end.
Definition IsSubTransaction (s : Xact) : bool := 2 <=? nestingLevel (current s).
Definition IsTransactionOrTransactionBlock (s : Xact) : bool :=
  match blockState (current s) with TBLOCK_DEFAULT => false | _ => true end.
Definition GetCurrentTransactionIdIfAny (s : Xact) : TransactionId := transactionId (current s).
Definition GetCurrentSubTransactionId (s : Xact) : SubTransactionId := subTransactionId (current s).
Definition GetCurrentTransactionNestLevel (s : Xact) : Z := nestingLevel (current s).
Definition xactGetCommittedChildren (s : Xact) : Z * list TransactionId :=
  (Z.of_nat (length (childXids (current s))), childXids (current s)).

(** The status that [ReadyForQuery] reports to the client. *)
Definition TransactionBlockStatusCode (s : Xact) : ascii :=
  match blockState (current s) with
  | TBLOCK_DEFAULT | TBLOCK_STARTED => "I"
  | TBLOCK_BEGIN | TBLOCK_SUBBEGIN | TBLOCK_INPROGRESS | TBLOCK_SUBINPROGRESS | TBLOCK_END | TBLOCK_SUBEND
  | TBLOCK_PREPARE => "T"
  | TBLOCK_ABORT | TBLOCK_SUBABORT | TBLOCK_ABORT_END | TBLOCK_SUBABORT_END | TBLOCK_ABORT_PENDING
  | TBLOCK_SUBABORT_PENDING | TBLOCK_SUBRESTART | TBLOCK_SUBABORT_RESTART => "E"
  end%char.

(** ** Starting and ending the top-level transaction *)

(** [CurrentTransactionState = &TopTransactionStateData] *)
Definition reset_stack : X unit := set (λ s, with_stack (default (current s) (last (parents s))) [] s).

Definition StartTransaction : X unit :=
  _ ← reset_stack;
  _ ← update (λ t, set_xid InvalidTransactionId (set_state TRANS_START t));
  _ ← update (λ t, set_ids TopSubTransactionId (nestingLevel t) t);
  _ ← set (λ s, with_unreported [] (with_commands FirstCommandId false
    (with_subid TopSubTransactionId (with_committed InvalidTransactionId s))));
  (* AtStart_Memory *)
  _ ← external;
  _ ← update (set_owner true);
  (* VirtualXactLockTableInsert *)
  _ ← external;
  _ ← update (λ t, set_children [] (set_ids (subTransactionId t) 1 t));
  (* AtStart_GUC, AtStart_Inval, AtStart_Cache, AfterTriggerBeginXact *)
  _ ← external;
  update (set_state TRANS_INPROGRESS).

(** The fields that the end of a transaction clears. *)
Definition clear_top (t : TransactionStateData) : TransactionStateData :=
  set_state TRANS_DEFAULT (set_children [] (set_ids InvalidSubTransactionId 0
    (set_xid InvalidTransactionId (set_owner false t)))).

(** [RecordTransactionCommit]: the commit record and the commit log. *)
Definition RecordTransactionCommit : X unit :=
  s ← get;
  let xid := GetTopTransactionIdIfAny s in
  let children := childXids (current s) in
  _ ← external;
  if TransactionIdIsValid xid then _ ← set (with_committed xid); report (XactCommit xid children)
  else xassert (bool_decide (children = [])).

Definition CommitTransaction : X unit :=
  s ← get;
  _ ← xassert (bool_decide (parents s = []));
  _ ← FireDeferred;
  (* PreCommit_on_commit_actions, PreCommit_CheckForSerializationFailure, PreCommit_Notify *)
  _ ← external;
  _ ← update (set_state TRANS_COMMIT);
  _ ← RecordTransactionCommit;
  (* post-commit cleanup: it is too late to abort *)
  _ ← external;
  update clear_top.

Definition PrepareTransaction : X unit :=
  xid ← GetCurrentTransactionId;
  s ← get;
  _ ← xassert (bool_decide (parents s = []));
  _ ← FireDeferred;
  _ ← external;
  _ ← (if AccessedTempRel then raise ERROR ERRCODE_FEATURE_NOT_SUPPORTED else mret tt);
  _ ← update (set_state TRANS_PREPARE);
  (* MarkAsPreparing, StartPrepare *)
  _ ← external;
  gid ← (s ← get; mret (prepareGID s));
  _ ← set (with_gid None);
  _ ← external;
  s ← get;
  _ ← report (XactPrepare xid (childXids (current s)) gid);
  (* cleanup *)
  _ ← external;
  update clear_top.

(** [TransactionIdDidCommit] for the current transaction. *)
Definition did_commit (s : Xact) (xid : TransactionId) : bool := committed_xid s =? xid.

Definition RecordTransactionAbort (isSubXact : bool) : X unit :=
  s ← get;
  let xid := transactionId (current s) in
  if negb (TransactionIdIsValid xid) then mret tt
  else if did_commit s xid then raise PANIC ERRCODE_INTERNAL_ERROR
  else report (XactAbort isSubXact xid (childXids (current s))).

Definition AbortTransaction : X unit :=
  s ← get;
  _ ← xassert (bool_decide (parents s = []));
  _ ← update (set_state TRANS_ABORT);
  RecordTransactionAbort false.

Definition CleanupTransaction : X unit :=
  st ← cur state;
  if bool_decide (st ≠ TRANS_ABORT) then unexpected else
  update clear_top.

(** ** Subtransactions *)

Definition PushTransaction : X unit :=
  s ← get;
  let i := uint32_of (currentSubTransactionId s + 1) in
  if i =? InvalidSubTransactionId then raise ERROR ERRCODE_PROGRAM_LIMIT_EXCEEDED else
  let p := current s in
  set (λ s, with_subid i (with_stack
    (mkTS InvalidTransactionId i None (savepointLevel p) TRANS_DEFAULT TBLOCK_SUBBEGIN
       (nestingLevel p + 1) false []) (p :: parents s) s)).

Definition PopTransaction : X unit :=
  s ← get;
  match parents s with
  | [] => unexpected
  | p :: ps => set (with_stack p ps)
  end.

Definition StartSubTransaction : X unit :=
  _ ← update (set_state TRANS_START);
  (* AtSubStart_Memory *)
  _ ← external;
  _ ← update (set_owner true);
  (* AtSubStart_Inval, AtSubStart_Notify, AfterTriggerBeginSubXact *)
  _ ← external;
  _ ← update (set_state TRANS_INPROGRESS);
  (* CallSubXactCallbacks *)
  external.

(** The XIDs of a subtransaction go to its parent. *)
Definition AtSubCommit_childXids : X unit :=
  s ← get;
  match parents s with
  | [] => xassert false
  | p :: ps =>
      let t := current s in
      (* enlarging the array may fail *)
      _ ← external;
      set (λ s, with_stack (set_children [] t)
                 (set_children (childXids p ++ transactionId t :: childXids t) p :: ps) s)
  end.

Definition CommitSubTransaction : X unit :=
  _ ← update (set_state TRANS_COMMIT);
  _ ← CommandCounterIncrement;
  x ← cur transactionId;
  _ ← (if TransactionIdIsValid x then AtSubCommit_childXids else mret tt);
  (* AfterTriggerEndSubXact, AtSubCommit_Portals, ..., ResourceOwnerRelease *)
  _ ← external;
  _ ← update (set_owner false);
  _ ← update (set_state TRANS_DEFAULT);
  PopTransaction.

Definition AbortSubTransaction : X unit :=
  _ ← update (set_state TRANS_ABORT);
  o ← cur has_owner;
  if o : bool then
    _ ← RecordTransactionAbort true;
    x ← cur transactionId;
    if TransactionIdIsValid x then update (set_children []) else mret tt
  else mret tt.

Definition CleanupSubTransaction : X unit :=
  _ ← update (set_owner false);
  _ ← update (set_state TRANS_DEFAULT);
  PopTransaction.

(** ** Commands *)

Definition StartTransactionCommand : X unit :=
  b ← cur blockState;
  match b with
  | TBLOCK_DEFAULT => _ ← StartTransaction; update (set_block TBLOCK_STARTED)
  | TBLOCK_INPROGRESS | TBLOCK_SUBINPROGRESS | TBLOCK_ABORT | TBLOCK_SUBABORT => mret tt
  | _ => raise ERROR ERRCODE_INTERNAL_ERROR
  end.

(** [DefineSavepoint(name)] *)
Definition DefineSavepoint (nm : option string) : X unit :=
  b ← cur blockState;
  match b with
  | TBLOCK_INPROGRESS | TBLOCK_SUBINPROGRESS =>
      _ ← PushTransaction;
      match nm with
      | Some _ => _ ← external; update (set_name nm)
      | None => mret tt
      end
  | _ => unexpected
  end.

(** [do { CommitSubTransaction(); ... } while (s->blockState == TBLOCK_SUBEND)] *)
Fixpoint subend_loop (fuel : nat) : X unit :=
  match fuel with
  | O => λ _, Stuck
  | S fuel =>
      _ ← CommitSubTransaction;
      b ← cur blockState;
      if bool_decide (b = TBLOCK_SUBEND) then subend_loop fuel else mret tt
  end.

(** The second half of [ROLLBACK TO]: the savepoint is defined again. *)
Definition restart_savepoint (nm : option string) (level : Z) : X unit :=
  _ ← DefineSavepoint None;
  _ ← update (λ t, set_level level (set_name nm t));
  b ← cur blockState;
  _ ← xassert (bool_decide (b = TBLOCK_SUBBEGIN));
  _ ← StartSubTransaction;
  update (set_block TBLOCK_SUBINPROGRESS).

(** [CommitTransactionCommand]; the recursion is one level per subtransaction. *)
Fixpoint commit_command (fuel : nat) : X unit :=
  match fuel with
  | O => λ _, Stuck
  | S fuel =>
      b ← cur blockState;
      match b with
      | TBLOCK_DEFAULT => unexpected
      | TBLOCK_STARTED | TBLOCK_END => _ ← CommitTransaction; update (set_block TBLOCK_DEFAULT)
      | TBLOCK_BEGIN => update (set_block TBLOCK_INPROGRESS)
      | TBLOCK_INPROGRESS | TBLOCK_SUBINPROGRESS => CommandCounterIncrement
      | TBLOCK_ABORT | TBLOCK_SUBABORT => mret tt
      | TBLOCK_ABORT_END => _ ← CleanupTransaction; update (set_block TBLOCK_DEFAULT)
      | TBLOCK_ABORT_PENDING =>
          _ ← AbortTransaction; _ ← CleanupTransaction; update (set_block TBLOCK_DEFAULT)
      | TBLOCK_PREPARE => _ ← PrepareTransaction; update (set_block TBLOCK_DEFAULT)
      | TBLOCK_SUBBEGIN => _ ← StartSubTransaction; update (set_block TBLOCK_SUBINPROGRESS)
      | TBLOCK_SUBEND =>
          s ← get;
          _ ← subend_loop (length (parents s));
          s ← get;
          match blockState (current s) with
          | TBLOCK_END =>
              _ ← xassert (bool_decide (parents s = []));
              _ ← CommitTransaction; update (set_block TBLOCK_DEFAULT)
          | TBLOCK_PREPARE =>
              _ ← xassert (bool_decide (parents s = []));
              _ ← PrepareTransaction; update (set_block TBLOCK_DEFAULT)
          | TBLOCK_INPROGRESS | TBLOCK_SUBINPROGRESS => mret tt
          | _ => xassert false
          end
      | TBLOCK_SUBABORT_END => _ ← CleanupSubTransaction; commit_command fuel
      | TBLOCK_SUBABORT_PENDING =>
          _ ← AbortSubTransaction; _ ← CleanupSubTransaction; commit_command fuel
      | TBLOCK_SUBRESTART =>
          t ← cur id;
          _ ← update (set_name None);
          _ ← AbortSubTransaction; _ ← CleanupSubTransaction;
          restart_savepoint (name t) (savepointLevel t)
      | TBLOCK_SUBABORT_RESTART =>
          t ← cur id;
          _ ← update (set_name None);
          _ ← CleanupSubTransaction;
          restart_savepoint (name t) (savepointLevel t)
      end
  end.
Definition CommitTransactionCommand : X unit := s ← get; commit_command (S (length (parents s))).

(** [AbortCurrentTransaction], likewise. *)
Fixpoint abort_current (fuel : nat) : X unit :=
  match fuel with
  | O => λ _, Stuck
  | S fuel =>
      t ← cur id;
      match blockState t with
      | TBLOCK_DEFAULT =>
          if bool_decide (state t = TRANS_DEFAULT) then mret tt else
          _ ← (if bool_decide (state t = TRANS_START) then update (set_state TRANS_INPROGRESS) else mret tt);
          _ ← AbortTransaction; CleanupTransaction
      | TBLOCK_STARTED | TBLOCK_BEGIN | TBLOCK_END | TBLOCK_ABORT_PENDING | TBLOCK_PREPARE =>
          _ ← AbortTransaction; _ ← CleanupTransaction; update (set_block TBLOCK_DEFAULT)
      | TBLOCK_INPROGRESS => _ ← AbortTransaction; update (set_block TBLOCK_ABORT)
      | TBLOCK_ABORT | TBLOCK_SUBABORT => mret tt
      | TBLOCK_ABORT_END => _ ← CleanupTransaction; update (set_block TBLOCK_DEFAULT)
      | TBLOCK_SUBINPROGRESS => _ ← AbortSubTransaction; update (set_block TBLOCK_SUBABORT)
      | TBLOCK_SUBBEGIN | TBLOCK_SUBEND | TBLOCK_SUBABORT_PENDING | TBLOCK_SUBRESTART =>
          _ ← AbortSubTransaction; _ ← CleanupSubTransaction; abort_current fuel
      | TBLOCK_SUBABORT_END | TBLOCK_SUBABORT_RESTART =>
          _ ← CleanupSubTransaction; abort_current fuel
      end
  end.
Definition AbortCurrentTransaction : X unit := s ← get; abort_current (S (length (parents s))).

(** [do ... while (s->blockState != TBLOCK_DEFAULT)] of [AbortOutOfAnyTransaction] *)
Fixpoint abort_out_loop (fuel : nat) : X unit :=
  match fuel with
  | O => λ _, Stuck
  | S fuel =>
      t ← cur id;
      _ ← match blockState t with
          | TBLOCK_DEFAULT =>
              if bool_decide (state t = TRANS_DEFAULT) then mret tt else
              _ ← (if bool_decide (state t = TRANS_START) then update (set_state TRANS_INPROGRESS) else mret tt);
              _ ← AbortTransaction; CleanupTransaction
          | TBLOCK_STARTED | TBLOCK_BEGIN | TBLOCK_INPROGRESS | TBLOCK_END | TBLOCK_ABORT_PENDING
          | TBLOCK_PREPARE =>
              _ ← AbortTransaction; _ ← CleanupTransaction; update (set_block TBLOCK_DEFAULT)
          | TBLOCK_ABORT | TBLOCK_ABORT_END => _ ← CleanupTransaction; update (set_block TBLOCK_DEFAULT)
          | TBLOCK_SUBBEGIN | TBLOCK_SUBINPROGRESS | TBLOCK_SUBEND | TBLOCK_SUBABORT_PENDING
          | TBLOCK_SUBRESTART => _ ← AbortSubTransaction; CleanupSubTransaction
          | TBLOCK_SUBABORT | TBLOCK_SUBABORT_END | TBLOCK_SUBABORT_RESTART => CleanupSubTransaction
          end;
      b ← cur blockState;
      if bool_decide (b = TBLOCK_DEFAULT) then mret tt else abort_out_loop fuel
  end.
Definition AbortOutOfAnyTransaction : X unit :=
  s ← get;
  _ ← abort_out_loop (S (length (parents s)));
  s ← get;
  xassert (bool_decide (parents s = [])).

(** ** Transaction control statements *)

Definition BeginTransactionBlock : X unit :=
  b ← cur blockState;
  match b with
  | TBLOCK_STARTED => update (set_block TBLOCK_BEGIN)
  | TBLOCK_INPROGRESS | TBLOCK_SUBINPROGRESS | TBLOCK_ABORT | TBLOCK_SUBABORT => mret tt  (* warning *)
  | _ => unexpected
  end.

(** [while (s->parent != NULL) { ...; s = s->parent; }] followed by the top-level element:
    [sub] and [top] give the new block state, [None] an unexpected one. *)
Fixpoint mark_stack (sub top : TBlockState → option TBlockState) (t : TransactionStateData)
    (ps : list TransactionStateData) : option (TransactionStateData * list TransactionStateData) :=
  match ps with
  | [] => b ← top (blockState t); Some (set_block b t, [])
  | p :: ps =>
      b ← sub (blockState t);
      '(p', ps') ← mark_stack sub top p ps;
      Some (set_block b t, p' :: ps')
  end.
Definition mark (sub top : TBlockState → option TBlockState) : X unit := λ s,
  match mark_stack sub top (current s) (parents s) with
  | Some (t, ps) => Val tt (with_stack t ps s)
  | None => Raise FATAL ERRCODE_INTERNAL_ERROR s
  end.

Definition sub_commit (b : TBlockState) : option TBlockState :=
  match b with TBLOCK_SUBINPROGRESS => Some TBLOCK_SUBEND | _ => None end.
Definition top_commit (b : TBlockState) : option TBlockState :=
  match b with TBLOCK_INPROGRESS => Some TBLOCK_END | _ => None end.
Definition sub_abort (b : TBlockState) : option TBlockState :=
  match b with
  | TBLOCK_SUBINPROGRESS => Some TBLOCK_SUBABORT_PENDING
  | TBLOCK_SUBABORT => Some TBLOCK_SUBABORT_END
  | _ => None
  end.
Definition top_abort (b : TBlockState) : option TBlockState :=
  match b with
  | TBLOCK_INPROGRESS => Some TBLOCK_ABORT_PENDING
  | TBLOCK_ABORT => Some TBLOCK_ABORT_END
  | _ => None
  end.

Definition EndTransactionBlock : X bool :=
  b ← cur blockState;
  match b with
  | TBLOCK_INPROGRESS => _ ← update (set_block TBLOCK_END); mret true
  | TBLOCK_ABORT => _ ← update (set_block TBLOCK_ABORT_END); mret false
  | TBLOCK_SUBINPROGRESS => _ ← mark sub_commit top_commit; mret true
  | TBLOCK_SUBABORT => _ ← mark sub_abort top_abort; mret false
  | TBLOCK_STARTED => mret true  (* warning *)
  | _ => unexpected
  end.

Definition PrepareTransactionBlock (gid : string) : X bool :=
  result ← EndTransactionBlock;
  if result : bool then
    s ← get;
    match blockState (default (current s) (last (parents s))) with
    | TBLOCK_END =>
        (* MemoryContextStrdup *)
        _ ← external;
        _ ← set (with_gid (Some gid));
        s ← get;
        _ ← stack_update (length (parents s)) (set_block TBLOCK_PREPARE);
        mret true
    | TBLOCK_STARTED => mret false
    | _ => _ ← xassert false; mret false
    end
  else mret false.

Definition UserAbortTransactionBlock : X unit :=
  b ← cur blockState;
  match b with
  | TBLOCK_INPROGRESS => update (set_block TBLOCK_ABORT_PENDING)
  | TBLOCK_ABORT => update (set_block TBLOCK_ABORT_END)
  | TBLOCK_SUBINPROGRESS | TBLOCK_SUBABORT => mark sub_abort top_abort
  | TBLOCK_STARTED => update (set_block TBLOCK_ABORT_PENDING)  (* notice *)
  | _ => unexpected
  end.

(** [for (target = s; PointerIsValid(target); target = target->parent)] *)
Definition find_savepoint (nm : string) (s : Xact) : option (nat * TransactionStateData) :=
  list_find (λ t, name t = Some nm) (current s :: parents s).

Definition no_such_savepoint {A} : X A := raise ERROR ERRCODE_S_E_INVALID_SPECIFICATION.

(** The loop of [ReleaseSavepoint], from the current element to the target. *)
Fixpoint release_loop (n : nat) (i : nat) : X unit :=
  t ← stack_get i;
  _ ← xassert (bool_decide (blockState t = TBLOCK_SUBINPROGRESS));
  _ ← stack_update i (set_block TBLOCK_SUBEND);
  match n with O => mret tt | S n => release_loop n (S i) end.

Definition ReleaseSavepoint (nm : string) : X unit :=
  s ← get;
  match blockState (current s) with
  | TBLOCK_INPROGRESS => no_such_savepoint
  | TBLOCK_SUBINPROGRESS =>
      match find_savepoint nm s with
      | None => no_such_savepoint
      | Some (i, target) =>
          if negb (savepointLevel target =? savepointLevel (current s)) then no_such_savepoint
          else release_loop i 0
      end
  | _ => unexpected
  end.

(** The loop of [RollbackToSavepoint]: [n] elements before the target. *)
Fixpoint rollback_loop (n : nat) (i : nat) : X unit :=
  t ← stack_get i;
  match n with
  | O =>
      match blockState t with
      | TBLOCK_SUBINPROGRESS => stack_update i (set_block TBLOCK_SUBRESTART)
      | TBLOCK_SUBABORT => stack_update i (set_block TBLOCK_SUBABORT_RESTART)
      | _ => unexpected
      end
  | S n =>
      match sub_abort (blockState t) with
      | Some b => _ ← stack_update i (set_block b); rollback_loop n (S i)
      | None => unexpected
      end
  end.

Definition RollbackToSavepoint (nm : string) : X unit :=
  s ← get;
  match blockState (current s) with
  | TBLOCK_INPROGRESS | TBLOCK_ABORT => no_such_savepoint
  | TBLOCK_SUBINPROGRESS | TBLOCK_SUBABORT =>
      match find_savepoint nm s with
      | None => no_such_savepoint
      | Some (i, target) =>
          if negb (savepointLevel target =? savepointLevel (current s)) then no_such_savepoint
          else rollback_loop i 0
      end
  | _ => unexpected
  end.

(** ** Internal subtransactions *)

Definition BeginInternalSubTransaction (nm : option string) : X unit :=
  b ← cur blockState;
  match b with
  | TBLOCK_STARTED | TBLOCK_INPROGRESS | TBLOCK_END | TBLOCK_PREPARE | TBLOCK_SUBINPROGRESS =>
      _ ← PushTransaction;
      _ ← match nm with Some _ => _ ← external; update (set_name nm) | None => mret tt end;
      _ ← CommitTransactionCommand;
      StartTransactionCommand
  | _ => unexpected
  end.

Definition ReleaseCurrentSubTransaction : X unit :=
  t ← cur id;
  if bool_decide (blockState t ≠ TBLOCK_SUBINPROGRESS) then raise ERROR ERRCODE_INTERNAL_ERROR else
  _ ← xassert (bool_decide (state t = TRANS_INPROGRESS));
  _ ← CommitSubTransaction;
  st ← cur state;
  xassert (bool_decide (st = TRANS_INPROGRESS)).

Definition RollbackAndReleaseCurrentSubTransaction : X unit :=
  b ← cur blockState;
  match b with
  | TBLOCK_SUBINPROGRESS | TBLOCK_SUBABORT =>
      _ ← (if bool_decide (b = TBLOCK_SUBINPROGRESS) then AbortSubTransaction else mret tt);
      _ ← CleanupSubTransaction;
      b ← cur blockState;
      match b with
      | TBLOCK_SUBINPROGRESS | TBLOCK_INPROGRESS | TBLOCK_STARTED => mret tt
      | _ => xassert false
      end
  | _ => unexpected
  end.

(** ** The main loop *)

Definition RequireTransactionChain (isTopLevel : bool) : X unit :=
  s ← get;
  if IsTransactionBlock s || IsSubTransaction s || negb isTopLevel then mret tt
  else raise ERROR ERRCODE_NO_ACTIVE_SQL_TRANSACTION.

Definition not_in_chain (s : Xact) : bool :=
  match blockState (current s) with TBLOCK_DEFAULT | TBLOCK_STARTED => true | _ => false end.
Definition PreventTransactionChain (isTopLevel : bool) : X unit :=
  s ← get;
  if IsTransactionBlock s || IsSubTransaction s || negb isTopLevel then raise ERROR ERRCODE_ACTIVE_SQL_TRANSACTION
  else if not_in_chain s then mret tt else unexpected.
Definition IsInTransactionChain (isTopLevel : bool) (s : Xact) : bool :=
  IsTransactionBlock s || IsSubTransaction s || negb isTopLevel || negb (not_in_chain s).

(** A statement of the client: transaction control, or any other one with the code that
    it runs. *)
Inductive stmt :=
| TRANS_STMT_BEGIN
| TRANS_STMT_COMMIT
| TRANS_STMT_PREPARE (gid : string)
| TRANS_STMT_ROLLBACK
| TRANS_STMT_SAVEPOINT (nm : string)
| TRANS_STMT_RELEASE (nm : string)
| TRANS_STMT_ROLLBACK_TO (nm : string)
| OtherStmt (body : X unit).

Definition IsTransactionExitStmt (q : stmt) : bool :=
  match q with
  | TRANS_STMT_COMMIT | TRANS_STMT_PREPARE _ | TRANS_STMT_ROLLBACK | TRANS_STMT_ROLLBACK_TO _ => true
  | _ => false
  end.

(** [standard_ProcessUtility], at the top level. *)
Definition ProcessUtility (q : stmt) : X unit :=
  match q with
  | TRANS_STMT_BEGIN => _ ← BeginTransactionBlock; external  (* SetPGVariable *)
  | TRANS_STMT_COMMIT => _ ← EndTransactionBlock; mret tt
  | TRANS_STMT_PREPARE gid => _ ← PrepareTransactionBlock gid; mret tt
  | TRANS_STMT_ROLLBACK => UserAbortTransactionBlock
  | TRANS_STMT_SAVEPOINT nm => _ ← RequireTransactionChain true; DefineSavepoint (Some nm)
  | TRANS_STMT_RELEASE nm => _ ← RequireTransactionChain true; ReleaseSavepoint nm
  | TRANS_STMT_ROLLBACK_TO nm => _ ← RequireTransactionChain true; RollbackToSavepoint nm
  | OtherStmt body => body
  end.

(** [exec_simple_query] for a query string of one statement, as far as transactions are
    concerned; the parser runs before. *)
Definition exec_simple_query (q : stmt) : X unit :=
  _ ← StartTransactionCommand;
  s ← get;
  if IsAbortedTransactionBlockState s && negb (IsTransactionExitStmt q)
  then raise ERROR ERRCODE_IN_FAILED_SQL_TRANSACTION else
  _ ← external;
  _ ← ProcessUtility q;
  _ ← external;
  CommitTransactionCommand.

(** One turn of [PostgresMain]: an error is caught and the transaction aborted. *)
Definition turn (q : stmt) : X unit := λ s,
  match exec_simple_query q s with
  | Raise ERROR _ s' => AbortCurrentTransaction s'
  | r => r
  end.
End xact.
