(* ===== verification/XactSpec.v ===== *)
(** * Transaction blocks: specification and refinement

    The client's view of a transaction block is an abstract machine with three kinds of
    states; every turn of the main loop of [Xact], whatever errors are raised on the way,
    is a step of it.  A session can be ended from every stack, and the ids of the stack are
    found by [TransactionIdIsCurrentTransactionId]. *)

From Stdlib Require Import Ascii.
From stdpp Require Import strings.
From S2P Require Import Prelude Xid Xact.

(** ** A program logic for operations that raise errors

    [xwp m Q E s]: run from [s], [m] returns with [Q], or raises an error with [E]; no
    assertion fails, no unexpected state is found.  The server may panic when a
    transaction that has committed is to be aborted. *)
Definition xwp {A} (m : X A) (Q : A → Xact → Prop) (E : Xact → Prop) (s : Xact) : Prop :=
  match m s with
  | Val a s' => Q a s'
  | Raise ERROR _ s' => E s'
  | Raise PANIC _ s' => committed_xid s' ≠ InvalidTransactionId
  | _ => False
  end.

Lemma xwp_bind {A B} (m : X A) (f : A → X B) Q E s :
  xwp m (λ a s', xwp (f a) Q E s') E s → xwp (m ≫= f) Q E s.
Proof. unfold xwp, mbind, X_bind. by destruct (m s) as [a s'|[] e s'| |]. Qed.

Lemma xwp_mono {A} (m : X A) (Q Q' : A → Xact → Prop) (E E' : Xact → Prop) s :
  xwp m Q E s → (∀ a s', Q a s' → Q' a s') → (∀ s', E s' → E' s') → xwp m Q' E' s.
Proof. unfold xwp. intros H HQ HE. destruct (m s) as [a s'|[] e s'| |]; auto. Qed.

Lemma xwp_ret {A} (a : A) (Q : A → Xact → Prop) E s : Q a s → xwp (mret a) Q E s.
Proof. done. Qed.
Lemma xwp_raise {A} e (Q : A → Xact → Prop) (E : Xact → Prop) s : E s → xwp (raise ERROR e) Q E s.
Proof. done. Qed.
Lemma xwp_get (Q : Xact → Xact → Prop) E s : Q s s → xwp get Q E s.
Proof. done. Qed.
Lemma xwp_set f (Q : unit → Xact → Prop) E s : Q tt (f s) → xwp (set f) Q E s.
Proof. done. Qed.
Lemma xwp_cur {A} (f : TransactionStateData → A) (Q : A → Xact → Prop) E s :
  Q (f (current s)) s → xwp (cur f) Q E s.
Proof. done. Qed.
Lemma xwp_update f (Q : unit → Xact → Prop) E s :
  Q tt (with_stack (f (current s)) (parents s) s) → xwp (update f) Q E s.
Proof. done. Qed.
Lemma xwp_assert b (Q : unit → Xact → Prop) E s : b = true → Q tt s → xwp (xassert b) Q E s.
Proof. intros ->. done. Qed.
Lemma xwp_report e (Q : unit → Xact → Prop) E s : Q tt (with_event e s) → xwp (report e) Q E s.
Proof. done. Qed.

(** One step of symbolic execution. *)
Ltac xstep :=
  lazymatch goal with
  | |- xwp (_ ≫= _) _ _ _ => apply xwp_bind
  | |- xwp (mret _) _ _ _ => apply xwp_ret
  | |- xwp get _ _ _ => apply xwp_get
  | |- xwp (set _) _ _ _ => apply xwp_set
  | |- xwp (cur _) _ _ _ => apply xwp_cur
  | |- xwp (update _) _ _ _ => apply xwp_update
  | |- xwp (report _) _ _ _ => apply xwp_report
  | |- xwp (raise ERROR _) _ _ _ => apply xwp_raise
  end; cbv beta.
Ltac xsteps := repeat xstep.

(** ** The stack *)

Definition stack (s : Xact) : list TransactionStateData := current s :: parents s.

(** A live subtransaction; a top-level transaction in block state [b]. *)
Definition sub_live (t : TransactionStateData) : Prop :=
  blockState t = TBLOCK_SUBINPROGRESS ∧ state t = TRANS_INPROGRESS.
Fixpoint live (b : TBlockState) (l : list TransactionStateData) : Prop :=
  match l with
  | [] => False
  | [t] => blockState t = b ∧ state t = TRANS_INPROGRESS
  | t :: l => sub_live t ∧ live b l
  end.

Definition has_xid (t : TransactionStateData) : Prop := TransactionIdIsValid (transactionId t) = true.

(** The fields that do not depend on the block states: nesting levels count the stack,
    savepoint levels are all the same, an element without an id has no children with ids
    and no element with an id above it, and the top-level transaction has no name. *)
Fixpoint wf_stack (l : list TransactionStateData) : Prop :=
  match l with
  | [] => True
  | t :: r =>
      nestingLevel t = Z.of_nat (length l) ∧ savepointLevel t = 0 ∧
      (TransactionIdIsValid (transactionId t) = false → childXids t = []) ∧
      match r with [] => name t = None | p :: _ => has_xid t → has_xid p end ∧
      wf_stack r
  end.

(** The savepoints of a stack, the current one first. *)
Fixpoint savepoints (l : list TransactionStateData) : list (option string) :=
  match l with
  | [] | [_] => []
  | t :: l => name t :: savepoints l
  end.

(** ** The abstract machine *)

Inductive block := Idle | Live (sps : list (option string)) | Failed (sps : list (option string)).

Definition idle_top (t : TransactionStateData) : Prop :=
  blockState t = TBLOCK_DEFAULT ∧ state t = TRANS_DEFAULT ∧ transactionId t = InvalidTransactionId ∧
  savepointLevel t = 0 ∧ name t = None.

(** The state [s] between two commands stands for the abstract state. *)
Definition models (s : Xact) (a : block) : Prop :=
  match a with
  | Idle => parents s = [] ∧ idle_top (current s)
  | Live sps =>
      live TBLOCK_INPROGRESS (stack s) ∧ wf_stack (stack s) ∧ savepoints (stack s) = sps ∧
      committed_xid s = InvalidTransactionId
  | Failed sps =>
      state (current s) = TRANS_ABORT ∧
      blockState (current s) = (match parents s with [] => TBLOCK_ABORT | _ => TBLOCK_SUBABORT end) ∧
      (parents s ≠ [] → live TBLOCK_INPROGRESS (parents s)) ∧
      wf_stack (stack s) ∧ savepoints (stack s) = sps ∧ committed_xid s = InvalidTransactionId
  end.

(** The first savepoint of that name. *)
Definition find_name (nm : string) (sps : list (option string)) : option nat :=
  fst <$> list_find (λ x, x = Some nm) sps.

(** The successful steps of the client's statements. *)
Inductive does : block → stmt → block → Prop :=
| does_begin : does Idle TRANS_STMT_BEGIN (Live [])
| does_begin_again sps : does (Live sps) TRANS_STMT_BEGIN (Live sps)
| does_commit a : does a TRANS_STMT_COMMIT Idle
| does_prepare a gid : does a (TRANS_STMT_PREPARE gid) Idle
| does_rollback a : does a TRANS_STMT_ROLLBACK Idle
| does_savepoint sps nm : does (Live sps) (TRANS_STMT_SAVEPOINT nm) (Live (Some nm :: sps))
| does_release sps nm i : find_name nm sps = Some i → does (Live sps) (TRANS_STMT_RELEASE nm) (Live (drop (S i) sps))
| does_rollback_to a sps nm i : a = Live sps ∨ a = Failed sps → find_name nm sps = Some i →
    does a (TRANS_STMT_ROLLBACK_TO nm) (Live (drop i sps))
| does_other_idle body : does Idle (OtherStmt body) Idle
| does_other sps body : does (Live sps) (OtherStmt body) (Live sps).

(** The states in which a statement that raises an error may leave the client: the block
    fails, or is over when the error is raised at its end; a savepoint that is being
    released or rolled back to is gone. *)
Inductive errs : block → stmt → block → Prop :=
| errs_idle q : errs Idle q Idle
| errs_live q sps : errs (Live sps) q (Failed sps)
| errs_failed q sps : errs (Failed sps) q (Failed sps)
| errs_exit a q : match q with TRANS_STMT_COMMIT | TRANS_STMT_PREPARE _ | TRANS_STMT_ROLLBACK => True | _ => False end →
    errs a q Idle
| errs_release sps nm i : find_name nm sps = Some i →
    errs (Live sps) (TRANS_STMT_RELEASE nm) (Failed (drop (S i) sps))
| errs_rollback_to a sps nm i : a = Live sps ∨ a = Failed sps → find_name nm sps = Some i →
    errs a (TRANS_STMT_ROLLBACK_TO nm) (Failed (drop (S i) sps)).

(** ** Aborting *)

(** The rest of the state that block states depend on. *)
Definition keeps_frame (t t' : TransactionStateData) : Prop :=
  transactionId t' = transactionId t ∧ name t' = name t ∧ savepointLevel t' = savepointLevel t ∧
  blockState t' = blockState t ∧ nestingLevel t' = nestingLevel t.

Section spec.
Context (oracle : nat → Reply) (standby : bool) (FireDeferred : X unit) (temprel : bool).

Lemma record_abort_wp isSub (Q : unit → Xact → Prop) E s :
  Q tt s → (∀ e, Q tt (with_event e s)) → xwp (RecordTransactionAbort isSub) Q E s.
Proof using.
  intros H1 H2. unfold RecordTransactionAbort. xsteps. destruct (TransactionIdIsValid _) eqn:Ev; [|done]. cbn [negb].
  unfold did_commit. destruct (Z.eqb_spec (committed_xid s) (transactionId (current s))) as [E0|_]; [|apply H2].
  unfold xwp, raise. intros E1. rewrite <- E0, E1 in Ev. done.
Qed.

Lemma abort_sub_wp (Q : unit → Xact → Prop) E s :
  (∀ s', parents s' = parents s → committed_xid s' = committed_xid s → keeps_frame (current s) (current s') →
     state (current s') = TRANS_ABORT → (childXids (current s') = childXids (current s) ∨ childXids (current s') = []) →
     Q tt s') → xwp AbortSubTransaction Q E s.
Proof using.
  intros HQ. unfold AbortSubTransaction. xsteps. destruct (has_owner _); [|xsteps; apply HQ; try done; by left].
  xsteps. apply record_abort_wp; [|intros e]; xsteps; (destruct (TransactionIdIsValid _); xsteps; apply HQ; try done; auto).
Qed.

Lemma cleanup_sub_wp (Q : unit → Xact → Prop) E s p ps :
  parents s = p :: ps →
  (∀ s', current s' = p → parents s' = ps → committed_xid s' = committed_xid s → Q tt s') →
  xwp CleanupSubTransaction Q E s.
Proof using.
  intros Hp HQ. unfold CleanupSubTransaction, PopTransaction. xsteps. cbn [with_stack parents]. rewrite Hp. xsteps.
  by apply HQ.
Qed.

Lemma abort_top_wp (Q : unit → Xact → Prop) E s :
  parents s = [] →
  (∀ s', parents s' = [] → committed_xid s' = committed_xid s → keeps_frame (current s) (current s') →
     childXids (current s') = childXids (current s) → state (current s') = TRANS_ABORT → Q tt s') →
  xwp AbortTransaction Q E s.
Proof using.
  intros Hp HQ. unfold AbortTransaction. xsteps. apply xwp_assert; [by apply bool_decide_true|]. xsteps.
  apply record_abort_wp; [|intros e]; by apply HQ.
Qed.

Lemma cleanup_top_wp (Q : unit → Xact → Prop) E s :
  state (current s) = TRANS_ABORT →
  Q tt (with_stack (clear_top (current s)) (parents s) s) → xwp CleanupTransaction Q E s.
Proof using.
  intros Hst HQ. unfold CleanupTransaction. xsteps. rewrite bool_decide_false by (by intros H; apply H).
  xsteps. done.
Qed.

(** *** What [AbortCurrentTransaction] makes of a stack *)

Definition pending (b : TBlockState) : Prop :=
  match b with
  | TBLOCK_SUBBEGIN | TBLOCK_SUBEND | TBLOCK_SUBABORT_PENDING | TBLOCK_SUBRESTART
  | TBLOCK_SUBABORT_END | TBLOCK_SUBABORT_RESTART => True
  | _ => False
  end.
Definition ending (t : TransactionStateData) : Prop :=
  match blockState t with
  | TBLOCK_DEFAULT => state t = TRANS_DEFAULT → transactionId t = InvalidTransactionId
  | TBLOCK_STARTED | TBLOCK_BEGIN | TBLOCK_END | TBLOCK_ABORT_PENDING | TBLOCK_PREPARE => True
  | TBLOCK_ABORT_END => state t = TRANS_ABORT
  | _ => False
  end.

Definition failed (l : list TransactionStateData) : Prop :=
  match l with
  | [] => False
  | t :: r => state t = TRANS_ABORT ∧
      blockState t = (match r with [] => TBLOCK_ABORT | _ => TBLOCK_SUBABORT end) ∧
      (r ≠ [] → live TBLOCK_INPROGRESS r)
  end.

Inductive doomed : list TransactionStateData → block → Prop :=
| dm_pop t p r a : pending (blockState t) → doomed (p :: r) a → doomed (t :: p :: r) a
| dm_top t : ending t → savepointLevel t = 0 → name t = None → doomed [t] Idle
| dm_live l : live TBLOCK_INPROGRESS l → wf_stack l → doomed l (Failed (savepoints l))
| dm_failed l : failed l → wf_stack l → doomed l (Failed (savepoints l)).

Lemma models_failed s : failed (stack s) → wf_stack (stack s) → committed_xid s = InvalidTransactionId →
  models s (Failed (savepoints (stack s))).
Proof using. intros (H1 & H2 & H3) Hwf Hc. unfold models. auto 10. Qed.

Lemma wf_keeps t t' r :
  keeps_frame t t' → (childXids t' = childXids t ∨ childXids t' = []) → wf_stack (t :: r) →
  wf_stack (t' :: r) ∧ savepoints (t' :: r) = savepoints (t :: r).
Proof using.
  intros (E1 & E2 & E3 & E4 & E5) Hch (W1 & W2 & W3 & W4 & W5). split.
  - cbn. rewrite E1, E3, E5. split; [done|]. split; [done|]. split; [|split; [|done]].
    + intros H. destruct Hch as [->| ->]; [by apply W3|done].
    + destruct r; [by rewrite E2|]. unfold has_xid. by rewrite E1.
  - destruct r; cbn; by rewrite ?E2.
Qed.

(** A live stack fails at its head. *)
Lemma fail_live s s' :
  live TBLOCK_INPROGRESS (stack s) → wf_stack (stack s) → parents s' = parents s →
  keeps_frame (current s) (current s') → (childXids (current s') = childXids (current s) ∨ childXids (current s') = []) →
  state (current s') = TRANS_ABORT →
  ∀ b, b = (match parents s with [] => TBLOCK_ABORT | _ => TBLOCK_SUBABORT end) →
  committed_xid s' = InvalidTransactionId →
  models (with_stack (set_block b (current s')) (parents s') s') (Failed (savepoints (stack s))).
Proof using.
  intros Hl Hw Hp Hk Hch Hst b -> Hc. destruct (wf_keeps _ _ _ Hk Hch Hw) as [Hw' Hs'].
  unfold models, stack. cbn [with_stack current parents committed_xid]. rewrite Hp. split; [done|]. split; [done|].
  split; [|split; [|split; [|done]]].
  - intros Hne. unfold stack in Hl. destruct (parents s); [done|]. apply Hl.
  - revert Hw'. cbn. by destruct (parents s).
  - unfold stack. rewrite <- Hs'. by destruct (parents s).
Qed.

Lemma idle_clear s :
  parents s = [] → savepointLevel (current s) = 0 → name (current s) = None →
  models (with_stack (set_block TBLOCK_DEFAULT (clear_top (current s))) (parents s) s) Idle.
Proof using. intros Hp Hl Hn. split; [done|]. done. Qed.

Lemma abort_cleanup_wp s (E : Xact → Prop) :
  parents s = [] → savepointLevel (current s) = 0 → name (current s) = None →
  xwp (_ ← AbortTransaction; _ ← CleanupTransaction; update (set_block TBLOCK_DEFAULT))
    (λ _ s', models s' Idle) E s.
Proof using.
  intros Hp Hl Hn. xsteps. apply abort_top_wp; [done|]. intros s1 Hp1 _ (_ & E2 & E3 & _) _ Hst.
  xsteps. apply cleanup_top_wp; [done|]. xsteps. split; [done|]. repeat split; cbn; congruence.
Qed.

Lemma live_block l b : live b l → match l with t :: _ =>
  blockState t = (match l with [_] => b | _ => TBLOCK_SUBINPROGRESS end) ∧ state t = TRANS_INPROGRESS | [] => False end.
Proof using. destruct l as [|t [|p r]]; [done|done|]. intros [H _]. exact H. Qed.

Lemma abort_current_spec fuel s a (E : Xact → Prop) :
  doomed (stack s) a → (a ≠ Idle → committed_xid s = InvalidTransactionId) → (length (parents s) < fuel)%nat →
  xwp (abort_current fuel) (λ _ s', models s' a) E s.
Proof using.
  intros Hd. remember (stack s) as l eqn:El. revert s El fuel.
  induction Hd as [t p r a Hpd Hd IH|t He Hl Hn|l Hl Hw|l Hf Hw]; intros s El fuel Hc Hlen;
    (destruct fuel as [|fuel]; [lia|]); cbn [abort_current]; xsteps.
  - injection El as -> Hps. assert (∀ s', parents s' = parents s → committed_xid s' = committed_xid s →
      xwp (_ ← CleanupSubTransaction; abort_current fuel) (λ _ s'', models s'' a) E s') as Hpop.
    { intros s' Hp' Hc'. xsteps. apply (cleanup_sub_wp _ _ _ p r); [congruence|]. intros s2 Hcur Hp2 Hc2.
      apply IH; [unfold stack; congruence|intros; rewrite Hc2, Hc'; by apply Hc|]. rewrite <- Hps in Hlen. cbn in Hlen.
      rewrite Hp2. lia. }
    assert (xwp (_ ← AbortSubTransaction; _ ← CleanupSubTransaction; abort_current fuel) (λ _ s'', models s'' a) E s) as Hab.
    { apply xwp_bind, abort_sub_wp. intros s' Hp' Hc' _ _ _. by apply Hpop. }
    change (id (current s)) with (current s). destruct (blockState (current s)); try done; by apply Hpop.
  - injection El as -> Hps. change (id (current s)) with (current s). unfold ending in He.
    destruct (blockState (current s)) eqn:Eb; try done; try (by apply abort_cleanup_wp).
    + destruct (bool_decide_reflect (state (current s) = TRANS_DEFAULT)) as [Ed|Ed].
      { xsteps. split; [done|]. repeat split; auto. }
      assert (∀ s1, parents s1 = [] → savepointLevel (current s1) = 0 → name (current s1) = None →
        blockState (current s1) = TBLOCK_DEFAULT →
        xwp (_ ← AbortTransaction; CleanupTransaction) (λ _ s', models s' Idle) E s1) as H.
      { intros s1 Hp1 Hl1 Hn1 Hb1. xsteps. apply abort_top_wp; [done|]. intros s2 Hp2 _ (_ & E2 & E3 & E4 & _) _ Hst.
        apply cleanup_top_wp; [done|]. split; [done|]. repeat split; cbn; congruence. }
      apply xwp_bind. destruct (bool_decide (state (current s) = TRANS_START)); xstep; by apply H.
    + xsteps. apply cleanup_top_wp; [done|]. xsteps. split; [done|]. repeat split; done.
  - subst l. pose proof (live_block _ _ Hl) as Hb. change (id (current s)) with (current s). cbn in Hb.
    destruct (parents s) as [|p r] eqn:Hps; destruct Hb as [-> Hst].
    + xsteps. apply abort_top_wp; [done|]. intros s1 Hp1 Hc1 Hk Hch Hab. xsteps.
      apply (fail_live s); try done; [congruence|by left|by rewrite Hps|rewrite Hc1; by apply Hc].
    + xsteps. apply abort_sub_wp. intros s1 Hp1 Hc1 Hk Hab Hch. xsteps.
      apply (fail_live s); try done; [by rewrite Hps|rewrite Hc1; by apply Hc].
  - subst l. change (id (current s)) with (current s). pose proof Hf as (_ & Hb & _).
    assert (models s (Failed (savepoints (stack s)))) as Hm by (apply models_failed; auto).
    destruct (parents s); rewrite Hb; by xsteps.
Qed.

Lemma abort_current_wp s a E :
  doomed (stack s) a → (a ≠ Idle → committed_xid s = InvalidTransactionId) →
  xwp AbortCurrentTransaction (λ _ s', models s' a) E s.
Proof using. intros Hd Hc. unfold AbortCurrentTransaction. xsteps. apply abort_current_spec; [done|done|lia]. Qed.

(** ** Code that runs inside a transaction *)

(** The stack is the same but for transaction ids. *)
Definition frame_ev (t t' : TransactionStateData) : Prop :=
  name t' = name t ∧ savepointLevel t' = savepointLevel t ∧ state t' = state t ∧
  blockState t' = blockState t ∧ nestingLevel t' = nestingLevel t.
Definition evolves (s s' : Xact) : Prop :=
  Forall2 frame_ev (stack s) (stack s') ∧ wf_stack (stack s') ∧ committed_xid s' = committed_xid s.
(** The same after an error, which may have been raised while an internal subtransaction
    was being started. *)
Definition err_evolves (s s' : Xact) : Prop :=
  evolves s s' ∨
  ∃ t r, stack s' = t :: r ∧ blockState t = TBLOCK_SUBBEGIN ∧ Forall2 frame_ev (stack s) r ∧ wf_stack r ∧
    committed_xid s' = committed_xid s.

Definition tame {A} (m : X A) : Prop :=
  ∀ b s, live b (stack s) → wf_stack (stack s) → xwp m (λ _ s', evolves s s') (λ s', err_evolves s s') s.

Lemma frame_ev_refl t : frame_ev t t.
Proof using. done. Qed.
Lemma frames_ev_refl l : Forall2 frame_ev l l.
Proof using. induction l; constructor; [apply frame_ev_refl|done]. Qed.
Lemma frames_ev_trans l1 l2 l3 : Forall2 frame_ev l1 l2 → Forall2 frame_ev l2 l3 → Forall2 frame_ev l1 l3.
Proof using.
  intros H. revert l3. induction H as [|t1 t2 l1 l2 Ht _ IH]; intros l3 H3; inversion H3 as [|? t3 ? l3' Ht' H3']; subst;
    constructor; [|by apply IH]. unfold frame_ev in *. intuition congruence.
Qed.
Lemma evolves_refl s : wf_stack (stack s) → evolves s s.
Proof using. intros H. split; [apply frames_ev_refl|done]. Qed.
Lemma evolves_trans s1 s2 s3 : evolves s1 s2 → evolves s2 s3 → evolves s1 s3.
Proof using.
  intros (A1 & A2 & A3) (B1 & B2 & B3). split; [by eapply frames_ev_trans|]. split; [done|congruence].
Qed.
Lemma evolves_err s1 s2 s3 : evolves s1 s2 → err_evolves s2 s3 → err_evolves s1 s3.
Proof using.
  intros H [H'|(t & r & E & Hb & Hf & Hw & Hc)]; [left; by eapply evolves_trans|right].
  destruct H as (A1 & A2 & A3). exists t, r. do 2 (split; [done|]). split; [by eapply frames_ev_trans|].
  split; [done|congruence].
Qed.

Lemma frames_ev_live b l l' : Forall2 frame_ev l l' → live b l → live b l'.
Proof using.
  intros H. induction H as [|t t' l l' (_ & _ & E3 & E4 & _) H IH]; [done|].
  destruct H as [|p p' l l' Hp H]; cbn; unfold sub_live; rewrite E3, E4; [done|]. intros [H1 H2]. split; [done|].
  by apply IH.
Qed.
Lemma frames_ev_savepoints l l' : Forall2 frame_ev l l' → savepoints l' = savepoints l.
Proof using.
  intros H. induction H as [|t t' l l' (E1 & _) H IH]; [done|].
  destruct H as [|p p' l l' Hp H]; [done|]. change (name t' :: savepoints (p' :: l') = name t :: savepoints (p :: l)).
  by rewrite E1, IH.
Qed.
Lemma evolves_live b s s' : evolves s s' → live b (stack s) → live b (stack s').
Proof using. intros [H _]. by apply frames_ev_live. Qed.

Lemma tame_ret {A} (a : A) : tame (mret a).
Proof using. intros b s _ Hw. xsteps. by apply evolves_refl. Qed.
Lemma tame_raise {A} e : tame (A := A) (raise ERROR e).
Proof using. intros b s _ Hw. xsteps. left. by apply evolves_refl. Qed.
Lemma tame_get : tame get.
Proof using. intros b s _ Hw. xsteps. by apply evolves_refl. Qed.
Lemma tame_bind {A B} (m : X A) (f : A → X B) : tame m → (∀ a, tame (f a)) → tame (m ≫= f).
Proof using.
  intros Hm Hf b s Hl Hw. apply xwp_bind. eapply xwp_mono; [by apply (Hm b)|cbv beta|done].
  intros a s1 H1. eapply xwp_mono; [apply (Hf a b); [by eapply evolves_live|apply H1]|cbv beta..].
  - intros a' s2 H2. by eapply evolves_trans.
  - intros s2 H2. by eapply evolves_err.
Qed.
(** Changes of the state apart from the stack. *)
Lemma tame_set f : (∀ s, stack (f s) = stack s ∧ committed_xid (f s) = committed_xid s) → tame (set f).
Proof using.
  intros Hf b s Hl Hw. xsteps. destruct (Hf s) as [E1 E2]. split; [rewrite E1; apply frames_ev_refl|].
  by rewrite E1.
Qed.
Lemma tame_external : tame (external oracle).
Proof using.
  intros b s Hl Hw. unfold xwp, external. destruct (fails _); [left|]; apply (evolves_refl s Hw).
Qed.
Lemma tame_commands_increment : tame (CommandCounterIncrement oracle).
Proof using.
  unfold CommandCounterIncrement. apply tame_bind; [apply tame_get|]. intros s.
  destruct (currentCommandIdUsed s); [|apply tame_ret]. cbv zeta.
  destruct (_ =? _); [apply tame_raise|]. apply tame_bind; [by apply tame_set|intros _; apply tame_external].
Qed.
Lemma tame_command_id used : tame (GetCurrentCommandId used).
Proof using.
  unfold GetCurrentCommandId. apply tame_bind; [apply tame_get|]. intros s. apply tame_bind.
  - destruct used; [by apply tame_set|apply tame_ret].
  - intros _. apply tame_ret.
Qed.

Lemma xwp_external (Q : unit → Xact → Prop) (E : Xact → Prop) s :
  Q tt (called s) → E (called s) → xwp (external oracle) Q E s.
Proof using. intros H1 H2. unfold xwp, external. by destruct (fails _). Qed.

(** *** Assignment of transaction ids *)

Lemma full_from_spec z : full_xid (full_from z) ∧ z ≤ full_from z ≤ z + 3.
Proof using.
  clear. unfold full_from, full_xid, TransactionIdIsNormal, FirstNormalTransactionId.
  pose proof (wrap_u_bound 32 z ltac:(lia)) as Hb. unfold is_uint in Hb.
  destruct (Z.ltb_spec (uint32_of z) 3) as [L|L]; [|split; lia].
  split; [|lia]. unfold wrap_u in *.
  replace (z + 3 - z mod 2 ^ 32) with (3 + (z / 2 ^ 32) * 2 ^ 32) by (pose proof (Z.div_mod z (2 ^ 32)); lia).
  rewrite Z.mod_add by lia. done.
Qed.

Lemma xwp_stack_get i t (Q : TransactionStateData → Xact → Prop) E s :
  stack s !! i = Some t → Q t s → xwp (stack_get i) Q E s.
Proof using. intros Hi HQ. unfold xwp, stack_get. change (current s :: parents s) with (stack s). by rewrite Hi. Qed.
Lemma xwp_stack_update i f (Q : unit → Xact → Prop) E s :
  (∀ s', stack s' = alter f i (stack s) → committed_xid s' = committed_xid s → Q tt s') →
  xwp (stack_update i f) Q E s.
Proof using. intros HQ. by destruct i as [|i]; apply HQ. Qed.
Lemma xwp_new_xid (Q : TransactionId → Xact → Prop) (E : Xact → Prop) s :
  E (called s) →
  (∀ x s', stack s' = stack s → committed_xid s' = committed_xid s → TransactionIdIsValid x = true → Q x s') →
  xwp (new_xid oracle) Q E s.
Proof using.
  intros HE HQ. unfold xwp, new_xid. destruct (fails (oracle (calls s))); [done|]. apply HQ; [done|done|].
  destruct (full_from_spec (last_xid s + 1 + Z.of_nat (skipped (oracle (calls s))))) as [Hf _].
  unfold full_xid, TransactionIdIsNormal, FirstNormalTransactionId in Hf. unfold TransactionIdIsValid, InvalidTransactionId.
  apply negb_true_iff, Z.eqb_neq. lia.
Qed.

Lemma wf_set_xid x l i :
  TransactionIdIsValid x = true → (∀ p, l !! S i = Some p → has_xid p) → wf_stack l →
  wf_stack (alter (set_xid x) i l) ∧ Forall2 frame_ev l (alter (set_xid x) i l).
Proof using.
  clear. intros Hx. revert i. induction l as [|t r IH]; intros i Hp Hw; [by destruct i|].
  destruct Hw as (W1 & W2 & W3 & W4 & W5). destruct i as [|i]; cbn [alter list_alter].
  - split; [|constructor; [done|apply frames_ev_refl]]. cbn. split; [done|]. split; [done|]. split; [by rewrite Hx|].
    split; [|done]. destruct r as [|p r]; [done|]. intros _. by apply Hp.
  - destruct (IH i) as [H1 H2]; [intros p Hl; by apply Hp|done|]. split; [|by constructor].
    change (list_alter (set_xid x) i r) with (alter (set_xid x) i r).
    assert (length (alter (set_xid x) i r) = length r) as El by apply length_alter.
    cbn [wf_stack length]. rewrite El. split; [done|]. split; [done|]. split; [done|]. split; [|done].
    destruct r as [|p r]; [done|]. destruct i as [|i]; [by intros _|exact W4].
Qed.

Lemma live_state b l i t : live b l → l !! i = Some t → state t = TRANS_INPROGRESS.
Proof using.
  clear. revert i. induction l as [|u r IH]; intros i Hl Hi; [done|].
  destruct r as [|p r]; [destruct i; [injection Hi as <-; apply Hl|done]|].
  destruct Hl as [Hu Hl]. destruct i; [injection Hi as <-; apply Hu|by eapply IH].
Qed.

(** The top-level transaction has an id if any element has. *)
Lemma wf_top_xid s i t :
  wf_stack (stack s) → stack s !! i = Some t → has_xid t →
  TransactionIdIsValid (GetTopTransactionIdIfAny s) = true.
Proof using.
  clear. unfold GetTopTransactionIdIfAny, stack. generalize (current s) (parents s). intros u ps. revert u i t.
  induction ps as [|p ps IH]; intros u i t Hw Hi Ht.
  { destruct i as [|i]; [|done]. by injection Hi as ->. }
  destruct Hw as (_ & _ & _ & W4 & W5). rewrite last_cons.
  replace (default u match last ps with Some y => Some y | None => Some p end)
    with (default p (last ps)) by (by destruct (last ps)).
  destruct i as [|i]; [injection Hi as ->|by apply (IH p i t)]. by apply (IH p 0%nat p); [|done|apply W4].
Qed.

(** What an assignment at level [i] does. *)
Definition assigned_at (i : nat) (s s' : Xact) : Prop :=
  evolves s s' ∧ (∀ j, (j < i)%nat → stack s' !! j = stack s !! j) ∧
  (∀ p, stack s' !! i = Some p → has_xid p).

Lemma assign_one_wp b i t s :
  live b (stack s) → wf_stack (stack s) → stack s !! i = Some t → TransactionIdIsValid (transactionId t) = false →
  (∀ p, stack s !! S i = Some p → has_xid p) →
  xwp (assign_one oracle standby i) (λ _ s', assigned_at i s s') (λ s', evolves s s') s.
Proof using.
  intros Hl Hw Hi Hv Hp. unfold assign_one. apply xwp_bind, (xwp_stack_get i t); [done|]. xsteps.
  apply xwp_assert; [by rewrite Hv|]. xsteps.
  apply xwp_assert; [by apply bool_decide_true, (live_state b (stack s) i)|]. apply xwp_bind, xwp_new_xid.
  { by apply (evolves_refl s). }
  intros x s1 E1 Ec1 Hc. destruct (wf_set_xid x (stack s) i Hc Hp Hw) as [Hw' Hev].
  assert (∀ s2, stack s2 = alter (set_xid x) i (stack s) → committed_xid s2 = committed_xid s →
    assigned_at i s s2) as Hdone.
  { intros s2 E2 Ec2. split; [split; [by rewrite E2|by rewrite E2]|]. rewrite E2. split.
    - intros j Hj. apply list_lookup_alter_ne. lia.
    - intros p. rewrite list_lookup_alter_eq, Hi. intros [= <-]. exact Hc. }
  apply xwp_bind, xwp_stack_update. intros s2 E2 Ec2. rewrite E1 in E2. rewrite Ec1 in Ec2.
  apply xwp_bind, xwp_external; [|by apply (Hdone (called s2))].
  destruct (_ && standby); [|by apply xwp_ret, Hdone]. xsteps. cbv zeta.
  destruct (_ <=? _); [|by xsteps; apply Hdone]. xsteps.
  apply xwp_assert; [|by xsteps; apply Hdone]. apply (wf_top_xid (called s2) i (set_xid x t)).
  - change (wf_stack (stack s2)). by rewrite E2.
  - change (stack s2 !! i = Some (set_xid x t)). by rewrite E2, list_lookup_alter_eq, Hi.
  - exact Hc.
Qed.

Lemma assign_parents_wp b ps : ∀ i s,
  drop i (stack s) = ps → live b (stack s) → wf_stack (stack s) →
  xwp (assign_parents oracle standby (unassigned_parents ps i)) (λ _ s', assigned_at i s s') (λ s', evolves s s') s.
Proof using.
  induction ps as [|t ps IH]; intros i s Hd Hl Hw; cbn [unassigned_parents].
  { xsteps. split; [by apply evolves_refl|]. split; [done|]. intros p Hp.
    apply lookup_lt_Some in Hp. assert (length (drop i (stack s)) = 0%nat) as E by (by rewrite Hd).
    rewrite length_drop in E. lia. }
  assert (stack s !! i = Some t ∧ drop (S i) (stack s) = ps) as [Hi Hd'].
  { split; [by rewrite <- (Nat.add_0_r i), <- lookup_drop, Hd|]. by rewrite <- Nat.add_1_r, <- drop_drop, Hd. }
  destruct (TransactionIdIsValid (transactionId t)) eqn:Ev.
  { xsteps. split; [by apply evolves_refl|]. split; [done|]. intros p Hp. rewrite Hi in Hp. by injection Hp as <-. }
  cbn [assign_parents]. apply xwp_bind. eapply xwp_mono; [by apply IH|cbv beta|done].
  intros _ s1 (He & Hlow & Hpar).
  eapply xwp_mono; [apply (assign_one_wp b i t); try done|cbv beta..].
  - by eapply evolves_live.
  - apply He.
  - by rewrite Hlow by lia.
  - intros _ s2 (He2 & Hlow2 & Hp2). split; [by eapply evolves_trans|]. split; [|done].
    intros j Hj. by rewrite Hlow2, Hlow by lia.
  - intros s2 He2. by eapply evolves_trans.
Qed.

Lemma tame_assign : ∀ b s, live b (stack s) → wf_stack (stack s) →
  TransactionIdIsValid (transactionId (current s)) = false →
  xwp (AssignTransactionId oracle standby) (λ _ s', assigned_at 0 s s') (λ s', evolves s s') s.
Proof using.
  intros b s Hl Hw Hv. unfold AssignTransactionId. xsteps. apply xwp_assert; [by rewrite Hv|]. xsteps.
  apply xwp_assert; [by apply bool_decide_true, (live_state b (stack s) 0)|]. xsteps.
  eapply xwp_mono; [by apply (assign_parents_wp b (parents s) 1 s)|cbv beta|done].
  intros _ s1 (He & Hlow & Hpar).
  eapply xwp_mono; [apply (assign_one_wp b 0 (current s)); try done|cbv beta..].
  - by eapply evolves_live.
  - apply He.
  - by rewrite Hlow by lia.
  - intros _ s2 (He2 & Hlow2 & Hp2). split; [by eapply evolves_trans|]. split; [lia|done].
  - intros s2 He2. by eapply evolves_trans.
Qed.

Lemma get_xid_wp b s :
  live b (stack s) → wf_stack (stack s) →
  xwp (GetCurrentTransactionId oracle standby) (λ x s', evolves s s' ∧ x = transactionId (current s') ∧ has_xid (current s'))
    (λ s', evolves s s') s.
Proof using.
  intros Hl Hw. unfold GetCurrentTransactionId. xsteps. destruct (TransactionIdIsValid _) eqn:Ev.
  - xsteps. split; [by apply evolves_refl|done].
  - eapply xwp_mono; [by apply (tame_assign b)|cbv beta|done]. intros _ s' (He & _ & Hx). xsteps.
    split; [done|]. split; [done|]. by apply Hx.
Qed.
Lemma tame_get_xid : tame (GetCurrentTransactionId oracle standby).
Proof using.
  intros b s Hl Hw. eapply xwp_mono; [by apply (get_xid_wp b)|by intros x s' []|]. intros s' He. by left.
Qed.

(** ** The commands *)

Context (HFire : tame FireDeferred).

Definition Err (a : block) (s : Xact) : Prop :=
  doomed (stack s) a ∧ (a ≠ Idle → committed_xid s = InvalidTransactionId).
Definition Ok (a : block) (_ : unit) (s : Xact) : Prop := models s a.

Lemma err_top s t : stack s = [t] → ending t → savepointLevel t = 0 → name t = None → Err Idle s.
Proof using. clear. intros E H1 H2 H3. split; [rewrite E; by apply dm_top|done]. Qed.

(** Within a command. *)
Definition active (s : Xact) (a : block) : Prop :=
  match a with
  | Idle => live TBLOCK_STARTED (stack s) ∧ wf_stack (stack s) ∧ parents s = [] ∧ committed_xid s = InvalidTransactionId
  | _ => models s a
  end.

Lemma start_command_wp s a :
  models s a → xwp (StartTransactionCommand oracle) (λ _ s', active s' a) (λ s', a = Idle ∧ Err Idle s') s.
Proof using.
  clear HFire. intros Hm. unfold StartTransactionCommand. xstep. xstep.
  destruct a as [|sps|sps].
  - destruct Hm as [Hp (Hb & Hst & Hx & Hl & Hn)]. rewrite Hb. unfold StartTransaction, reset_stack.
    assert (default (current s) (last (parents s)) = current s) as Etop by (by rewrite Hp).
    assert (∀ s1 t, stack s1 = [t] → blockState t = TBLOCK_DEFAULT → state t = TRANS_START → savepointLevel t = 0 →
      name t = None → Err Idle s1) as Herr.
    { intros s1 t E1 E2 E3 E4 E5. apply (err_top s1 t); try done. unfold ending. rewrite E2, E3. done. }
    xsteps. rewrite Etop. apply xwp_external; [|split; [done|by eapply Herr]]. xsteps.
    apply xwp_external; [|split; [done|by eapply Herr]]. xsteps. apply xwp_external; [|split; [done|by eapply Herr]]. xsteps. split; [done|]. split; [|done].
    cbn. split; [done|]. split; [done|]. done.
  - pose proof (live_block _ _ (proj1 Hm)) as Hb. cbn in Hb. destruct Hb as [Hb _].
    destruct (parents s); rewrite Hb; by xsteps.
  - pose proof Hm as (_ & H2 & _). rewrite H2. destruct (parents s); by xsteps.
Qed.

Definition end_block (b : TBlockState) : Prop :=
  match b with TBLOCK_STARTED | TBLOCK_END | TBLOCK_PREPARE => True | _ => False end.

Lemma end_block_ending t b : blockState t = b → end_block b → ending t.
Proof using. clear. intros E H. unfold ending. rewrite E. by destruct b. Qed.

(** The one element of a stack. *)
Lemma frames_ev_one s s' t :
  stack s = [t] → Forall2 frame_ev (stack s) (stack s') → ∃ t', stack s' = [t'] ∧ frame_ev t t'.
Proof using.
  clear. intros -> H. apply Forall2_cons_inv_l in H as (t' & l' & Ht & Hl & E).
  apply Forall2_nil_inv_l in Hl as ->. by exists t'.
Qed.

Lemma err_evolves_top b s s' :
  end_block b → parents s = [] → live b (stack s) → wf_stack (stack s) → err_evolves s s' → Err Idle s'.
Proof using.
  clear. intros Hb Hp Hl Hw He. assert (stack s = [current s]) as Es by (unfold stack; by rewrite Hp).
  rewrite Es in Hl, Hw. destruct Hl as [Hl _], Hw as (_ & W2 & _ & W4 & _).
  destruct He as [(Hf & _)|(t & r & Es' & Ht & Hf & _)].
  - destruct (frames_ev_one s s' (current s) Es Hf) as (t' & Es' & E1 & E2 & E3 & E4 & E5).
    apply (err_top s' t'); [done|by eapply end_block_ending; [rewrite E4|]|congruence..].
  - rewrite Es in Hf. apply Forall2_cons_inv_l in Hf as (t' & l' & (E1 & E2 & E3 & E4 & E5) & Hf' & ->).
    apply Forall2_nil_inv_l in Hf' as ->. split; [|done]. rewrite Es'. apply dm_pop; [by rewrite Ht|].
    apply dm_top; [by eapply end_block_ending; [rewrite E4|]|congruence..].
Qed.

Lemma commit_top_wp b s :
  end_block b → parents s = [] → live b (stack s) → wf_stack (stack s) →
  xwp (_ ← CommitTransaction oracle FireDeferred; update (set_block TBLOCK_DEFAULT)) (Ok Idle) (Err Idle) s.
Proof using HFire.
  intros Hb Hp Hl Hw. unfold CommitTransaction. xsteps. apply xwp_assert; [by apply bool_decide_true|]. xsteps.
  eapply xwp_mono; [by apply (HFire b)|cbv beta|intros s1 He; by eapply err_evolves_top].
  intros _ s1 (Hf & Hw1 & Hc1). assert (stack s = [current s]) as Es by (unfold stack; by rewrite Hp).
  pose proof Hl as Hl'. pose proof Hw as Hw'. rewrite Es in Hl', Hw'.
  destruct (frames_ev_one s s1 (current s) Es Hf) as (t & E1 & N1 & N2 & N3 & N4 & N5).
  injection E1 as Ecur Epar. destruct Hl' as [Hbl _], Hw' as (_ & W2 & _ & W4 & _).
  assert (∀ s2 t', stack s2 = [t'] → blockState t' = b → savepointLevel t' = 0 → name t' = None → Err Idle s2) as Herr.
  { intros s2 t' E2 B2 L2 M2. apply (err_top s2 t'); try done. by eapply end_block_ending. }
  apply xwp_bind, xwp_external; [|by eapply (Herr _ t); unfold stack; cbn; rewrite ?Ecur, ?Epar; [|congruence..]].
  xsteps. unfold RecordTransactionCommit. xsteps.
  assert (∀ s2, current s2 = set_state TRANS_COMMIT t → parents s2 = [] → Err Idle s2) as Herr2.
  { intros s2 E2 P2. apply (Herr s2 (set_state TRANS_COMMIT t)); [unfold stack; by rewrite E2, P2|cbn; congruence..]. }
  assert (∀ s2, current s2 = set_state TRANS_COMMIT t → parents s2 = [] →
    xwp (_ ← external oracle; update clear_top)
      (λ _ s', xwp (update (set_block TBLOCK_DEFAULT)) (Ok Idle) (Err Idle) s') (Err Idle) s2) as Hend.
  { intros s2 E2 P2. xsteps. apply xwp_external; [|by apply Herr2]. xsteps. split; [exact P2|].
    unfold idle_top. cbn. rewrite E2. cbn. repeat split; congruence. }
  apply xwp_external; [|apply Herr2; cbn; congruence].
  cbn [called with_stack current parents]. rewrite Ecur, Epar. unfold GetTopTransactionIdIfAny. cbn [with_stack parents last default called current].
  destruct (TransactionIdIsValid _) eqn:Ev.
  - do 3 xstep. by apply Hend.
  - apply xwp_assert; [|by apply Hend]. apply bool_decide_true.
    pose proof Hw1 as Hw2. unfold stack in Hw2. rewrite Ecur, Epar in Hw2. by apply Hw2.
Qed.

(** A stack of one element in block state [b]. *)
Definition one (b : TBlockState) (s : Xact) : Prop :=
  parents s = [] ∧ blockState (current s) = b ∧ savepointLevel (current s) = 0 ∧ name (current s) = None.

Lemma one_err b s : end_block b → one b s → Err Idle s.
Proof using.
  clear. intros Hb (H1 & H2 & H3 & H4). apply (err_top s (current s)); try done.
  - unfold stack. by rewrite H1.
  - by eapply end_block_ending.
Qed.

Lemma live_one b s : live b (stack s) → wf_stack (stack s) → parents s = [] → one b s.
Proof using.
  clear. unfold stack. intros Hl Hw Hp. rewrite Hp in Hl, Hw. destruct Hl as [Hl _], Hw as (_ & W2 & _ & W4 & _). done.
Qed.

Lemma evolves_one b s s' : evolves s s' → one b s → one b s'.
Proof using.
  clear. intros (Hf & _) (H1 & H2 & H3 & H4).
  destruct (frames_ev_one s s' (current s)) as (t & E & N1 & N2 & N3 & N4 & N5); [unfold stack; by rewrite H1|done|].
  injection E as E1 E2. unfold one. rewrite E1, E2. split; [done|]. split_and!; congruence.
Qed.

Lemma evolves_parents s s' : evolves s s' → parents s = [] → parents s' = [].
Proof using.
  clear. intros (Hf & _) Hp. destruct (frames_ev_one s s' (current s)) as (t & E & _); [unfold stack; by rewrite Hp|done|].
  by injection E.
Qed.

Lemma clear_idle b s : one b s →
  xwp (update clear_top) (λ _ s', xwp (update (set_block TBLOCK_DEFAULT)) (Ok Idle) (Err Idle) s') (Err Idle) s.
Proof using. clear. intros (H1 & H2 & H3 & H4). xsteps. split; [done|]. done. Qed.

Lemma prepare_top_wp s :
  parents s = [] → live TBLOCK_PREPARE (stack s) → wf_stack (stack s) →
  xwp (_ ← PrepareTransaction oracle standby FireDeferred temprel; update (set_block TBLOCK_DEFAULT))
    (Ok Idle) (Err Idle) s.
Proof using HFire.
  intros Hp Hl Hw. unfold PrepareTransaction. xstep. xstep.
  eapply xwp_mono; [by apply (get_xid_wp TBLOCK_PREPARE)|cbv beta|intros s1 He; apply (err_evolves_top TBLOCK_PREPARE s);
    [done|done|done|done|by left]].
  intros x s1 (He1 & _ & _). pose proof (evolves_live _ _ _ He1 Hl) as Hl1. pose proof (evolves_parents _ _ He1 Hp) as Hp1.
  pose proof He1 as (_ & Hw1 & _). xsteps. apply xwp_assert; [by apply bool_decide_true|]. xsteps.
  eapply xwp_mono; [by apply (HFire TBLOCK_PREPARE)|cbv beta|intros s2 He; by eapply (err_evolves_top TBLOCK_PREPARE)].
  intros _ s2 He2. pose proof (evolves_one _ _ _ He2 (live_one _ _ Hl1 Hw1 Hp1)) as H2.
  pose proof (λ s3, one_err TBLOCK_PREPARE s3 I) as Herr.
  xsteps. apply xwp_external; [|by apply Herr]. xsteps. destruct temprel; [xsteps; by apply Herr|]. xsteps.
  apply xwp_external; [|by apply Herr]. xsteps. apply xwp_external; [|by apply Herr]. xsteps.
  apply xwp_external; [|by apply Herr]. by apply (clear_idle TBLOCK_PREPARE).
Qed.

(** *** RELEASE and COMMIT *)

(** A stack whose first elements are to be committed. *)
Inductive ends : list TransactionStateData → block → Prop :=
| en_pop t p r a : blockState t = TBLOCK_SUBEND → ends (p :: r) a → ends (t :: p :: r) a
| en_live l : live TBLOCK_INPROGRESS l → ends l (Live (savepoints l))
| en_top t b : b = TBLOCK_END ∨ b = TBLOCK_PREPARE → live b [t] → ends [t] Idle.

Definition err_of (a : block) : block := match a with Idle => Idle | Live sps | Failed sps => Failed sps end.

Lemma ends_ev l l' a : Forall2 frame_ev l l' → ends l a → ends l' a.
Proof using.
  clear. intros Hf He. revert l' Hf. induction He as [t p r a Hb He IH|l Hl|t b Hb Hl]; intros l' Hf.
  - apply Forall2_cons_inv_l in Hf as (t' & l1 & (_ & _ & _ & Ht & _) & Hf & ->).
    pose proof Hf as Hf0. apply Forall2_cons_inv_l in Hf as (p' & r' & _ & _ & ->). apply en_pop; [congruence|by apply IH].
  - rewrite <- (frames_ev_savepoints l l' Hf). apply en_live. by eapply frames_ev_live.
  - apply Forall2_cons_inv_l in Hf as (t' & l1 & (_ & _ & E3 & E4 & _) & Hf & ->). apply Forall2_nil_inv_l in Hf as ->.
    apply (en_top t' b); [done|]. destruct Hl. split; congruence.
Qed.

Lemma ends_doomed l a : ends l a → wf_stack l → doomed l (err_of a).
Proof using.
  clear. intros He. induction He as [t p r a Hb He IH|l Hl|t b Hb Hl]; intros Hw.
  - apply dm_pop; [by rewrite Hb|]. apply IH. apply Hw.
  - by apply dm_live.
  - destruct Hl as [Hl _], Hw as (_ & W2 & _ & W4 & _). apply dm_top; [|done|done].
    apply (end_block_ending t b); [done|]. by destruct Hb as [-> | ->].
Qed.

(** States with the same stack. *)
Definition same_stack (s s' : Xact) : Prop := stack s' = stack s ∧ committed_xid s' = committed_xid s.

Lemma cci_wp s : xwp (CommandCounterIncrement oracle) (λ _ s', same_stack s s') (same_stack s) s.
Proof using.
  clear. unfold CommandCounterIncrement. xsteps. destruct (currentCommandIdUsed s); [|by xsteps]. cbv zeta.
  destruct (_ =? _); xsteps; [done|]. by apply xwp_external.
Qed.

(** The parent of a subtransaction takes over its ids. *)
Lemma wf_take_ids t p r xs :
  wf_stack (t :: p :: r) → has_xid t → wf_stack (set_children xs p :: r) ∧ frame_ev p (set_children xs p).
Proof using.
  clear. intros (_ & _ & _ & W4 & (V1 & V2 & V3 & V4 & V5)) Ht. split; [|done]. cbn.
  split; [done|]. split; [done|]. split; [|done]. intros E. specialize (W4 Ht). unfold has_xid in W4. congruence.
Qed.

Lemma commit_sub_wp s t p r :
  stack s = t :: p :: r → wf_stack (stack s) →
  xwp (CommitSubTransaction oracle)
    (λ _ s', ∃ p', stack s' = p' :: r ∧ frame_ev p p' ∧ wf_stack (p' :: r) ∧ committed_xid s' = committed_xid s)
    (λ s', ∃ t' p', stack s' = t' :: p' :: r ∧ blockState t' = blockState t ∧ frame_ev p p' ∧ wf_stack (p' :: r) ∧
       committed_xid s' = committed_xid s) s.
Proof using.
  clear. intros Es Hw. rewrite Es in Hw. pose proof Hw as (_ & _ & _ & _ & Hwp). injection Es as Ec Ep.
  unfold CommitSubTransaction. xsteps.
  set (s0 := with_stack (set_state TRANS_COMMIT (current s)) (parents s) s).
  assert (∀ s', same_stack s0 s' → ∃ t' p', stack s' = t' :: p' :: r ∧ blockState t' = blockState t ∧ frame_ev p p' ∧
    wf_stack (p' :: r) ∧ committed_xid s' = committed_xid s) as Herr.
  { intros s' [E1 E2]. exists (set_state TRANS_COMMIT t), p. rewrite E1, E2. unfold s0, stack. cbn. by rewrite Ec, Ep. }
  eapply xwp_mono; [apply cci_wp|cbv beta|exact Herr]. intros _ s1 [E1 E2]. unfold s0, stack in E1. cbn in E1, E2.
  injection E1 as Ec1 Ep1. rewrite Ec in Ec1. rewrite Ep in Ep1. xsteps.
  assert (∀ s' t' p', stack s' = t' :: p' :: r → frame_ev p p' → wf_stack (p' :: r) → committed_xid s' = committed_xid s →
    blockState t' = blockState t →
    xwp (_ ← external oracle; _ ← update (set_owner false); _ ← update (set_state TRANS_DEFAULT); PopTransaction)
      (λ _ s', ∃ p', stack s' = p' :: r ∧ frame_ev p p' ∧ wf_stack (p' :: r) ∧ committed_xid s' = committed_xid s)
      (λ s', ∃ t' p', stack s' = t' :: p' :: r ∧ blockState t' = blockState t ∧ frame_ev p p' ∧ wf_stack (p' :: r) ∧
         committed_xid s' = committed_xid s) s') as Hrest.
  { intros s' t' p' E' Hf Hw' Hc' Hb'. injection E' as Ec' Ep'. xsteps.
    apply xwp_external; [|exists t', p'; unfold stack; cbn; rewrite Ec', Ep'; done]. xsteps. unfold PopTransaction. xsteps.
    cbn. rewrite Ep'. xsteps. by exists p'. }
  rewrite Ec1. destruct (TransactionIdIsValid _) eqn:Ev.
  - unfold AtSubCommit_childXids. xsteps. rewrite Ep1. xsteps. apply xwp_external.
    + xstep. destruct (wf_take_ids t p r (childXids p ++ transactionId (current s1) :: childXids (current s1)) Hw Ev) as [H1 H2].
      eapply Hrest; [reflexivity|exact H2|exact H1|done|by rewrite Ec1].
    + exists (set_state TRANS_COMMIT t), p. unfold stack. cbn. rewrite Ec1, Ep1. done.
  - xstep. eapply (Hrest s1 (set_state TRANS_COMMIT t) p); try done. unfold stack. by rewrite Ec1, Ep1.
Qed.

Lemma ends_subend t r a : ends (t :: r) a → blockState t = TBLOCK_SUBEND → ∃ p r', r = p :: r' ∧ ends (p :: r') a.
Proof using.
  clear. intros He Hb. inversion He as [? p r' ? _ He'|? Hl|? b Hor Hl]; subst; [by exists p, r'|exfalso..].
  - apply live_block in Hl as [E _]. destruct r; congruence.
  - destruct Hl as [E _], Hor; congruence.
Qed.

(** A stack that [CommitTransactionCommand] has still to work on. *)
Definition ending_as (a : block) (s : Xact) : Prop :=
  ends (stack s) a ∧ wf_stack (stack s) ∧ committed_xid s = InvalidTransactionId.

Lemma ending_err a s : ending_as a s → Err (err_of a) s.
Proof using. clear. intros (H1 & H2 & H3). split; [by apply ends_doomed|done]. Qed.

Lemma subend_loop_wp fuel : ∀ s a,
  ending_as a s → blockState (current s) = TBLOCK_SUBEND → (length (parents s) ≤ fuel)%nat →
  xwp (subend_loop oracle fuel) (λ _ s', ending_as a s' ∧ blockState (current s') ≠ TBLOCK_SUBEND) (Err (err_of a)) s.
Proof using.
  clear HFire. induction fuel as [|fuel IH]; intros s a (He & Hw & Hc) Hb Hlen;
    destruct (ends_subend _ _ _ He Hb) as (p & r & Ep & He'); [by rewrite Ep in Hlen; cbn in Hlen; lia|].
  assert (stack s = current s :: p :: r) as Es by (unfold stack; by rewrite Ep).
  cbn [subend_loop]. apply xwp_bind. eapply xwp_mono; [by apply (commit_sub_wp s (current s) p r)|cbv beta..].
  - intros _ s1 (p' & E1 & Hf & Hw1 & Hc1). assert (ending_as a s1) as H1.
    { split; [|split; [by rewrite E1|congruence]]. rewrite E1. eapply ends_ev; [|exact He'].
      constructor; [done|apply frames_ev_refl]. }
    xsteps. destruct (bool_decide_reflect (blockState (current s1) = TBLOCK_SUBEND)) as [Eb|Eb]; [|by xsteps].
    apply IH; [done|done|]. injection E1 as _ ->. rewrite Ep in Hlen. cbn in Hlen. lia.
  - intros s1 (t' & p' & E1 & Hb1 & Hf & Hw1 & Hc1). split; [|congruence].
    rewrite E1. apply dm_pop; [by rewrite Hb1, Hb|]. apply ends_doomed; [|done]. eapply ends_ev; [|exact He'].
    constructor; [done|apply frames_ev_refl].
Qed.

(** What the rest of [CommitTransactionCommand] does when no subtransaction is left to commit. *)
Lemma ending_top a s : ending_as a s → blockState (current s) ≠ TBLOCK_SUBEND →
  (live TBLOCK_INPROGRESS (stack s) ∧ a = Live (savepoints (stack s))) ∨
  (∃ b, (b = TBLOCK_END ∨ b = TBLOCK_PREPARE) ∧ parents s = [] ∧ live b (stack s) ∧ blockState (current s) = b ∧ a = Idle).
Proof using.
  clear. intros (He & _) Hb. unfold stack in *. inversion He as [t p r' ? E _|l Hl|t b Hor Hl]; subst; [done|by left|right].
  exists b. split; [done|]. split; [done|]. split; [done|]. split; [apply Hl|done].
Qed.

Lemma commit_ends_wp s a :
  ending_as a s →
  xwp (CommitTransactionCommand oracle standby FireDeferred temprel) (Ok a) (Err (err_of a)) s.
Proof using HFire.
  intros Ha. unfold CommitTransactionCommand. xstep. xstep. cbn [commit_command]. xstep. xstep.
  destruct (decide (blockState (current s) = TBLOCK_SUBEND)) as [Eb|Eb].
  - rewrite Eb. xstep. xstep. apply xwp_bind. eapply xwp_mono; [by apply subend_loop_wp; [exact Ha|done|lia]|cbv beta|done].
    intros _ s1 [H1 N1]. xstep. xstep. pose proof H1 as (_ & Hw & Hc).
    destruct (ending_top _ _ H1 N1) as [(Hl & ->)|(b & Hor & Hp & Hl & Eb1 & ->)].
    + pose proof (live_block _ _ Hl) as Hb. cbn in Hb. assert (models s1 (Live (savepoints (stack s1)))) as Hm by done.
      destruct Hb as [Hb _]. rewrite Hb. destruct (parents s1); by xsteps.
    + destruct Hor as [-> | ->]; rewrite Eb1; apply xwp_bind, xwp_assert; try (by apply bool_decide_true).
      * by apply (commit_top_wp TBLOCK_END).
      * by apply prepare_top_wp.
  - pose proof Ha as (_ & Hw & Hc). destruct (ending_top _ _ Ha Eb) as [(Hl & ->)|(b & Hor & Hp & Hl & Eb1 & ->)].
    + pose proof (live_block _ _ Hl) as Hb. cbn in Hb. destruct Hb as [Hb _].
      assert (xwp (CommandCounterIncrement oracle) (Ok (Live (savepoints (stack s)))) (Err (Failed (savepoints (stack s)))) s) as H.
      { eapply xwp_mono; [apply cci_wp|cbv beta..].
        - intros a' s' [E1 E2]. unfold Ok, models. by rewrite E1, E2.
        - intros s' [E1 E2]. split; [rewrite E1; by apply dm_live|by rewrite E2]. }
      rewrite Hb. by destruct (parents s).
    + destruct Hor as [-> | ->]; rewrite Eb1; [by apply (commit_top_wp TBLOCK_END)|by apply prepare_top_wp].
Qed.

(** *** SAVEPOINT and ROLLBACK TO *)

(** A new element on a live stack. *)
Definition fresh_sub (t : TransactionStateData) (r : list TransactionStateData) (s : Xact) : Prop :=
  stack s = t :: r ∧ blockState t = TBLOCK_SUBBEGIN ∧ transactionId t = InvalidTransactionId ∧ childXids t = [] ∧
  nestingLevel t = Z.of_nat (S (length r)) ∧ savepointLevel t = 0 ∧
  live TBLOCK_INPROGRESS r ∧ wf_stack r ∧ committed_xid s = InvalidTransactionId.

Lemma fresh_err t r s : fresh_sub t r s → Err (Failed (savepoints r)) s.
Proof using.
  clear. intros (Es & Hb & Hx & Hch & Hn & Hlv & Hl & Hw & Hc). split; [|done]. rewrite Es.
  destruct r as [|p r]; [done|]. apply dm_pop; [by rewrite Hb|by apply dm_live].
Qed.

Lemma start_sub_wp s t r :
  fresh_sub t r s →
  xwp (_ ← StartSubTransaction oracle; update (set_block TBLOCK_SUBINPROGRESS))
    (Ok (Live (name t :: savepoints r))) (Err (Failed (savepoints r))) s.
Proof using.
  clear. intros Hfr. pose proof Hfr as (Es & Hb & Hx & Hch & Hn & Hlv & Hl & Hw & Hc). injection Es as Ec Ep.
  assert (∀ s' t', current s' = t' → parents s' = r → blockState t' = TBLOCK_SUBBEGIN → transactionId t' = InvalidTransactionId →
    childXids t' = [] → nestingLevel t' = nestingLevel t → savepointLevel t' = 0 → committed_xid s' = InvalidTransactionId →
    Err (Failed (savepoints r)) s') as Herr.
  { intros s' t' Ec' Ep' H1 H2 H3 H4 H5 H6. apply (fresh_err t'). unfold fresh_sub, stack. rewrite Ec', Ep'.
    repeat (split; [done || congruence|]). done. }
  unfold StartSubTransaction. xsteps. apply xwp_external; [|by eapply Herr; [reflexivity|..]; cbn; rewrite ?Ec].
  xsteps. apply xwp_external; [|by eapply Herr; [reflexivity|..]; cbn; rewrite ?Ec]. xsteps.
  apply xwp_external; [|by eapply Herr; [reflexivity|..]; cbn; rewrite ?Ec]. xsteps.
  unfold Ok, models, stack. cbn [with_stack called current parents committed_xid]. rewrite Ec, Ep.
  destruct r as [|p r]; [done|]. split; [done|]. split; [|done].
  cbn [wf_stack length set_block set_state set_owner]. cbn -[wf_stack length Z.of_nat]. rewrite Hx. split; [done|]. split; [done|].
  split; [done|]. split; [|exact Hw]. unfold has_xid. cbn. by rewrite Hx.
Qed.

Lemma push_wp s :
  live TBLOCK_INPROGRESS (stack s) → wf_stack (stack s) → committed_xid s = InvalidTransactionId →
  xwp PushTransaction (λ _ s', ∃ t, fresh_sub t (stack s) s') (λ s', s' = s) s.
Proof using.
  clear. intros Hl Hw Hc. unfold PushTransaction. xsteps. cbv zeta. destruct (_ =? _); xsteps; [done|].
  eexists. split; [reflexivity|]. cbn -[Z.of_nat wf_stack live]. do 3 (split; [done|]). pose proof Hw as (W1 & W2 & _).
  unfold stack in W1. cbn -[Z.of_nat] in W1. split; [rewrite W1; lia|]. done.
Qed.

Lemma live_in_block s : live TBLOCK_INPROGRESS (stack s) →
  blockState (current s) = (match parents s with [] => TBLOCK_INPROGRESS | _ => TBLOCK_SUBINPROGRESS end).
Proof using. clear. intros Hl. apply live_block in Hl as [H _]. cbn in H. by destruct (parents s). Qed.

Lemma restart_wp s nm :
  live TBLOCK_INPROGRESS (stack s) → wf_stack (stack s) → committed_xid s = InvalidTransactionId →
  xwp (restart_savepoint oracle nm 0) (Ok (Live (nm :: savepoints (stack s)))) (Err (Failed (savepoints (stack s)))) s.
Proof using.
  clear HFire. intros Hl Hw Hc. unfold restart_savepoint, DefineSavepoint. apply xwp_bind. xstep. xstep.
  assert (xwp PushTransaction (λ _ s', ∃ t, fresh_sub t (stack s) s') (Err (Failed (savepoints (stack s)))) s) as H.
  { eapply xwp_mono; [by apply push_wp|done|]. intros ? ->. split; [by apply dm_live|done]. }
  rewrite (live_in_block s Hl). destruct (parents s) as [|q qs]; xsteps; (eapply xwp_mono; [exact H|cbv beta|done]);
    intros _ s1 (t & Es & Hb & Hx & Hch & Hn & Hlv & Hr); do 5 xstep; injection Es as Ec Ep;
    (apply xwp_bind, xwp_assert; [by apply bool_decide_true; cbn; rewrite Ec|]);
    (eapply xwp_mono; [by eapply (start_sub_wp _ (set_level 0 (set_name nm t)) (stack s)); split; [unfold stack; cbn; rewrite Ec, Ep|]|done|done]).
Qed.

(** Stacks that ROLLBACK and ROLLBACK TO leave to [CommitTransactionCommand]: the state after
    success and after an error. *)
Inductive unwinds : list TransactionStateData → block → block → Prop :=
| uw_pop t p r a e : blockState t = TBLOCK_SUBABORT_PENDING ∨ blockState t = TBLOCK_SUBABORT_END →
    unwinds (p :: r) a e → unwinds (t :: p :: r) a e
| uw_top t : blockState t = TBLOCK_ABORT_PENDING ∨ (blockState t = TBLOCK_ABORT_END ∧ state t = TRANS_ABORT) →
    savepointLevel t = 0 → name t = None → unwinds [t] Idle Idle
| uw_restart t r : blockState t = TBLOCK_SUBRESTART ∨ blockState t = TBLOCK_SUBABORT_RESTART →
    live TBLOCK_INPROGRESS r → wf_stack r → savepointLevel t = 0 →
    unwinds (t :: r) (Live (name t :: savepoints r)) (Failed (savepoints r)).

Lemma unwinds_doomed l a e : unwinds l a e → doomed l e.
Proof using.
  clear. induction 1 as [t p r a e Hb H IH|t Hb Hl Hn|t r Hb Hl Hw].
  - apply dm_pop; [by destruct Hb as [-> | ->]|done].
  - apply dm_top; [|done|done]. unfold ending. by destruct Hb as [-> |[-> ?]].
  - destruct r as [|p r]; [done|]. apply dm_pop; [by destruct Hb as [-> | ->]|by apply dm_live].
Qed.

Lemma unwind_wp l a e : unwinds l a e → ∀ s fuel,
  stack s = l → (e ≠ Idle → committed_xid s = InvalidTransactionId) → (length (parents s) < fuel)%nat →
  xwp (commit_command oracle standby FireDeferred temprel fuel) (Ok a) (Err e) s.
Proof using.
  clear HFire. induction 1 as [t p r a e Hb H IH|t Hb Hl Hn|t r Hb Hl Hw Hlv]; intros s fuel Es Hc Hlen;
    (destruct fuel as [|fuel]; [lia|]); injection Es as Ec Ep; cbn [commit_command]; xstep; xstep; rewrite Ec.
  - assert (∀ s', parents s' = p :: r → committed_xid s' = committed_xid s →
      xwp (_ ← CleanupSubTransaction; commit_command oracle standby FireDeferred temprel fuel) (Ok a) (Err e) s') as Hpop.
    { intros s' Ep' Hc'. xstep. apply (cleanup_sub_wp _ _ _ p r); [done|]. intros s2 E1 E2 E3.
      apply IH; [unfold stack; congruence|intros Hne; rewrite E3, Hc'; by apply Hc|]. rewrite Ep in Hlen. cbn in Hlen.
      rewrite E2. lia. }
    destruct Hb as [-> | ->]; [|by apply Hpop]. apply xwp_bind, abort_sub_wp. intros s1 E1 E2 _ _ _.
    apply Hpop; congruence.
  - destruct Hb as [-> |[-> Hst]].
    + apply abort_cleanup_wp; congruence.
    + xstep. apply cleanup_top_wp; [congruence|]. xstep. split; [done|]. repeat split; cbn; congruence.
  - destruct r as [|p r]; [done|].
    assert (∀ s', parents s' = p :: r → committed_xid s' = committed_xid s →
      xwp (_ ← CleanupSubTransaction; restart_savepoint oracle (name t) (savepointLevel t))
        (Ok (Live (name t :: savepoints (p :: r)))) (Err (Failed (savepoints (p :: r)))) s') as Hpop.
    { intros s' Ep' Hc'. xstep. apply (cleanup_sub_wp _ _ _ p r); [done|]. intros s2 E1 E2 E3. rewrite Hlv.
      assert (stack s2 = p :: r) as E2' by (unfold stack; congruence). rewrite <- E2'.
      apply restart_wp; rewrite ?E2'; [done|done|]. rewrite E3, Hc'. by apply Hc. }
    destruct Hb as [-> | ->]; do 4 xstep; unfold id; rewrite Ec.
    + apply xwp_bind, abort_sub_wp. intros s1 E1 E2 _ _ _. apply Hpop; [by rewrite E1|by rewrite E2].
    + by apply Hpop.
Qed.

(** *** Marking the stack *)

(** The stack is the same but for block states. *)
Definition reblock (t t' : TransactionStateData) : Prop := ∃ b, t' = set_block b t.

Lemma reblock_wf l l' : Forall2 reblock l l' → wf_stack l → wf_stack l' ∧ savepoints l' = savepoints l.
Proof using.
  clear. induction 1 as [|t t' l l' [b ->] H IH]; [done|]. intros (W1 & W2 & W3 & W4 & W5).
  destruct (IH W5) as [Hw Hs]. pose proof (Forall2_length _ _ _ H) as El. split.
  - cbn [wf_stack length]. rewrite <- El. split; [done|]. split; [done|]. split; [done|]. split; [|done].
    destruct H as [|p p' l l' [b' ->] H]; done.
  - destruct H as [|p p' l l' [b' ->] H]; [done|]. change (savepoints (set_block b t :: ?l)) with (name t :: savepoints l).
    by rewrite Hs.
Qed.
Lemma reblock_refl l : Forall2 reblock l l.
Proof using. clear. induction l as [|t l IH]; constructor; [|done]. exists (blockState t). by destruct t. Qed.
Lemma reblock_cons b t l l' : Forall2 reblock l l' → Forall2 reblock (t :: l) (set_block b t :: l').
Proof using. clear. intros H. constructor; [by exists b|done]. Qed.

(** Subtransactions to be committed, and a top-level transaction in block state [b]. *)
Fixpoint closing (b : TBlockState) (l : list TransactionStateData) : Prop :=
  match l with
  | [] => False
  | [t] => blockState t = b ∧ state t = TRANS_INPROGRESS
  | t :: l => blockState t = TBLOCK_SUBEND ∧ closing b l
  end.

Lemma closing_ends b l : b = TBLOCK_END ∨ b = TBLOCK_PREPARE → closing b l → ends l Idle.
Proof using.
  clear. intros Hb. induction l as [|t [|p r] IH]; [done| |]; intros H.
  - by apply (en_top t b).
  - destruct H as [H1 H2]. apply en_pop; [done|by apply IH].
Qed.

Lemma closing_top b c t ps : closing b (t :: ps) →
  blockState (default t (last ps)) = b ∧ closing c (alter (set_block c) (length ps) (t :: ps)) ∧
  Forall2 reblock (t :: ps) (alter (set_block c) (length ps) (t :: ps)).
Proof using.
  clear. revert t. induction ps as [|p ps IH]; intros t H.
  - destruct H as [H1 H2]. split; [done|]. split; [done|]. apply (reblock_cons c t []). constructor.
  - destruct H as [H1 H2]. destruct (IH p H2) as (E1 & E2 & E3). split.
    { rewrite last_cons. by destruct (last ps). }
    change (alter (set_block c) (length (p :: ps)) (t :: p :: ps)) with (t :: alter (set_block c) (length ps) (p :: ps)).
    split; [|constructor; [exists (blockState t); by destruct t|done]].
    apply Forall2_cons_inv_l in E3 as (p' & l' & _ & _ & E3). rewrite E3 in *. done.
Qed.

Lemma mark_commit t ps : live TBLOCK_INPROGRESS (t :: ps) →
  ∃ t' ps', mark_stack sub_commit top_commit t ps = Some (t', ps') ∧ closing TBLOCK_END (t' :: ps') ∧
    Forall2 reblock (t :: ps) (t' :: ps').
Proof using.
  clear. revert t. induction ps as [|p ps IH]; intros t Hl; cbn [mark_stack].
  - destruct Hl as [-> Hs]. eexists _, _. split; [reflexivity|]. split; [done|]. apply reblock_cons. constructor.
  - destruct Hl as [[-> Hs] Hl]. destruct (IH p Hl) as (p' & ps' & E & Hc & Hf). cbn. rewrite E. cbn.
    eexists _, _. split; [reflexivity|]. split; [done|]. by apply reblock_cons.
Qed.

(** A live or a failed block. *)
Definition in_block (l : list TransactionStateData) : Prop := live TBLOCK_INPROGRESS l ∨ failed l.

Lemma mark_live_abort t ps : live TBLOCK_INPROGRESS (t :: ps) → wf_stack (t :: ps) →
  ∃ t' ps', mark_stack sub_abort top_abort t ps = Some (t', ps') ∧ unwinds (t' :: ps') Idle Idle.
Proof using.
  clear. revert t. induction ps as [|p ps IH]; intros t Hl Hw; cbn [mark_stack].
  - destruct Hl as [-> Hs], Hw as (_ & W2 & _ & W4 & _). eexists _, _. split; [reflexivity|]. apply uw_top; [by left|done|done].
  - destruct Hl as [[-> Hs] Hl], Hw as (_ & _ & _ & _ & Hw). destruct (IH p Hl Hw) as (p' & ps' & E & Hu). cbn. rewrite E. cbn.
    eexists _, _. split; [reflexivity|]. apply uw_pop; [by left|done].
Qed.

Lemma mark_abort t ps : in_block (t :: ps) → wf_stack (t :: ps) →
  ∃ t' ps', mark_stack sub_abort top_abort t ps = Some (t', ps') ∧ unwinds (t' :: ps') Idle Idle.
Proof using.
  clear. intros [Hl|(Hs & Hb & Hl)] Hw; [by apply mark_live_abort|]. destruct ps as [|p ps]; cbn [mark_stack]; rewrite Hb.
  - destruct Hw as (_ & W2 & _ & W4 & _). eexists _, _. split; [reflexivity|]. apply uw_top; [by right|done|done].
  - destruct Hw as (_ & _ & _ & _ & Hw). destruct (mark_live_abort p ps (Hl ltac:(done)) Hw) as (p' & ps' & E & Hu). cbn.
    rewrite E. cbn. eexists _, _. split; [reflexivity|]. apply uw_pop; [by right|done].
Qed.

Lemma xwp_mark sub top (Q : unit → Xact → Prop) E s t' ps' :
  mark_stack sub top (current s) (parents s) = Some (t', ps') → Q tt (with_stack t' ps' s) → xwp (mark sub top) Q E s.
Proof using. clear. intros H HQ. unfold xwp, mark. by rewrite H. Qed.

(** *** Finding savepoints *)

Lemma savepoints_cons t p r : savepoints (t :: p :: r) = name t :: savepoints (p :: r).
Proof using. done. Qed.

Lemma find_savepoint_name nm l : wf_stack l →
  match list_find (λ t, name t = Some nm) l with
  | Some (i, t) => find_name nm (savepoints l) = Some i ∧ l !! i = Some t ∧ name t = Some nm ∧ (S i < length l)%nat
  | None => find_name nm (savepoints l) = None
  end.
Proof using.
  clear. unfold find_name. induction l as [|t r IH]; [done|]. intros (_ & _ & _ & W4 & W5). specialize (IH W5).
  destruct r as [|p r].
  - cbn. by rewrite W4.
  - rewrite savepoints_cons. remember (p :: r) as q eqn:Eq. assert (0 < length q)%nat as Hq by (rewrite Eq; cbn; lia).
    clear Eq W4. cbn [list_find]. destruct (decide (name t = Some nm)) as [E|E].
    + cbn. split; [done|]. split; [done|]. split; [done|lia].
    + destruct (list_find (λ t, name t = Some nm) q) as [[i u]|] eqn:Ef.
      * destruct IH as (H1 & H2 & H3 & H4). cbn in *. split; [|split; [done|split; [done|lia]]].
        destruct (list_find (λ x, x = Some nm) _) as [[j y]|]; [|done]. cbn in *. by injection H1 as ->.
      * destruct (list_find (λ x, x = Some nm) _) as [[j y]|]; done.
Qed.

Lemma wf_level l i t : wf_stack l → l !! i = Some t → savepointLevel t = 0.
Proof using.
  clear. revert i. induction l as [|u r IH]; intros i Hw Hi; [done|]. destruct Hw as (_ & W2 & _ & _ & W5).
  destruct i; [by injection Hi as <-|by eapply IH].
Qed.

(** Replacing the element after a prefix. *)
Lemma alter_middle f (pre : list TransactionStateData) t r :
  alter f (length pre) (pre ++ t :: r) = (pre ++ [f t]) ++ r.
Proof using. clear. rewrite alter_app_r_alt by lia. rewrite Nat.sub_diag. by rewrite <- app_assoc. Qed.
Lemma lookup_middle (pre : list TransactionStateData) t r : (pre ++ t :: r) !! length pre = Some t.
Proof using. clear. by apply list_lookup_middle. Qed.

Lemma release_loop_wp n : ∀ s pre l,
  stack s = pre ++ l → live TBLOCK_INPROGRESS l → (S n < length l)%nat →
  xwp (release_loop n (length pre))
    (λ _ s', ∃ l', stack s' = pre ++ l' ∧ ends l' (Live (drop (S n) (savepoints l))) ∧ Forall2 reblock l l' ∧
       committed_xid s' = committed_xid s) (λ _, False) s.
Proof using.
  clear. induction n as [|n IH]; intros s pre l Es Hl Hlen; (destruct l as [|t [|p r]]; [done|cbn in Hlen; lia|]);
    destruct Hl as [[Hb Hst] Hl]; cbn [release_loop]; apply xwp_bind, (xwp_stack_get _ t);
    try (by rewrite Es; apply lookup_middle); apply xwp_bind, xwp_assert; try (by apply bool_decide_true);
    apply xwp_bind, xwp_stack_update; intros s1 E1 Hc1; rewrite Es, alter_middle in E1.
  - xsteps. exists (set_block TBLOCK_SUBEND t :: p :: r). rewrite E1, <- app_assoc. split; [done|].
    split; [apply en_pop; [done|]|split; [apply reblock_cons, reblock_refl|done]]. by apply en_live.
  - replace (S (length pre)) with (length (pre ++ [set_block TBLOCK_SUBEND t])) by (rewrite length_app; cbn; lia).
    eapply xwp_mono; [apply (IH s1 _ (p :: r)); [done|done|cbn in *; lia]|cbv beta|done].
    intros _ s2 (l' & E2 & He & Hf & Hc2). exists (set_block TBLOCK_SUBEND t :: l').
    split; [by rewrite E2, <- app_assoc|]. split; [|split; [by apply reblock_cons|congruence]].
    apply Forall2_cons_inv_l in Hf as (p' & r' & _ & _ & ->). by apply en_pop.
Qed.

(** The current element is live or failed, its ancestors are live. *)
Definition half_live (l : list TransactionStateData) : Prop :=
  match l with
  | [] => False
  | t :: r => (blockState t = TBLOCK_SUBINPROGRESS ∨ blockState t = TBLOCK_SUBABORT) ∧ live TBLOCK_INPROGRESS r
  end.
Lemma live_half l : live TBLOCK_INPROGRESS l → (1 < length l)%nat → half_live l.
Proof using. clear. destruct l as [|t [|p r]]; cbn [length]; [lia|lia|]. intros [[H _] Hl] _. split; [by left|done]. Qed.
Lemma failed_half l : failed l → (1 < length l)%nat → half_live l.
Proof using. clear. destruct l as [|t [|p r]]; cbn [length]; [lia|lia|]. intros (_ & H & Hl) _. split; [by right|by apply Hl]. Qed.

Lemma rollback_loop_wp n : ∀ s pre l t,
  stack s = pre ++ l → half_live l → wf_stack l → l !! n = Some t → (S n < length l)%nat →
  xwp (rollback_loop n (length pre))
    (λ _ s', ∃ l', stack s' = pre ++ l' ∧
       unwinds l' (Live (name t :: drop (S n) (savepoints l))) (Failed (drop (S n) (savepoints l))) ∧
       committed_xid s' = committed_xid s) (λ _, False) s.
Proof using.
  clear. induction n as [|n IH]; intros s pre l t Es Hl Hw Ht Hlen; (destruct l as [|u [|p r]]; [done|cbn in Hlen; lia|]);
    destruct Hl as [Hb Hl]; pose proof Hw as (_ & W2 & _ & _ & Hw'); cbn [rollback_loop]; apply xwp_bind, (xwp_stack_get _ u);
    try (by rewrite Es; apply lookup_middle).
  - injection Ht as ->. assert (∀ b s1, stack s1 = alter (set_block b) (length pre) (stack s) →
      b = TBLOCK_SUBRESTART ∨ b = TBLOCK_SUBABORT_RESTART → ∃ l', stack s1 = pre ++ l' ∧
       unwinds l' (Live (name t :: drop 1 (savepoints (t :: p :: r)))) (Failed (drop 1 (savepoints (t :: p :: r))))) as Hdone.
    { intros b s1 E1 Hor. exists (set_block b t :: p :: r). rewrite E1, Es, alter_middle, <- app_assoc. split; [done|].
      rewrite savepoints_cons. by apply (uw_restart (set_block b t)). }
    destruct Hb as [-> | ->]; apply xwp_stack_update; intros s1 E1 Hc1;
      (destruct (Hdone _ _ E1) as (l' & H1 & H2); [auto|by exists l']).
  - assert (∀ b, b = TBLOCK_SUBABORT_PENDING ∨ b = TBLOCK_SUBABORT_END →
      xwp (_ ← stack_update (length pre) (set_block b); rollback_loop n (S (length pre)))
       (λ _ s', ∃ l', stack s' = pre ++ l' ∧
         unwinds l' (Live (name t :: drop (S (S n)) (savepoints (u :: p :: r)))) (Failed (drop (S (S n)) (savepoints (u :: p :: r)))) ∧
         committed_xid s' = committed_xid s) (λ _, False) s) as Hstep.
    { intros b Hor. apply xwp_bind, xwp_stack_update. intros s1 E1 Hc1. rewrite Es, alter_middle in E1.
      replace (S (length pre)) with (length (pre ++ [set_block b u])) by (rewrite length_app; cbn; lia).
      eapply xwp_mono; [apply (IH s1 _ (p :: r) t); [done| |done|done|cbn in *; lia]|cbv beta|done].
      { apply live_half; [done|cbn in *; lia]. }
      intros _ s2 (l' & E2 & Hu & Hc2). exists (set_block b u :: l'). split; [by rewrite E2, <- app_assoc|].
      split; [|congruence]. rewrite savepoints_cons. destruct l' as [|p' r']; [by inversion Hu|]. by apply uw_pop. }
    destruct Hb as [-> | ->]; cbn [sub_abort]; apply Hstep; auto.
Qed.

(** *** Statements *)

(** [CommitTransactionCommand] will end in [a], and errors from here on in [e]. *)
Definition ready (a e : block) (s : Xact) : Prop :=
  Err e s ∧ ∀ s', same_stack s s' →
    xwp (CommitTransactionCommand oracle standby FireDeferred temprel) (Ok a) (Err e) s'.

Lemma ready_ends a s : ending_as a s → ready a (err_of a) s.
Proof using HFire.
  intros H. split; [by apply ending_err|]. intros s' [E1 E2]. apply commit_ends_wp. unfold ending_as. by rewrite E1, E2.
Qed.
Lemma ready_unwinds a e s : unwinds (stack s) a e → (e ≠ Idle → committed_xid s = InvalidTransactionId) → ready a e s.
Proof using.
  clear HFire. intros H Hc. split; [split; [by eapply unwinds_doomed|done]|]. intros s' [E1 E2].
  unfold CommitTransactionCommand. xstep. xstep. apply (unwind_wp (stack s) a e H); [done|by rewrite E2|lia].
Qed.
Lemma ready_fresh t r s : fresh_sub t r s → ready (Live (name t :: savepoints r)) (Failed (savepoints r)) s.
Proof using.
  clear HFire. intros H. split; [by eapply fresh_err|]. intros s' [E1 E2]. pose proof H as (Es & Hb & _).
  unfold CommitTransactionCommand. xstep. xstep. cbn [commit_command]. xstep. xstep.
  assert (blockState (current s') = TBLOCK_SUBBEGIN) as ->.
  { rewrite Es in E1. injection E1 as E1 _. by rewrite E1. }
  apply start_sub_wp. unfold fresh_sub in *. by rewrite E1, E2.
Qed.

Lemma same_stack_eq s s' : same_stack s s' → current s' = current s ∧ parents s' = parents s.
Proof using. clear. intros [E _]. by injection E. Qed.

Lemma ready_started s : live TBLOCK_STARTED (stack s) → wf_stack (stack s) → parents s = [] → ready Idle Idle s.
Proof using HFire.
  intros Hl Hw Hp. split; [eapply (one_err TBLOCK_STARTED); [done|by apply live_one]|]. intros s' Hs.
  destruct (same_stack_eq _ _ Hs) as [E1 E2], Hs as [E0 _].
  unfold CommitTransactionCommand. xstep. xstep. cbn [commit_command]. xstep. xstep. rewrite E1.
  pose proof (live_one _ _ Hl Hw Hp) as (_ & -> & _).
  apply (commit_top_wp TBLOCK_STARTED); [done|congruence|by rewrite E0|by rewrite E0].
Qed.

Lemma ready_begin s t :
  stack s = [t] → blockState t = TBLOCK_BEGIN → state t = TRANS_INPROGRESS → wf_stack [t] →
  committed_xid s = InvalidTransactionId → ready (Live []) Idle s.
Proof using.
  clear HFire. intros Es Hb Hst Hw Hc. split.
  { destruct Hw as (_ & W2 & _ & W4 & _). apply (err_top s t); [done| |done|done]. unfold ending. by rewrite Hb. }
  intros s' Hs. destruct (same_stack_eq _ _ Hs) as [E1 E2], Hs as [_ E3]. injection Es as Ec Ep.
  unfold CommitTransactionCommand. xstep. xstep. cbn [commit_command]. xstep. xstep. rewrite E1, Ec, Hb. xstep.
  unfold Ok, models, stack. cbn [with_stack current parents committed_xid]. rewrite E1, E2, Ec, Ep, E3. done.
Qed.

Definition ready_for (a : block) (q : stmt) (s : Xact) : Prop := ∃ a' e, does a q a' ∧ errs a q e ∧ ready a' e s.
Definition fails_as (a : block) (q : stmt) (s : Xact) : Prop := ∃ e, errs a q e ∧ Err e s.

Lemma errs_of a q : errs a q (err_of a).
Proof using. clear. destruct a; constructor. Qed.
Lemma active_err a s : active s a → Err (err_of a) s.
Proof using.
  clear. destruct a as [|sps|sps]; cbn [active err_of].
  - intros (Hl & Hw & Hp & _). eapply (one_err TBLOCK_STARTED); [done|by apply live_one].
  - intros (Hl & Hw & <- & Hc). split; [by apply dm_live|done].
  - intros (H1 & H2 & H3 & Hw & <- & Hc). split; [by apply dm_failed|done].
Qed.
Lemma fails_here a q s : active s a → fails_as a q s.
Proof using. clear. intros H. exists (err_of a). split; [apply errs_of|by apply active_err]. Qed.
Lemma ready_fails a q s : ready_for a q s → fails_as a q s.
Proof using. clear HFire. intros (a' & e & _ & He & Hr). exists e. split; [done|apply Hr]. Qed.

Lemma active_failed sps s : models s (Failed sps) → failed (stack s).
Proof using. clear. intros (H1 & H2 & H3 & _). done. Qed.

(** [EndTransactionBlock]: nothing to end, a block to commit or a failed one to roll back. *)
Definition block_ended (a : block) (s : Xact) (r : bool) (s' : Xact) : Prop :=
  if r then (a = Idle ∧ s' = s) ∨
            (a ≠ Idle ∧ closing TBLOCK_END (stack s') ∧ wf_stack (stack s') ∧ committed_xid s' = InvalidTransactionId)
  else unwinds (stack s') Idle Idle.

Lemma end_block_wp a s E : active s a → xwp EndTransactionBlock (block_ended a s) E s.
Proof using.
  clear. intros Ha. unfold EndTransactionBlock. xstep. xstep. destruct a as [|sps|sps].
  - destruct Ha as (Hl & Hw & Hp & _). pose proof (live_one _ _ Hl Hw Hp) as (_ & -> & _). xsteps. by left.
  - destruct Ha as (Hl & Hw & _ & Hc). rewrite (live_in_block s Hl). unfold stack in *.
    destruct (parents s) as [|p r] eqn:Ep.
    + do 3 xstep. right. split; [done|]. destruct Hl as [Hb Hst]. unfold stack. cbn [with_stack current parents]. rewrite Ep. done.
    + destruct (mark_commit _ _ Hl) as (t' & ps' & Em & Hcl & Hf). xstep. rewrite <- Ep in Em. apply (xwp_mark _ _ _ _ _ _ _ Em). xsteps.
      right. split; [done|]. split; [done|]. split; [|done]. by apply (reblock_wf _ _ Hf).
  - pose proof (active_failed _ _ Ha) as Hf. destruct Ha as (_ & Hb & _ & Hw & _). rewrite Hb. unfold stack in *.
    destruct (mark_abort _ _ (or_intror Hf) Hw) as (t' & ps' & Em & Hu).
    destruct (parents s) as [|p r] eqn:Ep.
    + do 3 xstep. cbn in Em. rewrite Hb in Em. cbn in Em. injection Em as <- <-. unfold block_ended, stack.
      cbn [with_stack current parents]. by rewrite Ep.
    + xstep. rewrite <- Ep in Em. apply (xwp_mark _ _ _ _ _ _ _ Em). by xsteps.
Qed.

Lemma closing_ready b a q s :
  b = TBLOCK_END ∨ b = TBLOCK_PREPARE → closing b (stack s) → wf_stack (stack s) → committed_xid s = InvalidTransactionId →
  does a q Idle → errs a q Idle → ready_for a q s.
Proof using HFire.
  intros Hb Hcl Hw Hc Hd He. exists Idle, Idle. do 2 (split; [done|]). apply (ready_ends Idle).
  split; [by eapply closing_ends|done].
Qed.
Lemma unwinds_ready a q s : unwinds (stack s) Idle Idle → does a q Idle → errs a q Idle → ready_for a q s.
Proof using. clear HFire. intros Hu Hd He. exists Idle, Idle. do 2 (split; [done|]). by apply ready_unwinds. Qed.
Lemma started_ready q s : active s Idle → does Idle q Idle → ready_for Idle q s.
Proof using HFire.
  intros (Hl & Hw & Hp & _) Hd. exists Idle, Idle. split; [done|]. split; [constructor|by apply ready_started].
Qed.

Lemma commit_stmt_wp a s :
  active s a → xwp EndTransactionBlock (λ _ s', ready_for a TRANS_STMT_COMMIT s') (λ _, False) s.
Proof using HFire.
  intros Ha. eapply xwp_mono; [by apply (end_block_wp a s (λ _, False))|cbv beta|done]. intros r s' H. unfold block_ended in H.
  destruct r; [destruct H as [[-> ->]|(Hne & Hcl & Hw & Hc)]|].
  - apply started_ready; [done|constructor].
  - apply (closing_ready TBLOCK_END); [by left|done|done|done|constructor|by constructor].
  - apply unwinds_ready; [done|constructor|by constructor].
Qed.

Lemma prepare_stmt_wp gid a s :
  active s a →
  xwp (PrepareTransactionBlock oracle gid) (λ _ s', ready_for a (TRANS_STMT_PREPARE gid) s')
    (fails_as a (TRANS_STMT_PREPARE gid)) s.
Proof using HFire.
  intros Ha. unfold PrepareTransactionBlock. xstep. eapply xwp_mono; [by apply (end_block_wp a s (λ _, False))|cbv beta|done].
  intros r s1 H. unfold block_ended in H. destruct r; [destruct H as [[-> ->]|(Hne & Hcl & Hw & Hc)]|].
  - xstep. xstep. pose proof Ha as (Hl & Hw & Hp & _). rewrite Hp. cbn [last default].
    pose proof (live_one _ _ Hl Hw Hp) as (_ & Hb & _). rewrite Hb. xstep. apply started_ready; [done|constructor].
  - xstep. xstep. destruct (closing_top _ TBLOCK_PREPARE _ _ Hcl) as (Etop & Hcl' & Hf). rewrite Etop. apply xwp_bind, xwp_external.
    + do 4 xstep. apply xwp_bind, xwp_stack_update. intros s2 E2 Hc2. xstep.
      apply (closing_ready TBLOCK_PREPARE); [by right| | |by rewrite Hc2|constructor|by constructor]; rewrite E2; [done|].
      by apply (reblock_wf _ _ Hf).
    + exists Idle. split; [by constructor|]. apply (ending_err Idle). split; [|done]. eapply closing_ends; [|exact Hcl]. by left.
  - xstep. apply unwinds_ready; [done|constructor|by constructor].
Qed.

Lemma rollback_stmt_wp a s :
  active s a → xwp UserAbortTransactionBlock (λ _ s', ready_for a TRANS_STMT_ROLLBACK s') (λ _, False) s.
Proof using.
  clear HFire. intros Ha. unfold UserAbortTransactionBlock. xstep. xstep.
  assert (∀ s', unwinds (stack s') Idle Idle → ready_for a TRANS_STMT_ROLLBACK s') as Hdone.
  { intros s' Hu. apply unwinds_ready; [done|constructor|by constructor]. }
  assert (a = Idle ∨ a ≠ Idle) as [-> |Hne] by (destruct a; auto).
  - destruct Ha as (Hl & Hw & Hp & _). pose proof (live_one _ _ Hl Hw Hp) as (_ & Hb & Hlv & Hn). rewrite Hb. xstep.
    apply Hdone. unfold stack. cbn [with_stack current parents]. rewrite Hp. apply uw_top; [by left|done|done].
  - assert (in_block (stack s) ∧ wf_stack (stack s)) as [Hin Hw].
    { destruct a; [done|by destruct Ha as (Hl & Hw & _); split; [left|]|].
      split; [right; by eapply active_failed|by destruct Ha as (_ & _ & _ & Hw & _)]. }
    destruct (mark_abort _ _ Hin Hw) as (t' & ps' & Em & Hu).
    assert (blockState (current s) = (match parents s with [] => TBLOCK_INPROGRESS | _ => TBLOCK_SUBINPROGRESS end) ∨
      blockState (current s) = (match parents s with [] => TBLOCK_ABORT | _ => TBLOCK_SUBABORT end)) as Hb.
    { destruct Hin as [Hl|Hf]; [left; by apply live_in_block|right; apply Hf]. }
    unfold stack in *. destruct (parents s) as [|p r] eqn:Ep.
    + cbn in Em. destruct Hb as [Hb|Hb]; rewrite Hb in *; cbn in Em; injection Em as <- <-; xstep; apply Hdone;
        unfold stack; cbn [with_stack current parents]; by rewrite Ep.
    + destruct Hb as [-> | ->]; rewrite <- Ep in Em; apply (xwp_mark _ _ _ _ _ _ _ Em); by apply Hdone.
Qed.

Lemma begin_stmt_wp a s :
  active s a → IsAbortedTransactionBlockState s = false →
  xwp BeginTransactionBlock (λ _ s', ready_for a TRANS_STMT_BEGIN s') (λ _, False) s.
Proof using HFire.
  intros Ha Hab. unfold BeginTransactionBlock. xstep. xstep. destruct a as [|sps|sps].
  - destruct Ha as (Hl & Hw & Hp & Hc). unfold stack in *. rewrite Hp in Hl, Hw. destruct Hl as [-> Hst]. xstep.
    exists (Live []), Idle. do 2 (split; [constructor|]). apply (ready_begin _ (set_block TBLOCK_BEGIN (current s))); [unfold stack; cbn; by rewrite Hp|done..].
  - pose proof Ha as (Hl & Hw & <- & Hc). assert (ready_for (Live (savepoints (stack s))) TRANS_STMT_BEGIN s) as Hr.
    { exists (Live (savepoints (stack s))), (Failed (savepoints (stack s))). do 2 (split; [constructor|]).
      apply (ready_ends (Live _)). split; [by apply en_live|done]. }
    rewrite (live_in_block s Hl). by destruct (parents s); xstep.
  - exfalso. unfold IsAbortedTransactionBlockState in Hab. destruct Ha as (_ & Hb & _). rewrite Hb in Hab.
    by destruct (parents s).
Qed.

(** Statements that need a transaction block. *)
Lemma chain_wp {A} (m : X A) a q s (Q : A → Xact → Prop) :
  active s a → (a ≠ Idle → xwp m Q (fails_as a q) s) →
  xwp (_ ← RequireTransactionChain true; m) Q (fails_as a q) s.
Proof using.
  clear HFire. intros Ha Hm. unfold RequireTransactionChain. do 3 xstep. unfold IsTransactionBlock, IsSubTransaction.
  destruct a as [|sps|sps].
  - pose proof Ha as (Hl & Hw & Hp & _). pose proof (live_one _ _ Hl Hw Hp) as (_ & -> & _).
    unfold stack in Hw. rewrite Hp in Hw. destruct Hw as (-> & _). change (false || (2 <=? Z.of_nat (length [current s])) || negb true)%bool with false. cbv iota. xstep. by apply fails_here.
  - pose proof Ha as (Hl & _). rewrite (live_in_block s Hl). destruct (parents s); cbn [orb]; xstep; by apply Hm.
  - pose proof Ha as (_ & Hb & _). rewrite Hb. destruct (parents s); cbn [orb]; xstep; by apply Hm.
Qed.

Lemma fresh_named t r nm s : fresh_sub t r s →
  fresh_sub (set_name nm t) r (with_stack (set_name nm (current s)) (parents s) s).
Proof using.
  clear. intros (Es & H). injection Es as -> Ep. split; [unfold stack; cbn; by rewrite Ep|done].
Qed.

Lemma savepoint_stmt_wp nm a s :
  active s a → a ≠ Idle → IsAbortedTransactionBlockState s = false →
  xwp (DefineSavepoint oracle (Some nm)) (λ _ s', ready_for a (TRANS_STMT_SAVEPOINT nm) s')
    (fails_as a (TRANS_STMT_SAVEPOINT nm)) s.
Proof using.
  clear HFire. intros Ha Hne Hab. unfold DefineSavepoint. xstep. xstep. destruct a as [|sps|sps]; [done| |].
  - pose proof Ha as (Hl & Hw & <- & Hc).
    assert (xwp (_ ← PushTransaction; _ ← external oracle; update (set_name (Some nm)))
      (λ _ s', ready_for (Live (savepoints (stack s))) (TRANS_STMT_SAVEPOINT nm) s')
      (fails_as (Live (savepoints (stack s))) (TRANS_STMT_SAVEPOINT nm)) s) as H.
    { xstep. eapply xwp_mono; [by apply push_wp|cbv beta|intros ? ->; by apply fails_here]. intros _ s1 (t & Hfr). xstep.
      apply xwp_external; [xstep|exists (Failed (savepoints (stack s))); split; [constructor|by apply (fresh_err t (stack s) s1)]].
      eexists _, _. split; [constructor|]. split; [constructor|]. exact (ready_fresh _ _ _ (fresh_named _ _ (Some nm) _ Hfr)). }
    rewrite (live_in_block s Hl). by destruct (parents s).
  - exfalso. unfold IsAbortedTransactionBlockState in Hab. destruct Ha as (_ & Hb & _). rewrite Hb in Hab.
    by destruct (parents s).
Qed.

Lemma release_stmt_wp nm a s :
  active s a → a ≠ Idle → IsAbortedTransactionBlockState s = false →
  xwp (ReleaseSavepoint nm) (λ _ s', ready_for a (TRANS_STMT_RELEASE nm) s') (fails_as a (TRANS_STMT_RELEASE nm)) s.
Proof using HFire.
  intros Ha Hne Hab. unfold ReleaseSavepoint. xstep. xstep. unfold no_such_savepoint. destruct a as [|sps|sps]; [done| |].
  - pose proof Ha as (Hl & Hw & <- & Hc). rewrite (live_in_block s Hl).
    destruct (parents s) as [|p r] eqn:Ep; [xstep; by apply fails_here|]. unfold find_savepoint.
    change (current s :: parents s) with (stack s). pose proof (find_savepoint_name nm _ Hw) as Hf.
    destruct (list_find _ (stack s)) as [[i t]|]; [|xstep; by apply fails_here]. destruct Hf as (Hf & Hi & Hn & Hlen).
    rewrite (wf_level _ _ _ Hw Hi), (wf_level _ 0 (current s) Hw eq_refl). cbn [negb Z.eqb].
    eapply xwp_mono; [by apply (release_loop_wp i s [] (stack s))|cbv beta|done].
    intros _ s1 (l' & E1 & He & Hre & Hc1). cbn [app] in E1. destruct (reblock_wf _ _ Hre Hw) as [Hw1 _].
    exists (Live (drop (S i) (savepoints (stack s)))), (Failed (drop (S i) (savepoints (stack s)))).
    split; [by constructor|]. split; [by constructor|]. apply (ready_ends (Live _)). unfold ending_as. rewrite E1, Hc1. done.
  - exfalso. unfold IsAbortedTransactionBlockState in Hab. destruct Ha as (_ & Hb & _). rewrite Hb in Hab.
    by destruct (parents s).
Qed.

Lemma rollback_to_stmt_wp nm a s :
  active s a → a ≠ Idle →
  xwp (RollbackToSavepoint nm) (λ _ s', ready_for a (TRANS_STMT_ROLLBACK_TO nm) s') (fails_as a (TRANS_STMT_ROLLBACK_TO nm)) s.
Proof using.
  clear HFire. intros Ha Hne.
  assert (∃ sps, (a = Live sps ∨ a = Failed sps) ∧ in_block (stack s) ∧ wf_stack (stack s) ∧ savepoints (stack s) = sps ∧
    committed_xid s = InvalidTransactionId) as (sps & Hor & Hin & Hw & <- & Hc).
  { destruct a as [|sps|sps]; [done| |]; exists sps.
    - destruct Ha as (Hl & Hw & Hs & Hc). split; [by left|]. split; [by left|done].
    - pose proof (active_failed _ _ Ha) as Hf. destruct Ha as (_ & _ & _ & Hw & Hs & Hc). split; [by right|]. split; [by right|done]. }
  assert (xwp match find_savepoint nm s with
      | None => no_such_savepoint
      | Some (i, target) =>
          if negb (savepointLevel target =? savepointLevel (current s)) then no_such_savepoint else rollback_loop i 0
      end (λ _ s', ready_for a (TRANS_STMT_ROLLBACK_TO nm) s') (fails_as a (TRANS_STMT_ROLLBACK_TO nm)) s) as H.
  { unfold find_savepoint, no_such_savepoint. change (current s :: parents s) with (stack s).
    pose proof (find_savepoint_name nm _ Hw) as Hf.
    destruct (list_find _ (stack s)) as [[i t]|]; [|xstep; by apply fails_here]. destruct Hf as (Hf & Hi & Hn & Hlen).
    rewrite (wf_level _ _ _ Hw Hi), (wf_level _ 0 (current s) Hw eq_refl). cbn [negb Z.eqb].
    eapply xwp_mono; [apply (rollback_loop_wp i s [] (stack s) t); try done|cbv beta|done].
    { destruct Hin; [apply live_half; [done|lia]|apply failed_half; [done|lia]]. }
    intros _ s1 (l' & E1 & Hu & Hc1). cbn [app] in E1.
    assert (name t :: drop (S i) (savepoints (stack s)) = drop i (savepoints (stack s))) as Ed.
    { unfold find_name in Hf. destruct (list_find _ (savepoints (stack s))) as [[j x]|] eqn:Efn; [|done].
      injection Hf as ->. apply list_find_Some in Efn as (Hj & -> & _). rewrite Hn. symmetry. by apply drop_S. }
    rewrite Ed in Hu. exists (Live (drop i (savepoints (stack s)))), (Failed (drop (S i) (savepoints (stack s)))).
    split; [by eapply does_rollback_to|]. split; [by eapply errs_rollback_to|].
    apply ready_unwinds; [by rewrite E1|intros _; by rewrite Hc1]. }
  unfold RollbackToSavepoint. xstep. xstep.
  destruct Hin as [Hl|(_ & Hb & _)]; [rewrite (live_in_block s Hl)|rewrite Hb]; (destruct (parents s);
    [unfold no_such_savepoint; xstep; by apply fails_here|exact H]).
Qed.

Definition tame_stmt (q : stmt) : Prop := match q with OtherStmt body => tame body | _ => True end.

Lemma err_evolves_live s s' :
  live TBLOCK_INPROGRESS (stack s) → committed_xid s = InvalidTransactionId → err_evolves s s' →
  Err (Failed (savepoints (stack s))) s'.
Proof using.
  clear. intros Hl Hc [(Hf & Hw & Hc')|(t & r & Es & Hb & Hf & Hw & Hc')]; (split; [|congruence]);
    rewrite <- (frames_ev_savepoints _ _ Hf); pose proof (frames_ev_live _ _ _ Hf Hl) as Hl'.
  - by apply dm_live.
  - rewrite Es. destruct r as [|p r]; [done|]. apply dm_pop; [by rewrite Hb|by apply dm_live].
Qed.

Lemma other_stmt_wp body a s :
  tame body → active s a → IsAbortedTransactionBlockState s = false →
  xwp body (λ _ s', ready_for a (OtherStmt body) s') (fails_as a (OtherStmt body)) s.
Proof using HFire.
  intros Hbody Ha Hab. destruct a as [|sps|sps].
  - pose proof Ha as (Hl & Hw & Hp & Hc). eapply xwp_mono; [by apply (Hbody TBLOCK_STARTED)|cbv beta..].
    + intros _ s' He. apply started_ready; [|constructor]. pose proof He as (_ & Hw' & Hc').
      split; [by eapply evolves_live|]. split; [done|]. split; [by eapply evolves_parents|congruence].
    + intros s' He. exists Idle. split; [constructor|by eapply (err_evolves_top TBLOCK_STARTED)].
  - pose proof Ha as (Hl & Hw & <- & Hc). eapply xwp_mono; [by apply (Hbody TBLOCK_INPROGRESS)|cbv beta..].
    + intros _ s' He. pose proof He as (Hf & Hw' & Hc'). eexists _, _. split; [constructor|]. split; [constructor|].
      rewrite <- (frames_ev_savepoints _ _ Hf). apply (ready_ends (Live _)).
      split; [apply en_live; by eapply evolves_live|]. split; [done|congruence].
    + intros s' He. eexists. split; [constructor|by apply err_evolves_live].
  - exfalso. unfold IsAbortedTransactionBlockState in Hab. destruct Ha as (_ & Hb & _). rewrite Hb in Hab.
    by destruct (parents s).
Qed.

Lemma utility_wp q a s :
  tame_stmt q → active s a → IsAbortedTransactionBlockState s && negb (IsTransactionExitStmt q) = false →
  xwp (ProcessUtility oracle q) (λ _ s', ready_for a q s') (fails_as a q) s.
Proof using HFire.
  intros Hq Ha Hab. destruct q as [| |gid| |nm|nm|nm|body]; cbn [ProcessUtility IsTransactionExitStmt negb] in *;
    rewrite ?andb_true_r in Hab.
  - xstep. eapply xwp_mono; [by apply begin_stmt_wp|cbv beta|done]. intros _ s1 Hr.
    apply xwp_external; [|by apply ready_fails in Hr]. destruct Hr as (a' & e & Hd & He & [Herr Hc]).
    exists a', e. split; [done|]. split; [done|]. split; [done|]. intros s' Hs. by apply Hc.
  - xstep. eapply xwp_mono; [by apply commit_stmt_wp|cbv beta|done]. intros r s1 Hr. by xstep.
  - xstep. eapply xwp_mono; [by apply prepare_stmt_wp|cbv beta|done]. intros r s1 Hr. by xstep.
  - eapply xwp_mono; [by apply rollback_stmt_wp|done|done].
  - apply chain_wp; [done|]. intros Hne. by apply savepoint_stmt_wp.
  - apply chain_wp; [done|]. intros Hne. by apply release_stmt_wp.
  - apply chain_wp; [done|]. intros Hne. by apply rollback_to_stmt_wp.
  - by apply other_stmt_wp.
Qed.

Lemma exec_wp q a s :
  tame_stmt q → models s a →
  xwp (exec_simple_query oracle standby FireDeferred temprel q)
    (λ _ s', ∃ a', does a q a' ∧ models s' a') (fails_as a q) s.
Proof using HFire.
  intros Hq Hm. unfold exec_simple_query. apply xwp_bind. eapply xwp_mono; [by apply start_command_wp|cbv beta|].
  2: { intros s' [-> He]. exists Idle. split; [constructor|done]. }
  intros _ s1 Ha. xstep. xstep. destruct (_ && _) eqn:Eab; [xstep; by apply fails_here|].
  apply xwp_bind, xwp_external; [|by apply (fails_here a q s1)].
  assert (active (called s1) a) as Ha1 by (by destruct a).
  apply xwp_bind. eapply xwp_mono; [by apply (utility_wp q a)|cbv beta|done].
  intros _ s2 (a' & e & Hd & He & [Herr Hc]). apply xwp_bind, xwp_external; [|by exists e].
  eapply xwp_mono; [by apply Hc|cbv beta..].
  - intros u s3 H3. by exists a'.
  - intros s3 H3. by exists e.
Qed.

(** The client's view of the state. *)
Definition status_code (a : block) : ascii := (match a with Idle => "I" | Live _ => "T" | Failed _ => "E" end)%char.

Lemma models_status s a : models s a → TransactionBlockStatusCode s = status_code a.
Proof using.
  clear. unfold TransactionBlockStatusCode. destruct a as [|sps|sps].
  - intros (_ & -> & _). done.
  - intros (Hl & _). rewrite (live_in_block s Hl). by destruct (parents s).
  - intros (_ & -> & _). by destruct (parents s).
Qed.

(** Statements that must not run in a block are refused exactly where [IsInTransactionChain]
    says so, and never meet an unexpected state. *)
Lemma PreventTransactionChain_chain top s :
  PreventTransactionChain top s =
    if IsInTransactionChain top s then Raise ERROR ERRCODE_ACTIVE_SQL_TRANSACTION s else Val tt s.
Proof using.
  clear. unfold PreventTransactionChain, IsInTransactionChain, not_in_chain, IsTransactionBlock, mbind, X_bind, get.
  destruct (blockState (current s)); cbn [orb negb]; try done; by destruct (IsSubTransaction s), top.
Qed.

End spec.

(** ** The end of a session *)

Definition sub_block (b : TBlockState) : Prop :=
  match b with
  | TBLOCK_SUBBEGIN | TBLOCK_SUBINPROGRESS | TBLOCK_SUBEND | TBLOCK_SUBABORT | TBLOCK_SUBABORT_END
  | TBLOCK_SUBABORT_PENDING | TBLOCK_SUBRESTART | TBLOCK_SUBABORT_RESTART => True
  | _ => False
  end.
Definition top_block (t : TransactionStateData) : Prop :=
  match blockState t with
  | TBLOCK_DEFAULT => state t = TRANS_DEFAULT → transactionId t = InvalidTransactionId
  | TBLOCK_ABORT | TBLOCK_ABORT_END => state t = TRANS_ABORT
  | b => ¬ sub_block b
  end ∧ savepointLevel t = 0 ∧ name t = None.
(** Any stack of subtransactions over a top-level transaction, in the middle of any command. *)
Fixpoint stack_shape (l : list TransactionStateData) : Prop :=
  match l with
  | [] => False
  | [t] => top_block t
  | t :: (p :: _) as r => sub_block (blockState t) ∧ blockState p ≠ TBLOCK_DEFAULT ∧ stack_shape r
  end.

Lemma abort_out_top s E : stack_shape (stack s) → parents s = [] → ∀ fuel,
  xwp (abort_out_loop (S fuel)) (λ _ s', models s' Idle) E s.
Proof.
  unfold stack. intros Hs Hp fuel. rewrite Hp in Hs. destruct Hs as (Hb & Hl & Hn). cbn [abort_out_loop]. xstep. xstep.
  unfold id. assert (∀ s', models s' Idle → xwp (b ← cur blockState;
    if bool_decide (b = TBLOCK_DEFAULT) then mret tt else abort_out_loop fuel) (λ _ s', models s' Idle) E s') as Hend.
  { intros s' H. xstep. xstep. rewrite bool_decide_true by apply H. by xstep. }
  assert (xwp (_ ← AbortTransaction; _ ← CleanupTransaction; update (set_block TBLOCK_DEFAULT)) (λ _ s',
    xwp (b ← cur blockState; if bool_decide (b = TBLOCK_DEFAULT) then mret tt else abort_out_loop fuel)
      (λ _ s', models s' Idle) E s') E s) as Hab.
  { eapply xwp_mono; [by apply (abort_cleanup_wp s E)|cbv beta|done]. intros _ s'. apply Hend. }
  apply xwp_bind. destruct (blockState (current s)) eqn:Eb; try done; try (exfalso; by apply Hb).
  - destruct (bool_decide_reflect (state (current s) = TRANS_DEFAULT)) as [Ed|Ed].
    { xstep. apply Hend. split; [done|]. repeat split; auto. }
    assert (∀ s1, parents s1 = [] → savepointLevel (current s1) = 0 → name (current s1) = None →
      blockState (current s1) = TBLOCK_DEFAULT → xwp (_ ← AbortTransaction; CleanupTransaction) (λ _ s', models s' Idle) E s1) as H.
    { intros s1 Hp1 Hl1 Hn1 Hb1. xstep. apply abort_top_wp; [done|]. intros s2 Hp2 _ (_ & E2 & E3 & E4 & _) _ Hst.
      apply cleanup_top_wp; [done|]. split; [done|]. repeat split; cbn; congruence. }
    eapply xwp_mono; [|intros u s'; apply Hend|done]. apply xwp_bind.
    destruct (bool_decide (state (current s) = TRANS_START)); xstep; by apply H.
  - xstep. apply cleanup_top_wp; [done|]. xstep. apply Hend. split; [done|]. repeat split; done.
  - xstep. apply cleanup_top_wp; [done|]. xstep. apply Hend. split; [done|]. repeat split; done.
Qed.

Lemma abort_out_wp E fuel : ∀ s,
  stack_shape (stack s) → (length (parents s) < fuel)%nat → xwp (abort_out_loop fuel) (λ _ s', models s' Idle) E s.
Proof.
  induction fuel as [|fuel IH]; intros s Hs Hlen; [lia|].
  destruct (parents s) as [|p r] eqn:Ep; [by apply abort_out_top|]. unfold stack in Hs. rewrite Ep in Hs.
  destruct Hs as (Hb & Hnd & Hs). cbn [abort_out_loop]. xstep. xstep. unfold id. apply xwp_bind.
  assert (∀ s1, parents s1 = p :: r → xwp CleanupSubTransaction (λ _ s', xwp (b ← cur blockState;
    if bool_decide (b = TBLOCK_DEFAULT) then mret tt else abort_out_loop fuel) (λ _ s', models s' Idle) E s') E s1) as Hpop.
  { intros s1 Ep1. apply (cleanup_sub_wp _ _ _ p r); [done|]. intros s2 E1 E2 _. xstep. xstep.
    rewrite E1, bool_decide_false by done. apply IH; [unfold stack; by rewrite E1, E2|]. rewrite E2. cbn in Hlen. lia. }
  assert (xwp (_ ← AbortSubTransaction; CleanupSubTransaction) (λ _ s', xwp (b ← cur blockState;
    if bool_decide (b = TBLOCK_DEFAULT) then mret tt else abort_out_loop fuel) (λ _ s', models s' Idle) E s') E s) as Hab.
  { apply xwp_bind, abort_sub_wp. intros s1 E1 _ _ _ _. apply Hpop. congruence. }
  destruct (blockState (current s)); try done; by apply Hpop.
Qed.

Lemma models_parents s : models s Idle → parents s = [].
Proof. by intros []. Qed.


(** ** Whose id? *)

(** The ids of counters in increasing order, within one window. *)
Definition ordered_ids (xs : list TransactionId) : Prop :=
  ∃ base cs, xs = uint32_of <$> cs ∧ Forall (window base) cs ∧
    ∀ i j a b, (i < j)%nat → cs !! i = Some a → cs !! j = Some b → a < b.

(** The ids of the transaction, its live subtransactions and their committed children. *)
Definition live_ids (l : list TransactionStateData) : list TransactionId :=
  l ≫= λ t, if bool_decide (state t = TRANS_ABORT) || negb (TransactionIdIsValid (transactionId t)) then []
            else transactionId t :: childXids t.

Lemma ordered_precedes xs i j a b :
  ordered_ids xs → xs !! i = Some a → xs !! j = Some b → TransactionIdPrecedes a b = bool_decide (i < j)%nat.
Proof.
  intros (base & cs & -> & Hw & Hs) Ha Hb. apply list_lookup_fmap_Some in Ha as (ca & -> & Hca).
  apply list_lookup_fmap_Some in Hb as (cb & -> & Hcb).
  pose proof (Forall_lookup_1 _ _ _ _ Hw Hca) as Wa. pose proof (Forall_lookup_1 _ _ _ _ Hw Hcb) as Wb.
  rewrite full_precedes; [|apply Wa|apply Wb|by eapply window_near].
  destruct (lt_eq_lt_dec i j) as [[L|E]|L].
  - rewrite bool_decide_true by done. apply Z.ltb_lt. eauto.
  - subst. rewrite bool_decide_false by lia. apply Z.ltb_ge. simplify_eq. lia.
  - rewrite bool_decide_false by lia. apply Z.ltb_ge. pose proof (Hs _ _ _ _ L Hcb Hca). lia.
Qed.

Lemma child_search_spec xs x fuel : ∀ low high,
  ordered_ids xs → 0 ≤ low ≤ high + 1 → high < Z.of_nat (length xs) → high - low + 1 < Z.of_nat fuel →
  (∀ i, xs !! i = Some x → low ≤ Z.of_nat i ≤ high) →
  child_search fuel xs x low high = Ret (bool_decide (x ∈ xs)).
Proof.
  induction fuel as [|fuel IH]; intros low high Ho Hlow Hhigh Hfuel Hin; cbn [child_search];
    destruct (Z.leb_spec low high) as [L|L].
  - lia.
  - lia.
  - cbv zeta. set (m := low + Z.quot (high - low) 2). assert (low ≤ m ≤ high) as Hm.
    { unfold m. rewrite Z.quot_div_nonneg by lia. pose proof (Z.div_pos (high - low) 2). pose proof (Z.div_le_upper_bound (high - low) 2 (high - low)). lia. }
    destruct (arr_get_lt xs m) as (probe & -> & Hp); [lia|]. cbn [mbind outcome_bind]. unfold TransactionIdEquals.
    destruct (Z.eqb_spec probe x) as [-> |Hne].
    { rewrite bool_decide_true; [done|]. by eapply list_elem_of_lookup_2. }
    assert (∀ i, xs !! i = Some x → TransactionIdPrecedes probe x = bool_decide (Z.to_nat m < i)%nat ∧ i ≠ Z.to_nat m) as Hi.
    { intros i Hi. split; [by eapply ordered_precedes|]. intros ->. congruence. }
    destruct (TransactionIdPrecedes probe x); apply IH; try done; try lia; intros i Hx; destruct (Hi i Hx) as [Hd Hn];
      specialize (Hin i Hx).
    + symmetry in Hd. apply bool_decide_eq_true in Hd. lia.
    + symmetry in Hd. apply bool_decide_eq_false in Hd. lia.
  - rewrite bool_decide_false; [done|]. intros Hx. apply list_elem_of_lookup in Hx as [i Hi]. specialize (Hin i Hi). lia.
Qed.

Lemma current_loop_spec x l :
  Forall (λ t, ordered_ids (childXids t)) l → current_loop l x = Ret (bool_decide (x ∈ live_ids l)).
Proof.
  induction 1 as [|t l Ho _ IH]; [done|]. cbn [current_loop live_ids mbind list_bind]. fold (live_ids l).
  destruct (bool_decide (state t = TRANS_ABORT)); [done|]. destruct (negb _); [done|]. cbn [orb]. unfold TransactionIdEquals.
  destruct (Z.eqb_spec x (transactionId t)) as [-> |Hne].
  { rewrite bool_decide_true; [done|]. apply list_elem_of_here. }
  rewrite child_search_spec; [|done|lia|lia|lia|].
  2: { intros i Hi. apply lookup_lt_Some in Hi. lia. }
  cbn [mbind outcome_bind].
  destruct (bool_decide_reflect (x ∈ childXids t)) as [Hc|Hc].
  - rewrite bool_decide_true; [done|]. apply list_elem_of_further, elem_of_app. by left.
  - rewrite IH. f_equal. apply bool_decide_ext. rewrite elem_of_app, elem_of_cons. naive_solver.
Qed.

(** [TransactionIdIsCurrentTransactionId] decides, by binary search in arrays that hold the
    ids of committed children in the order of the unbounded counters, whether an id belongs
    to the current transaction: to an element of the stack that is not being aborted or to
    one of its committed children.  It says no for every id that is not a normal one. *)
Theorem TransactionIdIsCurrentTransactionId_correct x s :
  Forall (λ t, ordered_ids (childXids t)) (stack s) →
  TransactionIdIsCurrentTransactionId x s =
    Ret (TransactionIdIsNormal x && bool_decide (x ∈ live_ids (stack s))).
Proof.
  intros Ho. unfold TransactionIdIsCurrentTransactionId. destruct (TransactionIdIsNormal x); [|done].
  by apply current_loop_spec.
Qed.

(** ** Internal subtransactions *)

Lemma xbind_val {A B} (m : X A) (f : A → X B) s a s' : m s = Val a s' → (m ≫= f) s = f a s'.
Proof. intros H. unfold mbind, X_bind. by rewrite H. Qed.

Section no_errors.
Context (oracle : nat → Reply) (standby : bool) (FireDeferred : X unit) (temprel : bool).
Context (Hok : ∀ n, fails (oracle n) = false).

Lemma external_ok s : external oracle s = Val tt (called s).
Proof using Hok. unfold external. by rewrite Hok. Qed.

Ltac run := repeat first
  [ erewrite xbind_val by reflexivity | erewrite xbind_val by apply external_ok ]; cbv beta.

Lemma start_sub_ok s :
  StartSubTransaction oracle s = Val tt (called (with_stack
    (set_state TRANS_INPROGRESS (set_owner true (set_state TRANS_START (current s)))) (parents s) (called (called s)))).
Proof using Hok. unfold StartSubTransaction. run. by rewrite external_ok. Qed.

Lemma begin_internal_ok s :
  match blockState (current s) with
  | TBLOCK_STARTED | TBLOCK_INPROGRESS | TBLOCK_END | TBLOCK_PREPARE | TBLOCK_SUBINPROGRESS => True
  | _ => False
  end → 0 < currentSubTransactionId s < 2 ^ 32 - 1 →
  ∃ u s', BeginInternalSubTransaction oracle standby FireDeferred temprel None s = Val tt s' ∧
    stack s' = u :: stack s ∧ blockState u = TBLOCK_SUBINPROGRESS ∧ transactionId u = InvalidTransactionId.
Proof using Hok.
  intros Hb Hi. assert (∀ i, i = uint32_of (currentSubTransactionId s + 1) → (i =? InvalidSubTransactionId) = false) as Ei.
  { intros i ->. rewrite wrap_u_small by (unfold is_uint; lia). apply Z.eqb_neq. unfold InvalidSubTransactionId. lia. }
  unfold BeginInternalSubTransaction. erewrite xbind_val by reflexivity.
  destruct (blockState (current s)); try done;
    (erewrite xbind_val; [|unfold PushTransaction; run; rewrite Ei by done; reflexivity]); run;
    (erewrite xbind_val; [|unfold CommitTransactionCommand; run; cbn [commit_command]; run; cbn -[StartSubTransaction uint32_of];
       erewrite xbind_val by apply start_sub_ok; reflexivity]); eexists _, _; done.
Qed.
End no_errors.

(** A deferred trigger that catches an error runs an internal subtransaction while the
    transaction is being committed, and [BeginInternalSubTransaction] provides for the block
    states [TBLOCK_END] and [TBLOCK_PREPARE] of that moment; but the assertion at the end of
    [RollbackAndReleaseCurrentSubTransaction] does not, so rolling back the subtransaction
    fails the assertion, whatever happens in it otherwise. *)
Theorem internal_rollback_at_commit_asserts oracle standby FireDeferred temprel b s :
  b = TBLOCK_END ∨ b = TBLOCK_PREPARE →
  blockState (current s) = b → (∀ n, fails (oracle n) = false) → 0 < currentSubTransactionId s < 2 ^ 32 - 1 →
  (∃ s', BeginInternalSubTransaction oracle standby FireDeferred temprel None s = Val tt s') ∧
  (_ ← BeginInternalSubTransaction oracle standby FireDeferred temprel None;
   RollbackAndReleaseCurrentSubTransaction) s = Bug.
Proof.
  intros Hor Hb Hf Hi. destruct (begin_internal_ok oracle standby FireDeferred temprel Hf s) as (u & s' & E & Es & Hu & Hx);
    [rewrite Hb; by destruct Hor as [-> | ->]|done|].
  split; [by eexists|]. rewrite (xbind_val _ _ _ _ _ E). injection Es as Ec Ep.
  unfold RollbackAndReleaseCurrentSubTransaction. erewrite xbind_val by reflexivity. rewrite Ec, Hu.
  unfold AbortSubTransaction, RecordTransactionAbort, CleanupSubTransaction, PopTransaction. cbn. unfold mbind, X_bind. cbn.
  rewrite bool_decide_true by done. rewrite Ec. unfold mret, X_ret. destruct (has_owner u); cbn; rewrite ?Ec, ?Hx; cbn; rewrite ?Hx; cbn;
    rewrite Ep; cbn; rewrite Hb; by destruct Hor as [-> | ->].
Qed.

(** ** A sample session *)

Fixpoint session (oracle : nat → Reply) (qs : list stmt) (s : Xact) : xres unit :=
  match qs with
  | [] => Val tt s
  | q :: qs =>
      match turn oracle true (mret tt) false q s with
      | Val _ s' => session oracle qs s'
      | r => r
      end
  end.

(** No call fails, and other backends take an id now and then. *)
Definition calm : nat → Reply := λ n, mkReply false (n mod 2).
(** The same, but for one call. *)
Definition calm_but (k : nat) : nat → Reply := λ n, mkReply (bool_decide (n = k)) (n mod 2).

Definition write_stmt : stmt := OtherStmt (_ ← GetCurrentTransactionId calm true; mret tt).
Definition state_of (r : xres unit) : Xact := match r with Val _ s | Raise _ _ s => s | _ => xact_init 0 end.
Definition sample_open : Xact :=
  state_of (session calm [TRANS_STMT_BEGIN; TRANS_STMT_SAVEPOINT "a"; write_stmt] (xact_init 100)).



(** Two released savepoints, and a third one. *)
Definition sample_children : Xact :=
  state_of (session calm [TRANS_STMT_BEGIN; TRANS_STMT_SAVEPOINT "a"; write_stmt; TRANS_STMT_RELEASE "a";
    TRANS_STMT_SAVEPOINT "b"; write_stmt; TRANS_STMT_RELEASE "b"; TRANS_STMT_SAVEPOINT "c"; write_stmt] (xact_init 4294967290)).

Lemma sample_ordered : ordered_ids [4294967294; 3].
Proof.
  exists 4294967294, [4294967294; 4294967299]. split; [by vm_compute|]. split.
  - apply Forall_cons. split; [|apply Forall_cons; split; [|constructor]]; (split; [by vm_compute|lia]).
  - intros [|[|i]] [|[|j]] a b L Ha Hb; try lia; try discriminate. injection Ha as <-. injection Hb as <-. lia.
Qed.

Lemma TransactionIdIsCurrentTransactionId_correct_witness :
  Forall (λ t, ordered_ids (childXids t)) (stack sample_children) ∧
  live_ids (stack sample_children) = [5; 4294967292; 4294967294; 3] ∧
  TransactionIdIsCurrentTransactionId 3 sample_children = Ret true ∧
  TransactionIdIsCurrentTransactionId 4 sample_children = Ret false.
Proof.
  assert (childXids <$> stack sample_children = [[]; [4294967294; 3]]) as Ec by (by vm_compute).
  assert (Forall (λ t, ordered_ids (childXids t)) (stack sample_children)) as Ho.
  { apply (Forall_fmap childXids ordered_ids). rewrite Ec. constructor; [|constructor; [|constructor]].
    - exists 0, []. split; [done|]. split; [constructor|]. intros i j a b _ Ha. done.
    - exact sample_ordered. }
  split; [done|]. split; [by vm_compute|].
  split; rewrite (TransactionIdIsCurrentTransactionId_correct _ _ Ho); by vm_compute.
Defined.

(** A transaction that is being committed. *)
Definition sample_commit : Xact :=
  let s := state_of (session calm [TRANS_STMT_BEGIN; write_stmt] (xact_init 100)) in
  with_stack (set_block TBLOCK_END (current s)) (parents s) s.

Lemma internal_rollback_at_commit_asserts_witness :
  blockState (current sample_commit) = TBLOCK_END ∧ currentSubTransactionId sample_commit = 1 ∧
  (_ ← BeginInternalSubTransaction calm true (mret tt) false None; RollbackAndReleaseCurrentSubTransaction) sample_commit = Bug.
Proof.
  split; [by vm_compute|]. split; [by vm_compute|].
  refine (proj2 (internal_rollback_at_commit_asserts calm true (mret tt) false TBLOCK_END sample_commit _ _ _ _));
    [by left|by vm_compute|done|by vm_compute].
Defined.
