(* ===== verification/FreeSpace.v ===== *)
(** * The free space map

    [backend/storage/freespace/freespace.c]: a relation's free space map is a tree
    of [FsmPage] pages in a separate fork, of depth 3 or 4 according to the block
    size.  Each slot of a bottom page holds the category of free space of one heap
    block, each slot of an upper page the maximum of a child page.

    The state is the fork (whether it exists and its pages in physical order) and
    the cached length [smgr_fsm_nblocks].  A page that is new or whose header is
    corrupt is read as an empty page, as [RBM_ZERO_ON_ERROR] and [PageInit] do.
    What other backends do to a page while a search upgrades its lock is the
    parameter [interfere] of [fsm_search_avail]. *)

From S2P Require Import Prelude FsmPage.

(** ** Data *)

Abbreviation BlockNumber := Z.
Definition InvalidBlockNumber : BlockNumber := 0xFFFFFFFF.

Record FSMAddress := mkAddr { level : Z; logpageno : Z }.
#[global] Instance FSMAddress_eq_dec : EqDecision FSMAddress.
Proof. solve_decision. Defined.

Record Fsm := mkFsm {
  fork_exists : bool;
  fork : list FSMPageData;
  smgr_fsm_nblocks : BlockNumber
}.

Section freespace.
Context (BLCKSZ : Z) (interfere : FSMPageData → FSMPageData).

Definition SlotsPerFSMPage : Z := LeafNodesPerPage BLCKSZ.
Definition FSM_CATEGORIES : Z := 256.
Definition FSM_CAT_STEP : Z := BLCKSZ / FSM_CATEGORIES.
(** [BLCKSZ - MAXALIGN(SizeOfPageHeaderData + sizeof(ItemIdData))] *)
Definition MaxFSMRequestSize : Z := BLCKSZ - 32.
Definition FSM_TREE_DEPTH : Z := if 1626 <=? SlotsPerFSMPage then 3 else 4.
Definition FSM_ROOT_LEVEL : Z := FSM_TREE_DEPTH - 1.
Definition FSM_BOTTOM_LEVEL : Z := 0.
Definition FSM_ROOT_ADDRESS : FSMAddress := mkAddr FSM_ROOT_LEVEL 0.

(** ** Categories *)

Definition fsm_space_avail_to_cat (avail : Z) : outcome Z :=
  if negb (avail <? BLCKSZ) then UB else
  if MaxFSMRequestSize <=? avail then Ret 255 else
  let cat := avail / FSM_CAT_STEP in
  let cat := if 254 <? cat then 254 else cat in
  Ret (uint8_of cat).

Definition fsm_space_cat_to_avail (cat : Z) : Z :=
  if cat =? 255 then MaxFSMRequestSize else cat * FSM_CAT_STEP.

Definition fsm_space_needed_to_cat (needed : Z) : outcome Z :=
  if MaxFSMRequestSize <? needed then Ereport ERRCODE_INTERNAL_ERROR else
  if needed =? 0 then Ret 1 else
  let cat := (needed + FSM_CAT_STEP - 1) / FSM_CAT_STEP in
  let cat := if 255 <? cat then 255 else cat in
  Ret (uint8_of cat).

(** ** Addresses *)

(** [SlotsPerFSMPage] is a [size_t]: the products and quotients of an [int] page
    number with it are computed in 64 bits and converted back. *)

(** [for (l = 0; l < level; l++) leafno *= SlotsPerFSMPage;] *)
Fixpoint leafno_loop (n : nat) (leafno : Z) : Z :=
  match n with
  | O => leafno
  | S n => leafno_loop n (int32_of (leafno * SlotsPerFSMPage))
  end.
(** [for (l = 0; l < FSM_TREE_DEPTH; l++) { pages += leafno + 1; leafno /= SlotsPerFSMPage; }] *)
Fixpoint pages_loop (n : nat) (pages leafno : Z) : Z :=
  match n with
  | O => pages
  | S n => pages_loop n (uint32_of (pages + (leafno + 1)))
        (int32_of (wrap_u 64 leafno / SlotsPerFSMPage))
  end.

Definition fsm_logical_to_physical (addr : FSMAddress) : BlockNumber :=
  let leafno := leafno_loop (Z.to_nat (level addr)) (logpageno addr) in
  let pages := pages_loop (Z.to_nat FSM_TREE_DEPTH) 0 leafno in
  let pages := uint32_of (pages - level addr) in
  uint32_of (pages - 1).

Definition fsm_get_location (heapblk : BlockNumber) : FSMAddress * Z :=
  (mkAddr FSM_BOTTOM_LEVEL (int32_of (heapblk / SlotsPerFSMPage)),
   uint16_of (heapblk mod SlotsPerFSMPage)).

Definition fsm_get_heap_blk (addr : FSMAddress) (slot : Z) : outcome BlockNumber :=
  if negb (level addr =? FSM_BOTTOM_LEVEL) then UB else
  Ret (uint32_of (uint32_of (logpageno addr) * SlotsPerFSMPage + slot)).

Definition fsm_get_parent (child : FSMAddress) : outcome (FSMAddress * Z) :=
  if negb (level child <? FSM_ROOT_LEVEL) then UB else
  Ret (mkAddr (level child + 1) (int32_of (wrap_u 64 (logpageno child) / SlotsPerFSMPage)),
       uint16_of (wrap_u 64 (logpageno child) mod SlotsPerFSMPage)).

Definition fsm_get_child (parent : FSMAddress) (slot : Z) : outcome FSMAddress :=
  if negb (FSM_BOTTOM_LEVEL <? level parent) then UB else
  Ret (mkAddr (level parent - 1) (int32_of (logpageno parent * SlotsPerFSMPage + slot))).

(** ** Pages *)

(** An empty page. *)
Definition empty_page : FSMPageData := mkFSMPage 0 (replicate (Z.to_nat (NodesPerPage BLCKSZ)) 0).

Definition get_fsm : cmd Fsm Fsm := λ s, Ret (s, s).
Definition put_fsm (s : Fsm) : cmd Fsm unit := λ _, Ret (tt, s).

(** [smgrnblocks] of the fork, an error if it does not exist. *)
Definition smgrnblocks : cmd Fsm BlockNumber := λ s,
  if fork_exists s then Ret (Z.of_nat (length (fork s)), s) else Ereport ERRCODE_INTERNAL_ERROR.

(** [while (fsm_nblocks_now < fsm_nblocks) smgrextend(...)] *)
Fixpoint extend_loop (n : nat) : cmd Fsm unit :=
  match n with
  | O => mret tt
  | S n =>
      s ← get_fsm;
      _ ← put_fsm (mkFsm (fork_exists s) (fork s ++ [empty_page]) (smgr_fsm_nblocks s));
      extend_loop n
  end.

Definition fsm_extend (fsm_nblocks : BlockNumber) : cmd Fsm unit :=
  s ← get_fsm;
  _ ← (if ((smgr_fsm_nblocks s =? 0) || (smgr_fsm_nblocks s =? InvalidBlockNumber))
          && negb (fork_exists s)
       then put_fsm (mkFsm true [] (smgr_fsm_nblocks s)) else mret tt);
  fsm_nblocks_now ← smgrnblocks;
  _ ← extend_loop (Z.to_nat (fsm_nblocks - fsm_nblocks_now));
  s ← get_fsm;
  put_fsm (mkFsm (fork_exists s) (fork s) (Z.max fsm_nblocks_now fsm_nblocks)).

(** The buffer of the page, named by its block number. *)
Definition fsm_readbuf (addr : FSMAddress) (extend : bool) : cmd Fsm (option BlockNumber) :=
  let blkno := fsm_logical_to_physical addr in
  s ← get_fsm;
  _ ← (if (smgr_fsm_nblocks s =? InvalidBlockNumber) || (smgr_fsm_nblocks s <=? blkno)
       then put_fsm (mkFsm (fork_exists s) (fork s)
              (if fork_exists s then Z.of_nat (length (fork s)) else 0))
       else mret tt);
  s ← get_fsm;
  if smgr_fsm_nblocks s <=? blkno then
    if extend then
      _ ← fsm_extend (blkno + 1);
      mret (Some blkno)
    else mret None
  else mret (Some blkno).

Definition BufferGetPage (buf : BlockNumber) : cmd Fsm FSMPageData := λ s,
  match fork s !! Z.to_nat buf with
  | Some p => Ret (p, s)
  | None => Ereport ERRCODE_INTERNAL_ERROR
  end.
Definition write_page (buf : BlockNumber) (p : FSMPageData) : cmd Fsm unit := λ s,
  Ret (tt, mkFsm (fork_exists s) (<[Z.to_nat buf := p]> (fork s)) (smgr_fsm_nblocks s)).

(** ** Updates and searches *)

Definition fsm_set_and_search (addr : FSMAddress) (slot newValue minValue : Z) : cmd Fsm Z :=
  buf ← fsm_readbuf addr true;
  let buf := default InvalidBlockNumber buf in
  page ← BufferGetPage buf;
  '(_, page) ← lift (fsm_set_avail BLCKSZ page slot newValue);
  _ ← write_page buf page;
  if negb (minValue =? 0) then
    '(newslot, page, _) ← lift (fsm_search_avail BLCKSZ interfere page minValue
                                  (level addr =? FSM_BOTTOM_LEVEL) true);
    _ ← write_page buf page;
    mret newslot
  else mret (-1).

(** Read a page and search it: the slot found, or [-1] and the page's maximum. *)
Definition search_page (min_cat : Z) (addr : FSMAddress) : cmd Fsm (Z * Z) :=
  buf ← fsm_readbuf addr false;
  match buf with
  | Some buf =>
      page ← BufferGetPage buf;
      '(slot, page, _) ← lift (fsm_search_avail BLCKSZ interfere page min_cat
                                 (level addr =? FSM_BOTTOM_LEVEL) false);
      _ ← write_page buf page;
      if slot =? -1 then
        max_avail ← lift (fsm_get_max_avail page);
        mret (slot, max_avail)
      else mret (slot, 0)
  | None => mret (-1, 0)
  end.

(** The loop of [fsm_search]; [restarts] is the number of restarts so far. *)
Fixpoint search_loop (fuel : nat) (min_cat : Z) (restarts : Z) (addr : FSMAddress)
    : cmd Fsm BlockNumber :=
  match fuel with
  | O => λ _, Timeout
  | S fuel =>
      '(slot, max_avail) ← search_page min_cat addr;
      if negb (slot =? -1) then
        if level addr =? FSM_BOTTOM_LEVEL then lift (fsm_get_heap_blk addr slot)
        else
          addr ← lift (fsm_get_child addr slot);
          search_loop fuel min_cat restarts addr
      else if level addr =? FSM_ROOT_LEVEL then mret InvalidBlockNumber
      else
        '(parent, parentslot) ← lift (fsm_get_parent addr);
        _ ← fsm_set_and_search parent parentslot max_avail 0;
        if 10000 <? restarts then mret InvalidBlockNumber
        else search_loop fuel min_cat (restarts + 1) FSM_ROOT_ADDRESS
  end.

(** At most 10001 restarts, each of at most one page per level. *)
Definition fsm_search (min_cat : Z) : cmd Fsm BlockNumber :=
  search_loop (Z.to_nat (10003 * FSM_TREE_DEPTH)) min_cat 0 FSM_ROOT_ADDRESS.

Definition GetPageWithFreeSpace (spaceNeeded : Z) : cmd Fsm BlockNumber :=
  min_cat ← lift (fsm_space_needed_to_cat spaceNeeded);
  fsm_search min_cat.

Definition RecordAndGetPageWithFreeSpace (oldPage : BlockNumber) (oldSpaceAvail spaceNeeded : Z)
    : cmd Fsm BlockNumber :=
  old_cat ← lift (fsm_space_avail_to_cat oldSpaceAvail);
  search_cat ← lift (fsm_space_needed_to_cat spaceNeeded);
  let '(addr, slot) := fsm_get_location oldPage in
  search_slot ← fsm_set_and_search addr slot old_cat search_cat;
  if negb (search_slot =? -1) then lift (fsm_get_heap_blk addr search_slot)
  else fsm_search search_cat.

Definition RecordPageWithFreeSpace (heapBlk : BlockNumber) (spaceAvail : Z) : cmd Fsm unit :=
  new_cat ← lift (fsm_space_avail_to_cat spaceAvail);
  let '(addr, slot) := fsm_get_location heapBlk in
  _ ← fsm_set_and_search addr slot new_cat 0;
  mret tt.

(** [XLogReadBufferExtended] for the fork in mode [RBM_ZERO_ON_ERROR]: the file is
    created and extended with new pages as needed. *)
Definition XLogReadBufferExtended (blkno : BlockNumber) : cmd Fsm BlockNumber :=
  s ← get_fsm;
  _ ← put_fsm (mkFsm true (if fork_exists s then fork s else []) (smgr_fsm_nblocks s));
  lastblock ← smgrnblocks;
  if blkno <? lastblock then mret blkno
  else
    _ ← extend_loop (Z.to_nat (blkno + 1 - lastblock));
    mret blkno.

Definition XLogRecordPageWithFreeSpace (heapBlk : BlockNumber) (spaceAvail : Z) : cmd Fsm unit :=
  new_cat ← lift (fsm_space_avail_to_cat spaceAvail);
  let '(addr, slot) := fsm_get_location heapBlk in
  let blkno := fsm_logical_to_physical addr in
  buf ← XLogReadBufferExtended blkno;
  page ← BufferGetPage buf;
  '(_, page) ← lift (fsm_set_avail BLCKSZ page slot new_cat);
  write_page buf page.

Definition GetRecordedFreeSpace (heapBlk : BlockNumber) : cmd Fsm Z :=
  let '(addr, slot) := fsm_get_location heapBlk in
  buf ← fsm_readbuf addr false;
  match buf with
  | None => mret 0
  | Some buf =>
      page ← BufferGetPage buf;
      cat ← lift (fsm_get_avail BLCKSZ page slot);
      mret (fsm_space_cat_to_avail cat)
  end.

Definition smgrtruncate (nblocks : BlockNumber) : cmd Fsm unit := λ s,
  Ret (tt, mkFsm (fork_exists s) (take (Z.to_nat nblocks) (fork s)) (smgr_fsm_nblocks s)).
Definition set_nblocks (nblocks : BlockNumber) : cmd Fsm unit := λ s,
  Ret (tt, mkFsm (fork_exists s) (fork s) nblocks).

Definition FreeSpaceMapTruncateRel (nblocks : BlockNumber) : cmd Fsm unit :=
  s ← get_fsm;
  if negb (fork_exists s) then mret tt else
  let '(first_removed_address, first_removed_slot) := fsm_get_location nblocks in
  new_nfsmblocks ←
    (if 0 <? first_removed_slot then
       buf ← fsm_readbuf first_removed_address false;
       match buf with
       | None => mret None
       | Some buf =>
           page ← BufferGetPage buf;
           '(_, page) ← lift (fsm_truncate_avail BLCKSZ page first_removed_slot);
           _ ← write_page buf page;
           mret (Some (uint32_of (fsm_logical_to_physical first_removed_address + 1)))
       end
     else
       let new_nfsmblocks := fsm_logical_to_physical first_removed_address in
       now ← smgrnblocks;
       if now <=? new_nfsmblocks then mret None else mret (Some new_nfsmblocks));
  match new_nfsmblocks with
  | None => mret tt
  | Some n => _ ← smgrtruncate n; set_nblocks n
  end.

(** Update the information about a child. *)
Definition vacuum_set (buf : BlockNumber) (slot child_avail : Z) : cmd Fsm unit :=
  page ← BufferGetPage buf;
  old ← lift (fsm_get_avail BLCKSZ page slot);
  if negb (old =? child_avail) then
    '(_, page) ← lift (fsm_set_avail BLCKSZ page slot child_avail);
    write_page buf page
  else mret tt.

(** The loop of [fsm_vacuum_page] over the slots, [child] being the recursive call. *)
Fixpoint vacuum_slots (child : FSMAddress → cmd Fsm (Z * bool)) (n : nat) (addr : FSMAddress)
    (buf : BlockNumber) (slot : Z) (eof : bool) : cmd Fsm unit :=
  match n with
  | O => mret tt
  | S n =>
      '(child_avail, eof) ←
        (if negb eof then c ← lift (fsm_get_child addr slot); child c else mret (0, eof));
      _ ← vacuum_set buf slot child_avail;
      vacuum_slots child n addr buf (slot + 1) eof
  end.

(** [lvl] is the level of [addr]: the recursion goes one level down. *)
Fixpoint fsm_vacuum_page (lvl : nat) (addr : FSMAddress) : cmd Fsm (Z * bool) :=
  buf ← fsm_readbuf addr false;
  match buf with
  | None => mret (0, true)
  | Some buf =>
      _ ← match lvl with
          | O => mret tt
          | S lvl' => vacuum_slots (fsm_vacuum_page lvl') (Z.to_nat SlotsPerFSMPage) addr buf 0 false
          end;
      page ← BufferGetPage buf;
      max_avail ← lift (fsm_get_max_avail page);
      _ ← write_page buf (mkFSMPage 0 (fp_nodes page));
      mret (max_avail, false)
  end.

Definition FreeSpaceMapVacuum : cmd Fsm unit :=
  _ ← fsm_vacuum_page (Z.to_nat FSM_ROOT_LEVEL) FSM_ROOT_ADDRESS;
  mret tt.

End freespace.

(** ** Specification *)

(** The block sizes [configure] accepts, 1 kB to 32 kB. *)
Definition fsm_blcksz_ok (BLCKSZ : Z) : Prop := ∃ k, 10 ≤ k ≤ 15 ∧ BLCKSZ = 2 ^ k.

Section spec.
Context (BLCKSZ : Z).
#[local] Abbreviation Sl := (SlotsPerFSMPage BLCKSZ).
#[local] Abbreviation D := (FSM_TREE_DEPTH BLCKSZ).

(** The pages of the tree under the root. *)
Definition valid_addr (a : FSMAddress) : Prop :=
  0 ≤ level a < D ∧ 0 ≤ logpageno a < Sl ^ (D - 1 - level a).

(** The category in a slot of a page and that of a heap block, [0] past the end of the map. *)
Definition cat (s : Fsm) (a : FSMAddress) (slot : Z) : Z :=
  match fork s !! Z.to_nat (fsm_logical_to_physical BLCKSZ a) with
  | Some p => avail BLCKSZ p slot
  | None => 0
  end.
Definition recorded (s : Fsm) (b : BlockNumber) : Z := cat s (mkAddr 0 (b / Sl)) (b mod Sl).

(** The first bottom page whose slots do not all stand for block numbers below
    [InvalidBlockNumber]; a map does not reach it. *)
Definition max_leaf : Z := InvalidBlockNumber / Sl.

Record fsm_ok (s : Fsm) : Prop := {
  ok_pages : Forall (page_ok BLCKSZ) (fork s);
  ok_exists : fork_exists s = false → fork s = [];
  ok_cache : smgr_fsm_nblocks s = InvalidBlockNumber ∨
             0 ≤ smgr_fsm_nblocks s ≤ Z.of_nat (length (fork s));
  ok_length : Z.of_nat (length (fork s)) ≤ fsm_logical_to_physical BLCKSZ (mkAddr 0 max_leaf)
}.
End spec.

(** ** Categories *)

Section lemmas.
Context (BLCKSZ : Z) (HB : fsm_blcksz_ok BLCKSZ).
#[local] Abbreviation Sl := (SlotsPerFSMPage BLCKSZ).
#[local] Abbreviation D := (FSM_TREE_DEPTH BLCKSZ).
#[local] Abbreviation step := (FSM_CAT_STEP BLCKSZ).
#[local] Abbreviation Max := (MaxFSMRequestSize BLCKSZ).

Lemma page_blcksz_ok : blcksz_ok BLCKSZ.
Proof using HB. destruct HB as (k & Hk & ->). exists k. split; [lia|done]. Qed.

Lemma fsm_sizes :
  485 ≤ Sl ≤ 16357 ∧ 3 ≤ D ≤ 4 ∧ 2 ^ 32 ≤ Sl ^ D ∧ Sl ^ (D - 1) < 2 ^ 30.
Proof using HB.
  destruct HB as (k & Hk & ->).
  assert (k = 10 ∨ k = 11 ∨ k = 12 ∨ k = 13 ∨ k = 14 ∨ k = 15) as Hc by lia.
  by destruct Hc as [->|[->|[->|[->|[->| ->]]]]]; vm_compute.
Qed.

Lemma cat_sizes : 4 ≤ step ≤ 128 ∧ BLCKSZ = 256 * step ∧ Max = BLCKSZ - 32 ∧ 254 * step ≤ BLCKSZ.
Proof using HB.
  unfold MaxFSMRequestSize, FSM_CAT_STEP, FSM_CATEGORIES. destruct HB as (k & Hk & ->).
  assert (k = 10 ∨ k = 11 ∨ k = 12 ∨ k = 13 ∨ k = 14 ∨ k = 15) as Hc by lia.
  by destruct Hc as [->|[->|[->|[->|[->| ->]]]]]; vm_compute.
Qed.

Lemma avail_to_cat_spec a :
  0 ≤ a < BLCKSZ →
  fsm_space_avail_to_cat BLCKSZ a = Ret (if Max <=? a then 255 else Z.min 254 (a / step)).
Proof using HB.
  intros Ha. pose proof cat_sizes as (? & ? & ? & ?). unfold fsm_space_avail_to_cat.
  destruct (Z.ltb_spec a BLCKSZ); [|lia]. cbn [negb].
  destruct (Z.leb_spec Max a); [done|]. pose proof (Z.div_pos a step ltac:(lia) ltac:(lia)).
  f_equal. destruct (Z.ltb_spec 254 (a / step)); rewrite wrap_u_small; try lia.
  all: unfold is_uint; change (2 ^ 8) with 256; lia.
Qed.

Lemma avail_to_cat_uint8 a : 0 ≤ a → is_uint 8 (if Max <=? a then 255 else Z.min 254 (a / step)).
Proof using HB.
  intros Ha. pose proof cat_sizes as (? & ? & ? & ?). unfold is_uint. change (2 ^ 8) with 256.
  pose proof (Z.div_pos a step ltac:(lia) ltac:(lia)). destruct (Max <=? a); lia.
Qed.

Lemma needed_to_cat_spec n :
  0 ≤ n →
  fsm_space_needed_to_cat BLCKSZ n =
  if Max <? n then Ereport ERRCODE_INTERNAL_ERROR
  else Ret (Z.max 1 (Z.min 255 ((n + step - 1) / step))).
Proof using HB.
  intros Hn. pose proof cat_sizes as (? & ? & ? & ?). unfold fsm_space_needed_to_cat.
  destruct (Z.ltb_spec Max n); [done|].
  destruct (Z.eqb_spec n 0) as [->|].
  { rewrite (Z.div_small (0 + step - 1)) by lia. done. }
  pose proof (Z.div_le_lower_bound (n + step - 1) step 1 ltac:(lia) ltac:(lia)).
  f_equal. destruct (Z.ltb_spec 255 ((n + step - 1) / step)); rewrite wrap_u_small; try lia.
  all: unfold is_uint; change (2 ^ 8) with 256; lia.
Qed.

(** ** Addresses *)

(** The number of pages of [n] levels of the tree left of a bottom page. *)
Fixpoint preorder (n : nat) (leaf : Z) : Z :=
  match n with
  | O => 0
  | S n => leaf + preorder n (leaf / Sl)
  end.

Lemma preorder_bound n leaf : 0 ≤ leaf → 0 ≤ preorder n leaf ≤ 2 * leaf.
Proof using HB.
  pose proof (fsm_sizes) as (HS & _). revert leaf. induction n as [|n IH]; intros leaf Hl; simpl; [lia|].
  pose proof (Z.div_pos leaf Sl ltac:(lia) ltac:(lia)) as Hp. specialize (IH _ Hp).
  pose proof (Z.div_le_mono leaf leaf Sl ltac:(lia) ltac:(lia)).
  assert (leaf / Sl <= leaf / 2) by (apply Z.div_le_compat_l; lia).
  pose proof (Z.mul_div_le leaf 2 ltac:(lia)). lia.
Qed.

Lemma preorder_mono n l1 l2 : l1 ≤ l2 → preorder n l1 ≤ preorder n l2.
Proof using HB.
  pose proof (fsm_sizes) as (HS & _). revert l1 l2. induction n as [|n IH]; intros l1 l2 Hl; simpl; [lia|].
  assert (l1 / Sl ≤ l2 / Sl) as Hd by (apply Z.div_le_mono; lia). specialize (IH _ _ Hd). lia.
Qed.

(** A bottom page that is the first under a page of level [lv] comes after the
    pages of the [lv + 1] levels that end before it. *)
Lemma preorder_lt n lv l1 q :
  (lv < n)%nat → l1 < q * Sl ^ Z.of_nat lv →
  preorder n l1 + Z.of_nat lv + 1 ≤ preorder n (q * Sl ^ Z.of_nat lv).
Proof using HB.
  pose proof (fsm_sizes) as (HS & _). revert lv l1. induction n as [|n IH]; intros lv l1 Hn Hl; [lia|].
  cbn [preorder]. destruct lv as [|lv].
  - change (Z.of_nat 0) with 0 in *. rewrite Z.pow_0_r, Z.mul_1_r in *.
    pose proof (preorder_mono n (l1 / Sl) (q / Sl) ltac:(apply Z.div_le_mono; lia)). lia.
  - rewrite Nat2Z.inj_succ, Z.pow_succ_r in * by lia.
    assert (q * (Sl * Sl ^ Z.of_nat lv) / Sl = q * Sl ^ Z.of_nat lv) as ->.
    { replace (q * (Sl * Sl ^ Z.of_nat lv)) with (q * Sl ^ Z.of_nat lv * Sl) by ring.
      apply Z.div_mul. lia. }
    assert (l1 / Sl < q * Sl ^ Z.of_nat lv) as Hd by (apply Z.div_lt_upper_bound; lia).
    specialize (IH lv (l1 / Sl) ltac:(lia) Hd). lia.
Qed.

Lemma leafno_loop_spec n p :
  0 ≤ p → p * Sl ^ Z.of_nat n < 2 ^ 31 → leafno_loop BLCKSZ n p = p * Sl ^ Z.of_nat n.
Proof using HB.
  pose proof (fsm_sizes) as (HS & _). revert p. induction n as [|n IH]; intros p Hp Hlt.
  { simpl. by rewrite Z.mul_1_r. }
  rewrite Nat2Z.inj_succ, Z.pow_succ_r, Z.mul_assoc in * by lia. cbn [leafno_loop].
  pose proof (Z.pow_pos_nonneg Sl (Z.of_nat n) ltac:(lia) ltac:(lia)).
  rewrite wrap_s_small; [apply IH; [nia|done]|lia|].
  unfold is_sint. change (2 ^ (32 - 1)) with (2 ^ 31). nia.
Qed.

Lemma int_div x : 0 ≤ x < 2 ^ 31 → int32_of (wrap_u 64 x / Sl) = x / Sl.
Proof using HB.
  pose proof (fsm_sizes) as (HS & _). intros Hx.
  rewrite wrap_u_small by (unfold is_uint; lia).
  pose proof (Z.div_pos x Sl ltac:(lia) ltac:(lia)).
  pose proof (Z.div_le_upper_bound x Sl x ltac:(lia) ltac:(nia)).
  apply wrap_s_small; [lia|]. unfold is_sint. change (2 ^ (32 - 1)) with (2 ^ 31). lia.
Qed.

Lemma pages_loop_spec n pages leaf :
  0 ≤ pages → 0 ≤ leaf < 2 ^ 31 → pages + preorder n leaf + Z.of_nat n < 2 ^ 32 →
  pages_loop BLCKSZ n pages leaf = pages + preorder n leaf + Z.of_nat n.
Proof using HB.
  pose proof (fsm_sizes) as (HS & _). revert pages leaf.
  induction n as [|n IH]; intros pages leaf Hp Hl Hlt; cbn [pages_loop preorder] in *; [lia|].
  pose proof (Z.div_pos leaf Sl ltac:(lia) ltac:(lia)).
  pose proof (Z.div_le_upper_bound leaf Sl leaf ltac:(lia) ltac:(nia)).
  pose proof (preorder_bound n (leaf / Sl) ltac:(lia)).
  rewrite int_div by lia. rewrite wrap_u_small by (unfold is_uint; lia).
  rewrite IH by lia. lia.
Qed.

(** The first bottom page under a page. *)
Definition first_leaf (a : FSMAddress) : Z := logpageno a * Sl ^ level a.

Lemma first_leaf_bound a :
  valid_addr BLCKSZ a → 0 ≤ first_leaf a < Sl ^ (D - 1).
Proof using HB.
  pose proof (fsm_sizes) as (HS & HD & _). intros [Hl Hp]. unfold first_leaf.
  pose proof (Z.pow_pos_nonneg Sl (level a) ltac:(lia) ltac:(lia)).
  replace (D - 1) with (D - 1 - level a + level a) by lia. rewrite Z.pow_add_r by lia. nia.
Qed.

(** Pages are numbered in depth-first order, without overflow. *)
Lemma logical_to_physical_spec a :
  valid_addr BLCKSZ a →
  fsm_logical_to_physical BLCKSZ a = preorder (Z.to_nat D) (first_leaf a) + D - 1 - level a ∧
  0 ≤ fsm_logical_to_physical BLCKSZ a < 2 ^ 31.
Proof using HB.
  intros Ha. pose proof (fsm_sizes) as (HS & HD & _ & HS2).
  pose proof (first_leaf_bound a Ha) as Hb. destruct Ha as [Hl Hp].
  pose proof (preorder_bound (Z.to_nat D) (first_leaf a) ltac:(lia)).
  assert (leafno_loop BLCKSZ (Z.to_nat (level a)) (logpageno a) = first_leaf a) as Hleaf.
  { unfold first_leaf in *. rewrite leafno_loop_spec; rewrite ?Z2Nat.id by lia; [done|lia|lia]. }
  assert (fsm_logical_to_physical BLCKSZ a = preorder (Z.to_nat D) (first_leaf a) + D - 1 - level a) as Heq.
  { unfold fsm_logical_to_physical. rewrite Hleaf, pages_loop_spec by lia.
    rewrite !wrap_u_small; unfold is_uint; rewrite ?wrap_u_small; unfold is_uint; lia. }
  split; [done|]. lia.
Qed.

(** The order of [a] before [b]: depth-first. *)
Definition before (a b : FSMAddress) : Prop :=
  first_leaf a < first_leaf b ∨ first_leaf a = first_leaf b ∧ level b < level a.

Lemma physical_lt a b :
  valid_addr BLCKSZ a → valid_addr BLCKSZ b → before a b →
  fsm_logical_to_physical BLCKSZ a < fsm_logical_to_physical BLCKSZ b.
Proof using HB.
  intros Ha Hb Hlt. destruct (logical_to_physical_spec a Ha) as [-> _].
  destruct (logical_to_physical_spec b Hb) as [-> _]. destruct Ha as [Hla _], Hb as [Hlb _].
  destruct Hlt as [Hlt|[-> Hlt]]; [|lia].
  unfold first_leaf at 2 in Hlt. rewrite <- (Z2Nat.id (level b)) in Hlt at 1 by lia.
  pose proof (preorder_lt (Z.to_nat D) (Z.to_nat (level b)) (first_leaf a) (logpageno b)
                ltac:(lia) Hlt) as H.
  rewrite Z2Nat.id in H by lia. fold (first_leaf b) in H. lia.
Qed.

Lemma first_leaf_inj a b :
  level a = level b → 0 ≤ level a → first_leaf a = first_leaf b → a = b.
Proof using HB.
  pose proof (fsm_sizes) as (HS & _). destruct a as [la pa], b as [lb pb]; unfold first_leaf; cbn.
  intros -> Hl H. pose proof (Z.pow_pos_nonneg Sl lb ltac:(lia) ltac:(lia)). f_equal. nia.
Qed.

Lemma before_total a b :
  valid_addr BLCKSZ a → valid_addr BLCKSZ b → a = b ∨ before a b ∨ before b a.
Proof using HB.
  intros [Ha _] [Hb _]. unfold before.
  destruct (Z_dec (first_leaf a) (first_leaf b)) as [[?|?]|Hf]; [lia|lia|].
  destruct (Z_dec (level a) (level b)) as [[?|?]|Hl]; [lia|lia|].
  left. apply first_leaf_inj; done || lia.
Qed.

Lemma physical_inj a b :
  valid_addr BLCKSZ a → valid_addr BLCKSZ b →
  fsm_logical_to_physical BLCKSZ a = fsm_logical_to_physical BLCKSZ b → a = b.
Proof using HB.
  intros Ha Hb Heq. destruct (before_total a b Ha Hb) as [?|[Hlt|Hlt]]; [done| |].
  all: apply physical_lt in Hlt; [lia|done|done].
Qed.

Lemma root_valid : valid_addr BLCKSZ (FSM_ROOT_ADDRESS BLCKSZ).
Proof using HB.
  pose proof (fsm_sizes) as (_ & HD & _). split; cbn; unfold FSM_ROOT_LEVEL; [lia|].
  replace (D - 1 - (D - 1)) with 0 by lia. done.
Qed.

Lemma get_location_spec b :
  is_uint 32 b →
  fsm_get_location BLCKSZ b = (mkAddr 0 (b / Sl), b mod Sl) ∧ valid_addr BLCKSZ (mkAddr 0 (b / Sl)) ∧
  0 ≤ b mod Sl < Sl.
Proof using HB.
  pose proof (fsm_sizes) as (HS & HD & HSD & HSD'). intros Hb. unfold is_uint in Hb.
  pose proof (Z.mod_pos_bound b Sl ltac:(lia)) as Hm.
  pose proof (Z.div_pos b Sl ltac:(lia) ltac:(lia)).
  assert (b / Sl < Sl ^ (D - 1)) as Hlt.
  { apply Z.div_lt_upper_bound; [lia|]. rewrite <- Z.pow_succ_r by lia.
    replace (Z.succ (D - 1)) with D by lia. lia. }
  split; [|split; [|done]].
  - unfold fsm_get_location. rewrite wrap_u_small by (unfold is_uint; lia).
    rewrite wrap_s_small; [done|lia|]. unfold is_sint. change (2 ^ (32 - 1)) with (2 ^ 31). lia.
  - split; cbn; [lia|]. rewrite Z.sub_0_r. lia.
Qed.

Lemma get_heap_blk_spec p slot :
  0 ≤ p → 0 ≤ slot → p * Sl + slot < 2 ^ 32 →
  fsm_get_heap_blk BLCKSZ (mkAddr 0 p) slot = Ret (p * Sl + slot).
Proof using HB.
  pose proof (fsm_sizes) as (HS & _). intros Hp Hs Hlt. unfold fsm_get_heap_blk. cbn -[wrap_u].
  rewrite (wrap_u_small 32 p) by (unfold is_uint; nia). rewrite wrap_u_small; [done|].
  unfold is_uint. nia.
Qed.

Lemma valid_int a : valid_addr BLCKSZ a → 0 ≤ logpageno a < 2 ^ 30.
Proof using HB.
  pose proof (fsm_sizes) as (HS & HD & _ & HSD). intros Ha.
  pose proof (first_leaf_bound a Ha) as Hf. destruct Ha as [Hl Hp]. unfold first_leaf in Hf.
  pose proof (Z.pow_pos_nonneg Sl (level a) ltac:(lia) ltac:(lia)). nia.
Qed.

Lemma get_parent_spec a :
  valid_addr BLCKSZ a → level a < D - 1 →
  let parent := mkAddr (level a + 1) (logpageno a / Sl) in
  fsm_get_parent BLCKSZ a = Ret (parent, logpageno a mod Sl) ∧
  valid_addr BLCKSZ parent ∧ 0 ≤ logpageno a mod Sl < Sl ∧ before parent a.
Proof using HB.
  pose proof (fsm_sizes) as (HS & HD & _). intros Ha Hl. pose proof (valid_int a Ha) as Hi.
  destruct Ha as [Hla Hp]. pose proof (Z.mod_pos_bound (logpageno a) Sl ltac:(lia)) as Hm.
  pose proof (Z.div_pos (logpageno a) Sl ltac:(lia) ltac:(lia)). cbn zeta. repeat split; cbn; try lia.
  - unfold fsm_get_parent, FSM_ROOT_LEVEL. destruct (Z.ltb_spec (level a) (D - 1)); [|lia]. cbn [negb].
    rewrite int_div by lia. rewrite (wrap_u_small 64) by (unfold is_uint; lia).
    by rewrite wrap_u_small by (unfold is_uint; lia).
  - apply Z.div_lt_upper_bound; [lia|]. rewrite <- Z.pow_succ_r by lia.
    replace (D - 1 - (level a + 1)) with (D - 1 - level a - 1) by lia.
    replace (Z.succ (D - 1 - level a - 1)) with (D - 1 - level a) by lia. lia.
  - unfold before, first_leaf. cbn. rewrite Z.pow_add_r, Z.pow_1_r by lia.
    pose proof (Z.pow_pos_nonneg Sl (level a) ltac:(lia) ltac:(lia)).
    pose proof (Z.mul_div_le (logpageno a) Sl ltac:(lia)). nia.
Qed.

Lemma get_child_spec a slot :
  valid_addr BLCKSZ a → 0 < level a → 0 ≤ slot < Sl →
  let child := mkAddr (level a - 1) (logpageno a * Sl + slot) in
  fsm_get_child BLCKSZ a slot = Ret child ∧ valid_addr BLCKSZ child ∧
  fsm_get_parent BLCKSZ child = Ret (a, slot).
Proof using HB.
  pose proof (fsm_sizes) as (HS & HD & _). intros Ha Hl Hs. pose proof (valid_int a Ha) as Hi.
  destruct Ha as [Hla Hp]. cbn zeta.
  assert (valid_addr BLCKSZ (mkAddr (level a - 1) (logpageno a * Sl + slot))) as Hv.
  { split; cbn; [lia|]. replace (D - 1 - (level a - 1)) with (Z.succ (D - 1 - level a)) by lia.
    rewrite Z.pow_succ_r by lia. nia. }
  pose proof (valid_int _ Hv) as Hi'. cbn in Hi'. split; [|split; [done|]].
  - unfold fsm_get_child, FSM_BOTTOM_LEVEL. destruct (Z.ltb_spec 0 (level a)); [|lia]. cbn [negb].
    rewrite wrap_s_small; [done|lia|]. unfold is_sint. change (2 ^ (32 - 1)) with (2 ^ 31). lia.
  - destruct (get_parent_spec _ Hv) as [Hgp _]; cbn [level logpageno] in *; [lia|]. rewrite Hgp.
    rewrite Z.mul_comm, div_mul_add, mod_mul_add by lia.
    replace (level a - 1 + 1) with (level a) by lia. by destruct a.
Qed.

Lemma child_of_parent a :
  valid_addr BLCKSZ a → level a < D - 1 →
  fsm_get_child BLCKSZ (mkAddr (level a + 1) (logpageno a / Sl)) (logpageno a mod Sl) = Ret a.
Proof using HB.
  intros Ha Hl. destruct (get_parent_spec a Ha Hl) as (_ & Hv & Hm & _).
  destruct Ha as [[? _] _]. pose proof fsm_sizes as (? & _).
  destruct (get_child_spec _ (logpageno a mod Sl) Hv) as [-> _]; cbn; [lia|lia|].
  rewrite Z.mul_comm, <- Z.div_mod by lia. rewrite Z.add_simpl_r. by destruct a.
Qed.

(** ** States *)

#[local] Abbreviation phys := (fsm_logical_to_physical BLCKSZ).
#[local] Abbreviation len s := (Z.of_nat (length (fork s))).
#[local] Abbreviation limit := (phys (mkAddr 0 (max_leaf BLCKSZ))).

Lemma max_leaf_valid : valid_addr BLCKSZ (mkAddr 0 (max_leaf BLCKSZ)).
Proof using HB. by apply get_location_spec. Qed.

Lemma leaf_addr_valid b : is_uint 32 b → valid_addr BLCKSZ (mkAddr 0 (b / Sl)).
Proof using HB. by apply get_location_spec. Qed.

Lemma empty_page_ok : page_ok BLCKSZ (empty_page BLCKSZ).
Proof using HB.
  pose proof (sizes BLCKSZ page_blcksz_ok). split; cbn.
  - rewrite length_replicate. lia.
  - by apply Forall_replicate.
Qed.

Lemma avail_empty slot : avail BLCKSZ (empty_page BLCKSZ) slot = 0.
Proof using. clear HB. unfold avail. cbn. apply wd_replicate. Qed.

Lemma cat_uint8 s a slot : fsm_ok BLCKSZ s → is_uint 8 (cat BLCKSZ s a slot).
Proof using.
  clear HB. intros Hok. unfold cat. destruct (fork s !! _) as [p|] eqn:E; [|done].
  eapply wd_uint8. eapply Forall_lookup_1 in E; [exact E|apply Hok].
Qed.

Lemma cat_end s a slot : len s ≤ phys a → cat BLCKSZ s a slot = 0.
Proof using. clear HB. intros H. unfold cat. by rewrite lookup_ge_None_2 by lia. Qed.

Lemma cat_append s s' n a slot :
  fork s' = fork s ++ replicate n (empty_page BLCKSZ) → cat BLCKSZ s' a slot = cat BLCKSZ s a slot.
Proof using.
  clear HB. intros Hf. unfold cat. rewrite Hf.
  destruct (decide (Z.to_nat (phys a) < length (fork s))%nat).
  { by rewrite lookup_app_l by done. }
  rewrite (lookup_ge_None_2 (fork s)) by lia. rewrite lookup_app_r by lia.
  destruct (replicate n _ !! _) as [p|] eqn:E; [|done].
  apply lookup_replicate_1 in E as [-> _]. apply avail_empty.
Qed.

(** A page written to its place. *)
Lemma cat_write s s' a a' p slot :
  valid_addr BLCKSZ a → valid_addr BLCKSZ a' → phys a < len s →
  fork s' = <[Z.to_nat (phys a) := p]> (fork s) →
  cat BLCKSZ s' a' slot = if decide (phys a' = phys a) then avail BLCKSZ p slot else cat BLCKSZ s a' slot.
Proof using HB.
  intros Ha Ha' Hlt Hf. unfold cat. rewrite Hf.
  destruct (logical_to_physical_spec a Ha) as [_ ?], (logical_to_physical_spec a' Ha') as [_ ?].
  case_decide as E.
  - rewrite E, list_lookup_insert_eq by lia. done.
  - by rewrite list_lookup_insert_ne by lia.
Qed.

Lemma fsm_ok_write s a p :
  fsm_ok BLCKSZ s → page_ok BLCKSZ p →
  fsm_ok BLCKSZ (mkFsm (fork_exists s) (<[Z.to_nat (phys a) := p]> (fork s)) (smgr_fsm_nblocks s)).
Proof using.
  clear HB. intros [H1 H2 H3 H4] Hp. split; cbn; rewrite ?length_insert; try done.
  - by apply Forall_insert.
  - intros He. by rewrite (H2 He).
Qed.

Lemma page_lookup s a :
  fsm_ok BLCKSZ s → valid_addr BLCKSZ a → phys a < len s →
  ∃ p, BufferGetPage (phys a) s = Ret (p, s) ∧ page_ok BLCKSZ p ∧
       fork s !! Z.to_nat (phys a) = Some p ∧ ∀ slot, cat BLCKSZ s a slot = avail BLCKSZ p slot.
Proof using HB.
  intros Hok Ha Hlt. destruct (logical_to_physical_spec a Ha) as [_ ?].
  destruct (lookup_lt_is_Some_2 (fork s) (Z.to_nat (phys a))) as [p Hp]; [lia|].
  exists p. unfold BufferGetPage, cat. rewrite Hp. split; [done|]. split; [|done].
  eapply Forall_lookup_1; [apply Hok|done].
Qed.

Lemma readbuf_false s a :
  fsm_ok BLCKSZ s → valid_addr BLCKSZ a →
  ∃ s', fsm_readbuf BLCKSZ a false s = Ret (if phys a <? len s then Some (phys a) else None, s') ∧
        fsm_ok BLCKSZ s' ∧ fork s' = fork s.
Proof using HB.
  intros Hok Ha. destruct (logical_to_physical_spec a Ha) as [_ ?].
  assert (phys a < InvalidBlockNumber) by (change InvalidBlockNumber with (2 ^ 32 - 1); lia).
  destruct Hok as [H1 H2 H3 H4]. unfold fsm_readbuf, get_fsm, put_fsm, mbind, cmd_bind.
  cbn -[fsm_logical_to_physical InvalidBlockNumber].
  destruct (Z.eqb_spec (smgr_fsm_nblocks s) InvalidBlockNumber) as [E|E];
    destruct (Z.leb_spec (smgr_fsm_nblocks s) (phys a)) as [L|L];
    cbn -[fsm_logical_to_physical InvalidBlockNumber]; try lia.
  3: { exists s. assert (phys a < len s) as Hl by lia. apply Z.leb_gt in L. rewrite L.
       apply Z.ltb_lt in Hl. rewrite Hl. by repeat split. }
  all: set (n := if fork_exists s then _ else _); assert (n = len s) as ->
         by (unfold n; destruct (fork_exists s); [done|by rewrite H2]).
  all: eexists (mkFsm _ _ _); split; [|split; [|reflexivity]];
       [destruct (Z.leb_spec (len s) (phys a)), (Z.ltb_spec (phys a) (len s)); (reflexivity || lia)|].
  all: split; cbn; [done|done|right; lia|done].
Qed.

Lemma extend_loop_spec n s :
  extend_loop BLCKSZ n s =
  Ret (tt, mkFsm (fork_exists s) (fork s ++ replicate n (empty_page BLCKSZ)) (smgr_fsm_nblocks s)).
Proof using.
  clear HB. revert s. induction n as [|n IH]; intros s; cbn [extend_loop].
  { rewrite app_nil_r. by destruct s. }
  unfold get_fsm, put_fsm, mbind, cmd_bind. rewrite IH. cbn. by rewrite <- app_assoc.
Qed.

Lemma fsm_extend_spec s n :
  fsm_ok BLCKSZ s → len s ≤ n ≤ limit →
  ∃ s', fsm_extend BLCKSZ n s = Ret (tt, s') ∧ fsm_ok BLCKSZ s' ∧
        fork s' = fork s ++ replicate (Z.to_nat (n - len s)) (empty_page BLCKSZ).
Proof using HB.
  intros [H1 H2 H3 H4] Hn. unfold fsm_extend.
  set (s1 := mkFsm true (fork s) (smgr_fsm_nblocks s)).
  eexists (mkFsm true (fork s ++ replicate (Z.to_nat (n - len s)) (empty_page BLCKSZ)) n).
  split; [|split; [|reflexivity]].
  - erewrite bind_Ret by reflexivity. cbn beta.
    assert ((if ((smgr_fsm_nblocks s =? 0) || (smgr_fsm_nblocks s =? InvalidBlockNumber))
                && negb (fork_exists s)
             then put_fsm (mkFsm true [] (smgr_fsm_nblocks s)) else mret tt) s = Ret (tt, s1)) as Hc.
    { unfold s1. destruct (fork_exists s) eqn:E; cbn -[InvalidBlockNumber].
      { rewrite andb_false_r. unfold mret, cmd_ret. rewrite <- E. by destruct s. }
      rewrite (H2 eq_refl) in *. destruct H3 as [->|Hz]; [done|]. simpl in Hz.
      assert (smgr_fsm_nblocks s = 0) as -> by lia. done. }
    erewrite bind_Ret by exact Hc. erewrite bind_Ret by reflexivity.
    erewrite bind_Ret by apply extend_loop_spec. erewrite bind_Ret by reflexivity.
    unfold put_fsm. cbn. by rewrite Z.max_r by lia.
  - split; cbn; rewrite ?length_app, ?length_replicate; try done; [|lia|lia].
    apply Forall_app. split; [done|]. apply Forall_replicate, empty_page_ok.
Qed.

Lemma readbuf_true s a :
  fsm_ok BLCKSZ s → valid_addr BLCKSZ a → phys a < limit →
  ∃ s' n, fsm_readbuf BLCKSZ a true s = Ret (Some (phys a), s') ∧ fsm_ok BLCKSZ s' ∧
          fork s' = fork s ++ replicate n (empty_page BLCKSZ) ∧ len s' = Z.max (len s) (phys a + 1).
Proof using HB.
  intros Hok Ha Hlim. destruct (readbuf_false s a Hok Ha) as (s1 & Hrun & Hok1 & Hf).
  destruct (Z.ltb_spec (phys a) (len s)) as [L|L].
  - exists s1, 0%nat. split; [|split; [done|]].
    + revert Hrun. unfold fsm_readbuf, get_fsm, put_fsm, mbind, cmd_bind, mret, cmd_ret.
      destruct ((_ =? _) || _); cbn -[fsm_logical_to_physical]; destruct (_ <=? _); congruence.
    + rewrite Hf, app_nil_r. split; [done|lia].
  - rewrite <- Hf in L. destruct (fsm_extend_spec s1 (phys a + 1) Hok1) as (s2 & Hext & Hok2 & Hf2); [lia|].
    exists s2, (Z.to_nat (phys a + 1 - len s1)). rewrite Hf2, Hf in *.
    split; [|split; [done|split; [done|]]].
    + revert Hrun. unfold fsm_readbuf, get_fsm, put_fsm, mbind, cmd_bind, mret, cmd_ret.
      destruct ((_ =? _) || _); cbn -[fsm_logical_to_physical]; destruct (_ <=? _); try congruence.
      all: intros [= ->]; by rewrite Hext.
    + rewrite length_app, length_replicate. lia.
Qed.

(** ** Updates *)

Section updates.
Context (interfere : FSMPageData → FSMPageData).
Context (Hint : ∀ p, page_ok BLCKSZ p → page_ok BLCKSZ (interfere p)).

(** Other backends leave the recorded categories alone. *)
Definition quiet : Prop :=
  ∀ p slot, page_ok BLCKSZ p → 0 ≤ slot → avail BLCKSZ (interfere p) slot = avail BLCKSZ p slot.

(** The categories of [s'] are those of [s] but for one slot. *)
Definition cat_upd (s s' : Fsm) (a : FSMAddress) (slot v : Z) : Prop :=
  ∀ a' slot', valid_addr BLCKSZ a' → 0 ≤ slot' →
  cat BLCKSZ s' a' slot' = if decide (a' = a ∧ slot' = slot) then v else cat BLCKSZ s a' slot'.

Lemma fsm_set_and_search_spec s a slot v minv :
  fsm_ok BLCKSZ s → valid_addr BLCKSZ a → phys a < limit → 0 ≤ slot < Sl → is_uint 8 v → 0 ≤ minv →
  ∃ r s', fsm_set_and_search BLCKSZ interfere a slot v minv s = Ret (r, s') ∧ fsm_ok BLCKSZ s' ∧
    len s' = Z.max (len s) (phys a + 1) ∧ cat_upd s s' a slot v ∧
    (r = -1 ∨ 0 < minv ∧ 0 ≤ r < Sl ∧ minv ≤ cat BLCKSZ s' a r).
Proof using HB Hint.
  intros Hok Ha Hlim Hslot Hv Hmin. pose proof page_blcksz_ok as HB'.
  destruct (readbuf_true s a Hok Ha Hlim) as (s1 & n & Hrd & Hok1 & Hf1 & Hlen1).
  destruct (page_lookup s1 a Hok1 Ha) as (p & Hget & Hp & Hlook & Hcat); [lia|].
  destruct (fsm_set_avail_spec BLCKSZ HB' p slot v Hp Hslot Hv)
    as (b & p1 & Hset & Hp1 & _ & Hav1 & _).
  unfold fsm_set_and_search. erewrite bind_Ret by exact Hrd. cbn [default].
  erewrite bind_Ret by exact Hget. erewrite bind_Ret by (unfold lift; by rewrite Hset).
  cbv beta iota. erewrite bind_Ret by reflexivity.
  set (s2 := mkFsm _ (<[_ := p1]> _) _).
  pose proof (fsm_ok_write s1 a p1 Hok1 Hp1) as Hok2. fold s2 in Hok2.
  assert (len s2 = len s1) as Hlen2 by (unfold s2; cbn; by rewrite length_insert).
  assert (cat_upd s s2 a slot v) as Hupd.
  { intros a' slot' Ha' Hs'. rewrite (cat_write s1 s2 a a' p1 slot') by (done || lia).
    rewrite <- (cat_append s s1 n a' slot' Hf1).
    destruct (decide (phys a' = phys a)) as [E|E].
    - apply physical_inj in E as ->; [|done|done]. rewrite Hav1, Hcat by done.
      destruct (decide (slot' = slot)), (decide (a = a ∧ slot' = slot)); naive_solver.
    - rewrite decide_False; [done|]. intros [-> _]. done. }
  destruct (Z.eqb_spec minv 0) as [->|Hm]; cbn [negb].
  { exists (-1), s2. split; [done|]. split; [done|]. split; [lia|]. split; [done|by left]. }
  destruct (fsm_search_avail_spec BLCKSZ HB' interfere p1 minv (level a =? FSM_BOTTOM_LEVEL) true)
    as (r & p2 & dirty & Hsr & Hp2 & Hcase & _); [done|done|done|].
  pose proof (fsm_search_avail_leaves BLCKSZ HB' _ _ _ _ _ _ _ _ Hp1 Hmin (or_introl eq_refl) Hsr) as Hlv.
  erewrite bind_Ret by (unfold lift; by rewrite Hsr). cbv beta iota. erewrite bind_Ret by reflexivity.
  set (s3 := mkFsm _ (<[_ := p2]> _) _).
  assert (∀ a' slot', valid_addr BLCKSZ a' → 0 ≤ slot' →
            cat BLCKSZ s3 a' slot' = cat BLCKSZ s2 a' slot') as Hc3.
  { intros a' slot' Ha' Hs'.
    rewrite (cat_write s2 s3 a a' p2 slot'), (cat_write s1 s2 a a' p1 slot') by (done || lia).
    case_decide; [by apply Hlv|done]. }
  exists r, s3. split; [done|]. split; [by apply fsm_ok_write|].
  split; [unfold s3; cbn; rewrite !length_insert; lia|]. split.
  { intros a' slot' Ha' Hs'. rewrite Hc3 by done. by apply Hupd. }
  destruct Hcase as [[-> _]|(Hr & Hge & _)]; [by left|right].
  split; [lia|]. split; [done|].
  rewrite (cat_write s2 s3 a a p2 r) by (done || lia). by rewrite decide_True.
Qed.

(** ** Searches *)

Definition same_cats (s s' : Fsm) : Prop :=
  ∀ a slot, valid_addr BLCKSZ a → 0 ≤ slot → cat BLCKSZ s' a slot = cat BLCKSZ s a slot.

Lemma search_page_spec s a minv :
  fsm_ok BLCKSZ s → valid_addr BLCKSZ a → 0 ≤ minv →
  ∃ slot mx s', search_page BLCKSZ interfere minv a s = Ret ((slot, mx), s') ∧ fsm_ok BLCKSZ s' ∧
    len s' = len s ∧ is_uint 8 mx ∧ (quiet → same_cats s s') ∧
    (slot = -1 ∨ 0 ≤ slot < Sl ∧ phys a < len s ∧ minv ≤ cat BLCKSZ s' a slot).
Proof using HB Hint.
  intros Hok Ha Hmin. pose proof page_blcksz_ok as HB'.
  destruct (readbuf_false s a Hok Ha) as (s1 & Hrd & Hok1 & Hf1). unfold search_page.
  erewrite bind_Ret by exact Hrd.
  assert (same_cats s s1) as Hsame by (intros a' slot' _ _; unfold cat; by rewrite Hf1).
  destruct (Z.ltb_spec (phys a) (len s)) as [L|L].
  2: { exists (-1), 0, s1. split; [done|]. split; [done|]. split; [by rewrite Hf1|].
       split; [done|]. split; [done|by left]. }
  destruct (page_lookup s1 a Hok1 Ha) as (p & Hget & Hp & Hlook & Hcat); [by rewrite Hf1|].
  erewrite bind_Ret by exact Hget.
  destruct (fsm_search_avail_spec BLCKSZ HB' interfere p minv (level a =? FSM_BOTTOM_LEVEL) false)
    as (slot & p1 & dirty & Hsr & Hp1 & Hcase & _); [done|done|done|].
  erewrite bind_Ret by (unfold lift; by rewrite Hsr). cbv beta iota. erewrite bind_Ret by reflexivity.
  set (s2 := mkFsm _ (<[_ := p1]> _) _). pose proof (fsm_ok_write s1 a p1 Hok1 Hp1) as Hok2. fold s2 in Hok2.
  assert (len s2 = len s) as Hlen by (unfold s2; cbn; by rewrite length_insert, Hf1).
  assert (∀ a' sl, valid_addr BLCKSZ a' → cat BLCKSZ s2 a' sl =
            if decide (phys a' = phys a) then avail BLCKSZ p1 sl else cat BLCKSZ s1 a' sl) as Hc2.
  { intros a' sl Ha'. apply (cat_write s1 s2); (done || rewrite Hf1; lia). }
  assert (quiet → same_cats s s2) as Hq.
  { intros Hq a' sl Ha' Hsl. rewrite Hc2, <- (Hsame a' sl) by done. case_decide as E; [|done].
    apply physical_inj in E as ->; [|done|done]. rewrite Hcat.
    eapply (fsm_search_avail_leaves BLCKSZ HB'); [done|exact Hmin| |exact Hsr|done].
    right. intros q Hqok. split; [by apply Hint|]. intros. by apply Hq. }
  destruct Hcase as [[-> _]|(Hs & Hge & _)].
  - cbn [Z.eqb Pos.eqb]. unfold fsm_get_max_avail.
    pose proof (sizes BLCKSZ HB') as (? & ? & ? & ?).
    erewrite bind_Ret by (unfold lift; by rewrite (nodes_get BLCKSZ) by (done || lia)).
    exists (-1), (wd (fp_nodes p1) 0), s2. split; [done|]. split; [done|]. split; [done|].
    split; [by eapply wd_uint8|]. split; [done|by left].
  - destruct (Z.eqb_spec slot (-1)); [lia|].
    exists slot, 0, s2. split; [done|]. split; [done|]. split; [done|]. split; [done|].
    split; [done|]. right. split; [done|]. split; [done|]. rewrite Hc2 by done. by rewrite decide_True.
Qed.

(** What a search returns: no block, or one with the category asked for. *)
Definition search_result (minv : Z) (b : BlockNumber) (s' : Fsm) : Prop :=
  b = InvalidBlockNumber ∨ 0 ≤ b < InvalidBlockNumber ∧ minv ≤ recorded BLCKSZ s' b.

(** A bottom page within the map stands for block numbers below [InvalidBlockNumber]. *)
Lemma leaf_blocks s p slot :
  fsm_ok BLCKSZ s → valid_addr BLCKSZ (mkAddr 0 p) → phys (mkAddr 0 p) < len s → 0 ≤ slot < Sl →
  fsm_get_heap_blk BLCKSZ (mkAddr 0 p) slot = Ret (p * Sl + slot) ∧
  0 ≤ p * Sl + slot < InvalidBlockNumber ∧ (p * Sl + slot) / Sl = p ∧ (p * Sl + slot) mod Sl = slot.
Proof using HB.
  intros Hok Hp Hlt Hs. pose proof (fsm_sizes) as (HS & _). pose proof (ok_length _ _ Hok) as Hlen.
  assert (p < max_leaf BLCKSZ) as Hml.
  { destruct (Z_lt_le_dec p (max_leaf BLCKSZ)) as [|Hge]; [done|].
    destruct (Z.eq_dec p (max_leaf BLCKSZ)) as [->|Hne]; [lia|].
    pose proof (physical_lt _ _ max_leaf_valid Hp) as H. unfold before, first_leaf in H. cbn in H. lia. }
  pose proof (Z.mul_div_le InvalidBlockNumber Sl ltac:(lia)) as Hle. fold (max_leaf BLCKSZ) in Hle.
  destruct Hp as [_ [Hp0 _]]. cbn in Hp0.
  assert (0 ≤ p * Sl + slot < InvalidBlockNumber) as Hb by nia.
  split; [apply get_heap_blk_spec; [lia|lia|]; change InvalidBlockNumber with (2 ^ 32 - 1) in Hb; lia|].
  split; [done|]. rewrite (Z.mul_comm p). by rewrite div_mul_add, mod_mul_add by lia.
Qed.

Definition same_recorded (s s' : Fsm) : Prop :=
  ∀ b, is_uint 32 b → recorded BLCKSZ s' b = recorded BLCKSZ s b.

Lemma same_cats_recorded s s' : same_cats s s' → same_recorded s s'.
Proof using HB.
  intros H b Hb. destruct (get_location_spec b Hb) as (_ & Hv & Hm). apply H; [done|lia].
Qed.

Lemma cat_upd_recorded s s' a slot v : 0 < level a → cat_upd s s' a slot v → same_recorded s s'.
Proof using HB.
  intros Hl H b Hb. destruct (get_location_spec b Hb) as (_ & Hv & Hm).
  unfold recorded. rewrite H by (done || lia). rewrite decide_False; [done|]. intros [<- _]. done.
Qed.

(** The parent of a page below the root is within the map. *)
Definition parent_within (s : Fsm) (a : FSMAddress) : Prop :=
  level a < D - 1 → phys (mkAddr (level a + 1) (logpageno a / Sl)) < len s.

(** Every pass goes down one level; a pass that fails below the root counts as a restart. *)
Lemma search_loop_spec minv fuel restarts a s :
  0 ≤ minv → fsm_ok BLCKSZ s → valid_addr BLCKSZ a → parent_within s a → 0 ≤ restarts ≤ 10001 →
  (10001 - restarts) * D + level a + 1 ≤ Z.of_nat fuel →
  ∃ b s', search_loop BLCKSZ interfere fuel minv restarts a s = Ret (b, s') ∧ fsm_ok BLCKSZ s' ∧
          search_result minv b s' ∧ (quiet → same_recorded s s').
Proof using HB Hint.
  intros Hmin. pose proof (fsm_sizes) as (HS & HD & _). revert restarts a s.
  induction fuel as [|fuel IH]; intros restarts a s Hok Ha Hpar Hr Hfuel; [destruct Ha; nia|].
  cbn [search_loop].
  destruct (search_page_spec s a minv Hok Ha Hmin)
    as (slot & mx & s1 & Hrun & Hok1 & Hlen1 & Hmx & Hq1 & Hcase).
  erewrite bind_Ret by exact Hrun. cbv beta iota.
  destruct Hcase as [->|(Hslot & Hlt & Hge)].
  - cbn [Z.eqb Pos.eqb negb]. unfold FSM_ROOT_LEVEL.
    destruct (Z.eqb_spec (level a) (D - 1)) as [E|E].
    { exists InvalidBlockNumber, s1. split; [done|]. split; [done|]. split; [by left|].
      intros Hq. by apply same_cats_recorded, Hq1. }
    assert (level a < D - 1) as Hl by (destruct Ha; lia).
    destruct (get_parent_spec a Ha Hl) as (Hgp & Hpv & Hps & _).
    erewrite bind_Ret by (unfold lift; by rewrite Hgp). cbv beta iota.
    specialize (Hpar Hl). pose proof (ok_length _ _ Hok) as Hlim.
    set (parent := mkAddr (level a + 1) (logpageno a / Sl)) in *.
    destruct (fsm_set_and_search_spec s1 parent (logpageno a mod Sl) mx 0)
      as (r & s2 & Hset & Hok2 & Hlen2 & Hupd & _); [done|done|lia|done|done|lia|].
    erewrite bind_Ret by exact Hset. cbv beta iota.
    assert (quiet → same_recorded s s2) as Hq2.
    { intros Hq b Hb. assert (0 < level parent) as Hpl by (destruct Ha; cbn; lia).
      rewrite (cat_upd_recorded _ _ _ _ _ Hpl Hupd b Hb).
      by apply same_cats_recorded; [apply Hq1|]. }
    destruct (Z.ltb_spec 10000 restarts).
    { exists InvalidBlockNumber, s2. split; [done|]. split; [done|]. split; [by left|done]. }
    destruct (IH (restarts + 1) (FSM_ROOT_ADDRESS BLCKSZ) s2) as (b & s3 & Hrun3 & Hok3 & Hres & Hq3);
      [done|apply root_valid| |lia| |].
    { intros Hl'. cbn in Hl'. unfold FSM_ROOT_LEVEL in Hl'. lia. }
    { cbn. unfold FSM_ROOT_LEVEL. destruct Ha; nia. }
    exists b, s3. split; [done|]. split; [done|]. split; [done|].
    intros Hq b' Hb'. rewrite (Hq3 Hq b' Hb'). by apply Hq2.
  - destruct (Z.eqb_spec slot (-1)); [lia|]. cbn [negb].
    destruct (Z.eqb_spec (level a) FSM_BOTTOM_LEVEL) as [E|E].
    + destruct a as [la pa]; cbn in E; unfold FSM_BOTTOM_LEVEL in E; subst la.
      destruct (leaf_blocks s1 pa slot) as (Hblk & Hb & Hdiv & Hmod); [done|done|lia|done|].
      exists (pa * Sl + slot), s1. unfold lift. rewrite Hblk. split; [done|]. split; [done|].
      split; [|intros Hq; by apply same_cats_recorded, Hq1].
      right. split; [done|]. unfold recorded. by rewrite Hdiv, Hmod.
    + assert (0 < level a) as Hl by (destruct Ha; unfold FSM_BOTTOM_LEVEL in E; lia).
      destruct (get_child_spec a slot Ha Hl Hslot) as (Hgc & Hcv & _).
      erewrite bind_Ret by (unfold lift; by rewrite Hgc). cbv beta iota.
      destruct (IH restarts (mkAddr (level a - 1) (logpageno a * Sl + slot)) s1)
        as (b & s3 & Hrun3 & Hok3 & Hres & Hq3); [done|done| |done|cbn; lia|].
      { intros _. cbn. rewrite Z.mul_comm, div_mul_add, Z.sub_add by lia. destruct a. cbn in *. lia. }
      exists b, s3. split; [done|]. split; [done|]. split; [done|].
      intros Hq b' Hb'. rewrite (Hq3 Hq b' Hb'). by apply same_cats_recorded; [apply Hq1|].
Qed.

Lemma fsm_search_spec minv s :
  0 ≤ minv → fsm_ok BLCKSZ s →
  ∃ b s', fsm_search BLCKSZ interfere minv s = Ret (b, s') ∧ fsm_ok BLCKSZ s' ∧
          search_result minv b s' ∧ (quiet → same_recorded s s').
Proof using HB Hint.
  intros Hmin Hok. pose proof (fsm_sizes) as (HS & HD & _).
  apply search_loop_spec; [done|done|apply root_valid| |lia|].
  - intros Hl. cbn in Hl. unfold FSM_ROOT_LEVEL in Hl. lia.
  - cbn [level FSM_ROOT_ADDRESS]. unfold FSM_ROOT_LEVEL. lia.
Qed.
End updates.
End lemmas.

(** ** The operations on heap blocks *)

Section operations.
Context (BLCKSZ : Z) (HB : fsm_blcksz_ok BLCKSZ).
Context (interfere : FSMPageData → FSMPageData).
Context (Hint : ∀ p, page_ok BLCKSZ p → page_ok BLCKSZ (interfere p)).
#[local] Abbreviation Sl := (SlotsPerFSMPage BLCKSZ).
#[local] Abbreviation Max := (MaxFSMRequestSize BLCKSZ).
#[local] Abbreviation phys := (fsm_logical_to_physical BLCKSZ).
#[local] Abbreviation len s := (Z.of_nat (length (fork s))).

(** The heap blocks whose page of the map is within the limit. *)
Definition heap_block (b : BlockNumber) : Prop := 0 ≤ b ∧ b / Sl < max_leaf BLCKSZ.

Lemma heap_block_uint b : heap_block b → is_uint 32 b.
Proof using HB.
  intros [Hb Hlt]. pose proof (fsm_sizes BLCKSZ HB) as (HS & _).
  pose proof (Z.mul_div_le InvalidBlockNumber Sl ltac:(lia)) as Hle. fold (max_leaf BLCKSZ) in Hle.
  pose proof (Z.div_mod b Sl ltac:(lia)) as Hd. pose proof (Z.mod_pos_bound b Sl ltac:(lia)).
  unfold is_uint. change InvalidBlockNumber with (2 ^ 32 - 1) in Hle. nia.
Qed.

Lemma heap_block_phys b :
  heap_block b → phys (mkAddr 0 (b / Sl)) < phys (mkAddr 0 (max_leaf BLCKSZ)).
Proof using HB.
  intros Hb. apply (physical_lt BLCKSZ HB).
  - by apply leaf_addr_valid, heap_block_uint.
  - by apply max_leaf_valid.
  - left. unfold first_leaf. cbn. destruct Hb. lia.
Qed.

(** The category recorded for a block is changed, no other. *)
Definition recorded_upd (s s' : Fsm) (b : BlockNumber) (v : Z) : Prop :=
  ∀ b', is_uint 32 b' → recorded BLCKSZ s' b' = if decide (b' = b) then v else recorded BLCKSZ s b'.

Lemma cat_upd_block s s' b v :
  is_uint 32 b → cat_upd BLCKSZ s s' (mkAddr 0 (b / Sl)) (b mod Sl) v → recorded_upd s s' b v.
Proof using HB.
  intros Hb H b' Hb'. pose proof (fsm_sizes BLCKSZ HB) as (HS & _).
  destruct (get_location_spec BLCKSZ HB b' Hb') as (_ & Hv & Hm). unfold recorded.
  rewrite H by (done || lia). destruct (decide (b' = b)) as [->|Hne].
  - by rewrite decide_True.
  - rewrite decide_False; [done|]. intros [[= Hd] Hmod]. apply Hne.
    rewrite (Z.div_mod b' Sl), (Z.div_mod b Sl) by lia. by rewrite Hd, Hmod.
Qed.

(** The category a number of free bytes is recorded as. *)
Definition cat_of (a : Z) : Z := if Max <=? a then 255 else Z.min 254 (a / FSM_CAT_STEP BLCKSZ).

Lemma RecordPage_spec s b a :
  fsm_ok BLCKSZ s → heap_block b → 0 ≤ a < BLCKSZ →
  ∃ s', RecordPageWithFreeSpace BLCKSZ interfere b a s = Ret (tt, s') ∧ fsm_ok BLCKSZ s' ∧
        recorded_upd s s' b (cat_of a).
Proof using HB Hint.
  intros Hok Hb Ha. pose proof (heap_block_uint b Hb) as Hu.
  destruct (get_location_spec BLCKSZ HB b Hu) as (Hloc & Hv & Hm).
  destruct (fsm_set_and_search_spec BLCKSZ HB interfere Hint s (mkAddr 0 (b / Sl)) (b mod Sl)
              (cat_of a) 0) as (r & s' & Hset & Hok' & _ & Hupd & _);
    [done|done|by apply heap_block_phys|done|apply (avail_to_cat_uint8 BLCKSZ HB); lia|lia|].
  exists s'. unfold RecordPageWithFreeSpace.
  erewrite bind_Ret by (unfold lift; by rewrite (avail_to_cat_spec BLCKSZ HB)).
  rewrite Hloc. fold (cat_of a). erewrite bind_Ret by exact Hset.
  split; [done|]. split; [done|]. by apply cat_upd_block.
Qed.

Lemma XLogReadBuffer_spec s a :
  fsm_ok BLCKSZ s → valid_addr BLCKSZ a → phys a < phys (mkAddr 0 (max_leaf BLCKSZ)) →
  ∃ s' n, XLogReadBufferExtended BLCKSZ (phys a) s = Ret (phys a, s') ∧ fsm_ok BLCKSZ s' ∧
          fork s' = fork s ++ replicate n (empty_page BLCKSZ) ∧ phys a < len s'.
Proof using HB.
  intros [H1 H2 H3 H4] Ha Hlim. unfold XLogReadBufferExtended, get_fsm, put_fsm, smgrnblocks, mbind, cmd_bind.
  cbn [fork_exists fork smgr_fsm_nblocks].
  replace (if fork_exists s then fork s else []) with (fork s)
    by (destruct (fork_exists s); [done|by rewrite H2]).
  destruct (Z.ltb_spec (phys a) (len s)) as [L|L].
  - eexists _, 0%nat. split; [reflexivity|]. cbn. rewrite app_nil_r.
    split; [by split; cbn|]. split; [done|lia].
  - rewrite extend_loop_spec. eexists _, _. split; [reflexivity|]. cbn.
    rewrite length_app, length_replicate. split; [|split; [done|lia]].
    split; cbn; rewrite ?length_app, ?length_replicate; [|done|lia|lia].
    apply Forall_app. split; [done|]. apply Forall_replicate. by apply empty_page_ok.
Qed.

Lemma XLogRecordPage_spec s b a :
  fsm_ok BLCKSZ s → heap_block b → 0 ≤ a < BLCKSZ →
  ∃ s', XLogRecordPageWithFreeSpace BLCKSZ b a s = Ret (tt, s') ∧ fsm_ok BLCKSZ s' ∧
        recorded_upd s s' b (cat_of a).
Proof using HB.
  intros Hok Hb Ha. pose proof (heap_block_uint b Hb) as Hu.
  destruct (get_location_spec BLCKSZ HB b Hu) as (Hloc & Hv & Hm).
  destruct (XLogReadBuffer_spec s _ Hok Hv (heap_block_phys b Hb)) as (s1 & n & Hrd & Hok1 & Hf1 & Hlen1).
  destruct (page_lookup BLCKSZ HB s1 _ Hok1 Hv Hlen1) as (p & Hget & Hp & _ & Hcat).
  destruct (fsm_set_avail_spec BLCKSZ (page_blcksz_ok BLCKSZ HB) p (b mod Sl) (cat_of a))
    as (c & p1 & Hset & Hp1 & _ & Hav & _); [done|done|apply (avail_to_cat_uint8 BLCKSZ HB); lia|].
  unfold XLogRecordPageWithFreeSpace.
  rewrite (bind_Ret _ _ _ (cat_of a) s) by (unfold lift; by rewrite (avail_to_cat_spec BLCKSZ HB)).
  rewrite Hloc. cbv beta zeta. rewrite (bind_Ret _ _ _ _ _ Hrd), (bind_Ret _ _ _ _ _ Hget).
  rewrite (bind_Ret _ _ _ (c, p1) s1) by (unfold lift; by rewrite Hset). cbv beta iota.
  eexists. split; [reflexivity|]. split; [by apply fsm_ok_write|]. apply cat_upd_block; [done|].
  intros a' slot' Ha' Hs'. rewrite (cat_write BLCKSZ HB s1 _ (mkAddr 0 (b / Sl)) a' p1 slot') by done.
  rewrite <- (cat_append BLCKSZ s s1 n a' slot' Hf1).
  destruct (decide (phys a' = phys (mkAddr 0 (b / Sl)))) as [E|E].
  - apply (physical_inj BLCKSZ HB) in E as ->; [|done|done]. rewrite Hav, Hcat by done.
    destruct (decide (slot' = b mod Sl)), (decide (_ ∧ _)); naive_solver.
  - rewrite decide_False; [done|]. intros [-> _]. done.
Qed.

Lemma GetRecorded_spec s b :
  fsm_ok BLCKSZ s → is_uint 32 b →
  ∃ s', GetRecordedFreeSpace BLCKSZ b s =
        Ret (fsm_space_cat_to_avail BLCKSZ (recorded BLCKSZ s b), s') ∧ fsm_ok BLCKSZ s' ∧ fork s' = fork s.
Proof using HB.
  intros Hok Hu. destruct (get_location_spec BLCKSZ HB b Hu) as (Hloc & Hv & Hm).
  destruct (readbuf_false BLCKSZ HB s _ Hok Hv) as (s1 & Hrd & Hok1 & Hf1).
  pose proof (sizes BLCKSZ (page_blcksz_ok BLCKSZ HB)) as (? & ? & Hleaf & ?).
  exists s1. unfold GetRecordedFreeSpace. rewrite Hloc. erewrite bind_Ret by exact Hrd.
  split; [|done]. unfold recorded. destruct (Z.ltb_spec (phys (mkAddr 0 (b / Sl))) (len s)) as [L|L].
  2: { by rewrite cat_end by done. }
  destruct (page_lookup BLCKSZ HB s1 _ Hok1 Hv) as (p & Hget & Hp & Hlook & Hcat); [by rewrite Hf1|].
  erewrite bind_Ret by exact Hget. unfold lift, fsm_get_avail.
  destruct (Z.ltb_spec (b mod Sl) (LeafNodesPerPage BLCKSZ)) as [L'|L'];
    unfold SlotsPerFSMPage in *; [|lia]. cbn [negb].
  erewrite bind_Ret by (rewrite (nodes_get BLCKSZ) by (done || lia); reflexivity).
  unfold mret, cmd_ret. f_equal. f_equal. f_equal.
  transitivity (cat BLCKSZ s1 (mkAddr 0 (b / LeafNodesPerPage BLCKSZ)) (b mod LeafNodesPerPage BLCKSZ)).
  - by rewrite Hcat.
  - unfold cat. by rewrite Hf1.
Qed.

Lemma RecordAndGet_spec s b a n :
  fsm_ok BLCKSZ s → heap_block b → 0 ≤ a < BLCKSZ → 0 ≤ n ≤ Max →
  ∃ cn r s', fsm_space_needed_to_cat BLCKSZ n = Ret cn ∧
    RecordAndGetPageWithFreeSpace BLCKSZ interfere b a n s = Ret (r, s') ∧ fsm_ok BLCKSZ s' ∧
    search_result BLCKSZ cn r s' ∧ (quiet BLCKSZ interfere → recorded_upd s s' b (cat_of a)).
Proof using HB Hint.
  intros Hok Hb Ha Hn. pose proof (heap_block_uint b Hb) as Hu.
  pose proof (needed_to_cat_spec BLCKSZ HB n ltac:(lia)) as Hcn.
  destruct (Z.ltb_spec Max n) as [|_]; [lia|]. set (cn := Z.max 1 _) in Hcn. exists cn.
  destruct (get_location_spec BLCKSZ HB b Hu) as (Hloc & Hv & Hm).
  destruct (fsm_set_and_search_spec BLCKSZ HB interfere Hint s (mkAddr 0 (b / Sl)) (b mod Sl)
              (cat_of a) cn) as (r & s1 & Hset & Hok1 & Hlen & Hupd & Hcase);
    [done|done|by apply heap_block_phys|done|apply (avail_to_cat_uint8 BLCKSZ HB); lia|lia|].
  apply cat_upd_block in Hupd; [|done]. unfold RecordAndGetPageWithFreeSpace.
  rewrite (bind_Ret _ _ _ (cat_of a) s)
    by (unfold lift; by rewrite (avail_to_cat_spec BLCKSZ HB)).
  rewrite (bind_Ret _ _ _ cn s) by (unfold lift; by rewrite Hcn).
  rewrite Hloc, (bind_Ret _ _ _ _ _ Hset). destruct Hcase as [->|(Hpos & Hr & Hge)].
  - cbn [Z.eqb Pos.eqb negb].
    destruct (fsm_search_spec BLCKSZ HB interfere Hint cn s1) as (r & s2 & Hrun & Hok2 & Hres & Hq);
      [lia|done|].
    exists r, s2. split; [done|]. split; [done|]. split; [done|]. split; [done|].
    intros Hquiet b' Hb'. rewrite (Hq Hquiet b' Hb'). by apply Hupd.
  - destruct (Z.eqb_spec r (-1)); [lia|]. cbn [negb].
    destruct (leaf_blocks BLCKSZ HB s1 (b / Sl) r) as (Hblk & Hrange & Hdiv & Hmod); [done|done|lia|done|].
    exists (b / Sl * Sl + r), s1. unfold lift. rewrite Hblk. split; [done|]. split; [done|].
    split; [done|]. split; [|done]. right. split; [done|]. unfold recorded. by rewrite Hdiv, Hmod.
Qed.

(** ** Truncation *)

Lemma cat_take s s' n a slot :
  0 ≤ n → valid_addr BLCKSZ a → fork s' = take (Z.to_nat n) (fork s) →
  cat BLCKSZ s' a slot = if phys a <? n then cat BLCKSZ s a slot else 0.
Proof using HB.
  intros Hn Ha Hf. destruct (logical_to_physical_spec BLCKSZ HB a Ha) as [_ ?]. unfold cat.
  rewrite Hf. destruct (Z.ltb_spec (phys a) n).
  - by rewrite lookup_take_lt by lia.
  - by rewrite lookup_take_ge by lia.
Qed.

Lemma fsm_ok_take s n :
  fsm_ok BLCKSZ s → 0 ≤ n ≤ len s →
  fsm_ok BLCKSZ (mkFsm (fork_exists s) (take (Z.to_nat n) (fork s)) n).
Proof using.
  clear Hint HB. intros [H1 H2 H3 H4] Hn. split; cbn; rewrite ?length_take.
  - by apply Forall_take.
  - intros He. rewrite (H2 He). by apply take_nil.
  - right. lia.
  - lia.
Qed.

(** Bottom pages are in the order of their blocks. *)
Lemma phys_leaf_le p q :
  valid_addr BLCKSZ (mkAddr 0 p) → valid_addr BLCKSZ (mkAddr 0 q) →
  (phys (mkAddr 0 p) <? phys (mkAddr 0 q)) = (p <? q).
Proof using HB.
  intros Hp Hq. destruct (Z.ltb_spec p q) as [L|L].
  - apply Z.ltb_lt, (physical_lt BLCKSZ HB); [done|done|]. left. unfold first_leaf. cbn. lia.
  - apply Z.ltb_ge. destruct (Z.eq_dec p q) as [->|]; [lia|].
    apply Z.lt_le_incl, (physical_lt BLCKSZ HB); [done|done|]. left. unfold first_leaf. cbn. lia.
Qed.

(** The blocks below [n] keep their categories, the others have none. *)
Definition recorded_below (s s' : Fsm) (n : BlockNumber) : Prop :=
  ∀ b, is_uint 32 b → recorded BLCKSZ s' b = if b <? n then recorded BLCKSZ s b else 0.

Lemma Truncate_keep s s' n :
  is_uint 32 n → fork s' = fork s →
  len s ≤ phys (mkAddr 0 (n / Sl)) → recorded_below s s' n.
Proof using HB.
  intros Hn Hf Hlen b Hb. unfold recorded, cat. rewrite Hf. fold (recorded BLCKSZ s b).
  destruct (Z.ltb_spec b n) as [|Hge]; [done|]. apply cat_end.
  pose proof (fsm_sizes BLCKSZ HB) as (HS & _).
  pose proof (phys_leaf_le (b / Sl) (n / Sl)) as H.
  pose proof (Z.div_le_mono n b Sl ltac:(lia) Hge).
  destruct (Z.ltb_spec (b / Sl) (n / Sl)); [lia|].
  apply Z.ltb_ge in H; [lia|by apply leaf_addr_valid..].
Qed.

Lemma div_lt_inv x y : x / Sl < y / Sl → x < y.
Proof using HB.
  pose proof (fsm_sizes BLCKSZ HB) as (HS & _). intros H.
  destruct (Z_lt_le_dec x y) as [|Hle]; [done|].
  pose proof (Z.div_le_mono y x Sl ltac:(lia) Hle). lia.
Qed.

Lemma Truncate_slots s n :
  fsm_ok BLCKSZ s → is_uint 32 n → 0 < n mod Sl → phys (mkAddr 0 (n / Sl)) < len s →
  ∃ p p' c, BufferGetPage (phys (mkAddr 0 (n / Sl))) s = Ret (p, s) ∧
    fsm_truncate_avail BLCKSZ p (n mod Sl) = Ret (c, p') ∧ page_ok BLCKSZ p' ∧
    ∀ s', fork s' = take (Z.to_nat (phys (mkAddr 0 (n / Sl)) + 1))
                      (<[Z.to_nat (phys (mkAddr 0 (n / Sl))) := p']> (fork s)) →
          recorded_below s s' n.
Proof using HB.
  intros Hok Hn Hpos Hlt. pose proof (fsm_sizes BLCKSZ HB) as (HS & _).
  destruct (get_location_spec BLCKSZ HB n Hn) as (_ & Hv & Hm).
  destruct (page_lookup BLCKSZ HB s _ Hok Hv Hlt) as (p & Hget & Hp & Hlook & Hcat).
  destruct (fsm_truncate_avail_spec BLCKSZ (page_blcksz_ok BLCKSZ HB) p (n mod Sl) Hp Hm)
    as (c & p' & Htr & Hp' & Hav & _).
  exists p, p', c. split; [done|]. split; [done|]. split; [done|].
  intros s' Hf b Hb. unfold recorded. destruct (get_location_spec BLCKSZ HB b Hb) as (_ & Hvb & Hmb).
  destruct (logical_to_physical_spec BLCKSZ HB _ Hv) as [_ ?].
  set (s1 := mkFsm true (<[Z.to_nat (phys (mkAddr 0 (n / Sl))) := p']> (fork s)) 0).
  rewrite (cat_take s1 s' (phys (mkAddr 0 (n / Sl)) + 1) _ _ ltac:(lia) Hvb Hf).
  rewrite (cat_write BLCKSZ HB s s1 _ _ p' _ Hv Hvb Hlt eq_refl).
  pose proof (phys_leaf_le (n / Sl) (b / Sl) Hv Hvb) as Hord.
  pose proof (Z.div_mod b Sl ltac:(lia)). pose proof (Z.div_mod n Sl ltac:(lia)).
  case_decide as E.
  - apply (physical_inj BLCKSZ HB) in E; [|done|done]. injection E as E'. rewrite E' in *.
    destruct (Z.ltb_spec (phys (mkAddr 0 (n / Sl))) (phys (mkAddr 0 (n / Sl)) + 1)); [|lia].
    rewrite Hav, Hcat by lia.
    destruct (Z.leb_spec (n mod Sl) (b mod Sl)), (Z.ltb_spec b n); try done; lia.
  - destruct (Z.ltb_spec (n / Sl) (b / Sl)) as [L|L].
    + apply Z.ltb_lt in Hord. rewrite (proj2 (Z.ltb_ge _ _)) by lia.
      apply div_lt_inv in L. rewrite (proj2 (Z.ltb_ge b n)) by lia. done.
    + apply Z.ltb_ge in Hord. rewrite (proj2 (Z.ltb_lt _ _)) by lia.
      assert (b / Sl ≠ n / Sl) by (intros E'; by rewrite E' in E).
      pose proof (div_lt_inv b n ltac:(lia)). rewrite (proj2 (Z.ltb_lt b n)) by lia. done.
Qed.

Lemma Truncate_pages s s' n :
  fsm_ok BLCKSZ s → is_uint 32 n → n mod Sl = 0 →
  fork s' = take (Z.to_nat (phys (mkAddr 0 (n / Sl)))) (fork s) → recorded_below s s' n.
Proof using HB.
  intros Hok Hn Hz Hf b Hb. pose proof (fsm_sizes BLCKSZ HB) as (HS & _).
  destruct (get_location_spec BLCKSZ HB n Hn) as (_ & Hv & Hm).
  destruct (get_location_spec BLCKSZ HB b Hb) as (_ & Hvb & Hmb).
  destruct (logical_to_physical_spec BLCKSZ HB _ Hv) as [_ ?]. unfold recorded.
  rewrite (cat_take s s' (phys (mkAddr 0 (n / Sl))) _ _ ltac:(lia) Hvb Hf), (phys_leaf_le _ _ Hvb Hv).
  pose proof (Z.div_mod b Sl ltac:(lia)). pose proof (Z.div_mod n Sl ltac:(lia)).
  destruct (Z.ltb_spec (b / Sl) (n / Sl)) as [L|L], (Z.ltb_spec b n); try done.
  - apply div_lt_inv in L. lia.
  - assert (b / Sl < n / Sl) by (apply Z.div_lt_upper_bound; lia). lia.
Qed.

Lemma Truncate_spec s n :
  fsm_ok BLCKSZ s → is_uint 32 n →
  ∃ s', FreeSpaceMapTruncateRel BLCKSZ n s = Ret (tt, s') ∧ fsm_ok BLCKSZ s' ∧ recorded_below s s' n.
Proof using HB.
  intros Hok Hn. destruct (get_location_spec BLCKSZ HB n Hn) as (Hloc & Hv & Hm).
  destruct (logical_to_physical_spec BLCKSZ HB _ Hv) as [_ Hphys].
  unfold FreeSpaceMapTruncateRel. erewrite bind_Ret by reflexivity. cbv beta.
  destruct (fork_exists s) eqn:Hex; cbn [negb].
  2: { exists s. split; [done|]. split; [done|]. apply Truncate_keep; [done|done|].
       rewrite (ok_exists _ _ Hok Hex). cbn. lia. }
  rewrite Hloc. destruct (Z.ltb_spec 0 (n mod Sl)) as [Hpos|Hz].
  - destruct (readbuf_false BLCKSZ HB s _ Hok Hv) as (s1 & Hrd & Hok1 & Hf1).
    destruct (Z.ltb_spec (phys (mkAddr 0 (n / Sl))) (len s)) as [L|L].
    + destruct (Truncate_slots s1 n) as (p & p' & c & Hget & Htr & Hp' & Hrec);
        [done|done|done|by rewrite Hf1|].
      set (s2 := mkFsm (fork_exists s1)
                   (<[Z.to_nat (phys (mkAddr 0 (n / Sl))) := p']> (fork s1)) (smgr_fsm_nblocks s1)).
      rewrite (bind_Ret _ _ s (Some (phys (mkAddr 0 (n / Sl)) + 1)) s2).
      2: { rewrite (bind_Ret _ _ _ _ _ Hrd), (bind_Ret _ _ _ _ _ Hget).
           rewrite (bind_Ret _ _ _ (c, p') s1) by (unfold lift; by rewrite Htr).
           cbv beta iota. erewrite bind_Ret by reflexivity.
           rewrite wrap_u_small by (unfold is_uint; lia). done. }
      eexists (mkFsm _ _ _). split; [erewrite bind_Ret by reflexivity; reflexivity|].
      split; [|].
      * apply (fsm_ok_take s2); [by apply fsm_ok_write|]. unfold s2. cbn. rewrite length_insert, Hf1. lia.
      * intros b Hb. etransitivity; [by apply Hrec|]. unfold recorded, cat. by rewrite Hf1.
    + exists s1. rewrite (bind_Ret _ _ s None s1) by (by rewrite (bind_Ret _ _ _ _ _ Hrd)).
      split; [done|]. split; [done|]. apply Truncate_keep; [done|done|lia].
  - unfold smgrnblocks. destruct (Z.leb_spec (len s) (phys (mkAddr 0 (n / Sl)))) as [L|L].
    + exists s. rewrite (bind_Ret _ _ s None s).
      2: { erewrite bind_Ret by (by rewrite Hex). cbn beta. by rewrite (proj2 (Z.leb_le _ _)) by lia. }
      split; [done|]. split; [done|]. apply Truncate_keep; [done|done|lia].
    + rewrite (bind_Ret _ _ s (Some (phys (mkAddr 0 (n / Sl)))) s).
      2: { erewrite bind_Ret by (by rewrite Hex). cbn beta. by rewrite (proj2 (Z.leb_gt _ _)) by lia. }
      eexists (mkFsm _ _ _). split; [erewrite bind_Ret by reflexivity; reflexivity|].
      split; [apply (fsm_ok_take s); [done|lia]|].
      apply Truncate_pages; [done|done|lia|done].
Qed.
End operations.

(** ** Vacuum *)

Section vacuum.
Context (BLCKSZ : Z) (HB : fsm_blcksz_ok BLCKSZ).
#[local] Abbreviation Sl := (SlotsPerFSMPage BLCKSZ).
#[local] Abbreviation D := (FSM_TREE_DEPTH BLCKSZ).
#[local] Abbreviation phys := (fsm_logical_to_physical BLCKSZ).
#[local] Abbreviation len s := (Z.of_nat (length (fork s))).
#[local] Abbreviation fl := (first_leaf BLCKSZ).

(** The root of a page's tree, [0] past the end of the map. *)
Definition pmax (s : Fsm) (a : FSMAddress) : Z :=
  match fork s !! Z.to_nat (phys a) with Some p => wd (fp_nodes p) 0 | None => 0 end.
Definition trees (s : Fsm) : Prop := Forall (tree_ok BLCKSZ) (fork s).
Definition child (a : FSMAddress) (i : Z) : FSMAddress := mkAddr (level a - 1) (logpageno a * Sl + i).

(** The slots of an upper page agree with the pages below. *)
Definition node_ok (s : Fsm) (a : FSMAddress) : Prop :=
  phys a < len s → ∀ i, 0 ≤ i < Sl → cat BLCKSZ s a i = pmax s (child a i).

(** Every page is a consistent tree and every upper page agrees with those below. *)
Definition fsm_consistent (s : Fsm) : Prop :=
  trees s ∧ ∀ a, valid_addr BLCKSZ a → 0 < level a → node_ok s a.

(** The pages of the subtree under a page. *)
Definition in_sub (a a' : FSMAddress) : Prop :=
  level a' ≤ level a ∧ fl a ≤ fl a' < fl a + Sl ^ level a.

Definition same_page (s s' : Fsm) (a : FSMAddress) : Prop :=
  (∀ slot, cat BLCKSZ s' a slot = cat BLCKSZ s a slot) ∧ pmax s' a = pmax s a.

Lemma child_valid a i : valid_addr BLCKSZ a → 0 < level a → 0 ≤ i < Sl → valid_addr BLCKSZ (child a i).
Proof using HB. intros. by apply get_child_spec. Qed.

Lemma fl_child a i : 0 < level a → fl (child a i) = fl a + i * Sl ^ (level a - 1).
Proof using HB.
  intros Hl. unfold first_leaf, child. cbn.
  replace (level a) with (Z.succ (level a - 1)) at 2 by lia. rewrite Z.pow_succ_r by lia. ring.
Qed.

Lemma pow_pos n : 0 ≤ n → 0 < Sl ^ n.
Proof using HB. pose proof (fsm_sizes BLCKSZ HB) as (HS & _). intros. apply Z.pow_pos_nonneg; lia. Qed.

Lemma pow_level a : 0 < level a → Sl ^ level a = Sl * Sl ^ (level a - 1).
Proof using HB.
  intros Hl. replace (level a) with (Z.succ (level a - 1)) at 1 by lia. rewrite Z.pow_succ_r by lia. done.
Qed.

Lemma sub_self a : 0 ≤ level a → in_sub a a.
Proof using HB. intros Hl. pose proof (pow_pos (level a) Hl). unfold in_sub. lia. Qed.

Lemma sub_child a i a' :
  0 < level a → 0 ≤ i < Sl → in_sub (child a i) a' → in_sub a a' ∧ a' ≠ a.
Proof using HB.
  intros Hl Hi [Hl' Hf]. cbn in Hl'. rewrite fl_child in Hf by done. cbn in Hf.
  pose proof (pow_pos (level a - 1) ltac:(lia)). unfold in_sub. rewrite (pow_level a Hl).
  split; [|intros ->; lia]. split; [lia|]. nia.
Qed.

Lemma sub_disjoint a i j a' :
  0 < level a → in_sub (child a i) a' → in_sub (child a j) a' → i = j.
Proof using HB.
  intros Hl [_ Hf] [_ Hg]. rewrite fl_child in Hf, Hg by done. cbn in Hf, Hg.
  pose proof (pow_pos (level a - 1) ltac:(lia)). nia.
Qed.

(** A page of the subtree is its root or under one of the children. *)
Lemma sub_cases a a' :
  valid_addr BLCKSZ a → valid_addr BLCKSZ a' → in_sub a a' →
  a' = a ∨ 0 < level a ∧ ∃ i, 0 ≤ i < Sl ∧ in_sub (child a i) a'.
Proof using HB.
  intros Ha Ha' [Hl Hf]. destruct (Z.eq_dec (level a') (level a)) as [E|E].
  - left. apply (first_leaf_inj BLCKSZ HB); [done|destruct Ha'; lia|].
    assert (0 < Sl ^ level a) as Hp by (apply pow_pos; destruct Ha; lia).
    unfold first_leaf in *. rewrite E in *. clear Ha Ha'.
    assert (logpageno a' = logpageno a) as ->; [|done].
    assert (logpageno a ≤ logpageno a') by nia. assert (logpageno a' < logpageno a + 1) by nia. lia.
  - right. assert (0 < level a) as Hpos by (destruct Ha'; lia). split; [done|].
    pose proof (pow_pos (level a - 1) ltac:(lia)) as Hp. rewrite (pow_level a Hpos) in Hf.
    exists ((fl a' - fl a) / Sl ^ (level a - 1)).
    split; [split; [apply Z.div_pos; lia|apply Z.div_lt_upper_bound; lia]|].
    pose proof (Z.div_mod (fl a' - fl a) (Sl ^ (level a - 1)) ltac:(lia)).
    pose proof (Z.mod_pos_bound (fl a' - fl a) (Sl ^ (level a - 1)) Hp).
    split; cbn; [lia|]. rewrite fl_child by done. lia.
Qed.

Lemma sub_grandchild a a' i :
  0 < level a' → 0 ≤ i < Sl → in_sub a a' → in_sub a (child a' i).
Proof using HB.
  intros Hl Hi [Hla Hf]. split; [cbn; lia|]. rewrite fl_child by done.
  pose proof (pow_pos (level a' - 1) ltac:(lia)) as Hp.
  assert (∃ k, fl a + Sl ^ level a = k * Sl ^ level a') as [k Hk].
  { exists ((logpageno a + 1) * Sl ^ (level a - level a')). unfold first_leaf.
    rewrite <- Z.mul_assoc, <- Z.pow_add_r by lia.
    replace (level a - level a' + level a') with (level a) by lia. ring. }
  assert (fl a' = logpageno a' * (Sl * Sl ^ (level a' - 1))) as Hfl.
  { unfold first_leaf. by rewrite (pow_level a' Hl). }
  rewrite Hk, Hfl, (pow_level a' Hl) in *. set (P := Sl ^ (level a' - 1)) in *.
  pose proof (fsm_sizes BLCKSZ HB) as (HS & _). assert (0 < Sl * P) as HSP by nia.
  assert (logpageno a' < k) by (apply (Z.mul_lt_mono_pos_r (Sl * P)); [done|lia]). split; [nia|].
  assert ((logpageno a' + 1) * (Sl * P) ≤ k * (Sl * P)) by (apply Z.mul_le_mono_nonneg_r; nia).
  assert (i * P < Sl * P) by (apply Z.mul_lt_mono_pos_r; lia). lia.
Qed.

(** A subtree starts with its root. *)
Lemma sub_phys a a' :
  valid_addr BLCKSZ a → valid_addr BLCKSZ a' → in_sub a a' → phys a ≤ phys a'.
Proof using HB.
  intros Ha Ha' [Hl Hf]. destruct (Z.eq_dec (level a') (level a)) as [E|E].
  - destruct (sub_cases a a' Ha Ha') as [->|(_ & i & _ & [Hc _])]; [by split|lia|].
    cbn in Hc. lia.
  - apply Z.lt_le_incl, (physical_lt BLCKSZ HB); [done|done|]. unfold before. lia.
Qed.

Lemma node_ok_ext s s' a :
  len s' = len s → same_page s s' a → (∀ i, 0 ≤ i < Sl → pmax s' (child a i) = pmax s (child a i)) →
  node_ok s a → node_ok s' a.
Proof using.
  clear HB. intros Hlen [Hc _] Hm Hok Hlt i Hi. rewrite Hc, Hm by done. apply Hok; [lia|done].
Qed.

Lemma same_page_refl s a : same_page s s a.
Proof using. clear HB. by split. Qed.
Lemma same_page_trans s s' s'' a : same_page s s' a → same_page s' s'' a → same_page s s'' a.
Proof using. clear HB. intros [H1 H2] [H3 H4]. split; [intros; by rewrite H3|by rewrite H4]. Qed.

(** Every page but [a] keeps its contents. *)
Lemma write_same s s' a a' p :
  valid_addr BLCKSZ a → valid_addr BLCKSZ a' → a' ≠ a →
  fork s' = <[Z.to_nat (phys a) := p]> (fork s) → same_page s s' a'.
Proof using HB.
  intros Ha Ha' Hne Hf. destruct (logical_to_physical_spec BLCKSZ HB a Ha) as [_ ?].
  destruct (logical_to_physical_spec BLCKSZ HB a' Ha') as [_ ?].
  assert (phys a' ≠ phys a) by (intros E; by apply (physical_inj BLCKSZ HB) in E).
  assert (fork s' !! Z.to_nat (phys a') = fork s !! Z.to_nat (phys a')) as E
    by (rewrite Hf; apply list_lookup_insert_ne; lia).
  split; [intros slot; unfold cat|unfold pmax]; by rewrite E.
Qed.

(** What the vacuum of the subtree of [a] does. *)
Record vac_res (a : FSMAddress) (s s' : Fsm) : Prop := {
  vac_ok : fsm_ok BLCKSZ s';
  vac_trees : trees s';
  vac_len : len s' = len s;
  vac_same : ∀ a', valid_addr BLCKSZ a' → ¬ in_sub a a' ∨ level a' = 0 → same_page s s' a';
  vac_nodes : ∀ a', valid_addr BLCKSZ a' → in_sub a a' → 0 < level a' → node_ok s' a'
}.

(** A subtree past the end of the map. *)
Lemma vac_res_end a s s' :
  fsm_ok BLCKSZ s' → trees s → fork s' = fork s → valid_addr BLCKSZ a → len s ≤ phys a → vac_res a s s'.
Proof using HB.
  intros Hok Ht Hf Ha Hend. split; [done|unfold trees; by rewrite Hf|by rewrite Hf| |].
  - intros a' _ _. split; [intros; unfold cat|unfold pmax]; by rewrite Hf.
  - intros a' Ha' Hs _ Hlt. pose proof (sub_phys a a' Ha Ha' Hs). rewrite Hf in Hlt. lia.
Qed.

Lemma pmax_end s a : len s ≤ phys a → pmax s a = 0.
Proof using. clear HB. intros H. unfold pmax. by rewrite lookup_ge_None_2 by lia. Qed.

(** The pages of the map before slot [i] of [a] are done. *)
Record slots_inv (a : FSMAddress) (s0 s : Fsm) (i : Z) : Prop := {
  si_ok : fsm_ok BLCKSZ s;
  si_trees : trees s;
  si_len : len s = len s0;
  si_same : ∀ a', valid_addr BLCKSZ a' → ¬ in_sub a a' ∨ level a' = 0 → same_page s0 s a';
  si_cat : ∀ j, 0 ≤ j < i → cat BLCKSZ s a j = pmax s (child a j);
  si_nodes : ∀ j a', 0 ≤ j < i → valid_addr BLCKSZ a' → in_sub (child a j) a' → 0 < level a' → node_ok s a'
}.

(** The update of slot [i] of the page. *)
Lemma vacuum_set_spec a i s v :
  fsm_ok BLCKSZ s → trees s → valid_addr BLCKSZ a → phys a < len s → 0 ≤ i < Sl → is_uint 8 v →
  ∃ s', vacuum_set BLCKSZ (phys a) i v s = Ret (tt, s') ∧
    fsm_ok BLCKSZ s' ∧ trees s' ∧ len s' = len s ∧
    (∀ a', valid_addr BLCKSZ a' → a' ≠ a → same_page s s' a') ∧
    (∀ j, 0 ≤ j → cat BLCKSZ s' a j = if decide (j = i) then v else cat BLCKSZ s a j).
Proof using HB.
  intros Hok Ht Ha Hlt Hi Hv. pose proof (page_blcksz_ok BLCKSZ HB) as HB'.
  pose proof (sizes BLCKSZ HB') as (? & ? & ? & ?). unfold SlotsPerFSMPage in *.
  destruct (page_lookup BLCKSZ HB s a Hok Ha Hlt) as (p & Hget & Hp & Hlook & Hcat).
  unfold vacuum_set. rewrite (bind_Ret _ _ _ _ _ Hget). unfold fsm_get_avail.
  destruct (Z.ltb_spec i (LeafNodesPerPage BLCKSZ)); [|lia]. cbn [negb].
  rewrite (bind_Ret _ _ _ (avail BLCKSZ p i) s)
    by (unfold lift; rewrite (nodes_get BLCKSZ) by (done || lia); done).
  destruct (Z.eqb_spec (avail BLCKSZ p i) v) as [E|E]; cbn [negb].
  { exists s. split; [done|]. split; [done|]. split; [done|]. split; [done|].
    split; [intros; apply same_page_refl|]. intros j Hj. case_decide; [by subst j; rewrite Hcat|done]. }
  destruct (fsm_set_avail_spec BLCKSZ HB' p i v Hp Hi Hv) as (b & p1 & Hset & Hp1 & _ & Hav & _ & Ht1 & _).
  rewrite (bind_Ret _ _ _ (b, p1) s) by (unfold lift; by rewrite Hset).
  set (s' := mkFsm (fork_exists s) (<[Z.to_nat (phys a) := p1]> (fork s)) (smgr_fsm_nblocks s)).
  exists s'. split; [reflexivity|]. split; [exact (fsm_ok_write BLCKSZ s a p1 Hok Hp1)|]. split; [|split; [|split]].
  - apply Forall_insert; [exact Ht|]. apply Ht1. eapply Forall_lookup_1; [exact Ht|done].
  - cbn. by rewrite length_insert.
  - intros a' Ha' Hne. by apply (write_same s _ a a' p1).
  - intros j Hj. rewrite (cat_write BLCKSZ HB s s' a a p1 j Ha Ha Hlt eq_refl).
    rewrite decide_True by done. by rewrite Hav, Hcat by done.
Qed.

(** One slot: the child's subtree is vacuumed, then the slot is updated. *)
Lemma slots_inv_step a s0 s s1 s2 i :
  valid_addr BLCKSZ a → 0 < level a → phys a < len s0 → 0 ≤ i < Sl →
  slots_inv a s0 s i → vac_res (child a i) s s1 →
  fsm_ok BLCKSZ s2 → trees s2 → len s2 = len s1 →
  (∀ a', valid_addr BLCKSZ a' → a' ≠ a → same_page s1 s2 a') →
  (∀ j, 0 ≤ j → cat BLCKSZ s2 a j =
                if decide (j = i) then pmax s1 (child a i) else cat BLCKSZ s1 a j) →
  slots_inv a s0 s2 (i + 1).
Proof using HB.
  intros Ha Hl Hlt Hi [H1 H2 H3 H4 H5 H6] [V1 V2 V3 V4 V5] Hok2 Ht2 Hlen2 Hsame Hcat.
  assert (∀ j a', 0 ≤ j < i → valid_addr BLCKSZ a' → in_sub (child a j) a' → same_page s s2 a') as Hj.
  { intros j a' Hj Ha' Hs. destruct (sub_child a j a' Hl ltac:(lia) Hs) as [_ Hne].
    eapply same_page_trans; [apply V4; [done|]|by apply Hsame].
    left. intros Hs'. pose proof (sub_disjoint a i j a' Hl Hs' Hs). lia. }
  assert (∀ j, 0 ≤ j < Sl → child a j ≠ a) as Hca.
  { intros j _ E. apply (f_equal level) in E. cbn in E. lia. }
  split; [done|done|lia| | |].
  - intros a' Ha' Hc. eapply same_page_trans; [by apply H4|].
    assert (a' ≠ a) as Hne.
    { intros ->. destruct Hc as [Hc|Hc]; [|lia]. apply Hc, sub_self. lia. }
    eapply same_page_trans; [apply V4; [done|]|by apply Hsame].
    destruct Hc as [Hc|Hc]; [left|by right]. intros Hs. by apply Hc, (sub_child a i a').
  - intros j Hj'. rewrite Hcat by lia. case_decide as E.
    + subst j. symmetry. apply Hsame; [by apply child_valid|by apply Hca].
    + assert (same_page s s1 a) as [Hca1 _].
      { apply V4; [done|]. left. intros Hs. by destruct (sub_child a i a Hl Hi Hs). }
      rewrite Hca1, H5 by lia. symmetry. apply (Hj j (child a j) ltac:(lia)).
      * apply child_valid; [done|done|lia].
      * apply sub_self. cbn. lia.
  - intros j a' Hj' Ha' Hs Hla'.
    assert (∀ k, 0 ≤ k < Sl → valid_addr BLCKSZ (child a' k) ∧ in_sub (child a j) (child a' k)) as Hk.
    { intros k Hk. split; [by apply child_valid|by apply sub_grandchild]. }
    destruct (Z.eq_dec j i) as [->|Hne].
    + destruct (sub_child a i a' Hl Hi Hs) as [_ Hne].
      apply (node_ok_ext s1); [done|by apply Hsame| |by apply V5].
      intros k Hk'. destruct (Hk k Hk') as [Hv Hs']. apply Hsame; [done|].
      by apply (sub_child a i _ Hl Hi Hs').
    + apply (node_ok_ext s); [lia|by apply (Hj j); (done || lia)| |by apply (H6 j); (done || lia)].
      intros k Hk'. destruct (Hk k Hk') as [Hv Hs']. apply (Hj j); (done || lia).
Qed.

(** The vacuum of a page, and what the loop assumes of the recursive call. *)
Definition vacuums (run : FSMAddress → cmd Fsm (Z * bool)) (lv : Z) : Prop :=
  ∀ a s, valid_addr BLCKSZ a → level a = lv → fsm_ok BLCKSZ s → trees s →
  ∃ s', run a s = Ret ((pmax s' a, len s <=? phys a), s') ∧ vac_res a s s'.

Lemma pmax_uint8 s a : fsm_ok BLCKSZ s → is_uint 8 (pmax s a).
Proof using.
  clear HB. intros Hok. unfold pmax. destruct (fork s !! _) as [p|] eqn:E; [|done].
  eapply wd_uint8. eapply Forall_lookup_1 in E; [exact E|apply Hok].
Qed.

Lemma child_order a i j : valid_addr BLCKSZ a → 0 < level a → 0 ≤ i ≤ j → j < Sl → phys (child a i) ≤ phys (child a j).
Proof using HB.
  intros Ha Hl Hij Hj. destruct (Z.eq_dec i j) as [->|Hne]; [lia|].
  apply Z.lt_le_incl, (physical_lt BLCKSZ HB); [apply child_valid; done || lia..|].
  left. rewrite !fl_child by done. pose proof (pow_pos (level a - 1) ltac:(lia)). nia.
Qed.

Lemma vacuum_slots_spec run a s0 n i eof s :
  vacuums run (level a - 1) → valid_addr BLCKSZ a → 0 < level a → phys a < len s0 →
  0 ≤ i → i + Z.of_nat n = Sl → slots_inv a s0 s i →
  (eof = true → 0 < i ∧ len s0 ≤ phys (child a (i - 1))) →
  ∃ s', vacuum_slots BLCKSZ run n a (phys a) i eof s = Ret (tt, s') ∧ slots_inv a s0 s' Sl.
Proof using HB.
  intros Hrun Ha Hl Hlt. revert i eof s. induction n as [|n IH]; intros i eof s Hi Hn Hinv Heof.
  { exists s. split; [done|]. by replace Sl with i by lia. }
  cbn [vacuum_slots]. destruct (get_child_spec BLCKSZ HB a i Ha Hl ltac:(lia)) as (Hgc & Hcv & _).
  fold (child a i) in Hgc, Hcv.
  assert (∃ eof' s1, (if negb eof then c ← lift (fsm_get_child BLCKSZ a i); run c else mret (0, eof)) s
            = Ret ((pmax s1 (child a i), eof'), s1) ∧ vac_res (child a i) s s1 ∧
            (eof' = true → len s0 ≤ phys (child a i))) as (eof' & s1 & Hr & Hvac & Heof').
  { destruct Hinv. destruct eof; cbn [negb].
    - assert (len s0 ≤ phys (child a i)) as Hend.
      { destruct (Heof eq_refl) as [Hpos Hend]. etransitivity; [exact Hend|].
        apply child_order; done || lia. }
      exists true, s. rewrite (pmax_end s) by lia. split; [done|]. split; [|done].
      apply vac_res_end; done || lia.
    - destruct (Hrun (child a i) s) as (s1 & Hr & Hvac); [done|done|done|done|].
      exists (len s <=? phys (child a i)), s1. split.
      + rewrite (bind_Ret _ _ s (child a i) s) by (unfold lift; by rewrite Hgc). done.
      + split; [done|]. intros E. apply Z.leb_le in E. lia. }
  rewrite (bind_Ret _ _ _ _ _ Hr). cbv beta iota.
  destruct (vacuum_set_spec a i s1 (pmax s1 (child a i))) as (s2 & Hset & Hok2 & Ht2 & Hlen2 & Hsame & Hcat).
  { apply Hvac. } { apply Hvac. } { done. } { rewrite (vac_len _ _ _ Hvac), (si_len _ _ _ _ Hinv). done. }
  { lia. } { apply pmax_uint8, Hvac. }
  rewrite (bind_Ret _ _ _ _ _ Hset). apply IH; [lia|lia| |].
  - eapply slots_inv_step; done || lia.
  - intros E. split; [lia|]. replace (i + 1 - 1) with i by lia. by apply Heof'.
Qed.

Lemma slots_inv_done a s0 s :
  valid_addr BLCKSZ a → 0 < level a → slots_inv a s0 s Sl → vac_res a s0 s.
Proof using HB.
  intros Ha Hl [H1 H2 H3 H4 H5 H6]. split; try done. intros a' Ha' Hs Hl'.
  destruct (sub_cases a a' Ha Ha' Hs) as [->|(_ & i & Hi & Hsi)].
  - intros _ i Hi. by apply H5.
  - by apply (H6 i).
Qed.

(** A state with the same nodes in every page. *)
Lemma vac_res_same a s s1 s2 :
  vac_res a s s1 → fsm_ok BLCKSZ s2 → trees s2 → len s2 = len s1 →
  (∀ a', valid_addr BLCKSZ a' → same_page s1 s2 a') → vac_res a s s2.
Proof using HB.
  intros [V1 V2 V3 V4 V5] Hok Ht Hlen Hsame. split; [done|done|lia| |].
  - intros a' Ha' Hc. eapply same_page_trans; [by apply V4|by apply Hsame].
  - intros a' Ha' Hs Hl. apply (node_ok_ext s1); [done|by apply Hsame| |by apply V5].
    intros i Hi. apply Hsame. by apply child_valid.
Qed.

(** The end of [fsm_vacuum_page]: the maximum is read and the next slot is reset. *)
Lemma vacuum_reset_spec a s :
  fsm_ok BLCKSZ s → trees s → valid_addr BLCKSZ a → phys a < len s →
  ∃ s', (page ← BufferGetPage (phys a);
         max_avail ← lift (fsm_get_max_avail page);
         _ ← write_page (phys a) (mkFSMPage 0 (fp_nodes page));
         mret (max_avail, false)) s = Ret ((pmax s' a, false), s') ∧
    fsm_ok BLCKSZ s' ∧ trees s' ∧ len s' = len s ∧ ∀ a', valid_addr BLCKSZ a' → same_page s s' a'.
Proof using HB.
  intros Hok Ht Ha Hlt. pose proof (page_blcksz_ok BLCKSZ HB) as HB'.
  pose proof (sizes BLCKSZ HB') as (? & ? & ? & ?).
  destruct (logical_to_physical_spec BLCKSZ HB a Ha) as [_ Hphys].
  destruct (page_lookup BLCKSZ HB s a Hok Ha Hlt) as (p & Hget & Hp & Hlook & Hcat).
  rewrite (bind_Ret _ _ _ _ _ Hget). unfold fsm_get_max_avail.
  rewrite (bind_Ret _ _ _ (wd (fp_nodes p) 0) s)
    by (unfold lift; rewrite (nodes_get BLCKSZ) by (done || lia); done).
  set (p' := mkFSMPage 0 (fp_nodes p)).
  set (s' := mkFsm (fork_exists s) (<[Z.to_nat (phys a) := p']> (fork s)) (smgr_fsm_nblocks s)).
  assert (fork s' !! Z.to_nat (phys a) = Some p') as Hlook' by (apply list_lookup_insert_eq; lia).
  exists s'. split; [|split; [exact (fsm_ok_write BLCKSZ s a p' Hok Hp)|split; [|split]]].
  - rewrite (bind_Ret _ _ _ tt s') by done. unfold pmax. by rewrite Hlook'.
  - apply Forall_insert; [exact Ht|]. change (tree_ok BLCKSZ p).
    eapply Forall_lookup_1; [exact Ht|done].
  - cbn. by rewrite length_insert.
  - intros a' Ha'. destruct (decide (a' = a)) as [->|Hne]; [|by apply (write_same s s' a a' p')].
    split; [intros slot; unfold cat|unfold pmax]; by rewrite Hlook, Hlook'.
Qed.

Lemma fsm_vacuum_page_spec lvl : vacuums (fsm_vacuum_page BLCKSZ lvl) (Z.of_nat lvl).
Proof using HB.
  induction lvl as [|lvl IH]; intros a s Ha Hl Hok Ht; cbn [fsm_vacuum_page];
    destruct (readbuf_false BLCKSZ HB s a Hok Ha) as (s1 & Hrd & Hok1 & Hf1);
    rewrite (bind_Ret _ _ _ _ _ Hrd);
    destruct (Z.ltb_spec (phys a) (len s)) as [L|L];
    [rewrite (proj2 (Z.leb_gt _ _)) by lia|rewrite (proj2 (Z.leb_le _ _)) by lia
    |rewrite (proj2 (Z.leb_gt _ _)) by lia|rewrite (proj2 (Z.leb_le _ _)) by lia].
  2, 4: (exists s1; split; [by rewrite pmax_end by (rewrite Hf1; lia)|by apply vac_res_end]).
  all: assert (trees s1) as Ht1 by (unfold trees; by rewrite Hf1).
  all: assert (∀ s2, vac_res a s1 s2 → vac_res a s s2) as Hback.
  1, 3: (intros s2 [V1 V2 V3 V4 V5]; split; [done|done|by rewrite V3, Hf1| |done];
         intros a' Ha' Hc; eapply same_page_trans; [|by apply V4];
         split; [intros slot; unfold cat|unfold pmax]; by rewrite Hf1).
  - rewrite (bind_Ret _ _ _ tt s1) by done.
    destruct (vacuum_reset_spec a s1) as (s3 & Hrs & Hok3 & Ht3 & Hlen3 & Hsame); [done|done|done|by rewrite Hf1|].
    exists s3. split; [done|]. apply Hback. split; [done|done|done|by intros; apply Hsame|].
    intros a' _ [Hla _] Hpos. lia.
  - destruct (vacuum_slots_spec (fsm_vacuum_page BLCKSZ lvl) a s1 (Z.to_nat Sl) 0 false s1)
      as (s2 & Hsl & Hinv); [|done|lia|by rewrite Hf1|lia| | |done|].
    { by replace (level a - 1) with (Z.of_nat lvl) by lia. }
    { pose proof (fsm_sizes BLCKSZ HB). lia. }
    { split; try done; intros; lia. }
    apply slots_inv_done in Hinv; [|done|lia].
    rewrite (bind_Ret _ _ _ _ _ Hsl).
    destruct (vacuum_reset_spec a s2) as (s3 & Hrs & Hok3 & Ht3 & Hlen3 & Hsame);
      [apply Hinv|apply Hinv|done|rewrite (vac_len _ _ _ Hinv), Hf1; done|].
    exists s3. split; [done|]. apply Hback. by apply (vac_res_same a s1 s2).
Qed.

Lemma Vacuum_spec s :
  fsm_ok BLCKSZ s → trees s →
  ∃ s', FreeSpaceMapVacuum BLCKSZ s = Ret (tt, s') ∧ fsm_ok BLCKSZ s' ∧ fsm_consistent s' ∧
        len s' = len s ∧ same_recorded BLCKSZ s s'.
Proof using HB.
  intros Hok Ht. pose proof (fsm_sizes BLCKSZ HB) as (HS & HD & _).
  pose proof (root_valid BLCKSZ HB) as Hrv.
  destruct (fsm_vacuum_page_spec (Z.to_nat (FSM_ROOT_LEVEL BLCKSZ)) (FSM_ROOT_ADDRESS BLCKSZ) s)
    as (s' & Hrun & [V1 V2 V3 V4 V5]); [done|cbn; unfold FSM_ROOT_LEVEL; lia|done|done|].
  exists s'. unfold FreeSpaceMapVacuum. rewrite (bind_Ret _ _ _ _ _ Hrun).
  split; [done|]. split; [done|]. split; [split; [done|]|split; [done|]].
  - intros a Ha Hl. apply V5; [done| |done]. pose proof (first_leaf_bound BLCKSZ HB a Ha) as Hf.
    destruct Ha as [Hla _]. assert (fl (FSM_ROOT_ADDRESS BLCKSZ) = 0) as E by done.
    unfold in_sub. rewrite E. cbn [level FSM_ROOT_ADDRESS]. unfold FSM_ROOT_LEVEL. lia.
  - intros b Hb. destruct (get_location_spec BLCKSZ HB b Hb) as (_ & Hv & _).
    apply V4; [done|by right].
Qed.

(** ** Completeness of the search in a consistent map *)

Section complete.
Context (interfere : FSMPageData → FSMPageData).
Context (Hint : ∀ p, page_ok BLCKSZ p → page_ok BLCKSZ (interfere p)).

Lemma consistent_same s s' :
  fsm_consistent s → trees s' → len s' = len s →
  (∀ a, valid_addr BLCKSZ a → same_page s s' a) → fsm_consistent s'.
Proof using HB.
  intros [_ Hn] Ht Hlen Hsame. split; [done|]. intros a Ha Hl.
  apply (node_ok_ext s); [done|by apply Hsame| |by apply Hn].
  intros i Hi. apply Hsame. by apply child_valid.
Qed.

Lemma search_page_consistent s a minv :
  fsm_ok BLCKSZ s → fsm_consistent s → valid_addr BLCKSZ a → 0 < minv →
  ∃ slot mx s', search_page BLCKSZ interfere minv a s = Ret ((slot, mx), s') ∧ fsm_ok BLCKSZ s' ∧
    fsm_consistent s' ∧ len s' = len s ∧ (∀ a', valid_addr BLCKSZ a' → same_page s s' a') ∧
    (slot = -1 ∧ pmax s a < minv ∨ 0 ≤ slot < Sl ∧ phys a < len s ∧ minv ≤ cat BLCKSZ s a slot).
Proof using HB Hint.
  intros Hok Hcons Ha Hmin. pose proof (page_blcksz_ok BLCKSZ HB) as HB'.
  destruct (readbuf_false BLCKSZ HB s a Hok Ha) as (s1 & Hrd & Hok1 & Hf1). unfold search_page.
  rewrite (bind_Ret _ _ _ _ _ Hrd).
  assert (∀ a', same_page s s1 a') as Hsame1
    by (intros a'; split; [intros slot; unfold cat|unfold pmax]; by rewrite Hf1).
  assert (trees s1) as Ht1 by (unfold trees; rewrite Hf1; apply Hcons).
  destruct (Z.ltb_spec (phys a) (len s)) as [L|L].
  2: { exists (-1), 0, s1. split; [done|]. split; [done|].
       split; [by apply (consistent_same s); [done|done|by rewrite Hf1|]|]. split; [by rewrite Hf1|].
       split; [done|]. left. by rewrite pmax_end by done. }
  destruct (page_lookup BLCKSZ HB s1 a Hok1 Ha) as (p & Hget & Hp & Hlook & Hcat); [by rewrite Hf1|].
  rewrite (bind_Ret _ _ _ _ _ Hget).
  assert (tree_ok BLCKSZ p) as Htp by (eapply Forall_lookup_1; [exact Ht1|exact Hlook]).
  destruct (fsm_search_avail_spec BLCKSZ HB' interfere p minv (level a =? FSM_BOTTOM_LEVEL) false)
    as (slot & p1 & dirty & Hsr & Hp1 & Hcase & _ & Hkeep); [done|done|lia|].
  destruct (Hkeep Htp) as [-> Hnodes].
  rewrite (bind_Ret _ _ _ (slot, p1, false) s1) by (unfold lift; by rewrite Hsr). cbv beta iota.
  set (s2 := mkFsm (fork_exists s1) (<[Z.to_nat (phys a) := p1]> (fork s1)) (smgr_fsm_nblocks s1)).
  rewrite (bind_Ret _ _ _ tt s2) by done.
  pose proof (fsm_ok_write BLCKSZ s1 a p1 Hok1 Hp1) as Hok2. fold s2 in Hok2.
  assert (len s2 = len s) as Hlen by (unfold s2; cbn; by rewrite length_insert, Hf1).
  assert (∀ a', valid_addr BLCKSZ a' → same_page s s2 a') as Hsame.
  { intros a' Ha'. eapply same_page_trans; [apply Hsame1|].
    destruct (decide (a' = a)) as [->|Hne]; [|by apply (write_same s1 s2 a a' p1)].
    destruct (logical_to_physical_spec BLCKSZ HB a Ha) as [_ ?].
    assert (fork s2 !! Z.to_nat (phys a) = Some p1) as Hlook'
      by (apply list_lookup_insert_eq; rewrite Hf1; lia).
    split; [intros sl; unfold cat|unfold pmax]; rewrite Hlook, Hlook'; unfold avail; by rewrite Hnodes. }
  assert (trees s2) as Ht2.
  { apply Forall_insert; [exact Ht1|]. unfold tree_ok. rewrite Hnodes. exact Htp. }
  assert (fsm_consistent s2) as Hcons2 by by apply (consistent_same s).
  destruct Hcase as [[-> Hroot]|(Hs & Hge & _)].
  - cbn [Z.eqb Pos.eqb]. unfold fsm_get_max_avail.
    pose proof (sizes BLCKSZ HB') as (? & ? & ? & ?).
    erewrite bind_Ret by (unfold lift; by rewrite (nodes_get BLCKSZ) by (done || lia)).
    exists (-1), (wd (fp_nodes p1) 0), s2. do 4 (split; [done|]). split; [done|]. left.
    split; [done|]. rewrite Hnodes in Hroot. unfold pmax. by rewrite <- Hf1, Hlook.
  - destruct (Z.eqb_spec slot (-1)); [lia|]. exists slot, 0, s2. do 4 (split; [done|]). split; [done|].
    right. split; [done|]. split; [done|]. rewrite <- (proj1 (Hsame1 a)), Hcat.
    unfold avail in *. by rewrite Hnodes in Hge.
Qed.

(** Below a page whose maximum is large enough there is a block. *)
Lemma search_loop_found minv fuel restarts a s :
  0 < minv → fsm_ok BLCKSZ s → fsm_consistent s → valid_addr BLCKSZ a → minv ≤ pmax s a →
  level a < Z.of_nat fuel →
  ∃ b s', search_loop BLCKSZ interfere fuel minv restarts a s = Ret (b, s') ∧
          0 ≤ b < InvalidBlockNumber ∧ minv ≤ recorded BLCKSZ s b.
Proof using HB Hint.
  intros Hmin. revert a s. induction fuel as [|fuel IH]; intros a s Hok Hcons Ha Hge Hfuel;
    [destruct Ha; lia|].
  cbn [search_loop].
  destruct (search_page_consistent s a minv Hok Hcons Ha Hmin)
    as (slot & mx & s1 & Hrun & Hok1 & Hcons1 & Hlen1 & Hsame & [[-> Hlt]|(Hslot & Hlt & Hcat)]); [lia|].
  rewrite (bind_Ret _ _ _ _ _ Hrun). cbv beta iota.
  destruct (Z.eqb_spec slot (-1)); [lia|]. cbn [negb].
  destruct (Z.eqb_spec (level a) FSM_BOTTOM_LEVEL) as [E|E]; unfold FSM_BOTTOM_LEVEL in E.
  - destruct a as [la pa]; cbn in E; subst la.
    destruct (leaf_blocks BLCKSZ HB s pa slot) as (Hblk & Hb & Hdiv & Hmod); [done|done|lia|done|].
    exists (pa * Sl + slot), s1. unfold lift. rewrite Hblk. split; [done|]. split; [done|].
    unfold recorded. by rewrite Hdiv, Hmod.
  - assert (0 < level a) as Hl by (destruct Ha; lia).
    destruct (get_child_spec BLCKSZ HB a slot Ha Hl Hslot) as (Hgc & Hcv & _).
    rewrite (bind_Ret _ _ _ (child a slot) s1) by (unfold lift; by rewrite Hgc).
    destruct (IH (child a slot) s1) as (b & s2 & Hrun2 & Hb & Hrec); [done|done|done| |cbn; lia|].
    { rewrite (proj2 (Hsame (child a slot) Hcv)). by rewrite <- (proj2 Hcons a Ha Hl Hlt slot Hslot). }
    exists b, s2. split; [done|]. split; [done|]. unfold recorded in *.
    rewrite <- (proj1 (Hsame (mkAddr 0 (b / Sl)) ltac:(apply leaf_addr_valid; [done|
      unfold is_uint; change InvalidBlockNumber with (2 ^ 32 - 1) in Hb; lia]))). done.
Qed.

(** No page has a larger maximum than the root page. *)
Lemma pmax_root s a :
  fsm_ok BLCKSZ s → fsm_consistent s → valid_addr BLCKSZ a → pmax s a ≤ pmax s (FSM_ROOT_ADDRESS BLCKSZ).
Proof using HB.
  intros Hok Hcons. pose proof (fsm_sizes BLCKSZ HB) as (HS & HD & _).
  remember (Z.to_nat (D - 1 - level a)) as n eqn:Hn. revert a Hn.
  induction n as [|n IH]; intros a Hn Ha.
  - assert (level a = D - 1) as El by (destruct Ha; lia). destruct Ha as [_ Hp]. rewrite El in Hp.
    replace (D - 1 - (D - 1)) with 0 in Hp by lia. change (Sl ^ 0) with 1 in Hp.
    destruct a as [la pa]; cbn in *. subst la. by replace pa with 0 by lia.
  - assert (level a < D - 1) as Hl by lia.
    destruct (get_parent_spec BLCKSZ HB a Ha Hl) as (_ & Hpv & Hps & Hbef).
    set (parent := mkAddr _ _) in *. specialize (IH parent ltac:(cbn; lia) Hpv).
    destruct (Z_lt_le_dec (phys a) (len s)) as [L|L].
    2: { rewrite pmax_end by done. pose proof (pmax_uint8 s (FSM_ROOT_ADDRESS BLCKSZ) Hok).
         unfold is_uint in *. lia. }
    pose proof (physical_lt BLCKSZ HB _ _ Hpv Ha Hbef) as Hlt.
    assert (0 < level parent) as Hpl by (destruct Ha; cbn; lia).
    pose proof (proj2 Hcons parent Hpv Hpl ltac:(lia) _ Hps) as Hc.
    assert (child parent (logpageno a mod Sl) = a) as Hca.
    { unfold child. cbn. rewrite Z.mul_comm, <- Z.div_mod, Z.add_simpl_r by lia. by destruct a. }
    rewrite Hca in Hc. rewrite <- Hc. etransitivity; [|exact IH].
    destruct (page_lookup BLCKSZ HB s parent Hok Hpv) as (p & _ & Hp & Hlook & Hcat); [lia|].
    rewrite Hcat. unfold pmax. rewrite Hlook.
    apply (root_max BLCKSZ (page_blcksz_ok BLCKSZ HB) p Hp); [|done].
    eapply Forall_lookup_1; [exact (proj1 Hcons)|exact Hlook].
Qed.

Lemma recorded_root s b :
  fsm_ok BLCKSZ s → fsm_consistent s → is_uint 32 b →
  recorded BLCKSZ s b ≤ pmax s (FSM_ROOT_ADDRESS BLCKSZ).
Proof using HB.
  intros Hok Hcons Hb. destruct (get_location_spec BLCKSZ HB b Hb) as (_ & Hv & Hm).
  etransitivity; [|by apply (pmax_root s (mkAddr 0 (b / Sl)))]. unfold recorded.
  destruct (Z_lt_le_dec (phys (mkAddr 0 (b / Sl))) (len s)) as [L|L].
  2: { rewrite cat_end, pmax_end by done. lia. }
  destruct (page_lookup BLCKSZ HB s _ Hok Hv L) as (p & _ & Hp & Hlook & Hcat).
  rewrite Hcat. unfold pmax. rewrite Hlook.
  apply (root_max BLCKSZ (page_blcksz_ok BLCKSZ HB) p Hp); [|done].
  eapply Forall_lookup_1; [exact (proj1 Hcons)|exact Hlook].
Qed.

Lemma fsm_search_consistent minv s :
  0 < minv → fsm_ok BLCKSZ s → fsm_consistent s →
  ∃ b s', fsm_search BLCKSZ interfere minv s = Ret (b, s') ∧
    (b = InvalidBlockNumber ∧ (∀ b', is_uint 32 b' → recorded BLCKSZ s b' < minv) ∨
     0 ≤ b < InvalidBlockNumber ∧ minv ≤ recorded BLCKSZ s b).
Proof using HB Hint.
  intros Hmin Hok Hcons. pose proof (fsm_sizes BLCKSZ HB) as (HS & HD & _).
  pose proof (root_valid BLCKSZ HB) as Hrv. unfold fsm_search.
  set (root := FSM_ROOT_ADDRESS BLCKSZ) in *.
  assert (level root = D - 1) as Hrl by done.
  destruct (Z_lt_le_dec (pmax s root) minv) as [Hlt|Hge].
  2: { destruct (search_loop_found minv (Z.to_nat (10003 * D)) 0 root s) as (b & s' & Hrun & Hb);
         [done|done|done|done|done|lia|].
       exists b, s'. split; [done|]. by right. }
  destruct (search_page_consistent s root minv Hok Hcons Hrv Hmin)
    as (slot & mx & s1 & Hrun & _ & _ & _ & _ & [[-> _]|(Hslot & Hlen & Hcat)]).
  2: { rewrite (proj2 Hcons root Hrv ltac:(lia) Hlen slot Hslot) in Hcat.
       pose proof (pmax_root s (child root slot) Hok Hcons) as Hle. fold root in Hle.
       specialize (Hle (child_valid root slot Hrv ltac:(lia) Hslot)). lia. }
  exists InvalidBlockNumber, s1. split.
  - replace (Z.to_nat (10003 * D)) with (S (Z.to_nat (10003 * D - 1))) by lia. cbn [search_loop].
    rewrite (bind_Ret _ _ _ _ _ Hrun). cbv beta iota. cbn [Z.eqb Pos.eqb negb].
    unfold FSM_ROOT_LEVEL. by rewrite Hrl, Z.eqb_refl.
  - left. split; [done|]. intros b' Hb'. pose proof (recorded_root s b' Hok Hcons Hb') as H.
    fold root in H. lia.
Qed.
End complete.
End vacuum.

(** ** Properties *)

(** A category that meets the request stands for enough bytes. *)
Lemma cat_suffices BLCKSZ n cn c :
  fsm_blcksz_ok BLCKSZ → 0 ≤ n ≤ MaxFSMRequestSize BLCKSZ →
  fsm_space_needed_to_cat BLCKSZ n = Ret cn → cn ≤ c ≤ 255 → n ≤ fsm_space_cat_to_avail BLCKSZ c.
Proof.
  intros HB Hn. rewrite (needed_to_cat_spec BLCKSZ HB n) by lia.
  destruct (Z.ltb_spec (MaxFSMRequestSize BLCKSZ) n); [lia|]. intros [= <-] Hc.
  pose proof (cat_sizes BLCKSZ HB) as (? & ? & ? & ?). unfold fsm_space_cat_to_avail.
  destruct (Z.eqb_spec c 255); [lia|]. set (st := FSM_CAT_STEP BLCKSZ) in *.
  pose proof (Z.div_mod (n + st - 1) st ltac:(lia)). pose proof (Z.mod_pos_bound (n + st - 1) st ltac:(lia)).
  nia.
Qed.

Lemma fsm_blcksz_1024 : fsm_blcksz_ok 1024.
Proof. by exists 10. Qed.
Definition no_map : Fsm := mkFsm false [] InvalidBlockNumber.
Lemma no_map_ok : fsm_ok 1024 no_map.
Proof. split; [constructor|done|by left|vm_compute; done]. Qed.

(** The categories are sound: a page recorded with [avail] free bytes whose
    category meets that of a request has at least the bytes requested, the value
    read back never exceeds the true one, a page with [MaxFSMRequestSize] bytes
    meets every request, a page with a step more than the request meets it below
    the two top categories, and a larger request is an error. *)
Theorem fsm_categories_sound (BLCKSZ avail needed : Z) :
  fsm_blcksz_ok BLCKSZ → 0 ≤ avail < BLCKSZ → 0 ≤ needed →
  ∃ ca, fsm_space_avail_to_cat BLCKSZ avail = Ret ca ∧ 0 ≤ ca ≤ 255 ∧
    fsm_space_cat_to_avail BLCKSZ ca ≤ avail ∧
    (MaxFSMRequestSize BLCKSZ < needed →
     fsm_space_needed_to_cat BLCKSZ needed = Ereport ERRCODE_INTERNAL_ERROR) ∧
    (needed ≤ MaxFSMRequestSize BLCKSZ →
     ∃ cn, fsm_space_needed_to_cat BLCKSZ needed = Ret cn ∧ 1 ≤ cn ≤ 255 ∧
       (cn ≤ ca → needed ≤ avail) ∧
       (MaxFSMRequestSize BLCKSZ ≤ avail → cn ≤ ca) ∧
       (needed + FSM_CAT_STEP BLCKSZ ≤ avail → needed ≤ 254 * FSM_CAT_STEP BLCKSZ → cn ≤ ca)).
Proof.
  intros HB Ha Hn. pose proof (cat_sizes BLCKSZ HB) as (? & ? & ? & ?).
  rewrite (avail_to_cat_spec BLCKSZ HB), (needed_to_cat_spec BLCKSZ HB) by lia.
  set (st := FSM_CAT_STEP BLCKSZ) in *. set (mx := MaxFSMRequestSize BLCKSZ) in *.
  pose proof (Z.div_mod avail st ltac:(lia)). pose proof (Z.mod_pos_bound avail st ltac:(lia)).
  pose proof (Z.div_pos avail st ltac:(lia) ltac:(lia)).
  pose proof (Z.div_mod (needed + st - 1) st ltac:(lia)).
  pose proof (Z.mod_pos_bound (needed + st - 1) st ltac:(lia)).
  eexists. split; [reflexivity|]. split; [destruct (mx <=? avail); lia|].
  split; [|split].
  - unfold fsm_space_cat_to_avail. fold st mx.
    destruct (Z.leb_spec mx avail); [done|]. rewrite (proj2 (Z.eqb_neq _ 255)) by lia. nia.
  - intros Hlt. by rewrite (proj2 (Z.ltb_lt _ _)) by lia.
  - intros Hle. rewrite (proj2 (Z.ltb_ge mx needed)) by lia. eexists. split; [reflexivity|].
    split; [lia|]. split; [|split].
    + destruct (Z.leb_spec mx avail); [lia|]. nia.
    + intros Hm. rewrite (proj2 (Z.leb_le _ _)) by done. lia.
    + intros Hs H254. destruct (Z.leb_spec mx avail); [lia|].
      assert ((needed + st - 1) / st ≤ avail / st) by (apply Z.div_le_mono; lia).
      assert ((needed + st - 1) / st < 255) by (apply Z.div_lt_upper_bound; lia).
      assert (1 ≤ avail / st) by (apply Z.div_le_lower_bound; lia). lia.
Qed.

Lemma fsm_categories_sound_witness :
  ∃ ca, fsm_space_avail_to_cat 8192 8159 = Ret ca ∧ ca = 254 ∧
        fsm_space_needed_to_cat 8192 8160 = Ret 255.
Proof.
  destruct (fsm_categories_sound 8192 8159 8160) as (ca & Hca & _ & _ & _ & Hn);
    [by exists 13|done|done|].
  destruct Hn as (cn & Hcn & _); [done|].
  exists ca. split; [exact Hca|]. vm_compute in Hca. injection Hca as <-. split; reflexivity.
Defined.

(** Addressing: every heap block has a page under the root and a slot that
    lead back to it, parents and children are inverse, and the physical blocks
    number the pages in depth-first order, without collision or overflow. *)
Theorem fsm_addressing (BLCKSZ : Z) (heapblk slot : Z) (a b : FSMAddress) :
  fsm_blcksz_ok BLCKSZ → is_uint 32 heapblk → valid_addr BLCKSZ a → valid_addr BLCKSZ b →
  0 ≤ slot < SlotsPerFSMPage BLCKSZ →
  (let '(addr, sl) := fsm_get_location BLCKSZ heapblk in
   valid_addr BLCKSZ addr ∧ fsm_get_heap_blk BLCKSZ addr sl = Ret heapblk) ∧
  (level a < FSM_ROOT_LEVEL BLCKSZ →
   ∃ parent sl, fsm_get_parent BLCKSZ a = Ret (parent, sl) ∧ valid_addr BLCKSZ parent ∧
     fsm_get_child BLCKSZ parent sl = Ret a ∧
     fsm_logical_to_physical BLCKSZ parent < fsm_logical_to_physical BLCKSZ a) ∧
  (0 < level a →
   ∃ c, fsm_get_child BLCKSZ a slot = Ret c ∧ valid_addr BLCKSZ c ∧
        fsm_get_parent BLCKSZ c = Ret (a, slot)) ∧
  (level a = FSM_ROOT_LEVEL BLCKSZ → a = FSM_ROOT_ADDRESS BLCKSZ) ∧
  (fsm_logical_to_physical BLCKSZ a < fsm_logical_to_physical BLCKSZ b ↔ before BLCKSZ a b) ∧
  (fsm_logical_to_physical BLCKSZ a = fsm_logical_to_physical BLCKSZ b → a = b) ∧
  0 ≤ fsm_logical_to_physical BLCKSZ a < InvalidBlockNumber.
Proof.
  intros HB Hblk Ha Hb Hs. pose proof (fsm_sizes BLCKSZ HB) as (HS & _).
  destruct (get_location_spec BLCKSZ HB heapblk Hblk) as (-> & Hv & Hm).
  pose proof (Z.div_mod heapblk (SlotsPerFSMPage BLCKSZ) ltac:(lia)) as Hd.
  split; [split; [done|]|split; [|split; [|split; [|split; [|split]]]]].
  - destruct Hv as [_ [Hp0 _]]; cbn [logpageno] in Hp0. unfold is_uint in Hblk.
    rewrite (get_heap_blk_spec BLCKSZ HB) by lia. f_equal. lia.
  - intros Hl. destruct (get_parent_spec BLCKSZ HB a Ha Hl) as (Hgp & Hpv & _ & Hbef).
    eexists _, _. split; [exact Hgp|]. split; [done|].
    split; [by apply child_of_parent|by apply physical_lt].
  - intros Hl. destruct (get_child_spec BLCKSZ HB a slot Ha Hl Hs) as (? & ? & ?). eauto.
  - unfold FSM_ROOT_LEVEL. intros Hl. destruct Ha as [_ Hp]. rewrite Hl, Z.sub_diag in Hp.
    change (SlotsPerFSMPage BLCKSZ ^ 0) with 1 in Hp. destruct a as [la pa]; cbn in *. subst la.
    unfold FSM_ROOT_ADDRESS, FSM_ROOT_LEVEL. f_equal. lia.
  - split; [|by apply physical_lt]. intros Hlt.
    destruct (before_total BLCKSZ HB a b Ha Hb) as [->|[?|Hba]]; [lia|done|].
    apply (physical_lt BLCKSZ HB) in Hba; [lia|done|done].
  - by apply physical_inj.
  - pose proof (proj2 (logical_to_physical_spec BLCKSZ HB a Ha)).
    change InvalidBlockNumber with (2 ^ 32 - 1). lia.
Qed.

Lemma fsm_addressing_witness :
  fsm_get_heap_blk 8192 (mkAddr 0 245) 3095 = Ret 1000000 ∧
  fsm_logical_to_physical 8192 (mkAddr 0 0) < fsm_logical_to_physical 8192 (mkAddr 0 1).
Proof.
  assert (fsm_blcksz_ok 8192) as HB by by exists 13.
  destruct (fsm_addressing 8192 1000000 7 (mkAddr 0 0) (mkAddr 0 1) HB) as ((_ & Hloc) & _ & _ & _ & Hord & _).
  - by vm_compute.
  - by vm_compute.
  - by vm_compute.
  - by vm_compute.
  - split; [exact Hloc|]. apply Hord. left. reflexivity.
Defined.

(** Recording and reading back: [RecordPageWithFreeSpace] succeeds on any
    valid map (creating and extending the fork as needed), keeps it valid, sets
    the category of that block and of no other, and [GetRecordedFreeSpace] of any
    block then returns the bytes of its category without changing the map.  The
    replay of the record, [XLogRecordPageWithFreeSpace], has the same effect. *)
Theorem RecordPageWithFreeSpace_roundtrip (BLCKSZ : Z) (interfere : FSMPageData → FSMPageData)
    (s : Fsm) (heapBlk spaceAvail blk : Z) :
  fsm_blcksz_ok BLCKSZ → (∀ p, page_ok BLCKSZ p → page_ok BLCKSZ (interfere p)) →
  fsm_ok BLCKSZ s → heap_block BLCKSZ heapBlk → 0 ≤ spaceAvail < BLCKSZ → is_uint 32 blk →
  ∃ cat s', fsm_space_avail_to_cat BLCKSZ spaceAvail = Ret cat ∧
    RecordPageWithFreeSpace BLCKSZ interfere heapBlk spaceAvail s = Ret (tt, s') ∧ fsm_ok BLCKSZ s' ∧
    (∀ b, is_uint 32 b →
     recorded BLCKSZ s' b = if decide (b = heapBlk) then cat else recorded BLCKSZ s b) ∧
    ∃ s'', GetRecordedFreeSpace BLCKSZ blk s' =
           Ret (fsm_space_cat_to_avail BLCKSZ (recorded BLCKSZ s' blk), s'') ∧
           fsm_ok BLCKSZ s'' ∧ fork s'' = fork s' ∧
    ∃ s3, XLogRecordPageWithFreeSpace BLCKSZ heapBlk spaceAvail s = Ret (tt, s3) ∧ fsm_ok BLCKSZ s3 ∧
          ∀ b, is_uint 32 b → recorded BLCKSZ s3 b = recorded BLCKSZ s' b.
Proof.
  intros HB Hint Hok Hblk Ha Hb.
  destruct (XLogRecordPage_spec BLCKSZ HB s heapBlk spaceAvail Hok Hblk Ha) as (s3 & Hrun3 & Hok3 & Hupd3).
  destruct (RecordPage_spec BLCKSZ HB interfere Hint s heapBlk spaceAvail Hok Hblk Ha)
    as (s' & Hrun & Hok' & Hupd).
  exists (cat_of BLCKSZ spaceAvail), s'. split; [by apply avail_to_cat_spec|].
  split; [done|]. split; [done|]. split; [exact Hupd|].
  destruct (GetRecorded_spec BLCKSZ HB s' blk Hok' Hb) as (s'' & Hget & Hok'' & Hf).
  exists s''. split; [done|]. split; [done|]. split; [done|]. exists s3. split; [done|]. split; [done|].
  intros b Hu. by rewrite (Hupd3 b Hu), (Hupd b Hu).
Qed.

Lemma RecordPageWithFreeSpace_roundtrip_witness :
  ∃ cat s', RecordPageWithFreeSpace 1024 id 700 500 no_map = Ret (tt, s') ∧
    recorded 1024 s' 700 = cat ∧ cat = 125 ∧ recorded 1024 s' 3 = 0.
Proof.
  destruct (RecordPageWithFreeSpace_roundtrip 1024 id no_map 700 500 3 fsm_blcksz_1024)
    as (cat & s' & Hc & Hrun & _ & Hrec & _).
  - intros p Hp. exact Hp.
  - exact no_map_ok.
  - split; [done|]. by vm_compute.
  - done.
  - done.
  - vm_compute in Hc. injection Hc as <-. exists 125, s'. split; [exact Hrun|].
    assert (is_uint 32 700) as H7 by (unfold is_uint; lia).
    assert (is_uint 32 3) as H3 by (unfold is_uint; lia).
    apply Hrec in H7. apply Hrec in H3. rewrite decide_True in H7 by reflexivity.
    rewrite decide_False in H3 by discriminate.
    split; [exact H7|]. split; [reflexivity|]. etransitivity; [exact H3|]. vm_compute. reflexivity.
Defined.

(** [GetPageWithFreeSpace] terminates on any valid map, whatever its upper
    pages say and whatever other backends do to the pages it looks at: a request
    above the maximum is an error, and otherwise it returns [InvalidBlockNumber]
    or a block whose recorded free space covers the request; it keeps the map
    valid and, if other backends record nothing, every block's category. *)
Theorem GetPageWithFreeSpace_correct (BLCKSZ : Z) (interfere : FSMPageData → FSMPageData)
    (s : Fsm) (spaceNeeded : Z) :
  fsm_blcksz_ok BLCKSZ → (∀ p, page_ok BLCKSZ p → page_ok BLCKSZ (interfere p)) →
  fsm_ok BLCKSZ s → 0 ≤ spaceNeeded →
  (MaxFSMRequestSize BLCKSZ < spaceNeeded →
   GetPageWithFreeSpace BLCKSZ interfere spaceNeeded s = Ereport ERRCODE_INTERNAL_ERROR) ∧
  (spaceNeeded ≤ MaxFSMRequestSize BLCKSZ →
   ∃ b s', GetPageWithFreeSpace BLCKSZ interfere spaceNeeded s = Ret (b, s') ∧ fsm_ok BLCKSZ s' ∧
     (b = InvalidBlockNumber ∨ 0 ≤ b < InvalidBlockNumber ∧ 0 < recorded BLCKSZ s' b ∧
      spaceNeeded ≤ fsm_space_cat_to_avail BLCKSZ (recorded BLCKSZ s' b)) ∧
     (quiet BLCKSZ interfere → ∀ b', is_uint 32 b' → recorded BLCKSZ s' b' = recorded BLCKSZ s b')).
Proof.
  intros HB Hint Hok Hn. pose proof (needed_to_cat_spec BLCKSZ HB spaceNeeded Hn) as Hcat.
  unfold GetPageWithFreeSpace. split; intros Hle.
  - rewrite (proj2 (Z.ltb_lt _ _)) in Hcat by lia.
    unfold mbind, cmd_bind, lift. by rewrite Hcat.
  - rewrite (proj2 (Z.ltb_ge _ _)) in Hcat by lia. set (cn := Z.max 1 _) in Hcat.
    rewrite (bind_Ret _ _ _ cn s) by (unfold lift; by rewrite Hcat).
    destruct (fsm_search_spec BLCKSZ HB interfere Hint cn s) as (b & s' & Hrun & Hok' & Hres & Hq); [lia|done|].
    exists b, s'. split; [done|]. split; [done|]. split; [|done].
    destruct Hres as [->|[Hb Hge]]; [by left|right].
    pose proof (cat_uint8 BLCKSZ s' (mkAddr 0 (b / SlotsPerFSMPage BLCKSZ))
                  (b mod SlotsPerFSMPage BLCKSZ) Hok') as Hu.
    fold (recorded BLCKSZ s' b) in Hu. unfold is_uint in Hu.
    split; [done|]. split; [lia|]. by eapply cat_suffices; [|lia|exact Hcat|lia].
Qed.

(** A map with a page whose upper nodes promise space that is not there. *)
Definition lying_map : Fsm :=
  mkFsm true (replicate 3 (mkFSMPage 0 (replicate 996 200))) InvalidBlockNumber.
Lemma lying_map_ok : fsm_ok 1024 lying_map.
Proof.
  split; [|done|by left|by vm_compute]. apply Forall_replicate. split; [done|].
  by apply Forall_replicate.
Qed.

Lemma GetPageWithFreeSpace_correct_witness :
  ∃ b s', GetPageWithFreeSpace 1024 id 100 lying_map = Ret (b, s') ∧
          recorded 1024 s' 0 = recorded 1024 lying_map 0 ∧
          (b = InvalidBlockNumber ∨ 100 ≤ fsm_space_cat_to_avail 1024 (recorded 1024 s' b)).
Proof.
  destruct (GetPageWithFreeSpace_correct 1024 id lying_map 100 fsm_blcksz_1024) as [_ H].
  - intros p Hp. exact Hp.
  - exact lying_map_ok.
  - done.
  - destruct H as (b & s' & Hrun & _ & Hres & Hq); [by vm_compute|]. exists b, s'. split; [exact Hrun|].
    split; [apply Hq; [intros p slot _ _; reflexivity|unfold is_uint; lia]|].
    destruct Hres as [Hb|(_ & _ & Hb)]; [left; exact Hb|right; exact Hb].
Defined.

(** [RecordAndGetPageWithFreeSpace] records the old page's space and then
    searches, first next to the old page and then from the root: it returns
    [InvalidBlockNumber] or a block whose recorded space covers the request, and
    if other backends record nothing it changes the old page's category only. *)
Theorem RecordAndGetPageWithFreeSpace_correct (BLCKSZ : Z) (interfere : FSMPageData → FSMPageData)
    (s : Fsm) (oldPage oldSpaceAvail spaceNeeded : Z) :
  fsm_blcksz_ok BLCKSZ → (∀ p, page_ok BLCKSZ p → page_ok BLCKSZ (interfere p)) →
  fsm_ok BLCKSZ s → heap_block BLCKSZ oldPage → 0 ≤ oldSpaceAvail < BLCKSZ →
  0 ≤ spaceNeeded ≤ MaxFSMRequestSize BLCKSZ →
  ∃ cat b s', fsm_space_avail_to_cat BLCKSZ oldSpaceAvail = Ret cat ∧
    RecordAndGetPageWithFreeSpace BLCKSZ interfere oldPage oldSpaceAvail spaceNeeded s = Ret (b, s') ∧
    fsm_ok BLCKSZ s' ∧
    (b = InvalidBlockNumber ∨ 0 ≤ b < InvalidBlockNumber ∧
     spaceNeeded ≤ fsm_space_cat_to_avail BLCKSZ (recorded BLCKSZ s' b)) ∧
    (quiet BLCKSZ interfere → ∀ b', is_uint 32 b' →
     recorded BLCKSZ s' b' = if decide (b' = oldPage) then cat else recorded BLCKSZ s b').
Proof.
  intros HB Hint Hok Hb Ha Hn.
  destruct (RecordAndGet_spec BLCKSZ HB interfere Hint s oldPage oldSpaceAvail spaceNeeded Hok Hb Ha Hn)
    as (cn & r & s' & Hcn & Hrun & Hok' & Hres & Hupd).
  exists (cat_of BLCKSZ oldSpaceAvail), r, s'. split; [by apply avail_to_cat_spec|].
  split; [done|]. split; [done|]. split; [|exact Hupd].
  destruct Hres as [->|[Hr Hge]]; [by left|right]. split; [done|].
  pose proof (cat_uint8 BLCKSZ s' (mkAddr 0 (r / SlotsPerFSMPage BLCKSZ))
                (r mod SlotsPerFSMPage BLCKSZ) Hok') as Hu.
  fold (recorded BLCKSZ s' r) in Hu. unfold is_uint in Hu. eapply cat_suffices; [done|lia|exact Hcn|lia].
Qed.

Lemma RecordAndGetPageWithFreeSpace_correct_witness :
  ∃ b s', RecordAndGetPageWithFreeSpace 1024 id 2 500 100 no_map = Ret (b, s') ∧
          recorded 1024 s' 2 = 125 ∧ b = 2.
Proof.
  destruct (RecordAndGetPageWithFreeSpace_correct 1024 id no_map 2 500 100 fsm_blcksz_1024)
    as (cat & b & s' & Hcat & Hrun & _ & _ & Hrec).
  - intros p Hp. exact Hp.
  - exact no_map_ok.
  - split; [done|]. by vm_compute.
  - done.
  - by vm_compute.
  - vm_compute in Hcat. injection Hcat as <-. exists b, s'. split; [exact Hrun|].
    assert (is_uint 32 2) as H2 by (unfold is_uint; lia). apply Hrec in H2; [|intros p slot _ _; reflexivity].
    rewrite decide_True in H2 by reflexivity. split; [exact H2|].
    vm_compute in Hrun. injection Hrun as <- _. reflexivity.
Defined.

(** [FreeSpaceMapTruncateRel] forgets exactly the blocks from the new end of
    the heap on and keeps the category of every block before it. *)
Theorem FreeSpaceMapTruncateRel_correct (BLCKSZ : Z) (s : Fsm) (nblocks : Z) :
  fsm_blcksz_ok BLCKSZ → fsm_ok BLCKSZ s → is_uint 32 nblocks →
  ∃ s', FreeSpaceMapTruncateRel BLCKSZ nblocks s = Ret (tt, s') ∧ fsm_ok BLCKSZ s' ∧
    ∀ b, is_uint 32 b → recorded BLCKSZ s' b = if b <? nblocks then recorded BLCKSZ s b else 0.
Proof. intros HB Hok Hn. by apply Truncate_spec. Qed.

(** The map of a heap of 1024-byte pages: the three upper pages and two bottom
    pages with the category 200 in every slot, all consistent. *)
Definition leaves_only : FSMPageData := mkFSMPage 7 (replicate 511 0 ++ replicate 485 200).
Definition full_page : FSMPageData :=
  match fsm_rebuild_page 1024 leaves_only with Ret (_, p) => p | _ => leaves_only end.
Definition two_pages : Fsm := mkFsm true (replicate 5 full_page) 5.
Lemma full_page_spec :
  page_ok 1024 full_page ∧ tree_ok 1024 full_page ∧
  ∀ slot, 0 ≤ slot → avail 1024 full_page slot = avail 1024 leaves_only slot.
Proof.
  pose proof (page_blcksz_ok 1024 fsm_blcksz_1024) as HB.
  destruct (fsm_rebuild_page_spec 1024 HB leaves_only) as (c & p & Hrun & Hok & Ht & _ & Ha & _).
  { split; [done|]. cbn [leaves_only fp_nodes]. rewrite Forall_app. by split; apply Forall_replicate. }
  unfold full_page. rewrite Hrun. split; [exact Hok|]. split; [exact Ht|exact Ha].
Qed.
Lemma leaves_only_le slot : avail 1024 leaves_only slot ≤ 200.
Proof.
  unfold avail, wd. destruct (fp_nodes leaves_only !! _) as [x|] eqn:E; [|simpl; lia].
  apply list_elem_of_lookup_2, elem_of_app in E as [E|E]; apply elem_of_replicate in E as [-> _]; simpl; lia.
Qed.
Lemma two_pages_ok : fsm_ok 1024 two_pages.
Proof.
  split; [apply Forall_replicate, full_page_spec|discriminate|right; split; vm_compute; discriminate|].
  vm_compute. discriminate.
Qed.
Lemma two_pages_trees : trees 1024 two_pages.
Proof. apply Forall_replicate, full_page_spec. Qed.

Lemma FreeSpaceMapTruncateRel_correct_witness :
  ∃ s', FreeSpaceMapTruncateRel 1024 490 two_pages = Ret (tt, s') ∧
        recorded 1024 s' 489 = 200 ∧ recorded 1024 s' 490 = 0.
Proof.
  destruct (FreeSpaceMapTruncateRel_correct 1024 two_pages 490 fsm_blcksz_1024 two_pages_ok)
    as (s' & Hrun & _ & Hrec); [done|].
  exists s'. split; [exact Hrun|]. split.
  - etransitivity; [apply Hrec; unfold is_uint; lia|]. vm_compute. reflexivity.
  - etransitivity; [apply Hrec; unfold is_uint; lia|]. vm_compute. reflexivity.
Defined.



(** A tree of four levels does not reach every block number with 512-byte pages,
    nor with the 216 slots a page that the comment above [FSM_TREE_DEPTH] names:
    216^4 and 229^4 are both below 2^32 - 1, and the page of block 2750058481 is
    under no slot of the root. *)
Lemma fsm_depth_512 :
  SlotsPerFSMPage 512 = 229 ∧ FSM_TREE_DEPTH 512 = 4 ∧ 216 ^ 4 < 2 ^ 32 - 1 ∧ 229 ^ 4 < 2 ^ 32 - 1 ∧
  ¬ valid_addr 512 (fsm_get_location 512 2750058481).1.
Proof. do 4 (split; [by vm_compute|]). intros [_ [_ H]]. by vm_compute in H. Qed.
