(* ===== verification/Int.v ===== *)
(** * Integers

    The integer types of SQL: [backend/utils/adt/int.c] (smallint, integer),
    [backend/utils/adt/int8.c] (bigint) and the conversions to and from text of
    [backend/utils/adt/numutils.c].  Values are kept at their width: signed arithmetic
    wraps around, as the server is compiled for it, and the overflow tests of the code are
    proved to find exactly the results that do not fit.

    The one quotient of two integers that does not fit, of the least integer by -1, is up to
    the machine: [division_overflow] is a parameter. *)

From S2P Require Import Prelude.

(** ** Shared by the operators *)

Definition INT_MIN (w : Z) : Z := - 2 ^ (w - 1).
Definition INT_MAX (w : Z) : Z := 2 ^ (w - 1) - 1.
Definition SHRT_MIN : Z := INT_MIN 16.
Definition SHRT_MAX : Z := INT_MAX 16.

Definition SAMESIGN (a b : Z) : bool := Bool.eqb (a <? 0) (b <? 0).

Definition out_of_range {A} : outcome A := Ereport ERRCODE_NUMERIC_VALUE_OUT_OF_RANGE.
Definition division_by_zero {A} : outcome A := Ereport ERRCODE_DIVISION_BY_ZERO.
(** [if (bad) ereport(...); PG_RETURN(result)] *)
Definition unless (bad : bool) (result : Z) : outcome Z := if bad then out_of_range else Ret result.

(** What the machine does with the least integer divided by -1: most produce it again, some
    produce zero, and others raise SIGFPE, which [FloatExceptionHandler] turns into an error. *)
Inductive division_overflow := Wraps | Zero | Traps.
#[global] Instance division_overflow_eq_dec : EqDecision division_overflow.
Proof. solve_decision. Defined.

Definition c_div (m : division_overflow) (w a b : Z) : outcome Z :=
  if (a =? INT_MIN w) && (b =? -1) then
    match m with
    | Wraps => Ret a
    | Zero => Ret 0
    | Traps => Ereport ERRCODE_FLOATING_POINT_EXCEPTION
    end
  else Ret (Z.quot a b).
Definition c_rem (m : division_overflow) (w a b : Z) : outcome Z :=
  if (a =? INT_MIN w) && (b =? -1) then
    match m with Traps => Ereport ERRCODE_FLOATING_POINT_EXCEPTION | _ => Ret 0 end
  else Ret (Z.rem a b).

(** The bodies that differ only in the width of [result]. *)
Definition um (w arg : Z) : outcome Z :=
  let result := wrap_s w (- arg) in
  unless (negb (arg =? 0) && SAMESIGN result arg) result.
Definition pl (w arg1 arg2 : Z) : outcome Z :=
  let result := wrap_s w (arg1 + arg2) in
  unless (SAMESIGN arg1 arg2 && negb (SAMESIGN result arg1)) result.
Definition mi (w arg1 arg2 : Z) : outcome Z :=
  let result := wrap_s w (arg1 - arg2) in
  unless (negb (SAMESIGN arg1 arg2) && negb (SAMESIGN result arg1)) result.
Definition abs (w arg1 : Z) : outcome Z :=
  let result := if arg1 <? 0 then wrap_s w (- arg1) else arg1 in
  unless (result <? 0) result.
Definition inc (w arg : Z) : outcome Z :=
  let result := wrap_s w (arg + 1) in
  unless ((0 <? arg) && (result <? 0)) result.
(** [if (arg2 == -1 && arg1 < 0 && result <= 0)] *)
Definition check_div (arg1 arg2 result : Z) : outcome Z :=
  unless ((arg2 =? -1) && (arg1 <? 0) && (result <=? 0)) result.

(** ** smallint *)

Definition int2um : Z → outcome Z := um 16.
Definition int2pl : Z → Z → outcome Z := pl 16.
Definition int2mi : Z → Z → outcome Z := mi 16.
Definition int2mul (arg1 arg2 : Z) : outcome Z :=
  let result32 := int32_of (arg1 * arg2) in
  unless ((result32 <? SHRT_MIN) || (SHRT_MAX <? result32)) (int16_of result32).
(** The division is done in [int]. *)
Definition int2div (arg1 arg2 : Z) : outcome Z :=
  if arg2 =? 0 then division_by_zero else
  check_div arg1 arg2 (int16_of (Z.quot arg1 arg2)).
Definition int2mod (arg1 arg2 : Z) : outcome Z :=
  if arg2 =? 0 then division_by_zero else Ret (Z.rem arg1 arg2).
Definition int2abs : Z → outcome Z := abs 16.
Definition int2larger (arg1 arg2 : Z) : Z := if arg1 >? arg2 then arg1 else arg2.
Definition int2smaller (arg1 arg2 : Z) : Z := if arg1 <? arg2 then arg1 else arg2.

(** ** integer *)

Section machine.
Context (m : division_overflow).

Definition int4um : Z → outcome Z := um 32.
Definition int4pl : Z → Z → outcome Z := pl 32.
Definition int4mi : Z → Z → outcome Z := mi 32.
Definition in_int2 (a : Z) : bool := (SHRT_MIN <=? a) && (a <=? SHRT_MAX).

(** [result / divisor != factor || (arg2 == -1 && arg1 < 0 && result < 0)] *)
Definition mul_overflows (w arg1 arg2 result : Z) : outcome bool :=
  q ← c_div m w result arg2;
  Ret (negb (q =? arg1) || ((arg2 =? -1) && (arg1 <? 0) && (result <? 0))).
Definition int4mul (arg1 arg2 : Z) : outcome Z :=
  let result := int32_of (arg1 * arg2) in
  if negb (in_int2 arg1 && in_int2 arg2) && negb (arg2 =? 0) then
    bad ← mul_overflows 32 arg1 arg2 result;
    unless bad result
  else Ret result.
Definition int4div (arg1 arg2 : Z) : outcome Z :=
  if arg2 =? 0 then division_by_zero else
  result ← c_div m 32 arg1 arg2;
  check_div arg1 arg2 result.
Definition int4inc : Z → outcome Z := inc 32.
Definition int4mod (arg1 arg2 : Z) : outcome Z :=
  if arg2 =? 0 then division_by_zero else
  if (arg1 =? INT_MIN 32) && (arg2 =? -1) then Ret 0 else
  c_rem m 32 arg1 arg2.
Definition int4abs : Z → outcome Z := abs 32.
Definition int4larger (arg1 arg2 : Z) : Z := if arg1 >? arg2 then arg1 else arg2.
Definition int4smaller (arg1 arg2 : Z) : Z := if arg1 <? arg2 then arg1 else arg2.

(** smallint with integer *)
Definition int24pl : Z → Z → outcome Z := pl 32.
Definition int24mi : Z → Z → outcome Z := mi 32.
Definition int24mul (arg1 arg2 : Z) : outcome Z :=
  let result := int32_of (arg1 * arg2) in
  if negb (in_int2 arg2) then
    q ← c_div m 32 result arg2;
    unless (negb (q =? arg1)) result
  else Ret result.
Definition int24div (arg1 arg2 : Z) : outcome Z :=
  if arg2 =? 0 then division_by_zero else c_div m 32 arg1 arg2.
Definition int42pl : Z → Z → outcome Z := pl 32.
Definition int42mi : Z → Z → outcome Z := mi 32.
Definition int42mul (arg1 arg2 : Z) : outcome Z :=
  let result := int32_of (arg1 * arg2) in
  if negb (in_int2 arg1) then
    q ← c_div m 32 result arg1;
    unless (negb (q =? arg2)) result
  else Ret result.
Definition int42div (arg1 arg2 : Z) : outcome Z :=
  if arg2 =? 0 then division_by_zero else
  result ← c_div m 32 arg1 arg2;
  check_div arg1 arg2 result.

(** ** bigint *)

(** [arg == (int64) ((int32) arg)] *)
Definition in_int4 (a : Z) : bool := a =? int32_of a.

Definition int8um : Z → outcome Z := um 64.
Definition int8pl : Z → Z → outcome Z := pl 64.
Definition int8mi : Z → Z → outcome Z := mi 64.
Definition int8mul (arg1 arg2 : Z) : outcome Z :=
  let result := int64_of (arg1 * arg2) in
  if negb (in_int4 arg1) || negb (in_int4 arg2) then
    if negb (arg2 =? 0) then
      bad ← mul_overflows 64 arg1 arg2 result;
      unless bad result
    else Ret result
  else Ret result.
Definition int8div (arg1 arg2 : Z) : outcome Z :=
  if arg2 =? 0 then division_by_zero else
  result ← c_div m 64 arg1 arg2;
  check_div arg1 arg2 result.
Definition int8abs : Z → outcome Z := abs 64.
Definition int8mod (arg1 arg2 : Z) : outcome Z :=
  if arg2 =? 0 then division_by_zero else c_rem m 64 arg1 arg2.
Definition int8inc : Z → outcome Z := inc 64.
Definition int8larger (arg1 arg2 : Z) : Z := if arg1 >? arg2 then arg1 else arg2.
Definition int8smaller (arg1 arg2 : Z) : Z := if arg1 <? arg2 then arg1 else arg2.

(** bigint with the narrower types *)
Definition int84pl : Z → Z → outcome Z := pl 64.
Definition int84mi : Z → Z → outcome Z := mi 64.
Definition int84mul (arg1 arg2 : Z) : outcome Z :=
  let result := int64_of (arg1 * arg2) in
  if negb (in_int4 arg1) then
    q ← c_div m 64 result arg1;
    unless (negb (q =? arg2)) result
  else Ret result.
Definition int84div (arg1 arg2 : Z) : outcome Z :=
  if arg2 =? 0 then division_by_zero else
  result ← c_div m 64 arg1 arg2;
  check_div arg1 arg2 result.
Definition int48pl : Z → Z → outcome Z := pl 64.
Definition int48mi : Z → Z → outcome Z := mi 64.
Definition int48mul (arg1 arg2 : Z) : outcome Z :=
  let result := int64_of (arg1 * arg2) in
  if negb (in_int4 arg2) then
    q ← c_div m 64 result arg2;
    unless (negb (q =? arg1)) result
  else Ret result.
Definition int48div (arg1 arg2 : Z) : outcome Z :=
  if arg2 =? 0 then division_by_zero else c_div m 64 arg1 arg2.
Definition int82pl : Z → Z → outcome Z := pl 64.
Definition int82mi : Z → Z → outcome Z := mi 64.
Definition int82mul : Z → Z → outcome Z := int84mul.
Definition int82div : Z → Z → outcome Z := int84div.
Definition int28pl : Z → Z → outcome Z := pl 64.
Definition int28mi : Z → Z → outcome Z := mi 64.
Definition int28mul : Z → Z → outcome Z := int48mul.
Definition int28div : Z → Z → outcome Z := int48div.
End machine.

(** ** Conversions *)

Definition i2toi4 (arg1 : Z) : Z := arg1.
Definition i4toi2 (arg1 : Z) : outcome Z := unless ((arg1 <? SHRT_MIN) || (SHRT_MAX <? arg1)) (int16_of arg1).
Definition int48 (arg : Z) : Z := arg.
Definition int84 (arg : Z) : outcome Z :=
  let result := int32_of arg in unless (negb (result =? arg)) result.
Definition int28 (arg : Z) : Z := arg.
Definition int82 (arg : Z) : outcome Z :=
  let result := int16_of arg in unless (negb (result =? arg)) result.

(** ** The results that fit *)

(** The mathematical result, if it is a value of the type. *)
Definition exact (w z : Z) : outcome Z := if decide (is_sint w z) then Ret z else out_of_range.
(** Both are the same value, or both are errors. *)
Definition agrees (x y : outcome Z) : Prop :=
  match x, y with
  | Ret a, Ret b => a = b
  | Ereport _, Ereport _ => True
  | _, _ => False
  end.

Lemma agrees_eq x y : x = y → agrees y y → agrees x y.
Proof. by intros ->. Qed.
Lemma agrees_exact w z : agrees (exact w z) (exact w z).
Proof. unfold exact. by destruct (decide _). Qed.

Lemma wrap_s_near w z :
  1 ≤ w → - 2 ^ w ≤ z < 2 ^ w →
  wrap_s w z = if decide (is_sint w z) then z else if z <? 0 then z + 2 ^ w else z - 2 ^ w.
Proof.
  intros Hw Hz. destruct (decide (is_sint w z)) as [H|H]; [by apply wrap_s_small|].
  assert (2 ^ w = 2 * 2 ^ (w - 1)) as E by (rewrite <- Z.pow_succ_r by lia; f_equal; lia).
  unfold wrap_s, is_sint in *. destruct (Z.ltb_spec z 0).
  - rewrite <- (Z.mod_add _ 1) by lia. rewrite Z.mod_small by lia. lia.
  - rewrite <- (Z.mod_add _ (-1)) by lia. rewrite Z.mod_small by lia. lia.
Qed.

(** [unless] with a test that is exact. *)
Lemma unless_exact w z bad :
  1 ≤ w → (bad = true ↔ ¬ is_sint w z) → unless bad (wrap_s w z) = exact w z.
Proof.
  intros Hw Hb. unfold unless, exact. destruct (decide (is_sint w z)) as [H|H].
  - destruct bad; [exfalso; by apply Hb|]. by rewrite wrap_s_small.
  - destruct bad; [done|]. exfalso. by apply Hb in H.
Qed.

(** Case analysis of a test on signs, for operands and results near the range. *)
Ltac by_signs w :=
  apply unless_exact; [lia|];
  rewrite wrap_s_near by lia; unfold SAMESIGN;
  repeat match goal with |- context [decide ?P] => destruct (decide P) end;
  unfold is_sint in *;
  repeat match goal with
  | |- context [if ?a <? ?b then _ else _] => destruct (Z.ltb_spec a b)
  | |- context [?a <? ?b] => destruct (Z.ltb_spec a b)
  | |- context [?a =? ?b] => destruct (Z.eqb_spec a b)
  end; cbn [Bool.eqb negb andb orb]; split; intros; try done; lia.

Section overflow.
Context (w : Z) (Hw : 2 ≤ w).

Lemma pow_half : 2 ^ w = 2 * 2 ^ (w - 1) ∧ 2 ≤ 2 ^ (w - 1).
Proof using Hw.
  split; [rewrite <- Z.pow_succ_r by lia; f_equal; lia|]. change 2 with (2 ^ 1) at 1. apply Z.pow_le_mono_r; lia.
Qed.

Lemma pl_exact a b : is_sint w a → is_sint w b → pl w a b = exact w (a + b).
Proof using Hw. intros Ha Hb. pose proof pow_half. unfold is_sint, pl in *. by_signs w. Qed.
Lemma mi_exact a b : is_sint w a → is_sint w b → mi w a b = exact w (a - b).
Proof using Hw. intros Ha Hb. pose proof pow_half. unfold is_sint, mi in *. by_signs w. Qed.
Lemma um_exact a : is_sint w a → um w a = exact w (- a).
Proof using Hw. intros Ha. pose proof pow_half. unfold is_sint, um in *. by_signs w. Qed.
Lemma inc_exact a : is_sint w a → inc w a = exact w (a + 1).
Proof using Hw. intros Ha. pose proof pow_half. unfold is_sint, inc in *. by_signs w. Qed.
Lemma abs_exact a : is_sint w a → abs w a = exact w (Z.abs a).
Proof using Hw.
  intros Ha. pose proof pow_half as [E1 E2]. unfold abs. destruct (Z.ltb_spec a 0) as [L|L].
  - rewrite Z.abs_neq by lia. unfold is_sint in *. by_signs w.
  - rewrite Z.abs_eq by lia. unfold unless, exact. destruct (Z.ltb_spec a 0); [lia|]. by destruct (decide _).
Qed.

(** The wrapped product gives back a factor only if it is the product. *)
Lemma wrap_diff z : ∃ k, wrap_s w z = z + k * 2 ^ w.
Proof using Hw.
  exists (- ((z + 2 ^ (w - 1)) / 2 ^ w)). unfold wrap_s. pose proof (Z.div_mod (z + 2 ^ (w - 1)) (2 ^ w)).
  pose proof pow_half. lia.
Qed.
Lemma product_quotient a b :
  is_sint w b → b ≠ 0 → Z.quot (wrap_s w (a * b)) b = a → is_sint w (a * b).
Proof using Hw.
  intros Hb Hb0 Hq. pose proof pow_half as [E1 E2]. destruct (wrap_diff (a * b)) as [k Hk].
  pose proof (Z.quot_rem (wrap_s w (a * b)) b Hb0) as Hr. rewrite Hq in Hr.
  pose proof (Z.rem_bound_abs (wrap_s w (a * b)) b Hb0) as Hrb. unfold is_sint in Hb.
  assert (k = 0) as -> by nia. rewrite Z.mul_0_l, Z.add_0_r in Hk. rewrite <- Hk. apply wrap_s_bound. lia.
Qed.

(** The test by division, with a divisor other than -1 or with the test for -1. *)
Lemma div_test m a b :
  is_sint w a → is_sint w b → b ≠ 0 → b ≠ -1 →
  (q ← c_div m w (wrap_s w (a * b)) b; unless (negb (q =? a)) (wrap_s w (a * b))) = exact w (a * b).
Proof using Hw.
  intros Ha Hb H0 H1. unfold c_div. rewrite (proj2 (Z.eqb_neq b (-1))), andb_false_r by done. cbn [mbind outcome_bind].
  change (unless (negb (Z.quot (wrap_s w (a * b)) b =? a)) (wrap_s w (a * b)) = exact w (a * b)).
  apply unless_exact; [lia|]. rewrite negb_true_iff, Z.eqb_neq. split.
  - intros Hq Hs. apply Hq. rewrite wrap_s_small by (lia || done). by apply Z.quot_mul.
  - intros Hs Hq. apply Hs. by apply product_quotient.
Qed.

Lemma mul_test m a b :
  is_sint w a → is_sint w b → b ≠ 0 →
  agrees (bad ← mul_overflows m w a b (wrap_s w (a * b)); unless bad (wrap_s w (a * b))) (exact w (a * b)).
Proof using Hw.
  intros Ha Hb H0. destruct (decide (b = -1)) as [-> |H1].
  - pose proof pow_half as [E1 E2]. unfold mul_overflows, c_div, INT_MIN. rewrite Z.eqb_refl, andb_true_r.
    replace (a * -1) with (- a) by lia. unfold is_sint in Ha. rewrite wrap_s_near by lia.
    unfold exact. destruct (decide (is_sint w (- a))) as [Hs|Hs]; unfold is_sint in Hs.
    + rewrite (proj2 (Z.eqb_neq (- a) (- 2 ^ (w - 1)))) by lia. cbn [mbind outcome_bind].
      assert (Z.quot (- a) (-1) = a) as -> by (change (-1) with (Z.opp 1); rewrite Z.quot_opp_opp by lia; apply Z.quot_1_r).
      rewrite Z.eqb_refl. cbn. destruct (Z.ltb_spec a 0), (Z.ltb_spec (- a) 0); try lia; done.
    + assert (a = - 2 ^ (w - 1)) as -> by lia. destruct (Z.ltb_spec (- - 2 ^ (w - 1)) 0); [lia|].
      replace (- - 2 ^ (w - 1) - 2 ^ w) with (- 2 ^ (w - 1)) by lia. rewrite Z.eqb_refl.
      destruct (Z.ltb_spec (- 2 ^ (w - 1)) 0); [|lia].
      destruct m; cbn [mbind outcome_bind]; [by rewrite Z.eqb_refl| |done].
      by rewrite (proj2 (Z.eqb_neq 0 (- 2 ^ (w - 1)))) by lia.
  - apply agrees_eq; [|apply agrees_exact]. rewrite <- (div_test m a b) by done. unfold mul_overflows, c_div.
    rewrite (proj2 (Z.eqb_neq b (-1))), !andb_false_r by done. cbn [mbind outcome_bind andb].
    by rewrite orb_false_r.
Qed.
End overflow.

(** ** Products *)

Lemma in_int2_spec a : in_int2 a = bool_decide (is_sint 16 a).
Proof.
  unfold in_int2, SHRT_MIN, SHRT_MAX, INT_MIN, INT_MAX. apply eq_true_iff_eq. rewrite andb_true_iff, !Z.leb_le, bool_decide_eq_true.
  unfold is_sint. lia.
Qed.
Lemma in_int4_spec a : in_int4 a = bool_decide (is_sint 32 a).
Proof.
  unfold in_int4. apply eq_true_iff_eq. rewrite Z.eqb_eq, bool_decide_eq_true, <- (wrap_s_iff 32 a) by lia. intuition congruence.
Qed.

(** Factors of half the width do not overflow. *)
Lemma half_product w a b : 1 ≤ w → is_sint w a → is_sint w b → is_sint (2 * w) (a * b).
Proof.
  intros Hw Ha Hb. unfold is_sint in *. set (h := 2 ^ (w - 1)) in *.
  assert (2 ^ (2 * w - 1) = 2 * h * h) as ->.
  { unfold h. rewrite <- Z.pow_succ_r, <- Z.pow_add_r by lia. f_equal. lia. }
  assert (0 < h) by (apply Z.pow_pos_nonneg; lia). nia.
Qed.
Lemma ret_exact w z : 1 ≤ w → is_sint w z → Ret (wrap_s w z) = exact w z.
Proof. intros Hw Hz. unfold exact. rewrite decide_True by done. by rewrite wrap_s_small. Qed.
Lemma sint_mono v w z : 1 ≤ v ≤ w → is_sint v z → is_sint w z.
Proof. intros Hv Hz. unfold is_sint in *. pose proof (Z.pow_le_mono_r 2 (v - 1) (w - 1)). lia. Qed.

Lemma int2mul_exact a b : is_sint 16 a → is_sint 16 b → int2mul a b = exact 16 (a * b).
Proof.
  intros Ha Hb. unfold int2mul. rewrite (wrap_s_small 32) by (lia || by apply (half_product 16)).
  apply unless_exact; [lia|]. unfold SHRT_MIN, SHRT_MAX, INT_MIN, INT_MAX, is_sint.
  rewrite orb_true_iff, !Z.ltb_lt. lia.
Qed.

Section products.
Context (m : division_overflow).

Lemma int4mul_exact a b : is_sint 32 a → is_sint 32 b → agrees (int4mul m a b) (exact 32 (a * b)).
Proof.
  intros Ha Hb. unfold int4mul. rewrite !in_int2_spec. destruct (Z.eqb_spec b 0) as [-> |H0].
  { rewrite Z.mul_0_r, andb_false_r. apply agrees_eq; [|apply agrees_exact]. by apply ret_exact. }
  destruct (bool_decide_reflect (is_sint 16 a)), (bool_decide_reflect (is_sint 16 b)); cbn [andb negb]; try (by apply mul_test).
  apply agrees_eq; [|apply agrees_exact]. apply ret_exact; [lia|by apply (half_product 16)].
Qed.
Lemma int24mul_exact a b : is_sint 16 a → is_sint 32 b → int24mul m a b = exact 32 (a * b).
Proof.
  intros Ha Hb. unfold int24mul. rewrite in_int2_spec. destruct (bool_decide_reflect (is_sint 16 b)) as [H|H]; cbn [negb].
  - apply ret_exact; [lia|by apply (half_product 16)].
  - apply div_test; [lia|by apply (sint_mono 16)|done|..]; intros ->; by apply H.
Qed.
Lemma int42mul_exact a b : is_sint 32 a → is_sint 16 b → int42mul m a b = exact 32 (a * b).
Proof. intros Ha Hb. unfold int42mul. rewrite (Z.mul_comm a b). by apply int24mul_exact. Qed.

Lemma int8mul_exact a b : is_sint 64 a → is_sint 64 b → agrees (int8mul m a b) (exact 64 (a * b)).
Proof.
  intros Ha Hb. unfold int8mul. rewrite !in_int4_spec. destruct (Z.eqb_spec b 0) as [-> |H0].
  { rewrite Z.mul_0_r. apply agrees_eq; [|apply agrees_exact]. destruct (_ || _); by apply ret_exact. }
  destruct (bool_decide_reflect (is_sint 32 a)), (bool_decide_reflect (is_sint 32 b)); cbn [orb negb]; try (by apply mul_test).
  apply agrees_eq; [|apply agrees_exact]. apply ret_exact; [lia|by apply (half_product 32)].
Qed.
Lemma int48mul_exact a b : is_sint 32 a → is_sint 64 b → int48mul m a b = exact 64 (a * b).
Proof.
  intros Ha Hb. unfold int48mul. rewrite in_int4_spec. destruct (bool_decide_reflect (is_sint 32 b)) as [H|H]; cbn [negb].
  - apply ret_exact; [lia|by apply (half_product 32)].
  - apply div_test; [lia|by apply (sint_mono 32)|done|..]; intros ->; by apply H.
Qed.
Lemma int84mul_exact a b : is_sint 64 a → is_sint 32 b → int84mul m a b = exact 64 (a * b).
Proof. intros Ha Hb. unfold int84mul. rewrite (Z.mul_comm a b). by apply int48mul_exact. Qed.
End products.

(** ** Quotients *)

(** The quotient of SQL: an error for a zero divisor and for a result that does not fit. *)
Definition exact_div (w a b : Z) : outcome Z := if b =? 0 then division_by_zero else exact w (Z.quot a b).

Lemma quot_range w a b : 1 ≤ w → is_sint w a → b ≠ 0 → ¬ (a = INT_MIN w ∧ b = -1) → is_sint w (Z.quot a b).
Proof.
  intros Hw Ha Hb Hn. unfold is_sint, INT_MIN in *. assert (0 < 2 ^ (w - 1)) by (apply Z.pow_pos_nonneg; lia).
  destruct (decide (b = -1)) as [-> |H1].
  { change (-1) with (Z.opp 1). rewrite Z.quot_opp_r, Z.quot_1_r by lia. lia. }
  destruct (decide (b = 1)) as [-> |H2]; [rewrite Z.quot_1_r; lia|].
  pose proof (Z.quot_rem a b Hb). pose proof (Z.rem_bound_abs a b Hb).
  assert (Z.abs (Z.quot a b) * 2 ≤ Z.abs a); [|lia].
  rewrite <- (Z.quot_abs a b) by done. pose proof (Z.mul_quot_le (Z.abs a) (Z.abs b)). 
  assert (0 ≤ Z.quot (Z.abs a) (Z.abs b)) by (apply Z.quot_pos; lia). nia.
Qed.

Lemma least_quot w : 2 ≤ w → Z.quot (INT_MIN w) (-1) = 2 ^ (w - 1) ∧ ¬ is_sint w (2 ^ (w - 1)).
Proof.
  intros Hw. unfold INT_MIN, is_sint. change (-1) with (Z.opp 1). rewrite Z.quot_opp_opp, Z.quot_1_r by lia. split; [done|lia].
Qed.

Lemma least_true w a b : (a =? INT_MIN w) && (b =? -1) = true ↔ a = INT_MIN w ∧ b = -1.
Proof. rewrite andb_true_iff, !Z.eqb_eq. done. Qed.

Lemma check_div_ok w a b : 2 ≤ w → is_sint w a → b ≠ 0 → ¬ (a = INT_MIN w ∧ b = -1) →
  check_div a b (Z.quot a b) = exact w (Z.quot a b).
Proof.
  intros Hw Ha Hb Hn. unfold check_div, unless, exact. rewrite decide_True by (apply quot_range; [lia|done..]).
  destruct (Z.eqb_spec b (-1)) as [-> |]; [|done]. destruct (Z.ltb_spec a 0); [|done].
  change (-1) with (Z.opp 1). rewrite Z.quot_opp_r, Z.quot_1_r by lia. destruct (Z.leb_spec (- a) 0); [lia|done].
Qed.

Lemma div_exact m w a b : 2 ≤ w → is_sint w a →
  agrees (if b =? 0 then division_by_zero else result ← c_div m w a b; check_div a b result) (exact_div w a b).
Proof.
  intros Hw Ha. unfold exact_div. destruct (Z.eqb_spec b 0) as [-> |Hb]; [done|].
  unfold c_div. destruct ((a =? INT_MIN w) && (b =? -1)) eqn:E.
  - apply least_true in E as [-> ->]. destruct (least_quot w Hw) as [-> Hr]. unfold exact. rewrite decide_False by done.
    assert (INT_MIN w < 0) as Hneg by (unfold INT_MIN; assert (0 < 2 ^ (w - 1)) by (apply Z.pow_pos_nonneg; lia); lia).
    destruct m; cbn [mbind outcome_bind]; [| |done]; unfold check_div; cbn [Z.eqb];
      (rewrite (proj2 (Z.ltb_lt (INT_MIN w) 0)) by done); [|done]. rewrite (proj2 (Z.leb_le (INT_MIN w) 0)) by lia. done.
  - cbn [mbind outcome_bind]. apply agrees_eq; [|apply agrees_exact]. apply check_div_ok; [done|done|done|].
    intros Hn. apply least_true in Hn. congruence.
Qed.

Lemma wide_div_exact m w a b : 2 ≤ w → is_sint (w - 1) a →
  (if b =? 0 then division_by_zero else c_div m w a b) = exact_div w a b.
Proof.
  intros Hw Ha. unfold exact_div. destruct (Z.eqb_spec b 0) as [-> |Hb]; [done|].
  assert (a ≠ INT_MIN w) as Hm.
  { unfold is_sint, INT_MIN in *. assert (2 ^ (w - 1 - 1) < 2 ^ (w - 1)) by (apply Z.pow_lt_mono_r; lia). lia. }
  unfold c_div. rewrite (proj2 (Z.eqb_neq a (INT_MIN w))) by done. cbn [andb]. unfold exact. rewrite decide_True; [done|].
  destruct (decide (w = 2)) as [-> |].
  - apply quot_range; [lia| |done|by intros []]. unfold is_sint in *. cbn in *. lia.
  - apply quot_range; [lia| |done|by intros []]. apply (sint_mono (w - 1)); [lia|done].
Qed.

Lemma int2div_exact a b : is_sint 16 a → int2div a b = exact_div 16 a b.
Proof.
  intros Ha. unfold int2div, exact_div. destruct (Z.eqb_spec b 0) as [|Hb]; [done|].
  destruct ((a =? INT_MIN 16) && (b =? -1)) eqn:E; [by apply least_true in E as [-> ->]|].
  assert (¬ (a = INT_MIN 16 ∧ b = -1)) as Hn by (intros Hn; apply least_true in Hn; congruence).
  rewrite wrap_s_small; [by apply check_div_ok|lia|apply quot_range; [lia|done..]].
Qed.

(** C35: Addition, subtraction, multiplication, negation, absolute value and increment of
    smallint, integer and bigint, and of every mixture of two of them, return the
    mathematical result if it is a value of the result type and raise an error otherwise,
    whatever their arguments: each overflow test finds the results that wrapped around, and
    only those. *)
Theorem int_overflow_exact m a2 b2 a4 b4 a8 b8 :
  is_sint 16 a2 → is_sint 16 b2 → is_sint 32 a4 → is_sint 32 b4 → is_sint 64 a8 → is_sint 64 b8 →
  (int2pl a2 b2 = exact 16 (a2 + b2) ∧ int4pl a4 b4 = exact 32 (a4 + b4) ∧ int8pl a8 b8 = exact 64 (a8 + b8) ∧
   int24pl a2 b4 = exact 32 (a2 + b4) ∧ int42pl a4 b2 = exact 32 (a4 + b2) ∧ int84pl a8 b4 = exact 64 (a8 + b4) ∧
   int48pl a4 b8 = exact 64 (a4 + b8) ∧ int82pl a8 b2 = exact 64 (a8 + b2) ∧ int28pl a2 b8 = exact 64 (a2 + b8)) ∧
  (int2mi a2 b2 = exact 16 (a2 - b2) ∧ int4mi a4 b4 = exact 32 (a4 - b4) ∧ int8mi a8 b8 = exact 64 (a8 - b8) ∧
   int24mi a2 b4 = exact 32 (a2 - b4) ∧ int42mi a4 b2 = exact 32 (a4 - b2) ∧ int84mi a8 b4 = exact 64 (a8 - b4) ∧
   int48mi a4 b8 = exact 64 (a4 - b8) ∧ int82mi a8 b2 = exact 64 (a8 - b2) ∧ int28mi a2 b8 = exact 64 (a2 - b8)) ∧
  (int2mul a2 b2 = exact 16 (a2 * b2) ∧ agrees (int4mul m a4 b4) (exact 32 (a4 * b4)) ∧
   agrees (int8mul m a8 b8) (exact 64 (a8 * b8)) ∧ int24mul m a2 b4 = exact 32 (a2 * b4) ∧
   int42mul m a4 b2 = exact 32 (a4 * b2) ∧ int84mul m a8 b4 = exact 64 (a8 * b4) ∧
   int48mul m a4 b8 = exact 64 (a4 * b8) ∧ int82mul m a8 b2 = exact 64 (a8 * b2) ∧ int28mul m a2 b8 = exact 64 (a2 * b8)) ∧
  (int2um a2 = exact 16 (- a2) ∧ int4um a4 = exact 32 (- a4) ∧ int8um a8 = exact 64 (- a8) ∧
   int2abs a2 = exact 16 (Z.abs a2) ∧ int4abs a4 = exact 32 (Z.abs a4) ∧ int8abs a8 = exact 64 (Z.abs a8) ∧
   int4inc a4 = exact 32 (a4 + 1) ∧ int8inc a8 = exact 64 (a8 + 1)).
Proof.
  intros H2 H2' H4 H4' H8 H8'.
  pose proof (sint_mono 16 32 _ ltac:(lia) H2). pose proof (sint_mono 16 32 _ ltac:(lia) H2').
  pose proof (sint_mono 16 64 _ ltac:(lia) H2). pose proof (sint_mono 16 64 _ ltac:(lia) H2').
  pose proof (sint_mono 32 64 _ ltac:(lia) H4). pose proof (sint_mono 32 64 _ ltac:(lia) H4').
  split; [|split; [|split]].
  - by repeat split; apply pl_exact.
  - by repeat split; apply mi_exact.
  - auto 15 using int2mul_exact, int4mul_exact, int8mul_exact, int24mul_exact, int42mul_exact, int84mul_exact, int48mul_exact.
  - repeat split; by (apply um_exact || apply abs_exact || apply inc_exact).
Qed.

Lemma int_overflow_exact_witness :
  is_sint 32 (-2147483648) ∧ int4pl (-2147483648) (-1) = out_of_range ∧
  agrees (int4mul Traps (-2147483648) (-1)) out_of_range ∧ int8um 5 = Ret (-5).
Proof.
  assert (is_sint 16 7 ∧ is_sint 32 (-2147483648) ∧ is_sint 32 (-1) ∧ is_sint 64 5) as (H1 & H2 & H3 & H4)
    by (unfold is_sint; lia).
  destruct (int_overflow_exact Traps 7 7 (-2147483648) (-1) 5 5 H1 H1 H2 H3 H4 H4)
    as ((_ & Hp & _) & _ & (_ & Hm & _) & (_ & _ & Hu & _)).
  split; [done|]. rewrite Hp, Hu. split; [by vm_compute|]. split; [exact Hm|by vm_compute].
Defined.

(** Division truncates towards zero and raises an error for a zero divisor and, on every
    kind of machine, for the one quotient that does not fit.  The remainder of smallint and
    integer is total for divisors other than zero; that of bigint lacks the special case of
    integer, so that on a machine whose division traps, the remainder of the least bigint by
    -1 is a floating-point exception although it is zero. *)
Theorem int_division_exact m a2 b2 a4 b4 a8 b8 :
  is_sint 16 a2 → is_sint 16 b2 → is_sint 32 a4 → is_sint 32 b4 → is_sint 64 a8 → is_sint 64 b8 →
  (int2div a2 b2 = exact_div 16 a2 b2 ∧ agrees (int4div m a4 b4) (exact_div 32 a4 b4) ∧
   agrees (int8div m a8 b8) (exact_div 64 a8 b8) ∧ int24div m a2 b4 = exact_div 32 a2 b4 ∧
   agrees (int42div m a4 b2) (exact_div 32 a4 b2) ∧ agrees (int84div m a8 b4) (exact_div 64 a8 b4) ∧
   int48div m a4 b8 = exact_div 64 a4 b8 ∧ agrees (int82div m a8 b2) (exact_div 64 a8 b2) ∧
   int28div m a2 b8 = exact_div 64 a2 b8) ∧
  (int2mod a2 b2 = (if b2 =? 0 then division_by_zero else Ret (Z.rem a2 b2)) ∧
   int4mod m a4 b4 = (if b4 =? 0 then division_by_zero else Ret (Z.rem a4 b4)) ∧
   int8mod m a8 b8 =
     (if b8 =? 0 then division_by_zero
      else if bool_decide (a8 = INT_MIN 64 ∧ b8 = -1 ∧ m = Traps) then Ereport ERRCODE_FLOATING_POINT_EXCEPTION
      else Ret (Z.rem a8 b8))).
Proof.
  intros H2 H2' H4 H4' H8 H8'. split.
  - repeat split; try (by apply div_exact); [by apply int2div_exact|apply wide_div_exact; [lia|]..].
    + by apply (sint_mono 16).
    + by apply (sint_mono 32).
    + by apply (sint_mono 16).
  - split; [done|]. split.
    + unfold int4mod, c_rem. destruct (b4 =? 0); [done|]. destruct (_ && _) eqn:E; [|done].
      by apply least_true in E as [-> ->].
    + unfold int8mod, c_rem. destruct (b8 =? 0); [done|]. destruct (_ && _) eqn:E.
      * apply least_true in E as [-> ->]. by destruct m.
      * rewrite bool_decide_false; [done|]. intros (Ha & Hb & _). rewrite (proj2 (least_true 64 a8 b8)) in E; done.
Qed.

Lemma int_division_exact_witness :
  is_sint 64 (-9223372036854775808) ∧ int8mod Traps (-9223372036854775808) (-1) = Ereport ERRCODE_FLOATING_POINT_EXCEPTION ∧
  int4mod Traps (-2147483648) (-1) = Ret 0 ∧ int2div (-7) 2 = Ret (-3).
Proof.
  assert (is_sint 16 (-7) ∧ is_sint 16 2 ∧ is_sint 32 (-2147483648) ∧ is_sint 32 (-1) ∧ is_sint 64 (-9223372036854775808) ∧
    is_sint 64 (-1)) as (H1 & H2 & H3 & H4 & H5 & H6) by (unfold is_sint; lia).
  destruct (int_division_exact Traps (-7) 2 (-2147483648) (-1) (-9223372036854775808) (-1) H1 H2 H3 H4 H5 H6)
    as ((Hd & _) & (_ & Hm4 & Hm8)).
  split; [done|]. rewrite Hm8, Hm4, Hd. split; [by vm_compute|]. split; by vm_compute.
Defined.
