(* ===== verification/IntText.v ===== *)
(** * Integers as text, and series of integers

    The input and output functions of smallint, integer and bigint ([int2in], [int4in],
    [int8in] and their [out] functions, over [pg_atoi], [scanint8], [pg_ltoa] and [pg_lltoa]
    of [backend/utils/adt/numutils.c] and [int8.c]) and the set-returning functions
    [generate_series_step_int4] and [generate_series_step_int8].

    A C string is the list of its bytes before the terminating NUL. *)

From Stdlib Require Import String Ascii.
From S2P Require Import Prelude Int.

Abbreviation char := Z.
Definition chars (s : string) : list char := (λ a, Z.of_N (N_of_ascii a)) <$> list_ascii_of_string s.

(** [isspace] and [isdigit] in the C locale *)
Definition isspace (c : char) : bool := (c =? 32) || ((9 <=? c) && (c <=? 13)).
Definition isdigit (c : char) : bool := (48 <=? c) && (c <=? 57).

(** [while ( *ptr && isspace( *ptr)) ptr++] *)
Fixpoint skip_space (ptr : list char) : list char :=
  match ptr with
  | c :: ptr' => if isspace c then skip_space ptr' else ptr
  | [] => []
  end.
(** [ *ptr] *)
Definition deref (ptr : list char) : char := default 0 (head ptr).

(** ** bigint from text *)

(** Bad input: an error, or [false] if the caller allows for it. *)
Definition bad_input {A} (errorOK : bool) (e : pgerror) : outcome (option A) :=
  if errorOK then Ret None else Ereport e.

(** The loop that processes digits. *)
Fixpoint digits_loop (errorOK : bool) (ptr : list char) (tmp : Z) : outcome (option (Z * list char)) :=
  match ptr with
  | c :: ptr' =>
      if isdigit c then
        let newtmp := int64_of (tmp * 10 + (c - 48)) in
        if negb (Z.quot newtmp 10 =? tmp) then bad_input errorOK ERRCODE_NUMERIC_VALUE_OUT_OF_RANGE
        else digits_loop errorOK ptr' newtmp
      else Ret (Some (tmp, ptr))
  | [] => Ret (Some (tmp, []))
  end.

(** From the label [gotdigits]. *)
Definition gotdigits (errorOK : bool) (sign tmp : Z) (ptr : list char) : outcome (option Z) :=
  match skip_space ptr with
  | [] => Ret (Some (if sign <? 0 then int64_of (- tmp) else tmp))
  | _ => bad_input errorOK ERRCODE_INVALID_TEXT_REPRESENTATION
  end.
Definition scan_number (errorOK : bool) (sign : Z) (ptr : list char) : outcome (option Z) :=
  if negb (isdigit (deref ptr)) then bad_input errorOK ERRCODE_INVALID_TEXT_REPRESENTATION else
  r ← digits_loop errorOK ptr 0;
  match r with
  | Some (tmp, ptr) => gotdigits errorOK sign tmp ptr
  | None => Ret None
  end.

Definition INT64_MIN_DIGITS : list char := Eval vm_compute in chars "9223372036854775808".
Definition scanint8 (str : list char) (errorOK : bool) : outcome (option Z) :=
  let ptr := skip_space str in
  if deref ptr =? 45 then
    let ptr := tail ptr in
    if bool_decide (take 19 ptr = INT64_MIN_DIGITS) then gotdigits errorOK 1 (INT_MIN 64) (drop 19 ptr)
    else scan_number errorOK (-1) ptr
  else if deref ptr =? 43 then scan_number errorOK 1 (tail ptr)
  else scan_number errorOK 1 ptr.

(** [(void) scanint8(str, false, &result)] *)
Definition int8in (str : list char) : outcome Z :=
  r ← scanint8 str false;
  match r with Some z => Ret z | None => UB end.

(** ** Integers to text *)

(** [do { ... } while (value != 0)]: the digits, backwards. *)
Fixpoint itoa_loop (fuel : nat) (value : Z) (a : list char) : outcome (list char) :=
  match fuel with
  | O => Timeout
  | S fuel =>
      let oldval := value in
      let value := Z.quot value 10 in
      let remainder := oldval - value * 10 in
      let a := a ++ [48 + remainder] in
      if negb (value =? 0) then itoa_loop fuel value a else Ret a
  end.
(** [while (start < a)]: the string is reversed. *)
Fixpoint reverse_loop (fuel : nat) (buf : list char) (start a : Z) : outcome (list char) :=
  match fuel with
  | O => Timeout
  | S fuel =>
      if start <? a then
        swap ← arr_get buf start;
        c ← arr_get buf a;
        buf ← arr_set buf start c;
        buf ← arr_set buf a swap;
        reverse_loop fuel buf (start + 1) (a - 1)
      else Ret buf
  end.
(** [pg_ltoa] and [pg_lltoa], which differ in the width and the text of the least value. *)
Definition itoa (w : Z) (least : list char) (value : Z) : outcome (list char) :=
  if value =? INT_MIN w then Ret least else
  let neg := value <? 0 in
  let value := if neg then wrap_s w (- value) else value in
  a ← itoa_loop 20 value [];
  let a := if neg then a ++ [45] else a in
  reverse_loop (length a) a 0 (Z.of_nat (length a) - 1).

Definition INT32_MIN_TEXT : list char := Eval vm_compute in chars "-2147483648".
Definition INT64_MIN_TEXT : list char := Eval vm_compute in chars "-9223372036854775808".
Definition pg_ltoa : Z → outcome (list char) := itoa 32 INT32_MIN_TEXT.
Definition pg_lltoa : Z → outcome (list char) := itoa 64 INT64_MIN_TEXT.
Definition pg_itoa (i : Z) : outcome (list char) := pg_ltoa i.

Definition int2out : Z → outcome (list char) := pg_itoa.
Definition int4out : Z → outcome (list char) := pg_ltoa.
Definition int8out : Z → outcome (list char) := pg_lltoa.

(** ** smallint and integer from text *)

Fixpoint decimal (ds : list char) (acc : Z) : Z :=
  match ds with [] => acc | c :: ds => decimal ds (acc * 10 + (c - 48)) end.
Fixpoint span_digits (l : list char) : list char * list char :=
  match l with
  | c :: l' => if isdigit c then let '(ds, r) := span_digits l' in (c :: ds, r) else ([], l)
  | [] => ([], [])
  end.

(** [strtol(s, &badp, 10)] with a [long] of 64 bits: the value, the text after the number, and
    whether [errno] is [ERANGE]; without digits, the whole text is left. *)
Definition strtol (s : list char) : Z * list char * bool :=
  let p := skip_space s in
  let neg := deref p =? 45 in
  let p := if neg || (deref p =? 43) then tail p else p in
  let '(ds, badp) := span_digits p in
  match ds with
  | [] => (0, s, false)
  | _ =>
      let v := if neg then - decimal ds 0 else decimal ds 0 in
      if v <? INT_MIN 64 then (INT_MIN 64, badp, true)
      else if INT_MAX 64 <? v then (INT_MAX 64, badp, true)
      else (v, badp, false)
  end.

(** [while ( *badp && *badp != c && isspace( *badp)) badp++] *)
Fixpoint skip_space_until (c : char) (badp : list char) : list char :=
  match badp with
  | x :: badp' => if negb (x =? c) && isspace x then skip_space_until c badp' else badp
  | [] => []
  end.

Definition pg_atoi (s : list char) (size : Z) (c : char) : outcome Z :=
  if bool_decide (s = []) then Ereport ERRCODE_INVALID_TEXT_REPRESENTATION else
  let '(l, badp, erange) := strtol s in
  if (length badp =? length s)%nat then Ereport ERRCODE_INVALID_TEXT_REPRESENTATION else
  _ ← match size with
      | 4 => if erange || (l <? INT_MIN 32) || (INT_MAX 32 <? l) then out_of_range else Ret tt
      | 2 => if erange || (l <? SHRT_MIN) || (SHRT_MAX <? l) then out_of_range else Ret tt
      | 1 => if erange || (l <? INT_MIN 8) || (INT_MAX 8 <? l) then out_of_range else Ret tt
      | _ => Ereport ERRCODE_INTERNAL_ERROR
      end;
  let badp := skip_space_until c badp in
  if negb (deref badp =? 0) && negb (deref badp =? c) then Ereport ERRCODE_INVALID_TEXT_REPRESENTATION
  else Ret (int32_of l).

Definition int2in (num : list char) : outcome Z := l ← pg_atoi num 2 0; Ret (int16_of l).
Definition int4in (num : list char) : outcome Z := pg_atoi num 4 0.

(** ** Series *)

Record generate_series_fctx := mkFctx { current : Z; finish : Z; step : Z }.

(** The first call: [nargs] is 2 or 3. *)
Definition series_first (start finish : Z) (step : option Z) : outcome generate_series_fctx :=
  let step := default 1 step in
  if step =? 0 then Ereport ERRCODE_INVALID_PARAMETER_VALUE else Ret (mkFctx start finish step).

(** Every call: the next value, or [None] when there is no more left. *)
Definition series_call (w : Z) (fctx : generate_series_fctx) : option Z * generate_series_fctx :=
  let result := current fctx in
  if ((0 <? step fctx) && (current fctx <=? finish fctx)) || ((step fctx <? 0) && (current fctx >=? finish fctx)) then
    let next := wrap_s w (current fctx + step fctx) in
    let fctx := mkFctx next (finish fctx)
      (if SAMESIGN result (step fctx) && negb (SAMESIGN result next) then 0 else step fctx) in
    (Some result, fctx)
  else (None, fctx).

(** The executor calls the function until it is done. *)
Fixpoint series_rows (w : Z) (fuel : nat) (fctx : generate_series_fctx) : outcome (list Z) :=
  match fuel with
  | O => Timeout
  | S fuel =>
      let '(r, fctx) := series_call w fctx in
      match r with
      | Some v => rows ← series_rows w fuel fctx; Ret (v :: rows)
      | None => Ret []
      end
  end.
Definition generate_series (w : Z) (fuel : nat) (start finish : Z) (step : option Z) : outcome (list Z) :=
  fctx ← series_first start finish step;
  series_rows w fuel fctx.
Definition generate_series_step_int4 : nat → Z → Z → option Z → outcome (list Z) := generate_series 32.
Definition generate_series_step_int8 : nat → Z → Z → option Z → outcome (list Z) := generate_series 64.

(** ** Decimal numbers *)

Definition spaces (l : list char) : Prop := Forall (λ c, isspace c = true) l.
Definition digits (l : list char) : Prop := Forall (λ c, isdigit c = true) l.

Lemma isdigit_range c : isdigit c = true ↔ 48 ≤ c ≤ 57.
Proof. unfold isdigit. rewrite andb_true_iff, !Z.leb_le. done. Qed.
Lemma digit_not_space c : isdigit c = true → isspace c = false.
Proof.
  rewrite isdigit_range. unfold isspace. intros H. apply orb_false_iff. rewrite Z.eqb_neq, andb_false_iff, !Z.leb_gt. lia.
Qed.
Lemma space_not_digit c : isspace c = true → isdigit c = false.
Proof. intros H. destruct (isdigit c) eqn:E; [|done]. apply digit_not_space in E. congruence. Qed.

Lemma decimal_app ds c acc : decimal (ds ++ [c]) acc = decimal ds acc * 10 + (c - 48).
Proof. revert acc. induction ds as [|d ds IH]; intros acc; cbn; [done|apply IH]. Qed.
Lemma decimal_le ds acc : digits ds → 0 ≤ acc → acc ≤ decimal ds acc.
Proof.
  intros H. revert acc. induction H as [|c ds Hc _ IH]; intros acc Ha; cbn [decimal]; [lia|].
  apply isdigit_range in Hc. specialize (IH (acc * 10 + (c - 48)) ltac:(lia)). lia.
Qed.

Lemma skip_space_app sp l : spaces sp → skip_space (sp ++ l) = skip_space l.
Proof. induction 1 as [|c sp Hc _ IH]; [done|]. cbn [app skip_space]. by rewrite Hc. Qed.
Lemma skip_space_all sp : spaces sp → skip_space sp = [].
Proof. intros H. rewrite <- (app_nil_r sp), skip_space_app by done. done. Qed.
Lemma skip_space_stop c l : isspace c = false → skip_space (c :: l) = c :: l.
Proof. cbn. by intros ->. Qed.

(** The overflow test of [scanint8]. *)
Lemma times_ten_test tmp d :
  0 ≤ tmp < 2 ^ 63 → 0 ≤ d ≤ 9 →
  Z.quot (int64_of (tmp * 10 + d)) 10 = tmp ↔ tmp * 10 + d < 2 ^ 63.
Proof.
  intros Ht Hd. split.
  - intros Hq. destruct (wrap_diff 64 ltac:(lia) (tmp * 10 + d)) as [k Hk].
    pose proof (Z.quot_rem (int64_of (tmp * 10 + d)) 10 ltac:(lia)) as Hr. rewrite Hq in Hr.
    pose proof (Z.rem_bound_abs (int64_of (tmp * 10 + d)) 10 ltac:(lia)) as Hb.
    pose proof (wrap_s_bound 64 (tmp * 10 + d) ltac:(lia)) as Hw. unfold is_sint in Hw. lia.
  - intros Hs. rewrite wrap_s_small; [|lia|unfold is_sint; lia].
    symmetry. apply Z.quot_unique with d; lia.
Qed.

Definition stops (l : list char) : Prop := isdigit (deref l) = false.

Lemma digits_loop_spec ok ds rest tmp :
  digits ds → stops rest → 0 ≤ tmp < 2 ^ 63 →
  digits_loop ok (ds ++ rest) tmp =
    if decimal ds tmp <? 2 ^ 63 then Ret (Some (decimal ds tmp, rest))
    else bad_input ok ERRCODE_NUMERIC_VALUE_OUT_OF_RANGE.
Proof.
  intros H Hr. revert tmp. induction H as [|c ds Hc Hds IH]; intros tmp Ht.
  - cbn [app decimal]. rewrite (proj2 (Z.ltb_lt tmp (2 ^ 63))) by lia. destruct rest as [|c rest]; [done|].
    cbn [digits_loop]. unfold stops in Hr. cbn in Hr. by rewrite Hr.
  - cbn [app digits_loop decimal]. rewrite Hc. cbv zeta. apply isdigit_range in Hc.
    pose proof (times_ten_test tmp (c - 48) Ht ltac:(lia)) as Htest.
    destruct (Z.eqb_spec (Z.quot (int64_of (tmp * 10 + (c - 48))) 10) tmp) as [E|E]; cbn [negb].
    + apply Htest in E. rewrite wrap_s_small by (unfold is_sint; lia). apply IH. lia.
    + destruct (Z.ltb_spec (decimal ds (tmp * 10 + (c - 48))) (2 ^ 63)) as [L|L]; [|done]. exfalso. apply E, Htest.
      pose proof (decimal_le ds (tmp * 10 + (c - 48)) Hds ltac:(lia)). lia.
Qed.

Lemma spaces_stop sp : spaces sp → stops sp.
Proof. intros [|c l Hc _]; [done|]. unfold stops. cbn. by apply space_not_digit. Qed.

Lemma scan_number_spec ok sign ds sp :
  digits ds → ds ≠ [] → spaces sp → sign = 1 ∨ sign = -1 →
  scan_number ok sign (ds ++ sp) =
    if decimal ds 0 <? 2 ^ 63 then Ret (Some (sign * decimal ds 0))
    else bad_input ok ERRCODE_NUMERIC_VALUE_OUT_OF_RANGE.
Proof.
  intros Hd Hne Hs Hsign. unfold scan_number. assert (isdigit (deref (ds ++ sp)) = true) as ->.
  { destruct Hd as [|c ds Hc _]; [done|]. exact Hc. }
  cbn [negb]. rewrite digits_loop_spec; [|done|by apply spaces_stop|lia].
  destruct (Z.ltb_spec (decimal ds 0) (2 ^ 63)) as [L|L]; [|by destruct ok]. cbn [mbind outcome_bind].
  unfold gotdigits. rewrite skip_space_all by done. pose proof (decimal_le ds 0 Hd ltac:(lia)).
  destruct Hsign as [-> | ->]; cbn [Z.ltb Z.compare]; [by rewrite Z.mul_1_l|].
  rewrite wrap_s_small by (unfold is_sint; lia). do 2 f_equal.
Qed.

(** The digits of the least bigint. *)
Lemma least_digits : digits INT64_MIN_DIGITS ∧ length INT64_MIN_DIGITS = 19%nat ∧ decimal INT64_MIN_DIGITS 0 = 2 ^ 63.
Proof. split; [|by vm_compute]. unfold digits. by repeat (apply Forall_cons; split; [done|]). Qed.
Lemma decimal_app_le ds ds' : digits ds → digits ds' → decimal ds 0 ≤ decimal (ds ++ ds') 0.
Proof.
  intros H. assert (∀ acc, 0 ≤ acc → digits ds' → decimal ds acc ≤ decimal (ds ++ ds') acc); [|auto with lia].
  induction H as [|c ds Hc _ IH]; intros acc Ha H'; cbn [app decimal]; [by apply decimal_le|].
  apply isdigit_range in Hc. apply IH; [lia|done].
Qed.

Lemma take_least ds sp :
  digits ds → spaces sp → take 19 (ds ++ sp) = INT64_MIN_DIGITS ↔ take 19 ds = INT64_MIN_DIGITS.
Proof.
  intros Hd Hs. destruct least_digits as (Hm & Hl & _). destruct (le_lt_dec 19 (length ds)) as [L|L].
  { rewrite take_app_le by done. done. }
  split; intros E.
  - exfalso. assert (INT64_MIN_DIGITS !! length ds = sp !! 0%nat) as H.
    { rewrite <- E, lookup_take_lt by lia. rewrite lookup_app_r by lia. by rewrite Nat.sub_diag. }
    destruct (lookup_lt_is_Some_2 INT64_MIN_DIGITS (length ds)) as [c Hc]; [lia|]. rewrite Hc in H. symmetry in H.
    pose proof (Forall_lookup_1 _ _ _ _ Hm Hc) as H1. pose proof (Forall_lookup_1 _ _ _ _ Hs H) as H2.
    cbn in H1, H2. apply digit_not_space in H1. congruence.
  - exfalso. rewrite take_ge in E by lia. rewrite E in L. lia.
Qed.

(** The case of the least bigint. *)
Lemma scan_least ok ds sp :
  digits ds → spaces sp → take 19 ds = INT64_MIN_DIGITS →
  (decimal ds 0 <? 2 ^ 63) = false ∧
  gotdigits ok 1 (INT_MIN 64) (drop 19 (ds ++ sp)) =
    if bool_decide (ds = INT64_MIN_DIGITS) then Ret (Some (INT_MIN 64)) else bad_input ok ERRCODE_INVALID_TEXT_REPRESENTATION.
Proof.
  intros Hd Hs E. destruct least_digits as (Hm & Hl & Hv).
  assert (∃ r, ds = INT64_MIN_DIGITS ++ r) as [r ->] by (exists (drop 19 ds); by rewrite <- E, take_drop). clear E.
  apply Forall_app in Hd as [_ Hd]. split.
  - apply Z.ltb_ge. rewrite <- Hv. by apply decimal_app_le.
  - rewrite <- app_assoc, (drop_app_length' INT64_MIN_DIGITS) by done. unfold gotdigits.
    destruct Hd as [|c r' Hc Hr].
    + rewrite app_nil_r, bool_decide_true by done. cbn [app]. by rewrite skip_space_all.
    + rewrite bool_decide_false.
      * cbn [app]. by rewrite skip_space_stop by (by apply digit_not_space).
      * intros H. apply (f_equal length) in H. rewrite length_app in H. cbn in H. lia.
Qed.

Lemma scanint8_number ok sp sg ds sp' :
  spaces sp → sg = [] ∨ sg = [43] ∨ sg = [45] → digits ds → ds ≠ [] → spaces sp' →
  scanint8 (sp ++ sg ++ ds ++ sp') ok =
    if decimal ds 0 <? 2 ^ 63 then Ret (Some (if bool_decide (sg = [45]) then - decimal ds 0 else decimal ds 0))
    else if bool_decide (sg = [45] ∧ ds = INT64_MIN_DIGITS) then Ret (Some (INT_MIN 64))
    else bad_input ok (if bool_decide (sg = [45] ∧ take 19 ds = INT64_MIN_DIGITS)
                       then ERRCODE_INVALID_TEXT_REPRESENTATION else ERRCODE_NUMERIC_VALUE_OUT_OF_RANGE).
Proof.
  intros Hsp Hsg Hd Hne Hsp'. unfold scanint8. rewrite skip_space_app by done.
  assert (∀ sg', sg' = [] ∨ sg' = [43] → scan_number ok 1 (ds ++ sp') =
    if decimal ds 0 <? 2 ^ 63 then Ret (Some (if bool_decide (sg' = [45]) then - decimal ds 0 else decimal ds 0))
    else if bool_decide (sg' = [45] ∧ ds = INT64_MIN_DIGITS) then Ret (Some (INT_MIN 64))
    else bad_input ok (if bool_decide (sg' = [45] ∧ take 19 ds = INT64_MIN_DIGITS)
                       then ERRCODE_INVALID_TEXT_REPRESENTATION else ERRCODE_NUMERIC_VALUE_OUT_OF_RANGE)) as Hp.
  { intros sg' Hs'. rewrite (scan_number_spec ok 1 ds sp') by auto. rewrite Z.mul_1_l.
    rewrite !bool_decide_false by (destruct Hs' as [-> | ->]; naive_solver). done. }
  destruct Hsg as [-> |[-> | ->]].
  - rewrite <- (Hp []) by auto. destruct Hd as [|c ds Hc Hds]; [done|]. cbn [app].
    rewrite skip_space_stop by (by apply digit_not_space). apply isdigit_range in Hc.
    assert (deref (c :: ds ++ sp') = c) as -> by done.
    by rewrite (proj2 (Z.eqb_neq c 45)), (proj2 (Z.eqb_neq c 43)) by lia.
  - rewrite <- (Hp [43]) by auto. done.
  - change (skip_space ([45] ++ ds ++ sp')) with (45 :: ds ++ sp'). cbn [tail].
    change (deref (45 :: ds ++ sp') =? 45) with true. cbv iota.
    rewrite (bool_decide_ext _ _ (take_least ds sp' Hd Hsp')). rewrite (bool_decide_true ([45] = [45])) by done.
    rewrite (bool_decide_ext ([45] = [45] ∧ ds = INT64_MIN_DIGITS) (ds = INT64_MIN_DIGITS)) by (split; [by intros []|done]).
    rewrite (bool_decide_ext ([45] = [45] ∧ take 19 ds = INT64_MIN_DIGITS) (take 19 ds = INT64_MIN_DIGITS)) by (split; [by intros []|done]).
    destruct (bool_decide_reflect (take 19 ds = INT64_MIN_DIGITS)) as [E|E].
    + destruct (scan_least ok ds sp' Hd Hsp' E) as [-> ->]. done.
    + rewrite (bool_decide_false (ds = INT64_MIN_DIGITS)) by (intros ->; by apply E).
      rewrite (scan_number_spec ok (-1) ds sp') by auto. destruct (_ <? _); [|done]. do 2 f_equal.
Qed.

(** [scanint8] accepts a decimal number with an optional sign between white space and
    returns its value: exactly if its magnitude is less than 2^63, or if it is the least
    bigint without leading zeros.  Every other magnitude is an error (or [false], if the
    caller allows for errors); so the least bigint written with leading zeros is refused,
    although it is a value of the type. *)
Theorem scanint8_decimal ok sp sg ds sp' :
  spaces sp → sg = [] ∨ sg = [43] ∨ sg = [45] → digits ds → ds ≠ [] → spaces sp' →
  scanint8 (sp ++ sg ++ ds ++ sp') ok =
    if decimal ds 0 <? 2 ^ 63 then Ret (Some (if bool_decide (sg = [45]) then - decimal ds 0 else decimal ds 0))
    else if bool_decide (sg = [45] ∧ ds = INT64_MIN_DIGITS) then Ret (Some (INT_MIN 64))
    else bad_input ok (if bool_decide (sg = [45] ∧ take 19 ds = INT64_MIN_DIGITS)
                       then ERRCODE_INVALID_TEXT_REPRESENTATION else ERRCODE_NUMERIC_VALUE_OUT_OF_RANGE).
Proof. by apply scanint8_number. Qed.

Lemma scanint8_decimal_witness :
  scanint8 (chars " +42 ") true = Ret (Some 42) ∧
  scanint8 (chars "-09223372036854775808") false = Ereport ERRCODE_NUMERIC_VALUE_OUT_OF_RANGE.
Proof.
  split.
  - apply (scanint8_decimal true [32] [43] [52; 50] [32]); [by repeat constructor|auto|by repeat constructor|done|by repeat constructor].
  - apply (scanint8_decimal false [] [45] (48 :: INT64_MIN_DIGITS) []); [constructor|auto| |done|constructor].
    apply Forall_cons. split; [done|apply least_digits].
Defined.

(** ** Output *)

Lemma itoa_loop_spec fuel : ∀ v a,
  0 ≤ v < 10 ^ Z.of_nat fuel → fuel ≠ 0%nat →
  ∃ ds, itoa_loop fuel v a = Ret (a ++ rev ds) ∧ digits ds ∧ ds ≠ [] ∧ decimal ds 0 = v ∧
    ∀ k, (0 < k)%nat → v < 10 ^ Z.of_nat k → (length ds ≤ k)%nat.
Proof.
  induction fuel as [|fuel IH]; intros v a Hv Hf; [done|]. cbn [itoa_loop]. cbv zeta.
  rewrite Z.quot_div_nonneg by lia. pose proof (Z.div_mod v 10 ltac:(lia)) as Hdm. pose proof (Z.mod_pos_bound v 10 ltac:(lia)) as Hmb.
  set (c := 48 + (v - v / 10 * 10)). assert (isdigit c = true) as Hc by (apply isdigit_range; lia).
  destruct (Z.eqb_spec (v / 10) 0) as [E|E]; cbn [negb].
  - exists [c]. split; [done|]. split; [by repeat constructor|]. split; [done|]. split; [cbn; lia|]. intros k Hk _. cbn. lia.
  - rewrite Nat2Z.inj_succ, Z.pow_succ_r in Hv by lia. assert (0 ≤ v / 10) by (apply Z.div_pos; lia).
    destruct (IH (v / 10) (a ++ [c])) as (ds & -> & Hd & Hne & Hv' & Hlen).
    + lia.
    + intros ->. cbn in Hv. lia.
    + exists (ds ++ [c]). split; [by rewrite rev_app_distr, <- app_assoc|]. split; [apply Forall_app; split; [done|by repeat constructor]|].
      split; [by destruct ds|]. split; [rewrite decimal_app, Hv'; lia|]. intros k Hk Hvk. rewrite length_app. cbn.
      destruct k as [|[|k]]; [lia|cbn in Hvk; lia|]. rewrite Nat2Z.inj_succ, Z.pow_succ_r in Hvk by lia.
      specialize (Hlen (S k) ltac:(lia) ltac:(lia)). lia.
Qed.

Lemma arr_get_mid (p r : list char) x : arr_get (p ++ x :: r) (Z.of_nat (length p)) = Ret x.
Proof. apply arr_get_Some. split; [lia|]. rewrite Nat2Z.id. by apply list_lookup_middle. Qed.
Lemma arr_set_mid (p r : list char) x y : arr_set (p ++ x :: r) (Z.of_nat (length p)) y = Ret (p ++ y :: r).
Proof.
  unfold arr_set. rewrite (proj2 (Z.ltb_ge (Z.of_nat (length p)) 0)) by lia.
  rewrite (proj2 (Z.leb_gt (Z.of_nat (length (p ++ x :: r))) (Z.of_nat (length p)))) by (rewrite length_app; cbn; lia).
  cbn [orb]. rewrite Nat2Z.id, insert_app_r_alt by lia. by rewrite Nat.sub_diag.
Qed.

Lemma reverse_loop_spec fuel : ∀ p m q,
  (length m < 2 * fuel)%nat →
  reverse_loop fuel (p ++ m ++ q) (Z.of_nat (length p)) (Z.of_nat (length p + length m) - 1) = Ret (p ++ rev m ++ q).
Proof.
  induction fuel as [|fuel IH]; intros p m q Hf; [lia|]. cbn [reverse_loop].
  destruct m as [|x m]; [|destruct m as [|y m _] using rev_ind].
  - rewrite (proj2 (Z.ltb_ge _ _)) by (cbn; lia). done.
  - rewrite (proj2 (Z.ltb_ge _ _)) by (cbn; lia). done.
  - rewrite (proj2 (Z.ltb_lt _ _)) by (cbn; rewrite length_app; cbn; lia).
    assert (p ++ (x :: m ++ [y]) ++ q = p ++ x :: (m ++ y :: q)) as -> by (cbn; by rewrite <- app_assoc).
    assert (∀ z v : char, p ++ z :: (m ++ v :: q) = (p ++ z :: m) ++ v :: q) as Eq by (intros z v; by rewrite <- app_assoc).
    assert (Z.of_nat (length p + length (x :: m ++ [y])) - 1 = Z.of_nat (length (p ++ x :: m))) as ->
      by (cbn; rewrite !length_app; cbn; lia).
    rewrite arr_get_mid. cbn [mbind outcome_bind]. rewrite (Eq x y), arr_get_mid. cbn [mbind outcome_bind].
    rewrite <- (Eq x y), arr_set_mid. cbn [mbind outcome_bind].
    replace (length (p ++ x :: m)) with (length (p ++ y :: m)) by (by rewrite !length_app).
    rewrite (Eq y y), arr_set_mid. cbn [mbind outcome_bind].
    replace ((p ++ y :: m) ++ x :: q) with ((p ++ [y]) ++ m ++ (x :: q)) by (by rewrite <- !app_assoc).
    replace (Z.of_nat (length p) + 1) with (Z.of_nat (length (p ++ [y]))) by (rewrite length_app; cbn; lia).
    replace (Z.of_nat (length (p ++ y :: m)) - 1) with (Z.of_nat (length (p ++ [y]) + length m) - 1)
      by (rewrite !length_app; cbn; lia).
    rewrite IH by (cbn in Hf; rewrite length_app in Hf; cbn in Hf; lia).
    cbn [rev]. rewrite rev_app_distr. cbn. by rewrite <- !app_assoc.
Qed.

(** The text of an integer. *)
Definition text_of (neg : bool) (ds : list char) : list char := if neg then 45 :: ds else ds.

Lemma itoa_spec w least v :
  2 ≤ w ≤ 64 → is_sint w v → v ≠ INT_MIN w →
  ∃ ds, itoa w least v = Ret (text_of (v <? 0) ds) ∧ digits ds ∧ ds ≠ [] ∧ decimal ds 0 = Z.abs v ∧
    ∀ k, (0 < k)%nat → Z.abs v < 10 ^ Z.of_nat k → (length ds ≤ k)%nat.
Proof.
  intros Hw Hv Hm. unfold itoa. rewrite (proj2 (Z.eqb_neq _ _)) by done. cbv zeta.
  assert (2 ^ (w - 1) ≤ 2 ^ 63) as Hp by (apply Z.pow_le_mono_r; lia).
  assert ((if v <? 0 then wrap_s w (- v) else v) = Z.abs v) as ->.
  { unfold is_sint, INT_MIN in *. destruct (Z.ltb_spec v 0); [|lia]. rewrite wrap_s_small; [lia|lia|]. unfold is_sint. lia. }
  destruct (itoa_loop_spec 20 (Z.abs v) []) as (ds & -> & Hd & Hne & Hdv & Hlen); [unfold is_sint, INT_MIN in *; lia|done|].
  exists ds. cbn [mbind outcome_bind app].
  set (a := if v <? 0 then rev ds ++ [45] else rev ds).
  assert (rev a = text_of (v <? 0) ds) as Ea.
  { unfold a, text_of. destruct (v <? 0); [|apply rev_involutive]. by rewrite rev_app_distr, rev_involutive. }
  assert (0 < length a)%nat as Hl.
  { unfold a. destruct ds; [done|]. destruct (v <? 0); cbn; rewrite ?length_app; cbn; lia. }
  pose proof (reverse_loop_spec (length a) [] a [] ltac:(lia)) as Hr. cbn [app length] in Hr. rewrite !app_nil_r in Hr.
  rewrite <- Ea. done.
Qed.

(** ** Round trips *)

Lemma span_digits_all ds : digits ds → span_digits ds = (ds, []).
Proof. induction 1 as [|c ds Hc _ IH]; [done|]. cbn [span_digits]. by rewrite Hc, IH. Qed.

Lemma strtol_text neg ds :
  digits ds → ds ≠ [] → decimal ds 0 < 2 ^ 63 →
  strtol (text_of neg ds) = (if neg then - decimal ds 0 else decimal ds 0, [], false).
Proof.
  intros Hd Hne Hv. pose proof (decimal_le ds 0 Hd ltac:(lia)) as H0. unfold strtol, INT_MIN, INT_MAX.
  assert (∀ c r, ds = c :: r → isspace c = false ∧ c ≠ 45 ∧ c ≠ 43) as Hc.
  { intros c r ->. apply Forall_cons in Hd as [Hc _]. split; [by apply digit_not_space|]. apply isdigit_range in Hc. lia. }
  destruct neg; cbn [text_of].
  - rewrite skip_space_stop by done. change (deref (45 :: ds) =? 45) with true. cbn [orb tail].
    rewrite span_digits_all by done. destruct ds as [|c r]; [done|].
    rewrite (proj2 (Z.ltb_ge (- decimal (c :: r) 0) (- 2 ^ (64 - 1)))) by lia.
    by rewrite (proj2 (Z.ltb_ge (2 ^ (64 - 1) - 1) (- decimal (c :: r) 0))) by lia.
  - destruct ds as [|c r] eqn:Eds; [done|]. destruct (Hc c r eq_refl) as (H1 & H2 & H3).
    rewrite skip_space_stop by done. assert (deref (c :: r) = c) as -> by done.
    rewrite (proj2 (Z.eqb_neq c 45)), (proj2 (Z.eqb_neq c 43)) by done. cbn [orb]. rewrite span_digits_all by done.
    rewrite (proj2 (Z.ltb_ge (decimal (c :: r) 0) (- 2 ^ (64 - 1)))) by lia.
    by rewrite (proj2 (Z.ltb_ge (2 ^ (64 - 1) - 1) (decimal (c :: r) 0))) by lia.
Qed.

Lemma text_value v ds : decimal ds 0 = Z.abs v → (if v <? 0 then - decimal ds 0 else decimal ds 0) = v.
Proof. intros ->. destruct (Z.ltb_spec v 0); lia. Qed.

Lemma pg_atoi_text v ds size w :
  (size, w) = (4, 32) ∨ (size, w) = (2, 16) → is_sint w v → digits ds → ds ≠ [] → decimal ds 0 = Z.abs v →
  pg_atoi (text_of (v <? 0) ds) size 0 = Ret v.
Proof.
  intros Hsz Hv Hd Hne Hdv. unfold pg_atoi.
  rewrite bool_decide_false by (unfold text_of; by destruct (v <? 0), ds).
  assert (is_sint 32 v) as Hv32 by (destruct Hsz as [[= -> ->]|[= -> ->]]; [done|by apply (sint_mono 16)]).
  rewrite strtol_text, text_value by (done || (unfold is_sint in Hv32; lia)).
  assert (Nat.eqb (length (@nil char)) (length (text_of (v <? 0) ds)) = false) as ->.
  { apply Nat.eqb_neq. unfold text_of. by destruct (v <? 0), ds. }
  assert (∀ u, is_sint u v → (v <? INT_MIN u) = false ∧ (INT_MAX u <? v) = false) as Hr.
  { intros u Hu. unfold is_sint, INT_MIN, INT_MAX in *. rewrite !Z.ltb_ge. lia. }
  destruct Hsz as [[= -> ->]|[= -> ->]]; unfold SHRT_MIN, SHRT_MAX; destruct (Hr _ Hv) as [-> ->];
    cbn [orb mbind outcome_bind skip_space_until]; by rewrite wrap_s_small.
Qed.

(** C36: Text output and input of the integer types are inverse to each other: for every value
    of smallint, integer and bigint, the output function terminates with a text that fits
    the memory it is given (7, 12 and 26 bytes with the terminating NUL) and that the input
    function reads back as that value. *)
Theorem int_text_roundtrip v :
  (is_sint 16 v → ∃ s, int2out v = Ret s ∧ (length s < 7)%nat ∧ int2in s = Ret v) ∧
  (is_sint 32 v → ∃ s, int4out v = Ret s ∧ (length s < 12)%nat ∧ int4in s = Ret v) ∧
  (is_sint 64 v → ∃ s, int8out v = Ret s ∧ (length s < 26)%nat ∧ int8in s = Ret v).
Proof.
  split; [|split]; intros Hv.
  - destruct (itoa_spec 32 INT32_MIN_TEXT v) as (ds & E & Hd & Hne & Hdv & Hlen); [lia|by apply (sint_mono 16)|unfold is_sint, INT_MIN in *; lia|].
    exists (text_of (v <? 0) ds). split; [done|]. split.
    + specialize (Hlen 5%nat ltac:(lia)). unfold is_sint in Hv. unfold text_of. destruct (v <? 0); cbn [length]; lia.
    + unfold int2in. rewrite (pg_atoi_text v ds 2 16) by auto. cbn [mbind outcome_bind]. by rewrite wrap_s_small.
  - destruct (decide (v = INT_MIN 32)) as [-> |Hm]; [exists INT32_MIN_TEXT; by vm_compute; repeat split; lia|].
    destruct (itoa_spec 32 INT32_MIN_TEXT v) as (ds & E & Hd & Hne & Hdv & Hlen); [lia|done|done|].
    exists (text_of (v <? 0) ds). split; [done|]. split; [|by apply (pg_atoi_text v ds 4 32); auto].
    specialize (Hlen 10%nat ltac:(lia)). unfold is_sint in Hv. unfold text_of. destruct (v <? 0); cbn [length]; lia.
  - destruct (decide (v = INT_MIN 64)) as [-> |Hm]; [exists INT64_MIN_TEXT; by vm_compute; repeat split; lia|].
    destruct (itoa_spec 64 INT64_MIN_TEXT v) as (ds & E & Hd & Hne & Hdv & Hlen); [lia|done|done|].
    exists (text_of (v <? 0) ds). split; [done|]. split.
    + specialize (Hlen 19%nat ltac:(lia)). unfold is_sint in Hv. unfold text_of. destruct (v <? 0); cbn [length]; lia.
    + pose proof (scanint8_number false [] (if v <? 0 then [45] else []) ds []) as Hs. cbn [app] in Hs. rewrite app_nil_r in Hs.
      replace ((if v <? 0 then [45] else []) ++ ds) with (text_of (v <? 0) ds) in Hs by (by destruct (v <? 0)).
      unfold int8in. rewrite Hs; [|constructor|destruct (v <? 0); auto|done|done|constructor]. unfold is_sint in Hv.
      rewrite (proj2 (Z.ltb_lt (decimal ds 0) (2 ^ 63))) by (unfold INT_MIN in Hm; lia). cbn [mbind outcome_bind]. f_equal.
      transitivity (if v <? 0 then - decimal ds 0 else decimal ds 0); [|by apply text_value].
      destruct (v <? 0); [by rewrite bool_decide_true|by rewrite bool_decide_false].
Qed.

Lemma int_text_roundtrip_witness :
  is_sint 16 (-32768) ∧ ∃ s, int2out (-32768) = Ret s ∧ (length s < 7)%nat ∧ int2in s = Ret (-32768).
Proof.
  assert (is_sint 16 (-32768)) as H by (unfold is_sint; lia). split; [done|].
  exact (proj1 (int_text_roundtrip (-32768)) H).
Defined.

(** ** Series *)

(** The number of values from [start] to [finish]. *)
Definition series_length (start finish step : Z) : nat :=
  if 0 <? step then if start <=? finish then Z.to_nat ((finish - start) / step + 1) else 0%nat
  else if finish <=? start then Z.to_nat ((start - finish) / (- step) + 1) else 0%nat.

Lemma series_overflow w a b :
  2 ≤ w → is_sint w a → is_sint w b →
  SAMESIGN a b && negb (SAMESIGN a (wrap_s w (a + b))) = negb (bool_decide (is_sint w (a + b))).
Proof.
  intros Hw Ha Hb. pose proof (pow_half w Hw) as [E1 E2]. unfold is_sint in Ha, Hb. rewrite wrap_s_near by lia.
  unfold SAMESIGN. destruct (decide (is_sint w (a + b))) as [H|H];
    [rewrite bool_decide_true by done|rewrite bool_decide_false by done]; unfold is_sint in H;
    destruct (Z.ltb_spec a 0), (Z.ltb_spec b 0), (Z.ltb_spec (a + b) 0); cbn [Bool.eqb negb andb];
    try lia; try (by destruct (Z.ltb_spec (a + b - 2 ^ w) 0); [|lia]); try (by destruct (Z.ltb_spec (a + b + 2 ^ w) 0); [lia|]);
    try done.
Qed.

(** One more value. *)
Lemma series_length_step cur fin st :
  st ≠ 0 → series_length cur fin st ≠ 0%nat →
  series_length cur fin st = S (series_length (cur + st) fin st) ∧
  (0 < st → cur ≤ fin) ∧ (st < 0 → fin ≤ cur).
Proof.
  intros Hst. unfold series_length. destruct (Z.ltb_spec 0 st) as [L|L].
  - destruct (Z.leb_spec cur fin) as [C|C]; [|done]. intros _. split; [|lia].
    destruct (Z.leb_spec (cur + st) fin) as [C'|C'].
    + replace (fin - cur) with ((fin - (cur + st)) + 1 * st) by lia. rewrite Z.div_add by lia.
      pose proof (Z.div_pos (fin - (cur + st)) st). lia.
    + rewrite Z.div_small by lia. done.
  - destruct (Z.leb_spec fin cur) as [C|C]; [|done]. intros _. split; [|lia].
    destruct (Z.leb_spec fin (cur + st)) as [C'|C'].
    + replace (cur - fin) with ((cur + st - fin) + 1 * (- st)) by lia. rewrite Z.div_add by lia.
      pose proof (Z.div_pos (cur + st - fin) (- st)). lia.
    + rewrite Z.div_small by lia. done.
Qed.

Lemma series_length_zero cur fin st :
  st ≠ 0 → series_length cur fin st = 0%nat → (0 < st → fin < cur) ∧ (st < 0 → cur < fin).
Proof.
  intros Hst. unfold series_length. destruct (Z.ltb_spec 0 st) as [L|L].
  - destruct (Z.leb_spec cur fin); [|lia]. pose proof (Z.div_pos (fin - cur) st). lia.
  - destruct (Z.leb_spec fin cur); [|lia]. pose proof (Z.div_pos (cur - fin) (- st)). lia.
Qed.

Lemma series_rows_spec w fin st : 2 ≤ w → is_sint w fin → is_sint w st → st ≠ 0 → ∀ n cur fuel,
  is_sint w cur → series_length cur fin st = n → (n < fuel)%nat →
  series_rows w fuel (mkFctx cur fin st) = Ret ((λ k, cur + Z.of_nat k * st) <$> seq 0 n).
Proof.
  intros Hw Hfin Hst Hne. induction n as [|n IH]; intros cur fuel Hcur Hn Hf; (destruct fuel as [|fuel]; [lia|]);
    cbn [series_rows]; unfold series_call; cbn [current finish step].
  - destruct (series_length_zero cur fin st Hne Hn) as [H1 H2].
    destruct (Z.ltb_spec 0 st), (Z.leb_spec cur fin), (Z.ltb_spec st 0); try lia; cbn [andb orb]; try done.
    rewrite Z.geb_leb. destruct (Z.leb_spec fin cur); [lia|done].
  - destruct (series_length_step cur fin st Hne) as (Hl & H1 & H2); [lia|]. rewrite Hn in Hl. injection Hl as Hl.
    assert ((0 <? st) && (cur <=? fin) || (st <? 0) && (cur >=? fin) = true) as ->.
    { rewrite Z.geb_leb. destruct (Z.ltb_spec 0 st), (Z.leb_spec cur fin), (Z.ltb_spec st 0), (Z.leb_spec fin cur); try lia; done. }
    rewrite series_overflow by done. cbn [seq fmap list_fmap]. rewrite Z.mul_0_l, Z.add_0_r.
    destruct (bool_decide_reflect (is_sint w (cur + st))) as [Hin|Hout]; cbn [negb].
    + rewrite wrap_s_small by (lia || done). rewrite (IH (cur + st)) by (done || lia). cbn [mbind outcome_bind]. do 2 f_equal.
      rewrite <- fmap_S_seq, <- list_fmap_compose. apply list_fmap_ext. intros i k _. cbn. lia.
    + assert (n = 0%nat) as ->.
      { rewrite Hl. unfold series_length, is_sint in *. destruct (Z.ltb_spec 0 st) as [L|L].
        - destruct (Z.leb_spec (cur + st) fin); [lia|done].
        - destruct (Z.leb_spec fin (cur + st)); [lia|done]. }
      destruct fuel as [|fuel]; [lia|]. done.
Qed.

(** [generate_series] over integer and bigint returns, for a step other than zero, exactly
    the values from [start] on in distances of [step] that do not pass [finish], and then is
    done: the last value is the last one even if the next would not be a value of the type.
    The default step is one, and a step of zero is an error. *)
Theorem generate_series_exact w start fin st fuel :
  w = 32 ∨ w = 64 → is_sint w start → is_sint w fin → is_sint w st →
  (series_length start fin st < fuel)%nat →
  generate_series w fuel start fin (Some st) =
    (if st =? 0 then Ereport ERRCODE_INVALID_PARAMETER_VALUE
     else Ret ((λ k, start + Z.of_nat k * st) <$> seq 0 (series_length start fin st))) ∧
  (st = 1 → generate_series w fuel start fin None = generate_series w fuel start fin (Some st)).
Proof.
  intros Hw Hs Hf Hst Hfuel. split; [|by intros ->]. unfold generate_series, series_first. change (default 1 (Some st)) with st.
  destruct (Z.eqb_spec st 0) as [|Hne]; [done|]. cbn [mbind outcome_bind].
  apply series_rows_spec; [destruct Hw; lia|done..].
Qed.

Lemma generate_series_exact_witness :
  is_sint 32 2147483640 ∧ generate_series_step_int4 9 2147483640 2147483647 (Some 3) = Ret [2147483640; 2147483643; 2147483646].
Proof.
  assert (is_sint 32 2147483640 ∧ is_sint 32 2147483647 ∧ is_sint 32 3) as (H1 & H2 & H3) by (unfold is_sint; lia).
  split; [done|]. unfold generate_series_step_int4.
  rewrite (proj1 (generate_series_exact 32 2147483640 2147483647 3 9 (or_introl eq_refl) H1 H2 H3 ltac:(vm_compute; lia))).
  by vm_compute.
Defined.
