(* ===== verification/PqFormat.v ===== *)
(** * Messages: [backend/libpq/pqformat.c]

    The routines that put integers into a message and take them out, and the binary formats of the
    types that consist of one integer ([backend/utils/adt/int.c], [int8.c], [oid.c], [xid.c], [bool.c] and
    [char.c]).  A buffer is the list of its bytes and a cursor; [len] is the length of the list.
    A [bytea] is the list of the bytes behind its length word.  The limit of 1 GB on a buffer is left
    out. *)

From S2P Require Import Prelude HashFunc Int.

(** ** Buffers *)

Definition VARHDRSZ : Z := 4.

Record StringInfoData := mkSI { si_data : list Z; si_cursor : Z }.
Definition si_len (buf : StringInfoData) : Z := Z.of_nat (length (si_data buf)).
Definition initStringInfo : StringInfoData := mkSI [] 0.
Definition appendBinaryStringInfo (buf : StringInfoData) (data : list Z) : StringInfoData :=
  mkSI (si_data buf ++ data) (si_cursor buf).

(** The bytes of an integer in network order, which [htons] and [htonl] give it in memory whatever the order of the
    machine, and the integer of such bytes. *)
Definition net_bytes (n : nat) (w : Z) : list Z := mem_bytes true n w.
Definition net_value (l : list Z) : Z := foldl (λ acc b, acc * 256 + b) 0 l.

(** ** Sending *)

Definition pq_sendbyte (buf : StringInfoData) (byt : Z) : StringInfoData :=
  appendBinaryStringInfo buf [wrap_u 8 byt].
Definition pq_sendint (buf : StringInfoData) (i b : Z) : outcome StringInfoData :=
  if b =? 1 then Ret (appendBinaryStringInfo buf (net_bytes 1 (wrap_u 8 i)))
  else if b =? 2 then Ret (appendBinaryStringInfo buf (net_bytes 2 (uint16_of i)))
  else if b =? 4 then Ret (appendBinaryStringInfo buf (net_bytes 4 (uint32_of i)))
  else Ereport ERRCODE_INTERNAL_ERROR.
Definition pq_sendint64 (buf : StringInfoData) (i : Z) : StringInfoData :=
  let buf := appendBinaryStringInfo buf (net_bytes 4 (uint32_of (Z.shiftr i 32))) in
  appendBinaryStringInfo buf (net_bytes 4 (uint32_of i)).

Definition pq_begintypsend : StringInfoData := appendBinaryStringInfo initStringInfo [0; 0; 0; 0].
Definition pq_endtypsend (buf : StringInfoData) : outcome (list Z) :=
  if si_len buf <? VARHDRSZ then UB else Ret (drop (Z.to_nat VARHDRSZ) (si_data buf)).

(** ** Receiving *)

Definition set_cursor (msg : StringInfoData) (c : Z) : StringInfoData := mkSI (si_data msg) c.

Definition pq_getmsgbyte (msg : StringInfoData) : outcome (Z * StringInfoData) :=
  if si_len msg <=? si_cursor msg then Ereport ERRCODE_PROTOCOL_VIOLATION else
  b ← arr_get (si_data msg) (si_cursor msg);
  Ret (wrap_u 8 b, set_cursor msg (si_cursor msg + 1)).
Definition pq_copymsgbytes (msg : StringInfoData) (datalen : Z) : outcome (list Z * StringInfoData) :=
  if (datalen <? 0) || (si_len msg - si_cursor msg <? datalen) then Ereport ERRCODE_PROTOCOL_VIOLATION else
  if si_cursor msg <? 0 then UB else
  Ret (take (Z.to_nat datalen) (drop (Z.to_nat (si_cursor msg)) (si_data msg)), set_cursor msg (si_cursor msg + datalen)).
Definition pq_getmsgint (msg : StringInfoData) (b : Z) : outcome (Z * StringInfoData) :=
  if (b =? 1) || (b =? 2) || (b =? 4) then
    '(bytes, msg) ← pq_copymsgbytes msg b;
    Ret (net_value bytes, msg)
  else Ereport ERRCODE_INTERNAL_ERROR.
Definition pq_getmsgint64 (msg : StringInfoData) : outcome (Z * StringInfoData) :=
  '(h, msg) ← pq_copymsgbytes msg 4;
  '(l, msg) ← pq_copymsgbytes msg 4;
  Ret (wrap_s 64 (Z.lor (Z.shiftl (net_value h) 32) (net_value l)), msg).
Definition pq_getmsgend (msg : StringInfoData) : outcome unit :=
  if negb (si_cursor msg =? si_len msg) then Ereport ERRCODE_PROTOCOL_VIOLATION else Ret tt.

(** ** Types of one integer *)

Definition send_int (b i : Z) : outcome (list Z) := buf ← pq_sendint pq_begintypsend i b; pq_endtypsend buf.

Definition int2send (arg1 : Z) : outcome (list Z) := send_int 2 arg1.
Definition int4send (arg1 : Z) : outcome (list Z) := send_int 4 arg1.
Definition oidsend (arg1 : Z) : outcome (list Z) := send_int 4 arg1.
Definition xidsend (arg1 : Z) : outcome (list Z) := send_int 4 arg1.
Definition cidsend (arg1 : Z) : outcome (list Z) := send_int 4 arg1.
Definition int8send (arg1 : Z) : outcome (list Z) := pq_endtypsend (pq_sendint64 pq_begintypsend arg1).
Definition boolsend (arg1 : bool) : outcome (list Z) := pq_endtypsend (pq_sendbyte pq_begintypsend (if arg1 then 1 else 0)).
Definition charsend (arg1 : Z) : outcome (list Z) := pq_endtypsend (pq_sendbyte pq_begintypsend arg1).

Definition int2recv (buf : StringInfoData) : outcome (Z * StringInfoData) :=
  '(v, buf) ← pq_getmsgint buf 2; Ret (int16_of v, buf).
Definition int4recv (buf : StringInfoData) : outcome (Z * StringInfoData) :=
  '(v, buf) ← pq_getmsgint buf 4; Ret (int32_of v, buf).
Definition oidrecv (buf : StringInfoData) : outcome (Z * StringInfoData) := pq_getmsgint buf 4.
Definition xidrecv (buf : StringInfoData) : outcome (Z * StringInfoData) := pq_getmsgint buf 4.
Definition cidrecv (buf : StringInfoData) : outcome (Z * StringInfoData) := pq_getmsgint buf 4.
Definition int8recv (buf : StringInfoData) : outcome (Z * StringInfoData) := pq_getmsgint64 buf.
Definition boolrecv (buf : StringInfoData) : outcome (bool * StringInfoData) :=
  '(ext, buf) ← pq_getmsgbyte buf; Ret (negb (ext =? 0), buf).
(** [char] is signed. *)
Definition charrecv (buf : StringInfoData) : outcome (Z * StringInfoData) :=
  '(c, buf) ← pq_getmsgbyte buf; Ret (wrap_s 8 c, buf).

(** ** Network order *)

Lemma net_value_app l b : net_value (l ++ [b]) = net_value l * 256 + b.
Proof. unfold net_value. by rewrite foldl_app. Qed.

(** An integer is the value of its bytes. *)
Lemma net_value_bytes n : ∀ w, is_uint (8 * Z.of_nat n) w → net_value (net_bytes n w) = w.
Proof.
  unfold net_bytes, mem_bytes. induction n as [|n IH]; intros w Hw; [unfold is_uint in Hw; simpl in *; unfold net_value; simpl; lia|].
  cbn [le_bytes rev]. rewrite net_value_app. rewrite Z.shiftr_div_pow2 by lia.
  change 255 with (Z.ones 8). rewrite Z.land_ones by lia. rewrite IH; [pose proof (Z.div_mod w (2 ^ 8)); lia|].
  unfold is_uint in *. replace (8 * Z.of_nat (S n)) with (8 * Z.of_nat n + 8) in Hw by lia. rewrite Z.pow_add_r in Hw by lia.
  split; [apply Z.div_pos; lia|apply Z.div_lt_upper_bound; lia].
Qed.

Lemma net_bytes_length n w : length (net_bytes n w) = n.
Proof. apply length_mem_bytes. Qed.

(** Taking a field out of the middle of a message. *)
Lemma pq_copymsgbytes_field pre field post :
  pq_copymsgbytes (mkSI (pre ++ field ++ post) (Z.of_nat (length pre))) (Z.of_nat (length field)) =
  Ret (field, mkSI (pre ++ field ++ post) (Z.of_nat (length pre) + Z.of_nat (length field))).
Proof.
  unfold pq_copymsgbytes, si_len. cbn [si_data si_cursor]. rewrite !length_app.
  rewrite (proj2 (Z.ltb_ge (Z.of_nat (length field)) 0)), (proj2 (Z.ltb_ge _ (Z.of_nat (length field)))), (proj2 (Z.ltb_ge (Z.of_nat (length pre)) 0)) by lia.
  cbn [orb]. by rewrite !Nat2Z.id, drop_app_length, take_app_length.
Qed.

(** What [pq_sendint] appends, [pq_getmsgint] reads. *)
Lemma pq_getmsgint_field (n : nat) pre w post : n = 1%nat ∨ n = 2%nat ∨ n = 4%nat → is_uint (8 * Z.of_nat n) w →
  pq_getmsgint (mkSI (pre ++ net_bytes n w ++ post) (Z.of_nat (length pre))) (Z.of_nat n) =
  Ret (w, mkSI (pre ++ net_bytes n w ++ post) (Z.of_nat (length pre) + Z.of_nat n)).
Proof.
  intros Hn Hw. unfold pq_getmsgint. assert ((Z.of_nat n =? 1) || (Z.of_nat n =? 2) || (Z.of_nat n =? 4) = true) as -> by (destruct Hn as [-> |[-> | ->]]; done).
  pose proof (pq_copymsgbytes_field pre (net_bytes n w) post) as E. rewrite net_bytes_length in E. rewrite E. cbn [mbind outcome_bind].
  by rewrite net_value_bytes.
Qed.

Lemma pq_getmsgint_short msg b : b = 1 ∨ b = 2 ∨ b = 4 → si_len msg - si_cursor msg < b → pq_getmsgint msg b = Ereport ERRCODE_PROTOCOL_VIOLATION.
Proof.
  intros Hb Hl. unfold pq_getmsgint, pq_copymsgbytes. rewrite (proj2 (Z.ltb_lt _ b) Hl), orb_true_r.
  by destruct Hb as [-> |[-> | ->]].
Qed.

(** The value that a type's receive function takes from the end of a message, and the message after it. *)
Definition reads {A} (recv : StringInfoData → outcome (A * StringInfoData)) (pre bytes : list Z) (x : A) : Prop :=
  recv (mkSI (pre ++ bytes) (Z.of_nat (length pre))) = Ret (x, mkSI (pre ++ bytes) (Z.of_nat (length (pre ++ bytes)))).
Definition wire_roundtrip {A} (send : A → outcome (list Z)) (recv : StringInfoData → outcome (A * StringInfoData)) (width : nat) (x : A) : Prop :=
  ∃ bytes, send x = Ret bytes ∧ length bytes = width ∧ ∀ pre, reads recv pre bytes x.

Lemma wire_int (n : nat) (conv : Z → Z) x : n = 2%nat ∨ n = 4%nat → conv (wrap_u (8 * Z.of_nat n) x) = x →
  wire_roundtrip (send_int (Z.of_nat n)) (λ buf, '(v, buf) ← pq_getmsgint buf (Z.of_nat n); Ret (conv v, buf)) n x.
Proof.
  intros Hn Hc. exists (net_bytes n (wrap_u (8 * Z.of_nat n) x)). split; [by destruct Hn as [-> | ->]|]. split; [apply net_bytes_length|].
  intros pre. unfold reads. pose proof (pq_getmsgint_field n pre (wrap_u (8 * Z.of_nat n) x) []) as E. rewrite app_nil_r in E.
  rewrite E by (try (apply wrap_u_bound; lia); destruct Hn; auto). cbn [mbind outcome_bind]. rewrite Hc, length_app, net_bytes_length. do 3 f_equal. lia.
Qed.

Lemma wire_uint32 x : is_uint 32 x → wire_roundtrip (send_int 4) (λ buf, pq_getmsgint buf 4) 4 x.
Proof.
  intros Hx. destruct (wire_int 4 (λ v, v) x) as (bytes & H1 & H2 & H3); [by right|by apply wrap_u_small|]. exists bytes. split; [done|]. split; [done|].
  intros pre. specialize (H3 pre). unfold reads in *. change (Z.of_nat 4) with 4 in H3. destruct (pq_getmsgint _ 4) as [[v buf]| | |]; [|done..]. done.
Qed.

Lemma split_64 x : Z.lor (Z.shiftl (uint32_of (Z.shiftr x 32)) 32) (uint32_of x) = wrap_u 64 x.
Proof.
  apply Z.bits_inj'. intros i Hi. rewrite Z.lor_spec, !wrap_u_testbit by lia. destruct (Z_lt_ge_dec i 32) as [H|H].
  - rewrite Z.shiftl_spec_low by lia. by rewrite (proj2 (Z.ltb_lt i 32)), (proj2 (Z.ltb_lt i 64)) by lia.
  - rewrite Z.shiftl_spec, wrap_u_testbit, Z.shiftr_spec by lia. rewrite (proj2 (Z.ltb_ge i 32)) by lia.
    replace (i - 32 + 32) with i by lia. rewrite andb_false_l, orb_false_r. f_equal. apply eq_true_iff_eq. rewrite !Z.ltb_lt. lia.
Qed.

Lemma wire_int8 x : is_sint 64 x → wire_roundtrip int8send int8recv 8 x.
Proof.
  intros Hx. set (h := uint32_of (Z.shiftr x 32)). set (l := uint32_of x). exists (net_bytes 4 h ++ net_bytes 4 l).
  split; [done|]. split; [by rewrite length_app, !net_bytes_length|]. intros pre. unfold reads, int8recv, pq_getmsgint64.
  pose proof (pq_copymsgbytes_field pre (net_bytes 4 h) (net_bytes 4 l)) as E1. rewrite net_bytes_length in E1. change (Z.of_nat 4) with 4 in E1. rewrite E1. cbn [mbind outcome_bind].
  pose proof (pq_copymsgbytes_field (pre ++ net_bytes 4 h) (net_bytes 4 l) []) as E2. rewrite app_nil_r, <- app_assoc, length_app, !net_bytes_length, Nat2Z.inj_add in E2.
  change (Z.of_nat 4) with 4 in E2. rewrite E2. cbn [mbind outcome_bind].
  rewrite !net_value_bytes by (apply wrap_u_bound; lia). unfold h, l. rewrite split_64, wrap_s_mod, wrap_s_small by (done || lia). fold h l.
  rewrite !length_app, !net_bytes_length. do 3 f_equal. lia.
Qed.

Lemma wire_byte {A} (conv : Z → A) (f : A → Z) x : conv (wrap_u 8 (f x)) = x →
  wire_roundtrip (λ x, pq_endtypsend (pq_sendbyte pq_begintypsend (f x))) (λ buf, '(c, buf) ← pq_getmsgbyte buf; Ret (conv c, buf)) 1 x.
Proof.
  intros Hc. exists [wrap_u 8 (f x)]. split; [done|]. split; [done|]. intros pre. unfold reads, pq_getmsgbyte, si_len. cbn [si_data si_cursor].
  rewrite length_app. cbn [length]. rewrite (proj2 (Z.leb_gt _ _)) by lia.
  destruct (arr_get_lt (pre ++ [wrap_u 8 (f x)]) (Z.of_nat (length pre))) as (b & -> & Hb); [rewrite length_app; cbn [length]; lia|].
  rewrite Nat2Z.id, lookup_app_r, Nat.sub_diag in Hb by lia. injection Hb as <-. cbn [mbind outcome_bind]. rewrite wrap_u_wrap_u, Hc. do 3 f_equal. lia.
Qed.

(** An integer, an object, transaction or command id, a Boolean or a character that is sent in binary format is read back as itself, from
    wherever it stands in a message, and the cursor is left behind its bytes; a message that ends too early is reported. *)
Theorem wire_types_roundtrip :
  (∀ x, is_sint 16 x → wire_roundtrip int2send int2recv 2 x) ∧ (∀ x, is_sint 32 x → wire_roundtrip int4send int4recv 4 x) ∧
  (∀ x, is_sint 64 x → wire_roundtrip int8send int8recv 8 x) ∧
  (∀ x, is_uint 32 x → wire_roundtrip oidsend oidrecv 4 x ∧ wire_roundtrip xidsend xidrecv 4 x ∧ wire_roundtrip cidsend cidrecv 4 x) ∧
  (∀ b, wire_roundtrip boolsend boolrecv 1 b) ∧ (∀ c, is_sint 8 c → wire_roundtrip charsend charrecv 1 c) ∧
  (∀ msg, 0 ≤ si_cursor msg →
     (si_len msg < si_cursor msg + 2 → int2recv msg = Ereport ERRCODE_PROTOCOL_VIOLATION) ∧
     (si_len msg < si_cursor msg + 4 → int4recv msg = Ereport ERRCODE_PROTOCOL_VIOLATION ∧ oidrecv msg = Ereport ERRCODE_PROTOCOL_VIOLATION) ∧
     (si_len msg < si_cursor msg + 8 → int8recv msg = Ereport ERRCODE_PROTOCOL_VIOLATION) ∧
     (si_len msg < si_cursor msg + 1 → boolrecv msg = Ereport ERRCODE_PROTOCOL_VIOLATION)).
Proof.
  split; [intros x Hx; apply (wire_int 2 (wrap_s 16)); [by left|change (8 * Z.of_nat 2) with 16; rewrite wrap_s_mod by lia; apply wrap_s_small; [lia|done]]|].
  split; [intros x Hx; apply (wire_int 4 (wrap_s 32)); [by right|change (8 * Z.of_nat 4) with 32; rewrite wrap_s_mod by lia; apply wrap_s_small; [lia|done]]|].
  split; [apply wire_int8|]. split; [intros x Hx; split; [|split]; by apply wire_uint32|].
  split; [intros b; apply (wire_byte (λ c, negb (c =? 0))); by destruct b|].
  split; [intros c Hc; apply (wire_byte (wrap_s 8) id); rewrite wrap_s_mod by lia; apply wrap_s_small; [lia|done]|].
  intros msg Hc. unfold int2recv, int4recv, oidrecv, int8recv, boolrecv, pq_getmsgint64, pq_getmsgbyte.
  split; [intros H; rewrite pq_getmsgint_short; [done|auto|lia]|]. split; [intros H; rewrite pq_getmsgint_short; [done|auto|lia]|].
  split; [|intros H; by rewrite (proj2 (Z.leb_le _ _)) by lia]. intros H. destruct (decide (si_len msg - si_cursor msg < 4)) as [H4|H4].
  - unfold pq_copymsgbytes. by rewrite (proj2 (Z.ltb_lt _ _) H4), orb_true_r.
  - assert (pq_copymsgbytes msg 4 = Ret (take 4 (drop (Z.to_nat (si_cursor msg)) (si_data msg)), set_cursor msg (si_cursor msg + 4))) as ->.
    { unfold pq_copymsgbytes. rewrite (proj2 (Z.ltb_ge (si_len msg - si_cursor msg) 4)), (proj2 (Z.ltb_ge (si_cursor msg) 0)) by lia. done. }
    cbn [mbind outcome_bind]. unfold pq_copymsgbytes. change (si_len (set_cursor msg (si_cursor msg + 4))) with (si_len msg). cbn [si_cursor set_cursor].
    by rewrite (proj2 (Z.ltb_lt (si_len msg - (si_cursor msg + 4)) 4)), orb_true_r by lia.
Qed.

Lemma wire_types_roundtrip_witness :
  wire_roundtrip int8send int8recv 8 (-2) ∧ int8send (-2) = Ret [255; 255; 255; 255; 255; 255; 255; 254].
Proof. split; [|reflexivity]. exact (proj1 (proj2 (proj2 wire_types_roundtrip)) (-2) ltac:(done)). Defined.
