(* ===== verification/QSort.v ===== *)
(** * Sorting: [port/qsort.c] and [port/qsort_arg.c]

    The quicksort of Bentley and McIlroy with a check for presorted input, which every
    [qsort] of the server is by the macro of [include/port.h].  The array is a list, a
    pointer into it the index of an element; a byte count that the source keeps in an
    [int] is kept in bytes, at the width of an [int], and turned into a number of elements
    where it is used.  The exchange of two elements word by word or byte by byte
    ([SWAPINIT], [swapcode]) is the exchange of two entries of the list.

    The theorems: for every comparison function whatever, the sort returns, stays within
    the array and permutes its part of it; for a comparison that is a total preorder the
    result is sorted. *)

From S2P Require Import Prelude.

Section QSort.
Context {A : Type} (es : Z) (cmp : A → A → Z).

(** ** The source *)

(** [cmp(pi, pj)] *)
Definition cmp_at (l : list A) (i j : Z) : outcome Z :=
  x ← arr_get l i; y ← arr_get l j; Ret (cmp x y).

(** [swap(a, b)] *)
Definition swap (l : list A) (i j : Z) : outcome (list A) :=
  t ← arr_get l i;
  y ← arr_get l j;
  l ← arr_set l i y;
  arr_set l j t.

(** The exchange of [k] elements from [i] with those from [j], in order. *)
Fixpoint swapfunc (k : nat) (l : list A) (i j : Z) : outcome (list A) :=
  match k with
  | O => Ret l
  | S k' => l ← swap l i j; swapfunc k' l (i + 1) (j + 1)
  end.

(** A byte count or distance as a number of elements. *)
Definition elems (r : Z) : outcome Z :=
  if r mod es =? 0 then Ret (r / es) else UB.

(** [vecswap(a, b - r, r)] *)
Definition vecswap (l : list A) (i j r : Z) : outcome (list A) :=
  if 0 <? r then k ← elems r; swapfunc (Z.to_nat k) l i (j - k) else Ret l.

Definition med3 (l : list A) (a b c : Z) : outcome Z :=
  ab ← cmp_at l a b;
  if ab <? 0 then
    bc ← cmp_at l b c;
    if bc <? 0 then Ret b
    else ac ← cmp_at l a c; Ret (if ac <? 0 then c else a)
  else
    bc ← cmp_at l b c;
    if 0 <? bc then Ret b
    else ac ← cmp_at l a c; Ret (if ac <? 0 then a else c).

(** The inner loop of the insertion sort; [pl] is [a + k]. *)
Fixpoint insertion_loop (k : nat) (l : list A) (a : Z) : outcome (list A) :=
  match k with
  | O => Ret l
  | S k' =>
      let pl := a + Z.of_nat k in
      c ← cmp_at l (pl - 1) pl;
      if 0 <? c then l ← swap l pl (pl - 1); insertion_loop k' l a else Ret l
  end.

(** Its outer loop, [m] iterations from [pm]. *)
Fixpoint isort_loop (m : nat) (l : list A) (a pm : Z) : outcome (list A) :=
  match m with
  | O => Ret l
  | S m' => l ← insertion_loop (Z.to_nat (pm - a)) l a; isort_loop m' l a (pm + 1)
  end.

(** The check for presorted input. *)
Fixpoint presorted_loop (m : nat) (l : list A) (pm : Z) : outcome bool :=
  match m with
  | O => Ret true
  | S m' =>
      c ← cmp_at l (pm - 1) pm;
      if 0 <? c then Ret false else presorted_loop m' l (pm + 1)
  end.

(** The choice of the pivot. *)
Definition pivot (l : list A) (a n : Z) : outcome Z :=
  let pm := a + n / 2 in
  if 7 <? n then
    let pl := a in
    let pn := a + (n - 1) in
    '(pl, pm, pn) ←
      (if 40 <? n then
         d ← elems (int32_of ((n / 8) * es));
         pl ← med3 l pl (pl + d) (pl + 2 * d);
         pm ← med3 l (pm - d) pm (pm + d);
         pn ← med3 l (pn - 2 * d) (pn - d) pn;
         Ret (pl, pm, pn)
       else Ret (pl, pm, pn));
    med3 l pl pm pn
  else Ret pm.

(** [while (pb <= pc && (r = cmp(pb, a)) <= 0)] *)
Fixpoint scan_up (fuel : nat) (l : list A) (a pa pb pc : Z) : outcome (list A * Z * Z) :=
  match fuel with
  | O => Timeout
  | S fuel' =>
      if pb <=? pc then
        r ← cmp_at l pb a;
        if r <=? 0 then
          '(l, pa) ← (if r =? 0 then l ← swap l pa pb; Ret (l, pa + 1) else Ret (l, pa));
          scan_up fuel' l a pa (pb + 1) pc
        else Ret (l, pa, pb)
      else Ret (l, pa, pb)
  end.

(** [while (pb <= pc && (r = cmp(pc, a)) >= 0)] *)
Fixpoint scan_down (fuel : nat) (l : list A) (a pb pc pd : Z) : outcome (list A * Z * Z) :=
  match fuel with
  | O => Timeout
  | S fuel' =>
      if pb <=? pc then
        r ← cmp_at l pc a;
        if 0 <=? r then
          '(l, pd) ← (if r =? 0 then l ← swap l pc pd; Ret (l, pd - 1) else Ret (l, pd));
          scan_down fuel' l a pb (pc - 1) pd
        else Ret (l, pc, pd)
      else Ret (l, pc, pd)
  end.

(** [for (;;)] *)
Fixpoint partition (fuel : nat) (l : list A) (a pa pb pc pd : Z)
    : outcome (list A * Z * Z * Z * Z) :=
  match fuel with
  | O => Timeout
  | S fuel' =>
      let scan := S (Z.to_nat (pc - pb + 1)) in
      '(l, pa, pb) ← scan_up scan l a pa pb pc;
      '(l, pc, pd) ← scan_down scan l a pb pc pd;
      if pc <? pb then Ret (l, pa, pb, pc, pd)
      else l ← swap l pb pc; partition fuel' l a pa (pb + 1) (pc - 1) pd
  end.

(** The function from the label [loop]; [goto loop] is the second recursive call. *)
Fixpoint qsort_loop (fuel : nat) (l : list A) (a n : Z) : outcome (list A) :=
  match fuel with
  | O => Timeout
  | S fuel' =>
      if n <? 7 then isort_loop (Z.to_nat (n - 1)) l a (a + 1) else
      presorted ← presorted_loop (Z.to_nat (n - 1)) l (a + 1);
      if (presorted : bool) then Ret l else
      pm ← pivot l a n;
      l ← swap l a pm;
      '(l, pa, pb, pc, pd) ←
        partition (Z.to_nat n) l a (a + 1) (a + 1) (a + (n - 1)) (a + (n - 1));
      let pn := a + n in
      let r := int32_of (Z.min ((pa - a) * es) ((pb - pa) * es)) in
      l ← vecswap l a pb r;
      let r := int32_of (Z.min ((pd - pc) * es) ((pn - pd) * es - es)) in
      l ← vecswap l pb pn r;
      let r := int32_of ((pb - pa) * es) in
      l ← (if es <? wrap_u 64 r then qsort_loop fuel' l a (wrap_u 64 r / es) else Ret l);
      let r := int32_of ((pd - pc) * es) in
      if es <? wrap_u 64 r then
        k ← elems r; qsort_loop fuel' l (pn - k) (wrap_u 64 r / es)
      else Ret l
  end.

(** [pg_qsort(a, n, es, cmp)] for [n] elements from the start of [l]. *)
Definition pg_qsort (l : list A) (n : Z) : outcome (list A) :=
  qsort_loop (S (Z.to_nat n)) l 0 n.

End QSort.

(** The same code with an argument that is passed through to the comparison. *)
Definition qsort_arg {A B} (es : Z) (cmp : A → A → B → Z) (arg : B) (l : list A) (n : Z) :
    outcome (list A) :=
  pg_qsort es (λ x y, cmp x y arg) l n.

(** ** Parts of an array *)

Section Segments.
Context {A : Type}.
Implicit Types (l : list A) (P : A → Prop).

(** Every element of [l] at an index in [lo .. hi) satisfies [P]. *)
Definition allseg P (lo hi : Z) l : Prop :=
  ∀ i x, lo ≤ i < hi → l !! Z.to_nat i = Some x → P x.

(** [l'] is a rearrangement of [l] that leaves everything outside [lo .. hi) in place. *)
Record framed (lo hi : Z) l l' : Prop := Framed {
  framed_perm : l' ≡ₚ l;
  framed_out : ∀ i, 0 ≤ i → i < lo ∨ hi ≤ i → l' !! Z.to_nat i = l !! Z.to_nat i }.

Lemma framed_refl lo hi l : framed lo hi l l.
Proof. by split. Qed.

Lemma framed_trans lo hi l1 l2 l3 : framed lo hi l1 l2 → framed lo hi l2 l3 → framed lo hi l1 l3.
Proof.
  intros [P1 O1] [P2 O2]. split; [by rewrite P2|]. intros. by rewrite O2, O1.
Qed.

Lemma framed_mono lo hi lo' hi' l l' : lo ≤ lo' → hi' ≤ hi → framed lo' hi' l l' → framed lo hi l l'.
Proof. intros ?? [P O]. split; [done|]. intros. apply O; lia. Qed.

Lemma framed_length lo hi l l' : framed lo hi l l' → length l' = length l.
Proof. intros [P _]. by rewrite P. Qed.

(** What lies in the part is permuted too. *)
Lemma framed_segment lo hi l l' :
  0 ≤ lo ≤ hi → hi ≤ Z.of_nat (length l) → framed lo hi l l' →
  take (Z.to_nat (hi - lo)) (drop (Z.to_nat lo) l') ≡ₚ
  take (Z.to_nat (hi - lo)) (drop (Z.to_nat lo) l).
Proof.
  intros Hlo Hhi HF. pose proof (framed_length _ _ _ _ HF) as Hlen. destruct HF as [HP HO].
  assert (∀ k : list A, Z.of_nat (length k) = Z.of_nat (length l) →
    k = take (Z.to_nat lo) k ++ take (Z.to_nat (hi - lo)) (drop (Z.to_nat lo) k)
          ++ drop (Z.to_nat hi) k) as Hsplit.
  { intros k Hk. rewrite <- (take_drop (Z.to_nat lo) k) at 1. f_equal.
    rewrite <- (take_drop (Z.to_nat (hi - lo)) (drop (Z.to_nat lo) k)) at 1. f_equal.
    rewrite drop_drop. f_equal. lia. }
  rewrite (Hsplit l') in HP by lia. rewrite (Hsplit l) in HP at 1 by done.
  assert (take (Z.to_nat lo) l' = take (Z.to_nat lo) l) as E1.
  { apply list_eq. intros i. rewrite !lookup_take.
    case_decide; [|done]. specialize (HO (Z.of_nat i)). rewrite Nat2Z.id in HO. apply HO; lia. }
  assert (drop (Z.to_nat hi) l' = drop (Z.to_nat hi) l) as E2.
  { apply list_eq. intros i. rewrite !lookup_drop.
    specialize (HO (hi + Z.of_nat i)). rewrite Z2Nat.inj_add, Nat2Z.id in HO by lia. apply HO; lia. }
  rewrite E1, E2 in HP. by apply Permutation_app_inv_l, Permutation_app_inv_r in HP.
Qed.

Lemma allseg_segment P lo hi l :
  0 ≤ lo → allseg P lo hi l ↔ Forall P (take (Z.to_nat (hi - lo)) (drop (Z.to_nat lo) l)).
Proof.
  intros Hlo. rewrite Forall_lookup. unfold allseg. split.
  - intros H i x. rewrite lookup_take, lookup_drop. case_decide; [|done]. intros Hx.
    apply (H (lo + Z.of_nat i)); [lia|]. by rewrite Z2Nat.inj_add, Nat2Z.id by lia.
  - intros H i x Hi Hx. apply (H (Z.to_nat (i - lo))).
    rewrite lookup_take, lookup_drop. case_decide; [|lia]. rewrite <- Hx. f_equal. lia.
Qed.

Lemma framed_allseg P lo hi l l' :
  0 ≤ lo ≤ hi → hi ≤ Z.of_nat (length l) → framed lo hi l l' → allseg P lo hi l → allseg P lo hi l'.
Proof.
  intros Hlo Hhi HF. rewrite !allseg_segment by lia.
  by rewrite (framed_segment lo hi l l').
Qed.

Lemma frame_allseg_out P lo hi lo' hi' l l' :
  0 ≤ lo' → hi' ≤ lo ∨ hi ≤ lo' → framed lo hi l l' → allseg P lo' hi' l → allseg P lo' hi' l'.
Proof. intros ?? [_ HO] H i x Hi. rewrite HO by lia. by apply H. Qed.

Lemma allseg_impl P Q lo hi l : (∀ x, P x → Q x) → allseg P lo hi l → allseg Q lo hi l.
Proof. intros H HP i x Hi Hx. eauto. Qed.

Lemma allseg_join P lo mid hi l : allseg P lo mid l → allseg P mid hi l → allseg P lo hi l.
Proof.
  intros H1 H2 i x Hi Hx. destruct (Z_lt_le_dec i mid); [eapply H1|eapply H2]; eauto; lia.
Qed.

Lemma allseg_sub P lo hi lo' hi' l : lo ≤ lo' → hi' ≤ hi → allseg P lo hi l → allseg P lo' hi' l.
Proof. intros ?? H i x Hi. apply H. lia. Qed.

(** ** Exchanges *)

Lemma insert_Permutation_cons l i x y : l !! i = Some x → x :: <[i := y]> l ≡ₚ y :: l.
Proof.
  revert i. induction l as [|z l IH]; intros [|i]; simpl; intros H; simplify_eq/=.
  - constructor.
  - rewrite Permutation_swap, (IH i H). constructor.
Qed.

Lemma swap_spec l i j :
  0 ≤ i < Z.of_nat (length l) → 0 ≤ j < Z.of_nat (length l) →
  ∃ l', swap l i j = Ret l' ∧ l' ≡ₚ l ∧
    l' !! Z.to_nat i = l !! Z.to_nat j ∧ l' !! Z.to_nat j = l !! Z.to_nat i ∧
    (∀ k, 0 ≤ k → k ≠ i → k ≠ j → l' !! Z.to_nat k = l !! Z.to_nat k).
Proof.
  intros Hi Hj. destruct (arr_get_lt l i Hi) as (x & Ex & Hx).
  destruct (arr_get_lt l j Hj) as (y & Ey & Hy). unfold swap. rewrite Ex, Ey.
  cbn [mbind outcome_bind]. rewrite arr_set_lt by done. cbn [mbind outcome_bind].
  rewrite arr_set_lt by (by rewrite length_insert).
  eexists. split; [done|].
  assert (<[Z.to_nat i:=y]> l !! Z.to_nat j = Some y) as Hyj.
  { destruct (decide (i = j)) as [->|].
    - apply list_lookup_insert_eq. lia.
    - by rewrite list_lookup_insert_ne by lia. }
  split_and!.
  - apply (Permutation_cons_inv (a := y)).
    rewrite (insert_Permutation_cons _ _ _ x Hyj). by apply insert_Permutation_cons.
  - destruct (decide (i = j)) as [->|].
    + rewrite list_lookup_insert_eq by (rewrite length_insert; lia). congruence.
    + rewrite list_lookup_insert_ne by lia. rewrite Hy. apply list_lookup_insert_eq. lia.
  - rewrite Hx. apply list_lookup_insert_eq. rewrite length_insert. lia.
  - intros k ???. by rewrite !list_lookup_insert_ne by lia.
Qed.

Lemma swap_frame lo hi l i j :
  0 ≤ lo → hi ≤ Z.of_nat (length l) → lo ≤ i < hi → lo ≤ j < hi →
  ∃ l', swap l i j = Ret l' ∧ framed lo hi l l' ∧
    l' !! Z.to_nat i = l !! Z.to_nat j ∧ l' !! Z.to_nat j = l !! Z.to_nat i ∧
    (∀ k, 0 ≤ k → k ≠ i → k ≠ j → l' !! Z.to_nat k = l !! Z.to_nat k).
Proof.
  intros ????. destruct (swap_spec l i j) as (l' & E & HP & Hi & Hj & Ho); [lia..|].
  exists l'. split; [done|]. split; [|done]. split; [done|]. intros k Hk Hout. apply Ho; lia.
Qed.

Lemma swapfunc_spec k l lo hi i j :
  0 ≤ lo → hi ≤ Z.of_nat (length l) → lo ≤ i → i + Z.of_nat k ≤ j → j + Z.of_nat k ≤ hi →
  ∃ l', swapfunc k l i j = Ret l' ∧ framed lo hi l l' ∧
    (∀ t, 0 ≤ t < Z.of_nat k → l' !! Z.to_nat (i + t) = l !! Z.to_nat (j + t) ∧
                             l' !! Z.to_nat (j + t) = l !! Z.to_nat (i + t)) ∧
    (∀ t, 0 ≤ t → (t < i ∨ i + Z.of_nat k ≤ t) → (t < j ∨ j + Z.of_nat k ≤ t) →
       l' !! Z.to_nat t = l !! Z.to_nat t).
Proof.
  revert l i j. induction k as [|k IH]; intros l i j ?????.
  - exists l. split; [done|]. split; [apply framed_refl|]. split; [lia|done].
  - destruct (swap_frame lo hi l i j) as (l1 & E1 & HF1 & Hi1 & Hj1 & Ho1); [lia..|].
    pose proof (framed_length _ _ _ _ HF1).
    destruct (IH l1 (i + 1) (j + 1)) as (l2 & E2 & HF2 & Hs2 & Ho2); [lia..|].
    exists l2. cbn [swapfunc]. rewrite E1. cbn [mbind outcome_bind].
    split; [done|]. split; [by eapply framed_trans|]. split.
    + intros t Ht. destruct (decide (t = 0)) as [->|].
      * rewrite !Z.add_0_r, !Ho2 by lia. done.
      * destruct (Hs2 (t - 1)) as [Ha Hb]; [lia|].
        replace (i + 1 + (t - 1)) with (i + t) in * by lia.
        replace (j + 1 + (t - 1)) with (j + t) in * by lia.
        rewrite Ha, Hb, !Ho1 by lia. done.
    + intros t ???. rewrite Ho2 by lia. apply Ho1; lia.
Qed.

(** Two neighbouring blocks change places when the shorter one is exchanged with the far
    end of the longer one. *)
Lemma swapfunc_blocks P Q l lo mid hi :
  0 ≤ lo ≤ mid → mid ≤ hi → hi ≤ Z.of_nat (length l) →
  allseg P lo mid l → allseg Q mid hi l →
  let k := Z.min (mid - lo) (hi - mid) in
  ∃ l', swapfunc (Z.to_nat k) l lo (hi - k) = Ret l' ∧ framed lo hi l l' ∧
    allseg Q lo (lo + (hi - mid)) l' ∧ allseg P (lo + (hi - mid)) hi l'.
Proof.
  intros Hlo Hmid Hhi HP HQ k.
  destruct (swapfunc_spec (Z.to_nat k) l lo hi lo (hi - k)) as (l' & E & HF & Hs & Ho);
    [unfold k; lia..|].
  exists l'. split; [done|]. split; [done|].
  assert (∀ t, lo ≤ t < lo + k → l' !! Z.to_nat t = l !! Z.to_nat (hi - k + (t - lo))) as H1.
  { intros t Ht. destruct (Hs (t - lo)) as [Ha _]; [lia|]. rewrite <- Ha. f_equal. lia. }
  assert (∀ t, hi - k ≤ t < hi → l' !! Z.to_nat t = l !! Z.to_nat (lo + (t - (hi - k)))) as H2.
  { intros t Ht. destruct (Hs (t - (hi - k))) as [_ Hb]; [lia|]. rewrite <- Hb. f_equal. lia. }
  assert (∀ t, lo + k ≤ t < hi - k → l' !! Z.to_nat t = l !! Z.to_nat t) as H3
    by (intros; apply Ho; lia).
  split; intros t x Ht Hx.
  - destruct (Z_lt_le_dec t (lo + k)).
    + rewrite H1 in Hx by lia. eapply HQ; [|done]. lia.
    + rewrite H3 in Hx by lia. eapply HQ; [|done]. lia.
  - destruct (Z_lt_le_dec t (hi - k)).
    + rewrite H3 in Hx by lia. eapply HP; [|done]. lia.
    + rewrite H2 in Hx by lia. eapply HP; [|done]. lia.
Qed.
End Segments.

(** ** The comparison function *)

(** A comparison is a total preorder given by its sign. *)
Class Comparator {A} (cmp : A → A → Z) : Prop := {
  cmp_antisym : ∀ x y, cmp x y < 0 ↔ 0 < cmp y x;
  cmp_trans : ∀ x y z, cmp x y ≤ 0 → cmp y z ≤ 0 → cmp x z ≤ 0 }.

Section Correct.
Context {A : Type} (es : Z) (cmp : A → A → Z).
Implicit Types (l : list A).

Lemma cmp_flip `{!Comparator cmp} x y : 0 ≤ cmp x y ↔ cmp y x ≤ 0.
Proof. pose proof (cmp_antisym x y). lia. Qed.

(** The elements at [i] and [j] are in order. *)
Definition ord l (i j : Z) : Prop :=
  ∀ x y, l !! Z.to_nat i = Some x → l !! Z.to_nat j = Some y → cmp x y ≤ 0.
Definition sortedseg (lo hi : Z) l : Prop := ∀ i j, lo ≤ i → i < j → j < hi → ord l i j.

Lemma cmp_at_spec l i j :
  0 ≤ i < Z.of_nat (length l) → 0 ≤ j < Z.of_nat (length l) →
  ∃ x y, cmp_at cmp l i j = Ret (cmp x y) ∧ l !! Z.to_nat i = Some x ∧ l !! Z.to_nat j = Some y.
Proof.
  intros Hi Hj. destruct (arr_get_lt l i Hi) as (x & Ex & Hx).
  destruct (arr_get_lt l j Hj) as (y & Ey & Hy). exists x, y. unfold cmp_at. by rewrite Ex, Ey.
Qed.

Lemma ord_trans `{!Comparator cmp} l i j k :
  0 ≤ j < Z.of_nat (length l) → ord l i j → ord l j k → ord l i k.
Proof.
  intros Hj H1 H2 x z Hx Hz. destruct (arr_get_lt l j Hj) as (y & _ & Hy).
  eapply cmp_trans; [by eapply H1|by eapply H2].
Qed.

(** ** Insertion sort *)

(** [a .. hi) is in order but for the element at [p], which is not above its right. *)
Definition almost_sorted (a hi p : Z) l : Prop :=
  (∀ i j, a ≤ i → i < j → j < hi → i ≠ p → j ≠ p → ord l i j) ∧
  (∀ j, p < j → j < hi → ord l p j).

Lemma insertion_loop_step `{!Comparator cmp} a hi p l l' x y :
  0 ≤ a ≤ p - 1 → p < hi →
  l !! Z.to_nat (p - 1) = Some x → l !! Z.to_nat p = Some y → 0 < cmp x y →
  l' !! Z.to_nat p = l !! Z.to_nat (p - 1) → l' !! Z.to_nat (p - 1) = l !! Z.to_nat p →
  (∀ k, 0 ≤ k → k ≠ p → k ≠ p - 1 → l' !! Z.to_nat k = l !! Z.to_nat k) →
  almost_sorted a hi p l → almost_sorted a hi (p - 1) l'.
Proof.
  intros Ha Hp Hx Hy Hc Hp' Hp1' Ho [H1 H2]. split.
  - intros i j ????? u v. destruct (decide (i = p)) as [->|]; [|destruct (decide (j = p)) as [->|]].
    + rewrite Hp', (Ho j) by lia. apply H1; lia.
    + rewrite Hp', (Ho i) by lia. apply H1; lia.
    + rewrite (Ho i), (Ho j) by lia. apply H1; lia.
  - intros j ?? u v. rewrite Hp1'. destruct (decide (j = p)) as [->|].
    + rewrite Hp'. intros ??. simplify_eq. apply cmp_antisym in Hc. lia.
    + rewrite (Ho j) by lia. apply H2; lia.
Qed.

Lemma insertion_loop_spec k l a hi :
  0 ≤ a → a + Z.of_nat k < hi → hi ≤ Z.of_nat (length l) →
  ∃ l', insertion_loop cmp k l a = Ret l' ∧ framed a hi l l' ∧
    (Comparator cmp → almost_sorted a hi (a + Z.of_nat k) l → sortedseg a hi l').
Proof.
  revert l. induction k as [|k IH]; intros l Ha Hk Hhi.
  - exists l. split; [done|]. split; [apply framed_refl|]. intros _ [H1 H2] i j ???.
    replace (a + Z.of_nat 0) with a in * by lia.
    destruct (decide (i = a)) as [->|]; [apply H2|apply H1]; lia.
  - cbn [insertion_loop]. set (p := a + Z.of_nat (S k)) in *.
    destruct (cmp_at_spec l (p - 1) p) as (x & y & -> & Hx & Hy); [lia..|].
    cbn [mbind outcome_bind]. destruct (Z.ltb_spec 0 (cmp x y)) as [Hc|Hc].
    + destruct (swap_frame a hi l p (p - 1)) as (l1 & -> & HF1 & Hp1 & Hp2 & Ho); [lia..|].
      cbn [mbind outcome_bind]. pose proof (framed_length _ _ _ _ HF1).
      destruct (IH l1) as (l2 & -> & HF2 & HS); [lia..|].
      exists l2. split; [done|]. split; [by eapply framed_trans|]. intros HC Hal.
      apply (HS HC). replace (a + Z.of_nat k) with (p - 1) by lia.
      eapply insertion_loop_step; eauto; lia.
    + exists l. split; [done|]. split; [apply framed_refl|]. intros HC [H1 H2] i j ???.
      destruct (decide (i = p)) as [->|]; [apply H2; lia|].
      destruct (decide (j = p)) as [->|]; [|apply H1; lia].
      assert (ord l (p - 1) p) as Hpp by (intros u v ??; simplify_eq; lia).
      destruct (decide (i = p - 1)) as [->|]; [done|].
      eapply ord_trans; [|apply H1|apply Hpp]; lia.
Qed.

Lemma isort_loop_spec m l a pm hi :
  0 ≤ a → a < pm → pm + Z.of_nat m = hi → hi ≤ Z.of_nat (length l) →
  ∃ l', isort_loop cmp m l a pm = Ret l' ∧ framed a hi l l' ∧
    (Comparator cmp → sortedseg a pm l → sortedseg a hi l').
Proof.
  revert l pm. induction m as [|m IH]; intros l pm ? Hpm Hm Hhi; cbn [isort_loop].
  - exists l. split; [done|]. split; [apply framed_refl|]. intros _.
    by replace hi with pm by lia.
  - destruct (insertion_loop_spec (Z.to_nat (pm - a)) l a (pm + 1)) as (l1 & -> & HF1 & HS1); [lia..|].
    cbn [mbind outcome_bind]. pose proof (framed_length _ _ _ _ HF1).
    destruct (IH l1 (pm + 1)) as (l2 & -> & HF2 & HS2); [lia..|].
    exists l2. split; [done|]. split.
    { eapply framed_trans; [|done]. eapply framed_mono; [| |done]; lia. }
    intros HC HS. apply (HS2 HC), (HS1 HC). replace (a + Z.of_nat (Z.to_nat (pm - a))) with pm by lia.
    split; [|lia]. intros i j ?????. apply HS; lia.
Qed.

(** ** The check for presorted input *)

Lemma presorted_loop_spec m l lo pm hi :
  0 ≤ lo < pm → pm + Z.of_nat m = hi → hi ≤ Z.of_nat (length l) →
  ∃ b, presorted_loop cmp m l pm = Ret b ∧
    (Comparator cmp → sortedseg lo pm l → b = true → sortedseg lo hi l).
Proof.
  revert pm. induction m as [|m IH]; intros pm Hlo Hm Hhi; cbn [presorted_loop].
  - exists true. split; [done|]. intros _ ??. by replace hi with pm by lia.
  - destruct (cmp_at_spec l (pm - 1) pm) as (x & y & -> & Hx & Hy); [lia..|].
    cbn [mbind outcome_bind]. destruct (Z.ltb_spec 0 (cmp x y)); [by exists false|].
    destruct (IH (pm + 1)) as (b & -> & Hb); [lia..|]. exists b. split; [done|].
    intros HC HS. apply (Hb HC). intros i j ???.
    assert (ord l (pm - 1) pm) as Hpp by (intros u v ??; simplify_eq; lia).
    destruct (decide (j = pm)) as [->|]; [|apply HS; lia].
    destruct (decide (i = pm - 1)) as [->|]; [done|].
    eapply ord_trans; [|apply HS|apply Hpp]; lia.
Qed.

(** ** The pivot *)

Lemma med3_spec l i j k :
  0 ≤ i < Z.of_nat (length l) → 0 ≤ j < Z.of_nat (length l) → 0 ≤ k < Z.of_nat (length l) →
  ∃ m, med3 cmp l i j k = Ret m ∧ (m = i ∨ m = j ∨ m = k).
Proof.
  intros Hi Hj Hk. unfold med3.
  destruct (cmp_at_spec l i j Hi Hj) as (x & y & -> & _ & _).
  destruct (cmp_at_spec l j k Hj Hk) as (y' & z & -> & _ & _).
  destruct (cmp_at_spec l i k Hi Hk) as (x' & z' & -> & _ & _).
  cbn [mbind outcome_bind]. repeat case_match; eauto.
Qed.

Lemma int32_small z : 0 ≤ z < 2 ^ 31 → int32_of z = z.
Proof. intros. apply wrap_s_small; [lia|]. unfold is_sint. lia. Qed.

Lemma elems_mul n : 0 < es → elems es (n * es) = Ret n.
Proof.
  intros. unfold elems. rewrite Z_mod_mult. simpl. by rewrite Z.div_mul by lia.
Qed.

Lemma bytes_small n m : 0 < es → 0 ≤ m ≤ n → n * es < 2 ^ 31 → int32_of (m * es) = m * es.
Proof. intros. apply int32_small. nia. Qed.

Lemma pivot_spec l a n :
  0 < es → 0 ≤ a → 7 ≤ n → n * es < 2 ^ 31 → a + n ≤ Z.of_nat (length l) →
  ∃ pm, pivot es cmp l a n = Ret pm ∧ a ≤ pm < a + n.
Proof.
  intros Hes Ha Hn Hb Hl. unfold pivot.
  pose proof (Z.div_mod n 2). pose proof (Z.mod_pos_bound n 2).
  pose proof (Z.div_mod n 8). pose proof (Z.mod_pos_bound n 8).
  destruct (Z.ltb_spec 7 n); [|exists (a + n / 2); split; [done|lia]].
  destruct (Z.ltb_spec 40 n).
  - rewrite (bytes_small n) by lia. rewrite elems_mul by done. cbn [mbind outcome_bind].
    destruct (med3_spec l a (a + n / 8) (a + 2 * (n / 8))) as (i & -> & Hi); [lia..|].
    cbn [mbind outcome_bind].
    destruct (med3_spec l (a + n / 2 - n / 8) (a + n / 2) (a + n / 2 + n / 8)) as (j & -> & Hj);
      [lia..|].
    cbn [mbind outcome_bind].
    destruct (med3_spec l (a + (n - 1) - 2 * (n / 8)) (a + (n - 1) - n / 8) (a + (n - 1)))
      as (k & -> & Hk); [lia..|].
    cbn [mbind outcome_bind].
    destruct (med3_spec l i j k) as (m & -> & Hm); [lia..|]. exists m. split; [done|]. lia.
  - cbn [mbind outcome_bind].
    destruct (med3_spec l a (a + n / 2) (a + (n - 1))) as (m & -> & Hm); [lia..|].
    exists m. split; [done|]. lia.
Qed.

(** ** The partition *)

Section Partition.
Context (a pn : Z) (v : A).

Definition EQ x : Prop := x = v ∨ cmp x v = 0.
Definition LT x : Prop := cmp x v < 0.
Definition GT x : Prop := 0 < cmp x v.

(** The pivot, then equal, less, unknown, greater and equal elements. *)
Record pinv (pa pb pc pd : Z) l : Prop := {
  pi_len : pn ≤ Z.of_nat (length l);
  pi_a : 0 ≤ a ∧ l !! Z.to_nat a = Some v;
  pi_lo : a + 1 ≤ pa ∧ pa ≤ pb;
  pi_mid : pb ≤ pc + 1;
  pi_hi : pc ≤ pd ∧ pd ≤ pn - 1;
  pi_eq1 : allseg EQ (a + 1) pa l;
  pi_lt : allseg LT pa pb l;
  pi_gt : allseg GT (pc + 1) (pd + 1) l;
  pi_eq2 : allseg EQ (pd + 1) pn l }.

(** A part of the array after an exchange outside it, or at its end. *)
Lemma allseg_same P lo hi l l' :
  (∀ k, lo ≤ k < hi → l' !! Z.to_nat k = l !! Z.to_nat k) → allseg P lo hi l → allseg P lo hi l'.
Proof. intros E H i x Hi. rewrite E by done. by apply H. Qed.

Lemma allseg_snoc P lo hi l :
  allseg P lo hi l → (∀ x, l !! Z.to_nat hi = Some x → P x) → allseg P lo (hi + 1) l.
Proof.
  intros H Hx i x Hi Hix. destruct (decide (i = hi)) as [->|]; [by apply Hx|].
  eapply H; [|done]. lia.
Qed.

Lemma allseg_cons P lo hi l :
  (∀ x, l !! Z.to_nat lo = Some x → P x) → allseg P (lo + 1) hi l → allseg P lo hi l.
Proof.
  intros Hx H i x Hi Hix. destruct (decide (i = lo)) as [->|]; [by apply Hx|].
  eapply H; [|done]. lia.
Qed.

(** The moves of the two scans. *)
Lemma pinv_lt pa pb pc pd l y :
  pinv pa pb pc pd l → pb ≤ pc → l !! Z.to_nat pb = Some y → LT y → pinv pa (pb + 1) pc pd l.
Proof.
  intros [] ? Hy HL. split; auto; try lia. apply allseg_snoc; [done|]. naive_solver.
Qed.

Lemma pinv_gt pa pb pc pd l y :
  pinv pa pb pc pd l → pb ≤ pc → l !! Z.to_nat pc = Some y → GT y → pinv pa pb (pc - 1) pd l.
Proof.
  intros [] ? Hy HL. split; auto; try lia. replace (pc - 1 + 1) with pc by lia.
  apply allseg_cons; [naive_solver|done].
Qed.

Lemma pinv_eq1 pa pb pc pd l l' y :
  pinv pa pb pc pd l → pb ≤ pc → l !! Z.to_nat pb = Some y → EQ y →
  length l' = length l →
  l' !! Z.to_nat pa = l !! Z.to_nat pb → l' !! Z.to_nat pb = l !! Z.to_nat pa →
  (∀ k, 0 ≤ k → k ≠ pa → k ≠ pb → l' !! Z.to_nat k = l !! Z.to_nat k) →
  pinv (pa + 1) (pb + 1) pc pd l'.
Proof.
  intros [? [] [] ? [] ? Hlt ??] ? Hy HE Hlen Ha Hb Ho. split; try lia.
  - split; [done|]. by rewrite Ho by lia.
  - apply allseg_snoc; [|rewrite Ha; naive_solver].
    eapply allseg_same; [|done]. intros. apply Ho; lia.
  - intros k x Hk Hx. destruct (decide (k = pb)) as [->|].
    + rewrite Hb in Hx. destruct (decide (pa = pb)) as [->|]; [lia|].
      apply (Hlt pa); [lia|done].
    + rewrite Ho in Hx by lia. apply (Hlt k); [lia|done].
  - eapply allseg_same; [|done]. intros. apply Ho; lia.
  - eapply allseg_same; [|done]. intros. apply Ho; lia.
Qed.

Lemma pinv_eq2 pa pb pc pd l l' y :
  pinv pa pb pc pd l → pb ≤ pc → l !! Z.to_nat pc = Some y → EQ y →
  length l' = length l →
  l' !! Z.to_nat pc = l !! Z.to_nat pd → l' !! Z.to_nat pd = l !! Z.to_nat pc →
  (∀ k, 0 ≤ k → k ≠ pc → k ≠ pd → l' !! Z.to_nat k = l !! Z.to_nat k) →
  pinv pa pb (pc - 1) (pd - 1) l'.
Proof.
  intros [? [] [] ? [] ?? Hgt ?] ? Hy HE Hlen Hc Hd Ho. split; try lia.
  - split; [done|]. by rewrite Ho by lia.
  - eapply allseg_same; [|done]. intros. apply Ho; lia.
  - eapply allseg_same; [|done]. intros. apply Ho; lia.
  - intros k x Hk Hx. destruct (decide (k = pc)) as [->|].
    + rewrite Hc in Hx. destruct (decide (pc = pd)) as [->|]; [lia|].
      apply (Hgt pd); [lia|done].
    + rewrite Ho in Hx by lia. apply (Hgt k); [lia|done].
  - replace (pd - 1 + 1) with pd by lia.
    apply allseg_cons; [rewrite Hd; naive_solver|].
    eapply allseg_same; [|done]. intros. apply Ho; lia.
Qed.

Lemma pinv_swap pa pb pc pd l l' y z :
  pinv pa pb pc pd l → pb < pc → l !! Z.to_nat pb = Some y → GT y →
  l !! Z.to_nat pc = Some z → LT z → length l' = length l →
  l' !! Z.to_nat pb = l !! Z.to_nat pc → l' !! Z.to_nat pc = l !! Z.to_nat pb →
  (∀ k, 0 ≤ k → k ≠ pb → k ≠ pc → l' !! Z.to_nat k = l !! Z.to_nat k) →
  pinv pa (pb + 1) (pc - 1) pd l'.
Proof.
  intros [? [] [] ? [] ????] ? Hy HG Hz HL Hlen Hb Hc Ho. split; try lia.
  - split; [done|]. by rewrite Ho by lia.
  - eapply allseg_same; [|done]. intros. apply Ho; lia.
  - apply allseg_snoc; [|rewrite Hb; naive_solver].
    eapply allseg_same; [|done]. intros. apply Ho; lia.
  - replace (pc - 1 + 1) with pc by lia. apply allseg_cons; [rewrite Hc; naive_solver|].
    eapply allseg_same; [|done]. intros. apply Ho; lia.
  - eapply allseg_same; [|done]. intros. apply Ho; lia.
Qed.

Lemma scan_up_spec fuel l pa pb pc pd :
  pinv pa pb pc pd l → pc - pb + 1 < Z.of_nat fuel →
  ∃ l' pa' pb', scan_up cmp fuel l a pa pb pc = Ret (l', pa', pb') ∧ framed a pn l l' ∧
    pinv pa' pb' pc pd l' ∧ pb ≤ pb' ∧
    (pb' ≤ pc → ∃ y, l' !! Z.to_nat pb' = Some y ∧ GT y).
Proof.
  revert l pa pb. induction fuel as [|fuel IH]; intros l pa pb HI Hf.
  { destruct HI. lia. }
  pose proof HI as [? [? Hv] [] ? [] ????]. cbn [scan_up].
  destruct (Z.leb_spec pb pc); [|].
  - destruct (cmp_at_spec l pb a) as (y & v' & -> & Hy & Hv'); [lia..|].
    assert (v' = v) as -> by congruence. cbn [mbind outcome_bind].
    destruct (Z.leb_spec (cmp y v) 0) as [Hle|Hgt].
    + destruct (Z.eqb_spec (cmp y v) 0) as [He|Hne]; cbn [mbind outcome_bind].
      * destruct (swap_frame a pn l pa pb) as (l1 & -> & HF & Ha & Hb & Ho); [lia..|].
        pose proof (framed_length _ _ _ _ HF).
        destruct (IH l1 (pa + 1) (pb + 1)) as (l2 & pa' & pb' & E & HF2 & HI2 & ? & Hend); [|lia|].
        { eapply pinv_eq1; eauto. by right. }
        cbn [mbind outcome_bind].
        exists l2, pa', pb'. rewrite E. split_and!; eauto with lia. by eapply framed_trans.
      * destruct (IH l pa (pb + 1)) as (l2 & pa' & pb' & E & HF2 & HI2 & ? & Hend); [|lia|].
        { eapply pinv_lt; eauto. unfold LT. lia. }
        exists l2, pa', pb'. rewrite E. split_and!; eauto with lia.
    + exists l, pa, pb. split_and!; eauto using framed_refl with lia.
  - exists l, pa, pb. split_and!; eauto using framed_refl with lia.
Qed.

Lemma scan_down_spec fuel l pa pb pc pd :
  pinv pa pb pc pd l → pc - pb + 1 < Z.of_nat fuel →
  (pb ≤ pc → ∃ y, l !! Z.to_nat pb = Some y ∧ GT y) →
  ∃ l' pc' pd', scan_down cmp fuel l a pb pc pd = Ret (l', pc', pd') ∧ framed a pn l l' ∧
    pinv pa pb pc' pd' l' ∧ pc' ≤ pc ∧
    (pb ≤ pc' → (∃ y, l' !! Z.to_nat pb = Some y ∧ GT y) ∧
                ∃ z, l' !! Z.to_nat pc' = Some z ∧ LT z).
Proof.
  revert l pc pd. induction fuel as [|fuel IH]; intros l pc pd HI Hf Hpb.
  { destruct HI. lia. }
  pose proof HI as [? [? Hv] [] ? [] ????]. cbn [scan_down].
  destruct (Z.leb_spec pb pc) as [Hle|]; [|].
  - destruct (cmp_at_spec l pc a) as (z & v' & -> & Hz & Hv'); [lia..|].
    assert (v' = v) as -> by congruence. cbn [mbind outcome_bind].
    destruct (Hpb Hle) as (y & Hy & HG).
    destruct (Z.leb_spec 0 (cmp z v)) as [Hge|Hlt].
    + destruct (Z.eqb_spec (cmp z v) 0) as [He|Hne]; cbn [mbind outcome_bind].
      * assert (pb ≠ pc). { intros ->. simplify_eq. unfold GT in HG. lia. }
        destruct (swap_frame a pn l pc pd) as (l1 & -> & HF & Hc & Hd & Ho); [lia..|].
        pose proof (framed_length _ _ _ _ HF). cbn [mbind outcome_bind].
        destruct (IH l1 (pc - 1) (pd - 1)) as (l2 & pc' & pd' & E & HF2 & HI2 & ? & Hend); [|lia| |].
        { eapply pinv_eq2; eauto. by right. }
        { intros. exists y. by rewrite Ho by lia. }
        exists l2, pc', pd'. rewrite E. split_and!; eauto with lia. by eapply framed_trans.
      * destruct (IH l (pc - 1) pd) as (l2 & pc' & pd' & E & HF2 & HI2 & ? & Hend); [|lia| |].
        { eapply pinv_gt; eauto. unfold GT. lia. }
        { eauto. }
        exists l2, pc', pd'. rewrite E. split_and!; eauto with lia.
    + exists l, pc, pd. split; [done|]. split; [apply framed_refl|].
      split_and!; eauto with lia.
  - exists l, pc, pd. split; [done|]. split; [apply framed_refl|].
    split; [done|]. split; [lia|]. intros; lia.
Qed.

Lemma partition_spec fuel l pa pb pc pd :
  pinv pa pb pc pd l → pc - pb + 1 < Z.of_nat fuel →
  ∃ l' pa' pb' pc' pd', partition cmp fuel l a pa pb pc pd = Ret (l', pa', pb', pc', pd') ∧
    framed a pn l l' ∧ pinv pa' pb' pc' pd' l' ∧ pb' = pc' + 1.
Proof.
  revert l pa pb pc pd. induction fuel as [|fuel IH]; intros l pa pb pc pd HI Hf.
  { destruct HI. lia. }
  cbn [partition]. set (scan := S _).
  destruct (scan_up_spec scan l pa pb pc pd) as (l1 & pa1 & pb1 & E1 & HF1 & HI1 & ? & HG1);
    [done|lia|]. rewrite E1. cbn [mbind outcome_bind].
  destruct (scan_down_spec scan l1 pa1 pb1 pc pd) as (l2 & pc1 & pd1 & E2 & HF2 & HI2 & ? & HG2);
    [done|lia|done|]. rewrite E2. cbn [mbind outcome_bind].
  pose proof HI2 as [? [] [] ? [] ????].
  destruct (Z.ltb_spec pc1 pb1).
  - exists l2, pa1, pb1, pc1, pd1. split; [done|]. split; [by eapply framed_trans|].
    split; [done|]. lia.
  - destruct HG2 as ((y & Hy & HGy) & z & Hz & HLz); [lia|].
    assert (pb1 ≠ pc1). { intros ->. simplify_eq. unfold GT, LT in *. lia. }
    destruct (swap_frame a pn l2 pb1 pc1) as (l3 & -> & HF3 & Hb & Hc & Ho); [lia..|].
    pose proof (framed_length _ _ _ _ HF3). cbn [mbind outcome_bind].
    destruct (IH l3 pa1 (pb1 + 1) (pc1 - 1) pd1)
      as (l4 & pa4 & pb4 & pc4 & pd4 & -> & HF4 & HI4 & ->); [|lia|].
    { eapply pinv_swap; eauto. lia. }
    exists l4, pa4, (pc4 + 1), pc4, pd4. split_and!; eauto.
    do 3 (eapply framed_trans; [done|]). done.
Qed.

(** ** Three parts after the exchanges of equal elements *)

(** Less than, equal to and greater than the pivot, the parts ending at [lt], [gt], [pn]. *)
Record three_parts (lt gt : Z) l : Prop := {
  tp_bounds : a ≤ lt ∧ lt < gt ∧ gt ≤ pn;
  tp_lt : allseg LT a lt l;
  tp_eq : allseg EQ lt gt l;
  tp_gt : allseg GT gt pn l }.

Lemma three_parts_sorted `{!Comparator cmp} lt gt l :
  three_parts lt gt l → sortedseg a lt l → sortedseg gt pn l → sortedseg a pn l.
Proof.
  intros [? HL HE HG] Hs1 Hs2 i j Hi Hij Hj x y Hx Hy.
  pose proof (cmp_flip v v) as Hvv.
  assert (∀ k u, lt ≤ k < pn → l !! Z.to_nat k = Some u → cmp v u ≤ 0) as Hge.
  { intros k u Hk Hu. destruct (Z_lt_le_dec k gt).
    - destruct (HE k u ltac:(lia) Hu) as [->|H0]; [lia|]. apply cmp_flip. lia.
    - apply cmp_flip. specialize (HG k u). unfold GT in HG. specialize (HG ltac:(lia) Hu). lia. }
  assert (∀ k u, a ≤ k < gt → l !! Z.to_nat k = Some u → cmp u v ≤ 0) as Hle.
  { intros k u Hk Hu. destruct (Z_lt_le_dec k lt).
    - specialize (HL k u). unfold LT in HL. specialize (HL ltac:(lia) Hu). lia.
    - destruct (HE k u ltac:(lia) Hu) as [->|H0]; lia. }
  destruct (Z_lt_le_dec j lt); [eapply Hs1; eauto; lia|].
  destruct (Z_lt_le_dec i gt).
  - apply (cmp_trans _ v); [apply (Hle i)|apply (Hge j)]; auto; lia.
  - eapply Hs2; eauto; lia.
Qed.
End Partition.

Lemma vecswap_mul l i j k :
  0 < es → 0 ≤ k → vecswap es l i j (k * es) = swapfunc (Z.to_nat k) l i (j - k).
Proof.
  intros. unfold vecswap. destruct (Z.ltb_spec 0 (k * es)).
  - by rewrite elems_mul.
  - assert (k = 0) as -> by nia. done.
Qed.

Lemma min_bytes x y n :
  0 < es → 0 ≤ x ≤ n → 0 ≤ y ≤ n → n * es < 2 ^ 31 →
  int32_of (Z.min (x * es) (y * es)) = Z.min x y * es.
Proof.
  intros. rewrite Z.mul_min_distr_nonneg_r by lia. apply (bytes_small n); lia.
Qed.

Lemma gather_equals a pn v pa pc pd l :
  0 < es → (pn - a) * es < 2 ^ 31 → pinv a pn v pa (pc + 1) pc pd l →
  ∃ l1 l2,
    vecswap es l a (pc + 1) (int32_of (Z.min ((pa - a) * es) ((pc + 1 - pa) * es))) = Ret l1 ∧
    vecswap es l1 (pc + 1) pn (int32_of (Z.min ((pd - pc) * es) ((pn - pd) * es - es))) = Ret l2 ∧
    framed a pn l l2 ∧ three_parts a pn v (a + (pc + 1 - pa)) (pn - (pd - pc)) l2.
Proof.
  intros Hes Hb [Hlen [Ha Hv] [] ? [] He1 Hlt Hgt He2].
  rewrite (min_bytes _ _ (pn - a)) by lia.
  replace ((pn - pd) * es - es) with ((pn - (pd + 1)) * es) by lia.
  replace ((pd - pc) * es) with ((pd + 1 - (pc + 1)) * es) by lia.
  rewrite (min_bytes _ _ (pn - a)), !vecswap_mul by lia.
  destruct (swapfunc_blocks (EQ v) (LT v) l a pa (pc + 1)) as (l1 & E1 & HF1 & HL1 & HE1);
    [lia..| |done|].
  { apply allseg_cons; [|done]. intros x Hx. left. congruence. }
  pose proof (framed_length _ _ _ _ HF1).
  destruct (swapfunc_blocks (GT v) (EQ v) l1 (pc + 1) (pd + 1) pn) as (l2 & E2 & HF2 & HE2 & HG2);
    [lia..| | |].
  { eapply frame_allseg_out; [| |exact HF1|done]; lia. }
  { eapply frame_allseg_out; [| |exact HF1|done]; lia. }
  exists l1, l2. rewrite E1. split; [done|]. rewrite vecswap_mul by lia. rewrite E2. split; [done|].
  split.
  { eapply framed_trans; (eapply framed_mono; [| |done]); lia. }
  split; [lia| | |].
  - eapply frame_allseg_out; [| |exact HF2|done]; lia.
  - apply (allseg_join _ _ (pc + 1)).
    + eapply frame_allseg_out; [| |exact HF2|done]; lia.
    + by replace (pn - (pd - pc)) with (pc + 1 + (pn - (pd + 1))) by lia.
  - by replace (pn - (pd - pc)) with (pc + 1 + (pn - (pd + 1))) by lia.
Qed.

(** The two recursive calls keep the three parts. *)
Lemma three_parts_frame a pn v lt gt lo hi l l' :
  0 ≤ a → pn ≤ Z.of_nat (length l) → lo = a ∧ hi = lt ∨ lo = gt ∧ hi = pn →
  framed lo hi l l' → three_parts a pn v lt gt l → three_parts a pn v lt gt l'.
Proof.
  intros Ha Hlen Hor HF [Hb HL HE HG]. split; [done| | |].
  - destruct Hor as [[-> ->]|[-> ->]].
    + eapply framed_allseg; [| |exact HF|done]; lia.
    + eapply frame_allseg_out; [| |exact HF|done]; lia.
  - eapply frame_allseg_out; [| |exact HF|done]; lia.
  - destruct Hor as [[-> ->]|[-> ->]].
    + eapply frame_allseg_out; [| |exact HF|done]; lia.
    + eapply framed_allseg; [| |exact HF|done]; lia.
Qed.

Lemma sortedseg_out lo hi lo' hi' l l' :
  0 ≤ lo' → hi' ≤ lo ∨ hi ≤ lo' → framed lo hi l l' → sortedseg lo' hi' l → sortedseg lo' hi' l'.
Proof. intros ?? [_ HO] H i j ??? x y. rewrite !HO by lia. by apply H. Qed.

Lemma sortedseg_small lo hi l : hi ≤ lo + 1 → sortedseg lo hi l.
Proof. intros ? i j ???. lia. Qed.

(** A recursive call is made for two elements or more. *)
Lemma sub_size m n :
  0 < es → 0 ≤ m ≤ n → n * es < 2 ^ 31 →
  wrap_u 64 (int32_of (m * es)) / es = m ∧ (es <? wrap_u 64 (int32_of (m * es))) = (1 <? m).
Proof.
  intros. rewrite (bytes_small n), wrap_u_small by (unfold is_uint; nia).
  rewrite Z.div_mul by lia. split; [done|].
  destruct (Z.ltb_spec es (m * es)), (Z.ltb_spec 1 m); auto; nia.
Qed.

Definition sorts (l l' : list A) (a n : Z) : Prop :=
  framed a (a + n) l l' ∧ (Comparator cmp → sortedseg a (a + n) l').

Lemma sorts_sub fuel l a m :
  (1 < m → ∃ l', qsort_loop es cmp fuel l a m = Ret l' ∧ sorts l l' a m) →
  ∃ l', (if 1 <? m then qsort_loop es cmp fuel l a m else Ret l) = Ret l' ∧ sorts l l' a m.
Proof.
  intros H. destruct (Z.ltb_spec 1 m); [by apply H|].
  exists l. split; [done|]. split; [apply framed_refl|]. intros _. apply sortedseg_small. lia.
Qed.

Lemma qsort_loop_spec fuel l a n :
  0 < es → 0 ≤ a → 0 ≤ n → n * es < 2 ^ 31 → a + n ≤ Z.of_nat (length l) → n < Z.of_nat fuel →
  ∃ l', qsort_loop es cmp fuel l a n = Ret l' ∧ sorts l l' a n.
Proof.
  intros Hes. revert l a n. induction fuel as [|fuel IH]; intros l a n Ha Hn Hb Hlen Hf; [lia|].
  cbn [qsort_loop]. destruct (Z.ltb_spec n 7) as [Hn7|Hn7].
  { destruct (decide (n = 0)) as [->|].
    { exists l. split; [done|]. split; [apply framed_refl|]. intros _. apply sortedseg_small. lia. }
    destruct (isort_loop_spec (Z.to_nat (n - 1)) l a (a + 1) (a + n)) as (l' & E & HF & HS); [lia..|].
    exists l'. split; [done|]. split; [done|]. intros HC. apply (HS HC), sortedseg_small. lia. }
  destruct (presorted_loop_spec (Z.to_nat (n - 1)) l a (a + 1) (a + n)) as (b & -> & HS); [lia..|].
  cbn [mbind outcome_bind]. destruct b.
  { exists l. split; [done|]. split; [apply framed_refl|]. intros HC.
    apply (HS HC); [|done]. apply sortedseg_small. lia. }
  clear HS. destruct (pivot_spec l a n) as (pm & -> & Hpm); [lia..|]. cbn [mbind outcome_bind].
  destruct (swap_frame a (a + n) l a pm) as (l1 & -> & HF1 & _); [lia..|]. cbn [mbind outcome_bind].
  pose proof (framed_length _ _ _ _ HF1).
  destruct (arr_get_lt l1 a) as (v & _ & Hv); [lia|].
  destruct (partition_spec a (a + n) v (Z.to_nat n) l1 (a + 1) (a + 1) (a + (n - 1)) (a + (n - 1)))
    as (l2 & pa & pb & pc & pd & -> & HF2 & HI & ->); [|lia|].
  { split; try lia; try (intros ???; lia). by split. }
  cbn [mbind outcome_bind]. pose proof (framed_length _ _ _ _ HF2).
  destruct (gather_equals a (a + n) v pa pc pd l2) as (l3 & l4 & -> & E4 & HF4 & HT);
    [done|by replace (a + n - a) with n by lia|done|].
  cbn [mbind outcome_bind]. rewrite E4. cbn [mbind outcome_bind].
  pose proof (framed_length _ _ _ _ HF4). destruct HI as [? [] [] ? [] ????].
  destruct (sub_size (pc + 1 - pa) n) as [-> ->]; [lia..|].
  destruct (sorts_sub fuel l4 a (pc + 1 - pa)) as (l5 & -> & HF5 & HS5).
  { intros. apply IH; try lia. nia. }
  cbn [mbind outcome_bind]. pose proof (framed_length _ _ _ _ HF5).
  destruct (sub_size (pd - pc) n) as [-> ->]; [lia..|].
  rewrite (bytes_small n), elems_mul by lia. cbn [mbind outcome_bind].
  destruct (sorts_sub fuel l5 (a + n - (pd - pc)) (pd - pc)) as (l6 & -> & HF6 & HS6).
  { intros. apply IH; try lia. nia. }
  replace (a + n - (pd - pc) + (pd - pc)) with (a + n) in * by lia.
  exists l6. split; [done|]. split.
  - apply (framed_trans _ _ _ l1), (framed_trans _ _ _ l2), (framed_trans _ _ _ l4); [done..|].
    apply (framed_trans _ _ _ l5).
    + apply (framed_mono _ _ a (a + (pc + 1 - pa))); [lia..|done].
    + apply (framed_mono _ _ (a + n - (pd - pc)) (a + n)); [lia..|done].
  - intros HC.
    apply (three_parts_sorted a (a + n) v (a + (pc + 1 - pa)) (a + n - (pd - pc))); [| |by apply HS6].
    + eapply three_parts_frame; [| | |exact HF6|]; [lia..|].
      eapply three_parts_frame; [| | |exact HF5|]; [lia..|done].
    + eapply sortedseg_out; [| |exact HF6|by apply HS5]; lia.
Qed.

(** The contract of [qsort] that its callers use. *)
Lemma pg_qsort_spec l n :
  0 < es → 0 ≤ n ≤ Z.of_nat (length l) → n * es < 2 ^ 31 →
  ∃ l', pg_qsort es cmp l n = Ret l' ∧ l' ≡ₚ l ∧
    take (Z.to_nat n) l' ≡ₚ take (Z.to_nat n) l ∧ drop (Z.to_nat n) l' = drop (Z.to_nat n) l ∧
    (Comparator cmp → StronglySorted (λ x y, cmp x y ≤ 0) (take (Z.to_nat n) l')).
Proof.
  intros Hes Hn Hb. destruct (qsort_loop_spec (S (Z.to_nat n)) l 0 n) as (l' & E & HF & HS); [lia..|].
  exists l'. split; [done|]. split; [apply HF|]. split_and!.
  - pose proof (framed_segment 0 n l l') as H. rewrite Z.sub_0_r, !drop_0 in H. apply H; [lia..|done].
  - apply list_eq. intros i. rewrite !lookup_drop.
    pose proof (framed_out _ _ _ _ HF (n + Z.of_nat i)) as H.
    rewrite Z2Nat.inj_add, Nat2Z.id in H by lia. apply H; lia.
  - intros HC. specialize (HS HC).
    assert (∀ i j x y, (i < j)%nat → take (Z.to_nat n) l' !! i = Some x →
              take (Z.to_nat n) l' !! j = Some y → cmp x y ≤ 0) as H.
    { intros i j x y Hij. rewrite !lookup_take.
      destruct (decide (i < Z.to_nat n)%nat), (decide (j < Z.to_nat n)%nat); try done.
      intros Hx Hy. apply (HS (Z.of_nat i) (Z.of_nat j)); rewrite ?Nat2Z.id; auto; lia. }
    revert H. generalize (take (Z.to_nat n) l'). clear. intros k. induction k as [|x k IH]; intros H.
    + constructor.
    + constructor.
      * apply IH. intros i j u w Hij Hu Hw. apply (H (S i) (S j)); [lia|done..].
      * apply Forall_lookup. intros i y Hy. apply (H 0%nat (S i)); [lia|done..].
Qed.
End Correct.

(** ** Theorems *)

(** C14: [pg_qsort] with any comparison function at all, even an inconsistent one, returns,
    reads and writes only the [n] elements it was given, and permutes them; when the
    comparison is a total preorder the elements are sorted afterwards.  The only condition is
    that the array has less than 2^31 bytes. *)
Theorem pg_qsort_correct {A} (es : Z) (cmp : A → A → Z) (l : list A) (n : Z) :
  0 < es → 0 ≤ n ≤ Z.of_nat (length l) → n * es < 2 ^ 31 →
  ∃ l', pg_qsort es cmp l n = Ret l' ∧
    take (Z.to_nat n) l' ≡ₚ take (Z.to_nat n) l ∧ drop (Z.to_nat n) l' = drop (Z.to_nat n) l ∧
    (Comparator cmp → StronglySorted (λ x y, cmp x y ≤ 0) (take (Z.to_nat n) l')).
Proof.
  intros. destruct (pg_qsort_spec es cmp l n) as (l' & ? & ? & ?); [done..|]. by exists l'.
Qed.

#[global] Instance Zsub_comparator : Comparator Z.sub.
Proof. split; intros; lia. Qed.

Lemma pg_qsort_correct_witness :
  ∃ l', pg_qsort 8 Z.sub [5; 1; 4; 1; 9; 2; 6; 3; 8; 0] 9 = Ret l' ∧
    l' = [1; 1; 2; 3; 4; 5; 6; 8; 9; 0] ∧
    StronglySorted (λ x y, x - y ≤ 0) (take 9 l').
Proof.
  destruct (pg_qsort_correct 8 Z.sub [5; 1; 4; 1; 9; 2; 6; 3; 8; 0] 9) as (l' & E & _ & _ & HS);
    [lia|simpl; lia|lia|].
  exists l'. split; [exact E|]. split; [|apply HS, _].
  vm_compute in E. congruence.
Defined.

(** A larger run, through the three-way medians. *)
Example qsort_large :
  pg_qsort 8 Z.sub ((λ i, (i * 37) mod 101) <$> seqZ 0 101) 101 = Ret (seqZ 0 101).
Proof. vm_compute. reflexivity. Qed.
