(* ===== verification/Page.v ===== *)
(** * Disk pages: [backend/storage/page/bufpage.c]

    Every function of the file, with the macros of [include/storage/itemid.h], [off.h] and
    [bufpage.h].  A page is its header, a C struct, and the bytes that follow it up to the
    end of the block, at their offsets from the start of the page: the array of line
    pointers grows into these bytes from the left, the items from the right, and nothing but
    [pd_lower] and [pd_upper] keeps them apart.  A line pointer is four of these bytes, read
    and written as the bit fields of [ItemIdData] on a little-endian machine; a read or a
    write that leaves the block, or that would reach back into the header, is undefined.
    Sizes are those of a 64-bit machine: [MAXALIGN] rounds up to a multiple of 8.

    The specifications and theorems are in [PageSpec]. *)

From S2P Require Import Prelude Xid QSort.

(** ** Offset numbers and alignment *)

Definition InvalidOffsetNumber : Z := 0.
Definition FirstOffsetNumber : Z := 1.
Definition OffsetNumberNext (offsetNumber : Z) : Z := uint16_of (1 + offsetNumber).
Definition OffsetNumberPrev (offsetNumber : Z) : Z := uint16_of (-1 + offsetNumber).

Definition TYPEALIGN (ALIGNVAL LEN : Z) : Z :=
  Z.land (int64_of LEN + (ALIGNVAL - 1)) (Z.lnot (ALIGNVAL - 1)).
Definition MAXALIGN (LEN : Z) : Z := TYPEALIGN 8 LEN.

(** ** Line pointers *)

Record ItemIdData := mkItemId { lp_off : Z; lp_flags : Z; lp_len : Z }.
#[global] Instance ItemIdData_eq_dec : EqDecision ItemIdData.
Proof. solve_decision. Defined.

Definition LP_UNUSED : Z := 0.
Definition LP_NORMAL : Z := 1.
Definition LP_REDIRECT : Z := 2.
Definition LP_DEAD : Z := 3.

Definition ItemIdGetLength (itemId : ItemIdData) : Z := lp_len itemId.
Definition ItemIdGetOffset (itemId : ItemIdData) : Z := lp_off itemId.
Definition ItemIdGetRedirect (itemId : ItemIdData) : Z := lp_off itemId.
Definition ItemIdIsUsed (itemId : ItemIdData) : bool := negb (lp_flags itemId =? LP_UNUSED).
Definition ItemIdIsNormal (itemId : ItemIdData) : bool := lp_flags itemId =? LP_NORMAL.
Definition ItemIdIsRedirected (itemId : ItemIdData) : bool := lp_flags itemId =? LP_REDIRECT.
Definition ItemIdIsDead (itemId : ItemIdData) : bool := lp_flags itemId =? LP_DEAD.
Definition ItemIdHasStorage (itemId : ItemIdData) : bool := negb (lp_len itemId =? 0).

(** An assignment to the bit field [lp_off:15]. *)
Definition set_lp_off (off : Z) (itemId : ItemIdData) : ItemIdData :=
  mkItemId (wrap_u 15 off) (lp_flags itemId) (lp_len itemId).
Definition ItemIdSetUnused : ItemIdData := mkItemId 0 LP_UNUSED 0.
Definition ItemIdSetNormal (off len : Z) : ItemIdData :=
  mkItemId (wrap_u 15 off) LP_NORMAL (wrap_u 15 len).
Definition ItemIdSetRedirect (link : Z) : ItemIdData := mkItemId (wrap_u 15 link) LP_REDIRECT 0.
Definition ItemIdSetDead : ItemIdData := mkItemId 0 LP_DEAD 0.
Definition ItemIdMarkDead (itemId : ItemIdData) : ItemIdData :=
  mkItemId (lp_off itemId) LP_DEAD (lp_len itemId).

(** Little-endian integers. *)
Fixpoint le_encode (n : nat) (w : Z) : list Z :=
  match n with O => [] | S n' => w mod 256 :: le_encode n' (w / 256) end.
Fixpoint le_decode (bs : list Z) : Z :=
  match bs with [] => 0 | b :: bs => b + 256 * le_decode bs end.

(** [lp_off:15, lp_flags:2, lp_len:15] *)
Definition itemid_encode (lp : ItemIdData) : list Z :=
  le_encode 4 (lp_off lp + 2 ^ 15 * lp_flags lp + 2 ^ 17 * lp_len lp).
Definition itemid_decode (bs : list Z) : ItemIdData :=
  let w := le_decode bs in
  mkItemId (wrap_u 15 w) (wrap_u 2 (w / 2 ^ 15)) (wrap_u 15 (w / 2 ^ 17)).

(** ** Pages *)

Record PageData := mkPage {
  pd_lsn : XLogRecPtr;
  pd_tli : Z;
  pd_flags : Z;
  pd_lower : Z;
  pd_upper : Z;
  pd_special : Z;
  pd_pagesize_version : Z;
  pd_prune_xid : TransactionId;
  (** the bytes after the header *)
  pd_body : list Z }.

Definition SizeOfPageHeaderData : Z := 24.
Definition SizeOfItemId : Z := 4.

Definition PD_HAS_FREE_LINES : Z := 1.
Definition PD_PAGE_FULL : Z := 2.
Definition PD_ALL_VISIBLE : Z := 4.
Definition PD_VALID_FLAG_BITS : Z := 7.
Definition PG_PAGE_LAYOUT_VERSION : Z := 4.

Definition set_pd_lsn (v : XLogRecPtr) (p : PageData) : PageData :=
  mkPage v (pd_tli p) (pd_flags p) (pd_lower p) (pd_upper p) (pd_special p)
    (pd_pagesize_version p) (pd_prune_xid p) (pd_body p).
Definition set_pd_tli (v : Z) (p : PageData) : PageData :=
  mkPage (pd_lsn p) v (pd_flags p) (pd_lower p) (pd_upper p) (pd_special p)
    (pd_pagesize_version p) (pd_prune_xid p) (pd_body p).
Definition set_pd_flags (v : Z) (p : PageData) : PageData :=
  mkPage (pd_lsn p) (pd_tli p) v (pd_lower p) (pd_upper p) (pd_special p)
    (pd_pagesize_version p) (pd_prune_xid p) (pd_body p).
Definition set_pd_lower (v : Z) (p : PageData) : PageData :=
  mkPage (pd_lsn p) (pd_tli p) (pd_flags p) v (pd_upper p) (pd_special p)
    (pd_pagesize_version p) (pd_prune_xid p) (pd_body p).
Definition set_pd_upper (v : Z) (p : PageData) : PageData :=
  mkPage (pd_lsn p) (pd_tli p) (pd_flags p) (pd_lower p) v (pd_special p)
    (pd_pagesize_version p) (pd_prune_xid p) (pd_body p).
Definition set_pd_prune_xid (v : TransactionId) (p : PageData) : PageData :=
  mkPage (pd_lsn p) (pd_tli p) (pd_flags p) (pd_lower p) (pd_upper p) (pd_special p)
    (pd_pagesize_version p) v (pd_body p).
Definition set_pd_body (v : list Z) (p : PageData) : PageData :=
  mkPage (pd_lsn p) (pd_tli p) (pd_flags p) (pd_lower p) (pd_upper p) (pd_special p)
    (pd_pagesize_version p) (pd_prune_xid p) v.

(** The macros on headers. *)
Definition PageIsEmpty (p : PageData) : bool := pd_lower p <=? SizeOfPageHeaderData.
Definition PageIsNew (p : PageData) : bool := pd_upper p =? 0.
Definition PageGetPageSize (p : PageData) : Z := Z.land (pd_pagesize_version p) 65280.
Definition PageGetPageLayoutVersion (p : PageData) : Z := Z.land (pd_pagesize_version p) 255.
Definition PageSetPageSizeAndVersion (size version : Z) (p : PageData) : outcome PageData :=
  if negb (Z.land size 65280 =? size) then UB else
  if negb (Z.land version 255 =? version) then UB else
  Ret (mkPage (pd_lsn p) (pd_tli p) (pd_flags p) (pd_lower p) (pd_upper p) (pd_special p)
         (uint16_of (Z.lor size version)) (pd_prune_xid p) (pd_body p)).
Definition PageGetSpecialSize (p : PageData) : Z := uint16_of (PageGetPageSize p - pd_special p).
Definition PageGetMaxOffsetNumber (p : PageData) : Z :=
  if pd_lower p <=? SizeOfPageHeaderData then 0
  else (pd_lower p - SizeOfPageHeaderData) / SizeOfItemId.
Definition PageHasFreeLinePointers (p : PageData) : bool :=
  negb (Z.land (pd_flags p) PD_HAS_FREE_LINES =? 0).
Definition PageSetHasFreeLinePointers (p : PageData) : PageData :=
  set_pd_flags (Z.lor (pd_flags p) PD_HAS_FREE_LINES) p.
Definition PageClearHasFreeLinePointers (p : PageData) : PageData :=
  set_pd_flags (Z.land (pd_flags p) (Z.lnot PD_HAS_FREE_LINES)) p.
Definition PageIsFull (p : PageData) : bool := negb (Z.land (pd_flags p) PD_PAGE_FULL =? 0).
Definition PageSetFull (p : PageData) : PageData :=
  set_pd_flags (Z.lor (pd_flags p) PD_PAGE_FULL) p.
Definition PageClearFull (p : PageData) : PageData :=
  set_pd_flags (Z.land (pd_flags p) (Z.lnot PD_PAGE_FULL)) p.
Definition PageIsAllVisible (p : PageData) : bool :=
  negb (Z.land (pd_flags p) PD_ALL_VISIBLE =? 0).
Definition PageSetAllVisible (p : PageData) : PageData :=
  set_pd_flags (Z.lor (pd_flags p) PD_ALL_VISIBLE) p.
Definition PageClearAllVisible (p : PageData) : PageData :=
  set_pd_flags (Z.land (pd_flags p) (Z.lnot PD_ALL_VISIBLE)) p.
Definition PageIsPrunable (p : PageData) (oldestxmin : TransactionId) : outcome bool :=
  if negb (TransactionIdIsNormal oldestxmin) then UB else
  Ret (TransactionIdIsValid (pd_prune_xid p) && TransactionIdPrecedes (pd_prune_xid p) oldestxmin).
Definition PageSetPrunable (xid : TransactionId) (p : PageData) : outcome PageData :=
  if negb (TransactionIdIsNormal xid) then UB else
  Ret (if negb (TransactionIdIsValid (pd_prune_xid p)) ||
          TransactionIdPrecedes xid (pd_prune_xid p)
       then set_pd_prune_xid xid p else p).
Definition PageClearPrunable (p : PageData) : PageData := set_pd_prune_xid InvalidTransactionId p.

(** ** Bytes of a page

    [body_read b off n] and [body_write b off bs] are the bytes at offset [off] of the page
    whose bytes after the header are [b]. *)
Definition body_read (b : list Z) (off n : Z) : list Z :=
  take (Z.to_nat n) (drop (Z.to_nat (off - SizeOfPageHeaderData)) b).
Definition body_write (b : list Z) (off : Z) (bs : list Z) : list Z :=
  take (Z.to_nat (off - SizeOfPageHeaderData)) b ++ bs ++
  drop (Z.to_nat (off - SizeOfPageHeaderData) + length bs) b.

Definition in_body (b : list Z) (off n : Z) : bool :=
  (SizeOfPageHeaderData <=? off) && (0 <=? n) &&
  (off + n <=? SizeOfPageHeaderData + Z.of_nat (length b)).

Definition undefined {A} : cmd PageData A := λ _, UB.
Definition get_page : cmd PageData PageData := λ p, Ret (p, p).
Definition put_page (p : PageData) : cmd PageData unit := λ _, Ret (tt, p).
Definition page_read (off n : Z) : cmd PageData (list Z) := λ p,
  if in_body (pd_body p) off n then Ret (body_read (pd_body p) off n, p) else UB.
Definition page_write (off : Z) (bs : list Z) : cmd PageData unit := λ p,
  if in_body (pd_body p) off (Z.of_nat (length bs))
  then Ret (tt, set_pd_body (body_write (pd_body p) off bs) p) else UB.
(** [memmove(page + dst, page + src, n)] *)
Definition page_memmove (dst src n : Z) : cmd PageData unit :=
  bs ← page_read src n; page_write dst bs.

(** [&pd_linp[offsetNumber - 1]] and the struct found there. *)
Definition linp_offset (offsetNumber : Z) : Z :=
  SizeOfPageHeaderData + SizeOfItemId * (offsetNumber - 1).
Definition PageGetItemId (offsetNumber : Z) : cmd PageData ItemIdData :=
  bs ← page_read (linp_offset offsetNumber) SizeOfItemId; mret (itemid_decode bs).
Definition PageSetItemId (offsetNumber : Z) (lp : ItemIdData) : cmd PageData unit :=
  page_write (linp_offset offsetNumber) (itemid_encode lp).
(** The [lp_len] bytes that [PageGetItem] points to. *)
Definition PageGetItem (itemId : ItemIdData) : cmd PageData (list Z) :=
  if negb (ItemIdHasStorage itemId) then undefined
  else page_read (lp_off itemId) (lp_len itemId).

Section Pages.
Context (BLCKSZ : Z).

Definition MaxOffsetNumber : Z := uint16_of (BLCKSZ / SizeOfItemId).
Definition OffsetNumberIsValid (offsetNumber : Z) : bool :=
  negb (offsetNumber =? InvalidOffsetNumber) && (offsetNumber <=? MaxOffsetNumber).
(** [offsetof(HeapTupleHeaderData, t_bits)] is 23. *)
Definition MaxHeapTuplesPerPage : Z :=
  (BLCKSZ - SizeOfPageHeaderData) / (MAXALIGN 23 + SizeOfItemId).

(** ** Initialisation and validity *)

Definition PageInit (pageSize specialSize : Z) : cmd PageData unit :=
  let specialSize := wrap_u 64 (MAXALIGN specialSize) in
  if negb (pageSize =? BLCKSZ) then undefined else
  if negb (specialSize + SizeOfPageHeaderData <? pageSize) then undefined else
  _ ← put_page (mkPage InvalidXLogRecPtr 0 0 0 0 0 0 0
                  (replicate (Z.to_nat (pageSize - SizeOfPageHeaderData)) 0));
  p ← get_page;
  let p := set_pd_lower SizeOfPageHeaderData p in
  let p := set_pd_upper (uint16_of (pageSize - specialSize)) p in
  let p := mkPage (pd_lsn p) (pd_tli p) (pd_flags p) (pd_lower p) (pd_upper p)
             (uint16_of (pageSize - specialSize)) (pd_pagesize_version p) (pd_prune_xid p)
             (pd_body p) in
  p ← lift (PageSetPageSizeAndVersion pageSize PG_PAGE_LAYOUT_VERSION p);
  put_page p.

(** The block as bytes. *)
Definition page_bytes (p : PageData) : list Z :=
  le_encode 4 (xlogid (pd_lsn p)) ++ le_encode 4 (xrecoff (pd_lsn p)) ++
  le_encode 2 (pd_tli p) ++ le_encode 2 (pd_flags p) ++ le_encode 2 (pd_lower p) ++
  le_encode 2 (pd_upper p) ++ le_encode 2 (pd_special p) ++
  le_encode 2 (pd_pagesize_version p) ++ le_encode 4 (pd_prune_xid p) ++ pd_body p.

Definition PageHeaderIsValid (page : PageData) : outcome bool :=
  if (PageGetPageSize page =? BLCKSZ) &&
     (PageGetPageLayoutVersion page =? PG_PAGE_LAYOUT_VERSION) &&
     (Z.land (pd_flags page) (Z.lnot PD_VALID_FLAG_BITS) =? 0) &&
     (SizeOfPageHeaderData <=? pd_lower page) &&
     (pd_lower page <=? pd_upper page) &&
     (pd_upper page <=? pd_special page) &&
     (pd_special page <=? BLCKSZ) &&
     (pd_special page =? MAXALIGN (pd_special page))
  then Ret true
  else
    r ← for_range 0 BLCKSZ (λ i (_ : unit),
          b ← arr_get (page_bytes page) i;
          Ret (if negb (b =? 0) then inr false else inl tt)) tt;
    match r with inr b => Ret b | inl _ => Ret true end.

(** ** Insertion *)

(** [for (; offsetNumber < limit; offsetNumber++)] until a line pointer satisfies [test], in
    [n] iterations. *)
Fixpoint search_linp (n : nat) (test : ItemIdData → bool) (offsetNumber : Z) : cmd PageData Z :=
  match n with
  | O => mret offsetNumber
  | S n' =>
      itemId ← PageGetItemId offsetNumber;
      if test itemId then mret offsetNumber else search_linp n' test (offsetNumber + 1)
  end.

Definition corrupted_pointers (p : PageData) : bool :=
  (pd_lower p <? SizeOfPageHeaderData) || (pd_upper p <? pd_lower p) ||
  (pd_special p <? pd_upper p) || (BLCKSZ <? pd_special p).

(** Where [PageAddItem] puts the item and whether line pointers must move; [None] is the
    return when a used line pointer is not overwritten. *)
Definition PageAddItem_select (limit offsetNumber : Z) (overwrite : bool)
    : cmd PageData (option (Z * bool)) :=
  phdr ← get_page;
  if OffsetNumberIsValid offsetNumber then
    if overwrite then
      if offsetNumber <? limit then
        itemId ← PageGetItemId offsetNumber;
        mret (if ItemIdIsUsed itemId || ItemIdHasStorage itemId then None
              else Some (offsetNumber, false))
      else mret (Some (offsetNumber, false))
    else mret (Some (offsetNumber, offsetNumber <? limit))
  else if PageHasFreeLinePointers phdr then
    offsetNumber ← search_linp (Z.to_nat (limit - 1))
        (λ itemId, negb (ItemIdIsUsed itemId) && negb (ItemIdHasStorage itemId)) 1;
    _ ← (if limit <=? offsetNumber then put_page (PageClearHasFreeLinePointers phdr)
         else mret tt);
    mret (Some (offsetNumber, false))
  else mret (Some (limit, false)).

Definition PageAddItem (item : list Z) (size offsetNumber : Z) (overwrite is_heap : bool)
    : cmd PageData Z :=
  phdr ← get_page;
  if corrupted_pointers phdr then ereport PANIC_DATA_CORRUPTED else
  let limit := OffsetNumberNext (PageGetMaxOffsetNumber phdr) in
  sel ← PageAddItem_select limit offsetNumber overwrite;
  match sel with
  | None => mret InvalidOffsetNumber
  | Some (offsetNumber, needshuffle) =>
      if limit <? offsetNumber then mret InvalidOffsetNumber else
      if is_heap && (MaxHeapTuplesPerPage <? offsetNumber) then mret InvalidOffsetNumber else
      let lower :=
        if (offsetNumber =? limit) || needshuffle then pd_lower phdr + SizeOfItemId
        else pd_lower phdr in
      let alignedSize := wrap_u 64 (MAXALIGN size) in
      let upper := pd_upper phdr - int32_of alignedSize in
      if upper <? lower then mret InvalidOffsetNumber else
      _ ← (if (needshuffle : bool)
           then page_memmove (linp_offset (offsetNumber + 1)) (linp_offset offsetNumber)
                  ((limit - offsetNumber) * SizeOfItemId)
           else mret tt);
      _ ← PageSetItemId offsetNumber (ItemIdSetNormal upper size);
      _ ← (if Z.of_nat (length item) <? size then undefined
           else page_write upper (take (Z.to_nat size) item));
      phdr ← get_page;
      _ ← put_page (set_pd_upper (uint16_of upper) (set_pd_lower (uint16_of lower) phdr));
      mret offsetNumber
  end.

(** ** Temporary pages; [junk] is what a fresh allocation holds. *)

Definition PageGetTempPage (junk page : PageData) : PageData := junk.

(** [memcpy] of the first [pageSize] bytes of [src] over those of [dst]. *)
Definition page_memcpy (dst src : PageData) (pageSize : Z) : outcome PageData :=
  if pageSize =? 0 then Ret dst else
  let n := pageSize - SizeOfPageHeaderData in
  if (n <? 0) || (Z.of_nat (length (pd_body src)) <? n) || (Z.of_nat (length (pd_body dst)) <? n)
  then UB else
  Ret (set_pd_body (take (Z.to_nat n) (pd_body src) ++ drop (Z.to_nat n) (pd_body dst)) src).

Definition PageGetTempPageCopy (junk page : PageData) : outcome PageData :=
  page_memcpy junk page (PageGetPageSize page).

Definition PageGetTempPageCopySpecial (junk page : PageData) : outcome PageData :=
  let pageSize := PageGetPageSize page in
  '(_, temp) ← PageInit pageSize (PageGetSpecialSize page) junk;
  '(bs, _) ← page_read (pd_special page) (PageGetSpecialSize page) page;
  '(_, temp) ← page_write (pd_special temp) bs temp;
  Ret temp.

Definition PageRestoreTempPage (tempPage oldPage : PageData) : outcome PageData :=
  page_memcpy oldPage tempPage (PageGetPageSize tempPage).

(** ** Defragmentation *)

Record itemIdSortData := mkItemIdSort {
  offsetindex : Z;
  itemoff : Z;
  alignedlen : Z;
  olditemid : ItemIdData }.
Definition SizeOfItemIdSort : Z := 24.

Definition itemoffcompare (itemidp1 itemidp2 : itemIdSortData) : Z :=
  itemoff itemidp2 - itemoff itemidp1.

(** The first loop of [PageRepairFragmentation]. *)
Fixpoint repair_scan (n : nat) (i nstorage nunused : Z) : cmd PageData (Z * Z) :=
  match n with
  | O => mret (nstorage, nunused)
  | S n' =>
      lp ← PageGetItemId i;
      if ItemIdIsUsed lp then
        repair_scan n' (i + 1) (if ItemIdHasStorage lp then nstorage + 1 else nstorage) nunused
      else
        _ ← PageSetItemId i ItemIdSetUnused;
        repair_scan n' (i + 1) nstorage (nunused + 1)
  end.

(** The second loop: the items and their total length; [olditemid] is not used here. *)
Fixpoint repair_collect (n : nat) (i pd_upper pd_special totallen : Z)
    : cmd PageData (list itemIdSortData * Z) :=
  match n with
  | O => mret ([], totallen)
  | S n' =>
      lp ← PageGetItemId (i + 1);
      if ItemIdHasStorage lp then
        if (ItemIdGetOffset lp <? pd_upper) || (pd_special <=? ItemIdGetOffset lp)
        then ereport ERRCODE_DATA_CORRUPTED else
        let alignedlen := MAXALIGN (ItemIdGetLength lp) in
        '(rest, totallen) ←
          repair_collect n' (i + 1) pd_upper pd_special (totallen + alignedlen);
        mret (mkItemIdSort i (ItemIdGetOffset lp) alignedlen lp :: rest, totallen)
      else repair_collect n' (i + 1) pd_upper pd_special totallen
  end.

(** The last loop of [PageRepairFragmentation] and, with [install], of
    [PageIndexMultiDelete]. *)
Fixpoint compactify (install : bool) (items : list itemIdSortData) (upper : Z)
    : cmd PageData Z :=
  match items with
  | [] => mret upper
  | itemidptr :: items =>
      let upper := upper - alignedlen itemidptr in
      _ ← page_memmove upper (itemoff itemidptr) (alignedlen itemidptr);
      _ ← (if install then PageSetItemId (offsetindex itemidptr + 1) (olditemid itemidptr)
           else mret tt);
      lp ← PageGetItemId (offsetindex itemidptr + 1);
      _ ← PageSetItemId (offsetindex itemidptr + 1) (set_lp_off upper lp);
      compactify install items upper
  end.

(** The compaction of a page with [nstorage] items. *)
Definition repair_compact (nline nstorage lower upper special : Z) : cmd PageData unit :=
  if nstorage =? 0 then
    page ← get_page; put_page (set_pd_upper (uint16_of special) page)
  else
    '(itemidbase, totallen) ← repair_collect (Z.to_nat nline) 0 upper special 0;
    if special - lower <? totallen then ereport ERRCODE_DATA_CORRUPTED else
    itemidbase ← lift (pg_qsort SizeOfItemIdSort itemoffcompare itemidbase nstorage);
    upper ← compactify false itemidbase special;
    page ← get_page; put_page (set_pd_upper (uint16_of upper) page).

Definition PageRepairFragmentation : cmd PageData unit :=
  page ← get_page;
  let lower := pd_lower page in
  let upper := pd_upper page in
  let special := pd_special page in
  if corrupted_pointers page || negb (special =? MAXALIGN special)
  then ereport ERRCODE_DATA_CORRUPTED else
  let nline := PageGetMaxOffsetNumber page in
  '(nstorage, nunused) ← repair_scan (Z.to_nat nline) FirstOffsetNumber 0 0;
  _ ← repair_compact nline nstorage lower upper special;
  page ← get_page;
  put_page (if 0 <? nunused then PageSetHasFreeLinePointers page
            else PageClearHasFreeLinePointers page).

(** ** Free space *)

Definition PageGetFreeSpace (page : PageData) : Z :=
  let space := pd_upper page - pd_lower page in
  if space <? SizeOfItemId then 0 else space - SizeOfItemId.

Definition PageGetExactFreeSpace (page : PageData) : Z :=
  let space := pd_upper page - pd_lower page in
  if space <? 0 then 0 else space.

Definition PageGetHeapFreeSpace : cmd PageData Z :=
  page ← get_page;
  let space := PageGetFreeSpace page in
  if 0 <? space then
    let nline := PageGetMaxOffsetNumber page in
    if MaxHeapTuplesPerPage <=? nline then
      if PageHasFreeLinePointers page then
        offnum ← search_linp (Z.to_nat nline) (λ lp, negb (ItemIdIsUsed lp)) FirstOffsetNumber;
        mret (if nline <? offnum then 0 else space)
      else mret 0
    else mret space
  else mret space.

(** ** Deletion from index pages *)

(** The loop over the remaining line pointers of [PageIndexTupleDelete]. *)
Fixpoint adjust_linp (n : nat) (i offset size : Z) : cmd PageData unit :=
  match n with
  | O => mret tt
  | S n' =>
      ii ← PageGetItemId i;
      if negb (ItemIdHasStorage ii) then undefined else
      _ ← (if ItemIdGetOffset ii <=? offset
           then PageSetItemId i (set_lp_off (lp_off ii + size) ii) else mret tt);
      adjust_linp n' (i + 1) offset size
  end.

Definition PageIndexTupleDelete (offnum : Z) : cmd PageData unit :=
  phdr ← get_page;
  if corrupted_pointers phdr then ereport ERRCODE_DATA_CORRUPTED else
  let nline := PageGetMaxOffsetNumber phdr in
  if (offnum <=? 0) || (nline <? offnum) then ereport ERRCODE_INTERNAL_ERROR else
  let offidx := offnum - 1 in
  tup ← PageGetItemId offnum;
  if negb (ItemIdHasStorage tup) then undefined else
  let size := ItemIdGetLength tup in
  let offset := ItemIdGetOffset tup in
  if (offset <? pd_upper phdr) || (pd_special phdr <? offset + size) ||
     negb (offset =? MAXALIGN offset) || negb (size =? MAXALIGN size)
  then ereport ERRCODE_DATA_CORRUPTED else
  let nbytes := pd_lower phdr - linp_offset (offidx + 2) in
  _ ← (if 0 <? nbytes then page_memmove (linp_offset (offidx + 1)) (linp_offset (offidx + 2)) nbytes
       else mret tt);
  let addr := pd_upper phdr in
  _ ← (if pd_upper phdr <? offset then page_memmove (addr + size) addr (offset - pd_upper phdr)
       else mret tt);
  page ← get_page;
  let page := set_pd_upper (uint16_of (pd_upper page + size)) page in
  let page := set_pd_lower (uint16_of (pd_lower page - SizeOfItemId)) page in
  _ ← put_page page;
  if negb (PageIsEmpty page) then adjust_linp (Z.to_nat (nline - 1)) 1 offset size else mret tt.

(** [while (--nitems >= 0) PageIndexTupleDelete(page, itemnos[nitems])] *)
Fixpoint delete_backwards (itemnos : list Z) (nitems : nat) : cmd PageData unit :=
  match nitems with
  | O => mret tt
  | S n =>
      itemno ← lift (arr_get itemnos (Z.of_nat n));
      _ ← PageIndexTupleDelete itemno;
      delete_backwards itemnos n
  end.

(** The scan of [PageIndexMultiDelete]: the items to keep, their total length and the number
    of deletions met. *)
Fixpoint multi_scan (n : nat) (offnum pd_upper pd_special : Z) (itemnos : list Z)
    (nitems nextitm nused totallen : Z) : cmd PageData (list itemIdSortData * Z * Z * Z) :=
  match n with
  | O => mret ([], nextitm, nused, totallen)
  | S n' =>
      lp ← PageGetItemId offnum;
      if negb (ItemIdHasStorage lp) then undefined else
      let size := ItemIdGetLength lp in
      let offset := ItemIdGetOffset lp in
      if (offset <? pd_upper) || (pd_special <? offset + size) || negb (offset =? MAXALIGN offset)
      then ereport ERRCODE_DATA_CORRUPTED else
      skip ← (if nextitm <? nitems
              then itemno ← lift (arr_get itemnos nextitm); mret (offnum =? itemno)
              else mret false);
      if (skip : bool) then
        multi_scan n' (OffsetNumberNext offnum) pd_upper pd_special itemnos nitems
          (nextitm + 1) nused totallen
      else
        let alignedlen := MAXALIGN size in
        '(rest, nextitm, nused', totallen) ←
          multi_scan n' (OffsetNumberNext offnum) pd_upper pd_special itemnos nitems
            nextitm (nused + 1) (totallen + alignedlen);
        mret (mkItemIdSort nused offset alignedlen lp :: rest, nextitm, nused', totallen)
  end.

Definition PageIndexMultiDelete (itemnos : list Z) (nitems : Z) : cmd PageData unit :=
  phdr ← get_page;
  let lower := pd_lower phdr in
  let upper := pd_upper phdr in
  let special := pd_special phdr in
  if nitems <=? 2 then delete_backwards itemnos (Z.to_nat nitems) else
  if corrupted_pointers phdr || negb (special =? MAXALIGN special)
  then ereport ERRCODE_DATA_CORRUPTED else
  let nline := PageGetMaxOffsetNumber phdr in
  '(itemidbase, nextitm, nused, totallen) ←
    multi_scan (Z.to_nat nline) FirstOffsetNumber upper special itemnos nitems 0 0 0;
  if negb (nextitm =? nitems) then ereport ERRCODE_INTERNAL_ERROR else
  if special - lower <? totallen then ereport ERRCODE_DATA_CORRUPTED else
  itemidbase ← lift (pg_qsort SizeOfItemIdSort itemoffcompare itemidbase nused);
  upper ← compactify true itemidbase special;
  phdr ← get_page;
  put_page (set_pd_upper (uint16_of upper)
    (set_pd_lower (uint16_of (SizeOfPageHeaderData + nused * SizeOfItemId)) phdr)).

End Pages.
