(* ===== verification/PageSpec.v ===== *)
(** * Disk pages: what the operations of [Page] do

    The contents of a page are the list of what its line pointers stand for: nothing, a
    pointer without storage, or flags with the bytes of an item ([contents]).  On
    well-formed pages ([page_wf]) insertion, defragmentation and deletion are operations on
    this list; the bytes of one item never disturb those of another although all of them move
    within one block. *)

From S2P Require Import Prelude Xid QSort Page.

(** ** Little-endian integers and line pointers *)

Lemma le_encode_length n w : length (le_encode n w) = n.
Proof. revert w. induction n; intros; simpl; auto. Qed.

Lemma le_encode_bytes n w : Forall (is_uint 8) (le_encode n w).
Proof.
  revert w. induction n; intros; simpl; constructor; [|done].
  unfold is_uint. apply Z.mod_pos_bound. lia.
Qed.

Lemma le_decode_encode n w : le_decode (le_encode n w) = w mod 256 ^ Z.of_nat n.
Proof.
  revert w. induction n as [|n IH]; intros w; cbn [le_encode le_decode].
  - by rewrite Z.mod_1_r.
  - rewrite IH. replace (256 ^ Z.of_nat (S n)) with (256 * 256 ^ Z.of_nat n)
      by (rewrite Nat2Z.inj_succ, Z.pow_succ_r; lia).
    rewrite Z.rem_mul_r by (try apply Z.pow_nonzero; lia). lia.
Qed.

Definition itemid_ok (lp : ItemIdData) : Prop :=
  is_uint 15 (lp_off lp) ∧ is_uint 2 (lp_flags lp) ∧ is_uint 15 (lp_len lp).

Lemma itemid_decode_ok bs : itemid_ok (itemid_decode bs).
Proof. unfold itemid_ok, itemid_decode. simpl. split_and!; apply wrap_u_bound; lia. Qed.

Lemma itemid_decode_encode lp : itemid_ok lp → itemid_decode (itemid_encode lp) = lp.
Proof.
  destruct lp as [off flags len]. unfold itemid_ok, is_uint. simpl. intros (Ho & Hf & Hl).
  unfold itemid_decode, itemid_encode. rewrite le_decode_encode. simpl.
  rewrite Z.mod_small by lia. unfold wrap_u. f_equal.
  - symmetry. apply (Z.mod_unique_pos _ _ (flags + 2 ^ 2 * len)); lia.
  - rewrite <- (Z.div_unique_pos _ (2 ^ 15) (flags + 2 ^ 2 * len) off) by lia.
    symmetry. apply (Z.mod_unique_pos _ _ len); lia.
  - rewrite <- (Z.div_unique_pos _ (2 ^ 17) len (off + 2 ^ 15 * flags)) by lia.
    apply Z.mod_small. lia.
Qed.

Lemma itemid_encode_length lp : length (itemid_encode lp) = 4%nat.
Proof. apply le_encode_length. Qed.

(** ** Alignment *)

Lemma MAXALIGN_eq x : 0 ≤ x < 2 ^ 62 → MAXALIGN x = 8 * ((x + 7) / 8).
Proof.
  intros Hx. unfold MAXALIGN, TYPEALIGN. rewrite wrap_s_small by (unfold is_sint; lia).
  change (8 - 1) with (Z.ones 3). rewrite <- Z.ldiff_land.
  rewrite Z.ldiff_ones_r, Z.shiftl_mul_pow2, Z.shiftr_div_pow2 by lia.
  change (Z.ones 3) with 7. change (2 ^ 3) with 8. lia.
Qed.

Lemma MAXALIGN_bounds x : 0 ≤ x < 2 ^ 62 → x ≤ MAXALIGN x < x + 8.
Proof.
  intros. rewrite MAXALIGN_eq by done.
  pose proof (Z.div_mod (x + 7) 8). pose proof (Z.mod_pos_bound (x + 7) 8). lia.
Qed.

Definition aligned (x : Z) : Prop := x mod 8 = 0.

Lemma aligned_MAXALIGN x : 0 ≤ x < 2 ^ 62 → aligned (MAXALIGN x).
Proof. intros. unfold aligned. rewrite MAXALIGN_eq, Z.mul_comm by done. apply Z_mod_mult. Qed.

Lemma MAXALIGN_aligned x : 0 ≤ x < 2 ^ 62 → aligned x ↔ MAXALIGN x = x.
Proof.
  intros. split; [|intros <-; by apply aligned_MAXALIGN]. unfold aligned. intros Hm.
  rewrite MAXALIGN_eq by done.
  pose proof (Z.div_mod x 8 ltac:(lia)). rewrite Hm in *.
  rewrite <- (Z.div_unique_pos (x + 7) 8 (x / 8) 7) by lia. lia.
Qed.

Lemma aligned_sub x y : aligned x → aligned y → aligned (x - y).
Proof. unfold aligned. intros. rewrite Zminus_mod, H, H0. done. Qed.

Lemma aligned_add x y : aligned x → aligned y → aligned (x + y).
Proof. unfold aligned. intros. rewrite Zplus_mod, H, H0. done. Qed.

(** ** Bytes *)

Section Bytes.
Implicit Types (b bs : list Z).

(** The byte at an offset of the page. *)
Definition byte_at b (off : Z) : option Z := b !! Z.to_nat (off - SizeOfPageHeaderData).

(** [b] and [b'] agree from [lo] to [hi]. *)
Definition same b b' (lo hi : Z) : Prop := ∀ k, lo ≤ k < hi → byte_at b' k = byte_at b k.

Definition fits b (off n : Z) : Prop :=
  24 ≤ off ∧ 0 ≤ n ∧ off + n ≤ 24 + Z.of_nat (length b).

Lemma in_body_fits b off n : in_body b off n = true ↔ fits b off n.
Proof.
  unfold in_body, fits, SizeOfPageHeaderData. rewrite !andb_true_iff, !Z.leb_le. tauto.
Qed.

Lemma body_write_length b off bs :
  fits b off (Z.of_nat (length bs)) → length (body_write b off bs) = length b.
Proof.
  unfold fits, body_write, SizeOfPageHeaderData. intros.
  rewrite !length_app, length_take, length_drop. lia.
Qed.

Lemma byte_at_write b off bs k :
  fits b off (Z.of_nat (length bs)) → 24 ≤ k →
  byte_at (body_write b off bs) k =
    if decide (off ≤ k < off + Z.of_nat (length bs)) then bs !! Z.to_nat (k - off)
    else byte_at b k.
Proof.
  unfold fits, byte_at, body_write, SizeOfPageHeaderData. intros Hf Hk.
  destruct (Z_lt_le_dec k off) as [Hlt|Hge].
  - rewrite decide_False by lia.
    rewrite lookup_app_l by (rewrite length_take; lia). rewrite lookup_take.
    by rewrite decide_True by lia.
  - rewrite lookup_app_r by (rewrite length_take; lia). rewrite length_take.
    case_decide as Hin.
    + rewrite lookup_app_l by lia. f_equal. lia.
    + rewrite lookup_app_r by lia. rewrite lookup_drop. f_equal. lia.
Qed.

Lemma body_read_length b off n : fits b off n → length (body_read b off n) = Z.to_nat n.
Proof.
  unfold fits, body_read, SizeOfPageHeaderData. intros. rewrite length_take, length_drop. lia.
Qed.

Lemma body_read_lookup b off n k :
  24 ≤ off → 0 ≤ k < n → body_read b off n !! Z.to_nat k = byte_at b (off + k).
Proof.
  unfold body_read, byte_at, SizeOfPageHeaderData. intros.
  rewrite lookup_take, lookup_drop, decide_True by lia. f_equal. lia.
Qed.

Lemma body_read_ext b b' off off' n :
  24 ≤ off → 24 ≤ off' → 0 ≤ n →
  (∀ k, 0 ≤ k < n → byte_at b' (off' + k) = byte_at b (off + k)) →
  body_read b' off' n = body_read b off n.
Proof.
  intros Ho Ho' Hn H. apply list_eq. intros i.
  destruct (decide (Z.of_nat i < n)) as [Hi|Hi].
  - pose proof (body_read_lookup b off n (Z.of_nat i)) as E.
    pose proof (body_read_lookup b' off' n (Z.of_nat i)) as E'. rewrite Nat2Z.id in *.
    rewrite E, E' by lia. apply H. lia.
  - rewrite !lookup_ge_None_2; [done|unfold body_read; rewrite length_take; lia..].
Qed.

Lemma body_read_same b b' off n :
  24 ≤ off → 0 ≤ n → same b b' off (off + n) → body_read b' off n = body_read b off n.
Proof. intros ?? H. apply body_read_ext; try done. intros. apply H. lia. Qed.

Lemma body_read_write b off bs :
  fits b off (Z.of_nat (length bs)) →
  body_read (body_write b off bs) off (Z.of_nat (length bs)) = bs.
Proof.
  intros Hf. apply list_eq. intros i.
  destruct (decide (i < length bs)%nat) as [Hi|Hi].
  - pose proof (body_read_lookup (body_write b off bs) off (Z.of_nat (length bs)) (Z.of_nat i)) as E.
    rewrite Nat2Z.id in E. destruct Hf as (? & ? & ?).
    rewrite E, byte_at_write, decide_True by (unfold fits; lia). f_equal. lia.
  - rewrite !lookup_ge_None_2; [done|lia|]. unfold body_read. rewrite length_take. lia.
Qed.

Lemma body_write_same b off bs lo hi :
  fits b off (Z.of_nat (length bs)) → 24 ≤ lo → hi ≤ off ∨ off + Z.of_nat (length bs) ≤ lo →
  same b (body_write b off bs) lo hi.
Proof. intros Hf Hlo Hd k Hk. rewrite byte_at_write, decide_False by (try done; lia). done. Qed.

Lemma same_refl b lo hi : same b b lo hi.
Proof. done. Qed.
Lemma same_trans b1 b2 b3 lo hi : same b1 b2 lo hi → same b2 b3 lo hi → same b1 b3 lo hi.
Proof. intros H1 H2 k Hk. by rewrite H2, H1. Qed.
Lemma same_mono b b' lo hi lo' hi' : lo ≤ lo' → hi' ≤ hi → same b b' lo hi → same b b' lo' hi'.
Proof. intros ?? H k Hk. apply H. lia. Qed.

Lemma body_write_bytes b off bs :
  Forall (is_uint 8) b → Forall (is_uint 8) bs → Forall (is_uint 8) (body_write b off bs).
Proof.
  intros. unfold body_write. rewrite !Forall_app. split_and!; auto using Forall_take, Forall_drop.
Qed.
Lemma body_read_bytes b off n : Forall (is_uint 8) b → Forall (is_uint 8) (body_read b off n).
Proof. intros. by apply Forall_take, Forall_drop. Qed.

(** ** The array of line pointers *)

(** The line pointer at index [i], from 0. *)
Definition linp b (i : Z) : ItemIdData := itemid_decode (body_read b (24 + 4 * i) 4).

Lemma linp_ok b i : itemid_ok (linp b i).
Proof. apply itemid_decode_ok. Qed.

Lemma linp_same b b' i : 0 ≤ i → same b b' (24 + 4 * i) (24 + 4 * i + 4) → linp b' i = linp b i.
Proof. intros. unfold linp. f_equal. apply body_read_same; [lia..|done]. Qed.

Lemma linp_write b i lp j :
  fits b (24 + 4 * i) 4 → itemid_ok lp → 0 ≤ j →
  linp (body_write b (24 + 4 * i) (itemid_encode lp)) j = if decide (i = j) then lp else linp b j.
Proof.
  intros Hf Hlp Hj. case_decide as Hij.
  - subst j. unfold linp.
    pose proof (body_read_write b (24 + 4 * i) (itemid_encode lp)) as E.
    rewrite itemid_encode_length in E. change (Z.of_nat 4) with 4 in E. rewrite E by done. by apply itemid_decode_encode.
  - apply linp_same; [done|]. apply body_write_same; rewrite ?itemid_encode_length; [done|lia|lia].
Qed.
End Bytes.

#[global] Arguments linp : simpl never.
#[global] Arguments body_read : simpl never.
#[global] Arguments body_write : simpl never.

(** ** Running the accesses *)

Section Runs.
Implicit Types (p : PageData).

Lemma PageGetItemId_run p i :
  fits (pd_body p) (24 + 4 * (i - 1)) 4 →
  PageGetItemId i p = Ret (linp (pd_body p) (i - 1), p).
Proof.
  intros Hf. unfold PageGetItemId, page_read, mbind, cmd_bind, linp_offset.
  change SizeOfPageHeaderData with 24. change SizeOfItemId with 4.
  by rewrite (proj2 (in_body_fits _ _ _) Hf).
Qed.

Lemma PageSetItemId_run p i lp :
  fits (pd_body p) (24 + 4 * (i - 1)) 4 →
  PageSetItemId i lp p =
    Ret (tt, set_pd_body (body_write (pd_body p) (24 + 4 * (i - 1)) (itemid_encode lp)) p).
Proof.
  intros Hf. unfold PageSetItemId, page_write, linp_offset.
  change SizeOfPageHeaderData with 24. change SizeOfItemId with 4.
  rewrite itemid_encode_length. change (Z.of_nat 4) with 4.
  by rewrite (proj2 (in_body_fits _ _ _) Hf).
Qed.

Lemma page_write_run p off bs :
  fits (pd_body p) off (Z.of_nat (length bs)) →
  page_write off bs p = Ret (tt, set_pd_body (body_write (pd_body p) off bs) p).
Proof. intros Hf. unfold page_write. by rewrite (proj2 (in_body_fits _ _ _) Hf). Qed.

Lemma page_read_run p off n :
  fits (pd_body p) off n → page_read off n p = Ret (body_read (pd_body p) off n, p).
Proof. intros Hf. unfold page_read. by rewrite (proj2 (in_body_fits _ _ _) Hf). Qed.

Lemma page_memmove_run p dst src n :
  fits (pd_body p) src n → fits (pd_body p) dst n →
  page_memmove dst src n p =
    Ret (tt, set_pd_body (body_write (pd_body p) dst (body_read (pd_body p) src n)) p).
Proof.
  intros Hs Hd. unfold page_memmove. rewrite (bind_Ret _ _ _ _ _ (page_read_run p src n Hs)).
  apply page_write_run. rewrite body_read_length by done.
  destruct Hd as (? & ? & ?). unfold fits. lia.
Qed.
End Runs.

(** ** Well-formed pages and their contents *)

Definition has_storage (lp : ItemIdData) : Prop := lp_len lp ≠ 0.
#[global] Instance has_storage_dec lp : Decision (has_storage lp).
Proof. unfold has_storage. apply _. Defined.

(** The items of the first [n] line pointers lie aligned and apart in [upper .. special). *)
Record layout (n : Z) (f : Z → ItemIdData) (upper special : Z) : Prop := {
  lay_unused : ∀ i, 0 ≤ i < n → lp_flags (f i) = LP_UNUSED → lp_len (f i) = 0;
  lay_item : ∀ i, 0 ≤ i < n → has_storage (f i) →
    aligned (lp_off (f i)) ∧ upper ≤ lp_off (f i) ∧
    lp_off (f i) + MAXALIGN (lp_len (f i)) ≤ special;
  lay_apart : ∀ i j, 0 ≤ i < n → 0 ≤ j < n → i ≠ j → has_storage (f i) → has_storage (f j) →
    lp_off (f i) + MAXALIGN (lp_len (f i)) ≤ lp_off (f j) ∨
    lp_off (f j) + MAXALIGN (lp_len (f j)) ≤ lp_off (f i) }.

Definition nline (p : PageData) : Z := (pd_lower p - 24) / 4.

(** The block sizes that [configure] accepts. *)
Definition BLCKSZ_ok (BLCKSZ : Z) : Prop := ∃ k, 10 ≤ k ≤ 15 ∧ BLCKSZ = 2 ^ k.

Record page_wf (BLCKSZ : Z) (p : PageData) : Prop := {
  ok_len : Z.of_nat (length (pd_body p)) = BLCKSZ - 24;
  ok_bytes : Forall (is_uint 8) (pd_body p);
  ok_flags : is_uint 3 (pd_flags p);
  ok_version : PageGetPageSize p = BLCKSZ ∧ PageGetPageLayoutVersion p = PG_PAGE_LAYOUT_VERSION;
  ok_lower : 0 ≤ nline p ∧ pd_lower p = 24 + 4 * nline p;
  ok_order : pd_lower p ≤ pd_upper p ∧ pd_upper p ≤ pd_special p ∧ pd_special p ≤ BLCKSZ;
  ok_align : aligned (pd_upper p) ∧ aligned (pd_special p);
  ok_layout : layout (nline p) (linp (pd_body p)) (pd_upper p) (pd_special p) }.

(** What a line pointer stands for. *)
Inductive slot :=
| Unused
| Pointer (flags link : Z)
| Stored (flags : Z) (bytes : list Z).
#[global] Instance slot_eq_dec : EqDecision slot.
Proof. solve_decision. Defined.

Definition slot_of (b : list Z) (lp : ItemIdData) : slot :=
  if lp_flags lp =? LP_UNUSED then Unused
  else if lp_len lp =? 0 then Pointer (lp_flags lp) (lp_off lp)
  else Stored (lp_flags lp) (body_read b (lp_off lp) (lp_len lp)).

Definition contents (p : PageData) : list slot :=
  (λ i, slot_of (pd_body p) (linp (pd_body p) i)) <$> seqZ 0 (nline p).

Lemma contents_length p : 0 ≤ nline p → Z.of_nat (length (contents p)) = nline p.
Proof. intros. unfold contents. rewrite length_fmap, length_seqZ. lia. Qed.

Lemma contents_lookup p i :
  0 ≤ i < nline p →
  contents p !! Z.to_nat i = Some (slot_of (pd_body p) (linp (pd_body p) i)).
Proof.
  intros. unfold contents. rewrite list_lookup_fmap, lookup_seqZ_lt by lia. simpl.
  do 3 f_equal. lia.
Qed.

Lemma contents_eq p c :
  0 ≤ nline p → Z.of_nat (length c) = nline p →
  (∀ i, 0 ≤ i < nline p → c !! Z.to_nat i = Some (slot_of (pd_body p) (linp (pd_body p) i))) →
  contents p = c.
Proof.
  intros Hn Hc H. apply list_eq. intros i.
  destruct (decide (Z.of_nat i < nline p)) as [Hi|Hi].
  - pose proof (contents_lookup p (Z.of_nat i)) as E. specialize (H (Z.of_nat i)).
    rewrite Nat2Z.id in *. rewrite E, H by lia. done.
  - pose proof (contents_length p Hn). rewrite !lookup_ge_None_2; [done|lia..].
Qed.

(** Two line pointers stand for the same slot. *)
Lemma slot_of_moved b b' lp lp' :
  itemid_ok lp → lp_flags lp' = lp_flags lp → lp_len lp' = lp_len lp →
  (¬ has_storage lp → lp_flags lp ≠ LP_UNUSED → lp_off lp' = lp_off lp) →
  (has_storage lp → body_read b' (lp_off lp') (lp_len lp) = body_read b (lp_off lp) (lp_len lp)) →
  slot_of b' lp' = slot_of b lp.
Proof.
  intros _ Ef El Ho Hr. unfold slot_of. rewrite Ef, El.
  destruct (Z.eqb_spec (lp_flags lp) LP_UNUSED); [done|].
  destruct (Z.eqb_spec (lp_len lp) 0) as [E|E].
  - rewrite Ho; [done|by intros []|done].
  - by rewrite Hr.
Qed.

Section Geometry.
Context (BLCKSZ : Z) (HB : BLCKSZ_ok BLCKSZ).

Lemma blcksz_bounds : 1024 ≤ BLCKSZ ≤ 32768 ∧ aligned BLCKSZ.
Proof using HB.
  destruct HB as (k & Hk & ->). split.
  - split; [apply (Z.pow_le_mono_r 2 10)|apply (Z.pow_le_mono_r 2 k 15)]; lia.
  - unfold aligned. replace k with (k - 3 + 3) by lia. rewrite Z.pow_add_r by lia.
    apply Z_mod_mult.
Qed.

Lemma ok_fits_linp p i : page_wf BLCKSZ p → 0 ≤ i < nline p → fits (pd_body p) (24 + 4 * i) 4.
Proof using. clear HB. intros [] ?. unfold fits. lia. Qed.

Lemma PageGetItemId_ok p i :
  page_wf BLCKSZ p → 1 ≤ i ≤ nline p → PageGetItemId i p = Ret (linp (pd_body p) (i - 1), p).
Proof using. clear HB. intros. apply PageGetItemId_run. apply ok_fits_linp; [done|lia]. Qed.

Lemma PageGetMaxOffsetNumber_ok p : page_wf BLCKSZ p → PageGetMaxOffsetNumber p = nline p.
Proof using.
  clear HB. intros [? ? ? ? [? Hl] ? ? ?]. unfold PageGetMaxOffsetNumber, nline, SizeOfPageHeaderData, SizeOfItemId.
  destruct (Z.leb_spec (pd_lower p) 24); [|done].
  unfold nline in *. lia.
Qed.

Lemma corrupted_pointers_ok p : page_wf BLCKSZ p → corrupted_pointers BLCKSZ p = false.
Proof using.
  clear HB. intros [? ? ? ? [? ?] ? ? ?]. unfold corrupted_pointers, SizeOfPageHeaderData.
  rewrite !orb_false_iff, !Z.ltb_ge. lia.
Qed.

Lemma nline_bound p : page_wf BLCKSZ p → 0 ≤ nline p ≤ 8186.
Proof using HB. pose proof blcksz_bounds. intros []. lia. Qed.

(** An item of the page, its place and its bytes. *)
Lemma ok_item p i :
  page_wf BLCKSZ p → 0 ≤ i < nline p → has_storage (linp (pd_body p) i) →
  let lp := linp (pd_body p) i in
  0 < lp_len lp < 2 ^ 15 ∧ aligned (lp_off lp) ∧ pd_upper p ≤ lp_off lp ∧
  lp_len lp ≤ MAXALIGN (lp_len lp) < lp_len lp + 8 ∧
  lp_off lp + MAXALIGN (lp_len lp) ≤ pd_special p ∧
  fits (pd_body p) (lp_off lp) (MAXALIGN (lp_len lp)).
Proof using.
  clear HB. intros [] Hi Hs lp. destruct (lay_item _ _ _ _ ok_layout0 i Hi Hs) as (? & ? & ?).
  fold lp in H, H0, H1.
  pose proof (linp_ok (pd_body p) i) as (? & ? & Hl). unfold has_storage, is_uint in *. fold lp in Hl, Hs.
  pose proof (MAXALIGN_bounds (lp_len lp)). unfold fits. split_and!; try done; lia.
Qed.

(** ** Insertion *)

(** The first unused slot, numbered from [i], or the number after the last. *)
Fixpoint first_unused (c : list slot) (i : Z) : Z :=
  match c with
  | [] => i
  | Unused :: _ => i
  | _ :: c => first_unused c (i + 1)
  end.

Lemma slot_of_unused b lp : slot_of b lp = Unused ↔ lp_flags lp = LP_UNUSED.
Proof using.
  clear HB. unfold slot_of. destruct (Z.eqb_spec (lp_flags lp) LP_UNUSED); [done|].
  by destruct (Z.eqb_spec (lp_len lp) 0).
Qed.

Lemma search_linp_spec p (test : ItemIdData → bool) n i :
  page_wf BLCKSZ p → 1 ≤ i → i - 1 + Z.of_nat n = nline p →
  (∀ k, 0 ≤ k < nline p → test (linp (pd_body p) k) = bool_decide (lp_flags (linp (pd_body p) k) = LP_UNUSED)) →
  search_linp n test i p = Ret (first_unused (drop (Z.to_nat (i - 1)) (contents p)) i, p).
Proof using.
  clear HB. intros Hok. revert i. induction n as [|n IH]; intros i Hi Hn Ht; cbn [search_linp].
  - rewrite drop_ge; [done|]. pose proof (contents_length p). destruct Hok. lia.
  - rewrite (bind_Ret _ _ _ _ _ (PageGetItemId_ok p i Hok ltac:(lia))).
    rewrite (drop_S _ _ _ (contents_lookup p (i - 1) ltac:(lia))). rewrite Ht by lia.
    pose proof (slot_of_unused (pd_body p) (linp (pd_body p) (i - 1))) as Hu.
    case_bool_decide as Hf.
    + rewrite (proj2 Hu Hf). done.
    + rewrite IH by (try done; lia). replace (Z.to_nat (i + 1 - 1)) with (S (Z.to_nat (i - 1))) by lia.
      cbn [first_unused]. destruct (slot_of _ _); [by destruct Hf; apply Hu|done..].
Qed.

(** What [PageAddItem] does to the contents: the slot it chooses ... *)
Definition add_select (c : list slot) (hint : bool) (offsetNumber : Z) (overwrite : bool)
    : option (Z * bool) :=
  let limit := Z.of_nat (length c) + 1 in
  if (1 <=? offsetNumber) && (offsetNumber <=? BLCKSZ / 4) then
    if overwrite then
      if offsetNumber <? limit then
        if decide (c !! Z.to_nat (offsetNumber - 1) = Some Unused) then Some (offsetNumber, false)
        else None
      else Some (offsetNumber, false)
    else Some (offsetNumber, offsetNumber <? limit)
  else Some (if hint then first_unused c 1 else limit, false).

(** ... the contents with the new slot there ... *)
Definition add_place (c : list slot) (off : Z) (shift : bool) (s : slot) : list slot :=
  let k := Z.to_nat (off - 1) in
  if shift then take k c ++ s :: drop k c
  else if off =? Z.of_nat (length c) + 1 then c ++ [s]
  else <[k := s]> c.

(** ... and the whole, for a page with [room] bytes between its pointers and its items. *)
Definition add_item (c : list slot) (hint : bool) (room : Z) (item : list Z) (offsetNumber : Z)
    (overwrite is_heap : bool) : option (Z * list slot) :=
  match add_select c hint offsetNumber overwrite with
  | None => None
  | Some (off, shift) =>
      let limit := Z.of_nat (length c) + 1 in
      let need := (if (off =? limit) || shift then 4 else 0) +
                  MAXALIGN (Z.of_nat (length item)) in
      if (limit <? off) || (is_heap && (MaxHeapTuplesPerPage BLCKSZ <? off)) || (room <? need)
      then None
      else Some (off, add_place c off shift (Stored LP_NORMAL item))
  end.

Lemma ok_set_flags p v : page_wf BLCKSZ p → is_uint 3 v → page_wf BLCKSZ (set_pd_flags v p).
Proof using. clear HB. intros [] ?. by split. Qed.

Lemma land_flags_3 z m : is_uint 3 z → is_uint 3 (Z.land z m).
Proof using.
  clear HB. intros Hz. apply testbit_is_uint; [lia| |].
  - apply Z.land_nonneg. left. apply Hz.
  - intros i Hi. by rewrite Z.land_spec, (is_uint_testbit_high 3 z).
Qed.

Lemma unused_no_storage p k :
  page_wf BLCKSZ p → 0 ≤ k < nline p →
  (negb (ItemIdIsUsed (linp (pd_body p) k)) && negb (ItemIdHasStorage (linp (pd_body p) k))) =
  bool_decide (lp_flags (linp (pd_body p) k) = LP_UNUSED).
Proof using.
  clear HB. intros [] Hk. unfold ItemIdIsUsed, ItemIdHasStorage. rewrite !negb_involutive.
  case_bool_decide as Hf.
  - rewrite (lay_unused _ _ _ _ ok_layout0 k Hk Hf), Hf. done.
  - by rewrite (proj2 (Z.eqb_neq _ _)).
Qed.

(** A page that differs from [p] in its hint at most. *)
Definition hint_change (p p' : PageData) : Prop :=
  ∃ v, is_uint 3 v ∧ (∀ i, 1 ≤ i → Z.testbit v i = Z.testbit (pd_flags p) i) ∧
       p' = set_pd_flags v p.

Lemma hint_change_refl p : page_wf BLCKSZ p → hint_change p p.
Proof using. clear HB. intros []. exists (pd_flags p). split; [done|]. split; [done|]. by destruct p. Qed.

Lemma clear_hint_change p : page_wf BLCKSZ p → hint_change p (PageClearHasFreeLinePointers p).
Proof using.
  clear HB. intros []. exists (Z.land (pd_flags p) (Z.lnot PD_HAS_FREE_LINES)). split; [by apply land_flags_3|].
  split; [|done]. intros i Hi. rewrite Z.land_spec, Z.lnot_spec by lia.
  change PD_HAS_FREE_LINES with (2 ^ 0). rewrite Z.pow2_bits_false by lia. apply andb_true_r.
Qed.

Lemma PageAddItem_select_spec p offsetNumber overwrite :
  page_wf BLCKSZ p → is_uint 16 offsetNumber →
  ∃ p', PageAddItem_select BLCKSZ (nline p + 1) offsetNumber overwrite p =
    Ret (add_select (contents p) (PageHasFreeLinePointers p) offsetNumber overwrite, p') ∧
    hint_change p p'.
Proof using HB.
  intros Hok Hu. pose proof blcksz_bounds as [Hb _]. pose proof (contents_length p) as Hlen.
  unfold PageAddItem_select, add_select. rewrite (bind_Ret get_page _ p p p) by done.
  assert (OffsetNumberIsValid BLCKSZ offsetNumber =
          (1 <=? offsetNumber) && (offsetNumber <=? BLCKSZ / 4)) as ->.
  { unfold OffsetNumberIsValid, MaxOffsetNumber, InvalidOffsetNumber, SizeOfItemId.
    pose proof (Z.div_mod BLCKSZ 4). pose proof (Z.mod_pos_bound BLCKSZ 4).
    unfold is_uint in Hu. rewrite wrap_u_small by (unfold is_uint; lia).
    f_equal. destruct (Z.eqb_spec offsetNumber 0), (Z.leb_spec 1 offsetNumber); auto; lia. }
  pose proof (ok_lower _ _ Hok) as [Hn _]. rewrite Hlen by done.
  destruct ((1 <=? offsetNumber) && (offsetNumber <=? BLCKSZ / 4)) eqn:Hv.
  - apply andb_true_iff in Hv as [Hv _]. apply Z.leb_le in Hv.
    exists p. split; [|by apply hint_change_refl]. destruct overwrite; [|done].
    destruct (Z.ltb_spec offsetNumber (nline p + 1)); [|done].
    rewrite (bind_Ret _ _ _ _ _ (PageGetItemId_ok p offsetNumber Hok ltac:(lia))).
    unfold mret, cmd_ret. rewrite contents_lookup by lia. do 2 f_equal.
    pose proof (unused_no_storage p (offsetNumber - 1) Hok ltac:(lia)) as Hus.
    rewrite <- negb_orb in Hus. destruct (ItemIdIsUsed _ || ItemIdHasStorage _).
    + rewrite decide_False; [done|]. intros [= E%slot_of_unused].
      symmetry in Hus. by apply bool_decide_eq_false in Hus.
    + rewrite decide_True; [done|]. f_equal. apply slot_of_unused.
      symmetry in Hus. by apply bool_decide_eq_true in Hus.
  - destruct (PageHasFreeLinePointers p); [|by eauto using hint_change_refl].
    assert (search_linp (Z.to_nat (nline p + 1 - 1))
      (λ itemId, negb (ItemIdIsUsed itemId) && negb (ItemIdHasStorage itemId)) 1 p =
      Ret (first_unused (contents p) 1, p)) as E.
    { rewrite search_linp_spec; [done|done|lia..|]. intros. by apply unused_no_storage. }
    rewrite (bind_Ret _ _ _ _ _ E).
    destruct (nline p + 1 <=? _); eauto using clear_hint_change, hint_change_refl.
Qed.

(** The page after the item has been put at [off]. *)
Section Place.
Context (b0 item : list Z) (n off upper upper' : Z) (shift : bool).
Let n' : Z := if (off =? n + 1) || shift then n + 1 else n.
Let b1 : list Z :=
  if shift then body_write b0 (24 + 4 * off) (body_read b0 (24 + 4 * (off - 1)) ((n + 1 - off) * 4))
  else b0.
Let size : Z := Z.of_nat (length item).
Let lp : ItemIdData := ItemIdSetNormal upper' size.
Let b2 : list Z := body_write b1 (24 + 4 * (off - 1)) (itemid_encode lp).
Let b3 : list Z := body_write b2 upper' item.

Hypothesis Hoff : 1 ≤ off ≤ n + 1.
Hypothesis Hshift : shift = true → off ≤ n.
Hypothesis Hroom : 24 + 4 * n' ≤ upper'.
Hypothesis Hsize : 0 < size ∧ upper' + size ≤ upper.
Hypothesis Hupper : upper ≤ 24 + Z.of_nat (length b0) ∧ upper ≤ 32768.

(** The index that the line pointer now at [i] had. *)
Definition old_index (i : Z) : Z := if shift && (off <=? i) then i - 1 else i.

Lemma place_n' : n ≤ n' ∧ n' ≤ n + 1 ∧ off ≤ n'.
Proof using Hoff Hshift Hroom Hsize Hupper.
  clear HB. unfold n'. destruct (Z.eqb_spec off (n + 1)), shift; simpl; try specialize (Hshift eq_refl); lia.
Qed.

Lemma place_fits1 : shift = true →
  fits b0 (24 + 4 * (off - 1)) ((n + 1 - off) * 4) ∧ fits b0 (24 + 4 * off) ((n + 1 - off) * 4).
Proof using Hoff Hshift Hroom Hsize Hupper.
  clear HB. pose proof place_n'. intros ->. unfold fits, n' in *. rewrite orb_true_r in *.
  specialize (Hshift eq_refl). lia.
Qed.

Lemma place_b1_length : length b1 = length b0.
Proof using Hoff Hshift Hroom Hsize Hupper.
  clear HB. pose proof place_fits1 as Hf. unfold b1. destruct shift; [|done].
  destruct (Hf eq_refl) as [F1 F2].
  apply body_write_length. rewrite body_read_length by done. unfold fits in *. lia.
Qed.

Lemma place_fits2 : fits b1 (24 + 4 * (off - 1)) 4.
Proof using Hoff Hshift Hroom Hsize Hupper.
  clear HB. pose proof place_n'. unfold fits. rewrite place_b1_length. lia.
Qed.

Lemma place_b2_length : length b2 = length b0.
Proof using Hoff Hshift Hroom Hsize Hupper.
  clear HB. unfold b2. rewrite body_write_length; [apply place_b1_length|].
  rewrite itemid_encode_length. apply place_fits2.
Qed.

Lemma place_fits3 : fits b2 upper' size.
Proof using Hoff Hshift Hroom Hsize Hupper.
  clear HB. pose proof place_n'. unfold fits. rewrite place_b2_length. lia.
Qed.

Lemma place_lp : lp = mkItemId upper' LP_NORMAL size ∧ itemid_ok lp.
Proof using Hoff Hshift Hroom Hsize Hupper.
  clear HB. pose proof place_n'.
  assert (lp = mkItemId upper' LP_NORMAL size) as ->.
  { unfold lp, ItemIdSetNormal. rewrite !wrap_u_small by (unfold is_uint; lia). done. }
  split; [done|]. unfold itemid_ok, is_uint, LP_NORMAL. simpl. lia.
Qed.

Lemma place_linp1 i : 0 ≤ i → i < n' → i ≠ off - 1 → linp b1 i = linp b0 (old_index i).
Proof using Hoff Hshift Hroom Hsize Hupper.
  clear HB. intros H0 Hi Hne. pose proof place_fits1 as Hf. pose proof place_n'.
  unfold old_index, b1. destruct shift; [|done].
  destruct (Hf eq_refl) as [F1 F2]. simpl.
  assert (fits b0 (24 + 4 * off)
    (Z.of_nat (length (body_read b0 (24 + 4 * (off - 1)) ((n + 1 - off) * 4))))) as F3.
  { rewrite body_read_length by done. unfold fits in *. lia. }
  destruct (Z.leb_spec off i).
  - unfold linp. f_equal. apply body_read_ext; [lia..|]. intros k Hk.
    rewrite byte_at_write by (try done; lia). rewrite body_read_length by done.
    rewrite decide_True by lia.
    rewrite body_read_lookup by lia. f_equal. lia.
  - apply linp_same; [lia|]. apply body_write_same; [done|lia|lia].
Qed.

Lemma place_linp i :
  0 ≤ i < n' →
  linp b3 i = if decide (i = off - 1) then mkItemId upper' LP_NORMAL size else linp b0 (old_index i).
Proof using Hoff Hshift Hroom Hsize Hupper.
  clear HB. intros Hi. pose proof place_fits3. destruct place_lp as [E Hlp]. pose proof place_n'.
  transitivity (linp b2 i).
  { apply linp_same; [lia|]. apply body_write_same; [done|lia|]. fold size. lia. }
  unfold b2. rewrite linp_write by (try apply place_fits2; done || lia).
  destruct (decide (off - 1 = i)), (decide (i = off - 1)); try lia; [done|].
  apply place_linp1; lia.
Qed.

Lemma place_same hi : same b0 b3 upper hi.
Proof using Hoff Hshift Hroom Hsize Hupper.
  clear HB. pose proof place_fits1 as Hf1. pose proof place_fits2. pose proof place_fits3. pose proof place_n'.
  apply (same_trans _ b1); [|apply (same_trans _ b2)].
  - unfold b1. destruct shift; [|done]. destruct (Hf1 eq_refl) as [F1 F2].
    unfold fits in *. apply body_write_same; rewrite ?body_read_length by done; unfold fits; try lia.
    unfold n' in *. rewrite orb_true_r in *. lia.
  - apply body_write_same; rewrite ?itemid_encode_length; [done|lia|lia].
  - apply body_write_same; [done|lia|]. fold size. lia.
Qed.

Lemma place_item : body_read b3 upper' size = item.
Proof using Hoff Hshift Hroom Hsize Hupper. clear HB. apply body_read_write, place_fits3. Qed.

Lemma place_bytes :
  Forall (is_uint 8) b0 → Forall (is_uint 8) item → Forall (is_uint 8) b3 ∧ length b3 = length b0.
Proof using Hoff Hshift Hroom Hsize Hupper.
  clear HB. intros. pose proof place_fits3. split.
  - apply body_write_bytes; [|done]. apply body_write_bytes; [|apply le_encode_bytes].
    unfold b1. destruct shift; [|done]. apply body_write_bytes; [done|by apply body_read_bytes].
  - unfold b3. rewrite body_write_length by done. apply place_b2_length.
Qed.
End Place.

(** The number of line pointers after an insertion at [off]. *)
Definition new_n (n off : Z) (shift : bool) : Z := if (off =? n + 1) || shift then n + 1 else n.

Lemma old_index_range n off shift i :
  1 ≤ off ≤ n + 1 → (shift = true → off ≤ n) → 0 ≤ i < new_n n off shift → i ≠ off - 1 →
  0 ≤ old_index off shift i < n.
Proof using.
  clear HB. intros Hoff Hs Hi Hne. unfold new_n, old_index in *. destruct shift; simpl in *.
  - rewrite orb_true_r in Hi. specialize (Hs eq_refl). destruct (Z.leb_spec off i); lia.
  - rewrite orb_false_r in Hi. destruct (Z.eqb_spec off (n + 1)); lia.
Qed.

Lemma old_index_inj off shift i j :
  i ≠ off - 1 → j ≠ off - 1 → i ≠ j → old_index off shift i ≠ old_index off shift j.
Proof using.
  clear HB. intros. unfold old_index. destruct shift; simpl; [|done].
  destruct (Z.leb_spec off i), (Z.leb_spec off j); lia.
Qed.

Lemma layout_insert n f upper special off shift f' upper' size :
  layout n f upper special →
  1 ≤ off ≤ n + 1 → (shift = true → off ≤ n) →
  (∀ i, 0 ≤ i < new_n n off shift →
     f' i = if decide (i = off - 1) then mkItemId upper' LP_NORMAL size
            else f (old_index off shift i)) →
  0 < size → aligned upper' → upper' + MAXALIGN size ≤ upper → upper' ≤ upper ≤ special →
  layout (new_n n off shift) f' upper' special.
Proof using.
  clear HB. intros [Hu Hit Hap] Hoff Hsh Hf Hsize Hal Hr Hup.
  assert (∀ i, 0 ≤ i < new_n n off shift → i ≠ off - 1 → has_storage (f' i) →
     upper ≤ lp_off (f' i)) as Hold.
  { intros i Hi Hne. rewrite Hf, decide_False by done.
    pose proof (old_index_range n off shift i Hoff Hsh Hi Hne) as Ho. intros Hs. by apply (Hit _ Ho). }
  split.
  - intros i Hi. rewrite Hf by done. case_decide; [done|]. intros Hz.
    apply Hu; [by apply old_index_range|done].
  - intros i Hi. rewrite Hf by done. case_decide; simpl.
    + intros _. split_and!; [done|lia|lia].
    + intros Hs. destruct (Hit _ (old_index_range n off shift i Hoff Hsh Hi H) Hs) as (? & ? & ?).
      split_and!; [done|lia|lia].
  - intros i j Hi Hj Hij Hsi Hsj.
    destruct (decide (i = off - 1)) as [Ei|Ei], (decide (j = off - 1)) as [Ej|Ej]; [lia| | |].
    + left. specialize (Hold j Hj Ej Hsj). rewrite (Hf i), decide_True by done. simpl. lia.
    + right. specialize (Hold i Hi Ei Hsi). rewrite (Hf j), decide_True by done. simpl. lia.
    + rewrite (Hf i), (Hf j), !decide_False in * by done.
      apply Hap; auto using old_index_range, old_index_inj.
Qed.

Lemma add_place_lookup c off shift s i :
  let n := Z.of_nat (length c) in
  1 ≤ off ≤ n + 1 → (shift = true → off ≤ n) → 0 ≤ i < new_n n off shift →
  add_place c off shift s !! Z.to_nat i =
    if decide (i = off - 1) then Some s else c !! Z.to_nat (old_index off shift i).
Proof using.
  clear HB. intros n Hoff Hsh Hi. unfold add_place, old_index, new_n in *. fold n. destruct shift; simpl.
  - specialize (Hsh eq_refl). rewrite orb_true_r in Hi.
    destruct (Z_lt_le_dec i (off - 1)).
    + rewrite decide_False by lia. destruct (Z.leb_spec off i); [lia|].
      rewrite lookup_app_l by (rewrite length_take; lia). rewrite lookup_take, decide_True by lia. done.
    + rewrite lookup_app_r by (rewrite length_take; lia). rewrite length_take.
      case_decide.
      * subst i. replace (Z.to_nat (off - 1) - _)%nat with 0%nat by lia. done.
      * destruct (Z.leb_spec off i); [|lia].
        replace (Z.to_nat i - _)%nat with (S (Z.to_nat (i - off))) by lia. simpl.
        rewrite lookup_drop. f_equal. lia.
  - rewrite orb_false_r in Hi. destruct (Z.eqb_spec off (n + 1)) as [->|].
    + case_decide.
      * rewrite list_lookup_middle; [done|lia].
      * rewrite lookup_app_l by lia. done.
    + case_decide.
      * subst i. apply list_lookup_insert_eq. lia.
      * rewrite list_lookup_insert_ne by lia. done.
Qed.

Lemma add_place_length c off shift s :
  let n := Z.of_nat (length c) in
  1 ≤ off ≤ n + 1 → (shift = true → off ≤ n) →
  Z.of_nat (length (add_place c off shift s)) = new_n n off shift.
Proof using.
  clear HB. intros n Hoff Hsh. unfold add_place, new_n. fold n. destruct shift.
  - rewrite orb_true_r. rewrite length_app. simpl. rewrite length_take, length_drop.
    specialize (Hsh eq_refl). lia.
  - rewrite orb_false_r. destruct (off =? n + 1).
    + rewrite length_app. simpl. lia.
    + by rewrite length_insert.
Qed.

(** The slots that are not touched keep their bytes. *)
Lemma slot_of_same p b' i :
  page_wf BLCKSZ p → 0 ≤ i < nline p → same (pd_body p) b' (pd_upper p) (pd_special p) →
  slot_of b' (linp (pd_body p) i) = slot_of (pd_body p) (linp (pd_body p) i).
Proof using.
  clear HB. intros Hok Hi Hs. apply slot_of_moved; auto using linp_ok. intros Hst.
  destruct (ok_item p i Hok Hi Hst) as (? & ? & ? & ? & ? & Hf). unfold fits in Hf.
  apply body_read_same; [lia..|]. eapply same_mono; [| |done]; lia.
Qed.

Definition place_body (b0 item : list Z) (n off upper' : Z) (shift : bool) : list Z :=
  let b1 :=
    if shift then body_write b0 (24 + 4 * off) (body_read b0 (24 + 4 * (off - 1)) ((n + 1 - off) * 4))
    else b0 in
  let b2 := body_write b1 (24 + 4 * (off - 1))
              (itemid_encode (ItemIdSetNormal upper' (Z.of_nat (length item)))) in
  body_write b2 upper' item.

Definition place_page (p : PageData) (item : list Z) (off upper' : Z) (shift : bool) : PageData :=
  set_pd_upper upper' (set_pd_lower (24 + 4 * new_n (nline p) off shift)
    (set_pd_body (place_body (pd_body p) item (nline p) off upper' shift) p)).

Lemma nline_lower p n : pd_lower p = 24 + 4 * n → nline p = n.
Proof using. clear HB. intros E. unfold nline. rewrite E. symmetry. apply (Z.div_unique_pos _ _ _ 0); lia. Qed.

Lemma place_page_ok p item off upper' shift :
  page_wf BLCKSZ p → 1 ≤ off ≤ nline p + 1 → (shift = true → off ≤ nline p) →
  Forall (is_uint 8) item → 0 < Z.of_nat (length item) < 2 ^ 31 →
  upper' = pd_upper p - MAXALIGN (Z.of_nat (length item)) →
  24 + 4 * new_n (nline p) off shift ≤ upper' →
  page_wf BLCKSZ (place_page p item off upper' shift) ∧
  contents (place_page p item off upper' shift) =
    add_place (contents p) off shift (Stored LP_NORMAL item).
Proof using HB.
  intros Hok Hoff Hsh Hit Hsize Hup Hroom. pose proof blcksz_bounds as [Hb _].
  pose proof (MAXALIGN_bounds (Z.of_nat (length item))) as Hal.
  pose proof (aligned_MAXALIGN (Z.of_nat (length item))) as Hal2.
  pose proof Hok as [Hlen Hbytes Hfl Hver [Hn Hlow] Hord [Ha1 Ha2] Hlay].
  assert (0 < Z.of_nat (length item) ∧ upper' + Z.of_nat (length item) ≤ pd_upper p) as Hs by lia.
  assert (pd_upper p ≤ 24 + Z.of_nat (length (pd_body p)) ∧ pd_upper p ≤ 32768) as Hu by lia.
  pose proof (place_linp _ item (nline p) off (pd_upper p) upper' shift Hoff Hsh Hroom Hs Hu) as HL.
  pose proof (place_same _ item (nline p) off (pd_upper p) upper' shift Hoff Hsh Hroom Hs Hu) as HS.
  pose proof (place_item _ item (nline p) off (pd_upper p) upper' shift Hoff Hsh Hroom Hs Hu) as HI.
  destruct (place_bytes _ item (nline p) off (pd_upper p) upper' shift Hoff Hsh Hroom Hs Hu Hbytes Hit)
    as [HF Hl].
  fold (place_body (pd_body p) item (nline p) off upper' shift) in *.
  fold (new_n (nline p) off shift) in *.
  set (p' := place_page p item off upper' shift).
  assert (nline p' = new_n (nline p) off shift) as Hn' by (by apply nline_lower).
  assert (nline p ≤ new_n (nline p) off shift) as Hnn by (unfold new_n; destruct (_ || _); lia).
  split.
  - split; rewrite ?Hn'; simpl; auto; try lia.
    + split; [|done]. subst upper'. apply aligned_sub; [done|]. apply Hal2. lia.
    + eapply (layout_insert _ _ (pd_upper p)); [done|done|done|exact HL|lia| |lia|lia].
      subst upper'. apply aligned_sub; [done|]. apply Hal2. lia.
  - pose proof (contents_length p Hn) as Hc. apply contents_eq; rewrite ?Hn'; [lia| |].
    + rewrite add_place_length; rewrite Hc; done.
    + intros i Hi. rewrite add_place_lookup; rewrite ?Hc; try done. simpl. rewrite HL by done.
      case_decide.
      * unfold slot_of. simpl. destruct (Z.eqb_spec (Z.of_nat (length item)) 0); [lia|]. by rewrite HI.
      * pose proof (old_index_range (nline p) off shift i Hoff Hsh Hi H).
        rewrite contents_lookup by done. f_equal. symmetry. by apply slot_of_same.
Qed.

Lemma first_unused_bounds c i : i ≤ first_unused c i ≤ i + Z.of_nat (length c).
Proof using. clear HB. revert i. induction c as [|[]c IH]; intros i; simpl; [lia|lia|specialize (IH (i + 1)); lia..]. Qed.

Lemma add_select_range c hint offsetNumber overwrite off shift :
  add_select c hint offsetNumber overwrite = Some (off, shift) →
  1 ≤ off ∧ (shift = true → off ≤ Z.of_nat (length c)).
Proof using.
  clear HB. unfold add_select. pose proof (first_unused_bounds c 1).
  destruct (_ && _) eqn:E; [apply andb_true_iff in E as [E%Z.leb_le _]|].
  - destruct overwrite.
    + destruct (Z.ltb_spec offsetNumber (Z.of_nat (length c) + 1)); [case_decide|]; naive_solver.
    + intros [= <- <-]. split; [done|]. rewrite Z.ltb_lt. lia.
  - intros [= <- <-]. split; [|done]. destruct hint; lia.
Qed.

(** The last steps of [PageAddItem]. *)
Lemma place_run p item off upper' shift size :
  page_wf BLCKSZ p → 1 ≤ off ≤ nline p + 1 → (shift = true → off ≤ nline p) →
  size = Z.of_nat (length item) → 0 < size < 2 ^ 31 →
  upper' = pd_upper p - MAXALIGN size →
  24 + 4 * new_n (nline p) off shift ≤ upper' →
  (_ ← (if shift then page_memmove (linp_offset (off + 1)) (linp_offset off)
               ((nline p + 1 - off) * SizeOfItemId) else mret tt);
   _ ← PageSetItemId off (ItemIdSetNormal upper' size);
   _ ← (if Z.of_nat (length item) <? size then undefined
        else page_write upper' (take (Z.to_nat size) item));
   phdr ← get_page;
   _ ← put_page (set_pd_upper (uint16_of upper')
         (set_pd_lower (uint16_of (24 + 4 * new_n (nline p) off shift)) phdr));
   mret off) p = Ret (off, place_page p item off upper' shift).
Proof using HB.
  intros Hok Hoff Hsh -> Hsize Hup Hroom. pose proof blcksz_bounds as [Hb _].
  pose proof (MAXALIGN_bounds (Z.of_nat (length item))) as Hal.
  pose proof Hok as [Hlen _ _ _ [Hn Hlow] Hord _ _].
  assert (0 < Z.of_nat (length item) ∧ upper' + Z.of_nat (length item) ≤ pd_upper p) as Hs by lia.
  assert (pd_upper p ≤ 24 + Z.of_nat (length (pd_body p)) ∧ pd_upper p ≤ 32768) as Hu by lia.
  pose proof (place_fits1 _ item (nline p) off (pd_upper p) upper' shift Hoff Hsh Hroom Hs Hu) as F1.
  pose proof (place_fits2 _ item (nline p) off (pd_upper p) upper' shift Hoff Hsh Hroom Hs Hu) as F2.
  pose proof (place_fits3 _ item (nline p) off (pd_upper p) upper' shift Hoff Hsh Hroom Hs Hu) as F3.
  set (b1 := if shift then _ else _) in F2, F3.
  erewrite (bind_Ret _ _ p tt (set_pd_body b1 p)).
  2: { unfold b1. destruct shift; [|by destruct p]. destruct (F1 eq_refl).
       replace (linp_offset (off + 1)) with (24 + 4 * off) by (unfold linp_offset, SizeOfPageHeaderData, SizeOfItemId; lia).
       by apply page_memmove_run. }
  erewrite bind_Ret by (by apply PageSetItemId_run).
  rewrite Z.ltb_irrefl, Nat2Z.id, firstn_all.
  erewrite bind_Ret by (by apply page_write_run).
  rewrite (bind_Ret get_page _ _ _ _ eq_refl). rewrite (bind_Ret (put_page _) _ _ _ _ eq_refl).
  rewrite !wrap_u_small by (unfold is_uint, new_n in *; destruct (_ || _); lia). done.
Qed.

(** Header fields that no operation on items changes. *)
Definition header_kept (p p' : PageData) : Prop :=
  pd_lsn p' = pd_lsn p ∧ pd_tli p' = pd_tli p ∧ pd_special p' = pd_special p ∧
  pd_pagesize_version p' = pd_pagesize_version p ∧ pd_prune_xid p' = pd_prune_xid p ∧
  ∀ i, 1 ≤ i → Z.testbit (pd_flags p') i = Z.testbit (pd_flags p) i.

(** [MaxAllocSize] of [include/utils/memutils.h]: no chunk of memory is larger. *)
Definition MaxAllocSize : Z := 2 ^ 30 - 1.

Lemma PageAddItem_spec p item offsetNumber overwrite is_heap :
  page_wf BLCKSZ p → is_uint 16 offsetNumber →
  Forall (is_uint 8) item → 0 < Z.of_nat (length item) ≤ MaxAllocSize →
  ∃ r p', PageAddItem BLCKSZ item (Z.of_nat (length item)) offsetNumber overwrite is_heap p = Ret (r, p') ∧
    page_wf BLCKSZ p' ∧ header_kept p p' ∧
    match add_item (contents p) (PageHasFreeLinePointers p) (pd_upper p - pd_lower p) item
            offsetNumber overwrite is_heap with
    | Some (off, c) =>
        r = off ∧ contents p' = c ∧
        pd_upper p' = pd_upper p - MAXALIGN (Z.of_nat (length item))
    | None =>
        r = InvalidOffsetNumber ∧ contents p' = contents p ∧
        pd_lower p' = pd_lower p ∧ pd_upper p' = pd_upper p
    end.
Proof using HB.
  intros Hok Hu Hit Hsize. pose proof (nline_bound p Hok) as Hnb. pose proof (ok_lower _ _ Hok) as [Hn Hlow].
  pose proof (MAXALIGN_bounds (Z.of_nat (length item))) as Hal. unfold MaxAllocSize in Hsize.
  unfold PageAddItem, add_item. rewrite (bind_Ret get_page _ p p p) by done.
  rewrite corrupted_pointers_ok, PageGetMaxOffsetNumber_ok by done.
  assert (OffsetNumberNext (nline p) = nline p + 1) as ->.
  { unfold OffsetNumberNext. rewrite wrap_u_small by (unfold is_uint; lia). lia. }
  destruct (PageAddItem_select_spec p offsetNumber overwrite) as (p1 & E1 & v & Hv & Hbits & ->); [done..|].
  rewrite (bind_Ret _ _ _ _ _ E1). clear E1. rewrite contents_length by done.
  set (p1 := set_pd_flags v p).
  assert (page_wf BLCKSZ p1) as Hok1 by (by apply ok_set_flags).
  assert (header_kept p p1) as Hk1 by (unfold header_kept; split_and!; done).
  destruct (add_select _ _ _ _) as [[off shift]|] eqn:Esel; [|by exists InvalidOffsetNumber, p1].
  apply add_select_range in Esel as [Hoff Hsh]. rewrite contents_length in Hsh by done.
  destruct (Z.ltb_spec (nline p + 1) off); [by exists InvalidOffsetNumber, p1|].
  destruct (is_heap && _); [by exists InvalidOffsetNumber, p1|]. cbn [orb].
  rewrite wrap_u_small, int32_small by (unfold is_uint; lia). change SizeOfItemId with 4.
  assert ((if (off =? nline p + 1) || shift then pd_lower p + 4 else pd_lower p) =
          24 + 4 * new_n (nline p) off shift) as ->.
  { unfold new_n. rewrite Hlow. destruct (_ || _); lia. }
  set (al := MAXALIGN (Z.of_nat (length item))) in *.
  assert ((pd_upper p - al <? 24 + 4 * new_n (nline p) off shift) =
          (pd_upper p - pd_lower p <? (if (off =? nline p + 1) || shift then 4 else 0) + al)) as ->.
  { apply eq_true_iff_eq. rewrite !Z.ltb_lt. unfold new_n. rewrite Hlow. destruct (_ || _); lia. }
  destruct (Z.ltb_spec (pd_upper p - pd_lower p) ((if (off =? nline p + 1) || shift then 4 else 0) + al))
    as [|Hroom]; [by exists InvalidOffsetNumber, p1|].
  assert (24 + 4 * new_n (nline p) off shift ≤ pd_upper p - al).
  { unfold new_n. destruct (_ || _); lia. }
  destruct (place_page_ok p1 item off (pd_upper p - al) shift) as [Hok2 Hc]; [done..|lia|done|done|].
  exists off, (place_page p1 item off (pd_upper p - al) shift). split.
  { apply (place_run p1 item off (pd_upper p - al) shift (Z.of_nat (length item))); try done; lia. }
  split; [done|]. split; [unfold header_kept; split_and!; done|]. done.
Qed.

(** ** Compaction *)

(** The items of [L] lie one below the other, below [upper] and not below [lo]. *)
Fixpoint stacked (L : list itemIdSortData) (upper lo : Z) : Prop :=
  match L with
  | [] => lo ≤ upper
  | e :: L => 0 < alignedlen e ∧ itemoff e + alignedlen e ≤ upper ∧ stacked L (itemoff e) lo
  end.

(** Where compaction puts them. *)
Fixpoint finals (L : list itemIdSortData) (upper : Z) : list (itemIdSortData * Z) :=
  match L with
  | [] => []
  | e :: L => (e, upper - alignedlen e) :: finals L (upper - alignedlen e)
  end.
Definition total (L : list itemIdSortData) : Z := foldr (λ e t, alignedlen e + t) 0 L.

Lemma stacked_mono L u u' lo : u ≤ u' → stacked L u lo → stacked L u' lo.
Proof using. clear HB. destruct L; simpl; [lia|]. intros ? (? & ? & ?). split_and!; [done|lia|done]. Qed.

Lemma stacked_item L u lo e :
  stacked L u lo → e ∈ L → 0 < alignedlen e ∧ lo ≤ itemoff e ∧ itemoff e + alignedlen e ≤ u.
Proof using.
  clear HB. revert u. induction L as [|e' L IH]; intros u Hs He; [by apply not_elem_of_nil in He|].
  destruct Hs as (Ha & Hu & Hs). apply elem_of_cons in He as [->|He].
  - split; [done|]. split; [|done]. clear IH Hu. revert Hs. generalize (itemoff e') as u'.
    induction L as [|e2 L IH2]; simpl; [done|]. intros u' (? & ? & Hs). specialize (IH2 _ Hs). lia.
  - destruct (IH _ Hs He) as (? & ? & ?). lia.
Qed.

Lemma stacked_total L u lo : stacked L u lo → 0 ≤ total L ∧ lo + total L ≤ u.
Proof using.
  clear HB. revert u. induction L as [|e L IH]; intros u; simpl; [lia|].
  intros (? & ? & Hs). specialize (IH _ Hs). lia.
Qed.

Lemma set_lp_off_ok u lp : itemid_ok lp → itemid_ok (set_lp_off u lp).
Proof using. clear HB. intros (? & ? & ?). unfold itemid_ok. simpl. split_and!; try done. by apply wrap_u_bound. Qed.

(** The outcome of the loop on the bytes [b] of the page. *)
Record compacted (install : bool) (nl : Z) (L : list itemIdSortData) (upper : Z) (b b' : list Z)
    : Prop := {
  cp_length : length b' = length b;
  cp_bytes : Forall (is_uint 8) b → Forall (is_uint 8) b';
  cp_above : same b b' upper (24 + Z.of_nat (length b));
  cp_data : ∀ e u, (e, u) ∈ finals L upper →
    body_read b' u (alignedlen e) = body_read b (itemoff e) (alignedlen e);
  cp_linp : ∀ e u, (e, u) ∈ finals L upper →
    linp b' (offsetindex e) =
      set_lp_off u (if install then olditemid e else linp b (offsetindex e));
  cp_other : ∀ i, 0 ≤ i < nl → (∀ e, e ∈ L → offsetindex e ≠ i) → linp b' i = linp b i }.

(** One pass of the loop. *)
Lemma compactify_pass (install : bool) nl lo (e : itemIdSortData) u (p : PageData) :
  let b := pd_body p in
  24 + 4 * nl ≤ lo → 0 ≤ offsetindex e < nl → 0 ≤ alignedlen e → itemid_ok (olditemid e) →
  lo ≤ itemoff e ≤ u → u + alignedlen e ≤ 24 + Z.of_nat (length b) →
  let b1 := body_write b u (body_read b (itemoff e) (alignedlen e)) in
  let lp := set_lp_off u (if install then olditemid e else linp b (offsetindex e)) in
  ∃ b2, (∀ (k : unit → cmd PageData Z),
    (_ ← page_memmove u (itemoff e) (alignedlen e);
     _ ← (if install then PageSetItemId (offsetindex e + 1) (olditemid e) else mret tt);
     lp ← PageGetItemId (offsetindex e + 1);
     _ ← PageSetItemId (offsetindex e + 1) (set_lp_off u lp);
     k tt) p = k tt (set_pd_body b2 p)) ∧
    length b2 = length b ∧ (Forall (is_uint 8) b → Forall (is_uint 8) b2) ∧
    (∀ hi, same b1 b2 lo hi) ∧
    (∀ i, 0 ≤ i < nl → linp b2 i = if decide (offsetindex e = i) then lp else linp b i).
Proof using.
  clear HB. intros b Hlo Hi Hal Hold Hoff Hu b1 lp.
  assert (fits b (itemoff e) (alignedlen e)) as F1 by (unfold fits; lia).
  assert (fits b u (alignedlen e)) as F2 by (unfold fits; lia).
  assert (Z.of_nat (length (body_read b (itemoff e) (alignedlen e))) = alignedlen e) as Hrl
    by (rewrite body_read_length by done; lia).
  assert (length b1 = length b) as L1 by (apply body_write_length; by rewrite Hrl).
  set (o := 24 + 4 * offsetindex e).
  assert (fits b1 o 4) as F3 by (unfold fits; rewrite L1; unfold o; lia).
  set (b1' := if install then body_write b1 o (itemid_encode (olditemid e)) else b1).
  assert (length b1' = length b1) as L1'.
  { unfold b1'. destruct install; [|done]. apply body_write_length. by rewrite itemid_encode_length. }
  assert (fits b1' o 4) as F4 by (unfold fits; rewrite L1'; apply F3).
  assert (linp b1 (offsetindex e) = linp b (offsetindex e)) as E1.
  { apply linp_same; [lia|]. apply body_write_same; rewrite ?Hrl; [done|lia|lia]. }
  assert (linp b1' (offsetindex e) = if install then olditemid e else linp b (offsetindex e)) as E2.
  { unfold b1'. destruct install; [|done]. unfold o. rewrite linp_write by (done || lia).
    by rewrite decide_True. }
  exists (body_write b1' o (itemid_encode lp)).
  assert (itemid_ok lp) as Hlp by (apply set_lp_off_ok; destruct install; [done|apply linp_ok]).
  split_and!.
  - intros k. erewrite bind_Ret by (by apply page_memmove_run).
    erewrite (bind_Ret _ _ _ tt (set_pd_body b1' p)).
    2: { unfold b1'. destruct install; [|done].
         erewrite PageSetItemId_run; rewrite Z.add_simpl_r; done. }
    rewrite (bind_Ret _ _ _ (linp b1' (offsetindex e)) (set_pd_body b1' p)).
    2: { rewrite PageGetItemId_run; rewrite Z.add_simpl_r; done. }
    erewrite bind_Ret by (apply PageSetItemId_run; rewrite Z.add_simpl_r; done).
    rewrite Z.add_simpl_r, E2. done.
  - rewrite body_write_length by (by rewrite itemid_encode_length). congruence.
  - intros HF. apply body_write_bytes; [|apply le_encode_bytes].
    assert (Forall (is_uint 8) b1) by (apply body_write_bytes; [done|by apply body_read_bytes]).
    unfold b1'. destruct install; [|done]. by apply body_write_bytes; [|apply le_encode_bytes].
  - intros hi. apply (same_trans _ b1').
    + unfold b1'. destruct install; [|done]. apply body_write_same; rewrite ?itemid_encode_length; [done|unfold o; lia..].
    + apply body_write_same; rewrite ?itemid_encode_length; [done|unfold o; lia..].
  - intros i Hin. unfold o. rewrite linp_write by (done || lia). case_decide as Hd; [done|].
    transitivity (linp b1 i).
    + unfold b1'. destruct install; [|done]. unfold o. rewrite linp_write by (done || lia).
      by rewrite decide_False.
    + apply linp_same; [lia|]. apply body_write_same; rewrite ?Hrl; [done|lia|lia].
Qed.

Lemma finals_below L upper lo e u :
  stacked L upper lo → (e, u) ∈ finals L upper →
  e ∈ L ∧ itemoff e ≤ u ∧ lo ≤ u ∧ u + alignedlen e ≤ upper.
Proof using.
  clear HB. revert upper. induction L as [|e' L IH]; intros upper Hs; [by intros ?%not_elem_of_nil|].
  pose proof (stacked_item _ _ _ e' Hs (list_elem_of_here _ _)). destruct Hs as (? & ? & Hs).
  simpl. rewrite elem_of_cons. intros [[= -> ->]|Hin].
  - split; [apply list_elem_of_here|lia].
  - destruct (IH (upper - alignedlen e')) as (? & ? & ? & ?); [|done|].
    { eapply stacked_mono; [|done]. lia. }
    split; [by apply list_elem_of_further|lia].
Qed.

Lemma compactify_spec install nl lo L upper p :
  24 + 4 * nl ≤ lo → stacked L upper lo → upper ≤ 24 + Z.of_nat (length (pd_body p)) →
  NoDup (offsetindex <$> L) → Forall (λ e, 0 ≤ offsetindex e < nl ∧ itemid_ok (olditemid e)) L →
  ∃ b', compactify install L upper p = Ret (upper - total L, set_pd_body b' p) ∧
    compacted install nl L upper (pd_body p) b'.
Proof using.
  clear HB. intros Hlo. revert upper p. induction L as [|e L IH]; intros upper p Hst Hup Hnd Hall.
  { exists (pd_body p). split; [simpl; rewrite Z.sub_0_r; by destruct p|].
    split; try done; intros ?? []%not_elem_of_nil. }
  inversion Hnd as [|?? Hne Hnd']; subst. inversion Hall as [|?? [Hidx Hold] Hall']; subst.
  pose proof (stacked_item _ _ _ e Hst (list_elem_of_here _ _)) as (Hal & Hloe & _).
  destruct Hst as (_ & Heu & Hst). set (u := upper - alignedlen e).
  destruct (compactify_pass install nl lo e u p) as (b2 & Hrun & HL2 & HF2 & HS2 & Hlinp2);
    [done|done|lia|done|lia|lia|].
  destruct (IH u (set_pd_body b2 p)) as (b' & Erun & [CL CB CA CD CP CO]); [| |done|done|].
  { eapply stacked_mono; [|done]. lia. }
  { simpl. rewrite HL2. lia. }
  simpl in *. rewrite HL2 in *. set (b := pd_body p) in *.
  assert (fits b (itemoff e) (alignedlen e)) as F1 by (unfold fits; lia).
  assert (Z.of_nat (length (body_read b (itemoff e) (alignedlen e))) = alignedlen e) as Hrl
    by (rewrite body_read_length by done; lia).
  assert (fits b u (Z.of_nat (length (body_read b (itemoff e) (alignedlen e))))) as F2
    by (unfold fits; lia).
  set (b1 := body_write b u _) in *.
  assert (∀ e' u', (e', u') ∈ finals L u → offsetindex e' ≠ offsetindex e ∧
            itemoff e' + alignedlen e' ≤ itemoff e ∧ lo ≤ itemoff e' ∧ 0 < alignedlen e' ∧
            0 ≤ offsetindex e' < nl) as Hlower.
  { intros e' u' Hin. apply (finals_below _ _ lo) in Hin as [Hin _]; [|eapply stacked_mono; [|done]; lia].
    split; [intros E; apply Hne; rewrite <- E; by apply list_elem_of_fmap_2|].
    destruct (stacked_item _ _ _ _ Hst Hin) as (? & ? & ?).
    rewrite Forall_forall in Hall'. destruct (Hall' _ Hin). lia. }
  exists b'. split.
  { etrans; [apply (Hrun (λ _, compactify install L u))|]. cbv beta. rewrite Erun.
    f_equal. f_equal. lia. }
  split.
  - congruence.
  - auto.
  - apply (same_trans _ b2); [|eapply same_mono; [| |done]; lia].
    apply (same_trans _ b1); [apply body_write_same; [done|lia|lia]|]. eapply same_mono; [| |apply (HS2 (24 + Z.of_nat (length b)))]; lia.
  - intros e' u'. cbn [finals]. fold u. rewrite elem_of_cons. intros [[= -> ->]|Hin].
    + transitivity (body_read b2 u (alignedlen e)).
      { apply body_read_same; [lia..|]. eapply same_mono; [| |done]; lia. }
      transitivity (body_read b1 u (alignedlen e)).
      { apply body_read_same; [lia..|]. eapply same_mono; [| |apply (HS2 (24 + Z.of_nat (length b)))]; lia. }
      rewrite <- Hrl at 1. by apply body_read_write.
    + rewrite (CD _ _ Hin). destruct (Hlower _ _ Hin) as (_ & ? & ? & ? & _).
      transitivity (body_read b1 (itemoff e') (alignedlen e')).
      { apply body_read_same; [lia..|]. eapply same_mono; [| |apply (HS2 (24 + Z.of_nat (length b)))]; lia. }
      apply body_read_same; [lia..|]. apply body_write_same; [done|lia|lia].
  - intros e' u'. cbn [finals]. fold u. rewrite elem_of_cons. intros [[= -> ->]|Hin].
    + rewrite CO; [rewrite Hlinp2 by done; by rewrite decide_True|done|].
      intros e' He' E. apply Hne. rewrite <- E. by apply list_elem_of_fmap_2.
    + rewrite (CP _ _ Hin). destruct (Hlower _ _ Hin) as (? & _ & _ & _ & ?).
      rewrite Hlinp2, decide_False by (done || lia). done.
  - intros i Hi Hnot. rewrite CO; [|done|].
    + rewrite Hlinp2 by done. rewrite decide_False; [done|]. apply Hnot, list_elem_of_here.
    + intros e' He'. apply Hnot. by apply list_elem_of_further.
Qed.

(** ** From the sorted items to the new layout *)

#[local] Instance itemoffcompare_comparator : Comparator itemoffcompare.
Proof using. clear HB. split; unfold itemoffcompare; intros; lia. Qed.

(** An entry describes the item of the line pointer it was made from. *)
Definition entry_ok (upper special : Z) (e : itemIdSortData) : Prop :=
  itemid_ok (olditemid e) ∧ has_storage (olditemid e) ∧ lp_flags (olditemid e) ≠ LP_UNUSED ∧
  itemoff e = lp_off (olditemid e) ∧ alignedlen e = MAXALIGN (lp_len (olditemid e)) ∧
  upper ≤ itemoff e ∧ itemoff e + alignedlen e ≤ special.

Definition apart (e e' : itemIdSortData) : Prop :=
  itemoff e + alignedlen e ≤ itemoff e' ∨ itemoff e' + alignedlen e' ≤ itemoff e.

Lemma entry_len upper special e :
  entry_ok upper special e →
  0 < lp_len (olditemid e) ∧ lp_len (olditemid e) ≤ alignedlen e < 2 ^ 16 ∧ aligned (alignedlen e).
Proof using.
  clear HB. intros ((_ & _ & Hl) & Hs & _ & _ & -> & _). unfold has_storage, is_uint in *.
  pose proof (MAXALIGN_bounds (lp_len (olditemid e))). split; [lia|]. split; [lia|].
  apply aligned_MAXALIGN. lia.
Qed.

Lemma sorted_stacked L upper special :
  StronglySorted (λ x y, itemoffcompare x y ≤ 0) L → NoDup L → upper ≤ special →
  Forall (entry_ok upper special) L → (∀ e e', e ∈ L → e' ∈ L → e ≠ e' → apart e e') →
  stacked L special upper.
Proof using.
  clear HB. intros Hso. revert special. induction Hso as [|e L Hso IH Hle]; intros special Hnd Hus Hok Hap; [done|].
  inversion Hnd as [|?? Hne Hnd']; subst. inversion Hok as [|?? He Hok']; subst.
  pose proof (entry_len _ _ _ He) as (? & ? & _).
  destruct He as (_ & _ & _ & _ & _ & Hup & Hsp). simpl. split_and!; [lia|done|].
  apply IH; [done|done| |].
  - rewrite Forall_forall in *. intros e' He'. pose proof (Hok' _ He') as Hok2. specialize (Hle _ He').
    pose proof (entry_len _ _ _ Hok2) as (? & ? & _).
    destruct Hok2 as (? & ? & ? & ? & ? & ? & ?). unfold entry_ok. split_and!; try done.
    unfold itemoffcompare in Hle.
    destruct (Hap e e') as [|]; [apply list_elem_of_here|by apply list_elem_of_further|by intros ->|lia|done].
  - intros e1 e2 H1 H2. apply Hap; by apply list_elem_of_further.
Qed.

Lemma total_perm L L' : L ≡ₚ L' → total L = total L'.
Proof using. clear HB. induction 1; simpl; lia. Qed.

Lemma finals_exists L upper e : e ∈ L → ∃ u, (e, u) ∈ finals L upper.
Proof using.
  clear HB. revert upper. induction L as [|e' L IH]; intros upper He; [by apply not_elem_of_nil in He|].
  simpl. apply elem_of_cons in He as [->|He].
  - eexists. apply list_elem_of_here.
  - destruct (IH (upper - alignedlen e') He) as [u Hu]. exists u. by apply list_elem_of_further.
Qed.

Lemma finals_place L upper lo e u :
  stacked L upper lo → (∀ e, e ∈ L → aligned (alignedlen e)) → aligned upper → (e, u) ∈ finals L upper →
  aligned u ∧ upper - total L ≤ u ∧ u + alignedlen e ≤ upper.
Proof using.
  clear HB. revert upper. induction L as [|e' L IH]; intros upper Hs Hal Hu; [by intros ?%not_elem_of_nil|].
  pose proof (stacked_total _ _ _ Hs) as Ht. destruct Hs as (? & ? & Hs). pose proof (stacked_total _ _ _ Hs).
  simpl in *. rewrite elem_of_cons.
  assert (aligned (upper - alignedlen e')) by (apply aligned_sub; [done|apply Hal, list_elem_of_here]).
  intros [[= -> ->]|Hin].
  - split; [done|]. lia.
  - destruct (IH (upper - alignedlen e')) as (? & ? & ?); [|by intros; apply Hal; apply list_elem_of_further|done|done|].
    { eapply stacked_mono; [|done]. lia. }
    split; [done|]. lia.
Qed.

Lemma finals_apart L upper lo e u e' u' :
  stacked L upper lo → e ≠ e' → (e, u) ∈ finals L upper → (e', u') ∈ finals L upper →
  u + alignedlen e ≤ u' ∨ u' + alignedlen e' ≤ u.
Proof using.
  clear HB. revert upper. induction L as [|e0 L IH]; intros upper Hs Hne; [by intros ?%not_elem_of_nil|].
  destruct Hs as (? & ? & Hs).
  assert (stacked L (upper - alignedlen e0) lo) as Hs' by (eapply stacked_mono; [|done]; lia).
  simpl. rewrite !elem_of_cons. intros [[= -> ->]|Hin] [[= -> ->]|Hin']; [done| | |eauto].
  - right. apply (finals_below _ _ lo) in Hin'; [lia|done].
  - left. apply (finals_below _ _ lo) in Hin; [lia|done].
Qed.

(** The line pointers after a compaction describe the new places. *)
Lemma compacted_layout n (f : Z → ItemIdData) L lo special :
  stacked L special lo → NoDup (offsetindex <$> L) → Forall (entry_ok lo special) L →
  0 ≤ lo → aligned special → special ≤ 32768 →
  (∀ e u, (e, u) ∈ finals L special → f (offsetindex e) = set_lp_off u (olditemid e)) →
  (∀ i, 0 ≤ i < n → has_storage (f i) → ∃ e, e ∈ L ∧ offsetindex e = i) →
  (∀ i, 0 ≤ i < n → lp_flags (f i) = LP_UNUSED → lp_len (f i) = 0) →
  layout n f (special - total L) special.
Proof using.
  clear HB. intros Hst Hnd Hok Hlo Hals Hsp Hf Hex Hun. rewrite Forall_forall in Hok.
  assert (∀ e, e ∈ L → aligned (alignedlen e)) as Hal by (intros e He; by apply (entry_len lo special), Hok).
  assert (∀ i, 0 ≤ i < n → has_storage (f i) → ∃ e u, (e, u) ∈ finals L special ∧ offsetindex e = i ∧
      lp_off (f i) = u ∧ MAXALIGN (lp_len (f i)) = alignedlen e ∧ aligned u ∧
      special - total L ≤ u ∧ u + alignedlen e ≤ special) as Hplace.
  { intros i Hi Hs. destruct (Hex i Hi Hs) as (e & He & <-).
    destruct (finals_exists L special e He) as [u Hu]. exists e, u.
    destruct (finals_place _ _ _ _ _ Hst Hal Hals Hu) as (? & ? & ?). split; [done|]. split; [done|].
    rewrite (Hf _ _ Hu). simpl. pose proof (Hok _ He) as (_ & _ & _ & _ & -> & _).
    pose proof (entry_len _ _ _ (Hok _ He)) as (? & ? & ?). pose proof (stacked_total _ _ _ Hst).
    rewrite wrap_u_small by (unfold is_uint; lia). pose proof (Hok _ He) as (_ & _ & _ & _ & <- & _). done. }
  split; [done| |].
  - intros i Hi Hs. destruct (Hplace i Hi Hs) as (e & u & _ & _ & -> & -> & ? & ? & ?). done.
  - intros i j Hi Hj Hij Hsi Hsj.
    destruct (Hplace i Hi Hsi) as (e & u & Hin & He & -> & -> & _).
    destruct (Hplace j Hj Hsj) as (e' & u' & Hin' & He' & -> & -> & _).
    eapply finals_apart; [done| |done|done]. congruence.
Qed.

Lemma body_read_prefix b off n m : 0 ≤ n ≤ m → body_read b off n = take (Z.to_nat n) (body_read b off m).
Proof using. clear HB. intros. unfold body_read. rewrite take_take. f_equal. lia. Qed.

Lemma compacted_slot b b' lo special e u :
  entry_ok lo special e → 0 ≤ lo → 0 ≤ u → u + alignedlen e ≤ 32768 →
  body_read b' u (alignedlen e) = body_read b (itemoff e) (alignedlen e) →
  slot_of b' (set_lp_off u (olditemid e)) = slot_of b (olditemid e).
Proof using.
  clear HB. intros He Hlo Hu Hu2 Hr. pose proof (entry_len _ _ _ He) as (? & ? & _).
  destruct He as (Hok & _ & _ & Hoff & _). apply slot_of_moved; try done.
  { intros []. unfold has_storage. lia. }
  intros _. cbn [set_lp_off lp_off]. rewrite wrap_u_small by (unfold is_uint; lia).
  rewrite !(body_read_prefix _ _ (lp_len (olditemid e)) (alignedlen e)) by lia. by rewrite Hr, Hoff.
Qed.

(** ** Defragmentation *)

Definition entry_at (b : list Z) (k : Z) : itemIdSortData :=
  mkItemIdSort k (lp_off (linp b k)) (MAXALIGN (lp_len (linp b k))) (linp b k).
Fixpoint linp_entries (b : list Z) (n : nat) (i : Z) : list itemIdSortData :=
  match n with
  | O => []
  | S n' =>
      (if decide (has_storage (linp b i)) then [entry_at b i] else []) ++ linp_entries b n' (i + 1)
  end.
Fixpoint unused_count (b : list Z) (n : nat) (i : Z) : Z :=
  match n with
  | O => 0
  | S n' => (if lp_flags (linp b i) =? LP_UNUSED then 1 else 0) + unused_count b n' (i + 1)
  end.

Lemma unused_count_ext b b' n i :
  (∀ k, i ≤ k < i + Z.of_nat n → linp b' k = linp b k) → unused_count b' n i = unused_count b n i.
Proof using.
  clear HB. revert i. induction n as [|n IH]; intros i H; cbn [unused_count]; [done|].
  rewrite IH by (intros; apply H; lia). by rewrite H by lia.
Qed.

Lemma unused_count_pos b n i :
  0 ≤ unused_count b n i ∧
  (0 < unused_count b n i ↔ ∃ k, i ≤ k < i + Z.of_nat n ∧ lp_flags (linp b k) = LP_UNUSED).
Proof using.
  clear HB. revert i. induction n as [|n IH]; intros i; cbn [unused_count].
  { split; [lia|]. split; [lia|]. intros (k & ? & _). lia. }
  destruct (IH (i + 1)) as [Hn Hp]. destruct (Z.eqb_spec (lp_flags (linp b i)) LP_UNUSED).
  - split; [lia|]. split; [|lia]. intros _. exists i. split; [lia|done].
  - split; [lia|]. rewrite Z.add_0_l, Hp. split.
    + intros (k & ? & ?). exists k. split; [lia|done].
    + intros (k & ? & ?). exists k. split; [|done]. destruct (decide (k = i)); [congruence|lia].
Qed.

Lemma elem_of_entries b n i e :
  e ∈ linp_entries b n i ↔
  ∃ k, i ≤ k < i + Z.of_nat n ∧ has_storage (linp b k) ∧ e = entry_at b k.
Proof using.
  clear HB. revert i. induction n as [|n IH]; intros i; simpl.
  - rewrite elem_of_nil. naive_solver lia.
  - rewrite elem_of_app, IH. split.
    + intros [He|(k & ? & ? & ->)].
      * case_decide; [|by apply not_elem_of_nil in He]. apply list_elem_of_singleton in He as ->.
        exists i. split; [lia|done].
      * exists k. split; [lia|done].
    + intros (k & Hk & Hs & ->). destruct (decide (k = i)) as [->|].
      * left. rewrite decide_True by done. apply list_elem_of_here.
      * right. exists k. split; [lia|done].
Qed.

Lemma entries_NoDup b n i : NoDup (offsetindex <$> linp_entries b n i).
Proof using.
  clear HB. revert i. induction n as [|n IH]; intros i; simpl; [constructor|].
  case_decide; simpl; [|apply IH]. constructor; [|apply IH].
  intros (e & He & (k & ? & ? & ->)%elem_of_entries)%list_elem_of_fmap. simpl in He. lia.
Qed.

Lemma entries_ext b b' n i :
  (∀ k, i ≤ k < i + Z.of_nat n → linp b' k = linp b k ∨ ¬ has_storage (linp b k) ∧ ¬ has_storage (linp b' k)) →
  linp_entries b' n i = linp_entries b n i.
Proof using.
  clear HB. revert i. induction n as [|n IH]; intros i H; cbn [linp_entries]; [done|].
  rewrite IH by (intros; apply H; lia). f_equal.
  destruct (H i ltac:(lia)) as [E|[H1 H2]].
  - unfold entry_at. by rewrite E.
  - by rewrite !decide_False.
Qed.

Lemma entries_length b n i : (length (linp_entries b n i) ≤ n)%nat.
Proof using.
  clear HB. revert i. induction n as [|n IH]; intros i; cbn [linp_entries]; [simpl; lia|].
  rewrite length_app. specialize (IH (i + 1)). case_decide; simpl; lia.
Qed.

Lemma NoDup_fmap_inv {A B} (f : A → B) l : NoDup (f <$> l) → NoDup l.
Proof using. clear HB. apply NoDup_fmap_1. Qed.

(** The bytes after the first loop: unused line pointers are reset. *)
Record reset_from (i nl : Z) (b b' : list Z) : Prop := {
  rs_length : length b' = length b;
  rs_bytes : Forall (is_uint 8) b → Forall (is_uint 8) b';
  rs_linp : ∀ k, 0 ≤ k < nl → linp b' k =
     if decide (i ≤ k ∧ lp_flags (linp b k) = LP_UNUSED) then ItemIdSetUnused else linp b k;
  rs_same : ∀ hi, same b b' (24 + 4 * nl) hi }.

(** The outcome for one line pointer. *)
Record reset_one (j nl : Z) (b b1 : list Z) : Prop := {
  r1_length : length b1 = length b;
  r1_bytes : Forall (is_uint 8) b → Forall (is_uint 8) b1;
  r1_linp : ∀ k, 0 ≤ k < nl → linp b1 k =
     if decide (j = k ∧ lp_flags (linp b k) = LP_UNUSED) then ItemIdSetUnused else linp b k;
  r1_same : ∀ hi, same b b1 (24 + 4 * nl) hi }.

Lemma reset_one_from j nl b b1 b' :
  reset_one j nl b b1 → reset_from (j + 1) nl b1 b' → reset_from j nl b b'.
Proof using.
  clear HB. intros [L1 B1 K1 S1] [L2 B2 K2 S2]. split; [congruence|auto| |].
  - intros k Hk. rewrite K2 by done. rewrite K1 by done.
    destruct (decide (j = k ∧ _)) as [[-> Hf]|Hn].
    + rewrite (decide_False (P := k + 1 ≤ k ∧ _)) by lia. by rewrite decide_True by (split; [lia|done]).
    + destruct (decide (j + 1 ≤ k ∧ _)) as [[? ?]|Hd], (decide (j ≤ k ∧ _)) as [[? ?]|Hd']; auto.
      * destruct Hd'. split; [lia|done].
      * destruct (decide (j = k)); [by destruct Hn|]. destruct Hd. split; [lia|done].
  - intros hi. by eapply same_trans.
Qed.

Lemma repair_scan_spec n i ns nu nl p :
  1 ≤ i → i - 1 + Z.of_nat n = nl → 24 + 4 * nl ≤ 24 + Z.of_nat (length (pd_body p)) →
  (∀ k, 0 ≤ k < nl → lp_flags (linp (pd_body p) k) = LP_UNUSED → lp_len (linp (pd_body p) k) = 0) →
  ∃ b', repair_scan n i ns nu p =
      Ret ((ns + Z.of_nat (length (linp_entries (pd_body p) n (i - 1))),
            nu + unused_count (pd_body p) n (i - 1)), set_pd_body b' p) ∧
    reset_from (i - 1) nl (pd_body p) b'.
Proof using.
  clear HB. revert i ns nu p. induction n as [|n IH]; intros i ns nu p Hi Hn Hfit Hu.
  { exists (pd_body p). split; [simpl; rewrite !Z.add_0_r; by destruct p|].
    split; [done|done| |done]. intros k Hk. rewrite decide_False; [done|lia]. }
  cbn [repair_scan]. assert (fits (pd_body p) (24 + 4 * (i - 1)) 4) as F by (unfold fits; lia).
  rewrite (bind_Ret _ _ _ _ _ (PageGetItemId_run p i F)). cbn [linp_entries unused_count].
  set (lp := linp (pd_body p) (i - 1)) in *. replace (i - 1 + 1) with (i + 1 - 1) by lia.
  unfold ItemIdIsUsed. destruct (Z.eqb_spec (lp_flags lp) LP_UNUSED) as [Ef|Ef]; cbn [negb].
  - rewrite (bind_Ret _ _ _ _ _ (PageSetItemId_run p i _ F)). set (b1 := body_write _ _ _).
    assert (reset_one (i - 1) nl (pd_body p) b1) as H1.
    { split.
      - apply body_write_length. by rewrite itemid_encode_length.
      - intros. apply body_write_bytes; [done|apply le_encode_bytes].
      - intros k Hk. unfold b1. rewrite linp_write; [|done|vm_compute; intuition congruence|lia].
        destruct (decide (i - 1 = k)) as [<-|].
        + by rewrite decide_True.
        + by rewrite decide_False by naive_solver.
      - intros hi. apply body_write_same; rewrite ?itemid_encode_length; [done|lia|lia]. }
    assert (∀ k, i + 1 - 1 ≤ k < nl → linp b1 k = linp (pd_body p) k) as Hk1.
    { intros k Hk. rewrite (r1_linp _ _ _ _ H1) by lia. apply decide_False. lia. }
    destruct (IH (i + 1) ns (nu + 1) (set_pd_body b1 p)) as (b' & Er & HR);
      cbn [pd_body set_pd_body] in *; [lia|lia|rewrite (r1_length _ _ _ _ H1); lia| |].
    { intros k Hk. rewrite (r1_linp _ _ _ _ H1) by lia. case_decide; [done|auto]. }
    exists b'. split; [|apply (reset_one_from _ _ _ b1); [done|by replace (i - 1 + 1) with (i + 1 - 1) by lia]].
    assert (lp_len lp = 0) by (apply Hu; [lia|done]).
    rewrite Er, (decide_False (P := has_storage lp)) by (unfold has_storage; lia). cbn [app].
    rewrite (entries_ext (pd_body p)), (unused_count_ext (pd_body p)) by (intros; try left; apply Hk1; lia).
    do 3 f_equal. lia.
  - destruct (IH (i + 1) (if ItemIdHasStorage lp then ns + 1 else ns) nu p) as (b' & Er & HR); [lia|lia|lia|done|].
    exists b'. split.
    + rewrite Er. do 3 f_equal. rewrite length_app, Nat2Z.inj_add.
      unfold ItemIdHasStorage, has_storage_dec, has_storage. destruct (Z.eqb_spec (lp_len lp) 0).
      * rewrite decide_False by auto. simpl. lia.
      * rewrite decide_True by done. simpl. lia.
    + apply (reset_one_from _ _ _ (pd_body p)); [|by replace (i - 1 + 1) with (i + 1 - 1) by lia].
      split; [done|done| |done]. intros k Hk. rewrite decide_False; [done|]. intros [<- ?]. done.
Qed.

Lemma repair_collect_spec n i upper special tot p :
  0 ≤ i → 24 + 4 * (i + Z.of_nat n) ≤ 24 + Z.of_nat (length (pd_body p)) →
  (∀ k, i ≤ k < i + Z.of_nat n → has_storage (linp (pd_body p) k) →
     upper ≤ lp_off (linp (pd_body p) k) < special) →
  repair_collect n i upper special tot p =
    Ret ((linp_entries (pd_body p) n i, tot + total (linp_entries (pd_body p) n i)), p).
Proof using.
  clear HB. revert i tot. induction n as [|n IH]; intros i tot Hi Hf Hk; cbn [repair_collect].
  { by rewrite Z.add_0_r. }
  rewrite (bind_Ret _ _ _ _ _ (PageGetItemId_run p (i + 1) ltac:(unfold fits; lia))).
  rewrite Z.add_simpl_r. specialize (IH (i + 1)). cbn [linp_entries]. set (lp := linp (pd_body p) i) in *.
  unfold ItemIdHasStorage. destruct (Z.eqb_spec (lp_len lp) 0) as [E|E]; cbn [negb].
  - rewrite (decide_False (P := has_storage lp)) by (by intros []). apply IH; [lia|lia|]. intros. apply Hk; [lia|done].
  - rewrite (decide_True (P := has_storage lp)) by done. unfold ItemIdGetOffset, ItemIdGetLength.
    specialize (Hk i ltac:(lia) E) as Hki. fold lp in Hki.
    destruct (Z.ltb_spec (lp_off lp) upper), (Z.leb_spec special (lp_off lp)); cbn [orb]; try lia.
    erewrite bind_Ret; [|apply IH; [lia|lia|intros; apply Hk; [lia|done]]].
    unfold mret, cmd_ret. unfold total. simpl. fold (total (linp_entries (pd_body p) n (i + 1))).
    do 3 f_equal. lia.
Qed.

(** The entries of a well-formed page. *)
Lemma entries_ok p :
  page_wf BLCKSZ p → let L := linp_entries (pd_body p) (Z.to_nat (nline p)) 0 in
  Forall (entry_ok (pd_upper p) (pd_special p)) L ∧
  (∀ e e', e ∈ L → e' ∈ L → e ≠ e' → apart e e') ∧
  Forall (λ e, 0 ≤ offsetindex e < nline p ∧ linp (pd_body p) (offsetindex e) = olditemid e) L.
Proof using.
  clear HB. intros Hok L. split_and!.
  - apply Forall_forall. intros e (k & Hk & Hs & ->)%elem_of_entries.
    destruct (ok_item p k Hok ltac:(lia) Hs) as (? & ? & ? & ? & ? & ?).
    unfold entry_ok, entry_at. simpl. split_and!; try done; [apply linp_ok|].
    intros Hf. apply Hs. apply (lay_unused _ _ _ _ (ok_layout _ _ Hok)); [lia|done].
  - intros e e' (k & Hk & Hs & ->)%elem_of_entries (k' & Hk' & Hs' & ->)%elem_of_entries Hne.
    unfold apart, entry_at. simpl. apply (lay_apart _ _ _ _ (ok_layout _ _ Hok)); [lia|lia| |done|done].
    by intros ->.
  - apply Forall_forall. intros e (k & Hk & Hs & ->)%elem_of_entries. simpl. split; [lia|done].
Qed.

(** The aligned length of the item of a slot. *)
Definition slot_space (s : slot) : Z :=
  match s with Stored _ bytes => MAXALIGN (Z.of_nat (length bytes)) | _ => 0 end.
Definition space_used (c : list slot) : Z := foldr (λ s t, slot_space s + t) 0 c.

Lemma entries_space p :
  page_wf BLCKSZ p → total (linp_entries (pd_body p) (Z.to_nat (nline p)) 0) = space_used (contents p).
Proof using.
  clear HB. intros Hok. unfold contents. pose proof (ok_lower _ _ Hok) as [Hn _].
  replace (nline p) with (Z.of_nat (Z.to_nat (nline p))) at 2 by lia.
  assert (∀ n i, 0 ≤ i → i + Z.of_nat n ≤ nline p →
    total (linp_entries (pd_body p) n i) =
    space_used ((λ k, slot_of (pd_body p) (linp (pd_body p) k)) <$> seqZ i (Z.of_nat n))) as H.
  { induction n as [|n IH]; intros i Hi Hin; [done|].
    rewrite seqZ_cons by lia. replace (Z.pred (Z.of_nat (S n))) with (Z.of_nat n) by lia.
    replace (Z.succ i) with (i + 1) by lia. rewrite fmap_cons. cbn [linp_entries].
    unfold space_used. cbn [foldr]. fold (space_used ((λ k, slot_of (pd_body p) (linp (pd_body p) k)) <$> seqZ (i + 1) (Z.of_nat n))).
    rewrite <- IH by lia. case_decide as Hs.
    - destruct (ok_item p i Hok ltac:(lia) Hs) as (Hl & _ & _ & Hal & _ & Hf).
      assert (lp_flags (linp (pd_body p) i) ≠ LP_UNUSED).
      { intros E. apply Hs. apply (lay_unused _ _ _ _ (ok_layout _ _ Hok)); [lia|done]. }
      unfold slot_of. rewrite (proj2 (Z.eqb_neq _ _)) by done. rewrite (proj2 (Z.eqb_neq _ _)) by done.
      cbn [slot_space]. rewrite body_read_length by (unfold fits in *; lia).
      rewrite Z2Nat.id by lia. done.
    - unfold slot_of. destruct (_ =? LP_UNUSED); [done|].
      destruct (Z.eqb_spec (lp_len (linp (pd_body p) i)) 0); [done|by destruct Hs]. }
  apply H; lia.
Qed.

Lemma reset_ok p b1 :
  page_wf BLCKSZ p → reset_from 0 (nline p) (pd_body p) b1 →
  page_wf BLCKSZ (set_pd_body b1 p) ∧ contents (set_pd_body b1 p) = contents p ∧
  linp_entries b1 (Z.to_nat (nline p)) 0 = linp_entries (pd_body p) (Z.to_nat (nline p)) 0.
Proof using.
  clear HB. intros Hok [RL RB RK RS]. pose proof Hok as [Hlen Hbytes Hfl Hver [Hn Hlow] Hord Hal [Hu Hi Ha]].
  assert (∀ k, 0 ≤ k < nline p → has_storage (linp b1 k) →
    linp b1 k = linp (pd_body p) k ∧ has_storage (linp (pd_body p) k)) as Hst.
  { intros k Hk. rewrite RK by done. case_decide; [by intros []|done]. }
  split; [|split].
  - split; cbn [pd_body set_pd_body]; try done; [lia|auto|]. split.
    + intros k Hk. rewrite RK by done. case_decide as Hd; [done|]. intros Hf. destruct Hd. split; [lia|done].
    + intros k Hk Hs. destruct (Hst k Hk Hs) as [-> ?]. auto.
    + intros i j Hii Hj Hij Hsi Hsj. destruct (Hst i Hii Hsi) as [-> ?], (Hst j Hj Hsj) as [-> ?]. auto.
  - apply contents_eq; [done|exact (contents_length p Hn)|]. intros i Hii.
    change (nline (set_pd_body b1 p)) with (nline p) in Hii. cbn [pd_body set_pd_body].
    rewrite contents_lookup by done. f_equal. rewrite RK by done. case_decide as Hd.
    + unfold slot_of. destruct Hd as [_ ->]. done.
    + symmetry. apply slot_of_same; [done|done|]. eapply same_mono; [| |apply (RS (pd_special p))]; lia.
  - apply entries_ext. intros k Hk. rewrite RK by lia. case_decide as Hd; [|by left].
    right. split; [|by intros []]. unfold has_storage. rewrite Hu; [auto|lia|apply Hd].
Qed.

Lemma total_aligned upper special L : Forall (entry_ok upper special) L → aligned (total L).
Proof using.
  clear HB. induction 1 as [|e L He _ IH]; [done|]. apply aligned_add; [|done].
  by apply (entry_len upper special).
Qed.

(** The compaction of the items [L] of a page, after which the first [n] line pointers count:
    each of them belongs to an item of [L] or has no storage. *)
Record repacked (n : Z) (L : list itemIdSortData) (p : PageData) (b' : list Z) : Prop := {
  rp_length : length b' = length (pd_body p);
  rp_bytes : Forall (is_uint 8) b';
  rp_room : pd_upper p ≤ pd_special p - total L ∧ 0 ≤ total L;
  rp_aligned : aligned (pd_special p - total L);
  rp_layout : layout n (linp b') (pd_special p - total L) (pd_special p);
  rp_slot : ∀ e, e ∈ L → slot_of b' (linp b' (offsetindex e)) = slot_of (pd_body p) (olditemid e);
  rp_other : ∀ i, 0 ≤ i < n → (∀ e, e ∈ L → offsetindex e ≠ i) → linp b' i = linp (pd_body p) i }.

Lemma compact_core (install : bool) n p L :
  page_wf BLCKSZ p → 0 ≤ n ≤ nline p →
  StronglySorted (λ x y, itemoffcompare x y ≤ 0) L → NoDup (offsetindex <$> L) →
  Forall (entry_ok (pd_upper p) (pd_special p)) L →
  (∀ e e', e ∈ L → e' ∈ L → e ≠ e' → apart e e') →
  Forall (λ e, 0 ≤ offsetindex e < n ∧
    (install = true ∨ linp (pd_body p) (offsetindex e) = olditemid e)) L →
  (∀ i, 0 ≤ i < n → (∃ e, e ∈ L ∧ offsetindex e = i) ∨
     (∀ e, e ∈ L → offsetindex e ≠ i) ∧ ¬ has_storage (linp (pd_body p) i)) →
  ∃ b', compactify install L (pd_special p) p = Ret (pd_special p - total L, set_pd_body b' p) ∧
    repacked n L p b'.
Proof using HB.
  intros Hok Hnn Hso Hnd Hent Hap Hidx Hcov. pose proof blcksz_bounds as [Hb _].
  pose proof Hok as [Hlen Hbytes Hfl Hver [Hn Hlow] Hord [Ha1 Ha2] Hlay].
  assert (stacked L (pd_special p) (pd_upper p)) as Hst.
  { apply sorted_stacked; auto; [by eapply NoDup_fmap_inv|lia]. }
  pose proof (stacked_total _ _ _ Hst) as Ht.
  destruct (compactify_spec install n (pd_upper p) L (pd_special p) p) as (b' & Hrun & [CL CB CA CD CP CO]);
    [lia|done|lia|done| |].
  { rewrite Forall_forall in *. intros e He. split; [by apply Hidx|by apply Hent]. }
  assert (∀ e u, (e, u) ∈ finals L (pd_special p) → linp b' (offsetindex e) = set_lp_off u (olditemid e)) as CP'.
  { intros e u Hin. rewrite (CP e u Hin). rewrite Forall_forall in Hidx.
    apply (finals_below _ _ _ _ _ Hst) in Hin as [Hin _].
    destruct (Hidx _ Hin) as [_ [-> | E]]; [done|]. rewrite E. by destruct install. }
  exists b'. split; [done|]. pose proof (total_aligned _ _ _ Hent). rewrite Forall_forall in Hent. split; auto.
  - lia.
  - by apply aligned_sub.
  - apply (compacted_layout _ _ _ (pd_upper p)); try done; [by apply Forall_forall|lia|lia| |].
    + intros i Hi Hs. destruct (Hcov i Hi) as [|[Hno Hns]]; [done|]. destruct Hns. by rewrite <- CO.
    + intros i Hi. destruct (Hcov i Hi) as [(e & He & <-)|[Hno Hns]].
      * destruct (finals_exists L (pd_special p) e He) as [u Hu]. rewrite (CP' _ _ Hu).
        cbn [set_lp_off lp_flags lp_len]. by destruct (Hent _ He) as (_ & _ & ? & _).
      * rewrite CO by done. apply (lay_unused _ _ _ _ Hlay). lia.
  - intros e He. destruct (finals_exists L (pd_special p) e He) as [u Hu]. rewrite (CP' _ _ Hu).
    destruct (finals_below _ _ _ _ _ Hst Hu) as (_ & ? & ? & ?).
    apply (compacted_slot _ _ (pd_upper p) (pd_special p)); [by apply Hent|lia|lia|lia|by apply CD].
Qed.

Lemma compact_page p L :
  page_wf BLCKSZ p → L ≡ₚ linp_entries (pd_body p) (Z.to_nat (nline p)) 0 →
  StronglySorted (λ x y, itemoffcompare x y ≤ 0) L →
  let upper' := pd_special p - space_used (contents p) in
  ∃ b', compactify false L (pd_special p) p = Ret (upper', set_pd_body b' p) ∧
    pd_upper p ≤ upper' ∧
    page_wf BLCKSZ (set_pd_upper upper' (set_pd_body b' p)) ∧
    contents (set_pd_upper upper' (set_pd_body b' p)) = contents p.
Proof using HB.
  intros Hok HP Hso upper'. destruct (entries_ok p Hok) as (Hent & Hap & Hidx). rewrite <- HP in Hent, Hidx.
  assert (∀ e e', e ∈ L → e' ∈ L → e ≠ e' → apart e e') as Hap' by (intros e e'; rewrite HP; apply Hap).
  assert (NoDup (offsetindex <$> L)) as Hnd by (rewrite HP; apply entries_NoDup).
  assert (total L = space_used (contents p)) as Htot by (rewrite (total_perm _ _ HP); by apply entries_space).
  assert (∀ k, 0 ≤ k < nline p → has_storage (linp (pd_body p) k) ∧ entry_at (pd_body p) k ∈ L ∨
            ¬ has_storage (linp (pd_body p) k) ∧ (∀ e, e ∈ L → offsetindex e ≠ k)) as Hcase.
  { intros k Hk. destruct (decide (has_storage (linp (pd_body p) k))) as [Hs|Hs].
    - left. split; [done|]. rewrite HP. apply elem_of_entries. exists k. split; [lia|done].
    - right. split; [done|]. intros e He <-. rewrite HP in He.
      apply elem_of_entries in He as (k & ? & ? & ->). done. }
  pose proof Hok as [Hlen Hbytes Hfl Hver [Hn Hlow] Hord [Ha1 Ha2] Hlay].
  destruct (compact_core false (nline p) p L) as (b' & Hrun & [RL RB RR RA RY RS RO]); try done.
  { eapply Forall_impl; [done|]. simpl. naive_solver. }
  { intros i Hi. destruct (Hcase i Hi) as [[? ?]|[? ?]]; [left; by exists (entry_at (pd_body p) i)|by right]. }
  rewrite Htot in *. exists b'. split; [done|]. split; [apply RR|]. split.
  - split; cbn [pd_body set_pd_body set_pd_upper pd_lower pd_upper pd_special]; try done; [lia|].
    change (pd_lower (set_pd_upper upper' (set_pd_body b' p))) with (pd_lower p). unfold upper'. lia.
  - apply contents_eq; [done|exact (contents_length p Hn)|]. intros k Hk. rewrite contents_lookup by done.
    f_equal. cbn [pd_body set_pd_body set_pd_upper]. symmetry. destruct (Hcase k Hk) as [[Hs Hin]|[Hns Hno]].
    + apply (RS _ Hin).
    + rewrite RO by done. by apply slot_of_moved; [apply linp_ok|..].
Qed.

(** ** The hint *)

Lemma testbit_hint p : PageHasFreeLinePointers p = Z.testbit (pd_flags p) 0.
Proof using.
  clear HB. unfold PageHasFreeLinePointers, PD_HAS_FREE_LINES. change 1 with (Z.ones 1).
  rewrite Z.land_ones, Z.bit0_odd by lia. change (2 ^ 1) with 2.
  rewrite Zmod_odd. by destruct (Z.odd (pd_flags p)).
Qed.

Lemma set_hint_change (h : bool) p :
  page_wf BLCKSZ p →
  let p' := if h then PageSetHasFreeLinePointers p else PageClearHasFreeLinePointers p in
  hint_change p p' ∧ PageHasFreeLinePointers p' = h.
Proof using.
  clear HB. intros Hok p'. pose proof (ok_flags _ _ Hok). unfold p'. destruct h.
  - split.
    + exists (Z.lor (pd_flags p) PD_HAS_FREE_LINES). split; [apply lor_is_uint; [lia|done|by vm_compute]|].
      split; [|done]. intros i Hi. rewrite Z.lor_spec. change PD_HAS_FREE_LINES with (2 ^ 0).
      rewrite Z.pow2_bits_false by lia. apply orb_false_r.
    + rewrite testbit_hint. cbn [pd_flags set_pd_flags PageSetHasFreeLinePointers]. rewrite Z.lor_spec. apply orb_true_r.
  - split; [by apply clear_hint_change|].
    rewrite testbit_hint. cbn [pd_flags set_pd_flags PageClearHasFreeLinePointers]. rewrite Z.land_spec, Z.lnot_spec by lia. apply andb_false_r.
Qed.

Lemma unused_in_contents p :
  page_wf BLCKSZ p →
  (0 <? unused_count (pd_body p) (Z.to_nat (nline p)) 0) = bool_decide (Unused ∈ contents p).
Proof using.
  clear HB. intros Hok. pose proof (ok_lower _ _ Hok) as [Hn _].
  destruct (unused_count_pos (pd_body p) (Z.to_nat (nline p)) 0) as [_ Hp].
  apply eq_true_iff_eq. rewrite Z.ltb_lt, bool_decide_eq_true, Hp. unfold contents.
  rewrite list_elem_of_fmap. split.
  - intros (k & Hk & Hf). exists k. split; [by rewrite (proj2 (slot_of_unused _ _))|].
    apply elem_of_seqZ. lia.
  - intros (k & Hk & Hin). exists k. apply elem_of_seqZ in Hin. split; [lia|].
    symmetry in Hk. by apply slot_of_unused in Hk.
Qed.

Lemma total_app L1 L2 : total (L1 ++ L2) = total L1 + total L2.
Proof using. clear HB. induction L1 as [|? ? IH]; simpl; [done|]. rewrite IH. lia. Qed.

Lemma entries_total_nonneg b n i : 0 ≤ total (linp_entries b n i).
Proof using.
  clear HB. revert i. induction n as [|n IH]; intros i; [done|]. cbn [linp_entries].
  rewrite total_app. specialize (IH (i + 1)). case_decide; [|simpl; lia].
  change (total [entry_at b i]) with (MAXALIGN (lp_len (linp b i)) + 0).
  pose proof (linp_ok b i) as (_ & _ & Hl). unfold is_uint in Hl.
  pose proof (MAXALIGN_bounds (lp_len (linp b i))). lia.
Qed.

Lemma repair_compact_spec p :
  page_wf BLCKSZ p →
  let L := linp_entries (pd_body p) (Z.to_nat (nline p)) 0 in
  let upper' := pd_special p - space_used (contents p) in
  ∃ b', repair_compact (nline p) (Z.of_nat (length L)) (pd_lower p) (pd_upper p) (pd_special p) p =
      Ret (tt, set_pd_upper upper' (set_pd_body b' p)) ∧
    page_wf BLCKSZ (set_pd_upper upper' (set_pd_body b' p)) ∧
    contents (set_pd_upper upper' (set_pd_body b' p)) = contents p.
Proof using HB.
  intros Hok L upper'. pose proof blcksz_bounds as [Hb _]. pose proof (nline_bound p Hok).
  pose proof Hok as [Hlen _ _ _ [Hn Hlow] Hord _ Hlay].
  pose proof (entries_space p Hok) as Hsp. fold L in Hsp.
  pose proof (entries_total_nonneg (pd_body p) (Z.to_nat (nline p)) 0) as Hnn. fold L in Hnn.
  unfold repair_compact. destruct (Z.eqb_spec (Z.of_nat (length L)) 0) as [E0|Hne].
  - assert (L = []) as EL by (destruct L; [done|simpl in E0; lia]).
    destruct (compact_page p []) as (b' & Hrun & Hup & Hok2 & Hc2); [done|by fold L; rewrite EL|constructor|].
    simpl in Hrun. injection Hrun as E1 E2. exists b'. split; [|done].
    rewrite (bind_Ret get_page _ _ _ _ eq_refl). rewrite wrap_u_small by (unfold is_uint; lia).
    rewrite <- E2. unfold upper'. by rewrite <- E1.
  - erewrite bind_Ret; [|apply repair_collect_spec; [lia|lia|]].
    2: { intros k Hk Hs. destruct (ok_item p k Hok ltac:(lia) Hs) as (? & ? & ? & ? & ? & ?). lia. }
    fold L. rewrite Z.add_0_l.
    assert (length L ≤ Z.to_nat (nline p))%nat as HLn by apply entries_length.
    destruct (pg_qsort_spec SizeOfItemIdSort itemoffcompare L (Z.of_nat (length L)))
      as (L' & Eq & HP & _ & _ & Hso); [done|lia|unfold SizeOfItemIdSort; lia|].
    destruct (compact_page p L') as (b' & Hrun & Hup & Hok2 & Hc2); [done|done| |].
    { specialize (Hso _). rewrite Nat2Z.id in Hso. by rewrite firstn_all2 in Hso by (by rewrite HP). }
    destruct (Z.ltb_spec (pd_special p - pd_lower p) (total L)) as [Hlt|_]; [lia|].
    unfold lift. rewrite (bind_Ret _ _ p L' p) by (by rewrite Eq).
    rewrite (bind_Ret _ _ _ _ _ Hrun). rewrite (bind_Ret get_page _ _ _ _ eq_refl).
    rewrite wrap_u_small by (unfold is_uint; lia). exists b'. done.
Qed.

Lemma PageRepairFragmentation_spec p :
  page_wf BLCKSZ p →
  ∃ p', PageRepairFragmentation BLCKSZ p = Ret (tt, p') ∧ page_wf BLCKSZ p' ∧ header_kept p p' ∧
    contents p' = contents p ∧ pd_lower p' = pd_lower p ∧
    pd_upper p' = pd_special p - space_used (contents p) ∧
    PageHasFreeLinePointers p' = bool_decide (Unused ∈ contents p).
Proof using HB.
  intros Hok. pose proof blcksz_bounds as [Hb _]. pose proof (nline_bound p Hok).
  pose proof Hok as [Hlen Hbytes Hfl Hver [Hn Hlow] Hord [Ha1 Ha2] Hlay].
  unfold PageRepairFragmentation. rewrite (bind_Ret get_page _ p p p) by done.
  rewrite corrupted_pointers_ok, (proj1 (MAXALIGN_aligned (pd_special p) ltac:(lia)) Ha2) by done.
  rewrite Z.eqb_refl. cbn [orb negb]. rewrite PageGetMaxOffsetNumber_ok by done.
  destruct (repair_scan_spec (Z.to_nat (nline p)) 1 0 0 (nline p) p) as (b1 & Escan & HR); [lia|lia|lia|apply Hlay|].
  change FirstOffsetNumber with 1. rewrite (bind_Ret _ _ _ _ _ Escan). clear Escan.
  change (1 - 1) with 0 in *. rewrite !Z.add_0_l, unused_in_contents by done.
  destruct (reset_ok p b1 Hok HR) as (Hok1 & Hc1 & Hent). rewrite <- Hent.
  destruct (repair_compact_spec (set_pd_body b1 p) Hok1) as (b2 & E2 & Hok2 & Hc2).
  rewrite Hc1 in *. rewrite (bind_Ret _ _ _ _ _ E2). rewrite (bind_Ret get_page _ _ _ _ eq_refl).
  destruct (set_hint_change (bool_decide (Unused ∈ contents p)) _ Hok2) as [(v & Hv & Hbits & Ep) Hh].
  eexists. split; [done|]. rewrite Ep in *. split; [by apply ok_set_flags|].
  unfold header_kept. split_and!; done.
Qed.

(** ** Deletion of one item *)

(** [adjust_linp] moves the items up to [offset] forward by [size]. *)
Definition moved_up (offset size : Z) (lp : ItemIdData) : ItemIdData :=
  if lp_off lp <=? offset then set_lp_off (lp_off lp + size) lp else lp.

Record linp_mapped (g : ItemIdData → ItemIdData) (i nl : Z) (b b' : list Z) : Prop := {
  lm_length : length b' = length b;
  lm_bytes : Forall (is_uint 8) b → Forall (is_uint 8) b';
  lm_linp : ∀ k, 0 ≤ k < nl → linp b' k = if i <=? k then g (linp b k) else linp b k;
  lm_same : ∀ hi, same b b' (24 + 4 * nl) hi }.

Lemma adjust_linp_spec n i nl offset size p :
  1 ≤ i → i - 1 + Z.of_nat n = nl → 4 * nl ≤ Z.of_nat (length (pd_body p)) →
  (∀ k, 0 ≤ k < nl → has_storage (linp (pd_body p) k)) →
  ∃ b', adjust_linp n i offset size p = Ret (tt, set_pd_body b' p) ∧
    linp_mapped (moved_up offset size) (i - 1) nl (pd_body p) b'.
Proof using.
  clear HB. revert i p. induction n as [|n IH]; intros i p Hi Hn Hf Hs; cbn [adjust_linp].
  { exists (pd_body p). split; [by destruct p|]. split; [done|done| |done].
    intros k Hk. by destruct (Z.leb_spec (i - 1) k); [lia|]. }
  assert (fits (pd_body p) (24 + 4 * (i - 1)) 4) as F by (unfold fits; lia).
  rewrite (bind_Ret _ _ _ _ _ (PageGetItemId_run p i F)).
  set (lp := linp (pd_body p) (i - 1)) in *.
  assert (has_storage lp) as Hlp by (apply Hs; lia).
  unfold ItemIdHasStorage. rewrite (proj2 (Z.eqb_neq _ _)) by done. cbn [negb].
  set (b1 := if lp_off lp <=? offset
             then body_write (pd_body p) (24 + 4 * (i - 1)) (itemid_encode (set_lp_off (lp_off lp + size) lp))
             else pd_body p).
  assert (linp_mapped (moved_up offset size) (i - 1) i (pd_body p) b1) as [L1 B1 K1 S1].
  { unfold b1. destruct (Z.leb_spec (lp_off lp) offset) as [Hle|Hgt].
    - split.
      + apply body_write_length. by rewrite itemid_encode_length.
      + intros. apply body_write_bytes; [done|apply le_encode_bytes].
      + intros k Hk. rewrite linp_write; [|done|apply set_lp_off_ok, linp_ok|lia].
        destruct (decide (i - 1 = k)) as [E|], (Z.leb_spec (i - 1) k); try lia; [|done].
        rewrite <- E. fold lp. unfold moved_up. by rewrite (proj2 (Z.leb_le _ _) Hle).
      + intros hi. apply body_write_same; rewrite ?itemid_encode_length; [done|lia|lia].
    - split; [done|done| |done].
      intros k Hk. destruct (Z.leb_spec (i - 1) k); [|done]. assert (k = i - 1) as -> by lia.
      fold lp. unfold moved_up. by rewrite (proj2 (Z.leb_gt _ _) Hgt). }
  assert (∀ k, i ≤ k → linp b1 k = linp (pd_body p) k) as Hafter.
  { intros k Hk. apply linp_same; [lia|]. eapply same_mono; [| |apply (S1 (24 + 4 * k + 4))]; lia. }
  rewrite (bind_Ret _ _ p tt (set_pd_body b1 p)).
  2: { unfold b1, ItemIdGetOffset. destruct (lp_off lp <=? offset); [by apply PageSetItemId_run|by destruct p]. }
  clearbody b1.
  destruct (IH (i + 1) (set_pd_body b1 p)) as (b' & Er & [L2 B2 K2 S2]);
    cbn [pd_body set_pd_body] in *; [lia|lia|lia| |].
  { intros k Hk. destruct (decide (i ≤ k)); [rewrite Hafter by lia; by apply Hs|].
    rewrite K1 by lia. destruct (i - 1 <=? k); [|by apply Hs].
    unfold moved_up, has_storage. destruct (_ <=? offset); by apply Hs. }
  exists b'. split; [done|]. split; [congruence|auto| |].
  - intros k Hk. rewrite K2 by done. replace (i + 1 - 1) with i by lia.
    destruct (Z.leb_spec i k), (Z.leb_spec (i - 1) k); try lia.
    + by rewrite Hafter.
    + rewrite K1 by lia. by rewrite (proj2 (Z.leb_le _ _)) by lia.
    + rewrite K1 by lia. by rewrite (proj2 (Z.leb_gt _ _)) by lia.
  - intros hi. eapply same_trans; [|apply S2]. eapply same_mono; [| |apply (S1 hi)]; lia.
Qed.

(** The index that the line pointer now at [i] had before number [k] was removed. *)
Definition after (k i : Z) : Z := if k <=? i then i + 1 else i.

(** The bytes after the two moves of [PageIndexTupleDelete]. *)
Record squeezed (k n upper offset size : Z) (b b' : list Z) : Prop := {
  sq_length : length b' = length b;
  sq_bytes : Forall (is_uint 8) b → Forall (is_uint 8) b';
  sq_linp : ∀ i, 0 ≤ i < n - 1 → linp b' i = linp b (after k i);
  sq_high : ∀ hi, same b b' (offset + size) hi;
  sq_low : ∀ o len, upper ≤ o → 0 ≤ len → o + len ≤ offset →
    body_read b' (o + size) len = body_read b o len }.

Lemma squeeze_run p k n upper offset size :
  0 ≤ k < n → 24 + 4 * n ≤ upper → upper ≤ offset → 0 < size →
  offset + size ≤ 24 + Z.of_nat (length (pd_body p)) →
  ∃ b', (∀ X (c : cmd PageData X),
      (_ ← (if 0 <? 24 + 4 * n - linp_offset (k + 2)
            then page_memmove (linp_offset (k + 1)) (linp_offset (k + 2)) (24 + 4 * n - linp_offset (k + 2))
            else mret tt);
       _ ← (if upper <? offset then page_memmove (upper + size) upper (offset - upper) else mret tt);
       c) p = c (set_pd_body b' p)) ∧
    squeezed k n upper offset size (pd_body p) b'.
Proof using.
  clear HB. intros Hk Hlow Hup Hsz Hlen. set (b := pd_body p) in *.
  unfold linp_offset. change SizeOfPageHeaderData with 24. change SizeOfItemId with 4.
  replace (24 + 4 * (k + 2 - 1)) with (24 + 4 * (k + 1)) by lia. replace (24 + 4 * (k + 1 - 1)) with (24 + 4 * k) by lia.
  set (nb := 24 + 4 * n - (24 + 4 * (k + 1))).
  set (b1 := if 0 <? nb then body_write b (24 + 4 * k) (body_read b (24 + 4 * (k + 1)) nb) else b).
  assert (0 < nb → Z.of_nat (length (body_read b (24 + 4 * (k + 1)) nb)) = nb) as Hr1.
  { intros. rewrite body_read_length by (unfold fits; lia). lia. }
  assert (0 < nb → fits b (24 + 4 * k) (Z.of_nat (length (body_read b (24 + 4 * (k + 1)) nb)))) as F1.
  { intros Hnb. rewrite (Hr1 Hnb). unfold fits. lia. }
  assert (length b1 = length b) as L1.
  { unfold b1. destruct (Z.ltb_spec 0 nb); [|done]. by apply body_write_length, F1. }
  assert (∀ i, 0 ≤ i < n - 1 → linp b1 i = linp b (after k i)) as K1.
  { intros i Hi. unfold b1. destruct (Z.ltb_spec 0 nb) as [Hnb|]; [|unfold after; by destruct (Z.leb_spec k i); [lia|]].
    unfold after. destruct (Z.leb_spec k i).
    - unfold linp. f_equal. apply body_read_ext; [lia..|]. intros j Hj.
      rewrite byte_at_write by (auto; lia). rewrite (Hr1 Hnb), decide_True by lia.
      rewrite body_read_lookup by lia. f_equal. lia.
    - apply linp_same; [lia|]. apply body_write_same; [auto|lia|lia]. }
  assert (∀ hi, same b b1 (24 + 4 * n) hi) as S1.
  { intros hi. unfold b1. destruct (Z.ltb_spec 0 nb) as [Hnb|]; [|done].
    apply body_write_same; [auto|lia|]. rewrite (Hr1 Hnb). lia. }
  set (b2 := if upper <? offset then body_write b1 (upper + size) (body_read b1 upper (offset - upper)) else b1).
  assert (upper < offset → Z.of_nat (length (body_read b1 upper (offset - upper))) = offset - upper) as Hr2.
  { intros. rewrite body_read_length by (unfold fits; lia). lia. }
  assert (upper < offset → fits b1 (upper + size) (Z.of_nat (length (body_read b1 upper (offset - upper))))) as F2.
  { intros Hlt. rewrite (Hr2 Hlt). unfold fits. lia. }
  exists b2. split.
  { intros X c. rewrite (bind_Ret _ _ p tt (set_pd_body b1 p)).
    2: { unfold b1. destruct (Z.ltb_spec 0 nb); [|by destruct p]. apply page_memmove_run; unfold fits; fold b; lia. }
    rewrite (bind_Ret _ _ _ tt (set_pd_body b2 p)); [done|].
    unfold b2. destruct (Z.ltb_spec upper offset); [|done].
    apply (page_memmove_run (set_pd_body b1 p)); unfold fits; cbn [pd_body set_pd_body]; lia. }
  assert (∀ lo hi, 24 ≤ lo → hi ≤ upper + size ∨ offset + size ≤ lo → same b1 b2 lo hi) as S2.
  { intros lo hi ??. unfold b2. destruct (Z.ltb_spec upper offset) as [Hlt|]; [|done].
    apply body_write_same; [auto|lia|]. rewrite (Hr2 Hlt). lia. }
  split.
  - rewrite <- L1. unfold b2. destruct (Z.ltb_spec upper offset) as [Hlt|]; [|done].
    apply body_write_length. auto.
  - intros HF. assert (Forall (is_uint 8) b1) as HF1.
    { unfold b1. destruct (0 <? nb); [|done]. apply body_write_bytes; [done|by apply body_read_bytes]. }
    unfold b2. destruct (upper <? offset); [|done]. apply body_write_bytes; [done|by apply body_read_bytes].
  - intros i Hi. rewrite <- K1 by done. apply linp_same; [lia|]. apply S2; lia.
  - intros hi. apply (same_trans _ b1); [|apply S2; lia].
    eapply same_mono; [| |apply (S1 hi)]; lia.
  - intros o len Ho Hlen' Hend. transitivity (body_read b1 o len).
    2: { apply body_read_same; [lia..|]. eapply same_mono; [| |apply (S1 (o + len))]; lia. }
    apply body_read_ext; [lia..|]. intros j Hj. unfold b2. destruct (Z.ltb_spec upper offset) as [Hlt|]; [|lia].
    rewrite byte_at_write by (auto; lia). rewrite (Hr2 Hlt), decide_True by lia.
    rewrite body_read_lookup by lia. f_equal. lia.
Qed.

(** The layout without item [k]. *)
Lemma layout_delete n k (f f' : Z → ItemIdData) upper special :
  layout n f upper special → 0 ≤ k < n → has_storage (f k) →
  MAXALIGN (lp_len (f k)) = lp_len (f k) → aligned (lp_len (f k)) → special ≤ 32768 → 0 ≤ upper →
  (∀ i, itemid_ok (f i)) →
  (∀ i, 0 ≤ i < n - 1 → f' i = moved_up (lp_off (f k)) (lp_len (f k)) (f (after k i))) →
  (∀ i, 0 ≤ i < n → has_storage (f i)) →
  layout (n - 1) f' (upper + lp_len (f k)) special ∧
  ∀ i, 0 ≤ i < n - 1 →
    lp_len (f' i) = lp_len (f (after k i)) ∧ lp_flags (f' i) = lp_flags (f (after k i)) ∧
    ((lp_off (f (after k i)) + MAXALIGN (lp_len (f (after k i))) ≤ lp_off (f k) ∧
      lp_off (f' i) = lp_off (f (after k i)) + lp_len (f k)) ∨
     (lp_off (f k) + lp_len (f k) ≤ lp_off (f (after k i)) ∧ lp_off (f' i) = lp_off (f (after k i)))).
Proof using.
  clear HB. intros [Hu Hi Ha] Hk Hs Hal Hal2 Hsp Hup Hok Hf Hst.
  set (off := lp_off (f k)) in *. set (size := lp_len (f k)) in *.
  assert (0 < size) as Hsize by (destruct (Hok k) as (_ & _ & ?); unfold has_storage, is_uint in *; fold size in Hs; lia).
  assert (∀ i, 0 ≤ i < n - 1 → 0 ≤ after k i < n ∧ after k i ≠ k) as Hr
    by (intros i Hii; unfold after; destruct (Z.leb_spec k i); lia).
  assert (∀ i, 0 ≤ i < n - 1 →
    lp_len (f' i) = lp_len (f (after k i)) ∧ lp_flags (f' i) = lp_flags (f (after k i)) ∧
    ((lp_off (f (after k i)) + MAXALIGN (lp_len (f (after k i))) ≤ off ∧
      lp_off (f' i) = lp_off (f (after k i)) + size) ∨
     (off + size ≤ lp_off (f (after k i)) ∧ lp_off (f' i) = lp_off (f (after k i))))) as Hchar.
  { intros i Hii. destruct (Hr i Hii) as [Hj Hne]. rewrite (Hf i Hii). set (lp := f (after k i)) in *.
    destruct (Hi _ Hj (Hst _ Hj)) as (? & ? & ?). destruct (Hi _ Hk Hs) as (? & ? & Hend).
    pose proof (Ha _ _ Hj Hk Hne (Hst _ Hj) Hs) as Hap. fold lp off size in Hap, H, H0, H1, Hend. rewrite Hal in Hap, Hend.
    assert (0 < lp_len lp) by (destruct (Hok (after k i)) as (_ & _ & ?); pose proof (Hst _ Hj); unfold has_storage, is_uint, lp in *; lia).
    pose proof (MAXALIGN_bounds (lp_len lp) ltac:(destruct (Hok (after k i)) as (_ & _ & ?); unfold is_uint, lp in *; lia)).
    unfold moved_up. destruct (Z.leb_spec (lp_off lp) off); simpl.
    - split_and!; try done. left. rewrite wrap_u_small; [lia|]. unfold is_uint. lia.
    - split_and!; try done. right. lia. }
  split; [|exact Hchar]. split.
  - intros i Hii. destruct (Hchar i Hii) as (-> & -> & _). by apply Hu, Hr.
  - intros i Hii _. destruct (Hr i Hii) as [Hj Hne]. destruct (Hchar i Hii) as (El & _ & Hc). rewrite El.
    destruct (Hi _ Hj (Hst _ Hj)) as (? & ? & ?). destruct (Hi _ Hk Hs) as (? & ? & Hend). fold off size in Hend, H3. rewrite Hal in Hend.
    destruct Hc as [[? ->]|[? ->]]; (split; [|lia]); [by apply aligned_add|done].
  - intros i j Hii Hjj Hij _ _. destruct (Hr i Hii) as [Hi' Hni], (Hr j Hjj) as [Hj' Hnj].
    destruct (Hchar i Hii) as (-> & _ & Hci), (Hchar j Hjj) as (-> & _ & Hcj).
    assert (after k i ≠ after k j) as Hne by (unfold after; destruct (Z.leb_spec k i), (Z.leb_spec k j); lia).
    pose proof (Ha _ _ Hi' Hj' Hne (Hst _ Hi') (Hst _ Hj')) as Hap.
    destruct Hci as [[? ->]|[? ->]], Hcj as [[? ->]|[? ->]]; lia.
Qed.

Definition is_stored (s : slot) : Prop := match s with Stored _ _ => True | _ => False end.
#[global] Instance is_stored_dec s : Decision (is_stored s).
Proof using. clear HB. destruct s; simpl; apply _. Defined.

Lemma slot_of_stored p i :
  page_wf BLCKSZ p → 0 ≤ i < nline p →
  (is_stored (slot_of (pd_body p) (linp (pd_body p) i)) ↔ has_storage (linp (pd_body p) i)).
Proof using.
  clear HB. intros Hok Hi. unfold slot_of, has_storage. pose proof (lay_unused _ _ _ _ (ok_layout _ _ Hok) i Hi).
  destruct (Z.eqb_spec (lp_flags (linp (pd_body p) i)) LP_UNUSED); [naive_solver|].
  by destruct (Z.eqb_spec (lp_len (linp (pd_body p) i)) 0).
Qed.

Lemma all_stored p :
  page_wf BLCKSZ p →
  (Forall is_stored (contents p) ↔ ∀ i, 0 ≤ i < nline p → has_storage (linp (pd_body p) i)).
Proof using.
  clear HB. intros Hok. unfold contents. rewrite Forall_fmap, Forall_forall. split.
  - intros H i Hi. apply slot_of_stored; [done|done|]. apply (H i), elem_of_seqZ. lia.
  - intros H i Hi%elem_of_seqZ. apply slot_of_stored; [done|lia|]. apply H. lia.
Qed.

(** The item of a slot that holds one. *)
Lemma stored_at p k fl bs :
  page_wf BLCKSZ p → contents p !! Z.to_nat k = Some (Stored fl bs) → 0 ≤ k →
  0 ≤ k < nline p ∧ has_storage (linp (pd_body p) k) ∧
  lp_len (linp (pd_body p) k) = Z.of_nat (length bs) ∧ lp_flags (linp (pd_body p) k) = fl.
Proof using.
  clear HB. intros Hok Hk H0. pose proof (ok_lower _ _ Hok) as [Hn _].
  pose proof (lookup_lt_Some _ _ _ Hk) as Hlt. pose proof (contents_length p Hn).
  assert (0 ≤ k < nline p) as Hr by lia. split; [done|]. rewrite contents_lookup in Hk by done.
  injection Hk as E. assert (has_storage (linp (pd_body p) k)) as Hs by (apply slot_of_stored; [done|done|by rewrite E]).
  split; [done|]. destruct (ok_item p k Hok Hr Hs) as (? & _ & _ & ? & _ & Hf).
  set (lp := linp (pd_body p) k) in *. clearbody lp. unfold slot_of in E. destruct (_ =? LP_UNUSED); [done|]. destruct (_ =? 0); [done|]. injection E as <- <-.
  rewrite body_read_length by (unfold fits in *; lia). split; [lia|done].
Qed.

Lemma delete_lookup_after {A} (l : list A) k i :
  0 ≤ k → 0 ≤ i → delete (Z.to_nat k) l !! Z.to_nat i = l !! Z.to_nat (after k i).
Proof using.
  clear HB. intros. unfold after. destruct (Z.leb_spec k i).
  - rewrite list_lookup_delete_ge by lia. f_equal. lia.
  - by rewrite list_lookup_delete_lt by lia.
Qed.

Lemma PageIndexTupleDelete_spec p offnum fl bs :
  page_wf BLCKSZ p → Forall is_stored (contents p) → 1 ≤ offnum →
  contents p !! Z.to_nat (offnum - 1) = Some (Stored fl bs) →
  MAXALIGN (Z.of_nat (length bs)) = Z.of_nat (length bs) →
  ∃ p', PageIndexTupleDelete BLCKSZ offnum p = Ret (tt, p') ∧ page_wf BLCKSZ p' ∧ header_kept p p' ∧
    contents p' = delete (Z.to_nat (offnum - 1)) (contents p) ∧
    pd_lower p' = pd_lower p - 4 ∧ pd_upper p' = pd_upper p + Z.of_nat (length bs).
Proof using HB.
  intros Hok Hall Hoff Hlk Hal. pose proof blcksz_bounds as [Hb _]. pose proof (nline_bound p Hok).
  set (k := offnum - 1) in *. rewrite (all_stored p Hok) in Hall.
  destruct (stored_at p k fl bs Hok Hlk ltac:(lia)) as (Hk & Hs & Hlen & _).
  pose proof Hok as [Hblen Hbytes Hfl Hver [Hn Hlow] Hord [Ha1 Ha2] Hlay].
  destruct (ok_item p k Hok Hk Hs) as (Hl & Hao & Huo & _ & Hend & Hfit).
  unfold PageIndexTupleDelete. rewrite (bind_Ret get_page _ p p p) by done.
  rewrite corrupted_pointers_ok, PageGetMaxOffsetNumber_ok by done.
  destruct (Z.leb_spec offnum 0), (Z.ltb_spec (nline p) offnum); cbn [orb]; try lia.
  rewrite (bind_Ret _ _ _ _ _ (PageGetItemId_ok p offnum Hok ltac:(lia))). fold k.
  set (lp := linp (pd_body p) k) in *. unfold ItemIdHasStorage. rewrite (proj2 (Z.eqb_neq _ _)) by done. cbn [negb].
  unfold ItemIdGetLength, ItemIdGetOffset. rewrite <- Hlen in Hal. rewrite Hal in Hend, Hfit.
  rewrite (proj1 (MAXALIGN_aligned (lp_off lp) ltac:(unfold fits in Hfit; lia)) Hao), Hal, !Z.eqb_refl.
  destruct (Z.ltb_spec (lp_off lp) (pd_upper p)), (Z.ltb_spec (pd_special p) (lp_off lp + lp_len lp)); try lia.
  cbn [orb negb]. rewrite Hlow. replace (offnum - 1) with k by lia.
  destruct (squeeze_run p k (nline p) (pd_upper p) (lp_off lp) (lp_len lp)) as (b1 & Erun & [QL QB QK QH QW]);
    [lia|lia|lia|lia|lia|].
  rewrite Erun. rewrite (bind_Ret get_page _ _ _ _ eq_refl). cbn [pd_upper pd_lower set_pd_body set_pd_upper set_pd_lower].
  rewrite Hlow. rewrite !wrap_u_small by (unfold is_uint, SizeOfItemId; lia).
  change SizeOfItemId with 4. replace (24 + 4 * nline p - 4) with (24 + 4 * (nline p - 1)) by lia.
  rewrite (bind_Ret (put_page _) _ _ _ _ eq_refl).
  set (p1 := set_pd_lower (24 + 4 * (nline p - 1)) (set_pd_upper (pd_upper p + lp_len lp) (set_pd_body b1 p))).
  assert (∃ b2, (if negb (PageIsEmpty p1) then adjust_linp (Z.to_nat (nline p - 1)) 1 (lp_off lp) (lp_len lp)
                 else mret tt) p1 = Ret (tt, set_pd_body b2 p1) ∧
            linp_mapped (moved_up (lp_off lp) (lp_len lp)) 0 (nline p - 1) b1 b2) as (b2 & E2 & [ML MB MK MS]).
  { unfold PageIsEmpty. cbn [pd_lower p1 set_pd_lower]. change SizeOfPageHeaderData with 24.
    destruct (Z.leb_spec (24 + 4 * (nline p - 1)) 24); cbn [negb].
    - exists b1. split; [done|]. split; [done|done|lia|done].
    - apply (adjust_linp_spec _ 1 (nline p - 1) _ _ p1); [lia|lia| |].
      + cbn [pd_body p1 set_pd_lower set_pd_upper set_pd_body]. lia.
      + intros i Hi. cbn [pd_body p1 set_pd_lower set_pd_upper set_pd_body]. rewrite QK by done. apply Hall.
        unfold after. destruct (Z.leb_spec k i); lia. }
  rewrite E2. set (p2 := set_pd_body b2 p1). exists p2. split; [done|].
  assert (nline p2 = nline p - 1) as Hn2 by (by apply nline_lower).
  destruct (layout_delete (nline p) k (linp (pd_body p)) (linp b2) (pd_upper p) (pd_special p)) as [Hlay2 Hchar];
    try done; fold lp; try lia; auto using linp_ok.
  { apply MAXALIGN_aligned; [lia|done]. }
  { intros i Hi. rewrite MK by done. rewrite (proj2 (Z.leb_le _ _)) by lia. by rewrite QK. }
  fold lp in Hlay2, Hchar. split; [|split; [done|split; [|split]]].
  - split; rewrite ?Hn2; cbn [p2 p1 pd_body set_pd_body set_pd_lower set_pd_upper pd_lower pd_upper pd_special pd_flags]; auto; [lia|lia|lia|].
    split; [|done]. apply aligned_add; [done|]. apply MAXALIGN_aligned; [lia|done].
  - pose proof (contents_length p Hn) as Hcl. apply contents_eq; rewrite ?Hn2; [lia| |].
    + rewrite length_delete by (rewrite Hlk; eauto). lia.
    + intros i Hi. assert (0 ≤ after k i < nline p) as Hai by (unfold after; destruct (Z.leb_spec k i); lia).
      rewrite delete_lookup_after, contents_lookup by lia. f_equal. symmetry.
      destruct (Hchar i Hi) as (El & Ef & Hc). pose proof (Hall _ Hai) as Hst.
      destruct (ok_item p _ Hok Hai Hst) as (? & _ & ? & ? & ? & ?). change (pd_body p2) with b2.
      apply slot_of_moved; [apply linp_ok|done|done|done|]. intros _. set (o := linp (pd_body p) (after k i)) in *.
      transitivity (body_read b1 (lp_off (linp b2 i)) (lp_len o)).
      { apply body_read_same; [lia..|]. eapply same_mono; [| |apply (MS (lp_off (linp b2 i) + lp_len o))]; lia. }
      destruct Hc as [[? ->]|[? ->]].
      * apply QW; lia.
      * apply body_read_same; [lia..|]. eapply same_mono; [| |apply (QH (lp_off o + lp_len o))]; lia.
  - cbn [p2 p1 pd_lower set_pd_body set_pd_lower set_pd_upper]. lia.
  - cbn [p2 p1 pd_upper set_pd_body set_pd_lower set_pd_upper]. lia.
Qed.

(** ** Deletion of several items *)

(** What [multi_scan] keeps of the indices [k .. k + n) when [ds] is to be deleted, and what
    it leaves of [ds]. *)
Fixpoint kept (n : nat) (k : Z) (ds : list Z) : list Z :=
  match n with
  | O => []
  | S n' =>
      match ds with
      | d :: ds' => if k + 1 =? d then kept n' (k + 1) ds' else k :: kept n' (k + 1) ds
      | [] => k :: kept n' (k + 1) []
      end
  end.
Fixpoint unmet (n : nat) (k : Z) (ds : list Z) : list Z :=
  match n with
  | O => ds
  | S n' =>
      match ds with
      | d :: ds' => if k + 1 =? d then unmet n' (k + 1) ds' else unmet n' (k + 1) ds
      | [] => []
      end
  end.

(** The entries of the kept items, numbered from [u]. *)
Fixpoint numbered (b : list Z) (u : Z) (ks : list Z) : list itemIdSortData :=
  match ks with
  | [] => []
  | k :: ks =>
      mkItemIdSort u (lp_off (linp b k)) (MAXALIGN (lp_len (linp b k))) (linp b k)
      :: numbered b (u + 1) ks
  end.

(** Offset numbers in increasing order, within the page. *)
Definition in_order (k : Z) (n : nat) (ds : list Z) : Prop :=
  StronglySorted Z.lt ds ∧ Forall (λ d, k < d ≤ k + Z.of_nat n) ds.

Lemma unmet_nil n k ds : unmet n k ds = [] ↔ in_order k n ds.
Proof using.
  clear HB. revert k ds. induction n as [|n IH]; intros k ds; cbn [unmet].
  - unfold in_order. split; [intros ->; split; constructor|].
    intros [_ H]. destruct H; [done|]. lia.
  - destruct ds as [|d ds]; [split; [split; constructor|done]|].
    destruct (Z.eqb_spec (k + 1) d) as [<-|Hne]; rewrite IH; unfold in_order.
    + rewrite Forall_cons. split.
      * intros [Hs Hf]. split_and!; [|lia|lia|].
        -- constructor; [done|]. eapply Forall_impl; [done|]. simpl. intros; lia.
        -- eapply Forall_impl; [done|]. simpl. intros; lia.
      * intros [Hs [? Hf]]. inversion Hs as [|?? Hs' Hlt]; subst. split; [done|].
        rewrite Forall_forall in *. intros d' Hd'. specialize (Hf _ Hd'). specialize (Hlt _ Hd'). lia.
    + split; (intros [Hs Hf]; split; [done|]).
      * eapply Forall_impl; [done|]. simpl. intros; lia.
      * inversion Hs as [|?? Hs' Hlt]; subst. rewrite Forall_forall in *. intros d' Hd'.
        pose proof (Hf _ Hd'). pose proof (Hf d (list_elem_of_here _ _)).
        apply elem_of_cons in Hd' as [->|Hd']; [lia|]. specialize (Hlt _ Hd'). lia.
Qed.

Lemma unmet_length n k ds : (length (unmet n k ds) ≤ length ds)%nat.
Proof using.
  clear HB. revert k ds. induction n as [|n IH]; intros k ds; cbn [unmet]; [done|].
  destruct ds as [|d ds]; [done|]. destruct (k + 1 =? d); [|apply IH].
  specialize (IH (k + 1) ds). simpl. lia.
Qed.

Lemma kept_range n k ds : Forall (λ i, k ≤ i < k + Z.of_nat n) (kept n k ds) ∧ NoDup (kept n k ds).
Proof using.
  clear HB. revert k ds. induction n as [|n IH]; intros k ds; cbn [kept]; [split; constructor|].
  assert (∀ ds', Forall (λ i, k ≤ i < k + Z.of_nat (S n)) (kept n (k + 1) ds') ∧
                 NoDup (kept n (k + 1) ds') ∧ k ∉ kept n (k + 1) ds') as H.
  { intros ds'. destruct (IH (k + 1) ds') as [Hf Hd]. split_and!; [|done|].
    - eapply Forall_impl; [done|]. simpl. intros; lia.
    - intros Hin. rewrite Forall_forall in Hf. specialize (Hf _ Hin). lia. }
  destruct ds as [|d ds]; [|destruct (k + 1 =? d)]; [..|].
  - destruct (H []) as (? & ? & ?). split; constructor; auto; lia.
  - destruct (H ds) as (? & ? & ?). auto.
  - destruct (H (d :: ds)) as (? & ? & ?). split; constructor; auto; lia.
Qed.

(** Deleting in decreasing order of the numbers [ds] of a list whose first has number
    [k + 1]. *)
Definition delete_all {A} (k : Z) (l : list A) (ds : list Z) : list A :=
  foldr (λ d c, delete (Z.to_nat (d - 1 - k)) c) l ds.

Lemma delete_all_cons {A} k (x : A) l ds :
  Forall (λ d, k + 1 < d) ds → delete_all k (x :: l) ds = x :: delete_all (k + 1) l ds.
Proof using.
  clear HB. induction 1 as [|d ds Hd _ IH]; [done|]. unfold delete_all in *. simpl. rewrite IH.
  replace (Z.to_nat (d - 1 - k)) with (S (Z.to_nat (d - 1 - (k + 1)))) by lia. done.
Qed.

Lemma kept_delete {A} (f : Z → A) n k ds :
  in_order k n ds → f <$> kept n k ds = delete_all k (f <$> seqZ k (Z.of_nat n)) ds.
Proof using.
  clear HB. revert k ds. induction n as [|n IH]; intros k ds [Hs Hf]; cbn [kept].
  { destruct Hf; [done|]. lia. }
  rewrite seqZ_cons by lia. replace (Z.pred (Z.of_nat (S n))) with (Z.of_nat n) by lia.
  replace (Z.succ k) with (k + 1) by lia. rewrite fmap_cons.
  assert (∀ ds', in_order k (S n) ds' → Forall (λ d, k + 1 < d) ds' → in_order (k + 1) n ds') as Hin.
  { intros ds' [? H1] H2. split; [done|]. rewrite Forall_forall in *. intros d Hd.
    specialize (H1 _ Hd). specialize (H2 _ Hd). lia. }
  destruct ds as [|d ds]; [by rewrite fmap_cons, IH by (split; constructor)|].
  inversion Hs as [|?? Hs' Hlt]; subst. inversion Hf as [|?? Hd Hf']; subst.
  destruct (Z.eqb_spec (k + 1) d) as [<-|Hne].
  - rewrite IH by (apply Hin; [by split|done]). unfold delete_all. simpl.
    fold (delete_all k (f k :: (f <$> seqZ (k + 1) (Z.of_nat n))) ds).
    rewrite delete_all_cons by done. by replace (Z.to_nat (k + 1 - 1 - k)) with 0%nat by lia.
  - assert (Forall (λ d, k + 1 < d) (d :: ds)) as Hgt.
    { constructor; [lia|]. eapply Forall_impl; [exact Hlt|]. simpl. intros; lia. }
    rewrite delete_all_cons by done. rewrite fmap_cons, IH; [done|]. by apply Hin.
Qed.

Lemma numbered_length b u ks : length (numbered b u ks) = length ks.
Proof using. clear HB. revert u. induction ks; intros; simpl; auto. Qed.

Lemma total_cons e L : total (e :: L) = alignedlen e + total L.
Proof using. clear HB. done. Qed.

Lemma Ret_quad {A B C D E} (a a' : A) (b b' : B) (c c' : C) (d d' : D) (e : E) :
  a = a' → b = b' → c = c' → d = d' → Ret (a, b, c, d, e) = Ret (a', b', c', d', e).
Proof using. clear HB. by intros -> -> -> ->. Qed.

Lemma multi_scan_spec n i itemnos j u t p :
  page_wf BLCKSZ p → (∀ k, 0 ≤ k < nline p → has_storage (linp (pd_body p) k)) →
  1 ≤ i → i - 1 + Z.of_nat n = nline p → 0 ≤ j ≤ Z.of_nat (length itemnos) →
  let ds := drop (Z.to_nat j) itemnos in
  let K := numbered (pd_body p) u (kept n (i - 1) ds) in
  multi_scan n i (pd_upper p) (pd_special p) itemnos (Z.of_nat (length itemnos)) j u t p =
    Ret ((K, Z.of_nat (length itemnos) - Z.of_nat (length (unmet n (i - 1) ds)),
          u + Z.of_nat (length K), t + total K), p).
Proof using HB.
  intros Hok Hall. pose proof (nline_bound p Hok). pose proof blcksz_bounds as [Hb _].
  revert i j u t. induction n as [|n IH]; intros i j u t Hi Hn Hj ds K; cbn [multi_scan].
  { unfold K, mret, cmd_ret. cbn [kept unmet numbered length total foldr].
    apply Ret_quad; [done| |lia|lia]. unfold ds. rewrite length_drop. lia. }
  rewrite (bind_Ret _ _ _ _ _ (PageGetItemId_ok p i Hok ltac:(lia))).
  specialize (Hall (i - 1) ltac:(lia)) as Hs. set (lp := linp (pd_body p) (i - 1)) in *.
  destruct (ok_item p (i - 1) Hok ltac:(lia) Hs) as (Hl & Hao & Huo & Hal & Hend & Hfit). fold lp in Hl, Hao, Huo, Hal, Hend, Hfit.
  pose proof (ok_order _ _ Hok) as (_ & _ & ?).
  unfold ItemIdHasStorage. rewrite (proj2 (Z.eqb_neq _ _)) by done. cbn [negb].
  unfold ItemIdGetOffset, ItemIdGetLength.
  rewrite (proj1 (MAXALIGN_aligned (lp_off lp) ltac:(unfold fits in Hfit; lia)) Hao), Z.eqb_refl.
  destruct (Z.ltb_spec (lp_off lp) (pd_upper p)), (Z.ltb_spec (pd_special p) (lp_off lp + lp_len lp)); cbn [orb negb]; try lia.
  assert (OffsetNumberNext i = i + 1) as Enext.
  { unfold OffsetNumberNext. rewrite wrap_u_small by (unfold is_uint; lia). lia. }
  assert (((if j <? Z.of_nat (length itemnos) then itemno ← lift (arr_get itemnos j); mret (i =? itemno) else mret false)
           : cmd PageData bool) p =
          Ret (match ds with d :: _ => i =? d | [] => false end, p)) as Eskip.
  { unfold ds. destruct (Z.ltb_spec j (Z.of_nat (length itemnos))).
    - destruct (arr_get_lt itemnos j ltac:(lia)) as (d & E & Hd). rewrite (drop_S _ _ _ Hd).
      unfold lift. rewrite (bind_Ret _ _ p d p) by (by rewrite E). done.
    - by rewrite drop_ge by lia. }
  rewrite (bind_Ret _ _ _ _ _ Eskip). rewrite Enext.
  assert (∀ u t, multi_scan n (i + 1) (pd_upper p) (pd_special p) itemnos (Z.of_nat (length itemnos)) j u t p =
     let K := numbered (pd_body p) u (kept n (i - 1 + 1) ds) in
     Ret ((K, Z.of_nat (length itemnos) - Z.of_nat (length (unmet n (i - 1 + 1) ds)),
          u + Z.of_nat (length K), t + total K), p)) as Hkeep.
  { intros. rewrite (IH (i + 1)) by lia. by replace (i + 1 - 1) with (i - 1 + 1) by lia. }
  unfold K. cbn [kept unmet]. replace (i - 1 + 1) with i in * by lia.
  destruct ds as [|d ds'] eqn:Eds.
  - rewrite (bind_Ret _ _ _ _ _ (Hkeep _ _)). cbn [numbered]. unfold mret, cmd_ret. fold lp.
    apply Ret_quad; [done|by destruct n|simpl; lia|]. rewrite total_cons. cbn [alignedlen]. lia.
  - destruct (Z.eqb_spec i d) as [<-|Hne].
    + assert (drop (Z.to_nat (j + 1)) itemnos = ds') as Ed.
      { replace (Z.to_nat (j + 1)) with (Z.to_nat j + 1)%nat by lia. rewrite <- drop_drop.
        fold ds. rewrite Eds. done. }
      assert (j < Z.of_nat (length itemnos)).
      { assert (length ds = length (i :: ds')) as El by (by rewrite Eds). unfold ds in El. rewrite length_drop in El. simpl in El. lia. }
      rewrite (IH (i + 1) (j + 1)) by lia. rewrite Ed. by replace (i + 1 - 1) with i by lia.
    + rewrite (bind_Ret _ _ _ _ _ (Hkeep _ _)). cbn [numbered]. unfold mret, cmd_ret. fold lp.
      apply Ret_quad; [done|done|simpl; lia|]. rewrite total_cons. cbn [alignedlen]. lia.
Qed.

Definition numbered_at (b : list Z) (u k : Z) : itemIdSortData :=
  mkItemIdSort u (lp_off (linp b k)) (MAXALIGN (lp_len (linp b k))) (linp b k).

Lemma elem_of_numbered b u ks e :
  e ∈ numbered b u ks ↔
  ∃ j k, ks !! j = Some k ∧ e = numbered_at b (u + Z.of_nat j) k.
Proof using.
  clear HB. revert u. induction ks as [|k ks IH]; intros u; cbn [numbered].
  - split; [by intros ?%not_elem_of_nil|]. intros (j & k & Hj & _). done.
  - rewrite elem_of_cons, IH. split.
    + intros [->|(j & k' & Hj & ->)].
      * exists 0%nat, k. split; [done|]. unfold numbered_at. f_equal. lia.
      * exists (S j), k'. split; [done|]. unfold numbered_at. f_equal. lia.
    + intros ([|j] & k' & Hj & ->); simpl in Hj.
      * left. injection Hj as ->. unfold numbered_at. f_equal. lia.
      * right. exists j, k'. split; [done|]. unfold numbered_at. f_equal. lia.
Qed.

Lemma numbered_NoDup b u ks : NoDup (offsetindex <$> numbered b u ks).
Proof using.
  clear HB. revert u. induction ks as [|k ks IH]; intros u; cbn [numbered]; [constructor|].
  rewrite fmap_cons. constructor; [|apply IH].
  intros (e & He & (j & k' & _ & ->)%elem_of_numbered)%list_elem_of_fmap. simpl in He. lia.
Qed.

(** Well-formed pages differ in the values of [pd_lower], [pd_upper] and the bytes only. *)
Lemma page_wf_update p b' n upper' :
  page_wf BLCKSZ p → length b' = length (pd_body p) → Forall (is_uint 8) b' →
  0 ≤ n → 24 + 4 * n ≤ upper' → upper' ≤ pd_special p → aligned upper' →
  layout n (linp b') upper' (pd_special p) →
  let p' := set_pd_upper upper' (set_pd_lower (24 + 4 * n) (set_pd_body b' p)) in
  page_wf BLCKSZ p' ∧ nline p' = n.
Proof using.
  clear HB. intros [Hlen Hbytes Hfl Hver [Hn Hlow] Hord [Ha1 Ha2] Hlay] ??????? p'.
  assert (nline p' = n) as En by (by apply nline_lower). split; [|done].
  split; rewrite ?En; cbn [p' pd_body set_pd_body set_pd_lower set_pd_upper pd_lower pd_upper pd_special pd_flags];
    auto; lia.
Qed.

Lemma numbered_space p u ks :
  page_wf BLCKSZ p → (∀ k, 0 ≤ k < nline p → has_storage (linp (pd_body p) k)) →
  (∀ k, k ∈ ks → 0 ≤ k < nline p) →
  total (numbered (pd_body p) u ks) =
    space_used ((λ k, slot_of (pd_body p) (linp (pd_body p) k)) <$> ks).
Proof using.
  clear HB. intros Hok Hall. revert u. induction ks as [|k l IH]; intros u Hrg; [done|].
  cbn [numbered]. rewrite total_cons, fmap_cons. unfold space_used. cbn [foldr alignedlen].
  fold (space_used ((λ k, slot_of (pd_body p) (linp (pd_body p) k)) <$> l)).
  rewrite (IH (u + 1)) by (intros; apply Hrg; by apply list_elem_of_further). f_equal.
  assert (0 ≤ k < nline p) as Hk by (apply Hrg, list_elem_of_here).
  destruct (ok_item p k Hok Hk (Hall _ Hk)) as (? & _ & _ & ? & _ & Hf).
  pose proof (proj2 (slot_of_stored p k Hok Hk) (Hall _ Hk)) as Hst.
  set (lp := linp (pd_body p) k) in *. clearbody lp. unfold slot_of in *.
  destruct (_ =? LP_UNUSED); [done|]. destruct (_ =? 0); [done|]. cbn [slot_space].
  rewrite body_read_length by (unfold fits in *; lia). by rewrite Z2Nat.id by lia.
Qed.

Lemma multi_compact p ds L :
  page_wf BLCKSZ p → (∀ k, 0 ≤ k < nline p → has_storage (linp (pd_body p) k)) →
  let ks := kept (Z.to_nat (nline p)) 0 ds in
  L ≡ₚ numbered (pd_body p) 0 ks → StronglySorted (λ x y, itemoffcompare x y ≤ 0) L →
  ∃ b', compactify true L (pd_special p) p = Ret (pd_special p - total L, set_pd_body b' p) ∧
    let p' := set_pd_upper (pd_special p - total L)
                (set_pd_lower (24 + 4 * Z.of_nat (length ks)) (set_pd_body b' p)) in
    page_wf BLCKSZ p' ∧ pd_upper p ≤ pd_special p - total L ∧ 0 ≤ total L ∧
    contents p' = (λ k, slot_of (pd_body p) (linp (pd_body p) k)) <$> ks ∧
    total L = space_used (contents p').
Proof using HB.
  intros Hok Hall ks HP Hso. pose proof Hok as [Hlen Hbytes Hfl Hver [Hn Hlow] Hord [Ha1 Ha2] Hlay].
  destruct (kept_range (Z.to_nat (nline p)) 0 ds) as [Hrg Hnd]. fold ks in Hrg, Hnd.
  rewrite Forall_forall in Hrg.
  assert (length ks ≤ Z.to_nat (nline p))%nat as Hks.
  { rewrite <- (length_seqZ 0 (nline p)). apply submseteq_length, NoDup_submseteq; [done|].
    intros k Hk. apply elem_of_seqZ. specialize (Hrg _ Hk). lia. }
  assert (∀ j k, ks !! j = Some k → 0 ≤ k < nline p) as Hr.
  { intros j k Hj. apply list_elem_of_lookup_2 in Hj. specialize (Hrg _ Hj). lia. }
  assert (Forall (entry_ok (pd_upper p) (pd_special p)) L) as Hent.
  { rewrite HP, Forall_forall. intros e (j & k & Hj & ->)%elem_of_numbered. specialize (Hr _ _ Hj).
    destruct (entries_ok p Hok) as (He & _). rewrite Forall_forall in He.
    apply (He (entry_at (pd_body p) k)), elem_of_entries. exists k. split; [lia|auto]. }
  destruct (compact_core true (Z.of_nat (length ks)) p L) as (b' & Hrun & [RL RB RR RA RY RS RO]); try done.
  { lia. }
  { rewrite HP. apply numbered_NoDup. }
  { intros e e'. rewrite HP. intros (j & k & Hj & ->)%elem_of_numbered (j' & k' & Hj' & ->)%elem_of_numbered Hne.
    assert (k ≠ k'). { intros ->. apply Hne. by rewrite (NoDup_lookup _ _ _ _ Hnd Hj Hj'). }
    unfold apart, numbered_at. simpl. apply (lay_apart _ _ _ _ Hlay); eauto. }
  { rewrite HP, Forall_forall. intros e (j & k & Hj & ->)%elem_of_numbered. simpl. split; [|by left].
    apply lookup_lt_Some in Hj. lia. }
  { intros i Hi. left. destruct (lookup_lt_is_Some_2 ks (Z.to_nat i)) as [k Hk]; [lia|].
    exists (numbered_at (pd_body p) i k). split; [|done]. rewrite HP. apply elem_of_numbered.
    exists (Z.to_nat i), k. split; [done|]. f_equal. lia. }
  exists b'. split; [done|]. intros p'.
  destruct (page_wf_update p b' (Z.of_nat (length ks)) (pd_special p - total L)) as [Hok' Hn']; try done; [lia|lia|lia|].
  assert (contents p' = (λ k, slot_of (pd_body p) (linp (pd_body p) k)) <$> ks) as Hc.
  { fold p' in Hn'. apply contents_eq; rewrite ?Hn'; [lia|by rewrite length_fmap|].
    intros i Hi. destruct (lookup_lt_is_Some_2 ks (Z.to_nat i)) as [k Hk]; [lia|].
    rewrite list_lookup_fmap, Hk. simpl. f_equal. symmetry.
    apply (RS (numbered_at (pd_body p) i k)). rewrite HP. apply elem_of_numbered.
    exists (Z.to_nat i), k. split; [done|]. f_equal. lia. }
  split_and!; [done|lia|lia|done|]. rewrite Hc, (total_perm _ _ HP).
  assert (∀ k, k ∈ ks → 0 ≤ k < nline p) as Hrg2 by (intros k Hk; specialize (Hrg _ Hk); lia).
  by apply numbered_space.
Qed.

Lemma multi_delete_spec p itemnos :
  page_wf BLCKSZ p → Forall is_stored (contents p) → 2 < Z.of_nat (length itemnos) →
  (¬ in_order 0 (length (contents p)) itemnos →
   PageIndexMultiDelete BLCKSZ itemnos (Z.of_nat (length itemnos)) p = Ereport ERRCODE_INTERNAL_ERROR) ∧
  (in_order 0 (length (contents p)) itemnos →
   ∃ p', PageIndexMultiDelete BLCKSZ itemnos (Z.of_nat (length itemnos)) p = Ret (tt, p') ∧
     page_wf BLCKSZ p' ∧ header_kept p p' ∧
     contents p' = delete_all 0 (contents p) itemnos ∧
     pd_upper p' = pd_special p - space_used (contents p')).
Proof using HB.
  intros Hok Hall Hlen. pose proof blcksz_bounds as [Hb _]. pose proof (nline_bound p Hok).
  rewrite (all_stored p Hok) in Hall. pose proof (ok_lower _ _ Hok) as [Hn Hlow].
  pose proof (ok_order _ _ Hok) as Hord. pose proof (ok_align _ _ Hok) as [_ Ha2].
  pose proof (contents_length p Hn) as Hcl.
  replace (length (contents p)) with (Z.to_nat (nline p)) by lia.
  unfold PageIndexMultiDelete. rewrite (bind_Ret get_page _ p p p) by done.
  destruct (Z.leb_spec (Z.of_nat (length itemnos)) 2); [lia|].
  rewrite corrupted_pointers_ok, (proj1 (MAXALIGN_aligned (pd_special p) ltac:(lia)) Ha2) by done.
  rewrite Z.eqb_refl. cbn [orb negb]. rewrite PageGetMaxOffsetNumber_ok by done.
  change FirstOffsetNumber with 1.
  rewrite (bind_Ret _ _ _ _ _ (multi_scan_spec (Z.to_nat (nline p)) 1 itemnos 0 0 0 p Hok Hall ltac:(lia) ltac:(lia) ltac:(lia))).
  change (1 - 1) with 0. change (Z.to_nat 0) with 0%nat. rewrite drop_0, !Z.add_0_l.
  set (ks := kept (Z.to_nat (nline p)) 0 itemnos). set (K := numbered (pd_body p) 0 ks).
  pose proof (unmet_nil (Z.to_nat (nline p)) 0 itemnos) as Hun.
  split.
  - intros Hno. destruct (unmet _ _ _) eqn:E; [by destruct Hno; apply Hun|].
    rewrite (proj2 (Z.eqb_neq _ _)); [done|]. simpl. lia.
  - intros Hin. rewrite (proj2 Hun Hin). simpl length. rewrite Z.sub_0_r, Z.eqb_refl. cbn [negb].
    assert (length K ≤ Z.to_nat (nline p))%nat as HKn.
    { unfold K. rewrite numbered_length. destruct (kept_range (Z.to_nat (nline p)) 0 itemnos) as [Hrg Hnd].
      rewrite <- (length_seqZ 0 (nline p)). apply submseteq_length, NoDup_submseteq; [done|].
      intros k Hk. apply elem_of_seqZ. rewrite Forall_forall in Hrg. specialize (Hrg _ Hk). lia. }
    destruct (pg_qsort_spec SizeOfItemIdSort itemoffcompare K (Z.of_nat (length K)))
      as (L & Eq & HP & _ & _ & Hso); [done|lia|unfold SizeOfItemIdSort; lia|].
    specialize (Hso _). rewrite Nat2Z.id in Hso. rewrite firstn_all2 in Hso by (by rewrite HP).
    destruct (multi_compact p itemnos L Hok Hall HP Hso) as (b' & Hrun & Hok' & Hup & Ht & Hc & Hsp).
    fold ks in Hok', Hc, Hsp. rewrite <- (total_perm _ _ HP).
    destruct (Z.ltb_spec (pd_special p - pd_lower p) (total L)) as [Hlt|_]; [lia|].
    unfold lift. rewrite (bind_Ret _ _ p L p) by (by rewrite Eq).
    rewrite (bind_Ret _ _ _ _ _ Hrun). rewrite (bind_Ret get_page _ _ _ _ eq_refl).
    change SizeOfPageHeaderData with 24. change SizeOfItemId with 4.
    unfold K in HKn |- *. rewrite numbered_length in *.
    rewrite !wrap_u_small by (unfold is_uint; lia).
    replace (24 + Z.of_nat (length ks) * 4) with (24 + 4 * Z.of_nat (length ks)) by lia.
    eexists. split; [done|]. split; [done|]. split; [unfold header_kept; split_and!; done|].
    split; [|rewrite <- Hsp; done]. rewrite Hc. unfold ks. rewrite kept_delete by done.
    unfold contents. by rewrite Z2Nat.id by lia.
Qed.

Lemma delete_all_snoc {A} (l : list A) ds d :
  delete_all 0 l (ds ++ [d]) = delete_all 0 (delete (Z.to_nat (d - 1)) l) ds.
Proof using. clear HB. unfold delete_all. rewrite foldr_app. simpl. by rewrite Z.sub_0_r. Qed.

(** Items of index pages have aligned lengths. *)
Definition index_slot (s : slot) : Prop :=
  match s with Stored _ bs => MAXALIGN (Z.of_nat (length bs)) = Z.of_nat (length bs) | _ => False end.
#[global] Instance index_slot_dec s : Decision (index_slot s).
Proof using. clear HB. destruct s; simpl; apply _. Defined.

Lemma space_used_delete c k s :
  c !! k = Some s → space_used (delete k c) = space_used c - slot_space s.
Proof using.
  clear HB. revert k. induction c as [|x c IH]; intros [|k] Hk; simplify_eq/=; [lia|].
  rewrite (IH _ Hk). lia.
Qed.

Lemma in_order_snoc n ds d :
  in_order 0 n (ds ++ [d]) → 1 ≤ d ≤ Z.of_nat n ∧ in_order 0 (n - 1) ds.
Proof using.
  clear HB. intros [Hs Hf]. rewrite Forall_app, Forall_singleton in Hf. destruct Hf as [Hf Hd].
  split; [lia|]. split.
  - clear -Hs. induction ds as [|x ds IH]; [constructor|]. inversion Hs as [|?? Hs' Hlt]; subst.
    constructor; [auto|]. by apply Forall_app in Hlt as [? _].
  - rewrite Forall_forall in *. intros x Hx. specialize (Hf _ Hx).
    assert (x < d); [|lia]. clear -Hs Hx. induction ds as [|y ds IH]; [by apply not_elem_of_nil in Hx|].
    inversion Hs as [|?? Hs' Hlt]; subst. apply elem_of_cons in Hx as [->|Hx]; [|auto].
    rewrite Forall_forall in Hlt. apply Hlt, elem_of_app. right. apply list_elem_of_here.
Qed.

Lemma delete_backwards_spec ds : ∀ rest p,
  page_wf BLCKSZ p → Forall index_slot (contents p) → in_order 0 (length (contents p)) ds →
  ∃ p', delete_backwards BLCKSZ (ds ++ rest) (length ds) p = Ret (tt, p') ∧
    page_wf BLCKSZ p' ∧ header_kept p p' ∧ contents p' = delete_all 0 (contents p) ds ∧
    pd_upper p' = pd_upper p + space_used (contents p) - space_used (contents p').
Proof using HB.
  induction ds as [|d ds IH] using rev_ind; intros rest p Hok Hall Hin.
  { exists p. split; [done|]. split; [done|]. split; [unfold header_kept; split_and!; done|].
    split; [done|]. unfold delete_all. simpl. lia. }
  apply in_order_snoc in Hin as [Hd Hin].
  rewrite length_app, Nat.add_comm. cbn [length Nat.add delete_backwards].
  unfold lift. rewrite (bind_Ret _ _ p d p).
  2: { rewrite (proj2 (arr_get_Some _ _ d)); [done|]. split; [lia|]. rewrite Nat2Z.id, <- app_assoc.
       by apply list_lookup_middle. }
  destruct (lookup_lt_is_Some_2 (contents p) (Z.to_nat (d - 1))) as [s Hs]; [lia|].
  pose proof (Forall_lookup_1 _ _ _ _ Hall Hs) as Hidx. destruct s as [| |fl bs]; try done.
  destruct (PageIndexTupleDelete_spec p d fl bs) as (p1 & E1 & Hok1 & Hk1 & Hc1 & _ & Hu1); try done; [|lia|].
  { eapply Forall_impl; [done|]. by intros []. }
  rewrite (bind_Ret _ _ _ _ _ E1). rewrite <- app_assoc.
  destruct (IH ([d] ++ rest) p1 Hok1) as (p' & E' & Hok' & Hk' & Hc' & Hu').
  { rewrite Hc1. by apply Forall_delete. }
  { rewrite Hc1, length_delete by (rewrite Hs; eauto). done. }
  exists p'. split; [done|]. split; [done|]. split.
  { destruct Hk1 as (? & ? & ? & ? & ? & HB1), Hk' as (? & ? & ? & ? & ? & HB').
    unfold header_kept. split_and!; try congruence. intros i Hi. rewrite HB', HB1 by done. done. }
  split; [rewrite Hc', Hc1; by rewrite delete_all_snoc|].
  rewrite Hu', Hu1, Hc1, (space_used_delete _ _ _ Hs). cbn [slot_space]. cbn [index_slot] in Hidx. lia.
Qed.

(** ** New pages and free space *)

Lemma pow2_land_high k : 10 ≤ k ≤ 15 → Z.land (2 ^ k) 65280 = 2 ^ k.
Proof using. clear HB. intros Hk. assert (k = 10 ∨ k = 11 ∨ k = 12 ∨ k = 13 ∨ k = 14 ∨ k = 15) as Hc by lia.
  destruct Hc as [->|[->|[->|[->|[->| ->]]]]]; reflexivity. Qed.

Lemma version_fields k :
  10 ≤ k ≤ 15 → let v := uint16_of (Z.lor (2 ^ k) PG_PAGE_LAYOUT_VERSION) in
  Z.land v 65280 = 2 ^ k ∧ Z.land v 255 = PG_PAGE_LAYOUT_VERSION.
Proof using. clear HB. intros Hk. assert (k = 10 ∨ k = 11 ∨ k = 12 ∨ k = 13 ∨ k = 14 ∨ k = 15) as Hc by lia.
  destruct Hc as [->|[->|[->|[->|[->| ->]]]]]; split; reflexivity. Qed.

Lemma PageInit_spec specialSize p0 :
  0 ≤ specialSize → MAXALIGN specialSize + 24 < BLCKSZ → specialSize < BLCKSZ →
  ∃ p, PageInit BLCKSZ BLCKSZ specialSize p0 = Ret (tt, p) ∧ page_wf BLCKSZ p ∧ contents p = [] ∧
    pd_upper p = BLCKSZ - MAXALIGN specialSize ∧ pd_special p = BLCKSZ - MAXALIGN specialSize.
Proof using HB.
  intros Hs Hfit Hs2. pose proof blcksz_bounds as [Hb Hba].
  pose proof (MAXALIGN_bounds specialSize ltac:(lia)) as Hal.
  pose proof (aligned_MAXALIGN specialSize ltac:(lia)) as Hal2.
  unfold PageInit. rewrite (wrap_u_small 64 (MAXALIGN specialSize)) by (unfold is_uint; lia). rewrite Z.eqb_refl. cbn [negb].
  change SizeOfPageHeaderData with 24. rewrite (proj2 (Z.ltb_lt _ _)) by lia. cbn [negb].
  rewrite (bind_Ret (put_page _) _ _ _ _ eq_refl), (bind_Ret get_page _ _ _ _ eq_refl).
  cbn [set_pd_lower set_pd_upper pd_lsn pd_tli pd_flags pd_lower pd_upper pd_special pd_pagesize_version pd_prune_xid pd_body].
  rewrite !(wrap_u_small 16 (BLCKSZ - MAXALIGN specialSize)) by (unfold is_uint; lia).
  destruct HB as (k & Hk & EB). destruct (version_fields k Hk) as [V1 V2].
  unfold PageSetPageSizeAndVersion, lift. assert (Z.land BLCKSZ 65280 = BLCKSZ) as -> by (rewrite EB; by apply pow2_land_high).
  rewrite Z.eqb_refl. cbn [negb].
  rewrite (bind_Ret _ _ _ _ _ eq_refl).
  cbn [pd_lsn pd_tli pd_flags pd_lower pd_upper pd_special pd_pagesize_version pd_prune_xid pd_body].
  eexists. split; [done|].
  split; [|split; [done|done]]. set (p := mkPage _ _ _ _ _ _ _ _ _).
  assert (nline p = 0) as Hn by done.
  split; rewrite ?Hn; cbn [p pd_flags pd_lower pd_upper pd_special pd_body]; try done; try lia.
  - rewrite length_replicate. lia.
  - by apply Forall_replicate.
  - unfold PageGetPageSize, PageGetPageLayoutVersion. cbn [p pd_pagesize_version]. rewrite EB.
    split; [exact V1|exact V2].
  - split; by apply aligned_sub.
  - split; intros; lia.
Qed.

Lemma PageHeaderIsValid_ok p : page_wf BLCKSZ p → PageHeaderIsValid BLCKSZ p = Ret true.
Proof using HB.
  intros [Hlen Hbytes Hfl [V1 V2] [Hn Hlow] Hord [Ha1 Ha2] Hlay]. pose proof blcksz_bounds as [Hb _].
  unfold PageHeaderIsValid. rewrite V1, V2, !Z.eqb_refl.
  rewrite (proj1 (MAXALIGN_aligned (pd_special p) ltac:(lia)) Ha2), Z.eqb_refl.
  change SizeOfPageHeaderData with 24.
  assert (Z.land (pd_flags p) (Z.lnot PD_VALID_FLAG_BITS) = 0) as ->.
  { apply Z.bits_inj'. intros i Hi. rewrite Z.land_spec, Z.lnot_spec, Z.bits_0 by done.
    change PD_VALID_FLAG_BITS with (Z.ones 3). destruct (Z_lt_le_dec i 3).
    - rewrite Z.ones_spec_low by lia. apply andb_false_r.
    - by rewrite (is_uint_testbit_high 3). }
  rewrite !(proj2 (Z.leb_le _ _)) by lia. done.
Qed.

(** The hint at work: an unused slot found first. *)
Lemma first_unused_found c i :
  Unused ∈ c → i ≤ first_unused c i < i + Z.of_nat (length c).
Proof using.
  clear HB. revert i. induction c as [|s c IH]; intros i Hin; [by apply not_elem_of_nil in Hin|].
  apply elem_of_cons in Hin as [<-|Hin]; [simpl; lia|]. specialize (IH (i + 1) Hin).
  destruct s; simpl; lia.
Qed.

Lemma first_unused_none c i : Unused ∉ c → first_unused c i = i + Z.of_nat (length c).
Proof using.
  clear HB. revert i. induction c as [|s c IH]; intros i Hin; [simpl; lia|].
  apply not_elem_of_cons in Hin as [Hs Hin]. specialize (IH (i + 1) Hin). destruct s; [done|simpl; lia..].
Qed.

Lemma PageGetHeapFreeSpace_spec p :
  page_wf BLCKSZ p →
  PageGetHeapFreeSpace BLCKSZ p =
    Ret (if (MaxHeapTuplesPerPage BLCKSZ <=? nline p) &&
            negb (PageHasFreeLinePointers p && bool_decide (Unused ∈ contents p))
         then 0 else Z.max 0 (pd_upper p - pd_lower p - 4), p).
Proof using HB.
  intros Hok. pose proof (ok_lower _ _ Hok) as [Hn Hlow]. pose proof (nline_bound p Hok).
  unfold PageGetHeapFreeSpace. rewrite (bind_Ret get_page _ p p p) by done.
  rewrite PageGetMaxOffsetNumber_ok by done. unfold PageGetFreeSpace. change SizeOfItemId with 4.
  assert ((if pd_upper p - pd_lower p <? 4 then 0 else pd_upper p - pd_lower p - 4) =
          Z.max 0 (pd_upper p - pd_lower p - 4)) as ->.
  { destruct (Z.ltb_spec (pd_upper p - pd_lower p) 4); lia. }
  set (space := Z.max 0 _). destruct (Z.ltb_spec 0 space).
  2: { assert (space = 0) as -> by lia. by destruct (_ && _). }
  destruct (_ <=? _); [|done]. destruct (PageHasFreeLinePointers p); [|done].
  change FirstOffsetNumber with 1.
  erewrite bind_Ret; [|apply search_linp_spec; [done|lia|lia|]].
  2: { intros k Hk. unfold ItemIdIsUsed. rewrite negb_involutive.
       apply eq_true_iff_eq. by rewrite Z.eqb_eq, bool_decide_eq_true. }
  change (1 - 1) with 0. rewrite drop_0. unfold mret, cmd_ret. do 2 f_equal.
  pose proof (contents_length p Hn). case_bool_decide as Hu; simpl.
  - pose proof (first_unused_found _ 1 Hu). by rewrite (proj2 (Z.ltb_ge _ _)) by lia.
  - pose proof (first_unused_none _ 1 Hu). by rewrite (proj2 (Z.ltb_lt _ _)) by lia.
Qed.

(** ** Line pointers set by the callers: pruning and the killing of index entries *)

Lemma set_linp_spec p i lp :
  page_wf BLCKSZ p → 0 ≤ i < nline p → itemid_ok lp →
  (lp_len lp = 0 ∨ (lp_flags lp ≠ LP_UNUSED ∧ lp_off lp = lp_off (linp (pd_body p) i) ∧
                    lp_len lp = lp_len (linp (pd_body p) i))) →
  ∃ p', PageSetItemId (i + 1) lp p = Ret (tt, p') ∧ page_wf BLCKSZ p' ∧ nline p' = nline p ∧
    (∃ b', p' = set_pd_body b' p) ∧
    contents p' = <[Z.to_nat i := slot_of (pd_body p) lp]> (contents p) ∧
    (∀ k, 0 ≤ k < nline p → linp (pd_body p') k = if decide (i = k) then lp else linp (pd_body p) k).
Proof using.
  clear HB. intros Hok Hi Hlp Hor. pose proof (ok_fits_linp p i Hok Hi) as F.
  pose proof Hok as [Hlen Hbytes Hfl Hver [Hn Hlow] Hord Hal [Hu Hit Ha]].
  set (b' := body_write (pd_body p) (24 + 4 * i) (itemid_encode lp)).
  assert (∀ k, 0 ≤ k < nline p → linp b' k = if decide (i = k) then lp else linp (pd_body p) k) as HL
    by (intros; apply linp_write; [done|done|lia]).
  assert (∀ k, 0 ≤ k < nline p → has_storage (linp b' k) → has_storage (linp (pd_body p) k) ∧
     lp_off (linp b' k) = lp_off (linp (pd_body p) k) ∧ lp_len (linp b' k) = lp_len (linp (pd_body p) k)) as Hst.
  { intros k Hk. rewrite HL by done. case_decide as E; [subst k|done]. unfold has_storage.
    destruct Hor as [->|(_ & -> & ->)]; done. }
  exists (set_pd_body b' p). rewrite PageSetItemId_run; rewrite Z.add_simpl_r; [|done]. split; [done|].
  split; [|split; [done|split; [by exists b'|split; [|exact HL]]]].
  - split; cbn [pd_body set_pd_body]; try done.
    + unfold b'. rewrite body_write_length by (by rewrite itemid_encode_length). done.
    + apply body_write_bytes; [done|apply le_encode_bytes].
    + split.
      * intros k Hk. rewrite HL by done. case_decide as E; [subst k|by apply Hu].
        destruct Hor as [->|(? & _)]; done.
      * intros k Hk Hs. destruct (Hst k Hk Hs) as (? & -> & ->). by apply Hit.
      * intros k k' Hk Hk' Hne Hs Hs'. destruct (Hst k Hk Hs) as (? & -> & ->), (Hst k' Hk' Hs') as (? & -> & ->).
        by apply Ha.
  - pose proof (contents_length p Hn) as Hcl. apply contents_eq; [done|by rewrite length_insert|].
    intros k Hk. change (nline (set_pd_body b' p)) with (nline p) in Hk. cbn [pd_body set_pd_body].
    rewrite HL by done.
    assert (same (pd_body p) b' (pd_upper p) (pd_special p)) as Hs.
    { apply body_write_same; rewrite ?itemid_encode_length; [done|lia|lia]. }
    case_decide as E.
    + subst k. rewrite list_lookup_insert_eq by lia. f_equal. symmetry.
      apply slot_of_moved; try done. intros Hs'. destruct Hor as [E|(_ & Eo & El)]; [done|].
      rewrite Eo, El. assert (has_storage (linp (pd_body p) i)) as Hsi by (unfold has_storage in *; congruence).
      destruct (ok_item p i Hok Hi Hsi) as (? & ? & ? & ? & ? & ?). apply body_read_same; [lia..|].
      eapply same_mono; [| |done]; lia.
    + rewrite list_lookup_insert_ne by lia. rewrite contents_lookup by done. f_equal. symmetry. by apply slot_of_same.
Qed.

(** ** Pages as they are used *)

Inductive page_step : PageData → PageData → Prop :=
| step_add p item offsetNumber overwrite is_heap r p' :
    is_uint 16 offsetNumber → Forall (is_uint 8) item → 0 < Z.of_nat (length item) ≤ MaxAllocSize →
    PageAddItem BLCKSZ item (Z.of_nat (length item)) offsetNumber overwrite is_heap p = Ret (r, p') →
    page_step p p'
| step_repair p p' : PageRepairFragmentation BLCKSZ p = Ret (tt, p') → page_step p p'
| step_delete p offnum p' :
    Forall index_slot (contents p) → PageIndexTupleDelete BLCKSZ offnum p = Ret (tt, p') →
    page_step p p'
| step_multi p itemnos p' :
    Forall index_slot (contents p) →
    PageIndexMultiDelete BLCKSZ itemnos (Z.of_nat (length itemnos)) p = Ret (tt, p') →
    page_step p p'
| step_linp p i lp p' :
    1 ≤ i ≤ nline p →
    lp = ItemIdSetUnused ∨ lp = ItemIdSetDead ∨ (∃ link, lp = ItemIdSetRedirect link) ∨
      lp = ItemIdMarkDead (linp (pd_body p) (i - 1)) →
    PageSetItemId i lp p = Ret (tt, p') → page_step p p'
| step_header p lsn tli xid : page_step p (set_pd_prune_xid xid (set_pd_tli tli (set_pd_lsn lsn p)))
| step_full p : page_step p (PageSetFull p)
| step_not_full p : page_step p (PageClearFull p)
| step_visible p : page_step p (PageSetAllVisible p)
| step_not_visible p : page_step p (PageClearAllVisible p).

Lemma ok_tuple_delete p offnum p' :
  page_wf BLCKSZ p → Forall index_slot (contents p) →
  PageIndexTupleDelete BLCKSZ offnum p = Ret (tt, p') →
  page_wf BLCKSZ p' ∧ header_kept p p' ∧ Forall index_slot (contents p').
Proof using HB.
  intros Hok Hall Hrun. pose proof (ok_lower _ _ Hok) as [Hn _]. pose proof (contents_length p Hn).
  assert (1 ≤ offnum ≤ nline p) as Hr.
  { unfold PageIndexTupleDelete in Hrun. rewrite (bind_Ret get_page _ p p p) in Hrun by done.
    rewrite corrupted_pointers_ok, PageGetMaxOffsetNumber_ok in Hrun by done.
    destruct (Z.leb_spec offnum 0), (Z.ltb_spec (nline p) offnum); cbn [orb] in Hrun; try done. lia. }
  destruct (lookup_lt_is_Some_2 (contents p) (Z.to_nat (offnum - 1))) as [s Hs]; [lia|].
  pose proof (Forall_lookup_1 _ _ _ _ Hall Hs) as Hidx. destruct s as [| |fl bs]; try done.
  destruct (PageIndexTupleDelete_spec p offnum fl bs) as (p1 & E1 & Hok1 & Hk1 & Hc1 & _); try done; [|lia|].
  { eapply Forall_impl; [done|]. by intros []. }
  rewrite E1 in Hrun. injection Hrun as <-. split; [done|]. split; [done|]. rewrite Hc1. by apply Forall_delete.
Qed.

Lemma header_kept_trans p1 p2 p3 : header_kept p1 p2 → header_kept p2 p3 → header_kept p1 p3.
Proof using.
  clear HB. intros (? & ? & ? & ? & ? & Hb1) (? & ? & ? & ? & ? & Hb2). unfold header_kept.
  split_and!; try congruence. intros i Hi. by rewrite Hb2, Hb1.
Qed.

Lemma ok_delete_backwards itemnos n : ∀ p p',
  page_wf BLCKSZ p → Forall index_slot (contents p) →
  delete_backwards BLCKSZ itemnos n p = Ret (tt, p') → page_wf BLCKSZ p' ∧ pd_special p' = pd_special p.
Proof using HB.
  induction n as [|n IH]; intros p p' Hok Hall Hrun; cbn [delete_backwards] in Hrun.
  { injection Hrun as <-. done. }
  unfold mbind, cmd_bind, lift in Hrun. destruct (arr_get itemnos (Z.of_nat n)) as [d| | |] eqn:Ed; try done.
  simpl in Hrun. destruct (PageIndexTupleDelete BLCKSZ d p) as [[[] p1]| | |] eqn:E1; try done.
  destruct (ok_tuple_delete _ _ _ Hok Hall E1) as (Hok1 & (_ & _ & Hsp & _) & Hall1).
  destruct (IH _ _ Hok1 Hall1 Hrun). split; [done|]. congruence.
Qed.

Lemma ok_flag_bit (m : Z) p : page_wf BLCKSZ p → is_uint 3 m → page_wf BLCKSZ (set_pd_flags (Z.lor (pd_flags p) m) p).
Proof using. clear HB. intros Hok Hm. apply ok_set_flags; [done|]. apply lor_is_uint; [lia|apply Hok|done]. Qed.

Lemma page_step_ok p p' : page_wf BLCKSZ p → page_step p p' → page_wf BLCKSZ p' ∧ pd_special p' = pd_special p.
Proof using HB.
  intros Hok Hst. destruct Hst as [p item off ow heap r p' Hu Hit Hsz Hrun|p p' Hrun|p off p' Hall Hrun|p ds p' Hall Hrun
    |p i lp p' Hi Hlp Hrun|p lsn tli xid|p|p|p|p].
  - destruct (PageAddItem_spec p item off ow heap) as (r1 & p1 & E & ? & (_ & _ & ? & _) & _); try done.
    rewrite E in Hrun. by injection Hrun as <- <-.
  - destruct (PageRepairFragmentation_spec p Hok) as (p1 & E & ? & (_ & _ & ? & _) & _).
    rewrite E in Hrun. by injection Hrun as <-.
  - destruct (ok_tuple_delete _ _ _ Hok Hall Hrun) as (? & (_ & _ & ? & _) & _). done.
  - destruct (Z_lt_le_dec 2 (Z.of_nat (length ds))) as [Hlt|Hle].
    + assert (Forall is_stored (contents p)) as Hst by (eapply Forall_impl; [exact Hall|]; by intros []).
      destruct (multi_delete_spec p ds Hok Hst Hlt) as [Hno Hyes].
      assert (in_order 0 (length (contents p)) ds) as Hin.
      { apply unmet_nil. destruct (unmet _ _ ds) eqn:E; [done|]. rewrite Hno in Hrun; [done|].
        intros Hin%unmet_nil. congruence. }
      destruct (Hyes Hin) as (p1 & E & ? & (_ & _ & ? & _) & _). rewrite E in Hrun. by injection Hrun as <-.
    + unfold PageIndexMultiDelete in Hrun. rewrite (bind_Ret get_page _ p p p) in Hrun by done.
      rewrite (proj2 (Z.leb_le _ _) Hle) in Hrun. by eapply ok_delete_backwards.
  - destruct (set_linp_spec p (i - 1) lp Hok) as (p1 & E & ? & _ & (b' & ->) & _); [lia| | |].
    + pose proof (linp_ok (pd_body p) (i - 1)) as (? & ? & ?).
      destruct Hlp as [->|[->|[[link ->]| ->]]]; unfold itemid_ok; simpl; split_and!;
        first [done|by vm_compute|by apply wrap_u_bound].
    + destruct Hlp as [->|[->|[[link ->]| ->]]]; [by left..|by right].
    + rewrite Z.sub_add in E. rewrite E in Hrun. by injection Hrun as <-.
  - split; [|done]. destruct Hok. by split.
  - split; [|done]. by apply ok_flag_bit.
  - split; [|done]. apply ok_set_flags; [done|]. apply land_flags_3, Hok.
  - split; [|done]. by apply ok_flag_bit.
  - split; [|done]. apply ok_set_flags; [done|]. apply land_flags_3, Hok.
Qed.
End Geometry.

(** ** Theorems *)

(** A stored slot is read back through its line pointer. *)
Definition reads (p : PageData) (off : Z) (bytes : list Z) : Prop :=
  ∃ lp, PageGetItemId off p = Ret (lp, p) ∧ ItemIdIsNormal lp = true ∧ PageGetItem lp p = Ret (bytes, p).

Lemma stored_reads BLCKSZ p off bs :
  page_wf BLCKSZ p → 1 ≤ off → contents p !! Z.to_nat (off - 1) = Some (Stored LP_NORMAL bs) → reads p off bs.
Proof.
  intros Hok Hoff Hs. destruct (stored_at BLCKSZ p (off - 1) LP_NORMAL bs Hok Hs ltac:(lia)) as (Hk & Hst & Hl & Hf).
  exists (linp (pd_body p) (off - 1)). split; [by apply (PageGetItemId_ok BLCKSZ); [|lia]|].
  unfold ItemIdIsNormal. rewrite Hf. split; [done|]. unfold PageGetItem, ItemIdHasStorage.
  rewrite (proj2 (Z.eqb_neq _ _)) by done. cbn [negb].
  destruct (ok_item BLCKSZ p (off - 1) Hok Hk Hst) as (? & _ & _ & ? & _ & Hfit).
  rewrite page_read_run by (unfold fits in *; lia). rewrite contents_lookup in Hs by done.
  set (lp := linp (pd_body p) (off - 1)) in *. clearbody lp. unfold slot_of in Hs.
  destruct (_ =? LP_UNUSED); [done|]. destruct (_ =? 0); [done|]. by injection Hs as _ ->.
Qed.

Lemma page_steps_ok BLCKSZ p p' :
  BLCKSZ_ok BLCKSZ → rtc (page_step BLCKSZ) p p' → page_wf BLCKSZ p →
  page_wf BLCKSZ p' ∧ pd_special p' = pd_special p.
Proof.
  intros HB. induction 1 as [|p1 p2 p3 Hst _ IH]; intros Hok; [done|].
  destruct (page_step_ok BLCKSZ HB _ _ Hok Hst) as [Hok2 Hsp]. destruct (IH Hok2). split; [done|congruence].
Qed.

(** C8: The type of pages: from [PageInit] on, whatever sequence of insertions, deletions,
    defragmentations, line-pointer updates and header updates is applied, the page is
    well-formed (its array of line pointers ends at [pd_lower], the items lie aligned and
    disjoint between [pd_upper] and [pd_special], unused line pointers have no storage), its
    header passes [PageHeaderIsValid], and its special space stays where it was. *)
Theorem page_invariant BLCKSZ specialSize p00 p0 p :
  BLCKSZ_ok BLCKSZ → 0 ≤ specialSize < BLCKSZ →
  PageInit BLCKSZ BLCKSZ specialSize p00 = Ret (tt, p0) → rtc (page_step BLCKSZ) p0 p →
  page_wf BLCKSZ p ∧ PageHeaderIsValid BLCKSZ p = Ret true ∧
  pd_special p = BLCKSZ - MAXALIGN specialSize.
Proof.
  intros HB Hs Hinit Hrtc. pose proof (blcksz_bounds BLCKSZ HB) as [Hb _].
  pose proof (MAXALIGN_bounds specialSize ltac:(lia)).
  assert (MAXALIGN specialSize + 24 < BLCKSZ) as Hfit.
  { unfold PageInit in Hinit. rewrite (wrap_u_small 64) in Hinit by (unfold is_uint; lia).
    rewrite Z.eqb_refl in Hinit. cbn [negb] in Hinit. unfold SizeOfPageHeaderData in Hinit.
    destruct (Z.ltb_spec (MAXALIGN specialSize + 24) BLCKSZ); [done|]. by cbn [negb] in Hinit. }
  destruct (PageInit_spec BLCKSZ HB specialSize p00) as (p1 & E & Hok & _ & _ & Hsp); [lia..|].
  rewrite E in Hinit. injection Hinit as <-.
  destruct (page_steps_ok BLCKSZ p1 p HB Hrtc Hok) as [Hok' Hsp'].
  split; [done|]. split; [by apply PageHeaderIsValid_ok|congruence].
Qed.

(** C10: [PageAddItem] refines insertion into the list of slots: on a well-formed page it puts
    the item where [add_item] says (the given position, shifting the later line pointers or
    reusing an unused one; without a position the first unused slot if the hint is set, else
    the end), keeps every other slot and its bytes, and the item reads back through its line
    pointer; it returns [InvalidOffsetNumber], with all contents unchanged, exactly when
    [add_item] says that the position or the room does not permit it. *)
Theorem PageAddItem_correct BLCKSZ p item offsetNumber overwrite is_heap :
  BLCKSZ_ok BLCKSZ → page_wf BLCKSZ p → is_uint 16 offsetNumber →
  Forall (is_uint 8) item → 0 < Z.of_nat (length item) ≤ MaxAllocSize →
  ∃ r p', PageAddItem BLCKSZ item (Z.of_nat (length item)) offsetNumber overwrite is_heap p = Ret (r, p') ∧
    page_wf BLCKSZ p' ∧ header_kept p p' ∧
    match add_item BLCKSZ (contents p) (PageHasFreeLinePointers p) (pd_upper p - pd_lower p) item
            offsetNumber overwrite is_heap with
    | Some (off, c) =>
        r = off ∧ 1 ≤ off ∧ contents p' = c ∧ reads p' off item ∧
        pd_upper p' = pd_upper p - MAXALIGN (Z.of_nat (length item))
    | None =>
        r = InvalidOffsetNumber ∧ contents p' = contents p ∧
        pd_lower p' = pd_lower p ∧ pd_upper p' = pd_upper p
    end.
Proof.
  intros HB Hok Hu Hit Hsz. destruct (PageAddItem_spec BLCKSZ HB p item offsetNumber overwrite is_heap)
    as (r & p' & E & Hok' & Hk & Hm); [done..|].
  exists r, p'. split; [done|]. split; [done|]. split; [done|].
  destruct (add_item _ _ _ _ _ _ _ _) as [[off c]|] eqn:Ea; [|done]. destruct Hm as (-> & Hc & Hup).
  unfold add_item in Ea. destruct (add_select _ _ _ _ _) as [[off' shift]|] eqn:Es; [|done].
  destruct (_ || _) eqn:Eg; [done|]. injection Ea as -> <-.
  apply add_select_range in Es as [Hoff Hsh]. rewrite !orb_false_iff, Z.ltb_ge in Eg. destruct Eg as [[? _] _].
  split; [done|]. split; [done|]. split; [done|]. split; [|done].
  eapply stored_reads; [done..|]. rewrite Hc.
  rewrite add_place_lookup; [by rewrite decide_True|lia|done|].
  unfold new_n. destruct (Z.eqb_spec off (Z.of_nat (length (contents p)) + 1)), shift; simpl; try lia.
Qed.

(** C9: [PageRepairFragmentation] on a well-formed page raises no error, keeps the contents of
    every line pointer although it moves the items within the block, leaves no gap (all the
    space that the items do not occupy is free afterwards) and sets the hint for free line
    pointers exactly when there is one. *)
Theorem PageRepairFragmentation_correct BLCKSZ p :
  BLCKSZ_ok BLCKSZ → page_wf BLCKSZ p →
  ∃ p', PageRepairFragmentation BLCKSZ p = Ret (tt, p') ∧ page_wf BLCKSZ p' ∧ header_kept p p' ∧
    contents p' = contents p ∧
    PageGetExactFreeSpace p' = pd_special p - pd_lower p - space_used (contents p) ∧
    PageHasFreeLinePointers p' = bool_decide (Unused ∈ contents p).
Proof.
  intros HB Hok. destruct (PageRepairFragmentation_spec BLCKSZ HB p Hok) as (p' & E & Hok' & Hk & Hc & Hl & Hu & Hh).
  exists p'. split_and!; try done. unfold PageGetExactFreeSpace. rewrite Hu, Hl.
  pose proof (ok_order _ _ Hok'). destruct (Z.ltb_spec (pd_special p - space_used (contents p) - pd_lower p) 0); lia.
Qed.


(** [PageGetHeapFreeSpace] is a promise: on a heap page with at most
    [MaxHeapTuplesPerPage] line pointers, a tuple whose aligned size is at most the number it
    returns is accepted by [PageAddItem] and reads back. *)
Theorem PageGetHeapFreeSpace_promise BLCKSZ p item space :
  BLCKSZ_ok BLCKSZ → page_wf BLCKSZ p → nline p ≤ MaxHeapTuplesPerPage BLCKSZ →
  PageGetHeapFreeSpace BLCKSZ p = Ret (space, p) →
  Forall (is_uint 8) item → 0 < Z.of_nat (length item) ≤ MaxAllocSize →
  MAXALIGN (Z.of_nat (length item)) ≤ space →
  ∃ off p', PageAddItem BLCKSZ item (Z.of_nat (length item)) InvalidOffsetNumber false true p = Ret (off, p') ∧
    1 ≤ off ≤ MaxHeapTuplesPerPage BLCKSZ ∧ reads p' off item ∧ page_wf BLCKSZ p'.
Proof.
  intros HB Hok Hn Hsp Hit Hsz Hal. pose proof (blcksz_bounds BLCKSZ HB) as [Hb _].
  rewrite PageGetHeapFreeSpace_spec in Hsp by done. injection Hsp as Hspace.
  pose proof (ok_lower _ _ Hok) as [Hn0 Hlow]. pose proof (ok_order _ _ Hok).
  pose proof (contents_length p Hn0) as Hcl.
  pose proof (MAXALIGN_bounds (Z.of_nat (length item)) ltac:(unfold MaxAllocSize in Hsz; lia)) as Hb2.
  destruct (PageAddItem_spec BLCKSZ HB p item InvalidOffsetNumber false true) as (r & p' & E & Hok' & _ & Hm);
    [done|by vm_compute|done|done|].
  unfold add_item, add_select in Hm. change (1 <=? InvalidOffsetNumber) with false in Hm. cbn [andb] in Hm.
  rewrite Hcl in Hm. set (off := if PageHasFreeLinePointers p then first_unused (contents p) 1 else nline p + 1) in *.
  assert (1 ≤ off ≤ nline p + 1) as Hoff.
  { unfold off. destruct (PageHasFreeLinePointers p); [|lia]. pose proof (first_unused_bounds (contents p) 1). lia. }
  assert (off ≤ MaxHeapTuplesPerPage BLCKSZ ∧ space = Z.max 0 (pd_upper p - pd_lower p - 4)) as [Hoff2 Hspace2].
  { destruct (Z.leb_spec (MaxHeapTuplesPerPage BLCKSZ) (nline p)); cbn [andb] in Hspace; [|lia].
    destruct (PageHasFreeLinePointers p && bool_decide (Unused ∈ contents p)) eqn:Eh; cbn [negb] in Hspace; [|lia].
    apply andb_true_iff in Eh as [Eh Hu%bool_decide_eq_true]. unfold off. rewrite Eh.
    pose proof (first_unused_found _ 1 Hu). lia. }
  rewrite (proj2 (Z.ltb_ge (nline p + 1) off)), (proj2 (Z.ltb_ge (MaxHeapTuplesPerPage BLCKSZ) off)) in Hm by lia.
  destruct (Z.ltb_spec (pd_upper p - pd_lower p) ((if (off =? nline p + 1) || false then 4 else 0) +
      MAXALIGN (Z.of_nat (length item)))) as [Hlt|_].
  { exfalso. destruct ((off =? nline p + 1) || false); lia. }
  cbn [orb andb] in Hm.
  destruct Hm as (-> & Hc & _). exists off, p'. split; [done|]. split; [lia|]. split; [|done].
  eapply stored_reads; [done|lia|]. rewrite Hc. rewrite add_place_lookup; [by rewrite decide_True|lia|done|].
  unfold new_n. rewrite Hcl. destruct (Z.eqb_spec off (nline p + 1)); simpl; lia.
Qed.

(** ** Concrete pages *)

Definition run_page {A} (m : cmd PageData A) (p : PageData) : PageData :=
  match m p with Ret (_, p') => p' | _ => p end.
Definition blank_page : PageData := mkPage InvalidXLogRecPtr 0 0 0 0 0 0 0 [].

(** A page with a special space of 16 bytes, and items of 8, 16, 8 and 24 bytes on it. *)
Definition page0 : PageData := run_page (PageInit 1024 1024 16) blank_page.
Definition add_demo (n : nat) (x : Z) : PageData → PageData :=
  run_page (PageAddItem 1024 (replicate n x) (Z.of_nat n) InvalidOffsetNumber false false).
Definition page4 : PageData := add_demo 24 4 (add_demo 8 3 (add_demo 16 2 (add_demo 8 1 page0))).
(** The same without its second item. *)
Definition page4u : PageData := run_page (PageSetItemId 2 ItemIdSetUnused) page4.

Lemma blcksz_1024 : BLCKSZ_ok 1024.
Proof. exists 10. split; [lia|done]. Qed.

Lemma page0_init : PageInit 1024 1024 16 blank_page = Ret (tt, page0).
Proof. vm_compute. reflexivity. Qed.

Lemma add_demo_step n x p r :
  0 ≤ x < 256 → (0 < n < 1000)%nat →
  PageAddItem 1024 (replicate n x) (Z.of_nat n) InvalidOffsetNumber false false p = Ret (r, add_demo n x p) →
  page_step 1024 p (add_demo n x p).
Proof.
  intros Hx Hn E. eapply (step_add _ _ (replicate n x) InvalidOffsetNumber false false).
  - by vm_compute.
  - apply Forall_replicate. unfold is_uint. lia.
  - rewrite length_replicate. unfold MaxAllocSize. lia.
  - rewrite length_replicate. exact E.
Qed.

Lemma page4_steps : rtc (page_step 1024) page0 page4.
Proof.
  apply (rtc_l _ _ (add_demo 8 1 page0)); [apply (add_demo_step _ _ _ 1); [lia|lia|vm_compute; reflexivity]|].
  apply (rtc_l _ _ (add_demo 16 2 (add_demo 8 1 page0)));
    [apply (add_demo_step _ _ _ 2); [lia|lia|vm_compute; reflexivity]|].
  apply (rtc_l _ _ (add_demo 8 3 (add_demo 16 2 (add_demo 8 1 page0))));
    [apply (add_demo_step _ _ _ 3); [lia|lia|vm_compute; reflexivity]|].
  apply rtc_once. apply (add_demo_step _ _ _ 4); [lia|lia|vm_compute; reflexivity].
Qed.

Lemma page4u_step : page_step 1024 page4 page4u.
Proof.
  apply (step_linp _ _ 2 ItemIdSetUnused); [vm_compute; split; discriminate|by left|].
  vm_compute. reflexivity.
Qed.

Lemma page0_ok : page_wf 1024 page0.
Proof.
  destruct (PageInit_spec 1024 blcksz_1024 16 blank_page) as (p & E & Hok & _); [lia|done|lia|].
  rewrite page0_init in E. by injection E as <-.
Qed.

Lemma page4_ok : page_wf 1024 page4.
Proof. apply (page_steps_ok 1024 page0 page4 blcksz_1024 page4_steps page0_ok). Qed.

Lemma page4u_ok : page_wf 1024 page4u.
Proof. apply (page_step_ok 1024 blcksz_1024 page4 page4u page4_ok page4u_step). Qed.

Lemma page_invariant_witness :
  rtc (page_step 1024) page0 page4u ∧ page_wf 1024 page4u ∧ PageHeaderIsValid 1024 page4u = Ret true ∧
  pd_special page4u = 1008 ∧ length (contents page4u) = 4%nat.
Proof.
  assert (rtc (page_step 1024) page0 page4u) as Hr.
  { apply (rtc_r _ page4); [exact page4_steps|exact page4u_step]. }
  split; [exact Hr|].
  destruct (page_invariant 1024 16 blank_page page0 page4u) as (Hok & Hv & Hs);
    [apply blcksz_1024|lia|exact page0_init|exact Hr|].
  split; [exact Hok|]. split; [exact Hv|]. split; [exact Hs|]. vm_compute. reflexivity.
Defined.

Lemma PageAddItem_correct_witness :
  ∃ p', PageAddItem 1024 [7; 7; 7] 3 3 false true page4 = Ret (3, p') ∧ reads p' 3 [7; 7; 7] ∧
    contents p' = [Stored 1 (replicate 8 1); Stored 1 (replicate 16 2); Stored 1 [7; 7; 7];
                   Stored 1 (replicate 8 3); Stored 1 (replicate 24 4)].
Proof.
  destruct (PageAddItem_correct 1024 page4 [7; 7; 7] 3 false true) as (r & p' & E & _ & _ & Hm);
    [apply blcksz_1024|exact page4_ok|by vm_compute|repeat constructor; unfold is_uint; lia|vm_compute; split; [done|discriminate]|].
  exists p'. vm_compute (add_item _ _ _ _ _ _ _ _) in Hm. destruct Hm as (-> & _ & Hc & Hr & _).
  split; [exact E|]. split; [exact Hr|exact Hc].
Defined.

Lemma PageRepairFragmentation_correct_witness :
  ∃ p', PageRepairFragmentation 1024 page4u = Ret (tt, p') ∧ contents p' = contents page4u ∧
    PageGetExactFreeSpace page4u = 912 ∧ PageGetExactFreeSpace p' = 928 ∧ PageHasFreeLinePointers p' = true.
Proof.
  destruct (PageRepairFragmentation_correct 1024 page4u) as (p' & E & _ & _ & Hc & Hf & Hh);
    [apply blcksz_1024|exact page4u_ok|].
  exists p'. split; [exact E|]. split; [exact Hc|]. split; [vm_compute; reflexivity|].
  split; [rewrite Hf; vm_compute; reflexivity|]. rewrite Hh. vm_compute. reflexivity.
Defined.


Lemma PageGetHeapFreeSpace_promise_witness :
  PageGetHeapFreeSpace 1024 page4 = Ret (908, page4) ∧
  ∃ off p', PageAddItem 1024 (replicate 900 9) 900 0 false true page4 = Ret (off, p') ∧
    reads p' off (replicate 900 9).
Proof.
  assert (PageGetHeapFreeSpace 1024 page4 = Ret (908, page4)) as E by (vm_compute; reflexivity).
  split; [exact E|].
  destruct (PageGetHeapFreeSpace_promise 1024 page4 (replicate 900 9) 908) as (off & p' & Ea & _ & Hr & _);
    [apply blcksz_1024|exact page4_ok|vm_compute; discriminate|exact E|
     apply Forall_replicate; unfold is_uint; lia|vm_compute; split; [done|discriminate]|vm_compute; discriminate|].
  exists off, p'. split; [exact Ea|exact Hr].
Defined.

(** A page whose header is valid but whose item would reach past the end of the block: the
    checks of [PageRepairFragmentation] look at the offset of an item, not at its end, and the
    compaction reads beyond the block. *)
Definition overlong_page : PageData :=
  run_page (PageSetItemId 1 (mkItemId 1016 LP_NORMAL 64)) (add_demo 8 1 (run_page (PageInit 1024 1024 0) blank_page)).
Example repair_reads_past_block :
  PageHeaderIsValid 1024 overlong_page = Ret true ∧ PageRepairFragmentation 1024 overlong_page = UB.
Proof. vm_compute. split; reflexivity. Qed.
