(* ===== verification/LWLock.v ===== *)
(** * Lightweight locks: [backend/storage/lmgr/lwlock.c]

    The locks and the processes that share them, as a step relation.  A step is what a
    process does without anybody being able to interfere: a section under the spinlock of a
    lock, one operation on a semaphore, one test of a flag that others write.  Between two
    steps any other process may run, and any process may be sent signals through its
    semaphore for other reasons (the semaphore is shared with the heavyweight lock manager).
    A process is the index of its [PGPROC], a lock the index into [LWLockArray].

    Each list of waiting processes is the chain of [lwWaitLink]s in the shared [PGPROC]s, as
    in the source; [LWLockRelease] detaches a part of it and then walks along it without the
    spinlock.

    Not modelled: the interrupt holdoff counter, statistics and tracing, the assignment and
    the placement of locks in shared memory, and processes without a [PGPROC]. *)

From S2P Require Import Prelude.

Inductive LWLockMode := LW_EXCLUSIVE | LW_SHARED.
#[global] Instance LWLockMode_eq_dec : EqDecision LWLockMode.
Proof. solve_decision. Defined.

Record LWLock := mkLWLock {
  releaseOK : bool;
  exclusive : Z;
  shared : Z;
  head : option nat;
  tail : option nat }.

(** [CreateLWLocks]: the initial state of each lock. *)
Definition lwlock_init : LWLock := mkLWLock true 0 0 None None.

Definition MAX_SIMUL_LWLOCKS : nat := 100.

(** Where a process is in the functions of the file. *)
Inductive lwpc :=
| Running                                               (** outside *)
| Trying (l : nat) (m : LWLockMode) (retry : bool) (extraWaits : Z)
                                                        (** before [SpinLockAcquire] *)
| Sleeping (l : nat) (m : LWLockMode) (extraWaits : Z)  (** before [PGSemaphoreLock] *)
| Checking (l : nat) (m : LWLockMode) (extraWaits : Z)  (** before the test of [lwWaiting] *)
| Repaying (extraWaits : Z)                             (** in the loop at the end *)
| Waking (proc : option nat)                            (** [LWLockRelease]'s loop, [head] *)
| Signalling (proc : nat) (next : option nat).          (** before [PGSemaphoreUnlock] *)

(** The fields of a [PGPROC] that the file uses, the semaphore, and the private
    [held_lwlocks] of the process.  The mode in [held] is what the process asked for; the
    source does not store it and no operation reads it.  [external] counts the signals for
    other purposes less those that have been consumed; no operation reads it. *)
Record proc := mkProc {
  pc : lwpc;
  lwWaiting : bool;
  lwExclusive : bool;
  lwWaitLink : option nat;
  sem : Z;
  held : list (nat * LWLockMode);
  external : Z }.

Record lwstate := mkState { LWLockArray : list LWLock; procs : list proc }.

Definition set_pc (c : lwpc) (pr : proc) : proc :=
  mkProc c (lwWaiting pr) (lwExclusive pr) (lwWaitLink pr) (sem pr) (held pr) (external pr).
Definition set_link (n : option nat) (pr : proc) : proc :=
  mkProc (pc pr) (lwWaiting pr) (lwExclusive pr) n (sem pr) (held pr) (external pr).
Definition set_wait (w x : bool) (pr : proc) : proc :=
  mkProc (pc pr) w x (lwWaitLink pr) (sem pr) (held pr) (external pr).
Definition add_sem (d : Z) (pr : proc) : proc :=
  mkProc (pc pr) (lwWaiting pr) (lwExclusive pr) (lwWaitLink pr) (sem pr + d) (held pr) (external pr).
Definition set_held (h : list (nat * LWLockMode)) (pr : proc) : proc :=
  mkProc (pc pr) (lwWaiting pr) (lwExclusive pr) (lwWaitLink pr) (sem pr) h (external pr).
Definition add_external (d : Z) (pr : proc) : proc :=
  mkProc (pc pr) (lwWaiting pr) (lwExclusive pr) (lwWaitLink pr) (sem pr + d) (held pr) (external pr + d).

Definition upd_proc (p : nat) (f : proc → proc) (st : lwstate) : lwstate :=
  mkState (LWLockArray st) (alter f p (procs st)).
Definition put_lock (l : nat) (lk : LWLock) (st : lwstate) : lwstate :=
  mkState (<[l := lk]> (LWLockArray st)) (procs st).

(** ** The sections under the spinlock *)

(** "If I can get the lock, do so quickly": the lock and [mustwait]. *)
Definition lock_try (m : LWLockMode) (lk : LWLock) : LWLock * bool :=
  match m with
  | LW_EXCLUSIVE =>
      if (exclusive lk =? 0) && (shared lk =? 0)
      then (mkLWLock (releaseOK lk) (exclusive lk + 1) (shared lk) (head lk) (tail lk), false)
      else (lk, true)
  | LW_SHARED =>
      if exclusive lk =? 0
      then (mkLWLock (releaseOK lk) (exclusive lk) (shared lk + 1) (head lk) (tail lk), false)
      else (lk, true)
  end.

(** "Add myself to wait queue." *)
Definition enqueue (p l : nat) (m : LWLockMode) (lk : LWLock) (st : lwstate) : option lwstate :=
  let st := upd_proc p (λ pr, set_link None (set_wait true (bool_decide (m = LW_EXCLUSIVE)) pr)) st in
  match head lk with
  | None =>
      Some (put_lock l (mkLWLock (releaseOK lk) (exclusive lk) (shared lk) (Some p) (Some p)) st)
  | Some h =>
      match tail lk with
      | None => None
      | Some t =>
          Some (put_lock l (mkLWLock (releaseOK lk) (exclusive lk) (shared lk) (Some h) (Some p))
                  (upd_proc t (set_link (Some p)) st))
      end
  end.

(** One pass of the loop of [LWLockAcquire] up to the semaphore. *)
Definition LWLockAcquire_pass (p : nat) (st : lwstate) : option lwstate :=
  pr ← procs st !! p;
  match pc pr with
  | Trying l m retry extraWaits =>
      lk ← LWLockArray st !! l;
      let lk :=
        if retry then mkLWLock true (exclusive lk) (shared lk) (head lk) (tail lk) else lk in
      let '(lk, mustwait) := lock_try m lk in
      if mustwait then
        st ← enqueue p l m lk (put_lock l lk st);
        Some (upd_proc p (set_pc (Sleeping l m extraWaits)) st)
      else
        Some (upd_proc p (λ pr, set_pc (Repaying extraWaits) (set_held (held pr ++ [(l, m)]) pr))
                (put_lock l lk st))
  | _ => None
  end.

(** The start of [LWLockAcquire]: [None] is the error for too many locks. *)
Definition LWLockAcquire_start (p l : nat) (m : LWLockMode) (st : lwstate) : option lwstate :=
  pr ← procs st !! p;
  match pc pr with
  | Running =>
      if (length (held pr) <? MAX_SIMUL_LWLOCKS)%nat
      then Some (upd_proc p (set_pc (Trying l m false 0)) st) else None
  | _ => None
  end.

(** [PGSemaphoreLock] and the test of [lwWaiting]. *)
Definition LWLockAcquire_semaphore (p : nat) (st : lwstate) : option lwstate :=
  pr ← procs st !! p;
  match pc pr with
  | Sleeping l m extraWaits =>
      if 0 <? sem pr
      then Some (upd_proc p (λ pr, set_pc (Checking l m extraWaits) (add_sem (-1) pr)) st) else None
  | Checking l m extraWaits =>
      Some (upd_proc p (set_pc (if lwWaiting pr then Sleeping l m (extraWaits + 1)
                                else Trying l m true extraWaits)) st)
  | _ => None
  end.

(** [while (extraWaits-- > 0) PGSemaphoreUnlock(&proc->sem)] *)
Definition LWLockAcquire_repay (p : nat) (st : lwstate) : option lwstate :=
  pr ← procs st !! p;
  match pc pr with
  | Repaying extraWaits =>
      Some (upd_proc p (if 0 <? extraWaits
                        then λ pr, set_pc (Repaying (extraWaits - 1)) (add_sem 1 pr)
                        else set_pc Running) st)
  | _ => None
  end.

(** The result is the state and the value returned. *)
Definition LWLockConditionalAcquire (p l : nat) (m : LWLockMode) (st : lwstate)
    : option (lwstate * bool) :=
  pr ← procs st !! p;
  match pc pr with
  | Running =>
      if (length (held pr) <? MAX_SIMUL_LWLOCKS)%nat then
        lk ← LWLockArray st !! l;
        let '(lk, mustwait) := lock_try m lk in
        let st := put_lock l lk st in
        Some (if mustwait then st else upd_proc p (λ pr, set_held (held pr ++ [(l, m)]) pr) st,
              negb mustwait)
      else None
  | _ => None
  end.

(** The search of [held_lwlocks] backwards, from index [i - 1] down. *)
Fixpoint held_search (i : nat) (l : nat) (h : list (nat * LWLockMode)) : option nat :=
  match i with
  | O => None
  | S i' =>
      match h !! i' with
      | Some (l', _) => if bool_decide (l = l') then Some i' else held_search i' l h
      | None => None
      end
  end.

(** The last process to be released: [proc], and on while the next one does not want the lock
    exclusively. *)
Fixpoint last_released (fuel : nat) (ps : list proc) (q : nat) : option nat :=
  match fuel with
  | O => None
  | S fuel' =>
      pr ← ps !! q;
      match lwWaitLink pr with
      | None => Some q
      | Some q' =>
          pr' ← ps !! q';
          if lwExclusive pr' then Some q else last_released fuel' ps q'
      end
  end.

(** [LWLockRelease] up to the release of the spinlock; [None] is the error for a lock that is
    not held, or a failed assertion. *)
Definition LWLockRelease_section (p l : nat) (st : lwstate) : option lwstate :=
  pr ← procs st !! p;
  match pc pr with
  | Running =>
      i ← held_search (length (held pr)) l (held pr);
      let st := upd_proc p (λ pr, set_held (delete i (held pr)) pr) st in
      lk ← LWLockArray st !! l;
      lk ← (if 0 <? exclusive lk
            then Some (mkLWLock (releaseOK lk) (exclusive lk - 1) (shared lk) (head lk) (tail lk))
            else if 0 <? shared lk
            then Some (mkLWLock (releaseOK lk) (exclusive lk) (shared lk - 1) (head lk) (tail lk))
            else None);
      match head lk with
      | Some h =>
          if (exclusive lk =? 0) && (shared lk =? 0) && releaseOK lk then
            hpr ← procs st !! h;
            q ← (if lwExclusive hpr then Some h else last_released (length (procs st)) (procs st) h);
            qpr ← procs st !! q;
            let lk := mkLWLock false (exclusive lk) (shared lk) (lwWaitLink qpr) (tail lk) in
            let st := upd_proc q (set_link None) (put_lock l lk st) in
            Some (upd_proc p (set_pc (Waking (Some h))) st)
          else Some (upd_proc p (set_pc (Waking None)) (put_lock l lk st))
      | None => Some (upd_proc p (set_pc (Waking None)) (put_lock l lk st))
      end
  | _ => None
  end.

(** The loop that awakens the detached processes. *)
Definition LWLockRelease_wake (p : nat) (st : lwstate) : option lwstate :=
  pr ← procs st !! p;
  match pc pr with
  | Waking None => Some (upd_proc p (set_pc Running) st)
  | Waking (Some q) =>
      qpr ← procs st !! q;
      let next := lwWaitLink qpr in
      let st := upd_proc q (λ qpr, set_wait false (lwExclusive qpr) (set_link None qpr)) st in
      Some (upd_proc p (set_pc (Signalling q next)) st)
  | Signalling q next =>
      Some (upd_proc p (set_pc (Waking next)) (upd_proc q (add_sem 1) st))
  | _ => None
  end.

(** [LWLockReleaseAll] releases the last lock held; it is repeated while there is one. *)
Definition LWLockReleaseAll_next (p : nat) (st : lwstate) : option lwstate :=
  pr ← procs st !! p;
  '(l, _) ← last (held pr);
  LWLockRelease_section p l st.

Definition LWLockHeldByMe (l : nat) (pr : proc) : bool :=
  existsb (λ e : nat * LWLockMode, bool_decide (fst e = l)) (held pr).

(** ** Steps *)

Inductive lw_step : lwstate → lwstate → Prop :=
| lw_start p l m st st' :
    (l < length (LWLockArray st))%nat → LWLockAcquire_start p l m st = Some st' → lw_step st st'
| lw_pass p st st' : LWLockAcquire_pass p st = Some st' → lw_step st st'
| lw_semaphore p st st' : LWLockAcquire_semaphore p st = Some st' → lw_step st st'
| lw_repay p st st' : LWLockAcquire_repay p st = Some st' → lw_step st st'
| lw_conditional p l m st st' b :
    LWLockConditionalAcquire p l m st = Some (st', b) → lw_step st st'
| lw_release p l st st' : LWLockRelease_section p l st = Some st' → lw_step st st'
| lw_wake p st st' : LWLockRelease_wake p st = Some st' → lw_step st st'
| lw_signal p st : lw_step st (upd_proc p (add_external 1) st)
| lw_consume p pr st :
    procs st !! p = Some pr → pc pr = Running → 0 < sem pr →
    lw_step st (upd_proc p (add_external (-1)) st).

(** All locks free, all processes outside. *)
Definition idle_proc : proc := mkProc Running false false None 0 [] 0.
Definition lw_initial (nlocks nprocs : nat) : lwstate :=
  mkState (replicate nlocks lwlock_init) (replicate nprocs idle_proc).

(** ** Lists of processes *)

Lemma alter_insert {A} (f : A → A) (l : list A) i x : l !! i = Some x → alter f i l = <[i := f x]> l.
Proof.
  revert i. induction l as [|y l IH]; intros [|i] H; simplify_eq/=; [done|].
  unfold alter, list_insert in *. simpl. f_equal. by apply IH.
Qed.

Lemma lookup_insert_cases {A} (l : list A) i j x y :
  <[i := x]> l !! j = Some y → j = i ∧ y = x ∨ j ≠ i ∧ l !! j = Some y.
Proof.
  destruct (decide (i = j)) as [->|Hne].
  - intros H. left. pose proof (lookup_lt_Some _ _ _ H) as Hlt. rewrite length_insert in Hlt.
    rewrite list_lookup_insert_eq in H by done. by injection H.
  - rewrite list_lookup_insert_ne by done. auto.
Qed.

Lemma lookup_insert_here {A} (l : list A) i x y : l !! i = Some y → <[i := x]> l !! i = Some x.
Proof. intros H. apply list_lookup_insert_eq. by eapply lookup_lt_Some. Qed.

(** The sum of a measure over the processes, and what a change of one of them does to it. *)
Definition sum_over {A} (f : A → Z) (l : list A) : Z := foldr (λ x t, f x + t) 0 l.

Lemma sum_over_insert {A} (f : A → Z) (l : list A) i x y :
  l !! i = Some x → sum_over f (<[i := y]> l) = sum_over f l - f x + f y.
Proof.
  revert i. induction l as [|z l IH]; intros [|i] H; simplify_eq/=; [lia|].
  rewrite (IH _ H). lia.
Qed.

Lemma sum_over_nonneg {A} (f : A → Z) (l : list A) : (∀ x, 0 ≤ f x) → 0 ≤ sum_over f l.
Proof. intros H. induction l as [|x l IH]; simpl; [done|]. specialize (H x). lia. Qed.

Lemma sum_over_two {A} (f : A → Z) (l : list A) i j x y :
  (∀ x, 0 ≤ f x) → i ≠ j → l !! i = Some x → l !! j = Some y → f x + f y ≤ sum_over f l.
Proof.
  intros Hf. revert i j. induction l as [|z l IH]; intros i j Hij Hi Hj; [done|].
  pose proof (sum_over_nonneg f l Hf). pose proof (Hf z). simpl.
  assert (∀ k w, l !! k = Some w → f w ≤ sum_over f l) as Hone.
  { intros k w Hk. pose proof (sum_over_insert f l k w z Hk). pose proof (sum_over_nonneg f (<[k := z]> l) Hf).
    clear -Hk Hf. revert k Hk. induction l as [|u l IH]; intros [|k] Hk; simplify_eq/=.
    - pose proof (sum_over_nonneg f l Hf). lia.
    - specialize (IH _ Hk). pose proof (Hf u). lia. }
  destruct i as [|i], j as [|j]; simplify_eq/=.
  - specialize (Hone _ _ Hj). lia.
  - specialize (Hone _ _ Hi). lia.
  - assert (i ≠ j) by congruence. specialize (IH i j ltac:(done) Hi Hj). lia.
Qed.

Lemma sum_over_le {A} (f : A → Z) (l : list A) i x :
  (∀ x, 0 ≤ f x) → l !! i = Some x → f x ≤ sum_over f l.
Proof.
  intros Hf. revert i. induction l as [|z l IH]; intros [|i] Hi; simplify_eq/=.
  - pose proof (sum_over_nonneg f l Hf). lia.
  - specialize (IH _ Hi). pose proof (Hf z). lia.
Qed.

Lemma sum_over_pos {A} (f : A → Z) (l : list A) :
  (∀ x, 0 ≤ f x) → 0 < sum_over f l → ∃ i x, l !! i = Some x ∧ 0 < f x.
Proof.
  intros Hf. induction l as [|z l IH]; simpl; intros Hp; [lia|].
  destruct (Z_lt_le_dec 0 (f z)) as [Hz|Hz]; [by exists 0%nat, z|].
  destruct IH as (i & x & Hi & Hx); [lia|]. by exists (S i), x.
Qed.

(** ** The steps in normal form *)

(** Changes of one process that touch neither a lock nor a list. *)
Inductive local (nlocks : nat) : proc → proc → Prop :=
| local_start pr l m :
    pc pr = Running → (l < nlocks)%nat → local nlocks pr (set_pc (Trying l m false 0) pr)
| local_sleep pr l m e :
    pc pr = Sleeping l m e → 0 < sem pr → local nlocks pr (set_pc (Checking l m e) (add_sem (-1) pr))
| local_again pr l m e :
    pc pr = Checking l m e → lwWaiting pr = true → local nlocks pr (set_pc (Sleeping l m (e + 1)) pr)
| local_awake pr l m e :
    pc pr = Checking l m e → lwWaiting pr = false → local nlocks pr (set_pc (Trying l m true e) pr)
| local_repay pr e :
    pc pr = Repaying e → 0 < e → local nlocks pr (set_pc (Repaying (e - 1)) (add_sem 1 pr))
| local_repaid pr e : pc pr = Repaying e → e ≤ 0 → local nlocks pr (set_pc Running pr)
| local_done pr : pc pr = Waking None → local nlocks pr (set_pc Running pr)
| local_signal pr : local nlocks pr (add_external 1 pr)
| local_consume pr : pc pr = Running → 0 < sem pr → local nlocks pr (add_external (-1) pr).

(** The lock after it has been taken in mode [m]. *)
Definition taken (m : LWLockMode) (lk : LWLock) : LWLock :=
  match m with
  | LW_EXCLUSIVE => mkLWLock (releaseOK lk) (exclusive lk + 1) (shared lk) (head lk) (tail lk)
  | LW_SHARED => mkLWLock (releaseOK lk) (exclusive lk) (shared lk + 1) (head lk) (tail lk)
  end.
Definition free_for (m : LWLockMode) (lk : LWLock) : Prop :=
  exclusive lk = 0 ∧ (m = LW_EXCLUSIVE → shared lk = 0).

Lemma lock_try_spec m lk :
  (∃ lk', lock_try m lk = (lk', false) ∧ free_for m lk ∧ lk' = taken m lk) ∨
  (lock_try m lk = (lk, true) ∧ (exclusive lk ≠ 0 ∨ shared lk ≠ 0)).
Proof.
  unfold lock_try, free_for. destruct m.
  - destruct (Z.eqb_spec (exclusive lk) 0), (Z.eqb_spec (shared lk) 0); simpl; eauto 6.
  - destruct (Z.eqb_spec (exclusive lk) 0); simpl; [left|right]; eauto 6 with congruence.
Qed.

(** The lock after one hold has been given up. *)
Definition given_up (lk : LWLock) : LWLock :=
  if 0 <? exclusive lk
  then mkLWLock (releaseOK lk) (exclusive lk - 1) (shared lk) (head lk) (tail lk)
  else mkLWLock (releaseOK lk) (exclusive lk) (shared lk - 1) (head lk) (tail lk).

Definition retried (retry : bool) (lk : LWLock) : LWLock :=
  if retry then mkLWLock true (exclusive lk) (shared lk) (head lk) (tail lk) else lk.

(** The process after it has joined a list. *)
Definition waiting (l : nat) (m : LWLockMode) (e : Z) (pr : proc) : proc :=
  set_pc (Sleeping l m e) (set_link None (set_wait true (bool_decide (m = LW_EXCLUSIVE)) pr)).

(** [q] is the last process that [LWLockRelease] takes off the list that starts at [h]. *)
Definition release_last (ps : list proc) (h q : nat) : Prop :=
  ∃ hpr, ps !! h = Some hpr ∧
    (if lwExclusive hpr then Some h else last_released (length ps) ps h) = Some q.

Inductive norm : lwstate → lwstate → Prop :=
| norm_local L ps p pr pr' :
    ps !! p = Some pr → local (length L) pr pr' → norm (mkState L ps) (mkState L (<[p := pr']> ps))
| norm_get L ps p pr l m lk retry e :
    ps !! p = Some pr → L !! l = Some lk → free_for m lk → pc pr = Trying l m retry e →
    norm (mkState L ps)
      (mkState (<[l := taken m (retried retry lk)]> L)
         (<[p := set_pc (Repaying e) (set_held (held pr ++ [(l, m)]) pr)]> ps))
| norm_conditional L ps p pr l m lk :
    ps !! p = Some pr → L !! l = Some lk → free_for m lk → pc pr = Running →
    norm (mkState L ps)
      (mkState (<[l := taken m lk]> L) (<[p := set_held (held pr ++ [(l, m)]) pr]> ps))
| norm_same st : norm st st
| norm_wait_first L ps p pr l m lk retry e :
    ps !! p = Some pr → L !! l = Some lk → pc pr = Trying l m retry e →
    exclusive lk ≠ 0 ∨ shared lk ≠ 0 → head lk = None →
    norm (mkState L ps)
      (mkState (<[l := mkLWLock (releaseOK (retried retry lk)) (exclusive lk) (shared lk) (Some p) (Some p)]> L)
         (<[p := waiting l m e pr]> ps))
| norm_wait_next L ps p pr l m lk retry e h t tpr :
    ps !! p = Some pr → L !! l = Some lk → pc pr = Trying l m retry e →
    exclusive lk ≠ 0 ∨ shared lk ≠ 0 → head lk = Some h → tail lk = Some t →
    <[p := waiting l m e pr]> ps !! t = Some tpr →
    norm (mkState L ps)
      (mkState (<[l := mkLWLock (releaseOK (retried retry lk)) (exclusive lk) (shared lk) (Some h) (Some p)]> L)
         (<[t := set_link (Some p) tpr]> (<[p := waiting l m e pr]> ps)))
| norm_wait_none L ps p pr l m lk retry e h t :
    ps !! p = Some pr → L !! l = Some lk → pc pr = Trying l m retry e → head lk = Some h →
    tail lk = Some t → ps !! t = None →
    norm (mkState L ps)
      (mkState (<[l := mkLWLock (releaseOK (retried retry lk)) (exclusive lk) (shared lk) (Some h) (Some p)]> L)
         (<[p := waiting l m e pr]> ps))
| norm_release L ps p pr l m i lk :
    ps !! p = Some pr → L !! l = Some lk → pc pr = Running → held pr !! i = Some (l, m) →
    0 < exclusive lk ∨ 0 < shared lk →
    head lk = None ∨ exclusive (given_up lk) ≠ 0 ∨ shared (given_up lk) ≠ 0 ∨ releaseOK lk = false →
    norm (mkState L ps)
      (mkState (<[l := given_up lk]> L) (<[p := set_pc (Waking None) (set_held (delete i (held pr)) pr)]> ps))
| norm_detach L ps p pr l m i lk h q qpr :
    let ps1 := <[p := set_held (delete i (held pr)) pr]> ps in
    ps !! p = Some pr → L !! l = Some lk → pc pr = Running → held pr !! i = Some (l, m) →
    0 < exclusive lk ∨ 0 < shared lk →
    exclusive (given_up lk) = 0 → shared (given_up lk) = 0 → head lk = Some h → releaseOK lk = true →
    release_last ps1 h q → ps1 !! q = Some qpr →
    norm (mkState L ps)
      (mkState (<[l := mkLWLock false 0 0 (lwWaitLink qpr) (tail lk)]> L)
         (alter (set_pc (Waking (Some h))) p (<[q := set_link None qpr]> ps1)))
| norm_clear L ps p pr q qpr :
    ps !! p = Some pr → pc pr = Waking (Some q) → ps !! q = Some qpr →
    norm (mkState L ps)
      (mkState L (alter (set_pc (Signalling q (lwWaitLink qpr))) p
         (<[q := set_wait false (lwExclusive qpr) (set_link None qpr)]> ps)))
| norm_post L ps p pr q next :
    ps !! p = Some pr → pc pr = Signalling q next →
    norm (mkState L ps)
      (mkState L (alter (set_pc (Waking next)) p (alter (add_sem 1) q ps))).

Lemma held_search_spec i l h j :
  held_search i l h = Some j → ∃ m, h !! j = Some (l, m).
Proof.
  induction i as [|i IH]; simpl; [done|]. destruct (h !! i) as [[l' m]|] eqn:Hi; [|done].
  case_bool_decide as Hl; [|done]. intros [= <-]. subst. by exists m.
Qed.

Lemma upd_proc_some p f L ps pr :
  ps !! p = Some pr → upd_proc p f (mkState L ps) = mkState L (<[p := f pr]> ps).
Proof. intros H. unfold upd_proc. simpl. by rewrite (alter_insert _ _ _ _ H). Qed.

Lemma alter_none {A} (f : A → A) (l : list A) i : l !! i = None → alter f i l = l.
Proof.
  revert i. induction l as [|y l IH]; intros [|i] H; simplify_eq/=; [done..|].
  unfold alter in *. simpl. f_equal. by apply IH.
Qed.

Lemma norm_pass p st st' : LWLockAcquire_pass p st = Some st' → norm st st'.
Proof.
  destruct st as [L ps]. unfold LWLockAcquire_pass. simpl.
  destruct (ps !! p) as [pr|] eqn:Hp; [simpl|done].
  destruct (pc pr) as [|l m retry e| | | | |] eqn:Hpc; try done.
  destruct (L !! l) as [lk|] eqn:Hl; [simpl|done].
  change (if retry then _ else lk) with (retried retry lk).
  assert (exclusive (retried retry lk) = exclusive lk ∧ shared (retried retry lk) = shared lk ∧
    head (retried retry lk) = head lk ∧ tail (retried retry lk) = tail lk) as (He & Hs & Hh & Ht)
    by (by destruct retry).
  destruct (lock_try_spec m (retried retry lk)) as [(lk' & -> & [Hf1 Hf2] & ->)|[-> Hb]]; simpl.
  - intros [= <-]. unfold put_lock. simpl. rewrite (upd_proc_some _ _ _ _ _ Hp).
    apply (norm_get L ps p pr l m lk retry e); [done..| |done].
    split; [congruence|]. intros ->. rewrite <- Hs. by apply Hf2.
  - rewrite He, Hs in Hb. unfold enqueue, put_lock. simpl.
    rewrite Hh, Ht. destruct (head lk) as [h|] eqn:Hhd; simpl.
    + destruct (tail lk) as [t|] eqn:Htl; [simpl|done]. intros [= <-].
      unfold upd_proc. simpl. rewrite (alter_insert _ _ _ _ Hp), list_insert_insert_eq, He, Hs.
      destruct (decide (t = p)) as [->|Hne].
      * rewrite (alter_insert _ _ _ _ (lookup_insert_here _ _ _ _ Hp)), list_insert_insert_eq.
        rewrite (alter_insert _ _ _ _ (lookup_insert_here _ _ _ _ Hp)), list_insert_insert_eq.
        pose proof (norm_wait_next L ps p pr l m lk retry e h p _ Hp Hl Hpc Hb Hhd Htl
          (lookup_insert_here _ _ _ _ Hp)) as Hn.
        rewrite list_insert_insert_eq in Hn. exact Hn.
      * destruct (ps !! t) as [tpr|] eqn:Hq.
        -- erewrite (alter_insert (set_link (Some p))); [|by rewrite list_lookup_insert_ne by congruence].
           erewrite alter_insert; [|rewrite list_lookup_insert_ne by done; by eapply lookup_insert_here].
           rewrite list_insert_insert_ne by congruence. rewrite list_insert_insert_eq.
           apply (norm_wait_next L ps p pr l m lk retry e h t tpr); try done.
           by rewrite list_lookup_insert_ne by congruence.
        -- rewrite (alter_none (set_link (Some p))) by (by rewrite list_lookup_insert_ne by congruence).
           erewrite alter_insert; [|by eapply lookup_insert_here]. rewrite list_insert_insert_eq.
           by apply (norm_wait_none L ps p pr l m lk retry e h t).
    + intros [= <-]. unfold upd_proc. simpl. rewrite (alter_insert _ _ _ _ Hp), list_insert_insert_eq, He, Hs.
      erewrite alter_insert; [|by eapply lookup_insert_here]. rewrite list_insert_insert_eq.
      by apply (norm_wait_first L ps p pr l m lk retry e).
Qed.

Lemma norm_release_section p l st st' : LWLockRelease_section p l st = Some st' → norm st st'.
Proof.
  destruct st as [L ps]. unfold LWLockRelease_section. simpl.
  destruct (ps !! p) as [pr|] eqn:Hp; [simpl|done]. destruct (pc pr) eqn:Hpc; try done.
  destruct (held_search _ _ _) as [i|] eqn:Hi; [simpl|done].
  apply held_search_spec in Hi as [m Hi].
  destruct (L !! l) as [lk|] eqn:Hl; [simpl|done].
  assert ((if 0 <? exclusive lk
           then Some (mkLWLock (releaseOK lk) (exclusive lk - 1) (shared lk) (head lk) (tail lk))
           else if 0 <? shared lk
           then Some (mkLWLock (releaseOK lk) (exclusive lk) (shared lk - 1) (head lk) (tail lk))
           else None) = (if decide (0 < exclusive lk ∨ 0 < shared lk) then Some (given_up lk) else None)) as ->.
  { unfold given_up. destruct (Z.ltb_spec 0 (exclusive lk)), (Z.ltb_spec 0 (shared lk)); case_decide; tauto || lia. }
  case_decide as Hh; [simpl|done].
  assert (head (given_up lk) = head lk ∧ releaseOK (given_up lk) = releaseOK lk ∧
    tail (given_up lk) = tail lk) as (-> & -> & ->) by (by unfold given_up; case_match).
  unfold put_lock, upd_proc. simpl. rewrite !(alter_insert _ _ _ _ Hp).
  destruct (head lk) as [h|] eqn:Hhd.
  2:{ intros [= <-]. erewrite alter_insert; [|by eapply lookup_insert_here].
      rewrite list_insert_insert_eq. apply (norm_release L ps p pr l m i lk); auto. }
  destruct (_ && _) eqn:Hc.
  2:{ intros [= <-]. erewrite alter_insert; [|by eapply lookup_insert_here].
      rewrite list_insert_insert_eq. apply (norm_release L ps p pr l m i lk); auto.
      right. destruct (Z.eqb_spec (exclusive (given_up lk)) 0), (Z.eqb_spec (shared (given_up lk)) 0); auto. }
  apply andb_true_iff in Hc as [Hc Hok]. apply andb_true_iff in Hc as [Hx Hs].
  apply Z.eqb_eq in Hx, Hs. rewrite Hx, Hs.
  set (ps1 := <[p := set_held (delete i (held pr)) pr]> ps).
  destruct (ps1 !! h) as [hpr|] eqn:Hhp; [simpl|done].
  destruct (if lwExclusive hpr then _ else _) as [q|] eqn:Hq; [simpl|done].
  destruct (ps1 !! q) as [qpr|] eqn:Hqp; [simpl|done]. intros [= <-].
  rewrite (alter_insert _ _ _ _ Hqp).
  apply (norm_detach L ps p pr l m i lk h q qpr); try done. by exists hpr.
Qed.

Lemma norm_wake p st st' : LWLockRelease_wake p st = Some st' → norm st st'.
Proof.
  destruct st as [L ps]. unfold LWLockRelease_wake. simpl.
  destruct (ps !! p) as [pr|] eqn:Hp; [simpl|done].
  destruct (pc pr) as [| | | | |[q|]|q next] eqn:Hpc; try done.
  - destruct (ps !! q) as [qpr|] eqn:Hq; [simpl|done]. intros [= <-].
    unfold upd_proc. simpl. rewrite (alter_insert _ _ _ _ Hq). by apply (norm_clear L ps p pr q qpr).
  - intros [= <-]. rewrite (upd_proc_some _ _ _ _ _ Hp). apply (norm_local L ps p pr); [done|].
    by apply local_done.
  - intros [= <-]. unfold upd_proc. simpl. by apply (norm_post L ps p pr q next).
Qed.

Lemma norm_semaphore p st st' : LWLockAcquire_semaphore p st = Some st' → norm st st'.
Proof.
  destruct st as [L ps]. unfold LWLockAcquire_semaphore. simpl.
  destruct (ps !! p) as [pr|] eqn:Hp; [simpl|done].
  destruct (pc pr) as [| |l m e|l m e| | |] eqn:Hpc; try done.
  - destruct (Z.ltb_spec 0 (sem pr)); [|done]. intros [= <-]. rewrite (upd_proc_some _ _ _ _ _ Hp).
    apply (norm_local L ps p pr); [done|]. by apply local_sleep.
  - intros [= <-]. rewrite (upd_proc_some _ _ _ _ _ Hp). apply (norm_local L ps p pr); [done|].
    destruct (lwWaiting pr) eqn:Hw; by constructor.
Qed.

(** Every step has the normal form. *)
Lemma lw_step_norm st st' : lw_step st st' → norm st st'.
Proof.
  destruct 1 as [p l m [L ps] st' Hlt H|p st st' H|p st st' H|p [L ps] st' H|p l m [L ps] st' b H|p l st st' H|p st st' H|p [L ps]|p pr [L ps] Hp Hr Hs];
    simpl in *.
  - unfold LWLockAcquire_start in H. simpl in H. destruct (ps !! p) as [pr|] eqn:Hp; [simpl in H|done].
    destruct (pc pr) eqn:Hpc; try done. case_match; [|done]. injection H as <-.
    rewrite (upd_proc_some _ _ _ _ _ Hp). apply (norm_local L ps p pr); [done|]. by constructor.
  - by eapply norm_pass.
  - by eapply norm_semaphore.
  - unfold LWLockAcquire_repay in H. simpl in H. destruct (ps !! p) as [pr|] eqn:Hp; [simpl in H|done].
    destruct (pc pr) as [| | | |e| |] eqn:Hpc; try done. injection H as <-.
    rewrite (upd_proc_some _ _ _ _ _ Hp). apply (norm_local L ps p pr); [done|].
    destruct (Z.ltb_spec 0 e); [by constructor|by eapply local_repaid].
  - unfold LWLockConditionalAcquire in H. simpl in H. destruct (ps !! p) as [pr|] eqn:Hp; [simpl in H|done].
    destruct (pc pr) eqn:Hpc; try done. case_match; [|done].
    destruct (L !! l) as [lk|] eqn:Hl; [simpl in H|done].
    destruct (lock_try_spec m lk) as [(lk' & Htry & Hf & ->)|[Htry Hb]]; rewrite Htry in H; injection H as <- <-.
    + unfold put_lock. simpl. rewrite (upd_proc_some _ _ _ _ _ Hp). by apply (norm_conditional L ps p pr l m lk).
    + unfold put_lock. simpl. rewrite list_insert_id by done. apply norm_same.
  - by eapply norm_release_section.
  - by eapply norm_wake.
  - destruct (ps !! p) as [pr|] eqn:Hp.
    + rewrite (upd_proc_some _ _ _ _ _ Hp). apply (norm_local L ps p pr); [done|]. constructor.
    + unfold upd_proc. simpl. rewrite alter_none by done. apply norm_same.
  - rewrite (upd_proc_some _ _ _ _ _ Hp). apply (norm_local L ps p pr); [done|]. by constructor.
Qed.

(** ** The counts of a lock *)

(** How often the process holds the lock in this mode. *)
Definition hold_count (l : nat) (m : LWLockMode) (pr : proc) : Z :=
  Z.of_nat (length (filter (λ e, e = (l, m)) (held pr))).

(** The fields of a lock count its holders; there is at most one exclusive holder, and
    nobody else with it. *)
Definition counts_ok (st : lwstate) : Prop :=
  ∀ l lk, LWLockArray st !! l = Some lk →
    exclusive lk = sum_over (hold_count l LW_EXCLUSIVE) (procs st) ∧
    shared lk = sum_over (hold_count l LW_SHARED) (procs st) ∧
    (exclusive lk = 0 ∨ exclusive lk = 1 ∧ shared lk = 0).

Lemma hold_count_nonneg l m pr : 0 ≤ hold_count l m pr.
Proof. unfold hold_count. lia. Qed.

Lemma sum_over_alter {A} (f : A → Z) g (l : list A) i :
  (∀ x, f (g x) = f x) → sum_over f (alter g i l) = sum_over f l.
Proof.
  intros Hg. destruct (l !! i) as [x|] eqn:Hi.
  - rewrite (alter_insert _ _ _ _ Hi), (sum_over_insert _ _ _ _ _ Hi), Hg. lia.
  - by rewrite alter_none.
Qed.

Lemma hold_count_add l m l' m' pr :
  hold_count l' m' (set_held (held pr ++ [(l, m)]) pr) =
  hold_count l' m' pr + if decide ((l, m) = (l', m')) then 1 else 0.
Proof.
  unfold hold_count. simpl. rewrite filter_app, length_app, filter_cons, filter_nil.
  repeat case_decide; simpl; lia || congruence.
Qed.

Lemma hold_count_delete l m l' m' i pr :
  held pr !! i = Some (l, m) →
  hold_count l' m' (set_held (delete i (held pr)) pr) =
  hold_count l' m' pr - if decide ((l, m) = (l', m')) then 1 else 0.
Proof.
  unfold hold_count. simpl. intros H. rewrite <- (take_drop_middle _ _ _ H) at 2.
  rewrite delete_take_drop, !filter_app, !length_app, filter_cons.
  repeat case_decide; simpl; lia || congruence.
Qed.

(** A change of one process that keeps its list of locks changes no count. *)
Lemma holds_same l m ps p pr pr' :
  ps !! p = Some pr → held pr' = held pr →
  sum_over (hold_count l m) (<[p := pr']> ps) = sum_over (hold_count l m) ps.
Proof. intros Hp Hh. rewrite (sum_over_insert _ _ _ _ _ Hp). unfold hold_count. rewrite Hh. lia. Qed.

Definition holds (l : nat) (m : LWLockMode) (ps : list proc) : Z := sum_over (hold_count l m) ps.

(** The counts after a process has taken a lock, and after it has given one up. *)
Lemma counts_take L ps ps' l m lk lk' :
  counts_ok (mkState L ps) → L !! l = Some lk → free_for m lk →
  exclusive lk' = exclusive (taken m lk) → shared lk' = shared (taken m lk) →
  (∀ l' m', holds l' m' ps' = holds l' m' ps + if decide ((l, m) = (l', m')) then 1 else 0) →
  counts_ok (mkState (<[l := lk']> L) ps').
Proof.
  intros Hc Hl [Hf1 Hf2] He Hs Hh l' lk0 Hl'. simpl in *.
  destruct (lookup_insert_cases _ _ _ _ _ Hl') as [[-> ->]|[Hne Hl0]].
  - destruct (Hc _ _ Hl) as (E & S & X). simpl in E, S, X. unfold holds in *. rewrite !Hh.
    destruct m; simpl in He, Hs; repeat case_decide; try congruence; [specialize (Hf2 eq_refl)|]; lia.
  - destruct (Hc _ _ Hl0) as (E & S & X). unfold holds in *. simpl in *. rewrite !Hh.
    repeat case_decide; try congruence. lia.
Qed.

Lemma counts_give L ps ps' l m lk lk' i p pr :
  counts_ok (mkState L ps) → L !! l = Some lk → ps !! p = Some pr → held pr !! i = Some (l, m) →
  exclusive lk' = exclusive (given_up lk) → shared lk' = shared (given_up lk) →
  (∀ l' m', holds l' m' ps' = holds l' m' ps - if decide ((l, m) = (l', m')) then 1 else 0) →
  counts_ok (mkState (<[l := lk']> L) ps').
Proof.
  intros Hc Hl Hp Hi He Hs Hh l' lk0 Hl'. simpl in *.
  destruct (lookup_insert_cases _ _ _ _ _ Hl') as [[-> ->]|[Hne Hl0]].
  - destruct (Hc _ _ Hl) as (E & S & X). simpl in E, S, X. unfold holds in *. rewrite !Hh.
    assert (1 ≤ sum_over (hold_count l m) ps) as Hge.
    { pose proof (sum_over_le (hold_count l m) ps p pr (hold_count_nonneg _ _) Hp).
      pose proof (hold_count_delete l m l m i pr Hi). rewrite decide_True in H0 by done.
      pose proof (hold_count_nonneg l m (set_held (delete i (held pr)) pr)). lia. }
    assert (0 ≤ shared lk) by (rewrite S; apply sum_over_nonneg, hold_count_nonneg).
    unfold given_up in He, Hs.
    destruct m, (Z.ltb_spec 0 (exclusive lk)); simpl in He, Hs; repeat case_decide; try congruence; lia.
  - destruct (Hc _ _ Hl0) as (E & S & X). unfold holds in *. simpl in *. rewrite !Hh.
    repeat case_decide; try congruence. lia.
Qed.

Lemma counts_lists L ps L' ps' :
  counts_ok (mkState L ps) →
  (∀ l lk', L' !! l = Some lk' →
     ∃ lk, L !! l = Some lk ∧ exclusive lk' = exclusive lk ∧ shared lk' = shared lk) →
  (∀ l m, holds l m ps' = holds l m ps) → counts_ok (mkState L' ps').
Proof.
  intros Hc HL Hh l lk' Hl'. destruct (HL _ _ Hl') as (lk & Hl & -> & ->). unfold holds in Hh. simpl. rewrite !Hh.
  exact (Hc _ _ Hl).
Qed.

Lemma local_held n pr pr' : local n pr pr' → held pr' = held pr.
Proof. by destruct 1. Qed.

Lemma counts_locks_insert (L : list LWLock) l lk lk' l' lk'' :
  L !! l = Some lk → exclusive lk' = exclusive lk → shared lk' = shared lk →
  <[l := lk']> L !! l' = Some lk'' →
  ∃ lk, L !! l' = Some lk ∧ exclusive lk'' = exclusive lk ∧ shared lk'' = shared lk.
Proof.
  intros Hl He Hs Hl'. destruct (lookup_insert_cases _ _ _ _ _ Hl') as [[-> ->]|[Hne Hl0]]; eauto.
Qed.

Lemma counts_step st st' : norm st st' → counts_ok st → counts_ok st'.
Proof.
  intros Hn Hc. destruct Hn as
    [L ps p pr pr' Hp Hloc|L ps p pr l m lk retry e Hp Hl Hf Hpc|L ps p pr l m lk Hp Hl Hf Hpc|st
    |L ps p pr l m lk retry e Hp Hl Hpc Hb Hh|L ps p pr l m lk retry e h t tpr Hp Hl Hpc Hb Hh Ht Htp
    |L ps p pr l m lk retry e h t Hp Hl Hpc Hh Ht Htp|L ps p pr l m i lk Hp Hl Hpc Hi Hb Hh
    |L ps p pr l m i lk h q qpr ps1 Hp Hl Hpc Hi Hb Hx Hs Hh Hok Hq Hqp|L ps p pr q qpr Hp Hpc Hq
    |L ps p pr q next Hp Hpc].
  - eapply counts_lists; [exact Hc|eauto|]. intros l m. apply (holds_same l m ps p pr); [done|].
    by eapply local_held.
  - apply (counts_take L ps _ l m lk); try done; [by destruct m, retry..|].
    intros l' m'. unfold holds. rewrite (sum_over_insert _ _ _ _ _ Hp).
    change (hold_count l' m' (set_pc ?c ?x)) with (hold_count l' m' x). rewrite hold_count_add. lia.
  - apply (counts_take L ps _ l m lk); try done.
    intros l' m'. unfold holds. rewrite (sum_over_insert _ _ _ _ _ Hp), hold_count_add. lia.
  - done.
  - eapply counts_lists; [exact Hc|intros l' lk'; by apply (counts_locks_insert L l lk)|].
    intros l' m'. by apply (holds_same l' m' ps p pr).
  - eapply counts_lists; [exact Hc|intros l' lk'; by apply (counts_locks_insert L l lk)|].
    intros l' m'. unfold holds. rewrite (holds_same _ _ _ t tpr) by done. by apply (holds_same l' m' ps p pr).
  - eapply counts_lists; [exact Hc|intros l' lk'; by apply (counts_locks_insert L l lk)|].
    intros l' m'. by apply (holds_same l' m' ps p pr).
  - apply (counts_give L ps _ l m lk _ i p pr); try done.
    intros l' m'. unfold holds. rewrite (sum_over_insert _ _ _ _ _ Hp).
    change (hold_count l' m' (set_pc ?c ?x)) with (hold_count l' m' x).
    rewrite (hold_count_delete l m) by done. lia.
  - apply (counts_give L ps _ l m lk _ i p pr); try done.
    intros l' m'. unfold holds. rewrite sum_over_alter by done. rewrite (holds_same _ _ _ q qpr) by done.
    unfold ps1. rewrite (sum_over_insert _ _ _ _ _ Hp), (hold_count_delete l m) by done. lia.
  - eapply counts_lists; [exact Hc|eauto|]. intros l m. unfold holds. rewrite sum_over_alter by done.
    by apply (holds_same _ _ _ q qpr).
  - eapply counts_lists; [exact Hc|eauto|]. intros l m. unfold holds. by rewrite !sum_over_alter by done.
Qed.

Lemma counts_initial n m : counts_ok (lw_initial n m).
Proof.
  intros l lk Hl. simpl in *. apply lookup_replicate in Hl as [-> _]. simpl.
  assert (∀ md, sum_over (hold_count l md) (replicate m idle_proc) = 0) as Hz.
  { intros md. induction m as [|m IH]; simpl; [done|]. rewrite IH. done. }
  rewrite !Hz. auto.
Qed.

(** The states that the system of [n] locks and [m] processes can be in. *)
Definition lw_reachable (n m : nat) (st : lwstate) : Prop := rtc lw_step (lw_initial n m) st.

Lemma lw_reachable_ind_norm (P : lwstate → Prop) n m :
  P (lw_initial n m) → (∀ st st', norm st st' → P st → P st') → ∀ st, lw_reachable n m st → P st.
Proof.
  intros H0 Hs st Hr. unfold lw_reachable in Hr. revert H0.
  induction Hr as [|x y z Hxy _ IH]; [done|]. intros Hx. apply IH. eapply Hs; [by apply lw_step_norm|done].
Qed.

Lemma counts_reachable n m st : lw_reachable n m st → counts_ok st.
Proof. apply lw_reachable_ind_norm; [apply counts_initial|apply counts_step]. Qed.

(** ** The lists of waiting processes *)

(** The lock whose list the process is on, or has been taken off. *)
Definition waits_for (pr : proc) : option nat :=
  match pc pr with Sleeping l _ _ => Some l | Checking l _ _ => Some l | _ => None end.
Definition listed_for (pr : proc) : option nat := if lwWaiting pr then waits_for pr else None.

(** Where a process stands in the loop of [LWLockRelease]. *)
Definition wake_head (pr : proc) : option nat :=
  match pc pr with Waking o => o | Signalling _ o => o | _ => None end.

(** A list starts in a lock, or in the local variable of a process that runs
    [LWLockRelease]. *)
Abbreviation place := (nat + nat)%type.

Record view := mkView {
  v_start : place → option nat;
  v_link : nat → option nat;
  v_tail : nat → option nat;
  v_wait : nat → option nat }.

Definition view_of (st : lwstate) : view := {|
  v_start k := match k with inl l => LWLockArray st !! l ≫= head | inr p => procs st !! p ≫= wake_head end;
  v_link q := procs st !! q ≫= lwWaitLink;
  v_tail l := LWLockArray st !! l ≫= tail;
  v_wait q := procs st !! q ≫= listed_for |}.

Fixpoint chain (link : nat → option nat) (o : option nat) (g : list nat) : Prop :=
  match g with
  | [] => o = None
  | q :: g' => o = Some q ∧ chain link (link q) g'
  end.

(** [G] gives the list of each place. *)
Record lists_ok (G : place → list nat) (v : view) : Prop := {
  lo_chain : ∀ k, chain (v_link v) (v_start v k) (G k);
  lo_tail : ∀ l t, last (G (inl l)) = Some t → v_tail v l = Some t;
  lo_nodup : ∀ k, NoDup (G k);
  lo_disj : ∀ k k' q, q ∈ G k → q ∈ G k' → k = k';
  lo_wait : ∀ k q, q ∈ G k → ∃ l, v_wait v q = Some l ∧ ∀ l', k = inl l' → l' = l;
  lo_all : ∀ q l, v_wait v q = Some l → ∃ k, q ∈ G k }.

Lemma chain_ext link link' o g :
  (∀ q, q ∈ g → link' q = link q) → chain link o g → chain link' o g.
Proof.
  revert o. induction g as [|q g IH]; intros o Hq; simpl; [done|]. intros [-> Hc].
  split; [done|]. rewrite (Hq q) by set_solver. apply IH; [|done]. set_solver.
Qed.


(** Cutting a list after [q]. *)
Lemma chain_cut link o a q b :
  NoDup (a ++ q :: b) → chain link o (a ++ q :: b) →
  chain (λ x, if decide (x = q) then None else link x) o (a ++ [q]) ∧ chain link (link q) b.
Proof.
  revert o. induction a as [|x a IH]; intros o Hnd; simpl in *.
  - intros [-> Hc]. by rewrite decide_True by done.
  - intros [-> Hc]. apply NoDup_cons in Hnd as [Hx Hnd].
    destruct (IH _ Hnd Hc) as [H1 H2]. rewrite decide_False by set_solver. auto.
Qed.

(** Joining a list at its end. *)
Lemma chain_snoc link link' o g p :
  p ∉ g → NoDup g → chain link o g → link' p = None →
  (∀ q, q ∈ g → link' q = if decide (last g = Some q) then Some p else link q) →
  chain link' (if o is Some h then Some h else Some p) (g ++ [p]).
Proof.
  revert o. induction g as [|q g IH]; intros o Hp Hnd Hc Hlp Hl; simpl in *.
  - subst o. by rewrite Hlp.
  - destruct Hc as [-> Hc]. split; [done|]. apply NoDup_cons in Hnd as [Hq Hnd].
    rewrite (Hl q) by set_solver. destruct g as [|q' g].
    + simpl. rewrite decide_True by done. by rewrite Hlp.
    + destruct Hc as [Hq' Hc]. rewrite decide_False.
      2:{ change (last (q :: q' :: g)) with (last (q' :: g)). intros Hlast. apply Hq. by apply last_Some_elem_of. }
      rewrite Hq'. apply (IH (Some q')); [set_solver|done|done|done|].
      intros x Hx. rewrite Hl by set_solver. done.
Qed.

Definition place_upd (k : place) (g : list nat) (G : place → list nat) : place → list nat :=
  λ k', if decide (k' = k) then g else G k'.

Lemma lists_same G v v' :
  lists_ok G v → (∀ k, v_start v' k = v_start v k) → (∀ q, v_link v' q = v_link v q) →
  (∀ l, v_tail v' l = v_tail v l) → (∀ q, v_wait v' q = v_wait v q) → lists_ok G v'.
Proof.
  intros [H1 H2 H3 H4 H5 H6] Hs Hl Ht Hw. split; try done.
  - intros k. rewrite Hs. by eapply chain_ext; [|apply H1].
  - intros l t. rewrite Ht. apply H2.
  - intros k q Hq. rewrite Hw. by apply H5.
  - intros q l. rewrite Hw. apply H6.
Qed.

(** A process that is on no list joins that of [l]. *)
Lemma lists_push G v v' p l :
  lists_ok G v → v_wait v p = None →
  (∀ k, v_start v' k = if decide (k = inl l) then Some (default p (v_start v k)) else v_start v k) →
  (∀ q, v_link v' q = if decide (q = p) then None
                      else if decide (last (G (inl l)) = Some q) then Some p else v_link v q) →
  (∀ l', v_tail v' l' = if decide (l' = l) then Some p else v_tail v l') →
  (∀ q, v_wait v' q = if decide (q = p) then Some l else v_wait v q) →
  lists_ok (place_upd (inl l) (G (inl l) ++ [p]) G) v'.
Proof.
  intros [H1 H2 H3 H4 H5 H6] Hp Hs Hl Ht Hw.
  assert (∀ k, p ∉ G k) as Hno.
  { intros k Hk. destruct (H5 _ _ Hk) as (? & ? & _). congruence. }
  split; unfold place_upd.
  - intros k. rewrite Hs. case_decide as Hk.
    + subst k. replace (Some (default p (v_start v (inl l))))
        with (if v_start v (inl l) is Some h then Some h else Some p) by (by destruct (v_start v (inl l))).
      apply (chain_snoc (v_link v)); auto.
      * rewrite Hl. by rewrite decide_True.
      * intros q Hq. rewrite Hl. rewrite decide_False; [done|]. intros ->. by apply (Hno (inl l)).
    + eapply chain_ext; [|apply H1]. intros q Hq. rewrite Hl.
      rewrite decide_False by (intros ->; by apply (Hno k)).
      rewrite decide_False; [done|]. intros Hlast. apply Hk. apply (H4 _ _ q Hq). by apply last_Some_elem_of.
  - intros l' t. rewrite Ht. destruct (decide (l' = l)) as [->|Hne].
    + rewrite decide_True by done. rewrite last_snoc. done.
    + rewrite decide_False by congruence. apply H2.
  - intros k. case_decide; [|done]. apply NoDup_app. split; [done|]. split; [|apply NoDup_singleton].
    intros q Hq Hq'. apply list_elem_of_singleton in Hq' as ->. by apply (Hno (inl l)).
  - intros k k' q. specialize (H4 k k' q).
    assert (∀ k1, q ∈ (if decide (k1 = inl l) then G (inl l) ++ [p] else G k1) → k1 = inl l ∧ q = p ∨ q ∈ G k1) as Hcase.
    { intros k1. case_decide; [subst|]; set_solver. }
    intros [[-> ->]|Hk]%Hcase [[-> Hq]|Hk']%Hcase; auto; try (subst q); exfalso; by eapply Hno.
  - intros k q Hq. rewrite Hw. destruct (decide (q = p)) as [->|Hne].
    + exists l. split; [done|]. intros l' ->. destruct (decide (inl l' = inl l)) as [E|_]; [congruence|].
      exfalso; by eapply Hno.
    + destruct (decide (k = inl l)) as [->|Hk]; [|by apply H5].
      destruct (H5 (inl l) q) as (l1 & Hl1 & Heq); [set_solver|]. exists l1. auto.
  - intros q l'. rewrite Hw. case_decide as Hq.
    + intros _. exists (inl l). rewrite decide_True by done. set_solver.
    + intros [k Hk]%H6. exists k. case_decide; [subst|]; set_solver.
Qed.

(** [LWLockRelease] detaches the list of [l] up to [q]. *)
Lemma lists_detach G v v' p l a q b :
  lists_ok G v → v_start v (inr p) = None → G (inl l) = a ++ q :: b →
  (∀ k, v_start v' k = if decide (k = inl l) then v_link v q
                       else if decide (k = inr p) then v_start v (inl l) else v_start v k) →
  (∀ x, v_link v' x = if decide (x = q) then None else v_link v x) →
  (∀ l', v_tail v' l' = v_tail v l') → (∀ x, v_wait v' x = v_wait v x) →
  lists_ok (place_upd (inl l) b (place_upd (inr p) (a ++ [q]) G)) v'.
Proof.
  intros [H1 H2 H3 H4 H5 H6] Hp Hg Hs Hl Ht Hw.
  assert (G (inr p) = []) as Hgp.
  { specialize (H1 (inr p)). rewrite Hp in H1. destruct (G (inr p)); [done|]. by destruct H1. }
  pose proof (H3 (inl l)) as Hnd. rewrite Hg in Hnd. pose proof (H1 (inl l)) as Hc. rewrite Hg in Hc.
  destruct (chain_cut _ _ _ _ _ Hnd Hc) as [Hca Hcb].
  assert (∀ k x, x ∈ place_upd (inl l) b (place_upd (inr p) (a ++ [q]) G) k →
    ∃ k', x ∈ G k' ∧ (k = inl l ∧ x ∈ b ∧ k' = inl l ∨ k = inr p ∧ x ∈ a ++ [q] ∧ k' = inl l ∨ k' = k ∧ k ≠ inl l ∧ k ≠ inr p)) as Hcase.
  { intros k x. unfold place_upd. repeat case_decide; subst.
    - exists (inl l). rewrite Hg. set_solver.
    - exists (inl l). rewrite Hg. set_solver.
    - exists k. split; [done|]. by right; right. }
  split.
  - intros k. rewrite Hs. unfold place_upd. repeat case_decide; subst.
    + eapply chain_ext; [|exact Hcb]. intros x Hx. rewrite Hl. rewrite decide_False; [done|]. intros ->.
      apply NoDup_app in Hnd as (_ & _ & Hnd). by apply NoDup_cons in Hnd as [? _].
    + eapply chain_ext; [|exact Hca]. intros x Hx. apply Hl.
    + eapply chain_ext; [|apply H1]. intros x Hx. rewrite Hl. rewrite decide_False; [done|]. intros ->.
      assert (k = inl l); [|done]. apply (H4 _ _ q Hx). rewrite Hg. set_solver.
  - intros l' t. rewrite Ht. unfold place_upd. repeat case_decide; simplify_eq; [|apply H2].
    intros Hlast. apply H2. rewrite Hg. rewrite last_app. simpl. destruct b; [done|]. simpl in *. by rewrite Hlast.
  - intros k. apply NoDup_app in Hnd as (Ha & Hab & Hb). apply NoDup_cons in Hb as [Hqb Hb].
    unfold place_upd. repeat case_decide; subst; [done| |done]. apply NoDup_app. split; [done|].
    split; [set_solver|apply NoDup_singleton].
  - assert (∀ x, x ∈ a ++ [q] → x ∈ b → False) as Hab.
    { intros x Hx Hb. apply NoDup_app in Hnd as (Ha & Hab & Hn). apply NoDup_cons in Hn as [Hqb Hn].
      apply elem_of_app in Hx as [Hx|Hx%list_elem_of_singleton]; [apply (Hab x); set_solver|by subst]. }
    intros k k' x (k1 & Hk1 & C1)%Hcase (k2 & Hk2 & C2)%Hcase. pose proof (H4 _ _ _ Hk1 Hk2) as Hk.
    destruct C1 as [(-> & ? & ->)|[(-> & ? & ->)|(-> & ? & ?)]],
      C2 as [(-> & ? & ->)|[(-> & ? & ->)|(-> & ? & ?)]]; congruence || (exfalso; by eapply Hab).
  - intros k x (k1 & Hk1 & C1)%Hcase. rewrite Hw. destruct (H5 _ _ Hk1) as (l1 & Hl1 & He). exists l1.
    split; [done|]. intros l' ->. apply He.
    destruct C1 as [(? & ? & ->)|[(? & ? & ->)|(-> & ? & ?)]]; congruence.
  - intros x l'. rewrite Hw. intros [k Hk]%H6. unfold place_upd. destruct (decide (k = inl l)) as [->|Hne].
    + rewrite Hg in Hk. apply elem_of_app in Hk as [Hk|[->|Hk]%elem_of_cons].
      * exists (inr p). rewrite decide_False, decide_True by done. set_solver.
      * exists (inr p). rewrite decide_False, decide_True by done. set_solver.
      * exists (inl l). by rewrite decide_True.
    + exists k. rewrite decide_False by done. rewrite decide_False; [done|]. intros ->. by rewrite Hgp in Hk; inversion Hk.
Qed.

(** The loop of [LWLockRelease] takes the first process off the detached list. *)
Lemma lists_pop G v v' p q g :
  lists_ok G v → G (inr p) = q :: g →
  (∀ k, v_start v' k = if decide (k = inr p) then v_link v q else v_start v k) →
  (∀ x, v_link v' x = if decide (x = q) then None else v_link v x) →
  (∀ l, v_tail v' l = v_tail v l) → (∀ x, v_wait v' x = if decide (x = q) then None else v_wait v x) →
  lists_ok (place_upd (inr p) g G) v'.
Proof.
  intros [H1 H2 H3 H4 H5 H6] Hg Hs Hl Ht Hw.
  pose proof (H3 (inr p)) as Hnd. rewrite Hg in Hnd. apply NoDup_cons in Hnd as [Hqg Hnd].
  pose proof (H1 (inr p)) as Hc. rewrite Hg in Hc. destruct Hc as [_ Hc].
  assert (q ∈ G (inr p)) as Hq by (rewrite Hg; set_solver).
  assert (∀ k x, x ∈ place_upd (inr p) g G k → x ∈ G k ∧ x ≠ q) as Hcase.
  { intros k x. unfold place_upd. case_decide; subst.
    - rewrite Hg. intros Hx. split; [set_solver|]. by intros ->.
    - intros Hx. split; [done|]. intros ->. by pose proof (H4 _ _ _ Hx Hq). }
  split.
  - intros k. rewrite Hs. eapply chain_ext; [intros x [_ Hx]%Hcase; rewrite Hl; by rewrite decide_False|].
    unfold place_upd. case_decide; [done|]. apply H1.
  - intros l t. rewrite Ht. unfold place_upd. rewrite decide_False by done. apply H2.
  - intros k. unfold place_upd. by case_decide.
  - intros k k' x [Hk _]%Hcase [Hk' _]%Hcase. by eapply H4.
  - intros k x [Hk Hx]%Hcase. rewrite Hw, decide_False by done. by apply H5.
  - intros x l. rewrite Hw. case_decide as Hx; [done|]. intros [k Hk]%H6. exists k. unfold place_upd.
    case_decide; [subst|done]. rewrite Hg in Hk. set_solver.
Qed.

Lemma bind_insert {A B} (f : A → option B) (l : list A) i x y q :
  l !! i = Some y → (<[i := x]> l !! q) ≫= f = if decide (q = i) then f x else (l !! q) ≫= f.
Proof.
  intros Hi. case_decide as Hq.
  - subst. by rewrite (lookup_insert_here _ _ _ _ Hi).
  - by rewrite list_lookup_insert_ne by congruence.
Qed.

Lemma last_released_in fuel ps q r g :
  last_released fuel ps q = Some r → chain (λ x, ps !! x ≫= lwWaitLink) (Some q) g → r ∈ g.
Proof.
  revert q g. induction fuel as [|fuel IH]; intros q g; simpl; [done|].
  destruct (ps !! q) as [pr|] eqn:Hq; [simpl|done]. intros Hr.
  destruct g as [|q0 g]; [done|]. intros [[= <-] Hc]. rewrite Hq in Hc. simpl in Hc.
  destruct (lwWaitLink pr) as [q'|]; [|injection Hr as <-; left].
  destruct (ps !! q') as [pr'|]; [simpl in Hr|done].
  destruct (lwExclusive pr'); [injection Hr as <-; left|]. right. by eapply IH.
Qed.

Lemma release_last_in ps h q g :
  release_last ps h q → chain (λ x, ps !! x ≫= lwWaitLink) (Some h) g → q ∈ g.
Proof.
  intros (hpr & Hh & Hq) Hc. destruct (lwExclusive hpr).
  - injection Hq as ->. destruct g; [done|]. destruct Hc as [[= <-] _]. left.
  - by eapply last_released_in.
Qed.

(** A process that has been allowed to try for [l] again, or soon will be. *)
Definition under_way (G : place → list nat) (l q : nat) (pr : proc) : Prop :=
  (∃ m e, pc pr = Trying l m true e) ∨ waits_for pr = Some l ∧ q ∉ G (inl l).
Definition some_under_way (G : place → list nat) (l : nat) (ps : list proc) : Prop :=
  ∃ q pr, ps !! q = Some pr ∧ under_way G l q pr.

(** A lock with a list is held, or [releaseOK] is off; it is off only while somebody is under
    way. *)
Definition flags_ok (G : place → list nat) (st : lwstate) : Prop :=
  ∀ l lk, LWLockArray st !! l = Some lk →
    (G (inl l) ≠ [] → exclusive lk ≠ 0 ∨ shared lk ≠ 0 ∨ releaseOK lk = false) ∧
    (releaseOK lk = false → some_under_way G l (procs st)).

(** The signals that are about to be sent to [q]. *)
Definition signals (q : nat) (pr : proc) : Z :=
  match pc pr with Signalling q' _ => if decide (q' = q) then 1 else 0 | _ => 0 end.
Definition pending (q : nat) (ps : list proc) : Z := sum_over (signals q) ps.

Definition extra (pr : proc) : Z :=
  match pc pr with Trying _ _ _ e | Sleeping _ _ e | Checking _ _ e | Repaying e => e | _ => 0 end.
Definition checking (pr : proc) : Z := match pc pr with Checking _ _ _ => 1 | _ => 0 end.
(** The process waits and has been released: a signal for it is due. *)
Definition due (pr : proc) : Z :=
  if decide (waits_for pr ≠ None ∧ lwWaiting pr = false) then 1 else 0.

Definition sem_ok (pr : proc) (n : Z) : Prop :=
  0 ≤ sem pr ∧ 0 ≤ extra pr ∧ sem pr + extra pr + n + checking pr = external pr + due pr ∧
  due pr ≤ sem pr + n + checking pr.
Definition sems_ok (ps : list proc) : Prop :=
  ∀ q pr, ps !! q = Some pr → sem_ok pr (pending q ps).

Definition lw_ok (G : place → list nat) (st : lwstate) : Prop :=
  lists_ok G (view_of st) ∧ flags_ok G st ∧ sems_ok (procs st).

Lemma signals_nonneg q pr : 0 ≤ signals q pr.
Proof. unfold signals. repeat case_match; lia. Qed.
Lemma pending_nonneg q ps : 0 ≤ pending q ps.
Proof. apply sum_over_nonneg, signals_nonneg. Qed.

(** *** Changes of one process *)

(** A change that is seen neither by the lists nor by the flags. *)
Record quiet (pr pr' : proc) : Prop := {
  quiet_link : lwWaitLink pr' = lwWaitLink pr;
  quiet_wake : wake_head pr' = wake_head pr;
  quiet_listed : listed_for pr' = listed_for pr;
  quiet_way : ∀ G l q, under_way G l q pr → under_way G l q pr' }.

Lemma local_quiet n pr pr' : local n pr pr' → quiet pr pr'.
Proof.
  destruct 1 as [pr l m Hpc _|pr l m e Hpc _|pr l m e Hpc Hw|pr l m e Hpc Hw|pr e Hpc _|pr e Hpc _|pr Hpc|pr|pr Hpc _];
    (split; [done|unfold wake_head|unfold listed_for, waits_for|unfold under_way, waits_for]; simpl;
     rewrite ?Hpc, ?Hw; try done).
  all: intros G l' q [(m' & e' & H)|[H Hq]]; simplify_eq; eauto.
Qed.

Lemma view_local L ps p pr pr' :
  ps !! p = Some pr → quiet pr pr' →
  (∀ G, lists_ok G (view_of (mkState L ps)) → lists_ok G (view_of (mkState L (<[p := pr']> ps)))) ∧
  (∀ G l, some_under_way G l ps → some_under_way G l (<[p := pr']> ps)).
Proof.
  intros Hp [Hl Hk Hd Hu]. split.
  - intros G HG. eapply lists_same; [exact HG|..].
    + intros [l|q]; simpl; [done|]. rewrite (bind_insert _ _ _ _ _ _ Hp). case_decide; [|done]. subst. by rewrite Hp.
    + intros q; simpl. rewrite (bind_insert _ _ _ _ _ _ Hp). case_decide; [|done]. subst. by rewrite Hp.
    + done.
    + intros q; simpl. rewrite (bind_insert _ _ _ _ _ _ Hp). case_decide; [|done]. subst. by rewrite Hp.
  - intros G l (q & pr0 & Hq & Hw). destruct (decide (q = p)) as [->|Hne].
    + exists p, pr'. rewrite (lookup_insert_here _ _ _ _ Hp). simplify_eq. auto.
    + exists q, pr0. by rewrite list_lookup_insert_ne by congruence.
Qed.

(** A process that is not under way may change as it likes. *)
Lemma way_other G l ps p pr pr' :
  ps !! p = Some pr → ¬ under_way G l p pr → some_under_way G l ps → some_under_way G l (<[p := pr']> ps).
Proof.
  intros Hp Hno (q & pr0 & Hq & Hw). exists q, pr0. rewrite list_lookup_insert_ne; [done|]. congruence.
Qed.

Lemma pending_insert q ps p pr pr' :
  ps !! p = Some pr → pending q (<[p := pr']> ps) = pending q ps - signals q pr + signals q pr'.
Proof. apply sum_over_insert. Qed.

(** The semaphores after one process has changed, the signals it is about to send apart. *)
Lemma sems_insert ps p pr pr' :
  sems_ok ps → ps !! p = Some pr → (∀ q, signals q pr' = signals q pr) →
  (∀ n, 0 ≤ n → sem_ok pr n → sem_ok pr' n) → sems_ok (<[p := pr']> ps).
Proof.
  intros Hs Hp Hsig Hok q pr0 Hq. rewrite (pending_insert _ _ _ _ _ Hp), Hsig, Z.sub_add.
  destruct (lookup_insert_cases _ _ _ _ _ Hq) as [[-> ->]|[Hne Hq0]]; [|by apply Hs].
  apply Hok; [apply pending_nonneg|by apply Hs].
Qed.

Lemma local_sems n pr pr' :
  local n pr pr' → (∀ q, signals q pr' = signals q pr) ∧ (∀ k, 0 ≤ k → sem_ok pr k → sem_ok pr' k).
Proof.
  destruct 1 as [pr l m Hpc _|pr l m e Hpc Hs|pr l m e Hpc Hw|pr l m e Hpc Hw|pr e Hpc He|pr e Hpc He|pr Hpc|pr|pr Hpc Hs];
    (split; [intros q|intros k Hk]); unfold signals, sem_ok, extra, checking, due, waits_for; simpl; rewrite ?Hpc; try done;
    repeat case_decide; try (rewrite ?Hw in *); try naive_solver lia.
Qed.

Lemma way_keep G l ps p pr pr' :
  ps !! p = Some pr → pc pr' = pc pr → some_under_way G l ps → some_under_way G l (<[p := pr']> ps).
Proof.
  intros Hp Hpc (q & pr0 & Hq & Hw). destruct (decide (q = p)) as [->|Hne].
  - exists p, pr'. rewrite (lookup_insert_here _ _ _ _ Hp). simplify_eq. split; [done|].
    unfold under_way, waits_for in *. by rewrite Hpc.
  - exists q, pr0. by rewrite list_lookup_insert_ne by congruence.
Qed.

Lemma sem_ok_ext pr pr' n :
  pc pr' = pc pr → lwWaiting pr' = lwWaiting pr → sem pr' = sem pr → external pr' = external pr →
  sem_ok pr n → sem_ok pr' n.
Proof. unfold sem_ok, extra, checking, due, waits_for. by intros -> -> -> ->. Qed.

(** The lock [l] changes, and the lists of other locks do not. *)
Lemma flags_change G G' L ps ps' l lk lk' :
  flags_ok G (mkState L ps) → L !! l = Some lk →
  (∀ l', l' ≠ l → G' (inl l') = G (inl l') ∧ (some_under_way G l' ps → some_under_way G' l' ps')) →
  (G' (inl l) ≠ [] → exclusive lk' ≠ 0 ∨ shared lk' ≠ 0 ∨ releaseOK lk' = false) →
  (releaseOK lk' = false → some_under_way G' l ps') →
  flags_ok G' (mkState (<[l := lk']> L) ps').
Proof.
  intros Hf Hl Ho H1 H2 l' lk0 Hl'. simpl in *.
  destruct (lookup_insert_cases _ _ _ _ _ Hl') as [[-> ->]|[Hne Hl0]]; [done|].
  destruct (Ho _ Hne) as [-> Hw]. destruct (Hf _ _ Hl0) as [H3 H4]. auto.
Qed.

(** A process takes a lock or gives it up, and the lists stay. *)
Lemma ok_counts G L ps p pr pr' l lk lk' :
  lw_ok G (mkState L ps) → ps !! p = Some pr → L !! l = Some lk →
  lwWaitLink pr' = lwWaitLink pr → wake_head pr' = wake_head pr → listed_for pr' = listed_for pr →
  head lk' = head lk → tail lk' = tail lk →
  (∀ q, signals q pr' = signals q pr) → (∀ k, 0 ≤ k → sem_ok pr k → sem_ok pr' k) →
  (∀ l', l' ≠ l → ¬ under_way G l' p pr) →
  (releaseOK lk' = false → releaseOK lk = false ∧ ¬ under_way G l p pr) →
  (head lk ≠ None → exclusive lk' ≠ 0 ∨ shared lk' ≠ 0 ∨ releaseOK lk' = false) →
  lw_ok G (mkState (<[l := lk']> L) (<[p := pr']> ps)).
Proof.
  intros (HG & Hf & Hs) Hp Hl Hlink Hwake Hlst Hh Ht Hsig Hsem Ho Hrel Hheld. split; [|split].
  - eapply lists_same; [exact HG|..]; simpl.
    + intros [l'|q]; simpl.
      * rewrite (bind_insert _ _ _ _ _ _ Hl). case_decide; [|done]. subst. by rewrite Hl.
      * rewrite (bind_insert _ _ _ _ _ _ Hp). case_decide; [|done]. subst. by rewrite Hp.
    + intros q. rewrite (bind_insert _ _ _ _ _ _ Hp). case_decide; [|done]. subst. by rewrite Hp.
    + intros l'. rewrite (bind_insert _ _ _ _ _ _ Hl). case_decide; [|done]. subst. by rewrite Hl.
    + intros q. rewrite (bind_insert _ _ _ _ _ _ Hp). case_decide; [|done]. subst. by rewrite Hp.
  - eapply flags_change; [exact Hf|done|..].
    + intros l' Hne. split; [done|]. apply (way_other _ _ _ _ _ _ Hp). by apply Ho.
    + intros Hg. apply Hheld. intros Hn. apply Hg. pose proof (lo_chain _ _ HG (inl l)) as Hc. simpl in Hc.
      rewrite Hl in Hc. simpl in Hc. rewrite Hn in Hc. destruct (G (inl l)); [done|]. by destruct Hc.
    + intros [H1 H2]%Hrel. apply (way_other _ _ _ _ _ _ Hp H2). by apply (Hf _ _ Hl).
  - by eapply sems_insert.
Qed.

Lemma not_under_way_pc G l q pr :
  (∀ m e, pc pr ≠ Trying l m true e) → waits_for pr = None → ¬ under_way G l q pr.
Proof. intros H1 H2 [(m & e & H)|[H _]]; [by eapply H1|congruence]. Qed.

Lemma ok_local G L ps p pr pr' :
  lw_ok G (mkState L ps) → ps !! p = Some pr → local (length L) pr pr' → lw_ok G (mkState L (<[p := pr']> ps)).
Proof.
  intros (HG & Hf & Hs) Hp Hloc. destruct (view_local L ps p pr pr' Hp (local_quiet _ _ _ Hloc)) as [H1 H2].
  destruct (local_sems _ _ _ Hloc) as [H3 H4]. split; [by apply H1|]. split; [|by eapply sems_insert].
  intros l lk Hl. destruct (Hf l lk Hl) as [H5 H6]. simpl in *. auto.
Qed.

(** What the invariant says about a list that is there. *)
Lemma list_head G st l lk h :
  lists_ok G (view_of st) → LWLockArray st !! l = Some lk → head lk = Some h →
  ∃ g, G (inl l) = h :: g.
Proof.
  intros HG Hl Hh. pose proof (lo_chain _ _ HG (inl l)) as Hc. simpl in Hc. rewrite Hl in Hc. simpl in Hc.
  rewrite Hh in Hc. destruct (G (inl l)) as [|q g]; [done|]. destruct Hc as [[= <-] _]. by exists g.
Qed.

Lemma list_member G st k q :
  lists_ok G (view_of st) → q ∈ G k →
  ∃ pr l, procs st !! q = Some pr ∧ lwWaiting pr = true ∧ waits_for pr = Some l ∧ ∀ l', k = inl l' → l' = l.
Proof.
  intros HG Hq. destruct (lo_wait _ _ HG k q Hq) as (l & Hw & Hl). simpl in Hw.
  destruct (procs st !! q) as [pr|]; [simpl in Hw|done]. unfold listed_for in Hw.
  destruct (lwWaiting pr) eqn:Hwt; [|done]. by exists pr, l.
Qed.

(** A process joins the list of [l]; [ps'] is the table after the link of the last process has
    been set. *)
Lemma ok_push G L ps ps' p pr l m lk retry e :
  lw_ok G (mkState L ps) → ps !! p = Some pr → L !! l = Some lk → pc pr = Trying l m retry e →
  exclusive lk ≠ 0 ∨ shared lk ≠ 0 →
  match last (G (inl l)) with
  | None => ps' = <[p := waiting l m e pr]> ps
  | Some t => ∃ tpr, <[p := waiting l m e pr]> ps !! t = Some tpr ∧ t ≠ p ∧
                ps' = <[t := set_link (Some p) tpr]> (<[p := waiting l m e pr]> ps)
  end →
  lw_ok (place_upd (inl l) (G (inl l) ++ [p]) G)
    (mkState (<[l := mkLWLock (releaseOK (retried retry lk)) (exclusive lk) (shared lk)
                       (Some (default p (head lk))) (Some p)]> L) ps').
Proof.
  intros (HG & Hf & Hs) Hp Hl Hpc Hb Hps'.
  set (ps1 := <[p := waiting l m e pr]> ps) in *.
  assert (ps1 !! p = Some (waiting l m e pr)) as Hp1 by (by eapply lookup_insert_here).
  assert (sems_ok ps1) as Hs1.
  { eapply sems_insert; [exact Hs|exact Hp|..].
    - intros q. unfold signals. simpl. by rewrite Hpc.
    - intros k Hk. unfold sem_ok, extra, checking, due, waits_for. simpl. rewrite Hpc.
      repeat case_decide; naive_solver. }
  set (G' := place_upd (inl l) (G (inl l) ++ [p]) G).
  assert (∀ l', (l' = l → retry = false) → some_under_way G l' ps → some_under_way G' l' ps1) as Hw1.
  { intros l' Hr (q & qpr & Hq & Hw). exists q, qpr.
    assert (q ≠ p) as Hne.
    { intros ->. simplify_eq. destruct Hw as [(? & ? & H)|[H _]].
      - rewrite Hpc in H. injection H as -> -> -> ->. by specialize (Hr eq_refl).
      - unfold waits_for in H. by rewrite Hpc in H. }
    split; [by unfold ps1; rewrite list_lookup_insert_ne by congruence|].
    destruct Hw as [?|[? Hn]]; [by left|]. right. split; [done|]. unfold G', place_upd.
    case_decide; [|done]. simplify_eq. set_solver. }
  assert (∀ l', some_under_way G' l' ps1 → some_under_way G' l' ps') as Hw2.
  { intros l'. destruct (last (G (inl l))); [|by subst]. destruct Hps' as (tpr & Htp & _ & ->).
    by apply (way_keep _ _ _ _ tpr). }
  split; [|split].
  - eapply lists_push; [exact HG| | | | |]; simpl.
    + rewrite Hp. simpl. unfold listed_for, waits_for. rewrite Hpc. by destruct (lwWaiting pr).
    + intros [l'|q]; simpl.
      * rewrite (bind_insert _ _ _ _ _ _ Hl). simpl. repeat case_decide; simplify_eq; [|done]. by rewrite Hl.
      * assert (∀ q, ps1 !! q ≫= wake_head = ps !! q ≫= wake_head) as H1.
        { intros x. unfold ps1. rewrite (bind_insert _ _ _ _ _ _ Hp). case_decide; [|done]. subst. rewrite Hp.
          simpl. unfold wake_head. by rewrite Hpc. }
        destruct (last (G (inl l))); [|by subst]. destruct Hps' as (tpr & Htp & _ & ->).
        rewrite (bind_insert _ _ _ _ _ _ Htp). case_decide; [|done]. subst. rewrite <- H1, Htp. done.
    + intros q. destruct (last (G (inl l))) as [t|].
      * destruct Hps' as (tpr & Htp & Hne & ->). rewrite (bind_insert _ _ _ _ _ _ Htp).
        unfold ps1. rewrite (bind_insert _ _ _ _ _ _ Hp). repeat case_decide; simplify_eq; done.
      * subst ps'. unfold ps1. rewrite (bind_insert _ _ _ _ _ _ Hp). repeat case_decide; done.
    + intros l'. rewrite (bind_insert _ _ _ _ _ _ Hl). done.
    + intros q. assert (∀ q, ps1 !! q ≫= listed_for = if decide (q = p) then Some l else ps !! q ≫= listed_for) as H1.
      { intros x. unfold ps1. by rewrite (bind_insert _ _ _ _ _ _ Hp). }
      destruct (last (G (inl l))); [|by subst]. destruct Hps' as (tpr & Htp & Hne & ->).
      rewrite (bind_insert _ _ _ _ _ _ Htp). case_decide; [|done]. subst. rewrite <- H1, Htp. done.
  - eapply flags_change; [exact Hf|exact Hl|..]; simpl.
    + intros l' Hne. split; [unfold G', place_upd; rewrite decide_False by congruence; done|].
      intros H. apply Hw2, Hw1; [done|exact H].
    + tauto.
    + destruct retry; simpl; [done|]. intros Hrel. apply Hw2, Hw1; [done|]. by apply (Hf _ _ Hl).
  - destruct (last (G (inl l))); [|by subst]. destruct Hps' as (tpr & Htp & Hne & ->).
    eapply sems_insert; [exact Hs1|exact Htp|done|]. intros k Hk. by apply sem_ok_ext.
Qed.

(** [LWLockRelease] detaches the list up to [q]. *)
Lemma ok_detach G L ps p pr pr' l lk lk' a q b qpr :
  lw_ok G (mkState L ps) → ps !! p = Some pr → L !! l = Some lk → pc pr = Running →
  ps !! q = Some qpr → G (inl l) = a ++ q :: b → p ≠ q →
  lwWaitLink pr' = lwWaitLink pr → pc pr' = Waking (head lk) → lwWaiting pr' = lwWaiting pr →
  sem pr' = sem pr → external pr' = external pr →
  releaseOK lk' = false → head lk' = lwWaitLink qpr → tail lk' = tail lk →
  lw_ok (place_upd (inl l) b (place_upd (inr p) (a ++ [q]) G))
    (mkState (<[l := lk']> L) (<[p := pr']> (<[q := set_link None qpr]> ps))).
Proof.
  intros (HG & Hf & Hs) Hp Hl Hpc Hq Hg Hpq Hlink Hpc' Hw Hsem Hext Hrel Hhd Htl.
  set (ps1 := <[q := set_link None qpr]> ps).
  assert (ps1 !! p = Some pr) as Hp1 by (unfold ps1; by rewrite list_lookup_insert_ne by done).
  split; [|split].
  - eapply lists_detach; [exact HG| |exact Hg|..]; simpl.
    + rewrite Hp. simpl. unfold wake_head. by rewrite Hpc.
    + intros [l'|x]; simpl.
      * rewrite (bind_insert _ _ _ _ _ _ Hl). rewrite Hq. simpl. repeat case_decide; simplify_eq; done.
      * rewrite (bind_insert _ _ _ _ _ _ Hp1). unfold ps1. rewrite (bind_insert _ _ _ _ _ _ Hq). rewrite Hl. simpl.
        repeat case_decide; simplify_eq; [|by rewrite Hq|done]. unfold wake_head. by rewrite Hpc'.
    + intros x. rewrite (bind_insert _ _ _ _ _ _ Hp1). unfold ps1. rewrite (bind_insert _ _ _ _ _ _ Hq).
      repeat case_decide; simplify_eq; [|done|done]. by rewrite Hp.
    + intros l'. rewrite (bind_insert _ _ _ _ _ _ Hl). case_decide; [|done]. subst. by rewrite Hl.
    + intros x. rewrite (bind_insert _ _ _ _ _ _ Hp1). unfold ps1. rewrite (bind_insert _ _ _ _ _ _ Hq).
      repeat case_decide; simplify_eq; [|by rewrite Hq|done]. rewrite Hp. simpl. unfold listed_for, waits_for.
      rewrite Hpc', Hpc, Hw. done.
  - eapply flags_change; [exact Hf|exact Hl|..].
    + intros l' Hne. unfold place_upd. rewrite !decide_False by congruence. split; [done|].
      intros (x & xpr & Hx & Hway). assert (some_under_way G l' ps1) as H1.
      { unfold ps1. apply (way_keep _ _ _ _ qpr); [done|done|]. by exists x, xpr. }
      apply (way_other _ _ _ p pr pr') in H1; [|exact Hp1|apply not_under_way_pc; unfold waits_for; by rewrite Hpc].
      destruct H1 as (y & ypr & Hy & Hwy). exists y, ypr. split; [done|]. unfold under_way in *.
      by rewrite !decide_False by congruence.
    + auto.
    + intros _. assert (q ∈ G (inl l)) as Hin by (rewrite Hg; set_solver).
      destruct (list_member _ _ _ _ HG Hin) as (qpr0 & l0 & Hq0 & _ & Hwf & Hl0). simpl in Hq0. simplify_eq.
      rewrite <- (Hl0 l eq_refl) in Hwf.
      exists q, (set_link None qpr). split.
      * rewrite list_lookup_insert_ne by done. unfold ps1. by eapply lookup_insert_here.
      * right. split; [exact Hwf|]. unfold place_upd. rewrite decide_True by done.
        pose proof (lo_nodup _ _ HG (inl l)) as Hnd. rewrite Hg in Hnd. apply NoDup_app in Hnd as (_ & _ & Hnd).
        by apply NoDup_cons in Hnd as [? _].
  - apply (sems_insert ps1 p pr); [|done|..].
    + apply (sems_insert ps q qpr); [done|done|done|]. intros k Hk. by apply sem_ok_ext.
    + intros x. unfold signals. by rewrite Hpc', Hpc.
    + intros k Hk. unfold sem_ok, extra, checking, due, waits_for. by rewrite Hpc', Hpc, Hw, Hsem, Hext.
Qed.

(** One pass of the loop that awakens: the flag, and the signal that is due. *)
Lemma ok_pop G L ps p pr q qpr :
  lw_ok G (mkState L ps) → ps !! p = Some pr → pc pr = Waking (Some q) → ps !! q = Some qpr →
  p ≠ q ∧
  ∃ g, G (inr p) = q :: g ∧ lw_ok (place_upd (inr p) g G) (mkState L (<[p := set_pc (Signalling q (lwWaitLink qpr)) pr]>
          (<[q := set_wait false (lwExclusive qpr) (set_link None qpr)]> ps))).
Proof.
  intros (HG & Hf & Hs) Hp Hpc Hq.
  pose proof (lo_chain _ _ HG (inr p)) as Hc. simpl in Hc. rewrite Hp in Hc. simpl in Hc.
  unfold wake_head in Hc. rewrite Hpc in Hc. destruct (G (inr p)) as [|q0 g] eqn:Hg; [done|].
  destruct Hc as [[= <-] Hc]. assert (q ∈ G (inr p)) as Hin by (rewrite Hg; set_solver).
  destruct (list_member _ _ _ _ HG Hin) as (qpr0 & l0 & Hq0 & Hwt & Hwf & _). simpl in Hq0. simplify_eq.
  assert (p ≠ q) as Hpq.
  { intros ->. simplify_eq. unfold waits_for in Hwf. by rewrite Hpc in Hwf. }
  split; [done|]. set (qpr' := set_wait false (lwExclusive qpr) (set_link None qpr)).
  set (ps1 := <[q := qpr']> ps).
  assert (ps1 !! p = Some pr) as Hp1 by (unfold ps1; by rewrite list_lookup_insert_ne by done).
  exists g. split; [done|]. split; [|split].
  - eapply lists_pop; [exact HG|exact Hg|..]; simpl.
    + intros [l|x]; simpl; [done|].
      rewrite (bind_insert _ _ _ _ _ _ Hp1). unfold ps1. rewrite (bind_insert _ _ _ _ _ _ Hq). rewrite Hq.
      repeat case_decide; simplify_eq; [done| |done]. by rewrite Hq.
    + intros x. rewrite (bind_insert _ _ _ _ _ _ Hp1). unfold ps1. rewrite (bind_insert _ _ _ _ _ _ Hq).
      repeat case_decide; simplify_eq; [|done|done]. by rewrite Hp.
    + done.
    + intros x. rewrite (bind_insert _ _ _ _ _ _ Hp1). unfold ps1. rewrite (bind_insert _ _ _ _ _ _ Hq).
      repeat case_decide; simplify_eq; [|done|done]. rewrite Hp. simpl. unfold listed_for, waits_for. simpl.
      rewrite Hpc. done.
  - intros l lk Hl. destruct (Hf l lk Hl) as [H1 H2]. unfold place_upd. rewrite decide_False by done.
    split; [done|]. intros H. specialize (H2 H). simpl in *.
    apply (way_keep _ _ _ q qpr qpr') in H2; [|done|done].
    apply (way_other _ _ _ p pr (set_pc (Signalling q (lwWaitLink qpr)) pr)) in H2; [|exact Hp1|apply not_under_way_pc; unfold waits_for; by rewrite Hpc].
    destruct H2 as (y & ypr & Hy & Hwy). exists y, ypr. split; [exact Hy|]. unfold under_way in *.
    by rewrite decide_False.
  - simpl in *. intros x xpr Hx. rewrite (pending_insert _ _ _ _ _ Hp1). unfold ps1.
    rewrite (pending_insert _ _ _ _ _ Hq). change (signals x qpr') with (signals x qpr).
    assert (signals x pr = 0) as -> by (unfold signals; by rewrite Hpc).
    unfold signals at 3. simpl. replace (_ - _ + _ - 0) with (pending x ps) by lia.
    destruct (lookup_insert_cases _ _ _ _ _ Hx) as [[-> ->]|[Hne Hx0]].
    + rewrite decide_False by congruence. rewrite Z.add_0_r. specialize (Hs p pr Hp). revert Hs.
      unfold sem_ok, extra, checking, due, waits_for. simpl. by rewrite Hpc.
    + destruct (lookup_insert_cases _ _ _ _ _ Hx0) as [[-> ->]|[Hne' Hx1]].
      * rewrite decide_True by done. specialize (Hs q qpr Hq). revert Hs.
        unfold sem_ok, due. simpl. change (waits_for qpr') with (waits_for qpr).
        change (extra qpr') with (extra qpr). change (checking qpr') with (checking qpr).
        rewrite Hwf, Hwt. rewrite decide_False by naive_solver. rewrite decide_True by done. lia.
      * rewrite decide_False by congruence. rewrite Z.add_0_r. by apply Hs.
Qed.

Lemma lookup_alter_cases {A} (f : A → A) (l : list A) i j y :
  alter f i l !! j = Some y → ∃ x, l !! j = Some x ∧ (j = i ∧ y = f x ∨ j ≠ i ∧ y = x).
Proof.
  destruct (decide (i = j)) as [->|Hne].
  - rewrite list_lookup_alter_eq. destruct (l !! j) as [x|]; [|done]. intros [= <-]. eauto.
  - rewrite list_lookup_alter_ne by done. eauto.
Qed.

(** The signal is sent. *)
Lemma ok_post G L ps p pr q next :
  lw_ok G (mkState L ps) → ps !! p = Some pr → pc pr = Signalling q next →
  lw_ok G (mkState L (alter (set_pc (Waking next)) p (alter (add_sem 1) q ps))).
Proof.
  intros (HG & Hf & Hs) Hp Hpc. set (ps1 := alter (add_sem 1) q ps).
  assert (ps1 !! p = Some (if decide (p = q) then add_sem 1 pr else pr)) as Hp1.
  { unfold ps1. case_decide; [subst; rewrite list_lookup_alter_eq; by rewrite Hp|].
    by rewrite list_lookup_alter_ne by congruence. }
  rewrite (alter_insert _ _ _ _ Hp1). set (pr1 := if decide (p = q) then _ else _) in *.
  assert (pc pr1 = Signalling q next ∧ lwWaitLink pr1 = lwWaitLink pr ∧ lwWaiting pr1 = lwWaiting pr) as (Hpc1 & Hlk1 & Hw1).
  { unfold pr1. by case_decide. }
  assert (∀ {B} (f : proc → option B), (∀ x, f (add_sem 1 x) = f x) → f (set_pc (Waking next) pr1) = f pr1 →
    ∀ x, <[p := set_pc (Waking next) pr1]> ps1 !! x ≫= f = ps !! x ≫= f) as Hv.
  { intros B f Hf1 Hf2 x. rewrite (bind_insert _ _ _ _ _ _ Hp1).
    assert (ps1 !! x ≫= f = ps !! x ≫= f) as <-.
    { unfold ps1. destruct (decide (q = x)) as [->|Hne].
      - rewrite list_lookup_alter_eq. destruct (ps !! x); [simpl; by rewrite Hf1|done].
      - by rewrite list_lookup_alter_ne. }
    case_decide; [|done]. subst. by rewrite Hp1, Hf2. }
  split; [|split].
  - eapply lists_same; [exact HG|..]; simpl.
    + intros [l|x]; simpl; [done|]. apply Hv; [done|]. unfold wake_head. simpl. by rewrite Hpc1.
    + by apply Hv.
    + done.
    + apply Hv; [done|]. unfold listed_for, waits_for. simpl. by rewrite Hpc1.
  - intros l lk Hl. destruct (Hf l lk Hl) as [H1 H2]. split; [done|]. intros H. specialize (H2 H). simpl in *.
    apply (way_other _ _ _ _ _ _ Hp1); [apply not_under_way_pc; unfold waits_for; by rewrite Hpc1|].
    destruct (ps !! q) as [qpr|] eqn:Hq; [|unfold ps1; by rewrite alter_none].
    unfold ps1. rewrite (alter_insert _ _ _ _ Hq). by apply (way_keep _ _ _ _ qpr).
  - simpl in *. intros x xpr Hx. rewrite (pending_insert _ _ _ _ _ Hp1).
    assert (pending x ps1 = pending x ps) as -> by (by apply sum_over_alter).
    assert (signals x pr1 = if decide (q = x) then 1 else 0) as -> by (unfold signals; by rewrite Hpc1).
    replace (signals x (set_pc _ _)) with 0 by done. rewrite Z.add_0_r.
    destruct (lookup_insert_cases _ _ _ _ _ Hx) as [[-> ->]|[Hne Hx0]].
    + specialize (Hs p pr Hp). revert Hs. unfold pr1, sem_ok, extra, checking, due, waits_for.
      destruct (decide (p = q)) as [->|Hpq]; simpl; rewrite Hpc.
      * rewrite (decide_True (P:=q=q)) by done. repeat case_decide; naive_solver lia.
      * rewrite (decide_False (P:=q=p)) by congruence. repeat case_decide; naive_solver lia.
    + destruct (lookup_alter_cases _ _ _ _ _ Hx0) as (xpr0 & Hx1 & [[-> ->]|[Hne' ->]]).
      * rewrite decide_True by done. specialize (Hs q xpr0 Hx1). revert Hs. unfold sem_ok.
        change (extra (add_sem 1 xpr0)) with (extra xpr0). change (checking (add_sem 1 xpr0)) with (checking xpr0).
        change (due (add_sem 1 xpr0)) with (due xpr0). simpl. lia.
      * rewrite decide_False by congruence. rewrite Z.sub_0_r. by apply Hs.
Qed.

(** Every step keeps the invariant. *)
Lemma lw_ok_step G st st' : norm st st' → counts_ok st → lw_ok G st → ∃ G', lw_ok G' st'.
Proof.
  intros Hn Hc Hok. destruct Hn as
    [L ps p pr pr' Hp Hloc|L ps p pr l m lk retry e Hp Hl Hf Hpc|L ps p pr l m lk Hp Hl Hf Hpc|st
    |L ps p pr l m lk retry e Hp Hl Hpc Hb Hh|L ps p pr l m lk retry e h t tpr Hp Hl Hpc Hb Hh Ht Htp
    |L ps p pr l m lk retry e h t Hp Hl Hpc Hh Ht Htp|L ps p pr l m i lk Hp Hl Hpc Hi Hb Hh
    |L ps p pr l m i lk h q qpr ps1 Hp Hl Hpc Hi Hb Hx Hs Hh Hrel Hq Hqp|L ps p pr q qpr Hp Hpc Hq
    |L ps p pr q next Hp Hpc].
  - exists G. by eapply ok_local.
  - exists G. apply (ok_counts G L ps p pr _ l lk); try done; try (by destruct m, retry);
      try (unfold wake_head, listed_for, waits_for, signals; simpl; by rewrite Hpc).
    + intros k Hk. unfold sem_ok, extra, checking, due, waits_for. simpl. by rewrite Hpc.
    + intros l' Hne. apply not_under_way_pc; [congruence|]. unfold waits_for. by rewrite Hpc.
    + intros Hr. destruct retry; [by destruct m|]. split; [by destruct m|].
      apply not_under_way_pc; [congruence|]. unfold waits_for. by rewrite Hpc.
    + intros _. destruct Hf as [Hf1 _]. destruct (Hc l lk Hl) as (_ & Hsh & _). simpl in Hsh.
      pose proof (sum_over_nonneg (hold_count l LW_SHARED) ps (hold_count_nonneg _ _)).
      destruct m, retry; simpl; lia.
  - exists G. apply (ok_counts G L ps p pr _ l lk); try done; try (by destruct m).
    + intros l' Hne. apply not_under_way_pc; [congruence|]. unfold waits_for. by rewrite Hpc.
    + intros Hr. split; [by destruct m|]. apply not_under_way_pc; [congruence|]. unfold waits_for. by rewrite Hpc.
    + intros _. destruct Hf as [Hf1 _]. destruct (Hc l lk Hl) as (_ & Hsh & _). simpl in Hsh.
      pose proof (sum_over_nonneg (hold_count l LW_SHARED) ps (hold_count_nonneg _ _)).
      destruct m; simpl; lia.
  - by exists G.
  - eexists. pose proof (ok_push G L ps (<[p := waiting l m e pr]> ps) p pr l m lk retry e Hok Hp Hl Hpc Hb) as H.
    rewrite Hh in H. apply H. destruct Hok as [HG _].
    pose proof (lo_chain _ _ HG (inl l)) as Hch. simpl in Hch. rewrite Hl in Hch. simpl in Hch. rewrite Hh in Hch.
    destruct (G (inl l)); [done|]. by destruct Hch.
  - eexists.
    pose proof (ok_push G L ps (<[t := set_link (Some p) tpr]> (<[p := waiting l m e pr]> ps)) p pr l m lk retry e Hok Hp Hl Hpc Hb) as H.
    rewrite Hh in H. apply H. destruct Hok as [HG _]. destruct (list_head _ _ _ _ _ HG Hl Hh) as [g Hg].
    destruct (last (G (inl l))) as [t'|] eqn:Hlast; [|by apply last_None in Hlast; rewrite Hg in Hlast].
    pose proof (lo_tail _ _ HG _ _ Hlast) as Htl. simpl in Htl. rewrite Hl in Htl. simpl in Htl. simplify_eq.
    exists tpr. split; [done|]. split; [|done]. intros ->.
    destruct (list_member _ _ _ _ HG (last_Some_elem_of _ _ Hlast)) as (pr0 & l0 & Hp0 & _ & Hwf & _).
    simpl in Hp0. simplify_eq. unfold waits_for in Hwf. by rewrite Hpc in Hwf.
  - exfalso. destruct Hok as [HG _]. destruct (list_head _ _ _ _ _ HG Hl Hh) as [g Hg].
    destruct (last (G (inl l))) as [t'|] eqn:Hlast; [|by apply last_None in Hlast; rewrite Hg in Hlast].
    pose proof (lo_tail _ _ HG _ _ Hlast) as Htl. simpl in Htl. rewrite Hl in Htl. simpl in Htl. simplify_eq.
    destruct (list_member _ _ _ _ HG (last_Some_elem_of _ _ Hlast)) as (pr0 & l0 & Hp0 & _).
    simpl in Hp0. congruence.
  - exists G. assert (head (given_up lk) = head lk ∧ tail (given_up lk) = tail lk ∧ releaseOK (given_up lk) = releaseOK lk)
      as (Hh' & Ht' & Hr') by (unfold given_up; by case_match).
    apply (ok_counts G L ps p pr _ l lk); try done;
      try (unfold wake_head, listed_for, waits_for, signals; simpl; by rewrite Hpc).
    + intros k Hk. unfold sem_ok, extra, checking, due, waits_for. simpl. by rewrite Hpc.
    + intros l' Hne. apply not_under_way_pc; [congruence|]. unfold waits_for. by rewrite Hpc.
    + intros Hr. split; [congruence|]. apply not_under_way_pc; [congruence|]. unfold waits_for. by rewrite Hpc.
    + intros Hhd. destruct Hh as [?|[?|[?|?]]]; [done|auto..|]. right. right. congruence.
  - assert (∀ x, ps1 !! x ≫= lwWaitLink = ps !! x ≫= lwWaitLink) as Hlk.
    { intros x. unfold ps1. rewrite (bind_insert _ _ _ _ _ _ Hp). case_decide; [|done]. subst. by rewrite Hp. }
    assert (q ∈ G (inl l)) as Hin.
    { apply (release_last_in _ _ _ _ Hq). pose proof (lo_chain _ _ (proj1 Hok) (inl l)) as Hch. simpl in Hch.
      rewrite Hl in Hch. simpl in Hch. rewrite Hh in Hch. eapply chain_ext; [|exact Hch]. intros; apply Hlk. }
    destruct (list_member _ _ _ _ (proj1 Hok) Hin) as (qpr0 & l0 & Hq0 & _ & Hwf & _). simpl in Hq0.
    assert (p ≠ q) as Hpq.
    { intros ->. simplify_eq. unfold waits_for in Hwf. by rewrite Hpc in Hwf. }
    unfold ps1 in Hqp. rewrite list_lookup_insert_ne in Hqp by done. simplify_eq.
    erewrite alter_insert; [|rewrite list_lookup_insert_ne by done; unfold ps1; by eapply lookup_insert_here].
    unfold ps1. rewrite (list_insert_insert_ne _ q p) by done. rewrite list_insert_insert_eq.
    apply list_elem_of_split in Hin as (a & b & Hg). eexists.
    apply (ok_detach G L ps p pr _ l lk _ a q b qpr); try done. simpl. by rewrite Hh.
  - destruct (ok_pop G L ps p pr q qpr Hok Hp Hpc Hq) as (Hpq & g & _ & H).
    eexists. erewrite alter_insert; [exact H|]. by rewrite list_lookup_insert_ne by done.
  - exists G. by eapply ok_post.
Qed.

Lemma lw_ok_initial n m : lw_ok (λ _, []) (lw_initial n m).
Proof.
  assert (∀ {A B} (f : A → option B) k x i, f x = None → replicate k x !! i ≫= f = None) as Hz.
  { intros A B f k x i Hf. destruct (replicate k x !! i) as [y|] eqn:Hy; [|done].
    apply lookup_replicate in Hy as [-> _]. done. }
  split; [|split].
  - split; simpl; try done.
    + intros [l|p]; by apply Hz.
    + intros k. constructor.
    + intros k k' q Hq. inversion Hq.
    + intros k q Hq. inversion Hq.
    + intros q l. by rewrite Hz.
  - intros l lk Hl. simpl in Hl. apply lookup_replicate in Hl as [-> _]. done.
  - intros q pr Hq. simpl in *. apply lookup_replicate in Hq as [-> _].
    assert (pending q (replicate m idle_proc) = 0) as ->.
    { unfold pending. induction m as [|m IH]; simpl; [done|]. by rewrite IH. }
    unfold sem_ok, extra, checking, due. simpl. repeat case_decide; naive_solver lia.
Qed.

Lemma lw_ok_reachable n m st : lw_reachable n m st → counts_ok st ∧ ∃ G, lw_ok G st.
Proof.
  revert st. apply (lw_reachable_ind_norm (λ st, counts_ok st ∧ ∃ G, lw_ok G st)).
  - split; [apply counts_initial|]. eexists. apply lw_ok_initial.
  - intros st1 st2 Hn [Hc [G HG]]. split; [by eapply counts_step|]. by eapply lw_ok_step.
Qed.

(** ** Progress *)

(** The steps with which processes go on in [LWLockAcquire] and [LWLockRelease]: nobody starts
    to acquire or to release a lock, and nobody sends other signals. *)
Inductive lw_continue : lwstate → lwstate → Prop :=
| go_pass p st st' : LWLockAcquire_pass p st = Some st' → lw_continue st st'
| go_semaphore p st st' : LWLockAcquire_semaphore p st = Some st' → lw_continue st st'
| go_wake p st st' : LWLockRelease_wake p st = Some st' → lw_continue st st'.

(** The lock is free, and [q] gets it. *)
Definition can_get (l q : nat) (st : lwstate) : Prop :=
  ∃ st' qpr, rtc lw_continue st st' ∧ procs st' !! q = Some qpr ∧ l ∈ (held qpr).*1.

Lemma can_get_step l q st st' : lw_continue st st' → can_get l q st' → can_get l q st.
Proof. intros Hs (st'' & qpr & Hr & H). exists st'', qpr. split; [|done]. by eapply rtc_l. Qed.

Definition free (l : nat) (L : list LWLock) : Prop :=
  ∃ lk, L !! l = Some lk ∧ exclusive lk = 0 ∧ shared lk = 0.

Lemma get_trying l q L ps qpr m r e :
  free l L → ps !! q = Some qpr → pc qpr = Trying l m r e → can_get l q (mkState L ps).
Proof.
  intros (lk & Hl & Hx & Hs) Hq Hpc.
  eapply can_get_step.
  { apply (go_pass q). unfold LWLockAcquire_pass. simpl. rewrite Hq. simpl. rewrite Hpc, Hl. simpl.
    change (if r then _ else lk) with (retried r lk).
    destruct (lock_try_spec m (retried r lk)) as [(lk' & -> & _ & ->)|[_ Hb]]; [reflexivity|].
    destruct r; simpl in Hb; lia. }
  eexists _, _. split; [apply rtc_refl|]. simpl. rewrite list_lookup_alter_eq, Hq. split; [reflexivity|].
  simpl. rewrite fmap_app. set_solver.
Qed.

Lemma get_checking l q L ps qpr m e :
  free l L → ps !! q = Some qpr → pc qpr = Checking l m e → lwWaiting qpr = false → can_get l q (mkState L ps).
Proof.
  intros Hf Hq Hpc Hw. eapply can_get_step.
  { apply (go_semaphore q). unfold LWLockAcquire_semaphore. simpl. rewrite Hq. simpl. rewrite Hpc, Hw. reflexivity. }
  rewrite (upd_proc_some _ _ _ _ _ Hq). eapply get_trying; [done|by eapply lookup_insert_here|reflexivity].
Qed.

Lemma get_sleeping l q L ps qpr m e :
  free l L → ps !! q = Some qpr → pc qpr = Sleeping l m e → lwWaiting qpr = false → 0 < sem qpr →
  can_get l q (mkState L ps).
Proof.
  intros Hf Hq Hpc Hw Hsem. eapply can_get_step.
  { apply (go_semaphore q). unfold LWLockAcquire_semaphore. simpl. rewrite Hq. simpl. rewrite Hpc.
    rewrite (proj2 (Z.ltb_lt _ _) Hsem). reflexivity. }
  rewrite (upd_proc_some _ _ _ _ _ Hq). eapply get_checking; [done|by eapply lookup_insert_here|reflexivity|done].
Qed.

(** A process that has been taken off a list and told so gets the lock: the signal has
    arrived or is about to be sent. *)
Lemma get_told G l q L ps qpr :
  lw_ok G (mkState L ps) → free l L → ps !! q = Some qpr → waits_for qpr = Some l → lwWaiting qpr = false →
  can_get l q (mkState L ps).
Proof.
  intros (HG & Hfl & Hs) Hf Hq Hwf Hw. simpl in *. pose proof (Hs q qpr Hq) as (Hsem & Hex & _ & Hdue).
  unfold due in Hdue. rewrite decide_True in Hdue by (split; [congruence|done]).
  unfold waits_for in Hwf. destruct (pc qpr) as [| |l' m e|l' m e| | |] eqn:Hpc; simplify_eq.
  2:{ by eapply get_checking. }
  unfold checking in Hdue. rewrite Hpc in Hdue. destruct (Z_lt_le_dec 0 (sem qpr)) as [H|H]; [by eapply get_sleeping|].
  destruct (sum_over_pos (signals q) ps) as (r & rpr & Hr & Hsig); [apply signals_nonneg|unfold pending in Hdue; lia|].
  unfold signals in Hsig. destruct (pc rpr) as [| | | | | |q' next] eqn:Hrpc; try lia. case_decide; [subst q'|lia].
  assert (r ≠ q) as Hne by congruence.
  eapply can_get_step.
  { apply (go_wake r). unfold LWLockRelease_wake. simpl. rewrite Hr. simpl. rewrite Hrpc. reflexivity. }
  unfold upd_proc. simpl. eapply (get_sleeping _ _ _ _ (add_sem 1 qpr)); [done| |done|done|simpl; lia].
  rewrite list_lookup_alter_ne by done. by rewrite list_lookup_alter_eq, Hq.
Qed.

(** A process on a detached list gets the lock: the process that has detached it goes on. *)
Lemma get_detached G l q r L ps qpr :
  lw_ok G (mkState L ps) → free l L → ps !! q = Some qpr → waits_for qpr = Some l → q ∈ G (inr r) →
  can_get l q (mkState L ps).
Proof.
  remember (G (inr r)) as g eqn:Hg. revert G ps qpr Hg. induction g as [|x g IH]; intros G ps qpr Hg Hok Hf Hq Hwf Hin.
  { inversion Hin. }
  assert (∃ ps1 rpr1 xpr1 qpr1, lw_ok G (mkState L ps1) ∧ rtc lw_continue (mkState L ps) (mkState L ps1) ∧
    ps1 !! r = Some rpr1 ∧ pc rpr1 = Waking (Some x) ∧ ps1 !! x = Some xpr1 ∧
    ps1 !! q = Some qpr1 ∧ waits_for qpr1 = Some l) as (ps1 & rpr & xpr & qpr1 & Hok1 & Hr1 & Hr & Hpc & Hx & Hq1 & Hwf1).
  { pose proof (lo_chain _ _ (proj1 Hok) (inr r)) as Hc. rewrite <- Hg in Hc. simpl in Hc. destruct Hc as [Hc _].
    assert (x ∈ G (inr r)) as Hxin by (rewrite <- Hg; left).
    destruct (list_member _ _ _ _ (proj1 Hok) Hxin) as (xpr & l0 & Hx & _). simpl in Hx.
    destruct (ps !! r) as [rpr|] eqn:Hr; [simpl in Hc|done]. unfold wake_head in Hc.
    destruct (pc rpr) as [| | | | |o|q' next] eqn:Hpc; try done; subst.
    - exists ps, rpr, xpr, qpr. split; [done|]. split; [apply rtc_refl|]. done.
    - pose proof (ok_post G L ps r rpr q' (Some x) Hok Hr Hpc) as Hok1.
      set (ps1 := alter (set_pc (Waking (Some x))) r (alter (add_sem 1) q' ps)) in *.
      assert (∀ y ypr, ps !! y = Some ypr → ∃ ypr', ps1 !! y = Some ypr' ∧ (y = r ∧ pc ypr' = Waking (Some x) ∨ pc ypr' = pc ypr)) as Hy.
      { intros y ypr Hy. unfold ps1. destruct (decide (y = r)) as [->|Hne].
        - rewrite list_lookup_alter_eq. destruct (decide (r = q')) as [->|Hne'].
          + rewrite list_lookup_alter_eq, Hy. simpl. eauto.
          + rewrite list_lookup_alter_ne by done. rewrite Hy. simpl. eauto.
        - rewrite list_lookup_alter_ne by done. destruct (decide (y = q')) as [->|Hne'].
          + rewrite list_lookup_alter_eq, Hy. simpl. eauto.
          + rewrite list_lookup_alter_ne by done. rewrite Hy. simpl. eauto. }
      destruct (Hy _ _ Hr) as (rpr' & Hr' & [[_ Hpc']|Hbad]).
      2:{ exfalso. unfold ps1 in Hr'. rewrite list_lookup_alter_eq in Hr'.
          destruct (alter _ _ _ !! r); [|done]. simpl in Hr'. injection Hr' as <-. simpl in Hbad. congruence. }
      destruct (Hy _ _ Hx) as (xpr' & Hx' & _). destruct (Hy _ _ Hq) as (qpr' & Hq' & Hqpc).
      exists ps1, rpr', xpr', qpr'. split; [done|]. split; [|repeat split; try done].
      + apply rtc_once. apply (go_wake r). unfold LWLockRelease_wake. simpl. rewrite Hr. simpl. by rewrite Hpc.
      + destruct Hqpc as [[-> _]|Hqpc].
        * simplify_eq. unfold waits_for in Hwf. by rewrite Hpc in Hwf.
        * unfold waits_for in *. by rewrite Hqpc. }
  destruct (ok_pop G L ps1 r rpr x xpr Hok1 Hr Hpc Hx) as (Hrx & g' & Hg' & Hok2).
  rewrite <- Hg in Hg'. injection Hg' as <-.
  assert (r ≠ q) as Hrq by (intros ->; simplify_eq; unfold waits_for in Hwf1; by rewrite Hpc in Hwf1).
  set (ps2 := <[r := _]> _) in Hok2.
  assert (can_get l q (mkState L ps2)) as Hget.
  { destruct (decide (x = q)) as [->|Hxq].
    - simplify_eq. apply (get_told _ _ _ _ _ (set_wait false (lwExclusive xpr) (set_link None xpr)) Hok2 Hf); [|exact Hwf1|done].
      unfold ps2. rewrite list_lookup_insert_ne by done. by eapply lookup_insert_here.
    - apply (IH (place_upd (inr r) g G) ps2 qpr1); [|done|done| |done|].
      + unfold place_upd. by rewrite decide_True.
      + unfold ps2. rewrite list_lookup_insert_ne by done. by rewrite list_lookup_insert_ne by done.
      + apply elem_of_cons in Hin as [E|Hin]; [congruence|done]. }
  destruct Hget as (st' & qpr' & Hrun & Hq'). exists st', qpr'. split; [|done].
  etrans; [exact Hr1|]. eapply rtc_l; [|exact Hrun]. apply (go_wake r). unfold LWLockRelease_wake. simpl.
  rewrite Hr. simpl. rewrite Hpc, Hx. simpl. unfold ps2, upd_proc. simpl. do 2 f_equal.
  rewrite (alter_insert _ _ _ _ Hx). apply alter_insert. by rewrite list_lookup_insert_ne by done.
Qed.

(** ** What [LWLockRelease] does *)

(** The list that starts at [o], for the specification. *)
Fixpoint walk (fuel : nat) (ps : list proc) (o : option nat) : list nat :=
  match fuel, o with
  | S fuel', Some q => q :: walk fuel' ps (ps !! q ≫= lwWaitLink)
  | _, _ => []
  end.
Definition waiters (st : lwstate) (o : option nat) : list nat := walk (length (procs st)) (procs st) o.

Definition wants_shared (ps : list proc) (q : nat) : bool :=
  match ps !! q with Some pr => negb (lwExclusive pr) | None => false end.
Fixpoint shared_prefix (ps : list proc) (g : list nat) : list nat :=
  match g with
  | [] => []
  | q :: g' => if wants_shared ps q then q :: shared_prefix ps g' else []
  end.
(** Whom to awaken: the first, and when it wants the lock shared, all after it that do. *)
Definition to_release (ps : list proc) (g : list nat) : list nat :=
  match g with
  | [] => []
  | h :: g' => h :: (if wants_shared ps h then shared_prefix ps g' else [])
  end.

Lemma chain_walk ps o g fuel :
  chain (λ x, ps !! x ≫= lwWaitLink) o g → (length g ≤ fuel)%nat → walk fuel ps o = g.
Proof.
  revert o fuel. induction g as [|q g IH]; intros o fuel Hc Hf; simpl in *.
  - subst. by destruct fuel.
  - destruct Hc as [-> Hc], fuel as [|fuel]; [lia|]. simpl. f_equal. apply IH; [done|lia].
Qed.

Lemma waiters_list G st k : lists_ok G (view_of st) → waiters st (v_start (view_of st) k) = G k.
Proof.
  intros HG. apply chain_walk; [apply (lo_chain _ _ HG k)|].
  rewrite <- (length_seq (length (procs st)) 0). apply NoDup_incl_length.
  - apply NoDup_ListNoDup. apply (lo_nodup _ _ HG).
  - intros q Hq%list_elem_of_In. destruct (list_member _ _ _ _ HG Hq) as (pr & l & Hpr & _).
    apply in_seq. apply lookup_lt_Some in Hpr. lia.
Qed.

Lemma last_released_total fuel ps h g :
  chain (λ x, ps !! x ≫= lwWaitLink) (Some h) g → (∀ x, x ∈ g → is_Some (ps !! x)) → (length g ≤ fuel)%nat →
  ∃ a q b, last_released fuel ps h = Some q ∧ g = a ++ q :: b ∧ a ++ [q] = h :: shared_prefix ps (tl g).
Proof.
  revert h g. induction fuel as [|fuel IH]; intros h g Hc Hv Hf; (destruct g as [|h' g]; [done|]); simpl in *; [lia|].
  destruct Hc as [[= <-] Hc]. destruct (Hv h) as [pr Hpr]; [set_solver|]. rewrite Hpr in Hc |- *. simpl in *.
  destruct g as [|q' g]; simpl in Hc.
  - rewrite Hc. by exists [], h, [].
  - destruct Hc as [Hq' Hc]. rewrite Hq'. destruct (Hv q') as [pr' Hpr']; [set_solver|]. rewrite Hpr'. simpl.
    unfold wants_shared at 1. rewrite Hpr'. destruct (lwExclusive pr') eqn:Hx; simpl.
    + by exists [], h, (q' :: g).
    + destruct (IH q' (q' :: g)) as (a & q & b & Hq & Hg & Ha); [by split|set_solver|simpl in *; lia|].
      exists (h :: a), q, b. split; [done|]. split; [by rewrite Hg|]. simpl. f_equal. exact Ha.
Qed.

Lemma released_split G L ps l lk h :
  lists_ok G (view_of (mkState L ps)) → L !! l = Some lk → head lk = Some h →
  ∃ hpr a q b, ps !! h = Some hpr ∧
    (if lwExclusive hpr then Some h else last_released (length ps) ps h) = Some q ∧
    G (inl l) = a ++ q :: b ∧ a ++ [q] = to_release ps (G (inl l)).
Proof.
  intros HG Hl Hh. destruct (list_head _ _ _ _ _ HG Hl Hh) as [g Hg].
  pose proof (lo_chain _ _ HG (inl l)) as Hc. simpl in Hc. rewrite Hl in Hc. simpl in Hc. rewrite Hh in Hc.
  assert (∀ x, x ∈ G (inl l) → is_Some (ps !! x)) as Hv.
  { intros x Hx. destruct (list_member _ _ _ _ HG Hx) as (pr & ? & Hpr & _). by exists pr. }
  destruct (Hv h) as [hpr Hhp]; [rewrite Hg; set_solver|]. exists hpr.
  assert (wants_shared ps h = negb (lwExclusive hpr)) as Hws by (unfold wants_shared; by rewrite Hhp).
  destruct (lwExclusive hpr) eqn:Hx.
  - exists [], h, g. rewrite Hg. simpl. by rewrite Hws.
  - destruct (last_released_total (length ps) ps h (G (inl l)) Hc Hv) as (a & q & b & H1 & H2 & H3).
    { pose proof (waiters_list G (mkState L ps) (inl l) HG) as Hw. rewrite <- Hw. unfold waiters. simpl.
      clear. generalize (L !! l ≫= head) as o. generalize (length ps) as n. induction n as [|n IH]; intros [q|]; simpl; try lia.
      specialize (IH (ps !! q ≫= lwWaitLink)). lia. }
    exists a, q, b. split; [done|]. split; [done|]. split; [done|]. rewrite H3, Hg. simpl. by rewrite Hws.
Qed.

Lemma held_search_last h1 l md h2 :
  l ∉ h2.*1 → held_search (length (h1 ++ (l, md) :: h2)) l (h1 ++ (l, md) :: h2) = Some (length h1).
Proof.
  intros Hn. rewrite length_app. simpl. set (h := h1 ++ (l, md) :: h2).
  assert (∀ k, (k ≤ length h2)%nat → held_search (length h1 + S k) l h = Some (length h1)) as Hk.
  { induction k as [|k IH]; intros Hk; rewrite Nat.add_succ_r; simpl.
    - rewrite Nat.add_0_r. unfold h. rewrite list_lookup_middle by done. by rewrite bool_decide_true.
    - unfold h at 1. rewrite lookup_app_r by lia. replace (length h1 + S k - length h1)%nat with (S k) by lia. simpl.
      destruct (h2 !! k) as [[l' m']|] eqn:He; [|apply lookup_ge_None in He; lia].
      rewrite bool_decide_false.
      + apply IH. lia.
      + intros ->. apply Hn. apply list_elem_of_fmap. exists (l', m'). split; [done|]. by eapply list_elem_of_lookup_2. }
  by apply Hk.
Qed.

(** What [LWLockRelease] promises up to the release of the spinlock: one hold of the mode [md]
    is given up, [h] is what the process still holds, and the waiting processes are split into
    those to be awakened and those that go on waiting. *)
Definition release_promise (st st' : lwstate) (p l : nat) (lk : LWLock) (md : LWLockMode)
    (h : list (nat * LWLockMode)) : Prop :=
  ∃ lk' pr', LWLockArray st' !! l = Some lk' ∧ procs st' !! p = Some pr' ∧ held pr' = h ∧
    (exclusive lk', shared lk') =
      match md with LW_EXCLUSIVE => (0, 0) | LW_SHARED => (0, shared lk - 1) end ∧
    waiters st' (wake_head pr') ++ waiters st' (head lk') = waiters st (head lk) ∧
    waiters st' (wake_head pr') =
      if decide (exclusive lk' = 0 ∧ shared lk' = 0 ∧ releaseOK lk = true)
      then to_release (procs st) (waiters st (head lk)) else [].

Lemma given_up_counts L ps p pr l lk h1 md h2 :
  counts_ok (mkState L ps) → ps !! p = Some pr → L !! l = Some lk → held pr = h1 ++ (l, md) :: h2 →
  (0 < exclusive lk ∨ 0 < shared lk) ∧
  (exclusive (given_up lk), shared (given_up lk)) =
    match md with LW_EXCLUSIVE => (0, 0) | LW_SHARED => (0, shared lk - 1) end.
Proof.
  intros Hc Hp Hl Hheld. destruct (Hc l lk Hl) as (E & S & X). simpl in E, S.
  pose proof (sum_over_le (hold_count l md) ps p pr (hold_count_nonneg _ _) Hp).
  assert (1 ≤ hold_count l md pr).
  { unfold hold_count. rewrite Hheld, filter_app, length_app, filter_cons, decide_True by done. simpl. lia. }
  unfold given_up. destruct md; (split; [lia|]); destruct (Z.ltb_spec 0 (exclusive lk)); simpl; f_equal; lia.
Qed.

Lemma given_up_lists lk :
  head (given_up lk) = head lk ∧ releaseOK (given_up lk) = releaseOK lk ∧ tail (given_up lk) = tail lk.
Proof. unfold given_up. by destruct (0 <? exclusive lk). Qed.

(** The process forgets the lock: nothing else changes. *)
Lemma ok_forget G L ps p pr h :
  lw_ok G (mkState L ps) → ps !! p = Some pr → lw_ok G (mkState L (<[p := set_held h pr]> ps)).
Proof.
  intros (HG & Hf & Hs) Hp. destruct (view_local L ps p pr (set_held h pr) Hp) as [H1 H2]; [done|].
  split; [by apply H1|]. split; [|apply (sems_insert ps p pr); try done].
  intros l lk Hl. destruct (Hf l lk Hl) as [H3 H4]. split; [done|]. intros H. by apply H2, H4.
Qed.

(** The lists stay as they are. *)
Lemma release_stays G L ps p pr l lk md h :
  lw_ok G (mkState L ps) → ps !! p = Some pr → pc pr = Running → L !! l = Some lk → held pr = h →
  (exclusive (given_up lk), shared (given_up lk)) =
    match md with LW_EXCLUSIVE => (0, 0) | LW_SHARED => (0, shared lk - 1) end →
  ¬ (exclusive (given_up lk) = 0 ∧ shared (given_up lk) = 0 ∧ releaseOK lk = true) ∨ head lk = None →
  release_promise (mkState L ps)
    (mkState (<[l := given_up lk]> L) (<[p := set_pc (Waking None) pr]> ps)) p l lk md h.
Proof.
  intros Hok Hp Hpc Hl Hh Hcnt Hcond. destruct (given_up_lists lk) as (Hgh & Hgr & Hgt).
  exists (given_up lk), (set_pc (Waking None) pr). simpl.
  split; [by eapply lookup_insert_here|]. split; [by eapply lookup_insert_here|]. split; [done|]. split; [done|].
  set (st' := mkState (<[l := _]> _) _).
  assert (lw_ok G st') as Hok'.
  { apply (ok_counts G L ps p pr _ l lk); try done;
      try (unfold wake_head, listed_for, waits_for, signals; simpl; by rewrite Hpc).
    - intros k Hk. unfold sem_ok, extra, checking, due, waits_for. simpl. by rewrite Hpc.
    - intros l' Hne. apply not_under_way_pc; [congruence|]. unfold waits_for. by rewrite Hpc.
    - intros Hr. split; [congruence|]. apply not_under_way_pc; [congruence|]. unfold waits_for. by rewrite Hpc.
    - intros Hhd. destruct Hcond as [Hcond|]; [|done]. rewrite Hgr.
      destruct (decide (exclusive (given_up lk) = 0)); [|auto]. destruct (decide (shared (given_up lk) = 0)); [|auto].
      destruct (releaseOK lk); [|auto]. by exfalso; apply Hcond. }
  pose proof (waiters_list G (mkState L ps) (inl l) (proj1 Hok)) as Hw0. simpl in Hw0. rewrite Hl in Hw0. simpl in Hw0.
  pose proof (waiters_list G st' (inl l) (proj1 Hok')) as Hw1. simpl in Hw1.
  rewrite (lookup_insert_here _ _ _ _ Hl) in Hw1. simpl in Hw1. rewrite Hw0, Hw1.
  replace (waiters st' (wake_head (set_pc (Waking None) pr))) with (@nil nat)
    by (unfold waiters, wake_head; simpl; by destruct (length _)).
  split; [done|]. case_decide; [|done]. destruct Hcond as [|Hn]; [done|]. rewrite Hn in Hw0. rewrite <- Hw0.
  unfold waiters. simpl. by destruct (length ps).
Qed.

(** A part of the list is detached. *)
Lemma release_detaches G L ps p pr l lk md h hd hpr a q b qpr :
  lw_ok G (mkState L ps) → ps !! p = Some pr → pc pr = Running → L !! l = Some lk → held pr = h →
  (exclusive (given_up lk), shared (given_up lk)) =
    match md with LW_EXCLUSIVE => (0, 0) | LW_SHARED => (0, shared lk - 1) end →
  exclusive (given_up lk) = 0 → shared (given_up lk) = 0 → releaseOK lk = true → head lk = Some hd →
  ps !! hd = Some hpr → G (inl l) = a ++ q :: b → a ++ [q] = to_release ps (G (inl l)) → ps !! q = Some qpr →
  release_promise (mkState L ps)
    (mkState (<[l := mkLWLock false (exclusive (given_up lk)) (shared (given_up lk)) (lwWaitLink qpr) (tail lk)]> L)
       (alter (set_pc (Waking (Some hd))) p (alter (set_link None) q ps))) p l lk md h.
Proof.
  intros Hok Hp Hpc Hl Hh Hcnt Hx Hs Hrel Hhd Hhp Hg Ha Hq.
  assert (q ∈ G (inl l)) as Hin by (rewrite Hg; set_solver).
  destruct (list_member _ _ _ _ (proj1 Hok) Hin) as (qpr0 & l0 & Hq0 & _ & Hwf & _). simpl in Hq0. simplify_eq.
  assert (p ≠ q) as Hpq.
  { intros ->. simplify_eq. unfold waits_for in Hwf. by rewrite Hpc in Hwf. }
  rewrite (alter_insert (set_link None) _ _ _ Hq).
  erewrite alter_insert; [|by rewrite list_lookup_insert_ne by done].
  set (lk' := mkLWLock _ _ _ _ _). set (pr' := set_pc (Waking (Some hd)) pr). set (st' := mkState (<[l := lk']> _) _).
  assert (lw_ok (place_upd (inl l) b (place_upd (inr p) (a ++ [q]) G)) st') as Hok'.
  { apply (ok_detach G L ps p pr _ l lk _ a q b qpr); try done. simpl. by rewrite Hhd. }
  assert (LWLockArray st' !! l = Some lk') as Hl' by (by eapply lookup_insert_here).
  assert (procs st' !! p = Some pr') as Hp'.
  { apply list_lookup_insert_eq. rewrite length_insert. by eapply lookup_lt_Some. }
  exists lk', pr'. split; [done|]. split; [done|]. split; [done|]. split; [done|].
  pose proof (waiters_list G (mkState L ps) (inl l) (proj1 Hok)) as Hw0. simpl in Hw0. rewrite Hl in Hw0. simpl in Hw0.
  pose proof (waiters_list _ st' (inl l) (proj1 Hok')) as Hw1. cbn [view_of v_start] in Hw1. rewrite Hl' in Hw1.
  unfold place_upd in Hw1. rewrite decide_True in Hw1 by done. simpl in Hw1.
  pose proof (waiters_list _ st' (inr p) (proj1 Hok')) as Hw2. cbn [view_of v_start] in Hw2. rewrite Hp' in Hw2.
  unfold place_upd in Hw2. rewrite decide_False, decide_True in Hw2 by done. simpl in Hw2.
  unfold lk'. cbn [head exclusive shared]. rewrite Hw0, Hw1, Hw2, Ha. rewrite decide_True by done. split; [|done].
  rewrite <- Ha, Hg, <- app_assoc. done.
Qed.

Lemma to_release_ext ps ps' g :
  (∀ x, wants_shared ps' x = wants_shared ps x) → to_release ps' g = to_release ps g.
Proof.
  intros H. destruct g as [|q g]; simpl; [done|]. rewrite H. f_equal. case_match; [|done].
  induction g as [|x g IH]; simpl; [done|]. by rewrite H, IH.
Qed.

Lemma walk_ext fuel ps ps' o :
  (∀ x, ps' !! x ≫= lwWaitLink = ps !! x ≫= lwWaitLink) → walk fuel ps' o = walk fuel ps o.
Proof. intros H. revert o. induction fuel as [|fuel IH]; intros [q|]; simpl; [done..| |done]. by rewrite H, IH. Qed.

(** The spinlock section of [LWLockRelease] in a state of the invariant. *)
Lemma release_section_spec G st p pr l lk h1 md h2 :
  counts_ok st → lw_ok G st →
  procs st !! p = Some pr → pc pr = Running → LWLockArray st !! l = Some lk →
  held pr = h1 ++ (l, md) :: h2 → l ∉ h2.*1 →
  ∃ st', LWLockRelease_section p l st = Some st' ∧ release_promise st st' p l lk md (h1 ++ h2).
Proof.
  destruct st as [L ps]. simpl. intros Hc Hok Hp Hpc Hl Hheld Hlast.
  pose proof (held_search_last h1 l md h2 Hlast) as Hi. rewrite <- Hheld in Hi.
  assert (delete (length h1) (held pr) = h1 ++ h2) as Hdel by (rewrite Hheld; apply delete_middle).
  destruct (given_up_counts L ps p pr l lk h1 md h2 Hc Hp Hl Hheld) as [Hsome Hcnt].
  destruct (given_up_lists lk) as (Hgh & Hgr & Hgt).
  set (pr1 := set_held (h1 ++ h2) pr). set (ps1 := <[p := pr1]> ps).
  assert (ps1 !! p = Some pr1) as Hp1 by (by eapply lookup_insert_here).
  assert (lw_ok G (mkState L ps1)) as Hok1 by (by apply ok_forget).
  assert (∀ st', release_promise (mkState L ps1) st' p l lk md (h1 ++ h2) →
    release_promise (mkState L ps) st' p l lk md (h1 ++ h2)) as Hback.
  { intros st' (lk' & pr' & H1 & H2 & H3 & H4 & H5 & H6). exists lk', pr'.
    assert (waiters (mkState L ps1) (head lk) = waiters (mkState L ps) (head lk)) as Heq.
    { unfold waiters. simpl. unfold ps1 at 1. rewrite length_insert. apply walk_ext. intros x. unfold ps1.
      rewrite (bind_insert _ _ _ _ _ _ Hp). destruct (decide (x = p)) as [->|_]; [by rewrite Hp|done]. }
    rewrite Heq in H5, H6. change (procs (mkState L ps1)) with ps1 in H6. rewrite (to_release_ext ps ps1) in H6; [repeat split; assumption|].
    intros x. unfold wants_shared, ps1. destruct (decide (x = p)) as [->|Hne].
    - by rewrite (lookup_insert_here _ _ _ _ Hp), Hp.
    - by rewrite list_lookup_insert_ne by congruence. }
  unfold LWLockRelease_section, upd_proc, put_lock. simpl. rewrite Hp. simpl. rewrite Hpc, Hi. simpl. rewrite Hl. simpl.
  rewrite !(alter_insert _ _ _ _ Hp), Hdel. fold pr1 ps1.
  replace (if 0 <? exclusive lk then _ else _) with (Some (given_up lk)).
  2:{ unfold given_up. destruct (Z.ltb_spec 0 (exclusive lk)), (Z.ltb_spec 0 (shared lk)); done || lia. }
  simpl. rewrite Hgh, Hgr, Hgt. rewrite (alter_insert (set_pc (Waking None)) _ _ _ Hp1).
  destruct (head lk) as [hd|] eqn:Hh.
  2:{ eexists. split; [reflexivity|]. apply Hback. eapply release_stays; eauto. }
  destruct ((exclusive (given_up lk) =? 0) && (shared (given_up lk) =? 0) && releaseOK lk) eqn:Hcnd.
  2:{ eexists. split; [reflexivity|]. apply Hback. eapply release_stays; eauto.
      left. intros (E1 & E2 & E3). by rewrite E1, E2, E3 in Hcnd. }
  apply andb_true_iff in Hcnd as [Hcnd Hrel]. apply andb_true_iff in Hcnd as [Hx Hs]. apply Z.eqb_eq in Hx, Hs.
  destruct (released_split G L ps1 l lk hd (proj1 Hok1) Hl Hh) as (hpr & a & q & b & Hhp & Hq & Hg & Ha).
  assert (q ∈ G (inl l)) as Hin by (rewrite Hg; set_solver).
  destruct (list_member _ _ _ _ (proj1 Hok1) Hin) as (qpr & _ & Hqp & _). simpl in Hqp.
  rewrite Hhp. simpl. rewrite Hq. simpl. rewrite Hqp. simpl. eexists. split; [reflexivity|]. apply Hback.
  by eapply release_detaches.
Qed.

(** ** The properties *)

(** A lock that a process waits for and that nobody holds is going to be taken. *)
Lemma free_lock_taken G L ps l p pr :
  lw_ok G (mkState L ps) → free l L → ps !! p = Some pr → waits_for pr = Some l →
  ∃ q qpr, ps !! q = Some qpr ∧
    (waits_for qpr = Some l ∨ ∃ m e, pc qpr = Trying l m true e) ∧ can_get l q (mkState L ps).
Proof.
  intros Hok Hfree Hp Hwf. assert (some_under_way G l ps) as (q & qpr & Hq & Hway).
  { destruct (decide (p ∈ G (inl l))) as [Hin|Hn].
    - destruct Hfree as (lk & Hl & Hx & Hs). destruct Hok as (_ & Hf & _). destruct (Hf l lk Hl) as [H1 H2].
      apply H2. destruct H1 as [|[|]]; [|done..]. intros Hg. rewrite Hg in Hin. inversion Hin.
    - exists p, pr. split; [done|]. by right. }
  exists q, qpr. split; [done|]. destruct Hway as [(m & e & Hpc)|[Hwq Hnin]].
  - split; [eauto|]. by eapply get_trying.
  - split; [auto|]. destruct (lwWaiting qpr) eqn:Hw; [|by eapply get_told].
    destruct (lo_all _ _ (proj1 Hok) q l) as [[l'|r] Hk].
    + simpl. rewrite Hq. simpl. unfold listed_for. by rewrite Hw.
    + destruct (list_member _ _ _ _ (proj1 Hok) Hk) as (qpr0 & l0 & Hq0 & _ & Hw0 & Hl0). simpl in Hq0. simplify_eq.
      specialize (Hl0 _ eq_refl). subst. done.
    + by eapply get_detached.
Qed.

Lemma held_counts l m pr : (l, m) ∈ held pr → 1 ≤ hold_count l m pr.
Proof.
  intros (h1 & h2 & H)%list_elem_of_split. unfold hold_count.
  rewrite H, filter_app, length_app, filter_cons, decide_True by done. simpl. lia.
Qed.

(** C13: Lightweight locks exclude each other.  In every state that any interleaving of the
    processes can reach, a lock that one process holds exclusively is held by no other process
    and in no other mode, however the others have come by it, and its fields say so. *)
Theorem lwlock_mutual_exclusion n k st p pr q qpr l m lk :
  lw_reachable n k st → LWLockArray st !! l = Some lk →
  procs st !! p = Some pr → (l, LW_EXCLUSIVE) ∈ held pr →
  procs st !! q = Some qpr → (l, m) ∈ held qpr →
  q = p ∧ m = LW_EXCLUSIVE ∧ hold_count l LW_EXCLUSIVE pr = 1 ∧ exclusive lk = 1 ∧ shared lk = 0.
Proof.
  intros Hr Hl Hp Hpl Hq Hql. destruct (lw_ok_reachable _ _ _ Hr) as [Hc _].
  destruct (Hc l lk Hl) as (E & S & X). apply held_counts in Hpl, Hql.
  pose proof (sum_over_le (hold_count l LW_EXCLUSIVE) _ _ _ (hold_count_nonneg _ _) Hp).
  pose proof (sum_over_le (hold_count l m) _ _ _ (hold_count_nonneg _ _) Hq).
  destruct m; [|lia]. split; [|split; [done|]; lia].
  destruct (decide (p = q)) as [|Hne]; [done|].
  pose proof (sum_over_two (hold_count l LW_EXCLUSIVE) _ _ _ _ _ (hold_count_nonneg _ _) Hne Hp Hq). lia.
Qed.

(** [LWLockRelease] of a lock that is held always succeeds, whatever the other processes
    have done: the assertion on the count does not fail and the walk along the list ends.  The
    latest hold is forgotten and one hold of that mode given up; when that was the last one
    and nobody is under way, the first waiting process is detached and, when it wants the lock
    shared, with it exactly those directly after it that do; the others keep their order. *)
Theorem LWLockRelease_correct n k st p pr l lk h1 md h2 :
  lw_reachable n k st → procs st !! p = Some pr → pc pr = Running → LWLockArray st !! l = Some lk →
  held pr = h1 ++ (l, md) :: h2 → l ∉ h2.*1 →
  ∃ st', LWLockRelease_section p l st = Some st' ∧ release_promise st st' p l lk md (h1 ++ h2).
Proof.
  intros Hr. destruct (lw_ok_reachable _ _ _ Hr) as [Hc [G HG]]. by apply (release_section_spec G).
Qed.

(** C12: No wakeup is lost.  In every state that can be reached in which a process sleeps for a
    lock that nobody holds, some process that waits for that lock, or has been told to try
    again, gets it when the processes that are already in [LWLockAcquire] and [LWLockRelease]
    go on: no new release and no other signal is needed. *)
Theorem lwlock_no_lost_wakeup n k st p pr l lk :
  lw_reachable n k st → procs st !! p = Some pr → waits_for pr = Some l →
  LWLockArray st !! l = Some lk → exclusive lk = 0 → shared lk = 0 →
  ∃ q qpr, procs st !! q = Some qpr ∧
    (waits_for qpr = Some l ∨ ∃ m e, pc qpr = Trying l m true e) ∧
    ∃ st' qpr', rtc lw_continue st st' ∧ procs st' !! q = Some qpr' ∧ l ∈ (held qpr').*1.
Proof.
  intros Hr Hp Hwf Hl Hx Hs. destruct (lw_ok_reachable _ _ _ Hr) as [_ [G HG]]. destruct st as [L ps].
  apply (free_lock_taken G L ps l p pr); try done. by exists lk.
Qed.

(** The semaphore that lightweight locks share with others is paid back.  Whenever a
    process is outside [LWLockAcquire], what its semaphore holds together with the signals of
    [LWLockRelease] that are still to be sent to it is exactly what others have signalled and
    it has not consumed: no such signal is lost in a wait for a lock, and none is invented
    for good. *)
Theorem lwlock_semaphore_balance n k st p pr :
  lw_reachable n k st → procs st !! p = Some pr → pc pr = Running →
  0 ≤ sem pr ∧ sem pr + pending p (procs st) = external pr.
Proof.
  intros Hr Hp Hpc. destruct (lw_ok_reachable _ _ _ Hr) as [_ [G (_ & _ & Hs)]].
  destruct (Hs p pr Hp) as (H1 & _ & H2 & _). unfold extra, checking, due, waits_for in H2. rewrite Hpc in H2.
  rewrite decide_False in H2 by naive_solver. lia.
Qed.

(** ** One lock and three processes: process 0 takes the lock, the others wait for it, and a
    signal for another purpose reaches process 1 while it waits. *)
Definition run_ops (ops : list (lwstate → option lwstate)) (st : lwstate) : lwstate :=
  foldl (λ st f, default st (f st)) st ops.
Definition demo_held : lwstate :=
  run_ops [LWLockAcquire_start 0 0 LW_EXCLUSIVE; LWLockAcquire_pass 0; LWLockAcquire_repay 0;
           LWLockAcquire_start 1 0 LW_SHARED; LWLockAcquire_pass 1;
           LWLockAcquire_start 2 0 LW_SHARED; LWLockAcquire_pass 2;
           λ st, Some (upd_proc 1 (add_external 1) st)] (lw_initial 1 3).
Definition demo_released : lwstate := default demo_held (LWLockRelease_section 0 0 demo_held).

Lemma demo_held_reachable : lw_reachable 1 3 demo_held.
Proof.
  unfold lw_reachable.
  eapply rtc_l; [apply (lw_start 0 0 LW_EXCLUSIVE); [simpl; lia|reflexivity]|].
  eapply rtc_l; [apply (lw_pass 0); reflexivity|]. eapply rtc_l; [apply (lw_repay 0); reflexivity|].
  eapply rtc_l; [apply (lw_start 1 0 LW_SHARED); [simpl; lia|reflexivity]|].
  eapply rtc_l; [apply (lw_pass 1); reflexivity|].
  eapply rtc_l; [apply (lw_start 2 0 LW_SHARED); [simpl; lia|reflexivity]|].
  eapply rtc_l; [apply (lw_pass 2); reflexivity|]. apply rtc_once. apply (lw_signal 1).
Qed.

Lemma demo_released_reachable : lw_reachable 1 3 demo_released.
Proof. eapply rtc_r; [apply demo_held_reachable|]. apply (lw_release 0 0). reflexivity. Qed.

Lemma lwlock_mutual_exclusion_witness :
  ∃ lk, LWLockArray demo_held !! 0%nat = Some lk ∧ exclusive lk = 1 ∧ shared lk = 0.
Proof.
  eexists. split; [reflexivity|].
  destruct (lwlock_mutual_exclusion 1 3 demo_held 0 _ 0 _ 0 LW_EXCLUSIVE _ demo_held_reachable eq_refl eq_refl
    ltac:(left) eq_refl ltac:(left)) as (_ & _ & _ & H). exact H.
Defined.

Lemma LWLockRelease_correct_witness :
  ∃ lk st', LWLockArray demo_held !! 0%nat = Some lk ∧ waiters demo_held (head lk) = [1; 2]%nat ∧
    LWLockRelease_section 0 0 demo_held = Some st' ∧
    release_promise demo_held st' 0 0 lk LW_EXCLUSIVE [].
Proof.
  destruct (LWLockRelease_correct 1 3 demo_held 0 _ 0 _ [] LW_EXCLUSIVE [] demo_held_reachable eq_refl eq_refl eq_refl
    eq_refl ltac:(intros H; inversion H)) as (st' & H1 & H2).
  eexists _, st'. split; [reflexivity|]. split; [reflexivity|]. split; [exact H1|exact H2].
Defined.

Lemma lwlock_no_lost_wakeup_witness :
  ∃ q st' qpr, rtc lw_continue demo_released st' ∧ procs st' !! q = Some qpr ∧ (0%nat ∈ (held qpr).*1).
Proof.
  destruct (lwlock_no_lost_wakeup 1 3 demo_released 1 _ 0 _ demo_released_reachable eq_refl eq_refl eq_refl eq_refl eq_refl)
    as (q & _ & _ & _ & st' & qpr & H). by exists q, st', qpr.
Defined.

Lemma lwlock_semaphore_balance_witness :
  ∃ pr, procs demo_held !! 0%nat = Some pr ∧ sem pr + pending 0 (procs demo_held) = external pr.
Proof.
  eexists. split; [reflexivity|].
  apply (lwlock_semaphore_balance 1 3 demo_held 0 _ demo_held_reachable eq_refl eq_refl).
Defined.
