(* ===== verification/Prune.v ===== *)
(** * Pruning of heap pages: [backend/access/heap/pruneheap.c]

    Every function of the file, and the search along a HOT chain and the conflict horizon of
    [heapam.c] that go with it, on the bytes of a page ([Page]) and with the visibility
    routines ([Tqual]): a tuple header is 23 bytes of the page, the routines read it there
    and write hint bits back.  The page is under the buffer cleanup lock, so nothing else
    changes it, but other transactions go on: the clock is that of [Tqual].

    The array sizes and assertions of the source are kept: a write past the end of
    [chainitems] or [marked], or a failed assertion, is undefined.

    Not modelled: the WAL record itself (its position is a parameter), statistics, predicate
    locks and the conflict checks of serializable transactions.  The specifications and
    theorems are in [PruneSpec]. *)

From S2P Require Import Prelude Xid Htup Tqual Page.

(** ** Tuple headers in a page *)

Definition HEAP_HOT_UPDATED : Z := 0x4000.
Definition HEAP_ONLY_TUPLE : Z := 0x8000.

(** The fixed part of [HeapTupleHeaderData], up to [t_bits]. *)
Definition SizeofHeapTupleHeader : Z := 23.
Definition field (bs : list Z) (off n : nat) : Z := le_decode (take n (drop off bs)).
Definition header_of (bs : list Z) : HeapTupleHeader :=
  mkTuple (field bs 0 4) (field bs 4 4) (field bs 8 4) (field bs 20 2).
(** [t_ctid]: the two halves of the block number and the offset number. *)
Definition ctid_block (bs : list Z) : Z := field bs 12 2 * 65536 + field bs 14 2.
Definition ctid_offset (bs : list Z) : Z := field bs 16 2.
Definition t_infomask2 (bs : list Z) : Z := field bs 18 2.

Definition HeapTupleHeaderIsHotUpdated (bs : list Z) : bool :=
  has (t_infomask2 bs) HEAP_HOT_UPDATED &&
  negb (has (t_infomask (header_of bs)) (Z.lor HEAP_XMIN_INVALID HEAP_XMAX_INVALID)).
Definition HeapTupleHeaderIsHeapOnly (bs : list Z) : bool := has (t_infomask2 bs) HEAP_ONLY_TUPLE.

(** A buffer: the page, whether it has to be saved for its hint bits, and the clock. *)
Record buffer := mkBuf { b_page : PageData; b_save : bool; b_clock : nat }.

(** An array overrun or a failed assertion. *)
Definition broken {A} : cmd buffer A := λ _, UB.

Definition on_page {A} (m : cmd PageData A) : cmd buffer A := λ s,
  '(a, p) ← m (b_page s); Ret (a, mkBuf p (b_save s) (b_clock s)).
(** The header that [PageGetItem] points to. *)
Definition get_header (lp : ItemIdData) : cmd buffer (list Z) :=
  on_page (if negb (ItemIdHasStorage lp) then undefined else page_read (lp_off lp) SizeofHeapTupleHeader).
(** A visibility routine on the tuple in the page. *)
Definition on_tuple {R} (lp : ItemIdData) (sn : SnapshotData) (m : cmd VState R) : cmd buffer R := λ s,
  '(bs, _) ← get_header lp s;
  '(r, v) ← m (mkV (b_clock s) (header_of bs) (b_save s) sn);
  '(_, p) ← page_write (lp_off lp + 20) (le_encode 2 (t_infomask (tuple v))) (b_page s);
  Ret (r, mkBuf p (needs_save v) (clock v)).

(** ** The working state of a prune *)

Record PruneState := mkPrune {
  new_prune_xid : TransactionId;
  latestRemovedXid : TransactionId;
  redirected : list (Z * Z);
  nowdead : list Z;
  nowunused : list Z;
  marked : list bool }.

Section Prune.
Context (BLCKSZ : Z) (W : nat → XactEnv).

Definition set_prune_xid (x : TransactionId) (p : PruneState) : PruneState :=
  mkPrune x (latestRemovedXid p) (redirected p) (nowdead p) (nowunused p) (marked p).
Definition set_latest (x : TransactionId) (p : PruneState) : PruneState :=
  mkPrune (new_prune_xid p) x (redirected p) (nowdead p) (nowunused p) (marked p).

Definition heap_prune_record_prunable (prstate : PruneState) (xid : TransactionId) : outcome PruneState :=
  if negb (TransactionIdIsNormal xid) then UB else
  Ret (if negb (TransactionIdIsValid (new_prune_xid prstate)) ||
          TransactionIdPrecedes xid (new_prune_xid prstate)
       then set_prune_xid xid prstate else prstate).

(** [Assert(!prstate->marked[offnum]); prstate->marked[offnum] = true] *)
Definition mark (m : list bool) (offnum : Z) : outcome (list bool) :=
  b ← arr_get m offnum; if b : bool then UB else arr_set m offnum true.

Definition heap_prune_record_redirect (prstate : PruneState) (offnum rdoffnum : Z) : outcome PruneState :=
  if MaxHeapTuplesPerPage BLCKSZ <=? Z.of_nat (length (redirected prstate)) then UB else
  m ← mark (marked prstate) offnum;
  m ← mark m rdoffnum;
  Ret (mkPrune (new_prune_xid prstate) (latestRemovedXid prstate) (redirected prstate ++ [(offnum, rdoffnum)])
         (nowdead prstate) (nowunused prstate) m).

Definition heap_prune_record_dead (prstate : PruneState) (offnum : Z) : outcome PruneState :=
  if MaxHeapTuplesPerPage BLCKSZ <=? Z.of_nat (length (nowdead prstate)) then UB else
  m ← mark (marked prstate) offnum;
  Ret (mkPrune (new_prune_xid prstate) (latestRemovedXid prstate) (redirected prstate)
         (nowdead prstate ++ [offnum]) (nowunused prstate) m).

Definition heap_prune_record_unused (prstate : PruneState) (offnum : Z) : outcome PruneState :=
  if MaxHeapTuplesPerPage BLCKSZ <=? Z.of_nat (length (nowunused prstate)) then UB else
  m ← mark (marked prstate) offnum;
  Ret (mkPrune (new_prune_xid prstate) (latestRemovedXid prstate) (redirected prstate)
         (nowdead prstate) (nowunused prstate ++ [offnum]) m).

(** [TransactionIdDidCommit] *)
Definition did_commit (x : TransactionId) : cmd buffer bool := λ s,
  Ret (env_DidCommit (W (b_clock s)) x, mkBuf (b_page s) (b_save s) (S (b_clock s))).

(** The new value of [*latestRemovedXid]. *)
Definition HeapTupleHeaderAdvanceLatestRemovedXid (tup : HeapTupleHeader) (latest : TransactionId)
    : cmd buffer TransactionId :=
  let xmin := t_xmin tup in
  let xmax := t_xmax tup in
  let xvac := HeapTupleHeaderGetXvac tup in
  let latest :=
    if has (t_infomask tup) HEAP_MOVED && TransactionIdPrecedes latest xvac then xvac else latest in
  committed ← (if has (t_infomask tup) HEAP_XMIN_COMMITTED then mret true
               else if has (t_infomask tup) HEAP_XMIN_INVALID then mret false
               else did_commit xmin);
  mret (if committed && negb (xmax =? xmin) && TransactionIdFollows xmax latest then xmax else latest).

(** [HeapTupleSatisfiesVacuum] looks at no snapshot. *)
Definition no_snapshot : SnapshotData := mkSnapshot 0 0 0 [] 0 [] false false 0.
Definition vacuum_verdict (OldestXmin : TransactionId) (lp : ItemIdData) : cmd buffer HTSV_Result :=
  on_tuple lp no_snapshot (HeapTupleSatisfiesVacuum W OldestXmin).

(** ** One chain *)

(** The members of the chain, the last dead one, and the working state. *)
Abbreviation chain_result := (list Z * Z * PruneState)%type.

(** The loop along the chain from [offnum]; [chainitems] are the members so far. *)
Fixpoint prune_chain_loop (fuel : nat) (blkno OldestXmin : Z) (rootlp : ItemIdData) (maxoff offnum : Z)
    (priorXmax : TransactionId) (chainitems : list Z) (latestdead : Z) (prstate : PruneState)
    : cmd buffer chain_result :=
  match fuel with
  | O => broken
  | S fuel' =>
      let stop := mret (chainitems, latestdead, prstate) in
      if (offnum <? FirstOffsetNumber) || (maxoff <? offnum) then stop else
      m ← lift (arr_get (marked prstate) offnum);
      if m : bool then stop else
      lp ← on_page (PageGetItemId offnum);
      if negb (ItemIdIsUsed lp) then stop else
      if ItemIdIsRedirected lp then
        if 0 <? Z.of_nat (length chainitems) then stop else
        prune_chain_loop fuel' blkno OldestXmin rootlp maxoff (ItemIdGetRedirect rootlp) priorXmax
          (chainitems ++ [offnum]) latestdead prstate
      else if ItemIdIsDead lp then stop else
      if negb (ItemIdIsNormal lp) then broken else
      htup ← get_header lp;
      if TransactionIdIsValid priorXmax && negb (TransactionIdEquals (t_xmin (header_of htup)) priorXmax)
      then stop else
      if MaxHeapTuplesPerPage BLCKSZ <=? Z.of_nat (length chainitems) then broken else
      let chainitems := chainitems ++ [offnum] in
      verdict ← vacuum_verdict OldestXmin lp;
      htup ← get_header lp;
      prstate ← match verdict with
                | HEAPTUPLE_RECENTLY_DEAD | HEAPTUPLE_DELETE_IN_PROGRESS =>
                    lift (heap_prune_record_prunable prstate (t_xmax (header_of htup)))
                | _ => mret prstate
                end;
      let next (latestdead : Z) (prstate : PruneState) : cmd buffer chain_result :=
        if negb (HeapTupleHeaderIsHotUpdated htup) then mret (chainitems, latestdead, prstate) else
        if negb (ctid_block htup =? blkno) then broken else
        prune_chain_loop fuel' blkno OldestXmin rootlp maxoff (ctid_offset htup) (t_xmax (header_of htup))
          chainitems latestdead prstate in
      match verdict with
      | HEAPTUPLE_DEAD =>
          latest ← HeapTupleHeaderAdvanceLatestRemovedXid (header_of htup) (latestRemovedXid prstate);
          next offnum (set_latest latest prstate)
      | HEAPTUPLE_RECENTLY_DEAD => next latestdead prstate
      | _ => mret (chainitems, latestdead, prstate)
      end
  end.

(** The loop that removes chain members after [prev] up to the last dead one, and what
    becomes of the root. *)
Fixpoint prune_chain_remove (rootoffnum latestdead prev : Z) (rest : list Z) (ndeleted : Z)
    (prstate : PruneState) : outcome (Z * PruneState) :=
  match rest with
  | [] => prstate ← heap_prune_record_dead prstate rootoffnum; Ret (ndeleted, prstate)
  | c :: rest' =>
      if prev =? latestdead then
        prstate ← heap_prune_record_redirect prstate rootoffnum c; Ret (ndeleted, prstate)
      else
        prstate ← heap_prune_record_unused prstate c;
        prune_chain_remove rootoffnum latestdead c rest' (ndeleted + 1) prstate
  end.

Definition heap_prune_chain (blkno : Z) (rootoffnum : Z) (OldestXmin : TransactionId) (prstate : PruneState)
    : cmd buffer (Z * PruneState) :=
  page ← on_page get_page;
  let maxoff := PageGetMaxOffsetNumber page in
  rootlp ← on_page (PageGetItemId rootoffnum);
  heaponly ← (if ItemIdIsNormal rootlp
              then htup ← get_header rootlp; mret (HeapTupleHeaderIsHeapOnly htup) else mret false);
  if heaponly : bool then
    verdict ← vacuum_verdict OldestXmin rootlp;
    htup ← get_header rootlp;
    match verdict with
    | HEAPTUPLE_DEAD =>
        if negb (HeapTupleHeaderIsHotUpdated htup) then
          prstate ← lift (heap_prune_record_unused prstate rootoffnum);
          latest ← HeapTupleHeaderAdvanceLatestRemovedXid (header_of htup) (latestRemovedXid prstate);
          mret (1, set_latest latest prstate)
        else mret (0, prstate)
    | _ => mret (0, prstate)
    end
  else
    '(chainitems, latestdead, prstate) ←
      prune_chain_loop (S (S (Z.to_nat (MaxHeapTuplesPerPage BLCKSZ)))) blkno OldestXmin rootlp maxoff rootoffnum
        InvalidTransactionId [] InvalidOffsetNumber prstate;
    if OffsetNumberIsValid BLCKSZ latestdead then
      match chainitems with
      | [] => broken
      | c :: rest =>
          lift (prune_chain_remove rootoffnum latestdead c rest (if ItemIdIsNormal rootlp then 1 else 0) prstate)
      end
    else if (Z.of_nat (length chainitems) <? 2) && ItemIdIsRedirected rootlp then
      prstate ← lift (heap_prune_record_dead prstate rootoffnum);
      mret (0, prstate)
    else mret (0, prstate).

(** ** The page *)

Definition heap_page_prune_execute (redirected : list (Z * Z)) (nowdead nowunused : list Z)
    : cmd PageData unit :=
  _ ← citer (λ ft : Z * Z, PageSetItemId (fst ft) (ItemIdSetRedirect (snd ft))) redirected;
  _ ← citer (λ off, PageSetItemId off ItemIdSetDead) nowdead;
  _ ← citer (λ off, PageSetItemId off ItemIdSetUnused) nowunused;
  PageRepairFragmentation BLCKSZ.

(** The scan over the line pointers, from [offnum], [n] of them. *)
Fixpoint prune_scan (n : nat) (blkno offnum : Z) (OldestXmin : TransactionId) (ndeleted : Z) (prstate : PruneState)
    : cmd buffer (Z * PruneState) :=
  match n with
  | O => mret (ndeleted, prstate)
  | S n' =>
      m ← lift (arr_get (marked prstate) offnum);
      if m : bool then prune_scan n' blkno (OffsetNumberNext offnum) OldestXmin ndeleted prstate else
      itemid ← on_page (PageGetItemId offnum);
      if negb (ItemIdIsUsed itemid) || ItemIdIsDead itemid
      then prune_scan n' blkno (OffsetNumberNext offnum) OldestXmin ndeleted prstate else
      '(nd, prstate) ← heap_prune_chain blkno offnum OldestXmin prstate;
      prune_scan n' blkno (OffsetNumberNext offnum) OldestXmin (ndeleted + nd) prstate
  end.

Definition prune_start : PruneState :=
  mkPrune InvalidTransactionId InvalidTransactionId [] [] []
    (replicate (Z.to_nat (MaxHeapTuplesPerPage BLCKSZ + 1)) false).

Definition mark_dirty : cmd buffer unit := λ s, Ret (tt, mkBuf (b_page s) true (b_clock s)).

(** [wal] is what [log_heap_clean] returns and [ThisTimeLineID], for a relation that needs
    WAL.  The result is the number of tuples deleted and [*latestRemovedXid]. *)
Definition heap_page_prune (blkno : Z) (OldestXmin : TransactionId)
    (wal : option (PruneState → XLogRecPtr * Z)) : cmd buffer (Z * TransactionId) :=
  page ← on_page get_page;
  '(ndeleted, prstate) ←
    prune_scan (Z.to_nat (PageGetMaxOffsetNumber page)) blkno FirstOffsetNumber OldestXmin 0 prune_start;
  _ ← (if (0 <? Z.of_nat (length (redirected prstate))) || (0 <? Z.of_nat (length (nowdead prstate))) ||
          (0 <? Z.of_nat (length (nowunused prstate))) then
         _ ← on_page (heap_page_prune_execute (redirected prstate) (nowdead prstate) (nowunused prstate));
         page ← on_page get_page;
         _ ← on_page (put_page (PageClearFull (set_pd_prune_xid (new_prune_xid prstate) page)));
         _ ← mark_dirty;
         match wal with
         | Some log =>
             page ← on_page get_page;
             on_page (put_page (set_pd_tli (uint16_of (snd (log prstate))) (set_pd_lsn (fst (log prstate)) page)))
         | None => mret tt
         end
       else
         page ← on_page get_page;
         if negb (pd_prune_xid page =? new_prune_xid prstate) || PageIsFull page then
           _ ← on_page (put_page (PageClearFull (set_pd_prune_xid (new_prune_xid prstate) page)));
           mark_dirty
         else mret tt);
  mret (ndeleted, latestRemovedXid prstate).

(** [RelationGetTargetPageFreeSpace] *)
Definition RelationGetTargetPageFreeSpace (fillfactor : Z) : Z := BLCKSZ * (100 - fillfactor) / 100.

(** [lock] is [ConditionalLockBufferForCleanup]: whether the lock was granted, and what the
    buffer holds then. *)
Definition with_cleanup_lock (lock : buffer → option buffer) (m : cmd buffer unit) : cmd buffer unit := λ s,
  match lock s with None => Ret (tt, s) | Some s => m s end.

(** [if (PageIsFull(page) || PageGetHeapFreeSpace(page) < minfree)] *)
Definition when_short_of_space (minfree : Z) (m : cmd buffer unit) : cmd buffer unit :=
  page ← on_page get_page;
  space ← on_page (PageGetHeapFreeSpace BLCKSZ);
  if PageIsFull page || (space <? minfree) then m else mret tt.

(** [recovery] is [RecoveryInProgress()]. *)
Definition heap_page_prune_opt (blkno : Z) (OldestXmin : TransactionId) (recovery : bool) (fillfactor : Z)
    (lock : buffer → option buffer) (wal : option (PruneState → XLogRecPtr * Z)) : cmd buffer unit :=
  page ← on_page get_page;
  prunable ← lift (PageIsPrunable page OldestXmin);
  if negb prunable then mret tt else
  if recovery then mret tt else
  let minfree := Z.max (RelationGetTargetPageFreeSpace fillfactor) (BLCKSZ / 10) in
  when_short_of_space minfree
    (with_cleanup_lock lock
       (when_short_of_space minfree (_ ← heap_page_prune blkno OldestXmin wal; mret tt))).

(** ** Root line pointers *)

Fixpoint root_chain (fuel : nat) (root nextoffnum : Z) (priorXmax : TransactionId) (roots : list Z)
    : cmd buffer (list Z) :=
  match fuel with
  | O => broken
  | S fuel' =>
      lp ← on_page (PageGetItemId nextoffnum);
      if negb (ItemIdIsNormal lp) then mret roots else
      htup ← get_header lp;
      if TransactionIdIsValid priorXmax && negb (TransactionIdEquals priorXmax (t_xmin (header_of htup)))
      then mret roots else
      roots ← lift (arr_set roots (nextoffnum - 1) root);
      if negb (HeapTupleHeaderIsHotUpdated htup) then mret roots else
      root_chain fuel' root (ctid_offset htup) (t_xmax (header_of htup)) roots
  end.

Fixpoint root_scan (n : nat) (offnum : Z) (roots : list Z) : cmd buffer (list Z) :=
  match n with
  | O => mret roots
  | S n' =>
      lp ← on_page (PageGetItemId offnum);
      let fuel := S (Z.to_nat (MaxHeapTuplesPerPage BLCKSZ)) in
      roots ←
        (if negb (ItemIdIsUsed lp) || ItemIdIsDead lp then mret roots
         else if ItemIdIsNormal lp then
           htup ← get_header lp;
           if HeapTupleHeaderIsHeapOnly htup then mret roots else
           roots ← lift (arr_set roots (offnum - 1) offnum);
           if negb (HeapTupleHeaderIsHotUpdated htup) then mret roots else
           root_chain fuel offnum (ctid_offset htup) (t_xmax (header_of htup)) roots
         else if negb (ItemIdIsRedirected lp) then broken
         else root_chain fuel offnum (ItemIdGetRedirect lp) InvalidTransactionId roots);
      root_scan n' (OffsetNumberNext offnum) roots
  end.

(** The array [root_offsets]. *)
Definition heap_get_root_tuples : cmd buffer (list Z) :=
  page ← on_page get_page;
  root_scan (Z.to_nat (PageGetMaxOffsetNumber page)) FirstOffsetNumber
    (replicate (Z.to_nat (MaxHeapTuplesPerPage BLCKSZ)) 0).

(** ** The search along a HOT chain *)

(** The offset number found, and [*all_dead] if the caller asks for it. *)
Abbreviation search_result := (option Z * option bool)%type.

Fixpoint hot_search_loop (fuel : nat) (blkno : Z) (sn : SnapshotData) (RecentGlobalXmin : TransactionId)
    (offnum : Z) (at_chain_start : bool) (prev_xmax : TransactionId) (all_dead : option bool)
    : cmd buffer search_result :=
  match fuel with
  | O => broken
  | S fuel' =>
      page ← on_page get_page;
      if (offnum <? FirstOffsetNumber) || (PageGetMaxOffsetNumber page <? offnum) then mret (None, all_dead) else
      lp ← on_page (PageGetItemId offnum);
      if negb (ItemIdIsNormal lp) then
        if ItemIdIsRedirected lp && at_chain_start
        then hot_search_loop fuel' blkno sn RecentGlobalXmin (ItemIdGetRedirect lp) false prev_xmax all_dead
        else mret (None, all_dead)
      else
      htup ← get_header lp;
      if at_chain_start && HeapTupleHeaderIsHeapOnly htup then mret (None, all_dead) else
      if TransactionIdIsValid prev_xmax && negb (TransactionIdEquals prev_xmax (t_xmin (header_of htup)))
      then mret (None, all_dead) else
      valid ← on_tuple lp sn (HeapTupleSatisfiesMVCC W);
      if valid : bool then mret (Some offnum, (λ _, false) <$> all_dead) else
      all_dead ← match all_dead with
                 | Some true =>
                     verdict ← vacuum_verdict RecentGlobalXmin lp;
                     mret (Some (match verdict with HEAPTUPLE_DEAD => true | _ => false end))
                 | _ => mret all_dead
                 end;
      htup ← get_header lp;
      if HeapTupleHeaderIsHotUpdated htup then
        if negb (ctid_block htup =? blkno) then broken else
        hot_search_loop fuel' blkno sn RecentGlobalXmin (ctid_offset htup) false (t_xmax (header_of htup)) all_dead
      else mret (None, all_dead)
  end.

Definition heap_hot_search_buffer (blkno : Z) (sn : SnapshotData) (RecentGlobalXmin : TransactionId) (offnum : Z)
    (all_dead : bool) : cmd buffer search_result :=
  if negb (TransactionIdIsValid RecentGlobalXmin) then broken else
  hot_search_loop (S (S (Z.to_nat (MaxHeapTuplesPerPage BLCKSZ)))) blkno sn RecentGlobalXmin offnum true
    InvalidTransactionId (if all_dead then Some true else None).

End Prune.
