(* ===== verification/PruneSpec.v ===== *)
(** * Pruning: what it promises

    [heap_ok]: the line pointers of a heap page, the tuples behind them and the HOT chains
    they form.  The first part of the file shows that [heap_page_prune] succeeds on such a
    page whatever other transactions do, that the page stays one, and what becomes of every
    line pointer.  The second part shows that a search along any chain finds the same tuple
    before and after. *)

From S2P Require Import Prelude Xid Htup Tqual QSort Page PageSpec Prune.

(** ** Tuples in slots *)

(** [bs] with the bytes from [d] on replaced by [ns]. *)
Definition patch (bs : list Z) (d : nat) (ns : list Z) : list Z :=
  take d bs ++ ns ++ drop (d + length ns) bs.

Lemma patch_length bs d ns : (d + length ns ≤ length bs)%nat → length (patch bs d ns) = length bs.
Proof. intros. unfold patch. rewrite !length_app, length_take, length_drop. lia. Qed.

Lemma patch_lookup bs d ns k :
  (d + length ns ≤ length bs)%nat →
  patch bs d ns !! k = if decide (d ≤ k < d + length ns)%nat then ns !! (k - d)%nat else bs !! k.
Proof.
  intros Hl. unfold patch. destruct (decide (k < d)%nat) as [Hk|Hk].
  - rewrite lookup_app_l by (rewrite length_take; lia). rewrite lookup_take, decide_True by lia.
    by rewrite decide_False by lia.
  - rewrite lookup_app_r by (rewrite length_take; lia). rewrite length_take.
    replace (d `min` length bs)%nat with d by lia. case_decide as Hin.
    + rewrite lookup_app_l by lia. done.
    + rewrite lookup_app_r by lia. rewrite lookup_drop. f_equal. lia.
Qed.

Lemma body_read_patch b off len d ns :
  fits b off len → 0 ≤ d → d + Z.of_nat (length ns) ≤ len →
  body_read (body_write b (off + d) ns) off len = patch (body_read b off len) (Z.to_nat d) ns.
Proof.
  intros Hf Hd Hl. assert (fits b (off + d) (Z.of_nat (length ns))) as Hf' by (unfold fits in *; lia).
  pose proof (body_read_length b off len Hf) as Hlen. destruct Hf as (? & ? & ?).
  apply list_eq. intros i. rewrite patch_lookup by lia.
  destruct (decide (Z.of_nat i < len)) as [Hi|Hi].
  - pose proof (body_read_lookup (body_write b (off + d) ns) off len (Z.of_nat i)) as E.
    pose proof (body_read_lookup b off len (Z.of_nat i)) as E'. rewrite Nat2Z.id in E, E'.
    rewrite E, E', byte_at_write by (done || lia). clear E E'.
    destruct (decide (off + d ≤ off + Z.of_nat i < off + d + Z.of_nat (length ns))).
    + rewrite decide_True by lia. f_equal. lia.
    + by rewrite decide_False by lia.
  - rewrite decide_False by lia. rewrite !lookup_ge_None_2; [done|lia|].
    unfold body_read. rewrite length_take. lia.
Qed.

(** Bytes of an item are written. *)
Lemma write_item_spec BLCKSZ p i d ns fl bs :
  page_wf BLCKSZ p → 0 ≤ i → contents p !! Z.to_nat i = Some (Stored fl bs) → 0 ≤ d →
  d + Z.of_nat (length ns) ≤ Z.of_nat (length bs) → Forall (is_uint 8) ns →
  ∃ b', page_write (lp_off (linp (pd_body p) i) + d) ns p = Ret (tt, set_pd_body b' p) ∧
    page_wf BLCKSZ (set_pd_body b' p) ∧
    contents (set_pd_body b' p) = <[Z.to_nat i := Stored fl (patch bs (Z.to_nat d) ns)]> (contents p) ∧
    (∀ k, 0 ≤ k < nline p → linp b' k = linp (pd_body p) k).
Proof.
  intros Hok Hi0 Hs Hd Hl Hns. destruct (stored_at BLCKSZ p i fl bs Hok Hs Hi0) as (Hi & Hst & Hlen & Hfl).
  destruct (ok_item BLCKSZ p i Hok Hi Hst) as (Hpos & Hal & Hup & Hmax & Hsp & Hfit).
  set (lp := linp (pd_body p) i) in *. set (b' := body_write (pd_body p) (lp_off lp + d) ns).
  assert (fits (pd_body p) (lp_off lp + d) (Z.of_nat (length ns))) as Hf by (unfold fits in *; lia).
  pose proof Hok as [Hblen Hbytes Hflags Hver [Hn Hlow] Hord Haln [Hu Hit Ha]].
  assert (∀ k, 0 ≤ k < nline p → linp b' k = linp (pd_body p) k) as HL.
  { intros k Hk. apply linp_same; [lia|]. apply body_write_same; [done|lia|]. lia. }
  exists b'. split; [by apply page_write_run|]. split; [|split; [|exact HL]].
  - split; cbn [pd_body set_pd_body]; try done.
    + unfold b'. by rewrite body_write_length.
    + by apply body_write_bytes.
    + split.
      * intros k Hk. rewrite HL by done. by apply Hu.
      * intros k Hk. rewrite HL by done. by apply Hit.
      * intros j k Hj Hk. rewrite !HL by done. by apply Ha.
  - pose proof (contents_length p Hn) as Hcl. apply contents_eq; [done|by rewrite length_insert|].
    intros k Hk. change (nline (set_pd_body b' p)) with (nline p) in Hk. cbn [pd_body set_pd_body].
    rewrite HL by done. destruct (decide (i = k)) as [<-|Hne].
    + rewrite list_lookup_insert_eq by lia. f_equal. fold lp. pose proof Hs as Hs'.
      rewrite contents_lookup in Hs' by done. injection Hs' as Hs'. fold lp in Hs'. clearbody lp.
      unfold slot_of in *. destruct (lp_flags lp =? LP_UNUSED); [done|]. destruct (lp_len lp =? 0); [done|].
      injection Hs' as -> Hbs. f_equal. rewrite <- Hbs. symmetry. apply body_read_patch; [unfold fits in *; lia|done|lia].
    + rewrite list_lookup_insert_ne by lia. rewrite contents_lookup by done. f_equal. symmetry.
      apply slot_of_moved; auto using linp_ok. intros Hsk.
      destruct (ok_item BLCKSZ p k Hok Hk Hsk) as (? & ? & ? & ? & ? & Hfk).
      apply body_read_same; [unfold fits in *; lia..|]. apply body_write_same; [done|unfold fits in *; lia|].
      destruct (Ha i k Hi Hk Hne Hst Hsk) as [E|E]; fold lp in E; lia.
Qed.

(** The slot of an offset number. *)
Definition slot_at (C : list slot) (off : Z) : option slot :=
  if decide (1 ≤ off) then C !! Z.to_nat (off - 1) else None.

Lemma slot_at_range C off s : slot_at C off = Some s → 1 ≤ off ≤ Z.of_nat (length C).
Proof. unfold slot_at. case_decide; [|done]. intros Hlt%lookup_lt_Some. lia. Qed.

Lemma slot_at_is_Some C off : 1 ≤ off ≤ Z.of_nat (length C) → is_Some (slot_at C off).
Proof. intros H. unfold slot_at. rewrite decide_True by lia. apply lookup_lt_is_Some_2. lia. Qed.

Lemma slot_at_insert C off s off' :
  1 ≤ off ≤ Z.of_nat (length C) →
  slot_at (<[Z.to_nat (off - 1) := s]> C) off' = if decide (off = off') then Some s else slot_at C off'.
Proof.
  intros H. unfold slot_at. case_decide as E; case_decide as E'; subst; try lia; try done.
  - rewrite list_lookup_insert_eq by lia. done.
  - by rewrite list_lookup_insert_ne by lia.
Qed.

Lemma field_take bs k off n : (off + n ≤ k)%nat → field (take k bs) off n = field bs off n.
Proof. intros. unfold field. rewrite skipn_firstn_comm, take_take. do 2 f_equal. lia. Qed.

Lemma field_eq bs bs' off n :
  (∀ k, (off ≤ k < off + n)%nat → bs' !! k = bs !! k) → field bs' off n = field bs off n.
Proof.
  intros H. unfold field. f_equal. apply list_eq. intros i. rewrite !lookup_take, !lookup_drop.
  case_decide; [|done]. apply H. lia.
Qed.

Lemma le_decode_bound bs : Forall (is_uint 8) bs → 0 ≤ le_decode bs < 256 ^ Z.of_nat (length bs).
Proof.
  induction 1 as [|b bs Hb _ IH]; [simpl; lia|]. cbn [le_decode length]. rewrite Nat2Z.inj_succ, Z.pow_succ_r by lia.
  unfold is_uint in Hb. lia.
Qed.

Lemma field_uint bs off n : Forall (is_uint 8) bs → is_uint (8 * Z.of_nat n) (field bs off n).
Proof.
  intros H. pose proof (le_decode_bound _ (Forall_take _ n _ (Forall_drop _ off _ H))) as [H1 H2].
  split; [done|]. eapply Z.lt_le_trans; [exact H2|]. rewrite Z.pow_mul_r by lia. change (2 ^ 8) with 256.
  apply Z.pow_le_mono_r; [lia|]. rewrite length_take. lia.
Qed.

Lemma header_of_take bs : header_of (take 23 bs) = header_of bs.
Proof. unfold header_of. by rewrite !field_take by lia. Qed.
Lemma hot_take bs : HeapTupleHeaderIsHotUpdated (take 23 bs) = HeapTupleHeaderIsHotUpdated bs.
Proof. unfold HeapTupleHeaderIsHotUpdated, t_infomask2. by rewrite header_of_take, field_take by lia. Qed.
Lemma heap_only_take bs : HeapTupleHeaderIsHeapOnly (take 23 bs) = HeapTupleHeaderIsHeapOnly bs.
Proof. unfold HeapTupleHeaderIsHeapOnly, t_infomask2. by rewrite field_take by lia. Qed.
Lemma ctid_offset_take bs : ctid_offset (take 23 bs) = ctid_offset bs.
Proof. unfold ctid_offset. by rewrite field_take by lia. Qed.
Lemma ctid_block_take bs : ctid_block (take 23 bs) = ctid_block bs.
Proof. unfold ctid_block. by rewrite !field_take by lia. Qed.

(** The same tuple with more hint bits. *)
Record same_tuple (bs bs' : list Z) : Prop := {
  same_length : length bs' = length bs;
  same_before : take 20 bs' = take 20 bs;
  same_after : drop 22 bs' = drop 22 bs;
  same_header : hint_ext (header_of bs) (header_of bs') }.

#[global] Instance same_tuple_preorder : PreOrder same_tuple.
Proof.
  split; [by split|]. intros a b c [A1 A2 A3 A4] [B1 B2 B3 B4]. split; try congruence. by etransitivity.
Qed.

Lemma same_tuple_field bs bs' off n : same_tuple bs bs' → (off + n ≤ 20)%nat → field bs' off n = field bs off n.
Proof. intros [_ H _ _] Hn. rewrite <- (field_take bs' 20), <- (field_take bs 20) by done. by rewrite H. Qed.

(** What hint bits do not change. *)
Lemma same_tuple_fields bs bs' :
  same_tuple bs bs' →
  t_xmin (header_of bs') = t_xmin (header_of bs) ∧ t_xmax (header_of bs') = t_xmax (header_of bs) ∧
  ctid_offset bs' = ctid_offset bs ∧ ctid_block bs' = ctid_block bs ∧ t_infomask2 bs' = t_infomask2 bs ∧
  HeapTupleHeaderIsHeapOnly bs' = HeapTupleHeaderIsHeapOnly bs.
Proof.
  intros H. unfold ctid_offset, ctid_block, HeapTupleHeaderIsHeapOnly, t_infomask2, header_of. simpl.
  by rewrite !(same_tuple_field bs bs') by (done || lia).
Qed.

Lemma hot_updated_eq bs :
  HeapTupleHeaderIsHotUpdated bs =
    has (t_infomask2 bs) HEAP_HOT_UPDATED &&
    negb (is_set (header_of bs) HEAP_XMIN_INVALID) && negb (is_set (header_of bs) HEAP_XMAX_INVALID).
Proof. unfold HeapTupleHeaderIsHotUpdated, is_set. rewrite has_lor_r, negb_orb. by rewrite andb_assoc. Qed.

(** Hint bits can only end a chain. *)
Lemma same_tuple_hot bs bs' :
  same_tuple bs bs' → HeapTupleHeaderIsHotUpdated bs' = true → HeapTupleHeaderIsHotUpdated bs = true.
Proof.
  intros H. destruct (same_tuple_fields _ _ H) as (_ & _ & _ & _ & E & _). rewrite !hot_updated_eq, E.
  destruct H as [_ _ _ (_ & _ & _ & _ & Hset)]. rewrite !andb_true_iff, !negb_true_iff.
  intros [[H1 H2] H3]. split; [split; [done|]|].
  - destruct (is_set (header_of bs) HEAP_XMIN_INVALID) eqn:Hb; [|done]. apply Hset in Hb. congruence.
  - destruct (is_set (header_of bs) HEAP_XMAX_INVALID) eqn:Hb; [|done]. apply Hset in Hb. congruence.
Qed.

(** The infomask with more hint bits still fits. *)
Lemma hint_ext_uint h h' : hint_ext h h' → is_uint 16 (t_infomask h) → is_uint 16 (t_infomask h').
Proof.
  intros (_ & _ & _ & Hb & _) Hu.
  assert (∀ i, 16 ≤ i → Z.testbit (t_infomask h') i = false) as Hhigh.
  { intros i Hi. assert (∀ m, has m (2 ^ i) = Z.testbit m i) as Hbit.
    { intros m. unfold has. rewrite <- (Z.shiftl_1_l i), Z.land_comm.
      destruct (Z.testbit m i) eqn:Et.
      - apply negb_true_iff, Z.eqb_neq. intros E. apply (f_equal (λ z, Z.testbit z i)) in E.
        rewrite Z.land_spec, Z.shiftl_spec, Z.sub_diag, Et, Z.testbit_0_l in E by lia. done.
      - apply negb_false_iff, Z.eqb_eq. apply Z.bits_inj'. intros k Hk. rewrite Z.land_spec, Z.testbit_0_l.
        destruct (decide (k = i)) as [->|Hne]; [by rewrite Et, andb_false_r|].
        rewrite Z.shiftl_spec by lia. destruct (decide (i < k)).
        + rewrite (Z.bits_above_log2 1) by (simpl; lia). done.
        + by rewrite Z.testbit_neg_r by lia. }
    rewrite <- Hbit. change (has (t_infomask h') (2 ^ i)) with (is_set h' (2 ^ i)). rewrite Hb.
    - unfold is_set. rewrite Hbit. apply (is_uint_testbit_high 16); [lia|done|lia].
    - rewrite Z.land_comm. specialize (Hbit HINT_BITS). unfold has in Hbit.
      rewrite (Z.bits_above_log2 HINT_BITS) in Hbit by (change (Z.log2 HINT_BITS) with 11; unfold HINT_BITS; lia).
      by apply negb_false_iff, Z.eqb_eq in Hbit. }
  apply testbit_is_uint; [lia| |exact Hhigh].
  apply Z.bits_iff_nonneg_ex. exists 15. intros i Hi. apply Hhigh. lia.
Qed.

Lemma header_patch bs m :
  (22 ≤ length bs)%nat → is_uint 16 m →
  header_of (patch bs 20 (le_encode 2 m)) =
    mkTuple (t_xmin (header_of bs)) (t_xmax (header_of bs)) (t_field3 (header_of bs)) m.
Proof.
  intros Hl Hm. assert (length (le_encode 2 m) = 2%nat) as Hle by apply le_encode_length.
  assert (∀ off n, (off + n ≤ 20)%nat → field (patch bs 20 (le_encode 2 m)) off n = field bs off n) as Hf.
  { intros off n Hn. apply field_eq. intros k Hk. rewrite patch_lookup by lia. by rewrite decide_False by lia. }
  unfold header_of. cbn [t_xmin t_xmax t_field3]. rewrite !Hf by lia. f_equal. unfold field.
  replace (take 2 (drop 20 (patch bs 20 (le_encode 2 m)))) with (le_encode 2 m).
  - rewrite le_decode_encode. apply Z.mod_small. exact Hm.
  - apply list_eq. intros i. rewrite lookup_take, lookup_drop, patch_lookup by lia. case_decide as Hi.
    + rewrite decide_True by lia. f_equal. lia.
    + apply lookup_ge_None_2. lia.
Qed.

Lemma same_tuple_patch bs h' :
  (22 ≤ length bs)%nat → Forall (is_uint 8) bs → hint_ext (header_of bs) h' →
  same_tuple bs (patch bs 20 (le_encode 2 (t_infomask h'))) ∧
  header_of (patch bs 20 (le_encode 2 (t_infomask h'))) = h'.
Proof.
  intros Hl Hb He. assert (is_uint 16 (t_infomask h')) as Hm.
  { apply (hint_ext_uint _ _ He). apply (field_uint bs 20 2 Hb). }
  assert (header_of (patch bs 20 (le_encode 2 (t_infomask h'))) = h') as Eh.
  { rewrite header_patch by done. destruct He as (E1 & E2 & E3 & _). destruct h'. simpl in *. congruence. }
  split; [|done]. assert (length (le_encode 2 (t_infomask h')) = 2%nat) as Hle by apply le_encode_length.
  split; [apply patch_length; lia| | |by rewrite Eh].
  - unfold patch. rewrite take_app_le by (rewrite length_take; lia). by rewrite take_take.
  - unfold patch. rewrite Hle, app_assoc, drop_app_length'; [done|]. rewrite length_app, length_take. lia.
Qed.

(** *** Reading line pointers and headers *)

Lemma linp_slot BLCKSZ p off s :
  page_wf BLCKSZ p → slot_at (contents p) off = Some s →
  let lp := linp (pd_body p) (off - 1) in
  PageGetItemId off p = Ret (lp, p) ∧ slot_of (pd_body p) lp = s ∧
  match s with
  | Unused => lp_flags lp = LP_UNUSED
  | Pointer fl link => lp_flags lp = fl ∧ fl ≠ LP_UNUSED ∧ lp_off lp = link
  | Stored fl bs => lp_flags lp = fl ∧ fl ≠ LP_UNUSED ∧ has_storage lp ∧ lp_len lp = Z.of_nat (length bs)
  end.
Proof.
  intros Hok Hs lp. pose proof (slot_at_range _ _ _ Hs) as Hr. rewrite contents_length in Hr by apply Hok.
  unfold slot_at in Hs. rewrite decide_True in Hs by lia.
  pose proof Hs as Hs'. rewrite contents_lookup in Hs' by lia. injection Hs' as Hs'. fold lp in Hs'.
  split; [by apply (PageGetItemId_ok BLCKSZ)|]. split; [done|].
  destruct s as [|fl link|fl bs].
  - by apply slot_of_unused in Hs'.
  - clearbody lp. unfold slot_of in Hs'. destruct (Z.eqb_spec (lp_flags lp) LP_UNUSED); [done|].
    destruct (lp_len lp =? 0); [|done]. by injection Hs' as <- <-.
  - destruct (stored_at BLCKSZ p (off - 1) fl bs Hok Hs ltac:(lia)) as (_ & Hst & Hlen & Hfl). fold lp in Hst, Hlen, Hfl.
    clearbody lp. unfold slot_of in Hs'. destruct (Z.eqb_spec (lp_flags lp) LP_UNUSED); [done|]. by rewrite <- Hfl.
Qed.

Lemma get_header_spec BLCKSZ s off fl bs :
  page_wf BLCKSZ (b_page s) → slot_at (contents (b_page s)) off = Some (Stored fl bs) → (23 ≤ length bs)%nat →
  get_header (linp (pd_body (b_page s)) (off - 1)) s = Ret (take 23 bs, s).
Proof.
  intros Hok Hs Hl. destruct (linp_slot BLCKSZ _ _ _ Hok Hs) as (_ & Hso & Hf & Hnu & Hst & Hlen).
  pose proof (slot_at_range _ _ _ Hs) as Hr. rewrite contents_length in Hr by apply Hok.
  destruct (ok_item BLCKSZ _ (off - 1) Hok ltac:(lia) Hst) as (_ & _ & _ & Hmax & _ & Hfit).
  set (lp := linp (pd_body (b_page s)) (off - 1)) in *. clearbody lp.
  unfold get_header, on_page, ItemIdHasStorage. rewrite (proj2 (Z.eqb_neq _ _) Hst). cbn [negb].
  rewrite page_read_run by (unfold fits, SizeofHeapTupleHeader in *; lia). cbn [mbind outcome_bind].
  destruct s as [p sv c]. cbn [b_page b_save b_clock] in *. do 2 f_equal. f_equal.
  unfold slot_of in Hso. destruct (lp_flags lp =? LP_UNUSED); [done|]. destruct (lp_len lp =? 0); [done|].
  injection Hso as _ <-. change SizeofHeapTupleHeader with 23.
  rewrite <- (body_read_prefix _ (lp_off lp) 23 (lp_len lp)) by lia. done.
Qed.

Lemma slot_bytes BLCKSZ p off fl bs :
  page_wf BLCKSZ p → slot_at (contents p) off = Some (Stored fl bs) → Forall (is_uint 8) bs.
Proof.
  intros Hok Hs. destruct (linp_slot BLCKSZ _ _ _ Hok Hs) as (_ & Hso & _).
  set (lp := linp (pd_body p) (off - 1)) in *. clearbody lp. unfold slot_of in Hso.
  destruct (lp_flags lp =? LP_UNUSED); [done|]. destruct (lp_len lp =? 0); [done|].
  injection Hso as _ <-. apply body_read_bytes, (ok_bytes _ _ Hok).
Qed.

(** [q] differs from [p] in the bytes of items only. *)
Definition same_lines (p q : PageData) : Prop :=
  (∃ b', q = set_pd_body b' p) ∧ ∀ k, 0 ≤ k < nline p → linp (pd_body q) k = linp (pd_body p) k.

#[global] Instance same_lines_preorder : PreOrder same_lines.
Proof.
  split.
  - intros p. split; [by exists (pd_body p); destruct p|done].
  - intros p q r [[b1 ->] H1] [[b2 ->] H2]. split; [by exists b2|]. intros k Hk.
    rewrite H2 by done. by apply H1.
Qed.

Lemma same_lines_nline p q : same_lines p q → nline q = nline p.
Proof. by intros [[b' ->] _]. Qed.

Section Visibility.
Context (BLCKSZ : Z) (W : nat → XactEnv) `{HW : !XactHistory W}.

Definition tuple_ok (t : nat) (bs : list Z) : Prop :=
  sound W t (header_of bs) ∧ wf_tuple W t (header_of bs).

Lemma tuple_ok_mono t t' bs : (t ≤ t')%nat → tuple_ok t bs → tuple_ok t' bs.
Proof using HW.
  intros Ht [Hs Hw]. split; [by eapply sound_mono|]. by apply (wf_ext W t t' (header_of bs)).
Qed.

(** A visibility routine on a tuple of the page. *)
Lemma on_tuple_spec {R} (m : cmd VState R) (spec : XactEnv → XactEnv → R) sn s off fl bs :
  page_wf BLCKSZ (b_page s) → slot_at (contents (b_page s)) off = Some (Stored fl bs) → (23 ≤ length bs)%nat →
  answers W m spec (mkV (b_clock s) (header_of bs) (b_save s) sn) →
  ∃ r s' bs' t1 t2,
    on_tuple (linp (pd_body (b_page s)) (off - 1)) sn m s = Ret (r, s') ∧ r = spec (W t1) (W t2) ∧
    (b_clock s ≤ t1 ≤ t2)%nat ∧ (t2 ≤ b_clock s')%nat ∧ same_tuple bs bs' ∧ tuple_ok (b_clock s') bs' ∧
    same_lines (b_page s) (b_page s') ∧ page_wf BLCKSZ (b_page s') ∧
    contents (b_page s') = <[Z.to_nat (off - 1) := Stored fl bs']> (contents (b_page s)).
Proof using HW.
  intros Hok Hs Hl (r & v & t1 & t2 & Hm & Ht1 & Ht2 & Hr & Hstep). simpl in Ht1.
  pose proof (slot_bytes BLCKSZ _ _ _ _ Hok Hs) as Hby. pose proof (slot_at_range _ _ _ Hs) as Hrange.
  destruct Hstep as [Hext _ _ Hsnd Hwf]. simpl in Hext.
  destruct (same_tuple_patch bs (tuple v) ltac:(lia) Hby Hext) as [Hsame Hh].
  set (bs' := patch bs 20 (le_encode 2 (t_infomask (tuple v)))) in *.
  pose proof Hs as Hs'. unfold slot_at in Hs'. rewrite decide_True in Hs' by lia.
  destruct (write_item_spec BLCKSZ (b_page s) (off - 1) 20 (le_encode 2 (t_infomask (tuple v))) fl bs Hok ltac:(lia) Hs'
    ltac:(lia)) as (b' & Hwr & Hok' & Hc & HL).
  { rewrite le_encode_length. lia. }
  { apply le_encode_bytes. }
  exists r, (mkBuf (set_pd_body b' (b_page s)) (needs_save v) (clock v)), bs', t1, t2.
  split.
  { unfold on_tuple. rewrite (get_header_spec BLCKSZ s off fl bs Hok Hs Hl). cbn [mbind outcome_bind].
    rewrite header_of_take, Hm. cbn [mbind outcome_bind]. rewrite Hwr. done. }
  split; [done|]. cbn [b_clock b_page]. split; [done|]. split; [done|]. split; [done|].
  split; [split; by rewrite Hh|]. split; [split; [by exists b'|exact HL]|]. split; [done|]. exact Hc.
Qed.

Lemma vacuum_verdict_spec OldestXmin s off fl bs :
  page_wf BLCKSZ (b_page s) → slot_at (contents (b_page s)) off = Some (Stored fl bs) → (23 ≤ length bs)%nat →
  tuple_ok (b_clock s) bs →
  ∃ r s' bs' t1 t2,
    vacuum_verdict W OldestXmin (linp (pd_body (b_page s)) (off - 1)) s = Ret (r, s') ∧
    r = vacuum_spec (W t1) (W t2) OldestXmin (header_of bs) ∧
    (b_clock s ≤ t1 ≤ t2)%nat ∧ (t2 ≤ b_clock s')%nat ∧ same_tuple bs bs' ∧ tuple_ok (b_clock s') bs' ∧
    same_lines (b_page s) (b_page s') ∧ page_wf BLCKSZ (b_page s') ∧
    contents (b_page s') = <[Z.to_nat (off - 1) := Stored fl bs']> (contents (b_page s)).
Proof using HW.
  intros Hok Hs Hl [Hsnd Hwf].
  apply (on_tuple_spec (HeapTupleSatisfiesVacuum W OldestXmin) (λ e1 e2, vacuum_spec e1 e2 OldestXmin (header_of bs)));
    try done.
  apply wp_answers. apply (Vacuum_wp W OldestXmin (mkV (b_clock s) (header_of bs) (b_save s) no_snapshot)).
  by apply good_intro.
Qed.
End Visibility.

(** ** Heap pages *)

(** [b] is the tuple that [a] leads to: by a redirection, or by a HOT update whose
    transaction inserted it. *)
Inductive link (C : list slot) (a b : Z) : Prop :=
| link_redirect bs :
    slot_at C a = Some (Pointer LP_REDIRECT b) → slot_at C b = Some (Stored LP_NORMAL bs) → link C a b
| link_update bs bs' :
    slot_at C a = Some (Stored LP_NORMAL bs) → HeapTupleHeaderIsHotUpdated bs = true → ctid_offset bs = b →
    slot_at C b = Some (Stored LP_NORMAL bs') → t_xmin (header_of bs') = t_xmax (header_of bs) → link C a b.

(** A line pointer of a heap page and its tuple: a deleting transaction is a normal one, and
    a HOT-updated tuple is not merely locked and its successor is in the same block. *)
Definition slot_ok (blkno : Z) (s : slot) : Prop :=
  match s with
  | Unused => True
  | Pointer fl _ => fl = LP_REDIRECT ∨ fl = LP_DEAD
  | Stored fl bs =>
      fl = LP_NORMAL ∧ (23 ≤ length bs)%nat ∧ is_set (header_of bs) HEAP_MOVED = false ∧
      (is_set (header_of bs) HEAP_XMAX_INVALID = false → is_set (header_of bs) HEAP_IS_LOCKED = false →
       TransactionIdIsNormal (t_xmax (header_of bs)) = true) ∧
      (HeapTupleHeaderIsHotUpdated bs = true →
       is_set (header_of bs) HEAP_IS_LOCKED = false ∧ is_set (header_of bs) HEAP_XMAX_IS_MULTI = false ∧
       ctid_block bs = blkno)
  end.

(** The chains of the page: they do not run in circles, they do not join, and only heap-only
    tuples are led to. *)
Record heap_ok (blkno : Z) (C : list slot) : Prop := {
  ho_slot : ∀ off s, slot_at C off = Some s → slot_ok blkno s;
  ho_rank : ∃ rank : Z → nat, (∀ off, rank off < length C)%nat ∧ ∀ a b, link C a b → (rank a < rank b)%nat;
  ho_parent : ∀ a b c, link C a c → link C b c → a = b;
  ho_only : ∀ a b bs, link C a b → slot_at C b = Some (Stored LP_NORMAL bs) → HeapTupleHeaderIsHeapOnly bs = true }.

(** More hint bits, nothing else. *)
Definition hint_slot (s s' : slot) : Prop :=
  match s, s' with
  | Stored fl bs, Stored fl' bs' => fl' = fl ∧ same_tuple bs bs'
  | Stored _ _, _ | _, Stored _ _ => False
  | _, _ => s' = s
  end.
Definition hinted (C C' : list slot) : Prop := Forall2 hint_slot C C'.

#[global] Instance hint_slot_preorder : PreOrder hint_slot.
Proof.
  split.
  - intros [| |]; simpl; done.
  - intros [| |] [| |] [| |]; simpl; try done; try congruence.
    intros [-> ?] [-> ?]. split; [done|]. by etransitivity.
Qed.
#[global] Instance hinted_preorder : PreOrder hinted.
Proof. change (PreOrder (Forall2 hint_slot)). apply _. Qed.

Lemma hinted_length C C' : hinted C C' → length C' = length C.
Proof. intros H. symmetry. by eapply Forall2_length. Qed.

Lemma hinted_at C C' off s :
  hinted C C' → slot_at C off = Some s → ∃ s', slot_at C' off = Some s' ∧ hint_slot s s'.
Proof.
  intros H Hs. unfold slot_at in *. case_decide; [|done]. by apply (Forall2_lookup_l _ _ _ _ _ H Hs).
Qed.
Lemma hinted_at_r C C' off s' :
  hinted C C' → slot_at C' off = Some s' → ∃ s, slot_at C off = Some s ∧ hint_slot s s'.
Proof.
  intros H Hs. unfold slot_at in *. case_decide; [|done]. by apply (Forall2_lookup_r _ _ _ _ _ H Hs).
Qed.

Lemma hinted_stored C C' off fl bs' :
  hinted C C' → slot_at C' off = Some (Stored fl bs') →
  ∃ bs, slot_at C off = Some (Stored fl bs) ∧ same_tuple bs bs'.
Proof.
  intros H Hs. destruct (hinted_at_r _ _ _ _ H Hs) as (s & Hs0 & Hh). destruct s as [| |fl0 bs]; simpl in Hh; try done.
  destruct Hh as [-> Hh]. by exists bs.
Qed.
Lemma hinted_pointer C C' off fl l :
  hinted C C' → slot_at C' off = Some (Pointer fl l) → slot_at C off = Some (Pointer fl l).
Proof.
  intros H Hs. destruct (hinted_at_r _ _ _ _ H Hs) as (s & Hs0 & Hh). destruct s; simpl in Hh; try done. congruence.
Qed.

Lemma hinted_insert C off fl bs bs' :
  slot_at C off = Some (Stored fl bs) → same_tuple bs bs' →
  hinted C (<[Z.to_nat (off - 1) := Stored fl bs']> C).
Proof.
  intros Hs Hsame. apply Forall2_same_length_lookup. split; [by rewrite length_insert|].
  intros i x y Hx Hy. destruct (decide (i = Z.to_nat (off - 1))) as [->|Hne].
  - unfold slot_at in Hs. case_decide; [|done]. rewrite Hx in Hs. injection Hs as ->.
    rewrite list_lookup_insert_eq in Hy by (by eapply lookup_lt_Some). injection Hy as <-. done.
  - rewrite list_lookup_insert_ne in Hy by done. simplify_eq. done.
Qed.

Lemma hinted_link C C' a b : hinted C C' → link C' a b → link C a b.
Proof.
  intros H [bs H1 H2|bs bs' H1 H2 H3 H4 H5].
  - apply (hinted_pointer C C') in H1; [|done]. destruct (hinted_stored _ _ _ _ _ H H2) as (bs0 & H20 & _).
    by eapply link_redirect.
  - destruct (hinted_stored _ _ _ _ _ H H1) as (bs0 & H10 & S1). destruct (hinted_stored _ _ _ _ _ H H4) as (bs0' & H40 & S2).
    destruct (same_tuple_fields _ _ S1) as (_ & Ex & Ec & _). destruct (same_tuple_fields _ _ S2) as (Em & _).
    eapply link_update; [done|by eapply same_tuple_hot|congruence|done|congruence].
Qed.

Lemma hint_ext_unset h h' b : hint_ext h h' → is_set h' b = false → is_set h b = false.
Proof. intros (_ & _ & _ & _ & H) Hb. destruct (is_set h b) eqn:E; [|done]. apply H in E. congruence. Qed.

Lemma slot_ok_hint blkno s s' : hint_slot s s' → slot_ok blkno s → slot_ok blkno s'.
Proof.
  destruct s as [| |fl bs], s' as [| |fl' bs']; cbn [slot_ok hint_slot]; try done; try congruence.
  intros [-> Hs] (-> & Hl & Hm & Hx & Hh). destruct (same_tuple_fields _ _ Hs) as (_ & Ex & _ & Eb & _).
  destruct (hint_ext_bits _ _ (same_header _ _ Hs)) as (_ & _ & Em & Eu & El & _).
  rewrite (same_length _ _ Hs), Em, El, Eu, Ex, Eb. split; [done|]. split; [done|]. split; [done|]. split.
  - intros H1 H2. apply Hx; [|done]. eapply hint_ext_unset; [apply Hs|done].
  - intros H. apply Hh. by eapply same_tuple_hot.
Qed.

Lemma heap_ok_hint blkno C C' : hinted C C' → heap_ok blkno C → heap_ok blkno C'.
Proof.
  intros H [H1 (rank & H2 & H3) H4 H5]. split.
  - intros off s' Hs'. destruct (hinted_at_r _ _ _ _ H Hs') as (s & Hs & Hh). eapply slot_ok_hint; [done|by eapply H1].
  - exists rank. rewrite (hinted_length _ _ H). split; [done|]. intros a b Hl. apply H3. by eapply hinted_link.
  - intros a b c Ha Hb. apply (H4 a b c); by eapply hinted_link.
  - intros a b bs' Hl Hs. destruct (hinted_stored _ _ _ _ _ H Hs) as (bs & Hs0 & Hsame).
    destruct (same_tuple_fields _ _ Hsame) as (_ & _ & _ & _ & _ & ->). eapply H5; [by eapply hinted_link|done].
Qed.

(** A line pointer leads to at most one tuple. *)
Lemma link_functional C a b b' : link C a b → link C a b' → b = b'.
Proof. intros [? H1 _|? ? H1 _ H2] [? H1' _|? ? H1' _ H2']; congruence. Qed.

(** ** The working state *)

Section Marks.
Context (BLCKSZ : Z) (n : Z) (Hn : n ≤ MaxHeapTuplesPerPage BLCKSZ).

Definition sources (prs : PruneState) : list Z := nowunused prs ++ nowdead prs ++ (redirected prs).*1.
Definition all_marks (prs : PruneState) : list Z := sources prs ++ (redirected prs).*2.

(** [marked] says which line pointers are in one of the lists, each in one place only. *)
Record marks_ok (prs : PruneState) : Prop := {
  mo_len : Z.of_nat (length (marked prs)) = MaxHeapTuplesPerPage BLCKSZ + 1;
  mo_marks : ∀ o, 0 ≤ o → marked prs !! Z.to_nat o = Some true ↔ o ∈ all_marks prs;
  mo_nodup : NoDup (all_marks prs);
  mo_range : ∀ o, o ∈ all_marks prs → 1 ≤ o ≤ n }.

(** The lists without the marks and the transaction ids. *)
Definition same_plan (prs prs' : PruneState) : Prop :=
  redirected prs' = redirected prs ∧ nowdead prs' = nowdead prs ∧ nowunused prs' = nowunused prs ∧
  marked prs' = marked prs.

#[global] Instance same_plan_preorder : PreOrder same_plan.
Proof.
  split; [by intros ?|]. intros a b c (A1 & A2 & A3 & A4) (B1 & B2 & B3 & B4). unfold same_plan.
  rewrite B1, B2, B3, B4. done.
Qed.

Lemma same_plan_marks prs prs' :
  same_plan prs prs' → sources prs' = sources prs ∧ all_marks prs' = all_marks prs.
Proof. intros (H1 & H2 & H3 & _). unfold all_marks, sources. by rewrite H1, H2, H3. Qed.

Lemma same_plan_ok prs prs' : same_plan prs prs' → marks_ok prs → marks_ok prs'.
Proof.
  intros H [H1 H2 H3 H4]. destruct (same_plan_marks _ _ H) as [_ E]. destruct H as (_ & _ & _ & Em).
  split; rewrite ?Em, ?E; try done.
Qed.

Lemma marked_get prs o :
  marks_ok prs → 1 ≤ o ≤ n → arr_get (marked prs) o = Ret (bool_decide (o ∈ all_marks prs)).
Proof using Hn.
  intros [H1 H2 H3 H4] Ho. apply arr_get_Some. split; [lia|].
  destruct (lookup_lt_is_Some_2 (marked prs) (Z.to_nat o)) as [b Hb]; [lia|]. rewrite Hb. f_equal.
  specialize (H2 o ltac:(lia)). rewrite Hb in H2. destruct b.
  - symmetry. apply bool_decide_true. naive_solver.
  - symmetry. apply bool_decide_false. naive_solver.
Qed.

Lemma marks_bound prs o : marks_ok prs → 1 ≤ o ≤ n → o ∉ all_marks prs → Z.of_nat (length (all_marks prs)) < n.
Proof using.
  clear Hn. intros [H1 H2 H3 H4] Ho Hno. assert (length (o :: all_marks prs) ≤ length (seqZ 1 n))%nat as Hle.
  { apply NoDup_incl_length; [apply NoDup_ListNoDup, NoDup_cons; done|].
    intros x Hx%list_elem_of_In. apply list_elem_of_In, elem_of_seqZ. apply elem_of_cons in Hx as [->|Hx]; [lia|].
    specialize (H4 x Hx). lia. }
  rewrite length_seqZ in Hle. simpl in Hle. lia.
Qed.

Lemma marks_lengths prs :
  (length (nowunused prs) ≤ length (all_marks prs))%nat ∧ (length (nowdead prs) ≤ length (all_marks prs))%nat ∧
  (length (redirected prs) ≤ length (all_marks prs))%nat.
Proof. unfold all_marks, sources. rewrite !length_app, !length_fmap. lia. Qed.

(** One more mark. *)
Lemma mark_run (m : list bool) (M : list Z) o :
  Z.of_nat (length m) = MaxHeapTuplesPerPage BLCKSZ + 1 →
  (∀ o, 0 ≤ o → m !! Z.to_nat o = Some true ↔ o ∈ M) → 1 ≤ o ≤ n → o ∉ M →
  ∃ m', mark m o = Ret m' ∧ length m' = length m ∧ ∀ x, 0 ≤ x → m' !! Z.to_nat x = Some true ↔ x ∈ o :: M.
Proof using Hn.
  intros Hl Hm Ho Hno. destruct (lookup_lt_is_Some_2 m (Z.to_nat o)) as [b Hb]; [lia|].
  assert (b = false) as ->.
  { destruct b; [|done]. exfalso. apply Hno. apply Hm; [lia|done]. }
  exists (<[Z.to_nat o := true]> m). unfold mark.
  assert (arr_get m o = Ret false) as -> by (apply arr_get_Some; split; [lia|done]). cbn [mbind outcome_bind].
  rewrite arr_set_lt by lia. split; [done|]. split; [by rewrite length_insert|].
  intros x Hx. destruct (decide (x = o)) as [->|Hne].
  - rewrite list_lookup_insert_eq by lia. set_solver.
  - rewrite list_lookup_insert_ne by lia. rewrite Hm by done. set_solver.
Qed.

Lemma marks_extend prs prs' os :
  marks_ok prs → all_marks prs' ≡ₚ os ++ all_marks prs → length (marked prs') = length (marked prs) →
  (∀ x, 0 ≤ x → marked prs' !! Z.to_nat x = Some true ↔ x ∈ os ++ all_marks prs) →
  NoDup (os ++ all_marks prs) → (∀ o, o ∈ os → 1 ≤ o ≤ n) → marks_ok prs'.
Proof using.
  clear Hn. intros [H1 H2 H3 H4] Hp Hl Hm Hnd Hr. split; [by rewrite Hl| | |].
  - intros o Ho. rewrite Hm by done. by rewrite Hp.
  - by rewrite Hp.
  - intros o. rewrite Hp. intros [?|?]%elem_of_app; auto.
Qed.

Lemma record_unused_run prs o :
  marks_ok prs → 1 ≤ o ≤ n → o ∉ all_marks prs →
  ∃ m, heap_prune_record_unused BLCKSZ prs o =
         Ret (mkPrune (new_prune_xid prs) (latestRemovedXid prs) (redirected prs) (nowdead prs) (nowunused prs ++ [o]) m) ∧
       marks_ok (mkPrune (new_prune_xid prs) (latestRemovedXid prs) (redirected prs) (nowdead prs) (nowunused prs ++ [o]) m).
Proof using Hn.
  intros Hok Ho Hno. pose proof (marks_bound prs o Hok Ho Hno). pose proof (marks_lengths prs) as (? & ? & ?).
  destruct (mark_run _ _ o (mo_len _ Hok) (mo_marks _ Hok) Ho Hno) as (m & Hm & Hl & Hx). exists m.
  unfold heap_prune_record_unused. rewrite (proj2 (Z.leb_gt _ _)) by lia. rewrite Hm. split; [done|].
  apply (marks_extend prs _ [o]); try done.
  - unfold all_marks, sources. simpl. solve_Permutation.
  - apply NoDup_app. split; [apply NoDup_singleton|]. split; [set_solver|apply Hok].
  - set_solver.
Qed.

Lemma record_dead_run prs o :
  marks_ok prs → 1 ≤ o ≤ n → o ∉ all_marks prs →
  ∃ m, heap_prune_record_dead BLCKSZ prs o =
         Ret (mkPrune (new_prune_xid prs) (latestRemovedXid prs) (redirected prs) (nowdead prs ++ [o]) (nowunused prs) m) ∧
       marks_ok (mkPrune (new_prune_xid prs) (latestRemovedXid prs) (redirected prs) (nowdead prs ++ [o]) (nowunused prs) m).
Proof using Hn.
  intros Hok Ho Hno. pose proof (marks_bound prs o Hok Ho Hno). pose proof (marks_lengths prs) as (? & ? & ?).
  destruct (mark_run _ _ o (mo_len _ Hok) (mo_marks _ Hok) Ho Hno) as (m & Hm & Hl & Hx). exists m.
  unfold heap_prune_record_dead. rewrite (proj2 (Z.leb_gt _ _)) by lia. rewrite Hm. split; [done|].
  apply (marks_extend prs _ [o]); try done.
  - unfold all_marks, sources. simpl. solve_Permutation.
  - apply NoDup_app. split; [apply NoDup_singleton|]. split; [set_solver|apply Hok].
  - set_solver.
Qed.

Lemma record_redirect_run prs o c :
  marks_ok prs → 1 ≤ o ≤ n → 1 ≤ c ≤ n → o ∉ all_marks prs → c ∉ all_marks prs → o ≠ c →
  ∃ m, heap_prune_record_redirect BLCKSZ prs o c =
         Ret (mkPrune (new_prune_xid prs) (latestRemovedXid prs) (redirected prs ++ [(o, c)]) (nowdead prs) (nowunused prs) m) ∧
       marks_ok (mkPrune (new_prune_xid prs) (latestRemovedXid prs) (redirected prs ++ [(o, c)]) (nowdead prs) (nowunused prs) m).
Proof using Hn.
  intros Hok Ho Hc Hno Hnc Hne. pose proof (marks_bound prs o Hok Ho Hno). pose proof (marks_lengths prs) as (? & ? & ?).
  destruct (mark_run _ _ o (mo_len _ Hok) (mo_marks _ Hok) Ho Hno) as (m & Hm & Hl & Hx).
  destruct (mark_run m (o :: all_marks prs) c ltac:(by rewrite Hl; apply Hok) Hx Hc ltac:(set_solver)) as (m' & Hm' & Hl' & Hx').
  exists m'. unfold heap_prune_record_redirect. rewrite (proj2 (Z.leb_gt _ _)) by lia. rewrite Hm. cbn [mbind outcome_bind].
  rewrite Hm'. split; [done|]. apply (marks_extend prs _ [c; o]); try done.
  - unfold all_marks, sources. simpl. rewrite !fmap_app. simpl. solve_Permutation.
  - cbn [marked]. by rewrite Hl', Hl.
  - apply NoDup_app. split; [by apply NoDup_cons; split; [set_solver|apply NoDup_singleton]|].
    split; [set_solver|apply Hok].
  - set_solver.
Qed.

(** The removal of the members of a chain up to [ld]. *)
Lemma prune_chain_remove_run root ld : ∀ rest prev nd prs,
  marks_ok prs → NoDup (root :: rest) → (∀ o, o ∈ root :: rest → 1 ≤ o ≤ n ∧ o ∉ all_marks prs) →
  ld ∈ prev :: rest →
  ∃ l rest' prs', prev :: rest = l ++ ld :: rest' ∧
    prune_chain_remove BLCKSZ root ld prev rest nd prs = Ret (nd + Z.of_nat (length l), prs') ∧ marks_ok prs' ∧
    latestRemovedXid prs' = latestRemovedXid prs ∧ new_prune_xid prs' = new_prune_xid prs ∧
    nowunused prs' = nowunused prs ++ tl (l ++ [ld]) ∧
    match rest' with
    | [] => nowdead prs' = nowdead prs ++ [root] ∧ redirected prs' = redirected prs
    | c :: _ => nowdead prs' = nowdead prs ∧ redirected prs' = redirected prs ++ [(root, c)]
    end.
Proof using Hn.
  induction rest as [|c rest IH]; intros prev nd prs Hok Hnd Hr Hin.
  - apply list_elem_of_singleton in Hin as <-.
    destruct (Hr root ltac:(set_solver)) as [Ho Hno]. destruct (record_dead_run prs root Hok Ho Hno) as (m & Hm & Hok').
    exists [], []. eexists. split; [done|]. cbn [prune_chain_remove]. rewrite Hm. cbn [mbind outcome_bind].
    split; [do 2 f_equal; simpl; lia|]. split; [exact Hok'|]. simpl. rewrite app_nil_r. done.
  - destruct (Hr root ltac:(set_solver)) as [Ho Hno]. destruct (Hr c ltac:(set_solver)) as [Hoc Hnoc].
    cbn [prune_chain_remove]. destruct (Z.eqb_spec prev ld) as [->|Hne].
    + destruct (record_redirect_run prs root c Hok Ho Hoc Hno Hnoc) as (m & Hm & Hok').
      { intros ->. apply NoDup_cons in Hnd as [Hnd _]. apply Hnd. left. }
      exists [], (c :: rest). eexists. split; [done|]. rewrite Hm. cbn [mbind outcome_bind].
      split; [do 2 f_equal; simpl; lia|]. split; [exact Hok'|]. simpl. rewrite app_nil_r. done.
    + destruct (record_unused_run prs c Hok Hoc Hnoc) as (m & Hm & Hok'). rewrite Hm. cbn [mbind outcome_bind].
      set (prs1 := mkPrune _ _ _ _ _ m) in *.
      assert (all_marks prs1 ≡ₚ c :: all_marks prs) as Hp1 by (unfold all_marks, sources; simpl; solve_Permutation).
      destruct (IH c (nd + 1) prs1 Hok') as (l & rest' & prs' & Heq & Hrun & Hok2 & E1 & E2 & E3 & E4).
      { apply NoDup_cons in Hnd as [H1 H2]. apply NoDup_cons in H2 as [H2 H3]. apply NoDup_cons. set_solver. }
      { intros o Hoo. rewrite Hp1. destruct (Hr o ltac:(set_solver)) as [H1 H2]. split; [done|].
        intros [->|Hx]%elem_of_cons; [|done].
        apply NoDup_cons in Hnd as [H3 H4]. apply NoDup_cons in H4 as [H4 _].
        apply elem_of_cons in Hoo as [->|Hoo]; [apply H3; left|done]. }
      { apply elem_of_cons in Hin as [->|Hin]; done. }
      exists (prev :: l), rest', prs'. split; [by rewrite Heq|]. rewrite Hrun. split; [do 2 f_equal; simpl; lia|].
      split; [done|]. split; [done|]. split; [done|]. split; [|done].
      rewrite E3. unfold prs1. cbn [nowunused]. rewrite <- app_assoc. f_equal. simpl.
      destruct l as [|x l]; simpl in Heq |- *; by injection Heq as ->.
Qed.
End Marks.

(** ** Paths *)

Fixpoint path (C : list slot) (l : list Z) : Prop :=
  match l with
  | a :: l' => match l' with b :: _ => link C a b | [] => True end ∧ path C l'
  | [] => True
  end.

Lemma path_app C l1 l2 : path C (l1 ++ l2) → path C l1 ∧ path C l2.
Proof.
  induction l1 as [|a l1 IH]; simpl; [done|]. intros [H1 H2]. destruct (IH H2) as [H3 H4].
  split; [|done]. split; [|done]. by destruct l1.
Qed.

Lemma path_snoc C l a b : path C (l ++ [a]) → link C a b → path C (l ++ [a; b]).
Proof.
  induction l as [|x l IH]; simpl; [done|]. intros [H1 H2] Hl. split; [|by apply IH]. by destruct l.
Qed.

Lemma path_middle C l1 a b l2 : path C (l1 ++ a :: b :: l2) → link C a b.
Proof. intros H. apply path_app in H as [_ [H _]]. exact H. Qed.

Lemma path_rank C (rank : Z → nat) l :
  (∀ a b, link C a b → (rank a < rank b)%nat) → path C l →
  NoDup l ∧ ∀ x a, last (x :: l) = Some a → path C (x :: l) → (rank x + length l ≤ rank a)%nat.
Proof.
  intros Hr. induction l as [|b l IH]; intros Hp.
  - split; [constructor|]. intros x a [= ->] _. simpl. lia.
  - destruct Hp as [Hp1 Hp2]. destruct (IH Hp2) as [Hnd Hlast]. split.
    + apply NoDup_cons. split; [|done]. intros (l1 & l2 & ->)%list_elem_of_split.
      assert (path C (b :: l1 ++ [b])) as Hp.
      { assert (path C ((b :: l1 ++ [b]) ++ l2)) as H by (rewrite <- app_comm_cons, <- app_assoc; by split).
        apply path_app in H as [H _]. exact H. }
      assert (∀ l x y, path C (x :: l ++ [y]) → (rank x < rank y)%nat) as Hlt.
      { clear -Hr. induction l as [|z l IH]; intros x y [H1 H2]; [by apply Hr|]. apply Hr in H1. specialize (IH z y H2). lia. }
      specialize (Hlt l1 b b Hp). lia.
    + intros x a Hl [H1 H2]. apply Hr in H1. change (last (x :: b :: l)) with (last (b :: l)) in Hl.
      specialize (Hlast b a Hl H2). simpl. lia.
Qed.

(** ** One prune *)

Section Prune.
Context (BLCKSZ : Z) (W : nat → XactEnv) `{HW : !XactHistory W}.
Context (blkno : Z) (OldestXmin : TransactionId).
(** The page at the start, its contents and the time. *)
Context (p0 : PageData) (T0 : nat).
Abbreviation C0 := (contents p0).
Abbreviation n := (Z.of_nat (length C0)).
Context (Hheap : heap_ok blkno C0) (Hmax : n ≤ MaxHeapTuplesPerPage BLCKSZ).
Abbreviation stored off bs := (slot_at C0 off = Some (Stored LP_NORMAL bs)).

(** The tuple has been found in this state by time [t]. *)
Definition found (t : nat) (v : HTSV_Result) (off : Z) : Prop :=
  ∃ bs t1 t2, stored off bs ∧ (T0 ≤ t1 ≤ t2)%nat ∧ (t2 ≤ t)%nat ∧
    vacuum_spec (W t1) (W t2) OldestXmin (header_of bs) = v.
(** Its insertion has been found to have failed. *)
Definition aborted (t : nat) (off : Z) : Prop :=
  ∃ bs t1, stored off bs ∧ (T0 ≤ t1 ≤ t)%nat ∧ xid_state (W t1) (t_xmin (header_of bs)) = Aborted.
Definition redirects (off : Z) : Prop := ∃ l, slot_at C0 off = Some (Pointer LP_REDIRECT l).
(** The chain may be followed past this line pointer. *)
Definition passed (t : nat) (off : Z) : Prop :=
  redirects off ∨ found t HEAPTUPLE_DEAD off ∨ found t HEAPTUPLE_RECENTLY_DEAD off.
(** A dead tuple with no successor. *)
Definition lone (t : nat) (off : Z) : Prop :=
  found t HEAPTUPLE_DEAD off ∧ ((∀ b, ¬ link C0 off b) ∨ aborted t off).
(** Nothing follows this line pointer but a lone dead tuple of [U]. *)
Definition closed (t : nat) (U : list Z) (off : Z) : Prop :=
  aborted t off ∨ ∀ b, link C0 off b → b ∈ U ∧ lone t b.
(** An index entry may point here. *)
Definition rootish (off : Z) : Prop :=
  redirects off ∨ ∃ bs, stored off bs ∧ HeapTupleHeaderIsHeapOnly bs = false.

(** What the lists of the working state say about the page. *)
Record plan_ok (t : nat) (prs : PruneState) : Prop := {
  po_unused : ∀ u, u ∈ nowunused prs →
    (∃ bs, stored u bs ∧ HeapTupleHeaderIsHeapOnly bs = true) ∧
    (lone t u ∨ passed t u ∧ ∃ a, link C0 a u ∧ a ∈ sources prs);
  po_dead : ∀ r, r ∈ nowdead prs → rootish r ∧
    ∃ l d, path C0 (l ++ [d]) ∧ list.head (l ++ [d]) = Some r ∧ Forall (passed t) l ∧
      (redirects d ∨ found t HEAPTUPLE_DEAD d) ∧ closed t (nowunused prs) d;
  po_redirected : ∀ r c, (r, c) ∈ redirected prs → rootish r ∧
    ∃ l d, path C0 (l ++ [d; c]) ∧ list.head (l ++ [d]) = Some r ∧ Forall (passed t) l ∧
      found t HEAPTUPLE_DEAD d ∧ Forall (λ x, x ∈ sources prs) (l ++ [d]) }.

Lemma found_mono t t' v off : (t ≤ t')%nat → found t v off → found t' v off.
Proof. intros Ht (bs & t1 & t2 & H1 & H2 & H3 & H4). exists bs, t1, t2. split_and!; try done; lia. Qed.
Lemma aborted_mono t t' off : (t ≤ t')%nat → aborted t off → aborted t' off.
Proof. intros Ht (bs & t1 & H1 & H2 & H3). exists bs, t1. split_and!; try done; lia. Qed.
Lemma passed_mono t t' off : (t ≤ t')%nat → passed t off → passed t' off.
Proof. intros Ht [?|[?|?]]; [by left|right; left; by eapply found_mono|right; right; by eapply found_mono]. Qed.
Lemma lone_mono t t' off : (t ≤ t')%nat → lone t off → lone t' off.
Proof. intros Ht [H1 [H2|H2]]; (split; [by eapply found_mono|]); [by left|right; by eapply aborted_mono]. Qed.
Lemma closed_mono t t' U U' off : (t ≤ t')%nat → (∀ u, u ∈ U → u ∈ U') → closed t U off → closed t' U' off.
Proof.
  intros Ht HU [H|H]; [left; by eapply aborted_mono|right]. intros b Hb. destruct (H b Hb) as [? ?].
  split; [auto|by eapply lone_mono].
Qed.

Lemma plan_mono t t' prs : (t ≤ t')%nat → plan_ok t prs → plan_ok t' prs.
Proof.
  intros Ht [H1 H2 H3]. split.
  - intros u Hu. destruct (H1 u Hu) as [? [?|[? ?]]]; (split; [done|]);
    [left; by eapply lone_mono|right; split; [by eapply passed_mono|done]].
  - intros r Hr. destruct (H2 r Hr) as (? & l & d & ? & ? & Hl & Hd & ?). split; [done|]. exists l, d.
    split; [done|]. split; [done|]. split; [eapply Forall_impl; [exact Hl|intros x; by apply passed_mono]|].
    split; [destruct Hd; [by left|right; by eapply found_mono]|]. by eapply closed_mono.
  - intros r c Hr. destruct (H3 r c Hr) as (? & l & d & ? & ? & Hl & Hd & ?). split; [done|]. exists l, d.
    split; [done|]. split; [done|]. split; [eapply Forall_impl; [exact Hl|intros x; by apply passed_mono]|].
    split; [by eapply found_mono|done].
Qed.

Lemma plan_same t prs prs' : same_plan prs prs' → plan_ok t prs → plan_ok t prs'.
Proof.
  intros H. destruct (same_plan_marks _ _ H) as [E _]. destruct H as (E1 & E2 & E3 & _). intros [H1 H2 H3].
  split; rewrite ?E, ?E1, ?E2, ?E3; done.
Qed.

(** The buffer during the prune: the page differs from the first in hint bits only. *)
Record buf_ok (s : buffer) : Prop := {
  bo_page : page_wf BLCKSZ (b_page s);
  bo_lines : same_lines p0 (b_page s);
  bo_hinted : hinted C0 (contents (b_page s));
  bo_clock : (T0 ≤ b_clock s)%nat;
  bo_tuples : ∀ off fl bs, slot_at (contents (b_page s)) off = Some (Stored fl bs) → tuple_ok W (b_clock s) bs }.

Lemma buf_later s s' :
  buf_ok s → b_page s' = b_page s → (b_clock s ≤ b_clock s')%nat → buf_ok s'.
Proof using.
  intros [H1 H2 H3 H4 H5] Hp Ht. split; rewrite ?Hp; try done; [lia|].
  intros off fl bs Hs. eapply tuple_ok_mono; [exact Ht|by eapply H5].
Qed.

Lemma buf_maxoff s : buf_ok s → PageGetMaxOffsetNumber (b_page s) = n.
Proof using.
  intros [H1 H2 H3 _ _]. rewrite (PageGetMaxOffsetNumber_ok BLCKSZ) by done.
  rewrite <- (hinted_length _ _ H3). symmetry. apply contents_length, (ok_lower _ _ H1).
Qed.

(** The slot at an offset number, now and at the start. *)
Lemma buf_slot s off :
  buf_ok s → 1 ≤ off ≤ n →
  ∃ sl, slot_at (contents (b_page s)) off = Some sl ∧
    on_page (PageGetItemId off) s = Ret (linp (pd_body (b_page s)) (off - 1), s) ∧
    linp (pd_body (b_page s)) (off - 1) = linp (pd_body p0) (off - 1) ∧
    slot_ok blkno sl ∧ ∃ sl0, slot_at C0 off = Some sl0 ∧ hint_slot sl0 sl.
Proof using Hheap.
  intros [H1 H2 H3 H4 H5] Ho. destruct (slot_at_is_Some C0 off Ho) as [sl0 Hs0].
  destruct (hinted_at _ _ _ _ H3 Hs0) as (sl & Hs & Hh). exists sl. split; [done|].
  destruct (linp_slot BLCKSZ _ _ _ H1 Hs) as (Hget & _).
  split; [unfold on_page; rewrite Hget; by destruct s|].
  split.
  - destruct H2 as [[b' Hb'] HL]. apply HL. pose proof (ok_lower _ _ H1) as [Hnn _].
    assert (nline (b_page s) = nline p0) as En by (by rewrite Hb').
    pose proof (contents_length (b_page s) Hnn) as Hl. rewrite (hinted_length _ _ H3) in Hl. lia.
  - split; [|by exists sl0]. eapply slot_ok_hint; [done|]. by eapply ho_slot.
Qed.

Lemma vacuum_spec_hint e1 e2 h h' r :
  hint_ext h h' → vacuum_spec e1 e2 OldestXmin h' = r → r = HEAPTUPLE_DEAD ∨ r = HEAPTUPLE_RECENTLY_DEAD →
  vacuum_spec e1 e2 OldestXmin h = r.
Proof using.
  clear. intros He Hr Hor. unfold vacuum_spec, vacuum_ins_spec, vacuum_del_spec in *.
  rewrite (del_ext e2 _ _ He) in Hr. destruct (hint_ext_bits _ _ He) as (E1 & E2 & _ & _ & _ & _ & _ & E8).
  destruct He as (X1 & X2 & _). rewrite E1, E2, E8, X1, X2 in Hr.
  destruct (is_set h HEAP_MOVED_OFF); [done|]. destruct (is_set h HEAP_MOVED_IN); [done|].
  destruct (xid_state e1 (t_xmin h)); try done;
    destruct (is_set h' HEAP_XMAX_INVALID || is_set h' HEAP_IS_LOCKED); destruct Hor; congruence.
Qed.

(** The insertion has failed or the deletion has committed. *)

Lemma not_moved h : is_set h HEAP_MOVED = false → is_set h HEAP_MOVED_OFF = false ∧ is_set h HEAP_MOVED_IN = false.
Proof using. unfold is_set, HEAP_MOVED. rewrite has_lor_r, orb_false_iff. done. Qed.

Lemma dead_cases e1 e2 h :
  is_set h HEAP_MOVED = false → vacuum_spec e1 e2 OldestXmin h = HEAPTUPLE_DEAD →
  xid_state e1 (t_xmin h) = Aborted ∨
  (xid_state e1 (t_xmin h) = Committed ∧ del e2 h = DGone ∧ TransactionIdPrecedes (t_xmax h) OldestXmin = true).
Proof using.
  clear. intros [H1 H2]%not_moved. unfold vacuum_spec, vacuum_ins_spec, vacuum_del_spec. rewrite H1, H2.
  destruct (xid_state e1 (t_xmin h)); [by destruct (_ || _)..| |by left].
  destruct (del e2 h); try done. destruct (TransactionIdPrecedes _ _); [|done]. by right.
Qed.

Lemma recent_cases e1 e2 h :
  is_set h HEAP_MOVED = false → vacuum_spec e1 e2 OldestXmin h = HEAPTUPLE_RECENTLY_DEAD →
  xid_state e1 (t_xmin h) = Committed ∧ del e2 h = DGone.
Proof using.
  clear. intros [H1 H2]%not_moved. unfold vacuum_spec, vacuum_ins_spec, vacuum_del_spec. rewrite H1, H2.
  destruct (xid_state e1 (t_xmin h)); [by destruct (_ || _)..| |done].
  destruct (del e2 h); try done.
Qed.

Lemma deleting_cases e1 e2 h :
  is_set h HEAP_MOVED = false → vacuum_spec e1 e2 OldestXmin h = HEAPTUPLE_DELETE_IN_PROGRESS →
  (is_set h HEAP_XMAX_INVALID = false ∧ is_set h HEAP_IS_LOCKED = false) ∨ del e2 h = DMine ∨ del e2 h = DRunning.
Proof using.
  clear. intros [H1 H2]%not_moved. unfold vacuum_spec, vacuum_ins_spec, vacuum_del_spec. rewrite H1, H2.
  destruct (xid_state e1 (t_xmin h)); try done.
  - destruct (_ || _) eqn:E; [done|]. apply orb_false_iff in E. by left.
  - destruct (_ || _) eqn:E; [done|]. apply orb_false_iff in E. by left.
  - destruct (del e2 h); try done; try (by right; auto). by destruct (TransactionIdPrecedes _ _).
Qed.

(** A deletion that is one is not hinted away, and is not a lock. *)
Lemma deletion_hints t t' bs :
  tuple_ok W t bs → (t ≤ t')%nat → del (W t') (header_of bs) = DGone ∨ del (W t') (header_of bs) = DMine ∨ del (W t') (header_of bs) = DRunning →
  is_set (header_of bs) HEAP_XMAX_INVALID = false ∧ is_set (header_of bs) HEAP_IS_LOCKED = false.
Proof using.
  intros [Hs Hw] Ht Hd. split.
  - destruct (is_set (header_of bs) HEAP_XMAX_INVALID) eqn:E; [|done]. exfalso.
    pose proof (just_xmax_i_mono W t t' _ Ht Hw (snd_xmax_i _ _ _ Hs E)) as [Hn _]. rewrite Hn in Hd. naive_solver.
  - unfold del in Hd. destruct (is_set (header_of bs) HEAP_XMAX_IS_MULTI).
    { destruct (env_MultiIsRunning (W t') _); naive_solver. }
    destruct (xid_state (W t') _), (is_set (header_of bs) HEAP_IS_LOCKED); naive_solver.
Qed.

Lemma stored_current s off bs :
  buf_ok s → slot_at (contents (b_page s)) off = Some (Stored LP_NORMAL bs) →
  ∃ bs0, stored off bs0 ∧ same_tuple bs0 bs.
Proof using. intros H Hs. by apply (hinted_stored _ _ _ _ _ (bo_hinted _ H)). Qed.

(** A tuple of the page gets hint bits. *)
Lemma buf_step s s' off bs bs' :
  buf_ok s → slot_at (contents (b_page s)) off = Some (Stored LP_NORMAL bs) → (b_clock s ≤ b_clock s')%nat →
  same_tuple bs bs' → tuple_ok W (b_clock s') bs' → same_lines (b_page s) (b_page s') → page_wf BLCKSZ (b_page s') →
  contents (b_page s') = <[Z.to_nat (off - 1) := Stored LP_NORMAL bs']> (contents (b_page s)) →
  buf_ok s' ∧ slot_at (contents (b_page s')) off = Some (Stored LP_NORMAL bs') ∧
  get_header (linp (pd_body (b_page s)) (off - 1)) s' = Ret (take 23 bs', s').
Proof using Hheap.
  intros Hb Hs Ht Hsame Htok Hlines Hwf Hc.
  pose proof (slot_at_range _ _ _ Hs) as Hr. rewrite (hinted_length _ _ (bo_hinted _ Hb)) in Hr.
  assert (slot_at (contents (b_page s')) off = Some (Stored LP_NORMAL bs')) as Hs'.
  { rewrite Hc, slot_at_insert by (by rewrite (hinted_length _ _ (bo_hinted _ Hb))). by rewrite decide_True. }
  assert (buf_ok s') as Hb'.
  { split; [done|by etransitivity; [apply Hb|]| |pose proof (bo_clock _ Hb); lia|].
    - etransitivity; [apply Hb|]. rewrite Hc. by apply (hinted_insert _ _ _ bs).
    - intros off' fl bs0. rewrite Hc, slot_at_insert by (by rewrite (hinted_length _ _ (bo_hinted _ Hb))).
      case_decide as E; [intros [= <- <-]; done|]. intros H0. eapply tuple_ok_mono; [|by eapply (bo_tuples _ Hb)]. lia. }
  split; [done|]. split; [done|].
  destruct (buf_slot s off Hb Hr) as (sl & Hsl & _ & -> & Hok & _). rewrite Hs in Hsl. injection Hsl as <-.
  destruct Hok as (_ & Hlen & _). destruct (buf_slot s' off Hb' Hr) as (_ & _ & _ & <- & _).
  eapply get_header_spec; [apply Hb'|exact Hs'|]. by rewrite (same_length _ _ Hsame).
Qed.

(** The verdict on a tuple of the page. *)
Lemma verdict_run s off bs :
  buf_ok s → slot_at (contents (b_page s)) off = Some (Stored LP_NORMAL bs) →
  ∃ r s' bs', vacuum_verdict W OldestXmin (linp (pd_body (b_page s)) (off - 1)) s = Ret (r, s') ∧
    buf_ok s' ∧ (b_clock s ≤ b_clock s')%nat ∧ same_tuple bs bs' ∧
    slot_at (contents (b_page s')) off = Some (Stored LP_NORMAL bs') ∧
    get_header (linp (pd_body (b_page s)) (off - 1)) s' = Ret (take 23 bs', s') ∧
    (r = HEAPTUPLE_DEAD ∨ r = HEAPTUPLE_RECENTLY_DEAD → found (b_clock s') r off) ∧
    (r = HEAPTUPLE_RECENTLY_DEAD ∨ r = HEAPTUPLE_DELETE_IN_PROGRESS →
     TransactionIdIsNormal (t_xmax (header_of bs')) = true).
Proof using Hheap.
  intros Hb Hs. pose proof (slot_at_range _ _ _ Hs) as Hr. rewrite (hinted_length _ _ (bo_hinted _ Hb)) in Hr.
  destruct (buf_slot s off Hb Hr) as (sl & Hsl & _ & Hlp & Hok & _). rewrite Hs in Hsl. injection Hsl as <-.
  destruct Hok as (_ & Hlen & Hmv & Hxn & _).
  destruct (vacuum_verdict_spec BLCKSZ W OldestXmin s off LP_NORMAL bs (bo_page _ Hb) Hs Hlen (bo_tuples _ Hb _ _ _ Hs))
    as (r & s' & bs' & t1 & t2 & Hrun & Hspec & Ht1 & Ht2 & Hsame & Htok & Hlines & Hwf & Hc).
  destruct (buf_step s s' off bs bs' Hb Hs ltac:(lia) Hsame Htok Hlines Hwf Hc) as (Hb' & Hs' & Hget').
  exists r, s', bs'. split; [done|]. split; [done|]. split; [lia|]. split; [done|]. split; [done|]. split; [done|].
  destruct (stored_current s off bs Hb Hs) as (bs0 & Hs0 & Hsame0). pose proof (bo_clock _ Hb).
  destruct (same_tuple_fields _ _ Hsame) as (_ & -> & _). split.
  - intros Hor. exists bs0, t1, t2. split; [done|]. split; [lia|]. split; [lia|].
    eapply vacuum_spec_hint; [apply Hsame0|by symmetry|done].
  - pose proof (bo_tuples _ Hb _ _ _ Hs) as Htuple. intros [-> | ->].
    + symmetry in Hspec. apply (recent_cases _ _ _ Hmv) in Hspec as [_ Hd].
      destruct (deletion_hints _ t2 _ Htuple ltac:(lia) (or_introl Hd)). by apply Hxn.
    + symmetry in Hspec. apply (deleting_cases _ _ _ Hmv) in Hspec as [[? ?]|Hd]; [by apply Hxn|].
      destruct (deletion_hints _ t2 _ Htuple ltac:(lia) (or_intror Hd)). by apply Hxn.
Qed.

Lemma deletion_stays t t' h :
  started t (t_xmax h) = true → (t ≤ t')%nat → del (W t) h = DGone → del (W t') h = DGone.
Proof using HW.
  intros Hst Ht. unfold del. destruct (is_set h HEAP_XMAX_IS_MULTI); [by destruct (env_MultiIsRunning (W t) _)|].
  destruct (xid_state (W t) (t_xmax h)) eqn:E; [by destruct (is_set h HEAP_IS_LOCKED)..| |done].
  by rewrite (xid_state_done W t t' _ _ Ht Hst E) by auto.
Qed.

(** A tuple that was HOT-updated and is not any more was inserted in vain. *)
Lemma hot_lost s off bs bs0 v :
  buf_ok s → slot_at (contents (b_page s)) off = Some (Stored LP_NORMAL bs) → stored off bs0 →
  HeapTupleHeaderIsHotUpdated bs0 = true → HeapTupleHeaderIsHotUpdated bs = false →
  v = HEAPTUPLE_DEAD ∨ v = HEAPTUPLE_RECENTLY_DEAD → found (b_clock s) v off → aborted (b_clock s) off.
Proof using Hheap.
  intros Hb Hs Hs0 Hhot Hnot Hv (bs1 & t1 & t2 & Hs1 & Ht1 & Ht2 & Hspec). assert (bs1 = bs0) as -> by congruence.
  destruct (stored_current s off bs Hb Hs) as (bs2 & Hs2 & Hsame). assert (bs2 = bs0) as -> by congruence.
  pose proof (bo_tuples _ Hb _ _ _ Hs) as [Hsnd Hwf].
  pose proof (ho_slot _ _ Hheap _ _ Hs0) as (_ & _ & Hmv & _).
  destruct (same_tuple_fields _ _ Hsame) as (Em & Ex & _ & _ & E2 & _).
  pose proof (hint_ext_bits _ _ (same_header _ _ Hsame)) as (Eo & Ei & _).
  destruct (not_moved _ Hmv) as [Hoff Hin]. pose proof (bo_clock _ Hb).
  rewrite hot_updated_eq, !andb_true_iff in Hhot. destruct Hhot as [[H2 _] _].
  rewrite hot_updated_eq, E2, H2 in Hnot. cbn [andb] in Hnot. apply andb_false_iff in Hnot as [Hx|Hx]; apply negb_false_iff in Hx.
  - apply (snd_xmin_i _ _ _ Hsnd) in Hx. unfold just_xmin_i in Hx. rewrite Eo, Ei, Hoff, Hin, Em in Hx.
    exists bs0, (b_clock s). split; [done|]. split; [lia|done].
  - apply (snd_xmax_i _ _ _ Hsnd) in Hx as [Hx _]. rewrite (del_ext _ _ _ (same_header _ _ Hsame)) in Hx.
    assert (del (W t2) (header_of bs0) = DGone ∨ xid_state (W t1) (t_xmin (header_of bs0)) = Aborted) as [Hd|Hab].
    { destruct Hv as [-> | ->]; [destruct (dead_cases _ _ _ Hmv Hspec) as [?|(_ & ? & _)]; auto|].
      destruct (recent_cases _ _ _ Hmv Hspec); auto. }
    + exfalso. unfold del in Hd, Hx. destruct (is_set (header_of bs0) HEAP_XMAX_IS_MULTI).
      { by destruct (env_MultiIsRunning (W t2) _). }
      destruct (xid_state (W t2) (t_xmax (header_of bs0))) eqn:E; try by destruct (is_set (header_of bs0) HEAP_IS_LOCKED).
      (* it is committed at the later time as well *)
      assert (xid_state (W (b_clock s)) (t_xmax (header_of bs0)) = Committed) as E'.
      { destruct (started t2 (t_xmax (header_of bs0))) eqn:Est.
        - apply (xid_state_done W t2); auto.
        - unfold xid_state in E. destruct (h_unstarted t2 _ Est) as [Ep Ec]. rewrite Ep, Ec in E.
          by destruct (env_IsCurrent (W t2) _). }
      rewrite E' in Hx. by destruct (is_set (header_of bs0) HEAP_IS_LOCKED).
    + exists bs0, t1. split; [done|]. split; [lia|done].
Qed.

Lemma advance_run tup latest s :
  ∃ x s', HeapTupleHeaderAdvanceLatestRemovedXid W tup latest s = Ret (x, s') ∧
    b_page s' = b_page s ∧ (b_clock s ≤ b_clock s')%nat.
Proof using.
  clear. unfold HeapTupleHeaderAdvanceLatestRemovedXid.
  destruct (has (t_infomask tup) HEAP_XMIN_COMMITTED); [eexists _, s; split; [reflexivity|]; split; [done|lia]|].
  destruct (has (t_infomask tup) HEAP_XMIN_INVALID); [eexists _, s; split; [reflexivity|]; split; [done|lia]|].
  eexists _, _. split; [reflexivity|]. simpl. split; [done|lia].
Qed.

(** A marked successor of an unmarked line pointer is a lone dead tuple. *)
Lemma marked_successor t prs a b :
  plan_ok t prs → a ∉ all_marks prs → link C0 a b → b ∈ all_marks prs → b ∈ nowunused prs ∧ lone t b.
Proof using Hheap.
  clear Hmax. intros [H1 H2 H3] Ha Hl Hb.
  assert (∃ bs, stored b bs ∧ HeapTupleHeaderIsHeapOnly bs = true) as (bs & Hs & Honly).
  { destruct Hl as [bs Hsa Hsb|bs bs' Hsa ? ? Hsb ?]; eexists; (split; [exact Hsb|]);
      (eapply (ho_only _ _ Hheap a b); [|exact Hsb]); [by eapply link_redirect|by eapply link_update]. }
  assert (¬ rootish b) as Hnr.
  { intros [(l & Hr)|(bs' & Hr & Hno)]; congruence. }
  unfold all_marks, sources in Hb. rewrite !elem_of_app in Hb. destruct Hb as [[Hu|[Hd|Hr]]|Hr].
  - split; [done|]. destruct (H1 b Hu) as [_ [?|(_ & a' & Hl' & Hsrc)]]; [done|].
    pose proof (ho_parent _ _ Hheap _ _ _ Hl Hl'). subst a'. exfalso. apply Ha. unfold all_marks. set_solver.
  - by destruct (H2 b Hd) as [? _].
  - apply list_elem_of_fmap in Hr as ([r c] & -> & Hr). by destruct (H3 r c Hr) as [? _].
  - apply list_elem_of_fmap in Hr as ([r c] & -> & Hr). simpl in *.
    destruct (H3 r c Hr) as (_ & l & d & Hp & _ & _ & _ & Hall).
    assert (link C0 d c) as Hl' by (by eapply (path_middle _ l)).
    pose proof (ho_parent _ _ Hheap _ _ _ Hl Hl'). subst d. exfalso. apply Ha.
    rewrite Forall_app in Hall. destruct Hall as [_ Hall]. apply Forall_cons in Hall as [Hall _].
    unfold all_marks. set_solver.
Qed.

(** *** Along a chain *)

(** The walk has come from the last of [acc] to [o]; [prior] is the transaction that the
    tuple there should be inserted by. *)
Definition coming (root : Z) (acc : list Z) (o : Z) (prior : TransactionId) : Prop :=
  (acc = [] ∧ o = root ∧ prior = InvalidTransactionId) ∨
  ∃ acc' a, acc = acc' ++ [a] ∧
    ((slot_at C0 a = Some (Pointer LP_REDIRECT o) ∧ prior = InvalidTransactionId) ∨
     ∃ bs, stored a bs ∧ HeapTupleHeaderIsHotUpdated bs = true ∧ ctid_offset bs = o ∧ prior = t_xmax (header_of bs)).

(** The members so far. *)
Record walked (t : nat) (root : Z) (prs : PruneState) (acc : list Z) (ld : Z) : Prop := {
  wk_root : acc = [] ∨ list.head acc = Some root;
  wk_path : path C0 acc;
  wk_free : ∀ x, x ∈ acc → x ∉ all_marks prs;
  wk_latest : ld = InvalidOffsetNumber ∨ (ld ∈ acc ∧ found t HEAPTUPLE_DEAD ld) }.

(** The walk has ended. *)
Record chain_end (t : nat) (root : Z) (prs : PruneState) (chain : list Z) (ld : Z) : Prop := {
  ce_walked : walked t root prs chain ld;
  ce_some : chain ≠ [];
  ce_passed : ∀ l d, chain = l ++ [d] → Forall (passed t) l;
  ce_closed : ∀ l d, chain = l ++ [d] → d = ld ∨ redirects d → closed t (nowunused prs) d }.

Lemma walked_mono t t' root prs prs' acc ld :
  (t ≤ t')%nat → same_plan prs prs' → walked t root prs acc ld → walked t' root prs' acc ld.
Proof using.
  intros Ht Hp [H1 H2 H3 H4]. destruct (same_plan_marks _ _ Hp) as [_ E]. split; rewrite ?E; try done.
  destruct H4 as [?|[? ?]]; [by left|right]. split; [done|by eapply found_mono].
Qed.

Lemma coming_link root acc a o prior b : coming root (acc ++ [a]) o prior → link C0 a b → b = o.
Proof using.
  intros [(E & _)|(acc' & a' & E & Hc)] Hl; [by destruct acc|]. apply app_inj_tail in E as [-> ->].
  destruct Hl as [? H1 _|? ? H1 _ H2], Hc as [[H3 _]|(? & H3 & _ & H4 & _)]; congruence.
Qed.

Lemma coming_snoc root acc o prior bs :
  coming root acc o prior → path C0 acc → stored o bs →
  (TransactionIdIsValid prior = true → t_xmin (header_of bs) = prior) → path C0 (acc ++ [o]).
Proof using Hheap.
  intros [(-> & _ & _)|(acc' & a & -> & Hc)] Hw Hs Hx; [done|]. rewrite <- app_assoc. simpl.
  apply path_snoc; [done|]. destruct Hc as [[Hr _]|(bs0 & Hs0 & Hhot & Ho & Hp)].
  - by eapply link_redirect.
  - eapply link_update; try done. rewrite <- Hp. apply Hx. rewrite Hp.
    pose proof (ho_slot _ _ Hheap _ _ Hs0) as (_ & _ & _ & Hn & Hl). destruct (Hl Hhot) as (Hlk & _).
    rewrite hot_updated_eq, !andb_true_iff, !negb_true_iff in Hhot. destruct Hhot as [_ Hi].
    specialize (Hn Hi Hlk). unfold TransactionIdIsNormal, TransactionIdIsValid in *.
    apply Z.leb_le in Hn. apply negb_true_iff, Z.eqb_neq. unfold FirstNormalTransactionId, InvalidTransactionId in *. lia.
Qed.

Lemma path_short l : path C0 l → (length l ≤ length C0)%nat ∧ NoDup l.
Proof using Hheap.
  intros Hp. destruct (ho_rank _ _ Hheap) as (rank & Hr & Hl). destruct (path_rank _ _ _ Hl Hp) as [Hnd _].
  split; [|done]. destruct l as [|x l]; simpl; [lia|]. destruct Hp as [H1 H2].
  destruct (path_rank _ _ _ Hl H2) as [_ Hlast]. destruct (last (x :: l)) as [a|] eqn:Ha; [|by apply last_None in Ha].
  specialize (Hlast x a Ha (conj H1 H2)). specialize (Hr a). lia.
Qed.

(** The walk ends at [o], which is not a successor of the last member. *)
Lemma walk_stops t root prs acc ld o prior :
  walked t root prs acc ld → coming root acc o prior → acc ≠ [] → Forall (passed t) acc →
  (∀ acc' a, acc = acc' ++ [a] → link C0 a o → o ∈ nowunused prs ∧ lone t o) →
  chain_end t root prs acc ld.
Proof using.
  intros Hw Hc Hne Hp Hs. split; [done|done| |].
  - intros l d ->. by apply Forall_app in Hp as [? _].
  - intros l d -> _. right. intros b Hb. pose proof (coming_link _ _ _ _ _ _ Hc Hb). subst b. by apply (Hs l d).
Qed.

Lemma walk_ends_live t root prs acc ld o :
  walked t root prs acc ld → Forall (passed t) acc → path C0 (acc ++ [o]) → o ∉ all_marks prs →
  (acc = [] → o = root) → (∃ bs, stored o bs) → chain_end t root prs (acc ++ [o]) ld.
Proof using Hheap Hmax.
  intros [H1 H2 H3 H4] Hp Hpath Ho Hr [bs Hs]. split.
  - split; [|done| |].
    + right. destruct acc as [|x acc]; [by rewrite Hr|]. by destruct H1.
    + intros x [?|?%list_elem_of_singleton]%elem_of_app; [auto|by subst].
    + destruct H4 as [?|[? ?]]; [by left|right; set_solver].
  - by destruct acc.
  - intros l d [-> _]%app_inj_tail. done.
  - intros l d [_ <-]%app_inj_tail [->|[l' Hl']]; [|congruence]. exfalso.
    destruct H4 as [->|[Hin _]].
    + apply slot_at_range in Hs. unfold InvalidOffsetNumber in Hs. lia.
    + destruct (path_short _ Hpath) as [_ Hnd]. apply NoDup_app in Hnd as (_ & Hnd & _). apply (Hnd ld Hin). left.
Qed.

(** What [prune_chain_loop] has to show, for one amount of fuel. *)
Definition loop_goal (root : Z) (fuel : nat) : Prop := ∀ s acc o prior ld prs,
  buf_ok s → marks_ok BLCKSZ n prs → plan_ok (b_clock s) prs → root ∉ all_marks prs →
  walked (b_clock s) root prs acc ld → coming root acc o prior → Forall (passed (b_clock s)) acc →
  (fuel + length acc = Z.to_nat (MaxHeapTuplesPerPage BLCKSZ) + 2)%nat →
  ∃ chain ld' prs' s',
    prune_chain_loop BLCKSZ W fuel blkno OldestXmin (linp (pd_body p0) (root - 1)) n o prior acc ld prs s =
      Ret ((chain, ld', prs'), s') ∧
    buf_ok s' ∧ (b_clock s ≤ b_clock s')%nat ∧ same_plan prs prs' ∧ chain_end (b_clock s') root prs chain ld'.

(** The way on from a dead or recently dead member. *)
Definition chain_next (root : Z) (fuel : nat) (htup acc : list Z) (ld : Z) (prs : PruneState) : cmd buffer (list Z * Z * PruneState) :=
  if negb (HeapTupleHeaderIsHotUpdated htup) then mret (acc, ld, prs) else
  if negb (ctid_block htup =? blkno) then broken else
  prune_chain_loop BLCKSZ W fuel blkno OldestXmin (linp (pd_body p0) (root - 1)) n (ctid_offset htup)
    (t_xmax (header_of htup)) acc ld prs.

Lemma chain_next_run root fuel s acc o ld prs bs0 bs v :
  loop_goal root fuel → buf_ok s → marks_ok BLCKSZ n prs → plan_ok (b_clock s) prs → root ∉ all_marks prs →
  walked (b_clock s) root prs (acc ++ [o]) ld → Forall (passed (b_clock s)) acc →
  stored o bs0 → slot_at (contents (b_page s)) o = Some (Stored LP_NORMAL bs) →
  v = HEAPTUPLE_DEAD ∨ v = HEAPTUPLE_RECENTLY_DEAD → found (b_clock s) v o →
  (fuel + length (acc ++ [o]) = Z.to_nat (MaxHeapTuplesPerPage BLCKSZ) + 2)%nat →
  ∃ chain ld' prs' s', chain_next root fuel (take 23 bs) (acc ++ [o]) ld prs s = Ret ((chain, ld', prs'), s') ∧
    buf_ok s' ∧ (b_clock s ≤ b_clock s')%nat ∧ same_plan prs prs' ∧ chain_end (b_clock s') root prs chain ld'.
Proof using Hheap Hmax.
  intros IH Hb Hm Hp Hrm Hw Hpass Hs0 Hs Hv Hfound Hfuel. unfold chain_next.
  destruct (stored_current s o bs Hb Hs) as (bs0' & Hs0' & Hsame). assert (bs0' = bs0) as -> by congruence.
  rewrite hot_take, ctid_block_take, ctid_offset_take, header_of_take.
  assert (passed (b_clock s) o) as Hpo by (right; destruct Hv; subst v; auto).
  destruct (HeapTupleHeaderIsHotUpdated bs) eqn:Hhot; cbn [negb].
  - pose proof (same_tuple_hot _ _ Hsame Hhot) as Hhot0.
    pose proof (ho_slot _ _ Hheap _ _ Hs0) as (_ & _ & _ & _ & Hblk). destruct (Hblk Hhot0) as (_ & _ & Eblk).
    destruct (same_tuple_fields _ _ Hsame) as (_ & Ex & Ec & Eb & _). rewrite Eb, Eblk, Z.eqb_refl. cbn [negb].
    apply IH; try done.
    + right. exists acc, o. split; [done|]. right. exists bs0. by rewrite Ex, Ec.
    + apply Forall_app. split; [done|]. by apply Forall_singleton.
  - exists (acc ++ [o]), ld, prs, s. split; [done|]. split; [done|]. split; [lia|]. split; [done|].
    split; [done|by destruct acc| |].
    + intros l d [-> _]%app_inj_tail. done.
    + intros l d [_ <-]%app_inj_tail _. destruct (HeapTupleHeaderIsHotUpdated bs0) eqn:Hhot0.
      * left. by apply (hot_lost s o bs bs0 v).
      * right. intros b Hl. exfalso. destruct Hl as [? Hx _|? ? Hx Hx' _ _ _]; congruence.
Qed.

Lemma mo_same prs prs' : same_plan prs prs' → marks_ok BLCKSZ n prs → marks_ok BLCKSZ n prs'.
Proof using. apply same_plan_ok. Qed.

(** One member: its verdict is [r], and [htup] its header afterwards. *)
Lemma chain_member_run root fuel : loop_goal root fuel → ∀ s s1 acc o prior ld prs bs0 bs1 r,
  buf_ok s → buf_ok s1 → (b_clock s ≤ b_clock s1)%nat → marks_ok BLCKSZ n prs → plan_ok (b_clock s) prs → root ∉ all_marks prs →
  walked (b_clock s) root prs acc ld → coming root acc o prior → Forall (passed (b_clock s)) acc →
  path C0 (acc ++ [o]) → o ∉ all_marks prs → stored o bs0 →
  slot_at (contents (b_page s1)) o = Some (Stored LP_NORMAL bs1) → same_tuple bs0 bs1 →
  (r = HEAPTUPLE_DEAD ∨ r = HEAPTUPLE_RECENTLY_DEAD → found (b_clock s1) r o) →
  (r = HEAPTUPLE_RECENTLY_DEAD ∨ r = HEAPTUPLE_DELETE_IN_PROGRESS → TransactionIdIsNormal (t_xmax (header_of bs1)) = true) →
  (fuel + length (acc ++ [o]) = Z.to_nat (MaxHeapTuplesPerPage BLCKSZ) + 2)%nat →
  ∃ chain ld' prs' s',
    (prstate ← match r with
               | HEAPTUPLE_RECENTLY_DEAD | HEAPTUPLE_DELETE_IN_PROGRESS =>
                   lift (heap_prune_record_prunable prs (t_xmax (header_of (take 23 bs1))))
               | _ => mret prs
               end;
     match r with
     | HEAPTUPLE_DEAD =>
         latest ← HeapTupleHeaderAdvanceLatestRemovedXid W (header_of (take 23 bs1)) (latestRemovedXid prstate);
         chain_next root fuel (take 23 bs1) (acc ++ [o]) o (set_latest latest prstate)
     | HEAPTUPLE_RECENTLY_DEAD => chain_next root fuel (take 23 bs1) (acc ++ [o]) ld prstate
     | _ => mret (acc ++ [o], ld, prstate)
     end) s1 = Ret ((chain, ld', prs'), s') ∧
    buf_ok s' ∧ (b_clock s ≤ b_clock s')%nat ∧ same_plan prs prs' ∧ chain_end (b_clock s') root prs chain ld'.
Proof using Hheap Hmax.
  intros IH s s1 acc o prior ld prs bs0 bs1 r Hb Hb1 Hcl Hm Hp Hrm Hw Hc Hpass Hpath Ho Hs0 Hs1 Hsame Hfound Hnorm Hfuel.
  assert (acc = [] → o = root) as Hstart.
  { intros ->. destruct Hc as [(_ & ? & _)|(acc' & a & E & _)]; [done|]. by destruct acc'. }
  assert (∀ t ld2 prs2, (b_clock s ≤ t)%nat → same_plan prs prs2 → (ld2 = ld ∨ ld2 = o ∧ found t HEAPTUPLE_DEAD o) →
    walked t root prs2 (acc ++ [o]) ld2) as Hwalk.
  { intros t ld2 prs2 Ht Hsp Hld. destruct (walked_mono _ _ _ _ _ _ _ Ht Hsp Hw) as [H1 H2 H3 H4].
    destruct (same_plan_marks _ _ Hsp) as [_ E]. split; [|done| |].
    - right. destruct acc as [|x acc]; [by rewrite Hstart|]. by destruct H1.
    - intros x [?|?%list_elem_of_singleton]%elem_of_app; [auto|subst; by rewrite E].
    - destruct Hld as [->|[-> Hd]]; [destruct H4 as [?|[? ?]]; [by left|right; set_solver]|right; set_solver]. }
  assert (∀ t, (b_clock s ≤ t)%nat → Forall (passed t) acc) as Hpass'.
  { intros t Ht. eapply Forall_impl; [exact Hpass|]. intros x. by apply passed_mono. }
  assert (∀ prs2 t, same_plan prs prs2 → (b_clock s ≤ t)%nat → plan_ok t prs2 ∧ marks_ok BLCKSZ n prs2 ∧ root ∉ all_marks prs2) as Hplan.
  { intros prs2 t Hsp Ht. split; [by eapply plan_same, plan_mono|]. split; [by eapply mo_same|].
    by destruct (same_plan_marks _ _ Hsp) as [_ ->]. }
  assert (∀ x, same_plan prs (set_latest x prs)) as Hlat by done.
  assert (∀ prs2 chain ld' t, same_plan prs prs2 → chain_end t root prs2 chain ld' → chain_end t root prs chain ld') as Hce.
  { intros prs2 chain ld' t Hsp [H1 H2 H3 H4]. split; [|done|done|].
    - eapply walked_mono; [done| |exact H1]. destruct Hsp as (? & ? & ? & ?). done.
    - destruct Hsp as (_ & _ & E & _). by rewrite <- E. }
  rewrite header_of_take.
  assert (r = HEAPTUPLE_RECENTLY_DEAD ∨ r = HEAPTUPLE_DELETE_IN_PROGRESS →
    ∃ prs2, heap_prune_record_prunable prs (t_xmax (header_of bs1)) = Ret prs2 ∧ same_plan prs prs2) as Hprun.
  { intros Hr. unfold heap_prune_record_prunable. rewrite (Hnorm Hr). cbn [negb]. eexists. split; [reflexivity|]. by destruct (_ || _). }
  assert (∀ prs2, same_plan prs prs2 → ∃ chain ld' prs' s', (mret (acc ++ [o], ld, prs2) : cmd buffer _) s1 = Ret ((chain, ld', prs'), s') ∧
    buf_ok s' ∧ (b_clock s ≤ b_clock s')%nat ∧ same_plan prs prs' ∧ chain_end (b_clock s') root prs chain ld') as Hlive.
  { intros prs2 Hsp. exists (acc ++ [o]), ld, prs2, s1. split; [done|]. split; [done|]. split; [done|]. split; [done|].
    apply walk_ends_live; eauto. eapply walked_mono; [exact Hcl|done|exact Hw]. }
  destruct r.
  - rewrite (bind_Ret _ _ s1 prs s1) by done.
    destruct (advance_run (header_of bs1) (latestRemovedXid prs) s1) as (x & s2 & Hadv & Hpg & Hcl2).
    rewrite (bind_Ret _ _ _ _ _ Hadv). destruct (Hplan (set_latest x prs) (b_clock s2) (Hlat x) ltac:(lia)) as (Hp2 & Hm2 & Hrm2).
    assert (found (b_clock s2) HEAPTUPLE_DEAD o) as Hf2 by (eapply found_mono; [exact Hcl2|auto]).
    destruct (chain_next_run root fuel s2 acc o o (set_latest x prs) bs0 bs1 HEAPTUPLE_DEAD)
      as (chain & ld' & prs' & s' & Hrun & Hb' & Hcl' & Hsp & Hend); try done.
    + by eapply buf_later.
    + apply Hwalk; [lia|done|auto].
    + apply Hpass'. lia.
    + by rewrite Hpg.
    + by left.
    + exists chain, ld', prs', s'. split; [done|]. split; [done|]. split; [lia|]. split; [by etransitivity; [apply Hlat|]|].
      by apply (Hce (set_latest x prs)).
  - rewrite (bind_Ret _ _ s1 prs s1) by done. by apply Hlive.
  - destruct Hprun as (prs2 & Hrec & Hsp2); [by left|]. rewrite (bind_Ret _ _ s1 prs2 s1) by (unfold lift; by rewrite Hrec).
    destruct (Hplan prs2 (b_clock s1) Hsp2 Hcl) as (Hp2 & Hm2 & Hrm2).
    destruct (chain_next_run root fuel s1 acc o ld prs2 bs0 bs1 HEAPTUPLE_RECENTLY_DEAD)
      as (chain & ld' & prs' & s' & Hrun & Hb' & Hcl' & Hsp & Hend); try done; auto.
    exists chain, ld', prs', s'. split; [done|]. split; [done|]. split; [lia|]. split; [by etransitivity|].
    by apply (Hce prs2).
  - rewrite (bind_Ret _ _ s1 prs s1) by done. by apply Hlive.
  - destruct Hprun as (prs2 & Hrec & Hsp2); [by right|]. rewrite (bind_Ret _ _ s1 prs2 s1) by (unfold lift; by rewrite Hrec).
    by apply Hlive.
Qed.

(** The loop of [heap_prune_chain]. *)
Lemma prune_chain_loop_run root : rootish root → ∀ fuel, loop_goal root fuel.
Proof using Hheap Hmax.
  intros Hroot. induction fuel as [|fuel IH]; intros s acc o prior ld prs Hb Hm Hp Hrm Hw Hc Hpass Hfuel.
  { destruct (path_short acc (wk_path _ _ _ _ _ Hw)). lia. }
  destruct (path_short acc (wk_path _ _ _ _ _ Hw)) as [Hshort _].
  assert (1 ≤ root ≤ n ∧ (∀ sl, slot_at C0 root = Some sl → sl ≠ Unused ∧ ∀ l, sl ≠ Pointer LP_DEAD l)) as [Hrr Hrk].
  { destruct Hroot as [[l Hs]|(bs & Hs & _)]; (split; [by eapply slot_at_range|]); intros sl Hsl; rewrite Hs in Hsl; by injection Hsl as <-. }
  (* a stop before the first member is impossible, later it is the end *)
  assert ((acc = [] → False) →
    (∀ acc' a, acc = acc' ++ [a] → link C0 a o → o ∈ nowunused prs ∧ lone (b_clock s) o) →
    ∃ chain ld' prs' s', (mret (acc, ld, prs) : cmd buffer _) s = Ret ((chain, ld', prs'), s') ∧
      buf_ok s' ∧ (b_clock s ≤ b_clock s')%nat ∧ same_plan prs prs' ∧ chain_end (b_clock s') root prs chain ld') as Hstop.
  { intros Hne Hno. exists acc, ld, prs, s. split; [done|]. split; [done|]. split; [lia|]. split; [done|].
    by eapply walk_stops. }
  assert (acc = [] → o = root ∧ prior = InvalidTransactionId) as Hstart.
  { intros ->. destruct Hc as [(_ & ? & ?)|(acc' & a & E & _)]; [done|]. by destruct acc'. }
  cbn [prune_chain_loop]. change FirstOffsetNumber with 1.
  destruct ((o <? 1) || (n <? o)) eqn:Hrange.
  { apply orb_true_iff in Hrange. rewrite !Z.ltb_lt in Hrange. apply Hstop.
    - intros E. destruct (Hstart E) as [-> _]. lia.
    - intros acc' a _ Hl. assert (1 ≤ o ≤ n); [|lia].
      destruct Hl as [? _ Hs|? ? _ _ _ Hs _]; by apply slot_at_range in Hs. }
  apply orb_false_iff in Hrange. rewrite !Z.ltb_ge in Hrange.
  rewrite (bind_Ret _ _ s (bool_decide (o ∈ all_marks prs)) s)
    by (unfold lift; by rewrite (marked_get BLCKSZ n Hmax prs o Hm) by lia).
  case_bool_decide as Hmk.
  { apply Hstop.
    - intros E. by destruct (Hstart E) as [-> _].
    - intros acc' a E Hl. apply (marked_successor (b_clock s) prs a); try done.
      apply (wk_free _ _ _ _ _ Hw). rewrite E. set_solver. }
  destruct (buf_slot s o Hb ltac:(lia)) as (sl & Hsl & Hget & Hlp & Hslok & sl0 & Hsl0 & Hhint).
  rewrite (bind_Ret _ _ _ _ _ Hget). destruct (linp_slot BLCKSZ _ _ _ (bo_page _ Hb) Hsl) as (_ & _ & Hkind).
  set (lp := linp (pd_body (b_page s)) (o - 1)) in *.
  assert (acc = [] → slot_at C0 root = Some sl0) as Hs00 by (intros E; by destruct (Hstart E) as [-> _]).
  destruct sl as [|fl link0|fl bs].
  - (* unused *)
    unfold ItemIdIsUsed. rewrite Hkind. cbn [Z.eqb negb LP_UNUSED]. destruct sl0; try done. apply Hstop.
    + intros E. destruct (Hrk _ (Hs00 E)). done.
    + intros acc' a _ Hl. exfalso. destruct Hl as [? _ Hs|? ? _ _ _ Hs _]; congruence.
  - (* a redirection or a dead line pointer *)
    destruct Hkind as (Hfl & Hnu & Hoff). destruct sl0 as [|fl0 l0|]; try done. simpl in Hhint. injection Hhint as -> ->.
    unfold ItemIdIsUsed, ItemIdIsRedirected, ItemIdIsDead. rewrite Hfl. rewrite (proj2 (Z.eqb_neq _ _) Hnu). cbn [negb].
    destruct Hslok as [-> | ->]; cbn [Z.eqb LP_REDIRECT LP_DEAD Pos.eqb].
    + destruct (Z.ltb_spec 0 (Z.of_nat (length acc))) as [Hlen|Hlen].
      { apply Hstop; [by intros ->|]. intros acc' a _ Hl. exfalso. destruct Hl as [? _ Hs|? ? _ _ _ Hs _]; congruence. }
      destruct acc; [|simpl in Hlen; lia]. destruct (Hstart eq_refl) as [-> ->]. simpl ([] ++ [root]).
      unfold ItemIdGetRedirect. rewrite <- Hlp, Hoff, Hlp.
      apply (IH s [root] l0 InvalidTransactionId ld prs); try done.
      * split; [by right|done| |]; [by intros x ->%list_elem_of_singleton|].
        destruct (wk_latest _ _ _ _ _ Hw) as [?|[Hbad _]]; [by left|inversion Hbad].
      * right. exists [], root. split; [done|]. left. done.
      * apply Forall_singleton. left. by exists l0.
      * simpl in *. lia.
    + apply Hstop.
      * intros E. destruct (Hrk _ (Hs00 E)) as [_ Hbad]. by destruct (Hbad l0).
      * intros acc' a _ Hl. exfalso. destruct Hl as [? _ Hs|? ? _ _ _ Hs _]; congruence.
  - (* a tuple *)
    destruct Hslok as (-> & Hlen & Hslok). destruct Hkind as (Hfl & Hnu & Hst & _).
    unfold ItemIdIsUsed, ItemIdIsRedirected, ItemIdIsDead, ItemIdIsNormal. rewrite Hfl.
    cbn [Z.eqb LP_REDIRECT LP_DEAD LP_NORMAL LP_UNUSED Pos.eqb negb].
    destruct sl0 as [| |fl0 bs0]; try done. destruct Hhint as [<- Hsame].
    rewrite (bind_Ret _ _ _ _ _ (get_header_spec BLCKSZ s o LP_NORMAL bs (bo_page _ Hb) Hsl Hlen)).
    rewrite header_of_take. destruct (same_tuple_fields _ _ Hsame) as (Exmin & Exmax & _).
    destruct (TransactionIdIsValid prior && negb (TransactionIdEquals (t_xmin (header_of bs)) prior)) eqn:Hchk.
    { apply andb_true_iff in Hchk as [Hv Hx]. apply negb_true_iff, Z.eqb_neq in Hx. apply Hstop.
      - intros E. destruct (Hstart E) as [_ ->]. done.
      - intros acc' a E Hl. exfalso. destruct Hc as [(E' & _)|(acc2 & a2 & E2 & Hc)]; [by rewrite E' in E; destruct acc'|].
        rewrite E in E2. apply app_inj_tail in E2 as [<- <-]. destruct Hc as [[_ ->]|(bsa & Hsa & _ & _ & ->)]; [done|].
        destruct Hl as [? Hs _|bsa' bso Hs _ _ Hs' Hxx]; congruence. }
    assert (TransactionIdIsValid prior = true → t_xmin (header_of bs0) = prior) as Hprior.
    { intros Hv. rewrite Hv in Hchk. apply negb_false_iff, Z.eqb_eq in Hchk. congruence. }
    pose proof (coming_snoc root acc o prior bs0 Hc (wk_path _ _ _ _ _ Hw) Hsl0 Hprior) as Hpath.
    destruct (path_short _ Hpath) as [Hshort' _]. rewrite length_app in Hshort'. simpl in Hshort'.
    rewrite (proj2 (Z.leb_gt _ _)) by lia.
    destruct (verdict_run s o bs Hb Hsl) as (r & s1 & bs1 & Hrun & Hb1 & Hcl & Hsame1 & Hs1 & Hh1 & Hfound & Hnorm).
    rewrite (bind_Ret _ _ _ _ _ Hrun). rewrite (bind_Ret _ _ _ _ _ Hh1).
    apply (chain_member_run root fuel IH s s1 acc o prior ld prs bs0 bs1 r); try done.
    + by etransitivity.
    + rewrite length_app. simpl. lia.
Qed.

(** *** The plan after one chain *)

Lemma sources_mono prs prs' :
  (∀ x, x ∈ nowunused prs → x ∈ nowunused prs') → (∀ x, x ∈ nowdead prs → x ∈ nowdead prs') →
  (∀ x, x ∈ redirected prs → x ∈ redirected prs') → ∀ x, x ∈ sources prs → x ∈ sources prs'.
Proof using.
  clear. intros H1 H2 H3 x. unfold sources. rewrite !elem_of_app. intros [?|[?|(y & -> & ?)%list_elem_of_fmap]]; auto.
  right. right. apply list_elem_of_fmap. eauto.
Qed.

(** The lists grow: what is new has to be justified. *)
Lemma plan_grow t prs prs' :
  plan_ok t prs →
  (∀ x, x ∈ nowunused prs → x ∈ nowunused prs') → (∀ x, x ∈ nowdead prs → x ∈ nowdead prs') →
  (∀ x, x ∈ redirected prs → x ∈ redirected prs') →
  (∀ u, u ∈ nowunused prs' → u ∈ nowunused prs ∨
     (∃ bs, stored u bs ∧ HeapTupleHeaderIsHeapOnly bs = true) ∧ (lone t u ∨ passed t u ∧ ∃ a, link C0 a u ∧ a ∈ sources prs')) →
  (∀ r, r ∈ nowdead prs' → r ∈ nowdead prs ∨ rootish r ∧
     ∃ l d, path C0 (l ++ [d]) ∧ list.head (l ++ [d]) = Some r ∧ Forall (passed t) l ∧
       (redirects d ∨ found t HEAPTUPLE_DEAD d) ∧ closed t (nowunused prs') d) →
  (∀ r c, (r, c) ∈ redirected prs' → (r, c) ∈ redirected prs ∨ rootish r ∧
     ∃ l d, path C0 (l ++ [d; c]) ∧ list.head (l ++ [d]) = Some r ∧ Forall (passed t) l ∧
       found t HEAPTUPLE_DEAD d ∧ Forall (λ x, x ∈ sources prs') (l ++ [d])) →
  plan_ok t prs'.
Proof using.
  intros [P1 P2 P3] H1 H2 H3 H4 H5 H6. pose proof (sources_mono prs prs' H1 H2 H3) as Hsrc. split.
  - intros u [Hu|Hu]%H4; [|done]. destruct (P1 u Hu) as [? [?|(? & a & ? & ?)]]; (split; [done|]); [by left|right; eauto].
  - intros r [Hr|Hr]%H5; [|done]. destruct (P2 r Hr) as (? & l & d & ? & ? & ? & ? & ?). split; [done|].
    exists l, d. do 4 (split; [done|]). eapply closed_mono; [|exact H1|done]. lia.
  - intros r c [Hr|Hr]%H6; [|done]. destruct (P3 r c Hr) as (? & l & d & ? & ? & ? & ? & Hall). split; [done|].
    exists l, d. do 4 (split; [done|]). eapply Forall_impl; [exact Hall|]. intros x. apply Hsrc.
Qed.

Lemma path_stored l1 a l2 :
  path C0 (l1 ++ a :: l2) → l1 ≠ [] →
  ∃ b bs, b ∈ l1 ∧ link C0 b a ∧ stored a bs ∧ HeapTupleHeaderIsHeapOnly bs = true.
Proof using Hheap Hmax.
  intros Hp Hne. destruct (exists_last Hne) as (l & b & ->). rewrite <- app_assoc in Hp. simpl in Hp.
  pose proof (path_middle _ _ _ _ _ Hp) as Hl. exists b.
  assert (∃ bs, stored a bs) as [bs Hs] by (destruct Hl; eauto). exists bs. split; [set_solver|]. split; [done|].
  split; [done|]. by apply (ho_only _ _ Hheap b a).
Qed.

(** The members up to the last dead one go. *)
Lemma plan_chain t root prs prs' l ld rest' :
  plan_ok t prs → rootish root → chain_end t root prs (l ++ ld :: rest') ld → found t HEAPTUPLE_DEAD ld →
  nowunused prs' = nowunused prs ++ tl (l ++ [ld]) →
  match rest' with
  | [] => nowdead prs' = nowdead prs ++ [root] ∧ redirected prs' = redirected prs
  | c :: _ => nowdead prs' = nowdead prs ∧ redirected prs' = redirected prs ++ [(root, c)]
  end → plan_ok t prs'.
Proof using Hheap Hmax.
  intros Hplan Hroot [[Hr Hpath Hfree _] _ Hpassed Hclosed] Hdead Hu Hrest.
  assert (list.head (l ++ [ld]) = Some root) as Hhead by (destruct Hr as [E|E]; [by destruct l|by destruct l]).
  assert (path C0 (l ++ [ld])) as Hp1.
  { replace (l ++ ld :: rest') with ((l ++ [ld]) ++ rest') in Hpath by (by rewrite <- app_assoc). by apply path_app in Hpath as [? _]. }
  assert (Forall (passed t) l) as Hpl.
  { destruct rest' as [|c rest'']; [by apply (Hpassed l ld)|].
    destruct (exists_last (l := c :: rest'') ltac:(done)) as (m & d & Em).
    specialize (Hpassed (l ++ ld :: m) d). rewrite Em, <- app_assoc in Hpassed. specialize (Hpassed eq_refl).
    by apply Forall_app in Hpassed as [? _]. }
  assert (root ∈ sources prs') as Hrs.
  { unfold sources. destruct rest' as [|c ?], Hrest as [E1 E2]; rewrite E1, E2, ?fmap_app; set_solver. }
  assert (∀ x, x ∈ l ++ [ld] → x ∈ sources prs') as Hsrc.
  { intros x Hx. destruct (l ++ [ld]) as [|y m] eqn:E; [by destruct l|]. simpl in Hhead. injection Hhead as ->.
    apply elem_of_cons in Hx as [->|Hx]; [done|]. unfold sources. rewrite Hu. set_solver. }
  assert (∀ x, x ∈ l ++ [ld] → passed t x) as Hpx.
  { intros x [Hx| ->%list_elem_of_singleton]%elem_of_app; [by apply (proj1 (Forall_forall _ _) Hpl)|right; by left]. }
  apply (plan_grow t prs); try done.
  - intros x Hx. rewrite Hu. set_solver.
  - intros x Hx. destruct rest', Hrest as [-> _]; set_solver.
  - intros x Hx. destruct rest', Hrest as [_ ->]; set_solver.
  - intros u. rewrite Hu, elem_of_app. intros [?|Hin]; [by left|right].
    destruct (l ++ [ld]) as [|y m] eqn:E; [by destruct l|]. simpl in Hin. apply list_elem_of_split in Hin as (m1 & m2 & ->).
    destruct (path_stored (y :: m1) u m2 Hp1 ltac:(done)) as (b & bs & Hb & Hl & Hs & Honly).
    split; [eauto|]. right. split; [apply Hpx; set_solver|]. exists b. split; [done|]. apply Hsrc. apply elem_of_cons in Hb as [->|Hb]; set_solver.
  - intros r Hr'. destruct rest' as [|c rest''], Hrest as [E1 E2]; rewrite E1 in Hr'; [|by left].
    apply elem_of_app in Hr' as [?|Hr'%list_elem_of_singleton]; [by left|right]. subst r. split; [done|].
    exists l, ld. split; [done|]. split; [done|]. split; [done|]. split; [by right|].
    eapply closed_mono; [reflexivity| |apply (Hclosed l ld); [done|by left]]. intros u Hu'. rewrite Hu. set_solver.
  - intros r c Hr'. destruct rest' as [|c' rest''], Hrest as [E1 E2]; rewrite E2 in Hr'; [by left|].
    apply elem_of_app in Hr' as [?|Hr'%list_elem_of_singleton]; [by left|right]. injection Hr' as -> ->. split; [done|].
    exists l, ld. split; [|split; [done|split; [done|split; [done|by apply Forall_forall]]]].
    replace (l ++ ld :: c' :: rest'') with ((l ++ [ld; c']) ++ rest'') in Hpath by (by rewrite <- app_assoc).
    by apply path_app in Hpath as [? _].
Qed.

Context (HB : BLCKSZ_ok BLCKSZ).

Lemma offset_valid s o : buf_ok s → 1 ≤ o ≤ n → OffsetNumberIsValid BLCKSZ o = true.
Proof using HB.
  intros Hb Ho. pose proof (blcksz_bounds BLCKSZ HB) as [Hbl _].
  pose proof (contents_length (b_page s) (proj1 (ok_lower _ _ (bo_page _ Hb)))) as Hl.
  rewrite (hinted_length _ _ (bo_hinted _ Hb)) in Hl.
  pose proof (ok_lower _ _ (bo_page _ Hb)) as [_ Hlow]. pose proof (ok_order _ _ (bo_page _ Hb)).
  unfold OffsetNumberIsValid, InvalidOffsetNumber, MaxOffsetNumber, SizeOfItemId.
  assert (o ≤ BLCKSZ / 4) by (apply Z.div_le_lower_bound; lia).
  rewrite wrap_u_small by (split; [apply Z.div_pos; lia|apply Z.div_lt_upper_bound; lia]).
  rewrite (proj2 (Z.eqb_neq _ _)) by lia. cbn [negb andb]. apply Z.leb_le. lia.
Qed.

(** A heap-only tuple by itself. *)
Lemma heap_only_run s root prs bs0 bs :
  buf_ok s → marks_ok BLCKSZ n prs → plan_ok (b_clock s) prs → root ∉ all_marks prs →
  stored root bs0 → slot_at (contents (b_page s)) root = Some (Stored LP_NORMAL bs) →
  HeapTupleHeaderIsHeapOnly bs = true →
  ∃ nd prs' s',
    (verdict ← vacuum_verdict W OldestXmin (linp (pd_body (b_page s)) (root - 1));
     htup ← get_header (linp (pd_body (b_page s)) (root - 1));
     match verdict with
     | HEAPTUPLE_DEAD =>
         if negb (HeapTupleHeaderIsHotUpdated htup) then
           prstate ← lift (heap_prune_record_unused BLCKSZ prs root);
           latest ← HeapTupleHeaderAdvanceLatestRemovedXid W (header_of htup) (latestRemovedXid prstate);
           mret (1, set_latest latest prstate)
         else mret (0, prs)
     | _ => mret (0, prs)
     end) s = Ret ((nd, prs'), s') ∧
    buf_ok s' ∧ (b_clock s ≤ b_clock s')%nat ∧ marks_ok BLCKSZ n prs' ∧ plan_ok (b_clock s') prs'.
Proof using Hheap Hmax HB.
  intros Hb Hm Hp Hrm Hs0 Hs Honly.
  destruct (verdict_run s root bs Hb Hs) as (r & s1 & bs1 & Hrun & Hb1 & Hcl & Hsame1 & Hs1 & Hh1 & Hfound & _).
  rewrite (bind_Ret _ _ _ _ _ Hrun). rewrite (bind_Ret _ _ _ _ _ Hh1). rewrite hot_take, header_of_take.
  assert (∃ nd prs' s', (mret (0, prs) : cmd buffer _) s1 = Ret ((nd, prs'), s') ∧
    buf_ok s' ∧ (b_clock s ≤ b_clock s')%nat ∧ marks_ok BLCKSZ n prs' ∧ plan_ok (b_clock s') prs') as Hsame.
  { exists 0, prs, s1. split; [done|]. split; [done|]. split; [done|]. split; [done|]. by eapply plan_mono. }
  destruct r; try exact Hsame. destruct (HeapTupleHeaderIsHotUpdated bs1) eqn:Hhot; [exact Hsame|]. cbn [negb].
  destruct (record_unused_run BLCKSZ n Hmax prs root Hm (slot_at_range _ _ _ Hs0) Hrm) as (m & Hrec & Hm').
  rewrite (bind_Ret _ _ s1 _ s1) by (unfold lift; by rewrite Hrec). set (prs1 := mkPrune _ _ _ _ _ m) in *.
  destruct (advance_run (header_of bs1) (latestRemovedXid prs1) s1) as (x & s2 & Hadv & Hpg & Hcl2).
  rewrite (bind_Ret _ _ _ _ _ Hadv). eexists _, _, s2. split; [reflexivity|]. split; [by eapply buf_later|]. split; [lia|].
  split; [by apply (mo_same prs1)|]. apply (plan_same _ prs1); [done|].
  destruct (stored_current s root bs Hb Hs) as (bs' & Hs0' & Hsame0). assert (bs' = bs0) as -> by congruence.
  destruct (same_tuple_fields _ _ Hsame0) as (_ & _ & _ & _ & _ & Eonly).
  apply (plan_grow _ prs); try done.
  - eapply plan_mono; [|exact Hp]. lia.
  - intros y Hy. unfold prs1. cbn [nowunused]. set_solver.
  - unfold prs1. cbn [nowunused]. intros u [?|Hu%list_elem_of_singleton]%elem_of_app; [by left|right]. subst u.
    split; [exists bs0; split; [done|congruence]|]. left. apply (lone_mono (b_clock s1)); [done|]. split; [auto|].
    destruct (HeapTupleHeaderIsHotUpdated bs0) eqn:Hhot0.
    + right. apply (hot_lost s1 root bs1 bs0 HEAPTUPLE_DEAD); auto.
    + left. intros b Hl. destruct Hl as [? Hx _|? ? Hx Hx' _ _ _]; congruence.
  - intros u Hu. by left.
  - intros r c Hr. by left.
Qed.

(** A chain from its root. *)
Lemma root_chain_run s root prs :
  buf_ok s → marks_ok BLCKSZ n prs → plan_ok (b_clock s) prs → root ∉ all_marks prs → rootish root →
  ∃ nd prs' s',
    ('(chainitems, latestdead, prstate) ←
       prune_chain_loop BLCKSZ W (S (S (Z.to_nat (MaxHeapTuplesPerPage BLCKSZ)))) blkno OldestXmin
         (linp (pd_body p0) (root - 1)) n root InvalidTransactionId [] InvalidOffsetNumber prs;
     if OffsetNumberIsValid BLCKSZ latestdead then
       match chainitems with
       | [] => broken
       | c :: rest =>
           lift (prune_chain_remove BLCKSZ root latestdead c rest
                   (if ItemIdIsNormal (linp (pd_body p0) (root - 1)) then 1 else 0) prstate)
       end
     else if (Z.of_nat (length chainitems) <? 2) && ItemIdIsRedirected (linp (pd_body p0) (root - 1)) then
       prstate ← lift (heap_prune_record_dead BLCKSZ prstate root);
       mret (0, prstate)
     else mret (0, prstate)) s = Ret ((nd, prs'), s') ∧
    buf_ok s' ∧ (b_clock s ≤ b_clock s')%nat ∧ marks_ok BLCKSZ n prs' ∧ plan_ok (b_clock s') prs'.
Proof using Hheap Hmax HB.
  intros Hb Hm Hp Hrm Hroot.
  destruct (prune_chain_loop_run root Hroot (S (S (Z.to_nat (MaxHeapTuplesPerPage BLCKSZ)))) s [] root InvalidTransactionId
    InvalidOffsetNumber prs) as (chain & ld & prs1 & s1 & Hrun & Hb1 & Hcl & Hsp & Hend); try done.
  { split; [by left|done|by intros x Hx; inversion Hx|by left]. }
  { by left. }
  { simpl. lia. }
  rewrite (bind_Ret _ _ _ _ _ Hrun). cbn beta iota.
  assert (1 ≤ root ≤ n) as Hrr by (destruct Hroot as [[l Hs]|(bs & Hs & _)]; by eapply slot_at_range).
  assert (marks_ok BLCKSZ n prs1) as Hm1 by (by eapply mo_same).
  assert (plan_ok (b_clock s1) prs1) as Hp1 by (apply (plan_same _ prs); [done|]; by eapply plan_mono).
  assert (chain_end (b_clock s1) root prs1 chain ld) as Hend1.
  { destruct Hend as [H1 H2 H3 H4]. split; [apply (walked_mono (b_clock s1) _ _ prs); [lia|done..]|done|done|].
    destruct Hsp as (_ & _ & E & _). by rewrite E. }
  assert (root ∉ all_marks prs1) as Hrm1 by (by destruct (same_plan_marks _ _ Hsp) as [_ ->]).
  pose proof Hend1 as [[Hhead Hpath Hfree Hlatest] Hne _ Hclosed].
  destruct Hhead as [?|Hhead]; [done|]. destruct chain as [|c rest]; [done|]. simpl in Hhead. injection Hhead as ->.
  assert (∀ o, o ∈ root :: rest → 1 ≤ o ≤ n) as Hrange.
  { intros o [->|Ho]%elem_of_cons; [done|]. apply list_elem_of_split in Ho as (m1 & m2 & ->).
    destruct (path_stored (root :: m1) o m2 Hpath ltac:(done)) as (_ & bs & _ & _ & Hs & _). by eapply slot_at_range. }
  destruct Hlatest as [->|[Hin Hdead]].
  - change (OffsetNumberIsValid BLCKSZ InvalidOffsetNumber) with false. cbn [andb].
    destruct ((Z.of_nat (length (root :: rest)) <? 2) && ItemIdIsRedirected (linp (pd_body p0) (root - 1))) eqn:Hcond.
    2:{ exists 0, prs1, s1. split; [done|]. done. }
    apply andb_true_iff in Hcond as [Hlen Hred]. apply Z.ltb_lt in Hlen. destruct rest; [|simpl in Hlen; lia].
    destruct (record_dead_run BLCKSZ n Hmax prs1 root Hm1 Hrr Hrm1) as (m & Hrec & Hm').
    rewrite (bind_Ret _ _ s1 _ s1) by (unfold lift; by rewrite Hrec). set (prs2 := mkPrune _ _ _ _ _ m) in *.
    exists 0, prs2, s1. split; [done|]. split; [done|]. split; [done|]. split; [done|].
    assert (redirects root) as Hrd.
    { destruct Hroot as [?|(bs & Hs & _)]; [done|]. exfalso.
      destruct (buf_slot s root Hb Hrr) as (sl & Hsl & _ & Elp & Hok & sl0 & Hsl0 & Hh). rewrite Hs in Hsl0. injection Hsl0 as <-.
      destruct sl as [| |fl bs']; try done. destruct Hok as (-> & _).
      destruct (linp_slot BLCKSZ _ _ _ (bo_page _ Hb) Hsl) as (_ & _ & Hfl & _). rewrite Elp in Hfl.
      unfold ItemIdIsRedirected in Hred. by rewrite Hfl in Hred. }
    apply (plan_grow _ prs1); try done.
    + intros x Hx. unfold prs2. cbn [nowdead]. set_solver.
    + intros u Hu. by left.
    + unfold prs2. cbn [nowdead]. intros r [?|Hr%list_elem_of_singleton]%elem_of_app; [by left|right]. subst r.
      split; [done|]. exists [], root. split; [done|]. split; [done|]. split; [done|]. split; [by left|].
      apply (Hclosed [] root); [done|by right].
    + intros r c Hr. by left.
  - rewrite (offset_valid s1 ld Hb1 (Hrange ld Hin)).
    destruct (path_short _ Hpath) as [_ Hnd].
    destruct (prune_chain_remove_run BLCKSZ n Hmax root ld rest root (if ItemIdIsNormal (linp (pd_body p0) (root - 1)) then 1 else 0) prs1 Hm1 Hnd)
      as (l & rest' & prs2 & Heq & Hrem & Hm2 & _ & _ & Hu & Hrest); [by intros o Ho; auto|done|].
    eexists _, prs2, s1. split; [unfold lift; by rewrite Hrem|]. split; [done|]. split; [done|]. split; [done|].
    rewrite Heq in Hend1. by apply (plan_chain _ root prs1 prs2 l ld rest').
Qed.

(** [heap_prune_chain] on an unmarked line pointer that is in use. *)
Lemma heap_prune_chain_run s root prs :
  buf_ok s → marks_ok BLCKSZ n prs → plan_ok (b_clock s) prs → 1 ≤ root ≤ n → root ∉ all_marks prs →
  slot_at C0 root ≠ Some Unused → (∀ l, slot_at C0 root ≠ Some (Pointer LP_DEAD l)) →
  ∃ nd prs' s', heap_prune_chain BLCKSZ W blkno root OldestXmin prs s = Ret ((nd, prs'), s') ∧
    buf_ok s' ∧ (b_clock s ≤ b_clock s')%nat ∧ marks_ok BLCKSZ n prs' ∧ plan_ok (b_clock s') prs'.
Proof using Hheap Hmax HB.
  intros Hb Hm Hp Hrr Hrm Hnu Hnd. unfold heap_prune_chain.
  rewrite (bind_Ret _ _ s (b_page s) s) by (by destruct s). rewrite (buf_maxoff s Hb).
  destruct (buf_slot s root Hb Hrr) as (sl & Hsl & Hget & Hlp & Hslok & sl0 & Hsl0 & Hhint).
  rewrite (bind_Ret _ _ _ _ _ Hget). destruct (linp_slot BLCKSZ _ _ _ (bo_page _ Hb) Hsl) as (_ & _ & Hkind).
  destruct sl as [|fl link0|fl bs]; destruct sl0 as [|fl0 l0|fl0 bs0]; try done.
  - (* a redirection *)
    destruct Hkind as (Hfl & _ & _). simpl in Hhint. injection Hhint as -> ->.
    destruct Hslok as [-> | ->]; [|by destruct (Hnd l0)].
    rewrite (bind_Ret _ _ s false s) by (unfold ItemIdIsNormal; by rewrite Hfl).
    rewrite Hlp. apply root_chain_run; try done. left. by exists l0.
  - (* a tuple *)
    destruct Hslok as (-> & Hlen & _). destruct Hkind as (Hfl & _). destruct Hhint as [<- Hsame].
    rewrite (bind_Ret _ _ s (HeapTupleHeaderIsHeapOnly bs) s).
    2:{ unfold ItemIdIsNormal. rewrite Hfl. change (LP_NORMAL =? LP_NORMAL) with true. cbn beta iota.
        rewrite (bind_Ret _ _ _ _ _ (get_header_spec BLCKSZ s root LP_NORMAL bs (bo_page _ Hb) Hsl Hlen)).
        by rewrite heap_only_take. }
    destruct (HeapTupleHeaderIsHeapOnly bs) eqn:Honly.
    + by apply (heap_only_run s root prs bs0 bs).
    + rewrite Hlp. apply root_chain_run; try done. right. exists bs0. split; [done|].
      destruct (same_tuple_fields _ _ Hsame) as (_ & _ & _ & _ & _ & E). congruence.
Qed.

Lemma prune_scan_run : ∀ k off s prs nd,
  buf_ok s → marks_ok BLCKSZ n prs → plan_ok (b_clock s) prs → 1 ≤ off → off + Z.of_nat k = n + 1 → n ≤ 8186 →
  ∃ nd' prs' s', prune_scan BLCKSZ W k blkno off OldestXmin nd prs s = Ret ((nd', prs'), s') ∧
    buf_ok s' ∧ (b_clock s ≤ b_clock s')%nat ∧ marks_ok BLCKSZ n prs' ∧ plan_ok (b_clock s') prs'.
Proof using Hheap Hmax HB.
  induction k as [|k IH]; intros off s prs nd Hb Hm Hp Hoff Hk Hn.
  { exists nd, prs, s. done. }
  cbn [prune_scan]. assert (OffsetNumberNext off = off + 1) as Enext.
  { unfold OffsetNumberNext. rewrite wrap_u_small; [lia|]. unfold is_uint. lia. }
  rewrite Enext.
  rewrite (bind_Ret _ _ s (bool_decide (off ∈ all_marks prs)) s)
    by (unfold lift; by rewrite (marked_get BLCKSZ n Hmax prs off Hm) by lia).
  case_bool_decide as Hmk; [apply IH; auto; lia|].
  destruct (buf_slot s off Hb ltac:(lia)) as (sl & Hsl & Hget & Hlp & Hslok & sl0 & Hsl0 & Hhint).
  rewrite (bind_Ret _ _ _ _ _ Hget). destruct (linp_slot BLCKSZ _ _ _ (bo_page _ Hb) Hsl) as (_ & _ & Hkind).
  destruct (negb (ItemIdIsUsed _) || ItemIdIsDead _) eqn:Hskip; [apply IH; auto; lia|].
  unfold ItemIdIsUsed, ItemIdIsDead in Hskip. apply orb_false_iff in Hskip as [H1 H2].
  rewrite negb_involutive in H1. apply Z.eqb_neq in H1, H2.
  destruct (heap_prune_chain_run s off prs Hb Hm Hp ltac:(lia) Hmk) as (nd1 & prs1 & s1 & Hrun & Hb1 & Hcl1 & Hm1 & Hp1).
  { rewrite Hsl0. intros [= ->]. destruct sl; try done. }
  { intros l. rewrite Hsl0. intros [= ->]. destruct sl as [|fl l'|]; try done. simpl in Hhint. injection Hhint as -> ->.
    by destruct Hkind. }
  rewrite (bind_Ret _ _ _ _ _ Hrun). cbn beta iota.
  destruct (IH (off + 1) s1 prs1 (nd + nd1)) as (nd2 & prs2 & s2 & Hrun2 & Hb2 & Hcl2 & Hm2 & Hp2); auto; [lia|lia|].
  exists nd2, prs2, s2. split; [done|]. split; [done|]. split; [lia|]. done.
Qed.
End Prune.

(** ** The changes *)

(** Line pointers without storage are written. *)
Lemma set_lines_run {A} BLCKSZ (f : A → Z) (g : A → ItemIdData) (sl : A → slot) : ∀ L p,
  page_wf BLCKSZ p → (∀ x, x ∈ L → 1 ≤ f x ≤ nline p ∧ itemid_ok (g x) ∧ lp_len (g x) = 0 ∧ ∀ b, slot_of b (g x) = sl x) →
  NoDup (f <$> L) →
  ∃ p', citer (λ x, PageSetItemId (f x) (g x)) L p = Ret (tt, p') ∧ page_wf BLCKSZ p' ∧
    (∃ b', p' = set_pd_body b' p) ∧ length (contents p') = length (contents p) ∧
    (∀ x, x ∈ L → slot_at (contents p') (f x) = Some (sl x)) ∧
    (∀ off, off ∉ f <$> L → slot_at (contents p') off = slot_at (contents p) off).
Proof.
  induction L as [|x L IH]; intros p Hok HL Hnd.
  - exists p. split; [done|]. split; [done|]. split; [by exists (pd_body p); destruct p|]. split; [done|].
    split; [by intros x Hx; inversion Hx|done].
  - destruct (HL x ltac:(set_solver)) as (Hr & Hid & Hlen & Hsl).
    destruct (set_linp_spec BLCKSZ p (f x - 1) (g x) Hok ltac:(lia) Hid (or_introl Hlen)) as (p1 & Hrun & Hok1 & Hn1 & [b1 E1] & Hc1 & _).
    rewrite Z.sub_add in Hrun. rewrite Hsl in Hc1.
    apply NoDup_cons in Hnd as [Hx Hnd].
    destruct (IH p1 Hok1) as (p2 & Hrun2 & Hok2 & [b2 E2] & Hl2 & Hin2 & Hout2); [|done|].
    { intros y Hy. rewrite Hn1. apply HL. set_solver. }
    assert (1 ≤ f x ≤ Z.of_nat (length (contents p))) as Hr' by (rewrite contents_length by apply Hok; lia).
    exists p2. split; [cbn [citer]; by rewrite (bind_Ret _ _ _ _ _ Hrun)|]. split; [done|].
    split; [exists b2; rewrite E2, E1; done|]. split; [by rewrite Hl2, Hc1, length_insert|]. split.
    + intros y [->|Hy]%elem_of_cons; [|auto]. rewrite Hout2 by done. rewrite Hc1, slot_at_insert by done.
      by rewrite decide_True.
    + intros off Hoff. rewrite fmap_cons, not_elem_of_cons in Hoff. destruct Hoff as [Hne Hoff].
      rewrite Hout2 by done. rewrite Hc1, slot_at_insert by done. by rewrite decide_False by congruence.
Qed.

(** The line pointers after the changes of the plan, [C] being what they were. *)
Record pruned (C C' : list slot) (prs : PruneState) : Prop := {
  pr_length : length C' = length C;
  pr_unused : ∀ off, off ∈ nowunused prs → slot_at C' off = Some Unused;
  pr_dead : ∀ off, off ∈ nowdead prs → slot_at C' off = Some (Pointer LP_DEAD 0);
  pr_redirected : ∀ off c, (off, c) ∈ redirected prs → slot_at C' off = Some (Pointer LP_REDIRECT c);
  pr_kept : ∀ off, off ∉ sources prs → slot_at C' off = slot_at C off }.

Lemma execute_run BLCKSZ p prs :
  BLCKSZ_ok BLCKSZ → page_wf BLCKSZ p → marks_ok BLCKSZ (nline p) prs →
  ∃ p', heap_page_prune_execute BLCKSZ (redirected prs) (nowdead prs) (nowunused prs) p = Ret (tt, p') ∧
    page_wf BLCKSZ p' ∧ header_kept p p' ∧ pruned (contents p) (contents p') prs ∧ pd_lower p' = pd_lower p.
Proof.
  intros HB Hok [_ _ Hnd Hr]. pose proof (nline_bound BLCKSZ HB p Hok) as Hn. unfold heap_page_prune_execute.
  unfold all_marks, sources in Hnd, Hr. rewrite <- !app_assoc in Hnd.
  apply NoDup_app in Hnd as (Hnd1 & Hd1 & Hnd). apply NoDup_app in Hnd as (Hnd2 & Hd2 & Hnd).
  apply NoDup_app in Hnd as (Hnd3 & _ & _).
  destruct (set_lines_run BLCKSZ (fst : Z * Z → Z) (λ ft, ItemIdSetRedirect (snd ft)) (λ ft, Pointer LP_REDIRECT (snd ft)) (redirected prs) p)
    as (p1 & Hrun1 & Hok1 & [b1 E1] & Hl1 & Hin1 & Hout1); [done| |done|].
  { intros [a c] Hac. simpl. assert (1 ≤ a ≤ nline p ∧ 1 ≤ c ≤ nline p) as [Ha Hc].
    { split; apply Hr; rewrite !elem_of_app.
      - left. right. right. apply list_elem_of_fmap. by exists (a, c).
      - right. apply list_elem_of_fmap. by exists (a, c). }
    assert (wrap_u 15 c = c) as Ec by (apply wrap_u_small; unfold is_uint; lia).
    split; [done|]. unfold ItemIdSetRedirect, itemid_ok, slot_of, is_uint. simpl. rewrite Ec. repeat split; try lia; try done. }
  destruct (set_lines_run BLCKSZ (λ o : Z, o) (λ _, ItemIdSetDead) (λ _, Pointer LP_DEAD 0) (nowdead prs) p1)
    as (p2 & Hrun2 & Hok2 & [b2 E2] & Hl2 & Hin2 & Hout2); [done| |by rewrite list_fmap_id|].
  { intros o Ho. split; [|unfold itemid_ok, is_uint; simpl; repeat split; try lia; try done].
    replace (nline p1) with (nline p) by (by rewrite E1). apply Hr. rewrite !elem_of_app. auto. }
  destruct (set_lines_run BLCKSZ (λ o : Z, o) (λ _, ItemIdSetUnused) (λ _, Unused) (nowunused prs) p2)
    as (p3 & Hrun3 & Hok3 & [b3 E3] & Hl3 & Hin3 & Hout3); [done| |by rewrite list_fmap_id|].
  { intros o Ho. split; [|unfold itemid_ok, is_uint; simpl; repeat split; try lia; try done].
    replace (nline p2) with (nline p) by (by rewrite E2, E1). apply Hr. rewrite !elem_of_app. auto. }
  rewrite list_fmap_id in Hout2, Hout3.
  destruct (PageRepairFragmentation_spec BLCKSZ HB p3 Hok3) as (p4 & Hrun4 & Hok4 & Hh4 & Hc4 & Hlow4 & _).
  exists p4. rewrite (bind_Ret _ _ _ _ _ Hrun1), (bind_Ret _ _ _ _ _ Hrun2), (bind_Ret _ _ _ _ _ Hrun3).
  split; [done|]. split; [done|]. split; [by rewrite E3, E2, E1 in Hh4|].
  split; [|by rewrite Hlow4, E3, E2, E1]. rewrite Hc4. split.
  - congruence.
  - intros o Ho. by apply (Hin3 o).
  - intros o Ho. rewrite Hout3 by (intros Hx; apply (Hd1 o Hx); set_solver). by apply (Hin2 o).
  - intros o c Ho. assert (o ∈ (redirected prs).*1) as Ho' by (apply list_elem_of_fmap; by exists (o, c)).
    rewrite Hout3 by (intros Hx; apply (Hd1 o Hx); set_solver).
    rewrite Hout2 by (intros Hx; apply (Hd2 o Hx); set_solver). by apply (Hin1 (o, c)).
  - intros o Ho. unfold sources in Ho. rewrite !not_elem_of_app in Ho. destruct Ho as (H1 & H2 & H3).
    rewrite Hout3, Hout2, Hout1 by done. done.
Qed.

(** Nothing planned, nothing changed. *)
Lemma pruned_nothing C prs : redirected prs = [] → nowdead prs = [] → nowunused prs = [] → pruned C C prs.
Proof. intros H1 H2 H3. split; rewrite ?H1, ?H2, ?H3; try done; intros; by set_solver. Qed.

Lemma page_wf_header BLCKSZ p p' :
  page_wf BLCKSZ p → pd_body p' = pd_body p → pd_lower p' = pd_lower p → pd_upper p' = pd_upper p →
  pd_special p' = pd_special p → pd_pagesize_version p' = pd_pagesize_version p → is_uint 3 (pd_flags p') →
  page_wf BLCKSZ p' ∧ contents p' = contents p.
Proof.
  intros Hok E1 E2 E3 E4 E5 E6. destruct p, p'. simpl in *. subst. split; [|done]. by destruct Hok.
Qed.

(** The header as [heap_page_prune] leaves it. *)
Lemma prune_header BLCKSZ p x :
  page_wf BLCKSZ p →
  page_wf BLCKSZ (PageClearFull (set_pd_prune_xid x p)) ∧ contents (PageClearFull (set_pd_prune_xid x p)) = contents p ∧
  pd_prune_xid (PageClearFull (set_pd_prune_xid x p)) = x ∧ PageIsFull (PageClearFull (set_pd_prune_xid x p)) = false.
Proof.
  intros Hok. destruct (page_wf_header BLCKSZ p (PageClearFull (set_pd_prune_xid x p))) as [H1 H2]; try done.
  { apply land_flags_3, (ok_flags _ _ Hok). }
  split; [done|]. split; [done|]. split; [done|]. unfold PageIsFull, PageClearFull. cbn [pd_flags set_pd_flags].
  apply negb_false_iff, Z.eqb_eq. rewrite <- Z.land_assoc. change (Z.land (Z.lnot PD_PAGE_FULL) PD_PAGE_FULL) with 0. apply Z.land_0_r.
Qed.

(** ** The whole of [heap_page_prune] *)

Lemma marks_start BLCKSZ n : 0 ≤ MaxHeapTuplesPerPage BLCKSZ → marks_ok BLCKSZ n (prune_start BLCKSZ).
Proof.
  intros Hm. split; unfold prune_start, all_marks, sources; simpl.
  - rewrite length_replicate. lia.
  - intros o Ho. split; [|set_solver]. intros [? _]%lookup_replicate. done.
  - constructor.
  - set_solver.
Qed.

Lemma plan_start BLCKSZ W OldestXmin p T t : plan_ok W OldestXmin p T t (prune_start BLCKSZ).
Proof. split; simpl; set_solver. Qed.

(** The page before and after, the plan, and what was found out on the way. *)
Record prune_run (BLCKSZ : Z) (W : nat → XactEnv) `{HW : !XactHistory W} (OldestXmin : TransactionId) (s s' : buffer) (C1 : list slot)
    (prs : PruneState) : Prop := {
  run_wf : page_wf BLCKSZ (b_page s');
  run_clock : (b_clock s ≤ b_clock s')%nat;
  run_hinted : hinted (contents (b_page s)) C1;
  run_pruned : pruned C1 (contents (b_page s')) prs;
  run_marks : marks_ok BLCKSZ (Z.of_nat (length (contents (b_page s)))) prs;
  run_plan : plan_ok W OldestXmin (b_page s) (b_clock s) (b_clock s') prs;
  run_tuples : ∀ off fl bs, slot_at C1 off = Some (Stored fl bs) → tuple_ok W (b_clock s') bs;
  run_prune_xid : pd_prune_xid (b_page s') = new_prune_xid prs;
  run_full : PageIsFull (b_page s') = false }.

Lemma finish_run BLCKSZ W `{HW : !XactHistory W} OldestXmin wal s s1 prs :
  BLCKSZ_ok BLCKSZ → buf_ok BLCKSZ W (b_page s) (b_clock s) s1 →
  marks_ok BLCKSZ (Z.of_nat (length (contents (b_page s)))) prs →
  plan_ok W OldestXmin (b_page s) (b_clock s) (b_clock s1) prs →
  ∃ s', (if (0 <? Z.of_nat (length (redirected prs))) || (0 <? Z.of_nat (length (nowdead prs))) ||
          (0 <? Z.of_nat (length (nowunused prs))) then
         _ ← on_page (heap_page_prune_execute BLCKSZ (redirected prs) (nowdead prs) (nowunused prs));
         page ← on_page get_page;
         _ ← on_page (put_page (PageClearFull (set_pd_prune_xid (new_prune_xid prs) page)));
         _ ← mark_dirty;
         match wal with
         | Some log =>
             page ← on_page get_page;
             on_page (put_page (set_pd_tli (uint16_of (snd (log prs))) (set_pd_lsn (fst (log prs)) page)))
         | None => mret tt
         end
       else
         page ← on_page get_page;
         if negb (pd_prune_xid page =? new_prune_xid prs) || PageIsFull page then
           _ ← on_page (put_page (PageClearFull (set_pd_prune_xid (new_prune_xid prs) page)));
           mark_dirty
         else mret tt) s1 = Ret (tt, s') ∧
    prune_run BLCKSZ W OldestXmin s s' (contents (b_page s1)) prs.
Proof.
  intros HB Hb Hm Hp. pose proof (bo_page _ _ _ _ _ Hb) as Hok.
  assert (∀ s', page_wf BLCKSZ (b_page s') → b_clock s' = b_clock s1 → pruned (contents (b_page s1)) (contents (b_page s')) prs →
    pd_prune_xid (b_page s') = new_prune_xid prs → PageIsFull (b_page s') = false →
    prune_run BLCKSZ W OldestXmin s s' (contents (b_page s1)) prs) as Hdone.
  { intros s' H1 H2 H3 H4 H5. split; rewrite ?H2; try done; apply Hb. }
  destruct (_ || _ || _) eqn:Hany.
  - assert (Z.of_nat (length (contents (b_page s))) = nline (b_page s1)) as En.
    { rewrite <- (hinted_length _ _ (bo_hinted _ _ _ _ _ Hb)). apply contents_length, Hok. }
    rewrite En in Hm. destruct (execute_run BLCKSZ (b_page s1) prs HB Hok Hm) as (p2 & Hrun & Hok2 & _ & Hpr & _).
    destruct (prune_header BLCKSZ p2 (new_prune_xid prs) Hok2) as (Hok3 & Hc3 & Hx3 & Hf3).
    set (p3 := PageClearFull (set_pd_prune_xid (new_prune_xid prs) p2)) in *.
    rewrite (bind_Ret _ _ s1 tt (mkBuf p2 (b_save s1) (b_clock s1)))
      by (unfold on_page; by rewrite Hrun).
    rewrite (bind_Ret _ _ _ p2 (mkBuf p2 (b_save s1) (b_clock s1))) by done.
    rewrite (bind_Ret _ _ _ tt (mkBuf p3 (b_save s1) (b_clock s1))) by done.
    rewrite (bind_Ret _ _ _ tt (mkBuf p3 true (b_clock s1))) by done.
    destruct wal as [log|].
    + set (p4 := set_pd_tli (uint16_of (snd (log prs))) (set_pd_lsn (fst (log prs)) p3)).
      exists (mkBuf p4 true (b_clock s1)). split; [done|].
      destruct (page_wf_header BLCKSZ p3 p4 Hok3) as [Hok4 Hc4]; try done; [apply Hok3|].
      by apply Hdone.
    + exists (mkBuf p3 true (b_clock s1)). split; [done|]. by apply Hdone.
  - apply orb_false_iff in Hany as [[Hr Hd]%orb_false_iff Hu].
    assert (∀ A (l : list A), (0 <? Z.of_nat (length l)) = false → l = []) as Hnil.
    { intros A [|x l]; [done|]. intros ?%Z.ltb_ge. simpl in *. lia. }
    apply Hnil in Hr, Hd, Hu. pose proof (pruned_nothing (contents (b_page s1)) prs Hr Hd Hu) as Hpr.
    rewrite (bind_Ret _ _ s1 (b_page s1) s1) by (by destruct s1).
    destruct (negb _ || _) eqn:Hch.
    + destruct (prune_header BLCKSZ (b_page s1) (new_prune_xid prs) Hok) as (Hok3 & Hc3 & Hx3 & Hf3).
      set (p3 := PageClearFull (set_pd_prune_xid (new_prune_xid prs) (b_page s1))) in *.
      rewrite (bind_Ret _ _ _ tt (mkBuf p3 (b_save s1) (b_clock s1))) by done.
      exists (mkBuf p3 true (b_clock s1)). split; [done|]. by apply Hdone.
    + apply orb_false_iff in Hch as [Hx Hf]. apply negb_false_iff, Z.eqb_eq in Hx.
      exists s1. split; [done|]. by apply Hdone.
Qed.

Lemma heap_page_prune_run BLCKSZ W `{HW : !XactHistory W} blkno OldestXmin wal s :
  BLCKSZ_ok BLCKSZ → page_wf BLCKSZ (b_page s) → heap_ok blkno (contents (b_page s)) →
  Z.of_nat (length (contents (b_page s))) ≤ MaxHeapTuplesPerPage BLCKSZ →
  (∀ off fl bs, slot_at (contents (b_page s)) off = Some (Stored fl bs) → tuple_ok W (b_clock s) bs) →
  ∃ nd latest s' C1 prs, heap_page_prune BLCKSZ W blkno OldestXmin wal s = Ret ((nd, latest), s') ∧
    prune_run BLCKSZ W OldestXmin s s' C1 prs.
Proof.
  intros HB Hok Hheap Hmax Htup. pose proof (nline_bound BLCKSZ HB _ Hok) as Hnb.
  pose proof (contents_length (b_page s) (proj1 (ok_lower _ _ Hok))) as Hcl.
  unfold heap_page_prune. rewrite (bind_Ret _ _ s (b_page s) s) by (by destruct s).
  rewrite (PageGetMaxOffsetNumber_ok BLCKSZ) by done.
  assert (buf_ok BLCKSZ W (b_page s) (b_clock s) s) as Hb0 by (split; try done; reflexivity).
  destruct (prune_scan_run BLCKSZ W blkno OldestXmin (b_page s) (b_clock s) Hheap Hmax HB
    (Z.to_nat (nline (b_page s))) FirstOffsetNumber s (prune_start BLCKSZ) 0) as (nd & prs & s1 & Hrun & Hb & Hcl1 & Hm & Hp).
  - exact Hb0.
  - apply marks_start. lia.
  - apply plan_start.
  - done.
  - unfold FirstOffsetNumber. lia.
  - lia.
  - rewrite (bind_Ret _ _ _ _ _ Hrun). cbn beta iota.
    destruct (finish_run BLCKSZ W OldestXmin wal s s1 prs HB Hb Hm Hp) as (s' & Hrun' & Hr).
    rewrite (bind_Ret _ _ _ _ _ Hrun'). by exists nd, (latestRemovedXid prs), s', (contents (b_page s1)), prs.
Qed.

(** ** The chains of the pruned page *)

Lemma path_lt C (rank : Z → nat) : (∀ a b, link C a b → (rank a < rank b)%nat) →
  ∀ l r c, path C (l ++ [c]) → list.head l = Some r → (rank r < rank c)%nat.
Proof.
  intros Hr. induction l as [|x l IH]; intros r c Hp [= ->]. destruct l as [|y l].
  - by apply Hr, Hp.
  - destruct Hp as [Hl Hp]. apply Hr in Hl. specialize (IH y c Hp eq_refl). lia.
Qed.

Section Pruned.
Context {BLCKSZ : Z} {W : nat → XactEnv} `{HW : !XactHistory W} {OldestXmin : TransactionId} {s s' : buffer}.
Context {C1 : list slot} {prs : PruneState} (Hrun : prune_run BLCKSZ W OldestXmin s s' C1 prs).
Abbreviation C := (contents (b_page s)).
Abbreviation C' := (contents (b_page s')).

(** A line pointer of the plan has lost its storage. *)
Lemma pruned_source off : off ∈ sources prs → ∀ fl bs, slot_at C' off ≠ Some (Stored fl bs).
Proof using Hrun.
  intros Hs fl bs. unfold sources in Hs. rewrite !elem_of_app in Hs.
  destruct Hs as [Hs|[Hs|((r & c) & -> & Hs)%list_elem_of_fmap]].
  - by rewrite (pr_unused _ _ _ (run_pruned _ _ _ _ _ _ _ Hrun) _ Hs).
  - by rewrite (pr_dead _ _ _ (run_pruned _ _ _ _ _ _ _ Hrun) _ Hs).
  - simpl. by rewrite (pr_redirected _ _ _ (run_pruned _ _ _ _ _ _ _ Hrun) _ _ Hs).
Qed.

Lemma pruned_stored off fl bs : slot_at C' off = Some (Stored fl bs) →
  (off ∉ sources prs) ∧ slot_at C1 off = Some (Stored fl bs) ∧
  ∃ bs0, slot_at C off = Some (Stored fl bs0) ∧ same_tuple bs0 bs.
Proof using Hrun.
  intros Hs. assert (off ∉ sources prs) as Hno by (intros Hx; by apply (pruned_source off Hx fl bs)).
  rewrite (pr_kept _ _ _ (run_pruned _ _ _ _ _ _ _ Hrun) _ Hno) in Hs. split; [done|]. split; [done|].
  apply (hinted_stored _ _ _ _ _ (run_hinted _ _ _ _ _ _ _ Hrun) Hs).
Qed.

Lemma redirected_target r c : (r, c) ∈ redirected prs → c ∉ sources prs.
Proof using Hrun.
  intros Hrc Hs. pose proof (mo_nodup _ _ _ (run_marks _ _ _ _ _ _ _ Hrun)) as Hnd. unfold all_marks in Hnd.
  apply NoDup_app in Hnd as (_ & Hd & _). apply (Hd c Hs). apply list_elem_of_fmap. by exists (r, c).
Qed.

Lemma redirected_functional r r' c c' :
  (r, c) ∈ redirected prs → (r', c') ∈ redirected prs → r = r' ∨ c = c' → r = r' ∧ c = c'.
Proof using Hrun.
  intros H1 H2 He. pose proof (mo_nodup _ _ _ (run_marks _ _ _ _ _ _ _ Hrun)) as Hnd. unfold all_marks, sources in Hnd.
  rewrite <- !app_assoc in Hnd. apply NoDup_app in Hnd as (_ & _ & Hnd). apply NoDup_app in Hnd as (_ & _ & Hnd).
  apply NoDup_app in Hnd as (Hn1 & _ & Hn2).
  apply list_elem_of_lookup in H1 as [i H1]. apply list_elem_of_lookup in H2 as [j H2]. assert (i = j) as ->.
  { destruct He as [->| ->].
    - eapply NoDup_lookup; [exact Hn1| |]; rewrite list_lookup_fmap, ?H1, ?H2; done.
    - eapply NoDup_lookup; [exact Hn2| |]; rewrite list_lookup_fmap, ?H1, ?H2; done. }
  rewrite H1 in H2. by injection H2.
Qed.

(** The links afterwards: links that were there, and those of the new redirections. *)
Lemma pruned_link a b : link C' a b → (b ∉ sources prs) ∧ (((a ∉ sources prs) ∧ link C a b) ∨ (a, b) ∈ redirected prs).
Proof using Hrun.
  intros Hl. assert (b ∉ sources prs) as Hb.
  { destruct Hl as [bs _ Hb|bs bs' _ _ _ Hb _]; by apply pruned_stored in Hb as [? _]. }
  split; [done|]. pose proof (run_pruned _ _ _ _ _ _ _ Hrun) as Hp.
  destruct (decide (a ∈ sources prs)) as [Ha|Ha].
  - right. destruct Hl as [bs Hr _|bs bs' Hr _ _ _ _]; [|by apply pruned_stored in Hr as [? _]].
    unfold sources in Ha. rewrite !elem_of_app in Ha. destruct Ha as [Ha|[Ha|((r & c) & -> & Ha)%list_elem_of_fmap]].
    + by rewrite (pr_unused _ _ _ Hp _ Ha) in Hr.
    + by rewrite (pr_dead _ _ _ Hp _ Ha) in Hr.
    + simpl in Hr. rewrite (pr_redirected _ _ _ Hp _ _ Ha) in Hr. by injection Hr as ->.
  - left. split; [done|]. apply (hinted_link C C1); [apply Hrun|].
    destruct Hl as [bs Hr Hb'|bs bs' Hr Hhot Hc Hb' Hx]; rewrite (pr_kept _ _ _ Hp _ Ha) in Hr;
      rewrite (pr_kept _ _ _ Hp _ Hb) in Hb'; [by eapply link_redirect|by eapply link_update].
Qed.

Lemma pruned_heap_ok blkno : heap_ok blkno C → heap_ok blkno C'.
Proof using Hrun.
  intros Hheap. pose proof (run_pruned _ _ _ _ _ _ _ Hrun) as Hp. pose proof (run_plan _ _ _ _ _ _ _ Hrun) as Hplan.
  pose proof (hinted_length _ _ (run_hinted _ _ _ _ _ _ _ Hrun)) as Hlen.
  assert (∀ a b, (a, b) ∈ redirected prs → ∃ l d, path C (l ++ [d; b]) ∧ list.head (l ++ [d]) = Some a ∧
    link C d b ∧ d ∈ sources prs) as Hred.
  { intros a b Hab. destruct (po_redirected _ _ _ _ _ _ Hplan a b Hab) as (_ & l & d & Hpath & Hhd & _ & _ & Hsrc).
    exists l, d. split; [done|]. split; [done|]. split; [by apply path_middle in Hpath|].
    apply Forall_app in Hsrc as [_ Hsrc]. by inversion Hsrc. }
  destruct (ho_rank _ _ Hheap) as (rank & Hbound & Hrank). split.
  - intros off sl Hs. destruct (decide (off ∈ sources prs)) as [Hin|Hno].
    + unfold sources in Hin. rewrite !elem_of_app in Hin. destruct Hin as [Ha|[Ha|((r & c) & -> & Ha)%list_elem_of_fmap]].
      * rewrite (pr_unused _ _ _ Hp _ Ha) in Hs. by injection Hs as <-.
      * rewrite (pr_dead _ _ _ Hp _ Ha) in Hs. injection Hs as <-. by right.
      * simpl in Hs. rewrite (pr_redirected _ _ _ Hp _ _ Ha) in Hs. injection Hs as <-. by left.
    + rewrite (pr_kept _ _ _ Hp _ Hno) in Hs. apply (ho_slot _ _ (heap_ok_hint blkno C C1 (run_hinted _ _ _ _ _ _ _ Hrun) Hheap) off sl Hs).
  - exists rank. rewrite (pr_length _ _ _ Hp), Hlen. split; [done|]. intros a b Hl.
    destruct (pruned_link a b Hl) as [_ [[_ Hab]|Hab]]; [by apply Hrank|].
    destruct (Hred a b Hab) as (l & d & Hpath & Hhd & _). apply (path_lt C rank Hrank (l ++ [d])); [|done].
    by rewrite <- app_assoc.
  - intros a b c Ha Hb. destruct (pruned_link a c Ha) as [_ [[Na La]|Ra]], (pruned_link b c Hb) as [_ [[Nb Lb]|Rb]].
    + by apply (ho_parent _ _ Hheap a b c).
    + destruct (Hred b c Rb) as (l & d & _ & _ & Hd & Hsd). by rewrite (ho_parent _ _ Hheap a d c La Hd) in Na.
    + destruct (Hred a c Ra) as (l & d & _ & _ & Hd & Hsd). by rewrite (ho_parent _ _ Hheap b d c Lb Hd) in Nb.
    + by apply (redirected_functional a b c c Ra Rb); right.
  - intros a b bs Hl Hb. destruct (pruned_stored _ _ _ Hb) as (_ & _ & bs0 & Hb0 & Hsame).
    destruct (same_tuple_fields _ _ Hsame) as (_ & _ & _ & _ & _ & ->).
    destruct (pruned_link a b Hl) as [_ [[_ Hab]|Hab]]; [by apply (ho_only _ _ Hheap a b)|].
    destruct (Hred a b Hab) as (l & d & _ & _ & Hd & _). by apply (ho_only _ _ Hheap d b).
Qed.

Lemma pruned_tuples off fl bs : slot_at C' off = Some (Stored fl bs) → tuple_ok W (b_clock s') bs.
Proof using Hrun. intros Hs. destruct (pruned_stored _ _ _ Hs) as (_ & H1 & _). by apply (run_tuples _ _ _ _ _ _ _ Hrun _ _ _ H1). Qed.

(** A line pointer of the plan that has a tuple: a dead one, or one before a dead one. *)
Lemma source_found off fl bs :
  off ∈ sources prs → slot_at C off = Some (Stored fl bs) →
  found W OldestXmin (b_page s) (b_clock s) (b_clock s') HEAPTUPLE_DEAD off ∨
  found W OldestXmin (b_page s) (b_clock s) (b_clock s') HEAPTUPLE_RECENTLY_DEAD off.
Proof using Hrun.
  intros Hs Hst. pose proof (run_plan _ _ _ _ _ _ _ Hrun) as Hplan.
  assert (¬ redirects (b_page s) off) as Hnr by (intros [l Hl]; congruence).
  assert (∀ l d, list.head (l ++ [d]) = Some off → Forall (passed W OldestXmin (b_page s) (b_clock s) (b_clock s')) l →
    passed W OldestXmin (b_page s) (b_clock s) (b_clock s') d → passed W OldestXmin (b_page s) (b_clock s) (b_clock s') off) as Hhd.
  { intros [|x l] d [= ->]; [done|]. by intros [? _]%Forall_cons. }
  assert (passed W OldestXmin (b_page s) (b_clock s) (b_clock s') off) as [?|?]; [|done..].
  unfold sources in Hs. rewrite !elem_of_app in Hs. destruct Hs as [Hs|[Hs|((r & c) & -> & Hs)%list_elem_of_fmap]].
  - destruct (po_unused _ _ _ _ _ _ Hplan _ Hs) as [_ [[? _]|[? _]]]; [right; by left|done].
  - destruct (po_dead _ _ _ _ _ _ Hplan _ Hs) as (_ & l & d & _ & Hh & Hl & Hd & _). apply (Hhd l d Hh Hl).
    destruct Hd; [by left|right; by left].
  - destruct (po_redirected _ _ _ _ _ _ Hplan _ _ Hs) as (_ & l & d & _ & Hh & Hl & Hd & _). apply (Hhd l d Hh Hl).
    right; by left.
Qed.

Lemma pruned_length : length C' = length C.
Proof using Hrun. rewrite (pr_length _ _ _ (run_pruned _ _ _ _ _ _ _ Hrun)). apply (hinted_length _ _ (run_hinted _ _ _ _ _ _ _ Hrun)). Qed.
End Pruned.

(** C7: On every well-formed heap page, whatever other transactions do meanwhile,
    [heap_page_prune] returns, passing every assertion and staying within its arrays.  The
    page is a well-formed heap page again, with the same line pointers: a tuple that is still
    there is the same one but for justified hint bits, a tuple that is gone was found dead or
    recently dead during the prune, no line pointer that an index entry may point to has
    become reusable, and the hint that the page is full is gone. *)
Theorem heap_page_prune_correct BLCKSZ W `{HW : !XactHistory W} blkno OldestXmin wal s :
  BLCKSZ_ok BLCKSZ → page_wf BLCKSZ (b_page s) → heap_ok blkno (contents (b_page s)) →
  Z.of_nat (length (contents (b_page s))) ≤ MaxHeapTuplesPerPage BLCKSZ →
  (∀ off fl bs, slot_at (contents (b_page s)) off = Some (Stored fl bs) → tuple_ok W (b_clock s) bs) →
  ∃ nd latest s', heap_page_prune BLCKSZ W blkno OldestXmin wal s = Ret ((nd, latest), s') ∧
    page_wf BLCKSZ (b_page s') ∧ heap_ok blkno (contents (b_page s')) ∧
    length (contents (b_page s')) = length (contents (b_page s)) ∧ PageIsFull (b_page s') = false ∧
    (∀ off fl bs', slot_at (contents (b_page s')) off = Some (Stored fl bs') →
       tuple_ok W (b_clock s') bs' ∧ ∃ bs, slot_at (contents (b_page s)) off = Some (Stored fl bs) ∧ same_tuple bs bs') ∧
    (∀ off fl bs, slot_at (contents (b_page s)) off = Some (Stored fl bs) →
       (∃ bs', slot_at (contents (b_page s')) off = Some (Stored fl bs')) ∨
       found W OldestXmin (b_page s) (b_clock s) (b_clock s') HEAPTUPLE_DEAD off ∨
       found W OldestXmin (b_page s) (b_clock s) (b_clock s') HEAPTUPLE_RECENTLY_DEAD off) ∧
    (∀ off, rootish (b_page s) off → slot_at (contents (b_page s')) off ≠ Some Unused).
Proof.
  intros HB Hok Hheap Hmax Htup.
  destruct (heap_page_prune_run BLCKSZ W blkno OldestXmin wal s HB Hok Hheap Hmax Htup) as (nd & latest & s' & C1 & prs & Hr & Hrun).
  pose proof (run_pruned _ _ _ _ _ _ _ Hrun) as Hp.
  exists nd, latest, s'. split; [done|]. split; [apply Hrun|]. split; [by apply (pruned_heap_ok Hrun)|].
  split; [apply (pruned_length Hrun)|]. split; [apply Hrun|]. split; [|split].
  - intros off fl bs' Hs. split; [by apply (pruned_tuples Hrun _ _ _ Hs)|]. by destruct (pruned_stored Hrun _ _ _ Hs) as (_ & _ & ?).
  - intros off fl bs Hs. destruct (decide (off ∈ sources prs)) as [Hin|Hno].
    + right. by apply (source_found Hrun off fl bs).
    + left. rewrite (pr_kept _ _ _ Hp _ Hno).
      destruct (hinted_at _ _ _ _ (run_hinted _ _ _ _ _ _ _ Hrun) Hs) as (sl & Hsl & Hh).
      destruct sl as [| |fl' bs']; try done. destruct Hh as [-> _]. by exists bs'.
  - intros off Hroot Hun. assert (off ∉ nowunused prs) as Hnu.
    { intros Hu. destruct (po_unused _ _ _ _ _ _ (run_plan _ _ _ _ _ _ _ Hrun) _ Hu) as [(bs & Hs & Ho) _].
      destruct Hroot as [[l Hl]|(bs' & Hs' & Ho')]; congruence. }
    destruct (decide (off ∈ sources prs)) as [Hin|Hno].
    + unfold sources in Hin. rewrite !elem_of_app in Hin. destruct Hin as [?|[Hd|((r & c) & -> & Hr')%list_elem_of_fmap]]; [done| |].
      * by rewrite (pr_dead _ _ _ Hp _ Hd) in Hun.
      * simpl in Hun. by rewrite (pr_redirected _ _ _ Hp _ _ Hr') in Hun.
    + rewrite (pr_kept _ _ _ Hp _ Hno) in Hun.
      destruct (hinted_at_r _ _ _ _ (run_hinted _ _ _ _ _ _ _ Hrun) Hun) as (sl & Hsl & Hh).
      destruct Hroot as [[l Hl]|(bs' & Hs' & Ho')].
      * rewrite Hl in Hsl. by injection Hsl as <-.
      * rewrite Hs' in Hsl. by injection Hsl as <-.
Qed.

(** ** An example *)

(** The history of [Tqual] as a backend without a transaction sees it: transactions 98 to
    100 have committed, 101 commits at time 5. *)
Definition bystander (t : nat) : XactEnv := mkEnv
  (λ _, false) (env_IsInProgress (ex_env t)) (env_DidCommit (ex_env t)) (λ _, false) (λ _, InvalidXLogRecPtr) (λ _, false)
  (λ x, x) 7 (mkCombo None [] 0 0).

#[global] Instance bystander_history : XactHistory bystander.
Proof.
  refine {| started := λ _ x, x <? 200 |}; try done.
  - intros t x H. apply (@h_unstarted ex_env ex_history t x H).
  - intros t t' x Ht H. apply (@h_done ex_env ex_history t t' x Ht H).
Defined.

Definition tuple_bytes (xmin xmax ctid infomask2 infomask : Z) : list Z :=
  le_encode 4 xmin ++ le_encode 4 xmax ++ le_encode 4 0 ++ le_encode 2 0 ++ le_encode 2 0 ++ le_encode 2 ctid ++
  le_encode 2 infomask2 ++ le_encode 2 infomask ++ [24; 77].

(** A row that transaction 99 inserted and 100 and 101 updated. *)
Definition hot1 : list Z := tuple_bytes 99 100 2 HEAP_HOT_UPDATED 0.
Definition hot2 : list Z := tuple_bytes 100 101 3 (Z.lor HEAP_HOT_UPDATED HEAP_ONLY_TUPLE) 0.
Definition hot3 : list Z := tuple_bytes 101 0 3 HEAP_ONLY_TUPLE HEAP_XMAX_INVALID.
Definition add_tuple (bs : list Z) : PageData → PageData := run_page (PageAddItem 1024 bs 24 InvalidOffsetNumber false true).
Definition hot_page : PageData := add_tuple hot3 (add_tuple hot2 (add_tuple hot1 page0)).
(** Unfolded last. *)
#[global] Strategy 1000 [hot_page].

Lemma hot_page_ok : page_wf 1024 hot_page.
Proof.
  apply (page_steps_ok 1024 page0 hot_page blcksz_1024); [|apply page0_ok].
  apply (rtc_l _ _ (add_tuple hot1 page0)); [|apply (rtc_l _ _ (add_tuple hot2 (add_tuple hot1 page0))); [|apply rtc_once]].
  - apply (step_add _ _ hot1 InvalidOffsetNumber false true 1);
      [by vm_compute|by apply (bool_decide_unpack _); vm_compute|by vm_compute|by vm_compute].
  - apply (step_add _ _ hot2 InvalidOffsetNumber false true 2);
      [by vm_compute|by apply (bool_decide_unpack _); vm_compute|by vm_compute|by vm_compute].
  - apply (step_add _ _ hot3 InvalidOffsetNumber false true 3);
      [by vm_compute|by apply (bool_decide_unpack _); vm_compute|by vm_compute|by vm_compute].
Qed.

Lemma hot_page_contents : contents hot_page = [Stored LP_NORMAL hot1; Stored LP_NORMAL hot2; Stored LP_NORMAL hot3].
Proof. by vm_compute. Qed.

(** The three line pointers. *)
Lemma hot_page_slot off sl :
  slot_at (contents hot_page) off = Some sl →
  (off = 1 ∧ sl = Stored LP_NORMAL hot1) ∨ (off = 2 ∧ sl = Stored LP_NORMAL hot2) ∨ (off = 3 ∧ sl = Stored LP_NORMAL hot3).
Proof.
  intros H. pose proof (slot_at_range _ _ _ H) as Hr. rewrite hot_page_contents in *. simpl in Hr.
  assert (off = 1 ∨ off = 2 ∨ off = 3) as [->|[->| ->]] by lia; vm_compute in H; injection H as <-; auto.
Qed.

Lemma hot_page_link a b : link (contents hot_page) a b → b = a + 1 ∧ (a = 1 ∨ a = 2).
Proof.
  intros [bs H _|bs bs' H Hhot Hc _ _].
  - by apply hot_page_slot in H as [[-> E]|[[-> E]|[-> E]]].
  - apply hot_page_slot in H as [[-> E]|[[-> E]|[-> E]]]; injection E as ->.
    + vm_compute in Hc. subst b. auto.
    + vm_compute in Hc. subst b. auto.
    + by vm_compute in Hhot.
Qed.

Lemma hot_page_heap : heap_ok 0 (contents hot_page).
Proof.
  split.
  - intros off sl [[-> ->]|[[-> ->]|[-> ->]]]%hot_page_slot; (split; [done|]); (split; [by vm_compute; lia|]);
      (split; [done|]); split; done.
  - exists (λ off, if decide (off ≤ 1) then 0%nat else if decide (off = 2) then 1%nat else 2%nat).
    rewrite hot_page_contents. split; [intros off; simpl; repeat case_decide; lia|].
    rewrite <- hot_page_contents. by intros a b [-> [->| ->]]%hot_page_link; simpl; lia.
  - intros a b c Ha%hot_page_link Hb%hot_page_link. lia.
  - intros a b bs Hl%hot_page_link Hs. apply hot_page_slot in Hs as [[-> E]|[[-> E]|[-> E]]]; [lia|by injection E as ->..].
Qed.

(** The rows are well formed for a backend that sees this history and is not one of their transactions. *)
Lemma hot_page_tuples W `{HW : !XactHistory W} t :
  (∀ x, x ∈ [99; 100; 101; 0] → started (W := W) t x = true ∧ env_IsCurrent (W 0%nat) x = false) →
  xid_state (W t) 0 = Aborted →
  ∀ off fl bs, slot_at (contents hot_page) off = Some (Stored fl bs) → tuple_ok W t bs.
Proof.
  intros Hx H0 off fl bs Hs.
  assert (∀ xmin xmax ctid m2 m, xmin ∈ [99; 100; 101; 0] → xmax ∈ [99; 100; 101; 0] →
    let h := header_of (tuple_bytes xmin xmax ctid m2 m) in
    t_xmin h = xmin → t_xmax h = xmax → is_set h HEAP_XMAX_IS_MULTI = false → is_set h HEAP_MOVED = false → wf_tuple W t h) as Hwf.
  { intros xmin xmax ctid m2 m Hmin Hmax h E1 E2 Hmu Hmv. destruct (Hx xmin Hmin), (Hx xmax Hmax).
    split; rewrite ?E1, ?E2, ?Hmu, ?Hmv; intros; congruence || done. }
  apply hot_page_slot in Hs as [[-> E]|[[-> E]|[-> E]]]; injection E as -> ->.
  - split; [by split|]. apply Hwf; set_solver || done.
  - split; [by split|]. apply Hwf; set_solver || done.
  - split; [|apply Hwf; set_solver || done]. split; try done. intros _. unfold just_xmax_i, del.
    change (t_xmax (header_of hot3)) with 0. rewrite H0. done.
Qed.

Definition hot_buffer : buffer := mkBuf hot_page false 6.

Lemma heap_page_prune_correct_witness :
  ∃ nd latest s', heap_page_prune 1024 bystander 0 101 None hot_buffer = Ret ((nd, latest), s') ∧
    page_wf 1024 (b_page s') ∧ heap_ok 0 (contents (b_page s')) ∧
    ∀ off, rootish (b_page hot_buffer) off → slot_at (contents (b_page s')) off ≠ Some Unused.
Proof.
  destruct (heap_page_prune_correct 1024 bystander 0 101 None hot_buffer)
    as (nd & latest & s' & H1 & H2 & H3 & _ & _ & _ & _ & H4).
  - apply blcksz_1024.
  - apply hot_page_ok.
  - apply hot_page_heap.
  - change (b_page hot_buffer) with hot_page. rewrite hot_page_contents. by vm_compute.
  - apply (hot_page_tuples bystander 6); [|by vm_compute]. intros x Hx. rewrite !elem_of_cons, elem_of_nil in Hx.
    destruct Hx as [->|[->|[->|[->|[]]]]]; done.
  - exists nd, latest, s'. split; [exact H1|]. split; [exact H2|]. split; [exact H3|exact H4].
Defined.
