(* ===== verification/HotSearch.v ===== *)
(** * Pruning and the readers: [heap_hot_search_buffer] of [backend/access/heap/heapam.c]

    The search along a HOT chain against a definition that looks at the chain and the
    snapshot only, and the theorem that a prune by another backend does not change what it
    finds, for any snapshot that the horizon of the prune respects.  The functions are those
    of [Prune]. *)

From S2P Require Import Prelude Xid Htup Tqual QSort Page PageSpec Prune PruneSpec.

(** ** What a snapshot sees *)

Section View.
Context (W : nat → XactEnv) `{HW : !XactHistory W} (sn : SnapshotData) (t0 : nat).

(** The transaction had committed when the snapshot was taken. *)
Definition seen (x : TransactionId) : bool :=
  bool_decide (xid_state (W t0) x = Committed) && negb (in_snapshot (W t0) sn x).
(** The row is deleted for the snapshot. *)
Definition gone (h : HeapTupleHeader) : bool :=
  negb (is_set h HEAP_XMAX_IS_MULTI) && negb (is_set h HEAP_IS_LOCKED) && seen (t_xmax h).
Definition visible (h : HeapTupleHeader) : bool := seen (t_xmin h) && negb (gone h).

(** A row of other transactions, for this snapshot: it is none of the reader's own, the
    snapshot was taken at [t0], and a row that is deleted for it had been inserted for it. *)
Record readable (h : HeapTupleHeader) : Prop := {
  rd_xmin : env_IsCurrent (W 0%nat) (t_xmin h) = false;
  rd_xmax : env_IsCurrent (W 0%nat) (t_xmax h) = false;
  rd_cover_xmin : covers W t0 sn (t_xmin h);
  rd_cover_xmax : covers W t0 sn (t_xmax h);
  rd_order : gone h = true → seen (t_xmin h) = true }.

Lemma not_mine x t : env_IsCurrent (W 0%nat) x = false → xid_state (W t) x ≠ Mine.
Proof using HW. intros H. unfold xid_state. rewrite (h_current t). rewrite H. by repeat case_match. Qed.

Lemma mvcc_visible h :
  is_set h HEAP_MOVED = false → readable h → mvcc_spec (W t0) sn h = visible h.
Proof using HW.
  intros [Ho Hi]%not_moved [H1 H2 _ _ _]. pose proof (not_mine _ t0 H1) as N1. pose proof (not_mine _ t0 H2) as N2.
  unfold mvcc_spec, mvcc_spec2, visible, gone, seen, ins, del. rewrite Ho, Hi.
  destruct (xid_state (W t0) (t_xmin h)) eqn:E1; try done. rewrite bool_decide_true by done. cbn [andb]. f_equal.
  destruct (is_set h HEAP_XMAX_IS_MULTI); [by destruct (env_MultiIsRunning _ _)|]. cbn [negb andb].
  destruct (xid_state (W t0) (t_xmax h)) eqn:E2; try done; destruct (is_set h HEAP_IS_LOCKED); try done.
  cbn [negb andb]. rewrite bool_decide_true by done. cbn [andb]. by rewrite negb_involutive.
Qed.

Lemma committed_started t x : xid_state (W t) x = Committed → started t x = true.
Proof using HW.
  intros H. destruct (started t x) eqn:E; [done|]. destruct (h_unstarted t x E) as [E1 E2].
  unfold xid_state in H. rewrite E1, E2 in H. by destruct (env_IsCurrent _ _).
Qed.

Lemma seen_later x t : seen x = true → (t0 ≤ t)%nat → xid_state (W t) x = Committed.
Proof using HW.
  intros [H%bool_decide_eq_true _]%andb_true_iff Ht. apply (xid_state_done W t0 t); auto.
  by apply committed_started.
Qed.

(** Hint bits do not matter for what is seen. *)
Lemma view_ext h h' : hint_ext h h' → gone h' = gone h ∧ visible h' = visible h.
Proof using.
  clear HW. intros He. destruct (hint_ext_bits _ _ He) as (_ & _ & _ & Eu & El & _). destruct He as (E1 & E2 & _).
  unfold visible, gone. by rewrite Eu, El, E1, E2.
Qed.

Lemma readable_ext h h' : hint_ext h h' → readable h → readable h'.
Proof using.
  intros He [H1 H2 H3 H4 H5]. destruct (view_ext h h' He) as [E _]. destruct He as (E1 & E2 & _).
  split; rewrite ?E, ?E1, ?E2; done.
Qed.

(** The hints that end a chain are not set on a row that is deleted for the snapshot. *)
Lemma gone_hints t bs :
  (t0 ≤ t)%nat → tuple_ok W t bs → is_set (header_of bs) HEAP_MOVED = false → readable (header_of bs) →
  gone (header_of bs) = true → HeapTupleHeaderIsHotUpdated bs = has (t_infomask2 bs) HEAP_HOT_UPDATED.
Proof using.
  intros Ht [Hs Hw] [Ho Hi]%not_moved Hr Hg. pose proof (rd_order _ Hr Hg) as Hm.
  unfold gone in Hg. rewrite !andb_true_iff, !negb_true_iff in Hg. destruct Hg as [[Hu Hl] Hx].
  rewrite hot_updated_eq. destruct (is_set (header_of bs) HEAP_XMIN_INVALID) eqn:E1.
  - exfalso. apply (snd_xmin_i _ _ _ Hs) in E1. unfold just_xmin_i in E1. rewrite Ho, Hi in E1.
    by rewrite (seen_later _ t Hm Ht) in E1.
  - destruct (is_set (header_of bs) HEAP_XMAX_INVALID) eqn:E2; [|by rewrite !andb_true_r].
    exfalso. apply (snd_xmax_i _ _ _ Hs) in E2 as [E2 _]. unfold del in E2. by rewrite Hu, (seen_later _ t Hx Ht), Hl in E2.
Qed.

(** ** The search, by the chain *)

(** From line pointer [a] the row at [x] is reached: past redirections and rows deleted for
    the snapshot, to a visible one. *)
Inductive finds (C : list slot) : Z → Z → Prop :=
| finds_here a bs : slot_at C a = Some (Stored LP_NORMAL bs) → visible (header_of bs) = true → finds C a a
| finds_redirect a b x l : slot_at C a = Some (Pointer LP_REDIRECT l) → link C a b → finds C b x → finds C a x
| finds_update a b x bs : slot_at C a = Some (Stored LP_NORMAL bs) → gone (header_of bs) = true →
    link C a b → finds C b x → finds C a x.

Lemma finds_unseen C a x bs :
  slot_at C a = Some (Stored LP_NORMAL bs) → readable (header_of bs) → seen (t_xmin (header_of bs)) = false → ¬ finds C a x.
Proof using.
  intros Hs Hr Hn Hf. destruct Hf as [a bs' Hs' Hv|a b x l Hs' _ _|a b x bs' Hs' Hg _ _].
  - assert (bs' = bs) as -> by congruence. unfold visible in Hv. by rewrite Hn in Hv.
  - congruence.
  - assert (bs' = bs) as -> by congruence. rewrite (rd_order _ Hr Hg) in Hn. done.
Qed.

(** Past a row that is deleted. *)
Lemma finds_gone C a b x bs :
  slot_at C a = Some (Stored LP_NORMAL bs) → gone (header_of bs) = true → link C a b → (finds C a x ↔ finds C b x).
Proof using.
  clear HW. intros Hs Hg Hl. split; [|by apply (finds_update C a b x bs)].
  intros Hf. destruct Hf as [a bs' Hs' Hv|a b' x l Hs' _ _|a b' x bs' Hs' Hg' Hl' Hf].
  - assert (bs' = bs) as -> by congruence. unfold visible in Hv. by rewrite Hg, andb_false_r in Hv.
  - congruence.
  - by rewrite (link_functional _ _ _ _ Hl Hl').
Qed.

(** Past a redirection. *)
Lemma finds_redirected C a b x l :
  slot_at C a = Some (Pointer LP_REDIRECT l) → link C a b → (finds C a x ↔ finds C b x).
Proof using.
  clear HW. intros Hs Hl. split; [|by apply (finds_redirect C a b x l)].
  intros Hf. destruct Hf as [a bs' Hs' Hv|a b' x l' Hs' Hl' Hf|a b' x bs' Hs' Hg' Hl' Hf]; [congruence| |congruence].
  by rewrite (link_functional _ _ _ _ Hl Hl').
Qed.

(** At the end of a chain. *)
Lemma finds_end C a x : (∀ b, ¬ link C a b) → finds C a x →
  x = a ∧ ∃ bs, slot_at C a = Some (Stored LP_NORMAL bs) ∧ visible (header_of bs) = true.
Proof using. clear HW. intros Hno Hf. inversion Hf; subst; [eauto|by exfalso; eapply Hno..]. Qed.

Lemma finds_functional C a x y : finds C a x → finds C a y → x = y.
Proof using.
  clear HW. intros Hf. revert y. induction Hf as [a bs Hs Hv|a b x l Hs Hl Hf IH|a b x bs Hs Hg Hl Hf IH]; intros y Hy.
  - destruct Hy as [a bs' Hs' Hv'|a b x l Hs' _ _|a b x bs' Hs' Hg _ _]; [done|congruence|].
    assert (bs' = bs) as -> by congruence. unfold visible in Hv. by rewrite Hg, andb_false_r in Hv.
  - apply IH. by apply (finds_redirected C a b y l).
  - apply IH. by apply (finds_gone C a b y bs).
Qed.
End View.

(** ** The search, as the code does it *)

Section Search.
Context (BLCKSZ : Z) (W : nat → XactEnv) `{HW : !XactHistory W} (sn : SnapshotData) (t0 : nat).
Context (blkno : Z) (RecentGlobalXmin : TransactionId) (p0 : PageData) (T0 : nat).
Abbreviation C0 := (contents p0).
Abbreviation stored off bs := (slot_at C0 off = Some (Stored LP_NORMAL bs)).
Context (Hheap : heap_ok blkno C0) (Ht0 : (t0 ≤ T0)%nat) (Hsn : snapshot_wf sn).
Context (Hread : ∀ off bs, stored off bs → readable W sn t0 (header_of bs)).
Abbreviation vis bs := (visible W sn t0 (header_of bs)).
Abbreviation finds0 := (finds W sn t0 C0).

Lemma mvcc_run s off bs :
  buf_ok BLCKSZ W p0 T0 s → slot_at (contents (b_page s)) off = Some (Stored LP_NORMAL bs) →
  ∃ s' bs', on_tuple (linp (pd_body (b_page s)) (off - 1)) sn (HeapTupleSatisfiesMVCC W) s = Ret (vis bs, s') ∧
    buf_ok BLCKSZ W p0 T0 s' ∧ same_tuple bs bs' ∧
    slot_at (contents (b_page s')) off = Some (Stored LP_NORMAL bs') ∧
    linp (pd_body (b_page s')) (off - 1) = linp (pd_body (b_page s)) (off - 1) ∧
    get_header (linp (pd_body (b_page s)) (off - 1)) s' = Ret (take 23 bs', s').
Proof using Hheap Ht0 Hsn Hread.
  intros Hb Hs. pose proof (slot_at_range _ _ _ Hs) as Hr. rewrite (hinted_length _ _ (bo_hinted _ _ _ _ _ Hb)) in Hr.
  destruct (buf_slot BLCKSZ W blkno p0 T0 Hheap s off Hb Hr) as (sl & Hsl & _ & Hlp & Hok & _).
  rewrite Hs in Hsl. injection Hsl as <-. destruct Hok as (_ & Hlen & Hmv & _).
  destruct (stored_current BLCKSZ W p0 T0 s off bs Hb Hs) as (bs0 & Hs0 & Hsame0).
  pose proof (readable_ext W sn t0 _ _ (same_header _ _ Hsame0) (Hread off bs0 Hs0)) as Hrd.
  pose proof (bo_clock _ _ _ _ _ Hb) as Hcl. destruct (bo_tuples _ _ _ _ _ Hb _ _ _ Hs) as [Hsd Hwf].
  destruct (on_tuple_spec BLCKSZ W (HeapTupleSatisfiesMVCC W) (λ e1 e2, mvcc_spec2 e1 e2 sn (header_of bs)) sn s off LP_NORMAL bs
    (bo_page _ _ _ _ _ Hb) Hs Hlen) as (r & s' & bs' & t1 & t2 & Hrun & -> & Ht1 & Ht2 & Hsame & Htok & Hlines & Hpwf & Hc).
  { apply wp_answers. apply (MVCC_wp W (mkV (b_clock s) (header_of bs) (b_save s) sn)); [by apply good_intro|done]. }
  destruct (buf_step BLCKSZ W blkno p0 T0 Hheap s s' off bs bs' Hb Hs ltac:(lia) Hsame Htok Hlines Hpwf Hc) as (Hb' & Hs' & Hget').
  exists s', bs'. split; [|split; [done|split; [done|split; [done|split; [|done]]]]].
  - rewrite Hrun. do 2 f_equal. rewrite (mvcc_stable W t0 t1 t2 sn (header_of bs)).
    + by apply (mvcc_visible W sn t0).
    + lia.
    + apply Hrd.
    + apply Hrd.
    + intros Hm. congruence.
  - destruct Hlines as [_ HL]. apply HL. pose proof (ok_lower _ _ (bo_page _ _ _ _ _ Hb)) as [Hnn _].
    pose proof (contents_length (b_page s) Hnn). rewrite (hinted_length _ _ (bo_hinted _ _ _ _ _ Hb)) in *. lia.
Qed.

(** From a row that is not visible the search goes on as the chain does. *)
Lemma pass_spec o bs c x :
  stored o bs → vis bs = false → HeapTupleHeaderIsHotUpdated bs = true → ctid_offset bs = c →
  finds0 o x ↔ link C0 o c ∧ finds0 c x.
Proof using Hheap Hread.
  clear Ht0 Hsn. intros Hs Hv Hhot Hc.
  assert (∀ b, link C0 o b → b = c) as Hlc by (intros b [? H _|? ? H _ E _ _]; congruence).
  destruct (gone W sn t0 (header_of bs)) eqn:Hg.
  - split.
    + intros Hf. assert (link C0 o c) as Hl.
      { inversion Hf; subst; [congruence|congruence|]. match goal with H : link C0 o ?b |- _ => by rewrite <- (Hlc b H) end. }
      split; [done|]. by apply (finds_gone W sn t0 C0 o c x bs).
    + intros [Hl Hf]. by apply (finds_gone W sn t0 C0 o c x bs).
  - assert (seen W sn t0 (t_xmin (header_of bs)) = false) as Hns.
    { unfold visible in Hv. rewrite Hg, andb_true_r in Hv. done. }
    split; [intros Hf; by destruct (finds_unseen W sn t0 C0 o x bs Hs (Hread _ _ Hs) Hns)|].
    intros [Hl Hf]. exfalso. destruct Hl as [? H _|bs' bsc H _ _ Hsc Hx]; [congruence|].
    assert (bs' = bs) as -> by congruence.
    destruct (ho_slot _ _ Hheap _ _ Hs) as (_ & _ & _ & _ & Hh). destruct (Hh Hhot) as (Hlk & Hmu & _).
    apply (finds_unseen W sn t0 C0 c x bsc Hsc (Hread _ _ Hsc)); [|done].
    rewrite Hx. unfold gone in Hg. by rewrite Hlk, Hmu in Hg.
Qed.

Lemma stop_spec s o bs0 bs x :
  buf_ok BLCKSZ W p0 T0 s → stored o bs0 → vis bs0 = false →
  slot_at (contents (b_page s)) o = Some (Stored LP_NORMAL bs) → HeapTupleHeaderIsHotUpdated bs = false → ¬ finds0 o x.
Proof using Hheap Ht0 Hread.
  clear Hsn. intros Hb Hs0 Hv Hs Hnh Hf. destruct (stored_current BLCKSZ W p0 T0 s o bs Hb Hs) as (bs1 & Hs1 & Hsame).
  assert (bs1 = bs0) as -> by congruence. destruct (view_ext W sn t0 _ _ (same_header _ _ Hsame)) as [Eg Ev].
  destruct (gone W sn t0 (header_of bs0)) eqn:Hg.
  - pose proof (ho_slot _ _ Hheap _ _ Hs0) as (_ & _ & Hmv & _).
    pose proof (hint_ext_bits _ _ (same_header _ _ Hsame)) as (_ & _ & Em & _).
    pose proof (bo_clock _ _ _ _ _ Hb).
    rewrite (gone_hints W sn t0 (b_clock s)) in Hnh; [|lia|by apply (bo_tuples _ _ _ _ _ Hb _ _ _ Hs)|congruence|
      apply (readable_ext W sn t0 _ _ (same_header _ _ Hsame)); by apply (Hread o)|done].
    destruct (same_tuple_fields _ _ Hsame) as (_ & _ & _ & _ & E2 & _). rewrite E2 in Hnh.
    destruct (finds_end W sn t0 C0 o x) as (_ & bs' & Hs' & Hv'); [|done|congruence].
    intros b [? Hb1 _|bs' ? Hb1 Hhot _ _ _]; [congruence|]. assert (bs' = bs0) as -> by congruence.
    rewrite hot_updated_eq, Hnh in Hhot. done.
  - apply (finds_unseen W sn t0 C0 o x bs0 Hs0 (Hread _ _ Hs0)); [|done].
    unfold visible in Hv. rewrite Hg, andb_true_r in Hv. done.
Qed.
(** [*all_dead] is brought up to date. *)
Lemma all_dead_run s o bs (ad : option bool) :
  buf_ok BLCKSZ W p0 T0 s → slot_at (contents (b_page s)) o = Some (Stored LP_NORMAL bs) →
  get_header (linp (pd_body (b_page s)) (o - 1)) s = Ret (take 23 bs, s) →
  ∃ ad' s' bs',
    match ad with
    | Some true =>
        verdict ← vacuum_verdict W RecentGlobalXmin (linp (pd_body (b_page s)) (o - 1));
        mret (Some (match verdict with HEAPTUPLE_DEAD => true | _ => false end))
    | _ => mret ad
    end s = Ret (ad', s') ∧
    buf_ok BLCKSZ W p0 T0 s' ∧ same_tuple bs bs' ∧ slot_at (contents (b_page s')) o = Some (Stored LP_NORMAL bs') ∧
    get_header (linp (pd_body (b_page s)) (o - 1)) s' = Ret (take 23 bs', s').
Proof using Hheap.
  intros Hb Hs Hget. destruct ad as [[|]|]; [|by exists (Some false), s, bs|by exists None, s, bs].
  destruct (verdict_run BLCKSZ W blkno RecentGlobalXmin p0 T0 Hheap s o bs Hb Hs)
    as (r & s' & bs' & Hrun & Hb' & _ & Hsame & Hs' & Hget' & _).
  rewrite (bind_Ret _ _ _ _ _ Hrun). by exists (Some (match r with HEAPTUPLE_DEAD => true | _ => false end)), s', bs'.
Qed.

Context (rank : Z → nat) (Hbound : ∀ off, (rank off < length C0)%nat) (Hrank : ∀ a b, link C0 a b → (rank a < rank b)%nat).

(** How the search has come to [o], what it has to find from there, and the fuel left. *)
Definition arrival (fuel : nat) (start : bool) (prior : TransactionId) (o : Z) (E : Z → Prop) : Prop :=
  (start = true ∧ prior = InvalidTransactionId ∧ (length C0 < fuel)%nat ∧ ∀ x, E x ↔ rootish p0 o ∧ finds0 o x) ∨
  (start = false ∧ ∃ a, (length C0 ≤ fuel + rank a)%nat ∧ (∀ x, E x ↔ link C0 a o ∧ finds0 o x) ∧
     ((slot_at C0 a = Some (Pointer LP_REDIRECT o) ∧ prior = InvalidTransactionId) ∨
      ∃ bs, stored a bs ∧ HeapTupleHeaderIsHotUpdated bs = true ∧ ctid_offset bs = o ∧ prior = t_xmax (header_of bs))).

(** The search stops where there is no row to come to. *)
Lemma arrival_none fuel start prior o E x :
  arrival fuel start prior o E →
  (start = true → ¬ rootish p0 o) → (∀ a, start = false → ¬ link C0 a o) → ¬ E x.
Proof using.
  intros [(Hst & _ & _ & HE)|(Hst & a & _ & HE & _)] H1 H2; rewrite HE; intros [? ?]; [by apply H1|by apply (H2 a)].
Qed.

(** A tuple that the checks accept. *)
Lemma arrival_tuple fuel start prior o E bs x :
  arrival fuel start prior o E → stored o bs → (start = true → HeapTupleHeaderIsHeapOnly bs = false) →
  (TransactionIdIsValid prior = true → t_xmin (header_of bs) = prior) →
  (E x ↔ finds0 o x) ∧ (length C0 < fuel + rank o)%nat.
Proof using Hheap Hrank.
  clear Ht0 Hsn Hread. intros Ha Hs Honly Hprior. destruct Ha as [(Hst & _ & Hroom & HE)|(Hst & a & Hroom & HE & Hc)]; rewrite HE.
  - split; [|lia]. split; [by intros [_ ?]|]. intros Hf. split; [|done]. right. exists bs. auto.
  - assert (link C0 a o) as Hl; [|by apply Hrank in Hl as Hlt; split; [split; [by intros [_ ?]|done]|lia]].
    destruct Hc as [[Hr _]|(bsa & Hsa & Hhot & Hc & Hp)].
    + by apply (link_redirect _ _ _ bs).
    + apply (link_update _ _ _ bsa bs); try done. rewrite <- Hp. apply Hprior.
      destruct (ho_slot _ _ Hheap _ _ Hsa) as (_ & _ & _ & Hx & Hh). destruct (Hh Hhot) as (Hlk & _).
      rewrite hot_updated_eq, !andb_true_iff, !negb_true_iff in Hhot. destruct Hhot as [[_ _] Hinv].
      specialize (Hx Hinv Hlk). rewrite <- Hp in Hx. clear -Hx. unfold TransactionIdIsNormal, TransactionIdIsValid in *.
      apply Z.leb_le in Hx. apply negb_true_iff, Z.eqb_neq. unfold FirstNormalTransactionId, InvalidTransactionId in *. lia.
Qed.

(** What [hot_search_loop] has to show, for one amount of fuel. *)
Definition search_goal (fuel : nat) : Prop := ∀ s o start prior ad E,
  buf_ok BLCKSZ W p0 T0 s → arrival fuel start prior o E →
  ∃ r ad' s', hot_search_loop W fuel blkno sn RecentGlobalXmin o start prior ad s = Ret ((r, ad'), s') ∧
    ∀ x, r = Some x ↔ E x.

(** The body of the loop for a tuple. *)
Lemma search_tuple_run fuel s o start prior (ad : option bool) E bs0 bs :
  search_goal fuel → buf_ok BLCKSZ W p0 T0 s → arrival (S fuel) start prior o E → stored o bs0 →
  slot_at (contents (b_page s)) o = Some (Stored LP_NORMAL bs) → (23 ≤ length bs)%nat → same_tuple bs0 bs →
  ∃ r ad' s',
    (htup ← get_header (linp (pd_body (b_page s)) (o - 1));
     if start && HeapTupleHeaderIsHeapOnly htup then mret (None, ad) else
     if TransactionIdIsValid prior && negb (TransactionIdEquals prior (t_xmin (header_of htup))) then mret (None, ad) else
     valid ← on_tuple (linp (pd_body (b_page s)) (o - 1)) sn (HeapTupleSatisfiesMVCC W);
     if valid : bool then mret (Some o, (λ _, false) <$> ad) else
     all_dead ← match ad with
                | Some true =>
                    verdict ← vacuum_verdict W RecentGlobalXmin (linp (pd_body (b_page s)) (o - 1));
                    mret (Some (match verdict with HEAPTUPLE_DEAD => true | _ => false end))
                | _ => mret ad
                end;
     htup ← get_header (linp (pd_body (b_page s)) (o - 1));
     if HeapTupleHeaderIsHotUpdated htup then
       if negb (ctid_block htup =? blkno) then broken else
       hot_search_loop W fuel blkno sn RecentGlobalXmin (ctid_offset htup) false (t_xmax (header_of htup)) all_dead
     else mret (None, all_dead)) s = Ret ((r, ad'), s') ∧ ∀ x, r = Some x ↔ E x.
Proof using Hheap Ht0 Hsn Hread Hbound Hrank.
  intros IH Hb Ha Hs0 Hs Hlen Hsame. destruct (same_tuple_fields _ _ Hsame) as (Emin & Emax & Ec & Eblk & _ & Eonly).
  rewrite (bind_Ret _ _ _ _ _ (get_header_spec BLCKSZ s o LP_NORMAL bs (bo_page _ _ _ _ _ Hb) Hs Hlen)).
  rewrite heap_only_take, header_of_take, Eonly, Emin.
  destruct (start && HeapTupleHeaderIsHeapOnly bs0) eqn:Hho.
  { apply andb_true_iff in Hho as [-> Hho]. exists None, ad, s. split; [done|]. intros x. split; [done|].
    intros Hx. exfalso. revert Hx. apply (arrival_none _ _ _ _ _ _ Ha); [|done].
    intros _ [[l Hl]|(bs' & Hs' & Hho')]; congruence. }
  destruct (TransactionIdIsValid prior && negb (TransactionIdEquals prior (t_xmin (header_of bs0)))) eqn:Hchk.
  { apply andb_true_iff in Hchk as [Hv Hx]. apply negb_true_iff, Z.eqb_neq in Hx.
    exists None, ad, s. split; [done|]. intros x. split; [done|]. intros HEx. exfalso.
    destruct Ha as [(_ & -> & _)|(_ & a & _ & HE & Hc)]; [done|]. apply HE in HEx as [Hl _].
    destruct Hc as [[_ ->]|(bsa & Hsa & _ & _ & ->)]; [done|].
    destruct Hl as [? Hr _|bsa' bso Hr _ _ Hso Hxx]; congruence. }
  assert (∀ x, (E x ↔ finds0 o x) ∧ (length C0 < S fuel + rank o)%nat) as HEr.
  { intros x. apply (arrival_tuple _ _ _ _ _ bs0 _ Ha Hs0).
    - intros ->. by destruct (HeapTupleHeaderIsHeapOnly bs0).
    - intros Hv. rewrite Hv in Hchk. apply negb_false_iff, Z.eqb_eq in Hchk. congruence. }
  pose proof (λ x, proj1 (HEr x)) as HE. destruct (HEr o) as [_ Hroom]. clear HEr.
  destruct (view_ext W sn t0 _ _ (same_header _ _ Hsame)) as [_ Evis].
  destruct (mvcc_run s o bs Hb Hs) as (s1 & bs1 & Hrun & Hb1 & Hsame1 & Hs1 & Hlp1 & Hget1).
  rewrite (bind_Ret _ _ _ _ _ Hrun). destruct (vis bs) eqn:Hv.
  { exists (Some o), ((λ _, false) <$> ad), s1. split; [done|]. intros x. rewrite HE.
    assert (finds0 o o) as Hoo by (apply (finds_here W sn t0 C0 o bs0 Hs0); congruence).
    split; [by intros [= <-]|]. intros Hf. f_equal. by apply (finds_functional W sn t0 C0 o). }
  destruct (all_dead_run s1 o bs1 ad Hb1 Hs1) as (ad2 & s2 & bs2 & Hrun2 & Hb2 & Hsame2 & Hs2 & Hget2).
  { by rewrite Hlp1. }
  rewrite Hlp1 in Hrun2, Hget2. rewrite (bind_Ret _ _ _ _ _ Hrun2), (bind_Ret _ _ _ _ _ Hget2).
  rewrite hot_take, ctid_block_take, ctid_offset_take, header_of_take.
  assert (same_tuple bs0 bs2) as Hsame02 by (by etransitivity; [|etransitivity]).
  destruct (same_tuple_fields _ _ Hsame02) as (_ & Emax2 & Ec2 & Eblk2 & _). assert (vis bs0 = false) as Hv0 by congruence.
  destruct (HeapTupleHeaderIsHotUpdated bs2) eqn:Hhot.
  - pose proof (same_tuple_hot _ _ Hsame02 Hhot) as Hhot0.
    destruct (ho_slot _ _ Hheap _ _ Hs0) as (_ & _ & _ & _ & Hh). destruct (Hh Hhot0) as (_ & _ & Hblk).
    rewrite Eblk2, Hblk, Z.eqb_refl. cbn [negb]. rewrite Ec2, Emax2.
    apply (IH s2 (ctid_offset bs0) false (t_xmax (header_of bs0)) ad2 E Hb2). right. split; [done|]. exists o.
    split; [lia|].
    split; [|right; by exists bs0]. intros x. rewrite HE. by apply (pass_spec o bs0).
  - exists None, ad2, s2. split; [done|]. intros x. split; [done|]. rewrite HE. intros Hf.
    by destruct (stop_spec s2 o bs0 bs2 x Hb2 Hs0 Hv0 Hs2 Hhot).
Qed.

Lemma search_loop_run fuel : search_goal fuel.
Proof using Hheap Ht0 Hsn Hread Hbound Hrank.
  induction fuel as [|fuel IH]; intros s o start prior ad E Hb Ha.
  { exfalso. destruct Ha as [(_ & _ & Hf & _)|(_ & a & Hf & _)]; [lia|]. specialize (Hbound a). lia. }
  cbn [hot_search_loop]. rewrite (bind_Ret _ _ s (b_page s) s) by (by destruct s).
  rewrite (buf_maxoff BLCKSZ W p0 T0 s Hb).
  assert (∀ ad, (∀ x, ¬ E x) → ∃ r ad' s', (mret (None, ad) : cmd buffer (option Z * option bool)) s = Ret ((r, ad'), s') ∧
    ∀ x, r = Some x ↔ E x) as Hnone.
  { intros ad' HE. exists None, ad', s. split; [done|]. intros x. split; [done|]. intros Hx. by destruct (HE x). }
  (* there is nothing to come to *)
  assert ((∀ bs, ¬ stored o bs) → (start = true → ¬ redirects p0 o) → ∀ x, ¬ E x) as Hnot.
  { intros Hns Hnr x. apply (arrival_none _ _ _ _ _ _ Ha).
    - intros Hst [Hr|(bs & Hs & _)]; [by apply Hnr|by apply (Hns bs)].
    - intros a _ [bs _ Hs|? bs _ _ _ Hs _]; by apply (Hns bs). }
  destruct ((o <? FirstOffsetNumber) || (Z.of_nat (length C0) <? o)) eqn:Hrange.
  { apply Hnone, Hnot.
    - intros bs Hs%slot_at_range. unfold FirstOffsetNumber in Hrange.
      apply orb_true_iff in Hrange as [?%Z.ltb_lt|?%Z.ltb_lt]; lia.
    - intros _ [l Hs%slot_at_range]. unfold FirstOffsetNumber in Hrange.
      apply orb_true_iff in Hrange as [?%Z.ltb_lt|?%Z.ltb_lt]; lia. }
  apply orb_false_iff in Hrange as [Hlo%Z.ltb_ge Hhi%Z.ltb_ge]. unfold FirstOffsetNumber in Hlo.
  destruct (buf_slot BLCKSZ W blkno p0 T0 Hheap s o Hb ltac:(lia)) as (sl & Hsl & Hget & Hlp & Hslok & sl0 & Hsl0 & Hhint).
  rewrite (bind_Ret _ _ _ _ _ Hget). destruct (linp_slot BLCKSZ _ _ _ (bo_page _ _ _ _ _ Hb) Hsl) as (_ & _ & Hkind).
  destruct sl as [|fl link0|fl bs].
  - (* unused *)
    unfold ItemIdIsNormal, ItemIdIsRedirected. rewrite Hkind. cbn [Z.eqb LP_NORMAL LP_REDIRECT LP_UNUSED negb andb].
    destruct sl0; try done. apply Hnone, Hnot; [intros ?; congruence|]. intros _ [? ?]. congruence.
  - (* a redirection or a dead line pointer *)
    destruct Hkind as (Hfl & Hnu & Hoff). destruct sl0 as [|fl0 l0|]; try done. simpl in Hhint. injection Hhint as -> ->.
    unfold ItemIdIsNormal, ItemIdIsRedirected. rewrite Hfl.
    destruct Hslok as [-> | ->]; cbn [Z.eqb LP_NORMAL LP_REDIRECT LP_DEAD negb andb Pos.eqb].
    2:{ apply Hnone, Hnot; [intros ?; congruence|]. intros _ [? Hq]. by rewrite Hsl0 in Hq. }
    destruct start; [|apply Hnone, Hnot; [intros ?; congruence|done]].
    unfold ItemIdGetRedirect. rewrite Hoff.
    apply (IH s l0 false prior ad E Hb). right. split; [done|]. exists o.
    destruct Ha as [(_ & -> & Hf & HE)|(Hst & _)]; [|done]. split; [lia|]. split; [|by left].
    intros x. rewrite HE. split.
    + intros [_ Hf']. assert (∃ b, link C0 o b) as [b Hl] by (inversion Hf'; subst; eauto; congruence).
      assert (b = l0) as -> by (destruct Hl; congruence). split; [done|].
      by apply (finds_redirected W sn t0 C0 o l0 x l0).
    + intros [Hl Hf']. split; [left; by exists l0|]. by apply (finds_redirected W sn t0 C0 o l0 x l0).
  - (* a tuple *)
    destruct Hslok as (-> & Hlen & Hslok). destruct Hkind as (Hfl & Hnu & Hst & _).
    unfold ItemIdIsNormal. rewrite Hfl. cbn [Z.eqb LP_NORMAL Pos.eqb negb].
    destruct sl0 as [| |fl0 bs0]; try done. destruct Hhint as [<- Hsame].
    by apply (search_tuple_run fuel s o start prior ad E bs0 bs IH).
Qed.
End Search.

(** The search from a line pointer: it returns what the chain says. *)
Lemma heap_hot_search_run BLCKSZ W `{HW : !XactHistory W} sn t0 blkno RecentGlobalXmin s o all_dead :
  page_wf BLCKSZ (b_page s) → heap_ok blkno (contents (b_page s)) →
  Z.of_nat (length (contents (b_page s))) ≤ MaxHeapTuplesPerPage BLCKSZ →
  (t0 ≤ b_clock s)%nat → snapshot_wf sn → TransactionIdIsValid RecentGlobalXmin = true →
  (∀ off fl bs, slot_at (contents (b_page s)) off = Some (Stored fl bs) →
     tuple_ok W (b_clock s) bs ∧ readable W sn t0 (header_of bs)) →
  ∃ r ad s', heap_hot_search_buffer BLCKSZ W blkno sn RecentGlobalXmin o all_dead s = Ret ((r, ad), s') ∧
    ∀ x, r = Some x ↔ rootish (b_page s) o ∧ finds W sn t0 (contents (b_page s)) o x.
Proof.
  intros Hok Hheap Hmax Ht Hsn Hrgx Htup. unfold heap_hot_search_buffer. rewrite Hrgx. cbn [negb].
  destruct (ho_rank _ _ Hheap) as (rank & Hbound & Hrank).
  apply (search_loop_run BLCKSZ W sn t0 blkno RecentGlobalXmin (b_page s) (b_clock s) Hheap Ht Hsn
    (λ off bs Hs, proj2 (Htup off _ bs Hs)) rank Hbound Hrank).
  - split; try done; try reflexivity. intros off fl bs Hs. by apply (Htup off fl).
  - left. split; [done|]. split; [done|]. split; [lia|done].
Qed.

(** ** Two backends *)

(** The pruner and the reader see the same transactions, multixacts and log. *)
Record same_world (W1 W2 : nat → XactEnv) `{H1 : !XactHistory W1} `{H2 : !XactHistory W2} : Prop := {
  sw_system : same_system W1 W2;
  sw_multi t m : env_MultiIsRunning (W2 t) m = env_MultiIsRunning (W1 t) m;
  sw_lsn t x : env_CommitLSN (W2 t) x = env_CommitLSN (W1 t) x;
  sw_flush t l : env_NeedsFlush (W2 t) l = env_NeedsFlush (W1 t) l }.

Section World.
Context (W1 W2 : nat → XactEnv) `{H1 : !XactHistory W1} `{H2 : !XactHistory W2} (HS : same_world W1 W2).

Lemma same_done t t' x st :
  (t ≤ t')%nat → started (W := W1) t x = true → xid_state (W1 t) x = st → st = Committed ∨ st = Aborted →
  xid_state (W2 t') x = st.
Proof using HS. apply (cross_state W1 W2), HS. Qed.

Lemma same_flushed t t' x : (t ≤ t')%nat → flushed_by W1 t x → flushed_by W2 t' x.
Proof using HS.
  intros Ht (t1 & t2 & H & Hc & Hf). exists t1, t2. rewrite (ss_commit _ _ (sw_system _ _ HS)), (sw_lsn _ _ HS), (sw_flush _ _ HS).
  split; [lia|done].
Qed.

(** What hint bits of a row that was not moved say to one backend they say to the other. *)
Lemma same_sound t t' h :
  (t ≤ t')%nat → is_set h HEAP_MOVED = false → wf_tuple W1 t h → sound W1 t h → sound W2 t' h.
Proof using HS.
  intros Ht [Ho Hi]%not_moved [Hmin Hmax _ _ _ _ _] [S1 S2 S3 S4].
  unfold just_xmin_c, just_xmin_i, just_xmax_c, just_xmax_i in *. rewrite Ho, Hi in *. split.
  - intros Hb. destruct (S1 Hb) as [Hc Hf]. unfold just_xmin_c. rewrite Ho, Hi.
    split; [apply (same_done t); auto|]. intros Hv. apply (same_flushed t); auto.
  - intros Hb. unfold just_xmin_i. rewrite Ho, Hi. apply (same_done t); auto.
  - intros Hb. specialize (S3 Hb). unfold just_xmax_c. destruct (is_set h HEAP_XMAX_IS_MULTI).
    + apply (h_multi t t'); [done|]. by rewrite (sw_multi _ _ HS).
    + destruct S3 as [Hc Hf]. split; [apply (same_done t); auto|]. intros Hl Hv. apply (same_flushed t); auto.
  - intros Hb. destruct (S4 Hb) as [Hd Hm]. unfold just_xmax_i, del in *. destruct (is_set h HEAP_XMAX_IS_MULTI).
    + split; [|done]. destruct (env_MultiIsRunning (W1 t) (t_xmax h)) eqn:E; [done|].
      rewrite <- (sw_multi _ _ HS) in E. by rewrite (h_multi t t' _ Ht E).
    + specialize (Hm eq_refl). destruct (xid_state (W1 t) (t_xmax h)) eqn:E; [done| | |].
      * by destruct (is_set h HEAP_IS_LOCKED).
      * rewrite (same_done t t' _ _ Ht Hmax E) by auto. by destruct (is_set h HEAP_IS_LOCKED).
      * by rewrite (same_done t t' _ _ Ht Hmax E) by auto.
Qed.

Context (sn : SnapshotData) (t0 : nat).

(** An insertion or deletion that failed is not seen. *)
Lemma aborted_unseen t x :
  started (W := W1) t x = true → xid_state (W1 t) x = Aborted → seen W2 sn t0 x = false.
Proof using HS.
  intros Hst Hab. destruct (seen W2 sn t0 x) eqn:E; [|done]. exfalso.
  pose proof (seen_later W2 sn t0 x (Nat.max t t0) E ltac:(lia)) as Hc.
  rewrite (same_done t (Nat.max t t0) x Aborted) in Hc; auto; [done|lia].
Qed.

(** A deletion that committed before the horizon is seen. *)
Lemma deleted_gone t h :
  started (W := W1) t (t_xmax h) = true → del (W1 t) h = DGone → readable W2 sn t0 h →
  in_snapshot (W2 t0) sn (t_xmax h) = false → gone W2 sn t0 h = true.
Proof using HS.
  intros Hst Hd [_ Hcur _ Hcov _] Hin. unfold del in Hd. unfold gone.
  destruct (is_set h HEAP_XMAX_IS_MULTI); [by destruct (env_MultiIsRunning _ _)|].
  destruct (xid_state (W1 t) (t_xmax h)) eqn:E; [by destruct (is_set h HEAP_IS_LOCKED)..| |done].
  destruct (is_set h HEAP_IS_LOCKED); [done|]. cbn [negb andb].
  unfold seen. rewrite Hin. rewrite andb_true_r. apply bool_decide_eq_true.
  specialize (Hcov Hcur). destruct (started t0 (t_xmax h)) eqn:Hs0; [|rewrite Hcov in Hin; auto; done].
  destruct (env_IsInProgress (W2 t0) (t_xmax h)) eqn:Hp; [rewrite Hcov in Hin; auto; done|].
  pose proof (same_done t (Nat.max t t0) (t_xmax h) Committed ltac:(lia) Hst E (or_introl eq_refl)) as Hc.
  assert (xid_state (W2 t0) (t_xmax h) = Committed ∨ xid_state (W2 t0) (t_xmax h) = Aborted) as [?|Hab]; [|done|].
  - unfold xid_state. rewrite (h_current t0), Hcur, Hp. destruct (env_DidCommit _ _); auto.
  - rewrite (xid_state_done W2 t0 (Nat.max t t0) _ Aborted) in Hc; auto; [done|lia].
Qed.
End World.

(** ** The chains before and after a prune *)

Section Compare.
Context {BLCKSZ : Z} {W1 W2 : nat → XactEnv} `{H1 : !XactHistory W1} `{H2 : !XactHistory W2}.
Context (HS : same_world W1 W2) {OldestXmin : TransactionId} {s s' : buffer} {C1 : list slot} {prs : PruneState}.
Context (Hrun : prune_run BLCKSZ W1 OldestXmin s s' C1 prs) {blkno : Z}.
Abbreviation C := (contents (b_page s)).
Abbreviation C' := (contents (b_page s')).
Abbreviation stored off bs := (slot_at C off = Some (Stored LP_NORMAL bs)).
Context (Hheap : heap_ok blkno C) (sn : SnapshotData) (t0 : nat).
Context (Hpruner : ∀ off fl bs, slot_at C off = Some (Stored fl bs) → tuple_ok W1 (b_clock s) bs).
Context (Hread : ∀ off bs, stored off bs → readable W2 sn t0 (header_of bs)).
Context (Hhorizon : ∀ off bs, stored off bs → TransactionIdPrecedes (t_xmax (header_of bs)) OldestXmin = true →
  in_snapshot (W2 t0) sn (t_xmax (header_of bs)) = false).
Abbreviation dead v off := (found W1 OldestXmin (b_page s) (b_clock s) (b_clock s') v off).
Abbreviation failed off := (aborted W1 (b_page s) (b_clock s) (b_clock s') off).
Abbreviation finds_ C := (finds W2 sn t0 C).
Abbreviation unseen bs := (seen W2 sn t0 (t_xmin (header_of bs)) = false).
Abbreviation gone_ bs := (gone W2 sn t0 (header_of bs) = true).

Lemma started_at off bs t : stored off bs → (b_clock s ≤ t)%nat →
  started (W := W1) t (t_xmin (header_of bs)) = true ∧ started (W := W1) t (t_xmax (header_of bs)) = true.
Proof using Hpruner.
  intros Hs Ht. destruct (Hpruner _ _ _ Hs) as [_ Hw].
  split; (eapply h_started; [exact Ht|]); [apply (wf_xmin _ _ _ Hw)|apply (wf_xmax _ _ _ Hw)].
Qed.

Lemma failed_unseen off bs : failed off → stored off bs → unseen bs.
Proof using HS Hpruner.
  intros (bs' & t1 & Hs' & Ht & Hab) Hs. assert (bs' = bs) as -> by congruence.
  destruct (started_at off bs t1 Hs ltac:(lia)) as [Hst _]. by apply (aborted_unseen W1 W2 HS sn t0 t1).
Qed.

(** A dead row was inserted in vain or is deleted for the snapshot. *)
Lemma dead_view off bs : dead HEAPTUPLE_DEAD off → stored off bs → failed off ∨ gone_ bs.
Proof using HS Hheap Hpruner Hread Hhorizon.
  intros (bs' & t1 & t2 & Hs' & Ht1 & Ht2 & Hv) Hs. assert (bs' = bs) as -> by congruence.
  destruct (ho_slot _ _ Hheap _ _ Hs) as (_ & _ & Hmv & _).
  destruct (dead_cases _ _ _ _ Hmv Hv) as [Hab|(_ & Hd & Hp)].
  - left. exists bs, t1. split; [done|]. split; [lia|done].
  - right. destruct (started_at off bs t2 Hs ltac:(lia)) as [_ Hst].
    apply (deleted_gone W1 W2 HS sn t0 t2); auto; [by apply (Hread off)|by apply (Hhorizon off)].
Qed.

(** A row that the prune passes was inserted in vain or its deletion has committed. *)
Lemma passed_view off bs :
  passed W1 OldestXmin (b_page s) (b_clock s) (b_clock s') off → stored off bs →
  failed off ∨ ∃ t, (b_clock s ≤ t)%nat ∧ del (W1 t) (header_of bs) = DGone.
Proof using Hheap.
  clear Hpruner Hread Hhorizon.
  intros [[l Hl]|[(bs' & t1 & t2 & Hs' & Ht1 & Ht2 & Hv)|(bs' & t1 & t2 & Hs' & Ht1 & Ht2 & Hv)]] Hs; [congruence|..];
    assert (bs' = bs) as -> by congruence; destruct (ho_slot _ _ Hheap _ _ Hs) as (_ & _ & Hmv & _).
  - destruct (dead_cases _ _ _ _ Hmv Hv) as [Hab|(_ & Hd & Hp)].
    + left. exists bs, t1. split; [done|]. split; [lia|done].
    + right. exists t2. split; [lia|done].
  - destruct (recent_cases _ _ _ _ Hmv Hv) as [_ Hd]. right. exists t2. split; [lia|done].
Qed.

(** The way to a dead row: all rows on it were inserted in vain, or all are deleted. *)
Lemma path_view : ∀ l d, path C (l ++ [d]) →
  Forall (passed W1 OldestXmin (b_page s) (b_clock s) (b_clock s')) l → dead HEAPTUPLE_DEAD d →
  (∀ y bs, y ∈ l ++ [d] → stored y bs → failed y) ∨ (∀ y bs, y ∈ l ++ [d] → stored y bs → gone_ bs).
Proof using HS Hrun Hheap Hpruner Hread Hhorizon.
  induction l as [|a l IH]; intros d Hp Hl Hd.
  - destruct Hd as (bs & Hd'). pose proof Hd' as (t1 & t2 & Hs & _). simpl.
    destruct (dead_view d bs) as [?|?]; [by exists bs|done|left|right];
      intros y bs' ->%list_elem_of_singleton Hs'; [done|congruence].
  - apply Forall_cons in Hl as [Ha Hl]. destruct Hp as [Hlk Hp]. specialize (IH d Hp Hl Hd).
    destruct (l ++ [d]) as [|b m] eqn:Em; [by destruct l|]. cbn [app]. rewrite Em.
    assert (∀ y, y ∈ a :: b :: m → y = a ∨ y ∈ b :: m) as Hin by (intros y; by rewrite elem_of_cons).
    destruct Hlk as [bsb Hra Hsb|bsa bsb Hsa Hhot Hc Hsb Hx].
    + destruct IH as [IH|IH]; [left|right]; intros y bs [->|Hy]%Hin Hs; try congruence; eauto.
    + destruct (ho_slot _ _ Hheap _ _ Hsa) as (_ & _ & _ & _ & Hh). destruct (Hh Hhot) as (Hlk & Hmu & _).
      destruct IH as [IH|IH].
      * left. intros y bs [->|Hy]%Hin Hs; [|eauto]. assert (bs = bsa) as -> by congruence.
        destruct (passed_view a bsa Ha Hsa) as [?|(t & Ht & Hdel)]; [done|]. exfalso.
        destruct (IH b bsb ltac:(set_solver) Hsb) as (bs' & t1 & Hs' & Ht1 & Hab). assert (bs' = bsb) as -> by congruence.
        rewrite Hx in Hab. unfold del in Hdel. rewrite Hmu in Hdel.
        destruct (xid_state (W1 t) (t_xmax (header_of bsa))) eqn:E; rewrite ?Hlk in Hdel; try done.
        destruct (started_at a bsa t Hsa Ht) as [_ Hst]. destruct (started_at a bsa t1 Hsa ltac:(lia)) as [_ Hst1].
        apply (xid_state_done W1 t (Nat.max t t1)) in E; [|lia|done|auto].
        apply (xid_state_done W1 t1 (Nat.max t t1)) in Hab; [|lia|done|auto]. congruence.
      * right. intros y bs [->|Hy]%Hin Hs; [|eauto]. assert (bs = bsa) as -> by congruence.
        pose proof (IH b bsb ltac:(set_solver) Hsb) as Hgb. pose proof (rd_order _ _ _ _ (Hread b bsb Hsb) Hgb) as Hsn.
        rewrite Hx in Hsn. unfold gone. by rewrite Hmu, Hlk, Hsn.
Qed.

(** Past deleted rows the search goes on to the end of the path. *)
Lemma finds_path x c : ∀ l r, path C (l ++ [c]) → (∀ y bs, y ∈ l → stored y bs → gone_ bs) →
  list.head (l ++ [c]) = Some r → (finds_ C r x ↔ finds_ C c x).
Proof using.
  clear. induction l as [|a l IH]; intros r Hp Hg [= ->]; [done|]. destruct Hp as [Hlk Hp].
  destruct (l ++ [c]) as [|b m] eqn:Em; [by destruct l|].
  rewrite <- (IH b); [|done|intros y bs Hy; apply Hg; set_solver|done].
  destruct Hlk as [bsb Hra Hsb|bsa bsb Hsa Hhot Hc Hsb Hx].
  - apply (finds_redirected W2 sn t0 C r b x b); [done|]. by eapply link_redirect.
  - apply (finds_gone W2 sn t0 C r b x bsa); [done|apply (Hg r); [set_solver|done]|]. by eapply link_update.
Qed.

Lemma failed_none off bs x : failed off → stored off bs → ¬ finds_ C off x.
Proof using HS Hpruner Hread.
  intros Hf Hs. apply (finds_unseen W2 sn t0 C off x bs Hs (Hread _ _ Hs)). by apply (failed_unseen off).
Qed.

Lemma lone_none off x : lone W1 OldestXmin (b_page s) (b_clock s) (b_clock s') off → ¬ finds_ C off x.
Proof using HS Hheap Hpruner Hread Hhorizon.
  intros [Hd Hl]. pose proof Hd as (bs & _ & _ & Hs & _).
  destruct (dead_view off bs Hd Hs) as [Hf|Hg]; [by eapply failed_none|].
  destruct Hl as [Hno|Hf]; [|by eapply failed_none]. intros Hx.
  destruct (finds_end W2 sn t0 C off x Hno Hx) as (_ & bs' & Hs' & Hv). assert (bs' = bs) as -> by congruence.
  unfold visible in Hv. by rewrite Hg, andb_false_r in Hv.
Qed.

(** Where the path starts when all rows on it were inserted in vain. *)
Lemma failed_path l d r x :
  path C (l ++ [d]) → list.head (l ++ [d]) = Some r → (∀ y bs, y ∈ l ++ [d] → stored y bs → failed y) →
  dead HEAPTUPLE_DEAD d → ¬ finds_ C r x.
Proof using HS Hrun Hheap Hpruner Hread Hhorizon.
  intros Hp Hhd Hf (bsd & _ & _ & Hsd & _) Hx. destruct l as [|a l]; simpl in Hhd; injection Hhd as ->.
  - apply (failed_none r bsd x); [|done..]. apply (Hf r bsd); set_solver.
  - destruct Hp as [Hlk _]. destruct (l ++ [d]) as [|b m] eqn:Em; [by destruct l|].
    destruct Hlk as [bsb Hra Hsb|bsa bsb Hsa _ _ _ _].
    + assert (finds_ C b x) as Hxb.
      { apply (finds_redirected W2 sn t0 C r b x b); [done| |done]. by eapply link_redirect. }
      apply (failed_none b bsb x); [|done..]. apply (Hf b bsb); [|done]. cbn [app]. rewrite Em. set_solver.
    + apply (failed_none r bsa x); [|done..]. apply (Hf r bsa); [|done]. set_solver.
Qed.

(** A root that is redirected. *)
Lemma redirected_view r c x : (r, c) ∈ redirected prs → (finds_ C r x ↔ finds_ C c x).
Proof using HS Hrun Hheap Hpruner Hread Hhorizon.
  intros Hrc. destruct (po_redirected _ _ _ _ _ _ (run_plan _ _ _ _ _ _ _ Hrun) _ _ Hrc) as (_ & l & d & Hp & Hhd & Hl & Hd & _).
  pose proof (path_middle _ _ _ _ _ Hp) as Hlk. change [d; c] with ([d] ++ [c]) in Hp. rewrite app_assoc in Hp.
  pose proof (proj1 (path_app _ _ _ Hp)) as Hpd. destruct (path_view l d Hpd Hl Hd) as [Hf|Hg].
  - split; [intros Hx; by destruct (failed_path l d r x Hpd Hhd Hf Hd)|]. intros Hx. exfalso.
    destruct Hd as (bsd & _ & _ & Hsd & _). destruct Hlk as [? Hbad _|bsd' bsc Hsd' Hhot _ Hsc Hxm]; [congruence|].
    assert (bsd' = bsd) as -> by congruence.
    apply (finds_unseen W2 sn t0 C c x bsc Hsc (Hread _ _ Hsc)); [|done].
    destruct (ho_slot _ _ Hheap _ _ Hsd) as (_ & _ & _ & _ & Hh). destruct (Hh Hhot) as (Hlk & Hmu & _).
    pose proof (failed_unseen d bsd (Hf d bsd ltac:(set_solver) Hsd) Hsd) as Hun. rewrite Hxm.
    destruct (seen W2 sn t0 (t_xmax (header_of bsd))) eqn:E; [|done]. rewrite <- Hun. symmetry.
    apply (rd_order _ _ _ _ (Hread d bsd Hsd)). unfold gone. by rewrite Hmu, Hlk, E.
  - apply (finds_path x c (l ++ [d]) r Hp Hg). by destruct l.
Qed.

(** A root that is dead. *)
Lemma dead_root_view r x : r ∈ nowdead prs → ¬ finds_ C r x.
Proof using HS Hrun Hheap Hpruner Hread Hhorizon.
  intros Hr Hx. destruct (po_dead _ _ _ _ _ _ (run_plan _ _ _ _ _ _ _ Hrun) _ Hr) as (_ & l & d & Hp & Hhd & Hl & Hd & Hcl).
  assert (∀ b, link C d b → ¬ finds_ C b x ∨ failed d) as Hnext.
  { intros b Hlk. destruct Hcl as [?|Hcl]; [by right|left]. destruct (Hcl b Hlk) as [_ Hlone]. by apply lone_none. }
  destruct Hd as [[t Hrd]|Hd].
  - assert (l = []) as ->.
    { destruct l as [|a l _] using rev_ind; [done|]. rewrite <- app_assoc in Hp. apply path_middle in Hp.
      exfalso. destruct Hp as [? _ Hbad|? ? _ _ _ Hbad _]; congruence. }
    simpl in Hhd. injection Hhd as ->. inversion Hx as [? bs Hs _|? b ? ? _ Hlk Hxb|? b ? bs Hs _ _ _]; subst; try congruence.
    destruct (Hnext b Hlk) as [?|(bs & _ & Hs & _)]; [done|congruence].
  - destruct (path_view l d Hp Hl Hd) as [Hf|Hg]; [by destruct (failed_path l d r x Hp Hhd Hf Hd)|].
    apply (finds_path x d l r Hp) in Hx; [|intros y bs Hy; apply Hg; set_solver|done].
    pose proof Hd as (bsd & _ & _ & Hsd & _). pose proof (Hg d bsd ltac:(set_solver) Hsd) as Hgd.
    inversion Hx as [? bs Hs Hv|? b ? ? Hbad _ _|? b ? bs Hs _ Hlk Hxb]; subst; [|congruence|].
    + assert (bs = bsd) as -> by congruence. unfold visible in Hv. by rewrite Hgd, andb_false_r in Hv.
    + destruct (Hnext b Hlk) as [?|Hfd]; [done|]. by apply (failed_none d bsd x Hfd Hsd).
Qed.

(** What follows a line pointer that is kept is kept, or of no interest to the reader. *)
Lemma kept_successor a b x : a ∉ sources prs → link C a b → b ∈ sources prs → ¬ finds_ C b x.
Proof using HS Hrun Hheap Hpruner Hread Hhorizon.
  intros Ha Hlk Hb. assert (∃ bs, stored b bs) as [bs Hs] by (destruct Hlk; eauto).
  pose proof (ho_only _ _ Hheap a b bs Hlk Hs) as Honly. pose proof (run_plan _ _ _ _ _ _ _ Hrun) as Hplan.
  assert (¬ rootish (b_page s) b) as Hnr by (intros [[l Hl]|(bs' & Hs' & Ho)]; congruence).
  unfold sources in Hb. rewrite !elem_of_app in Hb. destruct Hb as [Hb|[Hb|((r & c) & -> & Hb)%list_elem_of_fmap]].
  - destruct (po_unused _ _ _ _ _ _ Hplan _ Hb) as [_ [Hl|(_ & a' & Hlk' & Ha')]]; [by apply lone_none|].
    by rewrite (ho_parent _ _ Hheap _ _ _ Hlk Hlk') in Ha.
  - by destruct (po_dead _ _ _ _ _ _ Hplan _ Hb).
  - by destruct (po_redirected _ _ _ _ _ _ Hplan _ _ Hb).
Qed.

(** The reader may look at the page from [c1] on, and looks at the pruned page at [c2]. *)
Context (c1 c2 : nat) (Hc1 : (t0 ≤ c1 ≤ c2)%nat) (Hc2 : (b_clock s' ≤ c2)%nat).
Context (Hreader : ∀ off fl bs, slot_at C off = Some (Stored fl bs) → tuple_ok W2 c1 bs).

Lemma after_tuples off fl bs' : slot_at C' off = Some (Stored fl bs') → tuple_ok W2 c2 bs' ∧ readable W2 sn t0 (header_of bs').
Proof using HS Hrun Hheap Hread Hc1 Hc2 Hreader.
  clear Hpruner Hhorizon. intros Hs'. destruct (pruned_stored Hrun _ _ _ Hs') as (_ & Hs1 & bs & Hs & Hsame).
  destruct (ho_slot _ _ Hheap _ _ Hs) as (-> & _ & Hmv & _). pose proof (same_header _ _ Hsame) as He.
  split; [split|by apply (readable_ext W2 sn t0 _ _ He), (Hread off)].
  - destruct (run_tuples _ _ _ _ _ _ _ Hrun _ _ _ Hs1) as [Hsd Hwf].
    apply (same_sound W1 W2 HS (b_clock s') c2); try done.
    pose proof (hint_ext_bits _ _ He) as (_ & _ & -> & _). done.
  - apply (wf_ext W2 c1 c2 _ _ He); [lia|]. apply (Hreader off _ bs Hs).
Qed.

(** A line pointer that is kept. *)
Lemma kept_at o : o ∉ sources prs → slot_at C' o = slot_at C1 o.
Proof using Hrun. intros Ho. apply (pr_kept _ _ _ (run_pruned _ _ _ _ _ _ _ Hrun) _ Ho). Qed.

Lemma kept_stored o bs : o ∉ sources prs → stored o bs →
  ∃ bs', slot_at C' o = Some (Stored LP_NORMAL bs') ∧ same_tuple bs bs'.
Proof using Hrun.
  intros Ho Hs. rewrite kept_at by done.
  destruct (hinted_at _ _ _ _ (run_hinted _ _ _ _ _ _ _ Hrun) Hs) as (sl & Hsl & Hh). destruct sl as [| |fl bs']; try done.
  destruct Hh as [-> Hh]. by exists bs'.
Qed.

Lemma kept_pointer o fl l : o ∉ sources prs → (slot_at C' o = Some (Pointer fl l) ↔ slot_at C o = Some (Pointer fl l)).
Proof using Hrun.
  intros Ho. rewrite kept_at by done. split; intros Hs; [by apply (hinted_pointer _ _ _ _ _ (run_hinted _ _ _ _ _ _ _ Hrun) Hs)|].
  destruct (hinted_at _ _ _ _ (run_hinted _ _ _ _ _ _ _ Hrun) Hs) as (sl & Hsl & Hh). destruct sl; try done. congruence.
Qed.

Lemma kept_finds o x : finds_ C o x → o ∉ sources prs → finds_ C' o x.
Proof using HS Hrun Hheap Hpruner Hread Hhorizon Hc1 Hc2 Hreader.
  induction 1 as [a bs Hs Hv|a b x l Hs Hl Hf IH|a b x bs Hs Hg Hl Hf IH]; intros Ho.
  - destruct (kept_stored a bs Ho Hs) as (bs' & Hs' & Hsame). apply (finds_here W2 sn t0 C' a bs' Hs').
    by rewrite (proj2 (view_ext W2 sn t0 _ _ (same_header _ _ Hsame))).
  - destruct (decide (b ∈ sources prs)) as [Hb|Hb]; [by destruct (kept_successor a b x Ho Hl Hb)|].
    apply (kept_pointer a LP_REDIRECT l Ho) in Hs as Hs'. apply (finds_redirect W2 sn t0 C' a b x l Hs'); [|by apply IH].
    destruct Hl as [bsb Hra Hsb|? ? ? _ _ _ _]; [|congruence]. destruct (kept_stored b bsb Hb Hsb) as (bsb' & Hsb' & _).
    apply (link_redirect _ _ _ bsb'); [|done]. by apply kept_pointer.
  - destruct (decide (b ∈ sources prs)) as [Hb|Hb]; [by destruct (kept_successor a b x Ho Hl Hb)|].
    destruct (kept_stored a bs Ho Hs) as (bs' & Hs' & Hsame). destruct (view_ext W2 sn t0 _ _ (same_header _ _ Hsame)) as [Eg _].
    apply (finds_update W2 sn t0 C' a b x bs' Hs'); [congruence| |by apply IH].
    destruct Hl as [? ? _|bsa bsb Hsa Hhot Hc Hsb Hx]; [congruence|]. assert (bsa = bs) as -> by congruence.
    destruct (kept_stored b bsb Hb Hsb) as (bsb' & Hsb' & Hsameb).
    destruct (same_tuple_fields _ _ Hsame) as (_ & Emax & Ec & _ & Em2 & _). destruct (same_tuple_fields _ _ Hsameb) as (Emin & _).
    apply (link_update _ _ _ bs' bsb'); try congruence. destruct (after_tuples _ _ _ Hs') as [Htok Hrd].
    destruct (ho_slot _ _ Hheap _ _ Hs) as (_ & _ & Hmv & _).
    rewrite (gone_hints W2 sn t0 c2); [|lia|done| |done|congruence].
    + rewrite Em2. rewrite hot_updated_eq, !andb_true_iff in Hhot. tauto.
    + pose proof (hint_ext_bits _ _ (same_header _ _ Hsame)) as (_ & _ & -> & _). done.
Qed.

Lemma finds_kept o x : finds_ C' o x → o ∉ sources prs → finds_ C o x.
Proof using Hrun.
  clear Hc1 Hc2. induction 1 as [a bs Hs Hv|a b x l Hs Hl Hf IH|a b x bs Hs Hg Hl Hf IH]; intros Ho.
  - destruct (pruned_stored Hrun _ _ _ Hs) as (_ & _ & bs0 & Hs0 & Hsame). apply (finds_here W2 sn t0 C a bs0 Hs0).
    by rewrite <- (proj2 (view_ext W2 sn t0 _ _ (same_header _ _ Hsame))).
  - destruct (pruned_link Hrun a b Hl) as [Hb [[_ Hl0]|Hr]].
    + apply (finds_redirect W2 sn t0 C a b x l); [by apply kept_pointer|done|by apply IH].
    + exfalso. apply Ho. unfold sources. rewrite !elem_of_app. right. right. apply list_elem_of_fmap. by exists (a, b).
  - destruct (pruned_stored Hrun _ _ _ Hs) as (_ & _ & bs0 & Hs0 & Hsame).
    destruct (pruned_link Hrun a b Hl) as [Hb [[_ Hl0]|Hr]].
    + apply (finds_update W2 sn t0 C a b x bs0); [done| |done|by apply IH].
      by rewrite <- (proj1 (view_ext W2 sn t0 _ _ (same_header _ _ Hsame))).
    + exfalso. apply Ho. unfold sources. rewrite !elem_of_app. right. right. apply list_elem_of_fmap. by exists (a, b).
Qed.

(** From every line pointer the same row is found before and after. *)
Lemma prune_finds o x :
  rootish (b_page s) o ∧ finds_ C o x ↔ rootish (b_page s') o ∧ finds_ C' o x.
Proof using HS Hrun Hheap Hpruner Hread Hhorizon Hc1 Hc2 Hreader.
  pose proof (run_pruned _ _ _ _ _ _ _ Hrun) as Hp. pose proof (run_plan _ _ _ _ _ _ _ Hrun) as Hplan.
  destruct (decide (o ∈ sources prs)) as [Ho|Ho].
  - unfold sources in Ho. rewrite !elem_of_app in Ho. destruct Ho as [Ho|[Ho|((r & c) & -> & Ho)%list_elem_of_fmap]].
    + split; intros [Hr _]; exfalso.
      * destruct (po_unused _ _ _ _ _ _ Hplan _ Ho) as [(bs & Hs & Honly) _].
        destruct Hr as [[l Hl]|(bs' & Hs' & Ho')]; congruence.
      * pose proof (pr_unused _ _ _ Hp _ Ho). destruct Hr as [[l Hl]|(bs' & Hs' & Ho')]; congruence.
    + split; [intros [_ Hx]; by destruct (dead_root_view o x Ho)|]. intros [Hr _]. exfalso.
      pose proof (pr_dead _ _ _ Hp _ Ho) as Hd. destruct Hr as [[l Hl]|(bs' & Hs' & Ho')]; [by rewrite Hd in Hl|congruence].
    + simpl. pose proof (pr_redirected _ _ _ Hp _ _ Ho) as Hr'. pose proof (redirected_target Hrun _ _ Ho) as Hc.
      destruct (po_redirected _ _ _ _ _ _ Hplan _ _ Ho) as (Hroot & l & d & Hpath & _).
      assert (∃ bs, stored c bs) as [bs Hs] by (apply path_middle in Hpath as Hlk; destruct Hlk; eauto).
      destruct (kept_stored c bs Hc Hs) as (bs' & Hs' & _). rewrite (redirected_view r c x Ho).
      assert (link C' r c) as Hlk by (by eapply link_redirect).
      rewrite (finds_redirected W2 sn t0 C' r c x c Hr' Hlk). split; intros [_ Hx].
      * split; [left; by exists c|]. by apply kept_finds.
      * split; [done|]. by apply finds_kept.
  - assert (rootish (b_page s) o ↔ rootish (b_page s') o) as ->.
    { unfold rootish, redirects. f_equiv.
      - split; intros [l Hl]; exists l; by apply (kept_pointer o).
      - split.
        + intros (bs & Hs & Honly). destruct (kept_stored o bs Ho Hs) as (bs' & Hs' & Hsame). exists bs'. split; [done|].
          destruct (same_tuple_fields _ _ Hsame) as (_ & _ & _ & _ & _ & ->). done.
        + intros (bs' & Hs' & Honly). destruct (pruned_stored Hrun _ _ _ Hs') as (_ & _ & bs & Hs & Hsame). exists bs.
          split; [done|]. destruct (same_tuple_fields _ _ Hsame) as (_ & _ & _ & _ & _ & <-). done. }
    split; intros [? ?]; (split; [done|]); [by apply kept_finds|by apply finds_kept].
Qed.
End Compare.


(** ** An example *)

(** The buffer of [PruneSpec] after the prune. *)
Definition pruned_buffer : buffer :=
  match heap_page_prune 1024 bystander 0 101 None hot_buffer with Ret (_, s') => s' | _ => hot_buffer end.

Lemma bystander_world : same_world bystander ex_env.
Proof. by split. Qed.

