(* ===== verification/Numeric.v ===== *)
(** * Numeric: [backend/utils/adt/numeric.c]

    Numbers of arbitrary precision: the variables that the arithmetic works on, addition,
    subtraction, comparison, multiplication, division, rounding and truncation, and the packed
    format on disk, with the SQL operators on it.

    A variable is a sequence of digits of base 10000 in a buffer; [nv_before] is the part of the
    buffer before the first digit, with the spare digit that a carry may need, and what
    lies behind the last digit is never read.  A routine that fills a new buffer from the last
    digit to the first builds its list in that order.  The result of a routine may be one of its
    operands: they are read before it is written, so routines return it.  The accumulators of
    the multiplication are kept at their width and wrap around, as the server is compiled
    for it; counts, weights and scales are far from the limits of an int.  A failed
    assertion is undefined.

    Text, declared precision and integers are in [NumericConv], hashing in [NumericHash], the binary format in
    [NumericWire].  Not modelled: conversions to and from floating point, roots, logarithms,
    powers, the fast division that they use, aggregates and statistics.  The specifications and
    theorems are in [NumericSpec], [NumericMul], [NumericDiv] and [NumericOps]. *)

From S2P Require Import Prelude Int.

Definition NBASE : Z := 10000.
Definition HALF_NBASE : Z := 5000.
Definition DEC_DIGITS : Z := 4.
Definition MUL_GUARD_DIGITS : Z := 2.

Definition NUMERIC_SIGN_MASK : Z := 0xC000.
Definition NUMERIC_POS : Z := 0x0000.
Definition NUMERIC_NEG : Z := 0x4000.
Definition NUMERIC_SHORT : Z := 0x8000.
Definition NUMERIC_NAN : Z := 0xC000.

Definition NUMERIC_MAX_PRECISION : Z := 1000.
Definition NUMERIC_MAX_DISPLAY_SCALE : Z := NUMERIC_MAX_PRECISION.
Definition NUMERIC_MIN_DISPLAY_SCALE : Z := 0.
Definition NUMERIC_MAX_RESULT_SCALE : Z := NUMERIC_MAX_PRECISION * 2.
Definition NUMERIC_MIN_SIG_DIGITS : Z := 16.

(** ** Variables *)

Record NumericVar := mkVar {
  nv_before : list Z;
  nv_digits : list Z;
  nv_weight : Z;
  nv_sign : Z;
  nv_dscale : Z }.

Definition nv_ndigits (v : NumericVar) : Z := Z.of_nat (length (nv_digits v)).

Definition set_sign (sign : Z) (v : NumericVar) : NumericVar :=
  mkVar (nv_before v) (nv_digits v) (nv_weight v) sign (nv_dscale v).
Definition set_dscale (dscale : Z) (v : NumericVar) : NumericVar :=
  mkVar (nv_before v) (nv_digits v) (nv_weight v) (nv_sign v) dscale.

Definition const_zero : NumericVar := mkVar [] [] 0 NUMERIC_POS 0.
Definition const_one : NumericVar := mkVar [] [1] 0 NUMERIC_POS 0.
Definition const_nan : NumericVar := mkVar [] [] 0 NUMERIC_NAN 0.

(** [alloc_var], with the digits that are then stored. *)
Definition alloc_var (digits : list Z) (weight sign dscale : Z) : NumericVar :=
  mkVar [0] digits weight sign dscale.
(** [zero_var]; the display scale is set by the caller. *)
Definition zero_var (dscale : Z) : NumericVar := mkVar [] [] 0 NUMERIC_POS dscale.
Definition set_var_from_var (value : NumericVar) : NumericVar :=
  alloc_var (nv_digits value) (nv_weight value) (nv_sign value) (nv_dscale value).

(** ** Zeroes *)

(** The zeroes before the first other digit are skipped; they stay in the buffer. *)
Fixpoint strip_leading (before digits : list Z) (weight : Z) : list Z * list Z * Z :=
  match digits with
  | d :: digits' => if d =? 0 then strip_leading (before ++ [d]) digits' (weight - 1) else (before, digits, weight)
  | [] => (before, digits, weight)
  end.
Fixpoint strip_trailing (rdigits : list Z) : list Z :=
  match rdigits with
  | d :: rdigits' => if d =? 0 then strip_trailing rdigits' else rdigits
  | [] => []
  end.
Definition strip_var (var : NumericVar) : NumericVar :=
  let '(before, digits, weight) := strip_leading (nv_before var) (nv_digits var) (nv_weight var) in
  let digits := rev (strip_trailing (rev digits)) in
  match digits with
  | [] => mkVar before [] 0 NUMERIC_POS (nv_dscale var)
  | _ => mkVar before digits weight (nv_sign var) (nv_dscale var)
  end.

(** ** Comparison *)

(** The digits before the first common one: [None] if one of them is not zero. *)
Fixpoint skip_high (digits : list Z) (weight other : Z) : option (list Z * Z) :=
  match digits with
  | d :: digits' =>
      if other <? weight then if negb (d =? 0) then None else skip_high digits' (weight - 1) other
      else Some (digits, weight)
  | [] => Some (digits, weight)
  end.
(** The common digits: the sign of the first difference, and what is left on each side. *)
Fixpoint cmp_common (digits1 digits2 : list Z) : Z * list Z * list Z :=
  match digits1, digits2 with
  | d1 :: digits1', d2 :: digits2' =>
      let stat := d1 - d2 in
      if negb (stat =? 0) then (if 0 <? stat then 1 else -1, digits1', digits2') else cmp_common digits1' digits2'
  | _, _ => (0, digits1, digits2)
  end.

Definition cmp_abs_common (digits1 : list Z) (weight1 : Z) (digits2 : list Z) (weight2 : Z) : Z :=
  match skip_high digits1 weight1 weight2 with
  | None => 1
  | Some (digits1, weight1) =>
      match skip_high digits2 weight2 weight1 with
      | None => -1
      | Some (digits2, weight2) =>
          let '(stat, digits1, digits2) :=
            if weight1 =? weight2 then cmp_common digits1 digits2 else (0, digits1, digits2) in
          if negb (stat =? 0) then stat
          else if existsb (λ d, negb (d =? 0)) digits1 then 1
          else if existsb (λ d, negb (d =? 0)) digits2 then -1
          else 0
      end
  end.
Definition cmp_abs (var1 var2 : NumericVar) : Z :=
  cmp_abs_common (nv_digits var1) (nv_weight var1) (nv_digits var2) (nv_weight var2).

Definition cmp_var_common (digits1 : list Z) (weight1 sign1 : Z) (digits2 : list Z) (weight2 sign2 : Z) : Z :=
  if Z.of_nat (length digits1) =? 0 then
    if Z.of_nat (length digits2) =? 0 then 0 else if sign2 =? NUMERIC_NEG then 1 else -1
  else if Z.of_nat (length digits2) =? 0 then if sign1 =? NUMERIC_POS then 1 else -1
  else if sign1 =? NUMERIC_POS then
    if sign2 =? NUMERIC_NEG then 1 else cmp_abs_common digits1 weight1 digits2 weight2
  else if sign2 =? NUMERIC_POS then -1
  else cmp_abs_common digits2 weight2 digits1 weight1.
Definition cmp_var (var1 var2 : NumericVar) : Z :=
  cmp_var_common (nv_digits var1) (nv_weight var1) (nv_sign var1) (nv_digits var2) (nv_weight var2) (nv_sign var2).

(** ** Addition and subtraction of absolute values *)

(** [if (i >= 0 && i < ndigits) ... digits[i]] *)
Definition digit_at (digits : list Z) (i : Z) : outcome Z :=
  if (0 <=? i) && (i <? Z.of_nat (length digits)) then arr_get digits i else Ret 0.

Fixpoint add_loop (n : nat) (digits1 digits2 : list Z) (i1 i2 carry : Z) (res : list Z) : outcome (Z * list Z) :=
  match n with
  | O => Ret (carry, res)
  | S n' =>
      d1 ← digit_at digits1 (i1 - 1);
      d2 ← digit_at digits2 (i2 - 1);
      let carry := carry + d1 + d2 in
      if NBASE <=? carry then add_loop n' digits1 digits2 (i1 - 1) (i2 - 1) 1 (carry - NBASE :: res)
      else add_loop n' digits1 digits2 (i1 - 1) (i2 - 1) 0 (carry :: res)
  end.
(** The sign of the result is set by the caller. *)
Definition add_abs (var1 var2 : NumericVar) : outcome NumericVar :=
  let res_weight := Z.max (nv_weight var1) (nv_weight var2) + 1 in
  let res_dscale := Z.max (nv_dscale var1) (nv_dscale var2) in
  let rscale1 := nv_ndigits var1 - nv_weight var1 - 1 in
  let rscale2 := nv_ndigits var2 - nv_weight var2 - 1 in
  let res_rscale := Z.max rscale1 rscale2 in
  let res_ndigits := Z.max (res_rscale + res_weight + 1) 1 in
  '(carry, res_digits) ← add_loop (Z.to_nat res_ndigits) (nv_digits var1) (nv_digits var2)
    (res_rscale + nv_weight var1 + 1) (res_rscale + nv_weight var2 + 1) 0 [];
  if negb (carry =? 0) then UB else
  Ret (strip_var (mkVar [0] res_digits res_weight NUMERIC_POS res_dscale)).

Fixpoint sub_loop (n : nat) (digits1 digits2 : list Z) (i1 i2 borrow : Z) (res : list Z) : outcome (Z * list Z) :=
  match n with
  | O => Ret (borrow, res)
  | S n' =>
      d1 ← digit_at digits1 (i1 - 1);
      d2 ← digit_at digits2 (i2 - 1);
      let borrow := borrow + d1 - d2 in
      if borrow <? 0 then sub_loop n' digits1 digits2 (i1 - 1) (i2 - 1) (-1) (borrow + NBASE :: res)
      else sub_loop n' digits1 digits2 (i1 - 1) (i2 - 1) 0 (borrow :: res)
  end.
Definition sub_abs (var1 var2 : NumericVar) : outcome NumericVar :=
  let res_weight := nv_weight var1 in
  let res_dscale := Z.max (nv_dscale var1) (nv_dscale var2) in
  let rscale1 := nv_ndigits var1 - nv_weight var1 - 1 in
  let rscale2 := nv_ndigits var2 - nv_weight var2 - 1 in
  let res_rscale := Z.max rscale1 rscale2 in
  let res_ndigits := Z.max (res_rscale + res_weight + 1) 1 in
  '(borrow, res_digits) ← sub_loop (Z.to_nat res_ndigits) (nv_digits var1) (nv_digits var2)
    (res_rscale + nv_weight var1 + 1) (res_rscale + nv_weight var2 + 1) 0 [];
  if negb (borrow =? 0) then UB else
  Ret (strip_var (mkVar [0] res_digits res_weight NUMERIC_POS res_dscale)).

(** ** Addition and subtraction *)

(** The three cases of [switch (cmp_abs(var1, var2))], with the signs of the second and third. *)
Definition sub_signed (var1 var2 : NumericVar) (greater less : Z) : outcome NumericVar :=
  let c := cmp_abs var1 var2 in
  if c =? 0 then Ret (zero_var (Z.max (nv_dscale var1) (nv_dscale var2)))
  else if c =? 1 then r ← sub_abs var1 var2; Ret (set_sign greater r)
  else r ← sub_abs var2 var1; Ret (set_sign less r).

Definition add_var (var1 var2 : NumericVar) : outcome NumericVar :=
  if nv_sign var1 =? NUMERIC_POS then
    if nv_sign var2 =? NUMERIC_POS then r ← add_abs var1 var2; Ret (set_sign NUMERIC_POS r)
    else sub_signed var1 var2 NUMERIC_POS NUMERIC_NEG
  else
    if nv_sign var2 =? NUMERIC_POS then sub_signed var1 var2 NUMERIC_NEG NUMERIC_POS
    else r ← add_abs var1 var2; Ret (set_sign NUMERIC_NEG r).

Definition sub_var (var1 var2 : NumericVar) : outcome NumericVar :=
  if nv_sign var1 =? NUMERIC_POS then
    if nv_sign var2 =? NUMERIC_NEG then r ← add_abs var1 var2; Ret (set_sign NUMERIC_POS r)
    else sub_signed var1 var2 NUMERIC_POS NUMERIC_NEG
  else
    if nv_sign var2 =? NUMERIC_NEG then sub_signed var1 var2 NUMERIC_NEG NUMERIC_POS
    else r ← add_abs var1 var2; Ret (set_sign NUMERIC_NEG r).

(** ** Rounding and truncation *)

Definition round_powers : list Z := [0; 1000; 100; 10].

(** A carry of 1 into the last of [rdigits], which are in reverse order: the digits, and
    whether the carry leaves the first one. *)
Fixpoint propagate_carry (rdigits : list Z) : list Z * bool :=
  match rdigits with
  | [] => ([], true)
  | d :: rdigits' =>
      let carry := 1 + d in
      if NBASE <=? carry then let '(r, c) := propagate_carry rdigits' in (carry - NBASE :: r, c)
      else (carry :: rdigits', false)
  end.

(** The digits to keep, rounded within the last of them, and the carry. *)
Definition round_last (digits : list Z) (ndigits di : Z) : outcome (list Z * bool) :=
  if di =? 0 then
    d ← arr_get digits ndigits;
    Ret (take (Z.to_nat ndigits) digits, HALF_NBASE <=? d)
  else
    pow10 ← arr_get round_powers di;
    d ← arr_get digits (ndigits - 1);
    let extra := Z.rem d pow10 in
    let d := d - extra in
    let '(d, carry) :=
      if Z.quot pow10 2 <=? extra then
        let pow10 := pow10 + d in
        if NBASE <=? pow10 then (pow10 - NBASE, true) else (pow10, false)
      else (d, false) in
    Ret (take (Z.to_nat (ndigits - 1)) digits ++ [d], carry).

(** [round_last] and the loop that propagates the carry: within the last digit it starts at the
    digit before it, and a carry out of the first digit goes to the spare one. *)
Definition round_digits (before digits : list Z) (weight ndigits di : Z) : outcome (list Z * list Z * Z) :=
  '(kept, carry) ← round_last digits ndigits di;
  if negb carry then Ret (before, kept, weight) else
  let last := if di =? 0 then [] else drop (length kept - 1) kept in
  let front := if di =? 0 then kept else take (length kept - 1) kept in
  let '(rfront, out) := propagate_carry (rev front) in
  let kept := rev rfront ++ last in
  if negb out then Ret (before, kept, weight) else
  match rev before with
  | [] => UB
  | spare :: rbefore =>
      let carry := 1 + spare in
      if NBASE <=? carry then UB else Ret (rev rbefore, carry :: kept, weight + 1)
  end.

Definition round_var (var : NumericVar) (rscale : Z) : outcome NumericVar :=
  let di := (nv_weight var + 1) * DEC_DIGITS + rscale in
  if di <? 0 then Ret (mkVar (nv_before var) [] 0 NUMERIC_POS rscale) else
  let ndigits := Z.quot (di + DEC_DIGITS - 1) DEC_DIGITS in
  let di := Z.rem di DEC_DIGITS in
  if (ndigits <? nv_ndigits var) || ((ndigits =? nv_ndigits var) && (0 <? di)) then
    '(before, digits, weight) ← round_digits (nv_before var) (nv_digits var) (nv_weight var) ndigits di;
    Ret (mkVar before digits weight (nv_sign var) rscale)
  else Ret (set_dscale rscale var).

Definition trunc_var (var : NumericVar) (rscale : Z) : outcome NumericVar :=
  let di := (nv_weight var + 1) * DEC_DIGITS + rscale in
  if di <=? 0 then Ret (mkVar (nv_before var) [] 0 NUMERIC_POS rscale) else
  let ndigits := Z.quot (di + DEC_DIGITS - 1) DEC_DIGITS in
  if ndigits <=? nv_ndigits var then
    let di := Z.rem di DEC_DIGITS in
    digits ←
      (if 0 <? di then
         pow10 ← arr_get round_powers di;
         d ← arr_get (nv_digits var) (ndigits - 1);
         Ret (take (Z.to_nat (ndigits - 1)) (nv_digits var) ++ [d - Z.rem d pow10])
       else Ret (take (Z.to_nat ndigits) (nv_digits var)));
    Ret (mkVar (nv_before var) digits (nv_weight var) (nv_sign var) rscale)
  else Ret (set_dscale rscale var).

(** ** Multiplication *)

(** [dig[i--] += var1digit * var2digits[i2]], for the digits of [var2] from the last on. *)
Fixpoint mul_row (var1digit : Z) (rdigits2 : list Z) (i : Z) (dig : list Z) : outcome (list Z) :=
  match rdigits2 with
  | [] => Ret dig
  | d2 :: rdigits2' =>
      x ← arr_get dig i;
      dig ← arr_set dig i (int32_of (x + var1digit * d2));
      mul_row var1digit rdigits2' (i - 1) dig
  end.

(** The pass that propagates the carries, from the last digit on. *)
Fixpoint carry_pass (rdig : list Z) (carry : Z) (res : list Z) : Z * list Z :=
  match rdig with
  | [] => (carry, res)
  | x :: rdig' =>
      let newdig := int32_of (x + carry) in
      if NBASE <=? newdig then
        let carry := Z.quot newdig NBASE in carry_pass rdig' carry (newdig - carry * NBASE :: res)
      else carry_pass rdig' 0 (newdig :: res)
  end.

(** The outer loop, over the digits of [var1] from the last on. *)
Fixpoint mul_loop (rdigits1 rdigits2 : list Z) (ri maxdig : Z) (dig : list Z) : outcome (list Z) :=
  match rdigits1 with
  | [] => Ret dig
  | var1digit :: rdigits1' =>
      if var1digit =? 0 then mul_loop rdigits1' rdigits2 (ri - 1) maxdig dig else
      let maxdig := maxdig + var1digit in
      '(maxdig, dig) ←
        (if Z.quot (INT_MAX 32) (NBASE - 1) <? maxdig then
           let '(carry, dig) := carry_pass (rev dig) 0 [] in
           if negb (carry =? 0) then UB else Ret (1 + var1digit, dig)
         else Ret (maxdig, dig));
      dig ← mul_row var1digit rdigits2 ri dig;
      mul_loop rdigits1' rdigits2 (ri - 1) maxdig dig
  end.

(** The digits of the operands to look at, and of the result: [None] if the result has no useful
    precision. *)
Definition mul_ndigits (n1 n2 maxdigits : Z) : outcome (option (Z * Z * Z)) :=
  let res_ndigits := n1 + n2 + 1 in
  if res_ndigits <=? maxdigits then Ret (Some (n1, n2, res_ndigits)) else
  if maxdigits <? 3 then Ret None else
  let maxdigits := if Z.land maxdigits 1 =? 0 then maxdigits + 1 else maxdigits in
  let '(n1, n2) :=
    if n2 <? n1 then
      let n1 := n1 - (res_ndigits - maxdigits) in
      if n1 <? n2 then let h := Z.quot (n1 + n2) 2 in (h, h) else (n1, n2)
    else
      let n2 := n2 - (res_ndigits - maxdigits) in
      if n2 <? n1 then let h := Z.quot (n1 + n2) 2 in (h, h) else (n1, n2) in
  if negb (maxdigits =? n1 + n2 + 1) then UB else Ret (Some (n1, n2, maxdigits)).

Definition mul_var (var1 var2 : NumericVar) (rscale : Z) : outcome NumericVar :=
  let n1 := nv_ndigits var1 in
  let n2 := nv_ndigits var2 in
  if (n1 =? 0) || (n2 =? 0) then Ret (zero_var rscale) else
  let res_sign := if nv_sign var1 =? nv_sign var2 then NUMERIC_POS else NUMERIC_NEG in
  let res_weight := nv_weight var1 + nv_weight var2 + 2 in
  let maxdigits := res_weight + 1 + rscale * DEC_DIGITS + MUL_GUARD_DIGITS in
  counts ← mul_ndigits n1 n2 maxdigits;
  match counts with
  | None => Ret (zero_var rscale)
  | Some (n1, n2, res_ndigits) =>
      dig ← mul_loop (rev (take (Z.to_nat n1) (nv_digits var1))) (rev (take (Z.to_nat n2) (nv_digits var2)))
        (res_ndigits - 1) 0 (replicate (Z.to_nat res_ndigits) 0);
      let '(carry, res_digits) := carry_pass (rev dig) 0 [] in
      if negb (carry =? 0) then UB else
      result ← round_var (alloc_var (int16_of <$> res_digits) res_weight res_sign rscale) rscale;
      Ret (strip_var result)
  end.

(** ** Division *)

(** The fast path for a divisor of one digit; the dividend from index 1 on. *)
Fixpoint short_division (n : nat) (dividend : list Z) (divisor1 i carry : Z) (res : list Z) : outcome (list Z) :=
  match n with
  | O => Ret res
  | S n' =>
      x ← arr_get dividend (i + 1);
      let carry := carry * NBASE + x in
      short_division n' dividend divisor1 (i + 1) (Z.rem carry divisor1) (res ++ [Z.quot carry divisor1])
  end.

(** [for (i = n; ...; i--) { carry += a[i] * d; a[i] = carry % NBASE; carry = carry / NBASE; }], for
    the [n] elements before index [i]. *)
Fixpoint scale_loop (n : nat) (a : list Z) (i d carry : Z) : outcome (Z * list Z) :=
  match n with
  | O => Ret (carry, a)
  | S n' =>
      x ← arr_get a (i - 1);
      let carry := carry + x * d in
      a ← arr_set a (i - 1) (Z.rem carry NBASE);
      scale_loop n' a (i - 1) d (Z.quot carry NBASE)
  end.

(** [while (divisor2 * qhat > (next2digits - qhat * divisor1) * NBASE + dividend[j + 2]) qhat--] *)
Fixpoint adjust_qhat (fuel : nat) (divisor1 divisor2 next2digits next qhat : Z) : outcome Z :=
  if (next2digits - qhat * divisor1) * NBASE + next <? divisor2 * qhat then
    match fuel with
    | O => Timeout
    | S fuel' => adjust_qhat fuel' divisor1 divisor2 next2digits next (qhat - 1)
    end
  else Ret qhat.

(** The divisor times [qhat] is subtracted from the dividend, index [i] of the divisor being
    at index [j + i] of the dividend: the loop over the [n] indices from [n - 1] down to 0. *)
Fixpoint mulsub_loop (n : nat) (divisor dividend : list Z) (j qhat carry borrow : Z) : outcome (Z * Z * list Z) :=
  match n with
  | O => Ret (carry, borrow, dividend)
  | S n' =>
      let i := Z.of_nat n' in
      x ← arr_get divisor i;
      let carry := carry + x * qhat in
      let borrow := borrow - Z.rem carry NBASE in
      let carry := Z.quot carry NBASE in
      y ← arr_get dividend (j + i);
      let borrow := borrow + y in
      if borrow <? 0 then
        dividend ← arr_set dividend (j + i) (borrow + NBASE);
        mulsub_loop n' divisor dividend j qhat carry (-1)
      else
        dividend ← arr_set dividend (j + i) borrow;
        mulsub_loop n' divisor dividend j qhat carry 0
  end.

(** The divisor is added back. *)
Fixpoint addback_loop (n : nat) (divisor dividend : list Z) (j carry : Z) : outcome (Z * list Z) :=
  match n with
  | O => Ret (carry, dividend)
  | S n' =>
      let i := Z.of_nat n' in
      y ← arr_get dividend (j + i);
      x ← arr_get divisor i;
      let carry := carry + y + x in
      if NBASE <=? carry then
        dividend ← arr_set dividend (j + i) (carry - NBASE);
        addback_loop n' divisor dividend j 1
      else
        dividend ← arr_set dividend (j + i) carry;
        addback_loop n' divisor dividend j 0
  end.

(** One quotient digit, and the dividend afterwards.  The estimate is at most 10000 and is
    lowered to a digit. *)
Definition quotient_digit (var2ndigits : Z) (divisor dividend : list Z) (divisor1 divisor2 j : Z)
    : outcome (Z * list Z) :=
  x0 ← arr_get dividend j;
  x1 ← arr_get dividend (j + 1);
  let next2digits := x0 * NBASE + x1 in
  if next2digits =? 0 then Ret (0, dividend) else
  let qhat := if x0 =? divisor1 then NBASE - 1 else Z.quot next2digits divisor1 in
  x2 ← arr_get dividend (j + 2);
  qhat ← adjust_qhat (Z.to_nat NBASE) divisor1 divisor2 next2digits x2 qhat;
  if negb (0 <? qhat) then Ret (qhat, dividend) else
  '(carry, borrow, dividend) ← mulsub_loop (Z.to_nat (var2ndigits + 1)) divisor dividend j qhat 0 0;
  if negb (carry =? 0) then UB else
  if negb (borrow =? 0) then
    '(carry, dividend) ← addback_loop (Z.to_nat (var2ndigits + 1)) divisor dividend j 0;
    if negb (carry =? 1) then UB else Ret (qhat - 1, dividend)
  else Ret (qhat, dividend).

Fixpoint long_division (n : nat) (var2ndigits : Z) (divisor dividend : list Z) (divisor1 divisor2 j : Z) (res : list Z)
    : outcome (list Z) :=
  match n with
  | O => Ret res
  | S n' =>
      '(qhat, dividend) ← quotient_digit var2ndigits divisor dividend divisor1 divisor2 j;
      long_division n' var2ndigits divisor dividend divisor1 divisor2 (j + 1) (res ++ [qhat])
  end.

(** The divisor and the dividend, scaled so that the first digit of the divisor is at least
    half the base. *)
Definition normalize_divisor (var1ndigits var2ndigits : Z) (divisor dividend : list Z) : outcome (list Z * list Z) :=
  first ← arr_get divisor 1;
  if negb (first <? HALF_NBASE) then Ret (divisor, dividend) else
  let d := Z.quot NBASE (first + 1) in
  '(carry, divisor) ← scale_loop (Z.to_nat var2ndigits) divisor (var2ndigits + 1) d 0;
  if negb (carry =? 0) then UB else
  '(carry, dividend) ← scale_loop (Z.to_nat (var1ndigits + 1)) dividend (var1ndigits + 1) d 0;
  if negb (carry =? 0) then UB else
  first ← arr_get divisor 1;
  if first <? HALF_NBASE then UB else Ret (divisor, dividend).

Definition div_digits (digits1 digits2 : list Z) (res_ndigits : Z) : outcome (list Z) :=
  let var1ndigits := Z.of_nat (length digits1) in
  let var2ndigits := Z.of_nat (length digits2) in
  let div_ndigits := Z.max (res_ndigits + var2ndigits) var1ndigits in
  let dividend := [0] ++ digits1 ++ replicate (Z.to_nat (div_ndigits - var1ndigits)) 0 in
  let divisor := [0] ++ digits2 in
  if var2ndigits =? 1 then
    divisor1 ← arr_get divisor 1;
    short_division (Z.to_nat res_ndigits) dividend divisor1 0 0 []
  else
    '(divisor, dividend) ← normalize_divisor var1ndigits var2ndigits divisor dividend;
    divisor1 ← arr_get divisor 1;
    divisor2 ← arr_get divisor 2;
    long_division (Z.to_nat res_ndigits) var2ndigits divisor dividend divisor1 divisor2 0 [].

Definition div_var (var1 var2 : NumericVar) (rscale : Z) (round : bool) : outcome NumericVar :=
  if match nv_digits var2 with [] => true | d :: _ => d =? 0 end then Ereport ERRCODE_DIVISION_BY_ZERO else
  if nv_ndigits var1 =? 0 then Ret (zero_var rscale) else
  let res_sign := if nv_sign var1 =? nv_sign var2 then NUMERIC_POS else NUMERIC_NEG in
  let res_weight := nv_weight var1 - nv_weight var2 in
  let res_ndigits := Z.max (res_weight + 1 + Z.quot (rscale + DEC_DIGITS - 1) DEC_DIGITS) 1 in
  let res_ndigits := if round then res_ndigits + 1 else res_ndigits in
  res_digits ← div_digits (nv_digits var1) (nv_digits var2) res_ndigits;
  let result := alloc_var res_digits res_weight res_sign rscale in
  result ← (if round then round_var result rscale else trunc_var result rscale);
  Ret (strip_var result).

(** The first digit that is not zero, and its weight. *)
Fixpoint first_digit (digits : list Z) (weight : Z) (last : Z) : Z * Z :=
  match digits with
  | [] => (0, last)
  | d :: digits' => if d =? 0 then first_digit digits' (weight - 1) d else (weight, d)
  end.
Definition select_div_scale (var1 var2 : NumericVar) : Z :=
  let '(weight1, firstdigit1) := first_digit (nv_digits var1) (nv_weight var1) 0 in
  let '(weight2, firstdigit2) := first_digit (nv_digits var2) (nv_weight var2) 0 in
  let qweight := weight1 - weight2 in
  let qweight := if firstdigit1 <=? firstdigit2 then qweight - 1 else qweight in
  let rscale := NUMERIC_MIN_SIG_DIGITS - qweight * DEC_DIGITS in
  let rscale := Z.max rscale (nv_dscale var1) in
  let rscale := Z.max rscale (nv_dscale var2) in
  let rscale := Z.max rscale NUMERIC_MIN_DISPLAY_SCALE in
  Z.min rscale NUMERIC_MAX_DISPLAY_SCALE.

(** ** Derived operations *)

Definition mod_var (var1 var2 : NumericVar) : outcome NumericVar :=
  tmp ← div_var var1 var2 0 false;
  tmp ← mul_var var2 tmp (nv_dscale var2);
  sub_var var1 tmp.

Definition ceil_var (var : NumericVar) : outcome NumericVar :=
  tmp ← trunc_var (set_var_from_var var) 0;
  tmp ← (if (nv_sign var =? NUMERIC_POS) && negb (cmp_var var tmp =? 0) then add_var tmp const_one else Ret tmp);
  Ret (set_var_from_var tmp).

Definition floor_var (var : NumericVar) : outcome NumericVar :=
  tmp ← trunc_var (set_var_from_var var) 0;
  tmp ← (if (nv_sign var =? NUMERIC_NEG) && negb (cmp_var var tmp =? 0) then sub_var tmp const_one else Ret tmp);
  Ret (set_var_from_var tmp).

(** ** The packed format *)

(** The header word and the words behind it: the weight, unless the format is short, and the
    digits. *)
Record NumericData := mkNumeric { n_header : Z; n_words : list Z }.

Definition NUMERIC_FLAGBITS (n : NumericData) : Z := Z.land (n_header n) NUMERIC_SIGN_MASK.
Definition NUMERIC_IS_NAN (n : NumericData) : bool := NUMERIC_FLAGBITS n =? NUMERIC_NAN.
Definition NUMERIC_IS_SHORT (n : NumericData) : bool := NUMERIC_FLAGBITS n =? NUMERIC_SHORT.

Definition NUMERIC_SHORT_SIGN_MASK : Z := 0x2000.
Definition NUMERIC_SHORT_DSCALE_MASK : Z := 0x1F80.
Definition NUMERIC_SHORT_DSCALE_SHIFT : Z := 7.
Definition NUMERIC_SHORT_DSCALE_MAX : Z := Z.shiftr NUMERIC_SHORT_DSCALE_MASK NUMERIC_SHORT_DSCALE_SHIFT.
Definition NUMERIC_SHORT_WEIGHT_SIGN_MASK : Z := 0x0040.
Definition NUMERIC_SHORT_WEIGHT_MASK : Z := 0x003F.
Definition NUMERIC_SHORT_WEIGHT_MAX : Z := NUMERIC_SHORT_WEIGHT_MASK.
Definition NUMERIC_SHORT_WEIGHT_MIN : Z := - (NUMERIC_SHORT_WEIGHT_MASK + 1).
Definition NUMERIC_DSCALE_MASK : Z := 0x3FFF.

(** The words of the header behind the first, of [NUMERIC_HEADER_SIZE]. *)
Definition header_words (n : NumericData) : Z := if Z.land (NUMERIC_FLAGBITS n) 0x8000 =? 0 then 1 else 0.
Definition NUMERIC_NDIGITS (n : NumericData) : Z := Z.of_nat (length (n_words n)) - header_words n.
Definition NUMERIC_DIGITS (n : NumericData) : list Z := if NUMERIC_IS_SHORT n then n_words n else drop 1 (n_words n).

Definition NUMERIC_SIGN (n : NumericData) : Z :=
  if NUMERIC_IS_SHORT n
  then if negb (Z.land (n_header n) NUMERIC_SHORT_SIGN_MASK =? 0) then NUMERIC_NEG else NUMERIC_POS
  else NUMERIC_FLAGBITS n.
Definition NUMERIC_DSCALE (n : NumericData) : Z :=
  if NUMERIC_IS_SHORT n
  then Z.shiftr (Z.land (n_header n) NUMERIC_SHORT_DSCALE_MASK) NUMERIC_SHORT_DSCALE_SHIFT
  else Z.land (n_header n) NUMERIC_DSCALE_MASK.
Definition NUMERIC_WEIGHT (n : NumericData) : outcome Z :=
  if NUMERIC_IS_SHORT n
  then Ret (Z.lor (if negb (Z.land (n_header n) NUMERIC_SHORT_WEIGHT_SIGN_MASK =? 0)
                   then Z.lnot NUMERIC_SHORT_WEIGHT_MASK else 0)
                  (Z.land (n_header n) NUMERIC_SHORT_WEIGHT_MASK))
  else arr_get (n_words n) 0.

Definition NUMERIC_CAN_BE_SHORT (scale weight : Z) : bool :=
  (scale <=? NUMERIC_SHORT_DSCALE_MAX) && (weight <=? NUMERIC_SHORT_WEIGHT_MAX) && (NUMERIC_SHORT_WEIGHT_MIN <=? weight).

Definition set_var_from_num (num : NumericData) : outcome NumericVar :=
  weight ← NUMERIC_WEIGHT num;
  Ret (alloc_var (NUMERIC_DIGITS num) weight (NUMERIC_SIGN num) (NUMERIC_DSCALE num)).

Definition make_result (var : NumericVar) : outcome NumericData :=
  if nv_sign var =? NUMERIC_NAN then Ret (mkNumeric NUMERIC_NAN []) else
  let '(_, digits, weight) := strip_leading [] (nv_digits var) (nv_weight var) in
  let digits := rev (strip_trailing (rev digits)) in
  let '(weight, sign) := match digits with [] => (0, NUMERIC_POS) | _ => (weight, nv_sign var) end in
  let result :=
    if NUMERIC_CAN_BE_SHORT (nv_dscale var) weight then
      mkNumeric
        (uint16_of
           (Z.lor (Z.lor (Z.lor (if sign =? NUMERIC_NEG then Z.lor NUMERIC_SHORT NUMERIC_SHORT_SIGN_MASK else NUMERIC_SHORT)
                                (Z.shiftl (nv_dscale var) NUMERIC_SHORT_DSCALE_SHIFT))
                         (if weight <? 0 then NUMERIC_SHORT_WEIGHT_SIGN_MASK else 0))
                  (Z.land weight NUMERIC_SHORT_WEIGHT_MASK)))
        digits
    else
      mkNumeric (uint16_of (Z.lor sign (Z.land (nv_dscale var) NUMERIC_DSCALE_MASK))) (int16_of weight :: digits) in
  if negb (NUMERIC_NDIGITS result =? Z.of_nat (length digits)) then UB else
  w ← NUMERIC_WEIGHT result;
  if negb (w =? weight) || negb (NUMERIC_DSCALE result =? nv_dscale var)
  then Ereport ERRCODE_NUMERIC_VALUE_OUT_OF_RANGE else Ret result.

(** ** SQL functions *)

(** The body of the binary operators. *)
Definition numeric_binary (op : NumericVar → NumericVar → outcome NumericVar) (num1 num2 : NumericData)
    : outcome NumericData :=
  if NUMERIC_IS_NAN num1 || NUMERIC_IS_NAN num2 then make_result const_nan else
  arg1 ← set_var_from_num num1;
  arg2 ← set_var_from_num num2;
  result ← op arg1 arg2;
  make_result result.

Definition numeric_add : NumericData → NumericData → outcome NumericData := numeric_binary add_var.
Definition numeric_sub : NumericData → NumericData → outcome NumericData := numeric_binary sub_var.
Definition numeric_mul : NumericData → NumericData → outcome NumericData :=
  numeric_binary (λ arg1 arg2, mul_var arg1 arg2 (nv_dscale arg1 + nv_dscale arg2)).
Definition numeric_div : NumericData → NumericData → outcome NumericData :=
  numeric_binary (λ arg1 arg2, div_var arg1 arg2 (select_div_scale arg1 arg2) true).
Definition numeric_div_trunc : NumericData → NumericData → outcome NumericData :=
  numeric_binary (λ arg1 arg2, div_var arg1 arg2 0 false).
Definition numeric_mod : NumericData → NumericData → outcome NumericData := numeric_binary mod_var.

(** The body of the functions of one argument. *)
Definition numeric_unary (op : NumericVar → outcome NumericVar) (num : NumericData) : outcome NumericData :=
  if NUMERIC_IS_NAN num then make_result const_nan else
  arg ← set_var_from_num num;
  result ← op arg;
  make_result result.

Definition numeric_inc : NumericData → outcome NumericData := numeric_unary (λ arg, add_var arg const_one).
Definition numeric_ceil : NumericData → outcome NumericData := numeric_unary ceil_var.
Definition numeric_floor : NumericData → outcome NumericData := numeric_unary floor_var.

Definition limit_scale (scale : Z) : Z :=
  Z.min (Z.max scale (- NUMERIC_MAX_RESULT_SCALE)) NUMERIC_MAX_RESULT_SCALE.
Definition numeric_round (num : NumericData) (scale : Z) : outcome NumericData :=
  let scale := limit_scale scale in
  numeric_unary (λ arg, r ← round_var arg scale; Ret (if scale <? 0 then set_dscale 0 r else r)) num.
Definition numeric_trunc (num : NumericData) (scale : Z) : outcome NumericData :=
  let scale := limit_scale scale in
  numeric_unary (λ arg, r ← trunc_var arg scale; Ret (if scale <? 0 then set_dscale 0 r else r)) num.

Definition numeric_abs (num : NumericData) : outcome NumericData :=
  if NUMERIC_IS_NAN num then make_result const_nan else
  Ret (mkNumeric
         (if NUMERIC_IS_SHORT num then Z.land (n_header num) (Z.lnot NUMERIC_SHORT_SIGN_MASK)
          else Z.lor NUMERIC_POS (NUMERIC_DSCALE num))
         (n_words num)).

Definition numeric_uminus (num : NumericData) : outcome NumericData :=
  if NUMERIC_IS_NAN num then make_result const_nan else
  Ret (mkNumeric
         (if NUMERIC_NDIGITS num =? 0 then n_header num
          else if NUMERIC_IS_SHORT num then Z.lxor (n_header num) NUMERIC_SHORT_SIGN_MASK
          else if NUMERIC_SIGN num =? NUMERIC_POS then Z.lor NUMERIC_NEG (NUMERIC_DSCALE num)
          else Z.lor NUMERIC_POS (NUMERIC_DSCALE num))
         (n_words num)).

Definition numeric_sign (num : NumericData) : outcome NumericData :=
  if NUMERIC_IS_NAN num then make_result const_nan else
  make_result (if NUMERIC_NDIGITS num =? 0 then set_var_from_var const_zero
               else set_sign (NUMERIC_SIGN num) (set_var_from_var const_one)).

Definition cmp_numerics (num1 num2 : NumericData) : outcome Z :=
  if NUMERIC_IS_NAN num1 then Ret (if NUMERIC_IS_NAN num2 then 0 else 1)
  else if NUMERIC_IS_NAN num2 then Ret (-1)
  else
    weight1 ← NUMERIC_WEIGHT num1;
    weight2 ← NUMERIC_WEIGHT num2;
    Ret (cmp_var_common (NUMERIC_DIGITS num1) weight1 (NUMERIC_SIGN num1)
           (NUMERIC_DIGITS num2) weight2 (NUMERIC_SIGN num2)).
Definition numeric_cmp : NumericData → NumericData → outcome Z := cmp_numerics.
Definition numeric_eq (num1 num2 : NumericData) : outcome bool := c ← cmp_numerics num1 num2; Ret (c =? 0).
Definition numeric_ne (num1 num2 : NumericData) : outcome bool := c ← cmp_numerics num1 num2; Ret (negb (c =? 0)).
Definition numeric_gt (num1 num2 : NumericData) : outcome bool := c ← cmp_numerics num1 num2; Ret (0 <? c).
Definition numeric_ge (num1 num2 : NumericData) : outcome bool := c ← cmp_numerics num1 num2; Ret (0 <=? c).
Definition numeric_lt (num1 num2 : NumericData) : outcome bool := c ← cmp_numerics num1 num2; Ret (c <? 0).
Definition numeric_le (num1 num2 : NumericData) : outcome bool := c ← cmp_numerics num1 num2; Ret (c <=? 0).
