(* ===== verification/NumericSpec.v ===== *)
(** * NumericSpec: addition, comparison, rounding and the packed format

    The value of a variable is a rational number.  The first part shows what the loops over digits
    compute, on integers; the second what the operations do with values: sums and
    differences are exact, comparison is that of the values, rounding is to the nearest number of the scale,
    and packing keeps the value.  Multiplication is in [NumericMul], division in [NumericDiv], the SQL
    functions in [NumericOps]. *)

From Stdlib Require Import QArith Qround Qpower Qabs Lqa.
From S2P Require Import Prelude Int Numeric.
Open Scope Z_scope.

(** ** Digits as numbers *)

(** The [n] digits from index [j] on, the first being the most significant. *)
Fixpoint wval (f : Z → Z) (j : Z) (n : nat) : Z :=
  match n with
  | O => 0
  | S n' => wval f j n' * NBASE + f (j + Z.of_nat n')
  end.
(** The number that a list of digits stands for. *)
Definition num (l : list Z) : Z := wval (wd l) 0 (length l).

Definition digit (d : Z) : Prop := 0 ≤ d < NBASE.
Abbreviation B n := (NBASE ^ Z.of_nat n).

Lemma B_pos n : 0 < B n.
Proof. apply Z.pow_pos_nonneg; unfold NBASE; lia. Qed.
Lemma B_succ n : B (S n) = NBASE * B n.
Proof. by rewrite Nat2Z.inj_succ, Z.pow_succ_r by lia. Qed.
Lemma B_add n m : B (n + m) = B n * B m.
Proof. by rewrite Nat2Z.inj_add, Z.pow_add_r by lia. Qed.

Lemma wval_ext f g j n : (∀ i, j ≤ i < j + Z.of_nat n → f i = g i) → wval f j n = wval g j n.
Proof. induction n as [|n IH]; intros H; [done|]. cbn [wval]. rewrite IH, H by (intros; try apply H; lia). done. Qed.

Lemma wval_shift f j k n : wval (λ i, f (i + k)) j n = wval f (j + k) n.
Proof. induction n as [|n IH]; [done|]. cbn [wval]. rewrite IH. do 2 f_equal. lia. Qed.

Lemma wval_add f j n m : wval f j (n + m) = wval f j n * B m + wval f (j + Z.of_nat n) m.
Proof.
  induction m as [|m IH]; [rewrite Nat.add_0_r; simpl; lia|].
  rewrite Nat.add_succ_r. cbn [wval]. rewrite IH, B_succ. replace (j + Z.of_nat (n + m)) with (j + Z.of_nat n + Z.of_nat m) by lia. lia.
Qed.

Lemma wval_cons f j n : wval f j (S n) = f j * B n + wval f (j + 1) n.
Proof. change (S n) with (1 + n)%nat. rewrite wval_add. cbn [wval]. change (Z.of_nat 1) with 1. replace (j + Z.of_nat 0) with j by lia. lia. Qed.

Lemma wval_bound f j n : (∀ i, j ≤ i < j + Z.of_nat n → digit (f i)) → 0 ≤ wval f j n < B n.
Proof.
  induction n as [|n IH]; intros H; [simpl; lia|]. cbn [wval]. rewrite B_succ.
  assert (digit (f (j + Z.of_nat n))) as Hd by (apply H; lia). unfold digit in Hd.
  assert (0 ≤ wval f j n < B n) by (apply IH; intros; apply H; lia). nia.
Qed.

Lemma wval_zero f j n : (∀ i, j ≤ i < j + Z.of_nat n → f i = 0) → wval f j n = 0.
Proof. induction n as [|n IH]; intros H; [done|]. cbn [wval]. rewrite IH, H by (intros; try apply H; lia). done. Qed.

(** One digit is changed. *)
Lemma wval_update f g j n i x :
  j ≤ i < j + Z.of_nat n → (∀ k, j ≤ k < j + Z.of_nat n → g k = if decide (k = i) then x else f k) →
  wval g j n = wval f j n + (x - f i) * NBASE ^ (j + Z.of_nat n - 1 - i).
Proof.
  intros Hi Hg. induction n as [|n IH]; [lia|]. cbn [wval].
  destruct (decide (i = j + Z.of_nat n)) as [->|Hne].
  - rewrite (wval_ext g f) by (intros k Hk; rewrite Hg, decide_False by lia; done).
    rewrite Hg, decide_True by lia. replace (j + Z.of_nat (S n) - 1 - (j + Z.of_nat n)) with 0 by lia. simpl. lia.
  - rewrite IH by (try lia; intros k Hk; apply Hg; lia). rewrite Hg, decide_False by lia.
    replace (j + Z.of_nat (S n) - 1 - i) with (1 + (j + Z.of_nat n - 1 - i)) by lia. rewrite Z.pow_add_r by lia. lia.
Qed.

(** *** Lists *)

Lemma wd_app l1 l2 i : 0 ≤ i →
  wd (l1 ++ l2) i = if i <? Z.of_nat (length l1) then wd l1 i else wd l2 (i - Z.of_nat (length l1)).
Proof.
  intros Hi. unfold wd. destruct (Z.ltb_spec i (Z.of_nat (length l1))).
  - by rewrite lookup_app_l by lia.
  - rewrite lookup_app_r by lia. do 2 f_equal. lia.
Qed.

Lemma wd_digit l i : Forall digit l → digit (wd l i).
Proof.
  intros H. unfold wd. destruct (l !! Z.to_nat i) eqn:E; simpl; [by eapply Forall_lookup_1|]. unfold digit, NBASE. lia.
Qed.

Lemma num_nil : num [] = 0.
Proof. done. Qed.

Lemma num_app l1 l2 : num (l1 ++ l2) = num l1 * B (length l2) + num l2.
Proof.
  unfold num. rewrite length_app, wval_add. f_equal; [f_equal|].
  - apply wval_ext. intros i Hi. rewrite wd_app by lia. rewrite (proj2 (Z.ltb_lt _ _)) by lia. done.
  - rewrite <- (wval_shift (wd (l1 ++ l2))). apply wval_ext. intros i Hi. rewrite wd_app by lia.
    rewrite (proj2 (Z.ltb_ge _ _)) by lia. f_equal. lia.
Qed.

Lemma num_cons d l : num (d :: l) = d * B (length l) + num l.
Proof. change (d :: l) with ([d] ++ l). rewrite num_app. f_equal. Qed.

Lemma num_snoc l d : num (l ++ [d]) = num l * NBASE + d.
Proof. rewrite num_app. change (num [d]) with d. cbn [length]. rewrite Z.pow_1_r. done. Qed.

Lemma num_bound l : Forall digit l → 0 ≤ num l < B (length l).
Proof. intros H. apply wval_bound. intros i _. by apply wd_digit. Qed.

Lemma num_zeros n : num (replicate n 0) = 0.
Proof. apply wval_zero. intros i _. apply wd_replicate. Qed.

Lemma num_take_drop n l : (n ≤ length l)%nat → num l = num (take n l) * B (length l - n) + num (drop n l).
Proof. intros Hn. rewrite <- (take_drop n l) at 1. rewrite num_app, length_drop. done. Qed.

(** The digits seen through a window that covers them. *)
Definition dg (l : list Z) (i : Z) : Z := if (0 <=? i) && (i <? Z.of_nat (length l)) then wd l i else 0.

Lemma digit_at_run l i : digit_at l i = Ret (dg l i).
Proof.
  unfold digit_at, dg. destruct ((0 <=? i) && (i <? Z.of_nat (length l))) eqn:E; [|done].
  apply andb_true_iff in E as [H1%Z.leb_le H2%Z.ltb_lt]. by apply wd_get.
Qed.

Lemma dg_digit l i : Forall digit l → digit (dg l i).
Proof. intros H. unfold dg. destruct (_ && _); [by apply wd_digit|]. unfold digit, NBASE. lia. Qed.

Lemma dg_out l i : i < 0 ∨ Z.of_nat (length l) ≤ i → dg l i = 0.
Proof. intros H. unfold dg. destruct (_ && _) eqn:E; [|done]. apply andb_true_iff in E as [H1%Z.leb_le H2%Z.ltb_lt]. lia. Qed.

Lemma window_num l a b : wval (dg l) (- Z.of_nat a) (a + (length l + b)) = num l * B b.
Proof.
  rewrite !wval_add. rewrite (wval_zero _ _ a) by (intros i Hi; apply dg_out; lia).
  rewrite (wval_zero _ _ b) by (intros i Hi; apply dg_out; lia).
  replace (- Z.of_nat a + Z.of_nat a) with 0 by lia. unfold num.
  rewrite (wval_ext (dg l) (wd l)); [lia|]. intros i Hi. unfold dg.
  rewrite (proj2 (Z.leb_le 0 i)), (proj2 (Z.ltb_lt i _)) by lia. done.
Qed.

Lemma window_nil j n : wval (dg []) j n = 0.
Proof. apply wval_zero. intros i _. apply dg_out. simpl. lia. Qed.

(** ** Loops *)

Lemma add_loop_run n d1 d2 : Forall digit d1 → Forall digit d2 → ∀ i1 i2 carry res, 0 ≤ carry ≤ 1 →
  ∃ carry' res', add_loop n d1 d2 i1 i2 carry res = Ret (carry', res' ++ res) ∧ length res' = n ∧ Forall digit res' ∧
    0 ≤ carry' ≤ 1 ∧
    num res' + carry' * B n = wval (dg d1) (i1 - Z.of_nat n) n + wval (dg d2) (i2 - Z.of_nat n) n + carry.
Proof.
  intros H1 H2. induction n as [|n IH]; intros i1 i2 carry res Hc.
  { exists carry, []. split; [done|]. split; [done|]. split; [constructor|]. split; [done|]. rewrite num_nil. simpl. lia. }
  cbn [add_loop]. rewrite !digit_at_run. cbn [mbind outcome_bind].
  pose proof (dg_digit d1 (i1 - 1) H1) as Hd1. pose proof (dg_digit d2 (i2 - 1) H2) as Hd2.
  set (x := dg d1 (i1 - 1)) in *. set (y := dg d2 (i2 - 1)) in *. unfold digit, NBASE in Hd1, Hd2.
  assert (∀ c' d, carry + x + y = c' * NBASE + d → digit d → 0 ≤ c' ≤ 1 →
    ∃ carry' res', add_loop n d1 d2 (i1 - 1) (i2 - 1) c' (d :: res) = Ret (carry', res' ++ res) ∧ length res' = S n ∧
      Forall digit res' ∧ 0 ≤ carry' ≤ 1 ∧
      num res' + carry' * B (S n) = wval (dg d1) (i1 - Z.of_nat (S n)) (S n) + wval (dg d2) (i2 - Z.of_nat (S n)) (S n) + carry) as Hgo.
  { intros c' d Hsum Hd Hc'. destruct (IH (i1 - 1) (i2 - 1) c' (d :: res) Hc') as (carry' & res' & Hrun & Hlen & Hall & Hcb & Heq).
    exists carry', (res' ++ [d]). split; [by rewrite <- app_assoc|]. split; [rewrite length_app; simpl; lia|].
    split; [apply Forall_app; split; [done|by constructor]|]. split; [done|].
    rewrite num_snoc, B_succ. cbn [wval].
    replace (i1 - Z.of_nat (S n)) with (i1 - 1 - Z.of_nat n) by lia. replace (i2 - Z.of_nat (S n)) with (i2 - 1 - Z.of_nat n) by lia.
    replace (i1 - 1 - Z.of_nat n + Z.of_nat n) with (i1 - 1) by lia. replace (i2 - 1 - Z.of_nat n + Z.of_nat n) with (i2 - 1) by lia.
    fold x y. lia. }
  unfold NBASE at 1 2. destruct (Z.leb_spec 10000 (carry + x + y)); apply Hgo; unfold digit, NBASE; lia.
Qed.

Lemma sub_loop_run n d1 d2 : Forall digit d1 → Forall digit d2 → ∀ i1 i2 borrow res, -1 ≤ borrow ≤ 0 →
  ∃ borrow' res', sub_loop n d1 d2 i1 i2 borrow res = Ret (borrow', res' ++ res) ∧ length res' = n ∧ Forall digit res' ∧
    -1 ≤ borrow' ≤ 0 ∧
    num res' + borrow' * B n = wval (dg d1) (i1 - Z.of_nat n) n - wval (dg d2) (i2 - Z.of_nat n) n + borrow.
Proof.
  intros H1 H2. induction n as [|n IH]; intros i1 i2 borrow res Hc.
  { exists borrow, []. split; [done|]. split; [done|]. split; [constructor|]. split; [done|]. rewrite num_nil. simpl. lia. }
  cbn [sub_loop]. rewrite !digit_at_run. cbn [mbind outcome_bind].
  pose proof (dg_digit d1 (i1 - 1) H1) as Hd1. pose proof (dg_digit d2 (i2 - 1) H2) as Hd2.
  set (x := dg d1 (i1 - 1)) in *. set (y := dg d2 (i2 - 1)) in *. unfold digit, NBASE in Hd1, Hd2.
  assert (∀ c' d, borrow + x - y = c' * NBASE + d → digit d → -1 ≤ c' ≤ 0 →
    ∃ borrow' res', sub_loop n d1 d2 (i1 - 1) (i2 - 1) c' (d :: res) = Ret (borrow', res' ++ res) ∧ length res' = S n ∧
      Forall digit res' ∧ -1 ≤ borrow' ≤ 0 ∧
      num res' + borrow' * B (S n) = wval (dg d1) (i1 - Z.of_nat (S n)) (S n) - wval (dg d2) (i2 - Z.of_nat (S n)) (S n) + borrow) as Hgo.
  { intros c' d Hsum Hd Hc'. destruct (IH (i1 - 1) (i2 - 1) c' (d :: res) Hc') as (borrow' & res' & Hrun & Hlen & Hall & Hcb & Heq).
    exists borrow', (res' ++ [d]). split; [by rewrite <- app_assoc|]. split; [rewrite length_app; simpl; lia|].
    split; [apply Forall_app; split; [done|by constructor]|]. split; [done|].
    rewrite num_snoc, B_succ. cbn [wval].
    replace (i1 - Z.of_nat (S n)) with (i1 - 1 - Z.of_nat n) by lia. replace (i2 - Z.of_nat (S n)) with (i2 - 1 - Z.of_nat n) by lia.
    replace (i1 - 1 - Z.of_nat n + Z.of_nat n) with (i1 - 1) by lia. replace (i2 - 1 - Z.of_nat n + Z.of_nat n) with (i2 - 1) by lia.
    fold x y. lia. }
  unfold NBASE at 1. destruct (Z.ltb_spec (borrow + x - y) 0); apply Hgo; unfold digit, NBASE; lia.
Qed.

(** ** Zeroes *)

Definition starts_nonzero (l : list Z) : Prop := match l with [] => True | d :: _ => d ≠ 0 end.

Lemma strip_leading_spec : ∀ digits before weight,
  ∃ z rest, strip_leading before digits weight = (before ++ replicate z 0, rest, weight - Z.of_nat z) ∧
    digits = replicate z 0 ++ rest ∧ starts_nonzero rest.
Proof.
  induction digits as [|d digits IH]; intros before weight.
  { exists 0%nat, []. rewrite app_nil_r, Z.sub_0_r. done. }
  cbn [strip_leading]. destruct (Z.eqb_spec d 0) as [->|Hd].
  - destruct (IH (before ++ [0]) (weight - 1)) as (z & rest & -> & -> & Hr). exists (S z), rest.
    split; [|done]. rewrite <- app_assoc. by replace (weight - 1 - Z.of_nat z) with (weight - Z.of_nat (S z)) by lia.
  - exists 0%nat, (d :: digits). rewrite app_nil_r, Z.sub_0_r. done.
Qed.

Lemma strip_trailing_spec l : ∃ z, l = replicate z 0 ++ strip_trailing l ∧ starts_nonzero (strip_trailing l).
Proof.
  induction l as [|d l IH]; [by exists 0%nat|]. cbn [strip_trailing]. destruct (Z.eqb_spec d 0) as [->|Hd].
  - destruct IH as (z & IH & Hs). exists (S z). simpl. by rewrite <- IH.
  - by exists 0%nat.
Qed.

Lemma rev_replicate {A} n (x : A) : rev (replicate n x) = replicate n x.
Proof. induction n as [|n IH]; [done|]. simpl. rewrite IH. by rewrite <- replicate_S_end. Qed.

(** The digits without the zeroes at both ends. *)
Lemma strip_spec digits :
  ∃ z1 z2 rest, digits = replicate z1 0 ++ rest ++ replicate z2 0 ∧ starts_nonzero rest ∧ starts_nonzero (rev rest) ∧
    ∀ before weight, strip_leading before digits weight = (before ++ replicate z1 0, rest ++ replicate z2 0, weight - Z.of_nat z1) ∧
      rev (strip_trailing (rev (rest ++ replicate z2 0))) = rest.
Proof.
  destruct (strip_leading_spec digits [] 0) as (z1 & rest0 & _ & Hd & Hs).
  destruct (strip_trailing_spec (rev rest0)) as (z2 & Hr & Hs2). set (rest := rev (strip_trailing (rev rest0))).
  assert (rest0 = rest ++ replicate z2 0) as E.
  { unfold rest. rewrite <- (rev_involutive rest0), Hr at 1. by rewrite rev_app_distr, rev_replicate. }
  exists z1, z2, rest. split; [by rewrite <- E|]. split.
  { destruct rest as [|d l] eqn:E'; [done|]. by rewrite E in Hs. }
  split; [unfold rest; by rewrite rev_involutive|]. intros before weight. rewrite <- E. split; [|done].
  clear rest E Hr Hs2. rewrite Hd at 1. clear Hd. revert before weight.
  induction z1 as [|z1 IH]; intros before weight.
  - simpl. rewrite app_nil_r, Z.sub_0_r. destruct rest0 as [|d l]; [done|]. cbn [strip_leading]. by rewrite (proj2 (Z.eqb_neq d 0) Hs).
  - cbn [replicate app strip_leading]. rewrite Z.eqb_refl, IH. rewrite <- app_assoc.
    by replace (weight - 1 - Z.of_nat z1) with (weight - Z.of_nat (S z1)) by lia.
Qed.

(** ** Values *)

(** The exponent of the last digit. *)
Definition expo (v : NumericVar) : Z := nv_weight v + 1 - nv_ndigits v.
Abbreviation base := (inject_Z NBASE).
Definition absval (v : NumericVar) : Q := (inject_Z (num (nv_digits v)) * base ^ expo v)%Q.
Definition value (v : NumericVar) : Q := if nv_sign v =? NUMERIC_NEG then (- absval v)%Q else absval v.

Lemma base_nonzero : ¬ (base == 0)%Q.
Proof. done. Qed.

Lemma base_plus n m : (base ^ (n + m) == base ^ n * base ^ m)%Q.
Proof. apply Qpower_plus, base_nonzero. Qed.

Lemma base_Z n : 0 ≤ n → (base ^ n == inject_Z (NBASE ^ n))%Q.
Proof. intros Hn. symmetry. by apply Zpower_Qpower. Qed.

Lemma base_pos n : (0 < base ^ n)%Q.
Proof. by apply Qpower_0_lt. Qed.

(** The value at a scale at which it is an integer. *)
Definition scaled (v : NumericVar) (k : Z) : Z := num (nv_digits v) * NBASE ^ (expo v + k).

Lemma absval_scaled v k : 0 ≤ expo v + k → (absval v == inject_Z (scaled v k) * base ^ (- k))%Q.
Proof.
  intros Hk. unfold absval, scaled. rewrite inject_Z_mult, <- base_Z by done. rewrite <- Qmult_assoc, <- base_plus.
  by replace (expo v + k + - k) with (expo v) by lia.
Qed.

(** A well-formed variable. *)
Record var_ok (v : NumericVar) : Prop := {
  vo_digits : Forall digit (nv_digits v);
  vo_before : Forall (λ d, d = 0) (nv_before v);
  vo_sign : nv_sign v = NUMERIC_POS ∨ nv_sign v = NUMERIC_NEG }.
(** Without zeroes at its ends. *)
Definition stripped (v : NumericVar) : Prop :=
  starts_nonzero (nv_digits v) ∧ starts_nonzero (rev (nv_digits v)) ∧
  (nv_digits v = [] → nv_weight v = 0 ∧ nv_sign v = NUMERIC_POS).

Lemma value_pos v : var_ok v → (value v == (if nv_sign v =? NUMERIC_POS then 1 else -1) * absval v)%Q.
Proof. intros [_ _ [E|E]]; unfold value; rewrite E; simpl; ring. Qed.

Lemma absval_nonneg v : var_ok v → (0 <= absval v)%Q.
Proof.
  intros [Hd _ _]. unfold absval. apply Qmult_le_0_compat; [|apply Qlt_le_weak, base_pos].
  change 0%Q with (inject_Z 0). rewrite <- Zle_Qle. by apply num_bound.
Qed.

Lemma strip_var_spec v :
  var_ok v → var_ok (strip_var v) ∧ stripped (strip_var v) ∧ (absval (strip_var v) == absval v)%Q ∧
  (value (strip_var v) == value v)%Q ∧ nv_dscale (strip_var v) = nv_dscale v ∧
  (nv_digits (strip_var v) ≠ [] → nv_sign (strip_var v) = nv_sign v) ∧
  (length (nv_digits (strip_var v)) ≤ length (nv_digits v))%nat.
Proof.
  intros [Hd Hb Hs]. destruct (strip_spec (nv_digits v)) as (z1 & z2 & rest & E & Hn1 & Hn2 & Hstrip).
  destruct (Hstrip (nv_before v) (nv_weight v)) as [E1 E2].
  assert (Forall digit rest) as Hrest by (rewrite E in Hd; apply Forall_app in Hd as [_ [Hd _]%Forall_app]; done).
  assert (Forall (λ d, d = 0) (nv_before v ++ replicate z1 0)) as Hbefore.
  { apply Forall_app. split; [done|]. by apply Forall_replicate. }
  assert (length (nv_digits v) = (z1 + (length rest + z2))%nat) as Hlen by (rewrite E; rewrite !length_app, !length_replicate; done).
  assert (num (nv_digits v) = num rest * B z2) as Hnum.
  { rewrite E at 1. rewrite !num_app, !num_zeros, length_replicate. lia. }
  assert (strip_var v = match rest with
    | [] => mkVar (nv_before v ++ replicate z1 0) [] 0 NUMERIC_POS (nv_dscale v)
    | _ => mkVar (nv_before v ++ replicate z1 0) rest (nv_weight v - Z.of_nat z1) (nv_sign v) (nv_dscale v) end) as ->.
  { unfold strip_var. rewrite E1, E2. done. }
  assert (absval v == inject_Z (num rest) * base ^ (nv_weight v - Z.of_nat z1 + 1 - Z.of_nat (length rest)))%Q as Habs.
  { unfold absval. rewrite Hnum, inject_Z_mult, <- base_Z, <- Qmult_assoc, <- base_plus by lia.
    unfold expo, nv_ndigits. rewrite Hlen. by replace (Z.of_nat z2 + (nv_weight v + 1 - Z.of_nat (z1 + (length rest + z2))))
      with (nv_weight v - Z.of_nat z1 + 1 - Z.of_nat (length rest)) by lia. }
  destruct rest as [|d rest].
  - rewrite num_nil in Habs. assert (absval v == 0)%Q as H0 by (rewrite Habs; ring).
    split; [split; auto; by left|]. split; [done|].
    set (r := mkVar _ _ _ _ _). assert (absval r == 0)%Q as H0' by (apply Qmult_0_l).
    split; [by rewrite H0, H0'|]. split; [|split; [done|split; [done|simpl; lia]]].
    transitivity 0%Q; [exact H0'|]. unfold value. destruct (_ =? _); rewrite H0; reflexivity.
  - split; [done|]. split; [split; [done|split; [done|done]]|].
    set (r := mkVar _ _ _ _ _). assert (absval r == absval v)%Q as Hsame by (rewrite Habs; reflexivity).
    split; [done|]. split; [|split; [done|split; [done|rewrite Hlen; unfold r; cbn [nv_digits]; lia]]].
    unfold value. change (nv_sign r) with (nv_sign v). destruct (_ =? _); rewrite Hsame; reflexivity.
Qed.

(** ** Digits at a scale *)

(** The digits [l] with first weight [w], scaled by the [k]th power of the base. *)
Definition sval (l : list Z) (w k : Z) : Z := num l * NBASE ^ (w + 1 - Z.of_nat (length l) + k).
(** At scale [k] the digits are an integer. *)
Definition fits (l : list Z) (w k : Z) : Prop := 0 ≤ w + 1 - Z.of_nat (length l) + k.

Lemma NBASE_pow_pos n : 0 ≤ n → 0 < NBASE ^ n.
Proof. intros. apply Z.pow_pos_nonneg; unfold NBASE; lia. Qed.

Lemma sval_nil w k : sval [] w k = 0.
Proof. done. Qed.

Lemma sval_cons d l w k : fits (d :: l) w k → sval (d :: l) w k = d * NBASE ^ (w + k) + sval l (w - 1) k.
Proof.
  unfold fits, sval. cbn [length]. intros H. rewrite num_cons.
  replace (w - 1 + 1 - Z.of_nat (length l) + k) with (w + 1 - Z.of_nat (S (length l)) + k) by lia.
  set (e := w + 1 - Z.of_nat (S (length l)) + k) in *. replace (w + k) with (Z.of_nat (length l) + e) by lia.
  rewrite Z.pow_add_r by lia. lia.
Qed.

Lemma fits_cons d l w k : fits (d :: l) w k → fits l (w - 1) k ∧ 0 ≤ w + k.
Proof. unfold fits. cbn [length]. lia. Qed.

Lemma sval_bound l w k : Forall digit l → fits l w k → 0 ≤ sval l w k < NBASE ^ (w + 1 + k).
Proof.
  intros Hd Hf. unfold sval, fits in *. pose proof (num_bound l Hd) as Hn. pose proof (NBASE_pow_pos _ Hf).
  set (e := w + 1 - Z.of_nat (length l) + k) in *. replace (w + 1 + k) with (Z.of_nat (length l) + e) by lia.
  rewrite Z.pow_add_r by lia. nia.
Qed.

Lemma sval_num l w k : fits l w k → sval l w k = num l * B (Z.to_nat (w + 1 - Z.of_nat (length l) + k)).
Proof. intros H. unfold sval. by rewrite Z2Nat.id by done. Qed.

(** What a window of [n] digits that ends at scale [k] shows of a number that is not too large
    for it. *)
Lemma window_sval l w k n :
  Forall digit l → fits l w k → sval l w k < B n → wval (dg l) (k + w + 1 - Z.of_nat n) n = sval l w k.
Proof.
  intros Hd Hf Hlt. rewrite sval_num in * by done. set (b := Z.to_nat (w + 1 - Z.of_nat (length l) + k)) in *.
  assert (k + w + 1 = Z.of_nat (length l + b)) as -> by (unfold b, fits in *; lia).
  destruct (decide (length l + b ≤ n)%nat) as [Hn|Hn].
  - set (a := (n - (length l + b))%nat). pose proof (window_num l a b) as Hw.
    replace (a + (length l + b))%nat with n in Hw by lia.
    by replace (- Z.of_nat a) with (Z.of_nat (length l + b) - Z.of_nat n) in Hw by lia.
  - set (a := (length l + b - n)%nat). pose proof (window_num l 0 b) as Hw. change (- Z.of_nat 0) with 0 in Hw. simpl plus in Hw.
    replace (length l + b)%nat with (a + n)%nat in Hw by lia. rewrite wval_add in Hw. rewrite Z.add_0_l in Hw.
    replace (Z.of_nat (length l + b) - Z.of_nat n) with (Z.of_nat a) by lia.
    assert (0 ≤ wval (dg l) (Z.of_nat a) n) by (apply wval_bound; intros; by apply dg_digit).
    assert (0 ≤ wval (dg l) 0 a) by (apply wval_bound; intros; by apply dg_digit). pose proof (B_pos n).
    assert (wval (dg l) 0 a = 0) as E by nia. rewrite E in Hw. lia.
Qed.

Lemma absval_sval v k : fits (nv_digits v) (nv_weight v) k →
  (absval v == inject_Z (sval (nv_digits v) (nv_weight v) k) * base ^ (- k))%Q.
Proof. intros H. by apply (absval_scaled v k). Qed.

Lemma Q_scale_compare x y k : (inject_Z x * base ^ k ?= inject_Z y * base ^ k)%Q = (x ?= y).
Proof.
  destruct (Z.compare_spec x y) as [->|H|H].
  - apply Qeq_alt. reflexivity.
  - apply Qlt_alt. apply Qmult_lt_r; [apply base_pos|]. by rewrite <- Zlt_Qlt.
  - apply Qgt_alt. apply Qmult_lt_r; [apply base_pos|]. by rewrite <- Zlt_Qlt.
Qed.

(** *** Addition and subtraction of absolute values *)

Lemma fits_max v1 v2 :
  let k := Z.max (nv_ndigits v1 - nv_weight v1 - 1) (nv_ndigits v2 - nv_weight v2 - 1) in
  fits (nv_digits v1) (nv_weight v1) k ∧ fits (nv_digits v2) (nv_weight v2) k.
Proof. unfold fits, nv_ndigits. lia. Qed.

(** The result of an addition or subtraction: a stripped variable with a positive sign. *)
Definition abs_result (r : NumericVar) (x : Q) (dscale : Z) : Prop :=
  var_ok r ∧ stripped r ∧ (absval r == x)%Q ∧ nv_sign r = NUMERIC_POS ∧ nv_dscale r = dscale.

Lemma strip_result digits weight dscale k x :
  Forall digit digits → k = Z.of_nat (length digits) - weight - 1 → num digits = x →
  abs_result (strip_var (mkVar [0] digits weight NUMERIC_POS dscale)) (inject_Z x * base ^ (- k)) dscale.
Proof.
  intros Hd Hk Hx. set (v := mkVar _ _ _ _ _).
  assert (var_ok v) as Hv by (split; [done|by repeat constructor|by left]).
  destruct (strip_var_spec v Hv) as (H1 & H2 & H3 & _ & H4 & H5 & _).
  split; [done|]. split; [done|]. split; [|split; [|done]].
  - rewrite H3. unfold absval, expo, nv_ndigits, v. cbn [nv_digits nv_weight]. rewrite Hx.
    by replace (weight + 1 - Z.of_nat (length digits)) with (- k) by lia.
  - destruct (nv_digits (strip_var v)) eqn:E; [|by rewrite H5]. by apply H2.
Qed.

Lemma add_abs_spec v1 v2 : var_ok v1 → var_ok v2 →
  ∃ r, add_abs v1 v2 = Ret r ∧ abs_result r (absval v1 + absval v2) (Z.max (nv_dscale v1) (nv_dscale v2)).
Proof.
  intros [Hd1 _ _] [Hd2 _ _]. unfold add_abs.
  destruct (fits_max v1 v2) as [Hf1 Hf2]. set (k := Z.max _ _) in *. set (w := Z.max (nv_weight v1) (nv_weight v2)).
  set (n := Z.to_nat (Z.max (k + (w + 1) + 1) 1)).
  assert (Z.of_nat n = k + w + 2) as Hn by (unfold n, k, w, nv_ndigits; lia).
  destruct (add_loop_run n (nv_digits v1) (nv_digits v2) Hd1 Hd2 (k + nv_weight v1 + 1) (k + nv_weight v2 + 1) 0 [])
    as (c & res & Hrun & Hlen & Hres & Hc & Heq); [lia|].
  fold w. fold n. rewrite Hrun. cbn [mbind outcome_bind]. rewrite app_nil_r.
  assert (2 * NBASE ^ (w + 1 + k) < B n) as HB.
  { rewrite Hn. replace (k + w + 2) with (1 + (w + 1 + k)) by lia. rewrite (Z.pow_add_r _ 1) by (unfold w, k, nv_ndigits; lia).
    pose proof (NBASE_pow_pos (w + 1 + k)). unfold NBASE in *. unfold w, k, nv_ndigits in *. lia. }
  assert (∀ l wi, Forall digit l → fits l wi k → wi ≤ w → 0 ≤ sval l wi k < NBASE ^ (w + 1 + k)) as Hsb.
  { intros l wi Hl Hf Hw. pose proof (sval_bound l wi k Hl Hf).
    assert (NBASE ^ (wi + 1 + k) ≤ NBASE ^ (w + 1 + k)) by (apply Z.pow_le_mono_r; unfold NBASE; lia). lia. }
  pose proof (Hsb _ _ Hd1 Hf1 ltac:(lia)) as Hs1. pose proof (Hsb _ _ Hd2 Hf2 ltac:(lia)) as Hs2.
  rewrite !window_sval in Heq by (done || lia).
  assert (c = 0) as -> by (pose proof (num_bound res Hres) as Hb; rewrite Hlen in Hb; nia).
  cbn [Z.eqb negb]. eexists. split; [done|].
  destruct (strip_result res (w + 1) (Z.max (nv_dscale v1) (nv_dscale v2)) k (sval (nv_digits v1) (nv_weight v1) k + sval (nv_digits v2) (nv_weight v2) k))
    as (R1 & R2 & R3 & R4); [done|lia|lia|].
  split; [done|]. split; [done|]. split; [|done]. rewrite R3, (absval_sval v1 k), (absval_sval v2 k) by done.
  rewrite inject_Z_plus. ring.
Qed.

Lemma sub_abs_spec v1 v2 : var_ok v1 → var_ok v2 → (absval v2 < absval v1)%Q →
  ∃ r, sub_abs v1 v2 = Ret r ∧ abs_result r (absval v1 - absval v2) (Z.max (nv_dscale v1) (nv_dscale v2)).
Proof.
  intros [Hd1 _ _] [Hd2 _ _] Hlt. unfold sub_abs.
  destruct (fits_max v1 v2) as [Hf1 Hf2]. set (k := Z.max _ _) in *.
  set (n := Z.to_nat (Z.max (k + nv_weight v1 + 1) 1)).
  rewrite (absval_sval v1 k), (absval_sval v2 k), Qlt_alt, Q_scale_compare, Z.compare_lt_iff in Hlt by done.
  pose proof (sval_bound _ _ _ Hd1 Hf1) as Hs1. pose proof (sval_bound _ _ _ Hd2 Hf2) as Hs2.
  assert (Z.of_nat n = nv_weight v1 + 1 + k) as Hn.
  { unfold n. destruct (nv_digits v1) as [|d l] eqn:E; [rewrite sval_nil in Hlt; lia|].
    unfold fits in Hf1. cbn [length] in Hf1. lia. }
  destruct (sub_loop_run n (nv_digits v1) (nv_digits v2) Hd1 Hd2 (k + nv_weight v1 + 1) (k + nv_weight v2 + 1) 0 [])
    as (c & res & Hrun & Hlen & Hres & Hc & Heq); [lia|].
  rewrite Hrun. cbn [mbind outcome_bind]. rewrite app_nil_r.
  rewrite <- Hn in Hs1. rewrite !window_sval in Heq by (done || lia).
  assert (c = 0) as -> by (pose proof (num_bound res Hres) as Hb; rewrite Hlen in Hb; nia).
  cbn [Z.eqb negb]. eexists. split; [done|].
  destruct (strip_result res (nv_weight v1) (Z.max (nv_dscale v1) (nv_dscale v2)) k (sval (nv_digits v1) (nv_weight v1) k - sval (nv_digits v2) (nv_weight v2) k))
    as (R1 & R2 & R3 & R4); [done|lia|lia|].
  split; [done|]. split; [done|]. split; [|done]. rewrite R3, (absval_sval v1 k), (absval_sval v2 k) by done.
  unfold Z.sub at 1. rewrite inject_Z_plus, inject_Z_opp. ring.
Qed.

(** ** Comparison *)

(** The result of a comparison function. *)
Definition cmp_Z (c : comparison) : Z := match c with Lt => -1 | Eq => 0 | Gt => 1 end.

Lemma skip_high_spec k other : ∀ l w, Forall digit l → fits l w k →
  match skip_high l w other with
  | None => other < w ∧ NBASE ^ (other + 1 + k) ≤ sval l w k
  | Some (l', w') => sval l' w' k = sval l w k ∧ Forall digit l' ∧ fits l' w' k ∧ w' ≤ w ∧
      (w ≤ other → w' = w) ∧ (other < w → other ≤ w') ∧ (other < w' → l' = [])
  end.
Proof.
  induction l as [|d l IH]; intros w Hd Hf; [cbn [skip_high]; repeat split; try done; lia|].
  apply Forall_cons in Hd as [Hd Hl]. pose proof (fits_cons _ _ _ _ Hf) as [Hf' Hwk]. cbn [skip_high].
  destruct (Z.ltb_spec other w) as [Hlt|Hge]; [|repeat split; try done; try lia; by constructor].
  pose proof (sval_cons _ _ _ _ Hf) as E. destruct (Z.eqb_spec d 0) as [->|Hd0]; cbn [negb].
  - specialize (IH (w - 1) Hl Hf'). rewrite E, Z.mul_0_l, Z.add_0_l.
    destruct (skip_high l (w - 1) other) as [[l' w']|] eqn:Es; [|split; [lia|apply IH]].
    destruct IH as (I1 & I2 & I3 & I4 & I5 & I6 & I7). repeat split; try done; try lia.

  - split; [done|]. rewrite E. pose proof (sval_bound _ _ _ Hl Hf').
    assert (NBASE ^ (other + 1 + k) ≤ NBASE ^ (w + k)) by (apply Z.pow_le_mono_r; unfold NBASE; lia).
    unfold digit in Hd. pose proof (NBASE_pow_pos (w + k) Hwk). nia.
Qed.

Lemma sval_nonzero l w k : Forall digit l → fits l w k → existsb (λ d, negb (d =? 0)) l = negb (sval l w k =? 0).
Proof.
  revert w. induction l as [|d l IH]; intros w Hd Hf; [done|].
  apply Forall_cons in Hd as [Hd Hl]. pose proof (fits_cons _ _ _ _ Hf) as [Hf' Hwk]. cbn [existsb].
  rewrite (IH (w - 1)), (sval_cons _ _ _ _ Hf) by done. pose proof (sval_bound _ _ _ Hl Hf') as Hb.
  pose proof (NBASE_pow_pos (w + k) Hwk). destruct (Z.eqb_spec d 0) as [->|Hd0]; cbn [negb orb].
  - by rewrite Z.mul_0_l, Z.add_0_l.
  - symmetry. apply negb_true_iff, Z.eqb_neq. unfold digit in Hd. nia.
Qed.

(** Digits with the same first weight. *)
Lemma cmp_common_spec k : ∀ l1 l2 w, Forall digit l1 → Forall digit l2 → fits l1 w k → fits l2 w k →
  let '(stat, r1, r2) := cmp_common l1 l2 in
  (stat ≠ 0 → stat = cmp_Z (sval l1 w k ?= sval l2 w k)) ∧
  (stat = 0 → ∃ w' c, Forall digit r1 ∧ Forall digit r2 ∧ fits r1 w' k ∧ fits r2 w' k ∧ (r1 = [] ∨ r2 = []) ∧
    sval l1 w k = c + sval r1 w' k ∧ sval l2 w k = c + sval r2 w' k).
Proof.
  induction l1 as [|d1 l1 IH]; intros l2 w H1 H2 Hf1 Hf2.
  { cbn [cmp_common]. split; [done|]. intros _. exists w, 0. repeat split; auto; lia. }
  destruct l2 as [|d2 l2].
  { cbn [cmp_common]. split; [done|]. intros _. exists w, 0. repeat split; auto; lia. }
  apply Forall_cons in H1 as [Hd1 H1]. apply Forall_cons in H2 as [Hd2 H2]. cbn [cmp_common].
  pose proof (fits_cons _ _ _ _ Hf1) as [Hf1' Hwk]. pose proof (fits_cons _ _ _ _ Hf2) as [Hf2' _].
  pose proof (sval_cons _ _ _ _ Hf1) as E1. pose proof (sval_cons _ _ _ _ Hf2) as E2.
  destruct (Z.eqb_spec (d1 - d2) 0) as [E|E]; cbn [negb].
  - assert (d1 = d2) as -> by lia. specialize (IH l2 (w - 1) H1 H2 Hf1' Hf2').
    destruct (cmp_common l1 l2) as [[stat r1] r2]. destruct IH as [I1 I2]. split.
    + intros Hs. rewrite (I1 Hs), E1, E2. by rewrite Z.add_compare_mono_l.
    + intros Hs. destruct (I2 Hs) as (w' & c & J). exists w', (d2 * NBASE ^ (w + k) + c). rewrite E1, E2.
      destruct J as (J1 & J2 & J3 & J4 & J5 & -> & ->). repeat split; try done; lia.
  - pose proof (sval_bound _ _ _ H1 Hf1') as B1. pose proof (sval_bound _ _ _ H2 Hf2') as B2.
    replace (w - 1 + 1 + k) with (w + k) in * by lia. pose proof (NBASE_pow_pos (w + k) Hwk). rewrite E1, E2.
    destruct (Z.ltb_spec 0 (d1 - d2)); (split; [|done]); intros _.
    + rewrite (proj2 (Z.compare_gt_iff _ _)); [done|]. nia.
    + rewrite (proj2 (Z.compare_lt_iff _ _)); [done|]. nia.
Qed.

Lemma cmp_tail l1 l2 w1 w2 k : Forall digit l1 → Forall digit l2 → fits l1 w1 k → fits l2 w2 k → l1 = [] ∨ l2 = [] →
  (if existsb (λ d, negb (d =? 0)) l1 then 1 else if existsb (λ d, negb (d =? 0)) l2 then -1 else 0) =
  cmp_Z (sval l1 w1 k ?= sval l2 w2 k).
Proof.
  intros H1 H2 Hf1 Hf2 He. rewrite (sval_nonzero l1 w1 k), (sval_nonzero l2 w2 k) by done.
  pose proof (sval_bound _ _ _ H1 Hf1). pose proof (sval_bound _ _ _ H2 Hf2).
  destruct (Z.eqb_spec (sval l1 w1 k) 0) as [E1|E1]; cbn [negb].
  - rewrite E1. destruct (Z.eqb_spec (sval l2 w2 k) 0) as [->|E2]; [done|]. cbn [negb]. by rewrite (proj2 (Z.compare_lt_iff _ _)) by lia.
  - destruct He as [->| ->]; [done|]. rewrite sval_nil. by rewrite (proj2 (Z.compare_gt_iff _ _)) by lia.
Qed.

Lemma cmp_abs_common_spec l1 w1 l2 w2 k : Forall digit l1 → Forall digit l2 → fits l1 w1 k → fits l2 w2 k →
  cmp_abs_common l1 w1 l2 w2 = cmp_Z (sval l1 w1 k ?= sval l2 w2 k).
Proof.
  intros H1 H2 Hf1 Hf2. unfold cmp_abs_common. pose proof (skip_high_spec k w2 l1 w1 H1 Hf1) as S1.
  destruct (skip_high l1 w1 w2) as [[l1' w1']|].
  2:{ pose proof (sval_bound _ _ _ H2 Hf2). by rewrite (proj2 (Z.compare_gt_iff _ _)) by lia. }
  destruct S1 as (<- & H1' & Hf1' & _ & Ha & Hb & Hc). pose proof (skip_high_spec k w1' l2 w2 H2 Hf2) as S2.
  destruct (skip_high l2 w2 w1') as [[l2' w2']|].
  2:{ pose proof (sval_bound _ _ _ H1' Hf1'). by rewrite (proj2 (Z.compare_lt_iff _ _)) by lia. }
  destruct S2 as (<- & H2' & Hf2' & _ & Ha' & Hb' & Hc'). destruct (Z.eqb_spec w1' w2') as [<-|Hne].
  - pose proof (cmp_common_spec k l1' l2' w1' H1' H2' Hf1' Hf2') as S. destruct (cmp_common l1' l2') as [[stat r1] r2].
    destruct S as [Ia Ib]. destruct (Z.eqb_spec stat 0) as [Es|Es]; cbn [negb]; [|by apply Ia].
    destruct (Ib Es) as (w' & c & J1 & J2 & J3 & J4 & J5 & -> & ->). rewrite Z.add_compare_mono_l. by apply cmp_tail.
  - cbn [Z.eqb negb]. apply cmp_tail; try done.
    destruct (decide (w2 < w1')) as [?|?]; [left; apply Hc; lia|right; apply Hc'].
    destruct (decide (w1' < w2)); [pose proof (Hb' ltac:(lia)); lia|]. pose proof (Ha' ltac:(lia)). lia.
Qed.

Lemma cmp_abs_spec v1 v2 : var_ok v1 → var_ok v2 → cmp_abs v1 v2 = cmp_Z (absval v1 ?= absval v2)%Q.
Proof.
  intros [H1 _ _] [H2 _ _]. destruct (fits_max v1 v2) as [Hf1 Hf2]. set (k := Z.max _ _) in *. unfold cmp_abs.
  rewrite (cmp_abs_common_spec _ _ _ _ k) by done.
  by rewrite (absval_sval v1 k), (absval_sval v2 k), Q_scale_compare by done.
Qed.

Lemma absval_zero v : nv_digits v = [] → (absval v == 0)%Q.
Proof. intros E. unfold absval. rewrite E. apply Qmult_0_l. Qed.

Lemma starts_nonzero_num l : Forall digit l → starts_nonzero l → l ≠ [] → 0 < num l.
Proof.
  intros Hd Hs Hne. destruct l as [|d l]; [done|]. apply Forall_cons in Hd as [Hd Hl]. rewrite num_cons.
  pose proof (num_bound l Hl). pose proof (B_pos (length l)). unfold digit in Hd. simpl in Hs. nia.
Qed.

(** A stripped variable with digits is not zero. *)
Lemma absval_nonzero v : var_ok v → starts_nonzero (nv_digits v) → nv_digits v ≠ [] → (0 < absval v)%Q.
Proof.
  intros [Hd _ _] Hs Hne. unfold absval. apply Qmult_lt_0_compat; [|apply base_pos].
  change 0%Q with (inject_Z 0). rewrite <- Zlt_Qlt. by apply starts_nonzero_num.
Qed.

Lemma stripped_neg v : stripped v → nv_sign v = NUMERIC_NEG → nv_digits v ≠ [].
Proof. intros (_ & _ & H) E Hn. destruct (H Hn) as [_ H']. by rewrite H' in E. Qed.

Lemma nonzero_digits v : (0 < absval v)%Q → nv_digits v ≠ [].
Proof. intros H E. rewrite absval_zero in H by done. by apply Qlt_irrefl in H. Qed.

(** ** Addition and subtraction *)

(** The result of an operation on signed variables. *)
Definition result (r : NumericVar) (x : Q) (dscale : Z) : Prop :=
  var_ok r ∧ (value r == x)%Q ∧ nv_dscale r = dscale.

Lemma value_eq v : value v = if nv_sign v =? NUMERIC_NEG then (- absval v)%Q else absval v.
Proof. done. Qed.

Lemma signed_result r x dscale sign y :
  abs_result r x dscale → sign = NUMERIC_POS ∨ sign = NUMERIC_NEG → (y == if (sign =? NUMERIC_NEG)%Z then - x else x)%Q →
  result (set_sign sign r) y dscale ∧ (sign = NUMERIC_POS ∨ (0 < x)%Q → stripped (set_sign sign r)).
Proof.
  intros (Hv & (Hs1 & Hs2 & Hs3) & Hx & Hsign & Hd) Hsg Hy. split.
  - split; [destruct Hv; by split|]. split; [|done]. rewrite Hy, value_eq. cbn [nv_sign set_sign].
    change (absval (set_sign sign r)) with (absval r). destruct (sign =? NUMERIC_NEG); rewrite Hx; reflexivity.
  - intros Hz. split; [done|]. split; [done|]. intros E. cbn [nv_digits set_sign nv_weight nv_sign] in *.
    destruct (Hs3 E) as [Hw _]. split; [done|]. destruct Hz as [Hz|Hz]; [done|].
    rewrite <- Hx in Hz. by apply nonzero_digits in Hz.
Qed.

Lemma sub_signed_spec v1 v2 greater less y : var_ok v1 → var_ok v2 →
  (greater = NUMERIC_POS ∧ less = NUMERIC_NEG ∨ greater = NUMERIC_NEG ∧ less = NUMERIC_POS) →
  (y == if (greater =? NUMERIC_NEG)%Z then absval v2 - absval v1 else absval v1 - absval v2)%Q →
  ∃ r, sub_signed v1 v2 greater less = Ret r ∧ result r y (Z.max (nv_dscale v1) (nv_dscale v2)) ∧ stripped r.
Proof.
  intros H1 H2 Hsg Hy. unfold sub_signed. rewrite cmp_abs_spec by done.
  destruct (Qcompare_spec (absval v1) (absval v2)) as [E|E|E]; cbn [cmp_Z Z.eqb Pos.eqb].
  - eexists. split; [done|]. split; [|done]. split; [split; [constructor|constructor|by left]|]. split; [|done].
    set (r := zero_var _). assert (value r == 0)%Q as -> by (apply Qmult_0_l). rewrite Hy. destruct (_ =? _)%Z; rewrite E; ring.
  - destruct (sub_abs_spec v2 v1 H2 H1 E) as (r & -> & Hr). cbn [mbind outcome_bind].
    eexists. split; [done|]. rewrite Z.max_comm in Hr.
    destruct (signed_result r _ _ less y Hr) as [G1 G2]; [destruct Hsg as [[-> ->]|[-> ->]]; auto| |split; [done|apply G2; right; lra]].
    rewrite Hy. destruct Hsg as [[-> ->]|[-> ->]]; cbn; ring.
  - destruct (sub_abs_spec v1 v2 H1 H2 E) as (r & -> & Hr). cbn [mbind outcome_bind].
    eexists. split; [done|].
    destruct (signed_result r _ _ greater y Hr) as [G1 G2]; [destruct Hsg as [[-> ->]|[-> ->]]; auto| |split; [done|apply G2; right; lra]].
    rewrite Hy. destruct Hsg as [[-> ->]|[-> ->]]; cbn; ring.
Qed.

Lemma add_signed_spec v1 v2 sign y : var_ok v1 → var_ok v2 → sign = NUMERIC_POS ∨ sign = NUMERIC_NEG →
  (y == if (sign =? NUMERIC_NEG)%Z then - (absval v1 + absval v2) else absval v1 + absval v2)%Q →
  ∃ r, (r ← add_abs v1 v2; Ret (set_sign sign r)) = Ret r ∧ result r y (Z.max (nv_dscale v1) (nv_dscale v2)) ∧
    (sign = NUMERIC_POS ∨ (0 < absval v1)%Q → stripped r).
Proof.
  intros H1 H2 Hsg Hy. destruct (add_abs_spec v1 v2 H1 H2) as (r & -> & Hr). cbn [mbind outcome_bind].
  eexists. split; [done|]. destruct (signed_result r _ _ sign y Hr Hsg Hy) as [G1 G2]. split; [done|].
  intros [Hz|Hz]; apply G2; [by left|]. right. pose proof (absval_nonneg v2 H2). lra.
Qed.

Lemma add_var_spec v1 v2 : var_ok v1 → var_ok v2 →
  ∃ r, add_var v1 v2 = Ret r ∧ result r (value v1 + value v2) (Z.max (nv_dscale v1) (nv_dscale v2)) ∧
    (stripped v1 → stripped r).
Proof.
  intros H1 H2. unfold add_var. rewrite !value_eq.
  destruct (vo_sign _ H1) as [E1|E1], (vo_sign _ H2) as [E2|E2]; rewrite E1, E2; cbn [Z.eqb NUMERIC_POS NUMERIC_NEG Pos.eqb].
  - destruct (add_signed_spec v1 v2 NUMERIC_POS (absval v1 + absval v2)%Q) as (r & -> & G1 & G2); auto; [reflexivity|].
    exists r. auto.
  - destruct (sub_signed_spec v1 v2 NUMERIC_POS NUMERIC_NEG (absval v1 + - absval v2)%Q) as (r & -> & G1 & G2); auto; [reflexivity|].
    exists r. auto.
  - destruct (sub_signed_spec v1 v2 NUMERIC_NEG NUMERIC_POS (- absval v1 + absval v2)%Q) as (r & -> & G1 & G2); auto; [cbn; ring|].
    exists r. auto.
  - destruct (add_signed_spec v1 v2 NUMERIC_NEG (- absval v1 + - absval v2)%Q) as (r & -> & G1 & G2); auto; [cbn; ring|].
    exists r. split; [done|]. split; [done|]. intros Hs. apply G2. right.
    apply absval_nonzero; [done|apply Hs|by apply stripped_neg].
Qed.

Lemma sub_var_spec v1 v2 : var_ok v1 → var_ok v2 →
  ∃ r, sub_var v1 v2 = Ret r ∧ result r (value v1 - value v2) (Z.max (nv_dscale v1) (nv_dscale v2)) ∧
    (stripped v1 → stripped r).
Proof.
  intros H1 H2. unfold sub_var. rewrite !value_eq.
  destruct (vo_sign _ H1) as [E1|E1], (vo_sign _ H2) as [E2|E2]; rewrite E1, E2; cbn [Z.eqb NUMERIC_POS NUMERIC_NEG Pos.eqb].
  - destruct (sub_signed_spec v1 v2 NUMERIC_POS NUMERIC_NEG (absval v1 - absval v2)%Q) as (r & -> & G1 & G2); auto; [reflexivity|].
    exists r. auto.
  - destruct (add_signed_spec v1 v2 NUMERIC_POS (absval v1 - - absval v2)%Q) as (r & -> & G1 & G2); auto; [cbn; ring|].
    exists r. auto.
  - destruct (add_signed_spec v1 v2 NUMERIC_NEG (- absval v1 - absval v2)%Q) as (r & -> & G1 & G2); auto; [cbn; ring|].
    exists r. split; [done|]. split; [done|]. intros Hs. apply G2. right.
    apply absval_nonzero; [done|apply Hs|by apply stripped_neg].
  - destruct (sub_signed_spec v1 v2 NUMERIC_NEG NUMERIC_POS (- absval v1 - - absval v2)%Q) as (r & -> & G1 & G2); auto; [cbn; ring|].
    exists r. auto.
Qed.

Lemma Qcmp_lt x y : (x < y)%Q → cmp_Z (x ?= y)%Q = -1.
Proof. intros H. by rewrite (proj1 (Qlt_alt _ _) H). Qed.
Lemma Qcmp_gt x y : (y < x)%Q → cmp_Z (x ?= y)%Q = 1.
Proof. intros H. by rewrite (proj1 (Qgt_alt _ _) H). Qed.
Lemma Qcmp_eq x y : (x == y)%Q → cmp_Z (x ?= y)%Q = 0.
Proof. intros H. by rewrite (proj1 (Qeq_alt _ _) H). Qed.
Lemma Qcmp_opp x y : (- x ?= - y)%Q = (y ?= x)%Q.
Proof.
  destruct (Qcompare_spec y x) as [E|E|E].
  - apply (proj1 (Qeq_alt _ _)). by rewrite E.
  - apply (proj1 (Qlt_alt _ _)). lra.
  - apply (proj1 (Qgt_alt _ _)). lra.
Qed.

(** Variables whose first digit is not zero are compared by value. *)
Lemma cmp_var_spec v1 v2 : var_ok v1 → var_ok v2 → starts_nonzero (nv_digits v1) → starts_nonzero (nv_digits v2) →
  cmp_var v1 v2 = cmp_Z (value v1 ?= value v2)%Q.
Proof.
  intros H1 H2 Hs1 Hs2. unfold cmp_var, cmp_var_common. rewrite !value_eq.
  assert (∀ v, Z.of_nat (length (nv_digits v)) = 0 → (absval v == 0)%Q) as Hz.
  { intros v E. apply absval_zero. by destruct (nv_digits v). }
  assert (∀ v, var_ok v → starts_nonzero (nv_digits v) → Z.of_nat (length (nv_digits v)) ≠ 0 → (0 < absval v)%Q) as Hnz.
  { intros v Hv Hs E. apply absval_nonzero; [done|done|]. intros E'. by rewrite E' in E. }
  assert (0 <= absval v1)%Q as P1 by (by apply absval_nonneg). assert (0 <= absval v2)%Q as P2 by (by apply absval_nonneg).
  destruct (vo_sign _ H1) as [E1|E1], (vo_sign _ H2) as [E2|E2]; rewrite E1, E2; cbn [Z.eqb NUMERIC_POS NUMERIC_NEG Pos.eqb];
    (destruct (Z.eqb_spec (Z.of_nat (length (nv_digits v1))) 0) as [Z1|Z1];
      [apply Hz in Z1|apply (Hnz _ H1 Hs1) in Z1]);
    (destruct (Z.eqb_spec (Z.of_nat (length (nv_digits v2))) 0) as [Z2|Z2];
      [apply Hz in Z2|apply (Hnz _ H2 Hs2) in Z2]); symmetry;
    first [symmetry; by apply (cmp_abs_spec v1 v2)
          |rewrite Qcmp_opp; symmetry; by apply (cmp_abs_spec v2 v1)
          |apply Qcmp_eq; lra|apply Qcmp_lt; lra|apply Qcmp_gt; lra].
Qed.

(** ** The packed format *)

(** The header word of [make_result], from its parts. *)
Definition short_header (sign dscale weight : Z) : Z :=
  uint16_of
    (Z.lor (Z.lor (Z.lor (if sign =? NUMERIC_NEG then Z.lor NUMERIC_SHORT NUMERIC_SHORT_SIGN_MASK else NUMERIC_SHORT)
                         (Z.shiftl dscale NUMERIC_SHORT_DSCALE_SHIFT))
                  (if weight <? 0 then NUMERIC_SHORT_WEIGHT_SIGN_MASK else 0))
           (Z.land weight NUMERIC_SHORT_WEIGHT_MASK)).
Definition long_header (sign dscale : Z) : Z := uint16_of (Z.lor sign (Z.land dscale NUMERIC_DSCALE_MASK)).

(** What a mask shows of the header. *)
Lemma short_header_land m sign dscale weight :
  0 ≤ dscale ≤ NUMERIC_SHORT_DSCALE_MAX → (sign = NUMERIC_POS ∨ sign = NUMERIC_NEG) →
  Z.land (short_header sign dscale weight) m =
  Z.lor (Z.lor (Z.lor (Z.land (if sign =? NUMERIC_NEG then 0xA000 else 0x8000) m)
                      (Z.land (Z.shiftl dscale 7) (Z.land 0x1F80 m)))
               (Z.land (if weight <? 0 then 0x40 else 0) m))
        (Z.land weight (Z.land 0x3F m)).
Proof.
  intros Hd Hs. unfold short_header, wrap_u. rewrite <- (Z.land_ones _ 16) by lia.
  assert (Z.shiftl dscale 7 = Z.land (Z.shiftl dscale 7) 0x1F80) as E.
  { change 0x1F80 with (Z.shiftl (Z.ones 6) 7). rewrite <- Z.shiftl_land, Z.land_ones by lia.
    rewrite Z.mod_small; [done|]. change NUMERIC_SHORT_DSCALE_MAX with 63 in Hd. lia. }
  change NUMERIC_SHORT_DSCALE_SHIFT with 7. rewrite E at 1. rewrite !Z.land_lor_distr_l.
  rewrite <- !Z.land_assoc, !(Z.land_assoc _ (Z.ones 16) m).
  by destruct Hs as [-> | ->], (weight <? 0).
Qed.

Lemma long_header_land m sign dscale : (sign = NUMERIC_POS ∨ sign = NUMERIC_NEG) →
  Z.land (long_header sign dscale) m = Z.lor (Z.land sign m) (Z.land dscale (Z.land NUMERIC_DSCALE_MASK m)).
Proof.
  intros Hs. unfold long_header, wrap_u. rewrite <- (Z.land_ones _ 16) by lia. rewrite !Z.land_lor_distr_l, <- !Z.land_assoc.
  rewrite !(Z.land_assoc _ (Z.ones 16) m). by destruct Hs as [-> | ->].
Qed.

(** The weight of a short header. *)
Lemma short_weights :
  forallb (λ w, Z.lor (if w <? 0 then Z.lnot NUMERIC_SHORT_WEIGHT_MASK else 0) (Z.land w NUMERIC_SHORT_WEIGHT_MASK) =? w)
    (seqZ (-64) 128) = true.
Proof. reflexivity. Qed.

(** The parts that the macros read from a packed number. *)
Definition decodes (n : NumericData) (digits : list Z) (weight sign dscale : Z) : Prop :=
  NUMERIC_NDIGITS n = Z.of_nat (length digits) ∧ NUMERIC_DIGITS n = digits ∧ NUMERIC_WEIGHT n = Ret weight ∧
  NUMERIC_SIGN n = sign ∧ NUMERIC_DSCALE n = dscale ∧ NUMERIC_IS_NAN n = false.

Lemma short_decodes digits weight sign dscale :
  0 ≤ dscale → NUMERIC_CAN_BE_SHORT dscale weight = true → sign = NUMERIC_POS ∨ sign = NUMERIC_NEG →
  decodes (mkNumeric (short_header sign dscale weight) digits) digits weight sign dscale.
Proof.
  intros Hd Hshort Hs. unfold NUMERIC_CAN_BE_SHORT in Hshort. apply andb_true_iff in Hshort as [[H1 H2]%andb_true_iff H3].
  apply Z.leb_le in H1, H2, H3. set (n := mkNumeric _ _).
  assert (NUMERIC_FLAGBITS n = NUMERIC_SHORT) as Hf.
  { unfold NUMERIC_FLAGBITS, n. cbn [n_header]. rewrite short_header_land by done.
    change (Z.land 0x1F80 NUMERIC_SIGN_MASK) with 0. change (Z.land 0x3F NUMERIC_SIGN_MASK) with 0.
    rewrite !Z.land_0_r. by destruct Hs as [-> | ->], (weight <? 0). }
  unfold decodes, NUMERIC_NDIGITS, header_words, NUMERIC_DIGITS, NUMERIC_WEIGHT, NUMERIC_SIGN, NUMERIC_DSCALE, NUMERIC_IS_NAN, NUMERIC_IS_SHORT.
  rewrite Hf. change (NUMERIC_SHORT =? NUMERIC_SHORT) with true. cbn [n_header n_words n].
  rewrite !short_header_land by done.
  split; [change (Z.land NUMERIC_SHORT 32768 =? 0) with false; lia|]. split; [done|]. split; [|split; [|split; [|done]]].
  - change (Z.land 0x1F80 NUMERIC_SHORT_WEIGHT_SIGN_MASK) with 0. change (Z.land 0x3F NUMERIC_SHORT_WEIGHT_SIGN_MASK) with 0.
    change (Z.land 0x1F80 NUMERIC_SHORT_WEIGHT_MASK) with 0. change (Z.land 0x3F NUMERIC_SHORT_WEIGHT_MASK) with NUMERIC_SHORT_WEIGHT_MASK.
    rewrite !Z.land_0_r. pose proof (proj1 (forallb_forall _ _) short_weights weight) as Hw. cbv beta in Hw.
    rewrite Z.eqb_eq in Hw. etrans; [|apply (f_equal Ret), Hw, list_elem_of_In, elem_of_seqZ].
    2:{ change NUMERIC_SHORT_WEIGHT_MAX with 63 in *. change NUMERIC_SHORT_WEIGHT_MIN with (-64) in *. lia. }
    f_equal. by destruct Hs as [-> | ->], (weight <? 0).
  - change (Z.land 0x1F80 NUMERIC_SHORT_SIGN_MASK) with 0. change (Z.land 0x3F NUMERIC_SHORT_SIGN_MASK) with 0.
    rewrite !Z.land_0_r. by destruct Hs as [-> | ->], (weight <? 0).
  - change (Z.land 0x1F80 NUMERIC_SHORT_DSCALE_MASK) with (Z.shiftl (Z.ones 6) 7). change (Z.land 0x3F NUMERIC_SHORT_DSCALE_MASK) with 0.
    rewrite <- Z.shiftl_land, Z.land_ones, Z.mod_small by (change NUMERIC_SHORT_DSCALE_MAX with 63 in *; lia).
    rewrite Z.land_0_r, Z.lor_0_r. transitivity (Z.shiftr (Z.shiftl dscale 7) 7); [|by rewrite Z.shiftr_shiftl_l, Z.shiftl_0_r by lia].
    f_equal. rewrite Z.lor_comm. destruct Hs as [-> | ->], (weight <? 0); apply Z.lor_0_l.
Qed.

Lemma long_decodes digits weight sign dscale : sign = NUMERIC_POS ∨ sign = NUMERIC_NEG →
  decodes (mkNumeric (long_header sign dscale) (weight :: digits)) digits weight sign (Z.land dscale NUMERIC_DSCALE_MASK).
Proof.
  intros Hs. set (n := mkNumeric _ _). assert (NUMERIC_FLAGBITS n = sign) as Hf.
  { unfold NUMERIC_FLAGBITS, n. cbn [n_header]. rewrite long_header_land by done.
    change (Z.land NUMERIC_DSCALE_MASK NUMERIC_SIGN_MASK) with 0. rewrite Z.land_0_r. by destruct Hs as [-> | ->]. }
  unfold decodes, NUMERIC_NDIGITS, header_words, NUMERIC_DIGITS, NUMERIC_WEIGHT, NUMERIC_SIGN, NUMERIC_DSCALE, NUMERIC_IS_NAN, NUMERIC_IS_SHORT.
  rewrite Hf. cbn [n_header n_words n]. rewrite !long_header_land by done.
  change (Z.land NUMERIC_DSCALE_MASK NUMERIC_DSCALE_MASK) with NUMERIC_DSCALE_MASK.
  assert (Z.of_nat (length (weight :: digits)) - 1 = Z.of_nat (length digits)) as E by (cbn [length]; lia).
  by destruct Hs as [-> | ->].
Qed.

(** What [make_result] packs: the stripped variable. *)
Lemma make_result_strip v : nv_sign v ≠ NUMERIC_NAN →
  let s := strip_var v in
  make_result v =
  let result :=
    if NUMERIC_CAN_BE_SHORT (nv_dscale v) (nv_weight s)
    then mkNumeric (short_header (nv_sign s) (nv_dscale v) (nv_weight s)) (nv_digits s)
    else mkNumeric (long_header (nv_sign s) (nv_dscale v)) (int16_of (nv_weight s) :: nv_digits s) in
  if negb (NUMERIC_NDIGITS result =? Z.of_nat (length (nv_digits s))) then UB else
  w ← NUMERIC_WEIGHT result;
  if negb (w =? nv_weight s) || negb (NUMERIC_DSCALE result =? nv_dscale v)
  then Ereport ERRCODE_NUMERIC_VALUE_OUT_OF_RANGE else Ret result.
Proof.
  intros Hs. unfold make_result. rewrite (proj2 (Z.eqb_neq _ _) Hs).
  destruct (strip_spec (nv_digits v)) as (z1 & z2 & rest & E & _ & _ & Hstrip).
  destruct (Hstrip [] (nv_weight v)) as [-> ->]. unfold strip_var. destruct (Hstrip (nv_before v) (nv_weight v)) as [-> ->].
  by destruct rest.
Qed.

(** The numbers that have a packed form. *)
Definition packable (v : NumericVar) : bool :=
  (- 2 ^ 15 <=? nv_weight v) && (nv_weight v <? 2 ^ 15) && (nv_dscale v <=? NUMERIC_DSCALE_MASK).

Lemma make_result_spec v : var_ok v → 0 ≤ nv_dscale v →
  let s := strip_var v in
  if packable s then ∃ n, make_result v = Ret n ∧ decodes n (nv_digits s) (nv_weight s) (nv_sign s) (nv_dscale s)
  else make_result v = Ereport ERRCODE_NUMERIC_VALUE_OUT_OF_RANGE.
Proof.
  intros Hv Hd s. destruct (strip_var_spec v Hv) as (Hs & _ & _ & _ & Hds & _). fold s in Hs, Hds.
  rewrite make_result_strip by (destruct (vo_sign _ Hv) as [-> | ->]; done). fold s. cbv zeta. rewrite <- Hds in *. clear Hds Hv.
  unfold packable. destruct (NUMERIC_CAN_BE_SHORT (nv_dscale s) (nv_weight s)) eqn:Ec.
  - pose proof (short_decodes (nv_digits s) (nv_weight s) (nv_sign s) (nv_dscale s) Hd Ec (vo_sign _ Hs)) as Hn.
    unfold NUMERIC_CAN_BE_SHORT in Ec. apply andb_true_iff in Ec as [[H1 H2]%andb_true_iff H3]. apply Z.leb_le in H1, H2, H3.
    change NUMERIC_SHORT_DSCALE_MAX with 63 in *. change NUMERIC_SHORT_WEIGHT_MAX with 63 in *.
    change NUMERIC_SHORT_WEIGHT_MIN with (-64) in *. unfold NUMERIC_DSCALE_MASK.
    rewrite (proj2 (Z.leb_le _ (nv_weight s))), (proj2 (Z.ltb_lt (nv_weight s) _)), (proj2 (Z.leb_le (nv_dscale s) _)) by lia.
    cbn [andb]. eexists. split; [|exact Hn]. destruct Hn as (-> & _ & -> & _ & -> & _).
    rewrite Z.eqb_refl. cbn [negb mbind outcome_bind]. by rewrite !Z.eqb_refl.
  - pose proof (long_decodes (nv_digits s) (int16_of (nv_weight s)) (nv_sign s) (nv_dscale s) (vo_sign _ Hs)) as Hn.
    pose proof Hn as (-> & _ & -> & _ & -> & _). rewrite Z.eqb_refl. cbn [negb mbind outcome_bind].
    assert (Z.land (nv_dscale s) NUMERIC_DSCALE_MASK = (nv_dscale s) mod 2 ^ 14) as Em by (apply (Z.land_ones _ 14); lia).
    rewrite Em in *. pose proof (Z.mod_pos_bound (nv_dscale s) (2 ^ 14) eq_refl). unfold NUMERIC_DSCALE_MASK.
    destruct ((- 2 ^ 15 <=? nv_weight s) && (nv_weight s <? 2 ^ 15)) eqn:Ew; cbn [andb].
    + apply andb_true_iff in Ew as [W1%Z.leb_le W2%Z.ltb_lt].
      rewrite (wrap_s_small 16 (nv_weight s)) in * by (unfold is_sint; lia). rewrite Z.eqb_refl. cbn [negb orb].
      destruct (Z.leb_spec (nv_dscale s) 16383).
      * rewrite Z.mod_small in * by lia. rewrite Z.eqb_refl. cbn [negb]. by eexists.
      * rewrite (proj2 (Z.eqb_neq _ (nv_dscale s))) by lia. done.
    + rewrite (proj2 (Z.eqb_neq _ (nv_weight s))); [done|]. intros E. assert (is_sint 16 (nv_weight s)) as Hr.
      { rewrite <- E. apply wrap_s_bound. lia. }
      unfold is_sint in Hr. apply andb_false_iff in Ew as [Ew%Z.leb_gt|Ew%Z.ltb_ge]; lia.
Qed.

(** ** Rounding *)

(** Half rounds up. *)
Definition rnd (n m : Z) : Z := (2 * n + m) / (2 * m).

Lemma rnd_unique n m r : 0 < m → 2 * m * r - m ≤ 2 * n < 2 * m * r + m → rnd n m = r.
Proof. intros Hm H. unfold rnd. symmetry. apply (Z.div_unique _ _ _ (2 * n + m - 2 * m * r)); lia. Qed.

Lemma propagate_carry_spec l : Forall digit l →
  let '(r, out) := propagate_carry l in
  length r = length l ∧ Forall digit r ∧ num (rev r) + (if out then B (length l) else 0) = num (rev l) + 1.
Proof.
  induction l as [|d l IH]; intros H; [cbn [propagate_carry]; repeat split; constructor|].
  apply Forall_cons in H as [Hd Hl]. specialize (IH Hl). cbn [propagate_carry].
  destruct (Z.leb_spec NBASE (1 + d)) as [Hge|Hlt].
  - destruct (propagate_carry l) as [r out]. destruct IH as (I1 & I2 & I3). split; [by cbn [length]; rewrite I1|].
    split; [constructor; [unfold digit in *; lia|done]|]. cbn [rev length]. rewrite !num_snoc, B_succ. unfold digit in *.
    destruct out; lia.
  - split; [done|]. split; [constructor; [unfold digit in *; lia|done]|]. cbn [rev]. rewrite !num_snoc. lia.
Qed.

Lemma last_take l n : (0 < n ≤ length l)%nat → take n l = take (n - 1) l ++ [wd l (Z.of_nat n - 1)].
Proof.
  intros Hn. destruct (lookup_lt_is_Some_2 l (n - 1)) as [d Hd]; [lia|].
  replace n with (S (n - 1)) at 1 by lia. rewrite (take_S_r l (n - 1) d Hd). do 2 f_equal. unfold wd.
  replace (Z.to_nat (Z.of_nat n - 1)) with (n - 1)%nat by lia. by rewrite Hd.
Qed.

(** The power of ten that the last digit is rounded to. *)
Definition last_pow (di : Z) : Z := if di =? 0 then 1 else 10 ^ (4 - di).

Lemma round_powers_get di : 0 < di < 4 → arr_get round_powers di = Ret (last_pow di).
Proof. intros H. assert (di = 1 ∨ di = 2 ∨ di = 3) as [-> |[-> | ->]] by lia; done. Qed.

Lemma last_pow_cases di : 0 < di < 4 → last_pow di = 10 ∨ last_pow di = 100 ∨ last_pow di = 1000.
Proof. intros H. assert (di = 1 ∨ di = 2 ∨ di = 3) as [-> |[-> | ->]] by lia; auto. Qed.

(** The digits to keep and the carry, as a number. *)
Lemma round_last_spec l nd di : Forall digit l → 0 ≤ di < 4 →
  (nd < length l)%nat ∨ nd = length l ∧ 0 < di → (0 < di → (0 < nd)%nat) →
  ∃ kept carry, round_last l (Z.of_nat nd) di = Ret (kept, carry) ∧ length kept = nd ∧ Forall digit kept ∧
    num kept + (if (carry : bool) then if di =? 0 then 1 else NBASE else 0) =
    rnd (num l) (last_pow di * B (length l - nd)) * last_pow di.
Proof.
  intros Hl Hdi Hnd Hpos. pose proof (num_take_drop nd l ltac:(lia)) as Hnum.
  assert (Forall digit (take nd l)) as Htake by (by apply Forall_take). assert (Forall digit (drop nd l)) as Hdrop by (by apply Forall_drop).
  pose proof (num_bound _ Hdrop) as Hb. rewrite length_drop in Hb. set (Bm := B (length l - nd)) in *.
  assert (0 < Bm) by apply B_pos. unfold round_last. destruct (Z.eqb_spec di 0) as [->|Hdi0].
  - rewrite wd_get by lia. cbn [mbind outcome_bind]. rewrite Nat2Z.id. eexists _, _. split; [done|].
    split; [rewrite length_take; lia|]. split; [done|]. change (last_pow 0) with 1. rewrite !Z.mul_1_l, Z.mul_1_r.
    rewrite Hnum. symmetry. apply rnd_unique; [done|].
    destruct (lookup_lt_is_Some_2 l nd) as [d Hd]; [lia|]. assert (wd l (Z.of_nat nd) = d) as -> by (unfold wd; by rewrite Nat2Z.id, Hd).
    rewrite (drop_S l d nd Hd) in *. rewrite num_cons, length_drop in *. unfold Bm in *.
    replace (length l - nd)%nat with (S (length l - S nd)) in * by lia. rewrite B_succ in *.
    apply Forall_cons in Hdrop as [Hdd Hdr]. pose proof (num_bound _ Hdr) as Hb2. rewrite length_drop in Hb2. unfold digit in Hdd.
    set (Bk := B (length l - S nd)) in *. set (t := num (take nd l)) in *. set (r := num (drop (S nd) l)) in *.
    clearbody Bk t r. clear - Hdd Hb2. change HALF_NBASE with 5000. change NBASE with 10000 in *.
    destruct (Z.leb_spec 5000 d); nia.
  - rewrite round_powers_get by lia. cbn [mbind outcome_bind]. rewrite wd_get by lia. cbn [mbind outcome_bind].
    rewrite (last_take l nd) in * by lia. set (d := wd l (Z.of_nat nd - 1)) in *.
    replace (Z.to_nat (Z.of_nat nd - 1)) with (nd - 1)%nat by lia. rewrite num_snoc in Hnum.
    apply Forall_app in Htake as [Ht _]. assert (digit d) as Hd by (by apply wd_digit). set (T := num (take (nd - 1) l)) in *.
    assert (∀ d' c, digit d' → (∃ q, T * NBASE + d' + (if (c : bool) then NBASE else 0) = q * last_pow di ∧
        2 * last_pow di * q - last_pow di ≤ 2 * (T * NBASE + d) ∧ 2 * (T * NBASE + d) + 2 ≤ 2 * last_pow di * q + last_pow di) →
      ∃ kept carry, Ret (take (nd - 1) l ++ [d'], c) = Ret (kept, carry) ∧ length kept = nd ∧ Forall digit kept ∧
        num kept + (if (carry : bool) then NBASE else 0) = rnd (num l) (last_pow di * Bm) * last_pow di) as Hgo.
    { intros d' c Hd' (q & Hq & Hlo & Hhi). eexists _, _. split; [done|]. split; [rewrite length_app, length_take; simpl; lia|].
      split; [apply Forall_app; split; [done|by constructor]|]. rewrite num_snoc. fold T. rewrite Hq. f_equal. symmetry.
      assert (0 < last_pow di) by (destruct (last_pow_cases di ltac:(lia)) as [-> |[-> | ->]]; lia).
      apply rnd_unique; [nia|]. rewrite Hnum. nia. }
    assert (∃ a, NBASE = 2 * a * last_pow di ∧ 0 < a) as (a & Ha & Hap).
    { destruct (last_pow_cases di) as [-> |[-> | ->]]; [lia|exists 500|exists 50|exists 5]; done. }
    assert (∃ h, last_pow di = 2 * h ∧ 0 < h ∧ Z.quot (last_pow di) 2 = h) as (h & Hh & Hhp & ->).
    { destruct (last_pow_cases di) as [-> |[-> | ->]]; [lia|exists 5|exists 50|exists 500]; done. }
    set (p := last_pow di) in *. unfold digit in Hd. rewrite Z.rem_mod_nonneg by lia.
    pose proof (Z.div_mod d p ltac:(lia)) as Hdm. pose proof (Z.mod_pos_bound d p ltac:(lia)) as Hmb.
    pose proof (Z.div_pos d p ltac:(lia) ltac:(lia)) as Hq0. set (q := d / p) in *. set (e := d mod p) in *.
    assert (q < 2 * a) as Hqa by nia.
    destruct (Z.leb_spec h e).
    + destruct (Z.leb_spec NBASE (p + (d - e))).
      * apply Hgo; [unfold digit; nia|]. exists (T * (2 * a) + q + 1). nia.
      * apply Hgo; [unfold digit; nia|]. exists (T * (2 * a) + q + 1). nia.
    + apply Hgo; [unfold digit; nia|]. exists (T * (2 * a) + q). nia.
Qed.

Lemma spare_digit v : var_ok v → nv_before v ≠ [] → ∃ bs, rev (nv_before v) = 0 :: bs ∧ Forall (λ d, d = 0) bs.
Proof.
  intros [_ Hb _] Hne. apply (Forall_rev (P := λ d : Z, d = 0)) in Hb. destruct (rev (nv_before v)) as [|x bs] eqn:E.
  - destruct Hne. by rewrite <- (rev_involutive (nv_before v)), E.
  - apply Forall_cons in Hb as [-> Hb]. by exists bs.
Qed.

Lemma round_digits_spec v nd di : var_ok v → nv_before v ≠ [] → 0 ≤ di < 4 →
  (nd < length (nv_digits v))%nat ∨ nd = length (nv_digits v) ∧ 0 < di → (0 < di → (0 < nd)%nat) →
  ∃ before digits weight,
    round_digits (nv_before v) (nv_digits v) (nv_weight v) (Z.of_nat nd) di = Ret (before, digits, weight) ∧
    Forall digit digits ∧ Forall (λ d, d = 0) before ∧ Z.of_nat (length digits) - weight = Z.of_nat nd - nv_weight v ∧
    num digits = rnd (num (nv_digits v)) (last_pow di * B (length (nv_digits v) - nd)) * last_pow di.
Proof.
  intros Hv Hne Hdi Hnd Hpos. destruct (spare_digit v Hv Hne) as (bs & Hbs & Hbz). destruct Hv as [Hd Hb _]. unfold round_digits.
  destruct (round_last_spec (nv_digits v) nd di Hd Hdi Hnd Hpos) as (kept & carry & -> & Hlen & Hk & Heq).
  cbn [mbind outcome_bind]. destruct carry; cbn [negb].
  2:{ eexists _, _, _. split; [done|]. split; [done|]. split; [done|]. split; [lia|]. lia. }
  set (last := if di =? 0 then [] else drop (length kept - 1) kept).
  set (front := if di =? 0 then kept else take (length kept - 1) kept).
  assert (kept = front ++ last) as Hsplit by (unfold front, last; destruct (di =? 0); [by rewrite app_nil_r|by rewrite take_drop]).
  assert (Forall digit front ∧ Forall digit last) as [Hfd Hld] by (rewrite Hsplit in Hk; by apply Forall_app in Hk).
  assert (B (length last) = if di =? 0 then 1 else NBASE) as HB.
  { unfold last. destruct (Z.eqb_spec di 0); [done|]. rewrite length_drop.
    replace (length kept - (length kept - 1))%nat with 1%nat by lia. done. }
  pose proof (propagate_carry_spec (rev front) ltac:(by apply (Forall_rev (P := digit)))) as Hp.
  destruct (propagate_carry (rev front)) as [r out]. destruct Hp as (Hl & Hr & Hn). rewrite rev_involutive, length_rev in *.
  assert (Forall digit (rev r ++ last)) as Hdig by (apply Forall_app; split; [by apply (Forall_rev (P := digit))|done]).
  assert (length (rev r ++ last) = nd) as Hlr by (rewrite length_app, length_rev, Hl, <- Hlen, Hsplit, length_app; done).
  assert (num (rev r ++ last) + (if out then B nd else 0) = rnd (num (nv_digits v)) (last_pow di * B (length (nv_digits v) - nd)) * last_pow di) as Hfin.
  { rewrite <- Heq, Hsplit, !num_app, HB, <- Hlen. rewrite Hsplit, length_app, B_add, HB.
    destruct out, (di =? 0); nia. }
  destruct out; cbn [negb].
  - rewrite Hbs. change (NBASE <=? 1 + 0) with false. cbv iota. eexists _, _, _. split; [done|]. split; [constructor; [done|done]|].
    split; [by apply (Forall_rev (P := λ d : Z, d = 0))|]. split; [cbn [length]; lia|]. rewrite num_cons, Hlr. lia.
  - eexists _, _, _. split; [done|]. split; [done|]. split; [done|]. split; [lia|]. lia.
Qed.

(** *** Powers of ten *)

Abbreviation ten := (inject_Z 10).

Lemma ten_plus n m : (ten ^ (n + m) == ten ^ n * ten ^ m)%Q.
Proof. by apply Qpower_plus. Qed.
Lemma ten_pos n : (0 < ten ^ n)%Q.
Proof. by apply Qpower_0_lt. Qed.
Lemma ten_Z n : 0 ≤ n → (ten ^ n == inject_Z (10 ^ n))%Q.
Proof. intros Hn. symmetry. by apply Zpower_Qpower. Qed.
Lemma base_ten n : (base ^ n == ten ^ (4 * n))%Q.
Proof. rewrite Qpower_mult. apply Qpower_comp; done. Qed.
Lemma ten_inv n : (ten ^ n * ten ^ (- n) == 1)%Q.
Proof. rewrite <- ten_plus. by replace (n + - n) with 0 by lia. Qed.

Lemma Qfloor_unique x z : (inject_Z z <= x)%Q → (x < inject_Z (z + 1))%Q → Qfloor x = z.
Proof.
  intros H1 H2. pose proof (Qfloor_le x) as H3. pose proof (Qlt_floor x) as H4.
  assert (inject_Z z < inject_Z (Qfloor x + 1))%Q as A by lra. assert (inject_Z (Qfloor x) < inject_Z (z + 1))%Q as C by lra.
  rewrite <- Zlt_Qlt in A, C. lia.
Qed.

(** The nearest multiple of a power of ten, halves away from zero, and the truncation; in units of
    the power. *)
Definition round_units (x : Q) (scale : Z) : Z := Qfloor (x * ten ^ scale + (1 # 2)).
Definition trunc_units (x : Q) (scale : Z) : Z := Qfloor (x * ten ^ scale).

(** A fraction, as [x] in units of the power. *)
Lemma frac_floor n m y : 0 < m → (y * inject_Z m == inject_Z n)%Q → Qfloor y = n / m.
Proof.
  intros Hm Hy. pose proof (Z.div_mod n m ltac:(lia)) as Hd. pose proof (Z.mod_pos_bound n m Hm) as Hb.
  assert (0 < inject_Z m)%Q as Hm' by (change 0%Q with (inject_Z 0); by rewrite <- Zlt_Qlt).
  apply Qfloor_unique; [apply (Qmult_le_r _ _ _ Hm')|apply (Qmult_lt_r _ _ _ Hm')]; rewrite Hy, <- inject_Z_mult;
    [rewrite <- Zle_Qle|rewrite <- Zlt_Qlt]; lia.
Qed.

Lemma frac_round n m y : 0 < m → (y * inject_Z m == inject_Z n)%Q → Qfloor (y + (1 # 2)) = rnd n m.
Proof.
  intros Hm Hy. apply frac_floor; [lia|]. rewrite inject_Z_plus, !inject_Z_mult, <- Hy. change (inject_Z 2) with 2%Q. field.
Qed.

(** The number of decimal digits that rounding keeps. *)
Definition kept_digits (v : NumericVar) (rscale : Z) : Z := (nv_weight v + 1) * DEC_DIGITS + rscale.

Lemma units_frac v rscale :
  (absval v * ten ^ rscale == inject_Z (num (nv_digits v)) * ten ^ (kept_digits v rscale - 4 * nv_ndigits v))%Q.
Proof.
  unfold absval. rewrite base_ten, <- Qmult_assoc, <- ten_plus. unfold kept_digits, expo, DEC_DIGITS.
  by replace (4 * (nv_weight v + 1 - nv_ndigits v) + rscale) with ((nv_weight v + 1) * 4 + rscale - 4 * nv_ndigits v) by lia.
Qed.

Lemma units_digits v rscale m : kept_digits v rscale + m = 4 * nv_ndigits v → 0 ≤ m →
  (absval v * ten ^ rscale * inject_Z (10 ^ m) == inject_Z (num (nv_digits v)))%Q.
Proof.
  intros Hm Hp. rewrite units_frac, <- (ten_Z m) by done. rewrite <- Qmult_assoc, <- ten_plus.
  replace (_ + m) with 0 by lia. simpl. ring.
Qed.

Lemma units_exact v rscale : 4 * nv_ndigits v ≤ kept_digits v rscale →
  ∃ z, (absval v * ten ^ rscale == inject_Z z)%Q.
Proof.
  intros H. exists (num (nv_digits v) * 10 ^ (kept_digits v rscale - 4 * nv_ndigits v)).
  by rewrite units_frac, inject_Z_mult, <- ten_Z by lia.
Qed.

Lemma units_back x scale y : (x * ten ^ scale == y)%Q → (x == y * ten ^ (- scale))%Q.
Proof. intros <-. rewrite <- Qmult_assoc, ten_inv. ring. Qed.

Lemma Qfloor_half z : Qfloor (inject_Z z + (1 # 2)) = z.
Proof. apply Qfloor_unique; rewrite ?inject_Z_plus; change (inject_Z 1) with 1%Q; lra. Qed.

(** The digits that are kept, and the last of them. *)
Lemma kept_split di : 0 ≤ di →
  let nd := Z.quot (di + DEC_DIGITS - 1) DEC_DIGITS in let r := Z.rem di DEC_DIGITS in
  0 ≤ r < 4 ∧ (r = 0 → di = 4 * nd) ∧ (0 < r → di = 4 * (nd - 1) + r ∧ 0 < nd) ∧ 0 ≤ nd.
Proof.
  intros Hdi nd r. unfold nd, r, DEC_DIGITS. rewrite Z.quot_div_nonneg, Z.rem_mod_nonneg by lia.
  pose proof (Z.div_mod di 4 ltac:(lia)). pose proof (Z.mod_pos_bound di 4 ltac:(lia)).
  pose proof (Z.div_mod (di + 4 - 1) 4 ltac:(lia)). pose proof (Z.mod_pos_bound (di + 4 - 1) 4 ltac:(lia)). lia.
Qed.

Lemma last_pow_B di n nd : 0 ≤ di → (nd ≤ n)%nat →
  Z.of_nat nd = Z.quot (di + DEC_DIGITS - 1) DEC_DIGITS →
  last_pow (Z.rem di DEC_DIGITS) * B (n - nd) = 10 ^ (4 * Z.of_nat n - di) ∧
  last_pow (Z.rem di DEC_DIGITS) = 10 ^ (4 * Z.of_nat nd - di).
Proof.
  intros Hdi Hn Hnd. destruct (kept_split di Hdi) as (Hr & H0 & Hp & _). rewrite <- Hnd in *. set (r := Z.rem di DEC_DIGITS) in *.
  assert (last_pow r = 10 ^ (4 * Z.of_nat nd - di) ∧ 0 ≤ 4 * Z.of_nat nd - di) as [-> Hnn].
  { unfold last_pow. destruct (Z.eqb_spec r 0) as [E|E].
    - replace (4 * Z.of_nat nd - di) with 0 by (rewrite (H0 E); lia). done.
    - destruct Hp as [E' _]; [lia|]. replace (4 * Z.of_nat nd - di) with (4 - r) by lia. split; [done|lia]. }
  split; [|done]. change NBASE with (10 ^ 4). rewrite <- Z.pow_mul_r, <- Z.pow_add_r by lia. f_equal. lia.
Qed.

(** The value of [v] with another absolute value. *)
Definition signed (v : NumericVar) (x : Q) : Q := if nv_sign v =? NUMERIC_NEG then (- x)%Q else x.

Lemma value_signed v r x : var_ok v → (nv_sign r = nv_sign v ∨ (x == 0)%Q) → (absval r == x)%Q → (value r == signed v x)%Q.
Proof.
  intros Hv Hs Hx. rewrite value_eq. unfold signed. destruct Hs as [-> |H0].
  - destruct (_ =? _); by rewrite Hx.
  - destruct (nv_sign r =? _), (nv_sign v =? _); rewrite Hx, H0; reflexivity.
Qed.

(** The rounded digits, as a value. *)
Lemma scaled_digits v r rscale nd n :
  Z.of_nat (length (nv_digits r)) - nv_weight r = Z.of_nat nd - nv_weight v →
  num (nv_digits r) = n * 10 ^ (4 * Z.of_nat nd - kept_digits v rscale) → 0 ≤ 4 * Z.of_nat nd - kept_digits v rscale →
  (absval r == inject_Z n * ten ^ (- rscale))%Q.
Proof.
  intros Hl Hn Hp. unfold absval. rewrite Hn, inject_Z_mult, <- ten_Z, base_ten, <- Qmult_assoc, <- ten_plus by done.
  unfold kept_digits, expo, nv_ndigits, DEC_DIGITS in *.
  by replace (4 * Z.of_nat nd - ((nv_weight v + 1) * 4 + rscale) + 4 * (nv_weight r + 1 - Z.of_nat (length (nv_digits r)))) with (- rscale) by lia.
Qed.

Lemma small_units v rscale m : var_ok v → kept_digits v rscale + m ≤ 0 → 0 ≤ m →
  (0 <= absval v * ten ^ rscale)%Q ∧ (absval v * ten ^ rscale * inject_Z (10 ^ m) < 1)%Q.
Proof.
  intros Hv Hm Hp. split.
  { apply Qmult_le_0_compat; [by apply absval_nonneg|apply Qlt_le_weak, ten_pos]. }
  rewrite units_frac, <- (ten_Z m), <- Qmult_assoc, <- ten_plus by done.
  destruct (num_bound _ (vo_digits _ Hv)) as [_ Hb]. fold (nv_ndigits v) in Hb. change NBASE with (10 ^ 4) in Hb.
  rewrite <- Z.pow_mul_r in Hb by (unfold nv_ndigits; lia). rewrite Zlt_Qlt, <- ten_Z in Hb by (unfold nv_ndigits; lia).
  set (e := kept_digits v rscale - 4 * nv_ndigits v + m).
  apply (Qlt_le_trans _ (ten ^ (4 * nv_ndigits v) * ten ^ e)).
  - by apply (Qmult_lt_r _ _ _ (ten_pos e)).
  - rewrite <- ten_plus. change 1%Q with (ten ^ 0)%Q. apply Qpower_le_compat_l; [unfold e; lia|done].
Qed.

Definition rounded_to (v r : NumericVar) (units : Q → Z → Z) (rscale : Z) : Prop :=
  var_ok r ∧ nv_dscale r = rscale ∧ (value r == signed v (inject_Z (units (absval v) rscale) * ten ^ (- rscale)))%Q ∧
  (absval r == inject_Z (units (absval v) rscale) * ten ^ (- rscale))%Q.

Lemma rounded_zero v units rscale before :
  var_ok v → Forall (λ d, d = 0) before → units (absval v) rscale = 0 →
  rounded_to v (mkVar before [] 0 NUMERIC_POS rscale) units rscale.
Proof.
  intros Hv Hb Hu. unfold rounded_to. rewrite Hu. set (r := mkVar _ _ _ _ _).
  assert (absval r == inject_Z 0 * ten ^ (- rscale))%Q as Ha by (unfold absval; simpl; by rewrite !Qmult_0_l).
  split; [split; [constructor|done|by left]|]. split; [done|]. split; [|done].
  apply value_signed; [done| |done]. right. apply Qmult_0_l.
Qed.

Lemma rounded_same v units rscale :
  var_ok v → (absval v == inject_Z (units (absval v) rscale) * ten ^ (- rscale))%Q →
  rounded_to v (set_dscale rscale v) units rscale.
Proof.
  intros Hv Ha. assert (absval (set_dscale rscale v) = absval v) as E by done.
  split; [destruct Hv; by split|]. split; [done|]. rewrite E. split; [|done]. apply value_signed; [done|by left|by rewrite E].
Qed.

(** The nearest number of the scale. *)
Lemma round_var_spec v rscale : var_ok v → nv_before v ≠ [] →
  ∃ r, round_var v rscale = Ret r ∧ rounded_to v r round_units rscale.
Proof.
  intros Hv Hne. unfold round_var. fold (kept_digits v rscale). set (di := kept_digits v rscale).
  destruct (Z.ltb_spec di 0) as [Hneg|Hpos].
  { eexists. split; [done|]. apply rounded_zero; [done|apply Hv|]. unfold round_units.
    destruct (small_units v rscale 1 Hv) as [H1 H2]; [fold di; lia|lia|]. change (inject_Z (10 ^ 1)) with 10%Q in H2.
    apply Qfloor_unique; change (inject_Z 0) with 0%Q; change (inject_Z (0 + 1)) with 1%Q; lra. }
  destruct (kept_split di Hpos) as (Hr & H0 & Hp & Hnd). set (nd := Z.quot (di + DEC_DIGITS - 1) DEC_DIGITS) in *.
  set (dr := Z.rem di DEC_DIGITS) in *.
  destruct ((nd <? nv_ndigits v) || ((nd =? nv_ndigits v) && (0 <? dr))) eqn:Ec.
  - assert ((Z.to_nat nd < length (nv_digits v))%nat ∨ Z.to_nat nd = length (nv_digits v) ∧ 0 < dr) as Hc.
    { unfold nv_ndigits in Ec. apply orb_true_iff in Ec as [E%Z.ltb_lt|[E%Z.eqb_eq E'%Z.ltb_lt]%andb_true_iff]; lia. }
    destruct (round_digits_spec v (Z.to_nat nd) dr Hv Hne Hr Hc ltac:(lia)) as (before & digits & weight & Hrun & Hd & Hb & Hl & Hn).
    rewrite Z2Nat.id in Hrun by done. rewrite Hrun. cbn [mbind outcome_bind]. eexists. split; [done|]. set (r := mkVar _ _ _ _ _).
    destruct (last_pow_B di (length (nv_digits v)) (Z.to_nat nd) Hpos ltac:(lia) ltac:(lia)) as [L1 L2]. fold dr in L1, L2.
    rewrite L1, L2 in Hn. assert (0 ≤ 4 * Z.of_nat (Z.to_nat nd) - di) as Hge by (destruct (decide (dr = 0)) as [E|E]; [rewrite (H0 E)|]; lia).
    assert (round_units (absval v) rscale = rnd (num (nv_digits v)) (10 ^ (4 * Z.of_nat (length (nv_digits v)) - di))) as Hu.
    { apply frac_round; [apply Z.pow_pos_nonneg; lia|]. apply units_digits; fold di; unfold nv_ndigits; lia. }
    assert (absval r == inject_Z (round_units (absval v) rscale) * ten ^ (- rscale))%Q as Ha.
    { rewrite Hu. apply (scaled_digits v r rscale (Z.to_nat nd)); [exact Hl|exact Hn|exact Hge]. }
    split; [split; [done|done|apply Hv]|]. split; [done|]. split; [|done]. apply value_signed; [done|by left|done].
  - eexists. split; [done|]. apply rounded_same; [done|].
    assert (4 * nv_ndigits v ≤ di) as Hle.
    { apply orb_false_iff in Ec as [E1%Z.ltb_ge E2]. destruct (decide (dr = 0)) as [E|E]; [rewrite (H0 E); lia|].
      destruct Hp as [Hp _]; [lia|]. apply andb_false_iff in E2 as [E2%Z.eqb_neq|E2%Z.ltb_ge]; lia. }
    destruct (units_exact v rscale Hle) as [z Hz]. apply units_back. unfold round_units. by rewrite Hz, Qfloor_half.
Qed.

(** The digits that truncation keeps. *)
Lemma trunc_digits_spec l nd di : Forall digit l → (nd ≤ length l)%nat → 0 ≤ di < 4 → (0 < di → (0 < nd)%nat) →
  ∃ digits,
    (if 0 <? di then
       pow10 ← arr_get round_powers di;
       d ← arr_get l (Z.of_nat nd - 1);
       Ret (take (Z.to_nat (Z.of_nat nd - 1)) l ++ [d - Z.rem d pow10])
     else Ret (take (Z.to_nat (Z.of_nat nd)) l)) = Ret digits ∧
    Forall digit digits ∧ length digits = nd ∧ num digits = num l / (last_pow di * B (length l - nd)) * last_pow di.
Proof.
  intros Hl Hnd Hdi Hpos. pose proof (num_take_drop nd l Hnd) as Hnum.
  assert (Forall digit (drop nd l)) as Hdrop by (by apply Forall_drop).
  pose proof (num_bound _ Hdrop) as Hb. rewrite length_drop in Hb. pose proof (B_pos (length l - nd)) as HB.
  assert (num l / B (length l - nd) = num (take nd l)) as Hq by (symmetry; apply (Z.div_unique _ _ _ (num (drop nd l))); lia).
  destruct (Z.ltb_spec 0 di) as [Hp|Hp].
  - rewrite round_powers_get by lia. cbn [mbind outcome_bind]. rewrite wd_get by lia. cbn [mbind outcome_bind].
    rewrite (last_take l nd), num_snoc in Hq by lia. set (d := wd l (Z.of_nat nd - 1)) in *.
    replace (Z.to_nat (Z.of_nat nd - 1)) with (nd - 1)%nat by lia. eexists. split; [done|].
    assert (digit d) as Hd by (by apply wd_digit). unfold digit in Hd.
    assert (∃ a, NBASE = a * last_pow di ∧ 0 < a ∧ 0 < last_pow di) as (a & Ha & Hap & Hpp).
    { destruct (last_pow_cases di) as [-> |[-> | ->]]; [lia|exists 1000|exists 100|exists 10]; done. }
    set (p := last_pow di) in *. rewrite Z.rem_mod_nonneg by lia.
    pose proof (Z.div_mod d p ltac:(lia)) as Hdm. pose proof (Z.mod_pos_bound d p ltac:(lia)) as Hmb.
    pose proof (Z.mod_le d p ltac:(lia) ltac:(lia)) as Hle.
    split; [apply Forall_app; split; [by apply Forall_take|constructor; [unfold digit; lia|constructor]]|].
    split; [rewrite length_app, length_take; simpl; lia|]. rewrite (Z.mul_comm p), <- Z.div_div, Hq, num_snoc by lia.
    rewrite Ha, Z.mul_assoc, Z.div_add_l by lia. lia.
  - replace di with 0 in * by lia. eexists. split; [done|]. rewrite Nat2Z.id. split; [by apply Forall_take|].
    split; [rewrite length_take; lia|]. change (last_pow 0) with 1. by rewrite Z.mul_1_l, Hq, Z.mul_1_r.
Qed.

Lemma trunc_var_spec v rscale : var_ok v → ∃ r, trunc_var v rscale = Ret r ∧ rounded_to v r trunc_units rscale ∧
  (rscale = 0 → starts_nonzero (nv_digits v) → starts_nonzero (nv_digits r)) ∧ nv_before r = nv_before v.
Proof.
  intros Hv. unfold trunc_var. fold (kept_digits v rscale). set (di := kept_digits v rscale).
  destruct (Z.leb_spec di 0) as [Hneg|Hpos].
  { eexists. split; [done|]. split; [|done]. apply rounded_zero; [done|apply Hv|]. unfold trunc_units.
    destruct (small_units v rscale 0 Hv) as [H1 H2]; [fold di; lia|lia|]. change (inject_Z (10 ^ 0)) with 1%Q in H2.
    apply Qfloor_unique; change (inject_Z 0) with 0%Q; change (inject_Z (0 + 1)) with 1%Q; lra. }
  destruct (kept_split di ltac:(lia)) as (Hr & H0 & Hp & Hnd). set (nd := Z.quot (di + DEC_DIGITS - 1) DEC_DIGITS) in *.
  set (dr := Z.rem di DEC_DIGITS) in *. destruct (Z.leb_spec nd (nv_ndigits v)) as [Hc|Hc].
  - unfold nv_ndigits in Hc.
    destruct (trunc_digits_spec (nv_digits v) (Z.to_nat nd) dr (vo_digits _ Hv) ltac:(lia) Hr ltac:(lia)) as (digits & Hrun & Hd & Hl & Hn).
    rewrite Z2Nat.id in Hrun by done. rewrite Hrun. cbn [mbind outcome_bind]. eexists. split; [done|]. set (r := mkVar _ _ _ _ _).
    destruct (last_pow_B di (length (nv_digits v)) (Z.to_nat nd) ltac:(lia) ltac:(lia) ltac:(lia)) as [L1 L2]. fold dr in L1, L2.
    rewrite L1, L2 in Hn. assert (0 ≤ 4 * Z.of_nat (Z.to_nat nd) - di) as Hge by (destruct (decide (dr = 0)) as [E|E]; [rewrite (H0 E)|]; lia).
    assert (trunc_units (absval v) rscale = num (nv_digits v) / 10 ^ (4 * Z.of_nat (length (nv_digits v)) - di)) as Hu.
    { apply frac_floor; [apply Z.pow_pos_nonneg; lia|]. apply units_digits; fold di; unfold nv_ndigits; lia. }
    assert (absval r == inject_Z (trunc_units (absval v) rscale) * ten ^ (- rscale))%Q as Ha.
    { rewrite Hu. apply (scaled_digits v r rscale (Z.to_nat nd)); [unfold r; cbn [nv_digits nv_weight]; lia|exact Hn|exact Hge]. }
    split; [|split; [|done]].
    { split; [split; [done|apply Hv|apply Hv]|]. split; [done|]. split; [|done]. apply value_signed; [done|by left|done]. }
    intros ->. assert (dr = 0) as E0.
    { unfold dr, di, kept_digits. rewrite Z.add_0_r. apply Z.rem_mul. done. }
    rewrite E0 in Hrun. cbn [Z.ltb Z.compare] in Hrun. injection Hrun as <-. unfold r. cbn [nv_digits].
    specialize (H0 E0). destruct (Z.to_nat nd) eqn:E; [lia|]. by destruct (nv_digits v).
  - eexists. split; [done|]. split; [|done]. apply rounded_same; [done|].
    assert (4 * nv_ndigits v ≤ di) as Hle by (destruct (decide (dr = 0)) as [E|E]; [rewrite (H0 E)|]; lia).
    destruct (units_exact v rscale Hle) as [z Hz]. apply units_back. unfold trunc_units. by rewrite Hz, Qfloor_Z.
Qed.

(** ** The packed format and back *)

(** -2.25 *)
Definition var_quarter : NumericVar := mkVar [] [2; 2500] 0 NUMERIC_NEG 2.

(** A variable that [make_result] packs is unpacked to the same value and display scale, without zeroes
    at either end, in the short or the long format; it reports an error exactly when the weight of the
    first digit or the scale does not fit. *)
Theorem make_result_roundtrip v : var_ok v → 0 ≤ nv_dscale v →
  let s := strip_var v in
  if (- 2 ^ 15 <=? nv_weight s) && (nv_weight s <? 2 ^ 15) && (nv_dscale s <=? NUMERIC_DSCALE_MASK)
  then ∃ n w, make_result v = Ret n ∧ set_var_from_num n = Ret w ∧ (value w == value v)%Q ∧ nv_dscale w = nv_dscale v ∧
    stripped w ∧ nv_digits w = nv_digits s ∧ NUMERIC_IS_NAN n = false
  else make_result v = Ereport ERRCODE_NUMERIC_VALUE_OUT_OF_RANGE.
Proof.
  intros Hv Hd s. pose proof (make_result_spec v Hv Hd) as Hm. cbv zeta in Hm. fold s in Hm. fold (packable s).
  destruct (packable s); [|done]. destruct Hm as (n & Hn & H1 & H2 & H3 & H4 & H5 & H6).
  destruct (strip_var_spec v Hv) as (S1 & S2 & _ & S3 & S4 & _). fold s in S1, S2, S3, S4.
  exists n, (set_var_from_var s). split; [done|]. split; [|by rewrite <- S4].
  unfold set_var_from_num. rewrite H3. cbn [mbind outcome_bind]. by rewrite H2, H4, H5.
Qed.

Lemma make_result_roundtrip_witness :
  ∃ n w, make_result var_quarter = Ret n ∧ set_var_from_num n = Ret w ∧ (value w == value var_quarter)%Q ∧ nv_dscale w = 2 ∧
    stripped w ∧ nv_digits w = [2; 2500] ∧ NUMERIC_IS_NAN n = false.
Proof.
  apply (make_result_roundtrip var_quarter); [|done]. split; [repeat constructor; done|constructor|by right].
Defined.
