(* ===== verification/NumericMul.v ===== *)
(** * NumericMul: multiplication

    The accumulators of [mul_var] hold the product, and the passes that propagate carries keep it;
    they hold it exactly while a pass has room for its carries, which the test in the code
    does not always ensure. *)

From Stdlib Require Import QArith Qround Qpower Qabs Lqa.
From S2P Require Import Prelude Int Numeric NumericSpec.
Open Scope Z_scope.

(** ** One row *)

Lemma num_insert l i x : 0 ≤ i < Z.of_nat (length l) →
  num (<[Z.to_nat i := x]> l) = num l + (x - wd l i) * NBASE ^ (Z.of_nat (length l) - 1 - i).
Proof.
  intros Hi. unfold num. rewrite length_insert. rewrite (wval_update (wd l) _ 0 (length l) i x); [by rewrite Z.add_0_l|lia|].
  intros k Hk. by rewrite wd_insert by lia.
Qed.

(** The accumulators that a carry pass or the last row left at [m] times the greatest digit. *)
Definition acc (m x : Z) : Prop := 0 ≤ x ≤ m * (NBASE - 1).

Lemma mul_row_spec d1 m : digit d1 → 0 ≤ m → m + d1 ≤ Z.quot (INT_MAX 32) (NBASE - 1) →
  ∀ rd2 i dig, Forall digit rd2 → Z.of_nat (length rd2) - 1 ≤ i < Z.of_nat (length dig) →
  (∀ j, 0 ≤ j ≤ i → acc m (wd dig j)) → (∀ j, i < j → acc (m + d1) (wd dig j)) →
  ∃ dig', mul_row d1 rd2 i dig = Ret dig' ∧ length dig' = length dig ∧ Forall (acc (m + d1)) dig' ∧
    num dig' = num dig + d1 * num (rev rd2) * NBASE ^ (Z.of_nat (length dig) - 1 - i).
Proof.
  intros Hd1 Hm Hmax. assert (Z.quot (INT_MAX 32) (NBASE - 1) = 214769) as E by done. rewrite E in Hmax. unfold digit, NBASE in Hd1.
  induction rd2 as [|d2 rd2 IH]; intros i dig Hrd Hi Hlo Hhi.
  { exists dig. split; [done|]. split; [done|]. split; [|simpl; rewrite num_nil; lia].
    apply Forall_lookup_2. intros k x Hk. assert (wd dig (Z.of_nat k) = x) as <- by (unfold wd; by rewrite Nat2Z.id, Hk).
    destruct (decide (Z.of_nat k ≤ i)); [|apply Hhi; lia]. pose proof (Hlo (Z.of_nat k) ltac:(lia)). unfold acc, NBASE in *. nia. }
  apply Forall_cons in Hrd as [Hd2 Hrd]. cbn [length] in Hi. cbn [mul_row]. rewrite wd_get by lia. cbn [mbind outcome_bind].
  pose proof (Hlo i ltac:(lia)) as Hai. set (x := wd dig i) in *. unfold acc, digit, NBASE in Hai, Hd2.
  assert (0 ≤ d1 * d2 ≤ d1 * 9999) as Hprod by nia.
  rewrite wrap_s_small by (unfold is_sint; lia).
  rewrite arr_set_lt by lia. cbn [mbind outcome_bind].
  destruct (IH (i - 1) (<[Z.to_nat i := x + d1 * d2]> dig)) as (dig' & Hrun & Hlen & Hall & Hnum).
  - done.
  - rewrite length_insert. lia.
  - intros j Hj. rewrite wd_insert by lia. rewrite decide_False by lia. apply Hlo. lia.
  - intros j Hj. rewrite wd_insert by lia. destruct (decide (j = i)); [unfold acc, NBASE; lia|]. apply Hhi. lia.
  - exists dig'. split; [done|]. rewrite length_insert in *. split; [done|]. split; [done|].
    rewrite Hnum, num_insert by lia. fold x. cbn [rev]. rewrite num_snoc.
    replace (Z.of_nat (length dig) - 1 - (i - 1)) with (1 + (Z.of_nat (length dig) - 1 - i)) by lia. rewrite Z.pow_add_r by lia. lia.
Qed.

(** ** A carry pass *)

Lemma carry_pass_spec m : m ≤ Z.quot (INT_MAX 32) NBASE → ∀ rdig carry res, 0 ≤ carry ≤ m → Forall (acc m) rdig →
  ∃ carry' res', carry_pass rdig carry res = (carry', res' ++ res) ∧ length res' = length rdig ∧ Forall digit res' ∧
    0 ≤ carry' ≤ m ∧ num res' + carry' * B (length rdig) = num (rev rdig) + carry.
Proof.
  intros Hm. assert (Z.quot (INT_MAX 32) NBASE = 214748) as E by done. rewrite E in Hm.
  induction rdig as [|x rdig IH]; intros carry res Hc Hall.
  { exists carry, []. split; [done|]. split; [done|]. split; [constructor|]. split; [done|]. simpl. rewrite num_nil. lia. }
  apply Forall_cons in Hall as [Hx Hall]. cbn [carry_pass]. unfold acc, NBASE in Hx.
  rewrite wrap_s_small by (unfold is_sint; lia).
  assert (∀ c d, c * NBASE + d = x + carry → digit d → 0 ≤ c ≤ m →
    ∃ carry' res', carry_pass rdig c (d :: res) = (carry', res' ++ res) ∧ length res' = length (x :: rdig) ∧ Forall digit res' ∧
      0 ≤ carry' ≤ m ∧ num res' + carry' * B (length (x :: rdig)) = num (rev (x :: rdig)) + carry) as Hgo.
  { intros c d Hcd Hd Hcb. destruct (IH c (d :: res) Hcb Hall) as (carry' & res' & Hrun & Hlen & Hres & Hcb' & Heq).
    exists carry', (res' ++ [d]). split; [by rewrite <- app_assoc|]. split; [rewrite length_app; simpl; lia|].
    split; [apply Forall_app; split; [done|by constructor]|]. split; [done|]. cbn [rev length]. rewrite !num_snoc, B_succ. lia. }
  destruct (Z.leb_spec NBASE (x + carry)) as [Hge|Hlt].
  - rewrite Z.quot_div_nonneg by (unfold NBASE; lia). pose proof (Z.div_mod (x + carry) NBASE ltac:(done)).
    pose proof (Z.mod_pos_bound (x + carry) NBASE ltac:(done)). apply Hgo; [lia|unfold digit; lia|]. unfold NBASE in *. lia.
  - apply Hgo; [lia|unfold digit; lia|lia].
Qed.

(** ** The outer loop *)

(** Every carry pass, the last one too, has room for its carries: the accumulators are at most
    [maxdig * (NBASE - 1)], and a carry at most [maxdig]. *)
Fixpoint carry_room (rdigits1 : list Z) (maxdig : Z) : bool :=
  match rdigits1 with
  | [] => maxdig <=? Z.quot (INT_MAX 32) NBASE
  | d :: rdigits1' =>
      if d =? 0 then carry_room rdigits1' maxdig
      else if Z.quot (INT_MAX 32) (NBASE - 1) <? maxdig + d
      then (maxdig <=? Z.quot (INT_MAX 32) NBASE) && carry_room rdigits1' (1 + d)
      else carry_room rdigits1' (maxdig + d)
  end.

(** An operand of at most 21 digits always leaves room. *)
Lemma carry_room_short rd : Forall digit rd → ∀ m, m + Z.of_nat (length rd) * (NBASE - 1) ≤ 214748 → carry_room rd m = true.
Proof.
  induction rd as [|d rd IH]; intros Hrd m Hm; cbn [carry_room]; [apply Z.leb_le; cbn [length] in Hm; change (Z.quot (INT_MAX 32) NBASE) with 214748; lia|].
  apply Forall_cons in Hrd as [Hd Hrd]. cbn [length] in Hm. unfold digit, NBASE in *. change (Z.quot (INT_MAX 32) (10000 - 1)) with 214769.
  destruct (Z.eqb_spec d 0); [apply IH; [done|lia]|]. rewrite (proj2 (Z.ltb_ge _ _)) by lia. apply IH; [done|lia].
Qed.

Lemma acc_le m m' l : m ≤ m' → Forall (acc m) l → Forall (acc m') l.
Proof. intros H Hl. eapply Forall_impl; [exact Hl|]. unfold acc, NBASE. intros x Hx. lia. Qed.

Lemma digit_acc l : Forall digit l → Forall (acc 1) l.
Proof. intros Hl. eapply Forall_impl; [exact Hl|]. unfold digit, acc, NBASE. intros x Hx. lia. Qed.

Lemma acc_wd m l j : 0 ≤ m → Forall (acc m) l → acc m (wd l j).
Proof.
  intros Hm H. unfold wd. destruct (l !! Z.to_nat j) eqn:E; simpl; [by eapply Forall_lookup_1|]. unfold acc, NBASE. lia.
Qed.

(** A pass over accumulators that hold less than their digits can. *)
Lemma carry_pass_all m dig : 0 ≤ m ≤ Z.quot (INT_MAX 32) NBASE → Forall (acc m) dig → num dig < B (length dig) →
  ∃ res, carry_pass (rev dig) 0 [] = (0, res) ∧ length res = length dig ∧ Forall digit res ∧ num res = num dig.
Proof.
  intros Hm Hall Hlt. destruct (carry_pass_spec m ltac:(lia) (rev dig) 0 []) as (c & res & Hrun & Hlen & Hres & Hc & Heq);
    [lia|by apply Forall_rev|]. rewrite app_nil_r, rev_involutive, length_rev in *.
  pose proof (num_bound res Hres) as Hb. rewrite Hlen in Hb.
  assert (c = 0) as -> by nia. exists res. split; [done|]. split; [done|]. split; [done|]. lia.
Qed.

Lemma num_rev_nonneg rd : Forall digit rd → 0 ≤ num (rev rd).
Proof. intros H. apply num_bound. by apply Forall_rev. Qed.

Lemma mul_loop_spec rd2 total : Forall digit rd2 → ∀ rd1 ri m dig,
  Forall digit rd1 → 0 ≤ m ≤ Z.quot (INT_MAX 32) (NBASE - 1) → Forall (acc m) dig → carry_room rd1 m = true →
  Z.of_nat (length rd1) + Z.of_nat (length rd2) - 2 ≤ ri < Z.of_nat (length dig) →
  num dig + num (rev rd1) * num (rev rd2) * NBASE ^ (Z.of_nat (length dig) - 1 - ri) = total → total < B (length dig) →
  ∃ dig', mul_loop rd1 rd2 ri m dig = Ret dig' ∧ length dig' = length dig ∧ num dig' = total ∧
    ∃ m', 0 ≤ m' ≤ Z.quot (INT_MAX 32) NBASE ∧ Forall (acc m') dig'.
Proof.
  intros H2. pose proof (num_rev_nonneg rd2 H2) as Hn2.
  induction rd1 as [|d rd1 IH]; intros ri m dig H1 Hm Hacc Hroom Hri Htot Hlt.
  { exists dig. split; [done|]. split; [done|]. simpl in Htot. rewrite num_nil in Htot. split; [lia|].
    exists m. cbn [carry_room] in Hroom. apply Z.leb_le in Hroom. split; [lia|done]. }
  apply Forall_cons in H1 as [Hd H1]. pose proof (num_rev_nonneg rd1 H1) as Hn1. cbn [length] in Hri. cbn [mul_loop carry_room rev] in *.
  rewrite num_snoc in Htot. set (P := NBASE ^ (Z.of_nat (length dig) - 1 - ri)) in *.
  assert (0 < P) as HP by (apply NBASE_pow_pos; lia).
  assert (NBASE ^ (Z.of_nat (length dig) - 1 - (ri - 1)) = NBASE * P) as HP'.
  { replace (Z.of_nat (length dig) - 1 - (ri - 1)) with (1 + (Z.of_nat (length dig) - 1 - ri)) by lia. by rewrite Z.pow_add_r by lia. }
  assert (0 < NBASE) as HNB by done.
  destruct (Z.eqb_spec d 0) as [->|Hd0].
  { apply IH; try done; lia. }
  assert (num dig < B (length dig)) as Hsmall.
  { assert (0 ≤ (num (rev rd1) * NBASE + d) * num (rev rd2) * P); [|lia]. unfold digit in Hd. repeat apply Z.mul_nonneg_nonneg; lia. }
  assert (∀ m dig0, 0 ≤ m → m + d ≤ Z.quot (INT_MAX 32) (NBASE - 1) → Forall (acc m) dig0 → length dig0 = length dig →
    num dig0 = num dig → carry_room rd1 (m + d) = true →
    ∃ dig', (dig ← mul_row d rd2 ri dig0; mul_loop rd1 rd2 (ri - 1) (m + d) dig) = Ret dig' ∧ length dig' = length dig ∧ num dig' = total ∧
      ∃ m', 0 ≤ m' ≤ Z.quot (INT_MAX 32) NBASE ∧ Forall (acc m') dig') as Hgo.
  { intros m0 dig0 Hm0 Hmax Ha Hl Hn Hr. unfold digit in Hd.
    assert (Forall (acc (m0 + d)) dig0) as Ha' by (apply (acc_le m0); [lia|done]).
    destruct (mul_row_spec d m0 Hd Hm0 Hmax rd2 ri dig0) as (dig1 & -> & Hl1 & Ha1 & Hn1'); [done|lia| | |].
    { intros j Hj. by apply acc_wd. } { intros j Hj. apply acc_wd; [lia|done]. }
    cbn [mbind outcome_bind]. rewrite <- Hl, <- Hl1. apply IH; [done|lia|done|done|lia| |by rewrite Hl1, Hl].
    rewrite Hl1, Hl, HP', Hn1', Hn, Hl. fold P. rewrite <- Htot. ring. }
  destruct (Z.quot (INT_MAX 32) (NBASE - 1) <? m + d) eqn:Ec.
  - apply andb_true_iff in Hroom as [Hroom Hrest]. apply Z.leb_le in Hroom.
    destruct (carry_pass_all m dig ltac:(lia) Hacc Hsmall) as (res & -> & Hl & Hres & Hn). cbn [Z.eqb negb mbind outcome_bind].
    apply Hgo; [lia| |by apply digit_acc|done|done|done]. unfold digit, NBASE in Hd. change (Z.quot (INT_MAX 32) (NBASE - 1)) with 214769. lia.
  - apply Z.ltb_ge in Ec. cbn [mbind outcome_bind]. apply Hgo; try done. lia.
Qed.

(** ** The product *)

(** Equal arguments have equal roundings. *)
#[global] Instance round_units_proper : Proper (Qeq ==> eq ==> eq) round_units.
Proof. intros x y Hxy s s' <-. unfold round_units. by rewrite Hxy. Qed.
#[global] Instance trunc_units_proper : Proper (Qeq ==> eq ==> eq) trunc_units.
Proof. intros x y Hxy s s' <-. unfold trunc_units. by rewrite Hxy. Qed.

(** A number is a multiple of a power of ten. *)
Definition of_scale (x : Q) (scale : Z) : Prop := ∃ z, (x * ten ^ scale == inject_Z z)%Q.

Lemma of_scale_round x scale : of_scale x scale → (inject_Z (round_units x scale) * ten ^ (- scale) == x)%Q.
Proof. intros [z Hz]. unfold round_units. rewrite Hz, Qfloor_half, <- Hz. rewrite <- Qmult_assoc, ten_inv. ring. Qed.

Lemma of_scale_trunc x scale : of_scale x scale → (inject_Z (trunc_units x scale) * ten ^ (- scale) == x)%Q.
Proof. intros [z Hz]. unfold trunc_units. rewrite Hz, Qfloor_Z, <- Hz. rewrite <- Qmult_assoc, ten_inv. ring. Qed.

Definition product_sign (v1 v2 : NumericVar) : Z := if nv_sign v1 =? nv_sign v2 then NUMERIC_POS else NUMERIC_NEG.

Lemma product_sign_ok v1 v2 : product_sign v1 v2 = NUMERIC_POS ∨ product_sign v1 v2 = NUMERIC_NEG.
Proof. unfold product_sign. destruct (_ =? _); auto. Qed.

Lemma product_value v1 v2 x y : var_ok v1 → var_ok v2 → (y == x * (absval v1 * absval v2))%Q →
  ((if (product_sign v1 v2 =? NUMERIC_NEG)%Z then - y else y) == x * (value v1 * value v2))%Q.
Proof.
  intros H1 H2 Hy. rewrite !value_eq. unfold product_sign.
  destruct (vo_sign _ H1) as [-> | ->], (vo_sign _ H2) as [-> | ->]; cbn; rewrite Hy; ring.
Qed.

Lemma mul_digits_spec v1 v2 : var_ok v1 → var_ok v2 → carry_room (rev (nv_digits v1)) 0 = true →
  let n := (length (nv_digits v1) + length (nv_digits v2) + 1)%nat in
  ∃ dig, mul_loop (rev (nv_digits v1)) (rev (nv_digits v2)) (Z.of_nat n - 1) 0 (replicate n 0) = Ret dig ∧
    ∃ res, carry_pass (rev dig) 0 [] = (0, res) ∧ Forall digit res ∧ length res = n ∧
      num res = num (nv_digits v1) * num (nv_digits v2).
Proof.
  intros [H1 _ _] [H2 _ _] Hroom n. pose proof (num_bound _ H1) as B1. pose proof (num_bound _ H2) as B2.
  assert (num (nv_digits v1) * num (nv_digits v2) < B n) as Hlt.
  { unfold n. rewrite !B_add. pose proof (B_pos (length (nv_digits v1))). pose proof (B_pos (length (nv_digits v2))).
    apply (Z.lt_le_trans _ (B (length (nv_digits v1)) * B (length (nv_digits v2)))); [nia|]. change (B 1) with NBASE. unfold NBASE at 5. nia. }
  destruct (mul_loop_spec (rev (nv_digits v2)) (num (nv_digits v1) * num (nv_digits v2)) ltac:(by apply Forall_rev)
    (rev (nv_digits v1)) (Z.of_nat n - 1) 0 (replicate n 0)) as (dig & Hrun & Hlen & Hnum & m & Hm & Hacc).
  - by apply Forall_rev.
  - done.
  - by apply Forall_replicate.
  - done.
  - rewrite !length_rev, length_replicate. lia.
  - rewrite num_zeros, !rev_involutive, length_replicate. replace (Z.of_nat n - 1 - (Z.of_nat n - 1)) with 0 by lia. lia.
  - by rewrite length_replicate.
  - rewrite length_replicate in Hlen. exists dig. split; [done|].
    destruct (carry_pass_all m dig Hm Hacc) as (res & Hres & Hl & Hd & Hn); [rewrite Hlen; lia|].
    exists res. split; [done|]. split; [done|]. split; lia.
Qed.

Lemma mul_var_spec v1 v2 rscale : var_ok v1 → var_ok v2 → carry_room (rev (nv_digits v1)) 0 = true →
  nv_ndigits v1 + nv_ndigits v2 + 1 ≤ nv_weight v1 + nv_weight v2 + 2 + 1 + rscale * DEC_DIGITS + MUL_GUARD_DIGITS →
  ∃ r, mul_var v1 v2 rscale = Ret r ∧ var_ok r ∧ stripped r ∧ nv_dscale r = rscale ∧
    let y := (inject_Z (round_units (absval v1 * absval v2) rscale) * ten ^ (- rscale))%Q in
    (value r == if (product_sign v1 v2 =? NUMERIC_NEG)%Z then - y else y)%Q.
Proof.
  intros H1 H2 Hroom Hnd. unfold mul_var. fold (product_sign v1 v2).
  destruct ((nv_ndigits v1 =? 0) || (nv_ndigits v2 =? 0)) eqn:Ez.
  { exists (zero_var rscale). split; [done|]. split; [split; [constructor|constructor|by left]|]. split; [done|]. split; [done|].
    assert (absval v1 * absval v2 == 0)%Q as E.
    { apply orb_true_iff in Ez as [E%Z.eqb_eq|E%Z.eqb_eq]; unfold nv_ndigits in E.
      - rewrite (absval_zero v1) by (by destruct (nv_digits v1)). ring.
      - rewrite (absval_zero v2) by (by destruct (nv_digits v2)). ring. }
    assert (round_units (absval v1 * absval v2) rscale = 0) as ->.
    { rewrite E. unfold round_units. assert (0 * ten ^ rscale + (1 # 2) == inject_Z 0 + (1 # 2))%Q as -> by (apply Qplus_comp; [apply Qmult_0_l|reflexivity]). apply Qfloor_half. }
    set (r := zero_var _). assert (value r == 0)%Q as -> by apply Qmult_0_l.
    assert (inject_Z 0 * ten ^ (- rscale) == 0)%Q as E0 by apply Qmult_0_l. cbv zeta. destruct (product_sign v1 v2 =? NUMERIC_NEG); rewrite E0; reflexivity. }
  set (n := (length (nv_digits v1) + length (nv_digits v2) + 1)%nat).
  assert (nv_ndigits v1 + nv_ndigits v2 + 1 = Z.of_nat n) as En by (unfold nv_ndigits, n; lia).
  unfold mul_ndigits. rewrite (proj2 (Z.leb_le _ _)) by done. cbn [mbind outcome_bind]. rewrite En, Nat2Z.id. unfold nv_ndigits. rewrite !Nat2Z.id, !firstn_all.
  destruct (mul_digits_spec v1 v2 H1 H2 Hroom) as (dig & Hrun & res & Hpass & Hres & Hlen & Hnum). fold n in Hrun, Hlen.
  rewrite Hrun. cbn [mbind outcome_bind]. rewrite Hpass. cbn [Z.eqb negb].
  assert (int16_of <$> res = res) as ->.
  { clear - Hres. induction Hres as [|x l Hx Hl IH]; [done|]. rewrite fmap_cons, IH, wrap_s_small; [done|lia|].
    unfold digit, NBASE, is_sint in *. lia. }
  set (p := alloc_var _ _ _ _). assert (var_ok p) as Hp by (split; [done|by repeat constructor|apply product_sign_ok]).
  assert (absval p == absval v1 * absval v2)%Q as Ha.
  { assert (expo p = expo v1 + expo v2) as Ee by (unfold expo, p, nv_ndigits; cbn [nv_weight nv_digits alloc_var]; rewrite Hlen; unfold n; lia).
    unfold absval. rewrite Ee. change (nv_digits p) with res. rewrite Hnum, inject_Z_mult, base_plus. ring. }
  destruct (round_var_spec p rscale Hp) as (r & -> & Hr1 & Hr2 & Hr3 & _); [done|]. cbn [mbind outcome_bind].
  destruct (strip_var_spec r Hr1) as (S1 & S2 & _ & S3 & S4 & _). eexists. split; [done|]. split; [done|]. split; [done|].
  split; [by rewrite S4|]. rewrite S3, Hr3. unfold signed, p at 1. cbn [nv_sign alloc_var]. destruct (product_sign v1 v2 =? NUMERIC_NEG); by rewrite Ha.
Qed.

(** A product that is a number of the scale is exact. *)
Lemma mul_var_exact v1 v2 rscale : var_ok v1 → var_ok v2 → carry_room (rev (nv_digits v1)) 0 = true →
  nv_ndigits v1 + nv_ndigits v2 + 1 ≤ nv_weight v1 + nv_weight v2 + 2 + 1 + rscale * DEC_DIGITS + MUL_GUARD_DIGITS →
  of_scale (absval v1 * absval v2) rscale →
  ∃ r, mul_var v1 v2 rscale = Ret r ∧ stripped r ∧ result r (value v1 * value v2) rscale.
Proof.
  intros H1 H2 Hroom Hnd Hs. destruct (mul_var_spec v1 v2 rscale H1 H2 Hroom Hnd) as (r & Hrun & Hr1 & Hr2 & Hr3 & Hr4).
  exists r. split; [done|]. split; [done|]. split; [done|]. split; [|done].
  rewrite Hr4. cbv zeta. rewrite (product_value v1 v2 1%Q); [ring|done|done|]. rewrite (of_scale_round _ _ Hs). ring.
Qed.
