(* ===== verification/NumericOps.v ===== *)
(** * NumericOps: the SQL functions on packed numbers

    A packed number stands for a rational number; the functions return the packed form of the result of
    the operation on rational numbers, or report that it has none. *)

From Stdlib Require Import QArith Qround Qpower Qabs Lqa.
From S2P Require Import Prelude Int Numeric NumericSpec NumericMul.
Open Scope Z_scope.

(** ** Numbers and their scale *)

(** A variable that can be packed without loss: the display scale covers all of its digits. *)
Record number (v : NumericVar) : Prop := {
  nm_ok : var_ok v;
  nm_stripped : stripped v;
  nm_dscale : 0 ≤ nv_dscale v;
  nm_covers : of_scale (value v) (nv_dscale v) }.

(** [n] is the packed form of [v]. *)
Record packed (n : NumericData) (v : NumericVar) : Prop := {
  pk_decodes : decodes n (nv_digits v) (nv_weight v) (nv_sign v) (nv_dscale v);
  pk_number : number v;
  pk_packable : packable v = true }.

(** The outcome of a function whose result is [x]. *)
Definition packs (r : outcome NumericData) (x : Q) (dscale : Z) : Prop :=
  ∃ v, number v ∧ (value v == x)%Q ∧ nv_dscale v = dscale ∧
    if packable v then ∃ n, r = Ret n ∧ packed n v else r = Ereport ERRCODE_NUMERIC_VALUE_OUT_OF_RANGE.

#[global] Instance of_scale_proper : Proper (Qeq ==> eq ==> iff) of_scale.
Proof. intros x y Hxy s s' <-. unfold of_scale. by setoid_rewrite Hxy. Qed.

Lemma of_scale_le x s s' : s ≤ s' → of_scale x s → of_scale x s'.
Proof.
  intros Hs [z Hz]. exists (z * 10 ^ (s' - s)). rewrite inject_Z_mult, <- Hz, <- ten_Z, <- Qmult_assoc, <- ten_plus by lia.
  by replace (s + (s' - s)) with s' by lia.
Qed.

Lemma of_scale_add x y s : of_scale x s → of_scale y s → of_scale (x + y) s.
Proof. intros [z Hz] [z' Hz']. exists (z + z'). rewrite inject_Z_plus, <- Hz, <- Hz'. ring. Qed.
Lemma of_scale_opp x s : of_scale x s → of_scale (- x) s.
Proof. intros [z Hz]. exists (- z). rewrite inject_Z_opp, <- Hz. ring. Qed.
Lemma of_scale_mul x y s s' : of_scale x s → of_scale y s' → of_scale (x * y) (s + s').
Proof. intros [z Hz] [z' Hz']. exists (z * z'). rewrite inject_Z_mult, <- Hz, <- Hz', ten_plus. ring. Qed.
Lemma of_scale_units z s : of_scale (inject_Z z * ten ^ (- s)) s.
Proof. exists z. rewrite <- Qmult_assoc, (Qmult_comm (ten ^ (- s))), ten_inv. ring. Qed.

Lemma of_scale_abs v s : of_scale (value v) s ↔ of_scale (absval v) s.
Proof.
  rewrite value_eq. destruct (_ =? _); [|done]. split; intros H%of_scale_opp; [|done].
  assert (- - absval v == absval v)%Q as E by ring. by rewrite E in H.
Qed.

Lemma of_scale_signed v x s : of_scale x s → of_scale (signed v x) s.
Proof. unfold signed. destruct (_ =? _); [apply of_scale_opp|done]. Qed.

(** The digits behind the decimal point that the scale does not cover are at most three, within
    the last digit of base 10000. *)
Lemma number_digits v : number v → 4 * (nv_ndigits v - nv_weight v - 1) ≤ nv_dscale v + 3.
Proof.
  intros [[Hd _ _] (_ & Hs & Hz) Hds Hc]. apply of_scale_abs in Hc as [z Hc].
  destruct (decide (4 * (nv_ndigits v - nv_weight v - 1) ≤ nv_dscale v + 3)) as [|Hn]; [done|exfalso].
  destruct (rev (nv_digits v)) as [|d rl] eqn:Er.
  { assert (nv_digits v = []) as E by (by rewrite <- (rev_involutive (nv_digits v)), Er). unfold nv_ndigits in Hn. rewrite E in Hn.
    destruct (Hz E) as [Hw _]. rewrite Hw in Hn. cbn [length] in Hn. lia. }
  assert (nv_digits v = rev rl ++ [d]) as E by (by rewrite <- (rev_involutive (nv_digits v)), Er). simpl in Hs.
  set (m := 4 * (nv_ndigits v - nv_weight v - 1) - nv_dscale v) in *.
  assert (inject_Z (num (nv_digits v)) == inject_Z (z * 10 ^ m))%Q as Hq.
  { rewrite inject_Z_mult, <- ten_Z, <- Hc by lia. symmetry. unfold absval. rewrite base_ten, <- !Qmult_assoc, <- !ten_plus.
    replace (4 * expo v + (nv_dscale v + m)) with 0 by (unfold expo; lia). simpl. ring. }
  apply (proj1 (inject_Z_injective _ _)) in Hq. rewrite E, num_snoc in Hq.
  replace m with (4 + (m - 4)) in Hq by lia. rewrite Z.pow_add_r in Hq by lia. change (10 ^ 4) with NBASE in Hq.
  assert (digit d) as Hdd by (rewrite E in Hd; apply Forall_app in Hd as [_ Hd]; by apply Forall_cons in Hd as [Hd _]).
  unfold digit in Hdd. assert ((z * 10 ^ (m - 4) - num (rev rl)) * NBASE = d) by lia. unfold NBASE in *. lia.
Qed.

(** ** Packing and unpacking *)

Lemma set_var_from_num_spec n v : packed n v → set_var_from_num n = Ret (set_var_from_var v) ∧ NUMERIC_IS_NAN n = false.
Proof.
  intros [(H1 & H2 & H3 & H4 & H5 & H6) _ _]. unfold set_var_from_num. rewrite H3. cbn [mbind outcome_bind]. by rewrite H2, H4, H5.
Qed.

Lemma copy_value v : value (set_var_from_var v) = value v.
Proof. done. Qed.
Lemma copy_absval v : absval (set_var_from_var v) = absval v.
Proof. done. Qed.
Lemma copy_ok v : var_ok v → var_ok (set_var_from_var v).
Proof. intros [H1 H2 H3]. split; [done|by repeat constructor|done]. Qed.
Lemma copy_stripped v : stripped v → stripped (set_var_from_var v).
Proof. done. Qed.

Lemma make_result_packs v x dscale : result v x dscale → 0 ≤ dscale → of_scale x dscale → packs (make_result v) x dscale.
Proof.
  intros (Hv & Hx & Hd) Hp Hs. destruct (strip_var_spec v Hv) as (S1 & S2 & _ & S3 & S4 & _).
  pose proof (make_result_spec v Hv ltac:(lia)) as Hm. cbv zeta in Hm. exists (strip_var v). rewrite S3, S4.
  assert (number (strip_var v)) as Hn.
  { split; [done|done|lia|]. by rewrite S3, S4, Hx, Hd. }
  split; [done|]. split; [done|]. split; [done|]. destruct (packable (strip_var v)) eqn:E; [|done].
  destruct Hm as (n & Hn' & Hdec). exists n. done.
Qed.

Lemma numeric_binary_packs op n1 n2 v1 v2 x dscale : packed n1 v1 → packed n2 v2 →
  (∃ r, op (set_var_from_var v1) (set_var_from_var v2) = Ret r ∧ result r x dscale) → 0 ≤ dscale → of_scale x dscale →
  packs (numeric_binary op n1 n2) x dscale.
Proof.
  intros H1 H2 (r & Hop & Hr) Hd Hs. unfold numeric_binary.
  destruct (set_var_from_num_spec n1 v1 H1) as [-> ->]. destruct (set_var_from_num_spec n2 v2 H2) as [-> ->].
  cbn [orb mbind outcome_bind]. rewrite Hop. cbn [mbind outcome_bind]. by apply make_result_packs.
Qed.

Lemma numeric_unary_packs op n v x dscale : packed n v →
  (∃ r, op (set_var_from_var v) = Ret r ∧ result r x dscale) → 0 ≤ dscale → of_scale x dscale →
  packs (numeric_unary op n) x dscale.
Proof.
  intros H1 (r & Hop & Hr) Hd Hs. unfold numeric_unary. destruct (set_var_from_num_spec n v H1) as [-> ->].
  cbn [mbind outcome_bind]. rewrite Hop. cbn [mbind outcome_bind]. by apply make_result_packs.
Qed.

(** ** The functions *)

Section binary.
  Context (n1 n2 : NumericData) (v1 v2 : NumericVar) (H1 : packed n1 v1) (H2 : packed n2 v2).

Let ds : Z := Z.max (nv_dscale v1) (nv_dscale v2).

Lemma covers_max : of_scale (value v1) ds ∧ of_scale (value v2) ds ∧ 0 ≤ ds.
Proof using H1 H2.
  pose proof (pk_number _ _ H1) as N1. pose proof (pk_number _ _ H2) as N2.
  unfold ds. destruct N1, N2. split; [apply (of_scale_le _ (nv_dscale v1)); [lia|done]|].
  split; [apply (of_scale_le _ (nv_dscale v2)); [lia|done]|lia].
Qed.

Lemma numeric_add_packs : packs (numeric_add n1 n2) (value v1 + value v2) ds.
Proof using H1 H2.
  pose proof (pk_number _ _ H1) as N1. pose proof (pk_number _ _ H2) as N2.
  destruct covers_max as (C1 & C2 & C3). destruct (add_var_spec (set_var_from_var v1) (set_var_from_var v2)) as (r & Hr & Hres & _);
    [apply copy_ok, N1|apply copy_ok, N2|]. apply (numeric_binary_packs _ _ _ v1 v2); try done; [by exists r|by apply of_scale_add].
Qed.

Lemma numeric_sub_packs : packs (numeric_sub n1 n2) (value v1 - value v2) ds.
Proof using H1 H2.
  pose proof (pk_number _ _ H1) as N1. pose proof (pk_number _ _ H2) as N2.
  destruct covers_max as (C1 & C2 & C3). destruct (sub_var_spec (set_var_from_var v1) (set_var_from_var v2)) as (r & Hr & Hres & _);
    [apply copy_ok, N1|apply copy_ok, N2|]. apply (numeric_binary_packs _ _ _ v1 v2); try done; [by exists r|].
  apply of_scale_add; [done|by apply of_scale_opp].
Qed.

Lemma numeric_mul_packs : carry_room (rev (nv_digits v1)) 0 = true →
  packs (numeric_mul n1 n2) (value v1 * value v2) (nv_dscale v1 + nv_dscale v2).
Proof using H1 H2.
  pose proof (pk_number _ _ H1) as N1. pose proof (pk_number _ _ H2) as N2.
  intros Hroom. pose proof (number_digits v1 N1) as D1. pose proof (number_digits v2 N2) as D2.
  destruct N1 as [A1 A2 A3 A4], N2 as [B1 B2 B3 B4].
  destruct (mul_var_exact (set_var_from_var v1) (set_var_from_var v2) (nv_dscale v1 + nv_dscale v2)) as (r & Hr & _ & Hres).
  - by apply copy_ok.
  - by apply copy_ok.
  - done.
  - unfold nv_ndigits in *. cbn [nv_digits nv_weight set_var_from_var alloc_var]. unfold DEC_DIGITS, MUL_GUARD_DIGITS. lia.
  - apply of_scale_mul; [by apply of_scale_abs in A4|by apply of_scale_abs in B4].
  - apply (numeric_binary_packs _ _ _ v1 v2); [done|done|by exists r|lia|by apply of_scale_mul].
Qed.

Lemma cmp_numerics_packed : cmp_numerics n1 n2 = Ret (cmp_Z (value v1 ?= value v2)%Q).
Proof using H1 H2.
  pose proof (pk_number _ _ H1) as N1. pose proof (pk_number _ _ H2) as N2.
  destruct H1 as [(P1 & P2 & P3 & P4 & P5 & P6) _ _], H2 as [(Q1 & Q2 & Q3 & Q4 & Q5 & Q6) _ _].
  unfold cmp_numerics. rewrite P6, Q6, P3, Q3. cbn [mbind outcome_bind]. rewrite P2, P4, Q2, Q4. f_equal.
  destruct N1 as [A1 A2 _ _], N2 as [B1 B2 _ _]. apply (cmp_var_spec v1 v2); [done|done|apply A2|apply B2].
Qed.
End binary.

Section unary.
  Context (n : NumericData) (v : NumericVar) (H : packed n v).

Lemma limit_scale_range s : - NUMERIC_MAX_RESULT_SCALE ≤ limit_scale s ≤ NUMERIC_MAX_RESULT_SCALE.
Proof using. unfold limit_scale. change NUMERIC_MAX_RESULT_SCALE with 2000. lia. Qed.

(** A negative scale is not displayed. *)
Lemma displayed r x scale : result r x scale →
  result (if scale <? 0 then set_dscale 0 r else r) x (Z.max scale 0).
Proof using.
  intros (Hr & Hx & Hd). destruct (Z.ltb_spec scale 0).
  - split; [destruct Hr; by split|]. split; [done|]. simpl. lia.
  - split; [done|]. split; [done|]. lia.
Qed.

Lemma rounded_packs (op : NumericVar → Z → outcome NumericVar) units scale :
  (∀ a, var_ok a → nv_before a ≠ [] → ∃ r, op a scale = Ret r ∧ rounded_to a r units scale) →
  packs (numeric_unary (λ arg, r ← op arg scale; Ret (if scale <? 0 then set_dscale 0 r else r)) n)
    (signed v (inject_Z (units (absval v) scale) * ten ^ (- scale))) (Z.max scale 0).
Proof using H.
  intros Hop. pose proof (pk_number _ _ H) as N. destruct (Hop (set_var_from_var v)) as (r & Hr & R1 & R2 & R3 & _); [apply copy_ok, N|done|].
  apply (numeric_unary_packs _ _ v); [done| |lia|].
  - rewrite Hr. cbn [mbind outcome_bind]. eexists. split; [done|]. apply displayed. split; [done|]. split; [exact R3|done].
  - apply of_scale_signed. apply (of_scale_le _ scale); [lia|]. apply of_scale_units.
Qed.

Lemma numeric_round_packs scale : let s := limit_scale scale in
  packs (numeric_round n scale) (signed v (inject_Z (round_units (absval v) s) * ten ^ (- s))) (Z.max s 0).
Proof using H. intros s. apply rounded_packs. intros a Ha Hb. by apply round_var_spec. Qed.

Lemma numeric_trunc_packs scale : let s := limit_scale scale in
  packs (numeric_trunc n scale) (signed v (inject_Z (trunc_units (absval v) s) * ten ^ (- s))) (Z.max s 0).
Proof using H.
  intros s. apply rounded_packs. intros a Ha Hb. destruct (trunc_var_spec a s Ha) as (r & Hr & Hres & _). by exists r.
Qed.

Lemma of_scale_int z : of_scale (inject_Z z) 0.
Proof using. exists z. simpl. ring. Qed.

Lemma const_one_ok : var_ok const_one ∧ (value const_one == 1)%Q.
Proof using. split; [split; [by repeat constructor|constructor|by left]|reflexivity]. Qed.

Lemma trunc_whole a : var_ok a → stripped a →
  ∃ t, trunc_var a 0 = Ret t ∧ var_ok t ∧ nv_dscale t = 0 ∧ (value t == signed a (inject_Z (Qfloor (absval a))))%Q ∧
    cmp_var a t = cmp_Z (value a ?= value t)%Q.
Proof using.
  intros Ha Hs. destruct (trunc_var_spec a 0 Ha) as (t & Ht & (T1 & T2 & T3 & _) & T4 & _). exists t.
  split; [done|]. split; [done|]. split; [done|]. split; [|apply cmp_var_spec; [done|done|apply Hs|by apply T4, Hs]].
  rewrite T3. unfold signed, trunc_units. change (ten ^ (- 0))%Q with 1%Q. change (ten ^ 0)%Q with 1%Q.
  assert (Qfloor (absval a * 1) = Qfloor (absval a)) as -> by (apply Qfloor_comp; ring). destruct (_ =? _)%Z; ring.
Qed.

Lemma floor_between z x : (inject_Z z <= x)%Q → (x < inject_Z z + 1)%Q → Qfloor x = z.
Proof using. intros H1 H2. apply Qfloor_unique; [done|]. by rewrite inject_Z_plus. Qed.

Lemma cmp_Z_zero x y : (cmp_Z (x ?= y)%Q =? 0) = true ↔ (x == y)%Q.
Proof using. rewrite (Qeq_alt x y). by destruct (x ?= y)%Q. Qed.

(** The whole part and what is left of it. *)
Lemma floor_bounds x : (inject_Z (Qfloor x) <= x)%Q ∧ (x < inject_Z (Qfloor x) + 1)%Q.
Proof using. split; [apply Qfloor_le|]. pose proof (Qlt_floor x) as E. by rewrite inject_Z_plus in E. Qed.

Lemma ceil_var_spec a : var_ok a → stripped a → ∃ r, ceil_var a = Ret r ∧ result r (inject_Z (Qceiling (value a))) 0.
Proof using.
  intros Ha Hs. unfold ceil_var.
  destruct (trunc_whole (set_var_from_var a) (copy_ok _ Ha) Hs) as (t & -> & T1 & T2 & T3 & T4). cbn [mbind outcome_bind].
  change (cmp_var (set_var_from_var a) t) with (cmp_var a t) in T4. rewrite T4. change (value (set_var_from_var a)) with (value a).
  change (absval (set_var_from_var a)) with (absval a) in T3. unfold signed in T3. change (nv_sign (set_var_from_var a)) with (nv_sign a) in T3.
  destruct (floor_bounds (absval a)) as [F1 F2]. set (f := Qfloor (absval a)) in *. clear T4. rewrite (value_eq a). unfold Qceiling.
  destruct (vo_sign _ Ha) as [E|E]; rewrite E in *; cbn [Z.eqb NUMERIC_POS NUMERIC_NEG Pos.eqb andb] in *.
  - destruct (cmp_Z (absval a ?= value t)%Q =? 0) eqn:Ec; cbn [negb].
    + apply cmp_Z_zero in Ec. cbn [mbind outcome_bind]. eexists. split; [done|]. split; [by apply copy_ok|]. split; [|done].
      rewrite copy_value, T3. apply inject_Z_injective. rewrite (floor_between (- f) (- absval a)%Q); [lia|rewrite inject_Z_opp; lra|rewrite inject_Z_opp; lra].
    + assert (¬ (absval a == value t)%Q) as Hne by (intros Hq; apply cmp_Z_zero in Hq; congruence).
      destruct const_one_ok as [O1 O2]. destruct (add_var_spec t const_one T1 O1) as (r & -> & (R1 & R2 & R3) & _). cbn [mbind outcome_bind].
      eexists. split; [done|]. split; [by apply copy_ok|]. split; [|cbn [nv_dscale set_var_from_var alloc_var]; rewrite R3, T2; done].
      rewrite copy_value, R2, O2, T3. change 1%Q with (inject_Z 1). rewrite <- inject_Z_plus. apply inject_Z_injective.
      assert (inject_Z f < absval a)%Q as Hlt by (rewrite T3 in Hne; apply Qle_lteq in F1 as [?|?]; [done|lra]).
      assert (inject_Z (- f - 1) == - inject_Z f - 1)%Q as Ef by (unfold Z.sub; rewrite inject_Z_plus, inject_Z_opp; reflexivity).
      rewrite (floor_between (- f - 1) (- absval a)%Q); [lia| |]; rewrite Ef; lra.
  - cbn [mbind outcome_bind]. eexists. split; [done|]. split; [by apply copy_ok|]. split; [|done].
    rewrite copy_value, T3, <- inject_Z_opp. apply inject_Z_injective. f_equal. unfold f. apply Qfloor_comp. ring.
Qed.

Lemma floor_var_spec a : var_ok a → stripped a → ∃ r, floor_var a = Ret r ∧ result r (inject_Z (Qfloor (value a))) 0.
Proof using.
  intros Ha Hs. unfold floor_var.
  destruct (trunc_whole (set_var_from_var a) (copy_ok _ Ha) Hs) as (t & -> & T1 & T2 & T3 & T4). cbn [mbind outcome_bind].
  change (cmp_var (set_var_from_var a) t) with (cmp_var a t) in T4. rewrite T4. change (value (set_var_from_var a)) with (value a).
  change (absval (set_var_from_var a)) with (absval a) in T3. unfold signed in T3. change (nv_sign (set_var_from_var a)) with (nv_sign a) in T3.
  destruct (floor_bounds (absval a)) as [F1 F2]. set (f := Qfloor (absval a)) in *. clear T4. rewrite (value_eq a).
  destruct (vo_sign _ Ha) as [E|E]; rewrite E in *; cbn [Z.eqb NUMERIC_POS NUMERIC_NEG Pos.eqb andb] in *.
  { cbn [mbind outcome_bind]. eexists. split; [done|]. split; [by apply copy_ok|]. split; [|done]. by rewrite copy_value, T3. }
  destruct (cmp_Z (- absval a ?= value t)%Q =? 0) eqn:Ec; cbn [negb].
  - apply cmp_Z_zero in Ec. cbn [mbind outcome_bind]. eexists. split; [done|]. split; [by apply copy_ok|]. split; [|done].
    rewrite copy_value, T3, <- inject_Z_opp. apply inject_Z_injective. rewrite (floor_between (- f) (- absval a)%Q); [lia|rewrite inject_Z_opp; lra|rewrite inject_Z_opp; lra].
  - assert (¬ (- absval a == value t)%Q) as Hne by (intros Hq; apply cmp_Z_zero in Hq; congruence).
    destruct const_one_ok as [O1 O2]. destruct (sub_var_spec t const_one T1 O1) as (r & -> & (R1 & R2 & R3) & _). cbn [mbind outcome_bind].
    eexists. split; [done|]. split; [by apply copy_ok|]. split; [|cbn [nv_dscale set_var_from_var alloc_var]; rewrite R3, T2; done].
    assert (inject_Z (- f - 1) == - inject_Z f - 1)%Q as Ef by (unfold Z.sub; rewrite inject_Z_plus, inject_Z_opp; reflexivity).
    assert (inject_Z f < absval a)%Q as Hlt by (rewrite T3 in Hne; apply Qle_lteq in F1 as [?|?]; [done|lra]).
    rewrite (floor_between (- f - 1) (- absval a)%Q); [|rewrite Ef; lra|rewrite Ef; lra]. rewrite copy_value, R2, O2, T3, Ef. reflexivity.
Qed.

Lemma numeric_ceil_floor_packs :
  packs (numeric_ceil n) (inject_Z (Qceiling (value v))) 0 ∧ packs (numeric_floor n) (inject_Z (Qfloor (value v))) 0.
Proof using H.
  destruct (pk_number _ _ H) as [N1 N2 _ _]. split.
  - destruct (ceil_var_spec (set_var_from_var v) (copy_ok _ N1) N2) as (r & Hr & Hres).
    apply (numeric_unary_packs _ _ v); [done|by exists r|done|apply of_scale_int].
  - destruct (floor_var_spec (set_var_from_var v) (copy_ok _ N1) N2) as (r & Hr & Hres).
    apply (numeric_unary_packs _ _ v); [done|by exists r|done|apply of_scale_int].
Qed.

Lemma numeric_inc_packs : packs (numeric_inc n) (value v + 1) (nv_dscale v).
Proof using H.
  destruct (pk_number _ _ H) as [N1 N2 N3 N4]. destruct const_one_ok as [O1 O2].
  destruct (add_var_spec (set_var_from_var v) const_one (copy_ok _ N1) O1) as (r & Hr & (R1 & R2 & R3) & _).
  apply (numeric_unary_packs _ _ v); [done| |done|].
  - exists r. split; [done|]. split; [done|]. split; [by rewrite R2, O2, copy_value|].
    rewrite R3. cbn [nv_dscale set_var_from_var alloc_var const_one]. lia.
  - apply of_scale_add; [done|]. apply (of_scale_le _ 0); [done|]. apply of_scale_int.
Qed.
End unary.

(** ** Theorems *)

(** 1.5 and -2.25, packed. *)
Definition num_a : NumericData := mkNumeric 0x8080 [1; 5000].
Definition var_a : NumericVar := mkVar [] [1; 5000] 0 NUMERIC_POS 1.
Definition num_b : NumericData := mkNumeric 0xA100 [2; 2500].
Definition var_b : NumericVar := mkVar [] [2; 2500] 0 NUMERIC_NEG 2.

Lemma packed_a : packed num_a var_a.
Proof.
  split; [done| |done]. split; [split; [repeat constructor; done|constructor|by left]|done|done|]. exists 15. reflexivity.
Qed.
Lemma packed_b : packed num_b var_b.
Proof.
  split; [done| |done]. split; [split; [repeat constructor; done|constructor|by right]|done|done|]. exists (-225). reflexivity.
Qed.

(** C15: sums and differences of packed numbers are exact and shown with the larger of the two scales,
    and adding one is exact: the result is the packed form of the exact value, or the error that it is
    out of range when it has none. *)
Theorem numeric_add_sub_exact n1 n2 v1 v2 : packed n1 v1 → packed n2 v2 →
  packs (numeric_add n1 n2) (value v1 + value v2) (Z.max (nv_dscale v1) (nv_dscale v2)) ∧
  packs (numeric_sub n1 n2) (value v1 - value v2) (Z.max (nv_dscale v1) (nv_dscale v2)) ∧
  packs (numeric_inc n1) (value v1 + 1) (nv_dscale v1).
Proof.
  intros H1 H2. split; [by apply numeric_add_packs|]. split; [by apply numeric_sub_packs|by apply numeric_inc_packs].
Qed.

Lemma numeric_add_sub_exact_witness : packs (numeric_add num_a num_b) (value var_a + value var_b) 2 ∧
  numeric_add num_a num_b = Ret (mkNumeric 0xA17F [7500]).
Proof.
  split; [|reflexivity].
  exact (proj1 (numeric_add_sub_exact num_a num_b var_a var_b packed_a packed_b)).
Defined.

(** C5: products of packed numbers are exact, with the sum of the two scales, as long as every pass
    over the accumulators has room for its carries, as it has when the first operand has at most 21
    digits of base 10000. *)
Theorem numeric_mul_exact n1 n2 v1 v2 : packed n1 v1 → packed n2 v2 →
  carry_room (rev (nv_digits v1)) 0 = true ∨ (length (nv_digits v1) ≤ 21)%nat →
  packs (numeric_mul n1 n2) (value v1 * value v2) (nv_dscale v1 + nv_dscale v2).
Proof.
  intros H1 H2 Hroom. apply numeric_mul_packs; [done|done|]. destruct Hroom as [Hroom|Hroom]; [done|].
  apply carry_room_short; [apply Forall_rev, (vo_digits _ (nm_ok _ (pk_number _ _ H1)))|]. rewrite length_rev. unfold NBASE. lia.
Qed.

Lemma numeric_mul_exact_witness : packs (numeric_mul num_a num_b) (value var_a * value var_b) 3 ∧
  numeric_mul num_a num_b = Ret (mkNumeric 0xA180 [3; 3750]).
Proof.
  split; [|reflexivity]. apply (numeric_mul_exact num_a num_b var_a var_b packed_a packed_b). left. reflexivity.
Defined.

(** Operands of 22 and 25 digits of base 10000. *)
Definition var_long : NumericVar := mkVar [] (replicate 21 9999 ++ [4790]) 0 NUMERIC_POS 84.
Definition num_long : NumericData := mkNumeric 84 (0 :: nv_digits var_long).
Definition var_longer : NumericVar := mkVar [] (replicate 25 9999) 0 NUMERIC_POS 96.
Definition num_longer : NumericData := mkNumeric 96 (0 :: nv_digits var_longer).

Lemma all_digits l : forallb (λ d, (0 <=? d) && (d <? NBASE)) l = true → Forall digit l.
Proof.
  intros H. apply Forall_forall. intros d Hd. apply list_elem_of_In in Hd. rewrite forallb_forall in H.
  apply H, andb_true_iff in Hd as [H1%Z.leb_le H2%Z.ltb_lt]. done.
Qed.

Lemma packed_long : packed num_long var_long.
Proof.
  split; [done| |done]. split; [split; [by apply all_digits|constructor|by left]|done|done|]. exists (num (nv_digits var_long)). vm_compute. reflexivity.
Qed.
Lemma packed_longer : packed num_longer var_longer.
Proof.
  split; [done| |done]. split; [split; [by apply all_digits|constructor|by left]|done|done|]. exists (num (nv_digits var_longer)). vm_compute. reflexivity.
Qed.

(** C24: the test that starts a pass over the accumulators leaves no room for the carry that the
    pass adds to them: on well-formed operands an accumulator overflows, and the product is stored with a digit
    that is not one. *)
Theorem numeric_mul_accumulator_overflow :
  packed num_long var_long ∧ packed num_longer var_longer ∧ carry_room (rev (nv_digits var_long)) 0 = false ∧
  ∃ n, numeric_mul num_long num_longer = Ret n ∧ NUMERIC_IS_NAN n = false ∧ ¬ Forall digit (NUMERIC_DIGITS n).
Proof.
  split; [exact packed_long|]. split; [exact packed_longer|]. split; [reflexivity|].
  eexists. split; [vm_compute; reflexivity|]. split; [reflexivity|]. intros H. apply (Forall_forall digit) with (x := -256) in H.
  - unfold digit in H. lia.
  - apply list_elem_of_In. vm_compute. tauto.
Qed.

(** The comparison as a decision. *)
Lemma cmp_le x y : (cmp_Z (x ?= y)%Q <=? 0) = Qle_bool x y.
Proof.
  apply eq_true_iff_eq. rewrite Qle_bool_iff. destruct (Qcompare_spec x y) as [E|E|E]; cbn; split; try done; intros H; lra.
Qed.
Lemma cmp_eq x y : (cmp_Z (x ?= y)%Q =? 0) = Qeq_bool x y.
Proof.
  apply eq_true_iff_eq. rewrite Qeq_bool_iff. destruct (Qcompare_spec x y) as [E|E|E]; cbn; split; try done; intros H; lra.
Qed.
Lemma cmp_ge x y : (0 <=? cmp_Z (x ?= y)%Q) = Qle_bool y x.
Proof.
  apply eq_true_iff_eq. rewrite Qle_bool_iff. destruct (Qcompare_spec x y) as [E|E|E]; cbn; split; try done; intros H; lra.
Qed.

(** Packed numbers are compared by value, and each of the six operators decides its relation;
    not-a-number is equal to itself and greater than every number. *)
Theorem numeric_comparison n1 n2 nan v1 v2 : packed n1 v1 → packed n2 v2 → NUMERIC_IS_NAN nan = true →
  numeric_cmp n1 n2 = Ret (cmp_Z (value v1 ?= value v2)%Q) ∧
  numeric_eq n1 n2 = Ret (Qeq_bool (value v1) (value v2)) ∧ numeric_ne n1 n2 = Ret (negb (Qeq_bool (value v1) (value v2))) ∧
  numeric_le n1 n2 = Ret (Qle_bool (value v1) (value v2)) ∧ numeric_gt n1 n2 = Ret (negb (Qle_bool (value v1) (value v2))) ∧
  numeric_ge n1 n2 = Ret (Qle_bool (value v2) (value v1)) ∧ numeric_lt n1 n2 = Ret (negb (Qle_bool (value v2) (value v1))) ∧
  numeric_cmp nan n1 = Ret 1 ∧ numeric_cmp n1 nan = Ret (-1) ∧ numeric_cmp nan nan = Ret 0.
Proof.
  intros H1 H2 Hn. destruct (set_var_from_num_spec n1 v1 H1) as [_ Hf].
  unfold numeric_eq, numeric_ne, numeric_le, numeric_lt, numeric_ge, numeric_gt, numeric_cmp.
  rewrite (cmp_numerics_packed n1 n2 v1 v2 H1 H2). cbn [mbind outcome_bind].
  rewrite cmp_eq, cmp_le, cmp_ge. rewrite (Z.ltb_antisym 0), (Z.ltb_antisym _ 0), cmp_le, cmp_ge.
  unfold cmp_numerics. rewrite Hn, Hf. done.
Qed.

Lemma numeric_comparison_witness : numeric_cmp num_a num_b = Ret (cmp_Z (value var_a ?= value var_b)%Q) ∧ numeric_lt num_b num_a = Ret true.
Proof.
  split; [|reflexivity].
  exact (proj1 (numeric_comparison num_a num_b (mkNumeric NUMERIC_NAN []) var_a var_b packed_a packed_b eq_refl)).
Defined.

(** C23: a packed number is rounded to the nearest multiple of a power of ten, halves away from zero, or
    truncated towards zero; its ceiling and floor are those of its value.  A scale beyond the limits is taken to
    be the limit, and a negative scale is shown as zero. *)
Theorem numeric_rounding n v scale : packed n v → let s := limit_scale scale in
  packs (numeric_round n scale) (signed v (inject_Z (Qfloor (absval v * ten ^ s + (1 # 2))) * ten ^ (- s))) (Z.max s 0) ∧
  packs (numeric_trunc n scale) (signed v (inject_Z (Qfloor (absval v * ten ^ s)) * ten ^ (- s))) (Z.max s 0) ∧
  packs (numeric_ceil n) (inject_Z (Qceiling (value v))) 0 ∧ packs (numeric_floor n) (inject_Z (Qfloor (value v))) 0.
Proof.
  intros H s. split; [by apply numeric_round_packs|]. split; [by apply numeric_trunc_packs|]. by apply numeric_ceil_floor_packs.
Qed.

Lemma numeric_rounding_witness :
  packs (numeric_ceil num_b) (inject_Z (Qceiling (value var_b))) 0 ∧
  numeric_ceil num_b = Ret (mkNumeric 0xA000 [2]) ∧ numeric_floor num_b = Ret (mkNumeric 0xA000 [3]) ∧
  numeric_round num_b 1 = Ret (mkNumeric 0xA080 [2; 3000]) ∧ numeric_trunc num_b 1 = Ret (mkNumeric 0xA080 [2; 2000]).
Proof.
  split; [exact (proj1 (proj2 (proj2 (numeric_rounding num_b var_b 1 packed_b))))|]. repeat split; reflexivity.
Defined.
