(* ===== verification/NumericDiv.v ===== *)
(** * NumericDiv: division

    The division loops of [div_var]: the one for a divisor of one digit, and the estimate of a quotient
    digit from the first digits, with its corrections.  The quotient is the exact
    quotient, truncated or rounded to the scale that is asked for; the assertions of the code
    hold and the estimate is lowered at most [NBASE] times. *)

From Stdlib Require Import QArith Qround Qpower Qabs Lqa.
From S2P Require Import Prelude Int Numeric NumericSpec NumericMul NumericOps.
Open Scope Z_scope.

(** Every element of an array is a digit. *)
Definition digits_arr (a : list Z) : Prop := ∀ i, digit (wd a i).

Lemma digits_arr_Forall a : Forall digit a → digits_arr a.
Proof. intros H i. by apply wd_digit. Qed.

Lemma digit_0 : digit 0.
Proof. unfold digit, NBASE. lia. Qed.

Lemma NBASE_pos : 0 < NBASE.
Proof. done. Qed.

(** What is above a bound is zero. *)
Lemma carry_zero c w t n : 0 ≤ c → 0 ≤ w → c * B n + w = t → t < B n → c = 0.
Proof. intros Hc Hw E Ht. pose proof (B_pos n). assert (c < 1) by (apply (Z.mul_lt_mono_pos_r (B n)); lia). lia. Qed.

Lemma digits_arr_set a a' i x : digits_arr a → digit x → 0 ≤ i →
  (∀ j, 0 ≤ j → wd a' j = if decide (j = i) then x else wd a j) → digits_arr a'.
Proof.
  intros Ha Hx Hi Hw j. destruct (decide (0 ≤ j)) as [Hj|Hj].
  - rewrite Hw by done. by case_decide.
  - unfold wd. replace (Z.to_nat j) with (Z.to_nat 0) by lia. fold (wd a' 0). rewrite Hw by lia. by case_decide.
Qed.

(** The rest of a truncating division. *)
Lemma quot_rem_digit c d : 0 ≤ c → 0 < d → Z.quot c d = c / d ∧ Z.rem c d = c mod d ∧ c = d * (c / d) + c mod d ∧ 0 ≤ c mod d < d ∧ 0 ≤ c / d.
Proof.
  intros Hc Hd. rewrite Z.quot_div_nonneg, Z.rem_mod_nonneg by lia. split; [done|]. split; [done|]. split; [apply Z.div_mod; lia|].
  split; [apply Z.mod_pos_bound; lia|apply Z.div_pos; lia].
Qed.

(** ** A divisor of one digit *)

Lemma short_division_spec d dividend : 0 < d < NBASE → digits_arr dividend → ∀ n i carry res,
  0 ≤ i → i + Z.of_nat n < Z.of_nat (length dividend) → 0 ≤ carry < d →
  ∃ qs, short_division n dividend d i carry res = Ret (res ++ qs) ∧ length qs = n ∧ Forall digit qs ∧
    num qs = (carry * B n + wval (wd dividend) (i + 1) n) / d.
Proof.
  intros Hd Ha. induction n as [|n IH]; intros i carry res Hi Hlen Hc.
  { exists []. rewrite app_nil_r. split; [done|]. split; [done|]. split; [constructor|]. cbn [wval]. rewrite num_nil.
    symmetry. apply Z.div_small. simpl. lia. }
  cbn [short_division]. rewrite wd_get by lia. cbn [mbind outcome_bind]. pose proof (Ha (i + 1)) as Hx. unfold digit in Hx.
  set (x := wd dividend (i + 1)) in *. set (c := carry * NBASE + x).
  destruct (quot_rem_digit c d ltac:(unfold c; nia) ltac:(lia)) as (-> & -> & Hdm & Hmb & Hq).
  destruct (IH (i + 1) (c mod d) (res ++ [c / d])) as (qs & Hrun & Hl & Hall & Hn); [lia|lia|done|].
  assert (digit (c / d)) as Hqd by (unfold digit, c in *; nia).
  exists (c / d :: qs). rewrite <- app_assoc in Hrun. split; [done|]. split; [by cbn [length]; rewrite Hl|]. split; [by constructor|].
  rewrite num_cons, Hl, Hn, wval_cons, B_succ. fold x.
  replace (carry * (NBASE * B n) + (x * B n + wval (wd dividend) (i + 1 + 1) n)) with ((c / d * B n) * d + (c mod d * B n + wval (wd dividend) (i + 1 + 1) n))
    by (unfold c in *; nia).
  rewrite Z.div_add_l by lia. done.
Qed.

(** ** Scaling *)

Lemma scale_loop_spec d : 0 < d ≤ NBASE → ∀ n a i carry, digits_arr a → Z.of_nat n ≤ i ≤ Z.of_nat (length a) → 0 ≤ carry < d →
  ∃ carry' a', scale_loop n a i d carry = Ret (carry', a') ∧ length a' = length a ∧ digits_arr a' ∧ 0 ≤ carry' < d ∧
    (∀ j, 0 ≤ j → j < i - Z.of_nat n ∨ i ≤ j → wd a' j = wd a j) ∧
    carry' * B n + wval (wd a') (i - Z.of_nat n) n = d * wval (wd a) (i - Z.of_nat n) n + carry.
Proof.
  intros Hd. induction n as [|n IH]; intros a i carry Ha Hi Hc.
  { exists carry, a. split; [done|]. split; [done|]. split; [done|]. split; [done|]. split; [done|]. simpl. lia. }
  cbn [scale_loop]. rewrite wd_get by lia. cbn [mbind outcome_bind]. pose proof (Ha (i - 1)) as Hx. unfold digit in Hx.
  set (x := wd a (i - 1)) in *. set (c := carry + x * d).
  destruct (quot_rem_digit c NBASE ltac:(unfold c; nia) NBASE_pos) as (-> & -> & Hdm & Hmb & Hq).
  destruct (wd_set a (i - 1) (c mod NBASE)) as (a1 & -> & Hl1 & Hw1); [lia|]. cbn [mbind outcome_bind].
  assert (c / NBASE < d) as Hcd by (unfold c in *; nia).
  destruct (IH a1 (i - 1) (c / NBASE)) as (carry' & a' & Hrun & Hl & Ha' & Hc' & Hsame & Heq);
    [by apply (digits_arr_set a a1 (i - 1) (c mod NBASE)); [..|lia|]|lia|lia|].
  exists carry', a'. split; [done|]. split; [lia|]. split; [done|]. split; [done|]. split.
  { intros j Hj Hr. rewrite Hsame, Hw1 by lia. by rewrite decide_False by lia. }
  cbn [wval]. replace (i - Z.of_nat (S n)) with (i - 1 - Z.of_nat n) in * by lia. replace (i - 1 - Z.of_nat n + Z.of_nat n) with (i - 1) by lia.
  fold x. rewrite (Hsame (i - 1)), Hw1, decide_True by lia.
  rewrite (wval_ext (wd a1) (wd a)) in Heq by (intros k Hk; rewrite Hw1, decide_False by lia; done).
  rewrite B_succ. unfold c in *. nia.
Qed.

(** ** Subtracting a multiple of the divisor *)

(** The [n] digits from index [j] of the dividend: the low end of what the loop has done is at
    index [j + n]; the loop goes down from there. *)
Lemma mulsub_spec qhat v : 0 ≤ qhat < NBASE → digits_arr v → ∀ n u j carry borrow,
  digits_arr u → 0 ≤ j → j + Z.of_nat n ≤ Z.of_nat (length u) → Z.of_nat n ≤ Z.of_nat (length v) →
  0 ≤ carry < NBASE → -1 ≤ borrow ≤ 0 →
  ∃ carry' borrow' u', mulsub_loop n v u j qhat carry borrow = Ret (carry', borrow', u') ∧ length u' = length u ∧ digits_arr u' ∧
    0 ≤ carry' < NBASE ∧ -1 ≤ borrow' ≤ 0 ∧
    (∀ k, 0 ≤ k → k < j ∨ j + Z.of_nat n ≤ k → wd u' k = wd u k) ∧
    carry' * B n ≤ qhat * wval (wd v) 0 n + carry ∧
    wval (wd u') j n + borrow' * B n = wval (wd u) j n + borrow - (qhat * wval (wd v) 0 n + carry) + carry' * B n.
Proof.
  intros Hq Hv. induction n as [|n IH]; intros u j carry borrow Hu Hj Hlu Hlv Hc Hb.
  { exists carry, borrow, u. split; [done|]. split; [done|]. split; [done|]. split; [done|]. split; [done|]. split; [done|]. simpl. lia. }
  cbn [mulsub_loop]. rewrite (wd_get v) by lia. cbn [mbind outcome_bind]. pose proof (Hv (Z.of_nat n)) as Hx. unfold digit in Hx.
  cbv zeta. set (x := wd v (Z.of_nat n)) in *. set (c := carry + x * qhat).
  destruct (quot_rem_digit c NBASE ltac:(unfold c; nia) NBASE_pos) as (-> & -> & Hdm & Hmb & Hcq).
  rewrite (wd_get u) by lia. cbn [mbind outcome_bind]. pose proof (Hu (j + Z.of_nat n)) as Hy. unfold digit in Hy.
  set (y := wd u (j + Z.of_nat n)) in *. assert (c / NBASE < NBASE) as Hcd by (unfold c in *; nia).
  assert (∀ b' d, digit d → -1 ≤ b' ≤ 0 → b' * NBASE + d = borrow - c mod NBASE + y →
    ∃ carry' borrow' u',
      (dividend ← arr_set u (j + Z.of_nat n) d; mulsub_loop n v dividend j qhat (c / NBASE) b') = Ret (carry', borrow', u') ∧
      length u' = length u ∧ digits_arr u' ∧ 0 ≤ carry' < NBASE ∧ -1 ≤ borrow' ≤ 0 ∧
      (∀ k, 0 ≤ k → k < j ∨ j + Z.of_nat (S n) ≤ k → wd u' k = wd u k) ∧
      carry' * B (S n) ≤ qhat * wval (wd v) 0 (S n) + carry ∧
      wval (wd u') j (S n) + borrow' * B (S n) = wval (wd u) j (S n) + borrow - (qhat * wval (wd v) 0 (S n) + carry) + carry' * B (S n)) as Hgo.
  { intros b' d Hd Hb' Heq. destruct (wd_set u (j + Z.of_nat n) d) as (u1 & -> & Hl1 & Hw1); [lia|]. cbn [mbind outcome_bind].
    destruct (IH u1 j (c / NBASE) b') as (carry' & borrow' & u' & Hrun & Hl & Hu' & Hc' & Hb'' & Hsame & Hcle & Hval);
      [by apply (digits_arr_set u u1 (j + Z.of_nat n) d); [..|lia|]|lia|lia|lia|lia|lia|].
    exists carry', borrow', u'. split; [done|]. split; [lia|]. split; [done|]. split; [done|]. split; [done|]. split.
    { intros k Hk Hr. rewrite Hsame, Hw1 by lia. by rewrite decide_False by lia. }
    cbn [wval]. rewrite Z.add_0_l. fold x y. rewrite (Hsame (j + Z.of_nat n)), Hw1, decide_True by lia.
    rewrite (wval_ext (wd u1) (wd u)) in Hval by (intros k Hk; rewrite Hw1, decide_False by lia; done).
    rewrite B_succ. unfold c in *. clear Hrun Hsame Hw1 IH. pose proof NBASE_pos. split; [nia|]. nia. }
  destruct (Z.ltb_spec (borrow - c mod NBASE + y) 0); apply Hgo; unfold digit; lia.
Qed.

(** ** Adding the divisor back *)

Lemma addback_spec v : digits_arr v → ∀ n u j carry,
  digits_arr u → 0 ≤ j → j + Z.of_nat n ≤ Z.of_nat (length u) → Z.of_nat n ≤ Z.of_nat (length v) → 0 ≤ carry ≤ 1 →
  ∃ carry' u', addback_loop n v u j carry = Ret (carry', u') ∧ length u' = length u ∧ digits_arr u' ∧ 0 ≤ carry' ≤ 1 ∧
    (∀ k, 0 ≤ k → k < j ∨ j + Z.of_nat n ≤ k → wd u' k = wd u k) ∧
    wval (wd u') j n + carry' * B n = wval (wd u) j n + wval (wd v) 0 n + carry.
Proof.
  intros Hv. induction n as [|n IH]; intros u j carry Hu Hj Hlu Hlv Hc.
  { exists carry, u. split; [done|]. split; [done|]. split; [done|]. split; [done|]. split; [done|]. simpl. lia. }
  cbn [addback_loop]. rewrite (wd_get u) by lia. cbn [mbind outcome_bind].
  rewrite (wd_get v) by lia. cbn [mbind outcome_bind].
  pose proof (Hv (Z.of_nat n)) as Hx. pose proof (Hu (j + Z.of_nat n)) as Hy. unfold digit in Hx, Hy.
  set (x := wd v (Z.of_nat n)) in *. set (y := wd u (j + Z.of_nat n)) in *.
  assert (∀ c' d, digit d → 0 ≤ c' ≤ 1 → c' * NBASE + d = carry + y + x →
    ∃ carry' u', (dividend ← arr_set u (j + Z.of_nat n) d; addback_loop n v dividend j c') = Ret (carry', u') ∧
      length u' = length u ∧ digits_arr u' ∧ 0 ≤ carry' ≤ 1 ∧
      (∀ k, 0 ≤ k → k < j ∨ j + Z.of_nat (S n) ≤ k → wd u' k = wd u k) ∧
      wval (wd u') j (S n) + carry' * B (S n) = wval (wd u) j (S n) + wval (wd v) 0 (S n) + carry) as Hgo.
  { intros c' d Hd Hc' Heq. destruct (wd_set u (j + Z.of_nat n) d) as (u1 & -> & Hl1 & Hw1); [lia|]. cbn [mbind outcome_bind].
    destruct (IH u1 j c') as (carry' & u' & Hrun & Hl & Hu' & Hcb & Hsame & Hval);
      [by apply (digits_arr_set u u1 (j + Z.of_nat n) d); [..|lia|]|lia|lia|lia|lia|].
    exists carry', u'. split; [done|]. split; [lia|]. split; [done|]. split; [done|]. split.
    { intros k Hk Hr. rewrite Hsame, Hw1 by lia. by rewrite decide_False by lia. }
    cbn [wval]. rewrite Z.add_0_l. fold x y. rewrite (Hsame (j + Z.of_nat n)), Hw1, decide_True by lia.
    rewrite (wval_ext (wd u1) (wd u)) in Hval by (intros k Hk; rewrite Hw1, decide_False by lia; done).
    rewrite B_succ. nia. }
  destruct (Z.leb_spec NBASE (carry + y + x)); apply Hgo; unfold digit; lia.
Qed.

(** ** The estimate *)

(** The greatest number not above the first estimate that passes the test. *)
Lemma adjust_qhat_spec v1 v2 u01 u2 : 0 ≤ u01 → 0 ≤ u2 → ∀ fuel qhat, 0 ≤ qhat ≤ Z.of_nat fuel →
  ∃ q', adjust_qhat fuel v1 v2 u01 u2 qhat = Ret q' ∧ 0 ≤ q' ≤ qhat ∧ v2 * q' ≤ (u01 - q' * v1) * NBASE + u2 ∧
    ∀ q, q ≤ qhat → v2 * q ≤ (u01 - q * v1) * NBASE + u2 → q ≤ q'.
Proof.
  intros Hu01 Hu2. induction fuel as [|fuel IH]; intros qhat Hq; cbn [adjust_qhat];
    (destruct (Z.ltb_spec ((u01 - qhat * v1) * NBASE + u2) (v2 * qhat)) as [Hlt|Hge];
      [|exists qhat; split; [done|]; split; [lia|]; split; [lia|]; lia]).
  - assert (qhat = 0) as -> by lia. unfold NBASE in *. lia.
  - assert (qhat ≠ 0) as Hne by (intros ->; unfold NBASE in *; lia).
    destruct (IH (qhat - 1)) as (q' & -> & Hb & Hc & Hmax); [lia|]. exists q'. split; [done|]. split; [lia|]. split; [done|].
    intros q Hle Hcond. apply Hmax; [|done]. assert (q ≠ qhat) by (intros ->; lia). lia.
Qed.

(** The digits of the dividend and the divisor by their first ones; [K] is the weight of
    the others. *)
Section estimate.
  Context (x0 x1 x2 lu v1 v2 lv K : Z).
  Context (Hx0 : digit x0) (Hx1 : digit x1) (Hx2 : digit x2) (Hv1 : digit v1) (Hv2 : digit v2).
  Context (HK : 0 < K) (Hlu : 0 ≤ lu < K) (Hlv : 0 ≤ lv < K) (Hv1p : 0 < v1).
Let U : Z := ((x0 * NBASE + x1) * NBASE + x2) * K + lu.
Let V : Z := (v1 * NBASE + v2) * K + lv.
  Context (HUV : U < V * NBASE).

Lemma first_digit_le : x0 ≤ v1.
Proof using All. unfold U, V, digit, NBASE in *. nia. Qed.

Lemma estimate_digit : 0 ≤ (if x0 =? v1 then NBASE - 1 else (x0 * NBASE + x1) / v1) < NBASE.
Proof using All.
  pose proof first_digit_le. destruct (Z.eqb_spec x0 v1); [unfold NBASE; lia|]. unfold digit in *.
  split; [apply Z.div_pos; nia|]. apply Z.div_lt_upper_bound; nia.
Qed.

(** The quotient passes the test and is not above the estimate. *)
Lemma quotient_tests : let q := U / V in
  0 ≤ q < NBASE ∧ v2 * q ≤ (x0 * NBASE + x1 - q * v1) * NBASE + x2 ∧
  q ≤ if x0 =? v1 then NBASE - 1 else (x0 * NBASE + x1) / v1.
Proof using All.
  assert (0 < V) as HV by (unfold V, digit, NBASE in *; nia). assert (0 ≤ U) as HU by (unfold U, digit, NBASE in *; nia).
  intros q. assert (q * V ≤ U) as Hq by (pose proof (Z.mul_div_le U V HV); unfold q; lia).
  assert (0 ≤ q) as Hq0 by (by apply Z.div_pos). assert (q < NBASE) as Hqb by (apply Z.div_lt_upper_bound; lia).
  clearbody q. split; [done|].
  assert (q * (v1 * NBASE + v2) ≤ (x0 * NBASE + x1) * NBASE + x2) as Ht.
  { apply Z.lt_succ_r. apply (Z.mul_lt_mono_pos_r K); [done|]. unfold U, V in *. nia. }
  split; [lia|]. destruct (Z.eqb_spec x0 v1); [lia|]. apply Z.div_le_lower_bound; [done|].
  unfold digit in *. clear - Ht Hx2 Hq0 Hv2. unfold NBASE in *. nia.
Qed.

(** What passes the test is at most one above the quotient. *)
Lemma test_bound q' : 0 ≤ q' < NBASE → v2 * q' ≤ (x0 * NBASE + x1 - q' * v1) * NBASE + x2 → q' - 1 ≤ U / V.
Proof using All.
  intros Hq' Ht. assert (0 < V) as HV by (unfold V, digit, NBASE in *; nia). apply Z.div_le_lower_bound; [done|].
  assert (q' * (v1 * NBASE + v2) * K ≤ ((x0 * NBASE + x1) * NBASE + x2) * K) as H1 by (apply Z.mul_le_mono_nonneg_r; lia).
  assert (q' * lv ≤ NBASE * K) as H2 by nia. assert (NBASE * K ≤ V) as H3.
  { unfold V, digit in *. assert (1 * NBASE * K ≤ v1 * NBASE * K) by (apply Z.mul_le_mono_nonneg_r; nia). nia. }
  unfold U, V in *. nia.
Qed.
End estimate.

(** ** A quotient digit *)

(** The first digits. *)
Lemma wval_first2 f j m : wval f j (2 + m) = (f j * NBASE + f (j + 1)) * B m + wval f (j + 2) m.
Proof. rewrite wval_add. cbn [wval]. change (Z.of_nat 2) with 2. change (Z.of_nat 1) with 1. change (Z.of_nat 0) with 0. rewrite Z.add_0_r. lia. Qed.
Lemma wval_first3 f j m : wval f j (3 + m) = ((f j * NBASE + f (j + 1)) * NBASE + f (j + 2)) * B m + wval f (j + 3) m.
Proof. rewrite wval_add. cbn [wval]. change (Z.of_nat 3) with 3. change (Z.of_nat 2) with 2. change (Z.of_nat 1) with 1. change (Z.of_nat 0) with 0. rewrite Z.add_0_r. lia. Qed.

Section long.
  Context (v : list Z) (n2 : nat).
  Context (Hv : digits_arr v) (Hlv : length v = S n2) (Hn2 : (2 ≤ n2)%nat) (Hv0 : wd v 0 = 0) (Hv1 : 0 < wd v 1).
Let V : Z := wval (wd v) 1 n2.

Lemma divisor_bounds : 0 < V < B n2 ∧ wval (wd v) 0 (S n2) = V.
Proof using All.
  assert (wval (wd v) 0 (S n2) = V) as E by (rewrite wval_cons, Hv0; change (0 + 1) with 1; fold V; lia). split; [|done].
  assert (0 ≤ V < B n2) as Hb by (apply wval_bound; intros; apply Hv). split; [|lia].
  unfold V. replace n2 with (S (n2 - 1)) by lia. rewrite wval_cons.
  assert (0 ≤ wval (wd v) (1 + 1) (n2 - 1)) by (apply wval_bound; intros; apply Hv). pose proof (B_pos (n2 - 1)). nia.
Qed.

Lemma quotient_digit_spec u j : digits_arr u → 0 ≤ j → j + Z.of_nat n2 + 1 ≤ Z.of_nat (length u) → wval (wd u) j n2 < V →
  let U := wval (wd u) j (S n2) in
  ∃ u', quotient_digit (Z.of_nat n2) v u (wd v 1) (wd v 2) j = Ret (U / V, u') ∧ digit (U / V) ∧ length u' = length u ∧ digits_arr u' ∧
    (∀ k, 0 ≤ k → k < j ∨ j + Z.of_nat n2 < k → wd u' k = wd u k) ∧ wval (wd u') j (S n2) = U mod V.
Proof using All.
  intros Hu Hj Hlu Hlt U. destruct divisor_bounds as [HVb HV0].
  assert (U < V * NBASE) as HUV.
  { unfold U. cbn [wval]. pose proof (Hu (j + Z.of_nat n2)) as Hd. unfold digit in Hd. pose proof NBASE_pos.
    assert (wval (wd u) j n2 * NBASE ≤ (V - 1) * NBASE) by (apply Z.mul_le_mono_nonneg_r; lia). lia. }
  set (m := (n2 - 2)%nat). set (K := B m). set (lu := wval (wd u) (j + 3) m). set (lv := wval (wd v) 3 m).
  set (x0 := wd u j). set (x1 := wd u (j + 1)). set (x2 := wd u (j + 2)). set (v1 := wd v 1) in *. set (v2 := wd v 2).
  assert (U = ((x0 * NBASE + x1) * NBASE + x2) * K + lu) as EU by (unfold U; replace (S n2) with (3 + m)%nat by lia; apply wval_first3).
  assert (V = (v1 * NBASE + v2) * K + lv) as EV by (unfold V; replace n2 with (2 + m)%nat by lia; apply wval_first2).
  assert (0 ≤ lu < K) as Hlub by (apply wval_bound; intros; apply Hu). assert (0 ≤ lv < K) as Hlvb by (apply wval_bound; intros; apply Hv).
  assert (0 < K) as HK by apply B_pos. rewrite EU, EV in HUV.
  pose proof (estimate_digit x0 x1 x2 lu v1 v2 lv K (Hu _) (Hu _) (Hu _) (Hv _) (Hv _) HK Hlub Hlvb Hv1 HUV) as Hest.
  pose proof (quotient_tests x0 x1 x2 lu v1 v2 lv K (Hu _) (Hu _) (Hu _) (Hv _) (Hv _) HK Hlub Hlvb Hv1 HUV) as Hqt.
  pose proof (test_bound x0 x1 x2 lu v1 v2 lv K (Hu _) (Hu _) (Hu _) (Hv _) (Hv _) HK Hlub Hlvb Hv1 HUV) as Htb.
  cbv zeta in Hqt. rewrite <- EU, <- EV in Hqt, Htb, HUV. destruct Hqt as (Hq & Hqtest & Hqle).
  pose proof (Z.div_mod U V ltac:(lia)) as Hdm. pose proof (Z.mod_pos_bound U V ltac:(lia)) as Hmb. set (q := U / V) in *.
  unfold quotient_digit. rewrite !wd_get by lia. cbn [mbind outcome_bind]. fold x0 x1 x2.
  assert (0 ≤ x0 < NBASE ∧ 0 ≤ x1 < NBASE ∧ 0 ≤ x2 < NBASE) as (D0 & D1 & D2) by (repeat split; apply Hu).
  destruct (Z.eqb_spec (x0 * NBASE + x1) 0) as [Hz|Hz].
  { exists u. assert (q = 0) as E0.
    { assert (1 * (NBASE * K) ≤ v1 * (NBASE * K)) by (apply Z.mul_le_mono_nonneg_r; [unfold NBASE; lia|lia]).
      assert (0 ≤ wd v 2) as Hv2 by apply Hv. assert (0 ≤ v2 * K) by (apply Z.mul_nonneg_nonneg; [exact Hv2|lia]).
      assert (x2 * K ≤ (NBASE - 1) * K) by (apply Z.mul_le_mono_nonneg_r; lia). assert (0 ≤ x2 * K) by (apply Z.mul_nonneg_nonneg; lia).
      apply Z.div_small. rewrite EU, Hz, EV. lia. }
    rewrite E0 in *. split; [done|]. split; [unfold digit, NBASE; lia|]. split; [done|]. split; [done|]. split; [done|]. fold U. lia. }
  rewrite Z.quot_div_nonneg by nia.
  destruct (adjust_qhat_spec v1 v2 (x0 * NBASE + x1) x2 ltac:(nia) ltac:(lia) (Z.to_nat NBASE)
    (if x0 =? v1 then NBASE - 1 else (x0 * NBASE + x1) / v1)) as (qh & -> & Hqh & Hqht & Hmax); [lia|].
  cbn [mbind outcome_bind]. specialize (Hmax q Hqle Hqtest). specialize (Htb qh ltac:(lia) Hqht).
  destruct (Z.ltb_spec 0 qh) as [Hpos|Hneg]; cbn [negb].
  2:{ assert (qh = 0 ∧ q = 0) as [-> E0] by lia. rewrite E0 in *. exists u. split; [done|]. split; [unfold digit, NBASE; lia|].
      split; [done|]. split; [done|]. split; [done|]. fold U. lia. }
  replace (Z.to_nat (Z.of_nat n2 + 1)) with (S n2) by lia.
  destruct (mulsub_spec qh v ltac:(lia) Hv (S n2) u j 0 0) as (c & bw & u1 & -> & Hl1 & Hu1 & Hc & Hbw & Hsame1 & Hcle & Hval);
    [done|lia|lia|lia|done|done|]. cbn [mbind outcome_bind]. rewrite HV0 in Hcle, Hval. fold U in Hval.
  pose proof (B_pos n2) as HBp. assert (qh * V < NBASE * B n2) as Hprod by (apply Z.mul_lt_mono_nonneg; lia).
  assert (c < 1) by (apply (Z.mul_lt_mono_pos_r (NBASE * B n2)); [unfold NBASE at 1; lia|rewrite <- B_succ in *; lia]).
  assert (c = 0) as -> by lia. cbn [Z.eqb negb].
  assert (0 ≤ wval (wd u1) j (S n2) < B (S n2)) as Hw1 by (apply wval_bound; intros; apply Hu1).
  destruct (Z.eqb_spec bw 0) as [-> |Hbw0]; cbn [negb].
  - assert (q = qh) as <- by nia. exists u1. split; [done|]. split; [done|]. split; [done|]. split; [done|].
    split; [intros k Hk Hr; apply Hsame1; lia|]. lia.
  - assert (bw = -1) as -> by lia. assert (q = qh - 1) as Eq by nia.
    destruct (addback_spec v Hv (S n2) u1 j 0) as (c2 & u2 & -> & Hl2 & Hu2 & Hc2 & Hsame2 & Hval2); [done|lia|lia|lia|lia|].
    cbn [mbind outcome_bind]. rewrite HV0 in Hval2.
    assert (0 ≤ wval (wd u2) j (S n2) < B (S n2)) as Hw2 by (apply wval_bound; intros; apply Hu2).
    assert (V < B (S n2)) as HVS by (rewrite B_succ; unfold NBASE in *; lia).
    assert (c2 = 1) as -> by nia. cbn [Z.eqb Pos.eqb negb]. rewrite <- Eq. exists u2. split; [done|]. split; [done|]. split; [lia|]. split; [done|].
    split; [intros k Hk Hr; rewrite Hsame2, Hsame1 by lia; done|]. nia.
Qed.

(** All digits of the quotient. *)
Lemma long_division_spec n : ∀ u j res, digits_arr u → 0 ≤ j → j + Z.of_nat n + Z.of_nat n2 ≤ Z.of_nat (length u) →
  wval (wd u) j n2 < V →
  ∃ qs, long_division n (Z.of_nat n2) v u (wd v 1) (wd v 2) j res = Ret (res ++ qs) ∧ length qs = n ∧ Forall digit qs ∧
    num qs = wval (wd u) j (n + n2) / V.
Proof using All.
  destruct divisor_bounds as [HVb _]. induction n as [|n IH]; intros u j res Hu Hj Hlu Hlt.
  { exists []. rewrite app_nil_r. split; [done|]. split; [done|]. split; [constructor|]. rewrite num_nil. symmetry. apply Z.div_small.
    split; [apply wval_bound; intros; apply Hu|done]. }
  cbn [long_division]. destruct (quotient_digit_spec u j Hu Hj ltac:(lia) Hlt) as (u' & -> & Hq & Hl & Hu' & Hsame & Hmod).
  cbn [mbind outcome_bind]. set (U := wval (wd u) j (S n2)) in *.
  pose proof (Z.div_mod U V ltac:(lia)) as Hdm. pose proof (Z.mod_pos_bound U V ltac:(lia)) as Hmb.
  assert (wd u' j = 0 ∧ wval (wd u') (j + 1) n2 = U mod V) as [H0 Hw].
  { rewrite wval_cons in Hmod. assert (0 ≤ wval (wd u') (j + 1) n2 < B n2) by (apply wval_bound; intros; apply Hu').
    pose proof (Hu' j) as [Hd _]. assert (wd u' j = 0) as E by (apply (carry_zero _ _ _ n2 Hd) in Hmod; [done|lia|lia]). rewrite E in *. lia. }
  destruct (IH u' (j + 1) (res ++ [U / V])) as (qs & Hrun & Hlq & Hqs & Hn); [done|lia|lia|lia|].
  exists (U / V :: qs). rewrite <- app_assoc in Hrun. split; [done|]. split; [by cbn [length]; rewrite Hlq|]. split; [by constructor|].
  rewrite num_cons, Hlq, Hn.
  assert (wval (wd u) j (S n + n2) = U / V * B n * V + wval (wd u') (j + 1) (n + n2)) as ->.
  { replace (S n + n2)%nat with (S n2 + n)%nat by lia. rewrite wval_add. fold U. replace (n + n2)%nat with (n2 + n)%nat by lia.
    rewrite wval_add, Hw. replace (j + Z.of_nat (S n2)) with (j + 1 + Z.of_nat n2) by lia.
    rewrite (wval_ext (wd u') (wd u) (j + 1 + Z.of_nat n2)) by (intros k Hk; apply Hsame; lia). nia. }
  by rewrite Z.div_add_l by lia.
Qed.
End long.

(** ** Normalization *)

(** The factor brings the first digit to at least half the base. *)
Lemma factor_half x : 0 < x < HALF_NBASE → let d := NBASE / (x + 1) in 1 < d ≤ NBASE ∧ d * (x + 1) ≤ NBASE ∧ HALF_NBASE ≤ d * x.
Proof.
  intros Hx d. unfold HALF_NBASE in *. pose proof (Z.div_mod NBASE (x + 1) ltac:(lia)) as Hdm.
  pose proof (Z.mod_pos_bound NBASE (x + 1) ltac:(lia)) as Hmb. fold d in Hdm.
  assert (2 ≤ d) by (apply Z.div_le_lower_bound; unfold NBASE; lia). split; [unfold NBASE in *; nia|]. split; [lia|].
  destruct (decide (x = 1)) as [->|Hne]; [done|]. assert (0 ≤ (d - 2) * (x - 2)) by nia. unfold NBASE in *. nia.
Qed.

Lemma wd_head0 l i : wd (0 :: l) i = if i <=? 0 then 0 else wd l (i - 1).
Proof.
  destruct (Z.leb_spec i 0) as [Hi|Hi]; [unfold wd; by replace (Z.to_nat i) with 0%nat by lia|].
  rewrite wd_cons by lia. by rewrite (proj2 (Z.eqb_neq i 0)) by lia.
Qed.

Lemma wval_head0 l n : wval (wd (0 :: l)) 1 n = wval (wd l) 0 n.
Proof. change 1 with (0 + 1). rewrite <- wval_shift. apply wval_ext. intros i Hi. rewrite wd_head0, (proj2 (Z.leb_gt _ _)) by lia. f_equal. lia. Qed.

(** Scaled by a common factor; the same if the first digit is large enough. *)
Lemma normalize_spec d1 d2 zs : Forall digit d1 → Forall digit d2 → starts_nonzero d2 → d2 ≠ [] → Forall (λ z, z = 0) zs →
  let dividend := [0] ++ d1 ++ zs in
  ∃ d v u, normalize_divisor (Z.of_nat (length d1)) (Z.of_nat (length d2)) (0 :: d2) dividend = Ret (v, u) ∧ 0 < d ∧
    digits_arr v ∧ length v = S (length d2) ∧ wd v 0 = 0 ∧ 0 < wd v 1 ∧ wval (wd v) 1 (length d2) = d * num d2 ∧
    digits_arr u ∧ length u = length dividend ∧ wval (wd u) 0 (length dividend) = d * num dividend.
Proof.
  intros H1 H2 Hs Hne Hz dividend. unfold normalize_divisor.
  assert (digits_arr (0 :: d2)) as Hv by (apply digits_arr_Forall; constructor; [apply digit_0|done]).
  assert (Forall digit dividend) as Hdv.
  { unfold dividend. constructor; [apply digit_0|]. apply Forall_app. split; [done|]. eapply Forall_impl; [exact Hz|]. intros ? ->. apply digit_0. }
  destruct d2 as [|f d2']; [done|]. clear Hne. simpl in Hs. set (d2 := f :: d2') in *.
  assert (wd (0 :: d2) 1 = f) as Ef by done. assert (digit f) as Hf by (by apply Forall_cons in H2 as [Hf _]). unfold digit in Hf.
  rewrite (wd_get (0 :: d2) 1) by (unfold d2; cbn [length]; lia). rewrite Ef. cbn [mbind outcome_bind].
  destruct (Z.ltb_spec f HALF_NBASE) as [Hlt|Hge]; cbn [negb].
  2:{ exists 1, (0 :: d2), dividend. split; [done|]. split; [done|]. split; [done|]. split; [done|]. split; [done|]. rewrite Ef. split; [lia|].
      split; [rewrite wval_head0, Z.mul_1_l; done|]. split; [by apply digits_arr_Forall|]. split; [done|]. by rewrite Z.mul_1_l. }
  rewrite Z.quot_div_nonneg by (unfold NBASE; lia). destruct (factor_half f ltac:(lia)) as (Hd & Hdf & Hhalf). set (d := NBASE / (f + 1)) in *.
  destruct (scale_loop_spec d ltac:(lia) (length d2) (0 :: d2) (Z.of_nat (length d2) + 1) 0) as (c & v & Hrun & Hl & Hv' & Hc & Hsame & Heq);
    [done|cbn [length]; lia|lia|].
  rewrite Nat2Z.id, Hrun. cbn [mbind outcome_bind]. replace (Z.of_nat (length d2) + 1 - Z.of_nat (length d2)) with 1 in * by lia.
  rewrite wval_head0, Z.add_0_r in Heq. change (wval (wd d2) 0 (length d2)) with (num d2) in Heq.
  assert (num d2 = f * B (length d2') + num d2') as En by apply num_cons.
  assert (Forall digit d2') as H2' by (by apply Forall_cons in H2 as [_ H2']). pose proof (num_bound d2' H2') as Hb'. pose proof (B_pos (length d2')) as HBp.
  assert (0 ≤ wval (wd v) 1 (length d2) < B (length d2)) as Hwb by (apply wval_bound; intros; apply Hv').
  assert (B (length d2) = NBASE * B (length d2')) as EB by (unfold d2; cbn [length]; apply B_succ).
  assert (d * num d2 < NBASE * B (length d2')) as Hsmall by (rewrite En; nia).
  assert (c = 0) as -> by (apply carry_zero in Heq; lia). cbn [Z.eqb negb].
  destruct (scale_loop_spec d ltac:(lia) (S (length d1)) dividend (Z.of_nat (length d1) + 1) 0) as (c & u & Hrun2 & Hl2 & Hu' & Hc2 & Hsame2 & Heq2);
    [by apply digits_arr_Forall|unfold dividend; cbn [length app]; rewrite length_app; lia|lia|].
  replace (Z.to_nat (Z.of_nat (length d1) + 1)) with (S (length d1)) by lia. rewrite Hrun2. cbn [mbind outcome_bind].
  replace (Z.of_nat (length d1) + 1 - Z.of_nat (S (length d1))) with 0 in * by lia.
  assert (wval (wd dividend) 0 (S (length d1)) = num d1) as Ew.
  { rewrite wval_cons. change (wd dividend 0) with 0. rewrite Z.mul_0_l, Z.add_0_l. unfold dividend. cbn [app]. change (0 + 1) with 1. rewrite wval_head0. unfold num.
    apply wval_ext. intros i Hi. rewrite wd_app, (proj2 (Z.ltb_lt _ _)) by lia. done. }
  pose proof (num_bound d1 H1) as Hb1. pose proof (B_pos (length d1)). rewrite Ew in Heq2.
  assert (0 ≤ wval (wd u) 0 (S (length d1)) < B (S (length d1))) as Hwb2 by (apply wval_bound; intros; apply Hu').
  assert (c = 0) as -> by (apply carry_zero in Heq2; [done|lia|lia|rewrite B_succ; nia]). cbn [Z.eqb negb].
  assert (HALF_NBASE ≤ wd v 1) as Hfirst.
  { unfold d2 in Heq. cbn [length] in Heq. fold d2 in Heq. rewrite wval_cons, En in Heq.
    assert (wval (wd v) (1 + 1) (length d2') < B (length d2')) by (apply wval_bound; intros; apply Hv').
    assert (d * f * B (length d2') < (wd v 1 + 1) * B (length d2')) as Hm by nia. apply Z.mul_lt_mono_pos_r in Hm; lia. }
  rewrite wd_get by (rewrite Hl; unfold d2; cbn [length]; lia). cbn [mbind outcome_bind]. rewrite (proj2 (Z.ltb_ge _ _)) by done.
  exists d, v, u. split; [done|]. split; [lia|]. split; [done|]. split; [done|]. split; [rewrite Hsame by lia; done|].
  split; [unfold HALF_NBASE in *; lia|]. split; [lia|]. split; [done|]. split; [done|].
  unfold num. unfold dividend at 1 3. cbn [length app]. rewrite length_app. change (S (length d1 + length zs)) with (S (length d1) + length zs)%nat.
  rewrite !wval_add, Ew. rewrite (wval_ext (wd u) (wd dividend) (0 + _)) by (intros k Hk; apply Hsame2; lia).
  rewrite (wval_zero (wd dividend) (0 + _)); [lia|]. intros k Hk. unfold dividend. cbn [app]. rewrite wd_head0, (proj2 (Z.leb_gt _ _)), wd_app, (proj2 (Z.ltb_ge _ _)) by lia.
  unfold wd. destruct (zs !! _) eqn:E; [|done]. by eapply Forall_lookup_1 in E; [|exact Hz].
Qed.

(** ** The digits of the quotient *)

(** A prefix of an array, as a quotient. *)
Lemma wval_prefix a n k : digits_arr a → wval (wd a) 0 (n + k) / B k = wval (wd a) 0 n.
Proof.
  intros Ha. rewrite wval_add. assert (0 ≤ wval (wd a) (0 + Z.of_nat n) k < B k) by (apply wval_bound; intros; apply Ha).
  rewrite Z.div_add_l, Z.div_small by lia. lia.
Qed.

Lemma div_digits_spec d1 d2 n : Forall digit d1 → Forall digit d2 → starts_nonzero d2 → d2 ≠ [] → (1 ≤ n)%nat →
  let m := Nat.max (n + length d2) (length d1) in
  ∃ res, div_digits d1 d2 (Z.of_nat n) = Ret res ∧ length res = n ∧ Forall digit res ∧
    num res = num d1 * B (m - length d1) / (num d2 * B (1 + m - n - length d2)).
Proof.
  intros H1 H2 Hs Hne Hn m. unfold div_digits. set (zs := replicate (m - length d1) 0).
  replace (Z.to_nat (Z.max (Z.of_nat n + Z.of_nat (length d2)) (Z.of_nat (length d1)) - Z.of_nat (length d1))) with (m - length d1)%nat by lia.
  fold zs. set (dividend := [0] ++ d1 ++ zs). set (k := (1 + m - n - length d2)%nat).
  assert (length dividend = (n + length d2 + k)%nat) as Hlen.
  { unfold dividend. cbn [app length]. rewrite length_app. unfold zs. rewrite length_replicate. lia. }
  assert (num dividend = num d1 * B (m - length d1)) as Hfull.
  { unfold dividend. cbn [app]. rewrite num_cons, num_app. unfold zs. rewrite num_zeros, length_replicate. lia. }
  assert (Forall (λ z, z = 0) zs) as Hzs by (by apply Forall_replicate).
  assert (Forall digit dividend) as Hdd.
  { unfold dividend. constructor; [apply digit_0|]. apply Forall_app. split; [done|]. apply Forall_replicate, digit_0. }
  pose proof (starts_nonzero_num d2 H2 Hs Hne) as HD. rewrite <- Hfull. rewrite Nat2Z.id.
  destruct (Z.eqb_spec (Z.of_nat (length d2)) 1) as [E1|E1].
  - destruct d2 as [|f [|]]; [done| |cbn [length] in E1; lia]. change (num [f]) with f in *.
    apply Forall_cons in H2 as [Hf _]. unfold digit in Hf.
    change (arr_get ([0] ++ [f]) 1) with (Ret f). cbn [mbind outcome_bind]. cbn [length] in Hlen, k.
    destruct (short_division_spec f dividend ltac:(lia) ltac:(by apply digits_arr_Forall) n 0 0 []) as (qs & Hrun & Hl & Hq & Hnum); [lia|lia|lia|].
    exists qs. rewrite Hrun. split; [done|]. split; [done|]. split; [done|]. rewrite Hnum, Z.mul_0_l, Z.add_0_l, Z.add_0_l.
    rewrite Z.mul_comm, <- Z.div_div by (lia || apply B_pos). f_equal. unfold num. rewrite Hlen, wval_prefix by (by apply digits_arr_Forall).
    rewrite Nat.add_1_r, wval_cons. change (wd dividend 0) with 0. change (0 + 1) with 1. lia.
  - destruct (normalize_spec d1 d2 zs H1 H2 Hs Hne Hzs) as (d & v & u & Hrun & Hd & Hv & Hlv & Hv0 & Hv1 & HV & Hu & Hlu & HU).
    fold dividend in Hrun, Hlu, HU. change ([0] ++ d2) with (0 :: d2). rewrite Hrun. cbn [mbind outcome_bind].
    assert (2 ≤ length d2)%nat as Hn2 by (destruct d2 as [|? [|]]; [done|cbn [length] in E1; lia|cbn [length]; lia]).
    rewrite !wd_get by (rewrite Hlv; lia). cbn [mbind outcome_bind].
    assert (B (length d2 - 1) ≤ num d2) as HDB.
    { destruct d2 as [|f d2']; [done|]. apply Forall_cons in H2 as [Hf H2']. pose proof (num_bound d2' H2'). simpl in Hs. unfold digit in Hf.
      rewrite num_cons. cbn [length]. rewrite Nat.sub_succ, Nat.sub_0_r. pose proof (B_pos (length d2')). nia. }
    destruct (long_division_spec v (length d2) Hv Hlv Hn2 Hv0 Hv1 n u 0 []) as (qs & Hrun2 & Hlq & Hq & Hnum); [done|lia|lia| |].
    + rewrite HV. rewrite Hlen in HU.
      assert (wval (wd u) 0 (length d2) = d * num dividend / B (n + k)) as ->.
      { rewrite <- HU. replace (n + length d2 + k)%nat with (length d2 + (n + k))%nat by lia. by rewrite wval_prefix. }
      apply Z.div_lt_upper_bound; [apply B_pos|].
      assert (num dividend < B (length d2 - 1) * B (n + k)) as Hb.
      { rewrite <- B_add. replace (length d2 - 1 + (n + k))%nat with (length (d1 ++ zs)) by (rewrite <- Hlen in *; unfold dividend in Hlen; cbn [app length] in Hlen; lia).
        unfold dividend. cbn [app]. rewrite num_cons, Z.mul_0_l, Z.add_0_l. apply num_bound. unfold dividend in Hdd. by apply Forall_cons in Hdd as [_ Hdd]. }
      pose proof (B_pos (n + k)). assert (B (length d2 - 1) * B (n + k) ≤ num d2 * B (n + k)) by (apply Z.mul_le_mono_nonneg_r; lia).
      replace (B (n + k) * (d * num d2)) with (d * (num d2 * B (n + k))) by lia. apply Z.mul_lt_mono_pos_l; lia.
    + exists qs. rewrite Hrun2. split; [done|]. split; [done|]. split; [done|]. rewrite Hnum, HV. rewrite Hlen in HU.
      rewrite <- (wval_prefix u (n + length d2) k Hu), HU. rewrite Z.div_div by (pose proof (B_pos k); nia).
      replace (B k * (d * num d2)) with (d * (num d2 * B k)) by lia. rewrite Z.div_mul_cancel_l; [done| |lia]. pose proof (B_pos k). nia.
Qed.

(** ** The quotient *)

(** Truncating at a finer scale first changes neither the truncation nor the rounding. *)
Lemma pow10_pos s t : s ≤ t → 0 < 10 ^ (t - s) ∧ (0 < inject_Z (10 ^ (t - s)))%Q.
Proof.
  intros Hs. assert (0 < 10 ^ (t - s)) by (apply Z.pow_pos_nonneg; lia). split; [done|]. change 0%Q with (inject_Z 0). by rewrite <- Zlt_Qlt.
Qed.

Section finer.
  Context (x : Q) (s t : Z).
Let N : Z := Qfloor (x * ten ^ t).
Let y : Q := (inject_Z N * ten ^ (- t))%Q.

Lemma finer_frac : s ≤ t → (y * ten ^ s * inject_Z (10 ^ (t - s)) == inject_Z N)%Q.
Proof using All.
  intros Hs. unfold y. rewrite <- ten_Z, <- !Qmult_assoc, <- !ten_plus by lia. replace (- t + (s + (t - s))) with 0 by lia. simpl. ring.
Qed.

Lemma finer_bounds : s ≤ t → (inject_Z N <= x * ten ^ s * inject_Z (10 ^ (t - s)))%Q ∧ (x * ten ^ s * inject_Z (10 ^ (t - s)) < inject_Z N + 1)%Q.
Proof using All.
  intros Hs. assert (x * ten ^ s * inject_Z (10 ^ (t - s)) == x * ten ^ t)%Q as ->; [|apply floor_bounds].
  rewrite <- ten_Z, <- Qmult_assoc, <- ten_plus by lia. by replace (s + (t - s)) with t by lia.
Qed.

Lemma trunc_finer : s ≤ t → trunc_units y s = trunc_units x s.
Proof using All.
  intros Hs. destruct (pow10_pos s t Hs) as [HM HM']. destruct (finer_bounds Hs) as [B1 B2]. unfold trunc_units.
  rewrite (frac_floor N (10 ^ (t - s))) by (done || by apply finer_frac). set (M := 10 ^ (t - s)) in *. set (z := (x * ten ^ s)%Q) in *.
  pose proof (Z.div_mod N M ltac:(lia)) as Hdm. pose proof (Z.mod_pos_bound N M HM) as Hmb. set (q := N / M) in *. symmetry.
  assert (inject_Z (M * q) <= inject_Z N)%Q as L1 by (rewrite <- Zle_Qle; lia).
  assert (inject_Z N + 1 <= inject_Z (M * (q + 1)))%Q as L2 by (change 1%Q with (inject_Z 1); rewrite <- inject_Z_plus, <- Zle_Qle; lia).
  rewrite inject_Z_mult in L1, L2.
  apply Qfloor_unique; [apply (Qmult_le_r _ _ _ HM')|apply (Qmult_lt_r _ _ _ HM')]; lra.
Qed.

Lemma round_finer : s + 1 ≤ t → round_units y s = round_units x s.
Proof using All.
  intros Hs. destruct (pow10_pos s t ltac:(lia)) as [HM HM']. destruct (finer_bounds ltac:(lia)) as [B1 B2]. unfold round_units.
  rewrite (frac_round N (10 ^ (t - s))) by (done || apply finer_frac; lia).
  assert (∃ h, 10 ^ (t - s) = 2 * h) as [h Hh].
  { exists (5 * 10 ^ (t - s - 1)). replace (t - s) with (1 + (t - s - 1)) at 1 by lia. rewrite Z.pow_add_r by lia. lia. }
  set (M := 10 ^ (t - s)) in *. set (z := (x * ten ^ s)%Q) in *. unfold rnd.
  pose proof (Z.div_mod (2 * N + M) (2 * M) ltac:(lia)) as Hdm. pose proof (Z.mod_pos_bound (2 * N + M) (2 * M) ltac:(lia)) as Hmb.
  set (q := (2 * N + M) / (2 * M)) in *. symmetry.
  assert (inject_Z (M * q - h) <= inject_Z N)%Q as L1 by (rewrite <- Zle_Qle; lia).
  assert (inject_Z N + 1 <= inject_Z (M * (q + 1) - h))%Q as L2 by (change 1%Q with (inject_Z 1); rewrite <- inject_Z_plus, <- Zle_Qle; lia).
  assert (inject_Z M == 2 * inject_Z h)%Q as Eh by (rewrite Hh, inject_Z_mult; reflexivity).
  unfold Z.sub in L1, L2. rewrite inject_Z_plus, inject_Z_opp, inject_Z_mult in L1, L2.
  apply Qfloor_unique; [apply (Qmult_le_r _ _ _ HM')|apply (Qmult_lt_r _ _ _ HM')]; rewrite Eh in *; lra.
Qed.
End finer.

(** The truncated quotient, at the precision of [n] digits. *)
Lemma quotient_value v1 v2 n res : var_ok v1 → var_ok v2 → starts_nonzero (nv_digits v2) → nv_digits v2 ≠ [] → (1 ≤ n)%nat →
  div_digits (nv_digits v1) (nv_digits v2) (Z.of_nat n) = Ret res →
  let e := Z.of_nat n - (nv_weight v1 - nv_weight v2) - 1 in
  num res = Qfloor (absval v1 / absval v2 * ten ^ (4 * e)).
Proof.
  intros H1 H2 Hs Hne Hn Hres e. set (d1 := nv_digits v1) in *. set (d2 := nv_digits v2) in *.
  destruct (div_digits_spec d1 d2 n (vo_digits _ H1) (vo_digits _ H2) Hs Hne Hn) as (res' & Hrun & _ & _ & Hnum).
  rewrite Hres in Hrun. injection Hrun as <-. rewrite Hnum. set (m := Nat.max (n + length d2) (length d1)).
  set (k := (1 + m - n - length d2)%nat). pose proof (starts_nonzero_num d2 (vo_digits _ H2) Hs Hne) as HD. pose proof (B_pos k) as HB.
  symmetry. apply frac_floor; [nia|]. rewrite !inject_Z_mult, <- !(base_Z (Z.of_nat _)), <- base_ten by lia.
  assert (¬ (absval v2 == 0)%Q) as Hnz by (intros E; pose proof (absval_nonzero v2 H2 Hs Hne) as Hp; rewrite E in Hp; by apply Qlt_irrefl in Hp).
  assert (¬ (inject_Z (num d2) == 0)%Q) as Hnz2 by (intros E; change 0%Q with (inject_Z 0) in E; apply (proj1 (inject_Z_injective _ _)) in E; lia).
  assert (absval v1 / absval v2 == inject_Z (num d1) / inject_Z (num d2) * base ^ (expo v1 - expo v2))%Q as ->.
  { unfold absval, Z.sub. fold d1 d2. rewrite base_plus, Qpower_opp. field. split; first [exact Hnz2|apply Qpower_not_0, base_nonzero]. }
  transitivity (inject_Z (num d1) * (base ^ (expo v1 - expo v2) * base ^ e * base ^ Z.of_nat k))%Q; [field; done|].
  rewrite <- !base_plus. apply Qmult_comp; [reflexivity|].
  replace (expo v1 - expo v2 + e + Z.of_nat k) with (Z.of_nat (m - length d1)); [reflexivity|].
  unfold expo, nv_ndigits, e. fold d1 d2. lia.
Qed.

(** What the caller asks for: rounding or truncation. *)
Definition quotient_units (round : bool) : Q → Z → Z := if round then round_units else trunc_units.

(** With the sign of the quotient. *)
Definition quotient_signed (v1 v2 : NumericVar) (y : Q) : Q := if (product_sign v1 v2 =? NUMERIC_NEG)%Z then (- y)%Q else y.

Lemma units_zero round scale : quotient_units round 0 scale = 0.
Proof.
  assert (0 * ten ^ scale == inject_Z 0)%Q as E by apply Qmult_0_l.
  destruct round; unfold quotient_units, round_units, trunc_units; rewrite E; [apply Qfloor_half|apply Qfloor_Z].
Qed.

#[global] Instance quotient_units_proper round : Proper (Qeq ==> eq ==> eq) (quotient_units round).
Proof. destruct round; apply _. Qed.

Lemma div_var_spec v1 v2 rscale round : var_ok v1 → var_ok v2 → starts_nonzero (nv_digits v2) → nv_digits v2 ≠ [] → 0 ≤ rscale →
  ∃ r, div_var v1 v2 rscale round = Ret r ∧ stripped r ∧
    result r (quotient_signed v1 v2 (inject_Z (quotient_units round (absval v1 / absval v2) rscale) * ten ^ (- rscale))) rscale.
Proof.
  intros H1 H2 Hs Hne Hr. unfold div_var.
  assert ((match nv_digits v2 with [] => true | d :: _ => d =? 0 end) = false) as ->.
  { destruct (nv_digits v2); [done|]. by apply Z.eqb_neq. }
  destruct (Z.eqb_spec (nv_ndigits v1) 0) as [Ez|Ez].
  { exists (zero_var rscale). split; [done|]. split; [done|]. split; [split; [constructor|constructor|by left]|]. split; [|done].
    assert (absval v1 / absval v2 == 0)%Q as E by (rewrite (absval_zero v1); [apply Qmult_0_l|unfold nv_ndigits in Ez; by destruct (nv_digits v1)]).
    assert (quotient_units round (absval v1 / absval v2) rscale = 0) as -> by (rewrite E; apply units_zero).
    set (r := zero_var _). assert (value r == 0)%Q as -> by apply Qmult_0_l. unfold quotient_signed.
    assert (inject_Z 0 * ten ^ (- rscale) == 0)%Q as E0 by apply Qmult_0_l. destruct (product_sign v1 v2 =? NUMERIC_NEG); rewrite E0; reflexivity. }
  fold (product_sign v1 v2). set (rw := nv_weight v1 - nv_weight v2).
  set (nz := if round then _ + 1 else _). assert (∃ n, nz = Z.of_nat n ∧ (1 ≤ n)%nat ∧ rscale + (if round then 4 else 0) ≤ 4 * (Z.of_nat n - rw - 1)) as (n & En & Hn & Hsc).
  { exists (Z.to_nat nz). unfold nz, DEC_DIGITS. rewrite Z.quot_div_nonneg by lia.
    pose proof (Z.div_mod (rscale + 4 - 1) 4 ltac:(lia)). pose proof (Z.mod_pos_bound (rscale + 4 - 1) 4 ltac:(lia)). destruct round; lia. }
  rewrite En. destruct (div_digits_spec (nv_digits v1) (nv_digits v2) n (vo_digits _ H1) (vo_digits _ H2) Hs Hne Hn) as (res & Hrun & Hlen & Hres & _).
  rewrite Hrun. cbn [mbind outcome_bind]. pose proof (quotient_value v1 v2 n res H1 H2 Hs Hne Hn Hrun) as Hnum. cbv zeta in Hnum. fold rw in Hnum.
  set (p := alloc_var _ _ _ _). assert (var_ok p) as Hp by (split; [done|by repeat constructor|apply product_sign_ok]).
  set (t := 4 * (Z.of_nat n - rw - 1)) in *. set (x := (absval v1 / absval v2)%Q) in *.
  assert (absval p == inject_Z (Qfloor (x * ten ^ t)) * ten ^ (- t))%Q as Ha.
  { unfold absval. change (nv_digits p) with res. rewrite Hnum, base_ten. replace (4 * expo p) with (- t); [reflexivity|].
    unfold expo, nv_ndigits, p, t. cbn [nv_weight nv_digits alloc_var]. rewrite Hlen. lia. }
  assert (∃ r, (if round then round_var p rscale else trunc_var p rscale) = Ret r ∧ rounded_to p r (quotient_units round) rscale) as (r & -> & R1 & R2 & R3 & _).
  { destruct round; [by apply round_var_spec|]. destruct (trunc_var_spec p rscale Hp) as (r & Hrun' & Hr' & _). by exists r. }
  cbn [mbind outcome_bind]. destruct (strip_var_spec r R1) as (S1 & S2 & _ & S3 & S4 & _). eexists. split; [done|]. split; [done|].
  split; [done|]. split; [|by rewrite S4].
  assert (quotient_units round (absval p) rscale = quotient_units round x rscale) as Eu.
  { rewrite Ha. destruct round; [apply round_finer; lia|apply trunc_finer; lia]. }
  rewrite S3, R3, Eu. reflexivity.
Qed.

Lemma div_var_zero v1 v2 rscale round : nv_digits v2 = [] → div_var v1 v2 rscale round = Ereport ERRCODE_DIVISION_BY_ZERO.
Proof. intros E. unfold div_var. by rewrite E. Qed.

(** ** The remainder *)

Lemma stripped_nonzero v : number v → ¬ (value v == 0)%Q → starts_nonzero (nv_digits v) ∧ nv_digits v ≠ [].
Proof.
  intros [Hv (Hs & _) _ _] Hnz. split; [done|]. intros E. apply Hnz. rewrite value_eq. pose proof (absval_zero v E) as Ha.
  destruct (_ =? _)%Z; rewrite Ha; reflexivity.
Qed.

Lemma quotient_signed_abs v1 v2 : var_ok v1 → var_ok v2 → ¬ (absval v2 == 0)%Q →
  (value v1 / value v2 == quotient_signed v1 v2 (absval v1 / absval v2))%Q.
Proof.
  intros H1 H2 Hnz. rewrite !value_eq. unfold quotient_signed, product_sign.
  destruct (vo_sign _ H1) as [-> | ->], (vo_sign _ H2) as [-> | ->]; cbn; field; done.
Qed.

(** The whole part of the quotient, towards zero. *)
Definition whole_quotient (v1 v2 : NumericVar) : Q := quotient_signed v1 v2 (inject_Z (Qfloor (absval v1 / absval v2))).

Lemma whole_units v1 v2 :
  (quotient_signed v1 v2 (inject_Z (quotient_units false (absval v1 / absval v2) 0) * ten ^ (- 0)) == whole_quotient v1 v2)%Q.
Proof.
  unfold whole_quotient, quotient_signed, quotient_units, trunc_units. change (ten ^ (- 0))%Q with 1%Q. change (ten ^ 0)%Q with 1%Q.
  rewrite (Qfloor_comp (absval v1 / absval v2 * 1) (absval v1 / absval v2)) by ring. destruct (_ =? _)%Z; ring.
Qed.

Lemma of_scale_whole v1 v2 : of_scale (whole_quotient v1 v2) 0.
Proof. unfold whole_quotient, quotient_signed. destruct (_ =? _)%Z; [apply of_scale_opp|]; apply of_scale_int. Qed.

Lemma mod_var_spec v1 v2 : var_ok v1 → number v2 → ¬ (value v2 == 0)%Q → carry_room (rev (nv_digits v2)) 0 = true →
  ∃ r, mod_var v1 v2 = Ret r ∧ result r (value v1 - value v2 * whole_quotient v1 v2) (Z.max (nv_dscale v1) (nv_dscale v2)).
Proof.
  intros H1 N2 Hnz Hroom. destruct (stripped_nonzero v2 N2 Hnz) as [Hs Hne]. pose proof (nm_ok _ N2) as H2. unfold mod_var.
  destruct (div_var_spec v1 v2 0 false H1 H2 Hs Hne ltac:(lia)) as (t & -> & Ts & T1 & T2 & T3). cbn [mbind outcome_bind].
  rewrite whole_units in T2. assert (number t) as Nt.
  { split; [done|done|lia|]. rewrite T2, T3. apply of_scale_whole. }
  pose proof (number_digits v2 N2) as D2. pose proof (number_digits t Nt) as Dt. pose proof (nm_dscale _ N2). rewrite T3 in Dt.
  destruct (mul_var_exact v2 t (nv_dscale v2) H2 T1 Hroom) as (p & -> & _ & P1 & P2 & P3).
  - unfold DEC_DIGITS, MUL_GUARD_DIGITS. lia.
  - replace (nv_dscale v2) with (nv_dscale v2 + 0) by lia. apply of_scale_mul; [apply of_scale_abs, N2|].
    apply of_scale_abs. rewrite T2. apply of_scale_whole.
  - cbn [mbind outcome_bind]. destruct (sub_var_spec v1 p H1 P1) as (r & -> & (R1 & R2 & R3) & _). exists r. split; [done|].
    split; [done|]. split; [by rewrite R2, P2, T2|]. by rewrite R3, P3.
Qed.

(** ** Precision *)

Lemma round_error y s : (Qabs (inject_Z (round_units y s) * ten ^ (- s) - y) <= (1 # 2) * ten ^ (- s))%Q.
Proof.
  unfold round_units. destruct (floor_bounds (y * ten ^ s + (1 # 2))) as [F1 F2]. set (f := inject_Z (Qfloor _)) in *.
  pose proof (ten_pos (- s)) as Hp. assert (y == y * ten ^ s * ten ^ (- s))%Q as Ey by (rewrite <- Qmult_assoc, ten_inv; ring).
  set (p := (ten ^ (- s))%Q) in *. set (z := (y * ten ^ s)%Q) in *. rewrite Ey. apply Qabs_Qle_condition. split; nra.
Qed.

(** The first digit gives the order of magnitude. *)
Lemma leading_digit v : var_ok v → starts_nonzero (nv_digits v) → nv_digits v ≠ [] →
  ∃ d, first_digit (nv_digits v) (nv_weight v) 0 = (nv_weight v, d) ∧ 1 ≤ d < NBASE ∧
    (inject_Z d * base ^ nv_weight v <= absval v)%Q ∧ (absval v < inject_Z (d + 1) * base ^ nv_weight v)%Q.
Proof.
  intros [Hd _ _] Hs Hne. unfold absval, expo, nv_ndigits. destruct (nv_digits v) as [|d l]; [done|]. exists d. cbn [first_digit]. simpl in Hs.
  apply Forall_cons in Hd as [Hd Hl]. rewrite (proj2 (Z.eqb_neq _ _) Hs). split; [done|]. unfold digit in Hd. split; [lia|].
  assert (∀ z, inject_Z z * base ^ nv_weight v == inject_Z (z * B (length l)) * base ^ (nv_weight v + 1 - Z.of_nat (length (d :: l))))%Q as E.
  { intros z. rewrite inject_Z_mult, <- base_Z, <- Qmult_assoc, <- base_plus by lia. cbn [length].
    by replace (Z.of_nat (length l) + (nv_weight v + 1 - Z.of_nat (S (length l)))) with (nv_weight v) by lia. }
  rewrite !E. pose proof (base_pos (nv_weight v + 1 - Z.of_nat (length (d :: l)))) as Hp. pose proof (num_bound l Hl). rewrite num_cons.
  split; [apply (Qmult_le_r _ _ _ Hp); rewrite <- Zle_Qle|apply (Qmult_lt_r _ _ _ Hp); rewrite <- Zlt_Qlt]; lia.
Qed.

(** A scale below the limit shows at least sixteen digits of the quotient. *)
Lemma select_div_scale_digits v1 v2 : number v1 → number v2 → ¬ (value v1 == 0)%Q → ¬ (value v2 == 0)%Q →
  let s := select_div_scale v1 v2 in
  0 ≤ s ≤ NUMERIC_MAX_DISPLAY_SCALE ∧ nv_dscale v1 `min` 1000 ≤ s ∧ nv_dscale v2 `min` 1000 ≤ s ∧
  (s < NUMERIC_MAX_DISPLAY_SCALE → (ten ^ NUMERIC_MIN_SIG_DIGITS <= absval v1 / absval v2 * ten ^ s)%Q).
Proof.
  intros N1 N2 Hz1 Hz2 s. destruct (stripped_nonzero v1 N1 Hz1) as [S1 E1]. destruct (stripped_nonzero v2 N2 Hz2) as [S2 E2].
  destruct (leading_digit v1 (nm_ok _ N1) S1 E1) as (d1 & F1 & D1 & L1 & _). destruct (leading_digit v2 (nm_ok _ N2) S2 E2) as (d2 & F2 & D2 & _ & L2).
  unfold s, select_div_scale. rewrite F1, F2.
  set (qw := if d1 <=? d2 then nv_weight v1 - nv_weight v2 - 1 else nv_weight v1 - nv_weight v2).
  unfold NUMERIC_MAX_DISPLAY_SCALE, NUMERIC_MAX_PRECISION, NUMERIC_MIN_DISPLAY_SCALE, NUMERIC_MIN_SIG_DIGITS, DEC_DIGITS. split; [lia|]. split; [lia|]. split; [lia|]. intros Hlt.
  set (sc := Z.min _ _) in *. assert (16 ≤ 4 * qw + sc) as Hsc by lia. clearbody sc.
  assert (0 < absval v2)%Q as P2 by (apply absval_nonzero; [apply N2|done|done]).
  assert (base ^ qw <= absval v1 / absval v2)%Q as Hq.
  { apply Qle_shift_div_l; [done|]. apply (Qle_trans _ (inject_Z d1 * base ^ nv_weight v1)); [|done].
    apply (Qle_trans _ (base ^ qw * (inject_Z (d2 + 1) * base ^ nv_weight v2))).
    { apply Qmult_le_l; [apply base_pos|by apply Qlt_le_weak]. }
    assert (∃ c, 0 ≤ c ∧ qw + nv_weight v2 + c = nv_weight v1 ∧ d2 + 1 ≤ d1 * NBASE ^ c) as (c & Hc & Hw & Hd).
    { unfold qw. destruct (Z.leb_spec d1 d2); [exists 1|exists 0]; (split; [lia|]; split; [lia|]); [rewrite Z.pow_1_r; unfold NBASE in *; lia|rewrite Z.pow_0_r; lia]. }
    rewrite <- Hw, !base_plus. pose proof (base_pos qw). pose proof (base_pos (nv_weight v2)).
    rewrite (base_Z c) by done. rewrite Zle_Qle, inject_Z_mult in Hd.
    apply (Qle_trans _ (base ^ qw * base ^ nv_weight v2 * inject_Z (d2 + 1))); [apply Qle_lteq; right; ring|].
    apply (Qle_trans _ (base ^ qw * base ^ nv_weight v2 * (inject_Z d1 * inject_Z (NBASE ^ c)))); [|apply Qle_lteq; right; ring].
    apply Qmult_le_l; [|done]. by apply Qmult_lt_0_compat. }
  apply (Qle_trans _ (base ^ qw * ten ^ sc)); [|by apply (Qmult_le_r _ _ _ (ten_pos sc))].
  rewrite base_ten, <- ten_plus. by apply Qpower_le_compat_l.
Qed.

Lemma relative_error x s : (0 < x)%Q → (ten ^ NUMERIC_MIN_SIG_DIGITS <= x * ten ^ s)%Q →
  (Qabs (inject_Z (round_units x s) * ten ^ (- s) - x) <= (1 # 2) * ten ^ (- NUMERIC_MIN_SIG_DIGITS) * x)%Q.
Proof.
  intros Hx Hs. apply (Qle_trans _ _ _ (round_error x s)). rewrite <- Qmult_assoc. apply Qmult_le_l; [done|].
  pose proof (ten_pos (- s)) as Hp. pose proof (ten_pos (- NUMERIC_MIN_SIG_DIGITS)) as Hp'.
  assert (ten ^ (- NUMERIC_MIN_SIG_DIGITS) * ten ^ NUMERIC_MIN_SIG_DIGITS == 1)%Q as Ei by (rewrite Qmult_comm; apply ten_inv).
  assert (ten ^ s * ten ^ (- s) == 1)%Q as Es by apply ten_inv.
  apply (Qle_trans _ (ten ^ (- NUMERIC_MIN_SIG_DIGITS) * (ten ^ NUMERIC_MIN_SIG_DIGITS) * ten ^ (- s))); [rewrite Ei; apply Qle_lteq; right; ring|].
  apply (Qle_trans _ (ten ^ (- NUMERIC_MIN_SIG_DIGITS) * (x * ten ^ s) * ten ^ (- s))).
  - apply (Qmult_le_r _ _ _ Hp). by apply Qmult_le_l.
  - rewrite <- !Qmult_assoc, Es. apply Qle_lteq. right. ring.
Qed.

(** ** The functions *)

Lemma select_div_scale_range v1 v2 : 0 ≤ select_div_scale v1 v2 ≤ NUMERIC_MAX_DISPLAY_SCALE.
Proof.
  unfold select_div_scale. destruct (first_digit _ _ _) as [w1 d1], (first_digit (nv_digits v2) _ _) as [w2 d2].
  unfold NUMERIC_MAX_DISPLAY_SCALE, NUMERIC_MAX_PRECISION, NUMERIC_MIN_DISPLAY_SCALE. lia.
Qed.

Lemma of_scale_quotient v1 v2 z s : of_scale (quotient_signed v1 v2 (inject_Z z * ten ^ (- s))) s.
Proof. unfold quotient_signed. destruct (_ =? _)%Z; [apply of_scale_opp|]; apply of_scale_units. Qed.

Section sql.
  Context (n1 n2 : NumericData) (v1 v2 : NumericVar) (H1 : packed n1 v1) (H2 : packed n2 v2) (Hnz : ¬ (value v2 == 0)%Q).

Lemma numeric_div_packs : let s := select_div_scale v1 v2 in
  packs (numeric_div n1 n2) (quotient_signed v1 v2 (inject_Z (round_units (absval v1 / absval v2) s) * ten ^ (- s))) s.
Proof using All.
  intros s. pose proof (pk_number _ _ H1) as N1. pose proof (pk_number _ _ H2) as N2. destruct (stripped_nonzero v2 N2 Hnz) as [Hs Hne].
  pose proof (select_div_scale_range v1 v2) as Hr.
  destruct (div_var_spec (set_var_from_var v1) (set_var_from_var v2) s true) as (r & Hr' & _ & Hres);
    [apply copy_ok, N1|apply copy_ok, N2|done|done|unfold s; lia|].
  apply (numeric_binary_packs _ _ _ v1 v2); [done|done|by exists r|unfold s; lia|apply of_scale_quotient].
Qed.

Lemma numeric_div_trunc_packs : packs (numeric_div_trunc n1 n2) (whole_quotient v1 v2) 0.
Proof using All.
  pose proof (pk_number _ _ H1) as N1. pose proof (pk_number _ _ H2) as N2. destruct (stripped_nonzero v2 N2 Hnz) as [Hs Hne].
  destruct (div_var_spec (set_var_from_var v1) (set_var_from_var v2) 0 false) as (r & Hr' & _ & R1 & R2 & R3);
    [apply copy_ok, N1|apply copy_ok, N2|done|done|lia|]. rewrite whole_units in R2.
  apply (numeric_binary_packs _ _ _ v1 v2); [done|done|by exists r|lia|apply of_scale_whole].
Qed.

Lemma copy_number v : number v → number (set_var_from_var v).
Proof using. intros [A1 A2 A3 A4]. split; [by apply copy_ok|done|done|done]. Qed.

Lemma numeric_mod_packs : carry_room (rev (nv_digits v2)) 0 = true →
  packs (numeric_mod n1 n2) (value v1 - value v2 * whole_quotient v1 v2) (Z.max (nv_dscale v1) (nv_dscale v2)).
Proof using All.
  intros Hroom. pose proof (pk_number _ _ H1) as N1. pose proof (pk_number _ _ H2) as N2.
  destruct (mod_var_spec (set_var_from_var v1) (set_var_from_var v2)) as (r & Hr & Hres);
    [apply copy_ok, N1|by apply copy_number|done|done|].
  destruct (covers_max n1 n2 v1 v2 H1 H2) as (C1 & C2 & C3).
  apply (numeric_binary_packs _ _ _ v1 v2); [done|done|by exists r|done|]. apply of_scale_add; [done|]. apply of_scale_opp.
  apply (of_scale_le _ (nv_dscale v2 + 0)); [lia|]. apply of_scale_mul; [apply N2|apply of_scale_whole].
Qed.
End sql.

Lemma zero_digits v : number v → (value v == 0)%Q → nv_digits v = [].
Proof.
  intros [Hv (Hs & _) _ _] Hz. destruct (nv_digits v) as [|d l] eqn:E; [done|].
  pose proof (absval_nonzero v Hv ltac:(by rewrite E) ltac:(by rewrite E)) as Hp. rewrite value_eq in Hz. destruct (_ =? _)%Z; lra.
Qed.

Lemma numeric_div_zero n1 n2 v1 v2 : packed n1 v1 → packed n2 v2 → (value v2 == 0)%Q →
  numeric_div n1 n2 = Ereport ERRCODE_DIVISION_BY_ZERO ∧ numeric_div_trunc n1 n2 = Ereport ERRCODE_DIVISION_BY_ZERO ∧
  numeric_mod n1 n2 = Ereport ERRCODE_DIVISION_BY_ZERO.
Proof.
  intros H1 H2 Hz. pose proof (zero_digits v2 (pk_number _ _ H2) Hz) as E.
  destruct (set_var_from_num_spec n1 v1 H1) as [S1 F1]. destruct (set_var_from_num_spec n2 v2 H2) as [S2 F2].
  assert (∀ op, (∀ a b, nv_digits b = [] → op a b = Ereport ERRCODE_DIVISION_BY_ZERO) → numeric_binary op n1 n2 = Ereport ERRCODE_DIVISION_BY_ZERO) as Hop.
  { intros op Hop. unfold numeric_binary. rewrite F1, F2, S1, S2. cbn [orb mbind outcome_bind]. by rewrite Hop. }
  split; [|split]; apply Hop; intros a b Hb; [by apply div_var_zero..|]. unfold mod_var. by rewrite div_var_zero.
Qed.



(** C16: division with truncation gives the whole part of the quotient, towards zero, and the remainder is
    what is left: the dividend less that many times the divisor, exactly, as long as the product
    has room for its carries.  The remainder is smaller than the divisor and has the sign of the dividend. *)
Theorem numeric_div_trunc_mod_correct n1 n2 v1 v2 : packed n1 v1 → packed n2 v2 → ¬ (value v2 == 0)%Q →
  let q := quotient_signed v1 v2 (inject_Z (Qfloor (absval v1 / absval v2))) in
  let r := (value v1 - value v2 * q)%Q in
  packs (numeric_div_trunc n1 n2) q 0 ∧
  (carry_room (rev (nv_digits v2)) 0 = true → packs (numeric_mod n1 n2) r (Z.max (nv_dscale v1) (nv_dscale v2))) ∧
  (Qabs r < Qabs (value v2))%Q ∧ (0 <= r * value v1)%Q.
Proof.
  intros H1 H2 Hnz q r. split; [by apply numeric_div_trunc_packs|]. split; [intros Hroom; by apply numeric_mod_packs|].
  pose proof (pk_number _ _ H1) as N1. pose proof (pk_number _ _ H2) as N2. destruct (stripped_nonzero v2 N2 Hnz) as [Hs Hne].
  pose proof (absval_nonzero v2 (nm_ok _ N2) Hs Hne) as P2. pose proof (absval_nonneg v1 (nm_ok _ N1)) as P1.
  set (f := Qfloor (absval v1 / absval v2)) in *. set (a := absval v1) in *. set (b := absval v2) in *.
  assert (r == signed v1 (a - b * inject_Z f))%Q as Er.
  { unfold r, q, signed, quotient_signed, product_sign. rewrite !value_eq. fold a b.
    destruct (vo_sign _ (nm_ok _ N1)) as [-> | ->], (vo_sign _ (nm_ok _ N2)) as [-> | ->]; cbn; ring. }
  destruct (floor_bounds (a / b)) as [F1 F2]. fold f in F1, F2.
  assert (a == a / b * b)%Q as Ea by (field; intros E; lra).
  assert (0 <= a - b * inject_Z f)%Q as L1 by (rewrite Ea at 1; set (y := (a / b)%Q) in *; nra).
  assert (a - b * inject_Z f < b)%Q as L2 by (rewrite Ea at 1; set (y := (a / b)%Q) in *; nra).
  assert (Qabs (value v2) == b)%Q as ->.
  { rewrite value_eq. fold b. destruct (_ =? _)%Z; rewrite ?Qabs_opp; apply Qabs_pos; lra. }
  rewrite Er. unfold signed. rewrite (value_eq v1). fold a. destruct (_ =? _)%Z.
  - rewrite Qabs_opp, Qabs_pos by done. split; [done|]. nra.
  - rewrite Qabs_pos by done. split; [done|]. nra.
Qed.

Lemma numeric_div_trunc_mod_correct_witness :
  packs (numeric_div_trunc num_b num_a) (whole_quotient var_b var_a) 0 ∧
  numeric_div_trunc num_b num_a = Ret (mkNumeric 0xA000 [1]) ∧ numeric_mod num_b num_a = Ret (mkNumeric 0xA17F [7500]).
Proof.
  split; [|split; reflexivity].
  refine (proj1 (numeric_div_trunc_mod_correct num_b num_a var_b var_a packed_b packed_a _)). intros E. vm_compute in E. discriminate E.
Defined.
