(* ===== verification/NumericConv.v ===== *)
(** * NumericConv: [backend/utils/adt/numeric.c], text and integers

    Input from text and output to text, the limits of a declared precision and scale, and conversions
    from and to integers, on the variables and packed numbers of [Numeric].  A C string is
    the list of its bytes before the terminating NUL.  The text is that of the C
    locale.  The theorems are in [NumericInt], [NumericText] and [NumericTypmod]. *)

From Stdlib Require Import String Ascii.
From S2P Require Import Prelude Int IntText PqFormat Numeric.

(** ** Text to number *)

(** The loop over digits and the decimal point: the digits are stored behind four zeroes. *)
Fixpoint decimal_loop (cp : list char) (have_dp : bool) (decdigits : list Z) (dweight dscale : Z)
    : outcome (list char * list Z * Z * Z) :=
  match cp with
  | c :: cp' =>
      if isdigit c then
        if negb have_dp then decimal_loop cp' have_dp (decdigits ++ [c - 48]) (dweight + 1) dscale
        else decimal_loop cp' have_dp (decdigits ++ [c - 48]) dweight (dscale + 1)
      else if c =? 46 then
        if have_dp then Ereport ERRCODE_INVALID_TEXT_REPRESENTATION
        else decimal_loop cp' true decdigits dweight dscale
      else Ret (cp, decdigits, dweight, dscale)
  | [] => Ret (cp, decdigits, dweight, dscale)
  end.

(** The exponent, if any. *)
Definition parse_exponent (cp : list char) (dweight dscale : Z) : outcome (list char * Z * Z) :=
  if (deref cp =? 101) || (deref cp =? 69) then
    let cp := tail cp in
    let '(exponent, endptr, _) := strtol cp in
    if (length endptr =? length cp)%nat then Ereport ERRCODE_INVALID_TEXT_REPRESENTATION else
    if (NUMERIC_MAX_PRECISION <? exponent) || (exponent <? - NUMERIC_MAX_PRECISION)
    then Ereport ERRCODE_INVALID_TEXT_REPRESENTATION else
    Ret (endptr, dweight + exponent, Z.max (dscale - exponent) 0)
  else Ret (cp, dweight, dscale).

(** Four decimal digits to one of base 10000, from index [i] on. *)
Fixpoint group_loop (n : nat) (decdigits : list Z) (i : Z) : outcome (list Z) :=
  match n with
  | O => Ret []
  | S n' =>
      a ← arr_get decdigits i;
      b ← arr_get decdigits (i + 1);
      c ← arr_get decdigits (i + 2);
      d ← arr_get decdigits (i + 3);
      digits ← group_loop n' decdigits (i + DEC_DIGITS);
      Ret (((a * 10 + b) * 10 + c) * 10 + d :: digits)
  end.

(** The weight of the first digit, from that of the first decimal digit. *)
Definition group_weight (dweight : Z) : Z :=
  if 0 <=? dweight then Z.quot (dweight + 1 + DEC_DIGITS - 1) DEC_DIGITS - 1
  else - (Z.quot (- dweight - 1) DEC_DIGITS + 1).

Definition set_var_from_str (cp : list char) : outcome (list char * NumericVar) :=
  let '(sign, cp) :=
    if deref cp =? 43 then (NUMERIC_POS, tail cp) else if deref cp =? 45 then (NUMERIC_NEG, tail cp) else (NUMERIC_POS, cp) in
  let '(have_dp, cp) := if deref cp =? 46 then (true, tail cp) else (false, cp) in
  if negb (isdigit (deref cp)) then Ereport ERRCODE_INVALID_TEXT_REPRESENTATION else
  '(cp, decdigits, dweight, dscale) ← decimal_loop cp have_dp [0; 0; 0; 0] (-1) 0;
  let ddigits := Z.of_nat (length decdigits) - DEC_DIGITS in
  let decdigits := decdigits ++ [0; 0; 0] in
  '(cp, dweight, dscale) ← parse_exponent cp dweight dscale;
  let weight := group_weight dweight in
  let offset := (weight + 1) * DEC_DIGITS - (dweight + 1) in
  let ndigits := Z.quot (ddigits + offset + DEC_DIGITS - 1) DEC_DIGITS in
  digits ← group_loop (Z.to_nat ndigits) decdigits (DEC_DIGITS - offset);
  Ret (cp, strip_var (alloc_var digits weight sign dscale)).

(** ** The declared precision and scale *)

Fixpoint typmod_loop (digits : list Z) (ddigits maxdigits : Z) : outcome unit :=
  match digits with
  | [] => Ret tt
  | dig :: digits' =>
      if negb (dig =? 0) then
        let ddigits :=
          if dig <? 10 then ddigits - 3 else if dig <? 100 then ddigits - 2 else if dig <? 1000 then ddigits - 1 else ddigits in
        if maxdigits <? ddigits then Ereport ERRCODE_NUMERIC_VALUE_OUT_OF_RANGE else Ret tt
      else typmod_loop digits' (ddigits - DEC_DIGITS) maxdigits
  end.

Definition apply_typmod (var : NumericVar) (typmod : Z) : outcome NumericVar :=
  if typmod <? VARHDRSZ then Ret var else
  let typmod := typmod - VARHDRSZ in
  let precision := Z.land (Z.shiftr typmod 16) 0xffff in
  let scale := Z.land typmod 0xffff in
  let maxdigits := precision - scale in
  var ← round_var var scale;
  let ddigits := (nv_weight var + 1) * DEC_DIGITS in
  _ ← (if maxdigits <? ddigits then typmod_loop (nv_digits var) ddigits maxdigits else Ret tt);
  Ret var.

(** Before a value is stored: the scale of a packed number is changed in place when no rounding is
    needed and the value is in bounds. *)
Definition numeric (num : NumericData) (typmod : Z) : outcome NumericData :=
  if NUMERIC_IS_NAN num then make_result const_nan else
  if typmod <? VARHDRSZ then Ret num else
  let tmp_typmod := typmod - VARHDRSZ in
  let precision := Z.land (Z.shiftr tmp_typmod 16) 0xffff in
  let scale := Z.land tmp_typmod 0xffff in
  let maxdigits := precision - scale in
  weight ← NUMERIC_WEIGHT num;
  let ddigits := (weight + 1) * DEC_DIGITS in
  if (ddigits <=? maxdigits) && (NUMERIC_DSCALE num <=? scale)
     && (NUMERIC_CAN_BE_SHORT scale weight || negb (NUMERIC_IS_SHORT num)) then
    Ret (mkNumeric
           (if NUMERIC_IS_SHORT num
            then uint16_of (Z.lor (Z.land (n_header num) (Z.lnot NUMERIC_SHORT_DSCALE_MASK))
                                  (Z.shiftl scale NUMERIC_SHORT_DSCALE_SHIFT))
            else uint16_of (Z.lor (NUMERIC_SIGN num) (Z.land (uint16_of scale) NUMERIC_DSCALE_MASK)))
           (n_words num))
  else
    var ← set_var_from_num num;
    var ← apply_typmod var typmod;
    make_result var.

(** The type modifier of a declared precision and scale; [tl] is the list of the modifiers of the declaration. *)
Definition numerictypmodin (tl : list Z) : outcome Z :=
  match tl with
  | [precision; scale] =>
      if (precision <? 1) || (NUMERIC_MAX_PRECISION <? precision) then Ereport ERRCODE_INVALID_PARAMETER_VALUE else
      if (scale <? 0) || (precision <? scale) then Ereport ERRCODE_INVALID_PARAMETER_VALUE else
      Ret (Z.lor (Z.shiftl precision 16) scale + VARHDRSZ)
  | [precision] =>
      if (precision <? 1) || (NUMERIC_MAX_PRECISION <? precision) then Ereport ERRCODE_INVALID_PARAMETER_VALUE else
      Ret (Z.shiftl precision 16 + VARHDRSZ)
  | _ => Ereport ERRCODE_INVALID_PARAMETER_VALUE
  end.

(** [pg_strncasecmp(cp, "NaN", 3) == 0] *)
Definition pg_tolower (c : char) : char := if (65 <=? c) && (c <=? 90) then c + 32 else c.
Definition NAN_TEXT : list char := Eval vm_compute in chars "nan".
Definition is_nan_text (cp : list char) : bool := bool_decide (pg_tolower <$> take 3 cp = NAN_TEXT).

Definition numeric_in (str : list char) (typmod : Z) : outcome NumericData :=
  let cp := skip_space str in
  if is_nan_text cp then
    res ← make_result const_nan;
    match skip_space (drop 3 cp) with
    | [] => Ret res
    | _ => Ereport ERRCODE_INVALID_TEXT_REPRESENTATION
    end
  else
    '(cp, value) ← set_var_from_str cp;
    match skip_space cp with
    | [] => value ← apply_typmod value typmod; make_result value
    | _ => Ereport ERRCODE_INVALID_TEXT_REPRESENTATION
    end.

(** ** Number to text *)

(** A digit of base 10000 as decimal digits; leading zeroes are left out until [putit]. *)
Definition put_digits (putit : bool) (dig : Z) : list char :=
  let d1 := Z.quot dig 1000 in
  let dig := dig - d1 * 1000 in
  let putit := putit || (0 <? d1) in
  let s1 := if putit then [d1 + 48] else [] in
  let d1 := Z.quot dig 100 in
  let dig := dig - d1 * 100 in
  let putit := putit || (0 <? d1) in
  let s2 := if putit then [d1 + 48] else [] in
  let d1 := Z.quot dig 10 in
  let dig := dig - d1 * 10 in
  let putit := putit || (0 <? d1) in
  let s3 := if putit then [d1 + 48] else [] in
  s1 ++ s2 ++ s3 ++ [dig + 48].

(** The digits before the decimal point, from index [d] on. *)
Fixpoint whole_loop (n : nat) (digits : list Z) (d : Z) : outcome (list char) :=
  match n with
  | O => Ret []
  | S n' =>
      dig ← (if d <? Z.of_nat (length digits) then arr_get digits d else Ret 0);
      rest ← whole_loop n' digits (d + 1);
      Ret (put_digits (0 <? d) dig ++ rest)
  end.
(** The digits behind it. *)
Fixpoint fraction_loop (n : nat) (digits : list Z) (d : Z) : outcome (list char) :=
  match n with
  | O => Ret []
  | S n' =>
      dig ← digit_at digits d;
      rest ← fraction_loop n' digits (d + 1);
      Ret (put_digits true dig ++ rest)
  end.

(** The bytes that are written, the terminating NUL apart, must fit the buffer. *)
Definition get_str_from_var (var : NumericVar) (dscale : Z) : outcome (list char) :=
  let dscale := Z.max dscale 0 in
  var ← round_var var dscale;
  let i := Z.max ((nv_weight var + 1) * DEC_DIGITS) 1 in
  let size := i + dscale + DEC_DIGITS + 2 in
  let dash := if nv_sign var =? NUMERIC_NEG then [45] else [] in
  whole ← (if nv_weight var <? 0 then Ret [48] else whole_loop (Z.to_nat (nv_weight var + 1)) (nv_digits var) 0);
  let d := nv_weight var + 1 in
  if 0 <? dscale then
    fraction ← fraction_loop (Z.to_nat (Z.quot (dscale + DEC_DIGITS - 1) DEC_DIGITS)) (nv_digits var) d;
    if size <? Z.of_nat (length (dash ++ whole ++ [46] ++ fraction)) then UB else
    Ret (dash ++ whole ++ [46] ++ take (Z.to_nat dscale) fraction)
  else Ret (dash ++ whole).

Definition NAN_OUT : list char := Eval vm_compute in chars "NaN".
Definition numeric_out (num : NumericData) : outcome (list char) :=
  if NUMERIC_IS_NAN num then Ret NAN_OUT else
  x ← set_var_from_num num;
  get_str_from_var x (nv_dscale x).

(** ** Integers *)

(** [do ... while (uval)]; the buffer has room for five digits. *)
Fixpoint int8_digits (room : nat) (uval : Z) (digits : list Z) : outcome (list Z) :=
  match room with
  | O => UB
  | S room' =>
      let newuval := Z.quot uval NBASE in
      let digits := uval - newuval * NBASE :: digits in
      if newuval =? 0 then Ret digits else int8_digits room' newuval digits
  end.
(** What lies in the buffer before the first digit is not set: there is no spare digit to rely on. *)
Definition int8_to_numericvar (val : Z) : outcome NumericVar :=
  let '(sign, uval) := if val <? 0 then (NUMERIC_NEG, wrap_u 64 (wrap_s 64 (- val))) else (NUMERIC_POS, val) in
  if val =? 0 then Ret (mkVar [] [] 0 sign 0) else
  digits ← int8_digits 5 uval [];
  Ret (mkVar [] digits (Z.of_nat (length digits) - 1) sign 0).

(** The loop over the digits from index [i] on; [None] if it overflows. *)
Fixpoint int8_loop (n : nat) (digits : list Z) (i : Z) (neg : bool) (val : Z) : outcome (option Z) :=
  match n with
  | O => Ret (Some val)
  | S n' =>
      let oldval := val in
      d ← (if i <? Z.of_nat (length digits) then arr_get digits i else Ret 0);
      let val := wrap_s 64 (wrap_s 64 (val * NBASE) + d) in
      if negb (Z.quot val NBASE =? oldval)
         && (negb neg || negb (wrap_s 64 (- val) =? val) || (val =? 0) || (oldval <? 0))
      then Ret None
      else int8_loop n' digits (i + 1) neg val
  end.
Definition numericvar_to_int8 (var : NumericVar) : outcome (option Z) :=
  var ← round_var var 0;
  let var := strip_var var in
  let ndigits := nv_ndigits var in
  if ndigits =? 0 then Ret (Some 0) else
  let weight := nv_weight var in
  if negb ((0 <=? weight) && (ndigits <=? weight + 1)) then UB else
  let neg := nv_sign var =? NUMERIC_NEG in
  val ← arr_get (nv_digits var) 0;
  r ← int8_loop (Z.to_nat weight) (nv_digits var) 1 neg val;
  Ret (match r with
       | None => None
       | Some val => Some (if neg then wrap_s 64 (- val) else val)
       end).

Definition int8_numeric (val : Z) : outcome NumericData := result ← int8_to_numericvar val; make_result result.
Definition int4_numeric : Z → outcome NumericData := int8_numeric.
Definition int2_numeric : Z → outcome NumericData := int8_numeric.

(** [numeric_int8]; the narrower functions convert down and test for overflow by converting back. *)
Definition numeric_int8 (num : NumericData) : outcome Z :=
  if NUMERIC_IS_NAN num then Ereport ERRCODE_FEATURE_NOT_SUPPORTED else
  x ← set_var_from_num num;
  r ← numericvar_to_int8 x;
  match r with
  | None => Ereport ERRCODE_NUMERIC_VALUE_OUT_OF_RANGE
  | Some val => Ret val
  end.
Definition narrow (w val : Z) : outcome Z :=
  let result := wrap_s w val in
  if negb (result =? val) then Ereport ERRCODE_NUMERIC_VALUE_OUT_OF_RANGE else Ret result.
Definition numericvar_to_int4 (var : NumericVar) : outcome Z :=
  r ← numericvar_to_int8 var;
  match r with
  | None => Ereport ERRCODE_NUMERIC_VALUE_OUT_OF_RANGE
  | Some val => narrow 32 val
  end.
Definition numeric_int4 (num : NumericData) : outcome Z :=
  if NUMERIC_IS_NAN num then Ereport ERRCODE_FEATURE_NOT_SUPPORTED else
  x ← set_var_from_num num;
  numericvar_to_int4 x.
Definition numeric_int2 (num : NumericData) : outcome Z :=
  if NUMERIC_IS_NAN num then Ereport ERRCODE_FEATURE_NOT_SUPPORTED else
  x ← set_var_from_num num;
  r ← numericvar_to_int8 x;
  match r with
  | None => Ereport ERRCODE_NUMERIC_VALUE_OUT_OF_RANGE
  | Some val => narrow 16 val
  end.
