(* ===== verification/NumericInt.v ===== *)
(** * NumericInt: conversions between numbers and integers

    Every bigint has an exact packed form, and a packed number is converted to the nearest integer,
    halves away from zero, or refused; the exception are some numbers far below the range of bigint, which the
    test for overflow takes for its least value.  *)

From Stdlib Require Import QArith Qround Qpower Qabs Lqa.
From S2P Require Import Prelude Int IntText PqFormat Numeric NumericSpec NumericMul NumericOps NumericConv.
Open Scope Z_scope.

(** ** From integers *)

Lemma int8_digits_spec room : ∀ uval ds, 0 < uval < B room →
  ∃ qs, int8_digits room uval ds = Ret (qs ++ ds) ∧ Forall digit qs ∧ starts_nonzero qs ∧ qs ≠ [] ∧ (length qs ≤ room)%nat ∧ num qs = uval.
Proof.
  induction room as [|room IH]; intros uval ds Hu; [simpl in Hu; lia|]. rewrite B_succ in Hu. cbn [int8_digits].
  rewrite Z.quot_div_nonneg by (unfold NBASE; lia). pose proof (Z.div_mod uval NBASE ltac:(done)) as Hdm.
  pose proof (Z.mod_pos_bound uval NBASE ltac:(done)) as Hmb. set (q := uval / NBASE) in *. set (r := uval mod NBASE) in *.
  replace (uval - q * NBASE) with r by lia. assert (digit r) as Hr by (unfold digit; lia).
  assert (0 ≤ q) by (apply Z.div_pos; unfold NBASE; lia).
  destruct (Z.eqb_spec q 0) as [Hq|Hq].
  - exists [r]. split; [done|]. split; [by constructor|]. split; [simpl; lia|]. split; [done|]. split; [simpl; lia|]. change (num [r]) with r. lia.
  - destruct (IH q (r :: ds)) as (qs & -> & Hall & Hs & Hne & Hl & Hn); [split; [lia|]; apply Z.div_lt_upper_bound; unfold NBASE in *; lia|].
    exists (qs ++ [r]). rewrite <- app_assoc. split; [done|]. split; [apply Forall_app; split; [done|by constructor]|].
    split; [by destruct qs|]. split; [by destruct qs|]. split; [rewrite length_app; simpl; lia|]. rewrite num_snoc, Hn. lia.
Qed.

Lemma int8_to_numericvar_spec z : is_sint 64 z → ∃ v, int8_to_numericvar z = Ret v ∧ result v (inject_Z z) 0.
Proof.
  intros Hz. unfold int8_to_numericvar. set (p := if z <? 0 then _ else _).
  assert (p = (if z <? 0 then NUMERIC_NEG else NUMERIC_POS, Z.abs z)) as ->.
  { unfold p, is_sint in *. destruct (Z.ltb_spec z 0); [|f_equal; lia]. f_equal.
    destruct (decide (z = - 2 ^ 63)) as [->|Hne]; [done|]. rewrite wrap_s_small, wrap_u_small by (unfold is_sint, is_uint; lia). lia. }
  set (sign := if z <? 0 then NUMERIC_NEG else NUMERIC_POS). assert (sign = NUMERIC_POS ∨ sign = NUMERIC_NEG) as Hs by (unfold sign; destruct (z <? 0); auto).
  destruct (Z.eqb_spec z 0) as [->|Hne].
  { eexists. split; [done|]. split; [split; [constructor|constructor|done]|]. split; [|done]. apply Qmult_0_l. }
  destruct (int8_digits_spec 5 (Z.abs z) []) as (qs & -> & Hd & _ & _ & _ & Hn); [unfold is_sint in Hz; split; [lia|]; change (B 5) with (10 ^ 20); lia|].
  rewrite app_nil_r. cbn [mbind outcome_bind]. eexists. split; [done|]. set (v := mkVar _ _ _ _ _).
  split; [split; [done|constructor|done]|]. split; [|done]. rewrite value_eq. change (nv_sign v) with sign.
  assert (absval v == inject_Z (Z.abs z))%Q as Ha.
  { unfold absval, expo, nv_ndigits, v. cbn [nv_digits nv_weight]. rewrite Hn.
    replace (Z.of_nat (length qs) - 1 + 1 - Z.of_nat (length qs)) with 0 by lia. simpl. ring. }
  unfold sign. destruct (Z.ltb_spec z 0); cbn [Z.eqb NUMERIC_NEG NUMERIC_POS Pos.eqb]; rewrite Ha.
  - rewrite <- inject_Z_opp. apply inject_Z_injective. lia.
  - apply inject_Z_injective. lia.
Qed.

(** The number of digits of a whole number gives its weight. *)
Lemma whole_weight v : number v → nv_dscale v = 0 → nv_digits v ≠ [] → 0 ≤ nv_weight v ∧ nv_ndigits v ≤ nv_weight v + 1.
Proof.
  intros N Hd Hne. pose proof (number_digits v N) as Hb. rewrite Hd in Hb. unfold nv_ndigits in *.
  destruct (nv_digits v); [done|]. cbn [length] in *. lia.
Qed.

Lemma whole_sval v : number v → nv_dscale v = 0 → (absval v == inject_Z (sval (nv_digits v) (nv_weight v) 0))%Q ∧ fits (nv_digits v) (nv_weight v) 0.
Proof.
  intros N Hd. assert (fits (nv_digits v) (nv_weight v) 0) as Hf.
  { destruct (nv_digits v) as [|d l] eqn:E.
    - destruct N as [_ (_ & _ & Hz) _ _]. destruct (Hz E) as [-> _]. unfold fits. simpl. lia.
    - destruct (whole_weight v N Hd) as [H1 H2]; [by rewrite E|]. unfold fits, nv_ndigits in *. rewrite E in H2. lia. }
  split; [|done]. rewrite (absval_sval v 0 Hf). simpl. ring.
Qed.

(** ** To integers *)

Abbreviation LEAST := (- 2 ^ 63).

Lemma wrap_far T : ∃ k, wrap_s 64 T = T - k * 2 ^ 64 ∧ LEAST ≤ wrap_s 64 T < 2 ^ 63.
Proof.
  exists ((T + 2 ^ 63) / 2 ^ 64). unfold wrap_s. change (64 - 1) with 63. pose proof (Z.div_mod (T + 2 ^ 63) (2 ^ 64) ltac:(lia)).
  pose proof (Z.mod_pos_bound (T + 2 ^ 63) (2 ^ 64) ltac:(lia)). lia.
Qed.

Lemma wrap_sum x d : wrap_s 64 (wrap_s 64 x + d) = wrap_s 64 (x + d).
Proof.
  unfold wrap_s. f_equal. rewrite <- (Zplus_mod_idemp_l (x + d)).
  set (h := 2 ^ (64 - 1)). replace ((x + h) mod 2 ^ 64 - h + d + h) with ((x + h) mod 2 ^ 64 + d) by lia.
  rewrite Zplus_mod_idemp_l. rewrite Zplus_mod_idemp_l. f_equal. lia.
Qed.

Lemma wrap_least d : 0 ≤ d < NBASE → wrap_s 64 (LEAST * NBASE + d) = d.
Proof.
  intros Hd. unfold wrap_s. change (64 - 1) with 63. unfold NBASE in *.
  replace (LEAST * 10000 + d + 2 ^ 63) with ((d + 2 ^ 63) + (- 5000) * 2 ^ 64) by lia. rewrite Z.mod_add, Z.mod_small by lia. lia.
Qed.

(** The loop: [T] is the exact number of the digits so far. *)
Section loop.
  Context (digits : list Z) (neg : bool) (Hd : Forall digit digits).

(** The exact number of the first [i] digits. *)
Let T (i : nat) : Z := wval (dg digits) 0 i.

Lemma T_succ i : T (S i) = T i * NBASE + dg digits (Z.of_nat i).
Proof using. unfold T. cbn [wval]. f_equal. Qed.
Lemma T_nonneg i : 0 ≤ T i.
Proof using Hd. apply wval_bound. intros. by apply dg_digit. Qed.
Lemma T_mono i n : T i ≤ T (i + n).
Proof using Hd.
  induction n as [|n IH]; [rewrite Nat.add_0_r; lia|]. rewrite Nat.add_succ_r, T_succ. pose proof (T_nonneg (i + n)) as H0.
  pose proof (dg_digit digits (Z.of_nat (i + n)) Hd) as H1. unfold digit, NBASE in *. lia.
Qed.

Lemma int8_digit_at i : (if Z.of_nat i <? Z.of_nat (length digits) then arr_get digits (Z.of_nat i) else Ret 0) = Ret (dg digits (Z.of_nat i)).
Proof using.
  rewrite <- digit_at_run. unfold digit_at. by rewrite (proj2 (Z.leb_le 0 _)) by lia.
Qed.

(** After the least value every further digit is refused. *)
Lemma int8_loop_least n i : (0 < n)%nat → int8_loop n digits (Z.of_nat i) neg LEAST = Ret None.
Proof using Hd.
  intros Hn. destruct n as [|n]; [lia|]. cbn [int8_loop]. rewrite int8_digit_at. cbn [mbind outcome_bind].
  pose proof (dg_digit digits (Z.of_nat i) Hd) as Hdd. unfold digit in Hdd. rewrite wrap_sum, wrap_least by done.
  rewrite Z.quot_small by done. change (LEAST <? 0) with true. by rewrite orb_true_r.
Qed.

Definition int8_result (m prev : Z) : option Z :=
  if m <? 2 ^ 63 then Some m
  else if neg && (m mod 2 ^ 64 =? 2 ^ 63) && (prev <? 2 ^ 63) then Some LEAST
  else None.

Lemma int8_loop_spec n : ∀ i, (0 < i)%nat → T i < 2 ^ 63 →
  int8_loop n digits (Z.of_nat i) neg (T i) = Ret (int8_result (T (i + n)) (T (i + n - 1))).
Proof using Hd.
  induction n as [|n IH]; intros i Hi Hlt.
  { rewrite Nat.add_0_r. unfold int8_result. by rewrite (proj2 (Z.ltb_lt _ _) Hlt). }
  cbn [int8_loop]. rewrite int8_digit_at. cbn [mbind outcome_bind]. rewrite wrap_sum, <- T_succ.
  pose proof (T_nonneg i) as Hnn. pose proof (dg_digit digits (Z.of_nat i) Hd) as Hdd. unfold digit in Hdd.
  pose proof (T_succ i) as ET. set (d := dg digits (Z.of_nat i)) in *. set (X := T i) in *.
  replace (i + S n)%nat with (S i + n)%nat by lia. destruct (decide (T (S i) < 2 ^ 63)) as [Hs|Hs].
  - rewrite wrap_s_small by (unfold is_sint; pose proof (T_nonneg (S i)); lia).
    assert (Z.quot (T (S i)) NBASE = X) as ->.
    { rewrite ET, Z.quot_div_nonneg by (unfold NBASE in *; lia). rewrite Z.div_add_l, Z.div_small by (unfold NBASE in *; lia). lia. }
    rewrite Z.eqb_refl. cbn [negb andb]. replace (Z.of_nat i + 1) with (Z.of_nat (S i)) by lia. apply IH; [lia|done].
  - destruct (wrap_far (T (S i))) as (k & Hk & Hr). set (val := wrap_s 64 (T (S i))) in *.
    assert (Z.quot val NBASE ≠ X) as Hq.
    { intros Hq. pose proof (Z.quot_rem val NBASE ltac:(done)) as Hqr. pose proof (Z.rem_bound_abs val NBASE ltac:(done)) as Hrb.
      rewrite Hq in Hqr. unfold NBASE in *. change (Z.abs 10000) with 10000 in Hrb.
      destruct (decide (0 ≤ val)); [|pose proof (Z.quot_le_mono val 0 10000); rewrite Z.quot_0_l in *; lia].
      pose proof (Z.rem_nonneg val 10000). lia. }
    rewrite (proj2 (Z.eqb_neq _ _) Hq). cbn [negb andb].
    assert (T (S i) ≤ T (S i + n)) as Hm by apply T_mono. unfold int8_result. rewrite (proj2 (Z.ltb_ge (T (S i + n)) _)) by lia.
    assert ((wrap_s 64 (- val) =? val) = ((val =? 0) || (val =? LEAST))) as ->.
    { destruct (decide (val = LEAST)) as [-> |Hv]; [done|]. rewrite wrap_s_small by (unfold is_sint; lia). lia. }
    rewrite (proj2 (Z.ltb_ge X 0)) by lia. rewrite orb_false_r.
    assert (val = LEAST ↔ T (S i) mod 2 ^ 64 = 2 ^ 63) as Hl.
    { unfold val, wrap_s. change (64 - 1) with 63. pose proof (Z.div_mod (T (S i)) (2 ^ 64) ltac:(lia)).
      pose proof (Z.mod_pos_bound (T (S i)) (2 ^ 64) ltac:(lia)). pose proof (Z.div_mod (T (S i) + 2 ^ 63) (2 ^ 64) ltac:(lia)).
      pose proof (Z.mod_pos_bound (T (S i) + 2 ^ 63) (2 ^ 64) ltac:(lia)). lia. }
    destruct n as [|n].
    + rewrite Nat.add_0_r. cbn [int8_loop]. replace (S i - 1)%nat with i by lia. fold X. rewrite (proj2 (Z.ltb_lt X _)), andb_true_r by done.
      destruct (decide (val = LEAST)) as [E|E].
      * rewrite E. rewrite (proj2 (Z.eqb_eq _ _) (proj1 Hl E)), andb_true_r. by destruct neg.
      * rewrite (proj2 (Z.eqb_neq val LEAST) E), orb_false_r.
        rewrite (proj2 (Z.eqb_neq (T (S i) mod _) _)) by (by rewrite <- Hl). rewrite andb_false_r.
        destruct neg; [|done]. cbn [negb orb]. by destruct (val =? 0).
    + assert (T (S i) ≤ T (S i + S n - 1)) as Hm' by (replace (S i + S n - 1)%nat with (S i + n)%nat by lia; apply T_mono).
      rewrite (proj2 (Z.ltb_ge (T (S i + S n - 1)) _)), andb_false_r by lia.
      destruct (decide (val = LEAST)) as [E|E].
      * rewrite E. replace (Z.of_nat i + 1) with (Z.of_nat (S i)) by lia. rewrite int8_loop_least by lia. by destruct neg.
      * rewrite (proj2 (Z.eqb_neq val LEAST) E), orb_false_r. destruct neg; [|done]. cbn [negb orb]. by destruct (val =? 0).
Qed.
End loop.

(** The integer that a variable rounds to. *)
Definition rounded_int (v : NumericVar) : Z :=
  let m := round_units (absval v) 0 in if nv_sign v =? NUMERIC_NEG then - m else m.

(** A number that the test for overflow takes for the least bigint. *)
Definition taken_for_least (z : Z) : bool := (z <? LEAST) && (- z mod 2 ^ 64 =? 2 ^ 63) && (- z / NBASE <? 2 ^ 63).

Lemma round_units_nonneg v : var_ok v → 0 ≤ round_units (absval v) 0.
Proof.
  intros Hv. unfold round_units. pose proof (absval_nonneg v Hv) as Ha. change (ten ^ 0)%Q with 1%Q.
  destruct (floor_bounds (absval v * 1 + (1 # 2))) as [_ F]. set (f := Qfloor _) in *.
  assert (0 < inject_Z (f + 1))%Q as Hf by (rewrite inject_Z_plus; change (inject_Z 1) with 1%Q; lra).
  change 0%Q with (inject_Z 0) in Hf. rewrite <- Zlt_Qlt in Hf. lia.
Qed.

(** The rounded and stripped variable. *)
Lemma rounded_number v : var_ok v → nv_before v ≠ [] → let m := round_units (absval v) 0 in
  ∃ r, round_var v 0 = Ret r ∧ number (strip_var r) ∧ nv_dscale (strip_var r) = 0 ∧
    sval (nv_digits (strip_var r)) (nv_weight (strip_var r)) 0 = m ∧
    (nv_digits (strip_var r) ≠ [] → nv_sign (strip_var r) = nv_sign v).
Proof.
  intros Hv Hne m. destruct (round_var_spec v 0 Hv Hne) as (r & Hr & R1 & R2 & R3 & R4). exists r. split; [done|].
  destruct (strip_var_spec r R1) as (S1 & S2 & S3 & S4 & S5 & S6 & _). set (s := strip_var r) in *. fold m in R3, R4.
  assert (absval s == inject_Z m)%Q as Ha by (rewrite S3, R4; change (ten ^ (- 0))%Q with 1%Q; ring).
  assert (number s) as Hn.
  { split; [done|done|lia|]. rewrite S5, R2. apply of_scale_abs. exists m. rewrite Ha. change (ten ^ 0)%Q with 1%Q. ring. }
  split; [done|]. split; [lia|]. destruct (whole_sval s Hn ltac:(lia)) as [Hs _]. split.
  - rewrite Ha in Hs. apply (proj1 (inject_Z_injective _ _)) in Hs. lia.
  - intros Hd. rewrite S6 by done. pose proof (absval_nonzero s S1 (proj1 S2) Hd) as Hp. rewrite S3 in Hp.
    rewrite value_eq in R3. unfold signed in R3. change (ten ^ (- 0))%Q with 1%Q in *.
    destruct (vo_sign _ R1) as [E1|E1], (vo_sign _ Hv) as [E2|E2]; rewrite E1, E2 in *; cbn [Z.eqb NUMERIC_POS NUMERIC_NEG Pos.eqb] in R3; try done; exfalso; lra.
Qed.

Lemma numericvar_to_int8_spec v : var_ok v → nv_before v ≠ [] → let z := rounded_int v in
  numericvar_to_int8 v = Ret (if bool_decide (is_sint 64 z) then Some z else if taken_for_least z then Some LEAST else None).
Proof.
  intros Hv Hne z. pose proof (round_units_nonneg v Hv) as Hm0.
  destruct (rounded_number v Hv Hne) as (r & Hr & Hn & Hd & Hsv & Hsign). set (m := round_units (absval v) 0) in *.
  unfold numericvar_to_int8. rewrite Hr. cbn [mbind outcome_bind]. set (s := strip_var r) in *.
  destruct (Z.eqb_spec (nv_ndigits s) 0) as [E0|E0].
  { assert (m = 0) as E by (rewrite <- Hsv; unfold nv_ndigits in E0; by destruct (nv_digits s)).
    assert (z = 0) as -> by (unfold z, rounded_int; fold m; rewrite E; by destruct (_ =? _)). by rewrite bool_decide_true by (unfold is_sint; lia). }
  assert (nv_digits s ≠ []) as Hnd by (intros E; unfold nv_ndigits in E0; by rewrite E in E0). specialize (Hsign Hnd).
  destruct (whole_weight s Hn Hd Hnd) as [Hw1 Hw2]. rewrite (proj2 (Z.leb_le 0 _)), (proj2 (Z.leb_le (nv_ndigits s) _)) by done.
  cbn [andb negb]. rewrite Hsign. set (neg := nv_sign v =? NUMERIC_NEG). set (digits := nv_digits s) in *.
  pose proof (vo_digits _ (nm_ok _ Hn)) as Hdig. fold digits in Hdig. set (w := Z.to_nat (nv_weight s)).
  assert (arr_get digits 0 = Ret (wval (dg digits) 0 1)) as ->.
  { pose proof (int8_digit_at digits 0) as E. unfold nv_ndigits in E0. fold digits in E0.
    rewrite (proj2 (Z.ltb_lt (Z.of_nat 0) _)) in E by lia. exact E. }
  cbn [mbind outcome_bind]. destruct (whole_sval s Hn Hd) as [_ Hfit]. fold digits in Hfit, Hsv.
  assert (wval (dg digits) 0 (1 + w) = m) as HT.
  { pose proof (window_sval digits (nv_weight s) 0 (1 + w) Hdig Hfit) as Hwin. rewrite Hsv in Hwin.
    replace (0 + nv_weight s + 1 - Z.of_nat (1 + w)) with 0 in Hwin by (unfold w; lia). apply Hwin. rewrite <- Hsv.
    replace (B (1 + w)) with (NBASE ^ (nv_weight s + 1 + 0)) by (f_equal; unfold w; lia). by apply sval_bound. }
  assert (int8_loop w digits 1 neg (wval (dg digits) 0 1) = Ret (int8_result neg (wval (dg digits) 0 (1 + w)) (wval (dg digits) 0 (1 + w - 1)))) as HL.
  { apply (int8_loop_spec digits neg Hdig w 1); [lia|]. pose proof (dg_digit digits 0 Hdig) as Hdd. unfold digit, NBASE in Hdd. cbn [wval].
    change (0 + Z.of_nat 0) with 0. lia. }
  fold w. rewrite HL, HT. assert (wval (dg digits) 0 (1 + w - 1) = m / NBASE) as ->.
  { replace (1 + w - 1)%nat with w by lia. change (1 + w)%nat with (S w) in HT. cbn [wval] in HT. rewrite <- HT.
    pose proof (dg_digit digits (0 + Z.of_nat w) Hdig) as Hdd. unfold digit in Hdd.
    rewrite Z.div_add_l, Z.div_small by lia. lia. }
  cbn [mbind outcome_bind]. f_equal. unfold int8_result, taken_for_least, z, rounded_int. fold m neg.
  destruct (Z.ltb_spec m (2 ^ 63)) as [Hlt|Hge].
  - destruct neg; (rewrite bool_decide_true by (unfold is_sint; lia)); [|done]. by rewrite wrap_s_small by (unfold is_sint; lia).
  - destruct neg; cbn [andb].
    + rewrite Z.opp_involutive. destruct (decide (m = 2 ^ 63)) as [->|Hne63]; [by rewrite bool_decide_true by (unfold is_sint; lia)|].
      rewrite bool_decide_false by (unfold is_sint; lia). rewrite (proj2 (Z.ltb_lt (- m) _)) by lia. cbn [andb].
      destruct (_ && _); done.
    + rewrite bool_decide_false by (unfold is_sint; lia). rewrite (proj2 (Z.ltb_ge m _)) by lia. done.
Qed.

Lemma copy_rounded v : rounded_int (set_var_from_var v) = rounded_int v.
Proof. done. Qed.

(** ** The functions *)

Lemma small_packable v : var_ok v → stripped v → (Qabs (value v) < inject_Z (10 ^ 20))%Q → nv_dscale v = 0 → number v → packable v = true.
Proof.
  intros Hv Hs Hb Hd Hn. unfold packable. rewrite Hd. change (0 <=? NUMERIC_DSCALE_MASK) with true. rewrite andb_true_r.
  destruct (nv_digits v) as [|d l] eqn:E.
  { destruct Hs as (_ & _ & Hz). by destruct (Hz E) as [-> _]. }
  destruct (whole_weight v Hn Hd) as [Hw1 Hw2]; [by rewrite E|].
  rewrite (proj2 (Z.leb_le _ _)) by lia. apply Z.ltb_lt.
  destruct (whole_sval v Hn Hd) as [Ha Hfit]. pose proof (sval_cons d l (nv_weight v) 0) as Hc. rewrite E in Ha, Hfit. rewrite Hc in Ha by done.
  assert (Qabs (value v) == absval v)%Q as Eabs.
  { rewrite value_eq. pose proof (absval_nonneg v Hv). destruct (_ =? _)%Z; rewrite ?Qabs_opp; by apply Qabs_pos. }
  rewrite Eabs, Ha in Hb. rewrite <- Zlt_Qlt in Hb. pose proof (vo_digits _ Hv) as Hdig. rewrite E in Hdig. apply Forall_cons in Hdig as [Hdd Hl].
  destruct (fits_cons _ _ _ _ Hfit) as [Hfit' _]. pose proof (sval_bound l (nv_weight v - 1) 0 Hl Hfit') as Hsb.
  destruct Hs as (Hs & _). rewrite E in Hs. simpl in Hs. unfold digit in Hdd.
  destruct (decide (nv_weight v < 2 ^ 15)) as [|Hbig]; [done|exfalso].
  assert (10 ^ 20 ≤ NBASE ^ (nv_weight v + 0)).
  { change (10 ^ 20) with (NBASE ^ 5). apply Z.pow_le_mono_r; unfold NBASE; lia. }
  nia.
Qed.

Lemma int8_numeric_spec z : is_sint 64 z → ∃ n v, int8_numeric z = Ret n ∧ packed n v ∧ (value v == inject_Z z)%Q ∧ nv_dscale v = 0.
Proof.
  intros Hz. destruct (int8_to_numericvar_spec z Hz) as (x & Hx & Hres). unfold int8_numeric. rewrite Hx. cbn [mbind outcome_bind].
  destruct (make_result_packs x (inject_Z z) 0 Hres) as (v & Hn & Hv & Hd & Hp); [lia|apply of_scale_int|].
  assert (packable v = true) as Hpk.
  { apply small_packable; [apply Hn|apply Hn| |done|done]. rewrite Hv. change (Qabs (inject_Z z)) with (inject_Z (Z.abs z)). rewrite <- Zlt_Qlt. unfold is_sint in Hz. lia. }
  rewrite Hpk in Hp. destruct Hp as (n & -> & Hp). by exists n, v.
Qed.

(** The rounding of a whole number is itself. *)
Lemma rounded_whole v z : var_ok v → (value v == inject_Z z)%Q → rounded_int v = z.
Proof.
  intros Hv Hz. unfold rounded_int. rewrite value_eq in Hz. destruct (nv_sign v =? NUMERIC_NEG) eqn:E.
  - assert (absval v == inject_Z (- z))%Q as Ha by (rewrite inject_Z_opp, <- Hz; ring). unfold round_units. change (ten ^ 0)%Q with 1%Q.
    rewrite Ha. assert (inject_Z (- z) * 1 + (1 # 2) == inject_Z (- z) + (1 # 2))%Q as -> by ring. rewrite Qfloor_half. lia.
  - unfold round_units. change (ten ^ 0)%Q with 1%Q. rewrite Hz.
    assert (inject_Z z * 1 + (1 # 2) == inject_Z z + (1 # 2))%Q as -> by ring. by rewrite Qfloor_half.
Qed.

Lemma numeric_int8_spec n v : packed n v → let z := rounded_int v in
  numeric_int8 n = if bool_decide (is_sint 64 z) then Ret z else if taken_for_least z then Ret LEAST else Ereport ERRCODE_NUMERIC_VALUE_OUT_OF_RANGE.
Proof.
  intros H z. destruct (set_var_from_num_spec n v H) as [S F]. pose proof (pk_number _ _ H) as N.
  unfold numeric_int8. rewrite F, S. cbn [mbind outcome_bind].
  rewrite (numericvar_to_int8_spec (set_var_from_var v)) by (done || apply copy_ok, N). cbv zeta. rewrite copy_rounded. fold z.
  cbn [mbind outcome_bind]. destruct (bool_decide _); [done|]. by destruct (taken_for_least z).
Qed.

Lemma narrow_spec w z : 1 ≤ w → narrow w z = if bool_decide (is_sint w z) then Ret z else Ereport ERRCODE_NUMERIC_VALUE_OUT_OF_RANGE.
Proof.
  intros Hw. unfold narrow. case_bool_decide as H.
  - rewrite wrap_s_small by done. by rewrite Z.eqb_refl.
  - rewrite (proj2 (Z.eqb_neq _ _)); [done|]. intros E. by apply H, wrap_s_iff.
Qed.

Lemma numeric_int4_int2_spec n v : packed n v → let z := rounded_int v in
  numeric_int4 n = (if bool_decide (is_sint 32 z) then Ret z else Ereport ERRCODE_NUMERIC_VALUE_OUT_OF_RANGE) ∧
  numeric_int2 n = (if bool_decide (is_sint 16 z) then Ret z else Ereport ERRCODE_NUMERIC_VALUE_OUT_OF_RANGE).
Proof.
  intros H z. destruct (set_var_from_num_spec n v H) as [S F]. pose proof (pk_number _ _ H) as N.
  unfold numeric_int4, numeric_int2, numericvar_to_int4. rewrite F, S. cbn [mbind outcome_bind].
  rewrite (numericvar_to_int8_spec (set_var_from_var v)) by (done || apply copy_ok, N). cbv zeta. rewrite copy_rounded. fold z.
  cbn [mbind outcome_bind]. destruct (bool_decide_reflect (is_sint 64 z)) as [Hz|Hz].
  - by rewrite !narrow_spec by lia.
  - rewrite !(bool_decide_false (is_sint _ z)) by (unfold is_sint in *; lia).
    destruct (taken_for_least z); [|done]. by rewrite !narrow_spec by lia.
Qed.

(** Every bigint, integer and smallint is converted to a packed number of the same value, and back to itself
    by the function of its type. *)
Theorem numeric_integer_roundtrip z : is_sint 64 z →
  ∃ n v, int8_numeric z = Ret n ∧ packed n v ∧ (value v == inject_Z z)%Q ∧ numeric_int8 n = Ret z ∧
    (is_sint 32 z → int4_numeric z = Ret n ∧ numeric_int4 n = Ret z) ∧ (is_sint 16 z → int2_numeric z = Ret n ∧ numeric_int2 n = Ret z).
Proof.
  intros Hz. destruct (int8_numeric_spec z Hz) as (n & v & Hn & Hp & Hv & _). exists n, v.
  pose proof (rounded_whole v z (nm_ok _ (pk_number _ _ Hp)) Hv) as Hr. destruct (numeric_int4_int2_spec n v Hp) as [H4 H2].
  pose proof (numeric_int8_spec n v Hp) as H8. cbv zeta in H8. rewrite Hr in H8, H4, H2. rewrite bool_decide_true in H8 by done.
  split; [done|]. split; [done|]. split; [done|]. split; [done|]. split; intros Hs; (split; [done|]).
  - by rewrite H4, bool_decide_true.
  - by rewrite H2, bool_decide_true.
Qed.

Lemma numeric_integer_roundtrip_witness :
  (∃ n v, int8_numeric LEAST = Ret n ∧ packed n v ∧ (value v == inject_Z LEAST)%Q ∧ numeric_int8 n = Ret LEAST ∧
    (is_sint 32 LEAST → int4_numeric LEAST = Ret n ∧ numeric_int4 n = Ret LEAST) ∧ (is_sint 16 LEAST → int2_numeric LEAST = Ret n ∧ numeric_int2 n = Ret LEAST)) ∧
  int8_numeric LEAST = Ret (mkNumeric 0xA004 [922; 3372; 368; 5477; 5808]).
Proof. split; [apply (numeric_integer_roundtrip LEAST); unfold is_sint; lia|reflexivity]. Defined.

(** C22: a packed number is converted to the nearest integer, halves away from zero, and refused when that is outside of
    the range of the type; for bigint this holds of every number that is not below the range, and of those below it
    whose last 64 bits are not those of the least bigint. *)
Theorem numeric_to_integer_correct n v : packed n v →
  let z := rounded_int v in
  numeric_int4 n = (if bool_decide (is_sint 32 z) then Ret z else Ereport ERRCODE_NUMERIC_VALUE_OUT_OF_RANGE) ∧
  numeric_int2 n = (if bool_decide (is_sint 16 z) then Ret z else Ereport ERRCODE_NUMERIC_VALUE_OUT_OF_RANGE) ∧
  (LEAST ≤ z ∨ - z mod 2 ^ 64 ≠ 2 ^ 63 → numeric_int8 n = if bool_decide (is_sint 64 z) then Ret z else Ereport ERRCODE_NUMERIC_VALUE_OUT_OF_RANGE).
Proof.
  intros H z. destruct (numeric_int4_int2_spec n v H) as [H4 H2]. split; [exact H4|]. split; [exact H2|]. intros Hz.
  pose proof (numeric_int8_spec n v H) as H8. fold z in H8. cbv zeta in H8. rewrite H8.
  destruct (bool_decide (is_sint 64 z)); [done|]. unfold taken_for_least. destruct Hz as [Hz|Hz].
  - by rewrite (proj2 (Z.ltb_ge _ _)) by lia.
  - by rewrite (proj2 (Z.eqb_neq _ _) Hz), andb_false_r.
Qed.

Lemma numeric_to_integer_correct_witness : numeric_int4 num_b = Ret (-2) ∧ numeric_int4 num_a = Ret 2 ∧ numeric_int8 num_a = Ret 2.
Proof.
  split; [exact (proj1 (numeric_to_integer_correct num_b var_b packed_b))|]. split; [reflexivity|].
  apply (numeric_to_integer_correct num_a var_a packed_a). left. vm_compute. discriminate.
Defined.

(** -27670116110564327424, which is -(2^63 + 2^64) *)
Definition num_far : NumericData := mkNumeric 0xA004 [2767; 116; 1105; 6432; 7424].
Definition var_far : NumericVar := mkVar [] [2767; 116; 1105; 6432; 7424] 4 NUMERIC_NEG 0.

(** C25: the test for overflow accepts some numbers far below the range of bigint, which have the least bigint as their
    last 64 bits: they are converted to it without an error. *)
Theorem numeric_int8_accepts_out_of_range :
  packed num_far var_far ∧ (value var_far == inject_Z (- (2 ^ 63 + 2 ^ 64)))%Q ∧ numeric_int8 num_far = Ret (- 2 ^ 63).
Proof.
  split; [|split; reflexivity]. split; [done| |done].
  split; [split; [by apply all_digits|constructor|by right]|done|done|]. exists (- (2 ^ 63 + 2 ^ 64)). reflexivity.
Qed.
