(* ===== verification/NumericText.v ===== *)
(** * NumericText: numbers as text

    [numeric_in] reads the value that a text stands for in decimal notation, and [numeric_out] writes a text that
    is read back as the same value with the same scale. *)

From Stdlib Require Import QArith Qround Qpower Qabs Lqa.
From S2P Require Import Prelude Int IntText PqFormat Numeric NumericSpec NumericMul NumericOps NumericConv.
Open Scope Z_scope.

(** ** Decimal digits *)

(** The number of a list of decimal digits behind [acc]. *)
Fixpoint dacc (l : list Z) (acc : Z) : Z :=
  match l with [] => acc | d :: l => dacc l (acc * 10 + d) end.
Definition ddigit (d : Z) : Prop := 0 ≤ d ≤ 9.
(** The digits of a text. *)
Definition vals (l : list char) : list Z := (λ c, c - 48) <$> l.

Lemma dacc_app l1 l2 acc : dacc (l1 ++ l2) acc = dacc l2 (dacc l1 acc).
Proof. revert acc. induction l1 as [|d l1 IH]; intros acc; [done|]. apply IH. Qed.

Lemma dacc_acc l acc : dacc l acc = acc * 10 ^ Z.of_nat (length l) + dacc l 0.
Proof.
  revert acc. induction l as [|d l IH]; intros acc; [simpl; lia|]. cbn [dacc length]. rewrite IH, (IH (0 * 10 + d)).
  replace (Z.of_nat (S (length l))) with (1 + Z.of_nat (length l)) by lia. rewrite Z.pow_add_r by lia. lia.
Qed.

Lemma dacc_zeros n acc : dacc (replicate n 0) acc = acc * 10 ^ Z.of_nat n.
Proof.
  revert acc. induction n as [|n IH]; intros acc; [simpl; lia|]. cbn [replicate dacc]. rewrite IH.
  replace (Z.of_nat (S n)) with (1 + Z.of_nat n) by lia. rewrite Z.pow_add_r by lia. lia.
Qed.

Lemma dacc_bound l : Forall ddigit l → 0 ≤ dacc l 0 < 10 ^ Z.of_nat (length l).
Proof.
  induction 1 as [|d l Hd _ IH]; [simpl; lia|]. cbn [dacc length]. rewrite dacc_acc.
  replace (Z.of_nat (S (length l))) with (1 + Z.of_nat (length l)) by lia. rewrite Z.pow_add_r by lia.
  assert (0 < 10 ^ Z.of_nat (length l)) by (apply Z.pow_pos_nonneg; lia). unfold ddigit in Hd. nia.
Qed.

Lemma vals_decimal l acc : dacc (vals l) acc = decimal l acc.
Proof. revert acc. induction l as [|c l IH]; intros acc; [done|]. apply IH. Qed.

Lemma vals_ddigit l : digits l → Forall ddigit (vals l).
Proof. induction 1 as [|c l Hc _ IH]; constructor; [|done]. apply isdigit_range in Hc. unfold ddigit. lia. Qed.

Lemma vals_length l : length (vals l) = length l.
Proof. apply length_fmap. Qed.

(** Four at a time. *)
Lemma group_loop_spec n : ∀ dec i, Forall ddigit dec → 0 ≤ i → i + 4 * Z.of_nat n ≤ Z.of_nat (length dec) →
  ∃ ds, group_loop n dec i = Ret ds ∧ length ds = n ∧ Forall digit ds ∧ num ds = dacc (take (4 * n) (drop (Z.to_nat i) dec)) 0.
Proof.
  induction n as [|n IH]; intros dec i Hd Hi Hl; [by exists []|].
  assert (∀ k, 0 ≤ k < Z.of_nat (length dec) → ∃ x, arr_get dec k = Ret x ∧ dec !! Z.to_nat k = Some x ∧ ddigit x) as Hget.
  { intros k Hk. destruct (arr_get_lt dec k Hk) as (x & H1 & H2). exists x. split; [done|]. split; [done|]. by eapply Forall_lookup_1. }
  destruct (Hget i ltac:(lia)) as (a & Ha & La & Da). destruct (Hget (i + 1) ltac:(lia)) as (b & Hb & Lb & Db).
  destruct (Hget (i + 2) ltac:(lia)) as (c & Hc & Lc & Dc). destruct (Hget (i + 3) ltac:(lia)) as (d & Hd' & Ld & Dd).
  cbn [group_loop]. rewrite Ha. cbn [mbind outcome_bind]. rewrite Hb. cbn [mbind outcome_bind]. rewrite Hc. cbn [mbind outcome_bind].
  rewrite Hd'. cbn [mbind outcome_bind]. destruct (IH dec (i + 4) Hd ltac:(lia) ltac:(lia)) as (ds & Hds & Hlen & Hall & Hnum).
  unfold DEC_DIGITS. rewrite Hds. cbn [mbind outcome_bind]. eexists. split; [done|]. split; [by cbn [length]; rewrite Hlen|].
  split; [constructor; [unfold digit, NBASE, ddigit in *; lia|done]|].
  replace (Z.to_nat (i + 1)) with (S (Z.to_nat i)) in Lb by lia. replace (Z.to_nat (i + 2)) with (S (S (Z.to_nat i))) in Lc by lia.
  replace (Z.to_nat (i + 3)) with (S (S (S (Z.to_nat i)))) in Ld by lia. replace (Z.to_nat (i + 4)) with (S (S (S (S (Z.to_nat i))))) in Hnum by lia.
  rewrite (drop_S _ _ _ La), (drop_S _ _ _ Lb), (drop_S _ _ _ Lc), (drop_S _ _ _ Ld).
  replace (4 * S n)%nat with (S (S (S (S (4 * n))))) by lia. cbn [take dacc]. rewrite num_cons, Hlen, dacc_acc, <- Hnum. f_equal.
  rewrite length_take, length_drop, Nat.min_l by lia. replace (10 ^ Z.of_nat (4 * n)) with (B n); [lia|].
  change NBASE with (10 ^ 4). rewrite <- Z.pow_mul_r by lia. f_equal. lia.
Qed.

(** ** Parsing *)

Lemma decimal_loop_whole ip : digits ip → ∀ rest dec dw ds,
  decimal_loop (ip ++ rest) false dec dw ds = decimal_loop rest false (dec ++ vals ip) (dw + Z.of_nat (length ip)) ds.
Proof.
  induction 1 as [|c ip Hc _ IH]; intros rest dec dw ds; [by rewrite app_nil_r, Z.add_0_r|].
  cbn [app decimal_loop]. rewrite Hc. cbn [negb]. rewrite IH, <- app_assoc. cbn [length]. by replace (dw + 1 + Z.of_nat (length ip)) with (dw + Z.of_nat (S (length ip))) by lia.
Qed.

Lemma decimal_loop_fraction fp : digits fp → ∀ rest dec dw ds,
  decimal_loop (fp ++ rest) true dec dw ds = decimal_loop rest true (dec ++ vals fp) dw (ds + Z.of_nat (length fp)).
Proof.
  induction 1 as [|c fp Hc _ IH]; intros rest dec dw ds; [by rewrite app_nil_r, Z.add_0_r|].
  cbn [app decimal_loop]. rewrite Hc. cbn [negb]. rewrite IH, <- app_assoc. cbn [length]. by replace (ds + 1 + Z.of_nat (length fp)) with (ds + Z.of_nat (S (length fp))) by lia.
Qed.

(** What ends a number. *)
Definition stops (rest : list char) : Prop := isdigit (deref rest) = false ∧ deref rest ≠ 46.

Lemma decimal_loop_stop rest have_dp dec dw ds : stops rest → decimal_loop rest have_dp dec dw ds = Ret (rest, dec, dw, ds).
Proof.
  intros [H1 H2]. destruct rest as [|c rest]; [done|]. cbn [decimal_loop]. change (deref (c :: rest)) with c in *.
  by rewrite H1, (proj2 (Z.eqb_neq c 46)).
Qed.

(** The weight of the group that the first decimal digit falls in. *)
Lemma group_weight_spec dw : 0 ≤ (group_weight dw + 1) * 4 - (dw + 1) ≤ 3.
Proof.
  unfold group_weight, DEC_DIGITS. destruct (Z.leb_spec 0 dw).
  - rewrite Z.quot_div_nonneg by lia. pose proof (Z.div_mod (dw + 1 + 4 - 1) 4 ltac:(lia)). pose proof (Z.mod_pos_bound (dw + 1 + 4 - 1) 4 ltac:(lia)). lia.
  - rewrite Z.quot_div_nonneg by lia. pose proof (Z.div_mod (- dw - 1) 4 ltac:(lia)). pose proof (Z.mod_pos_bound (- dw - 1) 4 ltac:(lia)). lia.
Qed.

(** The digits of base 10000 have the value of the decimal digits. *)
Lemma group_value l dw : Forall ddigit l →
  let w := group_weight dw in let offset := (w + 1) * DEC_DIGITS - (dw + 1) in
  ∃ ds, group_loop (Z.to_nat (Z.quot (Z.of_nat (length l) + offset + DEC_DIGITS - 1) DEC_DIGITS)) ([0; 0; 0; 0] ++ l ++ [0; 0; 0]) (DEC_DIGITS - offset) = Ret ds ∧
    Forall digit ds ∧
    (inject_Z (num ds) * base ^ (w + 1 - Z.of_nat (length ds)) == inject_Z (dacc l 0) * ten ^ (dw + 1 - Z.of_nat (length l)))%Q.
Proof.
  intros Hl w offset. pose proof (group_weight_spec dw) as Ho. fold w in Ho. unfold DEC_DIGITS in *. fold offset in Ho.
  rewrite Z.quot_div_nonneg by lia. set (x := Z.of_nat (length l) + offset + 4 - 1). pose proof (Z.div_mod x 4 ltac:(lia)) as Hdm.
  pose proof (Z.mod_pos_bound x 4 ltac:(lia)) as Hmb. assert (0 ≤ x / 4) by (apply Z.div_pos; lia). set (n := Z.to_nat (x / 4)).
  set (dec := [0; 0; 0; 0] ++ l ++ [0; 0; 0]). assert (length dec = (length l + 7)%nat) as Hlen by (unfold dec; rewrite !length_app; simpl; lia).
  destruct (group_loop_spec n dec (4 - offset)) as (ds & Hrun & Hln & Hall & Hnum).
  { unfold dec. apply Forall_app. split; [repeat constructor; unfold ddigit; lia|]. apply Forall_app. split; [done|repeat constructor; unfold ddigit; lia]. }
  { lia. } { unfold n. lia. }
  exists ds. split; [done|]. split; [done|].
  set (pad := Z.to_nat (4 * (x / 4) - (Z.of_nat (length l) + offset))).
  assert (take (4 * n) (drop (Z.to_nat (4 - offset)) dec) = replicate (Z.to_nat offset) 0 ++ l ++ replicate pad 0) as Ht.
  { assert (drop (Z.to_nat (4 - offset)) dec = replicate (Z.to_nat offset) 0 ++ l ++ [0; 0; 0]) as ->.
    { unfold dec. assert (offset = 0 ∨ offset = 1 ∨ offset = 2 ∨ offset = 3) as [-> |[-> |[-> | ->]]] by lia; done. }
    assert (4 * n = length (replicate (Z.to_nat offset) 0%Z) + (length l + pad))%nat as -> by (rewrite length_replicate; unfold n, pad; lia).
    rewrite take_app_add, take_app_add. do 2 f_equal. assert (pad = 0 ∨ pad = 1 ∨ pad = 2 ∨ pad = 3)%nat as [-> |[-> |[-> | ->]]] by (unfold pad, x in *; lia); done. }
  rewrite Hnum, Ht, !dacc_app, !dacc_zeros, Z.mul_0_l, Hln. rewrite inject_Z_mult, <- ten_Z, base_ten, <- Qmult_assoc, <- ten_plus by lia.
  replace (Z.of_nat pad + 4 * (w + 1 - Z.of_nat n)) with (dw + 1 - Z.of_nat (length l)); [reflexivity|]. unfold pad, n, offset in *. lia.
Qed.

(** *** The parts of a text *)

Definition sign_text (sg : list char) (neg : bool) : Prop := (sg = [] ∨ sg = [43]) ∧ neg = false ∨ sg = [45] ∧ neg = true.
(** Digits, with or without a decimal point. *)
Definition point_text (body ip fp : list char) : Prop :=
  digits ip ∧ digits fp ∧ (ip ≠ [] ∨ fp ≠ []) ∧ (body = ip ++ 46 :: fp ∨ body = ip ∧ fp = []).
Definition exponent_text (et : list char) (e : Z) : Prop :=
  et = [] ∧ e = 0 ∨
  ∃ c sp sg neg eds, (c = 101 ∨ c = 69) ∧ spaces sp ∧ sign_text sg neg ∧ digits eds ∧ eds ≠ [] ∧ et = c :: sp ++ sg ++ eds ∧
    e = (if (neg : bool) then - decimal eds 0 else decimal eds 0) ∧ - NUMERIC_MAX_PRECISION ≤ e ≤ NUMERIC_MAX_PRECISION.

Lemma deref_digit ds rest : digits ds → ds ≠ [] → isdigit (deref (ds ++ rest)) = true ∧ deref (ds ++ rest) ≠ 43 ∧ deref (ds ++ rest) ≠ 45 ∧ deref (ds ++ rest) ≠ 46.
Proof.
  intros Hd Hne. destruct ds as [|c ds]; [done|]. apply Forall_cons in Hd as [Hc _]. change (deref ((c :: ds) ++ rest)) with c.
  split; [done|]. apply isdigit_range in Hc. lia.
Qed.

Lemma spaces_stops sp : spaces sp → stops sp ∧ deref sp ≠ 101 ∧ deref sp ≠ 69.
Proof.
  intros H. destruct sp as [|c sp]; [done|]. apply Forall_cons in H as [H _]. unfold stops. change (deref (c :: sp)) with c.
  split; [split; [by apply space_not_digit|]|]; unfold isspace in H; apply orb_true_iff in H as [H%Z.eqb_eq|[H1%Z.leb_le H2%Z.leb_le]%andb_true_iff]; lia.
Qed.

(** What follows the exponent, if any. *)
Definition text_end (et rest : list char) : Prop :=
  stops (et ++ rest) ∧ isdigit (deref rest) = false ∧ (et = [] → deref rest ≠ 101 ∧ deref rest ≠ 69).

Lemma exponent_stops et e rest : exponent_text et e → stops rest → stops (et ++ rest).
Proof.
  intros [[-> _]|(c & sp & sg & neg & eds & Hc & _ & _ & _ & _ & -> & _)] Hsp; [done|].
  unfold stops. change (deref ((c :: sp ++ sg ++ eds) ++ rest)) with c. destruct Hc as [-> | ->]; done.
Qed.

Lemma spaces_end et e sp : exponent_text et e → spaces sp → text_end et sp.
Proof.
  intros He Hsp. destruct (spaces_stops sp Hsp) as (H1 & H2 & H3). split; [by apply (exponent_stops et e)|]. split; [apply H1|done].
Qed.

Lemma span_digits_app ds rest : digits ds → isdigit (deref rest) = false → span_digits (ds ++ rest) = (ds, rest).
Proof.
  intros Hd Hr. induction Hd as [|c ds Hc _ IH]; cbn [app span_digits]; [|by rewrite Hc, IH].
  destruct rest as [|c rest]; [done|]. cbn [span_digits]. change (deref (c :: rest)) with c in Hr. by rewrite Hr.
Qed.

Lemma strtol_exponent sp sg neg eds rest : spaces sp → sign_text sg neg → digits eds → eds ≠ [] → isdigit (deref rest) = false →
  let e := if (neg : bool) then - decimal eds 0 else decimal eds 0 in - NUMERIC_MAX_PRECISION ≤ e ≤ NUMERIC_MAX_PRECISION →
  strtol (sp ++ sg ++ eds ++ rest) = (e, rest, false).
Proof.
  intros Hsp Hsg Hd Hne Hr e He. destruct (deref_digit eds rest Hd Hne) as (D1 & D2 & D3 & _). unfold strtol. rewrite skip_space_app by done.
  assert (skip_space (sg ++ eds ++ rest) = sg ++ eds ++ rest ∧ (deref (sg ++ eds ++ rest) =? 45) = neg ∧
    (if neg || (deref (sg ++ eds ++ rest) =? 43) then tail (sg ++ eds ++ rest) else sg ++ eds ++ rest) = eds ++ rest) as (E1 & E2 & E3).
  { destruct Hsg as [[[-> | ->] ->]|[-> ->]]; cbn [app].
    - split; [|rewrite (proj2 (Z.eqb_neq _ 45) D3), (proj2 (Z.eqb_neq _ 43) D2); done].
      destruct eds as [|c eds]; [done|]. apply skip_space_stop. apply Forall_cons in Hd as [Hc _]. by apply digit_not_space.
    - done.
    - done. }
  rewrite E1, E2, E3, span_digits_app by done. assert (∀ A (x y : A), match eds with [] => x | _ => y end = y) as Hm by (by destruct eds). rewrite Hm.
  fold e. unfold NUMERIC_MAX_PRECISION in He.
  rewrite (proj2 (Z.ltb_ge e (INT_MIN 64))), (proj2 (Z.ltb_ge (INT_MAX 64) e)) by (unfold INT_MIN, INT_MAX; lia). done.
Qed.

Lemma parse_exponent_spec et e rest dw ds : exponent_text et e → text_end et rest → 0 ≤ ds →
  parse_exponent (et ++ rest) dw ds = Ret (rest, dw + e, Z.max (ds - e) 0).
Proof.
  intros He (_ & Hrd & Hre) Hds. unfold parse_exponent. destruct He as [[-> ->]|(c & sp & sg & neg & eds & Hc & Hsp & Hsg & Hd & Hne & -> & -> & He)].
  - cbn [app]. destruct (Hre eq_refl) as [H1 H2]. rewrite (proj2 (Z.eqb_neq _ 101) H1), (proj2 (Z.eqb_neq _ 69) H2).
    cbn [orb]. do 2 f_equal; [f_equal|]; lia.
  - cbn [app]. change (deref (c :: (sp ++ sg ++ eds) ++ rest)) with c. assert ((c =? 101) || (c =? 69) = true) as -> by (destruct Hc as [-> | ->]; done).
    cbn [tail]. rewrite <- !app_assoc, (strtol_exponent sp sg neg) by done.
    rewrite (proj2 (Nat.eqb_neq _ _)) by (destruct eds; [done|]; rewrite !length_app; cbn [length]; lia).
    set (e := if neg then - decimal eds 0 else decimal eds 0) in *.
    by rewrite (proj2 (Z.ltb_ge NUMERIC_MAX_PRECISION e)), (proj2 (Z.ltb_ge e (- NUMERIC_MAX_PRECISION))) by lia.
Qed.

(** The body of a number: where the loop over digits begins, and what it returns. *)
Lemma decimal_body body ip fp rest : point_text body ip fp → stops rest →
  ∃ have_dp cp, (if deref (body ++ rest) =? 46 then (true, tail (body ++ rest)) else (false, body ++ rest)) = (have_dp, cp) ∧
    isdigit (deref cp) = true ∧
    decimal_loop cp have_dp [0; 0; 0; 0] (-1) 0 =
      Ret (rest, [0; 0; 0; 0] ++ vals (ip ++ fp), Z.of_nat (length ip) - 1, Z.of_nat (length fp)).
Proof.
  intros (Hip & Hfp & Hne & Hbody) Hrest.
  assert (∀ acc n, decimal_loop (fp ++ rest) true acc n 0 = Ret (rest, acc ++ vals fp, n, Z.of_nat (length fp))) as Hf.
  { intros acc n. by rewrite decimal_loop_fraction, decimal_loop_stop. }
  destruct (decide (ip = [])) as [->|Hip0].
  - destruct Hbody as [-> |[-> ->]]; [|by destruct Hne]. cbn [app]. change (deref (46 :: fp ++ rest) =? 46) with true. cbn [tail].
    exists true, (fp ++ rest). split; [done|]. split; [apply deref_digit; [done|by destruct Hne]|]. by rewrite Hf.
  - exists false, (body ++ rest).
    assert (∃ tl, body ++ rest = ip ++ tl ∧ ∀ acc n, decimal_loop tl false acc n 0 = Ret (rest, acc ++ vals fp, n, Z.of_nat (length fp))) as (tl & -> & Htl).
    { destruct Hbody as [-> |[-> ->]].
      - exists (46 :: fp ++ rest). split; [by rewrite <- app_assoc|]. intros acc n. cbn [decimal_loop]. apply Hf.
      - exists rest. split; [done|]. intros acc n. by rewrite decimal_loop_stop, app_nil_r. }
    destruct (deref_digit ip tl Hip Hip0) as (D1 & _ & _ & D4). rewrite (proj2 (Z.eqb_neq _ 46) D4). split; [done|]. split; [done|].
    rewrite decimal_loop_whole by done. rewrite Htl. unfold vals. rewrite fmap_app, <- app_assoc. do 3 f_equal. lia.
Qed.

Definition text_value_of (neg : bool) (ip fp : list char) (e : Z) : Q :=
  let x := (inject_Z (decimal (ip ++ fp) 0) * ten ^ (e - Z.of_nat (length fp)))%Q in if neg then (- x)%Q else x.

Lemma set_var_from_str_spec sg neg body ip fp et e rest :
  sign_text sg neg → point_text body ip fp → exponent_text et e → text_end et rest →
  ∃ v, set_var_from_str (sg ++ body ++ et ++ rest) = Ret (rest, v) ∧ nv_before v ≠ [] ∧
    result v (text_value_of neg ip fp e) (Z.max (Z.of_nat (length fp) - e) 0).
Proof.
  intros Hsg Hbody He Hsp. unfold set_var_from_str.
  destruct (decimal_body body ip fp (et ++ rest) Hbody (proj1 Hsp)) as (have_dp & cp & Hcp & Hdig & Hloop).
  set (sign := if neg then NUMERIC_NEG else NUMERIC_POS).
  assert ((if deref (sg ++ body ++ et ++ rest) =? 43 then (NUMERIC_POS, tail (sg ++ body ++ et ++ rest))
           else if deref (sg ++ body ++ et ++ rest) =? 45 then (NUMERIC_NEG, tail (sg ++ body ++ et ++ rest))
           else (NUMERIC_POS, sg ++ body ++ et ++ rest)) = (sign, body ++ et ++ rest)) as ->.
  { destruct Hsg as [[[-> | ->] ->]|[-> ->]]; cbn [app]; [|done|done].
    assert (deref (body ++ et ++ rest) ≠ 43 ∧ deref (body ++ et ++ rest) ≠ 45) as [N1 N2].
    { destruct (Z.eqb_spec (deref (body ++ et ++ rest)) 46) as [E|E]; [rewrite E; done|]. injection Hcp as <- <-.
      apply isdigit_range in Hdig. lia. }
    by rewrite (proj2 (Z.eqb_neq _ 43) N1), (proj2 (Z.eqb_neq _ 45) N2). }
  rewrite Hcp, Hdig. cbn [negb]. rewrite Hloop. cbn [mbind outcome_bind].
  rewrite parse_exponent_spec with (e := e) by (done || lia). cbn [mbind outcome_bind].
  assert (Forall ddigit (vals (ip ++ fp))) as Hdd by (apply vals_ddigit, Forall_app; split; apply Hbody).
  replace (Z.of_nat (length ([0; 0; 0; 0] ++ vals (ip ++ fp))) - DEC_DIGITS) with (Z.of_nat (length (vals (ip ++ fp)))) by (rewrite length_app; unfold DEC_DIGITS; cbn [length]; lia).
  rewrite <- app_assoc. set (dw := Z.of_nat (length ip) - 1 + e).
  destruct (group_value (vals (ip ++ fp)) dw Hdd) as (ds & Hrun & Hds & Hval). cbv zeta in Hrun. rewrite Hrun. cbn [mbind outcome_bind].
  set (x := alloc_var _ _ _ _). assert (var_ok x) as Hx.
  { split; [done|by repeat constructor|]. unfold x, sign. cbn [nv_sign alloc_var]. destruct neg; auto. }
  destruct (strip_var_spec x Hx) as (S1 & _ & _ & S2 & S3 & _). exists (strip_var x). split; [done|]. split.
  { unfold strip_var. destruct (strip_leading_spec (nv_digits x) (nv_before x) (nv_weight x)) as (z & l & -> & _).
    destruct (rev (strip_trailing (rev l))); cbn [nv_before]; by destruct z. }
  split; [done|]. split; [|by rewrite S3]. rewrite S2, value_eq. change (nv_sign x) with sign. unfold sign, text_value_of.
  assert (absval x == inject_Z (decimal (ip ++ fp) 0) * ten ^ (e - Z.of_nat (length fp)))%Q as Ha.
  { unfold absval, expo, nv_ndigits. cbn [nv_digits nv_weight alloc_var x]. rewrite Hval, vals_decimal, vals_length.
    replace (dw + 1 - Z.of_nat (length (ip ++ fp))) with (e - Z.of_nat (length fp)); [reflexivity|]. rewrite length_app. unfold dw. lia. }
  destruct neg; cbn [Z.eqb NUMERIC_NEG NUMERIC_POS Pos.eqb]; by rewrite Ha.
Qed.

(** ** Input *)

(** The first character of a number is not a space and does not begin a text for not-a-number. *)
Lemma number_first sg neg body ip fp rest : sign_text sg neg → point_text body ip fp →
  ∃ c l, sg ++ body ++ rest = c :: l ∧ 43 ≤ c ≤ 57.
Proof.
  intros Hsg (Hip & Hfp & Hne & Hbody).
  assert (∃ c l, body ++ rest = c :: l ∧ 43 ≤ c ≤ 57) as (c & l & El & Hc).
  { destruct ip as [|c ip].
    - destruct Hbody as [-> |[-> ->]]; [|by destruct Hne]. exists 46, (fp ++ rest). split; [done|lia].
    - apply Forall_cons in Hip as [Hc _]. apply isdigit_range in Hc. destruct Hbody as [-> |[-> ->]]; cbn [app]; eexists c, _; (split; [done|lia]). }
  destruct Hsg as [[[-> | ->] _]|[-> _]]; cbn [app]; [by exists c, l|exists 43, (body ++ rest)|exists 45, (body ++ rest)]; (split; [done|lia]).
Qed.

(** The variable that is read, before the declared precision is applied. *)
Lemma numeric_in_var sp1 sg neg body ip fp et e sp2 typmod :
  spaces sp1 → sign_text sg neg → point_text body ip fp → exponent_text et e → spaces sp2 →
  ∃ v, nv_before v ≠ [] ∧ result v (text_value_of neg ip fp e) (Z.max (Z.of_nat (length fp) - e) 0) ∧
    numeric_in (sp1 ++ sg ++ body ++ et ++ sp2) typmod = (value ← apply_typmod v typmod; make_result value).
Proof.
  intros Hsp1 Hsg Hbody He Hsp2. destruct (set_var_from_str_spec sg neg body ip fp et e sp2 Hsg Hbody He (spaces_end et e sp2 He Hsp2)) as (v & Hv & Hb & Hres).
  exists v. split; [done|]. split; [done|]. unfold numeric_in. rewrite skip_space_app by done.
  destruct (number_first sg neg body ip fp (et ++ sp2) Hsg Hbody) as (c & l & El & Hc).
  assert (isspace c = false) as Hns by (unfold isspace; lia). rewrite El, skip_space_stop, <- El by done.
  assert (is_nan_text (sg ++ body ++ et ++ sp2) = false) as ->.
  { rewrite El. unfold is_nan_text, pg_tolower. apply bool_decide_false. cbn [take fmap list_fmap]. intros [= E _].
    destruct (Z.leb_spec 65 c); cbn [andb] in E; [lia|]. lia. }
  rewrite Hv. cbn [mbind outcome_bind]. by rewrite skip_space_all.
Qed.

Lemma text_of_scale neg ip fp e : of_scale (text_value_of neg ip fp e) (Z.max (Z.of_nat (length fp) - e) 0).
Proof.
  unfold text_value_of. set (x := (_ * _)%Q). assert (of_scale x (Z.max (Z.of_nat (length fp) - e) 0)) as H.
  { apply (of_scale_le _ (Z.of_nat (length fp) - e)); [lia|]. unfold x. replace (e - Z.of_nat (length fp)) with (- (Z.of_nat (length fp) - e)) by lia. apply of_scale_units. }
  destruct neg; [by apply of_scale_opp|done].
Qed.

Lemma numeric_in_packs sp1 sg neg body ip fp et e sp2 :
  spaces sp1 → sign_text sg neg → point_text body ip fp → exponent_text et e → spaces sp2 →
  packs (numeric_in (sp1 ++ sg ++ body ++ et ++ sp2) (-1)) (text_value_of neg ip fp e) (Z.max (Z.of_nat (length fp) - e) 0).
Proof.
  intros H1 H2 H3 H4 H5. destruct (numeric_in_var sp1 sg neg body ip fp et e sp2 (-1) H1 H2 H3 H4 H5) as (v & _ & Hres & ->).
  cbn [apply_typmod Z.ltb Z.compare VARHDRSZ mbind outcome_bind]. apply make_result_packs; [done|lia|apply text_of_scale].
Qed.

(** *** Every other text is refused *)

Lemma skip_space_split s : ∃ sp, spaces sp ∧ s = sp ++ skip_space s.
Proof.
  induction s as [|c s (sp & Hsp & E)]; [exists []; split; [constructor|done]|]. cbn [skip_space]. destruct (isspace c) eqn:Ec; [|exists []; split; [constructor|done]].
  exists (c :: sp). split; [by constructor|]. cbn [app]. by rewrite <- E.
Qed.

Lemma decimal_loop_inv cp : ∀ have_dp dec dw ds,
  decimal_loop cp have_dp dec dw ds = Ereport ERRCODE_INVALID_TEXT_REPRESENTATION ∨
  ∃ body rest ip fp, cp = body ++ rest ∧ digits ip ∧ digits fp ∧ stops rest ∧
    if (have_dp : bool) then ip = [] ∧ body = fp else body = ip ++ 46 :: fp ∨ body = ip ∧ fp = [].
Proof.
  induction cp as [|c cp IH]; intros have_dp dec dw ds.
  { right. exists [], [], [], []. split; [done|]. do 2 (split; [constructor|]). split; [done|]. destruct have_dp; auto. }
  cbn [decimal_loop]. destruct (isdigit c) eqn:Ec.
  - assert (decimal_loop cp have_dp (dec ++ [c - 48]) (if negb have_dp then dw + 1 else dw) (if negb have_dp then ds else ds + 1)
      = if negb have_dp then decimal_loop cp have_dp (dec ++ [c - 48]) (dw + 1) ds else decimal_loop cp have_dp (dec ++ [c - 48]) dw (ds + 1)) as <- by (by destruct have_dp).
    destruct (IH have_dp (dec ++ [c - 48]) (if negb have_dp then dw + 1 else dw) (if negb have_dp then ds else ds + 1)) as [E|(body & rest & ip & fp & -> & H1 & H2 & H3 & H4)]; [by left|].
    right. destruct have_dp.
    + destruct H4 as [-> ->]. exists (c :: fp), rest, [], (c :: fp). split; [done|]. split; [constructor|]. split; [by constructor|]. auto.
    + exists (c :: body), rest, (c :: ip), fp. split; [done|]. split; [by constructor|]. do 2 (split; [done|]).
      destruct H4 as [-> |[-> ->]]; auto.
  - destruct (Z.eqb_spec c 46) as [-> |Hc].
    + destruct have_dp; [by left|]. destruct (IH true dec dw ds) as [E|(body & rest & ip & fp & -> & _ & H2 & H3 & -> & ->)]; [by left|].
      right. exists (46 :: fp), rest, [], fp. split; [done|]. split; [constructor|]. auto.
    + right. exists [], (c :: cp), [], []. split; [done|]. do 2 (split; [constructor|]). split; [by split|]. destruct have_dp; auto.
Qed.

Lemma span_digits_split l : ∃ ds r, span_digits l = (ds, r) ∧ l = ds ++ r ∧ digits ds ∧ isdigit (deref r) = false.
Proof.
  induction l as [|c l (ds & r & E1 & E2 & E3 & E4)]; [exists [], []; do 2 (split; [done|]); split; [constructor|done]|]. cbn [span_digits]. destruct (isdigit c) eqn:Ec.
  - rewrite E1. exists (c :: ds), r. split; [done|]. split; [by rewrite E2|]. split; [by constructor|done].
  - exists [], (c :: l). do 2 (split; [done|]). split; [constructor|done].
Qed.

(** A sign that may be missing. *)
Lemma sign_split s : ∃ sg neg, sign_text sg neg ∧ s = sg ++ (if (neg : bool) || (deref s =? 43) then tail s else s) ∧ (deref s =? 45) = neg.
Proof.
  destruct s as [|c s]; [exists [], false; split; [by left; auto|done]|]. change (deref (c :: s)) with c.
  destruct (Z.eqb_spec c 45) as [-> |H1]; [exists [45], true; split; [by right|done]|].
  destruct (Z.eqb_spec c 43) as [-> |H2]; [exists [43], false; split; [by left; auto|done]|]. exists [], false. split; [by left; auto|done].
Qed.

Lemma parse_exponent_inv cp dw ds : stops cp →
  parse_exponent cp dw ds = Ereport ERRCODE_INVALID_TEXT_REPRESENTATION ∨
  ∃ et e rest, cp = et ++ rest ∧ exponent_text et e ∧ text_end et rest.
Proof.
  intros Hst. unfold parse_exponent. destruct ((deref cp =? 101) || (deref cp =? 69)) eqn:Ec.
  - destruct cp as [|c s]; [done|]. change (deref (c :: s)) with c in Ec. cbn [tail].
    assert (c = 101 ∨ c = 69) as Hc by (apply orb_true_iff in Ec as [E%Z.eqb_eq|E%Z.eqb_eq]; auto).
    unfold strtol. destruct (skip_space_split s) as (sp & Hsp & Es). destruct (sign_split (skip_space s)) as (sg & neg & Hsg & Ep & En).
    rewrite En. set (p := if neg || (deref (skip_space s) =? 43) then tail (skip_space s) else skip_space s) in *.
    destruct (span_digits_split p) as (eds & r & Esp & Er & Hd & Hr). rewrite Esp. destruct eds as [|d eds]; [left; by rewrite Nat.eqb_refl|].
    set (ds' := d :: eds) in *. set (e := if neg then - decimal ds' 0 else decimal ds' 0).
    assert (s = sp ++ sg ++ ds' ++ r) as Hs by (by rewrite <- Er, <- Ep).
    assert ((length r =? length s)%nat = false) as Hlen by (apply Nat.eqb_neq; rewrite Hs, !length_app; unfold ds'; cbn [length]; lia).
    assert (∀ x, NUMERIC_MAX_PRECISION < x ∨ x < - NUMERIC_MAX_PRECISION → (NUMERIC_MAX_PRECISION <? x) || (x <? - NUMERIC_MAX_PRECISION) = true) as Hbig by (intros x Hx; apply orb_true_iff; rewrite !Z.ltb_lt; done).
    destruct (decide (- NUMERIC_MAX_PRECISION ≤ e ≤ NUMERIC_MAX_PRECISION)) as [He|He].
    + right. exists (c :: sp ++ sg ++ ds'), e, r. split; [cbn [app]; by rewrite <- !app_assoc, <- Hs|].
      split; [right; by exists c, sp, sg, neg, ds'|]. split; [cbn [app]; rewrite <- !app_assoc, <- Hs; done|done].
    + left. destruct (Z.ltb_spec e (INT_MIN 64)); [rewrite Hlen; done|]. destruct (Z.ltb_spec (INT_MAX 64) e); [rewrite Hlen; done|].
      rewrite Hlen, Hbig by lia. done.
  - right. exists [], 0, cp. split; [done|]. split; [by left|]. apply orb_false_iff in Ec as [E1%Z.eqb_neq E2%Z.eqb_neq]. split; [done|]. split; [apply Hst|done].
Qed.

Lemma set_var_from_str_inv cp :
  set_var_from_str cp = Ereport ERRCODE_INVALID_TEXT_REPRESENTATION ∨
  ∃ sg neg body ip fp et e rest, cp = sg ++ body ++ et ++ rest ∧
    sign_text sg neg ∧ point_text body ip fp ∧ exponent_text et e ∧ text_end et rest.
Proof.
  unfold set_var_from_str. destruct (sign_split cp) as (sg & neg & Hsg & Ep & En).
  set (p := if neg || (deref cp =? 43) then tail cp else cp) in *. set (sign := if neg then NUMERIC_NEG else NUMERIC_POS).
  assert ((if deref cp =? 43 then (NUMERIC_POS, tail cp) else if deref cp =? 45 then (NUMERIC_NEG, tail cp) else (NUMERIC_POS, cp)) = (sign, p)) as ->.
  { unfold p, sign. rewrite En. destruct (Z.eqb_spec (deref cp) 43) as [E|E]; [|by destruct neg; cbn [orb]; rewrite ?(proj2 (Z.eqb_neq _ 43) E)].
    destruct neg; [rewrite E in En; done|done]. }
  set (have_dp := deref p =? 46). set (q := if have_dp then tail p else p).
  assert ((if have_dp then (true, tail p) else (false, p)) = (have_dp, q)) as -> by (unfold q; by destruct have_dp).
  destruct (isdigit (deref q)) eqn:Eq; [cbn [negb]|by left].
  destruct (decimal_loop_inv q have_dp [0; 0; 0; 0] (-1) 0) as [-> |(body & rest & ip & fp & Eb & H1 & H2 & H3 & H4)]; [by left|].
  assert (∃ body', p = body' ++ rest ∧ point_text body' ip fp) as (body' & Eb' & Hpt).
  { destruct have_dp eqn:Ed; unfold q in *.
    - destruct H4 as [-> ->]. exists (46 :: fp). unfold have_dp in Ed. apply Z.eqb_eq in Ed. destruct p as [|c p']; [done|]. change (deref (c :: p')) with c in Ed. subst c.
      cbn [tail] in *. split; [by rewrite Eb|]. split; [done|]. split; [done|]. split; [|by left]. right. intros ->. cbn [app] in Eb. rewrite Eb in Eq. by rewrite (proj1 H3) in Eq.
    - exists body. split; [done|]. split; [done|]. split; [done|]. split; [|done]. left. intros ->. cbn [app] in H4. destruct H4 as [-> |[-> _]].
      + rewrite Eb in Eq. done.
      + cbn [app] in Eb. rewrite Eb in Eq. by rewrite (proj1 H3) in Eq. }
  destruct (decimal_body body' ip fp rest Hpt H3) as (have_dp' & q' & E1 & _ & E2). rewrite <- Eb' in E1.
  assert ((have_dp', q') = (have_dp, q)) as [= -> ->] by (rewrite <- E1; unfold q, have_dp; by destruct (deref p =? 46)).
  rewrite E2. cbn [mbind outcome_bind]. destruct (parse_exponent_inv rest (Z.of_nat (length ip) - 1) (Z.of_nat (length fp)) H3) as [-> |(et & e & r & -> & He & Hr)]; [by left|].
  right. exists sg, neg, body', ip, fp, et, e, r. by rewrite <- Eb'.
Qed.

(** ** Output *)

Lemma decimal_acc l acc : decimal l acc = acc * 10 ^ Z.of_nat (length l) + decimal l 0.
Proof. rewrite <- !vals_decimal, dacc_acc, vals_length. done. Qed.
Lemma decimal_split l1 l2 : decimal (l1 ++ l2) 0 = decimal l1 0 * 10 ^ Z.of_nat (length l2) + decimal l2 0.
Proof. rewrite <- !vals_decimal. unfold vals. rewrite fmap_app, dacc_app, dacc_acc, length_fmap. done. Qed.
Lemma decimal_bound l : digits l → 0 ≤ decimal l 0 < 10 ^ Z.of_nat (length l).
Proof. intros H. rewrite <- vals_decimal, <- vals_length. by apply dacc_bound, vals_ddigit. Qed.

Lemma put_digits_spec putit dig : digit dig →
  digits (put_digits putit dig) ∧ (1 ≤ length (put_digits putit dig) ≤ 4)%nat ∧ (putit = true → length (put_digits putit dig) = 4%nat) ∧
  decimal (put_digits putit dig) 0 = dig.
Proof.
  intros Hd. unfold digit, NBASE in Hd. unfold put_digits.
  set (a := Z.quot dig 1000). assert (a = dig / 1000) as Ea by (apply Z.quot_div_nonneg; lia).
  set (r1 := dig - a * 1000). assert (r1 = dig mod 1000) as Er1 by (unfold r1; pose proof (Z.div_mod dig 1000); lia).
  pose proof (Z.mod_pos_bound dig 1000 ltac:(lia)). set (b := Z.quot r1 100). assert (b = r1 / 100) as Eb by (apply Z.quot_div_nonneg; lia).
  set (r2 := r1 - b * 100). assert (r2 = r1 mod 100) as Er2 by (unfold r2; pose proof (Z.div_mod r1 100); lia).
  pose proof (Z.mod_pos_bound r1 100 ltac:(lia)). set (c := Z.quot r2 10). assert (c = r2 / 10) as Ec by (apply Z.quot_div_nonneg; lia).
  set (d := r2 - c * 10). assert (d = r2 mod 10) as Ed by (unfold d; pose proof (Z.div_mod r2 10); lia).
  pose proof (Z.mod_pos_bound r2 10 ltac:(lia)).
  assert (0 ≤ a ≤ 9 ∧ 0 ≤ b ≤ 9 ∧ 0 ≤ c ≤ 9 ∧ 0 ≤ d ≤ 9) as (Ha & Hb & Hc & Hdd).
  { repeat split; try (rewrite Ea || rewrite Eb || rewrite Ec); try (apply Z.div_pos; lia); try (apply Z.lt_succ_r, Z.div_lt_upper_bound; lia); lia. }
  assert (dig = ((a * 10 + b) * 10 + c) * 10 + d) as Edig by (unfold d, r2, r1; lia).
  assert (∀ x, 0 ≤ x ≤ 9 → isdigit (x + 48) = true) as Hdg by (intros; apply isdigit_range; lia).
  clearbody a b c d. clear - Ha Hb Hc Hdd Edig Hdg.
  destruct putit; cbn [orb app length decimal].
  - split; [repeat constructor; apply Hdg; lia|]. split; [lia|]. split; [done|]. lia.
  - destruct (Z.ltb_spec 0 a); cbn [orb app length decimal]; [split; [repeat constructor; apply Hdg; lia|]; split; [lia|]; split; [done|]; lia|].
    destruct (Z.ltb_spec 0 b); cbn [orb app length decimal]; [split; [repeat constructor; apply Hdg; lia|]; split; [lia|]; split; [done|]; lia|].
    destruct (Z.ltb_spec 0 c); cbn [orb app length decimal]; (split; [repeat constructor; apply Hdg; lia|]); (split; [lia|]); (split; [done|]); lia.
Qed.

Lemma B_ten n : B n = 10 ^ Z.of_nat (4 * n).
Proof. change NBASE with (10 ^ 4). rewrite <- Z.pow_mul_r by lia. f_equal. lia. Qed.

Lemma fraction_loop_spec n digs : Forall digit digs → ∀ d,
  ∃ s, fraction_loop n digs d = Ret s ∧ digits s ∧ length s = (4 * n)%nat ∧ decimal s 0 = wval (dg digs) d n.
Proof.
  intros Hd. induction n as [|n IH]; intros d; [exists []; repeat split; constructor|].
  cbn [fraction_loop]. rewrite digit_at_run. cbn [mbind outcome_bind]. destruct (IH (d + 1)) as (s & -> & Hs & Hl & Hv). cbn [mbind outcome_bind].
  destruct (put_digits_spec true (dg digs d) (dg_digit digs d Hd)) as (P1 & P2 & P3 & P4). specialize (P3 eq_refl).
  eexists. split; [done|]. split; [by apply Forall_app|]. split; [rewrite length_app; lia|].
  rewrite decimal_split, P4, Hl, Hv, wval_cons, B_ten. done.
Qed.

Lemma whole_loop_spec n digs : Forall digit digs → ∀ d, 0 ≤ d →
  ∃ s, whole_loop n digs d = Ret s ∧ digits s ∧ (length s ≤ 4 * n)%nat ∧ (0 < d → length s = (4 * n)%nat) ∧ ((0 < n)%nat → s ≠ []) ∧
    decimal s 0 = wval (dg digs) d n.
Proof.
  intros Hd. induction n as [|n IH]; intros d H0; [exists []; repeat split; try constructor; lia|].
  cbn [whole_loop].
  assert ((if d <? Z.of_nat (length digs) then arr_get digs d else Ret 0) = Ret (dg digs d)) as ->.
  { rewrite <- digit_at_run. unfold digit_at. by rewrite (proj2 (Z.leb_le 0 d)) by lia. }
  cbn [mbind outcome_bind]. destruct (IH (d + 1) ltac:(lia)) as (s & -> & Hs & Hl & Hl' & _ & Hv). cbn [mbind outcome_bind]. specialize (Hl' ltac:(lia)).
  destruct (put_digits_spec (0 <? d) (dg digs d) (dg_digit digs d Hd)) as (P1 & P2 & P3 & P4).
  eexists. split; [done|]. split; [by apply Forall_app|]. split; [rewrite length_app; lia|].
  split; [intros Hp; rewrite length_app, P3 by (by apply Z.ltb_lt); lia|].
  split; [intros _; destruct (put_digits (0 <? d) (dg digs d)); [cbn [length] in P2; lia|done]|]. rewrite decimal_split, P4, Hl', Hv, wval_cons, B_ten. done.
Qed.

(** Rounding leaves no more digits behind the decimal point than the scale needs. *)
Lemma round_var_ndigits v rscale r : var_ok v → nv_before v ≠ [] → 0 ≤ rscale → round_var v rscale = Ret r →
  nv_ndigits r - nv_weight r - 1 ≤ Z.quot (rscale + DEC_DIGITS - 1) DEC_DIGITS.
Proof.
  intros Hv Hne Hs. unfold round_var. fold (kept_digits v rscale). set (di := kept_digits v rscale).
  rewrite (Z.quot_div_nonneg (rscale + DEC_DIGITS - 1)) by (unfold DEC_DIGITS; lia). set (cnt := (rscale + DEC_DIGITS - 1) / DEC_DIGITS).
  assert (rscale ≤ 4 * cnt ≤ rscale + 3) as Hcnt.
  { unfold cnt, DEC_DIGITS. pose proof (Z.div_mod (rscale + 4 - 1) 4 ltac:(lia)). pose proof (Z.mod_pos_bound (rscale + 4 - 1) 4 ltac:(lia)). lia. }
  destruct (Z.ltb_spec di 0) as [Hneg|Hpos]; [intros [= <-]; unfold nv_ndigits; cbn; lia|].
  destruct (kept_split di Hpos) as (Hr & H0 & Hp & Hnd). set (nd := Z.quot (di + DEC_DIGITS - 1) DEC_DIGITS) in *.
  set (dr := Z.rem di DEC_DIGITS) in *. assert (nd - nv_weight v - 1 ≤ cnt) as Hle.
  { unfold di, kept_digits, DEC_DIGITS in *. destruct (decide (dr = 0)) as [E|E]; [specialize (H0 E); lia|]. destruct (Hp ltac:(lia)) as [Hp' _]. lia. }
  destruct ((nd <? nv_ndigits v) || ((nd =? nv_ndigits v) && (0 <? dr))) eqn:Ec.
  - assert ((Z.to_nat nd < length (nv_digits v))%nat ∨ Z.to_nat nd = length (nv_digits v) ∧ 0 < dr) as Hc.
    { unfold nv_ndigits in Ec. apply orb_true_iff in Ec as [E%Z.ltb_lt|[E%Z.eqb_eq E'%Z.ltb_lt]%andb_true_iff]; lia. }
    destruct (round_digits_spec v (Z.to_nat nd) dr Hv Hne Hr Hc ltac:(lia)) as (before & digits & weight & Hrun & _ & _ & Hl & _).
    rewrite Z2Nat.id in Hrun by done. rewrite Hrun. cbn [mbind outcome_bind]. intros [= <-]. unfold nv_ndigits. cbn [nv_digits nv_weight]. lia.
  - intros [= <-]. apply orb_false_iff in Ec as [E%Z.ltb_ge _]. unfold nv_ndigits in *. cbn [nv_digits nv_weight set_dscale]. lia.
Qed.

Lemma decimal_prefix l n : digits l → (n ≤ length l)%nat → decimal (take n l) 0 = decimal l 0 / 10 ^ Z.of_nat (length l - n).
Proof.
  intros Hd Hn. rewrite <- (take_drop n l) at 2. rewrite decimal_split, length_drop.
  pose proof (decimal_bound (drop n l) ltac:(by apply Forall_drop)) as Hb. rewrite length_drop in Hb.
  rewrite Z.div_add_l, Z.div_small by lia. lia.
Qed.

(** The digits that are written, before and behind the decimal point, in units of the last one. *)
Lemma text_digits r cnt ds R : var_ok r → (0 ≤ ds ≤ 4 * Z.of_nat cnt) → nv_ndigits r - nv_weight r - 1 ≤ Z.of_nat cnt →
  (absval r == inject_Z R * ten ^ (- ds))%Q →
  ∃ ip frac, (if nv_weight r <? 0 then Ret [48] else whole_loop (Z.to_nat (nv_weight r + 1)) (nv_digits r) 0) = Ret ip ∧
    fraction_loop cnt (nv_digits r) (nv_weight r + 1) = Ret frac ∧ digits ip ∧ digits frac ∧ ip ≠ [] ∧
    Z.of_nat (length ip) ≤ Z.max ((nv_weight r + 1) * DEC_DIGITS) 1 ∧ length frac = (4 * cnt)%nat ∧
    decimal (ip ++ take (Z.to_nat ds) frac) 0 = R.
Proof.
  intros Hr Hds Hnd Ha. pose proof (vo_digits _ Hr) as Hd. set (l := nv_digits r) in *. set (w := nv_weight r) in *.
  assert (fits l w (Z.of_nat cnt)) as Hf by (unfold fits, nv_ndigits in *; fold l in Hnd; lia). pose proof (sval_bound l w _ Hd Hf) as Hsb.
  assert (sval l w (Z.of_nat cnt) = R * 10 ^ (4 * Z.of_nat cnt - ds)) as HS.
  { apply (proj1 (inject_Z_injective _ _)). rewrite inject_Z_mult, <- ten_Z by lia.
    rewrite (absval_sval r (Z.of_nat cnt) Hf), base_ten in Ha. fold l w in Ha.
    transitivity (inject_Z (sval l w (Z.of_nat cnt)) * ten ^ (4 * - Z.of_nat cnt) * ten ^ (4 * Z.of_nat cnt))%Q.
    - rewrite <- Qmult_assoc, <- ten_plus. replace (4 * - Z.of_nat cnt + 4 * Z.of_nat cnt) with 0 by lia. simpl. ring.
    - rewrite Ha, <- Qmult_assoc, <- ten_plus. by replace (- ds + 4 * Z.of_nat cnt) with (4 * Z.of_nat cnt - ds) by lia. }
  destruct (fraction_loop_spec cnt l Hd (w + 1)) as (frac & Hfr & F1 & F2 & F3).
  assert (∃ ip, (if w <? 0 then Ret [48] else whole_loop (Z.to_nat (w + 1)) l 0) = Ret ip ∧ digits ip ∧ ip ≠ [] ∧
    Z.of_nat (length ip) ≤ Z.max ((w + 1) * DEC_DIGITS) 1 ∧ decimal (ip ++ frac) 0 = sval l w (Z.of_nat cnt)) as (ip & Hip & I1 & I2 & I3 & I4).
  { destruct (Z.ltb_spec w 0) as [Hw|Hw].
    - exists [48]. split; [done|]. split; [by constructor|]. split; [done|]. split; [cbn [length]; lia|].
      rewrite decimal_split, F3. change (decimal [48] 0) with 0. rewrite Z.mul_0_l, Z.add_0_l.
      rewrite <- (window_sval l w (Z.of_nat cnt) cnt Hd Hf); [f_equal; lia|].
      assert (NBASE ^ (w + 1 + Z.of_nat cnt) ≤ B cnt) by (apply Z.pow_le_mono_r; unfold NBASE; lia). lia.
    - destruct (whole_loop_spec (Z.to_nat (w + 1)) l Hd 0 ltac:(lia)) as (s & -> & W1 & W2 & _ & W3 & W4). exists s.
      split; [done|]. split; [done|]. split; [apply W3; lia|]. split; [unfold DEC_DIGITS; lia|].
      rewrite decimal_split, F2, F3, W4. rewrite <- B_ten. set (nw := Z.to_nat (w + 1)).
      replace (w + 1) with (0 + Z.of_nat nw) by (unfold nw; lia). rewrite <- wval_add.
      rewrite <- (window_sval l w (Z.of_nat cnt) (nw + cnt) Hd Hf); [f_equal; unfold nw; lia|].
      replace (B (nw + cnt)) with (NBASE ^ (w + 1 + Z.of_nat cnt)) by (f_equal; unfold nw; lia). lia. }
  exists ip, frac. split; [done|]. split; [done|]. split; [done|]. split; [done|]. split; [done|]. split; [done|]. split; [done|].
  assert (ip ++ take (Z.to_nat ds) frac = take (length ip + Z.to_nat ds) (ip ++ frac)) as -> by (by rewrite take_app_add).
  rewrite decimal_prefix by (try (apply Forall_app; done); rewrite length_app; lia). rewrite I4, HS, length_app, F2.
  replace (Z.of_nat (length ip + 4 * cnt - (length ip + Z.to_nat ds))) with (4 * Z.of_nat cnt - ds) by lia.
  apply Z.div_mul. assert (0 < 10 ^ (4 * Z.of_nat cnt - ds)) by (apply Z.pow_pos_nonneg; lia). lia.
Qed.

(** The text of a variable: its rounded digits with the point at the scale. *)
Lemma get_str_from_var_spec v dscale : var_ok v → nv_before v ≠ [] → 0 ≤ dscale →
  ∃ r s sg ip fp, round_var v dscale = Ret r ∧ get_str_from_var v dscale = Ret s ∧ s = sg ++ (if 0 <? dscale then ip ++ 46 :: fp else ip) ∧
    sign_text sg (nv_sign r =? NUMERIC_NEG) ∧ digits ip ∧ ip ≠ [] ∧ digits fp ∧ Z.of_nat (length fp) = dscale ∧
    decimal (ip ++ fp) 0 = round_units (absval v) dscale.
Proof.
  intros Hv Hne Hs. destruct (round_var_spec v dscale Hv Hne) as (r & Hr & R1 & _ & _ & R4). unfold get_str_from_var.
  rewrite Z.max_l by done. rewrite Hr. cbn [mbind outcome_bind]. pose proof (round_var_ndigits v dscale r Hv Hne Hs Hr) as Hnd.
  rewrite Z.quot_div_nonneg in * by (unfold DEC_DIGITS; lia). set (cz := (dscale + DEC_DIGITS - 1) / DEC_DIGITS) in *.
  assert (dscale ≤ 4 * cz ≤ dscale + 3) as Hcz.
  { unfold cz, DEC_DIGITS. pose proof (Z.div_mod (dscale + 4 - 1) 4 ltac:(lia)). pose proof (Z.mod_pos_bound (dscale + 4 - 1) 4 ltac:(lia)). lia. }
  destruct (text_digits r (Z.to_nat cz) dscale (round_units (absval v) dscale) R1) as (ip & frac & Hip & Hfr & I1 & I2 & I3 & I4 & I5 & I6); [lia|lia|done|].
  rewrite Hip. cbn [mbind outcome_bind]. rewrite Hfr. cbn [mbind outcome_bind]. set (sg := if nv_sign r =? NUMERIC_NEG then [45] else []).
  exists r, (sg ++ (if 0 <? dscale then ip ++ 46 :: take (Z.to_nat dscale) frac else ip)), sg, ip, (take (Z.to_nat dscale) frac).
  split; [done|]. split.
  { destruct (Z.ltb_spec 0 dscale) as [Hp|Hp]; [|done]. rewrite (proj2 (Z.ltb_ge _ _)); [done|].
    rewrite !length_app, I5. cbn [length]. unfold DEC_DIGITS in *. assert (length sg ≤ 1)%nat by (unfold sg; destruct (_ =? _); simpl; lia). lia. }
  split; [done|]. split; [unfold sg, sign_text; destruct (_ =? _); auto|]. split; [done|]. split; [done|]. split; [by apply Forall_take|].
  split; [rewrite length_take; lia|done].
Qed.

(** ** The same value is the same digits *)

Lemma num_inj_length l : ∀ l', length l = length l' → Forall digit l → Forall digit l' → num l = num l' → l = l'.
Proof.
  induction l as [|d l IH]; intros [|d' l'] Hl Hd Hd' E; try done. injection Hl as Hl.
  apply Forall_cons in Hd as [_ Hd]. apply Forall_cons in Hd' as [_ Hd']. rewrite !num_cons, <- Hl in E.
  pose proof (num_bound l Hd). pose proof (num_bound l' Hd') as Hb'. rewrite <- Hl in Hb'.
  assert (d = d') as -> by nia. f_equal. apply IH; try done. lia.
Qed.

Lemma num_lead d l : digit d → d ≠ 0 → Forall digit l → B (length l) ≤ num (d :: l).
Proof. intros Hd H0 Hl. rewrite num_cons. pose proof (num_bound l Hl). unfold digit in Hd. nia. Qed.

Lemma num_inj l l' : Forall digit l → Forall digit l' → starts_nonzero l → starts_nonzero l' → num l = num l' → l = l'.
Proof.
  intros Hd Hd' Hs Hs' E. apply num_inj_length; try done.
  assert (∀ m m', Forall digit m → Forall digit m' → starts_nonzero m → num m = num m' → (length m ≤ length m')%nat) as H.
  { clear. intros [|d m] m' Hd Hd' Hs E; [simpl; lia|]. apply Forall_cons in Hd as [H1 H2]. pose proof (num_lead d m H1 Hs H2).
    pose proof (num_bound m' Hd'). destruct (decide (length m' ≤ length m)%nat); [|simpl; lia].
    assert (B (length m') ≤ B (length m)) by (apply Z.pow_le_mono_r; unfold NBASE; lia). lia. }
  apply Nat.le_antisymm; [by apply H|]. by apply H.
Qed.

(** A number without zeroes at its end is not a multiple of the base. *)
Lemma num_last l z : Forall digit l → starts_nonzero (rev l) → l ≠ [] → num l ≠ z * NBASE.
Proof.
  intros Hd Hs Hne E. destruct (rev l) as [|d rl] eqn:Er; [by rewrite <- (rev_involutive l), Er in Hne|].
  assert (l = rev rl ++ [d]) as El by (by rewrite <- (rev_involutive l), Er). rewrite El, num_snoc in E. rewrite El in Hd.
  apply Forall_app in Hd as [_ Hd]. apply Forall_cons in Hd as [Hd _]. simpl in Hs. unfold digit, NBASE in *. lia.
Qed.

Lemma expo_le a b : var_ok a → var_ok b → stripped a → nv_digits a ≠ [] → (absval a == absval b)%Q → expo b ≤ expo a.
Proof.
  intros Ha Hb (_ & Hs & _) Hne E. destruct (decide (expo b ≤ expo a)) as [|Hlt]; [done|exfalso].
  set (k := expo b - expo a). assert (num (nv_digits a) = num (nv_digits b) * NBASE ^ k) as En.
  { apply (proj1 (inject_Z_injective _ _)). rewrite inject_Z_mult, <- base_Z by lia. unfold absval in E.
    transitivity (inject_Z (num (nv_digits a)) * base ^ expo a * base ^ (- expo a))%Q.
    - rewrite <- Qmult_assoc, <- base_plus. replace (expo a + - expo a) with 0 by lia. simpl. ring.
    - rewrite E, <- Qmult_assoc, <- base_plus. by replace (expo b + - expo a) with k by lia. }
  apply (num_last (nv_digits a) (num (nv_digits b) * NBASE ^ (k - 1))); [apply Ha|done|done|].
  rewrite En. replace k with (1 + (k - 1)) at 1 by lia. rewrite Z.pow_add_r by lia. lia.
Qed.

Lemma stripped_abs_unique a b : var_ok a → var_ok b → stripped a → stripped b → (absval a == absval b)%Q →
  nv_digits a = nv_digits b ∧ nv_weight a = nv_weight b.
Proof.
  intros Ha Hb Sa Sb E.
  assert (∀ x y, var_ok x → var_ok y → stripped y → (absval x == absval y)%Q → nv_digits x = [] → nv_digits y = []) as Hz.
  { clear. intros x y Hx Hy (Sy & _) E Ex. destruct (decide (nv_digits y = [])) as [|Hne]; [done|].
    pose proof (absval_nonzero y Hy Sy Hne) as Hp. rewrite <- E in Hp. unfold absval in Hp. rewrite Ex, num_nil, Qmult_0_l in Hp. by apply Qlt_irrefl in Hp. }
  destruct (decide (nv_digits a = [])) as [Ea|Hne].
  { pose proof (Hz a b Ha Hb Sb E Ea) as Eb. rewrite Ea, Eb. split; [done|]. destruct Sa as (_ & _ & Sa), Sb as (_ & _ & Sb).
    by rewrite (proj1 (Sa Ea)), (proj1 (Sb Eb)). }
  assert (nv_digits b ≠ []) as Hne' by (intros Eb; apply Hne; by apply (Hz b a)).
  assert (expo a = expo b) as Ee.
  { apply Z.le_antisymm; apply expo_le; done. }
  assert (nv_digits a = nv_digits b) as Ed.
  { apply num_inj; [apply Ha|apply Hb|apply Sa|apply Sb|]. apply (proj1 (inject_Z_injective _ _)). unfold absval in E. rewrite Ee in E.
    apply Qmult_inj_r in E; [done|]. pose proof (base_pos (expo b)) as Hp. intros E0. rewrite E0 in Hp. by apply Qlt_irrefl in Hp. }
  split; [done|]. unfold expo, nv_ndigits in Ee. rewrite Ed in Ee. lia.
Qed.

Lemma stripped_unique a b : var_ok a → var_ok b → stripped a → stripped b → (value a == value b)%Q →
  nv_digits a = nv_digits b ∧ nv_weight a = nv_weight b ∧ nv_sign a = nv_sign b.
Proof.
  intros Ha Hb Sa Sb E. pose proof (absval_nonneg a Ha) as Na. pose proof (absval_nonneg b Hb) as Nb. rewrite !value_eq in E.
  assert (absval a == absval b)%Q as Eabs by (destruct (nv_sign a =? NUMERIC_NEG), (nv_sign b =? NUMERIC_NEG); lra).
  destruct (stripped_abs_unique a b Ha Hb Sa Sb Eabs) as [Ed Ew]. split; [done|]. split; [done|].
  destruct (decide (nv_digits a = [])) as [Ea|Hne].
  { destruct Sa as (_ & _ & Sa), Sb as (_ & _ & Sb). rewrite (proj2 (Sa Ea)). symmetry. apply Sb. by rewrite <- Ed. }
  pose proof (absval_nonzero a Ha (proj1 Sa) Hne) as Hp.
  destruct (vo_sign _ Ha) as [E1|E1], (vo_sign _ Hb) as [E2|E2]; rewrite E1, E2 in *; try done;
    cbn [Z.eqb NUMERIC_NEG NUMERIC_POS Pos.eqb] in E; lra.
Qed.

(** A result that has the value and the scale of a packed number is that number. *)
Lemma packs_same r n v : packed n v → packs r (value v) (nv_dscale v) → ∃ n', r = Ret n' ∧ packed n' v.
Proof.
  intros [Hdec [Hok Hst Hds Hcov] Hpk] (w & [Wok Wst Wds Wcov] & Ew & Es & Hr).
  destruct (stripped_unique w v Wok Hok Wst Hst Ew) as (E1 & E2 & E3).
  assert (packable w = true) as Hp by (unfold packable in *; by rewrite E2, Es). rewrite Hp in Hr. destruct Hr as (n' & -> & [Hd' _ _]).
  exists n'. split; [done|]. split; [by rewrite <- E1, <- E2, <- E3, <- Es|done|done].
Qed.

(** ** The functions *)

(** A number with this sign, these digits before and behind the decimal point, and this exponent, with spaces around. *)
Definition number_text (str : list char) (neg : bool) (ip fp : list char) (e : Z) : Prop :=
  ∃ sp1 sg body et sp2, str = sp1 ++ sg ++ body ++ et ++ sp2 ∧ spaces sp1 ∧ sign_text sg neg ∧ point_text body ip fp ∧
    exponent_text et e ∧ spaces sp2.
Definition nan_text (str : list char) : Prop :=
  ∃ sp1 w sp2, str = sp1 ++ w ++ sp2 ∧ spaces sp1 ∧ pg_tolower <$> w = NAN_TEXT ∧ spaces sp2.
Definition nan_number : NumericData := mkNumeric NUMERIC_NAN [].

Lemma nan_first w sp2 : pg_tolower <$> w = NAN_TEXT → skip_space (w ++ sp2) = w ++ sp2 ∧ is_nan_text (w ++ sp2) = true ∧ drop 3 (w ++ sp2) = sp2.
Proof.
  intros E. assert (length w = 3%nat) as Hl by (by rewrite <- (length_fmap pg_tolower w), E).
  unfold is_nan_text. rewrite <- Hl, take_app_length, drop_app_length. split; [|by rewrite bool_decide_true].
  destruct w as [|c w]; [done|]. apply skip_space_stop. injection E as E _. unfold pg_tolower in E.
  destruct ((65 <=? c) && (c <=? 90)) eqn:Ec; [apply andb_true_iff in Ec as [H1%Z.leb_le H2%Z.leb_le]|];
    unfold isspace; apply orb_false_iff; rewrite Z.eqb_neq, andb_false_iff, !Z.leb_gt; lia.
Qed.

Lemma numeric_in_nan str typmod : nan_text str → numeric_in str typmod = Ret nan_number.
Proof.
  intros (sp1 & w & sp2 & -> & Hsp1 & E & Hsp2). unfold numeric_in. rewrite skip_space_app by done.
  destruct (nan_first w sp2 E) as (-> & -> & ->). rewrite skip_space_all by done. reflexivity.
Qed.

Lemma numeric_in_grammar str typmod :
  (∃ neg ip fp e, number_text str neg ip fp e) ∨ nan_text str ∨ numeric_in str typmod = Ereport ERRCODE_INVALID_TEXT_REPRESENTATION.
Proof.
  unfold numeric_in. destruct (skip_space_split str) as (sp1 & Hsp1 & Es). set (cp := skip_space str) in *.
  destruct (is_nan_text cp) eqn:En.
  - right. apply bool_decide_eq_true in En. change (make_result const_nan) with (@Ret NumericData nan_number). cbn [mbind outcome_bind].
    destruct (skip_space_split (drop 3 cp)) as (sp2 & Hsp2 & E2). destruct (skip_space (drop 3 cp)) as [|c l]; [left|by right].
    rewrite app_nil_r in E2. exists sp1, (take 3 cp), sp2. split; [by rewrite <- E2, take_drop|done].
  - destruct (set_var_from_str_inv cp) as [-> |(sg & neg & body & ip & fp & et & e & rest & E & H1 & H2 & H3 & H4)]; [by right; right|].
    destruct (set_var_from_str_spec sg neg body ip fp et e rest H1 H2 H3 H4) as (v & Hv & _). rewrite <- E in Hv. rewrite Hv. cbn [mbind outcome_bind].
    destruct (skip_space_split rest) as (sp2 & Hsp2 & E2). destruct (skip_space rest) as [|c l]; [left|by right; right].
    rewrite app_nil_r in E2. subst rest. exists neg, ip, fp, e, sp1, sg, body, et, sp2. by rewrite <- E.
Qed.

(** C18: a text is read as the number that it stands for in decimal notation, with the digits behind the point as
    its scale, unless that is out of range; the only other texts that are read are those of
    not-a-number, and every text that is neither is reported as an error. *)
Theorem numeric_in_correct str :
  (∀ neg ip fp e, number_text str neg ip fp e →
     packs (numeric_in str (-1)) (text_value_of neg ip fp e) (Z.max (Z.of_nat (length fp) - e) 0)) ∧
  (∀ typmod, nan_text str → numeric_in str typmod = Ret nan_number) ∧
  (∀ typmod, (∃ neg ip fp e, number_text str neg ip fp e) ∨ nan_text str ∨
     numeric_in str typmod = Ereport ERRCODE_INVALID_TEXT_REPRESENTATION).
Proof.
  split; [|split; [intros typmod; apply numeric_in_nan|apply numeric_in_grammar]].
  intros neg ip fp e (sp1 & sg & body & et & sp2 & -> & H1 & H2 & H3 & H4 & H5). by apply numeric_in_packs.
Qed.

(** [" -12.345e1 "] *)
Lemma numeric_in_correct_witness :
  let str := [32; 45; 49; 50; 46; 51; 52; 53; 101; 49; 32] in
  packs (numeric_in str (-1)) (text_value_of true [49; 50] [51; 52; 53] 1) 2 ∧
  numeric_in str (-1) = Ret (mkNumeric 0xA100 [123; 4500]) ∧ numeric_in [49; 46; 46] (-1) = Ereport ERRCODE_INVALID_TEXT_REPRESENTATION.
Proof.
  cbv zeta. split; [|split; reflexivity]. apply (proj1 (numeric_in_correct [32; 45; 49; 50; 46; 51; 52; 53; 101; 49; 32]) true [49; 50] [51; 52; 53] 1).
  exists [32], [45], [49; 50; 46; 51; 52; 53], [101; 49], [32].
  split; [reflexivity|]. split; [by repeat constructor|]. split; [by right|]. split; [|split; [|by repeat constructor]].
  - split; [by repeat constructor|]. split; [by repeat constructor|]. split; [by left|by left].
  - right. exists 101, [], [], false, [49]. repeat split; try (by repeat constructor); try (by left; auto); done.
Defined.

Lemma numeric_out_text n v : packed n v →
  ∃ s neg ip fp, numeric_out n = Ret s ∧ number_text s neg ip fp 0 ∧ ip ≠ [] ∧ Z.of_nat (length fp) = nv_dscale v ∧
    (text_value_of neg ip fp 0 == value v)%Q.
Proof.
  intros H. pose proof (pk_number _ _ H) as [Hok Hst Hds Hcov]. destruct (set_var_from_num_spec n v H) as [Hset Hnan].
  unfold numeric_out. rewrite Hnan, Hset. cbn [mbind outcome_bind]. change (nv_dscale (set_var_from_var v)) with (nv_dscale v).
  destruct (get_str_from_var_spec (set_var_from_var v) (nv_dscale v)) as (r & s & sg & ip & fp & Hr & Hs & Es & Hsg & H1 & H2 & H3 & H4 & H5);
    [by apply copy_ok|done|done|].
  exists s, (nv_sign r =? NUMERIC_NEG), ip, fp. split; [done|].
  destruct (round_var_spec (set_var_from_var v) (nv_dscale v)) as (r' & Hr' & R1 & _ & R3 & R4); [by apply copy_ok|done|].
  rewrite Hr in Hr'. injection Hr' as <-. rewrite copy_absval in *.
  assert (of_scale (absval v) (nv_dscale v)) as Hca by (by apply of_scale_abs). pose proof (of_scale_round _ _ Hca) as Hround.
  split; [|split; [done|split; [done|]]].
  - exists [], sg, (if 0 <? nv_dscale v then ip ++ 46 :: fp else ip), [], []. split; [by rewrite Es, !app_nil_r|].
    split; [constructor|]. split; [done|]. split; [|split; [by left|constructor]]. split; [done|]. split; [done|]. split; [by left|].
    destruct (Z.ltb_spec 0 (nv_dscale v)); [by left|]. right. split; [done|]. destruct fp; [done|cbn [length] in H4; lia].
  - unfold text_value_of. rewrite H5, H4. replace (0 - nv_dscale v) with (- nv_dscale v) by lia.
    transitivity (value r).
    + rewrite (value_eq r). set (x := (inject_Z (round_units (absval v) (nv_dscale v)) * ten ^ (- nv_dscale v))%Q) in *.
      destruct (nv_sign r =? NUMERIC_NEG); rewrite R4; reflexivity.
    + rewrite R3, (value_eq v). unfold signed. change (nv_sign (set_var_from_var v)) with (nv_sign v). destruct (nv_sign v =? NUMERIC_NEG); by rewrite Hround.
Qed.

#[global] Instance packs_proper : Proper (eq ==> Qeq ==> eq ==> iff) packs.
Proof. intros r r' <- x y Hxy s s' <-. unfold packs. by setoid_rewrite Hxy. Qed.


