(* ===== verification/NumericTypmod.v ===== *)
(** * NumericTypmod: the declared precision and scale

    A value that is stored in a column of type [numeric(p, s)] is rounded to [s] digits behind the point, and reported
    when [p - s] digits before it are not enough. *)

From Stdlib Require Import QArith Qround Qpower Qabs Lqa.
From S2P Require Import Prelude Int IntText PqFormat Numeric NumericSpec NumericMul NumericOps NumericConv NumericText.
Open Scope Z_scope.

(** ** The type modifier *)

Lemma typmod_fields p s : 1 ≤ p ≤ NUMERIC_MAX_PRECISION → 0 ≤ s ≤ p →
  let typmod := Z.lor (Z.shiftl p 16) s + VARHDRSZ in
  VARHDRSZ ≤ typmod ∧ Z.land (Z.shiftr (typmod - VARHDRSZ) 16) 0xffff = p ∧ Z.land (typmod - VARHDRSZ) 0xffff = s.
Proof.
  intros Hp Hs. cbv zeta. unfold NUMERIC_MAX_PRECISION in Hp. rewrite Z.add_simpl_r. change 0xffff with (Z.ones 16).
  assert (Z.land (Z.shiftl p 16) s = 0) as E.
  { replace s with (Z.land s (Z.ones 16)) by (rewrite Z.land_ones by lia; apply Z.mod_small; lia).
    rewrite (Z.land_comm s), Z.land_assoc. rewrite (Z.land_ones (Z.shiftl p 16)), Z.shiftl_mul_pow2, Z.mod_mul by lia. apply Z.land_0_l. }
  rewrite <- Z.lxor_lor, <- Z.add_nocarry_lxor by done. rewrite Z.shiftl_mul_pow2, Z.shiftr_div_pow2, !Z.land_ones by lia.
  split; [unfold VARHDRSZ; lia|]. rewrite Z.div_add_l, (Z.div_small s), Z.add_0_r, Z.add_comm, Z.mod_add, !Z.mod_small by lia. done.
Qed.

Lemma numerictypmodin_inv p s typmod : numerictypmodin [p; s] = Ret typmod →
  1 ≤ p ≤ NUMERIC_MAX_PRECISION ∧ 0 ≤ s ≤ p ∧ typmod = Z.lor (Z.shiftl p 16) s + VARHDRSZ.
Proof.
  unfold numerictypmodin. destruct ((p <? 1) || _) eqn:E1; [done|]. destruct ((s <? 0) || _) eqn:E2; [done|]. intros [= <-].
  apply orb_false_iff in E1 as [H1%Z.ltb_ge H2%Z.ltb_ge]. apply orb_false_iff in E2 as [H3%Z.ltb_ge H4%Z.ltb_ge]. done.
Qed.

(** ** The test of the digits before the point *)

Lemma ten_le a b : a ≤ b → (ten ^ a <= ten ^ b)%Q.
Proof.
  intros H. replace b with (a + (b - a)) by lia. rewrite ten_plus, (ten_Z (b - a)) by lia.
  assert (0 < 10 ^ (b - a)) by (apply Z.pow_pos_nonneg; lia). rewrite <- (Qmult_1_r (ten ^ a)) at 1.
  apply Qmult_le_l; [apply ten_pos|]. change 1%Q with (inject_Z 1). rewrite <- Zle_Qle. lia.
Qed.

(** A value between two powers of ten. *)
Lemma magnitude_test x d maxdigits : (ten ^ (d - 1) <= x)%Q → (x < ten ^ d)%Q → Qle_bool (ten ^ maxdigits) x = (maxdigits <? d).
Proof.
  intros H1 H2. destruct (Z.ltb_spec maxdigits d) as [Hlt|Hge].
  - apply Qle_bool_iff. apply (Qle_trans _ (ten ^ (d - 1))); [apply ten_le; lia|done].
  - apply not_true_iff_false. rewrite Qle_bool_iff. intros H. pose proof (ten_le d maxdigits Hge). apply (Qlt_irrefl x).
    apply (Qlt_le_trans _ (ten ^ d)); [done|]. apply (Qle_trans _ (ten ^ maxdigits)); done.
Qed.

(** The digits of a base-10000 digit, and the power of ten below the number that it leads. *)
Definition digit_width (dig : Z) : Z := if dig <? 10 then 1 else if dig <? 100 then 2 else if dig <? 1000 then 3 else 4.

Lemma digit_width_spec dig : digit dig → dig ≠ 0 → 10 ^ (digit_width dig - 1) ≤ dig < 10 ^ digit_width dig.
Proof.
  intros Hd H0. unfold digit, NBASE in Hd. unfold digit_width.
  destruct (Z.ltb_spec dig 10); [simpl; lia|]. destruct (Z.ltb_spec dig 100); [simpl; lia|]. destruct (Z.ltb_spec dig 1000); simpl; lia.
Qed.

Lemma leading_magnitude dig l w : digit dig → dig ≠ 0 → Forall digit l →
  let x := (inject_Z (num (dig :: l)) * base ^ (w + 1 - Z.of_nat (length (dig :: l))))%Q in
  (ten ^ (4 * w + digit_width dig - 1) <= x)%Q ∧ (x < ten ^ (4 * w + digit_width dig))%Q.
Proof.
  intros Hd H0 Hl. cbv zeta. pose proof (digit_width_spec dig Hd H0) as Hw. pose proof (num_bound l Hl) as Hb. rewrite num_cons.
  set (k := length l) in *. replace (w + 1 - Z.of_nat (length (dig :: l))) with (w - Z.of_nat k) by (cbn [length]; fold k; lia).
  assert (1 ≤ digit_width dig) by (unfold digit_width; repeat case_match; lia).
  assert (∀ j, 0 ≤ j → (ten ^ (4 * w + j) == inject_Z (10 ^ j * B k) * base ^ (w - Z.of_nat k))%Q) as Hj.
  { intros j Hj. rewrite inject_Z_mult, <- ten_Z, <- base_Z, base_ten by lia. rewrite base_ten, <- Qmult_assoc, <- !ten_plus.
    by replace (j + (4 * Z.of_nat k + 4 * (w - Z.of_nat k))) with (4 * w + j) by lia. }
  replace (4 * w + digit_width dig - 1) with (4 * w + (digit_width dig - 1)) by lia. rewrite !Hj by lia.
  split; [apply Qmult_le_r; [apply base_pos|]; rewrite <- Zle_Qle; nia|apply Qmult_lt_r; [apply base_pos|]; rewrite <- Zlt_Qlt; nia].
Qed.

Lemma typmod_loop_spec maxdigits l : Forall digit l → ∀ w,
  typmod_loop l ((w + 1) * DEC_DIGITS) maxdigits =
  if Qle_bool (ten ^ maxdigits) (inject_Z (num l) * base ^ (w + 1 - Z.of_nat (length l)))
  then Ereport ERRCODE_NUMERIC_VALUE_OUT_OF_RANGE else Ret tt.
Proof.
  induction 1 as [|dig l Hd Hl IH]; intros w.
  - cbn [typmod_loop]. rewrite num_nil. assert (Qle_bool (ten ^ maxdigits) (inject_Z 0 * base ^ (w + 1 - Z.of_nat (length (@nil Z)))) = false) as ->; [|done].
    apply not_true_iff_false. rewrite Qle_bool_iff, Qmult_0_l. intros H. pose proof (ten_pos maxdigits). lra.
  - cbn [typmod_loop]. destruct (Z.eqb_spec dig 0) as [-> |H0]; cbn [negb].
    + replace ((w + 1) * DEC_DIGITS - DEC_DIGITS) with ((w - 1 + 1) * DEC_DIGITS) by (unfold DEC_DIGITS; lia). rewrite IH.
      rewrite num_cons, Z.mul_0_l, Z.add_0_l. by replace (w - 1 + 1 - Z.of_nat (length l)) with (w + 1 - Z.of_nat (length (0%Z :: l))) by (cbn [length]; lia).
    + destruct (leading_magnitude dig l w Hd H0 Hl) as [M1 M2]. rewrite (magnitude_test _ _ _ M1 M2).
      replace (if dig <? 10 then (w + 1) * DEC_DIGITS - 3 else if dig <? 100 then (w + 1) * DEC_DIGITS - 2 else if dig <? 1000 then (w + 1) * DEC_DIGITS - 1 else (w + 1) * DEC_DIGITS)
        with (4 * w + digit_width dig) by (unfold digit_width, DEC_DIGITS; repeat case_match; lia).
      done.
Qed.

Lemma absval_upper v : var_ok v → (absval v < ten ^ ((nv_weight v + 1) * DEC_DIGITS))%Q.
Proof.
  intros Hv. pose proof (num_bound _ (vo_digits _ Hv)) as Hb. unfold absval, expo.
  replace ((nv_weight v + 1) * DEC_DIGITS) with (4 * (nv_weight v + 1)) by (unfold DEC_DIGITS; lia). rewrite <- base_ten.
  assert (base ^ (nv_weight v + 1) == inject_Z (B (length (nv_digits v))) * base ^ (nv_weight v + 1 - nv_ndigits v))%Q as ->.
  { rewrite <- base_Z, <- base_plus by lia. unfold nv_ndigits. by replace (Z.of_nat (length (nv_digits v)) + (nv_weight v + 1 - Z.of_nat (length (nv_digits v)))) with (nv_weight v + 1) by lia. }
  apply Qmult_lt_r; [apply base_pos|]. rewrite <- Zlt_Qlt. lia.
Qed.

(** ** Applying it *)

Lemma abs_value v : var_ok v → (Qabs (value v) == absval v)%Q.
Proof.
  intros Hv. pose proof (absval_nonneg v Hv) as Hn. rewrite value_eq. destruct (_ =? _); [rewrite Qabs_opp|]; by apply Qabs_pos.
Qed.

Lemma apply_typmod_spec v p s : var_ok v → nv_before v ≠ [] → 1 ≤ p ≤ NUMERIC_MAX_PRECISION → 0 ≤ s ≤ p →
  ∃ r, rounded_to v r round_units s ∧
    apply_typmod v (Z.lor (Z.shiftl p 16) s + VARHDRSZ) =
    if Qle_bool (ten ^ (p - s)) (absval r) then Ereport ERRCODE_NUMERIC_VALUE_OUT_OF_RANGE else Ret r.
Proof.
  intros Hv Hb Hp Hs. destruct (typmod_fields p s Hp Hs) as (F1 & F2 & F3). cbv zeta in F1, F2, F3. unfold apply_typmod.
  rewrite (proj2 (Z.ltb_ge _ _) F1), F2, F3. destruct (round_var_spec v s Hv Hb) as (r & Hr & Hto). exists r. split; [done|].
  rewrite Hr. cbn [mbind outcome_bind]. destruct Hto as (Hok & _). destruct (Z.ltb_spec (p - s) ((nv_weight r + 1) * DEC_DIGITS)) as [Hlt|Hge].
  - rewrite typmod_loop_spec by apply Hok. unfold absval, expo, nv_ndigits. by destruct (Qle_bool _ _).
  - cbn [mbind outcome_bind]. assert (Qle_bool (ten ^ (p - s)) (absval r) = false) as ->; [|done].
    apply not_true_iff_false. rewrite Qle_bool_iff. intros H. pose proof (absval_upper r Hok). pose proof (ten_le _ _ Hge). lra.
Qed.

(** A number within the limits of a declaration has a packed form. *)
Lemma number_packable w : number w → nv_dscale w ≤ NUMERIC_MAX_PRECISION → (absval w < ten ^ NUMERIC_MAX_PRECISION)%Q → packable w = true.
Proof.
  intros Hw Hs Ha. pose proof (number_digits w Hw) as Hnd. destruct Hw as [Hok (Hst & _ & Hz) Hd _]. unfold packable, NUMERIC_MAX_PRECISION in *.
  assert (- 2 ^ 15 ≤ nv_weight w < 2 ^ 15) as Hwt.
  { destruct (nv_digits w) as [|d l] eqn:El; [rewrite (proj1 (Hz eq_refl)); lia|].
    pose proof (vo_digits _ Hok) as Hdg. rewrite El in Hdg. apply Forall_cons in Hdg as [Hd1 Hd2].
    destruct (leading_magnitude d l (nv_weight w) Hd1 Hst Hd2) as [M1 _]. cbv zeta in M1.
    assert (absval w == inject_Z (num (d :: l)) * base ^ (nv_weight w + 1 - Z.of_nat (length (d :: l))))%Q as Ea by (unfold absval, expo, nv_ndigits; by rewrite El).
    rewrite <- Ea in M1. assert (1 ≤ digit_width d) by (unfold digit_width; repeat case_match; lia).
    split; [unfold nv_ndigits in Hnd; rewrite El in Hnd; cbn [length] in Hnd; lia|].
    destruct (decide (nv_weight w < 2 ^ 15)) as [|Hn]; [done|exfalso].
    pose proof (ten_le 1000 (4 * nv_weight w + digit_width d - 1) ltac:(lia)). lra. }
  apply andb_true_iff. split; [apply andb_true_iff; split; [apply Z.leb_le|apply Z.ltb_lt]; lia|]. apply Z.leb_le. unfold NUMERIC_DSCALE_MASK. lia.
Qed.

(** The outcome of storing [x] as a [numeric(p, s)]. *)
Definition declared (p s : Z) (x : Q) (r : outcome NumericData) : Prop :=
  let m := (inject_Z (Qfloor (Qabs x * ten ^ s + (1 # 2))) * ten ^ (- s))%Q in
  if Qle_bool (ten ^ (p - s)) m then r = Ereport ERRCODE_NUMERIC_VALUE_OUT_OF_RANGE
  else ∃ n v, r = Ret n ∧ packed n v ∧ (value v == if Qle_bool 0 x then m else - m)%Q ∧ nv_dscale v = s.

Lemma declared_intro p s x y r : 0 ≤ s ≤ p → p ≤ NUMERIC_MAX_PRECISION →
  let m := (inject_Z (Qfloor (Qabs x * ten ^ s + (1 # 2))) * ten ^ (- s))%Q in
  (y == if Qle_bool 0 x then m else - m)%Q →
  (if Qle_bool (ten ^ (p - s)) m then r = Ereport ERRCODE_NUMERIC_VALUE_OUT_OF_RANGE else packs r y s) → declared p s x r.
Proof.
  intros Hs Hp m Hy Hr. unfold declared. fold m. destruct (Qle_bool (ten ^ (p - s)) m) eqn:E; [done|].
  destruct Hr as (v & Hv & Hval & Hsc & Hr). assert (packable v = true) as Hpk.
  { apply number_packable; [done|lia|]. apply not_true_iff_false in E. rewrite Qle_bool_iff in E. apply Qnot_le_lt in E.
    rewrite <- abs_value by apply Hv. rewrite Hval, Hy. pose proof (ten_le (p - s) NUMERIC_MAX_PRECISION ltac:(lia)) as Hle.
    assert (Qabs (if Qle_bool 0 x then m else - m) == Qabs m)%Q as -> by (destruct (Qle_bool 0 x); [done|apply Qabs_opp]).
    rewrite Qabs_pos; [lra|]. unfold m. pose proof (ten_pos (- s)). apply Qmult_le_0_compat; [|lra]. change 0%Q with (inject_Z 0). rewrite <- Zle_Qle.
    pose proof (Qabs_nonneg x). pose proof (ten_pos s). change 0 with (Qfloor 0). apply Qfloor_resp_le.
    assert (0 <= Qabs x * ten ^ s)%Q by (apply Qmult_le_0_compat; lra). lra. }
  rewrite Hpk in Hr. destruct Hr as (n & -> & Hn). exists n, v. split; [done|]. split; [done|]. split; [by rewrite Hval|done].
Qed.

(** Through a variable. *)
Lemma apply_typmod_declared v p s x : var_ok v → nv_before v ≠ [] → (value v == x)%Q → 1 ≤ p ≤ NUMERIC_MAX_PRECISION → 0 ≤ s ≤ p →
  declared p s x (var ← apply_typmod v (Z.lor (Z.shiftl p 16) s + VARHDRSZ); make_result var).
Proof.
  intros Hv Hb Hx Hp Hs. destruct (apply_typmod_spec v p s Hv Hb Hp Hs) as (r & (R1 & R2 & R3 & R4) & Hrun).
  pose proof (abs_value v Hv) as Ha. pose proof (absval_nonneg v Hv) as Hn. rewrite Hx in Ha. unfold round_units in R3, R4. rewrite <- Ha in R3, R4.
  set (m := (inject_Z (Qfloor (Qabs x * ten ^ s + (1 # 2))) * ten ^ (- s))%Q) in *.
  assert (value r == if Qle_bool 0 x then m else - m)%Q as Hy.
  { rewrite R3. rewrite value_eq in Hx. unfold signed. destruct (nv_sign v =? NUMERIC_NEG) eqn:E.
    - destruct (Qle_bool 0 x) eqn:E0; [|done]. apply Qle_bool_iff in E0. assert (Qabs x == 0)%Q as E1 by lra.
      assert (m == 0)%Q as ->; [|done]. unfold m. rewrite E1, Qmult_0_l. change (Qfloor (0 + (1 # 2))) with 0. apply Qmult_0_l.
    - assert (Qle_bool 0 x = true) as ->; [|done]. apply Qle_bool_iff. lra. }
  apply (declared_intro p s x (value r)); [done|lia|done|]. fold m. rewrite Hrun.
  assert (Qle_bool (ten ^ (p - s)) (absval r) = Qle_bool (ten ^ (p - s)) m) as -> by (apply eq_true_iff_eq; rewrite !Qle_bool_iff; by rewrite R4).
  destruct (Qle_bool (ten ^ (p - s)) m); [done|]. cbn [mbind outcome_bind]. apply make_result_packs; [done|lia|].
  rewrite Hy. assert (of_scale m s) as Hm by apply of_scale_units. destruct (Qle_bool 0 x); [done|by apply of_scale_opp].
Qed.

(** In place: only the scale changes. *)
Lemma short_scale_land h s m : 0 ≤ s ≤ NUMERIC_SHORT_DSCALE_MAX →
  Z.land (uint16_of (Z.lor (Z.land h (Z.lnot NUMERIC_SHORT_DSCALE_MASK)) (Z.shiftl s NUMERIC_SHORT_DSCALE_SHIFT))) m =
  Z.lor (Z.land h (Z.land 0xE07F m)) (Z.land (Z.shiftl s 7) (Z.land 0x1F80 m)).
Proof.
  intros Hs. unfold wrap_u. rewrite <- (Z.land_ones _ 16) by lia. change NUMERIC_SHORT_DSCALE_SHIFT with 7.
  assert (Z.shiftl s 7 = Z.land (Z.shiftl s 7) 0x1F80) as E.
  { change 0x1F80 with (Z.shiftl (Z.ones 6) 7). rewrite <- Z.shiftl_land, Z.land_ones by lia.
    rewrite Z.mod_small; [done|]. change NUMERIC_SHORT_DSCALE_MAX with 63 in Hs. lia. }
  rewrite E at 1. rewrite !Z.land_lor_distr_l, <- !Z.land_assoc, !(Z.land_assoc _ (Z.ones 16) m). done.
Qed.

Lemma short_scale_decodes n l w sg ds s : decodes n l w sg ds → NUMERIC_IS_SHORT n = true → 0 ≤ s ≤ NUMERIC_SHORT_DSCALE_MAX →
  decodes (mkNumeric (uint16_of (Z.lor (Z.land (n_header n) (Z.lnot NUMERIC_SHORT_DSCALE_MASK)) (Z.shiftl s NUMERIC_SHORT_DSCALE_SHIFT))) (n_words n)) l w sg s.
Proof.
  intros (D1 & D2 & D3 & D4 & D5 & D6) Hsh Hs. set (n' := mkNumeric _ _).
  assert (∀ m, Z.land 0xE07F m = m → Z.land 0x1F80 m = 0 → Z.land (n_header n') m = Z.land (n_header n) m) as Hm.
  { intros m E1 E2. unfold n'. cbn [n_header]. by rewrite short_scale_land, E1, E2, Z.land_0_r, Z.lor_0_r. }
  assert (NUMERIC_FLAGBITS n' = NUMERIC_FLAGBITS n) as Hf by (by apply Hm).
  unfold decodes. unfold NUMERIC_NDIGITS, header_words, NUMERIC_DIGITS, NUMERIC_WEIGHT, NUMERIC_SIGN, NUMERIC_DSCALE, NUMERIC_IS_NAN, NUMERIC_IS_SHORT in *.
  rewrite Hf, Hsh in *. rewrite !Hm by done. change (n_words n') with (n_words n). do 4 (split; [done|]). split; [|done].
  unfold n'. cbn [n_header]. rewrite short_scale_land by done. change (Z.land 0xE07F NUMERIC_SHORT_DSCALE_MASK) with 0.
  rewrite Z.land_0_r, Z.lor_0_l. change (Z.land 0x1F80 NUMERIC_SHORT_DSCALE_MASK) with (Z.shiftl (Z.ones 6) 7).
  rewrite <- Z.shiftl_land, Z.land_ones, Z.mod_small by (change NUMERIC_SHORT_DSCALE_MAX with 63 in *; lia).
  by rewrite Z.shiftr_shiftl_l, Z.shiftl_0_r by (unfold NUMERIC_SHORT_DSCALE_SHIFT; lia).
Qed.

Lemma long_scale_decodes n l w sg ds s : decodes n l w sg ds → sg = NUMERIC_POS ∨ sg = NUMERIC_NEG → NUMERIC_IS_SHORT n = false →
  0 ≤ s ≤ NUMERIC_DSCALE_MASK →
  decodes (mkNumeric (uint16_of (Z.lor (NUMERIC_SIGN n) (Z.land (uint16_of s) NUMERIC_DSCALE_MASK))) (n_words n)) l w sg s.
Proof.
  intros (D1 & D2 & D3 & D4 & D5 & D6) Hsg Hsh Hs. change NUMERIC_DSCALE_MASK with 0x3FFF in Hs.
  rewrite D4. assert (uint16_of s = s) as -> by (apply wrap_u_small; unfold is_uint; lia). change (uint16_of (Z.lor sg (Z.land s NUMERIC_DSCALE_MASK))) with (long_header sg s).
  assert (n_words n = w :: l) as ->.
  { unfold NUMERIC_WEIGHT, NUMERIC_DIGITS in *. rewrite Hsh in *. destruct (n_words n) as [|w' l']; [done|]. injection D3 as ->. cbn [drop] in D2. rewrite drop_0 in D2. by rewrite D2. }
  assert (Z.land s NUMERIC_DSCALE_MASK = s) as E.
  { change NUMERIC_DSCALE_MASK with (Z.ones 14). rewrite Z.land_ones by lia. apply Z.mod_small. lia. }
  rewrite <- E at 2. by apply long_decodes.
Qed.

Lemma numeric_in_place n v p s : packed n v → 1 ≤ p ≤ NUMERIC_MAX_PRECISION → 0 ≤ s ≤ p →
  (nv_weight v + 1) * DEC_DIGITS ≤ p - s → nv_dscale v ≤ s → NUMERIC_CAN_BE_SHORT s (nv_weight v) || negb (NUMERIC_IS_SHORT n) = true →
  packs (numeric n (Z.lor (Z.shiftl p 16) s + VARHDRSZ)) (value v) s ∧ of_scale (absval v) s.
Proof.
  intros [Hdec [Hok Hst Hds Hcov] Hpk] Hp Hs Hw Hsc Hsh. destruct (typmod_fields p s Hp Hs) as (F1 & F2 & F3). cbv zeta in F1, F2, F3.
  split; [|apply of_scale_abs, (of_scale_le _ (nv_dscale v)); [lia|done]].
  unfold numeric. pose proof Hdec as (D1 & D2 & D3 & D4 & D5 & D6). rewrite D6, (proj2 (Z.ltb_ge _ _) F1), F2, F3, D3. cbn [mbind outcome_bind].
  rewrite D5, Hsh, (proj2 (Z.leb_le _ _) Hw), (proj2 (Z.leb_le _ _) Hsc). cbn [andb].
  set (v' := set_dscale s v). assert (number v') as Hn.
  { split; [by destruct Hok|done|cbn [nv_dscale set_dscale v']; lia|]. change (value v') with (value v). apply (of_scale_le _ (nv_dscale v)); [done|done]. }
  assert (packable v' = true) as Hpk'.
  { unfold packable in *. cbn [nv_weight nv_dscale set_dscale v']. apply andb_true_iff in Hpk as [-> _]. apply Z.leb_le. unfold NUMERIC_DSCALE_MASK, NUMERIC_MAX_PRECISION in *. lia. }
  exists v'. split; [done|]. split; [done|]. split; [done|]. rewrite Hpk'. eexists. split; [done|]. split; [|done|done].
  cbn [nv_digits nv_weight nv_sign nv_dscale set_dscale v']. destruct (NUMERIC_IS_SHORT n) eqn:Es.
  - apply (short_scale_decodes n _ _ _ (nv_dscale v)); [done|done|]. rewrite orb_false_r in Hsh. unfold NUMERIC_CAN_BE_SHORT in Hsh.
    apply andb_true_iff in Hsh as [[H%Z.leb_le _]%andb_true_iff _]. lia.
  - apply (long_scale_decodes n _ _ _ (nv_dscale v)); [done|apply Hok|done|]. unfold NUMERIC_DSCALE_MASK, NUMERIC_MAX_PRECISION in *. lia.
Qed.

Lemma numeric_declared n v p s : packed n v → 1 ≤ p ≤ NUMERIC_MAX_PRECISION → 0 ≤ s ≤ p →
  declared p s (value v) (numeric n (Z.lor (Z.shiftl p 16) s + VARHDRSZ)).
Proof.
  intros H Hp Hs. destruct (((nv_weight v + 1) * DEC_DIGITS <=? p - s) && (nv_dscale v <=? s) && (NUMERIC_CAN_BE_SHORT s (nv_weight v) || negb (NUMERIC_IS_SHORT n))) eqn:E.
  - apply andb_true_iff in E as [[E1%Z.leb_le E2%Z.leb_le]%andb_true_iff E3].
    destruct (numeric_in_place n v p s H Hp Hs E1 E2 E3) as [Hpacks Hcov]. pose proof (nm_ok _ (pk_number _ _ H)) as Hok.
    pose proof (of_scale_round _ _ Hcov) as Hround. unfold round_units in Hround. pose proof (abs_value v Hok) as Ha. 
    assert (Qfloor (absval v * ten ^ s + (1 # 2)) = Qfloor (Qabs (value v) * ten ^ s + (1 # 2))) as Ef by (apply Qfloor_comp; by rewrite Ha).
    rewrite Ef in Hround.
    set (m := (inject_Z (Qfloor (Qabs (value v) * ten ^ s + (1 # 2))) * ten ^ (- s))%Q) in *.
    apply (declared_intro p s _ (value v)); [done|lia| |]; fold m.
    + destruct (Qle_bool 0 (value v)) eqn:E0; rewrite Hround, <- Ha.
      * apply Qle_bool_iff in E0. symmetry. by apply Qabs_pos.
      * apply not_true_iff_false in E0. rewrite Qle_bool_iff in E0. apply Qnot_le_lt, Qlt_le_weak in E0. rewrite (Qabs_neg _ E0). ring.
    + assert (Qle_bool (ten ^ (p - s)) m = false) as ->; [|done]. apply not_true_iff_false. rewrite Qle_bool_iff, Hround. intros Hle.
      pose proof (absval_upper v Hok). pose proof (ten_le _ _ E1). lra.
  - destruct (typmod_fields p s Hp Hs) as (F1 & F2 & F3). cbv zeta in F1, F2, F3. destruct (set_var_from_num_spec n v H) as [Hset Hnan].
    pose proof (pk_decodes _ _ H) as (_ & _ & D3 & _ & D5 & _). unfold numeric. rewrite Hnan, (proj2 (Z.ltb_ge _ _) F1), F2, F3, D3. cbn [mbind outcome_bind].
    rewrite D5, E, Hset. cbn [mbind outcome_bind]. apply apply_typmod_declared; try done. apply copy_ok, (nm_ok _ (pk_number _ _ H)).
Qed.

(** C19: storing a packed number in a column that is declared [numeric(p, s)], and reading a text into it, rounds to [s] digits behind
    the decimal point, halves away from zero, and yields a packed number of scale [s] unless [p - s] digits before
    the point are not enough for the rounded value, which is reported.  This holds on the path that changes
    the scale of the packed number in place as on the one through a variable. *)
Theorem numeric_typmod_correct p s typmod : numerictypmodin [p; s] = Ret typmod →
  (∀ n v, packed n v → declared p s (value v) (numeric n typmod)) ∧
  (∀ str neg ip fp e, number_text str neg ip fp e → declared p s (text_value_of neg ip fp e) (numeric_in str typmod)).
Proof.
  intros H. apply numerictypmodin_inv in H as (Hp & Hs & ->). split; [intros n v Hn; by apply numeric_declared|].
  intros str neg ip fp e (sp1 & sg & body & et & sp2 & -> & H1 & H2 & H3 & H4 & H5).
  destruct (numeric_in_var sp1 sg neg body ip fp et e sp2 (Z.lor (Z.shiftl p 16) s + VARHDRSZ) H1 H2 H3 H4 H5) as (v & Hb & (Hv & Hx & _) & ->).
  by apply apply_typmod_declared.
Qed.

(** [-2.25] as [numeric(5, 1)] and [numeric(1, 1)], [1.5] as [numeric(8, 3)]. *)
Lemma numeric_typmod_correct_witness :
  declared 5 1 (value var_b) (numeric num_b 327685) ∧ numeric num_b 327685 = Ret (mkNumeric 0xA080 [2; 3000]) ∧
  numeric num_b 65541 = Ereport ERRCODE_NUMERIC_VALUE_OUT_OF_RANGE ∧ numeric num_a 524295 = Ret (mkNumeric 0x8180 [1; 5000]).
Proof.
  split; [|repeat split; reflexivity]. exact (proj1 (numeric_typmod_correct 5 1 327685 eq_refl) num_b var_b packed_b).
Defined.
