(* ===== verification/NumericHash.v ===== *)
(** * NumericHash: [backend/utils/adt/numeric.c], hashing

    [hash_numeric] on packed numbers, over [hash_any] of [HashFunc], and the two functions that choose between numbers.  Numbers of the
    same value have the same hash, whatever their scale, their format and the alignment
    of their digits. *)

From Stdlib Require Import QArith Qpower Qabs Lqa.
From S2P Require Import Prelude HashFunc Int IntText PqFormat Numeric NumericSpec NumericMul NumericOps NumericConv NumericText.
Open Scope Z_scope.

(** The zeroes before the first other digit. *)
Fixpoint zeros (digits : list Z) : Z :=
  match digits with
  | d :: digits' => if negb (d =? 0) then 0 else 1 + zeros digits'
  | [] => 0
  end.

(** The result is a [Datum] of 64 bits; the weight is converted to it. *)
Definition hash_numeric (be aligned : bool) (key : NumericData) : outcome Z :=
  if NUMERIC_IS_NAN key then Ret 0 else
  weight ← NUMERIC_WEIGHT key;
  let digits := NUMERIC_DIGITS key in
  let start_offset := zeros digits in
  let weight := weight - start_offset in
  if NUMERIC_NDIGITS key =? start_offset then Ret (uint32_of (-1)) else
  let end_offset := zeros (rev digits) in
  if negb (start_offset + end_offset <? NUMERIC_NDIGITS key) then UB else
  let hash_len := NUMERIC_NDIGITS key - start_offset - end_offset in
  digit_hash ← hash_any be aligned (mjoin (mem_bytes be 2 <$> (uint16_of <$> drop (Z.to_nat start_offset) digits))) (hash_len * 2);
  Ret (Z.lxor digit_hash (wrap_u 64 weight)).

Definition numeric_smaller (num1 num2 : NumericData) : outcome NumericData :=
  c ← cmp_numerics num1 num2; Ret (if c <? 0 then num1 else num2).
Definition numeric_larger (num1 num2 : NumericData) : outcome NumericData :=
  c ← cmp_numerics num1 num2; Ret (if 0 <? c then num1 else num2).

(** ** The digits that are hashed *)

Lemma zeros_replicate z l : zeros (replicate z 0 ++ l) = Z.of_nat z + zeros l.
Proof. induction z as [|z IH]; [done|]. cbn [replicate app zeros]. change (0 =? 0) with true. cbn [negb]. rewrite IH. lia. Qed.

Lemma zeros_nonzero l x : starts_nonzero l → l ≠ [] → zeros (l ++ x) = 0.
Proof. intros Hs Hne. destruct l as [|d l]; [done|]. cbn [app zeros]. by rewrite (proj2 (Z.eqb_neq d 0)). Qed.

(** The stored parts of a number, with or without zeroes at its ends. *)
Record stored (n : NumericData) (v : NumericVar) : Prop := {
  st_decodes : decodes n (nv_digits v) (nv_weight v) (nv_sign v) (nv_dscale v);
  st_ok : var_ok v;
  st_length : Z.of_nat (length (nv_digits v)) < 2 ^ 31 }.

Lemma digit_bytes_length be l : Z.of_nat (length (mjoin (mem_bytes be 2 <$> (uint16_of <$> l)))) = Z.of_nat (length l) * 2.
Proof.
  induction l as [|d l IH]; [done|]. rewrite !fmap_cons. change (mjoin (?a :: ?b)) with (a ++ mjoin b). rewrite length_app, length_mem_bytes.
  cbn [length]. lia.
Qed.

(** The hash depends on the digits and the weight that are left without the zeroes. *)
Lemma hash_numeric_strip be al n v : stored n v →
  let s := strip_var v in
  hash_numeric be al n =
  match nv_digits s with
  | [] => Ret (uint32_of (-1))
  | _ => h ← hash_any be al (mjoin (mem_bytes be 2 <$> (uint16_of <$> nv_digits s))) (nv_ndigits s * 2); Ret (Z.lxor h (wrap_u 64 (nv_weight s)))
  end.
Proof.
  intros [(D1 & D2 & D3 & _ & _ & D6) Hok Hlen]. cbv zeta. unfold hash_numeric. rewrite D6, D1, D2, D3. cbn [mbind outcome_bind].
  destruct (strip_spec (nv_digits v)) as (z1 & z2 & rest & E & Hn1 & Hn2 & Hstrip). destruct (Hstrip (nv_before v) (nv_weight v)) as [E1 E2].
  unfold strip_var. rewrite E1, E2. set (l := nv_digits v) in *.
  assert (rev l = replicate z2 0 ++ rev rest ++ replicate z1 0) as Er by (rewrite E; by rewrite !rev_app_distr, !rev_replicate, <- app_assoc).
  assert (Z.of_nat (length l) = Z.of_nat z1 + Z.of_nat (length rest) + Z.of_nat z2) as Hl by (rewrite E, !length_app, !length_replicate; lia).
  destruct (decide (rest = [])) as [-> |Hne].
  { rewrite Hl, E. cbn [app]. rewrite zeros_replicate, <- (app_nil_r (replicate z2 0)), zeros_replicate. cbn [zeros length nv_digits].
    by rewrite (proj2 (Z.eqb_eq _ _)) by lia. }
  assert (zeros l = Z.of_nat z1) as Z1 by (rewrite E, zeros_replicate, zeros_nonzero by done; lia).
  assert (zeros (rev l) = Z.of_nat z2) as Z2.
  { rewrite Er, zeros_replicate, zeros_nonzero; [lia|done|]. intros E0. apply Hne. by rewrite <- (rev_involutive rest), E0. }
  rewrite Z1, Z2, Hl. rewrite (proj2 (Z.eqb_neq _ _)) by (destruct rest; [done|cbn [length]; lia]).
  rewrite (proj2 (Z.ltb_lt _ _)) by (destruct rest; [done|cbn [length]; lia]). cbn [negb].
  assert (drop (Z.to_nat (Z.of_nat z1)) l = rest ++ replicate z2 0) as ->.
  { rewrite Nat2Z.id, E. rewrite <- (length_replicate z1 0) at 1. apply drop_app_length. }
  rewrite !fmap_app, join_app. set (bytes := mjoin (mem_bytes be 2 <$> (uint16_of <$> rest))).
  assert (Z.of_nat (length bytes) = Z.of_nat (length rest) * 2) as Hbytes by apply digit_bytes_length.
  replace ((Z.of_nat z1 + Z.of_nat (length rest) + Z.of_nat z2 - Z.of_nat z1 - Z.of_nat z2) * 2) with (Z.of_nat (length bytes)) by lia.
  rewrite hash_any_prefix by lia. destruct rest as [|d rest]; [done|]. cbn [nv_digits nv_weight]. unfold nv_ndigits. cbn [nv_digits]. by rewrite <- Hbytes.
Qed.

Lemma packed_stored n v : packed n v → Z.of_nat (length (nv_digits v)) < 2 ^ 31 → stored n v.
Proof. intros [H1 H2 _] Hl. split; [done|apply H2|done]. Qed.

Lemma hash_numeric_value be n1 n2 v1 v2 : stored n1 v1 → stored n2 v2 → (value v1 == value v2)%Q →
  ∃ h, is_uint 64 h ∧ ∀ aligned, hash_numeric be aligned n1 = Ret h ∧ hash_numeric be aligned n2 = Ret h.
Proof.
  intros H1 H2 E. destruct (strip_var_spec v1 (st_ok _ _ H1)) as (A1 & A2 & _ & A3 & _ & _ & A4).
  destruct (strip_var_spec v2 (st_ok _ _ H2)) as (B1 & B2 & _ & B3 & _). rewrite <- A3, <- B3 in E.
  destruct (stripped_unique _ _ A1 B1 A2 B2 E) as (Ed & Ew & _).
  assert (∃ h, is_uint 64 h ∧ ∀ aligned, hash_numeric be aligned n1 = Ret h) as (h & Hh & Hall).
  { destruct (nv_digits (strip_var v1)) as [|d l] eqn:El.
    - exists (uint32_of (-1)). split; [done|]. intros al. by rewrite (hash_numeric_strip be al n1 v1 H1), El.
    - destruct (hash_any_agree be (mjoin (mem_bytes be 2 <$> (uint16_of <$> (d :: l)))) (mjoin (mem_bytes be 2 <$> (uint16_of <$> (d :: l)))) (nv_ndigits (strip_var v1) * 2)) as (h & Hh & Ht & Hf).
      { apply agree_refl. rewrite digit_bytes_length. unfold nv_ndigits. rewrite El. lia. }
      { pose proof (st_length _ _ H1). unfold nv_ndigits. rewrite El. lia. }
      exists (Z.lxor h (wrap_u 64 (nv_weight (strip_var v1)))). split.
      { apply is_uint_lxor; [lia|unfold is_uint in *; lia|apply wrap_u_bound; lia]. }
      intros al. rewrite (hash_numeric_strip be al n1 v1 H1), El. by destruct al; [rewrite Ht|rewrite Hf]. }
  exists h. split; [done|]. intros al. split; [done|]. rewrite <- (Hall al), (hash_numeric_strip be al n1 v1 H1), (hash_numeric_strip be al n2 v2 H2).
  unfold nv_ndigits. by rewrite Ed, Ew.
Qed.

(** C20: numbers of the same value have the same hash, whatever their scales, their formats, the zeroes at their ends and the alignment of
    their digits; so packed numbers that [numeric_eq] finds equal, not-a-number included, fall into
    the same hash bucket. *)
Theorem hash_numeric_respects_equality be n1 n2 v1 v2 : stored n1 v1 → stored n2 v2 →
  ((value v1 == value v2)%Q → ∃ h, is_uint 64 h ∧ ∀ aligned, hash_numeric be aligned n1 = Ret h ∧ hash_numeric be aligned n2 = Ret h) ∧
  (packed n1 v1 → packed n2 v2 → numeric_eq n1 n2 = Ret true → ∀ al1 al2, hash_numeric be al1 n1 = hash_numeric be al2 n2) ∧
  (∀ k1 k2 al1 al2, NUMERIC_IS_NAN k1 = true → NUMERIC_IS_NAN k2 = true → hash_numeric be al1 k1 = hash_numeric be al2 k2).
Proof.
  intros H1 H2. split; [by apply hash_numeric_value|]. split.
  - intros P1 P2 E al1 al2. unfold numeric_eq in E. rewrite (cmp_numerics_packed n1 n2 v1 v2 P1 P2) in E. cbn [mbind outcome_bind] in E.
    injection E as E. rewrite cmp_eq in E. apply Qeq_bool_iff in E. destruct (hash_numeric_value be n1 n2 v1 v2 H1 H2 E) as (h & _ & Hh).
    by rewrite (proj1 (Hh al1)), (proj2 (Hh al2)).
  - intros k1 k2 al1 al2 E1 E2. unfold hash_numeric. by rewrite E1, E2.
Qed.

(** [1.5] and [1.50], the latter in the long format with a digit that is zero. *)
Lemma hash_numeric_respects_equality_witness :
  (∃ h, is_uint 64 h ∧ ∀ aligned, hash_numeric false aligned num_a = Ret h ∧ hash_numeric false aligned (mkNumeric 0x0002 [0; 1; 5000; 0]) = Ret h) ∧
  num_a = mkNumeric 0x8080 [1; 5000].
Proof.
  split; [|reflexivity]. apply (proj1 (hash_numeric_respects_equality false num_a (mkNumeric 0x0002 [0; 1; 5000; 0]) var_a (mkVar [] [1; 5000; 0] 0 NUMERIC_POS 2)
    (packed_stored _ _ packed_a eq_refl) ltac:(split; [repeat split|split; [repeat constructor; unfold digit, NBASE; lia|constructor|by left]|reflexivity]))).
  reflexivity.
Defined.
