(* ===== verification/NumericWire.v ===== *)
(** * NumericWire: [backend/utils/adt/numeric.c], the binary format

    [numeric_send] and [numeric_recv] over the messages of [PqFormat].  What is sent is read back, unless it has too many digits for the
    receiver; what is received need not be a number whose scale covers its digits. *)

From Stdlib Require Import QArith Qpower Qabs Lqa.
From S2P Require Import Prelude HashFunc Int IntText PqFormat Numeric NumericSpec NumericMul NumericOps NumericConv NumericText.
Open Scope Z_scope.

(** ** The functions *)

Fixpoint send_digits (digits : list Z) (buf : StringInfoData) : outcome StringInfoData :=
  match digits with
  | [] => Ret buf
  | d :: digits' => buf ← pq_sendint buf d 2; send_digits digits' buf
  end.
Definition numeric_send (num : NumericData) : outcome (list Z) :=
  x ← set_var_from_num num;
  let buf := pq_begintypsend in
  buf ← pq_sendint buf (nv_ndigits x) 2;
  buf ← pq_sendint buf (nv_weight x) 2;
  buf ← pq_sendint buf (nv_sign x) 2;
  buf ← pq_sendint buf (nv_dscale x) 2;
  buf ← send_digits (nv_digits x) buf;
  pq_endtypsend buf.

Fixpoint recv_digits (len : nat) (buf : StringInfoData) : outcome (list Z * StringInfoData) :=
  match len with
  | O => Ret ([], buf)
  | S len' =>
      '(d, buf) ← pq_getmsgint buf 2;
      let d := int16_of d in
      if (d <? 0) || (NBASE <=? d) then Ereport ERRCODE_INVALID_BINARY_REPRESENTATION else
      '(digits, buf) ← recv_digits len' buf;
      Ret (d :: digits, buf)
  end.
Definition numeric_recv (buf : StringInfoData) (typmod : Z) : outcome (NumericData * StringInfoData) :=
  '(len, buf) ← pq_getmsgint buf 2;
  let len := uint16_of len in
  if (len <? 0) || (NUMERIC_MAX_PRECISION + NUMERIC_MAX_RESULT_SCALE <? len) then Ereport ERRCODE_INVALID_BINARY_REPRESENTATION else
  '(weight, buf) ← pq_getmsgint buf 2;
  let weight := int16_of weight in
  '(sign, buf) ← pq_getmsgint buf 2;
  let sign := uint16_of sign in
  if negb ((sign =? NUMERIC_POS) || (sign =? NUMERIC_NEG) || (sign =? NUMERIC_NAN)) then Ereport ERRCODE_INVALID_BINARY_REPRESENTATION else
  '(dscale, buf) ← pq_getmsgint buf 2;
  let dscale := uint16_of dscale in
  '(digits, buf) ← recv_digits (Z.to_nat len) buf;
  value ← apply_typmod (alloc_var digits weight sign dscale) typmod;
  res ← make_result value;
  Ret (res, buf).

(** ** Reading fields *)

(** [rest] is what is left of the message. *)
Definition left_of (msg : StringInfoData) (rest : list Z) : Prop :=
  ∃ pre, si_data msg = pre ++ rest ∧ si_cursor msg = Z.of_nat (length pre).

Lemma read_field msg w rest : is_uint 16 w → left_of msg (net_bytes 2 w ++ rest) →
  ∃ msg', pq_getmsgint msg 2 = Ret (w, msg') ∧ left_of msg' rest ∧ si_data msg' = si_data msg.
Proof.
  intros Hw (pre & Hd & Hc). exists (mkSI (si_data msg) (Z.of_nat (length pre) + 2)). destruct msg as [data cursor]. cbn [si_data si_cursor] in *. subst.
  split; [by apply (pq_getmsgint_field 2); [auto|]|]. split; [|done]. exists (pre ++ net_bytes 2 w). cbn [si_data si_cursor].
  split; [by rewrite <- app_assoc|]. rewrite length_app, net_bytes_length. lia.
Qed.

Definition digit_fields (l : list Z) : list Z := mjoin ((λ d, net_bytes 2 (uint16_of d)) <$> l).

Lemma digit_field d : digit d → int16_of (uint16_of d) = d ∧ (d <? 0) || (NBASE <=? d) = false.
Proof.
  intros Hd. unfold digit in Hd. rewrite wrap_s_mod, wrap_s_small by (unfold is_sint, NBASE in *; lia). split; [done|].
  apply orb_false_iff. rewrite Z.ltb_ge, Z.leb_gt. lia.
Qed.

Lemma recv_digits_spec l : Forall digit l → ∀ msg rest, left_of msg (digit_fields l ++ rest) →
  ∃ msg', recv_digits (length l) msg = Ret (l, msg') ∧ left_of msg' rest ∧ si_data msg' = si_data msg.
Proof.
  induction 1 as [|d l Hd _ IH]; intros msg rest Hl; [by exists msg|]. cbn [length recv_digits].
  change (digit_fields (d :: l)) with (net_bytes 2 (uint16_of d) ++ digit_fields l) in Hl. rewrite <- app_assoc in Hl.
  destruct (read_field msg _ _ (wrap_u_bound 16 d ltac:(lia)) Hl) as (msg1 & -> & H1 & E1). cbn [mbind outcome_bind].
  destruct (digit_field d Hd) as [-> ->]. destruct (IH msg1 rest H1) as (msg2 & -> & H2 & E2). cbn [mbind outcome_bind].
  exists msg2. split; [done|]. split; [done|]. by rewrite E2.
Qed.

Lemma send_digits_spec l : ∀ buf, send_digits l buf = Ret (appendBinaryStringInfo buf (digit_fields l)).
Proof.
  induction l as [|d l IH]; intros [data c]; [unfold appendBinaryStringInfo; cbn [si_data si_cursor]; by rewrite (app_nil_r data : data ++ digit_fields [] = data)|]. cbn [send_digits pq_sendint Z.eqb Pos.eqb mbind outcome_bind]. rewrite IH.
  unfold appendBinaryStringInfo. cbn [si_data si_cursor]. by rewrite <- app_assoc.
Qed.

(** The message of a packed number. *)
Definition wire_form (v : NumericVar) : list Z :=
  net_bytes 2 (uint16_of (nv_ndigits v)) ++ net_bytes 2 (uint16_of (nv_weight v)) ++ net_bytes 2 (uint16_of (nv_sign v)) ++
  net_bytes 2 (uint16_of (nv_dscale v)) ++ digit_fields (nv_digits v).

Lemma numeric_send_spec n v : packed n v → numeric_send n = Ret (wire_form v).
Proof.
  intros H. unfold numeric_send. rewrite (proj1 (set_var_from_num_spec n v H)).
  cbn [mbind outcome_bind pq_sendint Z.eqb Pos.eqb]. rewrite send_digits_spec. cbn [mbind outcome_bind]. unfold pq_endtypsend, si_len.
  rewrite (proj2 (Z.ltb_ge _ _)); [done|]. unfold appendBinaryStringInfo. cbn [si_data]. rewrite !length_app, !net_bytes_length. cbn [length]. unfold VARHDRSZ. lia.
Qed.

(** Packed numbers have fewer digits than the field can hold. *)
Lemma packed_ndigits n v : packed n v → nv_ndigits v < 2 ^ 16.
Proof.
  intros [_ Hn Hp]. pose proof (number_digits v Hn). unfold packable, NUMERIC_DSCALE_MASK in Hp.
  apply andb_true_iff in Hp as [[H1%Z.leb_le H2%Z.ltb_lt]%andb_true_iff H3%Z.leb_le]. lia.
Qed.

Lemma packed_fields n v : packed n v → int16_of (uint16_of (nv_weight v)) = nv_weight v ∧ uint16_of (uint16_of (nv_sign v)) = nv_sign v ∧
  uint16_of (uint16_of (nv_dscale v)) = nv_dscale v ∧ negb ((nv_sign v =? NUMERIC_POS) || (nv_sign v =? NUMERIC_NEG) || (nv_sign v =? NUMERIC_NAN)) = false.
Proof.
  intros [_ [Hok _ Hd _] Hp]. unfold packable, NUMERIC_DSCALE_MASK in Hp. apply andb_true_iff in Hp as [[H1%Z.leb_le H2%Z.ltb_lt]%andb_true_iff H3%Z.leb_le].
  rewrite wrap_s_mod, wrap_s_small, !wrap_u_wrap_u, (wrap_u_small 16 (nv_dscale v)) by (unfold is_sint, is_uint; lia).
  by destruct (vo_sign _ Hok) as [-> | ->].
Qed.

Lemma numeric_recv_sent n v msg rest : packed n v → left_of msg (wire_form v ++ rest) →
  if nv_ndigits v <=? 3000
  then ∃ n' msg', numeric_recv msg (-1) = Ret (n', msg') ∧ packed n' v ∧ left_of msg' rest ∧ si_data msg' = si_data msg
  else numeric_recv msg (-1) = Ereport ERRCODE_INVALID_BINARY_REPRESENTATION.
Proof.
  intros H Hl. unfold wire_form in Hl. rewrite <- !app_assoc in Hl. unfold numeric_recv.
  assert (is_uint 16 (nv_ndigits v)) as Hnd by (split; [unfold nv_ndigits; lia|by apply (packed_ndigits n)]).
  assert (∀ x, is_uint 16 (uint16_of x)) as Hw by (intros x; apply wrap_u_bound; lia).
  destruct (read_field msg _ _ (Hw _) Hl) as (msg1 & -> & H1 & E1). cbn [mbind outcome_bind]. rewrite !(wrap_u_small 16 (nv_ndigits v)) by done.
  rewrite (proj2 (Z.ltb_ge (nv_ndigits v) 0)) by apply Hnd. cbn [orb]. change (NUMERIC_MAX_PRECISION + NUMERIC_MAX_RESULT_SCALE) with 3000.
  rewrite (Z.ltb_antisym (nv_ndigits v)). destruct (nv_ndigits v <=? 3000); [cbn [negb]|done].
  destruct (packed_fields n v H) as (F1 & F2 & F3 & F4).
  destruct (read_field msg1 _ _ (Hw _) H1) as (msg2 & -> & H2 & E2). cbn [mbind outcome_bind]. rewrite F1.
  destruct (read_field msg2 _ _ (Hw _) H2) as (msg3 & -> & H3 & E3). cbn [mbind outcome_bind]. rewrite F2, F4.
  destruct (read_field msg3 _ _ (Hw _) H3) as (msg4 & -> & H4 & E4). cbn [mbind outcome_bind]. rewrite F3.
  pose proof (pk_number _ _ H) as [Hok Hst Hds Hcov].
  destruct (recv_digits_spec (nv_digits v) (vo_digits _ Hok) msg4 rest H4) as (msg5 & Hr & H5 & E5). unfold nv_ndigits. rewrite Nat2Z.id, Hr. cbn [mbind outcome_bind].
  change (apply_typmod ?x (-1)) with (@Ret NumericVar x). cbn [mbind outcome_bind]. fold (set_var_from_var v).
  destruct (packs_same (make_result (set_var_from_var v)) n v H) as (n' & -> & Hn').
  { apply make_result_packs; [split; [by apply copy_ok|done]|done|done]. }
  cbn [mbind outcome_bind]. exists n', msg5. split; [done|]. split; [done|]. split; [done|]. by rewrite E5, E4, E3, E2, E1.
Qed.

(** C21: a packed number that is sent in binary format, wherever it stands in a message, is read back as a packed form of the same digits, weight, sign and
    scale, and the cursor is left behind it, if it has at most 3000 digits of base 10000; with more, although it is a number like any other, the receiver
    reports its length. *)
Theorem numeric_wire_roundtrip n v : packed n v → ∃ bytes, numeric_send n = Ret bytes ∧
  ∀ pre rest, let data := pre ++ bytes ++ rest in let msg := mkSI data (Z.of_nat (length pre)) in
  if nv_ndigits v <=? 3000
  then ∃ n', numeric_recv msg (-1) = Ret (n', mkSI data (Z.of_nat (length (pre ++ bytes)))) ∧ packed n' v
  else numeric_recv msg (-1) = Ereport ERRCODE_INVALID_BINARY_REPRESENTATION.
Proof.
  intros H. exists (wire_form v). split; [by apply numeric_send_spec|]. intros pre rest data msg.
  pose proof (numeric_recv_sent n v msg rest H ltac:(by exists pre)) as Hr. destruct (nv_ndigits v <=? 3000); [|done].
  destruct Hr as (n' & [data' c'] & -> & Hn' & (pre' & Hd & Hc) & E). exists n'. split; [|done]. cbn [si_data si_cursor msg] in Hd, Hc, E. rewrite E in Hd. rewrite E, Hc. do 4 f_equal.
  apply (f_equal (@length Z)) in Hd. unfold data in Hd. rewrite !length_app in *. lia.
Qed.

Lemma numeric_wire_roundtrip_witness :
  (∃ bytes, numeric_send num_b = Ret bytes ∧
     ∀ pre rest, let data := pre ++ bytes ++ rest in let msg := mkSI data (Z.of_nat (length pre)) in
     if nv_ndigits var_b <=? 3000
     then ∃ n', numeric_recv msg (-1) = Ret (n', mkSI data (Z.of_nat (length (pre ++ bytes)))) ∧ packed n' var_b
     else numeric_recv msg (-1) = Ereport ERRCODE_INVALID_BINARY_REPRESENTATION) ∧
  numeric_send num_b = Ret [0; 2; 0; 0; 64; 0; 0; 2; 0; 2; 9; 196].
Proof. split; [exact (numeric_wire_roundtrip num_b var_b packed_b)|reflexivity]. Defined.

(** C26: two inputs on which the binary format goes wrong.  Sending not-a-number reads a weight behind the end of its two-byte header.  A message whose
    scale is smaller than its digits need is accepted: the number that is stored, 1.5 at scale 0, is shown as 2 but is
    not equal to 2. *)
Theorem numeric_wire_defects :
  NUMERIC_IS_NAN nan_number = true ∧ numeric_send nan_number = UB ∧
  ∃ n two msg, numeric_recv (mkSI [0; 2; 0; 0; 0; 0; 0; 0; 0; 1; 19; 136] 0) (-1) = Ret (n, msg) ∧
    numeric_out n = Ret [50] ∧ numeric_in [50] (-1) = Ret two ∧ numeric_eq n two = Ret false.
Proof. split; [done|]. split; [done|]. eexists _, _, _. repeat split; reflexivity. Qed.
